(* ===== verification/_CoqProject ===== *)
-Q . S2P
Prelude.v
Config.v
Json.v
PolicyWire.v
Telemetry.v
Topology.v
Net.v
Identity.v
ClassIds.v
Schedule.v
Selection.v
Shaper.v
Delivery.v
PriorityPlan.v
Flow.v
Normalization.v
Compiler.v
Evaluator.v
Verdict.v
Sni.v
Transport.v
Sample.v
Aliases.v
Marks.v
Store.v
Command.v
Plan.v
Guarantees.v
Triples.v
Qdisc.v
Executor.v
Local.v
Contexts.v
Inspection.v
Findings.v
Worker.v
Admission.v
Database.v
Sessions.v
Hub.v
Push.v
Applied.v
Names.v
Devices.v
Discovery.v
