(* ===== verification/Prelude.v ===== *)
(** * netqmon: a verification development

    netqmon measures and controls the traffic of a home or office network. An
    agent runs on the gateway: its BPF programs count flows, sample packets and
    apply verdicts; user space polls the counters, orients the flows into client
    and remote, uploads telemetry and enforces policies with BPF maps, nftables
    and traffic-control classes. A collector receives the telemetry, recognizes
    applications, compiles the users' policies into snapshots, and sends them and
    per-flow verdicts to the agent over a WebSocket. The protocol crate is
    what both sides share.

    ** The files and the parts of the program they model

    - [Prelude]: this file. Results with the [?] operator, machine widths,
      bytes, decimal and hexadecimal text, UTF-8, sorted insertion and the
      list lemmas that the components share; SHA-256 as the class [Digest].
    - [Config], [Json]: constants of agent/src/config.rs; the part of
      [serde_json::Value] that the readers of [tc -j] and [nft -j] use.
    - [PolicyWire] (protocol/src/policy.rs): policy language, frames, their
      validation, canonical snapshot and checksum, frame codec.
    - [Telemetry] (protocol/src/validation.rs, sample.rs, codec.rs): batch and
      packet-sample validation; the bounded, optionally compressed codec.
    - [Topology] (agent/src/topology.rs, policy/nft.rs): addresses, prefixes,
      gateway topology, the compaction of prefix lists.
    - [Net]: reading and printing IP addresses as Rust's standard library does.
    - [Identity] (agent/src/identity.rs, policy/identity.rs): MAC addresses and
      the map from clients to their addresses.
    - [ClassIds] (policy/classid.rs, priority_slots.rs, priority_cleanup.rs,
      bpf/include/netqmon_classid.h): class ids, client leases, class cleanup.
    - [Schedule] (policy/schedule.rs, endpoint_block.rs): when a policy is in
      force and how long a learned endpoint block may live.
    - [Selection] (policy/priority_selection.rs): from a snapshot and a clock
      to the rates and blocks in force, and the next change.
    - [Shaper] (policy/shaper.rs): the saved shaping state and the allocation
      of client tags and application classes.
    - [Delivery] (policy/priority_delivery.rs), [PriorityPlan]
      (policy/priority_plan.rs): which port delivers to which client, and the
      class tree of every queue.
    - [Flow] (agent/src/flow.rs, lifecycle.rs): flow keys and their byte layout,
      flow identities, the runtime that turns polled counters into deltas and
      lifecycle events.
    - [Normalization] (agent/src/conntrack.rs, normalization.rs): the
      connection table and the orientation of captured flows.
    - [Verdict] (policy/flow_verdict.rs, endpoint_block.rs): the verdict map,
      the registry of block claims, install, revoke and reset.
    - [Aliases] (policy/flow_alias.rs, its use in receiver.rs): the packet keys
      under which a flow is known, which of them are verified, and proxy return
      paths.
    - [Marks] (policy/mark.rs): the packet-mark rules of the HTB backend.
    - [Store] (policy/state.rs): the saved policy state on a disk that can stop
      between any two operations.
    - [Command] (policy/receiver.rs, mod.rs, shape_tags.rs): a flow command from
      its arrival to the acknowledgement, over all of the above.
    - [Plan] (policy/executor.rs): what a snapshot blocks, allows and shapes at a
      given moment, the nft script that says so, and what is reported of every
      policy.
    - [Guarantees], [Qdisc] (policy/qdisc.rs): the rates HTB guarantees; the
      change of the queues of several interfaces, its rollback and its recovery
      journal. [Triples]: postconditions of the state and error monad in which
      [Qdisc], [Executor] and [Local] are written.
    - [Executor] (policy/executor.rs): applying a snapshot as a transaction over
      queues, nft table and saved state, and the acknowledgement.
    - [Local] (policy/executor.rs): restoring, reconciling, resuming and the
      emergency unlock.
    - [Transport] (agent/src/transport.rs): the bounded telemetry buffer and
      the sender loop with enrollment, retries and probe results.
    - [Sample] (agent/src/sample.rs, transport.rs): decoding and merging packet
      samples before an upload.
    - [Names] (agent/src/dns_event.rs, dns_parser.rs, dns_observation.rs,
      dhcp_event.rs, dhcp.rs): the addresses that DNS answers give to names, the
      devices in DHCP packets and in the lease file.
    - [Devices] (agent/src/device.rs, its callers in linux.rs): the devices of the
      network with their addresses and names.
    - [Discovery] (agent/src/discovery_event.rs, discovery.rs): the devices that
      announce themselves by mDNS, SSDP, DHCPv6 and HTTP, and the windows in which
      repeated datagrams are dropped.
    - [Compiler] (collector/src/policy/compiler.rs): weekly local-time windows
      to UTC intervals; the snapshot of a gateway.
    - [Evaluator] (collector/src/policy/evaluator.rs, push.rs): which policies
      match a classified flow, the verdict, its lifetime and the flow command.
    - [Sni] (collector/src/dpi/sni.rs): the TLS server name in sampled packets.
    - [Contexts] (collector/src/policy/flow_context.rs): the cache of recent
      flows, and the flows a result of packet inspection belongs to.
    - [Inspection], [Findings], [Worker] (collector/src/dpi/mod.rs): the reported
      ends of flows with their interval index, the results and their
      combination, and the inspection worker over both, with the telemetry that
      reports ends, sampling configurations and dropped samples in between.
    - [Admission] (collector/src/policy/validation.rs, the admission of api.rs):
      what is normalized and refused of a submitted policy.
    - [Database], [Sessions] (collector/src/policy/service.rs, model.rs,
      migrations/policy): the policy tables, statements that can fail,
      transactions, the edits of policies, the reports of agent sessions, and
      what is shown of a policy.
    - [Hub], [Push] (collector/src/policy/push.rs, the stream handler and the flow
      decisions of lib.rs): the hub with the published snapshot, the session and
      the flow commands of each gateway; the task of each stream and the other
      tasks of the collector as the steps of one system ([Push.sys_step]), with
      the frames that were sent on each stream. A task gives way to the others
      before each send, while it waits and between two flows that it evaluates
      again; what it does to the hub and the service for one frame is one step,
      although the source waits for the database in between.
    - [Applied]: that system together with the database: what the snapshots on
      the streams say about the stored policies, in one process of the
      collector that starts with an empty database.

    A struct is a [Record], an enum an [Inductive] with the source's
    constructors, a function a [Definition] or [Fixpoint] of the same name with
    its guards in the source's order. Errors are values of [result] or [option].
    Integers are in [Z] with saturation and wrap-around written out where the
    source has them; bytes are [Z] values below 256; a [HashMap] is a [gmap], an
    ordered collection a sorted list or a list. Mutable state is passed
    explicitly ([Flow.FlowRuntime], [Verdict.Writer], [Transport.System]).
    Whatever is not in the repository is a parameter: JSON, canonical JSON and
    SHA-256 ([PolicyWire.PolicyCodec], [Digest]), protobuf and zstd
    ([Telemetry.MessageCodec]), the calendar and time-zone database
    ([Compiler.Calendar]), the iteration order of a [HashMap] ([Flow.HashOrder],
    [Devices.DeviceOrder]),
    sysfs and the bridge table ([Delivery.LanView]), the outcomes of BPF system
    calls ([Verdict.BpfMap]), HTTP answers ([Transport.Attempt]), nft, tc and the
    interfaces ([Executor.NftRunner], [Qdisc.Interfaces]), the marker file of the
    unlock ([Local.LocalFiles]), the inspection engine and signature matcher
    ([Worker.Inspector]), the catalog of selectors ([Admission.validate_spec]),
    the JSON of stored policies and reports ([Database.SpecJson],
    [Sessions.ReportJson]), the outcome of every SQL statement
    ([Database.outcomes]), the identifiers of commands and the order in which the
    hub's maps are visited ([Hub.Uuids], [Hub.MapOrder]), the DNS message library
    and the hash function ([Names.DnsCodec], [Discovery.DiscoveryCodec]), and the
    order of all steps with the times they read ([Push.Step]). Each class of laws
    has an instance, which the witnesses use.

    ** What the theorems show

    - The two sides agree: a validator accepts exactly the well-formed values
      (for snapshots by a specification that shares no check with it,
      [PolicyWire.snapshot_says]),
      what the collector builds the agent accepts ([snapshot_accepts],
      [flow_command_accepted]) and can resolve in the snapshot it saved
      ([collector_command_resolves]), what the agent uploads the collector accepts
      ([merged_samples_accepted]), and encoders and decoders are inverse.
    - Decisions: the client selection, the verdict of a flow and the compiled
      schedule mean what the policies say; they are stable until the
      announced next transition. What a schedule says is read off the clocks of
      its time zone ([Compiler.wall_clock]), repeated and skipped hours included.
    - Allocation: leases, tags and class ids are distinct, in range and
      stable, and allocation fails only when it must; the class trees are
      trees with nested rates; the plan serves each client on its own port.
    - State over time: flow accounting and lifecycle over any sequence of
      polls, the registry of block claims under any interleaving and any
      failing system call, the telemetry buffer and sender under any
      interleaving (the oldest batches are dropped, only as needed), delivery in
      order and eventual delivery, what is known of a flow's packet keys after
      any sequence of observations and the evidence there is for it.
    - Enforcement: an acknowledged block is authorised by the saved snapshot and
      in the verdict map until its deadline ([block_command_enforced]); the saved
      state is the old or the new one wherever the machine stops
      ([persist_crash_safe]). A snapshot is applied entirely or not at all,
      but for the failures that [snapshot_transaction] names
      ([interrupted_change_recovers]); the plan blocks exactly the clients whose
      policies say so and reports as enforced only what is installed; guaranteed
      rates fit into the link. Where the kernel enforced the saved state before, a
      successful reconciliation means that it enforces the saved snapshot; where
      the queues are the saved ones, a successful unlock means that it enforces
      nothing. [Executor] and [Local] have examples of what happens otherwise.
    - Recognition: the caches of contexts, results and sampled flows agree with
      their indices and are bounded; a result reaches exactly the flows it
      belongs to; a flow whose end was reported, by a report that is retained and
      a second old, does not stay under inspection after a pass. A recent context
      is missing only if the cache is full of later ones. An
      address is reported for a queried name exactly if the answer leads from one
      to the other ([observations_exact]), and the options of a DHCP packet are
      read as they were written ([dhcp_packet_read]). What is reported of the
      devices is what was last observed of them ([device_cache_exact]).
    - The policy database: an admitted policy passes the agent's validation
      ([admitted_policy_accepted]); whatever statement fails, the audit log
      replays to the stored policies ([audit_log_replays]), edits are serialized
      by the revision ([edits_serialized]), stored limits do not overlap
      ([stored_limits_disjoint]); reports of replaced sessions change nothing
      ([sessions_fenced]).
    - The policy streams: the snapshots on a stream only get newer and a command
      follows the snapshot it belongs to ([stream_ordered]); queues and retries
      are bounded ([delivery_bounded]); a snapshot holds the policies that are
      stored at its revision ([snapshots_truthful]); what is shown as applied was
      acknowledged for a snapshot that was sent and holds what is stored, and its
      agent is recorded as connected ([shown_end_to_end]). These hold for runs of fewer than 2^64 - 1 steps,
      after which the connection counter of the hub would start again.
    - Robustness: parsing network input ends without an index out of bounds,
      over any sequence of captures ([discovery_processor_exact]), and a body
      beyond the limit is refused before it is read.

    ** Fuel and bounds

    Decimal text is produced with 20 digits of fuel and hexadecimal text with
    16, which is enough for 64 bit values ([dec_text_digits]). The loops of
    [Sni] have the length of their input plus one as fuel, and
    [extract_tls_sni_total] proves that it is never used up; so do those of
    [Names] and [Discovery], where running out of fuel is an outcome of its own
    that the theorems exclude. The day loop of
    [Compiler] has as fuel the number of local days of its horizon, and the
    search for an existing local time has the 181 attempts that the source has.
    The loops of [Inspection] and [Findings] that pop an ordered set have its
    size as fuel. All other loops are structural.

    ** Not modelled

    - Calls of the operating system and their wrappers: netlink, the BPF loader
      and its maps, [tc] and [nft] processes, sysfs and procfs readers, files,
      sockets, HTTP and WebSocket plumbing, threads and signals
      (agent/src/linux.rs and linux/, the tc scripts of policy/qdisc.rs, the
      status report and metrics upload of executor.rs, the session of
      receiver.rs, the routes of collector/src/lib.rs and api.rs, main.rs). Their
      decisions are in the files above where they are separate functions.
    - A restart of the collector on an existing database: the runs of [Sessions],
      [Push] and [Applied] begin with an empty one.
    - The priority backend inside a flow command (policy/shape_tags.rs,
      linux/qos_priority_runtime.rs): [Command] is the HTB backend.
    - The queries of crates/storage, collector/src/insights and query_api: what
      they return is the behaviour of the database engines. Opening and migrating
      the policy database, and reading YAML (policy/repository.rs, model.rs).
    - nDPI, the C code under bpf/, generated bindings (libbpf-sys), the
      classifier's executables, the web interface, packaging.

    ** Plan

    Next in order: the pending attribution of crates/storage, the metrics of policy/executor.rs, the receiver's session,
    the tags of the priority backend. *)

From stdpp Require Export base option list gmap strings sorting.
From Stdlib Require Export ZArith Lia Ascii.

#[export] Set Default Goal Selector "!".

(** ** Results: Rust's [Result<T, E>] with the [?] operator as monadic bind. *)

Inductive result (E A : Type) : Type :=
| Ok (a : A)
| Err (e : E).
Arguments Ok {E A} a.
Arguments Err {E A} e.

#[export] Instance result_ret {E} : MRet (result E) := λ A a, Ok a.
#[export] Instance result_bind {E} : MBind (result E) := λ A B f r,
  match r with Ok a => f a | Err e => Err e end.
#[export] Instance result_fmap {E} : FMap (result E) := λ A B f r,
  match r with Ok a => Ok (f a) | Err e => Err e end.

Definition is_ok {E A} (r : result E A) : bool :=
  match r with Ok _ => true | Err _ => false end.

(** [ok_or]: an absent value becomes the given error. *)
Definition ok_or {E A} (o : option A) (e : E) : result E A :=
  match o with Some a => Ok a | None => Err e end.

(** [Result::ok]. *)
Definition ok {E A} (r : result E A) : option A :=
  match r with Ok a => Some a | Err _ => None end.

(** [map_err]. *)
Definition map_err {E F A} (f : E → F) (r : result E A) : result F A :=
  match r with Ok a => Ok a | Err e => Err (f e) end.

(** A guard clause [if bad { return Err(e) }]. *)
Definition reject_if {E} (bad : bool) (e : E) : result E unit :=
  if bad then Err e else Ok tt.

(** A [for] loop with an accumulator whose body may leave with [?]. *)
Fixpoint foldM {E S A} (f : S → A → result E S) (s : S) (l : list A) : result E S :=
  match l with
  | [] => Ok s
  | a :: l => s' ← f s a; foldM f s' l
  end.

(** A [for] loop that only checks its elements. *)
Fixpoint eachM {E A} (f : A → result E unit) (l : list A) : result E unit :=
  match l with
  | [] => Ok tt
  | a :: l => _ ← f a; eachM f l
  end.

(** [iter().map(f).collect::<Result<Vec<_>, _>>()]. *)
Fixpoint mapR {E A B} (f : A → result E B) (l : list A) : result E (list B) :=
  match l with
  | [] => Ok []
  | a :: l => b ← f a; bs ← mapR f l; Ok (b :: bs)
  end.

Lemma bind_Ok {E A B} (r : result E A) (f : A → result E B) b :
  (r ≫= f) = Ok b ↔ ∃ a, r = Ok a ∧ f a = Ok b.
Proof. destruct r as [a|e]; simpl; split; [eauto| |done|]; intros (? & ? & ?); congruence. Qed.

Lemma bind_Err {E A B} (r : result E A) (f : A → result E B) e :
  (r ≫= f) = Err e ↔ r = Err e ∨ ∃ a, r = Ok a ∧ f a = Err e.
Proof.
  destruct r as [a|e']; simpl; split.
  - eauto.
  - intros [?|(? & ? & ?)]; congruence.
  - intros [= ->]; by left.
  - intros [?|(? & ? & ?)]; congruence.
Qed.

Lemma reject_if_Ok {E} bad (e : E) u : reject_if bad e = Ok u ↔ bad = false.
Proof. by destruct bad, u. Qed.

Lemma reject_if_Err {E} bad (e e' : E) : reject_if bad e = Err e' ↔ bad = true ∧ e = e'.
Proof. destruct bad; simpl; split; try done; [by intros [= ->]|by intros [_ ->]|by intros [? _]]. Qed.

Lemma ok_or_Ok {E A} (o : option A) (e : E) a : ok_or o e = Ok a ↔ o = Some a.
Proof. destruct o; simpl; split; congruence. Qed.

Lemma ok_Some {E A} (r : result E A) a : ok r = Some a ↔ r = Ok a.
Proof. destruct r; simpl; split; congruence. Qed.

Lemma map_err_Ok {E F A} (f : E → F) (r : result E A) a : map_err f r = Ok a ↔ r = Ok a.
Proof. destruct r; simpl; split; congruence. Qed.

Lemma reject_seq {E A} bad (e : E) (k : unit → result E A) a :
  (reject_if bad e ≫= k) = Ok a ↔ bad = false ∧ k tt = Ok a.
Proof. destruct bad; simpl; split; [done|by intros [? _]|done|by intros [_ ?]]. Qed.

Lemma check_seq {E A} (c : result E unit) (k : unit → result E A) a :
  (c ≫= k) = Ok a ↔ c = Ok tt ∧ k tt = Ok a.
Proof. destruct c as [[]|]; simpl; split; [done|by intros [_ ?]|done|by intros [? _]]. Qed.

Section results.
Context {E S A B : Type}.

Lemma eachM_Ok (f : A → result E unit) l :
  eachM f l = Ok tt ↔ Forall (λ a, f a = Ok tt) l.
Proof.
  induction l as [|a l IH]; simpl; [by split|].
  rewrite bind_Ok, Forall_cons, <- IH. split.
  - by intros ([] & ? & ?).
  - intros [? ?]; eauto.
Qed.

Lemma foldM_app (f : S → A → result E S) s l1 l2 :
  foldM f s (l1 ++ l2) = (s' ← foldM f s l1; foldM f s' l2).
Proof. revert s; induction l1 as [|a l1 IH]; intros s; simpl; [done|]. destruct (f s a); simpl; auto. Qed.

(** The loop rule: an invariant of the processed prefix. *)
Lemma foldM_ind (P : list A → S → Prop) (f : S → A → result E S) :
  (∀ pre s a s', P pre s → f s a = Ok s' → P (pre ++ [a]) s') →
  ∀ l pre s s', P pre s → foldM f s l = Ok s' → P (pre ++ l) s'.
Proof.
  intros Hstep l; induction l as [|a l IH]; intros pre s s' HP H; simpl in H.
  - injection H as <-. by rewrite app_nil_r.
  - apply bind_Ok in H as (s1 & H1 & H2).
    replace (pre ++ a :: l) with ((pre ++ [a]) ++ l) by by rewrite <- app_assoc.
    eauto.
Qed.

Lemma foldM_inv (P : S → Prop) (f : S → A → result E S) l s s' :
  (∀ s a s', P s → f s a = Ok s' → P s') → P s → foldM f s l = Ok s' → P s'.
Proof.
  intros Hstep HP H. revert s HP H; induction l as [|a l IH]; intros s HP H; simpl in H; [naive_solver|].
  apply bind_Ok in H as (s1 & H1 & H2). eauto.
Qed.

Lemma foldM_not_Err (f : S → A → result E S) (e : E) l s :
  (∀ s a, f s a ≠ Err e) → foldM f s l ≠ Err e.
Proof.
  intros Hf. revert s; induction l as [|a l IH]; intros s; simpl; [done|].
  rewrite bind_Err. intros [?|(? & _ & ?)]; [by eapply Hf|by eapply IH].
Qed.

Lemma mapR_Ok (f : A → result E B) l bs :
  mapR f l = Ok bs ↔ Forall2 (λ a b, f a = Ok b) l bs.
Proof.
  revert bs; induction l as [|a l IH]; intros bs; simpl.
  - split; [intros [= <-]; constructor|]. by inversion 1.
  - rewrite bind_Ok. setoid_rewrite bind_Ok. split.
    + intros (b & Hb & bs' & Hbs & [= <-]). constructor; [done|]. by apply IH.
    + inversion 1 as [|? b ? bs' Hb Hbs]; subst. apply IH in Hbs. eauto.
Qed.

Lemma mapR_never (f : A → result E B) l e :
  (∀ a, a ∈ l → ∀ e, f a ≠ Err e) → mapR f l ≠ Err e.
Proof.
  induction l as [|a l IH]; intros Hf; simpl; [done|].
  destruct (f a) as [b|e'] eqn:Ha; simpl; [|by destruct (Hf a ltac:(set_solver) e')].
  destruct (mapR f l) as [bs|e'']; simpl; [done|]. intros [= ->]. apply IH; [|done]. set_solver.
Qed.
End results.

(** ** State and errors: a call that updates a state even when it fails. *)

Definition stM (S E A : Type) : Type := S → S * result E A.

#[export] Instance stM_ret {S E} : MRet (stM S E) := λ A a s, (s, Ok a).
#[export] Instance stM_bind {S E} : MBind (stM S E) := λ A B f c s,
  match c s with
  | (s, Ok a) => f a s
  | (s, Err e) => (s, Err e)
  end.

Definition lift {S E A} (r : result E A) : stM S E A := λ s, (s, r).

Fixpoint foldS {S E A B} (f : B → A → stM S E B) (b : B) (l : list A) : stM S E B :=
  match l with
  | [] => mret b
  | a :: l => b ← f b a; foldS f b l
  end.

Lemma stM_bind_Ok {S E A B} (c : stM S E A) (f : A → stM S E B) s s' b :
  (c ≫= f) s = (s', Ok b) ↔ ∃ s1 a, c s = (s1, Ok a) ∧ f a s1 = (s', Ok b).
Proof.
  unfold mbind, stM_bind. destruct (c s) as [s1 [a|e]]; split.
  - eauto.
  - intros (? & ? & [= <- <-] & ?). done.
  - done.
  - intros (? & ? & ? & _). done.
Qed.

(** [inv_ok] turns hypotheses saying that a sequence of checks succeeded into
    the facts each check established. *)
Ltac inv_ok :=
  repeat match goal with
  | H : mbind _ _ = Ok _ |- _ => apply bind_Ok in H as (? & ? & H)
  | H : reject_if _ _ = Ok _ |- _ => apply reject_if_Ok in H
  | H : ok_or _ _ = Ok _ |- _ => apply ok_or_Ok in H
  | H : map_err _ _ = Ok _ |- _ => apply map_err_Ok in H
  | H : Err _ = Ok _ |- _ => discriminate H
  | H : Ok _ = Ok _ |- _ => injection H as H
  | H : (if ?b then Err _ else _) = Ok _ |- _ => destruct b eqn:?; [discriminate H|]
  | u : unit |- _ => destruct u
  end.

(** [split_bools] splits boolean conjunctions and negated disjunctions. *)
Ltac split_bools :=
  repeat match goal with
  | H : (_ || _)%bool = false |- _ => apply orb_false_iff in H as [? ?]
  | H : (_ && _)%bool = true |- _ => apply andb_true_iff in H as [? ?]
  | H : negb _ = true |- _ => apply negb_true_iff in H
  | H : negb _ = false |- _ => apply negb_false_iff in H
  | H : String.eqb _ _ = true |- _ => apply String.eqb_eq in H
  | H : String.eqb _ _ = false |- _ => apply String.eqb_neq in H
  | H : bool_decide _ = true |- _ => apply bool_decide_eq_true in H
  | H : bool_decide _ = false |- _ => apply bool_decide_eq_false in H
  end.

(** ** Sorting: Rust's stable [sort_by] as an insertion sort. *)

Section sort.
Context {A : Type} (leb : A → A → bool).

Fixpoint sort_insert (x : A) (l : list A) : list A :=
  match l with
  | [] => [x]
  | y :: l' => if leb x y then x :: l else y :: sort_insert x l'
  end.

Definition sort_by (l : list A) : list A := foldr sort_insert [] l.

Lemma sort_insert_perm x l : sort_insert x l ≡ₚ x :: l.
Proof.
  induction l as [|y l IH]; simpl; [done|].
  destruct (leb x y); [done|]. rewrite IH. apply Permutation_swap.
Qed.

Lemma sort_by_perm l : sort_by l ≡ₚ l.
Proof. induction l as [|x l IH]; simpl; [done|]. by rewrite sort_insert_perm, IH. Qed.

Lemma elem_of_sort_by x l : x ∈ sort_by l ↔ x ∈ l.
Proof. by rewrite sort_by_perm. Qed.

Lemma length_sort_by l : length (sort_by l) = length l.
Proof. by rewrite sort_by_perm. Qed.

Section sorted.
Context (leb_total : ∀ x y, leb x y = false → leb y x = true).
Context (leb_trans : ∀ x y z, leb x y = true → leb y z = true → leb x z = true).

Lemma sort_insert_sorted x l :
  StronglySorted (λ a b, leb a b = true) l →
  StronglySorted (λ a b, leb a b = true) (sort_insert x l).
Proof.
  induction 1 as [|y l Hs IH Hall]; simpl; [by repeat constructor|].
  destruct (leb x y) eqn:Hxy.
  - constructor; [by constructor|]. constructor; [done|].
    eapply Forall_impl; [exact Hall|]. simpl. eauto.
  - constructor; [done|]. rewrite sort_insert_perm. constructor; auto.
Qed.

Lemma sort_by_sorted l : StronglySorted (λ a b, leb a b = true) (sort_by l).
Proof. induction l; simpl; [constructor|]. by apply sort_insert_sorted. Qed.
End sorted.

(** A list that is already in order is left alone, and equal keys keep
    their order: this is what makes the insertion sort stable. *)
Lemma sort_by_id l : StronglySorted (λ a b, leb a b = true) l → sort_by l = l.
Proof.
  induction 1 as [|x l Hs IH Hall]; simpl; [done|]. rewrite IH.
  destruct l as [|y l]; simpl; [done|]. apply Forall_cons in Hall as [-> _]. done.
Qed.
End sort.

Lemma StronglySorted_impl {A} (P Q : A → A → Prop) l :
  (∀ x y, P x y → Q x y) → StronglySorted P l → StronglySorted Q l.
Proof. intros Hpq. induction 1 as [|a l Hs IH Hall]; constructor; [done|]. eapply Forall_impl; [exact Hall|auto]. Qed.

Lemma sort_by_unique {A} (leb : A → A → bool) (l l' : list A) :
  (∀ x y, leb x y = false → leb y x = true) →
  (∀ x y z, leb x y = true → leb y z = true → leb x z = true) →
  (∀ x y, x ∈ l → y ∈ l → leb x y = true → leb y x = true → x = y) →
  l ≡ₚ l' → sort_by leb l = sort_by leb l'.
Proof.
  intros Htot Htr Hanti Hp.
  apply (StronglySorted_unique_strong (λ a b, leb a b = true)).
  - intros x y Hx Hy. rewrite elem_of_sort_by in Hx. rewrite elem_of_sort_by, <- Hp in Hy. by apply Hanti.
  - by apply sort_by_sorted.
  - by apply sort_by_sorted.
  - by rewrite !sort_by_perm.
Qed.

(** Sorting by a key without duplicates gives a strictly increasing list. *)
Lemma sort_by_strict {A} (key : A → Z) (l : list A) :
  NoDup (key <$> l) → StronglySorted (λ a b, (key a < key b)%Z) (sort_by (λ a b, (key a <=? key b)%Z) l).
Proof.
  intros Hnd. assert (NoDup (key <$> sort_by (λ a b, (key a <=? key b)%Z) l)) as Hnd' by by rewrite sort_by_perm.
  assert (StronglySorted (λ a b, (key a <=? key b)%Z = true) (sort_by (λ a b, (key a <=? key b)%Z) l)) as Hs
    by (apply sort_by_sorted; intros *; rewrite ?Z.leb_le, ?Z.leb_gt; lia).
  revert Hnd' Hs. generalize (sort_by (λ a b, (key a <=? key b)%Z) l) as k. clear.
  induction k as [|a k IH]; intros Hnd Hs; [constructor|]. rewrite fmap_cons, NoDup_cons in Hnd.
  destruct Hnd as [Hna Hnd]. inversion_clear Hs as [|? ? Hk Hall]. constructor; [by apply IH|].
  rewrite Forall_forall in Hall |- *. intros b Hb. specialize (Hall b Hb).
  assert (key a ≠ key b); [|lia]. intros Heq. apply Hna, list_elem_of_fmap. eauto.
Qed.

(** Elements of a list are determined by a key without duplicates. *)
Lemma NoDup_key_inj {A K} (key : A → K) (l : list A) x y :
  NoDup (key <$> l) → x ∈ l → y ∈ l → key x = key y → x = y.
Proof.
  intros Hnd [i Hi]%list_elem_of_lookup [j Hj]%list_elem_of_lookup Hk.
  assert (i = j) as ->; [|congruence].
  eapply NoDup_lookup; [exact Hnd|by rewrite list_lookup_fmap, Hi|rewrite list_lookup_fmap, Hj; cbn; by rewrite Hk].
Qed.

(** A list whose set of elements is as large as the list has no duplicates. *)
Lemma size_list_to_set_le {A} `{Countable A} (l : list A) : (size (list_to_set l : gset A) ≤ length l)%nat.
Proof.
  induction l as [|a l IH]; cbn; [by rewrite size_empty|]. rewrite size_union_alt, size_singleton.
  pose proof (subseteq_size (list_to_set l ∖ {[a]} : gset A) (list_to_set l) ltac:(set_solver)). lia.
Qed.

Lemma NoDup_by_size {A} `{Countable A} (l : list A) : size (list_to_set l : gset A) = length l → NoDup l.
Proof.
  induction l as [|a l IH]; intros Hs; [constructor|]. cbn in Hs. pose proof (size_list_to_set_le l).
  destruct (decide (a ∈ l)) as [Ha|Ha].
  - replace ({[a]} ∪ list_to_set l : gset A) with (list_to_set l : gset A) in Hs by set_solver. lia.
  - constructor; [done|]. apply IH. rewrite size_union, size_singleton in Hs by set_solver. lia.
Qed.

(** ** Boolean quantifiers over lists *)

Lemma existsb_false {A} (p : A → bool) l : existsb p l = false ↔ Forall (λ a, p a = false) l.
Proof.
  induction l as [|a l IH]; simpl; [by split|]. by rewrite orb_false_iff, Forall_cons, IH.
Qed.

Lemma forallb_Forall {A} (p : A → bool) l : forallb p l = true ↔ Forall (λ a, p a = true) l.
Proof.
  induction l as [|a l IH]; simpl; [by split|]. by rewrite andb_true_iff, Forall_cons, IH.
Qed.

Lemma Forall2_elem_impl {A B} (P Q : A → B → Prop) l k :
  Forall2 P l k → (∀ x y, x ∈ l → y ∈ k → P x y → Q x y) → Forall2 Q l k.
Proof.
  induction 1 as [|x y l k Hxy Hall IH]; intros HPQ; constructor.
  - apply HPQ; [left|left|done].
  - apply IH. intros. apply HPQ; [by right|by right|done].
Qed.

Lemma Forall2_elem_l {A B} (P : A → B → Prop) l k x : Forall2 P l k → x ∈ l → ∃ y, y ∈ k ∧ P x y.
Proof.
  intros Hall [i Hi]%list_elem_of_lookup. destruct (Forall2_lookup_l _ _ _ _ _ Hall Hi) as (y & Hy & Hxy).
  exists y. split; [by eapply list_elem_of_lookup_2|done].
Qed.

(** ** [slice.windows(2).any(..)]: some adjacent pair satisfies [p]. *)

Fixpoint any_adjacent {A} (p : A → A → bool) (l : list A) : bool :=
  match l with
  | x :: (y :: _) as l' => (p x y || any_adjacent p l')%bool
  | _ => false
  end.

Lemma any_adjacent_false {A} (lt : A → A → Prop) (p : A → A → bool) l :
  (∀ x y z, lt x y → lt y z → lt x z) →
  (∀ x y, p x y = false ↔ lt x y) →
  any_adjacent p l = false ↔ StronglySorted lt l.
Proof.
  intros Htrans Hp. induction l as [|x l IH]; [split; [constructor|done]|].
  destruct l as [|y l]; [split; [repeat constructor|done]|].
  change (any_adjacent p (x :: y :: l)) with (p x y || any_adjacent p (y :: l))%bool.
  rewrite orb_false_iff, Hp, IH. split.
  - intros [Hxy Hs]. constructor; [done|]. constructor; [done|].
    inversion_clear Hs as [|? ? ? Hall]. eapply Forall_impl; [exact Hall|]. eauto.
  - inversion_clear 1 as [|? ? Hs Hall]. by inversion_clear Hall.
Qed.

(** ** Strings: a Rust [str] is the string of its UTF-8 bytes. *)

Open Scope Z_scope.

Definition byte_val (c : ascii) : Z := Z.of_N (N_of_ascii c).

Fixpoint str_bytes (s : string) : list Z :=
  match s with
  | EmptyString => []
  | String c s => byte_val c :: str_bytes s
  end.

(** [str::len]: the number of bytes. *)
Definition str_len (s : string) : Z := Z.of_nat (String.length s).

Definition str_is_empty (s : string) : bool :=
  match s with EmptyString => true | _ => false end.

(** The code points of a valid UTF-8 byte sequence, each with its bytes. *)
Fixpoint utf8_split (bs : list Z) : list (Z * list Z) :=
  match bs with
  | [] => []
  | b0 :: r0 =>
    if b0 <? 128 then (b0, [b0]) :: utf8_split r0 else
    match r0 with
    | [] => []
    | b1 :: r1 =>
      let c1 := Z.land b1 63 in
      if b0 <? 224 then (Z.lor (Z.shiftl (Z.land b0 31) 6) c1, [b0; b1]) :: utf8_split r1 else
      match r1 with
      | [] => []
      | b2 :: r2 =>
        let c2 := Z.lor (Z.shiftl c1 6) (Z.land b2 63) in
        if b0 <? 240 then (Z.lor (Z.shiftl (Z.land b0 15) 12) c2, [b0; b1; b2]) :: utf8_split r2 else
        match r2 with
        | [] => []
        | b3 :: r3 =>
          (Z.lor (Z.shiftl (Z.land b0 7) 18) (Z.lor (Z.shiftl c2 6) (Z.land b3 63)), [b0; b1; b2; b3])
            :: utf8_split r3
        end
      end
    end
  end.

(** [str::chars]. *)
Definition str_chars (s : string) : list Z := fst <$> utf8_split (str_bytes s).

Definition bytes_str (bs : list Z) : string :=
  foldr (λ b s, String (ascii_of_N (Z.to_N b)) s) EmptyString bs.

(** [str::from_utf8]: the well-formed byte sequences of the Unicode standard. *)
Definition is_continuation (b : Z) : bool := ((128 <=? b) && (b <=? 191))%bool.
Fixpoint valid_utf8 (bs : list Z) : bool :=
  match bs with
  | [] => true
  | b0 :: r0 =>
    if b0 <? 128 then valid_utf8 r0
    else match r0 with
    | [] => false
    | b1 :: r1 =>
      if ((194 <=? b0) && (b0 <=? 223))%bool then (is_continuation b1 && valid_utf8 r1)%bool
      else match r1 with
      | [] => false
      | b2 :: r2 =>
        if ((224 <=? b0) && (b0 <=? 239))%bool then
          (((if b0 =? 224 then 160 else 128) <=? b1) && (b1 <=? (if b0 =? 237 then 159 else 191))
           && is_continuation b2 && valid_utf8 r2)%bool
        else match r2 with
        | [] => false
        | b3 :: r3 =>
          ((240 <=? b0) && (b0 <=? 244)
           && ((if b0 =? 240 then 144 else 128) <=? b1) && (b1 <=? (if b0 =? 244 then 143 else 191))
           && is_continuation b2 && is_continuation b3 && valid_utf8 r3)%bool
        end
      end
    end
  end.
Definition from_utf8 (bs : list Z) : option string := if valid_utf8 bs then Some (bytes_str bs) else None.

Fixpoint drop_while {A} (p : A → bool) (l : list A) : list A :=
  match l with [] => [] | a :: l' => if p a then drop_while p l' else l end.

(** [char::is_control]: the Unicode category Cc. *)
Definition is_control (c : Z) : bool := ((c <=? 31) || ((127 <=? c) && (c <=? 159)))%bool.

(** [char::is_whitespace]: the Unicode property White_Space. *)
Definition is_whitespace (c : Z) : bool :=
  (((9 <=? c) && (c <=? 13)) || (c =? 32) || (c =? 133) || (c =? 160) || (c =? 5760)
   || ((8192 <=? c) && (c <=? 8202)) || (c =? 8232) || (c =? 8233) || (c =? 8239)
   || (c =? 8287) || (c =? 12288))%bool.

Definition has_control (s : string) : bool := existsb is_control (str_chars s).

(** [str::trim]. *)
Definition str_trim (s : string) : string :=
  let ws (c : Z * list Z) := is_whitespace (fst c) in
  let front := drop_while ws (utf8_split (str_bytes s)) in
  bytes_str (concat (snd <$> reverse (drop_while ws (reverse front)))).

(** [s.trim().is_empty()]. *)
Definition is_blank (s : string) : bool := forallb is_whitespace (str_chars s).

Definition is_ascii_digit (b : Z) : bool := ((48 <=? b) && (b <=? 57))%bool.
Definition is_ascii_upper (b : Z) : bool := ((65 <=? b) && (b <=? 90))%bool.
Definition is_ascii_lower (b : Z) : bool := ((97 <=? b) && (b <=? 122))%bool.
Definition is_ascii_alphanumeric (b : Z) : bool :=
  (is_ascii_digit b || is_ascii_upper b || is_ascii_lower b)%bool.

(** [str::to_ascii_lowercase] and [str::eq_ignore_ascii_case]. *)
Definition ascii_lower (c : ascii) : ascii :=
  if is_ascii_upper (byte_val c) then ascii_of_N (N_of_ascii c + 32) else c.
Fixpoint to_ascii_lowercase (s : string) : string :=
  match s with
  | EmptyString => EmptyString
  | String c s => String (ascii_lower c) (to_ascii_lowercase s)
  end.
Definition eq_ignore_ascii_case (a b : string) : bool :=
  String.eqb (to_ascii_lowercase a) (to_ascii_lowercase b).

(** [String]'s order is the lexicographic order of the bytes. *)
Definition str_leb (a b : string) : bool := String.leb a b.
Definition str_ltb (a b : string) : bool := negb (String.leb b a).

Lemma str_leb_total a b : str_leb a b = false → str_leb b a = true.
Proof. unfold str_leb. destruct (String.leb_total a b) as [H|H]; rewrite H; done. Qed.

Lemma str_leb_trans a b c : str_leb a b = true → str_leb b c = true → str_leb a c = true.
Proof.
  unfold str_leb. intros Hab Hbc. apply Is_true_true.
  change (String.le a c). etrans; [|by apply Is_true_true in Hbc]. by apply Is_true_true in Hab.
Qed.

Lemma str_leb_antisym a b : str_leb a b = true → str_leb b a = true → a = b.
Proof. apply String.leb_antisym. Qed.

Lemma str_leb_refl a : str_leb a a = true.
Proof. unfold str_leb. destruct (String.leb_total a a) as [H|H]; exact H. Qed.

Definition str_lt (a b : string) : Prop := str_ltb a b = true.

(** The orders of strings, in a scope of their own. *)
Declare Scope netq_scope.
Delimit Scope netq_scope with netq.
Open Scope netq_scope.
Notation "a ≤ₛ b" := (str_leb a b = true) (at level 70, no associativity) : netq_scope.
Notation "a <ₛ b" := (str_lt a b) (at level 70, no associativity) : netq_scope.

Lemma str_lt_leb a b : str_lt a b ↔ str_leb b a = false.
Proof. unfold str_lt, str_ltb. apply negb_true_iff. Qed.

Lemma str_lt_trans a b c : a <ₛ b → b <ₛ c → a <ₛ c.
Proof.
  rewrite !str_lt_leb. intros Hab Hbc.
  destruct (str_leb c a) eqn:Hca; [|done].
  rewrite <- Hab. symmetry. eapply str_leb_trans; [apply str_leb_total, Hbc|done].
Qed.

Lemma str_lt_ne a b : a <ₛ b → a ≠ b.
Proof. rewrite str_lt_leb. intros H ->. by rewrite str_leb_refl in H. Qed.

Lemma str_leb_lt a b : a ≤ₛ b → a ≠ b → a <ₛ b.
Proof.
  rewrite str_lt_leb. intros Hab Hne. destruct (str_leb b a) eqn:Hba; [|done].
  destruct Hne. by apply str_leb_antisym.
Qed.

Lemma strict_keys_NoDup {A} (key : A → string) l : StronglySorted str_lt (key <$> l) → NoDup (key <$> l).
Proof.
  generalize (key <$> l) as ks. induction 1 as [|k ks Hs IH Hall]; constructor; [|done].
  intros Hin. rewrite Forall_forall in Hall. by apply (str_lt_ne k k); auto.
Qed.

(** Pairs are ordered lexicographically. *)
Definition pair_leb {A B} (eqA : A → A → bool) (lebA : A → A → bool) (lebB : B → B → bool)
    (x y : A * B) : bool :=
  if eqA (fst x) (fst y) then lebB (snd x) (snd y) else lebA (fst x) (fst y).

Lemma str_bytes_length s : length (str_bytes s) = String.length s.
Proof. induction s; simpl; congruence. Qed.

Lemma byte_val_bound c : 0 ≤ byte_val c < 256.
Proof. unfold byte_val. pose proof (N_ascii_bounded c). lia. Qed.

Lemma byte_val_inj c d : byte_val c = byte_val d → c = d.
Proof.
  unfold byte_val. intros H. apply N2Z.inj in H.
  rewrite <- (ascii_N_embedding c), <- (ascii_N_embedding d). by rewrite H.
Qed.

Lemma str_bytes_inj s t : str_bytes s = str_bytes t → s = t.
Proof.
  revert t; induction s as [|c s IH]; intros [|d t]; simpl; intros H; try done.
  injection H as Hc Hs. f_equal; [by apply byte_val_inj|auto].
Qed.

Lemma str_is_empty_spec s : str_is_empty s = true ↔ s = EmptyString.
Proof. destruct s; simpl; split; congruence. Qed.

(** ** Ordered maps and sets: [BTreeMap]/[BTreeSet] as [gmap]/[gset], iterated in key order. *)

Definition btree_entries {K V} `{Countable K} (leb : K → K → bool) (m : gmap K V) : list (K * V) :=
  sort_by (λ x y, leb (fst x) (fst y)) (map_to_list m).

Definition btree_elements {K} `{Countable K} (leb : K → K → bool) (X : gset K) : list K :=
  sort_by leb (elements X).

Section btree.
Context {K V : Type} `{Countable K} (leb : K → K → bool).

Lemma elem_of_btree_entries (m : gmap K V) k v :
  (k, v) ∈ btree_entries leb m ↔ m !! k = Some v.
Proof. unfold btree_entries. by rewrite elem_of_sort_by, elem_of_map_to_list. Qed.

Lemma NoDup_btree_keys (m : gmap K V) : NoDup (fst <$> btree_entries leb m).
Proof. unfold btree_entries. rewrite sort_by_perm. apply NoDup_fst_map_to_list. Qed.

Lemma length_btree_entries (m : gmap K V) : length (btree_entries leb m) = size m.
Proof. unfold btree_entries. by rewrite length_sort_by, length_map_to_list. Qed.

Lemma elem_of_btree_elements (X : gset K) k : k ∈ btree_elements leb X ↔ k ∈ X.
Proof. unfold btree_elements. by rewrite elem_of_sort_by, elem_of_elements. Qed.

Lemma NoDup_btree_elements (X : gset K) : NoDup (btree_elements leb X).
Proof. unfold btree_elements. rewrite sort_by_perm. apply NoDup_elements. Qed.

Lemma length_btree_elements (X : gset K) : length (btree_elements leb X) = size X.
Proof. unfold btree_elements. by rewrite length_sort_by. Qed.
End btree.

(** ** Machine integers *)

Definition in_width (w x : Z) : Prop := 0 ≤ x < 2 ^ w.
Abbreviation is_u8 := (in_width 8).
Abbreviation is_u16 := (in_width 16).
Abbreviation is_u32 := (in_width 32).
Abbreviation is_u64 := (in_width 64).
Definition i64_min : Z := - 2 ^ 63.
Definition i64_max : Z := 2 ^ 63 - 1.
Definition is_i64 (x : Z) : Prop := i64_min ≤ x ≤ i64_max.
Definition u64_max : Z := 2 ^ 64 - 1.
(** [u64::saturating_add]. *)
Definition u64_saturating_add (a b : Z) : Z := Z.min u64_max (a + b).

(** Saturating [i64] arithmetic. *)
Definition clamp (lo hi x : Z) : Z := Z.max lo (Z.min hi x).
Definition i64_saturating_add (x y : Z) : Z := clamp i64_min i64_max (x + y).
Definition i64_saturating_sub (x y : Z) : Z := clamp i64_min i64_max (x - y).
Definition u64_saturating_sub (x y : Z) : Z := clamp 0 u64_max (x - y).

(** [(lo..=hi).contains(&x)]. *)
Definition in_range (lo hi x : Z) : bool := ((lo <=? x) && (x <=? hi))%bool.

Lemma in_range_spec lo hi x : in_range lo hi x = true ↔ lo ≤ x ≤ hi.
Proof. unfold in_range. lia. Qed.

Definition zlen {A} (l : list A) : Z := Z.of_nat (length l).

Lemma byte_val_of_Z n : 0 ≤ n < 256 → byte_val (ascii_of_N (Z.to_N n)) = n.
Proof. intros. unfold byte_val. rewrite N_ascii_embedding by lia. lia. Qed.

Lemma str_bytes_app s t : str_bytes (String.append s t) = str_bytes s ++ str_bytes t.
Proof. induction s as [|c s IH]; [done|]. change (byte_val c :: str_bytes (String.append s t) = byte_val c :: (str_bytes s ++ str_bytes t)). by rewrite IH. Qed.

Lemma str_len_bytes s : str_len s = zlen (str_bytes s).
Proof. unfold str_len, zlen. by rewrite str_bytes_length. Qed.

Lemma str_bytes_u8 s : Forall is_u8 (str_bytes s).
Proof. induction s; simpl; constructor; [|done]. pose proof (byte_val_bound a). unfold in_width. lia. Qed.

Lemma str_bytes_of bs : Forall (λ b, 0 ≤ b < 256) bs → str_bytes (bytes_str bs) = bs.
Proof. induction 1 as [|b bs Hb _ IH]; [done|]. cbn. rewrite byte_val_of_Z by done. f_equal. apply IH. Qed.

(** [Read::take(n)] on bytes, counting in [Z]. *)
Fixpoint ztake {A} (n : Z) (l : list A) : list A :=
  match l with
  | [] => []
  | x :: l => if n <=? 0 then [] else x :: ztake (n - 1) l
  end.

Lemma ztake_all {A} n (l : list A) : zlen l ≤ n → ztake n l = l.
Proof.
  unfold zlen. revert n; induction l as [|x l IH]; intros n Hn; simpl in *; [done|].
  rewrite (proj2 (Z.leb_gt _ _)) by lia. f_equal. apply IH. lia.
Qed.

Lemma zlen_ztake {A} n (l : list A) : 0 ≤ n → zlen (ztake n l) = Z.min n (zlen l).
Proof.
  unfold zlen. revert n; induction l as [|x l IH]; intros n Hn; simpl; [lia|].
  destruct (n <=? 0) eqn:Hc; simpl; [lia|]. specialize (IH (n - 1)). lia.
Qed.

Lemma zlen_nonneg {A} (l : list A) : 0 ≤ zlen l.
Proof. unfold zlen. lia. Qed.

Lemma zlen_nil_iff {A} (l : list A) : zlen l = 0 ↔ l = [].
Proof. unfold zlen. destruct l; simpl; split; (done || lia). Qed.

Lemma zlen_cons {A} (a : A) l : zlen (a :: l) = 1 + zlen l.
Proof. unfold zlen. simpl length. lia. Qed.

Lemma zlen_app {A} (l k : list A) : zlen (l ++ k) = zlen l + zlen k.
Proof. unfold zlen. rewrite length_app. lia. Qed.

Lemma zlen_replicate {A} n (x : A) : 0 ≤ n → zlen (replicate (Z.to_nat n) x) = n.
Proof. intros. unfold zlen. rewrite length_replicate. lia. Qed.

(** Packing a low field under a shifted high field, and reading both back. *)
Lemma lor_shiftl a n b : 0 ≤ n → 0 ≤ b < 2 ^ n → Z.lor (Z.shiftl a n) b = a * 2 ^ n + b.
Proof.
  intros Hn Hb. rewrite <- Z.shiftl_mul_pow2 by done. symmetry. apply Z.add_nocarry_lor.
  apply Z.bits_inj'. intros i Hi. rewrite Z.land_spec, Z.bits_0, Z.shiftl_spec by done.
  destruct (Z.lt_ge_cases i n) as [Hlt|Hge]; [by rewrite Z.testbit_neg_r by lia|].
  rewrite <- (Z.mod_small b (2 ^ n)) by lia. rewrite Z.mod_pow2_bits_high by lia. apply andb_false_r.
Qed.

Lemma land_low a n b : 0 ≤ n → 0 ≤ b < 2 ^ n → Z.land (a * 2 ^ n + b) (2 ^ n - 1) = b.
Proof.
  intros Hn Hb. rewrite Z.sub_1_r, <- Z.ones_equiv, Z.land_ones by done.
  rewrite Z.add_comm, Z.mod_add by lia. by apply Z.mod_small.
Qed.

Lemma shiftr_high a n b : 0 ≤ n → 0 ≤ b < 2 ^ n → Z.shiftr (a * 2 ^ n + b) n = a.
Proof.
  intros Hn Hb. rewrite Z.shiftr_div_pow2 by done. rewrite Z.div_add_l by lia.
  rewrite Z.div_small by lia. lia.
Qed.

(** ** Hexadecimal text *)

Definition hex_digit (n : Z) : ascii := ascii_of_N (Z.to_N (if n <? 10 then 48 + n else 87 + n)).

(** [{byte:02x}]. *)
Definition hex_byte (b : Z) : string := String (hex_digit (b / 16)) (String (hex_digit (b mod 16)) "").

Lemma hex_digit_bytes n : 0 ≤ n < 16 → byte_val (hex_digit n) = if n <? 10 then 48 + n else 87 + n.
Proof. intros. unfold hex_digit. rewrite byte_val_of_Z; [done|]. destruct (n <? 10) eqn:?; lia. Qed.

Lemma hex_byte_bytes b : is_u8 b →
  str_bytes (hex_byte b) =
  [if b / 16 <? 10 then 48 + b / 16 else 87 + b / 16;
   if b mod 16 <? 10 then 48 + b mod 16 else 87 + b mod 16].
Proof.
  unfold in_width. intros. unfold hex_byte. simpl.
  rewrite !hex_digit_bytes; [done|apply Z.mod_pos_bound; lia|].
  split; [apply Z.div_pos; lia|apply Z.div_lt_upper_bound; lia].
Qed.


(** [char::to_digit(16)]. *)
Definition hex_value (b : Z) : option Z :=
  if is_ascii_digit b then Some (b - 48)
  else if in_range 97 102 b then Some (b - 87)
  else if in_range 65 70 b then Some (b - 55)
  else None.

Fixpoint hex_digits (max acc : Z) (bs : list Z) : option Z :=
  match bs with
  | [] => Some acc
  | b :: bs =>
    d ← hex_value b;
    if max <? acc * 16 + d then None else hex_digits max (acc * 16 + d) bs
  end.

Definition no_bytes (bs : list Z) : bool := match bs with [] => true | _ => false end.

(** [from_str_radix(text, 16)] of the unsigned type whose greatest value is
    [max]: an optional plus sign, then at least one digit, without overflow. *)
Definition from_hex (max : Z) (text : string) : option Z :=
  match str_bytes text with
  | [] => None
  | b :: bs =>
    if b =? 43 then (if no_bytes bs then None else hex_digits max 0 bs)
    else hex_digits max 0 (b :: bs)
  end.

Fixpoint dec_digits (max acc : Z) (bs : list Z) : option Z :=
  match bs with
  | [] => Some acc
  | b :: bs =>
    if is_ascii_digit b then
      (if max <? acc * 10 + (b - 48) then None else dec_digits max (acc * 10 + (b - 48)) bs)
    else None
  end.

(** [str::parse] of the unsigned type whose greatest value is [max]. *)
Definition from_dec (max : Z) (text : string) : option Z :=
  match str_bytes text with
  | [] => None
  | b :: bs =>
    if b =? 43 then (if no_bytes bs then None else dec_digits max 0 bs)
    else dec_digits max 0 (b :: bs)
  end.

(** [{n:x}], for numbers of at most 64 bits. *)
Fixpoint hex_text_aux (fuel : nat) (n : Z) (s : string) : string :=
  match fuel with
  | O => s
  | S fuel =>
    let s := String (hex_digit (n mod 16)) s in
    if n <? 16 then s else hex_text_aux fuel (n / 16) s
  end.
Definition hex_text (n : Z) : string := hex_text_aux 16 n EmptyString.

(** [{n}], for numbers of at most 64 bits. *)
Fixpoint dec_text_aux (fuel : nat) (n : Z) (s : string) : string :=
  match fuel with
  | O => s
  | S fuel =>
    let s := String (ascii_of_N (Z.to_N (48 + n mod 10))) s in
    if n <? 10 then s else dec_text_aux fuel (n / 10) s
  end.
Definition dec_text (n : Z) : string := dec_text_aux 20 n EmptyString.

Lemma hex_value_digit n : 0 ≤ n < 16 → hex_value (byte_val (hex_digit n)) = Some n.
Proof.
  intros. rewrite hex_digit_bytes by done.
  unfold hex_value, is_ascii_digit, in_range. destruct (n <? 10) eqn:Hn.
  - replace ((48 <=? 48 + n) && (48 + n <=? 57))%bool with true by lia. f_equal; lia.
  - replace ((48 <=? 87 + n) && (87 + n <=? 57))%bool with false by lia.
    replace ((97 <=? 87 + n) && (87 + n <=? 102))%bool with true by lia. f_equal; lia.
Qed.

Lemma hex_digits_cons max acc n bs : 0 ≤ n < 16 → acc * 16 + n ≤ max →
  hex_digits max acc (byte_val (hex_digit n) :: bs) = hex_digits max (acc * 16 + n) bs.
Proof.
  intros Hn Hm. cbn [hex_digits]. rewrite hex_value_digit by done. cbn [mbind option_bind].
  by rewrite (proj2 (Z.ltb_ge _ _)) by done.
Qed.

Lemma hex_digits_bound max bs acc v : 0 ≤ acc ≤ max → Forall (λ b, 0 ≤ b) bs →
  hex_digits max acc bs = Some v → 0 ≤ v ≤ max.
Proof.
  revert acc. induction bs as [|b bs IH]; intros acc Hacc Hbs Hv; simpl in Hv; [congruence|].
  destruct (hex_value b) as [d|] eqn:Hd; [|done]. cbn [mbind option_bind] in Hv.
  destruct (max <? acc * 16 + d) eqn:Hov; [done|]. apply Forall_cons in Hbs as [Hb Hbs].
  eapply IH; [|done|exact Hv]. unfold hex_value, is_ascii_digit, in_range in Hd.
  repeat case_match; simplify_eq; lia.
Qed.

Lemma from_hex_bound max text v : 0 ≤ max → from_hex max text = Some v → 0 ≤ v ≤ max.
Proof.
  unfold from_hex. intros Hmax. pose proof (str_bytes_u8 text) as Hu.
  assert (Forall (λ b, 0 ≤ b) (str_bytes text)) as Hnn.
  { eapply Forall_impl; [exact Hu|]. unfold in_width. simpl. lia. }
  destruct (str_bytes text) as [|b bs]; [done|].
  intros Hv. destruct (b =? 43); [destruct (no_bytes bs); [done|]|];
    eapply hex_digits_bound; try exact Hv; try lia; [by apply Forall_cons in Hnn as [_ ?]|done].
Qed.

Lemma hex_text_digits max fuel n s : 0 ≤ n < 16 ^ Z.of_nat fuel → n ≤ max → (0 < fuel)%nat →
  hex_digits max 0 (str_bytes (hex_text_aux fuel n s)) = hex_digits max n (str_bytes s).
Proof.
  revert n s. induction fuel as [|fuel IH]; intros n s Hn Hm Hf; [lia|].
  cbn [hex_text_aux]. destruct (n <? 16) eqn:Hlt.
  - cbn [str_bytes]. rewrite Z.mod_small by lia. rewrite hex_digits_cons by lia. f_equal.
  - pose proof (Z.div_mod n 16 ltac:(lia)). pose proof (Z.mod_pos_bound n 16 ltac:(lia)).
    rewrite Nat2Z.inj_succ, Z.pow_succ_r in Hn by lia.
    rewrite IH; [|split; [apply Z.div_pos; lia|apply Z.div_lt_upper_bound; lia]|lia|].
    2:{ destruct fuel; [simpl in Hn; lia|lia]. }
    cbn [str_bytes]. rewrite hex_digits_cons by lia. f_equal. lia.
Qed.

Lemma hex_text_head fuel n s : (0 < fuel)%nat →
  ∃ d bs, str_bytes (hex_text_aux fuel n s) = byte_val (hex_digit d) :: bs ∧ 0 ≤ d < 16.
Proof.
  revert n s. induction fuel as [|fuel IH]; intros n s Hf; [lia|]. cbn [hex_text_aux].
  pose proof (Z.mod_pos_bound n 16 ltac:(lia)).
  destruct (n <? 16); [eexists _, _; cbn [str_bytes]; eauto|].
  destruct fuel as [|fuel]; [eexists _, _; cbn [hex_text_aux str_bytes]; eauto|]. apply IH. lia.
Qed.

(** Hexadecimal text reads back. *)
Lemma from_hex_text max n : 0 ≤ n ≤ max → is_u64 n → from_hex max (hex_text n) = Some n.
Proof.
  unfold in_width, from_hex, hex_text. intros Hn Hw.
  destruct (hex_text_head 16 n EmptyString ltac:(lia)) as (d & bs & Hbs & Hd).
  pose proof (hex_text_digits max 16 n EmptyString) as Hdig. rewrite Hbs in *.
  rewrite hex_digit_bytes in * by done.
  replace ((if d <? 10 then 48 + d else 87 + d) =? 43) with false by (destruct (d <? 10) eqn:?; lia).
  rewrite Hdig; [done|simpl; lia|lia|lia].
Qed.

(** The same for decimal text. *)
Lemma dec_text_digits max fuel n s : 0 ≤ n < 10 ^ Z.of_nat fuel → n ≤ max → (0 < fuel)%nat →
  dec_digits max 0 (str_bytes (dec_text_aux fuel n s)) = dec_digits max n (str_bytes s).
Proof.
  assert (∀ acc d bs, 0 ≤ d < 10 → acc * 10 + d ≤ max →
    dec_digits max acc (byte_val (ascii_of_N (Z.to_N (48 + d))) :: bs) = dec_digits max (acc * 10 + d) bs) as Hcons.
  { intros acc d bs Hd Hm. cbn [dec_digits]. rewrite byte_val_of_Z by lia. unfold is_ascii_digit.
    rewrite !(proj2 (Z.leb_le _ _)) by lia. cbn [andb]. replace (48 + d - 48) with d by lia. by rewrite (proj2 (Z.ltb_ge _ _)) by lia. }
  revert n s. induction fuel as [|fuel IH]; intros n s Hn Hm Hf; [lia|].
  cbn [dec_text_aux]. destruct (n <? 10) eqn:Hlt.
  - cbn [str_bytes]. rewrite Z.mod_small by lia. by rewrite Hcons by lia.
  - pose proof (Z.div_mod n 10 ltac:(lia)). pose proof (Z.mod_pos_bound n 10 ltac:(lia)).
    rewrite Nat2Z.inj_succ, Z.pow_succ_r in Hn by lia.
    rewrite IH; [|split; [apply Z.div_pos; lia|apply Z.div_lt_upper_bound; lia]|lia|].
    2:{ destruct fuel; [simpl in Hn; lia|lia]. }
    cbn [str_bytes]. rewrite Hcons by lia. f_equal. lia.
Qed.

Lemma dec_text_inj n m : is_u64 n → is_u64 m → dec_text n = dec_text m → n = m.
Proof.
  intros Hn Hm Heq. assert (∀ x, is_u64 x → dec_digits u64_max 0 (str_bytes (dec_text x)) = Some x) as Hread.
  { unfold in_width, dec_text. intros x Hx. rewrite dec_text_digits; [done| | |lia]; unfold u64_max; simpl Z.of_nat; lia. }
  pose proof (Hread n Hn) as H1. rewrite Heq, (Hread m Hm) in H1. congruence.
Qed.

Lemma dec_text_bytes_digits fuel n s : Forall (λ b, is_ascii_digit b = true) (str_bytes s) →
  Forall (λ b, is_ascii_digit b = true) (str_bytes (dec_text_aux fuel n s)) ∧
  (String.length (dec_text_aux fuel n s) ≤ fuel + String.length s)%nat.
Proof.
  revert n s. induction fuel as [|fuel IH]; intros n s Hs; cbn [dec_text_aux]; [split; [done|lia]|].
  assert (Forall (λ b, is_ascii_digit b = true) (str_bytes (String (ascii_of_N (Z.to_N (48 + n mod 10))) s))) as Hcons.
  { constructor; [|done]. pose proof (Z.mod_pos_bound n 10 ltac:(lia)). rewrite byte_val_of_Z by lia. unfold is_ascii_digit. lia. }
  destruct (n <? 10); [split; [done|cbn; lia]|]. destruct (IH (n / 10) _ Hcons) as [H1 H2]. split; [done|]. cbn in H2. lia.
Qed.

Lemma dec_text_ascii n : Forall (λ b, is_ascii_digit b = true) (str_bytes (dec_text n)) ∧ str_len (dec_text n) ≤ 20.
Proof.
  unfold dec_text. destruct (dec_text_bytes_digits 20 n EmptyString) as [H1 H2]; [constructor|]. split; [done|].
  unfold str_len. cbn [String.length] in H2. lia.
Qed.

Lemma from_hex_byte b : is_u8 b → from_hex 255 (hex_byte b) = Some b.
Proof.
  unfold in_width, from_hex, hex_byte. intros Hb. cbn [str_bytes].
  assert (0 ≤ b / 16 < 16) as Hhi by (split; [apply Z.div_pos; lia|apply Z.div_lt_upper_bound; lia]).
  pose proof (Z.mod_pos_bound b 16 ltac:(lia)). pose proof (Z.div_mod b 16 ltac:(lia)).
  replace (byte_val (hex_digit (b / 16)) =? 43) with false
    by (rewrite hex_digit_bytes by lia; destruct (b / 16 <? 10) eqn:?; lia).
  rewrite !hex_digits_cons by lia. cbn [hex_digits]. f_equal. lia.
Qed.

(** A digest as lowercase hexadecimal text. *)
Definition hex_bytes (bs : list Z) : string := foldr (λ b s, String.append (hex_byte b) s) "" bs.

Lemma hex_bytes_cons b bs :
  str_bytes (hex_bytes (b :: bs)) = str_bytes (hex_byte b) ++ str_bytes (hex_bytes bs).
Proof. apply str_bytes_app. Qed.

Lemma hex_bytes_length bs : length (str_bytes (hex_bytes bs)) = (2 * length bs)%nat.
Proof.
  induction bs as [|b bs IH]; [done|]. rewrite hex_bytes_cons, length_app, IH. simpl. lia.
Qed.

(** The hexadecimal text determines the bytes. *)
Lemma hex_bytes_inj bs bs' :
  Forall is_u8 bs → Forall is_u8 bs' → hex_bytes bs = hex_bytes bs' → bs = bs'.
Proof.
  intros Hb Hb' Heq. apply (f_equal str_bytes) in Heq. revert bs' Hb' Heq.
  induction Hb as [|b bs Hb _ IH]; intros bs' Hb' Heq; destruct Hb' as [|b' bs' Hb' Hbs'].
  - done.
  - rewrite hex_bytes_cons, hex_byte_bytes in Heq by done. done.
  - rewrite hex_bytes_cons, hex_byte_bytes in Heq by done. done.
  - rewrite !hex_bytes_cons, !hex_byte_bytes in Heq by done.
    injection Heq as Hhi Hlo Hrest. f_equal; [|by apply IH].
    unfold in_width in *.
    pose proof (Z.div_mod b 16). pose proof (Z.div_mod b' 16).
    pose proof (Z.mod_pos_bound b 16). pose proof (Z.mod_pos_bound b' 16).
    destruct (b / 16 <? 10) eqn:?, (b' / 16 <? 10) eqn:?,
      (b mod 16 <? 10) eqn:?, (b' mod 16 <? 10) eqn:?; lia.
Qed.

(** ** Words as bytes *)

Fixpoint le_bytes (w : nat) (n : Z) : list Z :=
  match w with O => [] | S w => n mod 256 :: le_bytes w (n / 256) end.

Fixpoint from_le_bytes (bs : list Z) : Z :=
  match bs with [] => 0 | b :: bs => b + 256 * from_le_bytes bs end.

(** [to_be_bytes] and [from_be_bytes]. *)
Definition be_bytes (w : nat) (n : Z) : list Z := reverse (le_bytes w n).
Definition from_be_bytes (bs : list Z) : Z := from_le_bytes (reverse bs).

(** [to_ne_bytes] and [from_ne_bytes] on a target of the given endianness. *)
Definition ne_bytes (big_endian : bool) (w : nat) (n : Z) : list Z :=
  if big_endian then be_bytes w n else le_bytes w n.
Definition from_ne_bytes (big_endian : bool) (bs : list Z) : Z :=
  if big_endian then from_be_bytes bs else from_le_bytes bs.

Lemma length_le_bytes w n : length (le_bytes w n) = w.
Proof. revert n. induction w as [|w IH]; intros n; simpl; [done|]. by rewrite IH. Qed.

Lemma length_be_bytes w n : length (be_bytes w n) = w.
Proof. unfold be_bytes. by rewrite length_reverse, length_le_bytes. Qed.

Lemma length_ne_bytes e w n : length (ne_bytes e w n) = w.
Proof. destruct e; [apply length_be_bytes|apply length_le_bytes]. Qed.

Lemma le_bytes_u8 w n : Forall is_u8 (le_bytes w n).
Proof.
  revert n. induction w as [|w IH]; intros n; constructor; [|apply IH].
  apply Z.mod_pos_bound. lia.
Qed.

Lemma be_bytes_u8 w n : Forall is_u8 (be_bytes w n).
Proof. apply Forall_reverse, le_bytes_u8. Qed.

Lemma ne_bytes_u8 e w n : Forall is_u8 (ne_bytes e w n).
Proof. destruct e; [apply be_bytes_u8|apply le_bytes_u8]. Qed.

Lemma from_le_bytes_of w n : in_width (8 * Z.of_nat w) n → from_le_bytes (le_bytes w n) = n.
Proof.
  unfold in_width. revert n. induction w as [|w IH]; intros n Hn; simpl.
  { change (2 ^ (8 * Z.of_nat 0)) with 1 in Hn. lia. }
  rewrite IH; [pose proof (Z.div_mod n 256); lia|].
  replace (8 * Z.of_nat (S w)) with (8 + 8 * Z.of_nat w) in Hn by lia.
  rewrite Z.pow_add_r in Hn by lia. change (2 ^ 8) with 256 in Hn.
  split; [apply Z.div_pos; lia|apply Z.div_lt_upper_bound; lia].
Qed.

Lemma from_be_bytes_of w n : in_width (8 * Z.of_nat w) n → from_be_bytes (be_bytes w n) = n.
Proof. unfold from_be_bytes, be_bytes. rewrite reverse_involutive. apply from_le_bytes_of. Qed.

Lemma from_ne_bytes_of e w n : in_width (8 * Z.of_nat w) n → from_ne_bytes e (ne_bytes e w n) = n.
Proof. destruct e; [apply from_be_bytes_of|apply from_le_bytes_of]. Qed.

Lemma le_bytes_from bs : Forall is_u8 bs → le_bytes (length bs) (from_le_bytes bs) = bs.
Proof.
  induction 1 as [|b bs Hb _ IH]; simpl; [done|]. unfold in_width in Hb.
  rewrite (Z.mul_comm 256), Z.mod_add, Z.mod_small, Z.div_add, Z.div_small, Z.add_0_l by lia. by rewrite IH.
Qed.

Lemma be_bytes_from w bs : length bs = w → Forall is_u8 bs → be_bytes w (from_be_bytes bs) = bs.
Proof.
  intros <- Hb. unfold be_bytes, from_be_bytes. pose proof (le_bytes_from (reverse bs)) as Hr.
  rewrite length_reverse in Hr. rewrite Hr by by apply Forall_reverse. apply reverse_involutive.
Qed.

Lemma ne_bytes_from e w bs : length bs = w → Forall is_u8 bs → ne_bytes e w (from_ne_bytes e bs) = bs.
Proof. destruct e; [apply be_bytes_from|intros <-; apply le_bytes_from]. Qed.

Lemma from_le_bytes_width bs : Forall is_u8 bs → in_width (8 * zlen bs) (from_le_bytes bs).
Proof.
  unfold in_width. induction 1 as [|b bs Hb _ IH]; simpl; [done|]. unfold in_width in Hb.
  rewrite zlen_cons, Z.mul_add_distr_l, Z.pow_add_r by (pose proof (zlen_nonneg bs); lia).
  change (2 ^ (8 * 1)) with 256. lia.
Qed.

Lemma from_be_bytes_width bs : Forall is_u8 bs → in_width (8 * zlen bs) (from_be_bytes bs).
Proof.
  intros Hb. unfold from_be_bytes. replace (zlen bs) with (zlen (reverse bs)) by (unfold zlen; by rewrite length_reverse).
  by apply from_le_bytes_width, Forall_reverse.
Qed.

Lemma from_ne_bytes_width e bs : Forall is_u8 bs → in_width (8 * zlen bs) (from_ne_bytes e bs).
Proof. destruct e; [apply from_be_bytes_width|apply from_le_bytes_width]. Qed.

(** [Sha256::digest], library code: the components below hold for any function,
    unless a law of the digest is stated with them. *)
Class Digest := { sha256_digest : list Z → list Z }.

(** ** Total orders and [dedup] on a sorted vector *)

Class TotalOrder {A} (leb : A → A → bool) : Prop := {
  order_total a b : leb a b = false → leb b a = true;
  order_trans a b c : leb a b = true → leb b c = true → leb a c = true;
  order_antisym a b : leb a b = true → leb b a = true → a = b;
}.

#[export] Instance str_order : TotalOrder str_leb.
Proof. split; [apply str_leb_total|apply str_leb_trans|apply str_leb_antisym]. Qed.
#[export] Instance Z_order : TotalOrder Z.leb.
Proof. split; intros *; rewrite ?Z.leb_gt, ?Z.leb_le; lia. Qed.

(** Lexicographic comparison of two components. *)
Definition lex_leb {A B} `{EqDecision A} (la : A → A → bool) (lb : B → B → bool) (x y : A * B) : bool :=
  if bool_decide (fst x = fst y) then lb (snd x) (snd y) else la (fst x) (fst y).

#[export] Instance lex_order {A B} `{EqDecision A} (la : A → A → bool) (lb : B → B → bool) :
  TotalOrder la → TotalOrder lb → TotalOrder (lex_leb la lb).
Proof.
  intros [at_ atr aa] [bt btr ba]. split; unfold lex_leb.
  - intros [a b] [c d]. cbn. repeat case_bool_decide; subst; auto; congruence.
  - intros [a b] [c d] [e f]. cbn. repeat case_bool_decide; subst; eauto; try congruence; intros H1 H2; exfalso; eauto.
  - intros [a b] [c d]. cbn. repeat case_bool_decide; subst; try congruence; intros H1 H2; [f_equal; auto|]. exfalso. eauto.
Qed.

(** Comparison by a key that determines the value. *)
Lemma order_by {A B} (key : A → B) (leb : B → B → bool) : Inj (=) (=) key → TotalOrder leb → TotalOrder (λ a b, leb (key a) (key b)).
Proof. intros Hinj [t tr an]. split; eauto. Qed.

Fixpoint dedup {A} `{EqDecision A} (l : list A) : list A :=
  match l with
  | a :: ((b :: _) as rest) => if bool_decide (a = b) then dedup rest else a :: dedup rest
  | l => l
  end.

Lemma elem_of_dedup {A} `{EqDecision A} (l : list A) x : x ∈ dedup l ↔ x ∈ l.
Proof.
  induction l as [|a [|b l] IH]; [done|done|]. cbn [dedup] in *. case_bool_decide as Hab; [|by rewrite !(elem_of_cons _ x a), IH].
  subst b. rewrite IH, !elem_of_cons. tauto.
Qed.

Lemma dedup_sorted {A} `{EqDecision A} (leb : A → A → bool) (l : list A) : TotalOrder leb →
  StronglySorted (λ a b, leb a b = true) l → StronglySorted (λ a b, leb a b = true) (dedup l) ∧ NoDup (dedup l).
Proof.
  intros Hord. induction l as [|a [|b l] IH]; intros Hs; [split; constructor|split; [done|apply NoDup_singleton]|].
  apply StronglySorted_inv in Hs as [Hs Ha]. destruct (IH Hs) as [IH1 IH2]. cbn [dedup] in *. case_bool_decide as Hab; [done|].
  split; constructor; [done| |intros Hin|done].
  - rewrite Forall_forall in Ha |- *. intros x Hx. apply Ha. by apply (elem_of_dedup (b :: l)).
  - apply (elem_of_dedup (b :: l)) in Hin. rewrite Forall_forall in Ha. apply Hab. apply order_antisym; [apply Ha; left|].
    apply elem_of_cons in Hin as [->|Hin]; [done|]. apply StronglySorted_inv in Hs as [_ Hb]. rewrite Forall_forall in Hb. auto.
Qed.

(** [str::split_once]. *)
Fixpoint split_once (sep : Z) (s : string) : option (string * string) :=
  match s with
  | EmptyString => None
  | String c s =>
    if byte_val c =? sep then Some (EmptyString, s)
    else '(a, b) ← split_once sep s; Some (String c a, b)
  end.

Lemma split_once_app sep s t c : Forall (λ b, b ≠ sep) (str_bytes s) → byte_val c = sep →
  split_once sep (String.append s (String c t)) = Some (s, t).
Proof.
  intros Hs Hc. induction s as [|a s IH].
  { change (split_once sep (String c t) = Some (EmptyString, t)). cbn [split_once]. by rewrite Hc, Z.eqb_refl. }
  change (split_once sep (String a (String.append s (String c t))) = Some (String a s, t)). cbn [split_once].
  cbn [str_bytes] in Hs. apply Forall_cons in Hs as [Ha Hs].
  rewrite (proj2 (Z.eqb_neq _ _)) by done. by rewrite IH.
Qed.

(** ** Searching lists *)

Lemma find_Some_elem {A} (p : A → bool) l x : List.find p l = Some x → x ∈ l ∧ p x = true.
Proof. intros H%find_some. by rewrite list_elem_of_In. Qed.

Lemma elem_of_filterb {A} (p : A → bool) l x : x ∈ List.filter p l ↔ x ∈ l ∧ p x = true.
Proof. rewrite !list_elem_of_In. apply filter_In. Qed.

Lemma sorted_find {A} (R : A → A → Prop) (q : A → bool) l x :
  StronglySorted R l → List.find q l = Some x → ∀ y, y ∈ l → q y = true → x = y ∨ R x y.
Proof.
  induction 1 as [|z l Hs IH Hall]; [done|]. cbn [List.find]. destruct (q z) eqn:Hz.
  - intros [= <-] y [->|Hy]%elem_of_cons _; [by left|right]. rewrite Forall_forall in Hall. auto.
  - intros Hf y [->|Hy]%elem_of_cons Hq; [congruence|auto].
Qed.

(** *** Characters and their bytes *)

(** A character with its bytes in front of any text is read back. *)
Definition is_char (c : Z * list Z) : Prop := ∀ rest, utf8_split (snd c ++ rest) = c :: utf8_split rest.

Lemma utf8_split_Forall (P : Z → Prop) bs : Forall P bs → Forall (λ c, is_char c ∧ Forall P (snd c)) (utf8_split bs).
Proof.
  remember (length bs) as n eqn:Hn. revert bs Hn. induction (lt_wf n) as [n _ IH]. intros bs -> Hbs.
  destruct bs as [|b0 r0]; [constructor|]. cbn [utf8_split]. inversion_clear Hbs as [|? ? H0 Hr0]. destruct (b0 <? 128) eqn:E0.
  { constructor; [split; [intros rest; cbn; by rewrite E0|by constructor]|]. apply (IH (length r0)); [cbn; lia|done..]. }
  destruct r0 as [|b1 r1]; [constructor|]. inversion_clear Hr0 as [|? ? H1 Hr1]. destruct (b0 <? 224) eqn:E1.
  { constructor; [split; [intros rest; cbn; by rewrite E0, E1|by repeat constructor]|]. apply (IH (length r1)); [cbn; lia|done..]. }
  destruct r1 as [|b2 r2]; [constructor|]. inversion_clear Hr1 as [|? ? H2 Hr2]. destruct (b0 <? 240) eqn:E2.
  { constructor; [split; [intros rest; cbn; by rewrite E0, E1, E2|by repeat constructor]|]. apply (IH (length r2)); [cbn; lia|done..]. }
  destruct r2 as [|b3 r3]; [constructor|]. inversion_clear Hr2 as [|? ? H3 Hr3].
  constructor; [split; [intros rest; cbn; by rewrite E0, E1, E2|by repeat constructor]|]. apply (IH (length r3)); [cbn; lia|done..].
Qed.

Lemma utf8_split_concat cs : Forall is_char cs → utf8_split (concat (snd <$> cs)) = cs.
Proof. induction 1 as [|c cs Hc _ IH]; [done|]. cbn. by rewrite Hc, IH. Qed.

Lemma drop_while_suffix {A} (p : A → bool) l : ∃ pre, l = pre ++ drop_while p l.
Proof.
  induction l as [|a l [pre IH]]; [by exists []|]. cbn. destruct (p a); [|by exists []]. exists (a :: pre). cbn. by f_equal.
Qed.

(** Trimming leaves the characters between the first and the last that are not
    white space. *)
Definition is_space (c : Z * list Z) : bool := is_whitespace (fst c).
Definition trim_chars (cs : list (Z * list Z)) : list (Z * list Z) :=
  reverse (drop_while is_space (reverse (drop_while is_space cs))).

Lemma trim_chars_part cs : ∃ pre suf, cs = pre ++ trim_chars cs ++ suf.
Proof.
  unfold trim_chars. destruct (drop_while_suffix is_space cs) as [pre Hpre]. set (front := drop_while is_space cs) in *.
  destruct (drop_while_suffix is_space (reverse front)) as [suf Hsuf]. exists pre, (reverse suf).
  rewrite <- reverse_app, <- Hsuf, reverse_involutive. exact Hpre.
Qed.

Lemma str_trim_split s : utf8_split (str_bytes (str_trim s)) = trim_chars (utf8_split (str_bytes s)) ∧
  str_bytes (str_trim s) = concat (snd <$> trim_chars (utf8_split (str_bytes s))).
Proof.
  change (str_trim s) with (bytes_str (concat (snd <$> trim_chars (utf8_split (str_bytes s))))).
  destruct (trim_chars_part (utf8_split (str_bytes s))) as (pre & suf & Hs). set (mid := trim_chars _) in *. clearbody mid.
  pose proof (utf8_split_Forall (λ b, 0 ≤ b < 256) (str_bytes s)) as Hall. rewrite Hs, !Forall_app in Hall. destruct Hall as (_ & Hmid & _).
  { eapply Forall_impl; [apply str_bytes_u8|]. intros b Hb. unfold in_width in Hb. lia. }
  rewrite str_bytes_of.
  - split; [|done]. apply utf8_split_concat. eapply Forall_impl; [exact Hmid|]. by intros c [? _].
  - clear -Hmid. induction Hmid as [|c l [_ Hc] _ IH]; [constructor|]. cbn. by apply Forall_app.
Qed.

Lemma str_trim_chars s : ∃ pre mid suf, utf8_split (str_bytes s) = pre ++ mid ++ suf ∧ utf8_split (str_bytes (str_trim s)) = mid ∧
  str_bytes (str_trim s) = concat (snd <$> mid).
Proof. destruct (trim_chars_part (utf8_split (str_bytes s))) as (pre & suf & Hs), (str_trim_split s) as [H1 H2]. by exists pre, (trim_chars (utf8_split (str_bytes s))), suf. Qed.

Lemma drop_while_head {A} (p : A → bool) l x : head (drop_while p l) = Some x → p x = false.
Proof. induction l as [|a l IH]; [done|]. cbn. destruct (p a) eqn:E; [done|]. by intros [= <-]. Qed.

Lemma drop_while_id {A} (p : A → bool) l : (∀ x, head l = Some x → p x = false) → drop_while p l = l.
Proof. destruct l as [|a l]; [done|]. cbn. intros Hp. by rewrite (Hp a eq_refl). Qed.

(** Neither end of a trimmed text is white space. *)
Lemma trim_chars_head cs c : head (trim_chars cs) = Some c → is_space c = false.
Proof.
  unfold trim_chars. set (front := drop_while is_space cs). destruct (drop_while_suffix is_space (reverse front)) as [suf Hsuf].
  set (mid := drop_while is_space (reverse front)) in *. intros Hc. apply (drop_while_head is_space cs). fold front.
  rewrite <- (reverse_involutive front), Hsuf, reverse_app. destruct (reverse mid); [done|]. cbn in *. congruence.
Qed.

Lemma trim_chars_last cs c : head (reverse (trim_chars cs)) = Some c → is_space c = false.
Proof. unfold trim_chars. rewrite reverse_involutive. apply drop_while_head. Qed.

Lemma trim_chars_id cs : (∀ c, head cs = Some c → is_space c = false) → (∀ c, head (reverse cs) = Some c → is_space c = false) → trim_chars cs = cs.
Proof. intros Hh Hl. unfold trim_chars. rewrite (drop_while_id _ cs), drop_while_id by done. apply reverse_involutive. Qed.

Lemma str_trim_idemp s : str_trim (str_trim s) = str_trim s.
Proof.
  apply str_bytes_inj. destruct (str_trim_split s) as [H1 H2], (str_trim_split (str_trim s)) as [_ H4].
  rewrite H4, H1, H2, trim_chars_id by eauto using trim_chars_head, trim_chars_last. done.
Qed.

(** Printable ASCII is its own characters. *)
Definition printable (s : string) : Prop := Forall (λ b, 32 ≤ b < 127) (str_bytes s).

Lemma printable_chars s : printable s → str_chars s = str_bytes s.
Proof.
  unfold printable, str_chars. induction (str_bytes s) as [|b bs IH]; [done|]. intros [Hb Hbs]%Forall_cons. cbn.
  destruct (Z.ltb_spec b 128); [|lia]. cbn. f_equal. auto.
Qed.

Lemma printable_clean s : printable s → has_control s = false.
Proof.
  intros Hp. unfold has_control. rewrite (printable_chars s Hp). apply existsb_false. eapply Forall_impl; [exact Hp|]. intros b Hb. cbn beta in Hb. unfold is_control.
  apply orb_false_iff. split; [lia|]. apply andb_false_iff. left. lia.
Qed.

Lemma printable_app s s' : printable s → printable s' → printable (String.append s s').
Proof. unfold printable. intros. rewrite str_bytes_app. by apply Forall_app. Qed.

(** ** Automation: the facts the components discharge without naming them. *)

Create HintDb netq discriminated.
Create Rewrite HintDb netq.
#[export] Hint Resolve str_leb_total str_leb_trans str_leb_antisym str_leb_refl
  str_lt_trans str_leb_lt sort_by_perm NoDup_btree_keys NoDup_btree_elements
  str_bytes_u8 : netq.
#[export] Hint Rewrite @zlen_cons @zlen_app @length_sort_by @length_btree_entries
  @length_btree_elements : netq.

(** [zlen_lia] computes list lengths and leaves the rest to [lia]. *)
Ltac zlen_lia :=
  autorewrite with netq in *;
  repeat match goal with
  | l : list _ |- _ => lazymatch goal with
      | _ : 0 ≤ zlen l |- _ => fail
      | _ => pose proof (zlen_nonneg l)
      end
  end;
  change (@zlen _ []) with 0 in *; lia.

Lemma filterb_sublist {A} (p : A → bool) l : List.filter p l `sublist_of` l.
Proof. induction l as [|x l IH]; [constructor|]. cbn. destruct (p x); by constructor. Qed.
