(* ===== verification/Config.v ===== *)
(** Constants of the agent's configuration (src/crates/agent/src/config.rs)
    that the policy components share. *)

From S2P Require Import Prelude.

Definition MIN_POLICY_CAPACITY_BPS : Z := 64000.
(** [netqmon_protocol::policy::MAX_SAFE_JSON_INTEGER]. *)
Definition MAX_POLICY_CAPACITY_BPS : Z := 9007199254740991.

Definition in_capacity (r : Z) : bool := in_range MIN_POLICY_CAPACITY_BPS MAX_POLICY_CAPACITY_BPS r.
