(* ===== verification/Json.v ===== *)
(** JSON documents as the agent reads them from [tc -j] and [nft -j]: the part
    of [serde_json::Value] the sources use. *)

From S2P Require Import Prelude.

#[local] Unset Elimination Schemes.
Inductive Value :=
| Null
| Bool (b : bool)
| Number (text : string)
| Text (s : string)
| Array (l : list Value)
| Object (fields : list (string * Value)).
#[local] Set Elimination Schemes.

Definition as_array (v : Value) : option (list Value) :=
  match v with Array l => Some l | _ => None end.

Definition as_str (v : Value) : option string :=
  match v with Text s => Some s | _ => None end.

Fixpoint assoc {A} (key : string) (l : list (string * A)) : option A :=
  match l with
  | [] => None
  | (k, a) :: l => if String.eqb k key then Some a else assoc key l
  end.

(** [Value::get] with a string index. *)
Definition get (key : string) (v : Value) : option Value :=
  match v with Object fields => assoc key fields | _ => None end.

(** [value.get(key).and_then(Value::as_str)]. *)
Definition get_str (key : string) (v : Value) : option string := v' ← get key v; as_str v'.
