(* ===== verification/PolicyWire.v ===== *)
(** The policy wire protocol shared by the collector and the agent
    (src/crates/protocol/src/policy.rs): the policy language, the frames that
    travel on the policy WebSocket, their validation, the canonical snapshot
    and its checksum.  JSON, RFC 8785 canonical JSON and SHA-256 are library
    code; they are the operations of the class [PolicyCodec]. *)

From S2P Require Import Prelude.
From Stdlib Require Import SpecFloat.

(** ** Constants *)

Definition POLICY_WIRE_VERSION : Z := 1.
Definition POLICY_MAX_FRAME_BYTES : Z := 1024 * 1024.
Definition POLICY_MAX_METRICS_FRAME_BYTES : Z := 256 * 1024.
Definition POLICY_MAX_SNAPSHOT_BYTES : Z := 768 * 1024.
Definition MAX_SAFE_JSON_INTEGER : Z := 9007199254740991.
Definition POLICY_CLIENT_TOTAL_SCOPE : string := "agent".

(** An [f64] is an IEEE 754 binary64 datum in canonical form. *)
Abbreviation f64 := spec_float.
Definition f64_is_finite (x : f64) : bool :=
  match x with S754_zero _ | S754_finite _ _ _ => true | _ => false end.
(** The literals [0.80] and [1.0] as binary64. *)
Definition f64_0_80 : f64 := S754_finite false 7205759403792794 (-53).
Definition f64_1_0 : f64 := S754_finite false 4503599627370496 (-52).

(** ** The policy language *)

Record PolicySelectors := mkSelectors {
  clients : list string;
  applications : list string;
  categories : list string;
  min_application_confidence : f64;
}.

Record PolicyNetworkSelector := mkNetwork { scope : string; direction : string }.

Inductive PolicyActionKind := Block | Allow | Limit.
#[export] Instance PolicyActionKind_eq_dec : EqDecision PolicyActionKind.
Proof. solve_decision. Defined.

Record PolicyAction := mkAction {
  kind : PolicyActionKind;
  action_download_bps : option Z;
  action_upload_bps : option Z;
}.

Inductive PolicyWeekday := Mon | Tue | Wed | Thu | Fri | Sat | Sun.
#[export] Instance PolicyWeekday_eq_dec : EqDecision PolicyWeekday.
Proof. solve_decision. Defined.

Definition monday_index (d : PolicyWeekday) : Z :=
  match d with Mon => 0 | Tue => 1 | Wed => 2 | Thu => 3 | Fri => 4 | Sat => 5 | Sun => 6 end.

Record PolicyScheduleWindow := mkWindow {
  days : list PolicyWeekday;
  window_start : string;
  window_end : string;
}.

Record PolicySchedule := mkSchedule { timezone : string; windows : list PolicyScheduleWindow }.

Record PolicySpecV1 := mkSpec {
  schema_version : Z;
  spec_gateway_id : string;
  name : string;
  description : string;
  enabled : bool;
  priority : Z;
  selectors : PolicySelectors;
  network : PolicyNetworkSelector;
  action : PolicyAction;
  schedule : option PolicySchedule;
}.

Record PolicySnapshotEntry := mkEntry { id : string; spec : PolicySpecV1 }.

Record PolicyScheduleInterval := mkInterval { start_ms : Z; end_ms : Z }.

Record PolicyScheduleIntervals := mkIntervals {
  policy_id : string;
  intervals : list PolicyScheduleInterval;
}.

Definition no_selector {A} (l : list A) : bool := match l with [] => true | _ => false end.

(** A client total: an agent-scoped limit on clients only. *)
Definition is_client_total_spec (s : PolicySpecV1) : bool :=
  (String.eqb (scope (network s)) POLICY_CLIENT_TOTAL_SCOPE
   && String.eqb (direction (network s)) "both"
   && bool_decide (kind (action s) = Limit)
   && negb (no_selector (clients (selectors s)))
   && no_selector (applications (selectors s))
   && no_selector (categories (selectors s)))%bool.

(** ** Frames *)

Inductive FlowCommandOperation := Upsert | Revoke.
Inductive FlowVerdict := VBlock | VAllow | VShape.
Inductive FlowAckStatus := AckApplied | AckPartial | AckUnsupported | AckFailed | AckExpired.
Inductive PolicyAckStatus := PApplied | PPartial | PFailed | PUnsupported.
Inductive PolicyResultStatus := Applied | Degraded | Unsupported | Failed | Disabled.
Inductive PolicyCapability := CapSupported | CapUnsupported | CapDegraded.

Record PolicyCapabilities := mkCapabilities {
  client_block : PolicyCapability;
  client_limit : PolicyCapability;
  application_block : PolicyCapability;
  application_limit : PolicyCapability;
  client_total_limit : option PolicyCapability;
}.

Definition capabilities_unsupported : PolicyCapabilities :=
  mkCapabilities CapUnsupported CapUnsupported CapUnsupported CapUnsupported None.

Record PolicyClientRate := mkClientRate {
  rate_mac : string;
  effective_upload_bps : option Z;
  effective_download_bps : option Z;
}.

Record PolicyResultDetails := mkDetails {
  details_clients : list PolicyClientRate;
  controlled_interfaces : list string;
  qdisc : option string;
  mark_conflict_code : option string;
}.

Record PolicyResult := mkResult {
  result_policy_id : string;
  status : PolicyResultStatus;
  reason_code : option string;
  message : option string;
  details : option PolicyResultDetails;
}.

Record PolicyDirectionMetrics := mkDirectionMetrics {
  interface : string;
  metric_bytes : option Z;
  metric_packets : option Z;
  metric_drops : option Z;
  metric_overlimits : option Z;
}.

Record PolicyClientMetrics := mkClientMetrics {
  metric_policy_id : string;
  metric_mac : string;
  upload : option PolicyDirectionMetrics;
  download : option PolicyDirectionMetrics;
}.

Record PolicySnapshotFrame := mkSnapshot {
  snap_wire_version : Z;
  snap_gateway_id : string;
  snap_controller_epoch : string;
  snap_config_revision : Z;
  snap_bundle_generation : Z;
  generated_at_ms : Z;
  valid_until_ms : Z;
  snap_checksum : string;
  policies : list PolicySnapshotEntry;
  schedule_intervals : list PolicyScheduleIntervals;
}.

Record PolicyAckFrame := mkPolicyAck {
  pack_wire_version : Z;
  pack_gateway_id : string;
  pack_boot_id : string;
  pack_controller_epoch : string;
  pack_config_revision : Z;
  pack_bundle_generation : Z;
  pack_checksum : string;
  pack_status : PolicyAckStatus;
  pack_capabilities : PolicyCapabilities;
  results : list PolicyResult;
  pack_reported_at_ms : Z;
}.

Record PolicyHealthFrame := mkPolicyHealth {
  health_wire_version : Z;
  health_gateway_id : string;
  health_boot_id : string;
  last_applied_revision : Z;
  health_controller_epoch : option string;
  health_bundle_generation : option Z;
  health_checksum : option string;
  health_capabilities : PolicyCapabilities;
  health_reported_at_ms : Z;
  emergency_disabled : bool;
}.

Record PolicyMetricsFrame := mkPolicyMetrics {
  pm_wire_version : Z;
  pm_gateway_id : string;
  pm_boot_id : string;
  sampled_at_ms : Z;
  metrics : list PolicyClientMetrics;
}.

Record FlowCommandFrame := mkFlowCommand {
  fc_wire_version : Z;
  fc_gateway_id : string;
  fc_boot_id : string;
  fc_controller_epoch : string;
  fc_config_revision : Z;
  command_id : string;
  policy_flow_id : string;
  operation : FlowCommandOperation;
  verdict : option FlowVerdict;
  policy_ids : list string;
  expires_at_ms : Z;
  issued_at_ms : Z;
}.

Record FlowAckFrame := mkFlowAck {
  fa_wire_version : Z;
  fa_gateway_id : string;
  fa_boot_id : string;
  fa_controller_epoch : string;
  fa_command_id : string;
  fa_policy_flow_id : string;
  fa_config_revision : Z;
  fa_status : FlowAckStatus;
  fa_reason_code : option string;
  alias_count : Z;
  fa_reported_at_ms : Z;
}.

Inductive PolicyWireFrame :=
| PolicySnapshot (f : PolicySnapshotFrame)
| PolicyAck (f : PolicyAckFrame)
| PolicyHealth (f : PolicyHealthFrame)
| PolicyMetrics (f : PolicyMetricsFrame)
| FlowCommand (f : FlowCommandFrame)
| FlowAck (f : FlowAckFrame).

Record SnapshotChecksumPayload := mkPayload {
  cp_gateway_id : string;
  cp_controller_epoch : string;
  cp_config_revision : Z;
  cp_bundle_generation : Z;
  cp_generated_at_ms : Z;
  cp_valid_until_ms : Z;
  cp_policies : list PolicySnapshotEntry;
  cp_schedule_intervals : list PolicyScheduleIntervals;
}.

(** Library code the protocol calls: [serde_json::to_vec], [serde_json::from_slice],
    [serde_jcs::to_vec] and [Sha256::digest]. *)
Class PolicyCodec := {
  to_json : PolicyWireFrame → result string (list Z);
  from_json : list Z → result string PolicyWireFrame;
  jcs : SnapshotChecksumPayload → result string (list Z);
  sha256 : list Z → list Z;
}.

(** What the protocol relies on: a SHA-256 digest is 32 bytes. *)
Class PolicyCodecLaws `{PolicyCodec} := {
  sha256_length b : length (sha256 b) = 32%nat;
  sha256_bytes b : Forall is_u8 (sha256 b);
}.

Abbreviation Res := (result string).

(** ** Field validators *)

Definition validate_generations (revision generation : Z) : Res unit :=
  reject_if ((MAX_SAFE_JSON_INTEGER <? revision) || (generation =? 0)
             || (MAX_SAFE_JSON_INTEGER <? generation))%bool
    "revision or generation is outside the JSON safe integer range".

(** The shape of an identifier: 1 through [max] bytes without control characters. *)
Definition bad_text (max : Z) (v : string) : bool :=
  (str_is_empty v || (max <? str_len v) || has_control v)%bool.

Definition validate_gateway (v : string) : Res unit :=
  reject_if (bad_text 128 v) "gateway_id is invalid".

Definition validate_nonempty_id (v nm : string) : Res unit :=
  reject_if (bad_text 128 v) (String.append nm " is invalid").

Definition is_lower_hex (b : Z) : bool := (is_ascii_digit b || in_range 97 102 b)%bool.
Definition is_upper_hex (b : Z) : bool := (is_ascii_digit b || in_range 65 70 b)%bool.

(** [bytes().enumerate().all(p)]. *)
Fixpoint all_indexed (p : nat → Z → bool) (i : nat) (bs : list Z) : bool :=
  match bs with [] => true | b :: bs => (p i b && all_indexed p (S i) bs)%bool end.

Definition epoch_byte_ok (i : nat) (b : Z) : bool :=
  if existsb (Nat.eqb i) [8; 13; 18; 23]%nat then b =? 45 else is_lower_hex b.

Definition validate_epoch (v : string) : Res unit :=
  reject_if (negb (str_len v =? 36) || negb (all_indexed epoch_byte_ok 0 (str_bytes v)))%bool
    "controller_epoch must be a lowercase 128-bit UUID".

Definition validate_checksum (v : string) : Res unit :=
  reject_if (negb (str_len v =? 71) || negb (String.prefix "sha256:" v)
             || negb (forallb is_lower_hex (drop 7 (str_bytes v))))%bool
    "checksum must be sha256 followed by 64 lowercase hex digits".

Definition mac_byte_ok (i : nat) (b : Z) : bool :=
  if Nat.eqb (i mod 3) 2 then b =? 58 else is_upper_hex b.

Definition valid_mac (v : string) : bool :=
  ((str_len v =? 17) && all_indexed mac_byte_ok 0 (str_bytes v))%bool.

(** A rate outside 64 kbit/s through 1 Gbit/s, where present. *)
Definition bad_rate (r : option Z) : bool :=
  match r with Some r => negb (in_range 64000 1000000000 r) | None => false end.

(** ** Policies, results and metrics *)

Definition validate_action (s : PolicySpecV1) : Res unit :=
  match kind (action s) with
  | Block | Allow =>
    reject_if (bool_decide (is_Some (action_download_bps (action s)))
               || bool_decide (is_Some (action_upload_bps (action s))))%bool
      "block/allow actions cannot contain rate limits"
  | Limit =>
    reject_if (no_selector (clients (selectors s))
               || (bool_decide (action_download_bps (action s) = None)
                   && bool_decide (action_upload_bps (action s) = None))
               || bad_rate (action_download_bps (action s))
               || bad_rate (action_upload_bps (action s)))%bool
      "policy limit action is invalid"
  end.

Definition validate_policy_spec (gateway_id : string) (s : PolicySpecV1) : Res unit :=
  let sel := selectors s in
  _ ← reject_if (negb (schema_version s =? 1) || negb (String.eqb (spec_gateway_id s) gateway_id))%bool
        "policy spec schema or gateway does not match snapshot";
  _ ← reject_if (is_blank (name s) || (100 <? zlen (str_chars (name s))))%bool
        "policy spec name is invalid";
  _ ← reject_if ((500 <? zlen (str_chars (description s))) || (1000 <? priority s))%bool
        "policy spec description or priority is invalid";
  _ ← reject_if ((negb (String.eqb (scope (network s)) "internet") && negb (is_client_total_spec s))
                 || negb (String.eqb (direction (network s)) "both"))%bool
        "policy spec uses an unsupported network scope";
  _ ← reject_if ((32 <? zlen (clients sel)) || (32 <? zlen (applications sel))
                 || (16 <? zlen (categories sel))
                 || (no_selector (clients sel) && no_selector (applications sel)
                     && no_selector (categories sel)))%bool
        "policy spec selectors are invalid";
  _ ← reject_if (negb (f64_is_finite (min_application_confidence sel))
                 || negb (SFleb f64_0_80 (min_application_confidence sel)
                          && SFleb (min_application_confidence sel) f64_1_0))%bool
        "policy application confidence is invalid";
  _ ← eachM (λ c, reject_if (negb (valid_mac c)) "policy contains a non-canonical client MAC")
        (clients sel);
  _ ← reject_if (existsb (bad_text 128) (applications sel))
        "policy contains an invalid application selector";
  _ ← reject_if (existsb (bad_text 128) (categories sel))
        "policy contains an invalid category selector";
  validate_action s.

Definition bad_optional (p : string → bool) (v : option string) : bool :=
  match v with Some v => p v | None => false end.

Definition bad_details (d : PolicyResultDetails) : bool :=
  ((32 <? zlen (details_clients d))
   || (2 <? zlen (controlled_interfaces d))
   || bad_optional (bad_text 128) (qdisc d)
   || bad_optional (bad_text 128) (mark_conflict_code d)
   || existsb (bad_text 15) (controlled_interfaces d)
   || existsb (λ c, negb (valid_mac (rate_mac c)) || bad_rate (effective_upload_bps c)
                    || bad_rate (effective_download_bps c)) (details_clients d))%bool.

Definition validate_result (seen : gset string) (r : PolicyResult) : Res (gset string) :=
  _ ← validate_nonempty_id (result_policy_id r) "result policy id";
  _ ← reject_if (bool_decide (result_policy_id r ∈ seen)) "policy result ids must be unique";
  _ ← reject_if (bad_optional (bad_text 128) (reason_code r)
                 || bad_optional (λ v, (512 <? str_len v) || has_control v) (message r))%bool
        "policy result reason/message is invalid";
  _ ← match details r with
      | Some d => reject_if (bad_details d) "policy result details are invalid"
      | None => Ok tt
      end;
  Ok ({[result_policy_id r]} ∪ seen).

Definition validate_results (rs : list PolicyResult) : Res unit :=
  _ ← foldM validate_result ∅ rs;
  reject_if (256 <? zlen rs) "policy ack contains more than 256 results".

Definition interface_byte_ok (b : Z) : bool :=
  (is_ascii_alphanumeric b || (b =? 95) || (b =? 46) || (b =? 58) || (b =? 45))%bool.

Definition bad_counter (c : option Z) : bool :=
  match c with Some c => MAX_SAFE_JSON_INTEGER <? c | None => false end.

Definition bad_direction_metrics (d : PolicyDirectionMetrics) : bool :=
  (str_is_empty (interface d) || (15 <? str_len (interface d))
   || existsb (λ b, negb (interface_byte_ok b)) (str_bytes (interface d))
   || bad_counter (metric_bytes d) || bad_counter (metric_packets d)
   || bad_counter (metric_drops d) || bad_counter (metric_overlimits d))%bool.

Definition validate_metric (m : PolicyClientMetrics) : Res unit :=
  _ ← validate_nonempty_id (metric_policy_id m) "metrics policy id";
  _ ← reject_if (negb (valid_mac (metric_mac m))) "policy metrics contain an invalid client MAC";
  _ ← reject_if (bool_decide (upload m = None) && bool_decide (download m = None))%bool
        "policy metrics must contain at least one traffic direction";
  eachM (λ d, reject_if (bad_direction_metrics d)
                "policy metrics contain invalid interface or counter data")
    (option_list (upload m) ++ option_list (download m)).

(** [(a, b) < (c, d)] on pairs of strings. *)
Definition str_pair_ltb (x y : string * string) : bool :=
  (str_ltb (fst x) (fst y) || (String.eqb (fst x) (fst y) && str_ltb (snd x) (snd y)))%bool.

Definition metric_key (m : PolicyClientMetrics) : string * string := (metric_policy_id m, metric_mac m).

Definition validate_policy_metrics (ms : list PolicyClientMetrics) : Res unit :=
  _ ← reject_if (256 <? zlen ms) "policy metrics frame contains more than 256 client summaries";
  _ ← reject_if (any_adjacent (λ a b, negb (str_pair_ltb (metric_key a) (metric_key b))) ms)
        "policy metrics must be sorted by unique policy and client";
  eachM validate_metric ms.

(** ** Snapshots *)

Definition interval_ltb (a b : PolicyScheduleInterval) : bool :=
  ((start_ms a <? start_ms b) || ((start_ms a =? start_ms b) && (end_ms a <? end_ms b)))%bool.
Definition interval_leb (a b : PolicyScheduleInterval) : bool :=
  ((start_ms a <? start_ms b) || ((start_ms a =? start_ms b) && (end_ms a <=? end_ms b)))%bool.

Definition validate_intervals (ps : list PolicySnapshotEntry) (s : PolicyScheduleIntervals) : Res unit :=
  _ ← validate_nonempty_id (policy_id s) "schedule policy id";
  _ ← reject_if (forallb (λ p, negb (String.eqb (id p) (policy_id s))) ps)
        "schedule intervals reference an unknown policy";
  reject_if (any_adjacent (λ a b, negb (interval_ltb a b)) (intervals s)
             || existsb (λ i, end_ms i <=? start_ms i) (intervals s))%bool
    "schedule intervals must be sorted, unique, and non-empty".

Section codec.
Context `{PolicyCodec}.

Definition checksum_for (p : SnapshotChecksumPayload) : Res string :=
  _ ← validate_generations (cp_config_revision p) (cp_bundle_generation p);
  canonical ← jcs p;
  Ok (String.append "sha256:" (hex_bytes (sha256 canonical))).

Definition payload_of (f : PolicySnapshotFrame) : SnapshotChecksumPayload :=
  mkPayload (snap_gateway_id f) (snap_controller_epoch f) (snap_config_revision f)
    (snap_bundle_generation f) (generated_at_ms f) (valid_until_ms f) (policies f)
    (schedule_intervals f).

(** The checks of [validate_snapshot] before the checksum is compared. *)
Definition validate_snapshot_fields (f : PolicySnapshotFrame) : Res unit :=
  _ ← reject_if (negb (snap_wire_version f =? POLICY_WIRE_VERSION)) "unsupported policy wire version";
  _ ← validate_gateway (snap_gateway_id f);
  _ ← validate_epoch (snap_controller_epoch f);
  _ ← validate_generations (snap_config_revision f) (snap_bundle_generation f);
  _ ← validate_checksum (snap_checksum f);
  _ ← reject_if ((generated_at_ms f <? 0) || (valid_until_ms f <=? generated_at_ms f))%bool
        "snapshot validity timestamps are invalid";
  _ ← reject_if (256 <? zlen (policies f)) "snapshot contains more than 256 policies";
  _ ← reject_if (any_adjacent (λ a b, negb (str_ltb (id a) (id b))) (policies f))
        "snapshot policies must be sorted by unique policy id";
  _ ← eachM (λ p, _ ← validate_nonempty_id (id p) "policy id";
                  validate_policy_spec (snap_gateway_id f) (spec p)) (policies f);
  _ ← reject_if (any_adjacent (λ a b, negb (str_ltb (policy_id a) (policy_id b))) (schedule_intervals f))
        "schedule intervals must be sorted by unique policy id";
  eachM (validate_intervals (policies f)) (schedule_intervals f).

Definition validate_snapshot (f : PolicySnapshotFrame) : Res unit :=
  _ ← validate_snapshot_fields f;
  expected ← checksum_for (payload_of f);
  _ ← reject_if (negb (String.eqb expected (snap_checksum f))) "policy snapshot checksum mismatch";
  encoded ← to_json (PolicySnapshot f);
  reject_if (POLICY_MAX_SNAPSHOT_BYTES <? zlen encoded) "policy snapshot exceeds 768 KiB".

Definition sort_intervals (s : PolicyScheduleIntervals) : PolicyScheduleIntervals :=
  mkIntervals (policy_id s) (sort_by interval_leb (intervals s)).

Definition snapshot (gateway_id controller_epoch : string)
    (config_revision bundle_generation generated_at_ms valid_until_ms : Z)
    (policies : list PolicySnapshotEntry) (schedule_intervals : list PolicyScheduleIntervals)
    : Res PolicyWireFrame :=
  let policies := sort_by (λ a b, str_leb (id a) (id b)) policies in
  let schedule_intervals :=
    sort_intervals <$> sort_by (λ a b, str_leb (policy_id a) (policy_id b)) schedule_intervals in
  checksum ← checksum_for (mkPayload gateway_id controller_epoch config_revision bundle_generation
                             generated_at_ms valid_until_ms policies schedule_intervals);
  let frame := mkSnapshot POLICY_WIRE_VERSION gateway_id controller_epoch config_revision
                 bundle_generation generated_at_ms valid_until_ms checksum policies
                 schedule_intervals in
  _ ← validate_snapshot frame;
  encoded ← to_json (PolicySnapshot frame);
  _ ← reject_if (POLICY_MAX_SNAPSHOT_BYTES <? zlen encoded) "policy snapshot exceeds 768 KiB";
  Ok (PolicySnapshot frame).

(** ** Frame validation *)

Definition check_wire_version (v : Z) : Res unit :=
  reject_if (negb (v =? POLICY_WIRE_VERSION)) "unsupported policy wire version".

Definition validate_policy_ack (f : PolicyAckFrame) : Res unit :=
  _ ← check_wire_version (pack_wire_version f);
  _ ← validate_gateway (pack_gateway_id f);
  _ ← validate_nonempty_id (pack_boot_id f) "boot_id";
  _ ← validate_epoch (pack_controller_epoch f);
  _ ← validate_generations (pack_config_revision f) (pack_bundle_generation f);
  _ ← validate_checksum (pack_checksum f);
  _ ← reject_if (pack_reported_at_ms f <? 0) "reported_at_ms must be non-negative";
  validate_results (results f).

Definition validate_health_identity (f : PolicyHealthFrame) : Res unit :=
  match health_controller_epoch f, health_bundle_generation f, health_checksum f with
  | Some epoch, Some generation, Some checksum =>
    _ ← validate_epoch epoch;
    _ ← reject_if ((generation =? 0) || (MAX_SAFE_JSON_INTEGER <? generation))%bool
          "bundle generation is outside the JSON safe integer range";
    validate_checksum checksum
  | None, None, None =>
    if last_applied_revision f =? 0 then Ok tt
    else Err "health snapshot identity fields are incomplete"
  | _, _, _ => Err "health snapshot identity fields are incomplete"
  end.

Definition validate_policy_health (f : PolicyHealthFrame) : Res unit :=
  _ ← check_wire_version (health_wire_version f);
  _ ← validate_gateway (health_gateway_id f);
  _ ← validate_nonempty_id (health_boot_id f) "boot_id";
  _ ← reject_if (MAX_SAFE_JSON_INTEGER <? last_applied_revision f)
        "last applied revision is outside the JSON safe integer range";
  _ ← validate_health_identity f;
  reject_if (health_reported_at_ms f <? 0) "reported_at_ms must be non-negative".

Definition validate_policy_metrics_frame (f : PolicyMetricsFrame) : Res unit :=
  _ ← check_wire_version (pm_wire_version f);
  _ ← validate_gateway (pm_gateway_id f);
  _ ← validate_nonempty_id (pm_boot_id f) "boot_id";
  _ ← reject_if (sampled_at_ms f <? 0) "sampled_at_ms must be non-negative";
  _ ← validate_policy_metrics (metrics f);
  encoded ← to_json (PolicyMetrics f);
  reject_if (POLICY_MAX_METRICS_FRAME_BYTES <? zlen encoded) "policy metrics frame exceeds 256 KiB".

Definition validate_flow_operation (f : FlowCommandFrame) : Res unit :=
  match operation f with
  | Upsert =>
    _ ← reject_if (bool_decide (verdict f = None) || no_selector (policy_ids f)
                   || (16 <? zlen (policy_ids f)))%bool
          "upsert requires a verdict and 1 through 16 policy ids";
    eachM (λ p, validate_nonempty_id p "policy_id") (policy_ids f)
  | Revoke =>
    reject_if (bool_decide (is_Some (verdict f)) || negb (no_selector (policy_ids f)))%bool
      "revoke must not include a verdict or policy ids"
  end.

Definition validate_flow_command (f : FlowCommandFrame) : Res unit :=
  _ ← check_wire_version (fc_wire_version f);
  _ ← validate_gateway (fc_gateway_id f);
  _ ← validate_nonempty_id (fc_boot_id f) "boot_id";
  _ ← validate_epoch (fc_controller_epoch f);
  _ ← reject_if (MAX_SAFE_JSON_INTEGER <? fc_config_revision f)
        "config_revision is outside the JSON safe integer range";
  _ ← validate_nonempty_id (command_id f) "command_id";
  _ ← reject_if (bad_text 64 (policy_flow_id f))
        "policy_flow_id must contain 1 through 64 non-control characters";
  _ ← reject_if ((issued_at_ms f <? 0) || (expires_at_ms f <=? issued_at_ms f)
                 || (120000 <? i64_saturating_sub (expires_at_ms f) (issued_at_ms f)))%bool
        "flow command lifetime must be positive and no longer than 120 seconds";
  validate_flow_operation f.

Definition validate_flow_ack (f : FlowAckFrame) : Res unit :=
  _ ← check_wire_version (fa_wire_version f);
  _ ← validate_gateway (fa_gateway_id f);
  _ ← validate_nonempty_id (fa_boot_id f) "boot_id";
  _ ← validate_epoch (fa_controller_epoch f);
  _ ← validate_nonempty_id (fa_command_id f) "command_id";
  _ ← reject_if (bad_text 64 (fa_policy_flow_id f))
        "policy_flow_id must contain 1 through 64 non-control characters";
  _ ← reject_if ((MAX_SAFE_JSON_INTEGER <? fa_config_revision f) || (fa_reported_at_ms f <? 0))%bool
        "flow acknowledgement identity or timestamp is invalid";
  reject_if (bad_optional (bad_text 128) (fa_reason_code f))
    "flow acknowledgement reason_code is invalid".

Definition validate (f : PolicyWireFrame) : Res unit :=
  match f with
  | PolicySnapshot f => validate_snapshot f
  | PolicyAck f => validate_policy_ack f
  | PolicyHealth f => validate_policy_health f
  | PolicyMetrics f => validate_policy_metrics_frame f
  | FlowCommand f => validate_flow_command f
  | FlowAck f => validate_flow_ack f
  end.

Definition encode (f : PolicyWireFrame) : Res (list Z) :=
  _ ← validate f;
  bytes ← to_json f;
  _ ← reject_if (POLICY_MAX_FRAME_BYTES <? zlen bytes) "policy frame exceeds 1 MiB";
  Ok bytes.

Definition decode (bytes : list Z) : Res PolicyWireFrame :=
  _ ← reject_if (POLICY_MAX_FRAME_BYTES <? zlen bytes) "policy frame exceeds 1 MiB";
  frame ← from_json bytes;
  _ ← validate frame;
  Ok frame.

Definition snapshot_identity (f : PolicyWireFrame) : option (string * string * Z * Z * string) :=
  match f with
  | PolicySnapshot f =>
    Some (snap_gateway_id f, snap_controller_epoch f, snap_config_revision f,
          snap_bundle_generation f, snap_checksum f)
  | _ => None
  end.
End codec.

(** ** Specification: what a well-formed policy and snapshot are *)

Record text_ok (max : Z) (v : string) : Prop := {
  text_nonempty : v ≠ EmptyString;
  text_len : str_len v ≤ max;
  text_printable : Forall (λ c, is_control c = false) (str_chars v);
}.

Definition rate_ok (r : option Z) : Prop := ∀ x, r = Some x → 64000 ≤ x ≤ 1000000000.

Definition action_wf (s : PolicySpecV1) : Prop :=
  match kind (action s) with
  | Block | Allow => action_download_bps (action s) = None ∧ action_upload_bps (action s) = None
  | Limit =>
    clients (selectors s) ≠ [] ∧
    (is_Some (action_download_bps (action s)) ∨ is_Some (action_upload_bps (action s))) ∧
    rate_ok (action_download_bps (action s)) ∧ rate_ok (action_upload_bps (action s))
  end.

Record spec_wf (gateway : string) (s : PolicySpecV1) : Prop := {
  sw_schema : schema_version s = 1;
  sw_gateway : spec_gateway_id s = gateway;
  sw_name : ∃ c, c ∈ str_chars (name s) ∧ is_whitespace c = false;
  sw_name_len : zlen (str_chars (name s)) ≤ 100;
  sw_description : zlen (str_chars (description s)) ≤ 500;
  sw_priority : priority s ≤ 1000;
  sw_scope : scope (network s) = "internet" ∨ is_client_total_spec s = true;
  sw_direction : direction (network s) = "both";
  sw_clients_len : zlen (clients (selectors s)) ≤ 32;
  sw_applications_len : zlen (applications (selectors s)) ≤ 32;
  sw_categories_len : zlen (categories (selectors s)) ≤ 16;
  sw_selects : clients (selectors s) ≠ [] ∨ applications (selectors s) ≠ [] ∨ categories (selectors s) ≠ [];
  sw_confidence_finite : f64_is_finite (min_application_confidence (selectors s)) = true;
  sw_confidence_low : SFleb f64_0_80 (min_application_confidence (selectors s)) = true;
  sw_confidence_high : SFleb (min_application_confidence (selectors s)) f64_1_0 = true;
  sw_clients : Forall (λ c, valid_mac c = true) (clients (selectors s));
  sw_applications : Forall (text_ok 128) (applications (selectors s));
  sw_categories : Forall (text_ok 128) (categories (selectors s));
  sw_action : action_wf s;
}.

(** Strict lexicographic order of intervals. *)
Definition interval_lt (a b : PolicyScheduleInterval) : Prop :=
  start_ms a < start_ms b ∨ (start_ms a = start_ms b ∧ end_ms a < end_ms b).

Record intervals_wf (ps : list PolicySnapshotEntry) (s : PolicyScheduleIntervals) : Prop := {
  iw_id : text_ok 128 (policy_id s);
  iw_known : policy_id s ∈ id <$> ps;
  iw_sorted : StronglySorted interval_lt (intervals s);
  iw_nonempty : Forall (λ i, start_ms i < end_ms i) (intervals s);
}.

Record generations_ok (revision generation : Z) : Prop := {
  go_revision : revision ≤ MAX_SAFE_JSON_INTEGER;
  go_generation : generation ≠ 0;
  go_generation_max : generation ≤ MAX_SAFE_JSON_INTEGER;
}.

Record snapshot_fields_wf (f : PolicySnapshotFrame) : Prop := {
  fw_version : snap_wire_version f = POLICY_WIRE_VERSION;
  fw_gateway : text_ok 128 (snap_gateway_id f);
  fw_epoch : validate_epoch (snap_controller_epoch f) = Ok tt;
  fw_generations : generations_ok (snap_config_revision f) (snap_bundle_generation f);
  fw_checksum_form : validate_checksum (snap_checksum f) = Ok tt;
  fw_generated : 0 ≤ generated_at_ms f;
  fw_window : generated_at_ms f < valid_until_ms f;
  fw_count : zlen (policies f) ≤ 256;
  fw_sorted : StronglySorted str_lt (id <$> policies f);
  fw_policies : Forall (λ p, text_ok 128 (id p) ∧ spec_wf (snap_gateway_id f) (spec p)) (policies f);
  fw_schedules_sorted : StronglySorted str_lt (policy_id <$> schedule_intervals f);
  fw_schedules : Forall (intervals_wf (policies f)) (schedule_intervals f);
}.

Record snapshot_wf `{PolicyCodec} (f : PolicySnapshotFrame) : Prop := {
  nw_fields : snapshot_fields_wf f;
  nw_checksum : checksum_for (payload_of f) = Ok (snap_checksum f);
  nw_size : ∃ encoded, to_json (PolicySnapshot f) = Ok encoded ∧ zlen encoded ≤ POLICY_MAX_SNAPSHOT_BYTES;
}.

(** ** The validators decide the specification *)

Lemma bad_text_false max v : bad_text max v = false ↔ text_ok max v.
Proof.
  unfold bad_text, has_control. rewrite !orb_false_iff, existsb_false. split.
  - intros [[Hne Hl] Hc]. split; [|lia|done]. intros ->. done.
  - intros [Hne Hl Hc]. repeat split; [by destruct v|lia|done].
Qed.

Lemma bad_rate_false r : bad_rate r = false ↔ rate_ok r.
Proof.
  unfold bad_rate, rate_ok. destruct r as [x|]; [|by split].
  rewrite negb_false_iff, in_range_spec. split; [by intros ? ? [= <-]|eauto].
Qed.

Lemma no_selector_false {A} (l : list A) : no_selector l = false ↔ l ≠ [].
Proof. destruct l; simpl; split; congruence. Qed.

Lemma no_selector_true {A} (l : list A) : no_selector l = true ↔ l = [].
Proof. destruct l; simpl; split; congruence. Qed.

Lemma is_blank_false s : is_blank s = false ↔ ∃ c, c ∈ str_chars s ∧ is_whitespace c = false.
Proof.
  unfold is_blank. induction (str_chars s) as [|c l IH]; simpl.
  - split; [done|]. intros (c & Hc & _). by apply elem_of_nil in Hc.
  - rewrite andb_false_iff, IH. setoid_rewrite elem_of_cons. split.
    + intros [Hc|(d & Hd & ?)]; eauto.
    + intros (d & [->|Hd] & Hw); eauto.
Qed.

Lemma validate_nonempty_id_Ok v nm : validate_nonempty_id v nm = Ok tt ↔ text_ok 128 v.
Proof. unfold validate_nonempty_id. by rewrite reject_if_Ok, bad_text_false. Qed.

Lemma validate_gateway_Ok v : validate_gateway v = Ok tt ↔ text_ok 128 v.
Proof. unfold validate_gateway. by rewrite reject_if_Ok, bad_text_false. Qed.

Lemma validate_generations_Ok r g : validate_generations r g = Ok tt ↔ generations_ok r g.
Proof.
  unfold validate_generations. rewrite reject_if_Ok. split.
  - intros. split; lia.
  - intros []. lia.
Qed.

Lemma validate_action_Ok s : validate_action s = Ok tt ↔ action_wf s.
Proof.
  unfold validate_action, action_wf.
  destruct (kind (action s)); rewrite reject_if_Ok, ?orb_false_iff, ?andb_false_iff,
    ?bool_decide_eq_false, <-?eq_None_not_Some, ?no_selector_false, ?bad_rate_false,
    ?not_eq_None_Some; tauto.
Qed.

Lemma validate_policy_spec_Ok g s : validate_policy_spec g s = Ok tt ↔ spec_wf g s.
Proof.
  unfold validate_policy_spec. rewrite !reject_seq, check_seq, !reject_seq, validate_action_Ok,
    eachM_Ok, !existsb_false, !orb_false_iff, !andb_false_iff, !negb_false_iff,
    !no_selector_false, !String.eqb_eq, is_blank_false, Z.eqb_eq, !Z.ltb_ge, andb_true_iff.
  setoid_rewrite reject_if_Ok. setoid_rewrite negb_false_iff. setoid_rewrite bad_text_false.
  split; [|intros []; tauto]. intros. destruct_and!. split; tauto.
Qed.

Lemma str_ltb_false_sorted {A} (key : A → string) l :
  any_adjacent (λ a b, negb (str_ltb (key a) (key b))) l = false ↔ StronglySorted str_lt (key <$> l).
Proof.
  rewrite (any_adjacent_false (λ a b, str_lt (key a) (key b))).
  - induction l as [|a l IH]; [split; constructor|]. rewrite fmap_cons.
    split; inversion_clear 1 as [|? ? Hs Hall]; constructor; try (by apply IH).
    + apply Forall_fmap. exact Hall.
    + rewrite Forall_fmap in Hall. exact Hall.
  - intros ???. apply str_lt_trans.
  - intros ??. apply negb_false_iff.
Qed.

Lemma interval_lt_trans a b c : interval_lt a b → interval_lt b c → interval_lt a c.
Proof. unfold interval_lt. lia. Qed.

Lemma validate_intervals_Ok ps s : validate_intervals ps s = Ok tt ↔ intervals_wf ps s.
Proof.
  unfold validate_intervals. rewrite check_seq, reject_seq, reject_if_Ok, validate_nonempty_id_Ok,
    orb_false_iff, existsb_false.
  rewrite (any_adjacent_false interval_lt); [|apply interval_lt_trans|].
  2:{ intros x y. unfold interval_ltb, interval_lt. lia. }
  assert (forallb (λ p, negb (String.eqb (id p) (policy_id s))) ps = false ↔ policy_id s ∈ id <$> ps) as ->.
  { rewrite list_elem_of_fmap. induction ps as [|p ps IH]; simpl.
    - split; [done|]. intros (? & _ & H). by apply elem_of_nil in H.
    - rewrite andb_false_iff, IH, negb_false_iff, String.eqb_eq. setoid_rewrite elem_of_cons.
      split; [intros [?|(? & ? & ?)]; eauto|]. intros (? & ? & [->|?]); eauto. }
  split.
  - intros (? & ? & ? & Hne). split; [done|done|done|]. eapply Forall_impl; [exact Hne|]. simpl; lia.
  - intros [? ? ? Hne]. split_and!; [done..|]. eapply Forall_impl; [exact Hne|]. simpl; lia.
Qed.

Lemma validate_snapshot_fields_Ok f : validate_snapshot_fields f = Ok tt ↔ snapshot_fields_wf f.
Proof.
  unfold validate_snapshot_fields.
  rewrite !check_seq, !reject_if_Ok, !eachM_Ok,
    !str_ltb_false_sorted, validate_gateway_Ok, validate_generations_Ok, negb_false_iff, Z.eqb_eq,
    orb_false_iff, !Z.ltb_ge, Z.leb_gt.
  setoid_rewrite validate_intervals_Ok. setoid_rewrite check_seq.
  setoid_rewrite validate_nonempty_id_Ok. setoid_rewrite validate_policy_spec_Ok.
  split; [|intros []; tauto]. intros. destruct_and!. split; done.
Qed.

(** ** The canonical form of a snapshot *)

Lemma keyed_antisym {A} (key : A → string) (l : list A) x y :
  NoDup (key <$> l) → x ∈ l → y ∈ l →
  str_leb (key x) (key y) = true → str_leb (key y) (key x) = true → x = y.
Proof.
  intros Hnd Hx Hy H1 H2. by apply (NoDup_key_inj key l), str_leb_antisym.
Qed.

Lemma sort_by_key_unique {A} (key : A → string) (l l' : list A) :
  NoDup (key <$> l) → l ≡ₚ l' →
  sort_by (λ a b, str_leb (key a) (key b)) l = sort_by (λ a b, str_leb (key a) (key b)) l'.
Proof.
  intros Hnd Hp. apply sort_by_unique; [| | |done].
  - eauto with netq.
  - eauto with netq.
  - intros x y ??. by apply (keyed_antisym key l).
Qed.

Lemma interval_leb_total a b : interval_leb a b = false → interval_leb b a = true.
Proof. unfold interval_leb. lia. Qed.
Lemma interval_leb_trans a b c : interval_leb a b = true → interval_leb b c = true → interval_leb a c = true.
Proof. unfold interval_leb. lia. Qed.
Lemma interval_leb_antisym a b : interval_leb a b = true → interval_leb b a = true → a = b.
Proof. destruct a, b. unfold interval_leb. simpl. intros. f_equal; lia. Qed.

(** Two lists of schedule projections with the same content: entries and the
    intervals inside an entry may come in any order. *)
Definition same_intervals (s s' : PolicyScheduleIntervals) : Prop :=
  policy_id s = policy_id s' ∧ intervals s ≡ₚ intervals s'.

Lemma sort_intervals_same s s' : same_intervals s s' → sort_intervals s = sort_intervals s'.
Proof.
  intros [Hid Hp]. unfold sort_intervals. rewrite Hid. f_equal.
  apply sort_by_unique; [apply interval_leb_total|apply interval_leb_trans| |done].
  intros ????. apply interval_leb_antisym.
Qed.

Lemma sort_schedules_same ss ss' :
  Forall2 same_intervals ss ss' →
  sort_intervals <$> sort_by (λ a b, str_leb (policy_id a) (policy_id b)) ss
  = sort_intervals <$> sort_by (λ a b, str_leb (policy_id a) (policy_id b)) ss'.
Proof.
  intros Hs. cut (Forall2 same_intervals (sort_by (λ a b, str_leb (policy_id a) (policy_id b)) ss)
                    (sort_by (λ a b, str_leb (policy_id a) (policy_id b)) ss')).
  { induction 1; csimpl; f_equal; auto using sort_intervals_same. }
  induction Hs as [|s s' ss ss' Hss' Hs IH]; simpl; [constructor|].
  induction IH as [|t t' ts ts' Htt' Hts IHts]; simpl.
  { constructor; [done|constructor]. }
  rewrite (proj1 Hss'), (proj1 Htt').
  destruct (str_leb (policy_id s') (policy_id t')); constructor; try done. by constructor.
Qed.

(** *** The checksum text *)

Lemma hex_bytes_lower bs : Forall is_u8 bs → Forall (λ b, is_lower_hex b = true) (str_bytes (hex_bytes bs)).
Proof.
  induction 1 as [|b bs Hb _ IH]; [constructor|]. rewrite hex_bytes_cons, hex_byte_bytes by done.
  assert (∀ n, 0 ≤ n < 16 → is_lower_hex (if n <? 10 then 48 + n else 87 + n) = true) as Hd.
  { intros n ?. unfold is_lower_hex, is_ascii_digit, in_range. destruct (n <? 10) eqn:?; lia. }
  unfold in_width in Hb.
  repeat constructor; [apply Hd; split; [apply Z.div_pos; lia|apply Z.div_lt_upper_bound; lia]
                      |apply Hd, Z.mod_pos_bound; lia|done].
Qed.

Lemma checksum_text_valid bs :
  length bs = 32%nat → Forall is_u8 bs →
  validate_checksum (String.append "sha256:" (hex_bytes bs)) = Ok tt.
Proof.
  intros Hlen Hb. unfold validate_checksum. rewrite reject_if_Ok, str_len_bytes, str_bytes_app.
  unfold zlen. rewrite length_app, hex_bytes_length, Hlen, drop_app_length'; [|done].
  rewrite (proj2 (forallb_Forall _ _) (hex_bytes_lower _ Hb)). simpl.
  destruct (hex_bytes bs); reflexivity.
Qed.

Section canonical.
Context `{PolicyCodec}.

Lemma validate_snapshot_wf f : validate_snapshot f = Ok tt ↔ snapshot_wf f.
Proof.
  unfold validate_snapshot. rewrite check_seq, validate_snapshot_fields_Ok. split.
  - intros [Hf Hr]. inv_ok. split_bools. subst.
    split; [done|done|]. eexists; split; [done|lia].
  - intros [Hf -> (e & He & Hlen)]. split; [done|]. simpl. rewrite String.eqb_refl. simpl.
    rewrite He. simpl. rewrite reject_if_Ok. lia.
Qed.

End canonical.

(** *** What is said of a snapshot without reference to the validators *)

(** Groups of digits between separators. *)
Fixpoint separated (sep : Z) (groups : list (list Z)) : list Z :=
  match groups with
  | [] => []
  | [g] => g
  | g :: groups => g ++ sep :: separated sep groups
  end.
Definition grouped (sep : Z) (digit : Z → Prop) (lengths : list nat) (bs : list Z) : Prop :=
  ∃ groups, length <$> groups = lengths ∧ Forall (Forall digit) groups ∧ bs = separated sep groups.
Definition lower_digit (b : Z) : Prop := 48 ≤ b ≤ 57 ∨ 97 ≤ b ≤ 102.
Definition upper_digit (b : Z) : Prop := 48 ≤ b ≤ 57 ∨ 65 ≤ b ≤ 70.

(** A UUID in lowercase, and a MAC address in uppercase. *)
Definition uuid_text (v : string) : Prop := grouped 45 lower_digit [8; 4; 4; 4; 12]%nat (str_bytes v).
Definition mac_text (v : string) : Prop := grouped 58 upper_digit [2; 2; 2; 2; 2; 2]%nat (str_bytes v).

Lemma is_lower_hex_digit b : is_lower_hex b = true ↔ lower_digit b.
Proof. unfold is_lower_hex, is_ascii_digit, in_range, lower_digit. lia. Qed.
Lemma is_upper_hex_digit b : is_upper_hex b = true ↔ upper_digit b.
Proof. unfold is_upper_hex, is_ascii_digit, in_range, upper_digit. lia. Qed.

Lemma all_indexed_app p i a b : all_indexed p i (a ++ b) = (all_indexed p i a && all_indexed p (i + length a) b)%bool.
Proof.
  revert i. induction a as [|x a IH]; intros i; cbn [app all_indexed length]; [by rewrite Nat.add_0_r|]. rewrite IH, andb_assoc. by rewrite <- Nat.add_succ_comm.
Qed.

Lemma all_indexed_digits p (q : Z → bool) (digit : Z → Prop) i a : (∀ b, q b = true ↔ digit b) → (∀ j b, (i ≤ j < i + length a)%nat → p j b = q b) →
  all_indexed p i a = true ↔ Forall digit a.
Proof.
  intros Hq. revert i. induction a as [|x a IH]; intros i Hp; [done|]. cbn [all_indexed length] in *. rewrite andb_true_iff, Forall_cons, (Hp i) by lia.
  rewrite Hq, IH; [done|]. intros j b Hj. apply Hp. lia.
Qed.

(** A pattern of digits and separators read position by position. *)
Lemma all_indexed_grouped p (q : Z → bool) (digit : Z → Prop) sep lengths i bs : (∀ b, q b = true ↔ digit b) → lengths ≠ [] →
  (∀ before n after, lengths = before ++ n :: after → let start := (i + sum_list before + length before)%nat in
     (∀ j b, (start ≤ j < start + n)%nat → p j b = q b) ∧ (after ≠ [] → ∀ b, p (start + n)%nat b = (b =? sep))) →
  (length bs = (sum_list lengths + (length lengths - 1))%nat ∧ all_indexed p i bs = true) ↔ grouped sep digit lengths bs.
Proof.
  intros Hq. revert i bs. induction lengths as [|n lengths IH]; intros i bs Hne Hp; [done|]. destruct (Hp [] n lengths eq_refl) as [Hhere Hsep]. cbn in Hhere, Hsep.
  rewrite !Nat.add_0_r in Hhere, Hsep. destruct lengths as [|m lengths].
  - cbn [sum_list fold_right length]. split.
    + intros [Hl Hall]. exists [bs]. cbn. split; [f_equal; cbn in Hl; lia|]. split; [|done]. constructor; [|done]. apply (all_indexed_digits p q digit i bs Hq); [|done].
      intros j b Hj. apply Hhere. cbn in Hl. lia.
    + intros (groups & Hg & Hd & ->). destruct groups as [|g [|? ?]]; try done. injection Hg as <-. rewrite Forall_singleton in Hd. cbn. split; [lia|].
      apply (all_indexed_digits p q digit i g Hq); [|done]. intros j b Hj. apply Hhere. lia.
  - assert (∀ bs', (length bs' = (sum_list (m :: lengths) + (length (m :: lengths) - 1))%nat ∧ all_indexed p (i + n + 1) bs' = true) ↔ grouped sep digit (m :: lengths) bs') as Hrest.
    { intros bs'. apply IH; [done|]. intros before k after Heq. destruct (Hp (n :: before) k after) as [H1 H2]; [by rewrite Heq|]. cbn in H1, H2.
      split; [intros j b Hj; apply H1; cbn in Hj; lia|]. intros Ha b. specialize (H2 Ha b). rewrite <- H2. f_equal. cbn. lia. }
    split.
    + intros [Hl Hall]. cbn in Hl. rewrite <- (take_drop n bs) in Hall |- *. destruct (drop n bs) as [|x rest] eqn:Hdrop.
      { apply (f_equal length) in Hdrop. rewrite length_drop in Hdrop. cbn in Hdrop. lia. }
      assert (length (take n bs) = n) as Ht by (rewrite length_take; lia). assert (length rest = (length bs - n - 1)%nat) as Hr
        by (apply (f_equal length) in Hdrop; rewrite length_drop in Hdrop; cbn in Hdrop; lia).
      rewrite all_indexed_app in Hall. cbn [all_indexed] in Hall. rewrite Ht, !andb_true_iff in Hall. destruct Hall as (H1 & H2 & H3).
      rewrite (Hsep ltac:(done)) in H2. apply Z.eqb_eq in H2. subst x. rewrite <- Nat.add_1_r in H3.
      destruct (proj1 (Hrest rest)) as (groups & Hg & Hd & ->); [split; [cbn; lia|done]|]. exists (take n bs :: groups).
      split; [cbn; by rewrite Ht, Hg|]. split; [constructor; [|done]|by destruct groups].
      apply (all_indexed_digits p q digit i (take n bs) Hq); [|done]. intros j b Hj. apply Hhere. lia.
    + intros (groups & Hg & Hd & ->). destruct groups as [|g groups]; [done|]. injection Hg as Hgn Hg. apply Forall_cons in Hd as [Hd1 Hd].
      destruct (proj2 (Hrest (separated sep groups))) as [Hl Hall]; [by exists groups|]. destruct groups as [|g' groups]; [done|].
      change (separated sep (g :: g' :: groups)) with (g ++ sep :: separated sep (g' :: groups)). split; [rewrite length_app; cbn [length]; rewrite Hl; cbn; lia|].
      rewrite all_indexed_app. cbn [all_indexed]. rewrite Hgn, (Hsep ltac:(done)), Z.eqb_refl, <- Nat.add_1_r, Hall, !andb_true_r.
      apply (all_indexed_digits p q digit i g Hq); [|done]. intros j b Hj. apply Hhere. lia.
Qed.

Lemma validate_epoch_text v : validate_epoch v = Ok tt ↔ uuid_text v.
Proof.
  unfold validate_epoch, uuid_text. rewrite reject_if_Ok, orb_false_iff, !negb_false_iff, Z.eqb_eq, str_len_bytes.
  rewrite <- (all_indexed_grouped epoch_byte_ok is_lower_hex lower_digit 45 [8; 4; 4; 4; 12]%nat 0 (str_bytes v)); [|apply is_lower_hex_digit|done|].
  - unfold zlen. cbn [sum_list fold_right length]. split; intros [Hl Ha]; (split; [cbn in *; lia|done]).
  - intros before n after Heq. cbv zeta.
    do 5 (destruct before as [|? before]; cbn in Heq; injection Heq as ? Heq; [subst; split; [intros j b Hj; cbn in Hj; unfold epoch_byte_ok;
      destruct (existsb (Nat.eqb j) [8; 13; 18; 23]%nat) eqn:E; [|done]; apply existsb_exists in E as (x & Hx & Hxj%Nat.eqb_eq); cbn in Hx; lia
      |intros Ha b; done]|]). by destruct before.
Qed.

Lemma valid_mac_text v : valid_mac v = true ↔ mac_text v.
Proof.
  unfold valid_mac, mac_text. rewrite andb_true_iff, Z.eqb_eq, str_len_bytes.
  rewrite <- (all_indexed_grouped mac_byte_ok is_upper_hex upper_digit 58 [2; 2; 2; 2; 2; 2]%nat 0 (str_bytes v)); [|apply is_upper_hex_digit|done|].
  - unfold zlen. cbn [sum_list fold_right length]. split; intros [Hl Ha]; (split; [cbn in *; lia|done]).
  - intros before n after Heq. cbv zeta.
    do 6 (destruct before as [|? before]; cbn in Heq; injection Heq as ? Heq; [subst; split; [intros j b Hj; cbn in Hj; unfold mac_byte_ok;
      do 17 (destruct j as [|j]; [first [done|lia]|]); lia|intros Ha b; done]|]). by destruct before.
Qed.

Lemma prefix_append p v : String.prefix p v = true ↔ ∃ r, v = String.append p r.
Proof.
  revert v. induction p as [|c p IH]; intros v; [split; [eauto|]; intros _; by destruct v|].
  destruct v as [|d v]; [split; [discriminate|intros [r Hr]; discriminate]|].
  change (String.prefix (String c p) (String d v)) with (if ascii_dec c d then String.prefix p v else false).
  destruct (ascii_dec c d) as [->|Hne]; [|split; [discriminate|]; intros [r [= ? _]]; congruence].
  rewrite IH. split; intros [r Hr]; exists r; [by rewrite Hr|by injection Hr].
Qed.

(** The checksum text: 64 digits after the name of the algorithm. *)
Lemma validate_checksum_text v : validate_checksum v = Ok tt ↔ ∃ digits, length digits = 64%nat ∧ Forall lower_digit digits ∧ str_bytes v = str_bytes "sha256:" ++ digits.
Proof.
  unfold validate_checksum. rewrite reject_if_Ok, !orb_false_iff, !negb_false_iff, Z.eqb_eq, forallb_Forall, str_len_bytes. setoid_rewrite is_lower_hex_digit. split.
  - intros [[Hl [r ->]%prefix_append] Hd]. rewrite str_bytes_app in *. rewrite drop_app_length' in Hd by done. unfold zlen in Hl. rewrite length_app in Hl.
    exists (str_bytes r). split; [cbn in Hl; lia|done].
  - intros (digits & Hl & Hd & Hv). rewrite Hv, drop_app_length' by done. unfold zlen. rewrite length_app, Hl. split; [|done]. split; [done|].
    apply prefix_append. exists (bytes_str digits). apply str_bytes_inj. rewrite str_bytes_app, Hv. f_equal. symmetry. apply str_bytes_of.
    eapply Forall_impl; [exact Hd|]. unfold lower_digit. intros b Hb. lia.
Qed.

(** A policy, with every bound and format written out. *)
Record policy_says (gateway : string) (s : PolicySpecV1) : Prop := {
  ps_schema : schema_version s = 1;
  ps_gateway : spec_gateway_id s = gateway;
  ps_name : (∃ c, c ∈ str_chars (name s) ∧ is_whitespace c = false) ∧ zlen (str_chars (name s)) ≤ 100;
  ps_description : zlen (str_chars (description s)) ≤ 500;
  ps_priority : priority s ≤ 1000;
  ps_direction : direction (network s) = "both";
  ps_scope : scope (network s) = "internet" ∨
    (scope (network s) = "agent" ∧ kind (action s) = Limit ∧ clients (selectors s) ≠ [] ∧ applications (selectors s) = [] ∧ categories (selectors s) = []);
  ps_clients : zlen (clients (selectors s)) ≤ 32 ∧ Forall mac_text (clients (selectors s));
  ps_applications : zlen (applications (selectors s)) ≤ 32 ∧ Forall (text_ok 128) (applications (selectors s));
  ps_categories : zlen (categories (selectors s)) ≤ 16 ∧ Forall (text_ok 128) (categories (selectors s));
  ps_selects : clients (selectors s) ≠ [] ∨ applications (selectors s) ≠ [] ∨ categories (selectors s) ≠ [];
  ps_confidence : f64_is_finite (min_application_confidence (selectors s)) = true ∧ SFleb f64_0_80 (min_application_confidence (selectors s)) = true ∧
    SFleb (min_application_confidence (selectors s)) f64_1_0 = true;
  ps_action : action_wf s;
}.

Lemma policy_says_wf gateway s : spec_wf gateway s ↔ policy_says gateway s.
Proof.
  assert (Forall (λ c, valid_mac c = true) (clients (selectors s)) ↔ Forall mac_text (clients (selectors s))) as Hm by (rewrite !Forall_forall; by setoid_rewrite valid_mac_text).
  assert (direction (network s) = "both" → is_client_total_spec s = true ↔
    scope (network s) = "agent" ∧ kind (action s) = Limit ∧ clients (selectors s) ≠ [] ∧ applications (selectors s) = [] ∧ categories (selectors s) = []) as Hc.
  { intros Hd. unfold is_client_total_spec. rewrite !andb_true_iff, !String.eqb_eq, bool_decide_eq_true, negb_true_iff, no_selector_false, !no_selector_true, Hd.
    unfold POLICY_CLIENT_TOTAL_SCOPE. tauto. }
  split; intros []; (split; [try tauto..]).
Qed.

(** A snapshot: its checksum is the SHA-256 digest of the canonical JSON of all of
    its other fields but the wire version. *)
Record snapshot_says `{PolicyCodec} (f : PolicySnapshotFrame) : Prop := {
  ss_version : snap_wire_version f = 1;
  ss_gateway : text_ok 128 (snap_gateway_id f);
  ss_epoch : uuid_text (snap_controller_epoch f);
  ss_revision : snap_config_revision f < 2 ^ 53;
  ss_generation : snap_bundle_generation f ≠ 0 ∧ snap_bundle_generation f < 2 ^ 53;
  ss_validity : 0 ≤ generated_at_ms f < valid_until_ms f;
  ss_count : zlen (policies f) ≤ 256;
  ss_sorted : StronglySorted str_lt (id <$> policies f);
  ss_policies : Forall (λ p, text_ok 128 (id p) ∧ policy_says (snap_gateway_id f) (spec p)) (policies f);
  ss_schedules_sorted : StronglySorted str_lt (policy_id <$> schedule_intervals f);
  ss_schedules : Forall (λ s, text_ok 128 (policy_id s) ∧ policy_id s ∈ id <$> policies f ∧
    StronglySorted (λ a b, start_ms a < start_ms b ∨ (start_ms a = start_ms b ∧ end_ms a < end_ms b)) (intervals s) ∧
    Forall (λ i, start_ms i < end_ms i) (intervals s)) (schedule_intervals f);
  ss_checksum_form : ∃ digits, length digits = 64%nat ∧ Forall lower_digit digits ∧ str_bytes (snap_checksum f) = str_bytes "sha256:" ++ digits;
  ss_checksum : ∃ canonical,
    jcs (mkPayload (snap_gateway_id f) (snap_controller_epoch f) (snap_config_revision f) (snap_bundle_generation f) (generated_at_ms f) (valid_until_ms f)
           (policies f) (schedule_intervals f)) = Ok canonical ∧
    snap_checksum f = String.append "sha256:" (hex_bytes (sha256 canonical));
  ss_size : ∃ encoded, to_json (PolicySnapshot f) = Ok encoded ∧ zlen encoded ≤ 786432;
}.

Section canonical.
Context `{PolicyCodec}.

Lemma snapshot_says_wf f : snapshot_wf f ↔ snapshot_says f.
Proof.
  assert (Forall (intervals_wf (policies f)) (schedule_intervals f) ↔ Forall (λ s, text_ok 128 (policy_id s) ∧ policy_id s ∈ id <$> policies f ∧
    StronglySorted (λ a b, start_ms a < start_ms b ∨ (start_ms a = start_ms b ∧ end_ms a < end_ms b)) (intervals s) ∧
    Forall (λ i, start_ms i < end_ms i) (intervals s)) (schedule_intervals f)) as Hi.
  { rewrite !Forall_forall. split; intros Hs s Hin; specialize (Hs s Hin); [by destruct Hs|]. destruct Hs as (? & ? & ? & ?). by split. }
  assert (∀ g, Forall (λ p, text_ok 128 (id p) ∧ spec_wf g (spec p)) (policies f) ↔ Forall (λ p, text_ok 128 (id p) ∧ policy_says g (spec p)) (policies f)) as Hp
    by (intros g; rewrite !Forall_forall; by setoid_rewrite policy_says_wf).
  split.
  - intros [[] Hc (e & He & Hl)]. destruct fw_generations0 as [Hr Hg Hg']. unfold MAX_SAFE_JSON_INTEGER in *. split; try done; try lia.
    + by apply validate_epoch_text.
    + by apply Hp.
    + by apply Hi.
    + by apply validate_checksum_text.
    + unfold checksum_for in Hc. apply check_seq in Hc as [_ Hc]. change (mkPayload _ _ _ _ _ _ _ _) with (payload_of f).
      destruct (jcs (payload_of f)) as [c|]; [|done]. injection Hc as <-. by exists c.
    + by exists e.
  - intros [H1 H2 H3 H4 [H5 H5'] H6 H7 H8 H9 H10 H11 H12 (c & Hc & Hs) (e & He & Hl)].
    assert (generations_ok (snap_config_revision f) (snap_bundle_generation f)) as Hg by (unfold MAX_SAFE_JSON_INTEGER; split; unfold MAX_SAFE_JSON_INTEGER; lia).
    split; [split; try done; try lia|unfold checksum_for; apply check_seq; split; [by apply validate_generations_Ok|]|by exists e].
    + by apply validate_epoch_text.
    + by apply validate_checksum_text.
    + by apply Hp.
    + by apply Hi.
    + cbn. change (payload_of f) with (mkPayload (snap_gateway_id f) (snap_controller_epoch f) (snap_config_revision f) (snap_bundle_generation f) (generated_at_ms f)
        (valid_until_ms f) (policies f) (schedule_intervals f)). rewrite Hc, Hs. done.
Qed.

(** C9: A frame is accepted exactly when it is a well-formed snapshot, said without
    the validators: version, revision and generation in range, the controller epoch
    a lowercase UUID, at most 256 policies and schedules strictly sorted by id,
    every policy of this gateway with its fields, selectors and rates in range,
    every schedule of a known policy with sorted, nonempty intervals, a checksum that
    is the SHA-256 digest of the canonical JSON of all these fields, and at most
    768 KiB of JSON. *)
Theorem validate_snapshot_decides f :
  validate (PolicySnapshot f) = Ok tt ↔ snapshot_says f.
Proof. rewrite <- snapshot_says_wf. apply validate_snapshot_wf. Qed.

(** The snapshot the collector sends does not depend on the order in
    which policies, schedules or the intervals of a schedule were collected. *)
Lemma snapshot_order_independent gw ep rev gen gat val ps ps' ss mid ss' :
  NoDup (id <$> ps) → NoDup (policy_id <$> ss) →
  ps ≡ₚ ps' → ss ≡ₚ mid → Forall2 same_intervals mid ss' →
  snapshot gw ep rev gen gat val ps ss = snapshot gw ep rev gen gat val ps' ss'.
Proof.
  intros Hps Hss Hp Hm Hi. unfold snapshot.
  rewrite (sort_by_key_unique id ps ps' Hps Hp), (sort_by_key_unique policy_id ss mid Hss Hm).
  by rewrite (sort_schedules_same mid ss' Hi).
Qed.

Lemma sorted_keys {A} (key : A → string) l :
  NoDup (key <$> l) → StronglySorted str_lt (key <$> sort_by (λ a b, str_leb (key a) (key b)) l).
Proof.
  intros Hnd. rewrite <- (sort_by_perm (λ a b, str_leb (key a) (key b)) l) in Hnd.
  assert (StronglySorted (λ a b, str_leb (key a) (key b) = true)
            (sort_by (λ a b, str_leb (key a) (key b)) l)) as Hs.
  { apply sort_by_sorted; eauto with netq. }
  induction Hs as [|a l' Hs IH Hall]; [constructor|]. rewrite fmap_cons in *.
  apply NoDup_cons in Hnd as [Hnin Hnd]. constructor; [auto|]. apply Forall_fmap.
  rewrite Forall_forall in Hall |- *. intros b Hb. apply str_leb_lt; [by apply Hall|].
  intros Heq. apply Hnin. rewrite Heq. by apply list_elem_of_fmap_2.
Qed.

(** The strictly increasing arrangement of distinct intervals. *)
Lemma sorted_intervals s : NoDup (intervals s) → StronglySorted interval_lt (intervals (sort_intervals s)).
Proof.
  simpl. intros Hnd. rewrite <- (sort_by_perm interval_leb (intervals s)) in Hnd.
  assert (StronglySorted (λ a b, interval_leb a b = true) (sort_by interval_leb (intervals s))) as Hs.
  { apply sort_by_sorted; [apply interval_leb_total|apply interval_leb_trans]. }
  induction Hs as [|a l Hs IH Hall]; [constructor|]. apply NoDup_cons in Hnd as [Hnin Hnd].
  constructor; [auto|]. rewrite Forall_forall in Hall |- *. intros b Hb.
  specialize (Hall b Hb). assert (a ≠ b) as Hne by (intros ->; done).
  unfold interval_leb, interval_lt in *. destruct a, b; simpl in *.
  destruct (decide (end_ms0 = end_ms1)) as [->|]; [|lia].
  destruct (decide (start_ms0 = start_ms1)) as [->|]; [done|lia].
Qed.
End canonical.

(** The policies and schedules the collector may hand to [snapshot], in any order. *)
Record snapshot_input_ok (gw ep : string) (rev gen gat val : Z)
    (ps : list PolicySnapshotEntry) (ss : list PolicyScheduleIntervals) : Prop := {
  si_gateway : text_ok 128 gw;
  si_epoch : validate_epoch ep = Ok tt;
  si_generations : generations_ok rev gen;
  si_window : 0 ≤ gat < val;
  si_count : zlen ps ≤ 256;
  si_ids : NoDup (id <$> ps);
  si_policies : Forall (λ p, text_ok 128 (id p) ∧ spec_wf gw (spec p)) ps;
  si_schedule_ids : NoDup (policy_id <$> ss);
  si_schedules : Forall (λ s, text_ok 128 (policy_id s) ∧ policy_id s ∈ id <$> ps ∧
                              NoDup (intervals s) ∧ Forall (λ i, start_ms i < end_ms i) (intervals s)) ss;
}.

Definition canonical_policies : list PolicySnapshotEntry → list PolicySnapshotEntry :=
  sort_by (λ a b, str_leb (id a) (id b)).
Definition canonical_schedules (ss : list PolicyScheduleIntervals) : list PolicyScheduleIntervals :=
  sort_intervals <$> sort_by (λ a b, str_leb (policy_id a) (policy_id b)) ss.

Section accepting.
Context `{PolicyCodec} `{!PolicyCodecLaws}.

Lemma snapshot_input_fields gw ep rev gen gat val ps ss canonical :
  snapshot_input_ok gw ep rev gen gat val ps ss →
  snapshot_fields_wf (mkSnapshot POLICY_WIRE_VERSION gw ep rev gen gat val
    (String.append "sha256:" (hex_bytes (sha256 canonical)))
    (canonical_policies ps) (canonical_schedules ss)).
Proof.
  intros [Hgw Hep Hg Hw Hc Hids Hps Hsids Hss]. split; simpl; try done; try lia.
  - apply checksum_text_valid; [apply sha256_length|apply sha256_bytes].
  - unfold zlen, canonical_policies. by rewrite length_sort_by.
  - by apply sorted_keys.
  - unfold canonical_policies. by rewrite sort_by_perm.
  - unfold canonical_schedules. rewrite <- list_fmap_compose. by apply sorted_keys.
  - unfold canonical_schedules, canonical_policies.
    rewrite Forall_fmap, (sort_by_perm _ ss). eapply Forall_impl; [exact Hss|].
    intros s (Hid & Hknown & Hnd & Hne). split.
    + done.
    + by rewrite sort_by_perm.
    + by apply sorted_intervals.
    + simpl. by rewrite sort_by_perm.
Qed.

(** Acceptance: distinct well-formed policies and schedules, in any
    order, always yield a snapshot (when it fits the size bound), and the
    agent's validation of that frame succeeds. *)
Lemma snapshot_accepts gw ep rev gen gat val ps ss canonical encoded :
  let f := mkSnapshot POLICY_WIRE_VERSION gw ep rev gen gat val
             (String.append "sha256:" (hex_bytes (sha256 canonical)))
             (canonical_policies ps) (canonical_schedules ss) in
  snapshot_input_ok gw ep rev gen gat val ps ss →
  jcs (payload_of f) = Ok canonical →
  to_json (PolicySnapshot f) = Ok encoded →
  zlen encoded ≤ POLICY_MAX_SNAPSHOT_BYTES →
  snapshot gw ep rev gen gat val ps ss = Ok (PolicySnapshot f) ∧
  policies f ≡ₚ ps ∧ validate (PolicySnapshot f) = Ok tt.
Proof.
  intros f Hin Hjcs Hjson Hlen.
  assert (Hf : snapshot_fields_wf f) by by apply snapshot_input_fields.
  assert (Hsum : checksum_for (payload_of f) = Ok (snap_checksum f)).
  { unfold checksum_for. apply check_seq. split; [apply validate_generations_Ok, (fw_generations _ Hf)|].
    simpl. by rewrite Hjcs. }
  assert (Hv : validate (PolicySnapshot f) = Ok tt).
  { apply validate_snapshot_wf. split; eauto. }
  split_and!; [|apply sort_by_perm|done].
  unfold snapshot. change (mkPayload gw ep rev gen gat val _ _) with (payload_of f).
  rewrite Hsum. simpl. change (mkSnapshot _ _ _ _ _ _ _ _ _ _) with f. simpl in Hv. rewrite Hv.
  simpl. rewrite Hjson. simpl. unfold reject_if. by rewrite (proj2 (Z.ltb_ge _ _) Hlen).
Qed.

(** Tamper evidence: two accepted snapshots with the same checksum have
    canonical payloads with the same SHA-256 digest, so a frame whose payload
    was changed is rejected unless the change is a SHA-256 collision. *)
Lemma accepted_checksum_binds f f' :
  validate (PolicySnapshot f) = Ok tt → validate (PolicySnapshot f') = Ok tt →
  snap_checksum f = snap_checksum f' →
  ∃ c c', jcs (payload_of f) = Ok c ∧ jcs (payload_of f') = Ok c' ∧ sha256 c = sha256 c'.
Proof.
  cbn [validate]. rewrite !validate_snapshot_wf. intros [_ Hf _] [_ Hf' _] Heq.
  unfold checksum_for in *. inv_ok. do 2 eexists. split_and!; [done..|].
  rewrite Heq, <- Hf' in Hf. apply (inj (String.append "sha256:")) in Hf.
  apply hex_bytes_inj; [apply sha256_bytes..|done].
Qed.
End accepting.

(** The decoder returns a frame exactly when the bytes are within the frame
    size, read back as that frame and the frame is valid; hence an encoded
    frame that JSON reads back decodes to itself. *)
Lemma decode_encode `{PolicyCodec} f bytes :
  (decode bytes = Ok f ↔
     zlen bytes ≤ POLICY_MAX_FRAME_BYTES ∧ from_json bytes = Ok f ∧ validate f = Ok tt) ∧
  (encode f = Ok bytes → from_json bytes = Ok f → decode bytes = Ok f).
Proof.
  assert (decode bytes = Ok f ↔
     zlen bytes ≤ POLICY_MAX_FRAME_BYTES ∧ from_json bytes = Ok f ∧ validate f = Ok tt) as Hdec.
  { unfold decode. rewrite reject_seq, bind_Ok, Z.ltb_ge. setoid_rewrite check_seq. split.
    - intros (? & g & Hg & Hv & [= ->]). done.
    - intros (? & ? & ?). eauto. }
  split; [exact Hdec|]. unfold encode. intros He Hj. apply Hdec. inv_ok. subst. split_and!; [lia|done|done].
Qed.

(** An accepted flow command lives for at least one and at most 120000
    milliseconds; on [i64] timestamps the saturating subtraction never hides
    a longer life. *)
Lemma flow_command_lifetime `{PolicyCodec} f :
  is_i64 (issued_at_ms f) → is_i64 (expires_at_ms f) →
  validate (FlowCommand f) = Ok tt →
  0 ≤ issued_at_ms f < expires_at_ms f ∧ expires_at_ms f - issued_at_ms f ≤ 120000.
Proof.
  simpl. unfold validate_flow_command. rewrite !check_seq, !reject_if_Ok.
  unfold is_i64, i64_saturating_sub, clamp, i64_min, i64_max. intros. destruct_and!. lia.
Qed.

(** ** Concrete instances *)

Module Example.
(** A toy codec: constant encodings and a digest that sums the bytes. *)
Definition codec : PolicyCodec := {|
  to_json := λ _, Ok [123; 125];
  from_json := λ _, Err "unused";
  jcs := λ p, Ok (str_bytes (cp_gateway_id p) ++ concat (str_bytes ∘ id <$> cp_policies p));
  sha256 := λ b, (foldr Z.add 0 b mod 256) :: replicate 31 0;
|}.

Definition laws : @PolicyCodecLaws codec.
Proof.
  split; intros b; [done|]. unfold sha256, codec. constructor; [|by apply Forall_replicate].
  unfold in_width. simpl. apply Z.mod_pos_bound. lia.
Qed.

Definition mac : string := "02:BB:CC:DD:EE:0F".
Definition block_spec (prio : Z) : PolicySpecV1 :=
  mkSpec 1 "gw" "no internet" "" true prio (mkSelectors [mac] [] [] f64_0_80)
    (mkNetwork "internet" "both") (mkAction Block None None) None.
Definition limit_spec (prio : Z) (down : Z) : PolicySpecV1 :=
  mkSpec 1 "gw" "cap" "" true prio (mkSelectors [mac] [] [] f64_1_0)
    (mkNetwork "agent" "both") (mkAction Limit (Some down) None)
    (Some (mkSchedule "UTC" [mkWindow [Mon] "09:00" "10:00"])).
Definition p1 : PolicySnapshotEntry := mkEntry "p1" (block_spec 10).
Definition p2 : PolicySnapshotEntry := mkEntry "p2" (limit_spec 20 64000).
Definition i1 : PolicyScheduleInterval := mkInterval 1800000000100 1800000000200.
Definition i2 : PolicyScheduleInterval := mkInterval 1800000000300 1800000000400.
Definition epoch : string := "00000000-0000-4000-8000-00000000000a".
Definition s2 : PolicyScheduleIntervals := mkIntervals "p2" [i2; i1].

Definition frame : PolicySnapshotFrame :=
  mkSnapshot 1 "gw" epoch 3 4 1800000000000 1800000001000
    (String.append "sha256:" (hex_bytes (@sha256 codec (str_bytes "gw" ++ str_bytes "p1" ++ str_bytes "p2"))))
    (canonical_policies [p2; p1]) (canonical_schedules [s2]).

Definition flow_command : FlowCommandFrame :=
  mkFlowCommand 1 "gw" "boot" epoch 3 "cmd-1" "flow-1" Upsert (Some VBlock) ["p1"]
    1800000060000 1800000000000.
End Example.

Ltac decide_text := by apply bad_text_false; vm_compute.

Lemma snapshot_accepts_witness :
  @snapshot Example.codec "gw" Example.epoch 3 4 1800000000000 1800000001000
    [Example.p2; Example.p1] [Example.s2] = Ok (PolicySnapshot Example.frame).
Proof.
  eapply (@snapshot_accepts Example.codec Example.laws "gw" Example.epoch 3 4 1800000000000 1800000001000
           [Example.p2; Example.p1] [Example.s2] (str_bytes "gw" ++ str_bytes "p1" ++ str_bytes "p2") [123; 125]).
  - split.
    + decide_text.
    + by vm_compute.
    + split; vm_compute; congruence.
    + lia.
    + vm_compute. congruence.
    + apply (bool_decide_unpack _). by vm_compute.
    + rewrite !Forall_cons, Forall_nil.
      split_and!; [decide_text|by apply validate_policy_spec_Ok|decide_text|by apply validate_policy_spec_Ok|done].
    + apply (bool_decide_unpack _). by vm_compute.
    + apply Forall_singleton. split_and!.
      * decide_text.
      * apply (bool_decide_unpack _). by vm_compute.
      * repeat constructor; [|set_solver]. rewrite list_elem_of_singleton. discriminate.
      * repeat constructor; vm_compute; congruence.
  - by vm_compute.
  - by vm_compute.
  - vm_compute. congruence.
Defined.

Lemma snapshot_order_independent_witness :
  @snapshot Example.codec "gw" Example.epoch 3 4 1800000000000 1800000001000
    [Example.p2; Example.p1] [Example.s2] =
  @snapshot Example.codec "gw" Example.epoch 3 4 1800000000000 1800000001000
    [Example.p1; Example.p2] [mkIntervals "p2" [Example.i1; Example.i2]].
Proof.
  apply (@snapshot_order_independent Example.codec "gw" Example.epoch 3 4 1800000000000 1800000001000
           [Example.p2; Example.p1] [Example.p1; Example.p2] [Example.s2] [Example.s2]).
  - apply (bool_decide_unpack _). by vm_compute.
  - apply (bool_decide_unpack _). by vm_compute.
  - apply Permutation_swap.
  - done.
  - constructor; [|constructor]. split; [done|]. apply Permutation_swap.
Defined.

Lemma accepted_checksum_binds_witness :
  ∃ c c', @jcs Example.codec (payload_of Example.frame) = Ok c ∧
          @jcs Example.codec (payload_of Example.frame) = Ok c' ∧
          @sha256 Example.codec c = @sha256 Example.codec c'.
Proof.
  apply (@accepted_checksum_binds Example.codec Example.laws Example.frame Example.frame);
    [by vm_compute|by vm_compute|done].
Defined.

Lemma flow_command_lifetime_witness :
  0 ≤ issued_at_ms Example.flow_command < expires_at_ms Example.flow_command ∧
  expires_at_ms Example.flow_command - issued_at_ms Example.flow_command ≤ 120000.
Proof.
  apply (@flow_command_lifetime Example.codec Example.flow_command);
    [vm_compute; split; congruence|vm_compute; split; congruence|by vm_compute].
Defined.
