(* ===== verification/Telemetry.v ===== *)
(** The telemetry envelope: batch metadata validation
    (src/crates/protocol/src/validation.rs), packet-sample validation
    (src/crates/protocol/src/sample.rs) and the bounded, optionally compressed
    message codec (src/crates/protocol/src/codec.rs). *)

From S2P Require Import Prelude.

(** ** Messages (the fields the validators read) *)

Record TelemetryBatch := mkBatch {
  gateway_id : string;
  boot_id : string;
  sequence : Z;
  sent_at : Z;
  agent_version : string;
  protocol_version : Z;
}.

Record SamplePacket := mkPacket {
  direction : Z;
  timestamp_unix_ms : Z;
  original_length : Z;
  captured_length : Z;
  payload : list Z;
}.

Record FlowSampleKey := mkSampleKey {
  ip_version : Z;
  protocol : Z;
  client_ip : list Z;
  client_port : Z;
  remote_ip : list Z;
  remote_port : Z;
  first_seen_unix_ms : Z;
}.

Record FlowSample := mkSample {
  flow_id : string;
  key : option FlowSampleKey;
  packets : list SamplePacket;
  total_captured_bytes : Z;
}.

Record FlowSampleBatch := mkSampleBatch {
  metadata : TelemetryBatch;
  samples : list FlowSample;
}.

(** ** Batch metadata *)

Definition PROTOCOL_VERSION : Z := 1.

Inductive BatchMetadataError :=
| MissingGatewayId
| MissingBootId
| MissingSequence
| MissingSentAt
| MissingAgentVersion
| UnsupportedProtocolVersion (v : Z).

Definition validate_batch_metadata (b : TelemetryBatch) : result BatchMetadataError unit :=
  _ ← reject_if (str_is_empty (gateway_id b)) MissingGatewayId;
  _ ← reject_if (str_is_empty (boot_id b)) MissingBootId;
  _ ← reject_if (sequence b =? 0) MissingSequence;
  _ ← reject_if (sent_at b =? 0) MissingSentAt;
  _ ← reject_if (str_is_empty (agent_version b)) MissingAgentVersion;
  reject_if (negb (protocol_version b =? PROTOCOL_VERSION))
    (UnsupportedProtocolVersion (protocol_version b)).

(** ** Flow samples *)

Definition MAX_SAMPLE_BYTES_PER_FLOW : Z := 65536.
Definition MAX_SAMPLE_PACKETS_PER_DIRECTION : Z := 32.
Definition MAX_SAMPLE_BYTES_PER_PACKET : Z := 4096.
Definition MAX_SAMPLES_PER_BATCH : Z := 128.

(** The validator's errors; [Panic] is an index out of bounds. *)
Inductive SampleValidationError :=
| Metadata (e : BatchMetadataError)
| Invalid (reason : string)
| Panic.

Abbreviation SRes := (result SampleValidationError).

(** [Direction::try_from]: slot 0 counts uploads, slot 1 downloads. *)
Definition packet_slot (p : SamplePacket) : option bool :=
  if direction p =? 1 then Some false else if direction p =? 2 then Some true else None.

(** The loop state: packets per direction and the [u32] byte total. *)
Record PacketTally := mkTally { uploads : Z; downloads : Z; total : Z }.

Definition count_packet (down : bool) (t : PacketTally) : PacketTally :=
  if down then mkTally (uploads t) (downloads t + 1) (total t)
  else mkTally (uploads t + 1) (downloads t) (total t).
Definition slot_count (down : bool) (t : PacketTally) : Z := if down then downloads t else uploads t.

Definition validate_packet (k : FlowSampleKey) (t : PacketTally) (p : SamplePacket) : SRes PacketTally :=
  down ← ok_or (packet_slot p) (Invalid "packet direction");
  let t := count_packet down t in
  _ ← reject_if (MAX_SAMPLE_PACKETS_PER_DIRECTION <? slot_count down t) (Invalid "direction packet limit");
  _ ← reject_if ((timestamp_unix_ms p <? first_seen_unix_ms k)
                 || (captured_length p =? 0)
                 || (MAX_SAMPLE_BYTES_PER_PACKET <? captured_length p)
                 || (original_length p <? captured_length p)
                 || negb (zlen (payload p) =? captured_length p))%bool
        (Invalid "packet timestamp or length");
  first ← ok_or (head (payload p)) Panic;
  _ ← reject_if (negb (Z.shiftr first 4 =? ip_version k)) (Invalid "packet IP version");
  Ok (mkTally (uploads t) (downloads t) ((total t + captured_length p) mod 2 ^ 32)).

Definition sample_ip_len (k : FlowSampleKey) : SRes Z :=
  if ip_version k =? 4 then Ok 4 else if ip_version k =? 6 then Ok 16 else Err (Invalid "IP version").

Definition validate_sample (ids : gset string) (s : FlowSample) : SRes (gset string) :=
  _ ← reject_if (str_is_empty (flow_id s) || (128 <? str_len (flow_id s)) || bool_decide (flow_id s ∈ ids))%bool
        (Invalid "missing, oversized or duplicate flow ID");
  k ← ok_or (key s) (Invalid "missing flow key");
  ip_len ← sample_ip_len k;
  _ ← reject_if (negb (zlen (client_ip k) =? ip_len) || negb (zlen (remote_ip k) =? ip_len)
                 || (protocol k =? 0) || (255 <? protocol k) || (65535 <? client_port k)
                 || (65535 <? remote_port k) || (first_seen_unix_ms k =? 0))%bool
        (Invalid "flow key");
  _ ← reject_if (bool_decide (packets s = []) || (2 * MAX_SAMPLE_PACKETS_PER_DIRECTION <? zlen (packets s)))%bool
        (Invalid "packet count");
  t ← foldM (validate_packet k) (mkTally 0 0 0) (packets s);
  _ ← reject_if ((MAX_SAMPLE_BYTES_PER_FLOW <? total t) || negb (total t =? total_captured_bytes s))%bool
        (Invalid "flow byte limit or total");
  Ok ({[flow_id s]} ∪ ids).

Definition validate_flow_sample_batch (b : FlowSampleBatch) : SRes unit :=
  _ ← map_err Metadata (validate_batch_metadata (metadata b));
  _ ← reject_if (bool_decide (samples b = []) || (MAX_SAMPLES_PER_BATCH <? zlen (samples b)))%bool
        (Invalid "batch sample count");
  _ ← foldM validate_sample ∅ (samples b);
  Ok tt.

(** ** Specification of accepted samples *)

Record packet_wf (k : FlowSampleKey) (p : SamplePacket) : Prop := {
  pw_direction : direction p = 1 ∨ direction p = 2;
  pw_timestamp : first_seen_unix_ms k ≤ timestamp_unix_ms p;
  pw_captured : 0 < captured_length p ≤ 4096;
  pw_original : captured_length p ≤ original_length p;
  pw_payload : zlen (payload p) = captured_length p;
  pw_ip : ∃ b rest, payload p = b :: rest ∧ Z.shiftr b 4 = ip_version k;
}.

Definition n_direction (d : Z) (ps : list SamplePacket) : Z :=
  zlen (filter (λ p, direction p = d) ps).
Definition captured_sum (ps : list SamplePacket) : Z := foldr Z.add 0 (captured_length <$> ps).

Record key_wf (k : FlowSampleKey) : Prop := {
  kw_version : ip_version k = 4 ∧ zlen (client_ip k) = 4 ∧ zlen (remote_ip k) = 4 ∨
               ip_version k = 6 ∧ zlen (client_ip k) = 16 ∧ zlen (remote_ip k) = 16;
  kw_protocol : protocol k ≠ 0 ∧ protocol k ≤ 255;
  kw_ports : client_port k ≤ 65535 ∧ remote_port k ≤ 65535;
  kw_seen : first_seen_unix_ms k ≠ 0;
}.

Record sample_wf (s : FlowSample) : Prop := {
  sw_id : flow_id s ≠ EmptyString ∧ str_len (flow_id s) ≤ 128;
  sw_key : ∃ k, key s = Some k ∧ key_wf k ∧ Forall (packet_wf k) (packets s);
  sw_packets : packets s ≠ [];
  sw_uploads : n_direction 1 (packets s) ≤ 32;
  sw_downloads : n_direction 2 (packets s) ≤ 32;
  sw_total : total_captured_bytes s = captured_sum (packets s);
  sw_bytes : captured_sum (packets s) ≤ 65536;
}.

Record metadata_wf (b : TelemetryBatch) : Prop := {
  mw_gateway : gateway_id b ≠ EmptyString;
  mw_boot : boot_id b ≠ EmptyString;
  mw_sequence : sequence b ≠ 0;
  mw_sent : sent_at b ≠ 0;
  mw_agent : agent_version b ≠ EmptyString;
  mw_protocol : protocol_version b = PROTOCOL_VERSION;
}.

Record sample_batch_wf (b : FlowSampleBatch) : Prop := {
  bw_metadata : metadata_wf (metadata b);
  bw_count : 1 ≤ zlen (samples b) ≤ 128;
  bw_distinct : NoDup (flow_id <$> samples b);
  bw_samples : Forall sample_wf (samples b);
}.

(** ** The packet loop *)

(** What the loop maintains: both counters are within the limit and the total
    is far below the width of [u32]. *)
Definition tally_ok (t : PacketTally) : Prop :=
  0 ≤ uploads t ≤ 32 ∧ 0 ≤ downloads t ≤ 32 ∧ 0 ≤ total t ≤ 4096 * (uploads t + downloads t).

Lemma packet_slot_Some p down :
  packet_slot p = Some down ↔ direction p = if down then 2 else 1.
Proof.
  unfold packet_slot. destruct (direction p =? 1) eqn:H1; [|destruct (direction p =? 2) eqn:H2].
  - destruct down; split; intros; simplify_eq; try lia; done.
  - destruct down; split; intros; simplify_eq; try lia; done.
  - destruct down; split; intros; simplify_eq; lia.
Qed.

(** One packet is accepted exactly when it is well formed and its direction
    is not exhausted; the [u32] sum is then taken modulo [2^32]. *)
Lemma validate_packet_step k t p t' :
  validate_packet k t p = Ok t' ↔
  ∃ down, packet_slot p = Some down ∧ slot_count down (count_packet down t) ≤ 32 ∧ packet_wf k p ∧
    t' = mkTally (uploads (count_packet down t)) (downloads (count_packet down t))
           ((total (count_packet down t) + captured_length p) mod 2 ^ 32).
Proof.
  unfold validate_packet. rewrite bind_Ok. setoid_rewrite ok_or_Ok. split.
  - intros (down & Hslot & Hr). inv_ok.
    unfold MAX_SAMPLE_PACKETS_PER_DIRECTION, MAX_SAMPLE_BYTES_PER_PACKET in *.
    exists down. apply packet_slot_Some in Hslot as Hd. pose proof (zlen_nonneg (payload p)).
    destruct (payload p) as [|b rest] eqn:Hp; [done|].
    match goal with H : head _ = _ |- _ => injection H as -> end.
    split_and!; [done|lia| |done].
    split; rewrite ?Hp; [destruct down; lia|lia|lia|lia|lia|]. do 2 eexists. split; [done|lia].
  - intros (down & Hslot & Hc & [Hd Hts Hcap Horig Hlen (b & rest & Hp & Hv)] & ->).
    exists down. split; [done|]. unfold MAX_SAMPLE_PACKETS_PER_DIRECTION, MAX_SAMPLE_BYTES_PER_PACKET.
    apply reject_seq; split; [lia|]. apply reject_seq; split; [lia|]. rewrite Hp. simpl.
    apply reject_seq; split; [lia|done].
Qed.

Definition tally_add (t : PacketTally) (ps : list SamplePacket) : PacketTally :=
  mkTally (uploads t + n_direction 1 ps) (downloads t + n_direction 2 ps) (total t + captured_sum ps).

Lemma n_direction_cons d p ps :
  n_direction d (p :: ps) = (if direction p =? d then 1 else 0) + n_direction d ps.
Proof.
  unfold n_direction, zlen. rewrite filter_cons.
  destruct (decide (direction p = d)), (direction p =? d) eqn:?; simpl; lia.
Qed.

Lemma n_direction_nonneg d ps : 0 ≤ n_direction d ps.
Proof. apply zlen_nonneg. Qed.

Lemma captured_sum_cons p ps : captured_sum (p :: ps) = captured_length p + captured_sum ps.
Proof. done. Qed.

Lemma validate_packet_Ok k t p t' : tally_ok t →
  validate_packet k t p = Ok t' ↔ packet_wf k p ∧ tally_ok t' ∧ t' = tally_add t [p].
Proof.
  intros Ht. rewrite validate_packet_step. unfold tally_add.
  rewrite !n_direction_cons, captured_sum_cons. unfold tally_ok in *.
  change (n_direction 1 []) with 0. change (n_direction 2 []) with 0. change (captured_sum []) with 0.
  split.
  - intros (down & Hslot & Hc & Hwf & ->). pose proof (pw_captured _ _ Hwf).
    apply packet_slot_Some in Hslot.
    destruct down; simpl in *; rewrite Hslot, Z.mod_small by lia; simpl;
      (split_and!; [done|lia..|f_equal; lia]).
  - intros (Hwf & Ht' & ->). simpl in *. destruct (pw_direction _ _ Hwf) as [Hd|Hd].
    + exists false. rewrite Hd in *. simpl in *. split_and!; [by apply packet_slot_Some|lia|done|].
      rewrite Z.mod_small by lia. f_equal; lia.
    + exists true. rewrite Hd in *. simpl in *. split_and!; [by apply packet_slot_Some|lia|done|].
      rewrite Z.mod_small by lia. f_equal; lia.
Qed.

Lemma tally_add_cons t p ps : tally_add (tally_add t [p]) ps = tally_add t (p :: ps).
Proof.
  unfold tally_add. simpl. rewrite !n_direction_cons, !captured_sum_cons.
  change (n_direction 1 []) with 0. change (n_direction 2 []) with 0. change (captured_sum []) with 0.
  f_equal; lia.
Qed.

Lemma tally_add_mono t p ps : Forall (packet_wf p) ps → tally_ok t →
  uploads (tally_add t ps) ≤ 32 → downloads (tally_add t ps) ≤ 32 → tally_ok (tally_add t ps).
Proof.
  intros Hps. revert t. induction Hps as [|q ps Hq Hps IH]; intros t Ht Hu Hd.
  - unfold tally_ok, tally_add in *. simpl in *. unfold n_direction, captured_sum, zlen in *. simpl in *. lia.
  - rewrite <- tally_add_cons in *. apply IH; [|done|done].
    pose proof (pw_captured _ _ Hq). pose proof (pw_direction _ _ Hq).
    pose proof (n_direction_nonneg 1 ps). pose proof (n_direction_nonneg 2 ps).
    unfold tally_ok, tally_add in *. simpl in *. rewrite !n_direction_cons, ?captured_sum_cons in *.
    change (n_direction 1 []) with 0 in *. change (n_direction 2 []) with 0 in *.
    change (captured_sum []) with 0 in *.
    destruct (direction q =? 1) eqn:?, (direction q =? 2) eqn:?; lia.
Qed.

(** The loop computes the counts and the exact, never wrapped byte sum. *)
Lemma validate_packets_Ok k ps t t' : tally_ok t →
  foldM (validate_packet k) t ps = Ok t' ↔
  Forall (packet_wf k) ps ∧ tally_ok (tally_add t ps) ∧ t' = tally_add t ps.
Proof.
  revert t. induction ps as [|p ps IH]; intros t Ht; cbn [foldM].
  - assert (tally_add t [] = t) as ->.
    { destruct t. unfold tally_add. simpl. f_equal; unfold n_direction, captured_sum, zlen; simpl; lia. }
    split; [intros [= <-]; by split_and!|by intros (_ & _ & ->)].
  - rewrite bind_Ok, Forall_cons. split.
    + intros (t1 & Hp & Hps). apply validate_packet_Ok in Hp as (Hwf & Ht1 & ->); [|done].
      apply IH in Hps as (Hf & Hok & ->); [|done]. rewrite tally_add_cons in *. by split_and!.
    + intros ([Hwf Hf] & Hok & ->). rewrite <- tally_add_cons in Hok.
      exists (tally_add t [p]).
      assert (tally_ok (tally_add t [p])) as Ht1.
      { apply (tally_add_mono _ k); [by apply Forall_singleton|done| |].
        all: unfold tally_ok, tally_add in *; simpl in *.
        all: pose proof (n_direction_nonneg 1 ps); pose proof (n_direction_nonneg 2 ps); lia. }
      split; [by apply validate_packet_Ok|]. apply IH; [done|]. by rewrite tally_add_cons in *.
Qed.

(** ** Samples and batches *)

Lemma sample_key_Ok k ip_len :
  sample_ip_len k = Ok ip_len ∧
  (negb (zlen (client_ip k) =? ip_len) || negb (zlen (remote_ip k) =? ip_len)
   || (protocol k =? 0) || (255 <? protocol k) || (65535 <? client_port k)
   || (65535 <? remote_port k) || (first_seen_unix_ms k =? 0))%bool = false ↔
  key_wf k ∧ ip_len = (if ip_version k =? 4 then 4 else 16).
Proof.
  unfold sample_ip_len. split.
  - intros [Hl Hb]. destruct (ip_version k =? 4) eqn:H4; [|destruct (ip_version k =? 6) eqn:H6];
      simplify_eq; (split; [split; lia|done]).
  - intros [[[Hv|Hv] ? ? ?] ->]; destruct (ip_version k =? 4) eqn:H4; try lia.
    + split; [done|lia].
    + rewrite (proj2 (Z.eqb_eq (ip_version k) 6)) by lia. split; [done|lia].
Qed.

Lemma validate_sample_Ok ids s ids' :
  validate_sample ids s = Ok ids' ↔ sample_wf s ∧ flow_id s ∉ ids ∧ ids' = {[flow_id s]} ∪ ids.
Proof.
  assert (tally_ok (mkTally 0 0 0)) as Ht0 by (unfold tally_ok; simpl; lia).
  unfold validate_sample. rewrite reject_seq, !orb_false_iff, bool_decide_eq_false. split.
  - intros [[[Hne Hlen] Hnin] Hr]. inv_ok. subst.
    match goal with H : foldM _ _ _ = Ok _ |- _ => apply validate_packets_Ok in H as (Hps & Hok & ->); [|done] end.
    unfold MAX_SAMPLE_BYTES_PER_FLOW, MAX_SAMPLE_PACKETS_PER_DIRECTION in *.
    unfold tally_add, tally_ok in *. simpl in *.
    split_and!; [|done|done]. split; try lia.
    + split; [by intros Heq; rewrite Heq in Hne|lia].
    + eexists. split; [eassumption|]. split; [|done].
      eapply proj1, sample_key_Ok. split; eassumption.
    + split_bools. done.
  - intros ([[Hne Hlen] (k & Hk & Hkw & Hps) Hnil Hu Hd Htot Hb] & Hnin & ->).
    split; [split_and!; [by destruct (flow_id s)|lia|done]|].
    destruct (proj2 (sample_key_Ok k _) (conj Hkw eq_refl)) as [Hl Hbad].
    rewrite Hk. cbn [ok_or mbind result_bind]. rewrite Hl. cbn [mbind result_bind].
    apply reject_seq; split; [done|]. apply reject_seq; split.
    { unfold MAX_SAMPLE_PACKETS_PER_DIRECTION. rewrite bool_decide_eq_false_2 by done.
      enough (zlen (packets s) ≤ 64) by lia.
      transitivity (n_direction 1 (packets s) + n_direction 2 (packets s)); [|lia].
      clear -Hps. induction Hps as [|p ps Hp _ IH]; [done|]. rewrite !n_direction_cons.
      pose proof (pw_direction _ _ Hp). unfold zlen in *. simpl.
      destruct (direction p =? 1) eqn:?, (direction p =? 2) eqn:?; lia. }
    assert (tally_ok (tally_add (mkTally 0 0 0) (packets s))) as Hok.
    { apply (tally_add_mono _ k); unfold tally_add; simpl; auto; lia. }
    rewrite (proj2 (validate_packets_Ok k _ _ _ Ht0) (conj Hps (conj Hok eq_refl))).
    cbn [mbind result_bind]. apply reject_seq; split; [|done].
    unfold tally_add, MAX_SAMPLE_BYTES_PER_FLOW. simpl. lia.
Qed.

Lemma validate_samples_Ok ids l ids' :
  foldM validate_sample ids l = Ok ids' ↔
  Forall sample_wf l ∧ NoDup (flow_id <$> l) ∧ (∀ s, s ∈ l → flow_id s ∉ ids) ∧
  ids' = list_to_set (flow_id <$> l) ∪ ids.
Proof.
  revert ids. induction l as [|s l IH]; intros ids; cbn [foldM].
  - split.
    + intros [= <-]. split_and!; [constructor|constructor|set_solver|set_solver].
    + intros (_ & _ & _ & ->). f_equal. set_solver.
  - rewrite bind_Ok, fmap_cons, Forall_cons, NoDup_cons. setoid_rewrite elem_of_cons. split.
    + intros (ids1 & Hs & Hl). apply validate_sample_Ok in Hs as (Hwf & Hnin & ->).
      apply IH in Hl as (Hf & Hnd & Hfresh & ->). split_and!; try done.
      * intros (s' & Heq & Hs')%list_elem_of_fmap. apply (Hfresh s' Hs'). set_solver.
      * intros s' [->|Hs']; [done|]. specialize (Hfresh s' Hs'). set_solver.
      * set_solver.
    + intros ([Hwf Hf] & [Hnin Hnd] & Hfresh & ->). eexists. split.
      { apply validate_sample_Ok. split_and!; eauto. }
      apply IH. split_and!; try done; [|set_solver].
      intros s' Hs'. specialize (Hfresh s' (or_intror Hs')).
      apply not_elem_of_union. split; [|done]. intros Heq%elem_of_singleton.
      apply Hnin. rewrite <- Heq. by apply list_elem_of_fmap_2.
Qed.

Lemma validate_batch_metadata_Ok b : validate_batch_metadata b = Ok tt ↔ metadata_wf b.
Proof.
  unfold validate_batch_metadata. rewrite !check_seq, !reject_if_Ok, negb_false_iff, !Z.eqb_neq, Z.eqb_eq.
  assert (∀ s, str_is_empty s = false ↔ s ≠ EmptyString) as He.
  { intros s. destruct s; simpl; split; congruence. }
  rewrite !He. split; [|intros []; tauto]. intros. destruct_and!. by split.
Qed.

Lemma validate_flow_sample_batch_Ok b : validate_flow_sample_batch b = Ok tt ↔ sample_batch_wf b.
Proof.
  unfold validate_flow_sample_batch. rewrite check_seq, map_err_Ok, validate_batch_metadata_Ok,
    reject_seq, orb_false_iff, bool_decide_eq_false, bind_Ok.
  setoid_rewrite validate_samples_Ok. unfold MAX_SAMPLES_PER_BATCH. split.
  - intros (Hm & [Hne Hlen] & ids & (Hf & Hnd & _) & _). split; try done.
    rewrite <- zlen_nil_iff in Hne. pose proof (zlen_nonneg (samples b)). lia.
  - intros [Hm Hc Hnd Hf]. split; [done|]. split; [split; [|lia]|].
    + rewrite <- zlen_nil_iff. lia.
    + eexists. split; [|done]. split_and!; [done|done|set_solver|done].
Qed.

(** A batch of flow samples is accepted exactly when its metadata is
    complete, it has 1 through 128 samples with distinct flow ids, and every
    sample has a valid tuple, 1 through 32 packets per direction at most, and
    a declared byte total that is the exact sum of its packets' lengths and
    at most 65536: the [u32] accumulator never wraps. *)
Lemma validate_flow_sample_batch_decides b :
  validate_flow_sample_batch b = Ok tt ↔ sample_batch_wf b.
Proof. apply validate_flow_sample_batch_Ok. Qed.

(** The sample validator never indexes out of bounds, whatever the
    batch. *)
Lemma validate_flow_sample_batch_no_panic b : validate_flow_sample_batch b ≠ Err Panic.
Proof.
  assert (∀ k t p, validate_packet k t p ≠ Err Panic) as Hp.
  { intros k t p. unfold validate_packet. destruct (packet_slot p); [|done]. simpl.
    destruct (reject_if (_ <? _) _) eqn:H1; simpl; [|unfold reject_if in *; case_match; congruence].
    destruct (reject_if (_ || _)%bool _) as [[]|e] eqn:H2; simpl;
      [|unfold reject_if in *; case_match; congruence].
    apply reject_if_Ok in H2. destruct (payload p) as [|first rest]; simpl.
    - change (zlen []) with 0 in H2. lia.
    - intros Hr. by apply bind_Err in Hr as [[_ ?]%reject_if_Err|(? & _ & ?)]. }
  unfold validate_flow_sample_batch. rewrite bind_Err. intros [Hm|([] & _ & Hr)].
  { by destruct (validate_batch_metadata (metadata b)). }
  apply bind_Err in Hr as [[_ ?]%reject_if_Err|([] & _ & Hr)]; [done|].
  apply bind_Err in Hr as [Hr|(? & _ & ?)]; [|done].
  revert Hr. apply foldM_not_Err. intros ids s. unfold validate_sample.
  repeat (rewrite bind_Err; intros [Hs|(? & _ & Hs)]; revert Hs);
    try (by intros [_ ?]%reject_if_Err); try done.
  - by destruct (key s).
  - unfold sample_ip_len. by repeat case_match.
  - by apply foldM_not_Err.
Qed.

(** ** The message codec *)

Inductive ContentEncoding := Identity | Zstd.

Definition http_value (e : ContentEncoding) : option string :=
  match e with Identity => None | Zstd => Some "zstd" end.

Inductive DecodeError :=
| UnsupportedEncoding (v : string)
| Decompression (e : string)
| TooLarge
| Protobuf (e : string).

Inductive EncodeError := Compression (e : string).

Definition from_http_value (v : option string) : result DecodeError ContentEncoding :=
  match v with
  | None => Ok Identity
  | Some v =>
    let v := str_trim v in
    if str_is_empty v then Ok Identity
    else if String.eqb v "identity" then Ok Identity
    else if String.eqb v "zstd" then Ok Zstd
    else Err (UnsupportedEncoding v)
  end.

Definition MAX_DECODED_BATCH_BYTES : Z := 16 * 1024 * 1024.

Record EncodedTelemetryBatch := mkEncoded { body : list Z; encoding : ContentEncoding }.

(** Library code: the protobuf encoding of a message type (prost) and zstd.
    Opening a zstd stream yields the bytes it produces and, when the stream is
    damaged, the error raised after them. *)
Class MessageCodec (M : Type) := {
  encode_to_vec : M → list Z;
  proto_decode : list Z → result string M;
  zstd_encode_all : list Z → result string (list Z);
  zstd_stream : list Z → result string (list Z * option string);
}.

Section message_codec.
Context {M : Type} `{MessageCodec M}.

Definition encode_message (m : M) (compression_threshold_bytes : Z) : result EncodeError EncodedTelemetryBatch :=
  let protobuf := encode_to_vec m in
  if zlen protobuf <? compression_threshold_bytes then Ok (mkEncoded protobuf Identity)
  else
    body ← map_err Compression (zstd_encode_all protobuf);
    Ok (mkEncoded body Zstd).

(** [decoder.take(limit).read_to_end(..)]. *)
Definition read_bounded (limit : Z) (stream : list Z * option string) : result DecodeError (list Z) :=
  let data := ztake limit (fst stream) in
  if zlen data <? limit then
    match snd stream with Some e => Err (Decompression e) | None => Ok data end
  else Ok data.

Definition decoded_body (payload : list Z) (e : ContentEncoding) : result DecodeError (list Z) :=
  match e with
  | Identity =>
    _ ← reject_if (MAX_DECODED_BATCH_BYTES <? zlen payload) TooLarge;
    Ok payload
  | Zstd =>
    stream ← map_err Decompression (zstd_stream payload);
    protobuf ← read_bounded (MAX_DECODED_BATCH_BYTES + 1) stream;
    _ ← reject_if (MAX_DECODED_BATCH_BYTES <? zlen protobuf) TooLarge;
    Ok protobuf
  end.

Definition decode_message (payload : list Z) (e : ContentEncoding) : result DecodeError M :=
  protobuf ← decoded_body payload e;
  map_err Protobuf (proto_decode protobuf).

(** Whatever the input expands to, at most one byte more than the limit is
    read, and only bodies within the limit reach the protobuf decoder. *)
Lemma decoded_body_bounded payload e b :
  decoded_body payload e = Ok b → zlen b ≤ MAX_DECODED_BATCH_BYTES.
Proof. destruct e; simpl; intros Hd; inv_ok; subst; lia. Qed.

Lemma read_bounded_length limit stream b :
  0 ≤ limit → read_bounded limit stream = Ok b → zlen b ≤ limit.
Proof.
  unfold read_bounded. intros Hl Hr. pose proof (zlen_ztake limit (fst stream) Hl).
  destruct (_ <? _); [destruct (snd stream)|]; simplify_eq; lia.
Qed.

(** A compressed body that expands beyond 16 MiB is refused with
    [TooLarge] whatever follows in the stream, even a decompression error:
    no more than one byte past the limit is ever read. *)
Lemma oversized_refused payload data err :
  zstd_stream payload = Ok (data, err) → MAX_DECODED_BATCH_BYTES < zlen data →
  decode_message payload Zstd = Err TooLarge ∧
  ∀ b, read_bounded (MAX_DECODED_BATCH_BYTES + 1) (data, err) = Ok b → zlen b ≤ MAX_DECODED_BATCH_BYTES + 1.
Proof.
  intros Hs Hlen. split; [|intros b; by apply read_bounded_length].
  unfold decode_message, decoded_body. rewrite Hs. cbn [map_err mbind result_bind].
  unfold read_bounded. cbn [fst snd].
  pose proof (zlen_ztake (MAX_DECODED_BATCH_BYTES + 1) data) as Ht.
  unfold MAX_DECODED_BATCH_BYTES in *.
  rewrite (proj2 (Z.ltb_ge _ _)) by lia. cbn [mbind result_bind].
  unfold reject_if. by rewrite (proj2 (Z.ltb_lt _ _)) by lia.
Qed.

End message_codec.

(** The laws the codec relies on: protobuf and zstd read back what they wrote. *)
Class MessageCodecLaws (M : Type) `{MessageCodec M} := {
  proto_roundtrip m : proto_decode (encode_to_vec m) = Ok m;
  zstd_roundtrip b c : zstd_encode_all b = Ok c → zstd_stream c = Ok (b, None);
}.

(** Codec round trip: a message whose protobuf encoding fits the 16 MiB
    limit decodes to itself after encoding, on both sides of the compression
    threshold, with the encoding recovered from its HTTP header value. *)
Lemma message_roundtrip {M} `{MessageCodecLaws M} (m : M) threshold e :
  zlen (encode_to_vec m) ≤ MAX_DECODED_BATCH_BYTES →
  encode_message m threshold = Ok e →
  from_http_value (http_value (encoding e)) = Ok (encoding e) ∧
  decode_message (body e) (encoding e) = Ok m.
Proof.
  intros Hlen He. split; [by destruct (encoding e)|]. unfold encode_message in He.
  destruct (_ <? threshold).
  - injection He as <-. unfold decode_message, decoded_body. simpl.
    unfold reject_if. rewrite (proj2 (Z.ltb_ge _ _)) by lia. simpl. by rewrite proto_roundtrip.
  - inv_ok. subst. unfold decode_message, decoded_body. cbn [body encoding].
    rewrite (zstd_roundtrip (encode_to_vec m)) by done. cbn [map_err mbind result_bind].
    unfold read_bounded. cbn [fst snd]. rewrite ztake_all by lia.
    rewrite (proj2 (Z.ltb_lt _ _)) by lia. cbn [mbind result_bind].
    unfold reject_if. rewrite (proj2 (Z.ltb_ge _ _)) by lia. cbn [mbind result_bind].
    by rewrite proto_roundtrip.
Qed.

(** ** Concrete instances *)

Module Example.

(** A body just beyond the limit; opaque, so that nothing ever enumerates it. *)
Lemma oversized_body : { l : list Z | MAX_DECODED_BATCH_BYTES < zlen l }.
Proof.
  assert (∀ n, MAX_DECODED_BATCH_BYTES < n → { l : list Z | MAX_DECODED_BATCH_BYTES < zlen l }) as Hex.
  { intros n Hn. exists (replicate (Z.to_nat n) 0). rewrite zlen_replicate; [done|].
    unfold MAX_DECODED_BATCH_BYTES in Hn. lia. }
  exact (Hex (MAX_DECODED_BATCH_BYTES + 1) (Z.lt_succ_diag_r _)).
Qed.

(** Messages that are byte lists, with a run-length marker as compression. *)
Definition codec : MessageCodec (list Z) := {|
  encode_to_vec := λ m, m;
  proto_decode := λ b, Ok b;
  zstd_encode_all := λ b, Ok (40 :: b);
  zstd_stream := λ c,
    match c with
    | 40 :: b => Ok (b, None)
    | 41 :: _ => Ok (proj1_sig oversized_body, Some "truncated")
    | _ => Err "bad magic"
    end;
|}.

Definition laws : @MessageCodecLaws (list Z) codec.
Proof. split; [done|]. simpl. by intros b c [= <-]. Qed.

End Example.

Lemma message_roundtrip_witness :
  @decode_message (list Z) Example.codec [40; 1; 2; 3] Zstd = Ok [1; 2; 3].
Proof.
  apply (@message_roundtrip (list Z) Example.codec Example.laws [1; 2; 3] 2 (mkEncoded [40; 1; 2; 3] Zstd));
    [vm_compute; congruence|by vm_compute].
Defined.

Lemma oversized_refused_witness :
  @decode_message (list Z) Example.codec [41] Zstd = Err TooLarge.
Proof.
  apply (@oversized_refused (list Z) Example.codec [41] (proj1_sig Example.oversized_body) (Some "truncated"));
    [reflexivity|exact (proj2_sig Example.oversized_body)].
Defined.
