(* ===== verification/Topology.v ===== *)
(** Addresses, network prefixes and the gateway topology
    (src/crates/agent/src/topology.rs), and the compaction of the internal
    network sets handed to nftables (src/crates/agent/src/policy/nft.rs). *)

From S2P Require Import Prelude.

(** ** Addresses: an [IpAddr] is its family and its big-endian value. *)

Inductive IpAddr := V4 (a : Z) | V6 (a : Z).

#[export] Instance IpAddr_eq_dec : EqDecision IpAddr.
Proof. solve_decision. Defined.
#[export] Instance IpAddr_countable : Countable IpAddr.
Proof.
  apply (inj_countable'
    (λ a, match a with V4 x => inl x | V6 x => inr x end)
    (λ s, match s with inl x => V4 x | inr x => V6 x end)).
  by intros [].
Defined.

Definition is_ipv4 (a : IpAddr) : bool := match a with V4 _ => true | V6 _ => false end.
Definition addr_bits (a : IpAddr) : Z := match a with V4 _ => 32 | V6 _ => 128 end.
Definition addr_val (a : IpAddr) : Z := match a with V4 x | V6 x => x end.
Definition addr_wf (a : IpAddr) : Prop := 0 ≤ addr_val a < 2 ^ addr_bits a.

(** [IpAddr]'s derived order: V4 before V6, then by value. *)
Definition addr_leb (a b : IpAddr) : bool :=
  match a, b with
  | V4 x, V4 y | V6 x, V6 y => x <=? y
  | V4 _, V6 _ => true
  | V6 _, V4 _ => false
  end.

Lemma addr_leb_total a b : addr_leb a b = false → addr_leb b a = true.
Proof. destruct a, b; simpl; (done || lia). Qed.
Lemma addr_leb_trans a b c : addr_leb a b = true → addr_leb b c = true → addr_leb a c = true.
Proof. destruct a, b, c; simpl; (done || lia). Qed.
Lemma addr_leb_antisym a b : addr_leb a b = true → addr_leb b a = true → a = b.
Proof. destruct a, b; simpl; intros; try done; f_equal; lia. Qed.
#[export] Instance addr_order : TotalOrder addr_leb.
Proof. split; [apply addr_leb_total|apply addr_leb_trans|apply addr_leb_antisym]. Qed.

(** ** Prefixes *)

Record NetworkPrefix := mkPrefix { network : IpAddr; prefix_length : Z }.
#[export] Instance NetworkPrefix_eq_dec : EqDecision NetworkPrefix.
Proof. solve_decision. Defined.

Inductive PrefixError := mkPrefixError (prefix_length max : Z).

Definition prefix_mask (prefix_length bits : Z) : Z :=
  if prefix_length =? 0 then 0
  else if prefix_length =? 128 then 2 ^ 128 - 1
  else Z.shiftl (Z.shiftl 1 prefix_length - 1) (bits - prefix_length).

Definition prefix_new (address : IpAddr) (prefix_length : Z) : result PrefixError NetworkPrefix :=
  let max := if is_ipv4 address then 32 else 128 in
  if max <? prefix_length then Err (mkPrefixError prefix_length max)
  else Ok (mkPrefix
         match address with
         | V4 a => V4 (Z.land a (prefix_mask prefix_length 32))
         | V6 a => V6 (Z.land a (prefix_mask prefix_length 128))
         end prefix_length).

Definition contains (p : NetworkPrefix) (address : IpAddr) : bool :=
  (Bool.eqb (is_ipv4 address) (is_ipv4 (network p))
   && match prefix_new address (prefix_length p) with
      | Ok candidate => bool_decide (network candidate = network p)
      | Err _ => false
      end)%bool.

(** A prefix built by [prefix_new] from a real address and a [u8] length. *)
Definition prefix_wf (p : NetworkPrefix) : Prop :=
  ∃ a len, addr_wf a ∧ 0 ≤ len ∧ prefix_new a len = Ok p.

(** The addresses of a prefix: same family, same leading bits. *)
Definition in_prefix (p : NetworkPrefix) (a : IpAddr) : Prop :=
  is_ipv4 a = is_ipv4 (network p) ∧
  addr_val a / 2 ^ (addr_bits a - prefix_length p) =
  addr_val (network p) / 2 ^ (addr_bits a - prefix_length p).

Lemma land_mask a len bits :
  0 ≤ len ≤ bits → bits = 32 ∨ bits = 128 → 0 ≤ a < 2 ^ bits →
  Z.land a (prefix_mask len bits) = (a / 2 ^ (bits - len)) * 2 ^ (bits - len).
Proof.
  intros Hlen Hbits Ha. rewrite <- Z.shiftr_div_pow2, <- Z.shiftl_mul_pow2 by lia.
  unfold prefix_mask. destruct (len =? 0) eqn:H0.
  { rewrite Z.land_0_r, Z.shiftr_div_pow2, Z.div_small by (replace (bits - len) with bits by lia; lia).
    by rewrite Z.shiftl_0_l. }
  destruct (len =? 128) eqn:H128.
  { replace (bits - len) with 0 by lia. rewrite Z.shiftr_0_r, Z.shiftl_0_r.
    change (2 ^ 128 - 1) with (Z.ones 128). rewrite Z.land_ones by lia. apply Z.mod_small.
    replace bits with 128 in Ha by lia. done. }
  rewrite Z.shiftl_1_l. change (2 ^ len - 1) with (Z.pred (2 ^ len)).
  rewrite <- Z.ones_equiv. apply Z.bits_inj'. intros n Hn.
  rewrite Z.land_spec, !Z.shiftl_spec by lia. 
  destruct (decide (n < bits - len)).
  { rewrite !(Z.testbit_neg_r _ (n - _)) by lia. apply andb_false_r. }
  rewrite Z.shiftr_spec, Z.testbit_ones_nonneg by lia.
  replace (n - (bits - len) + (bits - len)) with n by lia.
  destruct (n - (bits - len) <? len) eqn:Hc; [apply andb_true_r|].
  rewrite andb_false_r. symmetry.
  rewrite <- (Z.mod_small a (2 ^ bits)) by lia. rewrite Z.mod_pow2_bits_high by lia. done.
Qed.

Lemma div_mul_div x k : 0 < k → x / k * k / k = x / k.
Proof. intros. by rewrite Z.div_mul by lia. Qed.

Lemma prefix_new_Ok a len p : addr_wf a → 0 ≤ len → prefix_new a len = Ok p →
  prefix_length p = len ∧ len ≤ addr_bits a ∧ is_ipv4 (network p) = is_ipv4 a ∧
  addr_val (network p) = (addr_val a / 2 ^ (addr_bits a - len)) * 2 ^ (addr_bits a - len).
Proof.
  unfold prefix_new, addr_wf. intros Ha Hlen Hp. destruct a as [a|a]; simpl in *;
    (destruct (_ <? len) eqn:Hmax; [done|]); simplify_eq; simpl;
    (split_and!; [done|lia|done|]); rewrite land_mask; try lia; done.
Qed.

Lemma same_family a b : is_ipv4 a = is_ipv4 b → addr_bits a = addr_bits b.
Proof. by destruct a, b. Qed.

Lemma addr_ext a b : is_ipv4 a = is_ipv4 b → addr_val a = addr_val b → a = b.
Proof. destruct a, b; simpl; congruence. Qed.

Lemma contains_in_prefix p a :
  prefix_wf p → addr_wf a → contains p a = true ↔ in_prefix p a.
Proof.
  intros (b & len & Hb & Hlen & Hp) Ha. unfold contains, in_prefix.
  destruct (prefix_new_Ok _ _ _ Hb Hlen Hp) as (<- & Hle & Hfam & Hval).
  rewrite andb_true_iff, Bool.eqb_true_iff. 
  destruct (decide (is_ipv4 a = is_ipv4 (network p))) as [Hf|Hf]; [|tauto].
  match goal with |- _ ∧ ?x ↔ _ ∧ ?y => enough (x ↔ y) by tauto end.
  assert (addr_bits a = addr_bits b) as Hbits by (apply same_family; congruence).
  assert (∃ c, prefix_new a (prefix_length p) = Ok c) as [c Hc].
  { unfold prefix_new. destruct a; simpl in *; rewrite (proj2 (Z.ltb_ge _ _)) by lia; eauto. }
  destruct (prefix_new_Ok _ _ _ Ha Hlen Hc) as (Hcl & _ & Hcf & Hcv).
  rewrite Hc, bool_decide_eq_true, Hbits in *.
  assert (0 < 2 ^ (addr_bits b - prefix_length p)) by (apply Z.pow_pos_nonneg; lia).
  split.
  - intros Heq. rewrite <- Heq, Hcv. symmetry. by apply div_mul_div.
  - intros Heq. apply addr_ext; [congruence|]. rewrite Hcv, Heq, Hval. by rewrite div_mul_div by done.
Qed.

(** Prefix membership as computed by masking and comparing is membership
    by leading bits: for every well-formed prefix and address. *)
Lemma contains_spec p a :
  prefix_wf p → addr_wf a → contains p a = true ↔ in_prefix p a.
Proof. apply contains_in_prefix. Qed.

(** ** Compaction of network sets *)

(** The order in which [compact_networks] visits prefixes: family, then
    shortest prefix, then network. *)
Definition prefix_visit_leb (a b : NetworkPrefix) : bool :=
  if negb (Bool.eqb (is_ipv4 (network a)) (is_ipv4 (network b))) then is_ipv4 (network a)
  else if prefix_length a =? prefix_length b then addr_leb (network a) (network b)
  else prefix_length a <? prefix_length b.

(** The order of the rendered set: network, then prefix length. *)
Definition prefix_render_leb (a b : NetworkPrefix) : bool :=
  if bool_decide (network a = network b) then prefix_length a <=? prefix_length b
  else addr_leb (network a) (network b).

Definition compact_step (compacted : list NetworkPrefix) (n : NetworkPrefix) : list NetworkPrefix :=
  if existsb (λ parent, contains parent (network n)) compacted then compacted else compacted ++ [n].

(** The loop of [compact_networks] on the prefixes that parsed. *)
Definition compact_prefixes (networks : list NetworkPrefix) : list NetworkPrefix :=
  sort_by prefix_render_leb (foldl compact_step [] (sort_by prefix_visit_leb networks)).

Lemma prefix_visit_total a b : prefix_visit_leb a b = false → prefix_visit_leb b a = true.
Proof.
  unfold prefix_visit_leb. destruct (network a) as [x|x], (network b) as [y|y]; simpl; try done;
    destruct (prefix_length a =? prefix_length b) eqn:?, (prefix_length b =? prefix_length a) eqn:?; lia.
Qed.

Lemma prefix_visit_trans a b c :
  prefix_visit_leb a b = true → prefix_visit_leb b c = true → prefix_visit_leb a c = true.
Proof.
  unfold prefix_visit_leb. destruct (network a) as [x|x], (network b) as [y|y], (network c) as [z|z];
    simpl; try done;
    destruct (prefix_length a =? prefix_length b) eqn:?, (prefix_length b =? prefix_length c) eqn:?,
      (prefix_length a =? prefix_length c) eqn:?; lia.
Qed.

Definition disjoint_prefixes (p q : NetworkPrefix) : Prop :=
  ∀ a, addr_wf a → ¬ (in_prefix p a ∧ in_prefix q a).

Lemma disjoint_prefixes_sym p q : disjoint_prefixes p q → disjoint_prefixes q p.
Proof. intros H a Ha [??]. by apply (H a Ha). Qed.

(** Coarser leading bits agree whenever finer ones do. *)
Lemma div_coarser x y m k : 0 ≤ m → 0 ≤ k → x / 2 ^ m = y / 2 ^ m → x / 2 ^ (m + k) = y / 2 ^ (m + k).
Proof.
  intros Hm Hk Heq. rewrite !Z.pow_add_r by lia.
  rewrite <- !Z.div_div by (try apply Z.pow_pos_nonneg; lia || (apply Z.pow_nonzero; lia)).
  by rewrite Heq.
Qed.

Lemma prefix_wf_bounds p : prefix_wf p →
  0 ≤ prefix_length p ≤ addr_bits (network p) ∧ addr_wf (network p) ∧ in_prefix p (network p).
Proof.
  intros (a & len & Ha & Hlen & Hp). destruct (prefix_new_Ok _ _ _ Ha Hlen Hp) as (<- & Hle & Hfam & Hval).
  rewrite (same_family _ _ Hfam). split_and!; [lia|lia| |done].
  unfold addr_wf in *. rewrite (same_family _ _ Hfam), Hval.
  set (k := 2 ^ (addr_bits a - prefix_length p)).
  assert (0 < k) by (apply Z.pow_pos_nonneg; lia).
  pose proof (Z.mul_div_le (addr_val a) k). pose proof (Z.div_pos (addr_val a) k). nia.
Qed.

Lemma in_prefix_nested c n a :
  prefix_wf c → prefix_wf n → is_ipv4 (network c) = is_ipv4 (network n) →
  prefix_length c ≤ prefix_length n → in_prefix n a →
  (in_prefix c a ↔ in_prefix c (network n)).
Proof.
  intros Hc Hn Hfam Hle [Hfa Hva]. unfold in_prefix.
  pose proof (prefix_wf_bounds _ Hc) as (Hcb & _ & _). pose proof (prefix_wf_bounds _ Hn) as (Hnb & _ & _).
  rewrite (same_family _ _ Hfa) in *.
  assert (addr_val a / 2 ^ (addr_bits (network n) - prefix_length c) =
          addr_val (network n) / 2 ^ (addr_bits (network n) - prefix_length c)) as Hco.
  { replace (addr_bits (network n) - prefix_length c)
      with ((addr_bits (network n) - prefix_length n) + (prefix_length n - prefix_length c)) by lia.
    apply div_coarser; [lia|lia|done]. }
  rewrite Hco, Hfa, Hfam. tauto.
Qed.

Lemma visit_leb_cases c n : prefix_visit_leb c n = true →
  is_ipv4 (network c) ≠ is_ipv4 (network n) ∨
  (is_ipv4 (network c) = is_ipv4 (network n) ∧ prefix_length c ≤ prefix_length n).
Proof.
  unfold prefix_visit_leb. destruct (network c), (network n); simpl; try (by left);
    intros; right; (split; [done|]); destruct (prefix_length c =? prefix_length n) eqn:?; lia.
Qed.

(** What visiting one more prefix does: the earlier prefix covers it whole,
    or the two are disjoint. *)
Lemma visit_covers_or_disjoint c n :
  prefix_wf c → prefix_wf n → prefix_visit_leb c n = true →
  if contains c (network n) then ∀ a, in_prefix n a → in_prefix c a else disjoint_prefixes c n.
Proof.
  intros Hc Hn Hv. pose proof (prefix_wf_bounds _ Hn) as (_ & Hwn & Hself).
  pose proof (contains_in_prefix c (network n) Hc Hwn) as Hspec.
  destruct (visit_leb_cases _ _ Hv) as [Hne|[Hfam Hle]].
  - destruct (contains c (network n)); [exfalso; destruct Hspec as [[Hf _] _]; congruence|].
    intros a _ [[Hfc _] [Hfn _]]. congruence.
  - destruct (contains c (network n)).
    + intros a Ha. apply (in_prefix_nested c n); try done. by apply Hspec.
    + intros a _ [Hca Hna]. assert (false = true); [|done]. apply Hspec.
      by apply (in_prefix_nested c n a).
Qed.

Record compacted (src out : list NetworkPrefix) : Prop := {
  cp_incl : ∀ n, n ∈ out → n ∈ src;
  cp_cover : ∀ n, n ∈ src → ∃ c, c ∈ out ∧ ∀ a, in_prefix n a → in_prefix c a;
  cp_nodup : NoDup out;
  cp_disjoint : ∀ c d, c ∈ out → d ∈ out → c ≠ d → disjoint_prefixes c d;
}.

Lemma compact_step_compacted src out n :
  Forall prefix_wf (src ++ [n]) → (∀ c, c ∈ src → prefix_visit_leb c n = true) →
  compacted src out → compacted (src ++ [n]) (compact_step out n).
Proof.
  rewrite Forall_app, Forall_singleton. intros [Hsrc Hn] Hv [Hincl Hcover Hnd Hdis].
  rewrite Forall_forall in Hsrc. unfold compact_step.
  destruct (existsb _ out) eqn:Hex.
  - apply existsb_exists in Hex as (c & Hc%list_elem_of_In & Hcn).
    pose proof (visit_covers_or_disjoint c n) as Hcov. rewrite Hcn in Hcov.
    split; [set_solver| |done|done]. intros m [Hm| ->%list_elem_of_singleton]%elem_of_app; [auto|].
    exists c. auto.
  - rewrite existsb_false, Forall_forall in Hex.
    assert (∀ c, c ∈ out → disjoint_prefixes c n) as Hfresh.
    { intros c Hc. pose proof (visit_covers_or_disjoint c n) as Hcov. rewrite Hex in Hcov by done. auto. }
    pose proof (prefix_wf_bounds _ Hn) as (_ & Hwn & Hself).
    split.
    + set_solver.
    + intros m [Hm| ->%list_elem_of_singleton]%elem_of_app.
      * destruct (Hcover m Hm) as (c & ? & ?). exists c. set_solver.
      * exists n. set_solver.
    + apply NoDup_app. split_and!; [done| |apply NoDup_singleton].
      intros c Hc ->%list_elem_of_singleton. by apply (Hfresh n Hc (network n)).
    + intros c d [Hc| ->%list_elem_of_singleton]%elem_of_app [Hd| ->%list_elem_of_singleton]%elem_of_app Hne;
        [auto|auto|by apply disjoint_prefixes_sym, Hfresh|done].
Qed.

Lemma compact_loop rest src out :
  Forall prefix_wf (src ++ rest) → StronglySorted (λ a b, prefix_visit_leb a b = true) (src ++ rest) →
  compacted src out → compacted (src ++ rest) (foldl compact_step out rest).
Proof.
  revert src out. induction rest as [|n rest IH]; intros src out Hwf Hs Hc; simpl.
  { by rewrite app_nil_r. }
  replace (src ++ n :: rest) with ((src ++ [n]) ++ rest) in * by by rewrite <- app_assoc.
  apply IH; [done|done|]. apply Forall_app in Hwf as [Hwf _]. apply compact_step_compacted; [done| |done].
  intros c Hin. apply StronglySorted_app in Hs as (_ & Hs & _).
  apply StronglySorted_app in Hs as (Hs & _ & _). apply Hs; set_solver.
Qed.

(** Compaction of the internal networks changes nothing about which
    addresses are internal, and leaves pairwise disjoint prefixes, as the
    interval sets of nftables require. *)
Lemma compact_prefixes_correct networks :
  Forall prefix_wf networks →
  (∀ a, addr_wf a →
     (∃ c, c ∈ compact_prefixes networks ∧ contains c a = true) ↔
     (∃ n, n ∈ networks ∧ contains n a = true)) ∧
  NoDup (compact_prefixes networks) ∧
  (∀ c d a, c ∈ compact_prefixes networks → d ∈ compact_prefixes networks → c ≠ d → addr_wf a →
     contains c a = true → contains d a = true → False).
Proof.
  intros Hwf. set (visited := sort_by prefix_visit_leb networks).
  assert (Forall prefix_wf ([] ++ visited)) as Hwf' by (unfold visited; simpl; by rewrite sort_by_perm).
  destruct (compact_loop visited [] []) as [Hincl Hcover Hnd Hdis]; [done| |split; [set_solver|set_solver|constructor|set_solver]|].
  { apply sort_by_sorted; [apply prefix_visit_total|apply prefix_visit_trans]. }
  rewrite Forall_forall in Hwf'. simpl in *.
  assert (∀ c, c ∈ compact_prefixes networks → c ∈ foldl compact_step [] visited) as Hout.
  { intros c. unfold compact_prefixes. by rewrite elem_of_sort_by. }
  split_and!.
  - intros a Ha. unfold compact_prefixes. setoid_rewrite elem_of_sort_by.
    split; intros (c & Hc & Hca).
    + exists c. split; [|done]. apply Hincl in Hc. unfold visited in Hc. by apply elem_of_sort_by in Hc.
    + assert (c ∈ visited) as Hv by (unfold visited; by apply elem_of_sort_by).
      destruct (Hcover c Hv) as (d & Hd & Hsub). exists d. split; [done|].
      apply contains_in_prefix; [by apply Hwf', Hincl|done|]. apply Hsub. by apply contains_in_prefix; [apply Hwf'|..].
  - unfold compact_prefixes. by rewrite sort_by_perm.
  - intros c d a Hc%Hout Hd%Hout Hne Ha Hca Hda. apply (Hdis c d Hc Hd Hne a Ha).
    split; apply contains_in_prefix; auto.
Qed.

(** ** The topology snapshot *)

Inductive TopologyMode := Router | OneArmRouter | Bridge | Host | UnknownMode.
#[export] Instance TopologyMode_eq_dec : EqDecision TopologyMode.
Proof. solve_decision. Defined.

Inductive SegmentRole := Lan | RoutedLan | Tunnel | Wan | UnknownRole.
Definition is_internal (r : SegmentRole) : bool := match r with Lan | RoutedLan => true | _ => false end.

Inductive SegmentSource := Inference | InterfaceAddress | KernelRoute | OpenWrt | Config.
(** The derived order of the sources: configuration outranks everything. *)
Definition source_rank (s : SegmentSource) : Z :=
  match s with Inference => 0 | InterfaceAddress => 1 | KernelRoute => 2 | OpenWrt => 3 | Config => 4 end.

Record NetworkSegment := mkSegment {
  subnet : NetworkPrefix;
  segment_interface : option string;
  role : SegmentRole;
  source : SegmentSource;
  segment_confidence : Z;
}.

Record InterfaceInfo := mkInterface {
  if_name : string;
  addresses : list (IpAddr * Z);
  is_bridge : bool;
  is_tunnel : bool;
}.

Record RouteInfo := mkRoute {
  destination : NetworkPrefix;
  gateway : option IpAddr;
  route_interface : string;
}.

Record TopologySnapshot := mkTopology {
  mode : TopologyMode;
  interfaces : list InterfaceInfo;
  segments : list NetworkSegment;
  routes : list RouteInfo;
  local_addresses : list IpAddr;
  ipv4_forwarding : bool;
  ipv6_forwarding : bool;
  ipv6_default_route : bool;
  icmp_redirects : option bool;
  flow_offloading : option bool;
  flow_offloading_hw : option bool;
  warnings : list string;
  confidence : Z;
}.

Definition is_default_route (r : RouteInfo) : bool := prefix_length (destination r) =? 0.

(** A default route whose gateway is on a subnet of the capture interface itself. *)
Definition default_gateway_on_capture_subnet (t : TopologySnapshot) (capture : string) : bool :=
  existsb (λ r,
    (is_default_route r && String.eqb (route_interface r) capture
     && match gateway r with
        | None => false
        | Some gw =>
          existsb (λ i,
            (String.eqb (if_name i) capture
             && existsb (λ ap, match prefix_new (fst ap) (snd ap) with
                               | Ok n => contains n gw
                               | Err _ => false
                               end) (addresses i))%bool) (interfaces t)
        end)%bool) (routes t).

Definition infer_mode (t : TopologySnapshot) (capture : string) : TopologySnapshot :=
  let default_interfaces := filter (λ r, is_default_route r = true) (routes t) in
  let forwarding := (ipv4_forwarding t || ipv6_forwarding t)%bool in
  let has_bridge := existsb (λ i, String.eqb (if_name i) capture && is_bridge i)%bool (interfaces t) in
  let m :=
    if (forwarding && default_gateway_on_capture_subnet t capture)%bool then OneArmRouter
    else if (forwarding && negb (bool_decide (default_interfaces = [])))%bool then Router
    else if has_bridge then Bridge
    else if negb (bool_decide (local_addresses t = [])) then Host
    else UnknownMode in
  let c := match m with OneArmRouter => 95 | Router => 85 | Bridge | Host => 70 | UnknownMode => 20 end in
  mkTopology m (interfaces t) (segments t) (routes t) (local_addresses t) (ipv4_forwarding t)
    (ipv6_forwarding t) (ipv6_default_route t) (icmp_redirects t) (flow_offloading t)
    (flow_offloading_hw t) (warnings t) c.

Definition add_warning (t : TopologySnapshot) (w : string) : TopologySnapshot :=
  mkTopology (mode t) (interfaces t) (segments t) (routes t) (local_addresses t) (ipv4_forwarding t)
    (ipv6_forwarding t) (ipv6_default_route t) (icmp_redirects t) (flow_offloading t)
    (flow_offloading_hw t) (warnings t ++ [w]) (confidence t).

Definition finish_health (t : TopologySnapshot) : TopologySnapshot :=
  let t := if (bool_decide (mode t = OneArmRouter) && bool_decide (icmp_redirects t = Some true))%bool
           then add_warning t "Clients may bypass this agent through ICMP redirects." else t in
  let t := if negb (ipv6_default_route t)
           then add_warning t "IPv6 Internet coverage is unavailable (no IPv6 default route)." else t in
  if (bool_decide (flow_offloading t = Some true) || bool_decide (flow_offloading_hw t = Some true))%bool
  then add_warning t "Flow offloading is enabled and may bypass eBPF/TC traffic visibility." else t.

Definition add_interface_address (t : TopologySnapshot) (a : IpAddr) (len : Z)
    : result PrefixError TopologySnapshot :=
  p ← prefix_new a len;
  let locals := if bool_decide (a ∈ local_addresses t) then local_addresses t else local_addresses t ++ [a] in
  let segs :=
    if existsb (λ s, bool_decide (subnet s = p)) (segments t) then segments t
    else segments t ++ [mkSegment p None Lan InterfaceAddress 70] in
  Ok (mkTopology (mode t) (interfaces t) segs (routes t) locals (ipv4_forwarding t)
        (ipv6_forwarding t) (ipv6_default_route t) (icmp_redirects t) (flow_offloading t)
        (flow_offloading_hw t) (warnings t) (confidence t)).

(** [(source, prefix_length)], the key of the most specific segment. *)
Definition segment_key_leb (a b : NetworkSegment) : bool :=
  ((source_rank (source a) <? source_rank (source b))
   || ((source_rank (source a) =? source_rank (source b))
       && (prefix_length (subnet a) <=? prefix_length (subnet b))))%bool.

(** [Iterator::max_by_key]: the last of the greatest elements. *)
Definition max_by {A} (leb : A → A → bool) (l : list A) : option A :=
  foldl (λ best x, match best with
                   | None => Some x
                   | Some b => if leb b x then Some x else Some b
                   end) None l.

Definition segment (t : TopologySnapshot) (a : IpAddr) : option NetworkSegment :=
  max_by segment_key_leb (filter (λ s, contains (subnet s) a = true) (segments t)).

Definition is_local (t : TopologySnapshot) (a : IpAddr) : bool := bool_decide (a ∈ local_addresses t).

Section max_by.
Context {A : Type} (leb : A → A → bool).
Context (leb_total : ∀ x y, leb x y = false → leb y x = true).
Context (leb_trans : ∀ x y z, leb x y = true → leb y z = true → leb x z = true).

Lemma max_by_spec l m : max_by leb l = Some m → m ∈ l ∧ ∀ x, x ∈ l → leb x m = true.
Proof.
  assert (∀ l acc pre, (∀ b, acc = Some b → b ∈ pre ∧ ∀ x, x ∈ pre → leb x b = true) →
      (acc = None → pre = []) →
      ∀ m, foldl (λ best x, match best with None => Some x | Some b => if leb b x then Some x else Some b end) acc l
           = Some m → m ∈ pre ++ l ∧ ∀ x, x ∈ pre ++ l → leb x m = true) as Hgen.
  { clear l m. induction l as [|x l IH]; intros acc pre Hacc Hnone m; simpl.
    - intros ->. rewrite app_nil_r. auto.
    - intros Hm. replace (pre ++ x :: l) with ((pre ++ [x]) ++ l) by by rewrite <- app_assoc.
      eapply IH; [| |exact Hm].
      + assert (leb x x = true) as Hrefl by (destruct (leb x x) eqn:E; [done|by rewrite (leb_total _ _ E) in E]).
        intros b Hb. destruct acc as [b0|].
        * destruct (Hacc b0 eq_refl) as [Hin Hmax].
          destruct (leb b0 x) eqn:Hle; simplify_eq; (split; [set_solver|]);
            intros y [Hy| ->%list_elem_of_singleton]%elem_of_app; eauto.
        * rewrite (Hnone eq_refl). simplify_eq. split; [set_solver|]. by intros y ->%list_elem_of_singleton.
      + destruct acc as [b0|]; [destruct (leb b0 x)|]; done. }
  intros Hm. apply (Hgen l None [] ltac:(done) ltac:(done) m Hm).
Qed.

Lemma max_by_None l : max_by leb l = None → l = [].
Proof.
  destruct l as [|x l]; [done|]. unfold max_by. simpl. generalize x. induction l as [|y l IH]; intros z; simpl; [done|].
  destruct (leb z y); intros Hnone; by specialize (IH _ Hnone).
Qed.

End max_by.

(** The segment of an address is one that contains it, with the most
    trusted source and, within that source, the longest prefix; none is
    returned only when no segment contains the address. *)
Lemma segment_most_specific t a :
  match segment t a with
  | Some s =>
    s ∈ segments t ∧ contains (subnet s) a = true ∧
    ∀ s', s' ∈ segments t → contains (subnet s') a = true →
      source_rank (source s') < source_rank (source s) ∨
      (source_rank (source s') = source_rank (source s) ∧
       prefix_length (subnet s') ≤ prefix_length (subnet s))
  | None => ∀ s, s ∈ segments t → contains (subnet s) a = false
  end.
Proof.
  unfold segment. destruct (max_by _ _) as [s|] eqn:Hm.
  - apply max_by_spec in Hm as [Hin Hmax]; [|unfold segment_key_leb; lia..].
    apply list_elem_of_filter in Hin as [Hc Hin]. split_and!; [done|done|].
    intros s' Hs' Hc'. specialize (Hmax s'). rewrite list_elem_of_filter in Hmax.
    specialize (Hmax (conj Hc' Hs')). unfold segment_key_leb in Hmax. lia.
  - apply max_by_None in Hm. intros s Hs. destruct (contains (subnet s) a) eqn:Hc; [|done].
    assert (s ∈ filter (λ s, contains (subnet s) a = true) (segments t)) as Hin by by apply list_elem_of_filter.
    rewrite Hm in Hin. by apply elem_of_nil in Hin.
Qed.

(** ** Concrete instances *)

Module Example.

Definition lan : NetworkPrefix := mkPrefix (V4 3232235776) 24. (* 192.168.1.0/24 *)
Definition half : NetworkPrefix := mkPrefix (V4 3232235904) 25. (* 192.168.1.128/25 *)
Definition host : IpAddr := V4 3232235914. (* 192.168.1.138 *)

Lemma lan_wf : prefix_wf lan.
Proof. exists (V4 3232235776), 24. by split_and!. Qed.
Lemma half_wf : prefix_wf half.
Proof. exists host, 25. by split_and!. Qed.

End Example.

Lemma contains_spec_witness : in_prefix Example.lan Example.host.
Proof.
  apply (contains_spec Example.lan Example.host); [apply Example.lan_wf|by split|by vm_compute].
Defined.

Lemma compact_prefixes_correct_witness :
  compact_prefixes [Example.half; Example.lan] = [Example.lan] ∧
  NoDup (compact_prefixes [Example.half; Example.lan]).
Proof.
  split; [by vm_compute|]. apply (compact_prefixes_correct [Example.half; Example.lan]).
  constructor; [apply Example.half_wf|]. constructor; [apply Example.lan_wf|constructor].
Defined.
