(* ===== verification/Net.v ===== *)
(** The textual form of IP addresses, as the standard library's parsers of
    [IpAddr], [Ipv4Addr] and [Ipv6Addr] read it (no leading zeros in decimal
    octets, [::] at most once, an embedded IPv4 address at the end). A reader
    takes the bytes left and gives what it read with the bytes after it. *)

From S2P Require Import Prelude Topology.

Definition digit_value (radix b : Z) : option Z :=
  if radix =? 10 then (if is_ascii_digit b then Some (b - 48) else None) else hex_value b.

(** The digits at the front: their value and number, and what follows. *)
Fixpoint read_digits (radix acc : Z) (count : nat) (bs : list Z) : Z * nat * list Z :=
  match bs with
  | b :: rest =>
    match digit_value radix b with
    | Some d => read_digits radix (acc * radix + d) (S count) rest
    | None => (acc, count, bs)
    end
  | [] => (acc, count, [])
  end.

Definition read_number (radix : Z) (max_digits : nat) (allow_zero_prefix : bool) (max : Z) (bs : list Z)
    : option (Z * list Z) :=
  let '(v, count, rest) := read_digits radix 0 0 bs in
  if (bool_decide (count = 0%nat) || (max_digits <? count)%nat)%bool then None
  else if (negb allow_zero_prefix && bool_decide (head bs = Some 48) && (1 <? count)%nat)%bool then None
  else if max <? v then None
  else Some (v, rest).

Definition read_given (c : Z) (bs : list Z) : option (list Z) :=
  match bs with b :: rest => if b =? c then Some rest else None | [] => None end.

(** [read_separator]: the separator first, except before the first element. *)
Definition read_separator {A} (sep : Z) (index : nat) (read : list Z → option (A * list Z)) (bs : list Z)
    : option (A * list Z) :=
  bs ← (if bool_decide (index = 0%nat) then Some bs else read_given sep bs);
  read bs.

Definition read_ipv4_octet (index : nat) : list Z → option (Z * list Z) :=
  read_separator 46 index (read_number 10 3 false 255).

Definition read_ipv4_addr (bs : list Z) : option (Z * list Z) :=
  '(a, bs) ← read_ipv4_octet 0 bs;
  '(b, bs) ← read_ipv4_octet 1 bs;
  '(c, bs) ← read_ipv4_octet 2 bs;
  '(d, bs) ← read_ipv4_octet 3 bs;
  Some (((a * 256 + b) * 256 + c) * 256 + d, bs).

(** [read_groups] into the [left] slots after the [index] that are filled: the
    groups, whether the last two were an IPv4 address, and what follows. *)
Fixpoint read_groups (left index : nat) (bs : list Z) : list Z * bool * list Z :=
  match left with
  | O => ([], false, bs)
  | S left' =>
    match (if (0 <? left')%nat then read_separator 58 index read_ipv4_addr bs else None) with
    | Some (v4, rest) => ([v4 / 65536; v4 mod 65536], true, rest)
    | None =>
      match read_separator 58 index (read_number 16 4 true 65535) bs with
      | Some (g, rest) => let '(groups, v4, rest) := read_groups left' (S index) rest in (g :: groups, v4, rest)
      | None => ([], false, bs)
      end
    end
  end.

Definition groups_value : list Z → Z := foldl (λ v g, v * 65536 + g) 0.

Definition read_ipv6_addr (bs : list Z) : option (Z * list Z) :=
  let '(head, head_v4, rest) := read_groups 8 0 bs in
  if bool_decide (length head = 8%nat) then Some (groups_value head, rest)
  else if head_v4 then None
  else
    rest ← read_given 58 rest;
    rest ← read_given 58 rest;
    let '(tail, _, rest) := read_groups (8 - (length head + 1)) 0 rest in
    Some (groups_value (head ++ replicate (8 - length head - length tail) 0 ++ tail), rest).

Definition all_read {A} (r : option (A * list Z)) : option A :=
  match r with Some (a, []) => Some a | _ => None end.

Definition parse_ip_bytes (bs : list Z) : option IpAddr :=
  match read_ipv4_addr bs with
  | Some (v, rest) => all_read (Some (V4 v, rest))
  | None => V6 <$> all_read (read_ipv6_addr bs)
  end.

(** [str::parse::<IpAddr>]. *)
Definition parse_ip (s : string) : option IpAddr := parse_ip_bytes (str_bytes s).

(** ** Checks *)

Example parse_ip_examples :
  parse_ip "192.168.1.20" = Some (V4 3232235796) ∧ parse_ip "1.2.3" = None ∧ parse_ip "1.2.3.04" = None ∧
  parse_ip "1.2.3.256" = None ∧ parse_ip "1.2.3.4." = None ∧ parse_ip "::1" = Some (V6 1) ∧ parse_ip "::" = Some (V6 0) ∧
  parse_ip "fe80::1:2" = Some (V6 (65152 * 2 ^ 112 + 65536 + 2)) ∧
  parse_ip "::ffff:1.2.3.4" = Some (V6 (65535 * 2 ^ 32 + 16909060)) ∧
  parse_ip "1:2:3:4:5:6:7:8:9" = None ∧ parse_ip "1::2::3" = None ∧ parse_ip "1:2:3:4:5:6:7:8" ≠ None.
Proof. vm_compute. split_and!; congruence. Qed.

(** ** Display *)

(** [{n:x}] and [{n}] as bytes. *)
Definition hex_text_bytes (n : Z) : list Z := str_bytes (hex_text n).
Definition dec_text_bytes (n : Z) : list Z := str_bytes (dec_text n).

Definition show_v4 (v : Z) : list Z :=
  dec_text_bytes (v / 16777216 mod 256) ++ 46 :: dec_text_bytes (v / 65536 mod 256)
  ++ 46 :: dec_text_bytes (v / 256 mod 256) ++ 46 :: dec_text_bytes (v mod 256).

(** The groups of 16 bits, the most significant first. *)
Fixpoint groups_of (n : nat) (v : Z) : list Z :=
  match n with O => [] | S n => groups_of n (v / 65536) ++ [v mod 65536] end.

(** [fmt_subslice]. *)
Fixpoint show_groups (gs : list Z) : list Z :=
  match gs with
  | [] => []
  | [g] => hex_text_bytes g
  | g :: gs => hex_text_bytes g ++ 58 :: show_groups gs
  end.

(** The longest run of zero groups, the first of several: its start and length. *)
Fixpoint zero_span (gs : list Z) (i : nat) (current longest : nat * nat) : nat * nat :=
  match gs with
  | [] => longest
  | g :: gs =>
    if g =? 0 then
      let current := (if bool_decide (snd current = 0%nat) then i else fst current, S (snd current)) in
      zero_span gs (S i) current (if (snd longest <? snd current)%nat then current else longest)
    else zero_span gs (S i) (0%nat, 0%nat) longest
  end.

Definition show_v6 (v : Z) : list Z :=
  if v / 2 ^ 32 =? 65535 then [58; 58] ++ hex_text_bytes 65535 ++ [58] ++ show_v4 (v mod 2 ^ 32)
  else
    let gs := groups_of 8 v in
    let '(start, len) := zero_span gs 0 (0%nat, 0%nat) (0%nat, 0%nat) in
    if (1 <? len)%nat then show_groups (take start gs) ++ [58; 58] ++ show_groups (drop (start + len) gs)
    else show_groups gs.

(** [IpAddr]'s [Display]. *)
Definition show_ip_bytes (a : IpAddr) : list Z := match a with V4 v => show_v4 v | V6 v => show_v6 v end.
Definition show_ip (a : IpAddr) : string := bytes_str (show_ip_bytes a).

Example show_ip_examples :
  show_ip (V4 3232235796) = "192.168.1.20" ∧ show_ip (V6 1) = "::1" ∧ show_ip (V6 0) = "::" ∧
  show_ip (V6 (65152 * 2 ^ 112 + 65536 + 2)) = "fe80::1:2" ∧ show_ip (V6 (65535 * 2 ^ 32 + 16909060)) = "::ffff:1.2.3.4" ∧
  show_ip (V6 (1 * 2 ^ 112 + 5)) = "1::5" ∧ show_ip (V6 (8193 * 2 ^ 112 + 1 * 2 ^ 64)) = "2001:0:0:1::".
Proof. vm_compute. split_and!; reflexivity. Qed.

(** ** Reading back what is displayed *)

Definition digit_bytes (ds : list Z) : list Z := (λ d, byte_val (hex_digit d)) <$> ds.

Lemma hex_text_digits_u16 n : 0 ≤ n < 65536 → ∃ ds, hex_text_bytes n = digit_bytes ds ∧
  (1 ≤ length ds ≤ 4)%nat ∧ Forall (λ d, 0 ≤ d < 16) ds ∧ foldl (λ v d, v * 16 + d) 0 ds = n.
Proof.
  intros Hn. unfold hex_text_bytes, hex_text. assert (∀ x, 0 ≤ x mod 16 < 16) as Hm by (intros; apply Z.mod_pos_bound; lia).
  pose proof (Z.div_mod n 16 ltac:(lia)). pose proof (Z.div_mod (n / 16) 16 ltac:(lia)). pose proof (Z.div_mod (n / 16 / 16) 16 ltac:(lia)).
  pose proof (Hm n). pose proof (Hm (n / 16)). pose proof (Hm (n / 16 / 16)).
  cbn [hex_text_aux]. destruct (n <? 16) eqn:E1.
  { exists [n mod 16]. split_and!; [done|cbn; lia|cbn; lia|repeat (constructor; [apply Hm|]); constructor|]. cbn. rewrite Z.mod_small by lia. lia. }
  destruct (n / 16 <? 16) eqn:E2.
  { exists [n / 16 mod 16; n mod 16]. split_and!; [done|cbn; lia|cbn; lia|repeat (constructor; [apply Hm|]); constructor|]. cbn. rewrite (Z.mod_small (n / 16)) by lia. lia. }
  destruct (n / 16 / 16 <? 16) eqn:E3.
  { exists [n / 16 / 16 mod 16; n / 16 mod 16; n mod 16]. split_and!; [done|cbn; lia|cbn; lia|repeat (constructor; [apply Hm|]); constructor|].
    cbn. rewrite (Z.mod_small (n / 16 / 16)) by lia. lia. }
  assert (0 ≤ n / 16 / 16 / 16 < 16) as E4.
  { split; [repeat (apply Z.div_pos; [|lia]); lia|]. repeat (apply Z.div_lt_upper_bound; [lia|]). lia. }
  rewrite (proj2 (Z.ltb_lt (n / 16 / 16 / 16) 16)) by lia.
  exists [n / 16 / 16 / 16 mod 16; n / 16 / 16 mod 16; n / 16 mod 16; n mod 16].
  split_and!; [done|cbn; lia|cbn; lia|repeat (constructor; [apply Hm|]); constructor|]. cbn. rewrite (Z.mod_small (n / 16 / 16 / 16)) by lia. lia.
Qed.

(** What ends a number: no digit of its radix. *)
Definition stops (radix : Z) (rest : list Z) : Prop := ∀ b, head rest = Some b → digit_value radix b = None.

Lemma read_digits_app radix acc count bs v n rest : read_digits radix acc count bs = (v, n, []) → stops radix rest →
  read_digits radix acc count (bs ++ rest) = (v, n, rest).
Proof.
  revert acc count. induction bs as [|b bs IH]; intros acc count Hr Hs; cbn [read_digits app] in *.
  - injection Hr as <- <-. destruct rest as [|b rest]; [done|]. cbn [read_digits]. by rewrite (Hs b).
  - destruct (digit_value radix b); [by apply IH|done].
Qed.

Lemma read_number_app radix k z max bs v rest : read_number radix k z max bs = Some (v, []) → stops radix rest →
  read_number radix k z max (bs ++ rest) = Some (v, rest).
Proof.
  unfold read_number. destruct (read_digits radix 0 0 bs) as [[v1 n1] r1] eqn:Hd. intros Hr Hs.
  destruct (_ || _)%bool eqn:Hn in Hr; [done|]. destruct (_ && _)%bool eqn:Hz in Hr; [done|].
  destruct (max <? v1) eqn:Hm; [done|]. injection Hr as -> ->. rewrite (read_digits_app _ _ _ _ _ _ _ Hd Hs), Hn, Hm.
  assert (head (bs ++ rest) = head bs) as ->; [|by rewrite Hz].
  destruct bs; [|done]. cbn in Hd. injection Hd as <- <-. done.
Qed.

Lemma hex_number n : 0 ≤ n < 65536 → read_number 16 4 true 65535 (hex_text_bytes n) = Some (n, []).
Proof.
  intros Hn. destruct (hex_text_digits_u16 n Hn) as (ds & -> & Hlen & Hds & Hv).
  assert (∀ acc count, read_digits 16 acc count (digit_bytes ds) = (foldl (λ v d, v * 16 + d) acc ds, (count + length ds)%nat, []))
    as Hread.
  { clear Hlen Hv. induction Hds as [|d ds Hd _ IH]; intros acc count; cbn; [by rewrite Nat.add_0_r|].
    unfold digit_value. cbn [Z.eqb Pos.eqb]. rewrite hex_value_digit by done. rewrite IH. by rewrite Nat.add_succ_r. }
  unfold read_number. rewrite Hread, Hv. cbn [Nat.add].
  rewrite bool_decide_eq_false_2, (proj2 (Nat.ltb_ge 4 (length ds))), (proj2 (Z.ltb_ge 65535 n)) by lia. done.
Qed.

Lemma hex_text_bytes_hex n : 0 ≤ n < 65536 →
  Forall (λ b, is_Some (hex_value b)) (hex_text_bytes n) ∧ (1 ≤ length (hex_text_bytes n) ≤ 4)%nat.
Proof.
  intros Hn. destruct (hex_text_digits_u16 n Hn) as (ds & -> & Hlen & Hds & _). unfold digit_bytes. rewrite length_fmap.
  split; [|done]. apply Forall_fmap. eapply Forall_impl; [exact Hds|]. intros d Hd. cbn. by rewrite hex_value_digit.
Qed.

(** Decimal octets, checked one by one. *)
Definition dec_check (n : Z) : bool :=
  let bs := dec_text_bytes n in
  (bool_decide (read_number 10 3 false 255 bs = Some (n, [])) && forallb is_ascii_digit bs && (zlen bs <=? 3))%bool.

Lemma dec_octet n : 0 ≤ n < 256 →
  read_number 10 3 false 255 (dec_text_bytes n) = Some (n, []) ∧ Forall (λ b, is_ascii_digit b = true) (dec_text_bytes n) ∧
  zlen (dec_text_bytes n) ≤ 3.
Proof.
  intros Hn. assert (forallb dec_check (seqZ 0 256) = true) as Hall by (vm_compute; reflexivity).
  rewrite forallb_Forall, Forall_forall in Hall. specialize (Hall n ltac:(apply elem_of_seqZ; lia)). unfold dec_check in Hall.
  apply andb_true_iff in Hall as [[Hr%bool_decide_eq_true Hd%forallb_Forall]%andb_true_iff Hl%Z.leb_le]. done.
Qed.

Lemma stops_nil radix : stops radix [].
Proof. done. Qed.

Lemma stops_sep radix b rest : digit_value radix b = None → stops radix (b :: rest).
Proof. by intros Hb ? [= <-]. Qed.

Lemma octet_first n rest : 0 ≤ n < 256 → stops 10 rest → read_ipv4_octet 0 (dec_text_bytes n ++ rest) = Some (n, rest).
Proof. intros Hn Hs. destruct (dec_octet n Hn) as [Hr _]. by apply (read_number_app _ _ _ _ _ _ _ Hr). Qed.

Lemma octet_next i n rest : 0 ≤ n < 256 → stops 10 rest → read_ipv4_octet (S i) (46 :: dec_text_bytes n ++ rest) = Some (n, rest).
Proof. intros Hn Hs. destruct (dec_octet n Hn) as [Hr _]. by apply (read_number_app _ _ _ _ _ _ _ Hr). Qed.

(** The four octets make up the address. *)
Lemma v4_octets v : 0 ≤ v < 2 ^ 32 →
  ((v / 16777216 mod 256 * 256 + v / 65536 mod 256) * 256 + v / 256 mod 256) * 256 + v mod 256 = v.
Proof.
  intros Hv. change (2 ^ 32) with 4294967296 in Hv.
  replace (v / 65536) with (v / 256 / 256) by (rewrite Z.div_div by lia; done).
  replace (v / 16777216) with (v / 256 / 256 / 256) by (rewrite !Z.div_div by lia; done).
  pose proof (Z.div_mod v 256 ltac:(lia)). pose proof (Z.div_mod (v / 256) 256 ltac:(lia)).
  pose proof (Z.div_mod (v / 256 / 256) 256 ltac:(lia)).
  rewrite (Z.mod_small (v / 256 / 256 / 256)); [lia|].
  split; [repeat (apply Z.div_pos; [|lia]); lia|]. repeat (apply Z.div_lt_upper_bound; [lia|]). lia.
Qed.

Lemma read_show_v4 v rest : 0 ≤ v < 2 ^ 32 → stops 10 rest → read_ipv4_addr (show_v4 v ++ rest) = Some (v, rest).
Proof.
  intros Hv Hs. assert (∀ x, 0 ≤ x mod 256 < 256) as Hm by (intros; apply Z.mod_pos_bound; lia).
  unfold read_ipv4_addr, show_v4. rewrite <- !app_assoc. cbn [app]. rewrite <- !app_assoc. cbn [app]. rewrite <- !app_assoc. cbn [app].
  assert (∀ r, stops 10 (46 :: r)) as Hdot by (intros r; by apply stops_sep).
  rewrite octet_first by auto. cbn [mbind option_bind].
  rewrite octet_next by auto. cbn [mbind option_bind].
  rewrite octet_next by auto. cbn [mbind option_bind].
  rewrite octet_next by auto. cbn [mbind option_bind].
  by rewrite v4_octets.
Qed.

(** The text of a group is no IPv4 address, unless a dot follows. *)
Lemma read_number_no_dot bs rest k z max v r : 46 ∉ bs → head rest ≠ Some 46 →
  stops 10 rest →
  read_number 10 k z max (bs ++ rest) = Some (v, r) → head r ≠ Some 46.
Proof.
  intros Hbs Hrest Hdig. unfold read_number. destruct (read_digits 10 0 0 (bs ++ rest)) as [[v1 n1] r1] eqn:Hd. intros Hr.
  destruct (_ || _)%bool; [done|]. destruct (_ && _)%bool; [done|]. destruct (max <? v1); [done|]. injection Hr as <- <-.
  revert Hd. generalize 0 at 1. generalize 0%nat. induction bs as [|b bs IH]; intros count acc Hd; cbn [app read_digits] in Hd.
  - destruct rest as [|b rest]; cbn [read_digits] in Hd; [by injection Hd as <- <- <-|].
    rewrite (Hdig b) in Hd by done. by injection Hd as <- <- <-.
  - apply not_elem_of_cons in Hbs as [Hb Hbs]. destruct (digit_value 10 b); [by eapply IH|]. injection Hd as <- <- <-.
    cbn. congruence.
Qed.

Lemma group_no_ipv4 n rest : 0 ≤ n < 65536 → head rest ≠ Some 46 → stops 10 rest → read_ipv4_addr (hex_text_bytes n ++ rest) = None.
Proof.
  intros Hn Hrest Hs. unfold read_ipv4_addr. destruct (read_ipv4_octet 0 _) as [[a r]|] eqn:H0; cbn [mbind option_bind]; [|done].
  apply (read_number_no_dot (hex_text_bytes n) rest) in H0; [|intros Hin|done|done].
  - unfold read_ipv4_octet, read_separator. cbn [bool_decide decide_rel]. destruct r as [|b r]; [done|]. cbn [read_given].
    destruct (b =? 46) eqn:Hb; [|done]. destruct H0. cbn. f_equal. lia.
  - destruct (hex_text_bytes_hex n Hn) as [Hall _]. rewrite Forall_forall in Hall. by destruct (Hall 46 Hin).
Qed.

(** ** Groups *)

(** One group, the separator before it except for the first. *)
Definition sep (index : nat) : list Z := if bool_decide (index = 0%nat) then [] else [58].

Lemma read_groups_step left index n rest : 0 ≤ n < 65536 → head rest ≠ Some 46 → stops 16 rest →
  read_groups (S left) index (sep index ++ hex_text_bytes n ++ rest) =
  let '(gs, v4, r) := read_groups left (S index) rest in (n :: gs, v4, r).
Proof.
  intros Hn Hdot Hs. assert (stops 10 rest) as Hs10.
  { intros b Hb. specialize (Hs b Hb). change (hex_value b = None) in Hs.
    change ((if is_ascii_digit b then Some (b - 48) else None) = None). unfold hex_value in Hs. by destruct (is_ascii_digit b). }
  assert (∀ A (read : list Z → option (A * list Z)) bs, read_separator 58 index read (sep index ++ bs) = read bs) as Hsep.
  { intros A read bs. unfold read_separator, sep. by destruct index. }
  cbn [read_groups]. rewrite !Hsep, group_no_ipv4 by done.
  rewrite (read_number_app _ _ _ _ _ _ _ (hex_number n Hn) Hs). by destruct (0 <? left)%nat.
Qed.

(** Where no group follows: at the end, or at a double colon. *)
Lemma read_groups_end left index : read_groups left index [] = ([], false, []).
Proof. destruct left as [|left]; [done|]. cbn [read_groups]. by destruct (0 <? left)%nat, index. Qed.

Lemma read_groups_colons left index rest : read_groups left index (58 :: 58 :: rest) = ([], false, 58 :: 58 :: rest).
Proof. destruct left as [|left]; [done|]. cbn [read_groups]. by destruct (0 <? left)%nat, index. Qed.

(** What can follow the groups of a display. *)
Definition ends (rest : list Z) : Prop := rest = [] ∨ ∃ r, rest = 58 :: 58 :: r.

Lemma ends_read left index rest : ends rest → read_groups left index rest = ([], false, rest).
Proof. intros [->|[r ->]]; [apply read_groups_end|apply read_groups_colons]. Qed.

Lemma show_groups_cons g gs : show_groups (g :: gs) = hex_text_bytes g ++ match gs with [] => [] | _ => 58 :: show_groups gs end.
Proof. destruct gs; [by rewrite app_nil_r|done]. Qed.

Lemma read_show_groups left index gs rest : Forall (λ g, 0 ≤ g < 65536) gs → (length gs ≤ left)%nat → ends rest → gs ≠ [] →
  read_groups left index (sep index ++ show_groups gs ++ rest) = (gs, false, rest).
Proof.
  intros Hgs. revert left index. induction Hgs as [|g gs Hg Hgs IH]; intros left index Hlen Hends Hne; [done|].
  destruct left as [|left]; [cbn in Hlen; lia|]. rewrite show_groups_cons, <- app_assoc. destruct gs as [|g' gs].
  - rewrite read_groups_step; cbn [app].
    + by rewrite ends_read.
    + done.
    + destruct Hends as [->|[r ->]]; done.
    + destruct Hends as [->|[r ->]]; [done|]. by apply stops_sep.
  - rewrite read_groups_step; [|done|done|by apply stops_sep].
    change ((58 :: show_groups (g' :: gs)) ++ rest) with (sep (S index) ++ show_groups (g' :: gs) ++ rest).
    rewrite IH; [done|cbn in *; lia|done|done].
Qed.

Lemma length_groups_of n v : length (groups_of n v) = n.
Proof. revert v. induction n as [|n IH]; intros v; cbn; [done|]. rewrite length_app, IH. cbn. lia. Qed.

Lemma groups_of_bound n v : Forall (λ g, 0 ≤ g < 65536) (groups_of n v).
Proof.
  revert v. induction n as [|n IH]; intros v; cbn; [constructor|]. apply Forall_app. split; [apply IH|].
  constructor; [|constructor]. apply Z.mod_pos_bound. lia.
Qed.

Lemma groups_value_snoc gs g : groups_value (gs ++ [g]) = groups_value gs * 65536 + g.
Proof. unfold groups_value. by rewrite foldl_app. Qed.

Lemma groups_value_of n v : 0 ≤ v < 65536 ^ Z.of_nat n → groups_value (groups_of n v) = v.
Proof.
  revert v. induction n as [|n IH]; intros v Hv; cbn [groups_of]; [change (65536 ^ Z.of_nat 0) with 1 in Hv; cbn; lia|].
  rewrite groups_value_snoc, IH.
  - pose proof (Z.div_mod v 65536). lia.
  - rewrite Nat2Z.inj_succ, Z.pow_succ_r in Hv by lia. split; [apply Z.div_pos; lia|apply Z.div_lt_upper_bound; lia].
Qed.

(** A span of zeros in the list read so far. *)
Definition zeros_at (gs : list Z) (s : nat * nat) : Prop :=
  (fst s + snd s ≤ length gs)%nat ∧ ∀ i, (fst s ≤ i < fst s + snd s)%nat → gs !! i = Some 0.

Lemma zero_span_spec gs done_ current longest :
  zeros_at done_ longest → zeros_at done_ current → (snd current ≠ 0%nat → (fst current + snd current)%nat = length done_) →
  zeros_at (done_ ++ gs) (zero_span gs (length done_) current longest).
Proof.
  revert done_ current longest. induction gs as [|g gs IH]; intros done_ current longest Hl Hc Hend; cbn [zero_span].
  { by rewrite app_nil_r. }
  assert (∀ s, zeros_at done_ s → zeros_at (done_ ++ [g]) s) as Hmore.
  { intros s [Hle Hz]. split; [rewrite length_app; lia|]. intros i Hi. apply lookup_app_l_Some. by apply Hz. }
  replace (done_ ++ g :: gs) with ((done_ ++ [g]) ++ gs) by (by rewrite <- app_assoc).
  replace (S (length done_)) with (length (done_ ++ [g])) by (rewrite length_app; cbn; lia).
  destruct (g =? 0) eqn:Hg.
  - set (current' := (if bool_decide (snd current = 0%nat) then length done_ else fst current, S (snd current))).
    assert (zeros_at (done_ ++ [g]) current' ∧ (fst current' + snd current')%nat = length (done_ ++ [g])) as [Hc' Hend'].
    { assert (fst current' + snd current' = length (done_ ++ [g]))%nat as He.
      { unfold current'. rewrite length_app. cbn. case_bool_decide as H0; [lia|]. specialize (Hend H0). lia. }
      split; [|done]. split; [lia|]. intros i Hi. rewrite length_app in He. cbn [length] in He.
      destruct (decide (i = length done_)) as [->|Hne].
      - rewrite lookup_app_r, Nat.sub_diag by lia. cbn. f_equal. lia.
      - rewrite lookup_app_l by lia. apply Hc. unfold current' in *. cbn [fst snd] in *. case_bool_decide; lia. }
    apply IH; [destruct (_ <? _)%nat; auto|done|done].
  - apply IH; [auto|split; cbn; [lia|intros; lia]|done].
Qed.

Lemma zeros_split gs s : zeros_at gs s → gs = take (fst s) gs ++ replicate (snd s) 0 ++ drop (fst s + snd s) gs.
Proof.
  intros [Hle Hz]. apply list_eq. intros i. destruct (decide (i < fst s)%nat) as [H1|H1].
  { rewrite lookup_app_l by (rewrite length_take; lia). by rewrite lookup_take_lt. }
  rewrite lookup_app_r by (rewrite length_take; lia). rewrite length_take, Nat.min_l by lia.
  destruct (decide (i < fst s + snd s)%nat) as [H2|H2].
  - rewrite lookup_app_l by (rewrite length_replicate; lia). rewrite Hz by lia. symmetry. apply lookup_replicate_2. lia.
  - rewrite lookup_app_r by (rewrite length_replicate; lia). rewrite length_replicate, lookup_drop. f_equal. lia.
Qed.

(** Reading at the start of an address. *)
Lemma read_show_start left gs rest : Forall (λ g, 0 ≤ g < 65536) gs → (length gs ≤ left)%nat → ends rest →
  read_groups left 0 (show_groups gs ++ rest) = (gs, false, rest).
Proof.
  intros Hgs Hlen Hends. destruct gs as [|g gs]; [by apply ends_read|]. by apply (read_show_groups left 0).
Qed.

Lemma parse_v6 bs v : read_ipv4_addr bs = None → read_ipv6_addr bs = Some (v, []) → parse_ip_bytes bs = Some (V6 v).
Proof. intros H4 H6. unfold parse_ip_bytes. by rewrite H4, H6. Qed.

Lemma colons_no_ipv4 rest : read_ipv4_addr (58 :: rest) = None.
Proof. reflexivity. Qed.

Lemma groups_no_ipv4 gs rest : Forall (λ g, 0 ≤ g < 65536) gs → (2 ≤ length gs)%nat ∨ (∃ r, rest = 58 :: 58 :: r) →
  read_ipv4_addr (show_groups gs ++ rest) = None.
Proof.
  intros Hgs Hmore. destruct Hgs as [|g gs Hg Hgs]; [destruct Hmore as [Hm|[r ->]]; [cbn in Hm; lia|done]|].
  rewrite show_groups_cons, <- app_assoc. destruct gs as [|g' gs]; [|by apply group_no_ipv4; [| |apply stops_sep]].
  destruct Hmore as [Hm|[r ->]]; [cbn in Hm; lia|]. by apply group_no_ipv4; [| |apply stops_sep].
Qed.

Lemma parse_show_mapped x : 0 ≤ x < 2 ^ 32 →
  parse_ip_bytes ([58; 58] ++ hex_text_bytes 65535 ++ [58] ++ show_v4 x) = Some (V6 (65535 * 2 ^ 32 + x)).
Proof.
  intros Hx. apply parse_v6; [apply colons_no_ipv4|]. unfold read_ipv6_addr. cbn [app].
  rewrite read_groups_colons, bool_decide_eq_false_2 by done. cbn [read_given Z.eqb Pos.eqb mbind option_bind length Nat.add Nat.sub].
  change (hex_text_bytes 65535 ++ 58 :: show_v4 x) with (sep 0 ++ hex_text_bytes 65535 ++ 58 :: show_v4 x).
  rewrite read_groups_step; [|lia|done|by apply stops_sep].
  assert (read_groups 6 1 (58 :: show_v4 x) = ([x / 65536; x mod 65536], true, [])) as ->.
  { pose proof (read_show_v4 x [] Hx (stops_nil 10)) as Hr. rewrite app_nil_r in Hr. generalize dependent (show_v4 x).
    intros bs Hr. change (match read_ipv4_addr bs with
      | Some (v4, rest) => ([v4 / 65536; v4 mod 65536], true, rest)
      | None =>
        match read_number 16 4 true 65535 bs with
        | Some (g, rest) => let '(groups, v4, rest) := read_groups 5 2 rest in (g :: groups, v4, rest)
        | None => ([], false, 58 :: bs)
        end
      end = ([x / 65536; x mod 65536], true, [])). by rewrite Hr. }
  cbn. f_equal. f_equal. pose proof (Z.div_mod x 65536). lia.
Qed.

(** Parsing is the inverse of displaying. *)
Lemma parse_show_ip a : addr_wf a → parse_ip_bytes (show_ip_bytes a) = Some a.
Proof.
  unfold addr_wf. destruct a as [v|v]; cbn [addr_val addr_bits show_ip_bytes]; intros Hv.
  { unfold parse_ip_bytes. rewrite <- (app_nil_r (show_v4 v)), read_show_v4 by done. done. }
  unfold show_v6. destruct (v / 2 ^ 32 =? 65535) eqn:Hmap.
  { rewrite parse_show_mapped by (apply Z.mod_pos_bound; lia). f_equal. f_equal. pose proof (Z.div_mod v (2 ^ 32) ltac:(lia)). lia. }
  set (gs := groups_of 8 v). pose proof (groups_of_bound 8 v) as Hgs. pose proof (length_groups_of 8 v) as Hlen.
  assert (groups_value gs = v) as Hval by (by apply groups_value_of). fold gs in Hgs, Hlen. clearbody gs.
  pose proof (zero_span_spec gs [] (0, 0)%nat (0, 0)%nat) as Hz. cbn [app length] in Hz. destruct (zero_span gs 0 _ _) as [start len].
  assert (zeros_at gs (start, len)) as Hzeros.
  { apply Hz; [split; cbn; [lia|intros; lia]..|done]. }
  destruct (1 <? len)%nat eqn:Hl.
  - apply Nat.ltb_lt in Hl. pose proof (zeros_split _ _ Hzeros) as Hsplit. destruct Hzeros as [Hle _]. cbn [fst snd] in *.
    set (pre := take start gs) in *. set (post := drop (start + len) gs) in *.
    assert (length pre = start) as Hpre by (unfold pre; rewrite length_take; lia).
    assert (length post = 8 - (start + len))%nat as Hpost by (unfold post; rewrite length_drop; lia).
    assert (Forall (λ g, 0 ≤ g < 65536) pre ∧ Forall (λ g, 0 ≤ g < 65536) post) as [Hpg Hqg].
    { split; [by apply Forall_take|by apply Forall_drop]. }
    clearbody pre post. cbn [app]. apply parse_v6; [apply groups_no_ipv4; eauto|]. unfold read_ipv6_addr.
    rewrite read_show_start by (done || lia || (right; eauto)). rewrite bool_decide_eq_false_2 by lia.
    cbn [read_given Z.eqb Pos.eqb mbind option_bind]. rewrite <- (app_nil_r (show_groups post)), read_show_start by (done || lia || by left).
    replace (8 - length pre - length post)%nat with len by lia. by rewrite <- Hsplit, Hval.
  - rewrite <- (app_nil_r (show_groups gs)). apply parse_v6; [apply groups_no_ipv4; [done|left; lia]|].
    unfold read_ipv6_addr. rewrite read_show_start by (done || lia || by left). by rewrite bool_decide_eq_true_2, Hval.
Qed.

Lemma show_ip_inj a b : addr_wf a → addr_wf b → show_ip_bytes a = show_ip_bytes b → a = b.
Proof. intros Ha Hb Heq. pose proof (parse_show_ip a Ha) as Hp. rewrite Heq, (parse_show_ip b Hb) in Hp. congruence. Qed.

(** ** The characters and the length of a displayed address *)

Definition ip_byte (b : Z) : Prop := b = 46 ∨ b = 58 ∨ is_Some (hex_value b).

Lemma hex_text_ip n : 0 ≤ n < 65536 → Forall ip_byte (hex_text_bytes n).
Proof. intros Hn. eapply Forall_impl; [apply (hex_text_bytes_hex n Hn)|]. unfold ip_byte. auto. Qed.

Lemma show_groups_text gs : Forall (λ g, 0 ≤ g < 65536) gs →
  Forall ip_byte (show_groups gs) ∧ (length (show_groups gs) ≤ 5 * length gs - 1)%nat.
Proof.
  induction 1 as [|g gs Hg Hgs [IH1 IH2]]; [done|]. rewrite show_groups_cons.
  destruct (hex_text_bytes_hex g Hg) as [_ Hl]. pose proof (hex_text_ip g Hg).
  destruct gs as [|g' gs]; rewrite Forall_app, length_app; cbn [length] in *.
  - split; [by split|]. lia.
  - split; [|lia]. split; [done|]. constructor; [unfold ip_byte; auto|done].
Qed.

Lemma show_v4_text v : Forall ip_byte (show_v4 v) ∧ (length (show_v4 v) ≤ 15)%nat.
Proof.
  assert (∀ x, Forall ip_byte (dec_text_bytes (x mod 256)) ∧ (length (dec_text_bytes (x mod 256)) ≤ 3)%nat) as Hd.
  { intros x. destruct (dec_octet (x mod 256) ltac:(apply Z.mod_pos_bound; lia)) as (_ & Hall & Hl). unfold zlen in Hl.
    split; [|lia]. eapply Forall_impl; [exact Hall|]. intros b Hb. right. right. unfold hex_value. rewrite Hb. by eexists. }
  assert (ip_byte 46) as Hdot by (left; done). unfold show_v4.
  pose proof (Hd v) as [? ?]. pose proof (Hd (v / 256)) as [? ?]. pose proof (Hd (v / 65536)) as [? ?]. pose proof (Hd (v / 16777216)) as [? ?].
  rewrite !Forall_app, !Forall_cons, !Forall_app, !Forall_cons, !Forall_app, !Forall_cons.
  split; [repeat split; (assumption || constructor)|]. rewrite !length_app. cbn [length]. rewrite !length_app. cbn [length]. rewrite !length_app. cbn [length]. lia.
Qed.

Lemma show_ip_text a : addr_wf a → Forall ip_byte (show_ip_bytes a) ∧ (length (show_ip_bytes a) ≤ 39)%nat.
Proof.
  assert (ip_byte 58) as Hcolon by (right; left; done).
  unfold addr_wf. destruct a as [v|v]; cbn [addr_val addr_bits show_ip_bytes]; intros Hv.
  { destruct (show_v4_text v). split; [done|lia]. }
  unfold show_v6. destruct (v / 2 ^ 32 =? 65535).
  { destruct (show_v4_text (v mod 2 ^ 32)). pose proof (hex_text_ip 65535 ltac:(lia)). destruct (hex_text_bytes_hex 65535 ltac:(lia)) as [_ ?].
    rewrite !Forall_app, !Forall_cons, !length_app. cbn [length]. split; [repeat split; (assumption || constructor)|lia]. }
  pose proof (zero_span_spec (groups_of 8 v) [] (0, 0)%nat (0, 0)%nat) as Hz. cbn [app length] in Hz.
  pose proof (groups_of_bound 8 v) as Hgs. pose proof (length_groups_of 8 v) as Hlen.
  destruct (zero_span _ 0 _ _) as [start len]. assert (zeros_at (groups_of 8 v) (start, len)) as [Hle _].
  { apply Hz; [split; cbn; [lia|intros; lia]..|done]. }
  cbn [fst snd] in Hle. destruct (1 <? len)%nat eqn:Hl; [apply Nat.ltb_lt in Hl|by destruct (show_groups_text _ Hgs); split; [|lia]].
  destruct (show_groups_text _ (Forall_take _ start _ Hgs)) as [? Ht]. destruct (show_groups_text _ (Forall_drop _ (start + len) _ Hgs)) as [? Hd].
  rewrite length_take in Ht. rewrite length_drop in Hd. rewrite !Forall_app, !Forall_cons, !length_app. cbn [length].
  split; [repeat split; (assumption || constructor)|lia].
Qed.

(** No hyphen in an address. *)
Lemma ip_byte_no_hyphen b : ip_byte b → b ≠ 45.
Proof. intros [->|[->|[x Hx]]]; [done..|]. by intros ->. Qed.
