(* ===== verification/Identity.v ===== *)
(** Client identities on the agent: MAC addresses
    (src/crates/agent/src/identity.rs) and the map from a client's MAC to its
    addresses (src/crates/agent/src/policy/identity.rs). *)

From S2P Require Import Prelude Topology.

(** ** MAC addresses *)

Record MacAddress := mkMac { octets : list Z }.
#[export] Instance MacAddress_eq_dec : EqDecision MacAddress.
Proof. solve_decision. Defined.

(** Six octets, as the array type guarantees. *)
Definition mac_wf (m : MacAddress) : Prop := length (octets m) = 6%nat ∧ Forall is_u8 (octets m).

Inductive MacAddressParseError := OctetCount (n : Z) | InvalidOctet (part : string).

Definition from_bytes (bytes : list Z) : result MacAddressParseError MacAddress :=
  if zlen bytes =? 6 then Ok (mkMac bytes) else Err (OctetCount (zlen bytes)).

Definition is_unicast (m : MacAddress) : bool :=
  (negb (bool_decide (octets m = [0; 0; 0; 0; 0; 0])) && (Z.land (nth 0 (octets m) 0) 1 =? 0))%bool.

(** [str::split(':')]. *)
Fixpoint str_split (sep : Z) (s : string) : list string :=
  match s with
  | EmptyString => [EmptyString]
  | String c s =>
    if byte_val c =? sep then EmptyString :: str_split sep s
    else match str_split sep s with
         | [] => [String c EmptyString]
         | part :: parts => String c part :: parts
         end
  end.

(** [u8::from_str_radix(part, 16)]. *)
Definition u8_from_hex (part : string) : option Z := from_hex 255 part.

(** One step of the parsing loop: the octets so far are those before [index]. *)
Definition parse_octet (acc : list Z) (part : string) : result MacAddressParseError (list Z) :=
  if 6 <=? zlen acc then Err (OctetCount (zlen acc + 1))
  else if negb (str_len part =? 2) then Err (InvalidOctet part)
  else o ← ok_or (u8_from_hex part) (InvalidOctet part); Ok (acc ++ [o]).

Definition mac_from_str (value : string) : result MacAddressParseError MacAddress :=
  acc ← foldM parse_octet [] (str_split 58 value);
  if zlen acc =? 6 then Ok (mkMac acc) else Err (OctetCount (zlen acc)).

(** [{:02x}:{:02x}:..]. *)
Fixpoint join_octets (os : list Z) : string :=
  match os with
  | [] => EmptyString
  | [o] => hex_byte o
  | o :: os => String.append (hex_byte o) (String (ascii_of_N 58) (join_octets os))
  end.
Definition mac_to_string (m : MacAddress) : string := join_octets (octets m).

Lemma u8_from_hex_byte b : is_u8 b → u8_from_hex (hex_byte b) = Some b.
Proof. apply from_hex_byte. Qed.

Lemma str_split_no_sep sep s :
  Forall (λ b, b ≠ sep) (str_bytes s) → str_split sep s = [s].
Proof.
  induction s as [|c s IH]; simpl; [done|]. rewrite Forall_cons. intros [Hc Hs].
  rewrite (proj2 (Z.eqb_neq _ _) Hc), IH by done. done.
Qed.

Lemma str_split_sep sep s c rest :
  Forall (λ b, b ≠ sep) (str_bytes s) → byte_val c = sep →
  str_split sep (String.append s (String c rest)) = s :: str_split sep rest.
Proof.
  intros Hs Hc. induction s as [|d s IH].
  - simpl. by rewrite (proj2 (Z.eqb_eq _ _) Hc).
  - simpl in Hs. apply Forall_cons in Hs as [Hd Hs].
    change (String.append (String d s) (String c rest)) with (String d (String.append s (String c rest))).
    cbn [str_split]. rewrite (proj2 (Z.eqb_neq _ _) Hd), IH by done. done.
Qed.

Lemma hex_byte_no_colon o : is_u8 o → Forall (λ b, b ≠ 58) (str_bytes (hex_byte o)).
Proof.
  intros Ho. rewrite hex_byte_bytes by done. unfold in_width in Ho.
  pose proof (Z.mod_pos_bound o 16). pose proof (Z.div_pos o 16).
  repeat constructor; destruct (_ <? 10) eqn:?; lia.
Qed.

Lemma split_join_octets o os : Forall is_u8 (o :: os) →
  str_split 58 (join_octets (o :: os)) = hex_byte <$> (o :: os).
Proof.
  revert o. induction os as [|o' os IH]; intros o [Ho Hos]%Forall_cons.
  - apply (str_split_no_sep 58 (hex_byte o)). by apply hex_byte_no_colon.
  - change (join_octets (o :: o' :: os)) with
      (String.append (hex_byte o) (String (ascii_of_N 58) (join_octets (o' :: os)))).
    rewrite str_split_sep; [|by apply hex_byte_no_colon|done].
    by rewrite (IH o' Hos).
Qed.

Lemma hex_byte_len o : str_len (hex_byte o) = 2.
Proof. done. Qed.

Lemma parse_octets acc os : Forall is_u8 os → zlen acc + zlen os ≤ 6 →
  foldM parse_octet acc (hex_byte <$> os) = Ok (acc ++ os).
Proof.
  intros Hos. revert acc. induction Hos as [|o os Ho Hos IH]; intros acc Hlen; simpl.
  - by rewrite app_nil_r.
  - rewrite zlen_cons in Hlen. pose proof (zlen_nonneg os). unfold parse_octet.
    rewrite (proj2 (Z.leb_gt _ _)), u8_from_hex_byte by (done || lia). simpl.
    rewrite IH; [by rewrite <- app_assoc|zlen_lia].
Qed.

Lemma mac_roundtrip m : mac_wf m → mac_from_str (mac_to_string m) = Ok m.
Proof.
  intros [Hlen Hos]. destruct m as [os]. unfold mac_from_str, mac_to_string. simpl in *.
  destruct os as [|o os]; [done|].
  assert (zlen (o :: os) = 6) as Hz by (unfold zlen; simpl length in *; lia).
  rewrite split_join_octets, parse_octets by (done || (rewrite Hz; reflexivity)).
  cbn [mbind result_bind app]. by rewrite Hz.
Qed.

Lemma u8_from_hex_bound part v : u8_from_hex part = Some v → is_u8 v.
Proof. unfold in_width. intros H%from_hex_bound; lia. Qed.

(** Whatever the parser accepts is six octets. *)
Lemma mac_from_str_wf s m : mac_from_str s = Ok m → mac_wf m.
Proof.
  unfold mac_from_str. intros Hm. apply bind_Ok in Hm as (acc & Hacc & Hm).
  destruct (zlen acc =? 6) eqn:Hlen; simplify_eq. split; simpl; [unfold zlen in Hlen; lia|].
  eapply (foldM_inv (Forall is_u8) parse_octet); [|constructor|exact Hacc].
  intros l part l' Hl. unfold parse_octet. repeat case_match; try done. intros Hp. inv_ok. subst.
  apply Forall_app. split; [done|]. apply Forall_singleton. by eapply u8_from_hex_bound.
Qed.

(** ** From MACs to addresses *)

Record ClientAddresses := mkClientAddresses {
  by_mac : gmap string (gset IpAddr);
  conflicts : gset IpAddr;
}.

Inductive IdentityError := Unresolved | Conflict.

Definition identity_reason_code (e : IdentityError) : string :=
  match e with Unresolved => "identity_unresolved" | Conflict => "identity_conflict" end.

(** [map.entry(k).or_default().insert(v)]. *)
Definition entry_insert {K V} `{Countable K, Countable V} (k : K) (v : V) (m : gmap K (gset V)) : gmap K (gset V) :=
  <[k := {[v]} ∪ default ∅ (m !! k)]> m.

Definition observe_neighbor (st : gmap string (gset IpAddr) * gmap IpAddr (gset string))
    (n : string * IpAddr) : gmap string (gset IpAddr) * gmap IpAddr (gset string) :=
  let mac := to_ascii_lowercase (fst n) in
  (entry_insert mac (snd n) (fst st), entry_insert (snd n) mac (snd st)).

Definition from_neighbors (neighbors : list (string * IpAddr)) : ClientAddresses :=
  let st := foldl observe_neighbor (∅, ∅) neighbors in
  mkClientAddresses (fst st) (dom (filter (λ kv, (1 < size (snd kv))%nat) (snd st))).

Definition resolve (c : ClientAddresses) (mac : string) : result IdentityError (list IpAddr) :=
  found ← ok_or (by_mac c !! to_ascii_lowercase mac) Unresolved;
  if existsb (λ a, bool_decide (a ∈ conflicts c)) (btree_elements addr_leb found) then Err Conflict
  else
    let l := btree_elements addr_leb found in
    if bool_decide (l = []) then Err Unresolved else Ok l.

Section entry.
Context {K V : Type} `{Countable K, Countable V}.

Lemma entry_insert_elem (m : gmap K (gset V)) k v k' v' :
  v' ∈ default ∅ (entry_insert k v m !! k') ↔ (k = k' ∧ v = v') ∨ v' ∈ default ∅ (m !! k').
Proof.
  unfold entry_insert. rewrite lookup_insert. destruct (decide (k = k')) as [->|Hne]; simpl; [|naive_solver].
  set_solver.
Qed.

Lemma entry_insert_nonempty (m : gmap K (gset V)) k v :
  (∀ k' X, m !! k' = Some X → X ≠ ∅) → ∀ k' X, entry_insert k v m !! k' = Some X → X ≠ ∅.
Proof.
  intros Hm k' X. unfold entry_insert. rewrite lookup_insert.
  destruct (decide (k = k')); [|by apply Hm]. intros [= <-]. set_solver.
Qed.

End entry.

Lemma observe_neighbors_spec ns st :
  (∀ k X, fst st !! k = Some X → X ≠ ∅) →
  let st' := foldl observe_neighbor st ns in
  (∀ m ip, ip ∈ default ∅ (fst st' !! m) ↔
     ip ∈ default ∅ (fst st !! m) ∨ ∃ m', (m', ip) ∈ ns ∧ to_ascii_lowercase m' = m) ∧
  (∀ ip m, m ∈ default ∅ (snd st' !! ip) ↔
     m ∈ default ∅ (snd st !! ip) ∨ ∃ m', (m', ip) ∈ ns ∧ to_ascii_lowercase m' = m) ∧
  (∀ k X, fst st' !! k = Some X → X ≠ ∅).
Proof.
  revert st. induction ns as [|[n a] ns IH]; intros st Hne; simpl.
  { split_and!; [set_solver..|done]. }
  destruct (IH (observe_neighbor st (n, a))) as (Hm & Hi & Hn).
  { unfold observe_neighbor. simpl. by apply entry_insert_nonempty. }
  setoid_rewrite elem_of_cons. split_and!; [| |exact Hn].
  - intros m ip. rewrite Hm. unfold observe_neighbor. simpl. rewrite entry_insert_elem. naive_solver.
  - intros ip m. rewrite Hi. unfold observe_neighbor. simpl. rewrite entry_insert_elem. naive_solver.
Qed.

Lemma size_gt_1 {V} `{Countable V} (X : gset V) :
  (1 < size X)%nat ↔ ∃ x y, x ∈ X ∧ y ∈ X ∧ x ≠ y.
Proof.
  split.
  - intros Hs. destruct (elements X) as [|x [|y l]] eqn:He.
    + unfold size, set_size in Hs. simpl in Hs. rewrite He in Hs. simpl in Hs. lia.
    + unfold size, set_size in Hs. simpl in Hs. rewrite He in Hs. simpl in Hs. lia.
    + pose proof (NoDup_elements X) as Hnd. rewrite He, NoDup_cons in Hnd. exists x, y.
      rewrite <- !elem_of_elements, He. set_solver.
  - intros (x & y & Hx & Hy & Hne).
    assert (size ({[x; y]} : gset V) ≤ size X)%nat by (apply subseteq_size; set_solver).
    rewrite size_union in H0 by set_solver. rewrite !size_singleton in H0. lia.
Qed.

(** A MAC owns an address when some neighbour entry says so, up to letter case. *)
Definition owns (ns : list (string * IpAddr)) (mac : string) (ip : IpAddr) : Prop :=
  ∃ m, (m, ip) ∈ ns ∧ to_ascii_lowercase m = to_ascii_lowercase mac.

Lemma conflicts_spec ns ip :
  ip ∈ conflicts (from_neighbors ns) ↔
  ∃ m m', (m, ip) ∈ ns ∧ (m', ip) ∈ ns ∧ to_ascii_lowercase m ≠ to_ascii_lowercase m'.
Proof.
  destruct (observe_neighbors_spec ns (∅, ∅)) as (_ & Hi & _); [by intros k X; simpl; rewrite lookup_empty|].
  simpl in Hi. unfold from_neighbors. simpl. rewrite elem_of_dom. unfold is_Some.
  setoid_rewrite map_lookup_filter_Some. simpl. setoid_rewrite size_gt_1. split.
  - intros (X & HX & x & y & Hx & Hy & Hne).
    pose proof (Hi ip x) as Hix. pose proof (Hi ip y) as Hiy. rewrite HX in Hix, Hiy. simpl in Hix, Hiy.
    apply Hix in Hx as [?|(m & ? & <-)]; [set_solver|]. apply Hiy in Hy as [?|(m' & ? & <-)]; [set_solver|].
    eauto.
  - intros (m & m' & Hm & Hm' & Hne).
    pose proof (Hi ip (to_ascii_lowercase m)) as Hix. pose proof (Hi ip (to_ascii_lowercase m')) as Hiy.
    destruct (snd (foldl observe_neighbor (∅, ∅) ns) !! ip) as [X|]; simpl in *; [|set_solver].
    exists X. split; [done|]. exists (to_ascii_lowercase m), (to_ascii_lowercase m').
    rewrite Hix, Hiy. eauto 10.
Qed.

(** Client addresses are resolved without guessing: a successful
    resolution lists exactly the addresses the MAC owns, in order, none of
    which any other MAC also owns; a conflict is reported only when an address
    of this client is shared with another MAC, and an unresolved client owns
    no address. *)
Lemma resolve_exact ns mac :
  match resolve (from_neighbors ns) mac with
  | Ok l =>
    l ≠ [] ∧ StronglySorted (λ a b, addr_leb a b = true) l ∧ NoDup l ∧
    (∀ ip, ip ∈ l ↔ owns ns mac ip) ∧
    (∀ ip other, ip ∈ l → owns ns other ip → to_ascii_lowercase other = to_ascii_lowercase mac)
  | Err Conflict =>
    ∃ ip other, owns ns mac ip ∧ owns ns other ip ∧ to_ascii_lowercase other ≠ to_ascii_lowercase mac
  | Err Unresolved => ∀ ip, ¬ owns ns mac ip
  end.
Proof.
  destruct (observe_neighbors_spec ns (∅, ∅)) as (Hm & _ & Hne); [by intros k X; simpl; rewrite lookup_empty|].
  simpl in Hm, Hne. unfold resolve. change (by_mac (from_neighbors ns)) with (fst (foldl observe_neighbor (∅, ∅) ns)).
  specialize (Hm (to_ascii_lowercase mac)). rewrite lookup_empty in Hm. simpl in Hm.
  destruct (fst (foldl observe_neighbor (∅, ∅) ns) !! to_ascii_lowercase mac) as [X|] eqn:HX; simpl in *.
  2:{ intros ip Ho. assert (ip ∈ (∅ : gset IpAddr)); [|set_solver]. apply Hm. by right. }
  assert (∀ ip, ip ∈ X ↔ owns ns mac ip) as HX'.
  { intros ip. rewrite Hm. unfold owns. set_solver. }
  destruct (existsb _ _) eqn:Hex.
  - apply existsb_exists in Hex as (ip & Hip%list_elem_of_In & Hc%bool_decide_eq_true).
    apply elem_of_btree_elements in Hip. apply conflicts_spec in Hc as (m & m' & Hm1 & Hm2 & Hneq).
    exists ip. apply HX' in Hip.
    destruct (decide (to_ascii_lowercase m = to_ascii_lowercase mac)) as [Heq|];
      [exists m'|exists m]; (split_and!; [done|unfold owns; eauto|congruence]).
  - case_bool_decide as Hnil.
    + exfalso. apply (Hne _ _ HX). apply set_eq. intros ip.
      rewrite <- (elem_of_btree_elements addr_leb), Hnil. set_solver.
    + split_and!; [done| |apply NoDup_btree_elements| |].
      * unfold btree_elements. apply sort_by_sorted; [apply addr_leb_total|apply addr_leb_trans].
      * intros ip. by rewrite elem_of_btree_elements.
      * intros ip other Hip (m' & Hm' & Heq). rewrite existsb_false, Forall_forall in Hex.
        specialize (Hex ip Hip). apply bool_decide_eq_false in Hex.
        change (ip ∉ conflicts (from_neighbors ns)) in Hex. rewrite conflicts_spec in Hex.
        apply elem_of_btree_elements, HX' in Hip as (m & Hm1 & Heq1).
        destruct (decide (to_ascii_lowercase other = to_ascii_lowercase mac)) as [|Hd]; [done|].
        destruct Hex. exists m, m'. split_and!; [done|done|congruence].
Qed.

(** A parsed MAC address has six octets, and its printed form parses back
    to it: printing is a normal form of the accepted spellings. *)
Lemma mac_parse_print s m :
  mac_from_str s = Ok m → mac_wf m ∧ mac_from_str (mac_to_string m) = Ok m.
Proof. intros Hm%mac_from_str_wf. split; [done|by apply mac_roundtrip]. Qed.

Lemma mac_parse_print_witness :
  mac_from_str "02:BB:+c:DD:ee:0F" = Ok (mkMac [2; 187; 12; 221; 238; 15]) ∧
  mac_from_str (mac_to_string (mkMac [2; 187; 12; 221; 238; 15])) = Ok (mkMac [2; 187; 12; 221; 238; 15]).
Proof.
  split; [by vm_compute|]. apply (mac_parse_print "02:BB:+c:DD:ee:0F"). by vm_compute.
Defined.
