(* ===== verification/ClassIds.v ===== *)
(** Traffic-control class ids and the client class leases of the priority
    backend (src/crates/agent/src/policy/classid.rs, priority_slots.rs,
    priority_cleanup.rs; the constants are those of
    src/bpf/include/netqmon_classid.h, from which the build generates them). *)

From S2P Require Import Prelude Json Topology Identity.

(** ** The shared constants *)

Definition DOWNLOAD_MAJOR : Z := 81.
Definition UPLOAD_MAJOR : Z := 82.
Definition ROOT_MINOR : Z := 1.
Definition BYPASS_MINOR : Z := 65534.
Definition CLIENT_FIRST : Z := 256.
Definition CLIENT_LAST : Z := 511.
Definition DEFAULT_FIRST : Z := 512.
Definition DEFAULT_LAST : Z := 767.
Definition APPLICATION_FIRST : Z := 4096.
Definition APPLICATION_LAST : Z := 8191.
Definition APPLICATIONS_PER_CLIENT : Z := 16.

(** The error messages: a cause for the identity that does not parse, and the
    two ways to run out of slots. *)
Inductive SlotError :=
| priority_identity_invalid (cause : option MacAddressParseError)
| priority_classid_invalid
| priority_classid_conflict
| priority_class_slots_exhausted (retired : bool)
| invalid_QoS_leaf_classid.

(** ** Class ids *)

Record ClassId := mkClassId { raw : Z }.

(** The minors that name an allocated leaf. *)
Definition allocated_leaf (minor : Z) : bool :=
  ((minor =? BYPASS_MINOR) || in_range DEFAULT_FIRST DEFAULT_LAST minor
   || in_range APPLICATION_FIRST APPLICATION_LAST minor)%bool.

Definition leaf (major minor : Z) : result SlotError ClassId :=
  if (negb ((major =? DOWNLOAD_MAJOR) || (major =? UPLOAD_MAJOR)) || negb (allocated_leaf minor))%bool
  then Err invalid_QoS_leaf_classid
  else Ok (mkClassId (Z.lor (Z.shiftl major 16) minor)).

(** [{:x}:{:x}]. *)
Definition class_to_string (c : ClassId) : string :=
  String.append (hex_text (Z.shiftr (raw c) 16))
    (String (ascii_of_N 58) (hex_text (Z.land (raw c) 65535))).

(** ** Client slot leases *)

Definition SLOT_COUNT : Z := CLIENT_LAST - CLIENT_FIRST + 1.

Record ClientSlotLease := mkLease { mac : string; slot : Z; active : bool }.
#[export] Instance ClientSlotLease_eq_dec : EqDecision ClientSlotLease.
Proof. solve_decision. Defined.

Definition canonical_mac (value : string) : result SlotError MacAddress :=
  m ← map_err (λ e, priority_identity_invalid (Some e)) (mac_from_str value);
  if (negb (is_unicast m) || negb (String.eqb (mac_to_string m) value))%bool
  then Err (priority_identity_invalid None)
  else Ok m.

Definition lease_validate (l : ClientSlotLease) : result SlotError unit :=
  _ ← canonical_mac (mac l);
  reject_if ((SLOT_COUNT <=? slot l) || (DEFAULT_LAST <? DEFAULT_FIRST + slot l))%bool
    priority_classid_invalid.

Definition parent_minor (l : ClientSlotLease) : result SlotError Z :=
  _ ← lease_validate l; Ok (CLIENT_FIRST + slot l).

Definition default_leaf (l : ClientSlotLease) (major : Z) : result SlotError ClassId :=
  _ ← lease_validate l;
  leaf major (DEFAULT_FIRST + slot l).

(** The loops of [allocate] keep the leases by MAC and the occupied slots. *)
Definition alloc_state : Type := gmap string ClientSlotLease * gset Z.

Definition keep_previous (selected : gset string) (st : alloc_state) (lease : ClientSlotLease)
    : result SlotError alloc_state :=
  let '(leases, occupied) := st in
  _ ← lease_validate lease;
  if (bool_decide (slot lease ∈ occupied) || bool_decide (is_Some (leases !! mac lease)))%bool
  then Err priority_classid_conflict
  else Ok (<[mac lease := mkLease (mac lease) (slot lease) (bool_decide (mac lease ∈ selected))]> leases,
           {[slot lease]} ∪ occupied).

(** [(0..SLOT_COUNT as u16).find(|slot| !occupied.contains(slot))]. *)
Definition free_slot (occupied : gset Z) : option Z :=
  List.find (λ s, bool_decide (s ∉ occupied)) (seqZ 0 SLOT_COUNT).

Definition add_selected (st : alloc_state) (m : string) : result SlotError alloc_state :=
  let '(leases, occupied) := st in
  if bool_decide (is_Some (leases !! m)) then Ok st
  else
    s ← ok_or (free_slot occupied) (priority_class_slots_exhausted true);
    Ok (<[m := mkLease m s true]> leases, {[s]} ∪ occupied).

Definition slot_leb (a b : ClientSlotLease) : bool := slot a <=? slot b.

Definition allocate (selected : gset string) (previous : list ClientSlotLease)
    : result SlotError (list ClientSlotLease) :=
  _ ← reject_if ((SLOT_COUNT <? Z.of_nat (size selected)) || (SLOT_COUNT <? zlen previous))%bool
        (priority_class_slots_exhausted false);
  _ ← eachM (λ m, _ ← canonical_mac m; Ok tt) (btree_elements str_leb selected);
  st ← foldM (keep_previous selected) (∅, ∅) previous;
  st ← foldM add_selected st (btree_elements str_leb selected);
  Ok (sort_by slot_leb (snd <$> btree_entries str_leb (fst st))).

(** ** Removing unused classes *)

Record UnusedPriorityClass := mkUnused { unused_raw : Z; client_parent : bool }.

(** [value.strip_prefix("0x").unwrap_or(value)]. *)
Definition strip_0x (s : string) : string :=
  match s with
  | String a (String b rest) => if ((byte_val a =? 48) && (byte_val b =? 120))%bool then rest else s
  | _ => s
  end.

Definition u32_max : Z := 2 ^ 32 - 1.

(** [u32::checked_shl(16)] never fails: it drops the bits shifted out. *)
Definition u32_shl16 (x : Z) : Z := Z.shiftl x 16 mod 2 ^ 32.
Definition u32_checked_add (x y : Z) : option Z := if u32_max <? x + y then None else Some (x + y).

Definition parse_classid_text (value : string) : option Z :=
  '(major, minor) ← split_once 58 value;
  major ← from_hex u32_max (strip_0x major);
  minor ← from_hex u32_max (strip_0x minor);
  u32_checked_add (u32_shl16 major) minor.

Definition dynamic_class_parent (major minor : Z) : option (Z * bool) :=
  let root := u32_shl16 major in
  if in_range CLIENT_FIRST CLIENT_LAST minor then Some (Z.lor root ROOT_MINOR, true)
  else if in_range DEFAULT_FIRST DEFAULT_LAST minor then
    Some (Z.lor root (CLIENT_FIRST + (minor - DEFAULT_FIRST)), false)
  else if in_range APPLICATION_FIRST APPLICATION_LAST minor then
    Some (Z.lor root (CLIENT_FIRST + (minor - APPLICATION_FIRST) / APPLICATIONS_PER_CLIENT), false)
  else None.

Inductive CleanupError :=
| NotAnArray
| UnexpectedKind (handle : string)
| MissingParent
| UnexpectedParent (handle : string)
| DuplicateClass (handle : string)
| ChildWithoutHandle
| UnmanagedChild (parent : Z).

Definition class_handle (entry : Value) : option Z := h ← get_str "handle" entry; parse_classid_text h.
Definition class_parent (entry : Value) : option Z := h ← get_str "parent" entry; parse_classid_text h.

(** One entry of the dump; the accumulator holds [stale] and [stale_ids]. *)
Definition scan_entry (major : Z) (desired : gset Z) (st : list UnusedPriorityClass * gset Z) (entry : Value)
    : result CleanupError (list UnusedPriorityClass * gset Z) :=
  match get_str "handle" entry with
  | None => Ok st
  | Some handle =>
    match parse_classid_text handle with
    | None => Ok st
    | Some raw =>
      if negb (Z.shiftr raw 16 =? major) then Ok st
      else match dynamic_class_parent major (Z.land raw 65535) with
      | None => Ok st
      | Some (expected_parent, client_parent) =>
        if bool_decide (raw ∈ desired) then Ok st
        else if negb (bool_decide (get_str "class" entry = Some "htb")) then Err (UnexpectedKind handle)
        else
          parent ← ok_or (class_parent entry) MissingParent;
          if negb (parent =? expected_parent) then Err (UnexpectedParent handle)
          else if bool_decide (raw ∈ snd st) then Err (DuplicateClass handle)
          else Ok (fst st ++ [mkUnused raw client_parent], {[raw]} ∪ snd st)
      end
    end
  end.

(** The children of a class that is to be removed are removed or wanted. *)
Definition check_child (desired stale_ids : gset Z) (parent : UnusedPriorityClass) (child : Value)
    : result CleanupError unit :=
  if negb (bool_decide (class_parent child = Some (unused_raw parent))) then Ok tt
  else
    child_raw ← ok_or (class_handle child) ChildWithoutHandle;
    reject_if (negb (bool_decide (child_raw ∈ stale_ids)) && negb (bool_decide (child_raw ∈ desired)))%bool
      (UnmanagedChild (unused_raw parent)).

(** [sort_by_key(|class| (class.client_parent, class.raw))]. *)
Definition unused_leb (a b : UnusedPriorityClass) : bool :=
  match client_parent a, client_parent b with
  | false, true => true
  | true, false => false
  | _, _ => unused_raw a <=? unused_raw b
  end.

Definition unused_priority_classes (class_dump : Value) (major : Z) (desired : gset Z)
    : result CleanupError (list UnusedPriorityClass) :=
  entries ← ok_or (as_array class_dump) NotAnArray;
  st ← foldM (scan_entry major desired) ([], ∅) entries;
  _ ← eachM (λ parent, eachM (check_child desired (snd st) parent) entries) (List.filter client_parent (fst st));
  Ok (sort_by unused_leb (fst st)).

(** ** Class ids: what the leaf numbering guarantees *)

Lemma leaf_minor_u16 minor : allocated_leaf minor = true → 0 ≤ minor < 2 ^ 16.
Proof.
  unfold allocated_leaf, in_range, BYPASS_MINOR, DEFAULT_FIRST, DEFAULT_LAST, APPLICATION_FIRST, APPLICATION_LAST.
  lia.
Qed.

Lemma leaf_Ok major minor c : leaf major minor = Ok c ↔
  (major = DOWNLOAD_MAJOR ∨ major = UPLOAD_MAJOR) ∧ allocated_leaf minor = true ∧
  raw c = major * 2 ^ 16 + minor.
Proof.
  unfold leaf. destruct (allocated_leaf minor) eqn:Ha; [|rewrite orb_true_r; naive_solver].
  rewrite orb_false_r, lor_shiftl by first [lia | by apply leaf_minor_u16]. unfold DOWNLOAD_MAJOR, UPLOAD_MAJOR.
  destruct (negb _) eqn:Hm; [split; [done|lia]|]. split_bools.
  split; [intros [= <-]; simpl; lia|]. intros (_ & _ & Hc). destruct c. simpl in Hc. by subst.
Qed.

(** ** Slot allocation *)

(** A lease the agent may hold: a canonical client and a slot of the ABI. *)
Definition lease_ok (l : ClientSlotLease) : Prop :=
  (∃ m, canonical_mac (mac l) = Ok m) ∧ 0 ≤ slot l < SLOT_COUNT.

Lemma lease_validate_Ok l : 0 ≤ slot l → lease_validate l = Ok tt ↔ lease_ok l.
Proof.
  intros Hs. unfold lease_validate, lease_ok. rewrite bind_Ok. setoid_rewrite reject_if_Ok.
  unfold SLOT_COUNT, CLIENT_LAST, CLIENT_FIRST, DEFAULT_LAST, DEFAULT_FIRST. split.
  - intros (m & Hm & Hb). split; [eauto|lia].
  - intros [[m Hm] Hb]. exists m. split; [done|lia].
Qed.

Lemma lease_validate_Ok_unit l u : 0 ≤ slot l → lease_validate l = Ok u ↔ lease_ok l.
Proof. destruct u. apply lease_validate_Ok. Qed.

Lemma canonical_mac_Ok s : (∃ m, canonical_mac s = Ok m) ↔
  ∃ m, mac_wf m ∧ is_unicast m = true ∧ s = mac_to_string m.
Proof.
  unfold canonical_mac. setoid_rewrite bind_Ok. setoid_rewrite map_err_Ok. split.
  - intros (m & m' & Hp & Hm). destruct (negb _ || negb _)%bool eqn:Hb; [done|]. split_bools.
    exists m'. split_and!; [by eapply mac_from_str_wf|done|done].
  - intros (m & Hwf & Hu & ->). exists m, m. rewrite mac_roundtrip by done. split; [done|].
    by rewrite Hu, String.eqb_refl.
Qed.

Lemma find_Some {A} (p : A → bool) l x : List.find p l = Some x → x ∈ l ∧ p x = true.
Proof. intros H%find_some. by rewrite list_elem_of_In. Qed.

Lemma free_slot_Some occupied s : free_slot occupied = Some s → 0 ≤ s < SLOT_COUNT ∧ s ∉ occupied.
Proof. intros [Hs Hp]%find_Some. apply elem_of_seqZ in Hs. split_bools. split; [lia|done]. Qed.

Lemma free_slot_None occupied : free_slot occupied = None → SLOT_COUNT ≤ Z.of_nat (size occupied).
Proof.
  intros Hf. assert (list_to_set (seqZ 0 SLOT_COUNT) ⊆ occupied) as Hsub.
  { intros s Hs. apply elem_of_list_to_set in Hs.
    pose proof (find_none _ _ Hf s) as Hp. rewrite <- list_elem_of_In in Hp. specialize (Hp Hs).
    simpl in Hp. apply bool_decide_eq_false, dec_stable in Hp. done. }
  apply subseteq_size in Hsub. rewrite size_list_to_set in Hsub by apply NoDup_seqZ.
  rewrite length_seqZ in Hsub. change SLOT_COUNT with 256 in *. lia.
Qed.

Section allocation.
Context (selected : gset string).

(** What the two loops maintain about the leases and the occupied slots. *)
Record alloc_inv (st : alloc_state) : Prop := mkAllocInv {
  inv_lease : ∀ m l, fst st !! m = Some l →
    mac l = m ∧ lease_ok l ∧ slot l ∈ snd st ∧ active l = bool_decide (m ∈ selected);
  inv_inj : ∀ m m' l l', fst st !! m = Some l → fst st !! m' = Some l' → slot l = slot l' → m = m';
  inv_occupied : ∀ s, s ∈ snd st → 0 ≤ s < SLOT_COUNT;
  inv_size : size (snd st) = size (fst st);
}.

Lemma alloc_inv_empty : alloc_inv (∅, ∅).
Proof. split; simpl; intros; try done; set_solver. Qed.

Lemma alloc_inv_insert leases occupied l :
  alloc_inv (leases, occupied) → lease_ok l → slot l ∉ occupied → leases !! mac l = None →
  active l = bool_decide (mac l ∈ selected) →
  alloc_inv (<[mac l := l]> leases, {[slot l]} ∪ occupied).
Proof.
  intros [Hl Hi Ho Hs] Hok Hfree Hnone Hact. simpl in *. split; simpl.
  - intros m l'. rewrite lookup_insert_Some. intros [[<- <-]|[Hne Hm]]; [set_solver|].
    apply Hl in Hm as (? & ? & ? & ?). set_solver.
  - intros m m' l1 l2. rewrite !lookup_insert_Some.
    intros [[<- <-]|[Hne Hm]] [[<- <-]|[Hne' Hm']] Heq; [done| | |by eapply Hi].
    + apply Hl in Hm' as (_ & _ & Hin & _). by rewrite <- Heq in Hin.
    + apply Hl in Hm as (_ & _ & Hin & _). by rewrite Heq in Hin.
  - intros s. rewrite elem_of_union, elem_of_singleton. destruct Hok. naive_solver.
  - rewrite size_union, size_singleton, map_size_insert_None by (done || set_solver). lia.
Qed.

Lemma alloc_inv_capacity st : alloc_inv st → Z.of_nat (size (fst st)) ≤ SLOT_COUNT.
Proof.
  intros [_ _ Ho Hs]. rewrite <- Hs.
  assert (snd st ⊆ list_to_set (seqZ 0 SLOT_COUNT)) as Hsub.
  { intros s Hin%Ho. rewrite elem_of_list_to_set, elem_of_seqZ. lia. }
  apply subseteq_size in Hsub. rewrite size_list_to_set in Hsub by apply NoDup_seqZ.
  rewrite length_seqZ in Hsub. change SLOT_COUNT with 256 in *. lia.
Qed.
(** The first loop keeps every previous lease, and no other. *)
Lemma keep_previous_step st l st' :
  0 ≤ slot l → alloc_inv st → keep_previous selected st l = Ok st' →
  alloc_inv st' ∧ slot l ∉ snd st ∧ fst st !! mac l = None ∧ lease_ok l ∧
  fst st' = <[mac l := mkLease (mac l) (slot l) (bool_decide (mac l ∈ selected))]> (fst st).
Proof.
  intros Hs Hinv H. unfold keep_previous in H. destruct st as [leases occupied]. simpl.
  apply bind_Ok in H as ([] & Hv & H). apply lease_validate_Ok in Hv; [|done].
  destruct (_ || _)%bool eqn:Hb; simplify_eq/=. split_bools.
  apply eq_None_not_Some in H0. split_and!; [|done..].
  by apply (alloc_inv_insert leases occupied (mkLease (mac l) (slot l) (bool_decide (mac l ∈ selected)))).
Qed.

Lemma keep_previous_loop prev st :
  Forall (λ l, 0 ≤ slot l) prev → foldM (keep_previous selected) (∅, ∅) prev = Ok st →
  alloc_inv st ∧ Forall lease_ok prev ∧
  ∀ m l, fst st !! m = Some l ↔
    ∃ p, p ∈ prev ∧ mac p = m ∧ l = mkLease m (slot p) (bool_decide (m ∈ selected)).
Proof.
  intros Hnn H.
  enough (Forall (λ l, 0 ≤ slot l) ([] ++ prev) → alloc_inv st ∧ Forall lease_ok ([] ++ prev) ∧
    NoDup (mac <$> ([] ++ prev)) ∧
    ∀ m l, fst st !! m = Some l ↔
    ∃ p, p ∈ [] ++ prev ∧ mac p = m ∧ l = mkLease m (slot p) (bool_decide (m ∈ selected))) by naive_solver.
  revert H. apply (foldM_ind (λ pre st, Forall (λ l, 0 ≤ slot l) pre → alloc_inv st ∧ Forall lease_ok pre ∧
    NoDup (mac <$> pre) ∧ ∀ m l, fst st !! m = Some l ↔
    ∃ p, p ∈ pre ∧ mac p = m ∧ l = mkLease m (slot p) (bool_decide (m ∈ selected)))).
  2:{ intros _. split_and!; [apply alloc_inv_empty|constructor|constructor|]. simpl. intros. rewrite lookup_empty. set_solver. }
  clear st. intros pre st a st' IH Hstep [Hpre Ha]%Forall_app. rewrite Forall_singleton in Ha.
  destruct (IH Hpre) as (Hinv & Hok & Hnd & Hmap).
  destruct (keep_previous_step _ _ _ Ha Hinv Hstep) as (Hinv' & Hfree & Hnone & Hla & Heq).
  assert (mac a ∉ mac <$> pre) as Hnew.
  { intros (p & Hmp & Hp)%list_elem_of_fmap.
    assert (fst st !! mac a = Some (mkLease (mac a) (slot p) (bool_decide (mac a ∈ selected)))) as Hc
      by (apply Hmap; eauto). congruence. }
  split_and!; [done|by apply Forall_app_2; [|constructor]| |].
  - rewrite fmap_app, NoDup_app. split_and!; [done| |apply NoDup_singleton].
    intros x Hx. simpl. rewrite list_elem_of_singleton. by intros ->.
  - intros m l. rewrite Heq, lookup_insert_Some, Hmap. split.
    + intros [[<- <-]|[Hne (p & Hp & <- & ->)]]; [exists a|exists p]; set_solver.
    + intros (p & [Hp| ->%list_elem_of_singleton]%elem_of_app & <- & ->); [|by left].
      right. split; [|eauto]. intros Heq'. apply Hnew. rewrite Heq'. apply list_elem_of_fmap. eauto.
Qed.

(** The second loop adds the selected clients that have no lease yet. *)
Lemma add_selected_step st m st' :
  (∃ a, canonical_mac m = Ok a) → m ∈ selected → alloc_inv st → add_selected st m = Ok st' →
  alloc_inv st' ∧ fst st ⊆ fst st' ∧ dom (fst st') = {[m]} ∪ dom (fst st).
Proof.
  intros Hc Hsel Hinv H. unfold add_selected in H. destruct st as [leases occupied].
  case_bool_decide as Hm; simplify_eq/=.
  { split_and!; [done|done|]. apply elem_of_dom in Hm. set_solver. }
  apply bind_Ok in H as (s & Hs & [= <-]). apply ok_or_Ok, free_slot_Some in Hs as [Hb Hfree].
  apply eq_None_not_Some in Hm. simpl. split_and!.
  - apply (alloc_inv_insert leases occupied (mkLease m s true)); [done|by split|done|done|].
    simpl. by rewrite bool_decide_eq_true_2.
  - by apply insert_subseteq.
  - apply dom_insert_L.
Qed.

Lemma add_selected_loop ms st st' :
  Forall (λ m, (∃ a, canonical_mac m = Ok a) ∧ m ∈ selected) ms → alloc_inv st →
  foldM add_selected st ms = Ok st' →
  alloc_inv st' ∧ fst st ⊆ fst st' ∧ dom (fst st') = list_to_set ms ∪ dom (fst st).
Proof.
  intros Hms. revert st. induction Hms as [|m ms [Hc Hsel] Hms IH]; intros st Hinv H; simpl in H.
  { simplify_eq. split_and!; [done|done|set_solver]. }
  apply bind_Ok in H as (st1 & Hst1 & H).
  destruct (add_selected_step _ _ _ Hc Hsel Hinv Hst1) as (Hinv1 & Hsub1 & Hdom1).
  destruct (IH _ Hinv1 H) as (Hinv2 & Hsub2 & Hdom2).
  split_and!; [done|by etrans|]. rewrite Hdom2, Hdom1. simpl. set_solver.
Qed.

Lemma keep_previous_Ok_iff prev st :
  Forall (λ l, 0 ≤ slot l) prev →
  (∃ st', foldM (keep_previous selected) st prev = Ok st') ↔
  Forall lease_ok prev ∧ NoDup (mac <$> prev) ∧ NoDup (slot <$> prev) ∧
  Forall (λ p, slot p ∉ snd st ∧ fst st !! mac p = None) prev.
Proof.
  intros Hnn. revert st. induction Hnn as [|a prev Ha Hnn IH]; intros st.
  { split; [intros _; split_and!; constructor|intros _; by eexists]. }
  cbn [foldM]. setoid_rewrite bind_Ok. rewrite !fmap_cons, !NoDup_cons, !Forall_cons.
  trans (∃ st1, keep_previous selected st a = Ok st1 ∧ Forall lease_ok prev ∧ NoDup (mac <$> prev) ∧
    NoDup (slot <$> prev) ∧ Forall (λ p, slot p ∉ snd st1 ∧ fst st1 !! mac p = None) prev).
  { split; [intros (st' & st1 & H1 & H2)|intros (st1 & H1 & H2)].
    - exists st1. split; [done|]. apply IH. eauto.
    - apply IH in H2 as [st' H2]. eauto. }
  clear IH. destruct st as [leases occupied]. unfold keep_previous. setoid_rewrite bind_Ok.
  setoid_rewrite lease_validate_Ok_unit; [|done]. split.
  - intros (st1 & (u & Hok & H1) & Hoks & Hm & Hs & Hall). destruct (_ || _)%bool eqn:Hb; simplify_eq/=.
    split_bools. apply eq_None_not_Some in H0.
    assert (Forall (λ p, slot p ≠ slot a ∧ mac p ≠ mac a ∧ slot p ∉ occupied ∧ leases !! mac p = None) prev) as Hall'.
    { eapply Forall_impl; [exact Hall|]. intros p [Hsp [Hmp Hne]%lookup_insert_None]. simpl in Hsp. set_solver. }
    rewrite Forall_forall in Hall'. split_and!; try done.
    + intros (p & Heq & Hp)%list_elem_of_fmap. by apply Hall' in Hp as (? & ? & ?).
    + intros (p & Heq & Hp)%list_elem_of_fmap. by apply Hall' in Hp as (? & ? & ?).
    + apply Forall_forall. naive_solver.
  - intros ([Hok Hoks] & [Hma Hm] & [Hsa Hs] & [[Hfree Hnone] Hall]). simpl in *.
    eexists. split_and!; [exists tt; split; [done|]| done|done|done|].
    { rewrite bool_decide_eq_false_2, bool_decide_eq_false_2; [done| |done]. by rewrite Hnone; intros []. }
    rewrite Forall_forall in Hall |- *. intros p Hp. destruct (Hall p Hp) as [Hsp Hmp]. simpl.
    assert (slot p ≠ slot a). { intros Heq. apply Hsa, list_elem_of_fmap. eauto. }
    assert (mac a ≠ mac p). { intros Heq. apply Hma, list_elem_of_fmap. eauto. }
    split; [set_solver|]. by rewrite lookup_insert_ne.
Qed.

Lemma add_selected_total ms st :
  Forall (λ m, (∃ a, canonical_mac m = Ok a) ∧ m ∈ selected) ms → alloc_inv st →
  Z.of_nat (size (list_to_set ms ∪ dom (fst st))) ≤ SLOT_COUNT →
  ∃ st', foldM add_selected st ms = Ok st'.
Proof.
  intros Hms. revert st. induction Hms as [|m ms [Hc Hsel] Hms IH]; intros st Hinv Hsize; [by eexists|].
  cbn [foldM]. destruct (add_selected st m) as [st1|e] eqn:Hst1.
  - destruct (add_selected_step _ _ _ Hc Hsel Hinv Hst1) as (Hinv1 & _ & Hdom1).
    apply IH; [done|]. rewrite Hdom1. etrans; [|exact Hsize]. apply inj_le, subseteq_size. set_solver.
  - exfalso. unfold add_selected in Hst1. destruct st as [leases occupied].
    case_bool_decide as Hm; [done|]. destruct (free_slot occupied) eqn:Hf; [done|].
    apply free_slot_None in Hf. apply eq_None_not_Some, not_elem_of_dom in Hm. simpl in Hsize.
    rewrite (inv_size _ Hinv : size occupied = size leases), <- size_dom in Hf.
    assert (size ({[m]} ∪ dom leases) ≤ size ({[m]} ∪ list_to_set ms ∪ dom leases))%nat as Hle
      by (apply subseteq_size; set_solver).
    rewrite size_union, size_singleton in Hle by set_solver. lia.
Qed.

End allocation.

(** When leases can be given out: every client is canonical, the previous
    leases are valid and disjoint, and there are slots for everybody,
    including the retired clients. *)
Definition allocatable (selected : gset string) (previous : list ClientSlotLease) : Prop :=
  (∀ m, m ∈ selected → ∃ a, canonical_mac m = Ok a) ∧ Forall lease_ok previous ∧
  NoDup (mac <$> previous) ∧ NoDup (slot <$> previous) ∧
  Z.of_nat (size (selected ∪ list_to_set (mac <$> previous))) ≤ SLOT_COUNT.

(** What the resulting leases promise to the queue plan. *)
Record allocation (selected : gset string) (previous out : list ClientSlotLease) : Prop := mkAllocation {
  out_sorted : StronglySorted (λ a b, slot a < slot b) out;
  out_macs : NoDup (mac <$> out);
  out_ok : Forall lease_ok out;
  out_active : ∀ l, l ∈ out → active l = bool_decide (mac l ∈ selected);
  out_clients : ∀ m, m ∈ mac <$> out ↔ m ∈ selected ∨ m ∈ mac <$> previous;
  out_stable : ∀ p, p ∈ previous → ∃ l, l ∈ out ∧ mac l = mac p ∧ slot l = slot p;
}.

Lemma eachM_canonical ms :
  eachM (λ m, _ ← canonical_mac m; Ok tt) ms = Ok tt ↔ Forall (λ m, ∃ a, canonical_mac m = Ok a) ms.
Proof.
  rewrite eachM_Ok. apply Forall_proper; [|done]. intros m. rewrite bind_Ok. naive_solver.
Qed.

(** The leases the map ends up with, read out in slot order. *)
Lemma leases_out selected st :
  alloc_inv selected st →
  let out := sort_by slot_leb (snd <$> btree_entries str_leb (fst st)) in
  (∀ l, l ∈ out ↔ fst st !! mac l = Some l) ∧
  StronglySorted (λ a b, slot a < slot b) out ∧ NoDup (mac <$> out).
Proof.
  intros Hinv. simpl.
  assert (∀ l, l ∈ snd <$> btree_entries str_leb (fst st) ↔ fst st !! mac l = Some l) as Helem.
  { intros l. rewrite list_elem_of_fmap. split.
    - intros ([m l'] & -> & Hl). apply elem_of_btree_entries in Hl. simpl.
      by destruct (inv_lease _ _ Hinv _ _ Hl) as [-> _].
    - intros Hl. exists (mac l, l). by rewrite elem_of_btree_entries. }
  assert (mac <$> (snd <$> btree_entries str_leb (fst st)) = fst <$> btree_entries str_leb (fst st)) as Hmacs.
  { rewrite <- list_fmap_compose. apply list_fmap_ext. intros i [m l] Hl. simpl.
    apply list_elem_of_lookup_2, elem_of_btree_entries in Hl. by destruct (inv_lease _ _ Hinv _ _ Hl) as [-> _]. }
  assert (NoDup (mac <$> (snd <$> btree_entries str_leb (fst st)))) as Hnd
    by (rewrite Hmacs; apply NoDup_btree_keys).
  split_and!.
  - intros l. by rewrite elem_of_sort_by.
  - apply (sort_by_strict slot), NoDup_fmap_2_strong; [|by apply NoDup_fmap_1 in Hnd].
    intros l l' Hl Hl' Heq. apply Helem in Hl, Hl'.
    pose proof (inv_inj _ _ Hinv _ _ _ _ Hl Hl' Heq) as Hm. rewrite Hm in Hl. congruence.
  - by rewrite sort_by_perm.
Qed.

Section allocate.
Context (selected : gset string) (previous : list ClientSlotLease).
Context (Hnn : Forall (λ l, 0 ≤ slot l) previous).

Lemma kept_dom st : foldM (keep_previous selected) (∅, ∅) previous = Ok st →
  dom (fst st) = list_to_set (mac <$> previous).
Proof.
  intros Hst. destruct (keep_previous_loop selected _ _ Hnn Hst) as (_ & _ & Hmap). apply set_eq. intros m.
  rewrite elem_of_dom, elem_of_list_to_set, list_elem_of_fmap. unfold is_Some. setoid_rewrite Hmap. naive_solver.
Qed.

Lemma selected_canonical :
  eachM (λ m, _ ← canonical_mac m; Ok tt) (btree_elements str_leb selected) = Ok tt ↔
  Forall (λ m, (∃ a, canonical_mac m = Ok a) ∧ m ∈ selected) (btree_elements str_leb selected).
Proof.
  rewrite eachM_canonical, !Forall_forall. setoid_rewrite elem_of_btree_elements. naive_solver.
Qed.

Lemma btree_elements_set : list_to_set (btree_elements str_leb selected) = selected.
Proof. apply set_eq. intros m. by rewrite elem_of_list_to_set, elem_of_btree_elements. Qed.

Lemma allocate_total : allocatable selected previous → ∃ out, allocate selected previous = Ok out.
Proof.
  intros (Hcan & Hok & Hm & Hs & Hsize). unfold allocate.
  destruct (proj2 (keep_previous_Ok_iff selected previous (∅, ∅) Hnn)) as [st Hst].
  { split_and!; [done..|]. apply Forall_forall. intros p _. simpl. split; [set_solver|apply lookup_empty]. }
  assert (Forall (λ m, (∃ a, canonical_mac m = Ok a) ∧ m ∈ selected) (btree_elements str_leb selected)) as Hsel.
  { apply Forall_forall. intros m Hin%elem_of_btree_elements. eauto. }
  destruct (add_selected_total selected (btree_elements str_leb selected) st) as [st' Hst']; [done| | |].
  { by eapply keep_previous_loop. }
  { by rewrite (kept_dom st Hst), btree_elements_set. }
  assert (size selected ≤ size (selected ∪ list_to_set (mac <$> previous)))%nat by (apply subseteq_size; set_solver).
  assert (size (list_to_set (mac <$> previous) : gset string) ≤ size (selected ∪ list_to_set (mac <$> previous)))%nat
    as Hle by (apply subseteq_size; set_solver).
  rewrite size_list_to_set, length_fmap in Hle by done.
  eexists. rewrite reject_seq, check_seq, selected_canonical. split_and!; [unfold zlen; lia|done|].
  rewrite Hst. cbn [mbind result_bind]. rewrite Hst'. reflexivity.
Qed.

Lemma allocate_sound out : allocate selected previous = Ok out →
  allocatable selected previous ∧ allocation selected previous out.
Proof.
  unfold allocate. rewrite reject_seq, check_seq, selected_canonical. intros (_ & Hsel & H).
  apply bind_Ok in H as (st & Hst & H). apply bind_Ok in H as (st' & Hst' & [= <-]).
  destruct (keep_previous_loop selected _ _ Hnn Hst) as (Hinv & Hok & Hmap).
  destruct (add_selected_loop _ _ _ _ Hsel Hinv Hst') as (Hinv' & Hsub & Hdom).
  rewrite (kept_dom st Hst), btree_elements_set in Hdom.
  destruct (proj1 (keep_previous_Ok_iff selected previous (∅, ∅) Hnn)) as (_ & Hm & Hs & _); [eauto|].
  destruct (leases_out selected st' Hinv') as (Hout & Hsorted & Hmacs). split.
  - split_and!; [|done..|].
    + intros m Hin. rewrite Forall_forall in Hsel. by apply Hsel, elem_of_btree_elements.
    + rewrite <- Hdom, size_dom. by eapply alloc_inv_capacity.
  - split; [done|done| | | |].
    + apply Forall_forall. intros l Hl%Hout. by apply (inv_lease _ _ Hinv') in Hl as (_ & ? & _).
    + intros l Hl%Hout. by apply (inv_lease _ _ Hinv') in Hl as (_ & _ & _ & ?).
    + intros m. rewrite <- (elem_of_list_to_set (C := gset string)  m (mac <$> previous)).
      rewrite <- elem_of_union, <- Hdom, elem_of_dom, list_elem_of_fmap. unfold is_Some. split.
      * intros (l & -> & Hl%Hout). eauto.
      * intros [l Hl]. exists l. rewrite Hout. by destruct (inv_lease _ _ Hinv' _ _ Hl) as [-> _].
    + intros p Hp. exists (mkLease (mac p) (slot p) (bool_decide (mac p ∈ selected))). simpl.
      split_and!; [|done..]. apply Hout. simpl. eapply lookup_weaken; [|exact Hsub]. apply Hmap. eauto.
Qed.
End allocate.

(** Client slots are allocated exactly when everybody can be served, and
    then consistently: the leases come out in slot order with distinct slots
    and distinct clients, all within the ABI, cover the selected and the
    previously known clients and nobody else, are active exactly for the
    selected ones, and never move a client that already had a slot. *)
Lemma allocate_correct selected previous :
  Forall (λ l, is_u16 (slot l)) previous →
  (allocatable selected previous ↔ ∃ out, allocate selected previous = Ok out) ∧
  ∀ out, allocate selected previous = Ok out → allocation selected previous out.
Proof.
  intros Hu. assert (Forall (λ l, 0 ≤ slot l) previous) as Hnn
    by (eapply Forall_impl; [exact Hu|]; unfold in_width; simpl; lia).
  split; [split; [by apply allocate_total|]|]; [intros [out Hout]|intros out Hout]; by eapply allocate_sound.
Qed.

Lemma allocate_correct_witness :
  let p := mkLease "02:bb:cc:dd:ee:0f" 7 true in
  let out := [mkLease "02:bb:cc:dd:ee:10" 0 true; mkLease "02:bb:cc:dd:ee:0f" 7 false] in
  allocate {["02:bb:cc:dd:ee:10"]} [p] = Ok out ∧ allocation {["02:bb:cc:dd:ee:10"]} [p] out.
Proof.
  split; [by vm_compute|]. apply allocate_correct; [|by vm_compute].
  apply (bool_decide_unpack _). by vm_compute.
Defined.

(** ** Unused classes *)

(** An entry of the dump that names a dynamic class of this device which is
    not wanted any more: its id, the parent it must have, and whether it is a
    client class. *)
Definition unwanted (major : Z) (desired : gset Z) (entry : Value) : option (Z * Z * bool) :=
  raw ← class_handle entry;
  if negb (Z.shiftr raw 16 =? major) then None
  else '(parent, client) ← dynamic_class_parent major (Z.land raw 65535);
       if bool_decide (raw ∈ desired) then None else Some (raw, parent, client).

Lemma scan_entry_Ok major desired st e st' :
  scan_entry major desired st e = Ok st' →
  match unwanted major desired e with
  | None => st' = st
  | Some (raw, parent, client) =>
    get_str "class" e = Some "htb" ∧ class_parent e = Some parent ∧ raw ∉ snd st ∧
    st' = (fst st ++ [mkUnused raw client], {[raw]} ∪ snd st)
  end.
Proof.
  unfold scan_entry, unwanted, class_handle. destruct (get_str "handle" e) as [h|]; cbn; [|congruence].
  destruct (parse_classid_text h) as [r|]; cbn; [|congruence].
  destruct (negb _); [congruence|]. destruct (dynamic_class_parent _ _) as [[p c]|]; cbn; [|congruence].
  destruct (bool_decide (r ∈ desired)); [congruence|].
  destruct (negb (bool_decide _)) eqn:Hk; [done|]. rewrite bind_Ok. intros (p' & Hp & H).
  apply ok_or_Ok in Hp. destruct (negb (p' =? p)) eqn:Hpe; [done|]. case_bool_decide as Hd; [done|].
  split_bools. apply Z.eqb_eq in Hpe as ->. simplify_eq. done.
Qed.

Lemma check_child_Ok desired ids parent child :
  check_child desired ids parent child = Ok tt ↔
  (class_parent child = Some (unused_raw parent) →
   ∃ r, class_handle child = Some r ∧ (r ∈ ids ∨ r ∈ desired)).
Proof.
  unfold check_child. destruct (bool_decide (class_parent _ = _)) eqn:Hc; split_bools; cbn; [|naive_solver].
  rewrite bind_Ok. setoid_rewrite ok_or_Ok. setoid_rewrite reject_if_Ok. split.
  - intros (r & Hr & Hb) _. exists r. split; [done|]. do 2 case_bool_decide; (done || auto).
  - intros H. destruct (H Hc) as (r & Hr & Hin). exists r. split; [done|].
    do 2 case_bool_decide; naive_solver.
Qed.

Definition scan_inv (major : Z) (desired : gset Z) (pre : list Value) (st : list UnusedPriorityClass * gset Z) : Prop :=
  (∀ r, r ∈ snd st ↔ r ∈ unused_raw <$> fst st) ∧ NoDup (unused_raw <$> fst st) ∧
  (∀ c, c ∈ fst st ↔ ∃ e p, e ∈ pre ∧ unwanted major desired e = Some (unused_raw c, p, client_parent c)) ∧
  (∀ e r p c, e ∈ pre → unwanted major desired e = Some (r, p, c) →
     get_str "class" e = Some "htb" ∧ class_parent e = Some p).

Lemma scan_loop major desired entries st :
  foldM (scan_entry major desired) ([], ∅) entries = Ok st → scan_inv major desired entries st.
Proof.
  apply (foldM_ind (scan_inv major desired)) with (pre := []).
  2:{ split_and!; simpl; [set_solver|constructor|set_solver|set_solver]. }
  intros pre s e s' (Hids & Hnd & Hel & Hown) He. apply scan_entry_Ok in He.
  destruct (unwanted major desired e) as [[[r p] c]|] eqn:Hu.
  - destruct He as (Hk & Hp & Hr & ->). split_and!; simpl.
    + intros r'. rewrite fmap_app. set_solver.
    + rewrite fmap_app, NoDup_app. split_and!; [done| |apply NoDup_singleton].
      intros x Hx Hx'. apply list_elem_of_singleton in Hx' as ->. by apply Hr, Hids.
    + intros c'. rewrite elem_of_app, Hel, list_elem_of_singleton. setoid_rewrite elem_of_app.
      setoid_rewrite list_elem_of_singleton. split.
      * intros [(e' & p' & ? & ?)| ->]; [eauto 10|]. exists e, p. eauto.
      * intros (e' & p' & [?| ->] & H'); [eauto|]. right. destruct c'. simpl in H'. congruence.
    + intros e' r' p' c' [Hin| ->%list_elem_of_singleton]%elem_of_app H'; [eauto|]. by simplify_eq.
  - subst s'. split_and!; [done|done| |].
    + intros c'. rewrite Hel. set_solver.
    + intros e' r' p' c' [Hin| ->%list_elem_of_singleton]%elem_of_app H'; [eauto|congruence].
Qed.

Lemma unused_leb_total a b : unused_leb a b = false → unused_leb b a = true.
Proof. unfold unused_leb. destruct (client_parent a), (client_parent b); try done; lia. Qed.

Lemma unused_leb_trans a b c : unused_leb a b = true → unused_leb b c = true → unused_leb a c = true.
Proof. unfold unused_leb. destruct (client_parent a), (client_parent b), (client_parent c); try done; lia. Qed.

(** A class of the client range hangs off the root, never off another client. *)
Lemma client_parent_of_root major minor p c :
  dynamic_class_parent major minor = Some (p, true) →
  dynamic_class_parent major (Z.land p 65535) = c → c = None.
Proof.
  unfold dynamic_class_parent. destruct (in_range CLIENT_FIRST CLIENT_LAST minor); [|by repeat case_match].
  intros [= <-] <-. replace (Z.land (Z.lor (u32_shl16 major) ROOT_MINOR) 65535) with ROOT_MINOR; [done|].
  unfold u32_shl16. change (2 ^ 32) with (2 ^ 16 * 2 ^ 16). rewrite Z.shiftl_mul_pow2, Z.mul_comm by lia.
  rewrite Z.mul_mod_distr_l, Z.mul_comm, <- Z.shiftl_mul_pow2 by lia.
  rewrite lor_shiftl by (unfold ROOT_MINOR; lia). symmetry. apply (land_low _ 16); unfold ROOT_MINOR; lia.
Qed.

Lemma unwanted_Some major desired e r p c : unwanted major desired e = Some (r, p, c) ↔
  class_handle e = Some r ∧ Z.shiftr r 16 = major ∧ r ∉ desired ∧
  dynamic_class_parent major (Z.land r 65535) = Some (p, c).
Proof.
  unfold unwanted. destruct (class_handle e) as [r'|]; cbn; [|naive_solver].
  destruct (Z.shiftr r' 16 =? major) eqn:Hs; cbn; [|split; [done|intros ([= ->] & ? & _); lia]].
  destruct (dynamic_class_parent major _) as [[p' c']|] eqn:Hd; cbn; [|naive_solver].
  apply Z.eqb_eq in Hs. case_bool_decide.
  - split; [done|by intros ([= <-] & _ & ? & _)].
  - split; [intros [= <- <- <-]; done|intros ([= <-] & _ & _ & Hd'); congruence].
Qed.

(** The order of removal: client classes last, each kind by class id. *)
Lemma unused_leb_spec a b : unused_leb a b = true →
  (client_parent a = true → client_parent b = true) ∧ (client_parent a = client_parent b → unused_raw a ≤ unused_raw b).
Proof. unfold unused_leb. destruct (client_parent a), (client_parent b); split; (done || lia). Qed.

(** Cleanup removes exactly the unwanted dynamic classes of the device,
    once each, in an order in which every class is removed before the client
    class it hangs off; each is an HTB class under the parent the numbering
    prescribes, and no class outside the agent's plan hangs off a removed
    client class. *)
Lemma unused_priority_classes_correct entries major desired out :
  unused_priority_classes (Array entries) major desired = Ok out →
  NoDup (unused_raw <$> out) ∧
  (∀ c, c ∈ out ↔ ∃ e p, e ∈ entries ∧ class_handle e = Some (unused_raw c) ∧
     Z.shiftr (unused_raw c) 16 = major ∧ unused_raw c ∉ desired ∧
     dynamic_class_parent major (Z.land (unused_raw c) 65535) = Some (p, client_parent c) ∧
     class_parent e = Some p ∧ get_str "class" e = Some "htb") ∧
  StronglySorted (λ a b, (client_parent a = true → client_parent b = true) ∧
                         (client_parent a = client_parent b → unused_raw a ≤ unused_raw b)) out ∧
  (∀ c e, c ∈ out → client_parent c = true → e ∈ entries → class_parent e = Some (unused_raw c) →
     ∃ r, class_handle e = Some r ∧
       (r ∈ desired ∨ ∃ c', c' ∈ out ∧ unused_raw c' = r ∧ client_parent c' = false)).
Proof.
  unfold unused_priority_classes. cbn [as_array ok_or]. rewrite bind_Ok.
  intros (es & [= <-] & H). apply bind_Ok in H as (st & Hst & H). apply check_seq in H as [Hch [= <-]].
  apply scan_loop in Hst as (Hids & Hnd & Hel & Hown). rewrite eachM_Ok in Hch.
  rewrite Forall_forall in Hch. setoid_rewrite eachM_Ok in Hch. setoid_rewrite Forall_forall in Hch.
  setoid_rewrite check_child_Ok in Hch. setoid_rewrite elem_of_sort_by. split_and!.
  - by rewrite sort_by_perm.
  - intros c. rewrite Hel. split; intros (e & p & He & Hu).
    + destruct (Hown _ _ _ _ He Hu). apply unwanted_Some in Hu. exists e, p. naive_solver.
    + exists e, p. rewrite unwanted_Some. naive_solver.
  - eapply StronglySorted_impl; [apply unused_leb_spec|].
    apply sort_by_sorted; [apply unused_leb_total|apply unused_leb_trans].
  - intros c e Hc Hcp He Hpar. destruct (Hch c) with e as (r & Hr & Hin); [|done|done|].
    { apply list_elem_of_In, filter_In. by rewrite <- list_elem_of_In. }
    exists r. split; [done|]. destruct Hin as [Hin|]; [|by left]. right.
    apply Hids, list_elem_of_fmap in Hin as (c' & -> & Hc'). exists c'. split_and!; [done|done|].
    destruct (client_parent c') eqn:Hcp'; [|done]. exfalso.
    apply Hel in Hc' as (e' & p & He' & Hu). rewrite Hcp', unwanted_Some in Hu.
    assert (unwanted major desired e = Some (unused_raw c', p, true)) as Hu' by (apply unwanted_Some; naive_solver).
    destruct (Hown _ _ _ _ He Hu') as [_ Hp]. rewrite Hpar in Hp. injection Hp as <-.
    apply Hel in Hc as (e2 & p2 & _ & Hu2). rewrite unwanted_Some in Hu2.
    destruct Hu as (_ & _ & _ & Hu). destruct Hu2 as (_ & _ & _ & Hu2).
    by pose proof (client_parent_of_root _ _ _ _ Hu Hu2).
Qed.

Lemma unused_priority_classes_correct_witness :
  let class h p := Object [("class", Text "htb"); ("handle", Text h); ("parent", Text p)] in
  let entries := [class "51:100" "51:1"; class "51:200" "51:100"; class "51:101" "51:1"] in
  ∃ out, unused_priority_classes (Array entries) 81 {[81 * 65536 + 257]} = Ok out ∧
    unused_raw <$> out = [81 * 65536 + 512; 81 * 65536 + 256] ∧
    NoDup (unused_raw <$> out).
Proof.
  intros class entries. exists [mkUnused 5308928 false; mkUnused 5308672 true].
  split; [vm_compute; reflexivity|]. split; [vm_compute; reflexivity|].
  apply (unused_priority_classes_correct entries 81 {[81 * 65536 + 257]}). vm_compute. reflexivity.
Defined.

(** Text without the separator is not split before it. *)


Lemma hex_text_bytes n : Forall (λ b, 48 ≤ b ≤ 57 ∨ 97 ≤ b ≤ 102) (str_bytes (hex_text n)).
Proof.
  unfold hex_text. assert (Forall (λ b, 48 ≤ b ≤ 57 ∨ 97 ≤ b ≤ 102) (str_bytes EmptyString)) as H by constructor.
  revert n H. generalize 16%nat as fuel, EmptyString as s. intros fuel.
  induction fuel as [|fuel IH]; intros s n Hs; cbn [hex_text_aux]; [done|].
  pose proof (Z.mod_pos_bound n 16 ltac:(lia)).
  assert (Forall (λ b, 48 ≤ b ≤ 57 ∨ 97 ≤ b ≤ 102) (str_bytes (String (hex_digit (n mod 16)) s))).
  { cbn [str_bytes]. constructor; [|done]. rewrite hex_digit_bytes by done. destruct (n mod 16 <? 10) eqn:?; lia. }
  destruct (n <? 16); [done|by apply IH].
Qed.

(** A hexadecimal number never starts with the prefix that is stripped. *)
Lemma strip_0x_hex_text n : strip_0x (hex_text n) = hex_text n.
Proof.
  pose proof (hex_text_bytes n) as H. destruct (hex_text n) as [|a [|b s]]; [done..|].
  cbn [str_bytes] in H. apply Forall_cons in H as [_ [Hb _]%Forall_cons]. cbn [strip_0x].
  replace (byte_val b =? 120) with false by lia. by rewrite andb_false_r.
Qed.

(** A leaf class id is a 32-bit number that determines the device and the
    class, and the textual form handed to tc reads back to it. *)
Lemma leaf_text major minor c :
  leaf major minor = Ok c →
  is_u32 (raw c) ∧ Z.shiftr (raw c) 16 = major ∧ Z.land (raw c) 65535 = minor ∧
  parse_classid_text (class_to_string c) = Some (raw c).
Proof.
  intros (Hmaj & Hmin%leaf_minor_u16 & Hraw)%leaf_Ok. unfold in_width.
  assert (0 ≤ major < 2 ^ 15) by (unfold DOWNLOAD_MAJOR, UPLOAD_MAJOR in Hmaj; lia).
  pose proof (shiftr_high major 16 minor ltac:(lia) Hmin) as Hhi.
  pose proof (land_low major 16 minor ltac:(lia) Hmin) as Hlo. change (2 ^ 16 - 1) with 65535 in Hlo.
  split_and!; [lia|lia|by rewrite Hraw|by rewrite Hraw|]. unfold parse_classid_text, class_to_string.
  rewrite split_once_app; [|eapply Forall_impl; [apply hex_text_bytes|]; simpl; lia|done].
  cbn [mbind option_bind]. rewrite !strip_0x_hex_text, Hraw, Hhi, Hlo.
  rewrite from_hex_text by (unfold u32_max, in_width; lia). cbn [mbind option_bind].
  rewrite from_hex_text by (unfold u32_max, in_width; lia). cbn [mbind option_bind].
  unfold u32_checked_add, u32_shl16. rewrite Z.shiftl_mul_pow2, Z.mod_small by lia.
  rewrite (proj2 (Z.ltb_ge _ _)); [done|unfold u32_max; lia].
Qed.

Lemma leaf_text_witness :
  leaf 81 4096 = Ok (mkClassId 5312512) ∧
  class_to_string (mkClassId 5312512) = "51:1000" ∧
  parse_classid_text (class_to_string (mkClassId 5312512)) = Some 5312512.
Proof.
  split; [by vm_compute|]. split; [by vm_compute|]. apply (leaf_text 81 4096). by vm_compute.
Defined.
