(* ===== verification/Schedule.v ===== *)
(** When a policy is in force (src/crates/agent/src/policy/schedule.rs) and how
    long a learned endpoint block may live
    (src/crates/agent/src/policy/endpoint_block.rs). *)

From S2P Require Import Prelude PolicyWire.

(** ** The state of a policy at an instant *)

Inductive ScheduleState := Active | Inactive | Expired | ClockInvalid.
#[export] Instance ScheduleState_eq_dec : EqDecision ScheduleState.
Proof. solve_decision. Defined.

(** The earliest wall-clock time the agent believes. *)
Definition MIN_CLOCK_MS : Z := 1500000000000.

Definition clock_ok (now : option Z) : option Z :=
  match now with Some t => if MIN_CLOCK_MS <=? t then Some t else None | None => None end.

Definition covers (now : Z) (i : PolicyScheduleInterval) : bool := ((start_ms i <=? now) && (now <? end_ms i))%bool.

(** [schedule_intervals.iter().find(|entry| entry.policy_id == id)]. *)
Definition find_intervals (si : list PolicyScheduleIntervals) (pid : string) : option PolicyScheduleIntervals :=
  List.find (λ e, String.eqb (policy_id e) pid) si.

Definition evaluate (p : PolicySnapshotEntry) (si : list PolicyScheduleIntervals) (now_ms : option Z)
    (valid_until : Z) : ScheduleState :=
  match schedule (spec p) with
  | None => Active
  | Some _ =>
    match clock_ok now_ms with
    | None => ClockInvalid
    | Some now =>
      if valid_until <=? now then Expired
      else match find_intervals si (id p) with
           | Some e => if existsb (covers now) (intervals e) then Active else Inactive
           | None => Inactive
           end
    end
  end.

(** ** Endpoint blocks *)

Definition CACHE_TTL_MS : Z := 5 * 60 * 1000.

(** A policy on applications or categories that names the client. *)
Definition names_application (p : PolicySnapshotEntry) : bool :=
  (negb (no_selector (applications (selectors (spec p)))) || negb (no_selector (categories (selectors (spec p)))))%bool.
Definition names_client (p : PolicySnapshotEntry) (client_mac : string) : bool :=
  existsb (λ m, eq_ignore_ascii_case m client_mac) (clients (selectors (spec p))).

(** The boundaries of a list of intervals. *)
Definition boundaries (l : list PolicyScheduleInterval) : list Z := concat ((λ i, [start_ms i; end_ms i]) <$> l).

(** The body of the loop over the policies a command cites. *)
Definition cited_policy (f : PolicySnapshotFrame) (client_mac : string) (now_ms : Z) (expiry : Z) (pid : string)
    : result unit Z :=
  p ← ok_or (List.find (λ p, String.eqb (id p) pid) (policies f)) tt;
  if (negb (enabled (spec p)) || negb (bool_decide (kind (action (spec p)) = Block))
      || (no_selector (applications (selectors (spec p))) && no_selector (categories (selectors (spec p))))
      || negb (names_client p client_mac))%bool
  then Err tt
  else match schedule (spec p) with
       | None => Ok expiry
       | Some _ =>
         e ← ok_or (find_intervals (schedule_intervals f) pid) tt;
         i ← ok_or (List.find (covers now_ms) (intervals e)) tt;
         Ok (Z.min expiry (end_ms i))
       end.

(** The policies whose schedule may change the verdict. *)
Definition scheduled_rival (client_mac : string) (p : PolicySnapshotEntry) : bool :=
  (enabled (spec p) && bool_decide (is_Some (schedule (spec p))) && names_application p && names_client p client_mac)%bool.

Definition rival_policy (f : PolicySnapshotFrame) (now_ms : Z) (expiry : Z) (p : PolicySnapshotEntry) : result unit Z :=
  e ← ok_or (find_intervals (schedule_intervals f) (id p)) tt;
  Ok (foldl Z.min expiry (List.filter (λ b, now_ms <? b) (boundaries (intervals e)))).

Definition block_expires_at_ms (snapshot : PolicyWireFrame) (policy_ids : list string) (client_mac : string)
    (issued_at_ms now_ms : Z) : option Z :=
  match snapshot with
  | PolicySnapshot f =>
    if (no_selector policy_ids || (issued_at_ms <? 0) || (now_ms <? 0))%bool then None
    else
      expiry ← ok (
        expiry ← foldM (cited_policy f client_mac now_ms)
          (Z.min (i64_saturating_add issued_at_ms CACHE_TTL_MS) (valid_until_ms f)) policy_ids;
        foldM (rival_policy f now_ms) expiry (List.filter (scheduled_rival client_mac) (policies f)));
      if now_ms <? expiry then Some expiry else None
  | _ => None
  end.

(** ** Proofs *)

Lemma foldl_min e l :
  foldl Z.min e l ≤ e ∧ (∀ b, b ∈ l → foldl Z.min e l ≤ b) ∧ (foldl Z.min e l = e ∨ foldl Z.min e l ∈ l).
Proof.
  revert e. induction l as [|b l IH]; intros e; simpl; [split_and!; [lia|set_solver|by left]|].
  destruct (IH (Z.min e b)) as (Hle & Hall & Hor). split_and!; [lia| |].
  - intros b'. rewrite elem_of_cons. intros [->|]; [lia|auto].
  - destruct Hor as [Heq|]; [|right; set_solver]. destruct (Z.min_spec e b) as [[_ Hm]|[_ Hm]]; rewrite Hm in *.
    + by left.
    + right. rewrite Heq. set_solver.
Qed.

Lemma elem_of_boundaries b l : b ∈ boundaries l ↔ ∃ i, i ∈ l ∧ (b = start_ms i ∨ b = end_ms i).
Proof. unfold boundaries. induction l as [|i l IH]; cbn; [set_solver|]. rewrite !elem_of_cons, IH. set_solver. Qed.

(** A policy that lets a command block the client's application traffic. *)
Definition authorises (client_mac : string) (p : PolicySnapshotEntry) : Prop :=
  enabled (spec p) = true ∧ kind (action (spec p)) = Block ∧ names_application p = true ∧ names_client p client_mac = true.

(** A transition of the schedule of [p] after [now]. *)
Definition transition (f : PolicySnapshotFrame) (now : Z) (p : PolicySnapshotEntry) (b : Z) : Prop :=
  is_Some (schedule (spec p)) ∧ ∃ e, find_intervals (schedule_intervals f) (id p) = Some e ∧
    b ∈ boundaries (intervals e) ∧ now < b.

Section lease.
Context (f : PolicySnapshotFrame) (client_mac : string) (now : Z).

Lemma cited_policy_Ok expiry pid e :
  cited_policy f client_mac now expiry pid = Ok e →
  ∃ p, List.find (λ p, String.eqb (id p) pid) (policies f) = Some p ∧ authorises client_mac p ∧ e ≤ expiry ∧
    (e = expiry ∨ transition f now p e) ∧
    (schedule (spec p) = None ∨ ∃ es i, find_intervals (schedule_intervals f) (id p) = Some es ∧
       i ∈ intervals es ∧ start_ms i ≤ now < end_ms i ∧ e ≤ end_ms i).
Proof.
  unfold cited_policy. rewrite bind_Ok. intros (p & Hp%ok_or_Ok & H). exists p. split; [done|].
  assert (id p = pid) as <- by (apply find_Some_elem in Hp as [_ Hp]; by apply String.eqb_eq).
  destruct (_ || _)%bool eqn:Hb; [done|]. split_bools.
  assert (authorises client_mac p).
  { split_and!; [done..| |done]. unfold names_application. rewrite <- negb_andb.
    by match goal with Ha : (_ && _)%bool = false |- _ => rewrite Ha end. }
  destruct (schedule (spec p)) eqn:Hs.
  - apply bind_Ok in H as (es & Hes%ok_or_Ok & H). apply bind_Ok in H as (i & Hi%ok_or_Ok & [= <-]).
    apply find_Some_elem in Hi as [Hi Hc]. unfold covers in Hc.
    assert (start_ms i ≤ now < end_ms i) by lia. split_and!; [done|lia| |].
    + destruct (Z.min_spec expiry (end_ms i)) as [[_ ->]|[_ ->]]; [by left|right].
      split; [rewrite Hs; eauto|]. exists es. rewrite elem_of_boundaries. split_and!; [done| |lia]. eauto.
    + right. exists es, i. split_and!; (done || lia).
  - injection H as <-. split_and!; [done|lia|by left|by left].
Qed.

Lemma cited_loop ids expiry e :
  foldM (cited_policy f client_mac now) expiry ids = Ok e →
  e ≤ expiry ∧ (e = expiry ∨ ∃ p, p ∈ policies f ∧ transition f now p e) ∧
  ∀ pid, pid ∈ ids → ∃ p, List.find (λ p, String.eqb (id p) pid) (policies f) = Some p ∧ authorises client_mac p ∧
    (schedule (spec p) = None ∨ ∃ es i, find_intervals (schedule_intervals f) (id p) = Some es ∧
       i ∈ intervals es ∧ start_ms i ≤ now < end_ms i ∧ e ≤ end_ms i).
Proof.
  revert expiry. induction ids as [|pid ids IH]; intros expiry H; cbn [foldM] in H.
  { injection H as <-. split_and!; [lia|by left|set_solver]. }
  apply bind_Ok in H as (e1 & H1 & H). apply IH in H as (Hle & Hor & Hall).
  apply cited_policy_Ok in H1 as (p & Hp & Hauth & Hle1 & Hor1 & Hsch). split_and!; [lia| |].
  - destruct Hor as [->|]; [|by right]. destruct Hor1 as [|]; [by left|right].
    exists p. split; [by apply find_Some_elem in Hp as [? _]|done].
  - intros pid' [->|Hin]%elem_of_cons; [|eauto]. exists p. split_and!; [done..|].
    destruct Hsch as [|(es & i & ? & ? & ? & ?)]; [by left|right; exists es, i; split_and!; (done || lia)].
Qed.

Lemma rival_loop ps expiry e :
  foldM (rival_policy f now) expiry ps = Ok e →
  e ≤ expiry ∧ (∀ p, p ∈ ps → ∃ es, find_intervals (schedule_intervals f) (id p) = Some es ∧
    ∀ b, b ∈ boundaries (intervals es) → now < b → e ≤ b) ∧
  (e = expiry ∨ ∃ p es, p ∈ ps ∧ find_intervals (schedule_intervals f) (id p) = Some es ∧
    e ∈ boundaries (intervals es) ∧ now < e).
Proof.
  revert expiry. induction ps as [|p ps IH]; intros expiry H; cbn [foldM] in H.
  { injection H as <-. split_and!; [lia|set_solver|by left]. }
  apply bind_Ok in H as (e1 & H1 & H). apply IH in H as (Hle & Hall & Hor).
  unfold rival_policy in H1. apply bind_Ok in H1 as (es & Hes%ok_or_Ok & [= <-]).
  destruct (foldl_min expiry (List.filter (λ b, now <? b) (boundaries (intervals es)))) as (Hle1 & Hall1 & Hor1).
  setoid_rewrite elem_of_filterb in Hall1. rewrite elem_of_filterb in Hor1. split_and!; [lia| |].
  - intros p' [->|Hin]%elem_of_cons; [|eauto]. exists es. split; [done|]. intros b Hb Hlt.
    etrans; [exact Hle|]. apply Hall1. split; [done|lia].
  - destruct Hor as [->|(p' & es' & ? & ? & ? & ?)]; [|right; exists p', es'; set_solver].
    destruct Hor1 as [|[Hb Hlt]]; [by left|]. right. exists p, es. split_and!; [set_solver|done|done|lia].
Qed.

(** Without a boundary in between, nothing changes. *)
Lemma evaluate_stable p es t vu :
  find_intervals (schedule_intervals f) (id p) = Some es →
  (∀ b, b ∈ boundaries (intervals es) → now < b → t < b) →
  MIN_CLOCK_MS ≤ now ≤ t → t < vu →
  evaluate p (schedule_intervals f) (Some t) vu = evaluate p (schedule_intervals f) (Some now) vu.
Proof.
  intros Hes Hb Hnow Ht. unfold evaluate, clock_ok. destruct (schedule (spec p)); [|done].
  do 2 rewrite (proj2 (Z.leb_le MIN_CLOCK_MS _)) by lia. do 2 rewrite (proj2 (Z.leb_gt vu _)) by lia. rewrite Hes.
  replace (existsb (covers t) (intervals es)) with (existsb (covers now) (intervals es)); [done|].
  assert (∀ i, i ∈ intervals es → covers now i = covers t i) as Heq.
  { intros i Hi. unfold covers.
    pose proof (Hb (start_ms i) ltac:(apply elem_of_boundaries; eauto)).
    pose proof (Hb (end_ms i) ltac:(apply elem_of_boundaries; eauto)). lia. }
  clear -Heq. induction (intervals es) as [|i l IH]; [done|]. simpl.
  rewrite (Heq i) by set_solver. f_equal. apply IH. set_solver.
Qed.
End lease.

(** A learned endpoint block is short and faithful to the schedule: its
    expiry lies after now and within both the snapshot's validity and the
    cache lifetime; every cited policy of the snapshot authorises the block
    and stays active until then; no enabled scheduled policy on this client's
    applications changes its state before then; and the expiry is one of the
    deadlines, so the lease is not shorter than it has to be. *)
Lemma endpoint_block_lease f ids client_mac issued now e :
  block_expires_at_ms (PolicySnapshot f) ids client_mac issued now = Some e →
  ids ≠ [] ∧ now < e ∧ e ≤ valid_until_ms f ∧ e ≤ issued + CACHE_TTL_MS ∧
  (∀ pid, pid ∈ ids → ∃ p, List.find (λ p, String.eqb (id p) pid) (policies f) = Some p ∧ authorises client_mac p ∧
     ∀ t, MIN_CLOCK_MS ≤ now ≤ t → t < e → evaluate p (schedule_intervals f) (Some t) (valid_until_ms f) = Active) ∧
  (∀ p, p ∈ policies f → scheduled_rival client_mac p = true →
     ∀ t, MIN_CLOCK_MS ≤ now ≤ t → t < e →
       evaluate p (schedule_intervals f) (Some t) (valid_until_ms f) =
       evaluate p (schedule_intervals f) (Some now) (valid_until_ms f)) ∧
  (e = i64_saturating_add issued CACHE_TTL_MS ∨ e = valid_until_ms f ∨ ∃ p, p ∈ policies f ∧ transition f now p e).
Proof.
  unfold block_expires_at_ms. destruct (_ || _)%bool eqn:Hb; [done|]. split_bools.
  intros Hx. destruct (ok _) as [e'|] eqn:He; cbn in Hx; [|done]. apply ok_Some, bind_Ok in He as (e1 & Hc1 & Hc2).
  destruct (now <? e') eqn:Hlt; [|done]. injection Hx as ->.
  apply cited_loop in Hc1 as (Hle1 & Hor1 & Hcited). apply rival_loop in Hc2 as (Hle2 & Hriv & Hor2).
  assert (i64_saturating_add issued CACHE_TTL_MS ≤ issued + CACHE_TTL_MS).
  { unfold i64_saturating_add, clamp, i64_min, i64_max, CACHE_TTL_MS. lia. }
  split_and!; [by intros ->|lia|lia|lia| | |].
  - intros pid Hpid. destruct (Hcited pid Hpid) as (p & Hp & Hauth & Hs). exists p. split_and!; [done..|].
    intros t Ht Hte. unfold evaluate. destruct Hs as [->|(es & i & Hes & Hi & Hcov & Hend)]; [done|].
    destruct (schedule (spec p)); [|done]. unfold clock_ok. rewrite (proj2 (Z.leb_le _ _)) by lia.
    rewrite (proj2 (Z.leb_gt _ _)) by lia. rewrite Hes, (proj2 (existsb_exists _ _)); [done|].
    exists i. rewrite <- list_elem_of_In. unfold covers. split; [done|lia].
  - intros p Hp Hr t Ht Hte. destruct (Hriv p) as (es & Hes & Hall); [by apply elem_of_filterb|].
    eapply evaluate_stable; [done| |done|lia]. intros b Hb Hnb. specialize (Hall b Hb Hnb). lia.
  - destruct Hor2 as [->|(p & es & Hp%elem_of_filterb & Hes & Hb & Hn)].
    + destruct Hor1 as [->|]; [|by right; right]. destruct (Z.min_spec (i64_saturating_add issued CACHE_TTL_MS)
        (valid_until_ms f)) as [[_ ->]|[_ ->]]; eauto.
    + right; right. exists p. destruct Hp as [Hp Hr]. split; [done|]. unfold scheduled_rival in Hr. split_bools.
      split; [done|]. eauto.
Qed.

Lemma endpoint_block_lease_witness :
  let block := mkEntry "b" (mkSpec 1 "gw" "n" "" true 10 (mkSelectors ["02:BB:CC:DD:EE:0F"] ["app"] [] f64_0_80)
    (mkNetwork "internet" "both") (mkAction Block None None) (Some (mkSchedule "UTC" []))) in
  let f := mkSnapshot 1 "gw" "e" 1 1 1800000000000 1800000900000 "c" [block]
    [mkIntervals "b" [mkInterval 1800000000000 1800000060000]] in
  block_expires_at_ms (PolicySnapshot f) ["b"] "02:bb:cc:dd:ee:0f" 1800000010000 1800000010500 = Some 1800000060000 ∧
  evaluate block (schedule_intervals f) (Some 1800000059999) (valid_until_ms f) = Active.
Proof.
  intros block f. assert (block_expires_at_ms (PolicySnapshot f) ["b"] "02:bb:cc:dd:ee:0f" 1800000010000 1800000010500
    = Some 1800000060000) as He by (vm_compute; reflexivity). split; [exact He|].
  destruct (endpoint_block_lease _ _ _ _ _ _ He) as (_ & _ & _ & _ & Hc & _).
  destruct (Hc "b") as (p & Hp & _ & Ht); [set_solver|]. injection Hp as <-.
  apply Ht; unfold MIN_CLOCK_MS; lia.
Defined.
