(* ===== verification/Selection.v ===== *)
(** Policy selection of the priority backend
    (src/crates/agent/src/policy/priority_selection.rs): from an accepted
    snapshot and the clock to the rates, blocks and client identities that are
    in force, and the next instant at which they may change. *)

From S2P Require Import Prelude PolicyWire Topology Identity Schedule.

Record TotalRates := mkTotalRates {
  total_upload_bps : option Z;
  total_download_bps : option Z;
  total_policy_ids : gset string;
}.

Record ApplicationRates := mkApplicationRates {
  app_mac : string;
  app_policy_id : string;
  app_upload_bps : option Z;
  app_download_bps : option Z;
}.

Record PrioritySelection := mkSelection {
  totals : gmap string TotalRates;
  application_limits : list ApplicationRates;
  sel_clients : gset string;
  blocked_macs : gset string;
  sel_results : list PolicyResult;
  next_transition_ms : option Z;
}.

Inductive SelectionError :=
| SnapshotRejected (e : string)
| Refused (reason : string)
| BadMac (e : MacAddressParseError).

(** ** The shape of a policy *)

Definition on_application (p : PolicySnapshotEntry) : bool := names_application p.
Definition has_clients (p : PolicySnapshotEntry) : bool := negb (no_selector (PolicyWire.clients (selectors (spec p)))).
Definition is_kind (k : PolicyActionKind) (p : PolicySnapshotEntry) : bool := bool_decide (kind (action (spec p)) = k).
Definition in_internet (p : PolicySnapshotEntry) : bool := String.eqb (scope (PolicyWire.network (spec p))) "internet".

(** [application_limit], [application_block] and [application_allow]. *)
Definition application_policy (k : PolicyActionKind) (p : PolicySnapshotEntry) : bool :=
  (is_kind k p && in_internet p && has_clients p && on_application p)%bool.

Definition internet_decision (p : PolicySnapshotEntry) : bool :=
  (in_internet p && String.eqb (direction (PolicyWire.network (spec p))) "both" && has_clients p
   && no_selector (applications (selectors (spec p))) && no_selector (categories (selectors (spec p)))
   && (is_kind Block p || is_kind Allow p))%bool.

Definition client_total (p : PolicySnapshotEntry) : bool := is_client_total_spec (spec p).

(** ** The selection loop *)

(** The state of the loop: the selection so far and [block_decided]. *)
Record SelState := mkSelState { sel : PrioritySelection; block_decided : gset string }.

Definition min_rate (a b : option Z) : option Z :=
  match a, b with Some a, Some b => Some (Z.min a b) | a, None => a | None, b => b end.

Definition add_client (m : string) (s : PrioritySelection) : PrioritySelection :=
  mkSelection (totals s) (application_limits s) ({[m]} ∪ sel_clients s) (blocked_macs s) (sel_results s)
    (next_transition_ms s).
Definition add_total (m : string) (p : PolicySnapshotEntry) (s : PrioritySelection) : PrioritySelection :=
  let r := default (mkTotalRates None None ∅) (totals s !! m) in
  mkSelection
    (<[m := mkTotalRates (min_rate (total_upload_bps r) (action_upload_bps (action (spec p))))
                         (min_rate (total_download_bps r) (action_download_bps (action (spec p))))
                         ({[id p]} ∪ total_policy_ids r)]> (totals s))
    (application_limits s) (sel_clients s) (blocked_macs s) (sel_results s) (next_transition_ms s).
Definition add_limit (m : string) (p : PolicySnapshotEntry) (s : PrioritySelection) : PrioritySelection :=
  mkSelection (totals s)
    (application_limits s ++ [mkApplicationRates m (id p) (action_upload_bps (action (spec p)))
                                (action_download_bps (action (spec p)))])
    (sel_clients s) (blocked_macs s) (sel_results s) (next_transition_ms s).
Definition add_blocked (m : string) (s : PrioritySelection) : PrioritySelection :=
  mkSelection (totals s) (application_limits s) (sel_clients s) ({[m]} ∪ blocked_macs s) (sel_results s)
    (next_transition_ms s).
Definition push_result (r : PolicyResult) (s : PrioritySelection) : PrioritySelection :=
  mkSelection (totals s) (application_limits s) (sel_clients s) (blocked_macs s) (sel_results s ++ [r])
    (next_transition_ms s).
Definition note_transition (s : PrioritySelection) (t : Z) : PrioritySelection :=
  mkSelection (totals s) (application_limits s) (sel_clients s) (blocked_macs s) (sel_results s)
    (Some (match next_transition_ms s with None => t | Some old => Z.min old t end)).

(** What an active policy does to one of its clients. *)
Definition apply_client (p : PolicySnapshotEntry) (st : SelState) (m : string) : SelState :=
  if client_total p then mkSelState (add_total m p (add_client m (sel st))) (block_decided st)
  else if application_policy Limit p then mkSelState (add_limit m p (add_client m (sel st))) (block_decided st)
  else if application_policy Block p then mkSelState (add_client m (sel st)) (block_decided st)
  else if application_policy Allow p then mkSelState (add_client m (sel st)) (block_decided st)
  else
    let new := negb (bool_decide (m ∈ block_decided st)) in
    let decided := {[m]} ∪ block_decided st in
    if (new && is_kind Block p)%bool then mkSelState (add_blocked m (add_client m (sel st))) decided
    else mkSelState (sel st) decided.

Definition client_mac (text : string) : result SelectionError string :=
  m ← map_err BadMac (mac_from_str text);
  if negb (is_unicast m) then Err (Refused "priority_identity_invalid")
  else Ok (mac_to_string m).

Definition select_client (p : PolicySnapshotEntry) (st : SelState) (text : string) : result SelectionError SelState :=
  m ← client_mac text; Ok (apply_client p st m).

(** Recording the transitions of a scheduled policy. *)
Definition note_schedule (f : PolicySnapshotFrame) (now_ms : option Z) (p : PolicySnapshotEntry) (s : PrioritySelection)
    : result SelectionError PrioritySelection :=
  match schedule (spec p) with
  | None => Ok s
  | Some _ =>
    e ← ok_or (find_intervals (schedule_intervals f) (id p)) (Refused "schedule_window_missing");
    now ← ok_or (clock_ok now_ms) (Refused "clock_invalid");
    Ok (foldl note_transition s (List.filter (λ t, now <? t) (boundaries (intervals e) ++ [valid_until_ms f])))
  end.

Definition plain_result (p : PolicySnapshotEntry) (st : PolicyResultStatus) : PolicyResult :=
  mkResult (id p) st None None None.

Definition expired_result (p : PolicySnapshotEntry) : PolicyResult :=
  mkResult (id p) Failed (Some "schedule_expired") (Some "the Collector schedule window has expired") None.

Definition select_policy (f : PolicySnapshotFrame) (now_ms : option Z) (st : SelState) (p : PolicySnapshotEntry)
    : result SelectionError SelState :=
  let push r st := mkSelState (push_result r (sel st)) (block_decided st) in
  if negb (enabled (spec p)) then Ok (push (plain_result p Disabled) st)
  else if (on_application p && (is_kind Block p || is_kind Allow p || is_kind Limit p) && negb (has_clients p))%bool
  then Err (Refused "application_client_selector_required")
  else if (negb (client_total p) && negb (internet_decision p) && negb (application_policy Limit p)
           && negb (application_policy Block p) && negb (application_policy Allow p))%bool
  then Err (Refused "priority_policy_shape_not_verified")
  else
    s ← note_schedule f now_ms p (sel st);
    let st := mkSelState s (block_decided st) in
    match evaluate p (schedule_intervals f) now_ms (valid_until_ms f) with
    | ClockInvalid => Err (Refused "clock_invalid")
    | Expired => Ok (push (expired_result p) st)
    | Inactive => Ok (push (plain_result p Applied) st)
    | Active =>
      st ← foldM (select_client p) st (PolicyWire.clients (selectors (spec p)));
      Ok (push (plain_result p Applied) st)
    end.

(** Policies in order of priority, ties by id. *)
Definition policy_leb (a b : PolicySnapshotEntry) : bool :=
  if priority (spec a) =? priority (spec b) then str_leb (id a) (id b)
  else priority (spec a) <? priority (spec b).

Definition app_rates_leb (a b : ApplicationRates) : bool :=
  if String.eqb (app_mac a) (app_mac b) then str_leb (app_policy_id a) (app_policy_id b)
  else str_leb (app_mac a) (app_mac b).

Definition result_leb (a b : PolicyResult) : bool := str_leb (result_policy_id a) (result_policy_id b).

Definition empty_selection : PrioritySelection := mkSelection ∅ [] ∅ ∅ [] None.

Definition from_snapshot `{PolicyCodec} (snapshot : PolicyWireFrame) (gateway : string) (now_ms : option Z)
    : result SelectionError PrioritySelection :=
  _ ← map_err SnapshotRejected (validate snapshot);
  match snapshot with
  | PolicySnapshot f =>
    if negb (String.eqb (snap_gateway_id f) gateway) then Err (Refused "priority_gateway_mismatch")
    else
      st ← foldM (select_policy f now_ms) (mkSelState empty_selection ∅) (sort_by policy_leb (policies f));
      let s := sel st in
      if 256 <? Z.of_nat (size (sel_clients s)) then Err (Refused "priority_class_slots_exhausted")
      else Ok (mkSelection (totals s) (sort_by app_rates_leb (application_limits s)) (sel_clients s)
                 (blocked_macs s) (sort_by result_leb (sel_results s)) (next_transition_ms s))
  | _ => Err (Refused "priority_snapshot_required")
  end.

(** ** What the loop computes *)

(** A policy that is enabled and active at [now]. *)
Definition in_force (f : PolicySnapshotFrame) (now : option Z) (p : PolicySnapshotEntry) : bool :=
  (enabled (spec p) && bool_decide (evaluate p (schedule_intervals f) now (valid_until_ms f) = Active))%bool.

(** The canonical MACs a policy names. *)
Definition targets (p : PolicySnapshotEntry) (m : string) : Prop :=
  ∃ text, text ∈ PolicyWire.clients (selectors (spec p)) ∧ client_mac text = Ok m.

Definition shape_ok (p : PolicySnapshotEntry) : Prop :=
  client_total p = true ∨ internet_decision p = true ∨ application_policy Limit p = true ∨
  application_policy Block p = true ∨ application_policy Allow p = true.

(** The status reported for a policy. *)
Definition result_of (f : PolicySnapshotFrame) (now : option Z) (p : PolicySnapshotEntry) : PolicyResult :=
  if negb (enabled (spec p)) then plain_result p Disabled
  else match evaluate p (schedule_intervals f) now (valid_until_ms f) with
       | Expired => expired_result p
       | _ => plain_result p Applied
       end.

(** The instants after now at which a scheduled policy may change. *)
Definition transitions (f : PolicySnapshotFrame) (now : option Z) (p : PolicySnapshotEntry) : list Z :=
  match enabled (spec p), schedule (spec p), find_intervals (schedule_intervals f) (id p), now with
  | true, Some _, Some e, Some now =>
    List.filter (λ t, now <? t) (boundaries (intervals e) ++ [valid_until_ms f])
  | _, _, _, _ => []
  end.

(** The decisions of a policy, in the order in which they are taken. *)
Definition decisions (f : PolicySnapshotFrame) (now : option Z) (p : PolicySnapshotEntry) : list (PolicySnapshotEntry * string) :=
  if in_force f now p then
    match mapR client_mac (PolicyWire.clients (selectors (spec p))) with Ok ms => (p,.) <$> ms | Err _ => [] end
  else [].

Definition take_decision (st : SelState) (d : PolicySnapshotEntry * string) : SelState := apply_client (fst d) st (snd d).

(** The part of the state that decisions change. *)
Definition core (st : SelState) : SelState :=
  mkSelState (mkSelection (totals (sel st)) (application_limits (sel st)) (sel_clients (sel st))
    (blocked_macs (sel st)) [] None) (block_decided st).

Definition next_of (o : option Z) (t : Z) : option Z := Some (match o with None => t | Some old => Z.min old t end).

Lemma core_apply p st m : core (apply_client p st m) = apply_client p (core st) m.
Proof. unfold apply_client, core. cbn [sel block_decided]. by repeat case_match. Qed.

Lemma apply_rest p st m :
  sel_results (sel (apply_client p st m)) = sel_results (sel st) ∧
  next_transition_ms (sel (apply_client p st m)) = next_transition_ms (sel st).
Proof. unfold apply_client. by repeat case_match. Qed.

Lemma select_clients_Ok p texts st st' :
  foldM (select_client p) st texts = Ok st' →
  ∃ ms, mapR client_mac texts = Ok ms ∧ core st' = foldl take_decision (core st) ((p,.) <$> ms) ∧
    sel_results (sel st') = sel_results (sel st) ∧ next_transition_ms (sel st') = next_transition_ms (sel st).
Proof.
  revert st. induction texts as [|text texts IH]; intros st H; cbn [foldM] in H.
  { injection H as <-. by exists []. }
  apply bind_Ok in H as (st1 & H1 & H). unfold select_client in H1.
  apply bind_Ok in H1 as (m & Hm & [= <-]). apply IH in H as (ms & Hms & Hc & Hr & Hn).
  exists (m :: ms). cbn [mapR]. rewrite Hm. cbn [mbind result_bind]. rewrite Hms. cbn [mbind result_bind].
  destruct (apply_rest p st m) as [Hr' Hn']. rewrite Hr, Hn, Hr', Hn', Hc, core_apply. done.
Qed.

Lemma note_transitions s l :
  foldl note_transition s l =
  mkSelection (totals s) (application_limits s) (sel_clients s) (blocked_macs s) (sel_results s)
    (foldl next_of (next_transition_ms s) l).
Proof. revert s. induction l as [|t l IH]; intros s; simpl; [by destruct s|]. by rewrite IH. Qed.

Section selecting.
Context (f : PolicySnapshotFrame) (now : option Z).

(** One iteration of the loop, in terms of the functions above. *)
Lemma select_policy_Ok st p st' :
  select_policy f now st p = Ok st' →
  (enabled (spec p) = true → shape_ok p) ∧
  (in_force f now p = true → ∃ ms, mapR client_mac (PolicyWire.clients (selectors (spec p))) = Ok ms) ∧
  (enabled (spec p) = true → is_Some (schedule (spec p)) →
     is_Some (find_intervals (schedule_intervals f) (id p)) ∧ is_Some (clock_ok now)) ∧
  core st' = foldl take_decision (core st) (decisions f now p) ∧
  sel_results (sel st') = sel_results (sel st) ++ [result_of f now p] ∧
  next_transition_ms (sel st') = foldl next_of (next_transition_ms (sel st)) (transitions f now p).
Proof.
  unfold select_policy, in_force, decisions, result_of, transitions, in_force.
  destruct (enabled (spec p)) eqn:Hen; cbn [negb andb].
  2:{ intros [= <-]. by split_and!. }
  destruct (_ && negb (has_clients p))%bool; [done|].
  destruct (negb (client_total p) && _ && _ && _ && _)%bool eqn:Hshape; [done|].
  assert (shape_ok p) as Hs.
  { unfold shape_ok. destruct (client_total p), (internet_decision p), (application_policy Limit p),
      (application_policy Block p), (application_policy Allow p); naive_solver. }
  rewrite bind_Ok. intros (s & Hn & H).
  assert ((is_Some (schedule (spec p)) → is_Some (find_intervals (schedule_intervals f) (id p)) ∧ is_Some (clock_ok now)) ∧
    core (mkSelState s (block_decided st)) = core st ∧ sel_results s = sel_results (sel st) ∧
    next_transition_ms s = foldl next_of (next_transition_ms (sel st)) (transitions f now p)) as (Hsch & Hc & Hr & Hnx).
  { unfold note_schedule in Hn. unfold transitions. rewrite Hen. destruct (schedule (spec p)) eqn:Hsc.
    - apply bind_Ok in Hn as (e & He%ok_or_Ok & Hn). apply bind_Ok in Hn as (t & Ht%ok_or_Ok & [= <-]).
      rewrite note_transitions, He, Ht. unfold clock_ok in Ht. destruct now as [t'|]; [|done].
      destruct (MIN_CLOCK_MS <=? t'); [|done]. injection Ht as ->. done.
    - injection Hn as <-. split_and!; [by intros []|done..]. }
  unfold transitions in Hnx. rewrite Hen in Hnx.
  destruct (evaluate _ _ _ _) eqn:Hev; cbn [negb]; [| | |done].
  - apply bind_Ok in H as (st1 & Hst1 & Hst'). injection Hst' as <-. apply select_clients_Ok in Hst1 as (ms & Hms & Hc1 & Hr1 & Hn1).
    rewrite Hms. split_and!; [done|eauto|auto|..]; cbn.
    + change (core st1 = foldl take_decision (core st) ((p,.) <$> ms)). by rewrite Hc1, Hc.
    + rewrite Hr1. cbn. by rewrite Hr.
    + by rewrite Hn1.
  - injection H as <-. split_and!; [done|done|auto|..]; cbn; [exact Hc|by rewrite Hr|done].
  - injection H as <-. split_and!; [done|done|auto|..]; cbn; [exact Hc|by rewrite Hr|done].
Qed.

Lemma select_loop ps st st' :
  foldM (select_policy f now) st ps = Ok st' →
  Forall (λ p, (enabled (spec p) = true → shape_ok p) ∧
    (in_force f now p = true → ∃ ms, mapR client_mac (PolicyWire.clients (selectors (spec p))) = Ok ms) ∧
    (enabled (spec p) = true → is_Some (schedule (spec p)) →
       is_Some (find_intervals (schedule_intervals f) (id p)) ∧ is_Some (clock_ok now))) ps ∧
  core st' = foldl take_decision (core st) (concat (decisions f now <$> ps)) ∧
  sel_results (sel st') = sel_results (sel st) ++ (result_of f now <$> ps) ∧
  next_transition_ms (sel st') = foldl next_of (next_transition_ms (sel st)) (concat (transitions f now <$> ps)).
Proof.
  revert st. induction ps as [|p ps IH]; intros st H; cbn [foldM] in H.
  { injection H as <-. cbn. by rewrite app_nil_r. }
  apply bind_Ok in H as (st1 & H1 & H). apply IH in H as (Hall & Hc & Hr & Hn).
  apply select_policy_Ok in H1 as (Hs & Ht & Hi & Hc1 & Hr1 & Hn1). rewrite !fmap_cons. cbn [concat].
  rewrite !foldl_app, <- Hc1, <- Hn1, Hr, Hr1, <- app_assoc. split_and!; [by constructor|done|done|done].
Qed.
End selecting.

(** ** Properties of a sequence of decisions *)

(** [o] is the least element of [S], if it has any. *)
Definition is_least (S : Z → Prop) (o : option Z) : Prop :=
  match o with Some x => S x ∧ ∀ y, S y → x ≤ y | None => ∀ y, ¬ S y end.

Lemma is_least_ext (S S' : Z → Prop) o : (∀ y, S y ↔ S' y) → is_least S o → is_least S' o.
Proof. destruct o; simpl; naive_solver. Qed.

Lemma is_least_min_rate (S S' : Z → Prop) o b :
  (∀ y, S' y ↔ S y ∨ b = Some y) → is_least S o → is_least S' (min_rate o b).
Proof.
  intros HS. destruct o as [a|], b as [b|]; simpl.
  - intros [Ha Hall]. split.
    + apply HS. destruct (Z.min_spec a b) as [[_ ->]|[_ ->]]; auto.
    + intros y [Hy|[= ->]]%HS; [specialize (Hall y Hy)|]; lia.
  - naive_solver.
  - intros Hn. split; [naive_solver|]. intros y [Hy|[= ->]]%HS; [by apply Hn in Hy|lia].
  - naive_solver.
Qed.

Lemma is_least_next (S S' : Z → Prop) o t :
  (∀ y, S' y ↔ S y ∨ y = t) → is_least S o → is_least S' (next_of o t).
Proof.
  intros HS Ho. replace (next_of o t) with (min_rate o (Some t)) by by destruct o.
  eapply is_least_min_rate; [|exact Ho]. naive_solver.
Qed.

Lemma foldl_next_least l : is_least (.∈ l) (foldl next_of None l).
Proof.
  induction l as [|t l IH] using rev_ind; [simpl; set_solver|].
  rewrite foldl_snoc. eapply is_least_next; [|exact IH]. set_solver.
Qed.

(** A policy that neither limits nor concerns applications: it decides
    whether the client may use the Internet. *)
Definition decides_internet (p : PolicySnapshotEntry) : bool :=
  (negb (client_total p) && negb (application_policy Limit p) && negb (application_policy Block p)
   && negb (application_policy Allow p))%bool.

Definition start : SelState := mkSelState empty_selection ∅.
Definition outcome (ds : list (PolicySnapshotEntry * string)) : SelState := foldl take_decision start ds.

Definition first_decision (m : string) (ds : list (PolicySnapshotEntry * string)) : option (PolicySnapshotEntry * string) :=
  List.find (λ d, String.eqb (snd d) m && decides_internet (fst d))%bool ds.

Lemma find_snoc {A} (p : A → bool) l x :
  List.find p (l ++ [x]) = match List.find p l with Some y => Some y | None => if p x then Some x else None end.
Proof. induction l as [|y l IH]; simpl; [done|]. by destruct (p y). Qed.

Lemma outcome_snoc ds d : outcome (ds ++ [d]) = apply_client (fst d) (outcome ds) (snd d).
Proof. unfold outcome. by rewrite foldl_snoc. Qed.

(** The effect of a decision on each part of the state. *)
Definition newly_blocked (p : PolicySnapshotEntry) (st : SelState) (m : string) : bool :=
  (decides_internet p && negb (bool_decide (m ∈ block_decided st)) && is_kind Block p)%bool.

Ltac split_shapes p :=
  destruct (client_total p), (application_policy Limit p), (application_policy Block p), (application_policy Allow p).

Lemma apply_decided p st m :
  block_decided (apply_client p st m) = if decides_internet p then {[m]} ∪ block_decided st else block_decided st.
Proof. unfold apply_client, decides_internet. split_shapes p; cbn [negb andb]; try done. by destruct (_ && _)%bool. Qed.

Lemma apply_blocked p st m :
  blocked_macs (sel (apply_client p st m)) =
  if newly_blocked p st m then {[m]} ∪ blocked_macs (sel st) else blocked_macs (sel st).
Proof.
  unfold apply_client, newly_blocked, decides_internet. split_shapes p; cbn [negb andb]; try done.
  by destruct (_ && _)%bool.
Qed.

Lemma apply_clients p st m :
  sel_clients (sel (apply_client p st m)) =
  if (negb (decides_internet p) || newly_blocked p st m)%bool then {[m]} ∪ sel_clients (sel st) else sel_clients (sel st).
Proof.
  unfold apply_client, newly_blocked, decides_internet. split_shapes p; cbn [negb andb orb]; try done.
  by destruct (_ && _)%bool.
Qed.

Lemma apply_totals p st m :
  totals (sel (apply_client p st m)) =
  if client_total p then totals (add_total m p (sel st)) else totals (sel st).
Proof. unfold apply_client. split_shapes p; try done. by destruct (_ && _)%bool. Qed.

Lemma apply_limits p st m :
  application_limits (sel (apply_client p st m)) =
  if (negb (client_total p) && application_policy Limit p)%bool then application_limits (add_limit m p (sel st))
  else application_limits (sel st).
Proof. unfold apply_client. split_shapes p; try done. by destruct (_ && _)%bool. Qed.

Lemma outcome_decided m ds : m ∈ block_decided (outcome ds) ↔ is_Some (first_decision m ds).
Proof.
  unfold first_decision. induction ds as [|[p m'] ds IH] using rev_ind.
  { simpl. split; [set_solver|by intros []]. }
  rewrite outcome_snoc, find_snoc, apply_decided. cbn [fst snd].
  destruct (decides_internet p); [|rewrite andb_false_r, IH; by destruct (List.find _ ds)].
  rewrite elem_of_union, elem_of_singleton, IH, andb_true_r.
  destruct (List.find _ ds); [split; eauto|].
  destruct (String.eqb_spec m' m) as [->|]; [split; eauto|].
  split; [intros [?|[? ?]]; congruence|by intros []].
Qed.

Lemma outcome_blocked m ds :
  m ∈ blocked_macs (sel (outcome ds)) ↔ ∃ p, first_decision m ds = Some (p, m) ∧ is_kind Block p = true.
Proof.
  induction ds as [|[p m'] ds IH] using rev_ind; [simpl; set_solver|].
  pose proof (outcome_decided m ds) as Hdec. unfold first_decision in *.
  rewrite outcome_snoc, find_snoc, apply_blocked. cbn [fst snd]. unfold newly_blocked.
  destruct (decides_internet p); [|rewrite andb_false_r; cbn [andb]; rewrite IH; by destruct (List.find _ ds)].
  rewrite andb_true_r. cbn [andb]. destruct (String.eqb_spec m' m) as [->|Hne].
  - case_bool_decide as Hin; cbn [negb andb].
    + rewrite IH. apply Hdec in Hin as [d Hd]. by rewrite Hd.
    + destruct (List.find _ ds) as [d|]; [by destruct Hin; apply Hdec|].
      destruct (is_kind Block p) eqn:Hk; [split; [eauto|set_solver]|].
      rewrite IH. split; [by intros (? & ? & _)|intros (? & [= <-] & ?); congruence].
  - trans (m ∈ blocked_macs (sel (outcome ds))).
    { destruct (_ && _)%bool; [set_solver|done]. }
    rewrite IH. destruct (List.find _ ds); [done|]. split; by intros (? & ? & _).
Qed.

(** Some policy decided about [m] satisfies [Q]. *)
Definition reached (ds : list (PolicySnapshotEntry * string)) (m : string) (Q : PolicySnapshotEntry → Prop) : Prop :=
  ∃ p, (p, m) ∈ ds ∧ Q p.

Lemma reached_snoc ds d m Q : reached (ds ++ [d]) m Q ↔ reached ds m Q ∨ (m = snd d ∧ Q (fst d)).
Proof.
  unfold reached. destruct d as [p m']. setoid_rewrite elem_of_app. setoid_rewrite list_elem_of_singleton. split.
  - intros (q & [?|[= -> ->]] & ?); eauto.
  - intros [(q & ? & ?)|[-> ?]]; eauto.
Qed.

Lemma reached_nil m Q : ¬ reached [] m Q.
Proof. unfold reached. set_solver. Qed.

Lemma outcome_clients m ds :
  m ∈ sel_clients (sel (outcome ds)) ↔
  m ∈ blocked_macs (sel (outcome ds)) ∨ reached ds m (λ p, decides_internet p = false).
Proof.
  induction ds as [|[p m'] ds IH] using rev_ind.
  { simpl. pose proof (reached_nil m (λ p, decides_internet p = false)). set_solver. }
  rewrite outcome_snoc, apply_clients, apply_blocked, reached_snoc. cbn [fst snd]. unfold newly_blocked.
  destruct (decides_internet p) eqn:Hd; cbn [andb orb negb].
  - destruct (_ && _)%bool; rewrite ?elem_of_union, ?elem_of_singleton, IH; intuition congruence.
  - rewrite elem_of_union, elem_of_singleton, IH. intuition.
Qed.

Lemma outcome_limits l ds :
  l ∈ application_limits (sel (outcome ds)) ↔
  reached ds (app_mac l) (λ p, (negb (client_total p) && application_policy Limit p)%bool = true ∧
    l = mkApplicationRates (app_mac l) (id p) (action_upload_bps (action (spec p)))
          (action_download_bps (action (spec p)))).
Proof.
  induction ds as [|[p m'] ds IH] using rev_ind; [split; [set_solver|by intros ?%reached_nil]|].
  rewrite outcome_snoc, apply_limits, reached_snoc. cbn [fst snd].
  destruct (_ && _)%bool; [|rewrite IH; intuition congruence].
  cbn [add_limit application_limits]. rewrite elem_of_app, list_elem_of_singleton, IH.
  split; intros [?|Hl]; auto; right.
  - subst l. done.
  - destruct Hl as (<- & _ & ?). done.
Qed.

(** The rates and policies of [m], absent or not. *)
Definition rates_of (st : SelState) (m : string) : TotalRates :=
  default (mkTotalRates None None ∅) (totals (sel st) !! m).

Lemma rates_of_nil m : rates_of (outcome []) m = mkTotalRates None None ∅.
Proof. reflexivity. Qed.

Lemma rates_of_snoc ds p m' m :
  (client_total p && bool_decide (m = m'))%bool = false → rates_of (outcome (ds ++ [(p, m')])) m = rates_of (outcome ds) m.
Proof.
  intros H. unfold rates_of. rewrite outcome_snoc, apply_totals. cbn [fst snd].
  destruct (client_total p); [|done]. split_bools. cbn in H. apply bool_decide_eq_false in H.
  unfold add_total. cbn [totals]. by rewrite lookup_insert_ne.
Qed.

Lemma outcome_totals_dom m ds :
  is_Some (totals (sel (outcome ds)) !! m) ↔ reached ds m (λ p, client_total p = true).
Proof.
  induction ds as [|[p m'] ds IH] using rev_ind; [split; [by intros []|by intros ?%reached_nil]|].
  rewrite outcome_snoc, apply_totals, reached_snoc, <- IH. cbn [fst snd].
  destruct (client_total p); [|intuition congruence]. unfold add_total. cbn [totals].
  rewrite lookup_insert_is_Some. destruct (decide (m' = m)); intuition.
Qed.

(** A rate of the totals is the least rate any deciding total sets. *)
Lemma outcome_totals_least (get : TotalRates → option Z) (bps : PolicyAction → option Z) m ds :
  get (mkTotalRates None None ∅) = None →
  (∀ p s m, get (rates_of (mkSelState (add_total m p (sel s)) (block_decided s)) m) =
     min_rate (get (rates_of s m)) (bps (action (spec p)))) →
  is_least (λ u, reached ds m (λ p, client_total p = true ∧ bps (action (spec p)) = Some u))
    (get (rates_of (outcome ds) m)).
Proof.
  intros Hd Hget. induction ds as [|[p m'] ds IH] using rev_ind.
  { rewrite rates_of_nil, Hd. intros u. apply reached_nil. }
  destruct (client_total p && bool_decide (m = m'))%bool eqn:Hc.
  - split_bools. subst m'. unfold rates_of. rewrite outcome_snoc, apply_totals. cbn [fst snd]. rewrite H.
    change (is_least (λ u, reached (ds ++ [(p, m)]) m (λ p, client_total p = true ∧ bps (action (spec p)) = Some u))
      (get (rates_of (mkSelState (add_total m p (sel (outcome ds))) (block_decided (outcome ds))) m))).
    rewrite Hget. eapply is_least_min_rate; [|exact IH]. intros u. rewrite reached_snoc. cbn. intuition.
  - rewrite rates_of_snoc by done. eapply is_least_ext; [|exact IH]. intros u. rewrite reached_snoc. cbn [fst snd].
    split; [by left|]. intros [?|(-> & Ht & _)]; [done|]. rewrite Ht, bool_decide_eq_true_2 in Hc; done.
Qed.

Lemma outcome_totals_ids m ds i :
  i ∈ total_policy_ids (rates_of (outcome ds) m) ↔ reached ds m (λ p, client_total p = true ∧ id p = i).
Proof.
  induction ds as [|[p m'] ds IH] using rev_ind.
  { rewrite rates_of_nil. split; [cbn; set_solver|by intros ?%reached_nil]. }
  rewrite reached_snoc, <- IH. cbn [fst snd].
  destruct (client_total p && bool_decide (m = m'))%bool eqn:Hc.
  - split_bools. subst m'. unfold rates_of. rewrite outcome_snoc, apply_totals. cbn [fst snd]. rewrite H.
    unfold add_total. cbn [totals]. rewrite lookup_insert_eq. cbn. rewrite elem_of_union, elem_of_singleton. intuition.
  - rewrite rates_of_snoc by done. split; [by left|]. intros [?|(-> & Ht & _)]; [done|].
    rewrite Ht, bool_decide_eq_true_2 in Hc; done.
Qed.

(** ** The selection of a snapshot *)

Lemma policy_leb_total a b : policy_leb a b = false → policy_leb b a = true.
Proof.
  unfold policy_leb. destruct (Z.eqb_spec (priority (spec a)) (priority (spec b))) as [->|Hne].
  - rewrite Z.eqb_refl. auto with netq.
  - rewrite (proj2 (Z.eqb_neq _ _)) by done. lia.
Qed.

Lemma policy_leb_trans a b c : policy_leb a b = true → policy_leb b c = true → policy_leb a c = true.
Proof.
  unfold policy_leb.
  destruct (Z.eqb_spec (priority (spec a)) (priority (spec b))), (Z.eqb_spec (priority (spec b)) (priority (spec c))),
    (Z.eqb_spec (priority (spec a)) (priority (spec c))); try lia. apply str_leb_trans.
Qed.

Lemma policy_leb_antisym a b : policy_leb a b = true → policy_leb b a = true → id a = id b.
Proof.
  unfold policy_leb.
  destruct (Z.eqb_spec (priority (spec a)) (priority (spec b))), (Z.eqb_spec (priority (spec b)) (priority (spec a)));
    try lia. apply str_leb_antisym.
Qed.

Lemma policy_leb_refl a : policy_leb a a = true.
Proof. unfold policy_leb. rewrite Z.eqb_refl. auto with netq. Qed.

Lemma sorted_blocks {A B} (R : A → A → Prop) (block : A → list (A * B)) l :
  (∀ a, R a a) → (∀ a d, d ∈ block a → fst d = a) → StronglySorted R l →
  StronglySorted (λ x y, R (fst x) (fst y)) (concat (block <$> l)).
Proof.
  intros Hrefl Hb. induction 1 as [|a l Hs IH Hall]; [constructor|]. rewrite fmap_cons. cbn [concat].
  assert (∀ d, d ∈ concat (block <$> l) → ∃ b, b ∈ l ∧ fst d = b) as Hc.
  { clear -Hb. induction l as [|b l IH]; [set_solver|]. rewrite fmap_cons. cbn [concat].
    intros d [Hd|Hd]%elem_of_app; [exists b; split; [set_solver|by apply Hb]|].
    destruct (IH d Hd) as (b' & ? & ?). exists b'. set_solver. }
  assert (∀ d, d ∈ block a → fst d = a) as Ha by apply Hb. revert Ha.
  generalize (block a) as k. induction k as [|d k IHk]; intros Ha; [done|]. cbn. constructor; [apply IHk; set_solver|].
  apply Forall_forall. intros e He. rewrite (Ha d) by set_solver. apply elem_of_app in He as [He|He].
  - rewrite (Ha e) by set_solver. done.
  - destruct (Hc e He) as (b & Hb' & ->). rewrite Forall_forall in Hall. auto.
Qed.

Section snapshot.
Context (f : PolicySnapshotFrame) (now : option Z).

Definition ordered : list PolicySnapshotEntry := sort_by policy_leb (policies f).
Definition all_decisions : list (PolicySnapshotEntry * string) := concat (decisions f now <$> ordered).

Lemma elem_of_decisions p d : d ∈ decisions f now p → fst d = p.
Proof.
  unfold decisions. destruct (in_force f now p); [|set_solver]. destruct (mapR _ _); [|set_solver].
  intros (m & -> & _)%list_elem_of_fmap. done.
Qed.

Lemma elem_of_all_decisions (Hparse : Forall (λ p, in_force f now p = true →
    ∃ ms, mapR client_mac (PolicyWire.clients (selectors (spec p))) = Ok ms) (policies f)) p m :
  (p, m) ∈ all_decisions ↔ p ∈ policies f ∧ in_force f now p = true ∧ targets p m.
Proof.
  assert (∀ l, (p, m) ∈ concat (decisions f now <$> l) ↔ p ∈ l ∧ (p, m) ∈ decisions f now p) as Hcat.
  { induction l as [|q l IH]; [set_solver|]. rewrite fmap_cons. cbn [concat].
    rewrite elem_of_app, elem_of_cons, IH. split.
    - intros [Hd|[? ?]]; [|auto]. pose proof (elem_of_decisions _ _ Hd) as Hq. cbn in Hq. subst. auto.
    - intros [[->|?] ?]; auto. }
  unfold all_decisions, ordered. rewrite Hcat, elem_of_sort_by. unfold decisions, targets.
  rewrite Forall_forall in Hparse. split.
  - intros [Hp Hd]. destruct (in_force f now p); [|set_solver]. split_and!; [done..|].
    destruct (mapR _ _) as [ms|] eqn:Hms; [|set_solver]. apply mapR_Ok in Hms.
    apply list_elem_of_fmap in Hd as (m' & [= <-] & Hm). apply list_elem_of_lookup in Hm as [i Hi].
    destruct (Forall2_lookup_r _ _ _ _ _ Hms Hi) as (text & Ht & Hc). exists text.
    split; [by eapply list_elem_of_lookup_2|done].
  - intros (Hp & Hf & text & Ht & Hc). split; [done|]. rewrite Hf. destruct (Hparse p Hp Hf) as [ms Hms].
    rewrite Hms. apply mapR_Ok in Hms. apply list_elem_of_fmap. exists m. split; [done|].
    apply list_elem_of_lookup in Ht as [i Hi]. destruct (Forall2_lookup_l _ _ _ _ _ Hms Hi) as (m' & Hm' & Hc').
    rewrite Hc in Hc'. injection Hc' as ->. by eapply list_elem_of_lookup_2.
Qed.

Lemma from_snapshot_Ok `{PolicyCodec} gw s :
  from_snapshot (PolicySnapshot f) gw now = Ok s →
  snapshot_fields_wf f ∧ snap_gateway_id f = gw ∧
  Forall (λ p, (enabled (spec p) = true → shape_ok p) ∧
    (in_force f now p = true → ∃ ms, mapR client_mac (PolicyWire.clients (selectors (spec p))) = Ok ms) ∧
    (enabled (spec p) = true → is_Some (schedule (spec p)) →
       is_Some (find_intervals (schedule_intervals f) (id p)) ∧ is_Some (clock_ok now))) (policies f) ∧
  Z.of_nat (size (sel_clients s)) ≤ 256 ∧
  (let o := sel (outcome all_decisions) in
   s = mkSelection (totals o) (sort_by app_rates_leb (application_limits o)) (sel_clients o) (blocked_macs o)
         (sort_by result_leb (result_of f now <$> ordered))
         (foldl next_of None (concat (transitions f now <$> ordered)))).
Proof.
  unfold from_snapshot. rewrite check_seq, map_err_Ok. intros [Hv Hs]. cbn [validate] in Hv.
  unfold validate_snapshot in Hv. rewrite check_seq, validate_snapshot_fields_Ok in Hv. destruct Hv as [Hwf _].
  destruct (String.eqb_spec (snap_gateway_id f) gw); [|done]. cbn [negb] in Hs.
  apply bind_Ok in Hs as (st & Hst & Hs). destruct (256 <? _) eqn:Hsize; [done|]. injection Hs as <-.
  apply select_loop in Hst as (Hall & Hc & Hr & Hn). cbn [sel sel_results next_transition_ms empty_selection] in Hr, Hn.
  rewrite app_nil_l in Hr. split_and!; [done|done| |cbn; lia|].
  - unfold ordered in *. rewrite sort_by_perm in Hall. done.
  - fold ordered in *. fold all_decisions in Hc. change (core (mkSelState empty_selection ∅)) with start in Hc.
    fold (outcome all_decisions) in Hc. unfold core in Hc. rewrite <- Hc, Hr, Hn. done.
Qed.
End snapshot.

(** A policy that decides the client's Internet access, as its shape says. *)
Lemma decides_internet_shape p : shape_ok p → decides_internet p = internet_decision p.
Proof.
  unfold shape_ok. intros Hs. apply eq_bool_prop_intro. rewrite !Is_true_true. unfold decides_internet. split.
  - intros Hd. split_bools. destruct Hs as [?|[?|[?|[?|?]]]]; congruence.
  - unfold internet_decision. intros Hi. split_bools.
    assert (∀ k, application_policy k p = false) as Happ.
    { intros k. unfold application_policy, on_application, names_application.
      match goal with H1 : no_selector (applications _) = true, H2 : no_selector (categories _) = true |- _ =>
        rewrite H1, H2 end. apply andb_false_r. }
    rewrite !Happ. unfold client_total, is_client_total_spec.
    match goal with H1 : in_internet p = true |- _ => unfold in_internet in H1; apply String.eqb_eq in H1; rewrite H1 end.
    done.
Qed.

(** The rank of policies: lower priority number first, then the id. *)
Definition outranks (p q : PolicySnapshotEntry) : Prop :=
  priority (spec p) < priority (spec q) ∨ priority (spec p) = priority (spec q) ∧ id p ≤ₛ id q.

Lemma policy_leb_outranks p q : policy_leb p q = true ↔ outranks p q.
Proof. unfold policy_leb, outranks. destruct (Z.eqb_spec (priority (spec p)) (priority (spec q))); rewrite ?Z.ltb_lt; naive_solver lia. Qed.

(** The policy that governs the Internet access of [m]: the first one, by
    priority and id, among those in force that decide it. *)
Definition governs (f : PolicySnapshotFrame) (now : option Z) (m : string) (p : PolicySnapshotEntry) : Prop :=
  p ∈ policies f ∧ in_force f now p = true ∧ internet_decision p = true ∧ targets p m ∧
  ∀ q, q ∈ policies f → in_force f now q = true → internet_decision q = true → targets q m → outranks p q.

(** A client is cut off the Internet exactly when the governing policy,
    the first in force by priority and id that decides its access, is a
    block: a lower-ranked block never overrides an allow, nor the reverse. *)
Lemma selection_blocked `{PolicyCodec} f gw now s m :
  from_snapshot (PolicySnapshot f) gw now = Ok s →
  m ∈ blocked_macs s ↔ ∃ p, governs f now m p ∧ kind (action (spec p)) = Block.
Proof.
  intros (Hwf & _ & Hall & _ & ->)%from_snapshot_Ok. cbn [blocked_macs].
  assert (∀ p, p ∈ policies f → in_force f now p = true → decides_internet p = internet_decision p) as Hdec.
  { rewrite Forall_forall in Hall. intros p Hp Hf. apply decides_internet_shape, (Hall p Hp).
    unfold in_force in Hf. by split_bools. }
  assert (∀ p m, (p, m) ∈ all_decisions f now ↔ p ∈ policies f ∧ in_force f now p = true ∧ targets p m) as Helem.
  { intros. apply elem_of_all_decisions. eapply Forall_impl; [exact Hall|]. naive_solver. }
  assert (StronglySorted (λ x y, policy_leb (fst x) (fst y) = true) (all_decisions f now)) as Hsorted.
  { apply (sorted_blocks (λ a b, policy_leb a b = true)); [apply policy_leb_refl|apply elem_of_decisions|].
    apply sort_by_sorted; [apply policy_leb_total|apply policy_leb_trans]. }
  assert (∀ p, first_decision m (all_decisions f now) = Some (p, m) ↔ governs f now m p) as Hgov.
  { assert (∀ p, first_decision m (all_decisions f now) = Some (p, m) → governs f now m p) as Hfirst.
    { intros p Hfd. pose proof (find_Some_elem _ _ _ Hfd) as [Hin Hd]. cbn in Hd. split_bools.
      apply Helem in Hin as (Hp & Hf & Ht). split_and!; [done|done|by rewrite <- Hdec|done|].
      intros q Hq Hqf Hqi Hqt. apply policy_leb_outranks. destruct (sorted_find _ _ _ _ Hsorted Hfd (q, m)) as [[= ->]|Hle].
      - by apply Helem.
      - cbn. rewrite String.eqb_refl, Hdec by done. done.
      - apply policy_leb_refl.
      - exact Hle. }
    intros p. split; [apply Hfirst|]. intros (Hp & Hf & Hi & Ht & Hmin). setoid_rewrite <- policy_leb_outranks in Hmin.
    destruct (first_decision m (all_decisions f now)) as [[q m']|] eqn:Hfd.
    - pose proof (find_Some_elem _ _ _ Hfd) as [_ Hd]. cbn in Hd. split_bools. subst m'.
      destruct (Hfirst q eq_refl) as (Hq & Hqf & Hqi & Hqt & Hqmin).
      setoid_rewrite <- policy_leb_outranks in Hqmin.
      assert (p = q) as ->; [|done].
      pose proof (policy_leb_antisym p q (Hmin q Hq Hqf Hqi Hqt) (Hqmin p Hp Hf Hi Ht)) as Hid.
      eapply (keyed_antisym id); [apply strict_keys_NoDup, Hwf|done|done|rewrite Hid; apply str_leb_refl..].
    - exfalso. pose proof (find_none _ _ Hfd (p, m)) as Hno. rewrite <- list_elem_of_In in Hno.
      rewrite Helem in Hno. cbn in Hno. rewrite String.eqb_refl, Hdec, Hi in Hno by done. naive_solver. }
  rewrite outcome_blocked. split; intros (p & Hg & Hk); exists p.
  - rewrite <- Hgov. split; [done|]. unfold is_kind in Hk. by split_bools.
  - rewrite Hgov. split; [done|]. unfold is_kind. by apply bool_decide_eq_true.
Qed.

(** Some client total in force that targets [m] satisfies [Q]. *)
Definition total_in_force (f : PolicySnapshotFrame) (now : option Z) (m : string) (Q : PolicySnapshotEntry → Prop) : Prop :=
  ∃ p, p ∈ policies f ∧ in_force f now p = true ∧ targets p m ∧ client_total p = true ∧ Q p.

(** The total rates of a client are the strictest ones of the client
    totals in force that name it, in each direction, recorded with exactly
    those policies; clients without such a policy have no total; and at most
    256 clients are selected, each blocked or named by a policy in force. *)
Lemma selection_totals `{PolicyCodec} f gw now s m :
  from_snapshot (PolicySnapshot f) gw now = Ok s →
  match totals s !! m with
  | None => ¬ total_in_force f now m (λ _, True)
  | Some r =>
    is_least (λ u, total_in_force f now m (λ p, action_upload_bps (action (spec p)) = Some u)) (total_upload_bps r) ∧
    is_least (λ u, total_in_force f now m (λ p, action_download_bps (action (spec p)) = Some u)) (total_download_bps r) ∧
    (∀ i, i ∈ total_policy_ids r ↔ total_in_force f now m (λ p, id p = i)) ∧
    m ∈ sel_clients s
  end ∧
  Z.of_nat (size (sel_clients s)) ≤ 256 ∧
  (m ∈ sel_clients s ↔ m ∈ blocked_macs s ∨
     ∃ p, p ∈ policies f ∧ in_force f now p = true ∧ targets p m ∧ internet_decision p = false).
Proof.
  intros (_ & _ & Hall & Hsize & Hs)%from_snapshot_Ok. cbv zeta in Hs.
  assert (∀ Q, reached (all_decisions f now) m Q ↔
    ∃ p, p ∈ policies f ∧ in_force f now p = true ∧ targets p m ∧ Q p) as Hreach.
  { intros Q. unfold reached. setoid_rewrite elem_of_all_decisions; [naive_solver|].
    eapply Forall_impl; [exact Hall|]. naive_solver. }
  assert (m ∈ sel_clients s ↔ m ∈ blocked_macs s ∨
     ∃ p, p ∈ policies f ∧ in_force f now p = true ∧ targets p m ∧ internet_decision p = false) as Hcl.
  { subst s. cbn [sel_clients blocked_macs]. rewrite outcome_clients, Hreach. rewrite Forall_forall in Hall.
    assert (∀ p, p ∈ policies f → in_force f now p = true → decides_internet p = internet_decision p) as Hdec.
    { intros p Hp Hf. apply decides_internet_shape, (Hall p Hp). unfold in_force in Hf. by split_bools. }
    apply or_iff_compat_l. split; intros (p & Hp & Hf & Ht & Hd); exists p; specialize (Hdec p Hp Hf);
      split_and!; congruence. }
  split_and!; [|done|done].
  assert (totals s = totals (sel (outcome (all_decisions f now)))) as -> by by subst s.
  assert (∀ Q, total_in_force f now m Q ↔ reached (all_decisions f now) m (λ p, client_total p = true ∧ Q p)) as Htf.
  { intros Q. rewrite Hreach. unfold total_in_force. naive_solver. }
  pose proof (outcome_totals_dom m (all_decisions f now)) as Hdom.
  pose proof (outcome_totals_ids m (all_decisions f now)) as Hids.
  pose proof (outcome_totals_least total_upload_bps action_upload_bps m (all_decisions f now)) as Hup.
  pose proof (outcome_totals_least total_download_bps action_download_bps m (all_decisions f now)) as Hdown.
  unfold rates_of in *.
  destruct (totals (sel (outcome (all_decisions f now))) !! m) as [r|]; cbn [default] in *.
  - split_and!.
    + eapply is_least_ext; [|apply Hup; [done|]]; [intros u; by rewrite Htf|].
      intros p st m'. unfold add_total. cbn. by rewrite lookup_insert_eq.
    + eapply is_least_ext; [|apply Hdown; [done|]]; [intros u; by rewrite Htf|].
      intros p st m'. unfold add_total. cbn. by rewrite lookup_insert_eq.
    + intros i. by rewrite Htf, <- Hids.
    + destruct (proj1 Hdom) as (p & Hin & Ht); [eauto|]. rewrite Hcl. right.
      destruct (proj1 (Hreach (λ p, client_total p = true))) as (q & Hq & Hf & Hqt & Htot); [by exists p|].
      exists q. split_and!; [done..|]. unfold client_total, is_client_total_spec in Htot. split_bools.
      unfold internet_decision, in_internet.
      match goal with H1 : scope _ = _ |- _ => rewrite H1 end. done.
  - rewrite Htf. intros (p & Hp & Ht & _). destruct (proj2 Hdom) as [? ?]; [by exists p|done].
Qed.

(** Exactly one result is reported per policy, in the order of the
    snapshot: disabled, expired or applied. *)
Lemma selection_results `{PolicyCodec} f gw now s :
  from_snapshot (PolicySnapshot f) gw now = Ok s → sel_results s = result_of f now <$> policies f.
Proof.
  intros (Hwf & _ & _ & _ & ->)%from_snapshot_Ok. cbn [sel_results]. unfold result_leb.
  assert (∀ p, result_policy_id (result_of f now p) = id p) as Hid.
  { intros p. unfold result_of. by repeat case_match. }
  assert (∀ l : list PolicySnapshotEntry, result_policy_id <$> (result_of f now <$> l) = id <$> l) as Hids.
  { intros l. rewrite <- list_fmap_compose. apply list_fmap_ext. intros i x _. apply Hid. }
  pose proof (fw_sorted _ Hwf) as Hsorted. pose proof (strict_keys_NoDup _ _ Hsorted) as Hnd.
  rewrite (sort_by_key_unique result_policy_id _ (result_of f now <$> policies f)).
  - apply sort_by_id. rewrite <- Hids in Hsorted. revert Hsorted. generalize (result_of f now <$> policies f) as l.
    induction l as [|r l IH]; intros Hs; [constructor|]. rewrite fmap_cons in Hs.
    inversion_clear Hs as [|? ? Hs' Hall]. constructor; [by apply IH|].
    rewrite Forall_fmap in Hall. eapply Forall_impl; [exact Hall|]. intros x Hx. cbn in Hx.
    apply str_leb_total. by apply str_lt_leb.
  - rewrite Hids. unfold ordered. by rewrite sort_by_perm.
  - unfold ordered. by rewrite sort_by_perm.
Qed.

(** A policy behaves the same at [t] as at [now] when none of its transitions
    lies in between. *)
Lemma select_policy_stable f now t p st :
  (enabled (spec p) = true → is_Some (schedule (spec p)) →
     is_Some (find_intervals (schedule_intervals f) (id p)) ∧ is_Some (clock_ok (Some now))) →
  now ≤ t → (∀ b, b ∈ transitions f (Some now) p → t < b) →
  select_policy f (Some t) st p = select_policy f (Some now) st p.
Proof.
  unfold transitions, select_policy, note_schedule. destruct (enabled (spec p)); [|done]. cbn [negb].
  intros Hsch Hle Ht. destruct (schedule (spec p)) as [sch|] eqn:Hs.
  2:{ unfold evaluate. by rewrite Hs. }
  destruct Hsch as [[e He] Hc]; [done|eauto|]. rewrite He in Ht |- *.
  assert (MIN_CLOCK_MS ≤ now) as Hmin by (unfold clock_ok in Hc; destruct (MIN_CLOCK_MS <=? now) eqn:?; [lia|by destruct Hc]).
  setoid_rewrite elem_of_filterb in Ht.
  assert (∀ b, b ∈ boundaries (intervals e) ++ [valid_until_ms f] → (t <? b) = (now <? b)) as Hb.
  { intros b Hin. destruct (now <? b) eqn:Hn; [|lia]. specialize (Ht b (conj Hin Hn)). lia. }
  replace (evaluate p (schedule_intervals f) (Some t) (valid_until_ms f))
    with (evaluate p (schedule_intervals f) (Some now) (valid_until_ms f)).
  2:{ pose proof (Hb (valid_until_ms f)) as Hvu. rewrite elem_of_app, list_elem_of_singleton in Hvu.
      specialize (Hvu (or_intror eq_refl)).
      destruct (Z.lt_ge_cases t (valid_until_ms f)) as [Hlt|Hge].
      - symmetry. eapply evaluate_stable; [done| |lia|done]. intros b Hin Hn.
        apply Ht. rewrite elem_of_app. split; [by left|lia].
      - unfold evaluate, clock_ok. rewrite Hs. do 2 rewrite (proj2 (Z.leb_le MIN_CLOCK_MS _)) by lia.
        do 2 rewrite (proj2 (Z.leb_le (valid_until_ms f) _)) by lia. done. }
  unfold clock_ok. do 2 rewrite (proj2 (Z.leb_le MIN_CLOCK_MS _)) by lia. cbn [ok_or mbind result_bind].
  replace (List.filter (λ t0, t <? t0) (boundaries (intervals e) ++ [valid_until_ms f]))
    with (List.filter (λ t0, now <? t0) (boundaries (intervals e) ++ [valid_until_ms f])); [done|].
  symmetry. apply filter_ext_in. intros b Hin%list_elem_of_In. auto.
Qed.

(** The announced next transition is sound: until then, recomputing the
    selection at any later instant gives exactly the same selection. *)
Lemma selection_stable `{PolicyCodec} f gw now t s :
  from_snapshot (PolicySnapshot f) gw (Some now) = Ok s →
  now ≤ t → (∀ n, next_transition_ms s = Some n → t < n) →
  from_snapshot (PolicySnapshot f) gw (Some t) = Ok s.
Proof.
  intros Hs Hle Hnext. pose proof Hs as Hs'. apply from_snapshot_Ok in Hs' as (_ & _ & Hall & _ & Heq).
  rewrite Heq in Hnext. cbn [next_transition_ms] in Hnext. rewrite <- Hs. unfold from_snapshot.
  assert (∀ st, foldM (select_policy f (Some t)) st (sort_by policy_leb (policies f)) =
    foldM (select_policy f (Some now)) st (sort_by policy_leb (policies f))) as Hfold; [|by rewrite Hfold].
  assert (∀ p b, p ∈ ordered f → b ∈ transitions f (Some now) p → t < b) as Hb.
  { intros p b Hp Hin. pose proof (foldl_next_least (concat (transitions f (Some now) <$> ordered f))) as Hl.
    assert (b ∈ concat (transitions f (Some now) <$> ordered f)) as Hbin.
    { clear -Hp Hin. induction (ordered f) as [|q l IH]; [set_solver|]. rewrite fmap_cons. cbn [concat]. set_solver. }
    destruct (foldl next_of None _) as [n|]; [|by destruct (Hl b)].
    destruct Hl as [_ Hl]. specialize (Hl b Hbin). specialize (Hnext n eq_refl). lia. }
  rewrite Forall_forall in Hall. setoid_rewrite <- (elem_of_sort_by policy_leb) in Hall. fold (ordered f) in *.
  clear -Hall Hb Hle. induction (ordered f) as [|p l IH]; intros st; [done|]. cbn [foldM].
  rewrite (select_policy_stable f now); [|apply Hall; set_solver|done|intros b; apply Hb; set_solver].
  destruct (select_policy f (Some now) st p); cbn [mbind result_bind]; [|done].
  apply IH; [intros q Hq; apply Hall; set_solver|intros q b Hq; apply Hb; set_solver].
Qed.

(** ** A concrete snapshot *)

Module Example.
Definition now : Z := 1800000000150.
Definition client : string := "02:bb:cc:dd:ee:0f".
Definition selection : PrioritySelection :=
  match @from_snapshot PolicyWire.Example.codec (PolicySnapshot PolicyWire.Example.frame) "gw" (Some now) with
  | Ok s => s
  | Err _ => empty_selection
  end.
End Example.

Ltac select_example := vm_compute; reflexivity.

Lemma selection_blocked_witness : ∃ p, governs PolicyWire.Example.frame (Some Example.now) Example.client p ∧
  kind (action (spec p)) = Block.
Proof.
  apply (@selection_blocked PolicyWire.Example.codec PolicyWire.Example.frame "gw" (Some Example.now)
           Example.selection Example.client); [select_example|].
  apply (bool_decide_unpack _). by vm_compute.
Defined.

Lemma selection_totals_witness :
  is_least (λ u, total_in_force PolicyWire.Example.frame (Some Example.now) Example.client
    (λ p, action_download_bps (action (spec p)) = Some u)) (Some 64000).
Proof.
  destruct (@selection_totals PolicyWire.Example.codec PolicyWire.Example.frame "gw" (Some Example.now)
    Example.selection Example.client) as [Ht _]; [select_example|].
  assert (totals Example.selection !! Example.client = Some (mkTotalRates None (Some 64000) {["p2"]})) as Hr
    by select_example.
  rewrite Hr in Ht. apply Ht.
Defined.

Lemma selection_results_witness : sel_results Example.selection =
  [plain_result PolicyWire.Example.p1 Applied; plain_result PolicyWire.Example.p2 Applied].
Proof.
  rewrite (@selection_results PolicyWire.Example.codec PolicyWire.Example.frame "gw" (Some Example.now)
    Example.selection); select_example.
Defined.

Lemma selection_stable_witness :
  next_transition_ms Example.selection = Some 1800000000200 ∧
  @from_snapshot PolicyWire.Example.codec (PolicySnapshot PolicyWire.Example.frame) "gw" (Some 1800000000199) =
    Ok Example.selection.
Proof.
  assert (next_transition_ms Example.selection = Some 1800000000200) as Hn by select_example.
  split; [exact Hn|].
  apply (@selection_stable PolicyWire.Example.codec PolicyWire.Example.frame "gw" Example.now);
    [select_example|unfold Example.now; lia|]. rewrite Hn. intros n [= <-]. lia.
Defined.
