(* ===== verification/Shaper.v ===== *)
(** Traffic-shaping classes of the HTB backend
    (src/crates/agent/src/policy/shaper.rs): the saved shaping state and its
    validation, and the stable, collision-free allocation of client tags and
    application classes.  SHA-256 only seeds the search for a free tag; it is
    the operation of the class [Digest]. *)

From S2P Require Import Prelude Config.

Definition MAX_CLIENTS_PER_EGRESS : Z := 256.
Definition MAX_CLASS_TAG : Z := 256.
Definition MAX_APPLICATION_CLASSES_PER_EGRESS : Z := 4096.
Definition FIRST_APPLICATION_TAG : Z := 1.
Definition MAX_APPLICATION_TAG : Z := 127.
Definition FIRST_APPLICATION_CLASS_MINOR : Z := 2000.
Definition FIRST_APPLICATION_LEAF_MINOR : Z := 20000.
Definition CLIENT_MARK_SHIFT : Z := 16.
Definition CLIENT_MARK_MASK : Z := 33488896. (* 0x01ff_0000 *)
Definition APPLICATION_MARK_SHIFT : Z := 25.
Definition APPLICATION_MARK_MASK : Z := 4261412864. (* 0xfe00_0000 *)
Definition SHARED_DIRECTION_TAG : Z := 256.
Definition MAX_SHARED_CLIENTS_PER_DIRECTION : Z := 255.

(** Shifts of a [u32] drop the bits shifted out. *)
Definition client_mark_value (tag : Z) : Z := Z.land (Z.shiftl tag CLIENT_MARK_SHIFT mod 2 ^ 32) CLIENT_MARK_MASK.
Definition application_mark_value (tag : Z) : Z :=
  Z.land (Z.shiftl tag APPLICATION_MARK_SHIFT mod 2 ^ 32) APPLICATION_MARK_MASK.

Inductive Direction := Upload | Download.
#[export] Instance Direction_eq_dec : EqDecision Direction.
Proof. solve_decision. Defined.
#[export] Instance Direction_countable : Countable Direction.
Proof. by refine (inj_countable' (λ d, match d with Upload => true | Download => false end)
  (λ b : bool, if b then Upload else Download) _); intros []. Defined.

Definition direction_str (d : Direction) : string := match d with Upload => "upload" | Download => "download" end.

Record ClientClass := mkClient {
  gateway_id : string;
  mac : string;
  direction : Direction;
  interface : string;
  ifindex : Z;
  tag : Z;
  class_minor : Z;
  leaf_minor : Z;
  rate_bps : Z;
  has_total_budget : bool;
}.

Record ApplicationClass := mkApplication {
  app_policy_id : string;
  app_gateway_id : string;
  app_mac : string;
  app_direction : Direction;
  app_interface : string;
  app_ifindex : Z;
  app_tag : Z;
  app_class_minor : Z;
  parent_class_minor : Z;
  app_rate_bps : Z;
}.

Record ManagedInterface := mkManaged {
  shared_egress : bool;
  name : string;
  m_ifindex : Z;
  capacity_bps : Z;
  original_root_kind : string;
  clients : list ClientClass;
  application_classes : list ApplicationClass;
}.

Record ShapingState := mkShaping {
  schema_version : Z;
  upload_interface : option ManagedInterface;
  download_interface : option ManagedInterface;
  s_shared_egress : option ManagedInterface;
}.

Definition empty : ShapingState := mkShaping 1 None None None.

Definition interfaces (s : ShapingState) : list ManagedInterface :=
  omap (λ o, o) [upload_interface s; download_interface s; s_shared_egress s].

Definition is_empty (s : ShapingState) : bool := match interfaces s with [] => true | _ => false end.

Definition is_shared_tag (t : Z) : bool := negb (Z.land t SHARED_DIRECTION_TAG =? 0).

Definition valid_client_tag (c : ClientClass) (shared : bool) : bool :=
  if negb shared then in_range 1 MAX_CLASS_TAG (tag c)
  else ((tag c <? 512) && negb (Z.land (tag c) 255 =? 0)
        && Bool.eqb (is_shared_tag (tag c)) (bool_decide (direction c = Download)))%bool.

Definition client_class_minor (t : Z) (shared : bool) : Z :=
  if (shared && is_shared_tag t)%bool then 1000 + Z.land t 255 else 100 + t.

Definition default_class_minor (client_tag : Z) : Z := 400 + client_tag.
Definition application_leaf_minor (minor : Z) : Z := FIRST_APPLICATION_LEAF_MINOR + (minor - FIRST_APPLICATION_CLASS_MINOR).

(** The 100 ms token budget of a class. *)
Definition burst_bytes (rate : Z) : Z := clamp 2000 (16 * 1024 * 1024) (rate / 80).

(** ** Validation of a saved state *)

Inductive ShapingError :=
| UnsupportedSchema
| SharedWithDedicated
| LayoutMismatch
| InvalidInterface
| InvalidClient
| TooManyApplications
| OrphanApplication
| InvalidApplication
| DuplicateDefault
| Panic.

Definition known_root (k : string) : bool :=
  existsb (String.eqb k) [""; "fq_codel"; "pfifo_fast"; "noqueue"; "ifb"].

(** The checks of one client; the accumulator holds [tags] and [classes]. *)
Definition validate_client (i : ManagedInterface) (st : gset Z * gset Z) (c : ClientClass)
    : result ShapingError (gset Z * gset Z) :=
  let '(tags, classes) := st in
  _ ← reject_if (str_is_empty (gateway_id c) || negb (str_len (mac c) =? 17) || negb (ifindex c =? m_ifindex i)
        || negb (String.eqb (interface c) (name i)) || negb (valid_client_tag c (shared_egress i))
        || negb (class_minor c =? client_class_minor (tag c) (shared_egress i))
        || negb (leaf_minor c =? 1000 + tag c) || negb (in_capacity (rate_bps c))
        || (shared_egress i && (capacity_bps i <? rate_bps c))
        || bool_decide (tag c ∈ tags) || bool_decide (class_minor c ∈ classes))%bool InvalidClient;
  Ok ({[tag c]} ∪ tags, {[class_minor c]} ∪ classes).

(** [collect::<BTreeMap<_, _>>()]: a later client replaces an earlier one. *)
Definition clients_by_class (i : ManagedInterface) : gmap Z ClientClass :=
  foldl (λ m c, <[class_minor c := c]> m) ∅ (clients i).

Definition app_state : Type := gset (Z * Z) * gset (string * string * Direction) * gset Z.

Definition validate_application (i : ManagedInterface) (st : app_state) (a : ApplicationClass)
    : result ShapingError app_state :=
  let '(tags, keys, classes) := st in
  parent ← ok_or (clients_by_class i !! parent_class_minor a) OrphanApplication;
  _ ← reject_if (negb (in_range FIRST_APPLICATION_TAG MAX_APPLICATION_TAG (app_tag a))) InvalidApplication;
  _ ← reject_if (str_is_empty (app_policy_id a) || negb (String.eqb (app_gateway_id a) (gateway_id parent))
        || negb (String.eqb (app_mac a) (mac parent)) || negb (bool_decide (app_direction a = direction parent))
        || negb (String.eqb (app_interface a) (name i)) || negb (app_ifindex a =? m_ifindex i)
        || negb (in_range FIRST_APPLICATION_CLASS_MINOR
                   (FIRST_APPLICATION_CLASS_MINOR + MAX_APPLICATION_CLASSES_PER_EGRESS - 1) (app_class_minor a))
        || negb (in_range 64000 1000000000 (app_rate_bps a)) || (rate_bps parent <? app_rate_bps a)
        || bool_decide ((parent_class_minor a, app_tag a) ∈ tags)
        || bool_decide ((app_policy_id a, app_mac a, app_direction a) ∈ keys)
        || bool_decide (app_class_minor a ∈ classes))%bool InvalidApplication;
  Ok ({[(parent_class_minor a, app_tag a)]} ∪ tags, {[(app_policy_id a, app_mac a, app_direction a)]} ∪ keys,
      {[app_class_minor a]} ∪ classes).

(** Every client with application classes gets a default class. *)
Definition validate_default (i : ManagedInterface) (classes : gset Z) (parent_minor : Z) : result ShapingError (gset Z) :=
  parent ← ok_or (clients_by_class i !! parent_minor) Panic;
  let minor := default_class_minor (tag parent) in
  if bool_decide (minor ∈ classes) then Err DuplicateDefault else Ok ({[minor]} ∪ classes).

Definition validate_interface (names : gset string) (i : ManagedInterface) : result ShapingError (gset string) :=
  _ ← reject_if (str_is_empty (name i) || (15 <? str_len (name i)) || (m_ifindex i =? 0)
        || negb (in_capacity (capacity_bps i)) || negb (known_root (original_root_kind i))
        || bool_decide (name i ∈ names)
        || ((if shared_egress i then 2 * MAX_SHARED_CLIENTS_PER_DIRECTION else MAX_CLIENTS_PER_EGRESS)
            <? zlen (clients i)))%bool InvalidInterface;
  st ← foldM (validate_client i) (∅, ∅) (clients i);
  _ ← reject_if (MAX_APPLICATION_CLASSES_PER_EGRESS <? zlen (application_classes i)) TooManyApplications;
  st ← foldM (validate_application i) (∅, ∅, snd st) (application_classes i);
  _ ← foldM (validate_default i) (snd st)
        (btree_elements Z.leb (list_to_set (parent_class_minor <$> application_classes i)));
  Ok ({[name i]} ∪ names).

Definition shaping_validate (s : ShapingState) : result ShapingError unit :=
  let shared o := match o with Some i => shared_egress i | None => false end in
  _ ← reject_if (negb (schema_version s =? if bool_decide (is_Some (s_shared_egress s)) then 2 else 1)) UnsupportedSchema;
  _ ← reject_if (bool_decide (is_Some (s_shared_egress s))
        && (bool_decide (is_Some (upload_interface s)) || bool_decide (is_Some (download_interface s))))%bool
        SharedWithDedicated;
  _ ← reject_if (match s_shared_egress s with Some i => negb (shared_egress i) | None => false end
        || shared (upload_interface s) || shared (download_interface s))%bool LayoutMismatch;
  _ ← foldM validate_interface ∅ (interfaces s);
  Ok tt.

(** ** Rates *)

Record ClientRates := mkRates { upload_bps : option Z; download_bps : option Z }.

Definition min_rate (current candidate : option Z) : option Z :=
  match current, candidate with
  | Some l, Some r => Some (Z.min l r)
  | Some r, None | None, Some r => Some r
  | None, None => None
  end.

Definition add_limit (r : ClientRates) (up down : option Z) : ClientRates :=
  mkRates (min_rate (upload_bps r) up) (min_rate (download_bps r) down).

(** ** Seeds *)

(** Fields joined by NUL characters. *)
Fixpoint nul_join (parts : list string) : string :=
  match parts with
  | [] => EmptyString
  | [p] => p
  | p :: ps => String.append p (String (ascii_of_N 0) (nul_join ps))
  end.

Inductive AllocError :=
| ClientLimit
| InvalidClientRate
| DuplicatedTags
| NoFreeTag
| ApplicationLimit
| InvalidApplicationRate
| DuplicatedClassIds
| NoParent
| NoFreeApplicationTag
| NoFreeClassId
| ExceedsParent
| SharedClientLimit
| SharedTagsExhausted
| AllocPanic.

(** The first free candidate of a search with [count] probes. *)
Definition probe (count : Z) (candidate : Z → Z) (occupied : gset Z) : option Z :=
  List.find (λ c, bool_decide (c ∉ occupied)) (candidate <$> seqZ 0 count).

Section allocation.
Context `{Digest}.

(** [u16::from_be_bytes([digest[0], digest[1]])]. *)
Definition seed (parts : list string) : Z :=
  match sha256_digest (str_bytes (nul_join parts)) with
  | a :: b :: _ => a * 256 + b
  | _ => 0
  end.

Definition initial_tag (gw m : string) (d : Direction) (iface : string) (idx : Z) : Z :=
  seed ["netqmon-policy-class-v1"; gw; m; direction_str d; iface; dec_text idx] mod MAX_CLASS_TAG + 1.

Definition initial_application_tag (gw pid m : string) (d : Direction) (iface : string) (idx : Z) : Z :=
  seed ["netqmon-application-class-v1"; gw; pid; m; direction_str d; iface; dec_text idx] mod MAX_APPLICATION_TAG + 1.

Definition initial_application_class_minor (gw pid m : string) (d : Direction) (iface : string) (idx : Z) : Z :=
  FIRST_APPLICATION_CLASS_MINOR +
  seed ["netqmon-application-class-id-v1"; gw; pid; m; direction_str d; iface; dec_text idx]
    mod MAX_APPLICATION_CLASSES_PER_EGRESS.

(** ** Client tags *)

Section client_tags.
Context (gw : string) (d : Direction) (iface : string) (idx : Z) (rates : gmap string Z).

(** A saved class that still describes a wanted client of this egress. *)
Definition reusable (p : ClientClass) : bool :=
  (String.eqb (gateway_id p) gw && bool_decide (direction p = d) && String.eqb (interface p) iface
   && (ifindex p =? idx) && bool_decide (is_Some (rates !! mac p)) && in_range 1 MAX_CLASS_TAG (tag p))%bool.

Definition tag_state : Type := gmap string Z * gset Z.

Definition reuse_tag (st : tag_state) (p : ClientClass) : result AllocError tag_state :=
  if negb (reusable p) then Ok st
  else if bool_decide (tag p ∈ snd st) then Err DuplicatedTags
  else Ok (<[mac p := tag p]> (fst st), {[tag p]} ∪ snd st).

Definition tag_candidate (first offset : Z) : Z := (first - 1 + offset) mod MAX_CLASS_TAG + 1.

Definition new_tag (st : tag_state) (m : string) : result AllocError tag_state :=
  if bool_decide (is_Some (fst st !! m)) then Ok st
  else
    t ← ok_or (probe MAX_CLASS_TAG (tag_candidate (initial_tag gw m d iface idx)) (snd st)) NoFreeTag;
    Ok (<[m := t]> (fst st), {[t]} ∪ snd st).

Definition client_class (assigned : gmap string Z) (e : string * Z) : result AllocError ClientClass :=
  t ← ok_or (assigned !! fst e) AllocPanic;
  Ok (mkClient gw (fst e) d iface idx t (100 + t) (1000 + t) (snd e) true).

Definition allocate_classes (previous : list ClientClass) : result AllocError (list ClientClass) :=
  _ ← reject_if (MAX_CLIENTS_PER_EGRESS <? Z.of_nat (size rates)) ClientLimit;
  _ ← reject_if (existsb (λ e, negb (in_capacity (snd e))) (btree_entries str_leb rates)) InvalidClientRate;
  st ← foldM reuse_tag (∅, ∅) previous;
  st ← foldM new_tag st (fst <$> btree_entries str_leb rates);
  mapR (client_class (fst st)) (btree_entries str_leb rates).

(** Shared egress: tags of 8 bits, with a ninth for the direction. *)
Definition logical_client (c : ClientClass) : ClientClass :=
  mkClient (gateway_id c) (mac c) (direction c) (interface c) (ifindex c) (Z.land (tag c) 255) (class_minor c)
    (leaf_minor c) (rate_bps c) (has_total_budget c).

Definition with_tag (c : ClientClass) (t : Z) : ClientClass :=
  mkClient (gateway_id c) (mac c) (direction c) (interface c) (ifindex c) t (client_class_minor t true) (1000 + t)
    (rate_bps c) (has_total_budget c).

(** One iteration of the renumbering loop; the accumulator holds the clients
    done so far and the tags in use. *)
Definition shared_tag (st : list ClientClass * gset Z) (c : ClientClass) : result AllocError (list ClientClass * gset Z) :=
  '(t, used) ← (if tag c =? 256 then
                  t ← ok_or (List.find (λ t, bool_decide (t ∉ snd st)) (seqZ 1 255)) SharedTagsExhausted;
                  Ok (t, {[t]} ∪ snd st)
                else Ok (tag c, snd st));
  let t := if bool_decide (d = Download) then Z.lor t SHARED_DIRECTION_TAG else t in
  Ok (fst st ++ [with_tag c t], used).

Definition allocate_shared_client_classes (previous : list ClientClass) : result AllocError (list ClientClass) :=
  _ ← reject_if (MAX_SHARED_CLIENTS_PER_DIRECTION <? Z.of_nat (size rates)) SharedClientLimit;
  let logical_previous :=
    logical_client <$> List.filter (λ c, bool_decide (direction c = d) && valid_client_tag c true)%bool previous in
  cs ← allocate_classes logical_previous;
  st ← foldM shared_tag ([], list_to_set (tag <$> cs)) cs;
  Ok (fst st).
End client_tags.

(** ** Application classes *)

Section application_classes.
Context (gw : string) (d : Direction) (iface : string) (idx : Z).
Context (rates : gmap (string * string) Z) (cs : list ClientClass).

(** [BTreeMap] of the clients of this direction, by MAC; later ones win. *)
Definition parents : gmap string ClientClass :=
  foldl (λ m c, <[mac c := c]> m) ∅ (List.filter (λ c, bool_decide (direction c = d)) cs).

Record AppState := mkAppState {
  assigned : gmap (string * string) Z;
  occupied : gmap Z (gset Z);
  assigned_minors : gmap (string * string) Z;
  occupied_minors : gset Z;
}.

Definition class_minor_ok (minor : Z) : bool :=
  in_range FIRST_APPLICATION_CLASS_MINOR (FIRST_APPLICATION_CLASS_MINOR + MAX_APPLICATION_CLASSES_PER_EGRESS - 1) minor.

Definition tags_of (st : AppState) (minor : Z) : gset Z := default ∅ (occupied st !! minor).

Definition reuse_application (st : AppState) (p : ApplicationClass) : result AllocError AppState :=
  let key := (app_policy_id p, app_mac p) in
  match parents !! app_mac p with
  | None => Ok st
  | Some parent =>
    if (negb (String.eqb (app_gateway_id p) gw) || negb (bool_decide (app_direction p = d))
        || negb (String.eqb (app_interface p) iface) || negb (app_ifindex p =? idx)
        || negb (bool_decide (is_Some (rates !! key))) || negb (parent_class_minor p =? class_minor parent)
        || negb (in_range FIRST_APPLICATION_TAG MAX_APPLICATION_TAG (app_tag p)))%bool then Ok st
    else if bool_decide (app_tag p ∈ tags_of st (class_minor parent)) then Err DuplicatedTags
    else if (negb (class_minor_ok (app_class_minor p)) || bool_decide (app_class_minor p ∈ occupied_minors st))%bool
    then Err DuplicatedClassIds
    else Ok (mkAppState (<[key := app_tag p]> (assigned st))
               (<[class_minor parent := {[app_tag p]} ∪ tags_of st (class_minor parent)]> (occupied st))
               (<[key := app_class_minor p]> (assigned_minors st))
               ({[app_class_minor p]} ∪ occupied_minors st))
  end.

Definition app_tag_candidate (first offset : Z) : Z := (first - 1 + offset) mod MAX_APPLICATION_TAG + 1.
Definition minor_candidate (first offset : Z) : Z :=
  FIRST_APPLICATION_CLASS_MINOR +
  (first - FIRST_APPLICATION_CLASS_MINOR + offset) mod MAX_APPLICATION_CLASSES_PER_EGRESS.

(** The two searches of the loop over the wanted classes. *)
Definition new_application_tag (st : AppState) (key : string * string) : result AllocError AppState :=
  if bool_decide (is_Some (assigned st !! key)) then Ok st
  else
    parent ← ok_or (parents !! snd key) NoParent;
    let first := initial_application_tag gw (fst key) (snd key) d iface idx in
    t ← ok_or (probe MAX_APPLICATION_TAG (app_tag_candidate first) (tags_of st (class_minor parent)))
          NoFreeApplicationTag;
    Ok (mkAppState (<[key := t]> (assigned st))
          (<[class_minor parent := {[t]} ∪ tags_of st (class_minor parent)]> (occupied st))
          (assigned_minors st) (occupied_minors st)).

Definition new_application_minor (st : AppState) (key : string * string) : result AllocError AppState :=
  if bool_decide (is_Some (assigned_minors st !! key)) then Ok st
  else
    let first := initial_application_class_minor gw (fst key) (snd key) d iface idx in
    minor ← ok_or (probe MAX_APPLICATION_CLASSES_PER_EGRESS (minor_candidate first) (occupied_minors st)) NoFreeClassId;
    Ok (mkAppState (assigned st) (occupied st) (<[key := minor]> (assigned_minors st))
          ({[minor]} ∪ occupied_minors st)).

Definition new_application (st : AppState) (key : string * string) : result AllocError AppState :=
  st ← new_application_tag st key; new_application_minor st key.

Definition application_class (st : AppState) (e : (string * string) * Z) : result AllocError ApplicationClass :=
  let '((pid, m), rate) := e in
  parent ← ok_or (parents !! m) NoParent;
  if rate_bps parent <? rate then Err ExceedsParent
  else
    t ← ok_or (assigned st !! (pid, m)) AllocPanic;
    minor ← ok_or (assigned_minors st !! (pid, m)) AllocPanic;
    Ok (mkApplication pid gw m d iface idx t minor (class_minor parent) rate).

(** Keys are ordered by policy, then by MAC. *)
Definition key_leb (a b : string * string) : bool := pair_leb String.eqb str_leb str_leb a b.

Definition allocate_application_classes_reserved (previous : list ApplicationClass) (reserved_minors : gset Z)
    : result AllocError (list ApplicationClass) :=
  _ ← reject_if (MAX_APPLICATION_CLASSES_PER_EGRESS <? Z.of_nat (size rates)) ApplicationLimit;
  _ ← reject_if (existsb (λ e, negb (in_range 64000 1000000000 (snd e))) (btree_entries key_leb rates))
        InvalidApplicationRate;
  st ← foldM reuse_application (mkAppState ∅ ∅ ∅ reserved_minors) previous;
  st ← foldM new_application st (fst <$> btree_entries key_leb rates);
  mapR (application_class st) (btree_entries key_leb rates).

Definition allocate_application_classes (previous : list ApplicationClass) : result AllocError (list ApplicationClass) :=
  allocate_application_classes_reserved previous ∅.
End application_classes.
End allocation.

(** ** Searching for a free number *)

Lemma probe_Some count cand occ t : probe count cand occ = Some t →
  t ∉ occ ∧ ∃ o, 0 ≤ o < count ∧ t = cand o.
Proof.
  unfold probe. intros Hf. apply find_some in Hf as [Hin Hp]. apply list_elem_of_In in Hin.
  apply bool_decide_eq_true in Hp. apply list_elem_of_fmap in Hin as (o & -> & Ho). apply elem_of_seqZ in Ho.
  split; [done|]. exists o. split; [lia|done].
Qed.

(** An injective search fails only when everything is taken. *)
Lemma probe_None count cand occ :
  0 ≤ count → (∀ o o', 0 ≤ o < count → 0 ≤ o' < count → cand o = cand o' → o = o') →
  probe count cand occ = None → count ≤ Z.of_nat (size occ).
Proof.
  intros Hc Hinj Hf. assert (NoDup (cand <$> seqZ 0 count)) as Hnd.
  { apply NoDup_fmap_2_strong; [|apply NoDup_seqZ]. intros x y Hx Hy. apply elem_of_seqZ in Hx, Hy. apply Hinj; lia. }
  assert (list_to_set (cand <$> seqZ 0 count) ⊆ occ) as Hsub.
  { intros t Ht. apply elem_of_list_to_set in Ht. unfold probe in Hf.
    pose proof (find_none _ _ Hf t) as Hp. rewrite <- list_elem_of_In in Hp. specialize (Hp Ht). simpl in Hp.
    by apply bool_decide_eq_false, dec_stable in Hp. }
  apply subseteq_size in Hsub. rewrite size_list_to_set, length_fmap, length_seqZ in Hsub by done. lia.
Qed.

(** The candidates of a circular search are distinct. *)
Lemma mod_shift_inj n a o o' : 0 ≤ o < n → 0 ≤ o' < n → (a + o) mod n = (a + o') mod n → o = o'.
Proof.
  intros Ho Ho' He. pose proof (Z.div_mod (a + o) n ltac:(lia)). pose proof (Z.div_mod (a + o') n ltac:(lia)).
  set (q := (a + o) / n) in *. set (q' := (a + o') / n) in *.
  assert (o - o' = n * (q - q')) as Hd by (rewrite Z.mul_sub_distr_l; lia).
  destruct (Z.lt_trichotomy q q') as [?|[?|?]]; [|subst q; nia|]; exfalso; nia.
Qed.

Lemma tag_candidate_range first o : 1 ≤ tag_candidate first o ≤ MAX_CLASS_TAG.
Proof. unfold tag_candidate. change MAX_CLASS_TAG with 256. pose proof (Z.mod_pos_bound (first - 1 + o) 256). lia. Qed.

Lemma tag_candidate_inj first o o' : 0 ≤ o < MAX_CLASS_TAG → 0 ≤ o' < MAX_CLASS_TAG →
  tag_candidate first o = tag_candidate first o' → o = o'.
Proof. unfold tag_candidate. intros Ho Ho' He. apply (mod_shift_inj MAX_CLASS_TAG (first - 1)); lia. Qed.

(** ** Client tags *)

(** Assigned tags are occupied, distinct and in range. *)
Record tag_inv (st : tag_state) : Prop := mkTagInv {
  ti_range : ∀ t, t ∈ snd st → 1 ≤ t ≤ MAX_CLASS_TAG;
  ti_occupied : ∀ m t, fst st !! m = Some t → t ∈ snd st;
  ti_inj : ∀ m m' t, fst st !! m = Some t → fst st !! m' = Some t → m = m';
}.

Lemma tag_inv_insert a o m t :
  tag_inv (a, o) → 1 ≤ t ≤ MAX_CLASS_TAG → t ∉ o → tag_inv (<[m := t]> a, {[t]} ∪ o).
Proof.
  intros [Hr Ho Hi] Ht Hfree. cbn in *. split; cbn.
  - intros t'. rewrite elem_of_union, elem_of_singleton. intros [->|?]; auto.
  - intros m' t'. rewrite lookup_insert_Some. intros [[<- <-]|[_ ?%Ho]]; set_solver.
  - intros m1 m2 t'. rewrite !lookup_insert_Some.
    intros [[<- <-]|[_ H1]] [[<- Heq]|[_ H2]]; [done|by apply Ho in H2|subst; by apply Ho in H1|eauto].
Qed.

Section client_tags.
Context `{Digest} (gw : string) (d : Direction) (iface : string) (idx : Z) (rates : gmap string Z).
Local Abbreviation kept := (List.filter (reusable gw d iface idx rates)).

Lemma reuse_step st p st' : tag_inv st → reuse_tag gw d iface idx rates st p = Ok st' →
  tag_inv st' ∧
  (if reusable gw d iface idx rates p then tag p ∉ snd st ∧ st' = (<[mac p := tag p]> (fst st), {[tag p]} ∪ snd st)
   else st' = st).
Proof.
  intros Hinv Hs. unfold reuse_tag in Hs. destruct (reusable _ _ _ _ _ p) eqn:Hr; cbn [negb] in Hs; [|by simplify_eq].
  case_bool_decide; simplify_eq. split; [|done]. destruct st. apply tag_inv_insert; [done| |done].
  unfold reusable in Hr. split_bools. by apply in_range_spec.
Qed.

Lemma reuse_loop prev st st' :
  tag_inv st → foldM (reuse_tag gw d iface idx rates) st prev = Ok st' →
  tag_inv st' ∧ NoDup (tag <$> kept prev) ∧ (∀ p, p ∈ kept prev → tag p ∉ snd st) ∧
  (∀ m t, fst st' !! m = Some t → fst st !! m = Some t ∨ ∃ p, p ∈ kept prev ∧ mac p = m ∧ tag p = t) ∧
  (∀ m, is_Some (fst st !! m) → is_Some (fst st' !! m)) ∧
  (∀ p, p ∈ kept prev → is_Some (fst st' !! mac p)).
Proof.
  revert st. induction prev as [|p prev IH]; intros st Hinv Hst; cbn [foldM] in Hst.
  { injection Hst as <-. split_and!; [done|constructor|set_solver|by left|done|set_solver]. }
  apply bind_Ok in Hst as (st1 & H1 & Hst). destruct (reuse_step _ _ _ Hinv H1) as [Hinv1 Hstep].
  destruct (IH _ Hinv1 Hst) as (Hinv' & Hnd & Hfree & Horig & Hmono & Hkept). cbn [List.filter].
  destruct (reusable gw d iface idx rates p).
  - destruct Hstep as [Hp ->]. cbn [fst snd] in *. rewrite fmap_cons, NoDup_cons. split_and!; [done| |done| | | |].
    + intros (q & Heq & Hq)%list_elem_of_fmap. apply Hfree in Hq. set_solver.
    + intros q [->|Hq]%elem_of_cons; [done|]. apply Hfree in Hq. set_solver.
    + intros m t Hm. apply Horig in Hm as [[[<- <-]|[_ ?]]%lookup_insert_Some|(q & ? & ? & ?)];
        [right; exists p|by left|right; exists q]; set_solver.
    + intros m Hm. apply Hmono. rewrite lookup_insert_is_Some'. by right.
    + intros q [->|Hq]%elem_of_cons; [apply Hmono; by rewrite lookup_insert_eq|by apply Hkept].
  - subst st1. done.
Qed.

Lemma reuse_total prev st :
  NoDup (mac <$> kept prev) → NoDup (tag <$> kept prev) →
  (∀ p, p ∈ kept prev → tag p ∉ snd st ∧ fst st !! mac p = None) →
  size (snd st) = size (fst st) →
  ∃ st', foldM (reuse_tag gw d iface idx rates) st prev = Ok st' ∧ size (snd st') = size (fst st').
Proof.
  revert st. induction prev as [|p prev IH]; intros st Hm Ht Hfree Hsize; cbn [foldM]; [by eexists|].
  cbn [List.filter] in *. destruct (reusable gw d iface idx rates p) eqn:Hr.
  2:{ replace (reuse_tag gw d iface idx rates st p) with (Ok (E := AllocError) st)
        by (unfold reuse_tag; by rewrite Hr). by apply IH. }
  rewrite fmap_cons, NoDup_cons in Hm. rewrite fmap_cons, NoDup_cons in Ht. destruct Hm as [Hmp Hm], Ht as [Htp Ht].
  destruct (Hfree p) as [Hp1 Hp2]; [set_solver|].
  replace (reuse_tag gw d iface idx rates st p)
    with (Ok (E := AllocError) (<[mac p := tag p]> (fst st), {[tag p]} ∪ snd st))
    by (unfold reuse_tag; rewrite Hr, bool_decide_eq_false_2 by done; done).
  cbn [mbind result_bind]. apply IH; [done|done| |].
  - intros q Hq. cbn. destruct (Hfree q) as [Hq1 Hq2]; [set_solver|].
    assert (tag q ≠ tag p). { intros He. apply Htp. rewrite <- He. by apply list_elem_of_fmap_2. }
    assert (mac p ≠ mac q). { intros He. apply Hmp. rewrite He. by apply list_elem_of_fmap_2. }
    split; [set_solver|by rewrite lookup_insert_ne].
  - cbn. rewrite size_union, size_singleton, map_size_insert_None by (done || set_solver). lia.
Qed.

Lemma new_tag_step st m st' : tag_inv st → new_tag gw d iface idx st m = Ok st' →
  tag_inv st' ∧ fst st ⊆ fst st' ∧ dom (fst st') = {[m]} ∪ dom (fst st) ∧
  (size (snd st) = size (fst st) → size (snd st') = size (fst st')).
Proof.
  intros Hinv Hst. unfold new_tag in Hst. case_bool_decide as Hm; simplify_eq.
  { split_and!; [done|done| |done]. apply elem_of_dom in Hm. set_solver. }
  apply bind_Ok in Hst as (t & Ht%ok_or_Ok & [= <-]). apply probe_Some in Ht as (Hfree & o & _ & ->).
  destruct st as [a oc]. apply eq_None_not_Some in Hm. cbn in *. split_and!.
  - apply tag_inv_insert; [done|apply tag_candidate_range|done].
  - by apply insert_subseteq.
  - apply dom_insert_L.
  - intros Hs. rewrite size_union, size_singleton, map_size_insert_None by (done || set_solver). lia.
Qed.

Lemma new_tag_loop ms st st' : tag_inv st → foldM (new_tag gw d iface idx) st ms = Ok st' →
  tag_inv st' ∧ fst st ⊆ fst st' ∧ dom (fst st') = list_to_set ms ∪ dom (fst st).
Proof.
  revert st. induction ms as [|m ms IH]; intros st Hinv Hst; cbn [foldM] in Hst.
  { injection Hst as <-. split_and!; [done|done|set_solver]. }
  apply bind_Ok in Hst as (st1 & H1 & Hst). apply new_tag_step in H1 as (Hinv1 & Hsub1 & Hdom1 & _); [|done].
  destruct (IH _ Hinv1 Hst) as (Hinv2 & Hsub2 & Hdom2). split_and!; [done|by etrans|].
  rewrite Hdom2, Hdom1. set_solver.
Qed.

Lemma new_tag_total ms st : tag_inv st → size (snd st) = size (fst st) →
  Z.of_nat (size (list_to_set ms ∪ dom (fst st) : gset string)) ≤ MAX_CLASS_TAG →
  ∃ st', foldM (new_tag gw d iface idx) st ms = Ok st'.
Proof.
  revert st. induction ms as [|m ms IH]; intros st Hinv Hs Hsize; [by eexists|]. cbn [foldM].
  destruct (new_tag gw d iface idx st m) as [st1|e] eqn:H1.
  - destruct (new_tag_step _ _ _ Hinv H1) as (Hinv1 & _ & Hdom1 & Hs1). apply IH; [done|auto|].
    rewrite Hdom1. etrans; [|exact Hsize]. apply inj_le, subseteq_size. set_solver.
  - exfalso. unfold new_tag in H1. case_bool_decide as Hm; [done|].
    destruct (probe _ _ _) eqn:Hp; [done|]. apply probe_None in Hp; [|by vm_compute|apply tag_candidate_inj].
    apply eq_None_not_Some, not_elem_of_dom in Hm. rewrite Hs, <- size_dom in Hp.
    assert (size ({[m]} ∪ dom (fst st)) ≤ size (list_to_set (m :: ms) ∪ dom (fst st) : gset string))%nat as Hle
      by (apply subseteq_size; set_solver).
    rewrite size_union, size_singleton in Hle by set_solver. lia.
Qed.

(** What the client classes of an egress promise. *)
Record client_allocation (previous out : list ClientClass) : Prop := mkClientAllocation {
  ca_clients : mac <$> out = fst <$> btree_entries str_leb rates;
  ca_fields : Forall (λ c, ∃ t r, c = mkClient gw (mac c) d iface idx t (100 + t) (1000 + t) r true ∧
    rates !! mac c = Some r ∧ 1 ≤ t ≤ MAX_CLASS_TAG) out;
  ca_tags : NoDup (tag <$> out);
  ca_stable : ∀ p c, NoDup (mac <$> kept previous) → p ∈ kept previous → c ∈ out → mac c = mac p → tag c = tag p;
}.

Lemma client_classes_ok (a : gmap string Z) (o : gset Z) es out :
  tag_inv (a, o) → NoDup (fst <$> es) → (∀ e, e ∈ es → rates !! fst e = Some (snd e)) →
  mapR (client_class gw d iface idx a) es = Ok out →
  mac <$> out = fst <$> es ∧
  Forall (λ c, ∃ t r, c = mkClient gw (mac c) d iface idx t (100 + t) (1000 + t) r true ∧
    rates !! mac c = Some r ∧ a !! mac c = Some t ∧ 1 ≤ t ≤ MAX_CLASS_TAG) out ∧
  NoDup (tag <$> out).
Proof.
  intros Hinv Hnd Hes Hm. apply mapR_Ok in Hm. revert Hnd Hes. induction Hm as [|e c es out He Hm IH]; intros Hnd Hes.
  { split_and!; [done|constructor|constructor]. }
  rewrite fmap_cons, NoDup_cons in Hnd. destruct Hnd as [Hnin Hnd].
  destruct (IH Hnd) as (Hmac & Hall & Htags); [intros e' He'; apply Hes; set_solver|].
  unfold client_class in He. apply bind_Ok in He as (t & Ht%ok_or_Ok & [= <-]).
  rewrite !fmap_cons. cbn [mac tag]. split_and!; [by rewrite Hmac| |].
  - constructor; [|done]. exists t, (snd e). cbn. split_and!; [done|apply Hes; set_solver|done| |].
    all: apply (ti_range _ Hinv), (ti_occupied _ Hinv _ _ Ht).
  - constructor; [|done]. intros (c & Heq & Hc)%list_elem_of_fmap. rewrite Forall_forall in Hall.
    destruct (Hall c Hc) as (t' & r & Hcc & _ & Ha & _). rewrite Hcc in Heq. cbn in Heq. subst t'.
    apply Hnin. rewrite <- Hmac, (ti_inj _ Hinv (fst e) (mac c) t Ht Ha). by apply list_elem_of_fmap_2.
Qed.

Lemma tag_inv_empty : tag_inv (∅, ∅).
Proof. split; cbn; [set_solver|intros ??; by rewrite lookup_empty..]. Qed.

Lemma rate_keys_dom {K V} `{Countable K} (leb : K → K → bool) (rs : gmap K V) :
  list_to_set (fst <$> btree_entries leb rs) = dom rs.
Proof.
  apply set_eq. intros m. rewrite elem_of_list_to_set, elem_of_dom. unfold is_Some. rewrite list_elem_of_fmap. split.
  - intros ([m' r] & -> & Hin%elem_of_btree_entries). eauto.
  - intros [r Hr]. exists (m, r). by rewrite elem_of_btree_entries.
Qed.

(** The wanted clients include all those whose tag is reused. *)
Lemma kept_wanted st previous : foldM (reuse_tag gw d iface idx rates) (∅, ∅) previous = Ok st →
  dom (fst st) ⊆ dom rates.
Proof.
  intros Hst m [t Hm]%elem_of_dom. pose proof (reuse_loop _ _ _ tag_inv_empty Hst) as (_ & _ & _ & Horig & _).
  apply Horig in Hm as [Hm|(p & Hp & <- & _)]; [cbn in Hm; by rewrite lookup_empty in Hm|].
  apply list_elem_of_In, filter_In in Hp as [_ Hp]. unfold reusable in Hp. split_bools. by apply elem_of_dom.
Qed.

Definition rates_ok : Prop := ∀ m r, rates !! m = Some r → in_capacity r = true.

Lemma rates_ok_spec : existsb (λ e, negb (in_capacity (snd e))) (btree_entries str_leb rates) = false ↔ rates_ok.
Proof.
  rewrite existsb_false, Forall_forall. unfold rates_ok. split.
  - intros Hc m r Hr. specialize (Hc (m, r)). rewrite elem_of_btree_entries in Hc. by apply negb_false_iff, Hc.
  - intros Hc [m r] Hin%elem_of_btree_entries. cbn. by rewrite (Hc m r).
Qed.

Lemma allocate_classes_total previous :
  NoDup (mac <$> kept previous) → NoDup (tag <$> kept previous) →
  Z.of_nat (size rates) ≤ MAX_CLIENTS_PER_EGRESS → rates_ok →
  ∃ out, allocate_classes gw d iface idx rates previous = Ok out.
Proof.
  intros Hmacs Htags Hn Hcap. destruct (reuse_total previous (∅, ∅) Hmacs Htags) as (st & Hst & Hsize); [|done|].
  { intros p _. cbn. split; [set_solver|by rewrite lookup_empty]. }
  pose proof (reuse_loop _ _ _ tag_inv_empty Hst) as (Hinv & _). pose proof (kept_wanted _ _ Hst) as Hdom.
  destruct (new_tag_total (fst <$> btree_entries str_leb rates) st Hinv Hsize) as (st' & Hst').
  { rewrite rate_keys_dom. replace (dom rates ∪ dom (fst st)) with (dom rates) by set_solver. by rewrite size_dom. }
  destruct (new_tag_loop _ _ _ Hinv Hst') as (_ & _ & Hdom').
  unfold allocate_classes. setoid_rewrite reject_seq. setoid_rewrite reject_seq.
  destruct (mapR (client_class gw d iface idx (fst st')) (btree_entries str_leb rates)) as [out|e] eqn:Hout.
  - exists out. split_and!; [lia|by apply rates_ok_spec|]. rewrite Hst. cbn [mbind result_bind]. by rewrite Hst'.
  - exfalso. revert Hout. apply mapR_never. intros [m r] Hin%elem_of_btree_entries e'. unfold client_class. cbn.
    assert (is_Some (fst st' !! m)) as [t ->]; [|done].
    apply elem_of_dom. rewrite Hdom', rate_keys_dom, elem_of_union, elem_of_dom. left. eauto.
Qed.

Lemma allocate_classes_sound previous out :
  allocate_classes gw d iface idx rates previous = Ok out →
  Z.of_nat (size rates) ≤ MAX_CLIENTS_PER_EGRESS ∧ rates_ok ∧ NoDup (tag <$> kept previous) ∧
  client_allocation previous out.
Proof.
  intros Hout. unfold allocate_classes in Hout. rewrite !reject_seq, rates_ok_spec in Hout.
  destruct Hout as (Hn & Hcap & Hout).
  apply bind_Ok in Hout as (st & Hst & Hout). apply bind_Ok in Hout as (st' & Hst' & Hout).
  pose proof (reuse_loop _ _ _ tag_inv_empty Hst) as (Hinv & Hnd & _ & Horig & _ & Hkept).
  destruct (new_tag_loop _ _ _ Hinv Hst') as (Hinv' & Hsub & _). destruct st' as [a o].
  destruct (client_classes_ok _ _ _ _ Hinv' ltac:(apply NoDup_btree_keys)
    ltac:(by intros [m r] ?%elem_of_btree_entries) Hout) as (Hmac & Hall & Htags).
  split_and!; [lia|done|done|]. split; [done| |done|].
  { eapply Forall_impl; [exact Hall|]. naive_solver. }
  intros p c Hnd' Hp Hc Heq. rewrite Forall_forall in Hall. destruct (Hall c Hc) as (t & r & Hcc & _ & Ha & _).
  rewrite Hcc. cbn. destruct (Hkept p Hp) as [t' Ht']. pose proof (lookup_weaken _ _ _ _ Ht' Hsub) as Ha'.
  cbn in Ha'. rewrite Heq in Ha. rewrite Ha in Ha'. injection Ha' as <-.
  apply Horig in Ht' as [Hm|(q & Hq & Hqm & <-)]; [cbn in Hm; by rewrite lookup_empty in Hm|].
  by rewrite (NoDup_key_inj mac _ q p Hnd' Hq Hp Hqm).
Qed.

(** The client classes of an egress are allocated whenever the rates fit
    (at most 256 of them, each within the capacity range) and the reusable
    saved tags do not collide, and then soundly: one class per client, with
    distinct tags from 1 through 256 and the class and leaf numbers derived
    from them, and every client keeps the tag it already had. *)
Lemma allocate_classes_correct previous :
  NoDup (mac <$> kept previous) →
  ((∃ out, allocate_classes gw d iface idx rates previous = Ok out) ↔
   Z.of_nat (size rates) ≤ MAX_CLIENTS_PER_EGRESS ∧ rates_ok ∧ NoDup (tag <$> kept previous)) ∧
  ∀ out, allocate_classes gw d iface idx rates previous = Ok out → client_allocation previous out.
Proof.
  intros Hmacs. split; [split|].
  - intros [out Hout]. apply allocate_classes_sound in Hout. naive_solver.
  - intros (? & ? & ?). by apply allocate_classes_total.
  - intros out Hout. by apply allocate_classes_sound.
Qed.

(** ** Shared egress *)

(** The tag on the wire of a client's 8-bit tag. *)
Definition physical (t : Z) : Z := if bool_decide (d = Download) then Z.lor t SHARED_DIRECTION_TAG else t.

Definition physical_ok (t : Z) : bool :=
  ((physical t =? t + (if bool_decide (d = Download) then 256 else 0))
   && (physical t <? 512) && (Z.land (physical t) 255 =? t)
   && Bool.eqb (is_shared_tag (physical t)) (bool_decide (d = Download)))%bool.

Lemma physical_spec t : 1 ≤ t ≤ 255 → physical_ok t = true.
Proof.
  intros Ht. assert (forallb physical_ok (seqZ 1 255) = true) as Hall by (unfold physical_ok, physical; destruct d; by vm_compute).
  rewrite forallb_forall in Hall. apply Hall, list_elem_of_In, elem_of_seqZ. lia.
Qed.

Lemma free_shared_tag (used : gset Z) : 256 ∈ used → Z.of_nat (size used) ≤ 255 →
  ∃ t, List.find (λ t, bool_decide (t ∉ used)) (seqZ 1 255) = Some t ∧ 1 ≤ t ≤ 255 ∧ t ∉ used.
Proof.
  intros H256 Hs. destruct (List.find _ _) as [t|] eqn:Hf.
  - apply find_some in Hf as [Hin%list_elem_of_In Hp]. apply elem_of_seqZ in Hin. split_bools. exists t. split_and!; (done || lia).
  - exfalso. assert (list_to_set (seqZ 1 256) ⊆ used) as Hsub.
    { intros t Ht%elem_of_list_to_set. apply elem_of_seqZ in Ht. destruct (decide (t = 256)) as [->|]; [done|].
      pose proof (find_none _ _ Hf t) as Hp. rewrite <- list_elem_of_In, elem_of_seqZ in Hp.
      specialize (Hp ltac:(lia)). by apply bool_decide_eq_false, dec_stable in Hp. }
    apply subseteq_size in Hsub. rewrite size_list_to_set, length_seqZ in Hsub by apply NoDup_seqZ. lia.
Qed.

Lemma shared_tag_spare acc used c t : tag c = 256 →
  List.find (λ t, bool_decide (t ∉ used)) (seqZ 1 255) = Some t →
  shared_tag d (acc, used) c = Ok (acc ++ [with_tag c (physical t)], {[t]} ∪ used).
Proof. intros Ht Hf. unfold shared_tag. rewrite Ht. cbn [Z.eqb Pos.eqb fst snd]. by rewrite Hf. Qed.

Lemma shared_tag_kept acc used c : tag c ≠ 256 →
  shared_tag d (acc, used) c = Ok (acc ++ [with_tag c (physical (tag c))], used).
Proof. intros Ht. unfold shared_tag. by rewrite (proj2 (Z.eqb_neq _ _)) by done. Qed.

Lemma shared_loop cs acc used :
  NoDup (tag <$> cs) → (∀ c, c ∈ cs → 1 ≤ tag c ≤ 256 ∧ tag c ∈ used) →
  (256 ∈ tag <$> cs → Z.of_nat (size used) ≤ 255) →
  ∃ ts used', foldM (shared_tag d) (acc, used) cs = Ok (acc ++ zip_with (λ c t, with_tag c (physical t)) cs ts, used') ∧
    length ts = length cs ∧ NoDup ts ∧ (∀ t, t ∈ ts → 1 ≤ t ≤ 255 ∧ (t ∈ tag <$> cs ∨ t ∉ used)).
Proof.
  revert acc used. induction cs as [|c cs IH]; intros acc used Hnd Hr Hs.
  { exists [], used. cbn. rewrite app_nil_r. split_and!; [done|done|constructor|set_solver]. }
  rewrite fmap_cons, NoDup_cons in Hnd. destruct Hnd as [Hnin Hnd]. destruct (Hr c) as [Hc Hcu]; [set_solver|].
  cbn [foldM]. destruct (Z.eq_dec (tag c) 256) as [Heq|Hne].
  - destruct (free_shared_tag used) as (t & Hf & Ht & Hfree); [congruence|apply Hs; rewrite <- Heq; set_solver|].
    rewrite (shared_tag_spare acc used c t Heq Hf). clear Hf. cbn [mbind result_bind].
    destruct (IH (acc ++ [with_tag c (physical t)]) ({[t]} ∪ used)) as (ts & used' & Hts & Hlen & Hndt & Hall).
    { done. }
    { intros c' Hc'. destruct (Hr c') as [? ?]; set_solver. }
    { rewrite <- Heq. by intros ?%Hnin. }
    exists (t :: ts), used'. rewrite Hts, <- app_assoc. split_and!; [done|by cbn; rewrite Hlen| |].
    + constructor; [|done]. intros Hin. apply Hall in Hin as [_ [Hin|Hin]]; [|set_solver].
      apply list_elem_of_fmap in Hin as (c' & -> & Hc'). by destruct (Hr c') as [_ ?]; [set_solver|].
    + intros t' [->|Hin]%elem_of_cons; [split; [done|by right]|]. apply Hall in Hin. set_solver.
  - rewrite (shared_tag_kept acc used c Hne). cbn [mbind result_bind].
    destruct (IH (acc ++ [with_tag c (physical (tag c))]) used) as (ts & used' & Hts & Hlen & Hndt & Hall).
    { done. }
    { intros c' Hc'. apply Hr. set_solver. }
    { intros Hin. apply Hs. rewrite fmap_cons. set_solver. }
    exists (tag c :: ts), used'. rewrite Hts, <- app_assoc. split_and!; [done|by cbn; rewrite Hlen| |].
    + constructor; [|done]. intros Hin. apply Hall in Hin as [_ [Hin|Hin]]; done.
    + intros t' [->|Hin]%elem_of_cons; [split; [lia|left; set_solver]|]. apply Hall in Hin. set_solver.
Qed.

(** On a shared egress the clients of one direction get distinct tags that
    carry the direction in bit 8 and are valid there, with the class and leaf
    numbers of the shared layout; the renumbering of the ninth bit never runs
    out of tags, so allocation fails only where the client allocation does. *)
Lemma allocate_shared_correct previous :
  let logical := logical_client <$>
    List.filter (λ c, bool_decide (direction c = d) && valid_client_tag c true)%bool previous in
  ((∃ out, allocate_shared_client_classes gw d iface idx rates previous = Ok out) ↔
   Z.of_nat (size rates) ≤ MAX_SHARED_CLIENTS_PER_DIRECTION ∧
   ∃ out, allocate_classes gw d iface idx rates logical = Ok out) ∧
  ∀ out, allocate_shared_client_classes gw d iface idx rates previous = Ok out →
    mac <$> out = fst <$> btree_entries str_leb rates ∧ NoDup (tag <$> out) ∧
    Forall (λ c, gateway_id c = gw ∧ direction c = d ∧ interface c = iface ∧ ifindex c = idx ∧
      rates !! mac c = Some (rate_bps c) ∧ valid_client_tag c true = true ∧
      class_minor c = client_class_minor (tag c) true ∧ leaf_minor c = 1000 + tag c) out.
Proof.
  cbv zeta. unfold allocate_shared_client_classes. set (logical := logical_client <$> _).
  destruct (allocate_classes gw d iface idx rates logical) as [cs|e] eqn:Hcs.
  2:{ cbn [mbind result_bind]. setoid_rewrite reject_seq. naive_solver. }
  destruct (allocate_classes_sound _ _ Hcs) as (_ & _ & _ & [Hmac Hall Htags _]).
  cbn [mbind result_bind]. setoid_rewrite reject_seq.
  assert (length cs = size rates) as Hlen.
  { rewrite <- (length_fmap mac), Hmac, length_fmap. apply length_btree_entries. }
  assert (Z.of_nat (size rates) ≤ 255 → ∃ ts used', foldM (shared_tag d) ([], list_to_set (tag <$> cs)) cs =
    Ok (zip_with (λ c t, with_tag c (physical t)) cs ts, used') ∧ length ts = length cs ∧ NoDup ts ∧
    (∀ t, t ∈ ts → 1 ≤ t ≤ 255)) as Hloop.
  { intros Hn. destruct (shared_loop cs [] (list_to_set (tag <$> cs))) as (ts & used' & H1 & H2 & H3 & H4).
    - done.
    - intros c Hc. rewrite Forall_forall in Hall. destruct (Hall c Hc) as (t & r & Heq & _ & Ht). split.
      + rewrite Heq. cbn. change MAX_CLASS_TAG with 256 in Ht. lia.
      + apply elem_of_list_to_set. by apply list_elem_of_fmap_2.
    - intros _. rewrite size_list_to_set, length_fmap by done. lia.
    - exists ts, used'. split_and!; [done|done|done|]. intros t Ht. by apply H4. }
  split.
  - split; [intros (out & Hn & _)|intros [Hn _]]; [split; [lia|eauto]|].
    destruct (Hloop Hn) as (ts & used' & Hts & _). rewrite Hts. eexists. split; [lia|done].
  - intros out (Hn & Hout). destruct Hloop as (ts & used' & Hts & Hl & Hnd & Hr); [unfold MAX_SHARED_CLIENTS_PER_DIRECTION in Hn; lia|].
    rewrite Hts in Hout. cbn [mbind result_bind fst] in Hout. injection Hout as <-.
    assert (∀ (g : ClientClass → string), (∀ c t, g (with_tag c t) = g c) →
      g <$> zip_with (λ c t, with_tag c (physical t)) cs ts = g <$> cs) as Hkeep.
    { intros g Hg. clear -Hl Hg. revert ts Hl. induction cs as [|c cs IH]; intros [|t ts] Hl; try done.
      cbn. rewrite Hg. f_equal. apply IH. by injection Hl. }
    assert (tag <$> zip_with (λ c t, with_tag c (physical t)) cs ts = physical <$> ts) as Hts'.
    { clear -Hl. revert ts Hl. induction cs as [|c cs IH]; intros [|t ts] Hl; try done.
      cbn. f_equal. apply IH. by injection Hl. }
    split_and!.
    + by rewrite Hkeep, Hmac.
    + rewrite Hts'. apply NoDup_fmap_2_strong; [|done]. intros t t' Ht Ht' Heq.
      pose proof (physical_spec t (Hr t Ht)) as H1. pose proof (physical_spec t' (Hr t' Ht')) as H2.
      unfold physical_ok in H1, H2. split_bools. lia.
    + apply Forall_forall. intros x [i Hi]%list_elem_of_lookup.
      apply lookup_zip_with_Some in Hi as (c & t & -> & Hc & Ht).
      apply list_elem_of_lookup_2 in Hc, Ht. rewrite Forall_forall in Hall.
      destruct (Hall c Hc) as (t0 & r & Heq & Hrate & _). pose proof (physical_spec t (Hr t Ht)) as Hp.
      unfold physical_ok in Hp. split_bools. rewrite Heq. cbn. split_and!; try done.
      unfold valid_client_tag. cbn. specialize (Hr t Ht). rewrite Heq in *. cbn in *.
      repeat (apply andb_true_iff; split); try done. apply negb_true_iff, Z.eqb_neq. lia.
Qed.
End client_tags.

(** ** Application classes *)

Lemma app_tag_candidate_range first o : FIRST_APPLICATION_TAG ≤ app_tag_candidate first o ≤ MAX_APPLICATION_TAG.
Proof.
  unfold app_tag_candidate, FIRST_APPLICATION_TAG. change MAX_APPLICATION_TAG with 127.
  pose proof (Z.mod_pos_bound (first - 1 + o) 127). lia.
Qed.

Lemma app_tag_candidate_inj first o o' : 0 ≤ o < MAX_APPLICATION_TAG → 0 ≤ o' < MAX_APPLICATION_TAG →
  app_tag_candidate first o = app_tag_candidate first o' → o = o'.
Proof. unfold app_tag_candidate. intros Ho Ho' He. apply (mod_shift_inj MAX_APPLICATION_TAG (first - 1)); lia. Qed.

Lemma minor_candidate_ok first o : class_minor_ok (minor_candidate first o) = true.
Proof.
  unfold minor_candidate, class_minor_ok. rewrite in_range_spec.
  change MAX_APPLICATION_CLASSES_PER_EGRESS with 4096. unfold FIRST_APPLICATION_CLASS_MINOR.
  pose proof (Z.mod_pos_bound (first - 2000 + o) 4096). lia.
Qed.

Lemma minor_candidate_inj first o o' : 0 ≤ o < MAX_APPLICATION_CLASSES_PER_EGRESS →
  0 ≤ o' < MAX_APPLICATION_CLASSES_PER_EGRESS → minor_candidate first o = minor_candidate first o' → o = o'.
Proof.
  unfold minor_candidate. intros Ho Ho' He.
  apply (mod_shift_inj MAX_APPLICATION_CLASSES_PER_EGRESS (first - FIRST_APPLICATION_CLASS_MINOR)); lia.
Qed.

Section application_classes.
Context `{Digest} (gw : string) (d : Direction) (iface : string) (idx : Z).
Context (rates : gmap (string * string) Z) (cs : list ClientClass) (reserved : gset Z).

(** The class number of the client an application class hangs off. *)
Definition parent_minor_of (key : string * string) : option Z := class_minor <$> (parents d cs !! snd key).

(** Tags are distinct below one parent, class numbers are distinct. *)
Record app_inv (st : AppState) : Prop := mkAppInv {
  ai_tag : ∀ k t, assigned st !! k = Some t → ∃ pm, parent_minor_of k = Some pm ∧ t ∈ tags_of st pm ∧
    FIRST_APPLICATION_TAG ≤ t ≤ MAX_APPLICATION_TAG;
  ai_tag_inj : ∀ k k' t, assigned st !! k = Some t → assigned st !! k' = Some t →
    parent_minor_of k = parent_minor_of k' → k = k';
  ai_minor : ∀ k c, assigned_minors st !! k = Some c → c ∈ occupied_minors st ∧ class_minor_ok c = true ∧ c ∉ reserved;
  ai_minor_inj : ∀ k k' c, assigned_minors st !! k = Some c → assigned_minors st !! k' = Some c → k = k';
  ai_reserved : reserved ⊆ occupied_minors st;
}.

Lemma app_inv_init : app_inv (mkAppState ∅ ∅ ∅ reserved).
Proof. split; cbn; intros *; rewrite ?lookup_empty; done. Qed.

Definition set_tag (st : AppState) (k : string * string) (pm t : Z) : AppState :=
  mkAppState (<[k := t]> (assigned st)) (<[pm := {[t]} ∪ tags_of st pm]> (occupied st))
    (assigned_minors st) (occupied_minors st).

Definition set_minor (st : AppState) (k : string * string) (c : Z) : AppState :=
  mkAppState (assigned st) (occupied st) (<[k := c]> (assigned_minors st)) ({[c]} ∪ occupied_minors st).

Lemma tags_of_set_tag st k pm t pm' :
  tags_of (set_tag st k pm t) pm' = if decide (pm = pm') then {[t]} ∪ tags_of st pm else tags_of st pm'.
Proof. unfold tags_of, set_tag. cbn. rewrite lookup_insert. by case_decide. Qed.

Lemma app_inv_set_tag st k pm t : app_inv st → parent_minor_of k = Some pm → t ∉ tags_of st pm →
  FIRST_APPLICATION_TAG ≤ t ≤ MAX_APPLICATION_TAG → app_inv (set_tag st k pm t).
Proof.
  intros [Ht Hti Hm Hmi Hres] Hk Hfree Hr. split; [| |exact Hm|exact Hmi|exact Hres].
  - intros k' t'. cbn [set_tag assigned]. rewrite lookup_insert_Some. setoid_rewrite tags_of_set_tag.
    intros [[<- <-]|[Hne Hk']].
    + exists pm. rewrite decide_True by done. set_solver.
    + destruct (Ht _ _ Hk') as (pm' & Hp & Hin & Hrange). exists pm'. case_decide; subst; set_solver.
  - intros k1 k2 t'. cbn [set_tag assigned]. rewrite !lookup_insert_Some.
    intros [[<- <-]|[_ H1]] [[<- Heq]|[_ H2]] Hpm; [done| | |by eapply Hti].
    + destruct (Ht _ _ H2) as (pm' & Hp & Hin & _). congruence.
    + subst t'. destruct (Ht _ _ H1) as (pm' & Hp & Hin & _). congruence.
Qed.

Lemma app_inv_set_minor st k c : app_inv st → c ∉ occupied_minors st → class_minor_ok c = true →
  app_inv (set_minor st k c).
Proof.
  intros [Ht Hti Hm Hmi Hres] Hfree Hr. split; [exact Ht|exact Hti| | |].
  - intros k' c'. cbn [set_minor assigned_minors occupied_minors]. rewrite lookup_insert_Some.
    intros [[<- <-]|[Hne Hk']]; [set_solver|]. apply Hm in Hk'. set_solver.
  - intros k1 k2 c'. cbn [set_minor assigned_minors]. rewrite !lookup_insert_Some.
    intros [[<- <-]|[_ H1]] [[<- Heq]|[_ H2]]; [done| | |by eapply Hmi].
    + apply Hm in H2. naive_solver.
    + subst c'. apply Hm in H1. naive_solver.
  - cbn. set_solver.
Qed.

Lemma reuse_application_inv st p st' : app_inv st →
  reuse_application gw d iface idx rates cs st p = Ok st' → app_inv st'.
Proof.
  intros Hinv Hs. unfold reuse_application in Hs. destruct (parents d cs !! app_mac p) as [parent|] eqn:Hp; [|by simplify_eq].
  destruct (_ || _)%bool eqn:Hskip; [by simplify_eq|]. case_bool_decide as Hdup; [done|].
  destruct (_ || bool_decide _)%bool eqn:Hminor; simplify_eq. split_bools.
  change (app_inv (set_minor (set_tag st (app_policy_id p, app_mac p) (class_minor parent) (app_tag p))
    (app_policy_id p, app_mac p) (app_class_minor p))).
  apply app_inv_set_minor; [|done|done]. apply app_inv_set_tag; [done| |done|by apply in_range_spec].
  unfold parent_minor_of. cbn. by rewrite Hp.
Qed.

Lemma new_application_step st k st' : app_inv st → new_application gw d iface idx cs st k = Ok st' →
  app_inv st' ∧ assigned st ⊆ assigned st' ∧ assigned_minors st ⊆ assigned_minors st' ∧
  is_Some (assigned st' !! k) ∧ is_Some (assigned_minors st' !! k).
Proof.
  intros Hinv Hs. unfold new_application in Hs. apply bind_Ok in Hs as (st1 & H1 & H2).
  assert (app_inv st1 ∧ assigned st ⊆ assigned st1 ∧ assigned_minors st1 = assigned_minors st ∧
    is_Some (assigned st1 !! k)) as (Hinv1 & Hsub1 & Heq1 & Hk1).
  { unfold new_application_tag in H1. case_bool_decide as Ha; [by simplify_eq|].
    apply bind_Ok in H1 as (parent & Hp%ok_or_Ok & H1). apply bind_Ok in H1 as (t & Ht%ok_or_Ok & H1).
    injection H1 as <-. apply probe_Some in Ht as (Hfree & o & _ & ->).
    split_and!; cbn; [|by apply insert_subseteq, eq_None_not_Some|done|by rewrite lookup_insert_eq].
    apply (app_inv_set_tag st k (class_minor parent)); [done| |done|apply app_tag_candidate_range].
    unfold parent_minor_of. by rewrite Hp. }
  unfold new_application_minor in H2. case_bool_decide as Ha; [simplify_eq; rewrite Heq1 in Ha; by rewrite ?Heq1|].
  apply bind_Ok in H2 as (c & Hc%ok_or_Ok & [= <-]). apply probe_Some in Hc as (Hfree & o & _ & ->).
  split_and!; cbn; [|done| |done|by rewrite lookup_insert_eq].
  - apply (app_inv_set_minor st1 k); [done|done|apply minor_candidate_ok].
  - rewrite <- Heq1. by apply insert_subseteq, eq_None_not_Some.
Qed.

Lemma new_applications ks st st' : app_inv st → foldM (new_application gw d iface idx cs) st ks = Ok st' →
  app_inv st' ∧ assigned st ⊆ assigned st' ∧ assigned_minors st ⊆ assigned_minors st' ∧
  ∀ k, k ∈ ks → is_Some (assigned st' !! k) ∧ is_Some (assigned_minors st' !! k).
Proof.
  revert st. induction ks as [|k ks IH]; intros st Hinv Hs; cbn [foldM] in Hs.
  { injection Hs as <-. split_and!; [done..|set_solver]. }
  apply bind_Ok in Hs as (st1 & H1 & Hs). apply new_application_step in H1 as (Hinv1 & Ha1 & Hm1 & Hka & Hkm); [|done].
  destruct (IH _ Hinv1 Hs) as (Hinv2 & Ha2 & Hm2 & Hks). split_and!; [done|by etrans|by etrans|].
  intros k' [->|Hin]%elem_of_cons; [|auto]. destruct Hka as [t Ht], Hkm as [c Hc].
  split; [exact (ex_intro _ t (lookup_weaken _ _ _ _ Ht Ha2))|exact (ex_intro _ c (lookup_weaken _ _ _ _ Hc Hm2))].
Qed.

(** What the application classes of an egress promise. *)
Record application_allocation (out : list ApplicationClass) : Prop := mkAppAllocation {
  aa_keys : (λ a, (app_policy_id a, app_mac a)) <$> out = fst <$> btree_entries key_leb rates;
  aa_fields : Forall (λ a, ∃ parent, parents d cs !! app_mac a = Some parent ∧
    a = mkApplication (app_policy_id a) gw (app_mac a) d iface idx (app_tag a) (app_class_minor a)
          (class_minor parent) (app_rate_bps a) ∧
    rates !! (app_policy_id a, app_mac a) = Some (app_rate_bps a) ∧
    in_range 64000 1000000000 (app_rate_bps a) = true ∧ app_rate_bps a ≤ rate_bps parent ∧
    FIRST_APPLICATION_TAG ≤ app_tag a ≤ MAX_APPLICATION_TAG ∧
    class_minor_ok (app_class_minor a) = true ∧ app_class_minor a ∉ reserved) out;
  aa_tags : NoDup ((λ a, (parent_class_minor a, app_tag a)) <$> out);
  aa_minors : NoDup (app_class_minor <$> out);
}.

Lemma application_class_Ok st e a : application_class gw d iface idx cs st e = Ok a →
  ∃ parent, parents d cs !! app_mac a = Some parent ∧ fst e = (app_policy_id a, app_mac a) ∧
    a = mkApplication (app_policy_id a) gw (app_mac a) d iface idx (app_tag a) (app_class_minor a)
          (class_minor parent) (snd e) ∧ snd e ≤ rate_bps parent ∧
    assigned st !! fst e = Some (app_tag a) ∧ assigned_minors st !! fst e = Some (app_class_minor a).
Proof.
  destruct e as [[pid m] rate]. cbn [application_class]. rewrite bind_Ok. intros (parent & Hp%ok_or_Ok & Ha).
  destruct (rate_bps parent <? rate) eqn:Hr; [done|]. apply bind_Ok in Ha as (t & Ht%ok_or_Ok & Ha).
  apply bind_Ok in Ha as (c & Hc%ok_or_Ok & [= <-]). exists parent. cbn. split_and!; (done || lia).
Qed.

Lemma application_list_ok st es out :
  Forall2 (λ e a, application_class gw d iface idx cs st e = Ok a) es out →
  (λ a, (app_policy_id a, app_mac a)) <$> out = fst <$> es ∧
  Forall (λ a, ∃ e parent, e ∈ es ∧ parents d cs !! app_mac a = Some parent ∧ fst e = (app_policy_id a, app_mac a) ∧
    a = mkApplication (app_policy_id a) gw (app_mac a) d iface idx (app_tag a) (app_class_minor a)
        (class_minor parent) (snd e) ∧ snd e ≤ rate_bps parent ∧
    assigned st !! fst e = Some (app_tag a) ∧ assigned_minors st !! fst e = Some (app_class_minor a)) out.
Proof.
  intros Hm. induction Hm as [|e a es out He Hm [IH1 IH2]]; [split; [done|constructor]|].
  apply application_class_Ok in He as (parent & Hp & Hk & Ha & Hr & Ht & Hc). rewrite !fmap_cons, IH1, Hk.
  split; [done|]. constructor; [exists e, parent; set_solver|].
  eapply Forall_impl; [exact IH2|]. intros x (e' & p' & ? & ?). exists e', p'. set_solver.
Qed.

Lemma application_classes_ok st out : app_inv st →
  mapR (application_class gw d iface idx cs st) (btree_entries key_leb rates) = Ok out →
  (∀ k r, rates !! k = Some r → in_range 64000 1000000000 r = true) →
  application_allocation out.
Proof.
  intros Hinv Hm Hrate. apply mapR_Ok in Hm.
  assert (∀ e, e ∈ btree_entries key_leb rates → rates !! fst e = Some (snd e)) as Hes
    by (by intros [k r] ?%elem_of_btree_entries).
  pose proof (NoDup_btree_keys key_leb rates) as Hnd.
  destruct (application_list_ok _ _ _ Hm) as [Hkeys Hall]. rewrite <- Hkeys in Hnd.
  assert (∀ a, a ∈ out → ∃ parent, parents d cs !! app_mac a = Some parent ∧ parent_class_minor a = class_minor parent ∧
    assigned st !! (app_policy_id a, app_mac a) = Some (app_tag a) ∧
    assigned_minors st !! (app_policy_id a, app_mac a) = Some (app_class_minor a)) as Hst.
  { intros a Ha. rewrite Forall_forall in Hall. destruct (Hall a Ha) as (e & parent & _ & Hp & Hk & Hae & _ & Ht & Hc).
    rewrite Hk in Ht, Hc. exists parent. split_and!; [done| |done|done]. rewrite Hae. done. }
  apply NoDup_fmap_1 in Hnd as Hnd'. split; [done| | |].
  - eapply Forall_impl; [exact Hall|]. cbv beta. intros a (e & parent & He & Hp & Hk & Ha & Hr & Ht & Hc).
    assert (app_rate_bps a = snd e) as Hrate' by by rewrite Ha.
    exists parent. apply Hes in He. rewrite Hk in He, Ht, Hc. rewrite Hrate'.
    destruct (ai_tag _ Hinv _ _ Ht) as (_ & _ & _ & Hrange). destruct (ai_minor _ Hinv _ _ Hc) as (_ & Hok & Hnr).
    split_and!; try done; [eauto|apply Hrange|apply Hrange].
  - apply NoDup_fmap_2_strong; [|done]. intros a a' Ha Ha' [= Hpm Htag].
    destruct (Hst a Ha) as (p & Hp & Hpc & Ht & _), (Hst a' Ha') as (p' & Hp' & Hpc' & Ht' & _).
    rewrite <- Htag in Ht'. assert (parent_minor_of (app_policy_id a, app_mac a) = parent_minor_of (app_policy_id a', app_mac a')) as Hpp.
    { unfold parent_minor_of. cbn. rewrite Hp, Hp'. cbn. congruence. }
    pose proof (ai_tag_inj _ Hinv _ _ _ Ht Ht' Hpp) as Hkk.
    by apply (NoDup_key_inj _ _ _ _ Hnd Ha Ha').
  - apply NoDup_fmap_2_strong; [|done]. intros a a' Ha Ha' Hmin.
    destruct (Hst a Ha) as (p & _ & _ & _ & Hc), (Hst a' Ha') as (p' & _ & _ & _ & Hc').
    rewrite <- Hmin in Hc'. pose proof (ai_minor_inj _ Hinv _ _ _ Hc Hc') as Hkk.
    by apply (NoDup_key_inj _ _ _ _ Hnd Ha Ha').
Qed.

(** The number of wanted classes below one client. *)
Definition count_below (pm : Z) (ks : list (string * string)) : Z :=
  zlen (List.filter (λ k, bool_decide (parent_minor_of k = Some pm)) ks).

Lemma count_below_app pm l k : count_below pm (l ++ k) = count_below pm l + count_below pm k.
Proof. unfold count_below. rewrite List.filter_app. apply zlen_app. Qed.

Lemma count_below_nonneg pm l : 0 ≤ count_below pm l.
Proof. apply zlen_nonneg. Qed.

Lemma size_add_le {A} `{Countable A} (x : A) (X : gset A) n :
  Z.of_nat (size X) ≤ n → Z.of_nat (size ({[x]} ∪ X)) ≤ n + 1.
Proof. intros Hx. rewrite size_union_alt, size_singleton. pose proof (subseteq_size (X ∖ {[x]}) X ltac:(set_solver)). lia. Qed.

(** The state after fresh classes have been found for the keys [pre]. *)
Definition fresh_for (pre : list (string * string)) (st : AppState) : Prop :=
  (∀ k, k ∉ pre → assigned st !! k = None ∧ assigned_minors st !! k = None) ∧
  (∀ pm, Z.of_nat (size (tags_of st pm)) ≤ count_below pm pre) ∧
  Z.of_nat (size (occupied_minors st)) ≤ Z.of_nat (size reserved) + zlen pre.

Lemma new_application_total pre st k :
  fresh_for pre st → k ∉ pre → is_Some (parents d cs !! snd k) →
  (∀ pm, count_below pm (pre ++ [k]) ≤ MAX_APPLICATION_TAG) →
  Z.of_nat (size reserved) + zlen (pre ++ [k]) ≤ MAX_APPLICATION_CLASSES_PER_EGRESS →
  ∃ st', new_application gw d iface idx cs st k = Ok st' ∧ fresh_for (pre ++ [k]) st'.
Proof.
  intros (Hnone & Htags & Hminors) Hk [parent Hp] Hcount Htotal. destruct (Hnone k Hk) as [Ha Hm].
  assert (parent_minor_of k = Some (class_minor parent)) as Hpm by (unfold parent_minor_of; by rewrite Hp).
  assert (∀ pm, count_below pm [k] = if decide (pm = class_minor parent) then 1 else 0) as Hone.
  { intros pm. unfold count_below. cbn. rewrite Hpm. case_decide; case_bool_decide; simplify_eq; done. }
  rewrite zlen_app in Htotal. change (zlen [k]) with 1 in Htotal.
  unfold new_application, new_application_tag. rewrite Ha, bool_decide_eq_false_2 by (by intros []). rewrite Hp.
  cbn [ok_or mbind result_bind].
  destruct (probe MAX_APPLICATION_TAG _ _) as [t|] eqn:Ht; cbn [ok_or mbind result_bind].
  2:{ exfalso. apply probe_None in Ht; [|by vm_compute|apply app_tag_candidate_inj].
      specialize (Htags (class_minor parent)). specialize (Hcount (class_minor parent)).
      rewrite count_below_app, Hone, decide_True in Hcount by done. lia. }
  unfold new_application_minor. cbn [assigned_minors occupied_minors].
  rewrite Hm, bool_decide_eq_false_2 by (by intros []).
  destruct (probe MAX_APPLICATION_CLASSES_PER_EGRESS _ _) as [c|] eqn:Hc; cbn [ok_or mbind result_bind].
  2:{ exfalso. apply probe_None in Hc; [|by vm_compute|apply minor_candidate_inj]. lia. }
  eexists. split; [done|]. split_and!; cbn.
  - intros k' Hk'. rewrite !lookup_insert_ne by set_solver. apply Hnone. set_solver.
  - intros pm. change (Z.of_nat (size (tags_of (set_tag st k (class_minor parent) t) pm)) ≤ count_below pm (pre ++ [k])).
    rewrite tags_of_set_tag, count_below_app, Hone. specialize (Htags pm). case_decide; case_decide; subst; try done.
    + by apply size_add_le.
    + lia.
  - rewrite zlen_app. change (zlen [k]) with 1. rewrite Z.add_assoc. by apply size_add_le.
Qed.

Lemma new_applications_total ks pre st :
  fresh_for pre st → NoDup (pre ++ ks) → (∀ k, k ∈ ks → is_Some (parents d cs !! snd k)) →
  (∀ pm, count_below pm (pre ++ ks) ≤ MAX_APPLICATION_TAG) →
  Z.of_nat (size reserved) + zlen (pre ++ ks) ≤ MAX_APPLICATION_CLASSES_PER_EGRESS →
  ∃ st', foldM (new_application gw d iface idx cs) st ks = Ok st'.
Proof.
  revert pre st. induction ks as [|k ks IH]; intros pre st Hf Hnd Hp Hcount Htotal; [by eexists|]. cbn [foldM].
  replace (pre ++ k :: ks) with ((pre ++ [k]) ++ ks) in * by by rewrite <- app_assoc.
  destruct (new_application_total pre st k) as (st1 & -> & Hf1).
  - done.
  - rewrite !NoDup_app in Hnd. set_solver.
  - apply Hp. set_solver.
  - intros pm. specialize (Hcount pm). rewrite count_below_app in Hcount. pose proof (count_below_nonneg pm ks). lia.
  - zlen_lia.
  - cbn [mbind result_bind]. apply (IH (pre ++ [k])); try done. intros k' Hk'. apply Hp. set_solver.
Qed.

Definition app_rates_ok : Prop := ∀ k r, rates !! k = Some r → in_range 64000 1000000000 r = true.

Lemma app_rates_ok_spec :
  existsb (λ e, negb (in_range 64000 1000000000 (snd e))) (btree_entries key_leb rates) = false ↔ app_rates_ok.
Proof.
  rewrite existsb_false, Forall_forall. unfold app_rates_ok. split.
  - intros Hc k r Hr. specialize (Hc (k, r)). rewrite elem_of_btree_entries in Hc. by apply negb_false_iff, Hc.
  - intros Hc [k r] Hin%elem_of_btree_entries. cbn. by rewrite (Hc k r).
Qed.

Lemma allocate_application_sound previous out :
  allocate_application_classes_reserved gw d iface idx rates cs previous reserved = Ok out →
  application_allocation out ∧ Z.of_nat (size rates) ≤ MAX_APPLICATION_CLASSES_PER_EGRESS ∧ app_rates_ok.
Proof.
  unfold allocate_application_classes_reserved. rewrite !reject_seq, app_rates_ok_spec. intros (Hn & Hr & Hs).
  apply bind_Ok in Hs as (st & Hst & Hs). apply bind_Ok in Hs as (st' & Hst' & Hs).
  split_and!; [|lia|done]. assert (app_inv st) as Hinv.
  { eapply (foldM_inv app_inv); [|apply app_inv_init|exact Hst]. intros ???. apply reuse_application_inv. }
  destruct (new_applications _ _ _ Hinv Hst') as (Hinv' & _). by eapply application_classes_ok.
Qed.

(** Application classes are allocated soundly whatever the saved classes
    were: one class per wanted policy and client, below that client's class
    and within its rate, with tags from 1 through 127 that are distinct below
    one client and class numbers that are distinct, in the application range
    and not reserved.  Without saved classes the allocation succeeds whenever
    every class has a client whose rate suffices, no client has more than 127
    classes and the class numbers are not exhausted. *)
Lemma allocate_application_classes_correct :
  (∀ previous out,
     allocate_application_classes_reserved gw d iface idx rates cs previous reserved = Ok out →
     application_allocation out) ∧
  (app_rates_ok → (∀ pid m r, rates !! (pid, m) = Some r → ∃ p, parents d cs !! m = Some p ∧ r ≤ rate_bps p) →
   (∀ pm, count_below pm (fst <$> btree_entries key_leb rates) ≤ MAX_APPLICATION_TAG) →
   Z.of_nat (size reserved) + Z.of_nat (size rates) ≤ MAX_APPLICATION_CLASSES_PER_EGRESS →
   ∃ out, allocate_application_classes_reserved gw d iface idx rates cs [] reserved = Ok out).
Proof.
  split; [intros previous out Hout; by destruct (allocate_application_sound _ _ Hout)|].
  intros Hr Hp Hcount Htotal. set (ks := fst <$> btree_entries key_leb rates) in *.
  assert (zlen ks = Z.of_nat (size rates)) as Hlen
    by (unfold ks, zlen; by rewrite length_fmap, length_btree_entries).
  destruct (new_applications_total ks [] (mkAppState ∅ ∅ ∅ reserved)) as (st & Hst).
  - split_and!; cbn; [intros; by rewrite !lookup_empty| |change (zlen []) with 0; lia].
    intros pm. unfold tags_of. cbn. rewrite lookup_empty. cbn. apply count_below_nonneg.
  - apply NoDup_btree_keys.
  - intros [pid m] Hin. unfold ks in Hin. apply list_elem_of_fmap in Hin as ([k r] & -> & Hin%elem_of_btree_entries).
    destruct k. destruct (Hp _ _ _ Hin) as (p & Hpp & _). eauto.
  - done.
  - cbn. rewrite Hlen. lia.
  - destruct (new_applications ks _ _ app_inv_init Hst) as (_ & _ & _ & Hks).
    unfold allocate_application_classes_reserved. setoid_rewrite reject_seq. setoid_rewrite reject_seq.
    destruct (mapR (application_class gw d iface idx cs st) (btree_entries key_leb rates)) as [out|e] eqn:Hout.
    + exists out. split_and!; [lia|by apply app_rates_ok_spec|]. cbn [foldM mbind result_bind]. fold ks. by rewrite Hst.
    + exfalso. revert Hout. apply mapR_never. intros [[pid m] r] Hin e'.
      destruct (Hks (pid, m)) as [[t Ht] [c Hc]]; [unfold ks; apply list_elem_of_fmap; by exists ((pid, m), r)|].
      apply elem_of_btree_entries in Hin. destruct (Hp _ _ _ Hin) as (p & Hpp & Hle).
      cbn [application_class]. rewrite Hpp. cbn [ok_or mbind result_bind]. rewrite (proj2 (Z.ltb_ge _ _)) by done.
      rewrite Ht. cbn [ok_or mbind result_bind]. rewrite Hc. done.
Qed.
End application_classes.

(** ** Allocated classes pass the validation of the saved state *)

Section insert_all.
Context {K A : Type} `{Countable K} (key : A → K).

Lemma insert_all_Some (l : list A) (m : gmap K A) k x :
  foldl (λ m c, <[key c := c]> m) m l !! k = Some x → (x ∈ l ∧ key x = k) ∨ m !! k = Some x.
Proof.
  revert m. induction l as [|y l IH]; intros m Hx; cbn in Hx; [by right|].
  apply IH in Hx as [[? ?]|Hx]; [left; set_solver|]. apply lookup_insert_Some in Hx as [[<- <-]|[_ ?]]; [left; set_solver|by right].
Qed.

Lemma insert_all_lookup (l : list A) (m : gmap K A) x :
  NoDup (key <$> l) → x ∈ l → foldl (λ m c, <[key c := c]> m) m l !! key x = Some x.
Proof.
  intros Hnd Hx.
  assert (∀ (l : list A) (m : gmap K A), key x ∉ key <$> l → foldl (λ m c, <[key c := c]> m) m l !! key x = m !! key x) as Hskip.
  { clear. induction l as [|y l IH]; intros m Hn; cbn; [done|]. rewrite IH by set_solver.
    apply lookup_insert_ne. set_solver. }
  revert m. induction l as [|y l IH]; intros m; [set_solver|]. rewrite fmap_cons, NoDup_cons in Hnd. cbn.
  destruct Hnd as [Hy Hnd]. apply elem_of_cons in Hx as [->|Hx]; [|by apply IH].
  rewrite Hskip by done. by rewrite lookup_insert_eq.
Qed.
End insert_all.

Definition interface_ok (i : ManagedInterface) : Prop :=
  name i ≠ "" ∧ str_len (name i) ≤ 15 ∧ m_ifindex i ≠ 0 ∧ in_capacity (capacity_bps i) = true ∧
  known_root (original_root_kind i) = true.

(** An interface of one direction whose classes come from the allocators. *)
Definition allocated_interface `{Digest} (gw : string) (d : Direction) (i : ManagedInterface) : Prop :=
  shared_egress i = false ∧ ∃ rates arates previous aprevious,
    (∀ m, is_Some (rates !! m) → str_len m = 17) ∧ (∀ pid m, is_Some (arates !! (pid, m)) → pid ≠ "") ∧
    allocate_classes gw d (name i) (m_ifindex i) rates previous = Ok (clients i) ∧
    allocate_application_classes gw d (name i) (m_ifindex i) arates (clients i) aprevious = Ok (application_classes i).

(** The static facts about the classes of an interface. *)
Record classes_ok (gw : string) (d : Direction) (i : ManagedInterface) : Prop := mkClassesOk {
  co_count : zlen (clients i) ≤ MAX_CLIENTS_PER_EGRESS;
  co_clients : Forall (λ c, gateway_id c = gw ∧ str_len (mac c) = 17 ∧ direction c = d ∧ interface c = name i ∧
    ifindex c = m_ifindex i ∧ 1 ≤ tag c ≤ 256 ∧ class_minor c = 100 + tag c ∧ leaf_minor c = 1000 + tag c ∧
    in_capacity (rate_bps c) = true) (clients i);
  co_tags : NoDup (tag <$> clients i);
  co_app_count : zlen (application_classes i) ≤ MAX_APPLICATION_CLASSES_PER_EGRESS;
  co_apps : Forall (λ a, ∃ p, p ∈ clients i ∧ mac p = app_mac a ∧ parent_class_minor a = class_minor p ∧
    app_policy_id a ≠ "" ∧ app_gateway_id a = gw ∧ app_direction a = d ∧ app_interface a = name i ∧
    app_ifindex a = m_ifindex i ∧ in_range FIRST_APPLICATION_TAG MAX_APPLICATION_TAG (app_tag a) = true ∧
    class_minor_ok (app_class_minor a) = true ∧ in_range 64000 1000000000 (app_rate_bps a) = true ∧
    app_rate_bps a ≤ rate_bps p) (application_classes i);
  co_app_tags : NoDup ((λ a, (parent_class_minor a, app_tag a)) <$> application_classes i);
  co_app_keys : NoDup ((λ a, (app_policy_id a, app_mac a)) <$> application_classes i);
  co_app_minors : NoDup (app_class_minor <$> application_classes i);
}.

Lemma allocated_classes_ok `{Digest} gw d i : allocated_interface gw d i → classes_ok gw d i.
Proof.
  intros (_ & rates & arates & previous & aprevious & Hmac & Hpid & Hcs & Has).
  apply allocate_classes_sound in Hcs as (Hn & Hcap & _ & [Hkeys Hfields Htags _]).
  apply allocate_application_sound in Has as ([Hakeys Hafields Hatags Haminors] & Han & _).
  assert (length (clients i) = size rates) as Hlen
    by (rewrite <- (length_fmap mac), Hkeys, length_fmap; apply length_btree_entries).
  assert (length (application_classes i) = size arates) as Halen
    by (rewrite <- (length_fmap (λ a, (app_policy_id a, app_mac a))), Hakeys, length_fmap; apply length_btree_entries).
  split; [unfold zlen; lia| |done|unfold zlen; lia| |done| |done].
  - eapply Forall_impl; [exact Hfields|]. cbv beta. intros c (t & r & Hc & Hr & Ht). rewrite Hc in *. cbn in *.
    change MAX_CLASS_TAG with 256 in Ht. split_and!; try (done || lia); eauto.
  - eapply Forall_impl; [exact Hafields|]. cbv beta. intros a (p & Hp & Ha & Hr & Hrange & Hle & Htag & Hminor & _).
    exists p. unfold parents in Hp. apply insert_all_Some in Hp as [[Hin Hmp]|Hno]; [|by rewrite lookup_empty in Hno].
    apply list_elem_of_In, filter_In in Hin as [Hin _]. split_and!; try done.
    + by rewrite <- list_elem_of_In in Hin.
    + by rewrite Ha.
    + eapply Hpid. eauto.
    + by rewrite Ha.
    + by rewrite Ha.
    + by rewrite Ha.
    + by rewrite Ha.
    + by apply in_range_spec.
  - rewrite Hakeys. apply NoDup_btree_keys.
Qed.

Section validating.
Context (gw : string) (d : Direction) (i : ManagedInterface).
Context (Hgw : gw ≠ "") (Hshared : shared_egress i = false) (Hok : classes_ok gw d i).

Lemma client_minors : NoDup (class_minor <$> clients i).
Proof.
  apply NoDup_fmap_2_strong; [|by eapply NoDup_fmap_1, co_tags]. intros c c' Hc Hc' Heq.
  pose proof (co_clients _ _ _ Hok) as Hall. rewrite Forall_forall in Hall.
  apply (NoDup_key_inj tag (clients i)); [apply (co_tags _ _ _ Hok)|done|done|].
  pose proof (Hall c Hc). pose proof (Hall c' Hc'). lia.
Qed.

Lemma validate_client_Ok st c : c ∈ clients i → tag c ∉ fst st → class_minor c ∉ snd st →
  validate_client i st c = Ok ({[tag c]} ∪ fst st, {[class_minor c]} ∪ snd st).
Proof.
  intros Hc Ht Hm. pose proof (co_clients _ _ _ Hok) as Hall. rewrite Forall_forall in Hall.
  destruct (Hall c Hc) as (H1 & H2 & _ & H4 & H5 & H6 & H7 & H8 & H9). destruct st as [tags classes]. cbn in *.
  unfold validate_client. replace (str_is_empty (gateway_id c)) with false by (rewrite H1; by destruct gw).
  rewrite H2, H4, H5, !Z.eqb_refl, String.eqb_refl, Hshared, H7, H8, !Z.eqb_refl, H9.
  unfold valid_client_tag. cbn [negb]. rewrite (proj2 (in_range_spec 1 MAX_CLASS_TAG (tag c))) by (change MAX_CLASS_TAG with 256; lia).
  rewrite H7 in Hm. rewrite !bool_decide_eq_false_2 by done. done.
Qed.

Lemma validate_clients_Ok cs st : (∀ c, c ∈ cs → c ∈ clients i) → NoDup (tag <$> cs) → NoDup (class_minor <$> cs) →
  (∀ c, c ∈ cs → tag c ∉ fst st ∧ class_minor c ∉ snd st) →
  ∃ st', foldM (validate_client i) st cs = Ok st' ∧ snd st' = list_to_set (class_minor <$> cs) ∪ snd st.
Proof.
  revert st. induction cs as [|c cs IH]; intros st Hin Ht Hm Hfree; [exists st; set_solver|].
  rewrite fmap_cons, NoDup_cons in Ht. rewrite fmap_cons, NoDup_cons in Hm. destruct Ht as [Htc Ht], Hm as [Hmc Hm].
  destruct (Hfree c) as [Hf1 Hf2]; [set_solver|]. cbn [foldM]. rewrite validate_client_Ok by (done || set_solver).
  cbn [mbind result_bind].
  destruct (IH ({[tag c]} ∪ fst st, {[class_minor c]} ∪ snd st)) as (st' & -> & Hst'); [set_solver|done|done| |].
  - intros c' Hc'. cbn. destruct (Hfree c') as [? ?]; [set_solver|].
    assert (tag c' ≠ tag c) by (intros He; apply Htc; rewrite <- He; by apply list_elem_of_fmap_2).
    assert (class_minor c' ≠ class_minor c) by (intros He; apply Hmc; rewrite <- He; by apply list_elem_of_fmap_2).
    set_solver.
  - exists st'. split; [done|]. rewrite Hst', fmap_cons. set_solver.
Qed.

Lemma validate_application_Ok st a : a ∈ application_classes i →
  (parent_class_minor a, app_tag a) ∉ fst (fst st) → (app_policy_id a, app_mac a, app_direction a) ∉ snd (fst st) →
  app_class_minor a ∉ snd st →
  validate_application i st a = Ok ({[(parent_class_minor a, app_tag a)]} ∪ fst (fst st),
    {[(app_policy_id a, app_mac a, app_direction a)]} ∪ snd (fst st), {[app_class_minor a]} ∪ snd st).
Proof.
  intros Ha H1 H2 H3. pose proof (co_apps _ _ _ Hok) as Hall. rewrite Forall_forall in Hall.
  destruct (Hall a Ha) as (p & Hp & Hmac & Hpm & Hpid & Hg & Hd & Hi & Hx & Ht & Hm & Hr & Hle).
  pose proof (co_clients _ _ _ Hok) as Hcs. rewrite Forall_forall in Hcs. destruct (Hcs p Hp) as (Hpg & _ & Hpd & _).
  destruct st as [[tags keys] classes]. cbn in *. unfold validate_application, clients_by_class.
  rewrite Hpm, (insert_all_lookup class_minor) by (apply client_minors || done). cbn [ok_or mbind result_bind].
  rewrite Ht. cbn [negb reject_if mbind result_bind].
  replace (str_is_empty (app_policy_id a)) with false by (by destruct (app_policy_id a)).
  rewrite Hg, Hpg, Hmac, Hd, Hpd, Hi, Hx, !String.eqb_refl, Z.eqb_refl, Hr, (bool_decide_eq_true_2 (d = d)) by done.
  unfold class_minor_ok in Hm. rewrite Hm, (proj2 (Z.ltb_ge _ _)) by done.
  rewrite Hpm in H1. rewrite Hd in H2. rewrite !bool_decide_eq_false_2 by done. done.
Qed.

Lemma validate_applications_Ok l st : (∀ a, a ∈ l → a ∈ application_classes i) →
  NoDup ((λ a, (parent_class_minor a, app_tag a)) <$> l) → NoDup ((λ a, (app_policy_id a, app_mac a)) <$> l) →
  NoDup (app_class_minor <$> l) →
  (∀ a, a ∈ l → (parent_class_minor a, app_tag a) ∉ fst (fst st) ∧
     (app_policy_id a, app_mac a, app_direction a) ∉ snd (fst st) ∧ app_class_minor a ∉ snd st) →
  ∃ st', foldM (validate_application i) st l = Ok st' ∧ snd st' = list_to_set (app_class_minor <$> l) ∪ snd st.
Proof.
  revert st. induction l as [|a l IH]; intros st Hin Ht Hk Hm Hfree; [exists st; set_solver|].
  rewrite fmap_cons, NoDup_cons in Ht. rewrite fmap_cons, NoDup_cons in Hk. rewrite fmap_cons, NoDup_cons in Hm.
  destruct Ht as [Hta Ht], Hk as [Hka Hk], Hm as [Hma Hm]. destruct (Hfree a) as (Hf1 & Hf2 & Hf3); [set_solver|].
  cbn [foldM]. rewrite validate_application_Ok by (done || set_solver). cbn [mbind result_bind].
  match goal with |- context [foldM _ ?s l] => destruct (IH s) as (st' & -> & Hst') end; [set_solver|done|done|done| |].
  - intros b Hb. cbn. destruct (Hfree b) as (? & ? & ?); [set_solver|].
    pose proof (list_elem_of_fmap_2 (λ a, (parent_class_minor a, app_tag a)) l b Hb) as B1.
    pose proof (list_elem_of_fmap_2 (λ a, (app_policy_id a, app_mac a)) l b Hb) as B2.
    pose proof (list_elem_of_fmap_2 app_class_minor l b Hb) as B3. cbn in B1, B2, B3.
    rewrite !not_elem_of_union, !not_elem_of_singleton. split_and!; try done; intros Heq.
    + apply Hta. by rewrite <- Heq.
    + apply Hka. injection Heq as E1 E2 _. by rewrite <- E1, <- E2.
    + apply Hma. by rewrite <- Heq.
  - exists st'. split; [done|]. rewrite Hst', fmap_cons. set_solver.
Qed.

Lemma validate_defaults_Ok ps (classes : gset Z) :
  (∀ pm, pm ∈ ps → ∃ c, c ∈ clients i ∧ class_minor c = pm) → NoDup ps →
  (∀ pm, pm ∈ ps → 300 + pm ∉ classes) →
  ∃ classes', foldM (validate_default i) classes ps = Ok classes'.
Proof.
  revert classes. induction ps as [|pm ps IH]; intros classes Hp Hnd Hfree; [by eexists|]. cbn [foldM].
  destruct (Hp pm) as (c & Hc & Hpm); [set_solver|]. apply NoDup_cons in Hnd as [Hn Hnd].
  pose proof (co_clients _ _ _ Hok) as Hcs. rewrite Forall_forall in Hcs. pose proof (Hcs c Hc) as Hcc.
  assert (validate_default i classes pm = Ok ({[300 + pm]} ∪ classes)) as ->.
  { unfold validate_default, clients_by_class, default_class_minor. rewrite <- Hpm.
    rewrite (insert_all_lookup class_minor) by (apply client_minors || done). cbn [ok_or mbind result_bind].
    replace (400 + tag c) with (300 + class_minor c) by lia. rewrite Hpm, bool_decide_eq_false_2; [done|].
    apply Hfree. set_solver. }
  cbn [mbind result_bind]. apply IH; [intros; apply Hp; set_solver|done|].
  intros pm' Hpm'. specialize (Hfree pm' ltac:(set_solver)).
  assert (pm' ≠ pm) by (by intros ->). rewrite elem_of_union, elem_of_singleton. intros [?|?]; [lia|done].
Qed.

Lemma validate_interface_Ok (names : gset string) : interface_ok i → name i ∉ names →
  validate_interface names i = Ok ({[name i]} ∪ names).
Proof.
  intros (Hname & Hlen & Hidx & Hcap & Hroot) Hnew. unfold validate_interface. rewrite Hshared.
  pose proof (co_count _ _ _ Hok) as Hcount. pose proof (co_app_count _ _ _ Hok) as Hacount.
  rewrite Hcap, Hroot, (bool_decide_eq_false_2 (name i ∈ names)) by done.
  replace (str_is_empty (name i)) with false by (by destruct (name i)).
  rewrite (proj2 (Z.ltb_ge 15 _)), (proj2 (Z.eqb_neq _ 0)), (proj2 (Z.ltb_ge MAX_CLIENTS_PER_EGRESS _)) by done.
  cbn [negb orb reject_if mbind result_bind].
  destruct (validate_clients_Ok (clients i) (∅, ∅)) as (st & -> & Hst);
    [done|apply (co_tags _ _ _ Hok)|apply client_minors|set_solver|].
  cbn [mbind result_bind]. rewrite (proj2 (Z.ltb_ge MAX_APPLICATION_CLASSES_PER_EGRESS _)) by done.
  cbn [reject_if mbind result_bind].
  pose proof (co_clients _ _ _ Hok) as Hcs. rewrite Forall_forall in Hcs.
  pose proof (co_apps _ _ _ Hok) as Has. rewrite Forall_forall in Has.
  assert (∀ a, a ∈ application_classes i → 2000 ≤ app_class_minor a) as Hminor.
  { intros a Ha. destruct (Has a Ha) as (p & _ & _ & _ & _ & _ & _ & _ & _ & _ & Hm & _).
    apply in_range_spec in Hm. unfold FIRST_APPLICATION_CLASS_MINOR in Hm. lia. }
  assert (∀ m, m ∈ snd st → 101 ≤ m ≤ 356) as Hclass.
  { intros m. rewrite Hst, elem_of_union, elem_of_list_to_set. intros [(c & -> & Hc)%list_elem_of_fmap|?]; [|set_solver].
    pose proof (Hcs c Hc). lia. }
  destruct (validate_applications_Ok (application_classes i) (∅, ∅, snd st)) as (st2 & -> & Hst2);
    [done|apply Hok|apply Hok|apply Hok| |].
  { intros a Ha. cbn. split_and!; [set_solver|set_solver|]. intros Hin%Hclass. specialize (Hminor a Ha). lia. }
  cbn [mbind result_bind]. cbn [snd] in Hst2.
  destruct (validate_defaults_Ok (btree_elements Z.leb (list_to_set (parent_class_minor <$> application_classes i))) (snd st2))
    as (classes' & ->); [|apply NoDup_btree_elements| |done].
  - intros pm Hpm. rewrite elem_of_btree_elements, elem_of_list_to_set in Hpm.
    apply list_elem_of_fmap in Hpm as (a & -> & Ha). destruct (Has a Ha) as (p & Hp & _ & Hpp & _). eauto.
  - intros pm Hpm. rewrite elem_of_btree_elements, elem_of_list_to_set in Hpm.
    apply list_elem_of_fmap in Hpm as (a & -> & Ha). destruct (Has a Ha) as (p & Hp & _ & Hpp & _).
    pose proof (Hcs p Hp). rewrite Hst2, elem_of_union, elem_of_list_to_set.
    intros [(a' & Heq & Ha')%list_elem_of_fmap|Hin%Hclass]; [|lia]. specialize (Hminor a' Ha'). lia.
Qed.
End validating.

(** Whatever the saved classes were, the state the agent builds from its
    allocators always passes the validation it applies when it loads a saved
    state: in particular client, default and application classes never share
    a class number. *)
Lemma allocated_state_valid `{Digest} gw up down :
  gw ≠ "" → interface_ok up → interface_ok down → name up ≠ name down →
  allocated_interface gw Upload up → allocated_interface gw Download down →
  shaping_validate (mkShaping 1 (Some up) (Some down) None) = Ok tt.
Proof.
  intros Hgw Hup Hdown Hne Haup Hadown. unfold shaping_validate. cbn.
  rewrite (proj1 Haup), (proj1 Hadown). cbn.
  rewrite (validate_interface_Ok gw Upload up Hgw (proj1 Haup) (allocated_classes_ok _ _ _ Haup) ∅ Hup) by set_solver.
  cbn [mbind result_bind].
  rewrite (validate_interface_Ok gw Download down Hgw (proj1 Hadown) (allocated_classes_ok _ _ _ Hadown) _ Hdown)
    by set_solver.
  done.
Qed.

(** The firewall mark keeps the two identities apart: the mark of a client
    tag and the mark of an application tag never share a bit, and each
    determines its tag. *)
Lemma marks_disjoint t a :
  0 ≤ t < 512 → 0 ≤ a ≤ MAX_APPLICATION_TAG →
  Z.land (client_mark_value t) (application_mark_value a) = 0 ∧
  client_mark_value t = t * 2 ^ 16 ∧ application_mark_value a = a * 2 ^ 25 ∧
  Z.land (Z.lor (client_mark_value t) (application_mark_value a)) CLIENT_MARK_MASK = client_mark_value t ∧
  Z.land (Z.lor (client_mark_value t) (application_mark_value a)) APPLICATION_MARK_MASK = application_mark_value a.
Proof.
  intros Ht Ha. change MAX_APPLICATION_TAG with 127 in Ha.
  assert (forallb (λ t, (client_mark_value t =? t * 2 ^ 16) && (Z.land (client_mark_value t) CLIENT_MARK_MASK =? t * 2 ^ 16)
    && (Z.land (client_mark_value t) APPLICATION_MARK_MASK =? 0))%bool (seqZ 0 512) = true) as Hc by by vm_compute.
  assert (forallb (λ a, (application_mark_value a =? a * 2 ^ 25) && (Z.land (application_mark_value a) CLIENT_MARK_MASK =? 0)
    && (Z.land (application_mark_value a) APPLICATION_MARK_MASK =? a * 2 ^ 25))%bool (seqZ 0 128) = true) as Hp by by vm_compute.
  rewrite forallb_forall in Hc, Hp. setoid_rewrite <- list_elem_of_In in Hc. setoid_rewrite <- list_elem_of_In in Hp.
  specialize (Hc t ltac:(apply elem_of_seqZ; lia)). specialize (Hp a ltac:(apply elem_of_seqZ; lia)).
  rewrite !andb_true_iff, !Z.eqb_eq in Hc, Hp. destruct Hc as [[Hc1 Hc2] Hc3], Hp as [[Hp1 Hp2] Hp3].
  rewrite !Z.land_lor_distr_l, Hc2, Hc3, Hp2, Hp3, Z.lor_0_l, Z.lor_0_r.
  split_and!; [|done..]. rewrite Hc1, Hp1.
  rewrite <- (Z.shiftl_mul_pow2 a) by lia. apply Z.bits_inj'. intros n Hn.
  rewrite Z.land_spec, Z.bits_0, Z.shiftl_spec by done.
  destruct (Z.lt_ge_cases n 25); [by rewrite (Z.testbit_neg_r a), andb_false_r by lia|].
  rewrite <- (Z.mod_small (t * 2 ^ 16) (2 ^ 25)) by lia. by rewrite Z.mod_pow2_bits_high by lia.
Qed.

(** ** Concrete instances *)

Module Example.
(** A digest with 32 bytes: the first two are the length of the input. *)
Definition digest : Digest := {| sha256_digest b := (zlen b / 256 mod 256) :: (zlen b mod 256) :: replicate 30 0 |}.

Definition client : string := "02:bb:cc:dd:ee:0f".
Definition rates : gmap string Z := {[client := 5000000]}.
Definition app_rates : gmap (string * string) Z := {[("p1", client) := 1000000]}.

Definition classes (d : Direction) (iface : string) (idx : Z) : list ClientClass :=
  match @allocate_classes digest "gw" d iface idx rates [] with Ok l => l | Err _ => [] end.
Definition applications (d : Direction) (iface : string) (idx : Z) : list ApplicationClass :=
  match @allocate_application_classes digest "gw" d iface idx app_rates (classes d iface idx) [] with Ok l => l | Err _ => [] end.
Definition interface (d : Direction) (iface : string) (idx : Z) : ManagedInterface :=
  mkManaged false iface idx 100000000 "fq_codel" (classes d iface idx) (applications d iface idx).

Lemma interface_allocated d iface idx :
  @allocate_classes digest "gw" d iface idx rates [] = Ok (classes d iface idx) →
  @allocate_application_classes digest "gw" d iface idx app_rates (classes d iface idx) [] = Ok (applications d iface idx) →
  @allocated_interface digest "gw" d (interface d iface idx).
Proof.
  intros Hc Ha. split; [done|]. exists rates, app_rates, [], []. split_and!; [| |done|done].
  - intros m [r Hr]. unfold rates in Hr. by apply lookup_singleton_Some in Hr as [<- _].
  - intros pid m [r Hr]. unfold app_rates in Hr. by apply lookup_singleton_Some in Hr as [[= <- <-] _].
Qed.
End Example.

Lemma allocated_state_valid_witness :
  shaping_validate (mkShaping 1 (Some (Example.interface Upload "wan" 2)) (Some (Example.interface Download "br-lan" 3)) None)
  = Ok tt.
Proof.
  apply (@allocated_state_valid Example.digest "gw"); try done.
  - apply Example.interface_allocated; vm_compute; reflexivity.
  - apply Example.interface_allocated; vm_compute; reflexivity.
Defined.

Lemma marks_disjoint_witness : Z.land (client_mark_value 511) (application_mark_value 127) = 0.
Proof. apply marks_disjoint; [lia|]. unfold MAX_APPLICATION_TAG. lia. Defined.

Lemma allocate_classes_correct_witness : ∃ out,
  @allocate_classes Example.digest "gw" Upload "wan" 2 Example.rates [] = Ok out.
Proof.
  apply (@allocate_classes_correct Example.digest "gw" Upload "wan" 2 Example.rates []); [constructor|].
  split_and!; [vm_compute; congruence| |constructor].
  intros m r Hr. unfold Example.rates in Hr. apply lookup_singleton_Some in Hr as [<- <-]. vm_compute. reflexivity.
Defined.
