(* ===== verification/Delivery.v ===== *)
(** Discovery of the LAN queues (src/crates/agent/src/policy/priority_delivery.rs):
    the ports of the LAN interface and the one port through which each selected
    client is reached.  The sysfs files and the bridge forwarding table are
    outside the program; they are the operations of the class [LanView]. *)

From S2P Require Import Prelude Json Topology Identity ClassIds.

Record QueuePort := mkPort { port_name : string; port_ifindex : Z }.
#[export] Instance QueuePort_eq_dec : EqDecision QueuePort.
Proof. solve_decision. Defined.

Record DeliveryLayout := mkLayout {
  capture_interface : string;
  bridge : bool;
  ingress_ports : list QueuePort;
  egress_ports : list QueuePort;
  client_delivery : gmap string QueuePort;
}.

Record BridgeFdbEntry := mkFdb { fdb_mac : MacAddress; fdb_ifindex : Z }.

(** What the agent reads: whether [<lan>/bridge] is a directory, the entries of
    [<lan>/brif], the text of [<name>/ifindex] and the forwarding table. *)
Class LanView := {
  is_bridge : string → bool;
  bridge_ports : string → result string (gset string);
  read_ifindex : string → result string string;
  bridge_fdb : result string (list BridgeFdbEntry);
}.

Inductive DeliveryError :=
| InvalidName
| TooManyClients
| IdentityInvalid (cause : option MacAddressParseError)
| Unreadable (e : string)
| InvalidIndex
| ZeroIndex
| AmbiguousPorts
| PortCount (client : string) (n : nat)
| DeliveryPanic.

(** Letters, digits, dots, dashes and underscores. *)
Definition name_byte_ok (b : Z) : bool := (is_ascii_alphanumeric b || (b =? 45) || (b =? 95) || (b =? 46))%bool.

Definition validate_name (n : string) : result DeliveryError unit :=
  reject_if (str_is_empty n || (15 <? str_len n) || negb (forallb name_byte_ok (str_bytes n)))%bool InvalidName.

Definition selected_client (text : string) : result DeliveryError (string * MacAddress) :=
  m ← map_err (λ e, IdentityInvalid (Some e)) (mac_from_str text);
  if (negb (is_unicast m) || negb (String.eqb (mac_to_string m) text))%bool
  then Err (IdentityInvalid None)
  else Ok (text, m).

Section inspect.
Context `{LanView}.

Definition queue_port (n : string) : result DeliveryError QueuePort :=
  _ ← validate_name n;
  text ← map_err Unreadable (read_ifindex n);
  idx ← ok_or (from_dec u32_max (str_trim text)) InvalidIndex;
  if idx =? 0 then Err ZeroIndex else Ok (mkPort n idx).

(** The ports a client was seen on. *)
Definition matching_ports (on_bridge : bool) (bindings : list BridgeFdbEntry) (ports : list QueuePort) (m : MacAddress)
    : result DeliveryError (gset Z) :=
  if on_bridge then
    Ok (list_to_set (fdb_ifindex <$> List.filter
          (λ b, bool_decide (fdb_mac b = m) && existsb (λ p, port_ifindex p =? fdb_ifindex b) ports)%bool bindings))
  else p ← ok_or (head ports) DeliveryPanic; Ok {[port_ifindex p]}.

Definition deliver (on_bridge : bool) (bindings : list BridgeFdbEntry) (ports : list QueuePort)
    (deliveries : gmap string QueuePort) (c : string * MacAddress) : result DeliveryError (gmap string QueuePort) :=
  matching ← matching_ports on_bridge bindings ports (snd c);
  if negb (Nat.eqb (size matching) 1) then Err (PortCount (fst c) (size matching))
  else
    idx ← ok_or (head (btree_elements Z.leb matching)) DeliveryPanic;
    p ← ok_or (List.find (λ p, port_ifindex p =? idx) ports) DeliveryPanic;
    Ok (<[fst c := p]> deliveries).

Definition inspect_at (lan : string) (selected : gset string) : result DeliveryError DeliveryLayout :=
  _ ← validate_name lan;
  _ ← reject_if (256 <? Z.of_nat (size selected)) TooManyClients;
  clients ← mapR selected_client (btree_elements str_leb selected);
  let on_bridge := is_bridge lan in
  names ← (if on_bridge then map_err Unreadable (bridge_ports lan) else Ok {[lan]});
  ports ← mapR queue_port (btree_elements str_leb names);
  _ ← reject_if (bool_decide (ports = []) || (32 <? zlen ports)
        || negb (Z.of_nat (size (list_to_set (port_ifindex <$> ports) : gset Z)) =? zlen ports))%bool AmbiguousPorts;
  bindings ← (if on_bridge then map_err Unreadable bridge_fdb else Ok []);
  deliveries ← foldM (deliver on_bridge bindings ports) ∅ clients;
  Ok (mkLayout lan on_bridge ports ports deliveries).
End inspect.

(** A client is seen on a port. *)
Definition seen_on `{LanView} (lan : string) (m : MacAddress) (p : QueuePort) : Prop :=
  is_bridge lan = false ∨ ∃ fdb b, bridge_fdb = Ok fdb ∧ b ∈ fdb ∧ fdb_mac b = m ∧ fdb_ifindex b = port_ifindex p.

Section proofs.
Context `{LanView}.

Lemma head_singleton_set (X : gset Z) x : X = {[x]} → head (btree_elements Z.leb X) = Some x.
Proof. intros ->. unfold btree_elements. by rewrite elements_singleton. Qed.

Lemma size_1_singleton (X : gset Z) : size X = 1%nat → ∃ x, X = {[x]}.
Proof. intros Hx. apply size_1_elem_of in Hx as [x Hx]. exists x. by apply leibniz_equiv. Qed.

(** One delivery never panics, and finds the only port the client is seen on. *)
Lemma deliver_cases lan bindings ports ds c :
  ports ≠ [] → NoDup (port_ifindex <$> ports) → (is_bridge lan = false → length ports = 1%nat) →
  (is_bridge lan = true → bridge_fdb = Ok bindings) →
  match deliver (is_bridge lan) bindings ports ds c with
  | Ok ds' => ∃ p, p ∈ ports ∧ ds' = <[fst c := p]> ds ∧ seen_on lan (snd c) p ∧
      ∀ q, q ∈ ports → seen_on lan (snd c) q → q = p
  | Err (PortCount m n) => m = fst c ∧ n ≠ 1%nat
  | Err _ => False
  end.
Proof.
  intros Hne Hnd Hone Hfdb. unfold deliver, matching_ports, seen_on. destruct (is_bridge lan) eqn:Hb.
  - specialize (Hfdb eq_refl). cbn [mbind result_bind].
    set (X := list_to_set _). destruct (Nat.eqb_spec (size X) 1) as [Hs|Hs]; cbn [negb]; [|done].
    apply size_1_singleton in Hs as [x Hx]. rewrite (head_singleton_set X x Hx). cbn [ok_or mbind result_bind].
    assert (∀ i, i ∈ X ↔ ∃ b, b ∈ bindings ∧ fdb_mac b = snd c ∧ fdb_ifindex b = i ∧ ∃ p, p ∈ ports ∧ port_ifindex p = i) as HX.
    { intros i. unfold X. rewrite elem_of_list_to_set, list_elem_of_fmap. split.
      - intros (b & -> & Hin). apply list_elem_of_In, filter_In in Hin as [Hin%list_elem_of_In Hp].
        apply andb_true_iff in Hp as [Hm%bool_decide_eq_true Hp].
        apply existsb_exists in Hp as (p & Hp%list_elem_of_In & He).
        exists b. split_and!; [done|done|done|]. exists p. split; [done|lia].
      - intros (b & Hin & Hm & <- & p & Hp & He). exists b. split; [done|].
        apply list_elem_of_In, filter_In. split; [by apply list_elem_of_In|]. apply andb_true_iff.
        split; [by apply bool_decide_eq_true|]. apply existsb_exists. exists p.
        split; [by apply list_elem_of_In|lia]. }
    destruct (proj1 (HX x)) as (b & Hbin & Hbm & Hbi & p & Hp & Hpi); [rewrite Hx; set_solver|].
    destruct (List.find _ ports) as [p'|] eqn:Hf; cbn [ok_or mbind result_bind].
    2:{ pose proof (find_none _ _ Hf p) as Hn. rewrite <- list_elem_of_In in Hn. specialize (Hn Hp). cbn in Hn. lia. }
    apply find_Some in Hf as [Hp' Hi']. exists p'. split_and!; [done|done| |].
    + right. exists bindings, b. split_and!; [done|done|done|lia].
    + intros q Hq [?|(fdb & b' & Hfdb' & Hb' & Hm' & Hi'')]; [done|].
      rewrite Hfdb in Hfdb'. injection Hfdb' as <-.
      assert (port_ifindex q ∈ X) as Hin by (apply HX; exists b'; eauto 10).
      rewrite Hx, elem_of_singleton in Hin. apply (NoDup_key_inj port_ifindex ports); try done. lia.
  - specialize (Hone eq_refl). destruct ports as [|p [|? ?]]; try done. cbn [head ok_or mbind result_bind].
    rewrite size_singleton. cbn [Nat.eqb negb]. rewrite (head_singleton_set _ _ eq_refl). cbn [ok_or mbind result_bind List.find].
    rewrite Z.eqb_refl. cbn [ok_or mbind result_bind]. exists p. split_and!; [set_solver|done|by left|].
    intros q Hq _. set_solver.
Qed.

Lemma queue_port_Ok n p : queue_port n = Ok p → port_name p = n ∧ port_ifindex p ≠ 0 ∧ validate_name n = Ok tt.
Proof.
  unfold queue_port. rewrite check_seq. intros [Hn Hp]. apply bind_Ok in Hp as (text & _ & Hp).
  apply bind_Ok in Hp as (idx & _ & Hp). destruct (Z.eqb_spec idx 0); [done|]. by injection Hp as <-.
Qed.

Lemma queue_ports_Ok ns ps : mapR queue_port ns = Ok ps → port_name <$> ps = ns ∧ length ps = length ns.
Proof.
  intros Hps%mapR_Ok. split; [|by apply Forall2_length in Hps].
  induction Hps as [|n p ns ps Hp Hps IH]; [done|]. cbn. apply queue_port_Ok in Hp as [-> _]. by f_equal.
Qed.

Lemma selected_clients_Ok ts cs : mapR selected_client ts = Ok cs →
  fst <$> cs = ts ∧ Forall (λ c, mac_from_str (fst c) = Ok (snd c)) cs.
Proof.
  intros Hcs%mapR_Ok. induction Hcs as [|t c ts cs Hc Hcs [IH1 IH2]]; [by split; [|constructor]|].
  unfold selected_client in Hc. apply bind_Ok in Hc as (m & Hm%map_err_Ok & Hc).
  destruct (_ || _)%bool; [done|]. injection Hc as <-. cbn. split; [by f_equal|by constructor].
Qed.

(** The deliveries recorded for the clients handled so far. *)
Definition delivered (lan : string) (ports : list QueuePort) (cs : list (string * MacAddress)) (ds : gmap string QueuePort) : Prop :=
  dom ds = list_to_set (fst <$> cs) ∧
  ∀ c, c ∈ cs → ∃ p, ds !! fst c = Some p ∧ p ∈ ports ∧ seen_on lan (snd c) p ∧
    ∀ q, q ∈ ports → seen_on lan (snd c) q → q = p.

Lemma deliver_loop lan bindings ports cs ds :
  ports ≠ [] → NoDup (port_ifindex <$> ports) → (is_bridge lan = false → length ports = 1%nat) →
  (is_bridge lan = true → bridge_fdb = Ok bindings) → NoDup (fst <$> cs) →
  foldM (deliver (is_bridge lan) bindings ports) ∅ cs = Ok ds → delivered lan ports cs ds.
Proof.
  intros Hne Hnd Hone Hfdb Hkeys Hds.
  enough (NoDup (fst <$> ([] ++ cs)) → delivered lan ports ([] ++ cs) ds) by auto.
  revert Hds. apply (foldM_ind (λ pre ds, NoDup (fst <$> pre) → delivered lan ports pre ds)).
  2:{ intros _. split; [set_solver|]. intros c Hc. by apply not_elem_of_nil in Hc. }
  intros pre ds0 c ds1 IH Hc Hndp. rewrite fmap_app, NoDup_app in Hndp. destruct Hndp as (Hpre & Hdis & _).
  destruct (IH Hpre) as [Hdom Hall]. pose proof (deliver_cases lan bindings ports ds0 c Hne Hnd Hone Hfdb) as Hd.
  rewrite Hc in Hd. destruct Hd as (p & Hp & -> & Hseen & Huniq). split.
  - rewrite dom_insert_L, Hdom, fmap_app. cbn. set_solver.
  - intros c' [Hc'|Hc']%elem_of_app.
    + destruct (Hall c' Hc') as (p' & Hl & Hrest). exists p'. rewrite lookup_insert_ne; [done|].
      intros Heq. apply (Hdis (fst c')); [by apply list_elem_of_fmap_2|]. cbn. rewrite Heq. set_solver.
    + apply list_elem_of_singleton in Hc' as ->. exists p. by rewrite lookup_insert_eq.
Qed.

(** The discovered layout is unambiguous: distinct ports with non-zero
    indices under valid names, captured on the same ports they are delivered
    on, and every selected client, and nobody else, has as its delivery port
    the one port of the LAN it is seen on. *)
Lemma inspect_layout lan selected l :
  inspect_at lan selected = Ok l →
  capture_interface l = lan ∧ bridge l = is_bridge lan ∧ ingress_ports l = egress_ports l ∧
  egress_ports l ≠ [] ∧ zlen (egress_ports l) ≤ 32 ∧
  NoDup (port_ifindex <$> egress_ports l) ∧ NoDup (port_name <$> egress_ports l) ∧
  (is_bridge lan = false → port_name <$> egress_ports l = [lan]) ∧
  Forall (λ p, port_ifindex p ≠ 0 ∧ validate_name (port_name p) = Ok tt) (egress_ports l) ∧
  dom (client_delivery l) = selected ∧
  ∀ c, c ∈ selected → ∃ m p, mac_from_str c = Ok m ∧ client_delivery l !! c = Some p ∧ p ∈ egress_ports l ∧
    seen_on lan m p ∧ ∀ q, q ∈ egress_ports l → seen_on lan m q → q = p.
Proof.
  unfold inspect_at. rewrite check_seq, reject_seq. intros (_ & _ & Hx).
  apply bind_Ok in Hx as (cs & Hcs & Hx). apply bind_Ok in Hx as (names & Hnames & Hx).
  apply bind_Ok in Hx as (ports & Hports & Hx). rewrite reject_seq in Hx. destruct Hx as [Hamb Hx].
  apply bind_Ok in Hx as (bindings & Hbind & Hx). apply bind_Ok in Hx as (ds & Hds & [= <-]). cbn.
  apply queue_ports_Ok in Hports as Hp. destruct Hp as [Hpn Hlen]. apply mapR_Ok in Hports.
  apply selected_clients_Ok in Hcs as [Hkeys Hmacs]. split_bools.
  assert (NoDup (port_ifindex <$> ports)) as Hnd.
  { apply NoDup_by_size. rewrite length_fmap. unfold zlen in *. lia. }
  assert (is_bridge lan = false → port_name <$> ports = [lan]) as Hsingle.
  { intros Hb. rewrite Hb in Hnames. injection Hnames as <-. rewrite Hpn. unfold btree_elements. by rewrite elements_singleton. }
  assert (delivered lan ports cs ds) as [Hdom Hall].
  { eapply deliver_loop; [done|done| | | |exact Hds].
    - intros Hb%Hsingle. by rewrite <- (length_fmap port_name), Hb.
    - intros Hb. rewrite Hb in Hbind. by apply map_err_Ok in Hbind.
    - rewrite Hkeys. apply NoDup_btree_elements. }
  split_and!; [done|done|done|done|lia|done| |done| | |].
  - rewrite Hpn. apply NoDup_btree_elements.
  - apply Forall_forall. intros p [i Hi]%list_elem_of_lookup.
    destruct (Forall2_lookup_r _ _ _ _ _ Hports Hi) as (n & _ & (-> & ? & ?)%queue_port_Ok). done.
  - rewrite Hdom, Hkeys. apply set_eq. intros c. by rewrite elem_of_list_to_set, elem_of_btree_elements.
  - intros c Hc%(elem_of_btree_elements str_leb). rewrite <- Hkeys in Hc.
    apply list_elem_of_fmap in Hc as ([c' m] & -> & Hc). rewrite Forall_forall in Hmacs.
    destruct (Hall _ Hc) as (p & ? & ? & ? & ?). exists m, p. split_and!; try done. by apply (Hmacs _ Hc).
Qed.
End proofs.
