(* ===== verification/PriorityPlan.v ===== *)
(** The queue plan of the priority backend
    (src/crates/agent/src/policy/priority_plan.rs): the HTB class tree of one
    queue and the distribution of client and application budgets over the
    upload queue and the LAN delivery ports. *)

From S2P Require Import Prelude Config Json Topology Identity ClassIds Delivery.

Definition STRUCTURAL_CAPACITY_BPS : Z := 100000000000.

Record ClientBudget := mkBudget {
  lease : ClientSlotLease;
  upload_bps : option Z;
  download_bps : option Z;
}.

Record BudgetClass := mkBudgetClass {
  bc_mac : string;
  bc_slot : Z;
  bc_parent_minor : Z;
  bc_default_minor : Z;
  bc_rate_bps : Z;
}.

Record ApplicationBudget := mkAppBudget {
  ab_lease : ClientSlotLease;
  ab_policy_id : string;
  ab_minor : Z;
  ab_upload_bps : option Z;
  ab_download_bps : option Z;
}.

Record ApplicationClass := mkAppClass {
  ac_mac : string;
  ac_slot : Z;
  ac_policy_id : string;
  ac_minor : Z;
  ac_rate_bps : Z;
}.

Record QueueTree := mkTree {
  port : QueuePort;
  major : Z;
  capacity_bps : Z;
  clients : list BudgetClass;
  applications : list ApplicationClass;
}.

Record ClassSpec := mkSpec { classid : Z; parent : Z; rate_bps : Z }.

Inductive PlanError :=
| InvalidPort
| InvalidRoot
| InvalidClient
| InvalidApplication
| NoClientParent
| Slot (e : SlotError)
| NoDeliveryQueues
| InvalidQueue
| CapacityUnknown
| CapacityMismatch
| CaptureMismatch
| DuplicateAssignment
| NoUniquePort
| PortOutsideLayout
| InvalidAssignment.

Definition port_byte_ok (b : Z) : bool := (is_ascii_alphanumeric b || (b =? 45) || (b =? 95) || (b =? 46))%bool.

Definition validate_port (p : QueuePort) : result PlanError unit :=
  reject_if ((port_ifindex p =? 0) || str_is_empty (port_name p) || (15 <? str_len (port_name p))
             || negb (forallb port_byte_ok (str_bytes (port_name p))))%bool InvalidPort.

(** ** The class tree of a queue *)

Definition leaf_raw (major minor : Z) : result PlanError Z := c ← map_err Slot (leaf major minor); Ok (raw c).

(** The loop over the clients: the specifications so far, [macs] and [slots]. *)
Definition client_specs (t : QueueTree) (st : list ClassSpec * gset string * gset Z) (c : BudgetClass)
    : result PlanError (list ClassSpec * gset string * gset Z) :=
  let '(out, macs, slots) := st in
  let root := Z.shiftl (major t) 16 in
  let l := mkLease (bc_mac c) (bc_slot c) true in
  _ ← map_err Slot (lease_validate l);
  if (bool_decide (bc_mac c ∈ macs) || bool_decide (bc_slot c ∈ slots))%bool then Err InvalidClient
  else
    pm ← map_err Slot (parent_minor l);
    if (negb (bc_parent_minor c =? pm) || negb (bc_default_minor c =? DEFAULT_FIRST + bc_slot c)
        || negb (in_range MIN_POLICY_CAPACITY_BPS (capacity_bps t) (bc_rate_bps c)))%bool then Err InvalidClient
    else
      let p := Z.lor root (bc_parent_minor c) in
      d ← leaf_raw (major t) (bc_default_minor c);
      Ok (out ++ [mkSpec p (Z.lor root ROOT_MINOR) (bc_rate_bps c); mkSpec d p (bc_rate_bps c)],
          {[bc_mac c]} ∪ macs, {[bc_slot c]} ∪ slots).

(** The loop over the applications: the specifications and the minors used. *)
Definition application_specs (t : QueueTree) (st : list ClassSpec * gset Z) (a : ApplicationClass)
    : result PlanError (list ClassSpec * gset Z) :=
  let '(out, minors) := st in
  c ← ok_or (List.find (λ c, String.eqb (bc_mac c) (ac_mac a) && (bc_slot c =? ac_slot a))%bool (clients t)) NoClientParent;
  if (negb (in_range APPLICATION_FIRST APPLICATION_LAST (ac_minor a)) || bool_decide (ac_minor a ∈ minors)
      || negb (in_range MIN_POLICY_CAPACITY_BPS (bc_rate_bps c) (ac_rate_bps a)) || str_is_empty (ac_policy_id a))%bool
  then Err InvalidApplication
  else
    l ← leaf_raw (major t) (ac_minor a);
    Ok (out ++ [mkSpec l (Z.lor (Z.shiftl (major t) 16) (bc_parent_minor c)) (ac_rate_bps a)], {[ac_minor a]} ∪ minors).

Definition classes (t : QueueTree) : result PlanError (list ClassSpec) :=
  _ ← validate_port (port t);
  _ ← reject_if (negb ((major t =? UPLOAD_MAJOR) || (major t =? DOWNLOAD_MAJOR)) || negb (in_capacity (capacity_bps t))
        || (256 <? zlen (clients t)))%bool InvalidRoot;
  let root := Z.shiftl (major t) 16 in
  let ancestor := Z.lor root ROOT_MINOR in
  bypass ← leaf_raw (major t) BYPASS_MINOR;
  st ← foldM (client_specs t)
         ([mkSpec ancestor root (capacity_bps t); mkSpec bypass ancestor (capacity_bps t)], ∅, ∅) (clients t);
  st ← foldM (application_specs t) (fst (fst st), ∅) (applications t);
  Ok (fst st).

(** ** The plan *)

Record PriorityPlan := mkPlan { upload : QueueTree; downloads : list QueueTree }.

(** The loop over the delivery ports. *)
Definition add_port (layout : DeliveryLayout) (ifb : QueuePort) (capacities : gmap Z Z)
    (st : gmap Z QueueTree * gset Z * gset string) (p : QueuePort)
    : result PlanError (gmap Z QueueTree * gset Z * gset string) :=
  let '(trees, ids, names) := st in
  _ ← validate_port p;
  _ ← reject_if ((port_ifindex p =? port_ifindex ifb) || String.eqb (port_name p) (port_name ifb)
        || bool_decide (port_ifindex p ∈ ids) || bool_decide (port_name p ∈ names)
        || (bridge layout && String.eqb (port_name p) (capture_interface layout)))%bool InvalidQueue;
  c ← ok_or (capacities !! port_ifindex p) CapacityUnknown;
  Ok (<[port_ifindex p := mkTree p DOWNLOAD_MAJOR c [] []]> trees, {[port_ifindex p]} ∪ ids, {[port_name p]} ∪ names).

Definition port_pair (p : QueuePort) : Z * string := (port_ifindex p, port_name p).

Definition capture_matches (layout : DeliveryLayout) : bool :=
  let ingress : gset (Z * string) := list_to_set (port_pair <$> ingress_ports layout) in
  let egress : gset (Z * string) := list_to_set (port_pair <$> egress_ports layout) in
  (bool_decide (ingress = egress) && (Z.of_nat (size ingress) =? zlen (ingress_ports layout))
   && (bridge layout
       || ((Z.of_nat (size egress) =? 1)
           && match egress_ports layout with p :: _ => String.eqb (port_name p) (capture_interface layout) | [] => false end)))%bool.

Definition budget_class (l : ClientSlotLease) (rate : Z) : result PlanError BudgetClass :=
  pm ← map_err Slot (parent_minor l);
  Ok (mkBudgetClass (mac l) (slot l) pm (DEFAULT_FIRST + slot l) rate).

Definition push_client (t : QueueTree) (c : BudgetClass) : QueueTree :=
  mkTree (port t) (major t) (capacity_bps t) (clients t ++ [c]) (applications t).
Definition push_application (t : QueueTree) (a : ApplicationClass) : QueueTree :=
  mkTree (port t) (major t) (capacity_bps t) (clients t) (applications t ++ [a]).

Record BuildState := mkBuild {
  b_upload : QueueTree;
  b_downloads : gmap Z QueueTree;
  b_macs : gset string;
  b_slots : gset Z;
  b_keys : gset (string * string);
}.

Definition add_budget (layout : DeliveryLayout) (st : BuildState) (b : ClientBudget) : result PlanError BuildState :=
  _ ← map_err Slot (lease_validate (lease b));
  _ ← reject_if (negb (active (lease b)) || bool_decide (mac (lease b) ∈ b_macs st)
        || bool_decide (slot (lease b) ∈ b_slots st)
        || (bool_decide (upload_bps b = None) && bool_decide (download_bps b = None)))%bool DuplicateAssignment;
  up ← match upload_bps b with
       | None => Ok (b_upload st)
       | Some rate => c ← budget_class (lease b) rate; Ok (push_client (b_upload st) c)
       end;
  down ← match download_bps b with
         | None => Ok (b_downloads st)
         | Some rate =>
           delivery ← ok_or (client_delivery layout !! mac (lease b)) NoUniquePort;
           tree ← ok_or (t ← b_downloads st !! port_ifindex delivery;
                         if bool_decide (port t = delivery) then Some t else None) PortOutsideLayout;
           c ← budget_class (lease b) rate;
           Ok (<[port_ifindex delivery := push_client tree c]> (b_downloads st))
         end;
  Ok (mkBuild up down ({[mac (lease b)]} ∪ b_macs st) ({[slot (lease b)]} ∪ b_slots st) (b_keys st)).

(** The client class an application needs, if its client has none yet. *)
Definition ensure_client (t : QueueTree) (l : ClientSlotLease) (rate : Z) : result PlanError QueueTree :=
  if existsb (λ c, String.eqb (bc_mac c) (mac l)) (clients t) then Ok t
  else c ← budget_class l rate; Ok (push_client t c).

Definition app_class (a : ApplicationBudget) (rate parent_rate : Z) : ApplicationClass :=
  mkAppClass (mac (ab_lease a)) (slot (ab_lease a)) (ab_policy_id a) (ab_minor a) (Z.min rate parent_rate).

Definition download_parent (layout : DeliveryLayout) (downloads : gmap Z QueueTree) (m : string) : Z :=
  match List.find (λ e, match client_delivery layout !! m with
                        | Some d => port_ifindex d =? port_ifindex (port (snd e))
                        | None => false end) (btree_entries Z.leb downloads) with
  | Some e => capacity_bps (snd e)
  | None => STRUCTURAL_CAPACITY_BPS
  end.

Definition add_application (layout : DeliveryLayout) (upload_capacity : Z) (budgets : list ClientBudget)
    (st : BuildState) (a : ApplicationBudget) : result PlanError BuildState :=
  let l := ab_lease a in
  _ ← map_err Slot (lease_validate l);
  _ ← reject_if (negb (active l) || str_is_empty (ab_policy_id a)
        || bool_decide ((mac l, ab_policy_id a) ∈ b_keys st)
        || negb (in_range APPLICATION_FIRST APPLICATION_LAST (ab_minor a))
        || (bool_decide (ab_upload_bps a = None) && bool_decide (ab_download_bps a = None)))%bool InvalidAssignment;
  let total := List.find (λ b, String.eqb (mac (lease b)) (mac l)) budgets in
  let up_parent := default upload_capacity (total ≫= upload_bps) in
  up ← match ab_upload_bps a with
       | None => Ok (b_upload st)
       | Some rate => t ← ensure_client (b_upload st) l up_parent; Ok (push_application t (app_class a rate up_parent))
       end;
  let down_parent := match total ≫= download_bps with
                     | Some r => r
                     | None => download_parent layout (b_downloads st) (mac l)
                     end in
  down ← match ab_download_bps a with
         | None => Ok (b_downloads st)
         | Some rate =>
           delivery ← ok_or (client_delivery layout !! mac l) NoUniquePort;
           e ← ok_or (List.find (λ e, bool_decide (port (snd e) = delivery)) (btree_entries Z.leb (b_downloads st)))
                 PortOutsideLayout;
           t ← ensure_client (snd e) l down_parent;
           Ok (<[fst e := push_application t (app_class a rate down_parent)]> (b_downloads st))
         end;
  Ok (mkBuild up down (b_macs st) (b_slots st) ({[(mac l, ab_policy_id a)]} ∪ b_keys st)).

(** Sorting a tree and checking that it has a class layout. *)
Definition finish_tree (t : QueueTree) : result PlanError QueueTree :=
  let t := mkTree (port t) (major t) (capacity_bps t) (sort_by (λ a b, bc_slot a <=? bc_slot b) (clients t))
             (sort_by (λ a b, ac_minor a <=? ac_minor b) (applications t)) in
  _ ← classes t; Ok t.

Definition build (layout : DeliveryLayout) (ifb : QueuePort) (upload_capacity : Z) (capacities : gmap Z Z)
    (budgets : list ClientBudget) (apps : list ApplicationBudget) : result PlanError PriorityPlan :=
  _ ← validate_port ifb;
  _ ← reject_if (bool_decide (egress_ports layout = []) || (32 <? zlen (egress_ports layout)))%bool NoDeliveryQueues;
  ports ← foldM (add_port layout ifb capacities) (∅, ∅, ∅) (egress_ports layout);
  let '(trees, ids, _) := ports in
  _ ← reject_if (negb (bool_decide (dom capacities = ids))) CapacityMismatch;
  _ ← reject_if (negb (capture_matches layout)) CaptureMismatch;
  st ← foldM (add_budget layout) (mkBuild (mkTree ifb UPLOAD_MAJOR upload_capacity [] []) trees ∅ ∅ ∅) budgets;
  st ← foldM (add_application layout upload_capacity budgets) st apps;
  up ← finish_tree (b_upload st);
  down ← mapR finish_tree (snd <$> btree_entries Z.leb (b_downloads st));
  Ok (mkPlan up down).

(** ** Class trees *)

(** A class layout in creation order: every class after the first hangs off
    an earlier one, with a fresh id and within its rate. *)
Inductive class_tree (root : Z) : list ClassSpec → Prop :=
| ct_root c : parent c = root → class_tree root [c]
| ct_child out c q : class_tree root out → q ∈ out → parent c = classid q → rate_bps c ≤ rate_bps q →
    classid c ∉ classid <$> out → class_tree root (out ++ [c]).

Lemma class_tree_NoDup root out : class_tree root out → NoDup (classid <$> out).
Proof.
  induction 1 as [|out c q Ht IH Hq Hp Hr Hn]; [apply NoDup_singleton|].
  rewrite fmap_app, NoDup_app. split_and!; [done| |apply NoDup_singleton].
  intros x Hx Hx'. cbn in Hx'. apply list_elem_of_singleton in Hx' as ->. done.
Qed.

Section trees.
Context (t : QueueTree).

Definition cid (minor : Z) : Z := major t * 2 ^ 16 + minor.

Definition major_ok : Prop := major t = UPLOAD_MAJOR ∨ major t = DOWNLOAD_MAJOR.

Lemma cid_lor minor : 0 ≤ minor < 2 ^ 16 → Z.lor (Z.shiftl (major t) 16) minor = cid minor.
Proof. apply lor_shiftl. lia. Qed.

Lemma leaf_raw_Ok minor x : leaf_raw (major t) minor = Ok x → allocated_leaf minor = true ∧ x = cid minor.
Proof.
  unfold leaf_raw. rewrite bind_Ok. intros (c & Hc%map_err_Ok & [= <-]). apply leaf_Ok in Hc as (_ & Ha & Hr). done.
Qed.

(** The specifications of one client and of one application. *)
Definition client_pair (c : BudgetClass) : list ClassSpec :=
  [mkSpec (cid (CLIENT_FIRST + bc_slot c)) (cid ROOT_MINOR) (bc_rate_bps c);
   mkSpec (cid (DEFAULT_FIRST + bc_slot c)) (cid (CLIENT_FIRST + bc_slot c)) (bc_rate_bps c)].

(** The minors of the classes created so far, for the given slots. *)
Definition client_minor (slots : gset Z) (m : Z) : Prop :=
  m = ROOT_MINOR ∨ m = BYPASS_MINOR ∨ ∃ s, s ∈ slots ∧ 0 ≤ s < 256 ∧ (m = CLIENT_FIRST + s ∨ m = DEFAULT_FIRST + s).

Record clients_inv (pre : list BudgetClass) (st : list ClassSpec * gset string * gset Z) : Prop := mkClientsInv {
  ci_tree : class_tree (Z.shiftl (major t) 16) (fst (fst st));
  ci_root : mkSpec (cid ROOT_MINOR) (Z.shiftl (major t) 16) (capacity_bps t) ∈ fst (fst st);
  ci_ids : ∀ x, x ∈ fst (fst st) → ∃ m, classid x = cid m ∧ client_minor (snd st) m;
  ci_clients : ∀ c, c ∈ pre → 0 ≤ bc_slot c < 256 ∧ bc_parent_minor c = CLIENT_FIRST + bc_slot c ∧
    ∀ x, x ∈ client_pair c → x ∈ fst (fst st);
}.

Lemma client_specs_Ok pre st c st' : 0 ≤ bc_slot c → clients_inv pre st → client_specs t st c = Ok st' →
  clients_inv (pre ++ [c]) st' ∧ fst (fst st') = fst (fst st) ++ client_pair c.
Proof.
  intros Hs [Htree Hroot Hids Hcl] H. destruct st as [[out macs] slots]. unfold client_specs in H. cbn in *.
  apply bind_Ok in H as ([] & Hv%map_err_Ok & H). apply lease_validate_Ok in Hv; [|done]. destruct Hv as [_ Hslot].
  cbn in Hslot. change SLOT_COUNT with 256 in Hslot.
  destruct (_ || _)%bool eqn:Hdup; [done|]. apply bind_Ok in H as (pm & Hpm%map_err_Ok & H).
  unfold parent_minor in Hpm. apply bind_Ok in Hpm as (_ & _ & [= <-]). cbn in H.
  destruct (_ || negb _)%bool eqn:Hb; [done|]. apply bind_Ok in H as (dl & Hdl & [= <-]).
  split_bools. apply leaf_raw_Ok in Hdl as [_ ->]. unfold in_range in *.
  assert (bc_parent_minor c = CLIENT_FIRST + bc_slot c) as Hp by (unfold CLIENT_FIRST in *; lia).
  assert (bc_default_minor c = DEFAULT_FIRST + bc_slot c) as Hd by (unfold DEFAULT_FIRST in *; lia).
  assert (bc_rate_bps c ≤ capacity_bps t) as Hrate by lia.
  rewrite Hp, Hd, !cid_lor by (unfold CLIENT_FIRST, ROOT_MINOR; lia).
  fold (client_pair c). split; [|done].
  assert (∀ m, client_minor slots m → m ≠ CLIENT_FIRST + bc_slot c ∧ m ≠ DEFAULT_FIRST + bc_slot c) as Hfresh.
  { intros m [->|[->|(s & Hin & Hs' & Hm)]]; unfold ROOT_MINOR, BYPASS_MINOR, CLIENT_FIRST, DEFAULT_FIRST in *; [lia|lia|].
    assert (s ≠ bc_slot c) by (by intros ->). lia. }
  split; cbn.
  - replace (out ++ client_pair c) with ((out ++ [mkSpec (cid (CLIENT_FIRST + bc_slot c)) (cid ROOT_MINOR) (bc_rate_bps c)])
      ++ [mkSpec (cid (DEFAULT_FIRST + bc_slot c)) (cid (CLIENT_FIRST + bc_slot c)) (bc_rate_bps c)])
      by by rewrite <- app_assoc.
    eapply ct_child; [eapply ct_child; [exact Htree|exact Hroot|done|done|]|rewrite elem_of_app, list_elem_of_singleton; by right|done|cbn; lia|].
    + cbn. intros (x & Hx & Hin)%list_elem_of_fmap. destruct (Hids x Hin) as (m & Hm & Hcm).
      apply Hfresh in Hcm. unfold cid in *. lia.
    + cbn. rewrite fmap_app, elem_of_app. cbn. rewrite list_elem_of_singleton.
      intros [(x & Hx & Hin)%list_elem_of_fmap|Heq].
      * destruct (Hids x Hin) as (m & Hm & Hcm). apply Hfresh in Hcm. unfold cid in *. lia.
      * unfold cid, CLIENT_FIRST, DEFAULT_FIRST in Heq. lia.
  - rewrite elem_of_app. by left.
  - intros x [Hx|Hx]%elem_of_app.
    + destruct (Hids x Hx) as (m & Hm & Hcm). exists m. split; [done|]. unfold client_minor in *. set_solver.
    + assert (∃ m, classid x = cid m ∧ (m = CLIENT_FIRST + bc_slot c ∨ m = DEFAULT_FIRST + bc_slot c)) as (m & Hm & Hor).
      { unfold client_pair in Hx. rewrite !elem_of_cons, elem_of_nil in Hx. destruct Hx as [->|[->|[]]]; cbn; eauto. }
      exists m. split; [done|]. right. right. exists (bc_slot c). set_solver.
  - intros c' [Hc'|Hc']%elem_of_app.
    + destruct (Hcl c' Hc') as (? & ? & Hin). split_and!; try (done || lia). intros x Hx. rewrite elem_of_app. left. auto.
    + apply list_elem_of_singleton in Hc' as ->. split_and!; try (done || lia). intros x Hx. rewrite elem_of_app. by right.
Qed.

Lemma clients_loop cs out : Forall (λ c, 0 ≤ bc_slot c) cs → cs = clients t →
  clients_inv [] (out, ∅, ∅) →
  ∀ st, foldM (client_specs t) (out, ∅, ∅) cs = Ok st →
  clients_inv cs st ∧ fst (fst st) = out ++ concat (client_pair <$> cs).
Proof.
  intros Hs _ Hinv st H.
  assert (Forall (λ c, 0 ≤ bc_slot c) ([] ++ cs) → clients_inv ([] ++ cs) st ∧
    fst (fst st) = out ++ concat (client_pair <$> ([] ++ cs))) as Hgoal; [|by apply Hgoal].
  revert H. apply (foldM_ind (λ pre st, Forall (λ c, 0 ≤ bc_slot c) pre → clients_inv pre st ∧
    fst (fst st) = out ++ concat (client_pair <$> pre))).
  2:{ intros _. split; [done|]. cbn. by rewrite app_nil_r. }
  intros pre st0 c st1 IH Hc [Hpre Hc0]%Forall_app. rewrite Forall_singleton in Hc0. destruct (IH Hpre) as [Hi Ho].
  destruct (client_specs_Ok _ _ _ _ Hc0 Hi Hc) as [Hi' Ho']. split; [done|].
  rewrite Ho', Ho, fmap_app, concat_app, <- app_assoc. cbn. done.
Qed.

(** The parent an application class refers to. *)
Definition parent_of (a : ApplicationClass) (c : BudgetClass) : Prop :=
  c ∈ clients t ∧ bc_mac c = ac_mac a ∧ bc_slot c = ac_slot a.

Definition app_spec (a : ApplicationClass) : ClassSpec :=
  mkSpec (cid (ac_minor a)) (cid (CLIENT_FIRST + ac_slot a)) (ac_rate_bps a).

Record apps_inv (slots : gset Z) (pre : list ApplicationClass) (st : list ClassSpec * gset Z) : Prop := mkAppsInv {
  api_tree : class_tree (Z.shiftl (major t) 16) (fst st);
  api_clients : ∀ c x, c ∈ clients t → x ∈ client_pair c → x ∈ fst st;
  api_ids : ∀ x, x ∈ fst st → ∃ m, classid x = cid m ∧
    (client_minor slots m ∨ (m ∈ snd st ∧ APPLICATION_FIRST ≤ m ≤ APPLICATION_LAST));
  api_pre : Forall (λ a, (∃ c, parent_of a c ∧ ac_rate_bps a ≤ bc_rate_bps c) ∧
    APPLICATION_FIRST ≤ ac_minor a ≤ APPLICATION_LAST) pre;
}.

Lemma client_minor_low slots m : client_minor slots m → m < APPLICATION_FIRST ∨ APPLICATION_LAST < m.
Proof.
  unfold APPLICATION_FIRST, APPLICATION_LAST.
  intros [->|[->|(s & _ & Hs & Hm)]]; unfold ROOT_MINOR, BYPASS_MINOR, CLIENT_FIRST, DEFAULT_FIRST in *; lia.
Qed.

Lemma application_specs_Ok slots pre st a st' :
  (∀ c, c ∈ clients t → 0 ≤ bc_slot c < 256 ∧ bc_parent_minor c = CLIENT_FIRST + bc_slot c) →
  apps_inv slots pre st → application_specs t st a = Ok st' →
  apps_inv slots (pre ++ [a]) st' ∧ fst st' = fst st ++ [app_spec a].
Proof.
  intros Hcl [Htree Hc0 Hids Hpre] H. destruct st as [out minors]. unfold application_specs in H. cbn in *.
  apply bind_Ok in H as (c & Hc%ok_or_Ok & H). apply find_Some in Hc as [Hc Hcm].
  destruct (_ || _)%bool eqn:Hb; [done|]. apply bind_Ok in H as (l & Hl & [= <-]). split_bools.
  apply leaf_raw_Ok in Hl as [_ ->]. destruct (Hcl c Hc) as [Hs Hpm].
  assert (bc_slot c = ac_slot a) as Hslot by lia.
  repeat match goal with Hx : in_range _ _ _ = true |- _ => apply in_range_spec in Hx end.
  cbn. rewrite Hpm, cid_lor, Hslot by (unfold CLIENT_FIRST; lia). fold (app_spec a). split; [|done]. split; cbn.
  - eapply (ct_child _ _ _ (mkSpec (cid (CLIENT_FIRST + bc_slot c)) (cid ROOT_MINOR) (bc_rate_bps c)));
      [exact Htree|apply (Hc0 c); [done|left]|cbn; by rewrite Hslot|cbn; lia|].
    cbn. intros (x & Hx & Hin)%list_elem_of_fmap. destruct (Hids x Hin) as (m & Hm & [Hm'|[Hm' _]]).
    + apply client_minor_low in Hm'. unfold cid in *. lia.
    + assert (m = ac_minor a) as -> by (unfold cid in *; lia). done.
  - intros c' x Hc' Hx. rewrite elem_of_app. left. eauto.
  - intros x [Hx|Hx]%elem_of_app.
    + destruct (Hids x Hx) as (m & Hm & Hor). exists m. set_solver.
    + apply list_elem_of_singleton in Hx as ->. exists (ac_minor a). split; [done|]. right. split; [set_solver|lia].
  - apply Forall_app_2; [done|]. apply Forall_singleton. split; [|lia]. exists c. split; [by split|lia].
Qed.
End trees.

(** The classes of a queue form a tree that the kernel can build in order:
    the root and the bypass leaf, then for every client its class and default
    leaf, then the applications below their clients; all ids are distinct, no
    class exceeds the rate of the class it hangs off, and every id belongs to
    the device of the queue. *)
Lemma classes_tree t out :
  Forall (λ c, is_u16 (bc_slot c)) (clients t) → classes t = Ok out →
  class_tree (Z.shiftl (major t) 16) out ∧
  out = [mkSpec (cid t ROOT_MINOR) (Z.shiftl (major t) 16) (capacity_bps t);
         mkSpec (cid t BYPASS_MINOR) (cid t ROOT_MINOR) (capacity_bps t)]
        ++ concat (client_pair t <$> clients t) ++ (app_spec t <$> applications t) ∧
  Forall (λ c, Z.shiftr (classid c) 16 = major t ∧ is_u32 (classid c)) out ∧
  Forall (λ a, ∃ c, parent_of t a c ∧ ac_rate_bps a ≤ bc_rate_bps c) (applications t).
Proof.
  intros Hu H. assert (Forall (λ c, 0 ≤ bc_slot c) (clients t)) as Hs
    by (eapply Forall_impl; [exact Hu|]; unfold in_width; simpl; lia).
  unfold classes in H. rewrite check_seq, reject_seq in H. destruct H as (_ & Hroot & H). split_bools.
  assert (0 ≤ major t < 2 ^ 15) as Hmaj by (unfold UPLOAD_MAJOR, DOWNLOAD_MAJOR in *; lia).
  apply bind_Ok in H as (bypass & Hby & H). apply leaf_raw_Ok in Hby as [_ ->].
  rewrite cid_lor in H by (unfold ROOT_MINOR; lia).
  apply bind_Ok in H as (st & Hst & H). apply bind_Ok in H as (st2 & Hst2 & [= <-]).
  apply clients_loop in Hst as [Hinv Hout]; [|done|done|].
  2:{ split; cbn; [|set_solver| |set_solver].
      - eapply (ct_child _ [_] _ (mkSpec (cid t ROOT_MINOR) (Z.shiftl (major t) 16) (capacity_bps t)));
          [by apply ct_root|left|done|done|]. cbn. rewrite list_elem_of_singleton. unfold cid, ROOT_MINOR, BYPASS_MINOR. lia.
      - intros x. rewrite !elem_of_cons, elem_of_nil. unfold client_minor.
        intros [->|[->|[]]]; cbn; eauto. }
  destruct st as [[o macs] slots]. cbn in Hst2, Hout. destruct Hinv as [Htree Hr0 Hids Hcl]. cbn in *.
  assert (apps_inv t slots (applications t) st2 ∧ fst st2 = o ++ (app_spec t <$> ([] ++ applications t))) as [Hai Hst2'].
  { revert Hst2. apply (foldM_ind (λ pre st, apps_inv t slots pre st ∧ fst st = o ++ (app_spec t <$> pre))) with (pre := []).
    - intros pre s a s' [Hi Ho] Ha. apply application_specs_Ok with (slots := slots) (pre := pre) in Ha as [Hi' Ho'].
      + split; [done|]. by rewrite Ho', Ho, fmap_app, <- app_assoc.
      + intros c Hc. destruct (Hcl c Hc) as (? & ? & _). done.
      + done.
    - cbn. rewrite app_nil_r. split; [|done]. split; cbn; [done| | |constructor].
      + intros c x Hc Hx. by apply (Hcl c Hc).
      + intros x Hx. destruct (Hids x Hx) as (m & ? & ?). eauto. }
  destruct Hai as [Htree2 _ Hids2 Hpre]. split_and!; [done| | |].
  - by rewrite Hst2', Hout.
  - apply Forall_forall. intros x Hx. destruct (Hids2 x Hx) as (m & -> & Hm). unfold in_width, cid.
    assert (0 ≤ m < 2 ^ 16).
    { destruct Hm as [[->|[->|(s & _ & ? & ?)]]|[_ ?]];
        unfold ROOT_MINOR, BYPASS_MINOR, CLIENT_FIRST, DEFAULT_FIRST, APPLICATION_FIRST, APPLICATION_LAST in *; lia. }
    split; [apply shiftr_high; lia|lia].
  - eapply Forall_impl; [exact Hpre|]. naive_solver.
Qed.

(** ** Distribution over the delivery ports *)

(** A tree that has gained classes. *)
Definition extends (t t' : QueueTree) : Prop :=
  port t' = port t ∧ (∀ c, c ∈ clients t → c ∈ clients t') ∧ (∀ a, a ∈ applications t → a ∈ applications t').

#[export] Instance extends_preorder : PreOrder extends.
Proof. split; [done|]. intros t1 t2 t3 (? & ? & ?) (? & ? & ?). split_and!; [congruence|auto|auto]. Qed.

Lemma push_client_extends t c : extends t (push_client t c).
Proof. split_and!; [done| |done]. cbn. set_solver. Qed.

Lemma push_application_extends t a : extends t (push_application t a).
Proof. split_and!; [done|done|]. cbn. set_solver. Qed.

Section distribution.
Context (layout : DeliveryLayout).

(** A class that [t'] has and [t] has not belongs to a client delivered there. *)
Definition only_delivered (t t' : QueueTree) : Prop :=
  (∀ c, c ∈ clients t' → c ∈ clients t ∨ client_delivery layout !! bc_mac c = Some (port t)) ∧
  (∀ a, a ∈ applications t' → a ∈ applications t ∨ client_delivery layout !! ac_mac a = Some (port t)).

(** How the delivery trees may change. *)
Record down_step (down down' : gmap Z QueueTree) : Prop := mkDownStep {
  ds_extends : ∀ k t, down !! k = Some t → ∃ t', down' !! k = Some t' ∧ extends t t';
  ds_delivered : ∀ k t', down' !! k = Some t' → ∃ t, down !! k = Some t ∧ extends t t' ∧ only_delivered t t';
}.

Lemma only_delivered_refl t : only_delivered t t.
Proof. split; auto. Qed.

Lemma down_step_refl down : down_step down down.
Proof.
  split; intros k t Hk; exists t; [by split|]. split; [done|]. split; [reflexivity|apply only_delivered_refl].
Qed.

Lemma down_step_trans d1 d2 d3 : down_step d1 d2 → down_step d2 d3 → down_step d1 d3.
Proof.
  intros [E1 D1] [E2 D2]. split.
  - intros k t Hk. destruct (E1 k t Hk) as (t2 & H2 & Hx2). destruct (E2 k t2 H2) as (t3 & H3 & Hx3).
    exists t3. split; [done|by etrans].
  - intros k t3 Hk. destruct (D2 k t3 Hk) as (t2 & H2 & Hx2 & [Hc2 Ha2]). destruct (D1 k t2 H2) as (t1 & H1 & Hx1 & [Hc1 Ha1]).
    exists t1. split; [done|]. split; [by etrans|]. destruct Hx1 as [Hp _].
    split; [intros c Hc; destruct (Hc2 c Hc) as [?|Hd]|intros a Ha; destruct (Ha2 a Ha) as [?|Hd]]; auto; right; congruence.
Qed.

Lemma down_step_insert down k t t' :
  down !! k = Some t → extends t t' → only_delivered t t' → down_step down (<[k := t']> down).
Proof.
  intros Hk Hx Hd. split.
  - intros k2 t2 Hk2. rewrite lookup_insert. case_decide; [|exists t2; by split].
    subst k2. rewrite Hk in Hk2. injection Hk2 as <-. eauto.
  - intros k2 t2 [[<- <-]|[_ Hk2]]%lookup_insert_Some; [eauto|]. exists t2.
    split; [done|]. split; [reflexivity|apply only_delivered_refl].
Qed.

Definition full_class (l : ClientSlotLease) (rate : Z) : BudgetClass :=
  mkBudgetClass (mac l) (slot l) (CLIENT_FIRST + slot l) (DEFAULT_FIRST + slot l) rate.

Lemma budget_class_Ok l rate c : budget_class l rate = Ok c → c = full_class l rate.
Proof.
  unfold budget_class. rewrite bind_Ok. intros (pm & Hpm%map_err_Ok & [= <-]).
  unfold parent_minor in Hpm. by apply bind_Ok in Hpm as (_ & _ & [= <-]).
Qed.

(** Where a budget ends up. *)
Definition budget_placed (up : QueueTree) (down : gmap Z QueueTree) (b : ClientBudget) : Prop :=
  (∀ r, upload_bps b = Some r → full_class (lease b) r ∈ clients up) ∧
  (∀ r, download_bps b = Some r → ∃ k t, down !! k = Some t ∧
     client_delivery layout !! mac (lease b) = Some (port t) ∧ full_class (lease b) r ∈ clients t).

(** The class of an application budget: at most the rate asked for. *)
Definition app_placed_in (t : QueueTree) (a : ApplicationBudget) (r : Z) : Prop :=
  ∃ r', r' ≤ r ∧ mkAppClass (mac (ab_lease a)) (slot (ab_lease a)) (ab_policy_id a) (ab_minor a) r' ∈ applications t.

Definition app_placed (up : QueueTree) (down : gmap Z QueueTree) (a : ApplicationBudget) : Prop :=
  (∀ r, ab_upload_bps a = Some r → app_placed_in up a r) ∧
  (∀ r, ab_download_bps a = Some r → ∃ k t, down !! k = Some t ∧
     client_delivery layout !! mac (ab_lease a) = Some (port t) ∧ app_placed_in t a r).

Lemma budget_placed_mono up up' down down' b :
  extends up up' → down_step down down' → budget_placed up down b → budget_placed up' down' b.
Proof.
  intros (_ & Hc & _) [Hx _] [Hu Hd]. split; [intros r Hr; apply Hc; auto|].
  intros r Hr. destruct (Hd r Hr) as (k & t & Hk & Hdel & Hin). destruct (Hx k t Hk) as (t' & Hk' & Hp & Hc' & _).
  exists k, t'. rewrite Hp. auto.
Qed.

Lemma app_placed_mono up up' down down' a :
  extends up up' → down_step down down' → app_placed up down a → app_placed up' down' a.
Proof.
  intros (_ & _ & Ha) [Hx _] [Hu Hd]. unfold app_placed_in in *. split.
  - intros r Hr. destruct (Hu r Hr) as (r' & ? & ?). exists r'. auto.
  - intros r Hr. destruct (Hd r Hr) as (k & t & Hk & Hdel & r' & Hle & Hin).
    destruct (Hx k t Hk) as (t' & Hk' & Hp & _ & Ha'). exists k, t'. rewrite Hp. split_and!; [done|done|].
    exists r'. auto.
Qed.

Lemma add_budget_Ok st b st' : add_budget layout st b = Ok st' →
  extends (b_upload st) (b_upload st') ∧ down_step (b_downloads st) (b_downloads st') ∧
  budget_placed (b_upload st') (b_downloads st') b.
Proof.
  unfold add_budget. rewrite check_seq, reject_seq. intros (_ & _ & H).
  apply bind_Ok in H as (up & Hup & H). apply bind_Ok in H as (down & Hdown & [= <-]). cbn.
  assert (extends (b_upload st) up ∧ ∀ r, upload_bps b = Some r → full_class (lease b) r ∈ clients up) as [Hx Hu].
  { destruct (upload_bps b) as [rate|]; [|injection Hup as <-; split; [reflexivity|done]].
    apply bind_Ok in Hup as (c & ->%budget_class_Ok & [= <-]). split; [apply push_client_extends|].
    intros r [= <-]. cbn. set_solver. }
  assert (down_step (b_downloads st) down ∧ ∀ r, download_bps b = Some r → ∃ k t, down !! k = Some t ∧
     client_delivery layout !! mac (lease b) = Some (port t) ∧ full_class (lease b) r ∈ clients t) as [Hd Hp].
  { destruct (download_bps b) as [rate|]; [|injection Hdown as <-; split; [apply down_step_refl|done]].
    apply bind_Ok in Hdown as (dl & Hdl%ok_or_Ok & Hdown). apply bind_Ok in Hdown as (t & Ht%ok_or_Ok & Hdown).
    destruct (b_downloads st !! port_ifindex dl) as [t0|] eqn:Hk; cbn in Ht; [|done].
    case_bool_decide as Hport; simplify_eq. apply bind_Ok in Hdown as (c & ->%budget_class_Ok & [= <-]). split.
    - eapply down_step_insert; [done|apply push_client_extends|]. split; [|by left]. cbn.
      intros c [?|Hc]%elem_of_app; [by left|right]. apply list_elem_of_singleton in Hc as ->. exact Hdl.
    - intros r [= <-]. exists (port_ifindex (port t)), (push_client t (full_class (lease b) rate)).
      rewrite lookup_insert_eq. split_and!; [done|done|]. cbn. set_solver. }
  done.
Qed.

Lemma ensure_client_Ok t l rate t' : ensure_client t l rate = Ok t' →
  extends t t' ∧ applications t' = applications t ∧ ∀ c, c ∈ clients t' → c ∈ clients t ∨ bc_mac c = mac l.
Proof.
  unfold ensure_client. destruct (existsb _ _); [intros [= <-]; split_and!; [done..|by left]|].
  rewrite bind_Ok. intros (c & ->%budget_class_Ok & [= <-]). split; [apply push_client_extends|]. split; [done|]. cbn.
  intros c [?|Hc]%elem_of_app; [by left|right]. by apply list_elem_of_singleton in Hc as ->.
Qed.

Lemma add_application_Ok cap bs st a st' :
  add_application layout cap bs st a = Ok st' →
  extends (b_upload st) (b_upload st') ∧ down_step (b_downloads st) (b_downloads st') ∧
  app_placed (b_upload st') (b_downloads st') a.
Proof.
  unfold add_application. rewrite check_seq, reject_seq. intros (_ & _ & H).
  apply bind_Ok in H as (up & Hup & H). apply bind_Ok in H as (down & Hdown & [= <-]). cbn.
  match type of Hup with context [ensure_client _ _ ?r] => set (uparent := r) in * end.
  match type of Hdown with context [ensure_client _ _ ?r] => set (dparent := r) in * end.
  assert (extends (b_upload st) up ∧ ∀ r, ab_upload_bps a = Some r → app_placed_in up a r) as [Hx Hu].
  { destruct (ab_upload_bps a) as [rate|]; [|injection Hup as <-; split; [reflexivity|done]].
    apply bind_Ok in Hup as (t & (Ht & _)%ensure_client_Ok & [= <-]).
    split; [etrans; [exact Ht|apply push_application_extends]|].
    intros r [= <-]. exists (Z.min rate uparent). split; [lia|]. cbn. set_solver. }
  assert (down_step (b_downloads st) down ∧ ∀ r, ab_download_bps a = Some r → ∃ k t, down !! k = Some t ∧
     client_delivery layout !! mac (ab_lease a) = Some (port t) ∧ app_placed_in t a r) as [Hd Hp].
  { destruct (ab_download_bps a) as [rate|]; [|injection Hdown as <-; split; [apply down_step_refl|done]].
    apply bind_Ok in Hdown as (dl & Hdl%ok_or_Ok & Hdown). apply bind_Ok in Hdown as ([k t0] & He%ok_or_Ok & Hdown).
    apply find_Some in He as [Hin Hport]. apply bool_decide_eq_true in Hport. cbn in Hport, Hdown.
    apply elem_of_btree_entries in Hin.
    apply bind_Ok in Hdown as (t & (Ht & Happs & Hnew)%ensure_client_Ok & [= <-]). pose proof (proj1 Ht) as Hpt.
    split.
    - eapply down_step_insert; [done|etrans; [exact Ht|apply push_application_extends]|]. split; cbn.
      + intros c Hc. destruct (Hnew c Hc) as [?|Hm]; [by left|right]. rewrite Hm. congruence.
      + rewrite Happs. intros a' [?|Ha']%elem_of_app; [by left|right].
        apply list_elem_of_singleton in Ha' as ->. cbn. congruence.
    - intros r [= <-]. eexists k, _. rewrite lookup_insert_eq. split_and!; [done|cbn; congruence|].
      exists (Z.min rate dparent). split; [lia|]. cbn. set_solver. }
  done.
Qed.

Lemma budgets_loop bs st st' : foldM (add_budget layout) st bs = Ok st' →
  extends (b_upload st) (b_upload st') ∧ down_step (b_downloads st) (b_downloads st') ∧
  Forall (budget_placed (b_upload st') (b_downloads st')) bs.
Proof.
  revert st. induction bs as [|b bs IH]; intros st H; cbn [foldM] in H.
  { injection H as <-. split; [done|]. split; [apply down_step_refl|constructor]. }
  apply bind_Ok in H as (st1 & H1 & H). apply add_budget_Ok in H1 as (Hx1 & Hd1 & Hp1).
  apply IH in H as (Hx2 & Hd2 & Hall). split; [by etrans|]. split; [by eapply down_step_trans|].
  constructor; [by eapply budget_placed_mono|done].
Qed.

Lemma applications_loop cap bs aps st st' : foldM (add_application layout cap bs) st aps = Ok st' →
  extends (b_upload st) (b_upload st') ∧ down_step (b_downloads st) (b_downloads st') ∧
  Forall (app_placed (b_upload st') (b_downloads st')) aps.
Proof.
  revert st. induction aps as [|a aps IH]; intros st H; cbn [foldM] in H.
  { injection H as <-. split; [done|]. split; [apply down_step_refl|constructor]. }
  apply bind_Ok in H as (st1 & H1 & H). apply add_application_Ok in H1 as (Hx1 & Hd1 & Hp1).
  apply IH in H as (Hx2 & Hd2 & Hall). split; [by etrans|]. split; [by eapply down_step_trans|].
  constructor; [by eapply app_placed_mono|done].
Qed.

(** The trees of the delivery ports, before any budget is placed. *)
Definition port_trees (caps : gmap Z Z) (ps : list QueuePort) (st : gmap Z QueueTree * gset Z * gset string) : Prop :=
  (∀ k, k ∈ snd (fst st) ↔ k ∈ port_ifindex <$> ps) ∧ NoDup (port_ifindex <$> ps) ∧
  (∀ k t, fst (fst st) !! k = Some t → port t ∈ ps ∧ port_ifindex (port t) = k ∧ clients t = [] ∧ applications t = [] ∧
     validate_port (port t) = Ok tt ∧ major t = DOWNLOAD_MAJOR ∧ caps !! k = Some (capacity_bps t)) ∧
  (∀ p, p ∈ ps → ∃ t, fst (fst st) !! port_ifindex p = Some t ∧ port t = p).

Lemma ports_loop ifb caps ps st : foldM (add_port layout ifb caps) (∅, ∅, ∅) ps = Ok st → port_trees caps ps st.
Proof.
  apply (foldM_ind (port_trees caps)) with (pre := []).
  2:{ split_and!; cbn; [set_solver|constructor|intros ??; by rewrite lookup_empty|set_solver]. }
  intros pre [[trees ids] names] p st' (Hids & Hnd & Htr & Hall) H. unfold add_port in H. cbn in Hids, Htr, Hall.
  rewrite check_seq, reject_seq in H. destruct H as (Hv & Hb & H). split_bools.
  apply bind_Ok in H as (c & Hc%ok_or_Ok & [= <-]).
  assert (port_ifindex p ∉ port_ifindex <$> pre) as Hnew by (by rewrite <- Hids).
  split_and!; cbn.
  - intros k. rewrite fmap_app. cbn. set_solver.
  - rewrite fmap_app, NoDup_app. split_and!; [done| |apply NoDup_singleton].
    intros x Hx Hx'. cbn in Hx'. apply list_elem_of_singleton in Hx' as ->. done.
  - intros k t [[<- <-]|[_ Hk]]%lookup_insert_Some; cbn.
    + rewrite elem_of_app, list_elem_of_singleton. split_and!; auto.
    + destruct (Htr k t Hk) as (? & ? & ? & ? & ? & ? & ?). rewrite elem_of_app. split_and!; auto.
  - intros q [Hq|Hq]%elem_of_app.
    + destruct (Hall q Hq) as (t & Ht & Hp). exists t. rewrite lookup_insert_ne; [done|].
      intros Heq. apply Hnew. rewrite Heq. by apply list_elem_of_fmap_2.
    + apply list_elem_of_singleton in Hq as ->. rewrite lookup_insert_eq. eauto.
Qed.

Lemma finish_tree_Ok t t' : finish_tree t = Ok t' →
  extends t t' ∧ extends t' t ∧ ∃ specs, classes t' = Ok specs.
Proof.
  unfold finish_tree. rewrite bind_Ok. intros (specs & Hspecs & [= <-]).
  split; [split_and!; cbn; [done|intros x; by rewrite elem_of_sort_by..]|].
  split; [split_and!; cbn; [done|intros x; by rewrite elem_of_sort_by..]|eauto].
Qed.

(** The finished download trees are those of the map, by port. *)
Lemma finish_trees_Ok (m : gmap Z QueueTree) down :
  mapR finish_tree (snd <$> btree_entries Z.leb m) = Ok down →
  (∀ k t, m !! k = Some t → port_ifindex (port t) = k) →
  NoDup (port <$> down) ∧
  (∀ t', t' ∈ down → ∃ k t, m !! k = Some t ∧ finish_tree t = Ok t') ∧
  (∀ k t, m !! k = Some t → ∃ t', t' ∈ down ∧ finish_tree t = Ok t').
Proof.
  intros Hdown%mapR_Ok Hk.
  assert (port <$> down = port <$> (snd <$> btree_entries Z.leb m)) as Hports.
  { clear Hk. induction Hdown as [|t t' ts down Ht Hdown IH]; [done|]. rewrite !fmap_cons, IH.
    apply finish_tree_Ok in Ht as ((Hp & _) & _). by rewrite Hp. }
  split_and!.
  - rewrite Hports. apply (NoDup_fmap_1 port_ifindex).
    replace (port_ifindex <$> (port <$> (snd <$> btree_entries Z.leb m))) with (fst <$> btree_entries Z.leb m);
      [apply NoDup_btree_keys|].
    rewrite <- !list_fmap_compose. apply list_fmap_ext. intros i [k t] Hi. cbn. symmetry.
    apply Hk, (elem_of_btree_entries Z.leb). by eapply list_elem_of_lookup_2.
  - intros t' [i Hi]%list_elem_of_lookup. destruct (Forall2_lookup_r _ _ _ _ _ Hdown Hi) as (t & Ht & Hf).
    apply list_elem_of_lookup_2, list_elem_of_fmap in Ht as ([k t0] & -> & Hin%elem_of_btree_entries). eauto.
  - intros k t Hin%(elem_of_btree_entries Z.leb). assert (t ∈ snd <$> btree_entries Z.leb m) as Ht
      by (apply list_elem_of_fmap; by exists (k, t)).
    apply list_elem_of_lookup in Ht as [i Hi]. destruct (Forall2_lookup_l _ _ _ _ _ Hdown Hi) as (t' & Ht' & Hf).
    exists t'. split; [by eapply list_elem_of_lookup_2|done].
Qed.
End distribution.

(** The plan has one download tree per verified LAN port, and every budget
    is where its traffic leaves: a download tree holds only classes of clients
    delivered through its port, each client budget and each application limit
    appears in the upload tree and in exactly that download tree, an
    application never with more than the rate asked for; and every tree has a
    class layout. *)
Lemma build_distributes layout ifb cap caps budgets apps plan :
  build layout ifb cap caps budgets apps = Ok plan →
  port <$> downloads plan ≡ₚ egress_ports layout ∧ NoDup (port_ifindex <$> egress_ports layout) ∧
  Forall (λ t, (∀ c, c ∈ clients t → client_delivery layout !! bc_mac c = Some (port t)) ∧
               (∀ a, a ∈ applications t → client_delivery layout !! ac_mac a = Some (port t))) (downloads plan) ∧
  Forall (λ b, (∀ r, upload_bps b = Some r → full_class (lease b) r ∈ clients (upload plan)) ∧
    (∀ r, download_bps b = Some r → ∃ t, t ∈ downloads plan ∧
       client_delivery layout !! mac (lease b) = Some (port t) ∧ full_class (lease b) r ∈ clients t)) budgets ∧
  Forall (λ a, (∀ r, ab_upload_bps a = Some r → app_placed_in (upload plan) a r) ∧
    (∀ r, ab_download_bps a = Some r → ∃ t, t ∈ downloads plan ∧
       client_delivery layout !! mac (ab_lease a) = Some (port t) ∧ app_placed_in t a r)) apps ∧
  Forall (λ t, ∃ specs, classes t = Ok specs) (upload plan :: downloads plan).
Proof.
  unfold build. rewrite check_seq, reject_seq. intros (_ & _ & H).
  apply bind_Ok in H as ([[trees ids] names] & Hports & H). rewrite !reject_seq in H. destruct H as (_ & _ & H).
  apply bind_Ok in H as (st & Hst & H). apply bind_Ok in H as (st2 & Hst2 & H).
  apply bind_Ok in H as (up & Hup & H). apply bind_Ok in H as (down & Hdown & [= <-]). cbn [upload downloads].
  apply ports_loop in Hports as (_ & Hnd & Htrees & Hall). cbn in Htrees, Hall.
  apply budgets_loop in Hst as (_ & Hd1 & Hb1). cbn [b_downloads] in Hd1.
  apply applications_loop in Hst2 as (Hx2 & Hd2 & Ha2).
  pose proof (down_step_trans _ _ _ _ Hd1 Hd2) as [Hext Hdel].
  apply finish_tree_Ok in Hup as ((_ & Huc & Hua) & _ & Hucls).
  destruct (finish_trees_Ok _ _ Hdown) as (Hndp & Hfrom & Hto).
  { intros k t Hk. destruct (Hdel k t Hk) as (t0 & Hk0 & (Hp & _) & _). rewrite Hp. by apply (Htrees k t0). }
  split_and!.
  - apply NoDup_Permutation; [done|by apply NoDup_fmap_1 in Hnd|]. intros p. rewrite list_elem_of_fmap. split.
    + intros (t' & -> & (k & t & Hk & ((Hp & _) & _)%finish_tree_Ok)%Hfrom).
      destruct (Hdel k t Hk) as (t0 & Hk0 & (Hp0 & _) & _). rewrite Hp, Hp0. by apply (Htrees k t0).
    + intros (t0 & Hk0 & Hp0)%Hall. destruct (Hext _ _ Hk0) as (t & Hk & Hp & _).
      destruct (Hto _ _ Hk) as (t' & Hin & ((Hp' & _) & _)%finish_tree_Ok). exists t'. split; [congruence|done].
  - done.
  - apply Forall_forall. intros t' (k & t & Hk & (Hx & (Hp' & Hcl & Hap) & _)%finish_tree_Ok)%Hfrom.
    destruct (Hdel k t Hk) as (t0 & Hk0 & (Hp0 & _) & [Hoc Hoa]).
    destruct (Htrees _ _ Hk0) as (_ & _ & Hnc & Hna & _). rewrite Hnc in Hoc. rewrite Hna in Hoa.
    split.
    + intros c Hc. destruct (Hoc c (Hcl c Hc)) as [Hn|Hd]; [by apply not_elem_of_nil in Hn|congruence].
    + intros a Ha. destruct (Hoa a (Hap a Ha)) as [Hn|Hd]; [by apply not_elem_of_nil in Hn|congruence].
  - eapply Forall_impl; [exact Hb1|]. intros b Hb.
    apply (budget_placed_mono _ _ (b_upload st2) _ (b_downloads st2)) in Hb as [Hu Hd]; [|done|done].
    split; [auto|]. intros r Hr. destruct (Hd r Hr) as (k & t & Hk & Hdl & Hin).
    destruct (Hto _ _ Hk) as (t' & Hin' & ((Hp & Hc & _) & _)%finish_tree_Ok). exists t'. rewrite Hp. auto.
  - eapply Forall_impl; [exact Ha2|]. intros a [Hu Hd]. unfold app_placed_in in *. split.
    + intros r Hr. destruct (Hu r Hr) as (r' & ? & ?). exists r'. auto.
    + intros r Hr. destruct (Hd r Hr) as (k & t & Hk & Hdl & r' & Hle & Hin).
      destruct (Hto _ _ Hk) as (t' & Hin' & ((Hp & _ & Ha) & _)%finish_tree_Ok). exists t'. rewrite Hp.
      split_and!; [done|done|]. exists r'. auto.
  - constructor; [done|]. apply Forall_forall. intros t' (k & t & _ & (_ & _ & ?)%finish_tree_Ok)%Hfrom. done.
Qed.

(** ** From discovery to the plan *)

Lemma validate_port_Ok p : port_ifindex p ≠ 0 → validate_name (port_name p) = Ok tt → validate_port p = Ok tt.
Proof.
  unfold validate_name, validate_port. rewrite !reject_if_Ok. intros Hi Hn. split_bools.
  apply Z.eqb_neq in Hi. rewrite Hi. cbn [orb]. rewrite H, H1. cbn [orb].
  change port_byte_ok with name_byte_ok. by rewrite H0.
Qed.

(** Ports with distinct indices and names, capacities for all of them and no
    clash with the upload device pass the port loop. *)
Lemma ports_total layout ifb caps ps st :
  Forall (λ p, validate_port p = Ok tt ∧ port_ifindex p ≠ port_ifindex ifb ∧ port_name p ≠ port_name ifb ∧
    is_Some (caps !! port_ifindex p) ∧ (bridge layout = true → port_name p ≠ capture_interface layout) ∧
    port_ifindex p ∉ snd (fst st) ∧ port_name p ∉ snd st) ps →
  NoDup (port_ifindex <$> ps) → NoDup (port_name <$> ps) →
  ∃ st', foldM (add_port layout ifb caps) st ps = Ok st' ∧
    snd (fst st') = list_to_set (port_ifindex <$> ps) ∪ snd (fst st).
Proof.
  intros Hall Hi Hn. revert st Hall. induction ps as [|p ps IH]; intros st Hall; [exists st; cbn; split; [done|set_solver]|].
  rewrite fmap_cons, NoDup_cons in Hi. rewrite fmap_cons, NoDup_cons in Hn. destruct Hi as [Hip Hi], Hn as [Hnp Hn].
  apply Forall_cons in Hall as [(Hv & Hne & Hnn & [c Hc] & Hb & Hfi & Hfn) Hall]. destruct st as [[trees ids] names].
  cbn [fst snd foldM] in *.
  assert (add_port layout ifb caps (trees, ids, names) p = Ok (<[port_ifindex p := mkTree p DOWNLOAD_MAJOR c [] []]> trees,
    {[port_ifindex p]} ∪ ids, {[port_name p]} ∪ names)) as ->.
  { unfold add_port. rewrite Hv. cbn [mbind result_bind]. apply Z.eqb_neq in Hne. apply String.eqb_neq in Hnn.
    rewrite Hne, Hnn, !bool_decide_eq_false_2 by done. cbn [orb].
    replace (bridge layout && String.eqb (port_name p) (capture_interface layout))%bool with false.
    - cbn [reject_if mbind result_bind]. by rewrite Hc.
    - destruct (bridge layout); [|done]. cbn. symmetry. apply String.eqb_neq. auto. }
  cbn [mbind result_bind]. destruct (IH Hi Hn (<[port_ifindex p := mkTree p DOWNLOAD_MAJOR c [] []]> trees,
    {[port_ifindex p]} ∪ ids, {[port_name p]} ∪ names)) as (st' & -> & Hst').
  { rewrite Forall_forall in Hall |- *. intros q Hq. destruct (Hall q Hq) as (? & ? & ? & ? & ? & ? & ?). cbn.
    pose proof (list_elem_of_fmap_2 port_ifindex ps q Hq). pose proof (list_elem_of_fmap_2 port_name ps q Hq).
    split_and!; try done; rewrite not_elem_of_union, not_elem_of_singleton; (split; [congruence|done]). }
  exists st'. split; [done|]. rewrite Hst'. cbn. set_solver.
Qed.

Lemma empty_tree_finishes p mj c :
  validate_port p = Ok tt → mj = UPLOAD_MAJOR ∨ mj = DOWNLOAD_MAJOR → in_capacity c = true →
  finish_tree (mkTree p mj c [] []) = Ok (mkTree p mj c [] []).
Proof.
  intros Hp Hm Hc. unfold finish_tree. cbn [port major capacity_bps clients applications].
  unfold sort_by. cbn [foldr]. unfold classes. cbn [port major capacity_bps clients applications]. rewrite Hp, Hc.
  destruct Hm as [-> | ->]; reflexivity.
Qed.

(** A discovered layout can always be planned: with a distinct upload
    device and sane capacities for exactly its ports, the plan without budgets
    exists and consists of bypass-only trees, and every selected client has
    exactly one delivery port, one of the planned ones. *)
Lemma inspected_layout_plans `{LanView} lan selected l ifb cap caps :
  inspect_at lan selected = Ok l → validate_port ifb = Ok tt →
  port_ifindex ifb ∉ port_ifindex <$> egress_ports l → port_name ifb ∉ port_name <$> egress_ports l →
  (is_bridge lan = true → lan ∉ port_name <$> egress_ports l) →
  dom caps = list_to_set (port_ifindex <$> egress_ports l) → in_capacity cap = true →
  (∀ k c, caps !! k = Some c → in_capacity c = true) →
  (∃ plan, build l ifb cap caps [] [] = Ok plan ∧
     clients (upload plan) = [] ∧ Forall (λ t, clients t = [] ∧ applications t = []) (downloads plan)) ∧
  ∀ c, c ∈ selected → ∃ p, client_delivery l !! c = Some p ∧ p ∈ egress_ports l.
Proof.
  intros Hl Hifb Hifi Hifn Hbr Hdom Hcap Hcaps.
  apply inspect_layout in Hl as (Hlan & Hb & Hio & Hne & Hlen & Hnd & Hndn & Hone & Hports & _ & Hsel).
  split; [|intros c Hc; destruct (Hsel c Hc) as (m & p & _ & ? & ? & _); eauto].
  destruct (ports_total l ifb caps (egress_ports l) (∅, ∅, ∅)) as ([[trees ids] names] & Hst & Hids); [|done|done|].
  { rewrite Forall_forall in Hports |- *. intros p Hp. destruct (Hports p Hp) as [Hi Hn].
    pose proof (list_elem_of_fmap_2 port_ifindex _ p Hp) as Hpi.
    pose proof (list_elem_of_fmap_2 port_name _ p Hp) as Hpn.
    split_and!; [by apply validate_port_Ok|congruence|congruence| | |cbn; set_solver|cbn; set_solver].
    - apply elem_of_dom. rewrite Hdom. by apply elem_of_list_to_set.
    - rewrite Hb, Hlan. intros Hbt Heq. apply (Hbr Hbt). by rewrite <- Heq. }
  cbn in Hids. assert (capture_matches l = true) as Hcm.
  { unfold capture_matches. rewrite Hio, bool_decide_eq_true_2 by done. cbn [andb].
    rewrite size_list_to_set, length_fmap by (apply (NoDup_fmap_1 fst); rewrite <- list_fmap_compose; exact Hnd).
    rewrite Z.eqb_refl. destruct (bridge l) eqn:Hbl; [done|]. cbn [orb andb].
    specialize (Hone (eq_sym Hb)). destruct (egress_ports l) as [|p [|? ?]]; try done. injection Hone as Hone.
    cbn. by rewrite Hone, Hlan, String.eqb_refl. }
  unfold build. rewrite Hifb. cbn [mbind result_bind]. rewrite bool_decide_eq_false_2 by done.
  rewrite (proj2 (Z.ltb_ge _ _)) by done. cbn [orb reject_if mbind result_bind]. rewrite Hst. cbn [mbind result_bind].
  rewrite Hids, right_id_L, bool_decide_eq_true_2 by (try apply _; done). cbn [negb reject_if mbind result_bind].
  rewrite Hcm. cbn [negb reject_if mbind result_bind foldM b_upload b_downloads].
  rewrite empty_tree_finishes by (done || by left). cbn [mbind result_bind].
  pose proof (ports_loop l _ _ _ _ Hst) as (_ & _ & Htrees & _). cbn in Htrees.
  assert (∀ t, t ∈ snd <$> btree_entries Z.leb trees → finish_tree t = Ok t ∧ clients t = [] ∧ applications t = []) as Hfin.
  { intros t ([k t'] & -> & Hk%elem_of_btree_entries)%list_elem_of_fmap. cbn.
    destruct (Htrees k t' Hk) as (_ & _ & Hc & Ha & Hv & Hm & Hcp). split; [|done].
    destruct t' as [p mj c cs aps]. cbn in *. subst cs aps. apply empty_tree_finishes; [done|by right|eauto]. }
  assert (mapR finish_tree (snd <$> btree_entries Z.leb trees) = Ok (snd <$> btree_entries Z.leb trees)) as ->.
  { apply mapR_Ok. revert Hfin. generalize (snd <$> btree_entries Z.leb trees) as ts. clear.
    induction ts as [|t ts IH]; intros Hfin; constructor; [apply Hfin; set_solver|]. apply IH. set_solver. }
  eexists. split_and!; [done|done|]. apply Forall_forall. intros t Ht. by apply Hfin.
Qed.

(** ** A concrete plan *)

Module Example.
Definition client : string := "02:bb:cc:dd:ee:0f".
(** A LAN bridge with two ports; the client is learned on the second. *)
Definition view : LanView := {|
  is_bridge := String.eqb "br-lan";
  bridge_ports := λ _, Ok {["lan1"; "lan2"]};
  read_ifindex := λ n, Ok (if String.eqb n "lan1" then "3" else if String.eqb n "lan2" then "4" else "9");
  bridge_fdb := Ok [mkFdb (mkMac [2; 187; 204; 221; 238; 15]) 4];
|}.

Definition layout : DeliveryLayout :=
  mkLayout "br-lan" true [mkPort "lan1" 3; mkPort "lan2" 4] [mkPort "lan1" 3; mkPort "lan2" 4]
    {[client := mkPort "lan2" 4]}.
Definition ifb : QueuePort := mkPort "ifb0" 8.
Definition capacities : gmap Z Z := {[3 := 1000000000; 4 := 1000000000]}.
Definition budget : ClientBudget := mkBudget (mkLease client 5 true) (Some 2000000) (Some 8000000).
Definition app : ApplicationBudget := mkAppBudget (mkLease client 5 true) "p1" 4176 None (Some 9000000).
Definition plan : PriorityPlan :=
  match build layout ifb 500000000 capacities [budget] [app] with
  | Ok p => p
  | Err _ => mkPlan (mkTree ifb 0 0 [] []) []
  end.
(** The tree of the port the client is on. *)
Definition tree : QueueTree :=
  mkTree (mkPort "lan2" 4) DOWNLOAD_MAJOR 1000000000 [mkBudgetClass client 5 261 517 8000000]
    [mkAppClass client 5 "p1" 4176 8000000].
End Example.

Lemma build_distributes_witness : Example.tree ∈ downloads Example.plan ∧
  port <$> downloads Example.plan ≡ₚ [mkPort "lan1" 3; mkPort "lan2" 4].
Proof.
  split; [vm_compute; right; left|].
  apply (build_distributes Example.layout Example.ifb 500000000 Example.capacities [Example.budget] [Example.app]).
  vm_compute. reflexivity.
Defined.

Lemma classes_tree_witness : ∃ out, classes Example.tree = Ok out ∧ length out = 5%nat ∧
  class_tree (Z.shiftl DOWNLOAD_MAJOR 16) out.
Proof.
  exists [mkSpec 5308417 5308416 1000000000; mkSpec 5373950 5308417 1000000000; mkSpec 5308677 5308417 8000000;
          mkSpec 5308933 5308677 8000000; mkSpec 5312592 5308677 8000000].
  split; [vm_compute; reflexivity|]. split; [reflexivity|].
  apply (classes_tree Example.tree); [|vm_compute; reflexivity].
  constructor; [|constructor]. unfold in_width. cbn. lia.
Defined.

Lemma inspected_layout_plans_witness :
  @inspect_at Example.view "br-lan" {[Example.client]} = Ok Example.layout ∧
  ∃ plan, build Example.layout Example.ifb 500000000 Example.capacities [] [] = Ok plan ∧
    clients (upload plan) = [] ∧ Forall (λ t, clients t = [] ∧ applications t = []) (downloads plan).
Proof.
  assert (@inspect_at Example.view "br-lan" {[Example.client]} = Ok Example.layout) as Hl by (vm_compute; reflexivity).
  split; [exact Hl|].
  apply (@inspected_layout_plans Example.view "br-lan" {[Example.client]} Example.layout Example.ifb 500000000
           Example.capacities Hl).
  - vm_compute. reflexivity.
  - apply (bool_decide_unpack _). vm_compute. exact I.
  - apply (bool_decide_unpack _). vm_compute. exact I.
  - intros _. apply (bool_decide_unpack _). vm_compute. exact I.
  - vm_compute. reflexivity.
  - vm_compute. reflexivity.
  - intros k c Hk. unfold Example.capacities in Hk.
    apply lookup_insert_Some in Hk as [[_ <-]|[_ [_ <-]%lookup_singleton_Some]]; vm_compute; reflexivity.
Defined.
