(* ===== verification/Flow.v ===== *)
(** Flow accounting on the agent: the key and counters of the BPF flow map and
    their byte layout, the flow identity, and the runtime that turns polled
    counters into deltas and lifecycle events (src/crates/agent/src/flow.rs,
    src/crates/agent/src/lifecycle.rs).  SHA-256 is the operation of the class
    [Digest]; the iteration order of Rust's [HashMap] is the operation of the
    class [HashOrder]. *)

From S2P Require Import Prelude Topology.

Definition FLOW_KEY_SIZE : nat := 44.
Definition FLOW_VALUE_SIZE : nat := 40.

(** ** Keys and counters *)

Record FlowKey := mkKey {
  ip_version : Z;
  protocol : Z;
  direction : Z;
  hook : Z;
  ifindex : Z;
  source_address : list Z;
  destination_address : list Z;
  source_port : Z;
  destination_port : Z;
}.
#[export] Instance FlowKey_eq_dec : EqDecision FlowKey.
Proof. solve_decision. Defined.
#[export] Instance FlowKey_countable : Countable FlowKey.
Proof.
  apply (inj_countable'
    (λ k, (ip_version k, protocol k, direction k, hook k, ifindex k, source_address k,
           destination_address k, source_port k, destination_port k))
    (λ '(v, p, d, h, i, s, t, sp, dp), mkKey v p d h i s t sp dp)).
  by intros [].
Defined.

(** The integers of a key at their widths, its key_addresses [[u8; 16]]. *)
Record key_wf (k : FlowKey) : Prop := {
  kw_version : is_u8 (ip_version k);
  kw_protocol : is_u8 (protocol k);
  kw_direction : is_u8 (direction k);
  kw_hook : is_u8 (hook k);
  kw_ifindex : is_u32 (ifindex k);
  kw_source : length (source_address k) = 16%nat ∧ Forall is_u8 (source_address k);
  kw_destination : length (destination_address k) = 16%nat ∧ Forall is_u8 (destination_address k);
  kw_source_port : is_u16 (source_port k);
  kw_destination_port : is_u16 (destination_port k);
}.

Record FlowCounters := mkCounters {
  packets : Z;
  bytes : Z;
  first_seen_ns : Z;
  last_seen_ns : Z;
  tcp_flags : Z;
}.
#[export] Instance FlowCounters_eq_dec : EqDecision FlowCounters.
Proof. solve_decision. Defined.

Definition default_counters : FlowCounters := mkCounters 0 0 0 0 0.

Inductive FlowDecodeError := KeySize (size : nat) | ValueSize (size : nat).

(** [bytes[from..to]]. *)
Definition slice (from to : nat) (bs : list Z) : list Z := take (to - from) (drop from bs).

Section layout.
Context (big_endian : bool).

Definition bpf_key_bytes (k : FlowKey) : list Z :=
  let bytes := replicate FLOW_KEY_SIZE 0 in
  let bytes := <[0%nat := ip_version k]> bytes in
  let bytes := <[1%nat := protocol k]> bytes in
  let bytes := <[2%nat := direction k]> bytes in
  let bytes := <[3%nat := hook k]> bytes in
  let bytes := list_inserts 4 (ne_bytes big_endian 4 (ifindex k)) bytes in
  let bytes := list_inserts 8 (source_address k) bytes in
  let bytes := list_inserts 24 (destination_address k) bytes in
  let bytes := list_inserts 40 (be_bytes 2 (source_port k)) bytes in
  list_inserts 42 (be_bytes 2 (destination_port k)) bytes.

Definition key_try_from (bs : list Z) : result FlowDecodeError FlowKey :=
  if negb (bool_decide (length bs = FLOW_KEY_SIZE)) then Err (KeySize (length bs))
  else Ok (mkKey (bs !!! 0%nat) (bs !!! 1%nat) (bs !!! 2%nat) (bs !!! 3%nat)
             (from_ne_bytes big_endian (slice 4 8 bs)) (slice 8 24 bs) (slice 24 40 bs)
             (from_be_bytes (slice 40 42 bs)) (from_be_bytes (slice 42 44 bs))).

Definition native_u64 (bs : list Z) (offset : nat) : Z :=
  from_ne_bytes big_endian (slice offset (offset + 8) bs).

Definition counters_try_from (bs : list Z) : result FlowDecodeError FlowCounters :=
  if negb (bool_decide (length bs = FLOW_VALUE_SIZE)) then Err (ValueSize (length bs))
  else Ok (mkCounters (native_u64 bs 0) (native_u64 bs 8) (native_u64 bs 16)
             (native_u64 bs 24) (native_u64 bs 32)).

(** The bytes hashed into a flow identity. *)
Definition flow_id_preimage (boot_id : string) (k : FlowKey) (first_seen : Z) : list Z :=
  str_bytes boot_id
  ++ [ip_version k; protocol k; direction k; hook k]
  ++ ne_bytes big_endian 4 (ifindex k)
  ++ source_address k
  ++ destination_address k
  ++ be_bytes 2 (source_port k)
  ++ be_bytes 2 (destination_port k)
  ++ ne_bytes big_endian 8 first_seen.

Definition policy_flow_id `{Digest} (boot_id : string) (k : FlowKey) (first_seen : Z) : string :=
  hex_bytes (take 16 (sha256_digest (flow_id_preimage boot_id k first_seen))).

End layout.

Definition key_addresses (k : FlowKey) : option (IpAddr * IpAddr) :=
  if ip_version k =? 4 then
    Some (V4 (from_be_bytes (slice 0 4 (source_address k))),
          V4 (from_be_bytes (slice 0 4 (destination_address k))))
  else if ip_version k =? 6 then
    Some (V6 (from_be_bytes (source_address k)), V6 (from_be_bytes (destination_address k)))
  else None.

(** ** The runtime *)

Inductive FlowState := Active | Idle | End_.
#[export] Instance FlowState_eq_dec : EqDecision FlowState.
Proof. solve_decision. Defined.

Record FlowLifecycleEvent := mkEvent {
  event_key : FlowKey;
  event_flow_id : option string;
  event_state : FlowState;
}.

Record FlowDelta := mkDelta {
  delta_key : FlowKey;
  delta_flow_id : option string;
  delta_packets : Z;
  delta_bytes : Z;
  delta_counters : FlowCounters;
}.

(** Durations are nanoseconds. *)
Record FlowRuntimeState := mkFlow {
  counters : FlowCounters;
  last_activity : Z;
  lifecycle_state : FlowState;
}.

Record FlowRuntime := mkRuntime {
  flows : gmap FlowKey FlowRuntimeState;
  boot_id : string;
  tcp_idle_timeout : Z;
  udp_idle_timeout : Z;
}.

Record FlowRuntimeUpdate := mkUpdate {
  deltas : list FlowDelta;
  lifecycle_events : list FlowLifecycleEvent;
}.

Definition new_for_boot (boot : string) (tcp udp : Z) : FlowRuntime := mkRuntime ∅ boot tcp udp.

Definition monotonic_delta (current previous : Z) : Z :=
  if previous <=? current then current - previous else current.

Definition push_event (u : FlowRuntimeUpdate) (e : FlowLifecycleEvent) : FlowRuntimeUpdate :=
  mkUpdate (deltas u) (lifecycle_events u ++ [e]).
Definition push_delta (u : FlowRuntimeUpdate) (d : FlowDelta) : FlowRuntimeUpdate :=
  mkUpdate (deltas u ++ [d]) (lifecycle_events u).

(** The order in which a [HashMap] yields its entries: unspecified, but each
    entry exactly once. *)
Class HashOrder := { hash_order : gmap FlowKey FlowRuntimeState → list (FlowKey * FlowRuntimeState) }.
Class HashOrderLaw `{HashOrder} := { hash_order_perm m : hash_order m ≡ₚ map_to_list m }.

Section runtime.
Context `{Digest} `{HashOrder} (big_endian : bool).

Definition flow_id (enabled : bool) (boot : string) (k : FlowKey) (first_seen : Z) : option string :=
  if enabled then Some (policy_flow_id big_endian boot k first_seen) else None.

(** Whether a reading belongs to another lifetime of the BPF entry. *)
Definition new_lifetime (current previous : FlowCounters) : bool :=
  (negb (first_seen_ns current =? 0) && negb (first_seen_ns previous =? 0)
   && negb (first_seen_ns current =? first_seen_ns previous))%bool.

(** First part of the loop body: a flow whose entry was replaced ends. *)
Definition end_lifetime (enabled : bool) (boot : string) (k : FlowKey) (c : FlowCounters)
    (st : gmap FlowKey FlowRuntimeState * FlowRuntimeUpdate) : gmap FlowKey FlowRuntimeState * FlowRuntimeUpdate :=
  match fst st !! k with
  | Some previous =>
      if new_lifetime c (counters previous) then
        (<[k := mkFlow default_counters (last_activity previous) Idle]> (fst st),
         push_event (snd st) (mkEvent k (flow_id enabled boot k (first_seen_ns (counters previous))) End_))
      else st
  | None => st
  end.

(** Second part of the loop body: the delta since the last poll. *)
Definition account (enabled : bool) (boot : string) (now : Z) (k : FlowKey) (c : FlowCounters)
    (st : gmap FlowKey FlowRuntimeState * FlowRuntimeUpdate) : gmap FlowKey FlowRuntimeState * FlowRuntimeUpdate :=
  let state := default (mkFlow default_counters now Idle) (fst st !! k) in
  let p := monotonic_delta (packets c) (packets (counters state)) in
  let b := monotonic_delta (bytes c) (bytes (counters state)) in
  if (negb (p =? 0) || negb (b =? 0))%bool then
    let update :=
      if bool_decide (lifecycle_state state = Active) then snd st
      else push_event (snd st) (mkEvent k (flow_id enabled boot k (first_seen_ns c)) Active) in
    (<[k := mkFlow c now Active]> (fst st),
     push_delta update (mkDelta k (flow_id enabled boot k (first_seen_ns c)) p b c))
  else (<[k := mkFlow c (last_activity state) (lifecycle_state state)]> (fst st), snd st).

Definition observe (enabled : bool) (boot : string) (now : Z)
    (st : gmap FlowKey FlowRuntimeState * FlowRuntimeUpdate) (reading : FlowKey * FlowCounters)
    : gmap FlowKey FlowRuntimeState * FlowRuntimeUpdate :=
  let '(k, c) := reading in account enabled boot now k c (end_lifetime enabled boot k c st).

(** The closure of [retain]: the entry that stays, if any, and its event. *)
Definition retain_entry (enabled : bool) (rt : FlowRuntime) (now : Z) (k : FlowKey) (state : FlowRuntimeState)
    : option FlowRuntimeState * list FlowLifecycleEvent :=
  let timeout := if protocol k =? 17 then udp_idle_timeout rt else tcp_idle_timeout rt in
  let inactive_for := Z.max 0 (now - last_activity state) in
  let event s := mkEvent k (flow_id enabled (boot_id rt) k (first_seen_ns (counters state))) s in
  if timeout <=? inactive_for then (None, [event End_])
  else if ((0 <? inactive_for) && bool_decide (lifecycle_state state = Active))%bool then
    (Some (mkFlow (counters state) (last_activity state) Idle), [event Idle])
  else (Some state, []).

Definition retain_step (enabled : bool) (rt : FlowRuntime) (now : Z)
    (st : gmap FlowKey FlowRuntimeState * FlowRuntimeUpdate) (entry : FlowKey * FlowRuntimeState)
    : gmap FlowKey FlowRuntimeState * FlowRuntimeUpdate :=
  let '(keep, evs) := retain_entry enabled rt now (fst entry) (snd entry) in
  (match keep with Some s => <[fst entry := s]> (fst st) | None => delete (fst entry) (fst st) end,
   mkUpdate (deltas (snd st)) (lifecycle_events (snd st) ++ evs)).

Definition update_with_policy_ids (rt : FlowRuntime) (current : list (FlowKey * FlowCounters)) (now : Z)
    (policy_ids_enabled : bool) : FlowRuntime * FlowRuntimeUpdate :=
  let st := foldl (observe policy_ids_enabled (boot_id rt) now) (flows rt, mkUpdate [] []) current in
  let st := foldl (retain_step policy_ids_enabled rt now) st (hash_order (fst st)) in
  (mkRuntime (fst st) (boot_id rt) (tcp_idle_timeout rt) (udp_idle_timeout rt), snd st).

(** Successive polls of the flow map. *)
Record Poll := mkPoll { poll_flows : list (FlowKey * FlowCounters); poll_now : Z; poll_ids : bool }.

Fixpoint run (rt : FlowRuntime) (polls : list Poll) : FlowRuntime * list FlowRuntimeUpdate :=
  match polls with
  | [] => (rt, [])
  | p :: polls =>
      let '(rt, u) := update_with_policy_ids rt (poll_flows p) (poll_now p) (poll_ids p) in
      let '(rt, us) := run rt polls in (rt, u :: us)
  end.

End runtime.

(** ** The byte layout *)

Section layout_facts.
Context (big_endian : bool).

Lemma bpf_key_bytes_concat k : key_wf k →
  bpf_key_bytes big_endian k =
    [ip_version k; protocol k; direction k; hook k] ++ ne_bytes big_endian 4 (ifindex k)
    ++ source_address k ++ destination_address k
    ++ be_bytes 2 (source_port k) ++ be_bytes 2 (destination_port k).
Proof.
  intros [_ _ _ _ _ [Hs _] [Hd _] _ _]. unfold bpf_key_bytes.
  pose proof (length_ne_bytes big_endian 4 (ifindex k)) as Hi.
  pose proof (length_be_bytes 2 (source_port k)) as Hsp. pose proof (length_be_bytes 2 (destination_port k)) as Hdp.
  generalize dependent (ne_bytes big_endian 4 (ifindex k)). generalize dependent (be_bytes 2 (source_port k)).
  generalize dependent (be_bytes 2 (destination_port k)). generalize dependent (source_address k).
  generalize dependent (destination_address k). intros d Hd s Hs dp Hdp sp Hsp i Hi.
  do 17 (destruct s as [|? s]; try discriminate Hs). do 17 (destruct d as [|? d]; try discriminate Hd).
  do 5 (destruct i as [|? i]; try discriminate Hi). do 3 (destruct sp as [|? sp]; try discriminate Hsp).
  do 3 (destruct dp as [|? dp]; try discriminate Hdp). reflexivity.
Qed.

Lemma key_try_from_concat v p d h i s t sp dp :
  length i = 4%nat → length s = 16%nat → length t = 16%nat → length sp = 2%nat → length dp = 2%nat →
  key_try_from big_endian ([v; p; d; h] ++ i ++ s ++ t ++ sp ++ dp) =
  Ok (mkKey v p d h (from_ne_bytes big_endian i) s t (from_be_bytes sp) (from_be_bytes dp)).
Proof.
  intros Hi Hs Ht Hsp Hdp.
  do 17 (destruct s as [|? s]; try discriminate Hs). do 17 (destruct t as [|? t]; try discriminate Ht).
  do 5 (destruct i as [|? i]; try discriminate Hi). do 3 (destruct sp as [|? sp]; try discriminate Hsp).
  do 3 (destruct dp as [|? dp]; try discriminate Hdp). reflexivity.
Qed.

Lemma slice_lengths bs : length bs = FLOW_KEY_SIZE →
  bs = [bs !!! 0%nat; bs !!! 1%nat; bs !!! 2%nat; bs !!! 3%nat] ++ slice 4 8 bs ++ slice 8 24 bs ++ slice 24 40 bs
         ++ slice 40 42 bs ++ slice 42 44 bs.
Proof. intros Hl. unfold FLOW_KEY_SIZE in Hl. do 45 (destruct bs as [|? bs]; try discriminate Hl). reflexivity. Qed.

Lemma length_slice from to bs : (from ≤ to ≤ length bs)%nat → length (slice from to bs) = (to - from)%nat.
Proof. intros ?. unfold slice. rewrite length_take, length_drop. lia. Qed.

Lemma Forall_slice (P : Z → Prop) from to bs : Forall P bs → Forall P (slice from to bs).
Proof. intros. by apply Forall_take, Forall_drop. Qed.

Lemma from_slice_width (from_bytes : list Z → Z) from to bs :
  (∀ l, Forall is_u8 l → in_width (8 * zlen l) (from_bytes l)) →
  (from ≤ to ≤ length bs)%nat → Forall is_u8 bs →
  in_width (8 * (Z.of_nat to - Z.of_nat from)) (from_bytes (slice from to bs)).
Proof.
  intros Hw Hle Hb. replace (Z.of_nat to - Z.of_nat from) with (zlen (slice from to bs)).
  - by apply Hw, Forall_slice.
  - unfold zlen. rewrite length_slice by done. lia.
Qed.

Lemma key_try_from_wf bs k : Forall is_u8 bs → key_try_from big_endian bs = Ok k → key_wf k.
Proof.
  intros Hb. unfold key_try_from. case_bool_decide as Hl; [|done]. intros [= <-].
  assert (∀ i, (i < 44)%nat → is_u8 (bs !!! i)) as Hi.
  { intros i ?. rewrite Forall_forall in Hb. apply Hb, list_elem_of_lookup_total_2. by rewrite Hl. }
  unfold FLOW_KEY_SIZE in Hl.
  split; simpl; try (apply Hi; lia); try (split; [rewrite length_slice by lia; done|by apply Forall_slice]).
  - apply (from_slice_width (from_ne_bytes big_endian) 4 8); [apply from_ne_bytes_width|lia|done].
  - apply (from_slice_width from_be_bytes 40 42); [apply from_be_bytes_width|lia|done].
  - apply (from_slice_width from_be_bytes 42 44); [apply from_be_bytes_width|lia|done].
Qed.

Lemma key_bytes_decode k : key_wf k → key_try_from big_endian (bpf_key_bytes big_endian k) = Ok k.
Proof.
  intros Hk. rewrite bpf_key_bytes_concat by done. destruct Hk as [? ? ? ? Hi [Hs _] [Ht _] Hsp Hdp].
  rewrite key_try_from_concat by (done || apply length_ne_bytes || apply length_be_bytes).
  rewrite from_ne_bytes_of, !from_be_bytes_of by done. by destruct k.
Qed.

Lemma key_decode_bytes bs k :
  Forall is_u8 bs → key_try_from big_endian bs = Ok k → bpf_key_bytes big_endian k = bs.
Proof.
  intros Hb Hk. pose proof (key_try_from_wf bs k Hb Hk) as Hwf. rewrite bpf_key_bytes_concat by done.
  clear Hwf. unfold key_try_from in Hk. case_bool_decide as Hl; [|done]. injection Hk as <-.
  cbn [ip_version protocol direction hook ifindex source_address destination_address source_port destination_port].
  unfold FLOW_KEY_SIZE in Hl.
  rewrite ne_bytes_from, !be_bytes_from by (by apply Forall_slice || (rewrite length_slice by lia; done)).
  symmetry. by apply slice_lengths.
Qed.

(** The flow key of the BPF map and its bytes determine each other: a key
    encodes to 44 bytes that decode to it, every 44 bytes decode to a key at
    its integer widths that encodes to them, and any other length is refused. *)
Lemma flow_key_roundtrip :
  (∀ k, key_wf k → key_try_from big_endian (bpf_key_bytes big_endian k) = Ok k) ∧
  (∀ bs, Forall is_u8 bs →
     (length bs = FLOW_KEY_SIZE →
        ∃ k, key_try_from big_endian bs = Ok k ∧ key_wf k ∧ bpf_key_bytes big_endian k = bs) ∧
     (length bs ≠ FLOW_KEY_SIZE → key_try_from big_endian bs = Err (KeySize (length bs)))).
Proof.
  split; [apply key_bytes_decode|]. intros bs Hb. split.
  - intros Hl. assert (∃ k, key_try_from big_endian bs = Ok k) as [k Hk].
    { unfold key_try_from. rewrite bool_decide_eq_true_2 by done. by eexists. }
    exists k. eauto using key_try_from_wf, key_decode_bytes.
  - intros Hl. unfold key_try_from. by rewrite bool_decide_eq_false_2.
Qed.

Lemma preimage_concat boot k fs : key_wf k →
  flow_id_preimage big_endian boot k fs =
  str_bytes boot ++ bpf_key_bytes big_endian k ++ ne_bytes big_endian 8 fs.
Proof. intros Hk. rewrite bpf_key_bytes_concat by done. unfold flow_id_preimage. by rewrite <- !(assoc_L (++)). Qed.

Lemma length_key_bytes k : length (bpf_key_bytes big_endian k) = FLOW_KEY_SIZE.
Proof. unfold bpf_key_bytes. by rewrite !length_inserts, !length_insert, length_replicate. Qed.

Lemma key_bytes_inj k k' : key_wf k → key_wf k' → bpf_key_bytes big_endian k = bpf_key_bytes big_endian k' → k = k'.
Proof.
  intros Hk Hk' Heq. pose proof (key_bytes_decode k Hk) as H1. rewrite Heq, (key_bytes_decode k' Hk') in H1. congruence.
Qed.

Lemma preimage_inj boot k fs boot' k' fs' :
  key_wf k → key_wf k' → is_u64 fs → is_u64 fs' →
  flow_id_preimage big_endian boot k fs = flow_id_preimage big_endian boot' k' fs' →
  boot = boot' ∧ k = k' ∧ fs = fs'.
Proof.
  intros Hk Hk' Hfs Hfs'. rewrite !preimage_concat by done. intros Heq.
  apply app_inj_2 in Heq as [Hboot Heq]; [|by rewrite !length_app, !length_key_bytes, !length_ne_bytes].
  apply app_inj_2 in Heq as [Hkey Heq]; [|by rewrite !length_ne_bytes].
  split_and!; [by apply str_bytes_inj|by apply key_bytes_inj|].
  apply (f_equal (from_ne_bytes big_endian)) in Heq. by rewrite !from_ne_bytes_of in Heq.
Qed.

(** A flow identity names one lifetime of one flow of one boot: two
    identities agree only if the boot id, the key and the first-seen clock
    agree, or SHA-256 maps two different inputs to digests with the same
    first 16 bytes. *)
Lemma policy_flow_id_binds `{Digest} boot k fs boot' k' fs' :
  (∀ m, Forall is_u8 (sha256_digest m)) →
  key_wf k → key_wf k' → is_u64 fs → is_u64 fs' →
  policy_flow_id big_endian boot k fs = policy_flow_id big_endian boot' k' fs' →
  (boot = boot' ∧ k = k' ∧ fs = fs') ∨
  ∃ m m', m ≠ m' ∧ take 16 (sha256_digest m) = take 16 (sha256_digest m').
Proof.
  intros Hd Hk Hk' Hfs Hfs' Heq. apply hex_bytes_inj in Heq; [|apply Forall_take, Hd..].
  destruct (decide (flow_id_preimage big_endian boot k fs = flow_id_preimage big_endian boot' k' fs')) as [Hp|Hp].
  - left. by apply preimage_inj.
  - right. eauto.
Qed.

End layout_facts.

(** ** Lifecycle events *)

(** What a consumer of the events may rely on for one key: [Active] is only
    announced while the flow is not active, [Idle] only while it is. *)
Fixpoint lifecycle (active : bool) (events : list FlowState) : option bool :=
  match events with
  | [] => Some active
  | Active :: events => if active then None else lifecycle true events
  | Idle :: events => if active then lifecycle false events else None
  | End_ :: events => lifecycle false events
  end.

Definition states_of (k : FlowKey) (events : list FlowLifecycleEvent) : list FlowState :=
  event_state <$> filter (λ e, event_key e = k) events.

Definition is_active (k : FlowKey) (fl : gmap FlowKey FlowRuntimeState) : bool :=
  match fl !! k with Some s => bool_decide (lifecycle_state s = Active) | None => false end.

Definition idle_timeout (rt : FlowRuntime) (k : FlowKey) : Z :=
  if protocol k =? 17 then udp_idle_timeout rt else tcp_idle_timeout rt.

Lemma lifecycle_app a l1 l2 : lifecycle a (l1 ++ l2) = lifecycle a l1 ≫= λ b, lifecycle b l2.
Proof. revert a. induction l1 as [|[] l1 IH]; intros []; simpl; auto. Qed.

Lemma states_of_app k l1 l2 : states_of k (l1 ++ l2) = states_of k l1 ++ states_of k l2.
Proof. unfold states_of. by rewrite filter_app, fmap_app. Qed.

Lemma states_of_one k e : states_of k [e] = if decide (event_key e = k) then [event_state e] else [].
Proof. unfold states_of. rewrite filter_cons. by case_decide. Qed.

(** Two moments of an update, seen from one key. *)
Definition follows (k : FlowKey) (st st' : gmap FlowKey FlowRuntimeState * FlowRuntimeUpdate) : Prop :=
  ∃ evs, lifecycle_events (snd st') = lifecycle_events (snd st) ++ evs ∧
    lifecycle (is_active k (fst st)) (states_of k evs) = Some (is_active k (fst st')).

#[export] Instance follows_preorder k : PreOrder (follows k).
Proof.
  split.
  - intros st. exists []. by rewrite app_nil_r.
  - intros st1 st2 st3 (e1 & H1 & L1) (e2 & H2 & L2). exists (e1 ++ e2). split.
    + by rewrite H2, H1, (assoc_L (++)).
    + rewrite states_of_app, lifecycle_app, L1. exact L2.
Qed.

Lemma foldl_follows {A} k (f : _ → A → _) l st :
  (∀ st a, a ∈ l → follows k st (f st a)) → follows k st (foldl f st l).
Proof.
  revert st. induction l as [|a l IH]; intros st Hf; simpl; [reflexivity|].
  transitivity (f st a); [apply Hf; set_solver|]. apply IH. intros. apply Hf. set_solver.
Qed.

(** Pushing nothing, and changing nothing a key can see. *)
Lemma follows_quiet k st st' :
  lifecycle_events (snd st') = lifecycle_events (snd st) → is_active k (fst st') = is_active k (fst st) →
  follows k st st'.
Proof. intros He Ha. exists []. rewrite app_nil_r, Ha. auto. Qed.

Lemma follows_event k st st' e :
  lifecycle_events (snd st') = lifecycle_events (snd st) ++ [e] →
  (event_key e ≠ k → is_active k (fst st') = is_active k (fst st)) →
  (event_key e = k → lifecycle (is_active k (fst st)) [event_state e] = Some (is_active k (fst st'))) →
  follows k st st'.
Proof.
  intros He Hother Hk. exists [e]. split; [done|]. rewrite states_of_one. case_decide; [by apply Hk|].
  simpl. by rewrite Hother.
Qed.

Lemma is_active_insert k k' s fl :
  is_active k (<[k' := s]> fl) = if decide (k' = k) then bool_decide (lifecycle_state s = Active) else is_active k fl.
Proof.
  unfold is_active. case_decide as Hk; [subst; by rewrite lookup_insert_eq|by rewrite lookup_insert_ne].
Qed.

Section lifecycle.
Context `{Digest} `{HashOrder} (big_endian : bool).

Lemma end_lifetime_follows k en boot k' c st : follows k st (end_lifetime big_endian en boot k' c st).
Proof.
  unfold end_lifetime. destruct (fst st !! k') as [p|] eqn:Hp; [|reflexivity].
  destruct (new_lifetime c (counters p)); [|reflexivity]. eapply follows_event; [done| |]; cbn.
  - intros Hne. rewrite is_active_insert. by rewrite decide_False.
  - intros ->. rewrite is_active_insert, decide_True by done. done.
Qed.

Lemma account_follows k en boot t k' c st : follows k st (account big_endian en boot t k' c st).
Proof.
  unfold account. set (state := default _ _).
  assert (k' = k → is_active k (fst st) = bool_decide (lifecycle_state state = Active)) as Hact.
  { intros ->. unfold is_active, state. by destruct (fst st !! k). }
  destruct (_ || _)%bool; cbn zeta.
  - case_bool_decide as Hs.
    + apply follows_quiet; [done|]. cbn. rewrite is_active_insert. case_decide; [|done].
      by rewrite Hact.
    + eapply follows_event; [done| |]; cbn; rewrite is_active_insert.
      * intros Hne. by rewrite decide_False.
      * intros Hk. by rewrite Hact, decide_True.
  - apply follows_quiet; [done|]. cbn. rewrite is_active_insert. destruct (decide (k' = k)); [by rewrite Hact|done].
Qed.

Lemma observe_follows k en boot t st r : follows k st (observe big_endian en boot t st r).
Proof.
  destruct r as [k' c]. etransitivity; [apply end_lifetime_follows|apply account_follows].
Qed.

Lemma retain_entry_states en rt t k k' s :
  states_of k (snd (retain_entry big_endian en rt t k' s)) =
  if decide (k' = k) then event_state <$> snd (retain_entry big_endian en rt t k' s) else [].
Proof.
  unfold retain_entry. destruct (_ <=? _); [apply states_of_one|].
  destruct (_ && _)%bool; [apply states_of_one|]. by case_decide.
Qed.

Lemma retain_step_lookup en rt t st k' s k :
  fst (retain_step big_endian en rt t st (k', s)) !! k =
  if decide (k' = k) then fst (retain_entry big_endian en rt t k' s) else fst st !! k.
Proof.
  unfold retain_step. cbn [fst snd]. destruct (retain_entry _ _ _ _ _ _) as [[s'|] evs]; cbn [fst snd];
    case_decide as Hk; subst; by simplify_map_eq.
Qed.

Lemma retain_step_events en rt t st k' s :
  snd (retain_step big_endian en rt t st (k', s)) =
  mkUpdate (deltas (snd st)) (lifecycle_events (snd st) ++ snd (retain_entry big_endian en rt t k' s)).
Proof. unfold retain_step. cbn [fst snd]. by destruct (retain_entry _ _ _ _ _ _). Qed.

(** The effect of [retain] on one key. *)
Lemma retain_fold en rt t l st k : NoDup (fst <$> l) →
  ∃ evs, lifecycle_events (snd (foldl (retain_step big_endian en rt t) st l)) = lifecycle_events (snd st) ++ evs ∧
    deltas (snd (foldl (retain_step big_endian en rt t) st l)) = deltas (snd st) ∧
    ((k ∉ fst <$> l) ∧ states_of k evs = [] ∧
       fst (foldl (retain_step big_endian en rt t) st l) !! k = fst st !! k ∨
     ∃ s, (k, s) ∈ l ∧ states_of k evs = event_state <$> snd (retain_entry big_endian en rt t k s) ∧
       fst (foldl (retain_step big_endian en rt t) st l) !! k = fst (retain_entry big_endian en rt t k s)).
Proof.
  revert st. induction l as [|[k' s] l IH]; intros st Hnd; cbn [foldl].
  { exists []. rewrite app_nil_r. split_and!; [done|done|]. left. split_and!; [set_solver|done|done]. }
  rewrite fmap_cons, NoDup_cons in Hnd. destruct Hnd as [Hnin Hnd]. cbn [fst] in Hnin.
  destruct (IH (retain_step big_endian en rt t st (k', s)) Hnd) as (evs & Hev & Hdel & Hcase).
  rewrite retain_step_events in Hev, Hdel. cbn [lifecycle_events deltas] in Hev, Hdel.
  eexists. split_and!; [by rewrite Hev, <- (assoc_L (++))|done|].
  rewrite states_of_app, retain_entry_states. destruct Hcase as [(Hk & He & Hl)|(s' & Hin & He & Hl)].
  - rewrite Hl, He, retain_step_lookup, app_nil_r. destruct (decide (k' = k)) as [->|Hne].
    + right. exists s. split_and!; [left|done|done].
    + left. split_and!; [set_solver|done|done].
  - right. exists s'. rewrite Hl, He, decide_False; [split_and!; [by right|done|done]|].
    intros ->. apply Hnin. by apply (list_elem_of_fmap_2 fst l (k, s')).
Qed.

Context `{!HashOrderLaw}.

Lemma hash_order_lookup m k s : (k, s) ∈ hash_order m ↔ m !! k = Some s.
Proof. by rewrite hash_order_perm, elem_of_map_to_list. Qed.

Lemma hash_order_keys m : NoDup (fst <$> hash_order m).
Proof. rewrite hash_order_perm. apply NoDup_fst_map_to_list. Qed.

(** One update, seen from one key: the readings, then the retention. *)
Lemma update_cases rt cur t en k :
  let st := foldl (observe big_endian en (boot_id rt) t) (flows rt, mkUpdate [] []) cur in
  let r := update_with_policy_ids big_endian rt cur t en in
  ∃ evs, lifecycle_events (snd r) = lifecycle_events (snd st) ++ evs ∧ deltas (snd r) = deltas (snd st) ∧
    (fst st !! k = None ∧ states_of k evs = [] ∧ flows (fst r) !! k = None ∨
     ∃ s, fst st !! k = Some s ∧ states_of k evs = event_state <$> snd (retain_entry big_endian en rt t k s) ∧
       flows (fst r) !! k = fst (retain_entry big_endian en rt t k s)).
Proof.
  cbn zeta. unfold update_with_policy_ids. cbn [fst snd flows].
  set (st := foldl (observe big_endian en (boot_id rt) t) _ cur).
  destruct (retain_fold en rt t (hash_order (fst st)) st k (hash_order_keys _))
    as (evs & Hev & Hdel & [(Hk & Hs & Hl)|(s & Hin & Hs & Hl)]);
    exists evs; (split_and!; [done|done|]).
  - left. destruct (fst st !! k) as [s|] eqn:Hsome; [|by rewrite Hl]. destruct Hk. apply list_elem_of_fmap.
    exists (k, s). split; [done|]. by apply hash_order_lookup.
  - right. exists s. rewrite Hl. apply hash_order_lookup in Hin. auto.
Qed.

Lemma retain_entry_lifecycle en rt t k s :
  lifecycle (bool_decide (lifecycle_state s = Active)) (event_state <$> snd (retain_entry big_endian en rt t k s)) =
  Some match fst (retain_entry big_endian en rt t k s) with
       | Some s' => bool_decide (lifecycle_state s' = Active)
       | None => false
       end.
Proof.
  unfold retain_entry. destruct (_ <=? _); [done|]. case_bool_decide as Ha; rewrite ?andb_false_r, ?andb_true_r; cbn.
  - destruct (0 <? _); [done|]. cbn. by rewrite bool_decide_eq_true_2.
  - by rewrite bool_decide_eq_false_2.
Qed.

Lemma update_lifecycle rt cur t en k :
  let r := update_with_policy_ids big_endian rt cur t en in
  lifecycle (is_active k (flows rt)) (states_of k (lifecycle_events (snd r))) = Some (is_active k (flows (fst r))).
Proof.
  cbn zeta. destruct (update_cases rt cur t en k) as (evs & -> & _ & Hcase).
  destruct (foldl_follows k (observe big_endian en (boot_id rt) t) cur (flows rt, mkUpdate [] []))
    as (pre & Hpre & Hlife); [intros; apply observe_follows|].
  cbn [fst snd lifecycle_events] in Hpre, Hlife. rewrite app_nil_l in Hpre.
  rewrite states_of_app, lifecycle_app, Hpre, Hlife. cbn [mbind option_bind]. unfold is_active.
  destruct Hcase as [(-> & -> & ->)|(s & -> & -> & ->)]; [done|apply retain_entry_lifecycle].
Qed.

Lemma states_of_push k u e : event_key e ≠ k →
  states_of k (lifecycle_events (push_event u e)) = states_of k (lifecycle_events u).
Proof. intros Hne. cbn [push_event lifecycle_events]. by rewrite states_of_app, states_of_one, decide_False, app_nil_r. Qed.

(** A key without an entry after the readings was never seen. *)
Lemma observe_lookup en boot t st r k :
  (fst (observe big_endian en boot t st r) !! k = None ↔ fst st !! k = None ∧ fst r ≠ k) ∧
  (fst r ≠ k → states_of k (lifecycle_events (snd (observe big_endian en boot t st r))) =
               states_of k (lifecycle_events (snd st))).
Proof.
  destruct r as [k' c]. unfold observe, account, end_lifetime. cbn zeta. cbn [fst].
  assert (∀ u d, lifecycle_events (push_delta u d) = lifecycle_events u) as Hdelta by done.
  split; [|intros Hne].
  - repeat case_match; cbn [fst snd]; rewrite ?lookup_insert_None; tauto.
  - repeat case_match; cbn [fst snd]; rewrite ?Hdelta, ?states_of_push by done; done.
Qed.

Lemma observe_unseen en boot t cur st k :
  fst (foldl (observe big_endian en boot t) st cur) !! k = None →
  fst st !! k = None ∧ (k ∉ fst <$> cur) ∧
  states_of k (lifecycle_events (snd (foldl (observe big_endian en boot t) st cur))) =
  states_of k (lifecycle_events (snd st)).
Proof.
  revert st. induction cur as [|r cur IH]; intros st Hn; cbn [foldl] in *; [set_solver|].
  destruct (IH _ Hn) as (Hst & Hcur & He). destruct (observe_lookup en boot t st r k) as [Hl Hs].
  apply Hl in Hst as [? ?]. rewrite He, Hs by done. set_solver.
Qed.

(** What one update does to a key that is untracked, or tracked, after it. *)
Lemma update_end rt cur t en k :
  let r := update_with_policy_ids big_endian rt cur t en in
  match flows (fst r) !! k with
  | None => flows rt !! k = None ∧ (k ∉ fst <$> cur) ∧ states_of k (lifecycle_events (snd r)) = [] ∨
            last (states_of k (lifecycle_events (snd r))) = Some End_
  | Some s => Z.max 0 (t - last_activity s) < idle_timeout rt k
  end.
Proof.
  cbn zeta. destruct (update_cases rt cur t en k) as (evs & -> & _ & [(Hn & He & ->)|(s & Hs & He & ->)]).
  - left. apply observe_unseen in Hn as (? & ? & Hst). by rewrite states_of_app, He, Hst.
  - rewrite states_of_app, He. unfold retain_entry, idle_timeout. destruct (_ <=? _) eqn:Ht; cbn.
    + right. by rewrite last_snoc.
    + case_bool_decide; rewrite ?andb_true_r, ?andb_false_r; [destruct (0 <? _)|]; cbn; lia.
Qed.

Lemma run_cons rt p polls :
  let r := update_with_policy_ids big_endian rt (poll_flows p) (poll_now p) (poll_ids p) in
  run big_endian rt (p :: polls) = (fst (run big_endian (fst r) polls), snd r :: snd (run big_endian (fst r) polls)).
Proof.
  cbn zeta. cbn [run]. destruct (update_with_policy_ids _ _ _ _ _) as [rt1 u]. cbn [fst snd].
  by destruct (run big_endian rt1 polls).
Qed.

Lemma update_idle_timeout rt cur t en k :
  idle_timeout (fst (update_with_policy_ids big_endian rt cur t en)) k = idle_timeout rt k.
Proof. done. Qed.

Lemma last_app_Some {A} (l1 l2 : list A) x : last l2 = Some x → last (l1 ++ l2) = Some x.
Proof. intros Hl. by rewrite last_app, Hl. Qed.

Lemma run_lifecycle polls rt hist k (seen : Prop) :
  lifecycle false (states_of k hist) = Some (is_active k (flows rt)) →
  (flows rt !! k = None → seen → last (states_of k hist) = Some End_) →
  let r := run big_endian rt polls in
  let trace := hist ++ (snd r ≫= lifecycle_events) in
  lifecycle false (states_of k trace) = Some (is_active k (flows (fst r))) ∧
  (flows (fst r) !! k = None → seen ∨ k ∈ fst <$> (polls ≫= poll_flows) → last (states_of k trace) = Some End_).
Proof.
  revert rt hist seen. induction polls as [|p polls IH]; intros rt hist seen Hlife Hend.
  { cbn. rewrite app_nil_r. split; [done|]. intros Hn [Hs|[]%elem_of_nil]. auto. }
  cbn zeta. rewrite run_cons. cbn [fst snd]. rewrite !bind_cons, (assoc_L (++)).
  set (r := update_with_policy_ids big_endian rt (poll_flows p) (poll_now p) (poll_ids p)).
  destruct (IH (fst r) (hist ++ lifecycle_events (snd r)) (seen ∨ k ∈ fst <$> poll_flows p)) as [Hl He].
  - rewrite states_of_app, lifecycle_app, Hlife. apply update_lifecycle.
  - intros Hn Hs. pose proof (update_end rt (poll_flows p) (poll_now p) (poll_ids p) k) as Hu. cbn zeta in Hu.
    fold r in Hu. rewrite Hn in Hu. rewrite states_of_app.
    destruct Hu as [(Hrt & Hp & ->)|Hu]; [rewrite app_nil_r; apply Hend; tauto|by apply last_app_Some].
  - split; [done|]. intros Hn Hs. apply He; [done|]. rewrite fmap_app, elem_of_app in Hs. tauto.
Qed.

Lemma run_idle polls rt k s p : last polls = Some p → flows (fst (run big_endian rt polls)) !! k = Some s →
  Z.max 0 (poll_now p - last_activity s) < idle_timeout rt k.
Proof.
  revert rt. induction polls as [|q polls IH]; intros rt Hl Hs; [done|].
  rewrite run_cons in Hs. cbn [fst] in Hs. destruct polls as [|q' polls].
  - injection Hl as ->. pose proof (update_end rt (poll_flows p) (poll_now p) (poll_ids p) k) as Hu. cbn zeta in Hu.
    cbn [run fst] in Hs. by rewrite Hs in Hu.
  - rewrite <- (update_idle_timeout rt (poll_flows q) (poll_now q) (poll_ids q)). by apply IH.
Qed.

(** C27: The lifecycle events of every flow are consistent over any sequence of
    polls, in whatever order the map is iterated: a flow is announced active
    only while it is not and idle only while it is active, the last
    announcement agrees with the runtime's own state, a flow that is no longer
    tracked was announced as ended, and one that is tracked was active within
    its idle timeout. *)
Theorem flow_lifecycle boot tcp udp polls k :
  let r := run big_endian (new_for_boot boot tcp udp) polls in
  let trace := states_of k (snd r ≫= lifecycle_events) in
  lifecycle false trace = Some (is_active k (flows (fst r))) ∧
  (flows (fst r) !! k = None → k ∈ fst <$> (polls ≫= poll_flows) → last trace = Some End_) ∧
  (∀ s p, flows (fst r) !! k = Some s → last polls = Some p →
     poll_now p - last_activity s < if protocol k =? 17 then udp else tcp).
Proof.
  cbn zeta. destruct (run_lifecycle polls (new_for_boot boot tcp udp) [] k False) as [Hl He].
  - unfold is_active. cbn. by rewrite lookup_empty.
  - done.
  - rewrite app_nil_l in Hl, He. split_and!; [done|auto|]. intros s p Hs Hp.
    pose proof (run_idle polls _ k s p Hp Hs) as Hidle. unfold idle_timeout in Hidle. cbn in Hidle. lia.
Qed.

End lifecycle.

(** ** Accounting *)

(** The counters a flow is measured against: those of the last poll. *)
Definition base (k : FlowKey) (fl : gmap FlowKey FlowRuntimeState) : FlowCounters :=
  match fl !! k with Some s => counters s | None => default_counters end.

Definition readings (k : FlowKey) (cur : list (FlowKey * FlowCounters)) : list FlowCounters :=
  snd <$> filter (λ r, fst r = k) cur.

(** Successive readings of one lifetime of a BPF entry, whose counters only grow. *)
Fixpoint one_lifetime (previous : FlowCounters) (l : list FlowCounters) : Prop :=
  match l with
  | [] => True
  | c :: l => new_lifetime c previous = false ∧ packets previous ≤ packets c ∧ bytes previous ≤ bytes c
              ∧ one_lifetime c l
  end.

(** What the deltas of an update report for a key. *)
Definition reported (amount : FlowDelta → Z) (k : FlowKey) (ds : list FlowDelta) : Z :=
  foldr Z.add 0 (amount <$> filter (λ d, delta_key d = k) ds).

Lemma sum_app l1 l2 : foldr Z.add 0 (l1 ++ l2) = foldr Z.add 0 l1 + foldr Z.add 0 l2.
Proof. induction l1 as [|x l1 IH]; simpl; lia. Qed.

Lemma reported_app amount k l1 l2 : reported amount k (l1 ++ l2) = reported amount k l1 + reported amount k l2.
Proof. unfold reported. by rewrite filter_app, fmap_app, sum_app. Qed.

Lemma reported_one amount k d : reported amount k [d] = if decide (delta_key d = k) then amount d else 0.
Proof. unfold reported. rewrite filter_cons. case_decide; cbn; lia. Qed.

Lemma one_lifetime_app c l1 l2 :
  one_lifetime c (l1 ++ l2) ↔ one_lifetime c l1 ∧ one_lifetime (default c (last l1)) l2.
Proof.
  revert c. induction l1 as [|c' l1 IH]; intros c; cbn [app one_lifetime]; [cbn; tauto|].
  rewrite IH, last_cons. destruct (last l1); cbn; tauto.
Qed.

Lemma last_reading_app (c : FlowCounters) l1 l2 :
  default c (last (l1 ++ l2)) = default (default c (last l1)) (last l2).
Proof. rewrite last_app. by destruct (last l2). Qed.

(** Between two moments the deltas of a key account for its counters. *)
Definition accounted (k : FlowKey) (st st' : gmap FlowKey FlowRuntimeState * FlowRuntimeUpdate) : Prop :=
  reported delta_packets k (deltas (snd st')) - reported delta_packets k (deltas (snd st)) =
    packets (base k (fst st')) - packets (base k (fst st)) ∧
  reported delta_bytes k (deltas (snd st')) - reported delta_bytes k (deltas (snd st)) =
    bytes (base k (fst st')) - bytes (base k (fst st)).

#[export] Instance accounted_preorder k : PreOrder (accounted k).
Proof. split; [intros st; split; lia|intros st1 st2 st3 [] []; split; lia]. Qed.

Lemma base_insert k k' s fl : base k (<[k' := s]> fl) = if decide (k' = k) then counters s else base k fl.
Proof. unfold base. case_decide as Hk; [subst; by rewrite lookup_insert_eq|by rewrite lookup_insert_ne]. Qed.

Lemma monotonic_delta_grows c p : p ≤ c → monotonic_delta c p = c - p.
Proof. intros. unfold monotonic_delta. by rewrite (proj2 (Z.leb_le p c)). Qed.

Section accounting.
Context `{Digest} `{HashOrder} (big_endian : bool) (k : FlowKey).

Lemma end_lifetime_same en boot c st :
  new_lifetime c (base k (fst st)) = false → end_lifetime big_endian en boot k c st = st.
Proof. unfold end_lifetime, base. by destruct (fst st !! k) as [s|]; [intros ->|]. Qed.

Lemma observe_other en boot t st k' c : k' ≠ k →
  accounted k st (observe big_endian en boot t st (k', c)) ∧
  base k (fst (observe big_endian en boot t st (k', c))) = base k (fst st).
Proof.
  intros Hne. unfold accounted, observe, account, end_lifetime. cbn zeta.
  repeat case_match; cbn [fst snd deltas push_delta push_event]; rewrite ?base_insert, ?decide_False by done;
    rewrite ?reported_app, ?reported_one; cbn [delta_key]; rewrite ?decide_False by done; (split; [split; lia|done]).
Qed.

Lemma observe_reading en boot t st c :
  new_lifetime c (base k (fst st)) = false →
  packets (base k (fst st)) ≤ packets c → bytes (base k (fst st)) ≤ bytes c →
  accounted k st (observe big_endian en boot t st (k, c)) ∧
  base k (fst (observe big_endian en boot t st (k, c))) = c.
Proof.
  intros Hlife Hp Hb. unfold observe. rewrite end_lifetime_same by done. unfold account. set (state := default _ _).
  assert (counters state = base k (fst st)) as -> by (unfold state, base; by destruct (fst st !! k)).
  rewrite !monotonic_delta_grows by done. unfold accounted. cbn zeta.
  destruct (_ || _)%bool eqn:Hz; cbn [fst snd]; rewrite base_insert, decide_True by done; cbn [counters]; (split; [|done]).
  - replace (deltas _) with (deltas (snd st) ++
      [mkDelta k (flow_id big_endian en boot k (first_seen_ns c)) (packets c - packets (base k (fst st)))
         (bytes c - bytes (base k (fst st))) c]) by (by case_bool_decide).
    rewrite !reported_app, !reported_one. cbn [delta_key delta_packets delta_bytes].
    rewrite !decide_True by done. lia.
  - lia.
Qed.

Lemma observe_run en boot t cur st :
  one_lifetime (base k (fst st)) (readings k cur) →
  accounted k st (foldl (observe big_endian en boot t) st cur) ∧
  base k (fst (foldl (observe big_endian en boot t) st cur)) = default (base k (fst st)) (last (readings k cur)).
Proof.
  revert st. induction cur as [|[k' c] cur IH]; intros st Hl; cbn [foldl]; [split; [reflexivity|done]|].
  revert Hl. unfold readings. rewrite filter_cons. cbn [fst]. case_decide as Hk.
  - subst k'. rewrite fmap_cons. cbn [one_lifetime snd]. intros (H1 & H2 & H3 & Hl).
    destruct (observe_reading en boot t st c H1 H2 H3) as [Hacc Hbase]. rewrite <- Hbase in Hl at 1.
    destruct (IH _ Hl) as [Hacc' Hbase']. split; [by etransitivity|].
    rewrite Hbase', Hbase, last_cons. unfold readings. by destruct (last _).
  - intros Hl. destruct (observe_other en boot t st k' c Hk) as [Hacc Hbase]. rewrite <- Hbase in Hl.
    destruct (IH _ Hl) as [Hacc' Hbase']. split; [by etransitivity|]. by rewrite Hbase', Hbase.
Qed.

Context `{!HashOrderLaw}.

Lemma update_accounted rt cur t en :
  let r := update_with_policy_ids big_endian rt cur t en in
  one_lifetime (base k (flows rt)) (readings k cur) → End_ ∉ states_of k (lifecycle_events (snd r)) →
  accounted k (flows rt, mkUpdate [] []) (flows (fst r), snd r) ∧
  base k (flows (fst r)) = default (base k (flows rt)) (last (readings k cur)).
Proof.
  cbn zeta. intros Hl Hend. destruct (observe_run en (boot_id rt) t cur (flows rt, mkUpdate [] []) Hl) as [Hacc Hbase].
  destruct (update_cases big_endian rt cur t en k) as (evs & Hev & Hdel & Hcase).
  assert (base k (flows (fst (update_with_policy_ids big_endian rt cur t en))) =
          base k (fst (foldl (observe big_endian en (boot_id rt) t) (flows rt, mkUpdate [] []) cur))) as Hsame.
  { unfold base. destruct Hcase as [(-> & _ & ->)|(s & -> & Hs & ->)]; [done|].
    rewrite Hev, states_of_app, Hs in Hend. unfold retain_entry in *. destruct (_ <=? _); cbn in *; [set_solver|].
    by destruct (_ && _)%bool. }
  split; [|by rewrite Hsame, Hbase]. unfold accounted in *. cbn [fst snd] in *. by rewrite Hdel, Hsame.
Qed.

Lemma run_accounted polls rt :
  let r := run big_endian rt polls in
  one_lifetime (base k (flows rt)) (readings k (polls ≫= poll_flows)) →
  End_ ∉ states_of k (snd r ≫= lifecycle_events) →
  reported delta_packets k (snd r ≫= deltas) = packets (base k (flows (fst r))) - packets (base k (flows rt)) ∧
  reported delta_bytes k (snd r ≫= deltas) = bytes (base k (flows (fst r))) - bytes (base k (flows rt)) ∧
  base k (flows (fst r)) = default (base k (flows rt)) (last (readings k (polls ≫= poll_flows))).
Proof.
  revert rt. induction polls as [|p polls IH]; intros rt; cbn zeta.
  { cbn. intros. split_and!; [unfold reported; cbn; lia..|done]. }
  rewrite run_cons. cbn [fst snd]. rewrite !bind_cons. unfold readings. rewrite filter_app, fmap_app, one_lifetime_app.
  rewrite states_of_app, elem_of_app. intros [Hl1 Hl2] Hend.
  destruct (update_accounted rt (poll_flows p) (poll_now p) (poll_ids p)) as [[Hp Hb] Hbase]; [done|tauto|].
  cbn [fst snd deltas] in Hp, Hb. change (reported delta_packets k []) with 0 in Hp.
  change (reported delta_bytes k []) with 0 in Hb.
  fold (readings k (poll_flows p)) in *. fold (readings k (polls ≫= poll_flows)) in *. rewrite <- Hbase in Hl2.
  destruct (IH _ Hl2) as (Hp' & Hb' & Hbase'); [tauto|].
  rewrite !reported_app, last_reading_app, <- Hbase. split_and!; [lia|lia|done].
Qed.

(** C26: Traffic is counted exactly once: as long as the runtime has not ended a
    flow and its kernel counters only grow, the deltas reported for it over
    any sequence of polls add up to the growth of its counters. *)
Theorem flow_accounting rt polls :
  let r := run big_endian rt polls in
  let final := default (base k (flows rt)) (last (readings k (polls ≫= poll_flows))) in
  one_lifetime (base k (flows rt)) (readings k (polls ≫= poll_flows)) →
  End_ ∉ states_of k (snd r ≫= lifecycle_events) →
  reported delta_packets k (snd r ≫= deltas) = packets final - packets (base k (flows rt)) ∧
  reported delta_bytes k (snd r ≫= deltas) = bytes final - bytes (base k (flows rt)).
Proof.
  cbn zeta. intros Hl Hend. destruct (run_accounted polls rt Hl Hend) as (Hp & Hb & <-). auto.
Qed.

End accounting.

(** ** Examples *)

Module Example.
Definition digest : Digest := {| sha256_digest m := replicate 31 0 ++ [zlen m mod 256] |}.
Definition order : HashOrder := {| hash_order m := map_to_list m |}.
Lemma order_law : @HashOrderLaw order.
Proof. by split. Qed.

(** A DNS flow of 192.168.1.20, polled four times. *)
Definition key : FlowKey :=
  mkKey 4 17 1 1 7 ([192; 168; 1; 20] ++ replicate 12 0) ([1; 1; 1; 1] ++ replicate 12 0) 47000 53.
Lemma key_ok : key_wf key.
Proof. split; cbv; try (split; congruence); (split; [done|]); repeat constructor; try done; cbv; congruence. Qed.

Definition reading (p b : Z) : list (FlowKey * FlowCounters) := [(key, mkCounters p b 10 20 0)].
Definition polls : list Poll :=
  [mkPoll (reading 10 740) 0 true; mkPoll (reading 25 1850) 1 true; mkPoll [] 2 true; mkPoll (reading 27 2000) 3 true].
Definition ended : list Poll := polls ++ [mkPoll [] 40 true].
Definition runtime : FlowRuntime := new_for_boot "boot" 120 30.
End Example.

Lemma policy_flow_id_binds_witness :
  ("boot" = "boot" ∧ Example.key = Example.key ∧ 10 = 10) ∨
  ∃ m m', m ≠ m' ∧ take 16 (@sha256_digest Example.digest m) = take 16 (@sha256_digest Example.digest m').
Proof.
  apply (@policy_flow_id_binds false Example.digest "boot" Example.key 10 "boot" Example.key 10).
  - intros m. unfold sha256_digest, Example.digest. apply Forall_app_2.
    + apply Forall_replicate. by split.
    + apply Forall_singleton. apply Z.mod_pos_bound. lia.
  - apply Example.key_ok.
  - apply Example.key_ok.
  - by split.
  - by split.
  - reflexivity.
Defined.

Lemma flow_lifecycle_witness :
  let r := @run Example.digest Example.order false Example.runtime Example.ended in
  states_of Example.key (snd r ≫= lifecycle_events) = [Active; Idle; Active; End_] ∧
  lifecycle false [Active; Idle; Active; End_] = Some (is_active Example.key (flows (fst r))).
Proof.
  intros r. assert (states_of Example.key (snd r ≫= lifecycle_events) = [Active; Idle; Active; End_]) as Ht
    by (vm_compute; reflexivity).
  split; [exact Ht|]. rewrite <- Ht.
  apply (@flow_lifecycle Example.digest Example.order false Example.order_law "boot" 120 30 Example.ended Example.key).
Defined.

Lemma flow_accounting_witness :
  let r := @run Example.digest Example.order false Example.runtime Example.polls in
  reported delta_packets Example.key (snd r ≫= deltas) = 27 ∧ reported delta_bytes Example.key (snd r ≫= deltas) = 2000.
Proof.
  apply (@flow_accounting Example.digest Example.order false Example.key Example.order_law Example.runtime Example.polls).
  - cbn. split_and!; (done || lia).
  - apply (bool_decide_unpack _). vm_compute. exact I.
Defined.
