(* ===== verification/Normalization.v ===== *)
(** Flow normalization on the agent: the connection-tracking table
    (src/crates/agent/src/conntrack.rs) and the orientation of a captured flow
    into client, remote, direction and scope
    (src/crates/agent/src/normalization.rs). *)

From S2P Require Import Prelude Topology Flow.

(** ** Connection tracking *)

Record FlowTuple := mkTuple {
  tuple_protocol : Z;
  tuple_source : IpAddr;
  tuple_source_port : Z;
  tuple_destination : IpAddr;
  tuple_destination_port : Z;
}.
#[export] Instance FlowTuple_eq_dec : EqDecision FlowTuple.
Proof. solve_decision. Defined.
#[export] Instance FlowTuple_countable : Countable FlowTuple.
Proof.
  apply (inj_countable'
    (λ t, (tuple_protocol t, tuple_source t, tuple_source_port t, tuple_destination t, tuple_destination_port t))
    (λ '(p, s, sp, d, dp), mkTuple p s sp d dp)).
  by intros [].
Defined.

Record ConntrackEntry := mkEntry {
  original : FlowTuple;
  reply : FlowTuple;
  source_nat : bool;
  destination_nat : bool;
}.
#[export] Instance ConntrackEntry_eq_dec : EqDecision ConntrackEntry.
Proof. solve_decision. Defined.

(** [ConntrackContext::observed]. *)
Abbreviation ConntrackContext := (gmap FlowTuple ConntrackEntry).

(** [conntrack::reverse] and [normalization::reverse_tuple]. *)
Definition reverse_tuple (t : FlowTuple) : FlowTuple :=
  mkTuple (tuple_protocol t) (tuple_destination t) (tuple_destination_port t) (tuple_source t) (tuple_source_port t).

Definition conntrack_insert (ctx : ConntrackContext) (e : ConntrackEntry) : ConntrackContext :=
  let ctx := <[original e := e]> ctx in
  let ctx := <[reply e := e]> ctx in
  let ctx := <[reverse_tuple (reply e) := e]> ctx in
  <[reverse_tuple (original e) := e]> ctx.

Definition tuple_from_key (k : FlowKey) : option FlowTuple :=
  '(s, d) ← key_addresses k; Some (mkTuple (protocol k) s (source_port k) d (destination_port k)).

Definition conntrack_resolve (ctx : ConntrackContext) (k : FlowKey) : option ConntrackEntry :=
  t ← tuple_from_key k; ctx !! t.

(** ** Orientation *)

Inductive ConntrackOrientation := Original | Reply.
#[export] Instance ConntrackOrientation_eq_dec : EqDecision ConntrackOrientation.
Proof. solve_decision. Defined.

Definition conntrack_orientation (k : FlowKey) (e : ConntrackEntry) : option ConntrackOrientation :=
  '(s, d) ← key_addresses k;
  let captured := mkTuple (protocol k) s (source_port k) d (destination_port k) in
  let orig := (bool_decide (captured = original e) || bool_decide (captured = reverse_tuple (reply e)))%bool in
  let rep := (bool_decide (captured = reply e) || bool_decide (captured = reverse_tuple (original e)))%bool in
  match orig, rep with
  | true, false => Some Original
  | false, true => Some Reply
  | _, _ => None
  end.

Definition original_orientation (k : FlowKey) (e : ConntrackEntry) : IpAddr * Z * IpAddr * Z :=
  let o := original e in
  let forward := (tuple_source o, tuple_source_port o, tuple_destination o, tuple_destination_port o) in
  if bool_decide (key_addresses k = None) then forward
  else if bool_decide (conntrack_orientation k e = Some Reply) then
    (tuple_destination o, tuple_destination_port o, tuple_source o, tuple_source_port o)
  else forward.

(** ** Normalized flows *)

Inductive Direction := Upload | Download | InternalTraffic | UnknownDirection.
Inductive FlowScope := ClientScope | RouterLocalScope | InternalScope | TunnelScope | UnknownScope.
Inductive PathType := Forwarded | RouterLocalPath | InternalPath | TunnelPath | UnknownPath.

Record NatInfo := mkNat { nat_source : bool; nat_destination : bool }.

Record NormalizedFlow := mkNormalized {
  client_addr : IpAddr;
  client_port : Z;
  remote_addr : IpAddr;
  remote_port : Z;
  source_segment : option NetworkPrefix;
  destination_segment : option NetworkPrefix;
  flow_direction : Direction;
  flow_scope : FlowScope;
  path_type : PathType;
  nat : NatInfo;
}.

Definition in_internal (t : TopologySnapshot) (a : IpAddr) : bool :=
  match segment t a with Some s => is_internal (role s) | None => false end.
Definition in_tunnel (t : TopologySnapshot) (a : IpAddr) : bool :=
  match segment t a with Some s => match role s with Tunnel => true | _ => false end | None => false end.

(** The decision between the two endpoints of a flow. *)
Definition endpoints (t : TopologySnapshot) (s : IpAddr) (sp : Z) (d : IpAddr) (dp : Z)
    : IpAddr * Z * IpAddr * Z * Direction * FlowScope * PathType :=
  if (is_local t s && negb (is_local t d))%bool then (s, sp, d, dp, Upload, RouterLocalScope, RouterLocalPath)
  else if (is_local t d && negb (is_local t s))%bool then (d, dp, s, sp, Download, RouterLocalScope, RouterLocalPath)
  else if (in_tunnel t s || in_tunnel t d)%bool then
    if in_tunnel t s then (s, sp, d, dp, Upload, TunnelScope, TunnelPath)
    else (d, dp, s, sp, Download, TunnelScope, TunnelPath)
  else if (in_internal t s && in_internal t d)%bool then (s, sp, d, dp, InternalTraffic, InternalScope, InternalPath)
  else if in_internal t s then (s, sp, d, dp, Upload, ClientScope, Forwarded)
  else if in_internal t d then (d, dp, s, sp, Download, ClientScope, Forwarded)
  else (s, sp, d, dp, UnknownDirection, UnknownScope, UnknownPath).

Definition normalize_with_resolution (k : FlowKey) (t : TopologySnapshot) (ctx : ConntrackContext)
    : option (NormalizedFlow * bool) :=
  '(captured_source, captured_destination) ← key_addresses k;
  let tracked := conntrack_resolve ctx k in
  let resolved := bool_decide (is_Some tracked) in
  let '(s, sp, d, dp) :=
    match tracked with
    | None => (captured_source, source_port k, captured_destination, destination_port k)
    | Some e => original_orientation k e
    end in
  let nat := match tracked with None => mkNat false false | Some e => mkNat (source_nat e) (destination_nat e) end in
  let '(ca, cp, ra, rp, dir, sc, pt) := endpoints t s sp d dp in
  Some (mkNormalized ca cp ra rp (subnet <$> segment t s) (subnet <$> segment t d) dir sc pt nat, resolved).

Definition normalize (k : FlowKey) (t : TopologySnapshot) (ctx : ConntrackContext) : option NormalizedFlow :=
  fst <$> normalize_with_resolution k t ctx.

(** ** Facts *)

Definition opposite (d : Direction) : Direction :=
  match d with Upload => Download | Download => Upload | d => d end.

(** The captured tuples under which an entry is found. *)
Definition tuples_of (e : ConntrackEntry) : list FlowTuple :=
  [original e; reply e; reverse_tuple (reply e); reverse_tuple (original e)].

Lemma conntrack_insert_lookup ctx e t :
  conntrack_insert ctx e !! t = if decide (t ∈ tuples_of e) then Some e else ctx !! t.
Proof.
  unfold conntrack_insert, tuples_of. cbn zeta. case_decide as Hin; rewrite !lookup_insert; repeat case_decide; subst; try done;
    set_solver.
Qed.

Lemma conntrack_fold_lookup es ctx t e :
  foldl conntrack_insert ctx es !! t = Some e → ctx !! t = Some e ∨ e ∈ es ∧ t ∈ tuples_of e.
Proof.
  revert ctx. induction es as [|e' es IH]; intros ctx Hl; cbn [foldl] in Hl; [by left|].
  destruct (IH _ Hl) as [Hc|[Hin Ht]]; [|right; set_solver].
  rewrite conntrack_insert_lookup in Hc. case_decide; [|by left]. injection Hc as ->. right. set_solver.
Qed.

Lemma conntrack_resolve_tuple ctx k e :
  conntrack_resolve ctx k = Some e ↔ ∃ t, tuple_from_key k = Some t ∧ ctx !! t = Some e.
Proof. unfold conntrack_resolve. apply bind_Some. Qed.

(** Normalization, once the connection table has answered. *)
Definition oriented (k : FlowKey) (e : ConntrackEntry) (t : TopologySnapshot) : NormalizedFlow :=
  let '(s, sp, d, dp) := original_orientation k e in
  let '(ca, cp, ra, rp, dir, sc, pt) := endpoints t s sp d dp in
  mkNormalized ca cp ra rp (subnet <$> segment t s) (subnet <$> segment t d) dir sc pt
    (mkNat (source_nat e) (destination_nat e)).

Lemma normalize_resolved k t ctx e : conntrack_resolve ctx k = Some e → normalize k t ctx = Some (oriented k e t).
Proof.
  intros Hr. unfold normalize, normalize_with_resolution, oriented.
  destruct (key_addresses k) as [[s d]|] eqn:Ha.
  - cbn. rewrite Hr. destruct (original_orientation k e) as [[[s' sp] d'] dp].
    by destruct (endpoints t s' sp d' dp) as [[[[[[ca cp] ra] rp] dir] sc] pt].
  - unfold conntrack_resolve, tuple_from_key in Hr. by rewrite Ha in Hr.
Qed.

Lemma orientation_addresses k e o : conntrack_orientation k e = Some o → key_addresses k ≠ None.
Proof. unfold conntrack_orientation. by destruct (key_addresses k). Qed.

Lemma original_endpoints k e : conntrack_orientation k e = Some Original →
  original_orientation k e = (tuple_source (original e), tuple_source_port (original e),
                              tuple_destination (original e), tuple_destination_port (original e)).
Proof.
  intros Ho. unfold original_orientation. rewrite bool_decide_eq_false_2 by (by eapply orientation_addresses).
  by rewrite Ho.
Qed.

Lemma reply_endpoints k e : conntrack_orientation k e = Some Reply →
  original_orientation k e = (tuple_destination (original e), tuple_destination_port (original e),
                              tuple_source (original e), tuple_source_port (original e)).
Proof.
  intros Ho. unfold original_orientation. rewrite bool_decide_eq_false_2 by (by eapply orientation_addresses).
  by rewrite Ho.
Qed.

(** Swapping the endpoints keeps who the client is, where one side is the
    gateway or exactly one side is an internal client. *)
Lemma endpoints_swap t s sp d dp ca cp ra rp dir sc pt :
  endpoints t s sp d dp = (ca, cp, ra, rp, dir, sc, pt) → sc = ClientScope ∨ sc = RouterLocalScope →
  endpoints t d dp s sp = (ca, cp, ra, rp, opposite dir, sc, pt).
Proof.
  unfold endpoints. destruct (is_local t s), (is_local t d), (in_tunnel t s), (in_tunnel t d),
    (in_internal t s), (in_internal t d); cbn; intros; simplify_eq; naive_solver.
Qed.

(** The two directions of a tracked connection are one flow: a packet seen
    in the original direction and one seen in the reply direction, before or
    after translation, name the same client and the same remote endpoint, with
    opposite directions, whenever the flow belongs to a client or to the
    gateway itself. *)
Lemma normalize_both_directions t ctx kf kr e f :
  conntrack_resolve ctx kf = Some e → conntrack_resolve ctx kr = Some e →
  conntrack_orientation kf e = Some Original → conntrack_orientation kr e = Some Reply →
  normalize kf t ctx = Some f → flow_scope f = ClientScope ∨ flow_scope f = RouterLocalScope →
  normalize kr t ctx =
    Some (mkNormalized (client_addr f) (client_port f) (remote_addr f) (remote_port f)
            (destination_segment f) (source_segment f) (opposite (flow_direction f)) (flow_scope f)
            (path_type f) (nat f)).
Proof.
  intros Hf Hr Hof Hor. rewrite (normalize_resolved kf t ctx e Hf), (normalize_resolved kr t ctx e Hr).
  unfold oriented. rewrite (original_endpoints kf e Hof), (reply_endpoints kr e Hor).
  destruct (endpoints t (tuple_source _) _ _ _) as [[[[[[ca cp] ra] rp] dir] sc] pt] eqn:He.
  intros [= <-] Hsc. cbn [flow_scope] in Hsc. by rewrite (endpoints_swap _ _ _ _ _ _ _ _ _ _ _ _ He Hsc).
Qed.

Lemma endpoints_pair t s sp d dp ca cp ra rp dir sc pt :
  endpoints t s sp d dp = (ca, cp, ra, rp, dir, sc, pt) →
  (ca, cp, ra, rp) = (s, sp, d, dp) ∨ (ca, cp, ra, rp) = (d, dp, s, sp).
Proof. unfold endpoints. intros. repeat case_match; simplify_eq; auto. Qed.

Lemma endpoints_client t s sp d dp ca cp ra rp dir pt :
  endpoints t s sp d dp = (ca, cp, ra, rp, dir, ClientScope, pt) →
  in_internal t ca = true ∧ in_internal t ra = false ∧ (dir = Upload ∧ ca = s ∨ dir = Download ∧ ca = d).
Proof.
  unfold endpoints. destruct (is_local t s), (is_local t d), (in_tunnel t s), (in_tunnel t d),
    (in_internal t s) eqn:Hs, (in_internal t d) eqn:Hd; cbn; intros; simplify_eq; auto 6.
Qed.

Lemma orientation_pair k e s sp d dp : original_orientation k e = (s, sp, d, dp) →
  (s, sp, d, dp) = (tuple_source (original e), tuple_source_port (original e),
                    tuple_destination (original e), tuple_destination_port (original e)) ∨
  (d, dp, s, sp) = (tuple_source (original e), tuple_source_port (original e),
                    tuple_destination (original e), tuple_destination_port (original e)).
Proof. unfold original_orientation. intros. repeat case_match; simplify_eq; auto. Qed.

(** A flow resolved through connection tracking is attributed to an entry
    of the table that has the captured packet among its tuples, and its two
    endpoints are those of the entry's original, untranslated tuple; the
    client of a client flow lies in an internal segment and its remote peer
    does not. *)
Lemma normalize_attribution es k t f resolved :
  normalize_with_resolution k t (foldl conntrack_insert ∅ es) = Some (f, resolved) →
  (resolved = true → ∃ e captured,
     e ∈ es ∧ tuple_from_key k = Some captured ∧ captured ∈ tuples_of e ∧
     nat f = mkNat (source_nat e) (destination_nat e) ∧
     let o := original e in
     ((client_addr f, client_port f, remote_addr f, remote_port f) =
        (tuple_source o, tuple_source_port o, tuple_destination o, tuple_destination_port o) ∨
      (remote_addr f, remote_port f, client_addr f, client_port f) =
        (tuple_source o, tuple_source_port o, tuple_destination o, tuple_destination_port o))) ∧
  (flow_scope f = ClientScope →
     in_internal t (client_addr f) = true ∧ in_internal t (remote_addr f) = false ∧
     (flow_direction f = Upload ∨ flow_direction f = Download)).
Proof.
  unfold normalize_with_resolution. destruct (key_addresses k) as [[cs cd]|]; cbn; [|done].
  destruct (conntrack_resolve _ k) as [e|] eqn:Hr.
  - destruct (original_orientation k e) as [[[s sp] d] dp] eqn:Ho.
    destruct (endpoints t s sp d dp) as [[[[[[ca cp] ra] rp] dir] sc] pt] eqn:He. intros [= <- <-]. cbn. split.
    + intros _. apply conntrack_resolve_tuple in Hr as (tup & Htup & Hl).
      apply conntrack_fold_lookup in Hl as [Hl|[Hin Ht]]; [by rewrite lookup_empty in Hl|].
      exists e, tup. split_and!; [done..|].
      destruct (endpoints_pair _ _ _ _ _ _ _ _ _ _ _ _ He), (orientation_pair _ _ _ _ _ _ Ho); simplify_eq; auto.
    + intros ->. apply endpoints_client in He. naive_solver.
  - destruct (endpoints _ _ _ _ _) as [[[[[[ca cp] ra] rp] dir] sc] pt] eqn:He. intros [= <- <-]. cbn.
    split; [done|]. intros ->. apply endpoints_client in He. naive_solver.
Qed.

(** ** Examples *)

Module Example.
Definition lan : NetworkSegment :=
  mkSegment (mkPrefix (V4 3232235776) 24) (Some "br-lan") Lan InterfaceAddress 90. (* 192.168.1.0/24 *)
Definition topology : TopologySnapshot :=
  mkTopology Router [] [lan] [] [V4 3232235777] true false false None None None [] 85.
Definition client : IpAddr := V4 3232235796. (* 192.168.1.20 *)
Definition server : IpAddr := V4 16843009. (* 1.1.1.1 *)
Definition wan : IpAddr := V4 3405803781. (* 203.0.113.5 *)
Definition entry : ConntrackEntry :=
  mkEntry (mkTuple 17 client 47000 server 53) (mkTuple 17 server 53 wan 40000) true false.
Definition forward : FlowKey :=
  mkKey 4 17 1 1 7 ([192; 168; 1; 20] ++ replicate 12 0) ([1; 1; 1; 1] ++ replicate 12 0) 47000 53.
(** The reply as it arrives on the WAN side, before its address is translated back. *)
Definition backward : FlowKey :=
  mkKey 4 17 2 1 2 ([1; 1; 1; 1] ++ replicate 12 0) ([203; 0; 113; 5] ++ replicate 12 0) 53 40000.
Definition upload : NormalizedFlow :=
  mkNormalized client 47000 server 53 (Some (subnet lan)) None Upload ClientScope Forwarded (mkNat true false).
Definition download : NormalizedFlow :=
  mkNormalized client 47000 server 53 None (Some (subnet lan)) Download ClientScope Forwarded (mkNat true false).
End Example.

Lemma normalize_both_directions_witness :
  normalize Example.backward Example.topology (conntrack_insert ∅ Example.entry) = Some Example.download.
Proof.
  apply (normalize_both_directions Example.topology (conntrack_insert ∅ Example.entry) Example.forward
           Example.backward Example.entry Example.upload); try (vm_compute; reflexivity). left. reflexivity.
Defined.

Lemma normalize_attribution_witness :
  normalize_with_resolution Example.backward Example.topology (foldl conntrack_insert ∅ [Example.entry]) =
    Some (Example.download, true) ∧
  in_internal Example.topology (client_addr Example.download) = true.
Proof.
  split; [vm_compute; reflexivity|].
  refine (proj1 (proj2 (normalize_attribution [Example.entry] Example.backward Example.topology Example.download true _) _)).
  - vm_compute. reflexivity.
  - reflexivity.
Defined.
