(* ===== verification/Compiler.v ===== *)
(** Snapshot compilation on the collector
    (src/crates/collector/src/policy/compiler.rs): the weekly local-time windows
    of each scheduled policy become UTC intervals over a 30 day horizon, and the
    result a snapshot frame.  Calendar arithmetic and the time-zone database are
    library code (chrono, chrono-tz); they are the operations of [Calendar]. *)

From S2P Require Import Prelude PolicyWire Schedule.

(** ** The calendar *)

(** The answer of [from_local_datetime]: timestamps in milliseconds. *)
Inductive LocalResult := Single (ms : Z) | Ambiguous (first second : Z) | NoLocalTime.

(** A [NaiveDate] is a day number, a [NaiveTime] of a window a minute of the
    day, a [NaiveDateTime] a minute since the day 0; [local_date] and
    [local_time] (weekday, hour and minute) are those of a timestamp in
    milliseconds, where it is one. [wall_clock] is what the clocks of a time
    zone show at a timestamp, in milliseconds since the day 0. *)
Class Calendar := {
  Tz : Type;
  parse_tz : string → option Tz;
  wall_clock : Tz → Z → Z;
  local_date : Tz → Z → option Z;
  local_time : Tz → Z → option (PolicyWeekday * Z * Z);
  weekday : Z → PolicyWeekday;
  succ_opt : Z → option Z;
  parse_hour_minute : string → result string Z;
  from_local_datetime : Tz → Z → LocalResult;
  add_minute : Z → option Z;
}.

Definition MINUTE_MS : Z := 60 * 1000.
Definition DAY_MS : Z := 24 * 60 * MINUTE_MS.

(** [NaiveDate::succ_opt] is the next day and [checked_add_signed] of a minute the
    next minute, where there is one; a date is that of the wall clock, which is less
    than a day from UTC; a time of the day is one; and [from_local_datetime] finds
    exactly the instants at which the wall clock shows a time. *)
Class CalendarLaws `{Calendar} : Prop := {
  succ_opt_next d d' : succ_opt d = Some d' → d' = d + 1;
  add_minute_next m m' : add_minute m = Some m' → m' = m + 1;
  local_date_wall tz t d : local_date tz t = Some d → d = wall_clock tz t / DAY_MS;
  wall_offset tz t : - DAY_MS < wall_clock tz t - t < DAY_MS;
  parse_hour_minute_range x m : parse_hour_minute x = Ok m → 0 ≤ m < 1440;
  from_local_exact tz m : match from_local_datetime tz m with
    | Single t => ∀ x, wall_clock tz x = m * MINUTE_MS ↔ x = t
    | Ambiguous a b => ∀ x, wall_clock tz x = m * MINUTE_MS ↔ x = a ∨ x = b
    | NoLocalTime => ∀ x, wall_clock tz x ≠ m * MINUTE_MS
    end;
}.

Definition SCHEDULE_HORIZON_MS : Z := 30 * 24 * 60 * 60 * 1000.

Section compiler.
Context `{PolicyCodec} `{Calendar}.

Definition weekday_matches (day : PolicyWeekday) (date : Z) : bool := bool_decide (day = weekday date).

(** The loop [for _ in 0..=180] of [resolve_local]. *)
Fixpoint resolve_local_loop (attempts : nat) (tz : Tz) (candidate : Z) (is_start : bool) : result string Z :=
  match attempts with
  | O => Err "schedule local time is not valid within three hours"
  | S attempts =>
    match from_local_datetime tz candidate with
    | Single ms => Ok ms
    | Ambiguous first second => Ok (if is_start then Z.min first second else Z.max first second)
    | NoLocalTime =>
      candidate ← ok_or (add_minute candidate) "schedule local time overflow";
      resolve_local_loop attempts tz candidate is_start
    end
  end.

Definition resolve_local (tz : Tz) (local : Z) (is_start : bool) : result string Z :=
  resolve_local_loop 181 tz local is_start.

(** [date.and_time(time)]. *)
Definition and_time (date minute : Z) : Z := date * 1440 + minute.

(** The body of the loop over windows, for a day the window names: its UTC
    bounds, before they are cut to the horizon. *)
Definition window_bounds (tz : Tz) (date : Z) (w : PolicyScheduleWindow) : result string (Z * Z) :=
  s ← map_err (String.append "invalid schedule start: ") (parse_hour_minute (window_start w));
  e ← map_err (String.append "invalid schedule end: ") (parse_hour_minute (window_end w));
  if e <=? s then Err "schedule windows must end after they start"
  else
    start ← resolve_local tz (and_time date s) true;
    fin ← resolve_local tz (and_time date e) false;
    Ok (start, fin).

Definition expand_window (tz : Tz) (from_ms until_ms date : Z) (ivs : list PolicyScheduleInterval)
    (w : PolicyScheduleWindow) : result string (list PolicyScheduleInterval) :=
  if negb (existsb (λ day, weekday_matches day date) (days w)) then Ok ivs
  else
    '(start, fin) ← window_bounds tz date w;
    if fin <=? start then Ok ivs
    else
      let start_ms := Z.max start from_ms in
      let end_ms := Z.min fin until_ms in
      if start_ms <? end_ms then Ok (ivs ++ [mkInterval start_ms end_ms]) else Ok ivs.

(** [while date <= local_end]; [fuel] bounds the days left. *)
Fixpoint expand_days (fuel : nat) (tz : Tz) (ws : list PolicyScheduleWindow) (from_ms until_ms local_end date : Z)
    (ivs : list PolicyScheduleInterval) : result string (list PolicyScheduleInterval) :=
  match fuel with
  | O => Ok ivs
  | S fuel =>
    if date <=? local_end then
      ivs ← foldM (expand_window tz from_ms until_ms date) ivs ws;
      date ← ok_or (succ_opt date) "schedule date overflow";
      expand_days fuel tz ws from_ms until_ms local_end date ivs
    else Ok ivs
  end.

Definition merge_step (merged : list PolicyScheduleInterval) (i : PolicyScheduleInterval) : list PolicyScheduleInterval :=
  match last merged with
  | Some previous =>
    if start_ms i <=? end_ms previous
    then removelast merged ++ [mkInterval (start_ms previous) (Z.max (end_ms previous) (end_ms i))]
    else merged ++ [i]
  | None => merged ++ [i]
  end.

Definition expand_schedule (s : PolicySpecV1) (from_ms until_ms : Z) : result string (list PolicyScheduleInterval) :=
  sch ← ok_or (schedule s) "scheduled policy is missing its schedule";
  tz ← ok_or (parse_tz (timezone sch)) (String.append "unknown IANA timezone " (timezone sch));
  local_start ← ok_or (local_date tz from_ms) "invalid schedule start timestamp";
  local_end ← ok_or (local_date tz until_ms) "invalid schedule end timestamp";
  ivs ← expand_days (Z.to_nat (local_end - local_start + 1)) tz (windows sch) from_ms until_ms local_end local_start [];
  Ok (foldl merge_step [] (sort_by interval_leb ivs)).

Definition compile_policy (from_ms until_ms : Z) (acc : list PolicyScheduleIntervals) (p : PolicySnapshotEntry)
    : result string (list PolicyScheduleIntervals) :=
  match schedule (spec p) with
  | Some _ => ivs ← expand_schedule (spec p) from_ms until_ms; Ok (acc ++ [mkIntervals (id p) ivs])
  | None => Ok acc
  end.

Definition compile_snapshot (gateway_id controller_epoch : string) (bundle_generation generated_at config_revision : Z)
    (policies : list PolicySnapshotEntry) : result string PolicyWireFrame :=
  let valid_until := generated_at + SCHEDULE_HORIZON_MS in
  _ ← reject_if (i64_max <? valid_until) "schedule horizon timestamp overflow";
  ss ← foldM (compile_policy generated_at valid_until) [] policies;
  snapshot gateway_id controller_epoch config_revision bundle_generation generated_at valid_until policies ss.

End compiler.

(** ** Merging *)

Definition covered (l : list PolicyScheduleInterval) (t : Z) : Prop := ∃ i, i ∈ l ∧ start_ms i ≤ t < end_ms i.

(** Non-empty intervals with a gap between any two. *)
Definition separated (l : list PolicyScheduleInterval) : Prop :=
  StronglySorted (λ a b, end_ms a < start_ms b) l ∧ Forall (λ i, start_ms i < end_ms i) l.

Lemma covered_app l1 l2 t : covered (l1 ++ l2) t ↔ covered l1 t ∨ covered l2 t.
Proof. unfold covered. set_solver. Qed.

Lemma covered_one i t : covered [i] t ↔ start_ms i ≤ t < end_ms i.
Proof. unfold covered. set_solver. Qed.

Lemma covered_perm l1 l2 t : l1 ≡ₚ l2 → covered l1 t ↔ covered l2 t.
Proof. intros Hp. unfold covered. by setoid_rewrite Hp. Qed.

Lemma separated_snoc l i : separated (l ++ [i]) ↔
  separated l ∧ start_ms i < end_ms i ∧ Forall (λ a, end_ms a < start_ms i) l.
Proof.
  unfold separated. rewrite StronglySorted_app, Forall_app, Forall_singleton, !Forall_forall. split.
  - intros [(Ha & Hs & _) [Hl Hi]]. split_and!; [done|done|done|]. intros a Hin. apply Ha; set_solver.
  - intros [[Hs Hl] [Hi Hg]]. split; [|done]. split_and!; [|done|repeat constructor].
    intros a b Hin ->%list_elem_of_singleton. auto.
Qed.

(** What merging keeps true before the intervals [rest]. *)
Record merging (m rest : list PolicyScheduleInterval) : Prop := {
  mg_separated : separated m;
  mg_nonempty : Forall (λ i, start_ms i < end_ms i) rest;
  mg_sorted : StronglySorted (λ a b, interval_leb a b = true) rest;
  mg_last : ∀ p i, last m = Some p → i ∈ rest → start_ms p ≤ start_ms i;
}.

Lemma merge_step_merging m i rest : merging m (i :: rest) →
  merging (merge_step m i) rest ∧ ∀ t, covered (merge_step m i) t ↔ covered m t ∨ start_ms i ≤ t < end_ms i.
Proof.
  intros [Hsep Hne Hsort Hlast]. apply Forall_cons in Hne as [Hi Hrest]. apply StronglySorted_inv in Hsort as [Hs Hall].
  assert (∀ j, j ∈ rest → start_ms i ≤ start_ms j) as Hle.
  { intros j Hj. rewrite Forall_forall in Hall. specialize (Hall j Hj). unfold interval_leb in Hall. lia. }
  unfold merge_step. destruct m as [|p m _] using rev_ind; cbn [last].
  { cbn. split; [split; [repeat constructor; lia|done|done|]|].
    - intros p j [= <-]. apply Hle.
    - intros t. rewrite covered_one. unfold covered. set_solver. }
  rewrite last_snoc, removelast_last. apply separated_snoc in Hsep as (Hm & Hp & Hgap).
  assert (start_ms p ≤ start_ms i) as Hpi by (apply Hlast; [by rewrite last_snoc|left]).
  destruct (start_ms i <=? end_ms p) eqn:Hov.
  - split; [split; [|done|done|]|].
    + apply separated_snoc. cbn. split_and!; [done|lia|done].
    + intros q j. rewrite last_snoc. intros [= <-] Hj. cbn. specialize (Hle j Hj). lia.
    + intros t. rewrite !covered_app, !covered_one. cbn. enough ((start_ms p ≤ t < Z.max (end_ms p) (end_ms i)) ↔
        (start_ms p ≤ t < end_ms p) ∨ (start_ms i ≤ t < end_ms i)) by tauto. lia.
  - split; [split; [|done|done|]|].
    + apply separated_snoc. split_and!; [by apply separated_snoc|done|]. apply Forall_app. split.
      * eapply Forall_impl; [exact Hgap|]. cbn. intros a Ha. lia.
      * apply Forall_singleton. lia.
    + intros q j. rewrite last_snoc. intros [= <-]. apply Hle.
    + intros t. by rewrite covered_app, covered_one.
Qed.

Lemma merge_all rest m : merging m rest →
  separated (foldl merge_step m rest) ∧ ∀ t, covered (foldl merge_step m rest) t ↔ covered m t ∨ covered rest t.
Proof.
  revert m. induction rest as [|i rest IH]; intros m Hm; cbn [foldl].
  { split; [apply Hm|]. intros t. unfold covered. set_solver. }
  apply merge_step_merging in Hm as [Hm Hc]. destruct (IH _ Hm) as [Hs Ht]. split; [done|].
  intros t. rewrite Ht, Hc. change (i :: rest) with ([i] ++ rest). rewrite covered_app, covered_one. tauto.
Qed.

Lemma merge_sorted ivs : Forall (λ i, start_ms i < end_ms i) ivs →
  separated (foldl merge_step [] (sort_by interval_leb ivs)) ∧
  ∀ t, covered (foldl merge_step [] (sort_by interval_leb ivs)) t ↔ covered ivs t.
Proof.
  intros Hne. destruct (merge_all (sort_by interval_leb ivs) []) as [Hs Hc].
  - split; [repeat constructor|by rewrite sort_by_perm|apply sort_by_sorted; [apply interval_leb_total|apply interval_leb_trans]|done].
  - split; [done|]. intros t. rewrite Hc, (covered_perm _ _ t (sort_by_perm interval_leb ivs)). unfold covered. set_solver.
Qed.

(** ** Expansion *)

Section expansion.
Context `{PolicyCodec} `{Calendar}.

(** The UTC interval a window contributes on one local day. *)
Definition window_yields (tz : Tz) (from_ms until_ms date : Z) (w : PolicyScheduleWindow) (i : PolicyScheduleInterval) : Prop :=
  weekday date ∈ days w ∧ ∃ s e, window_bounds tz date w = Ok (s, e) ∧
    i = mkInterval (Z.max s from_ms) (Z.min e until_ms) ∧ s < e ∧ start_ms i < end_ms i.

Lemma expand_window_elem tz from_ms until_ms date ivs w ivs' i :
  expand_window tz from_ms until_ms date ivs w = Ok ivs' →
  i ∈ ivs' ↔ i ∈ ivs ∨ window_yields tz from_ms until_ms date w i.
Proof.
  unfold expand_window, window_yields.
  destruct (existsb _ _) eqn:Hday; cbn [negb].
  - apply existsb_exists in Hday as (day & Hin%list_elem_of_In & Hd). apply bool_decide_eq_true in Hd as ->.
    intros ([s e] & Hw & Hr)%bind_Ok. rewrite Hw.
    destruct (e <=? s) eqn:Hse; [|cbn zeta in Hr; destruct (_ <? _) eqn:Hlt]; injection Hr as <-; rewrite ?elem_of_app, ?list_elem_of_singleton.
    + split; [by left|]. intros [?|(_ & s' & e' & [= <- <-] & _ & ? & _)]; [done|lia].
    + split.
      * intros [?| ->]; [by left|]. right. split; [done|]. exists s, e. split_and!; [done|done|lia|cbn; lia].
      * intros [?|(_ & s' & e' & [= <- <-] & -> & _)]; [by left|by right].
    + split; [by left|]. intros [?|(_ & s' & e' & [= <- <-] & -> & _ & Hc)]; [done|]. cbn in Hc. lia.
  - intros [= <-]. split; [by left|]. intros [?|[Hin _]]; [done|].
    rewrite existsb_false, Forall_forall in Hday. specialize (Hday _ Hin). by apply bool_decide_eq_false in Hday.
Qed.

Lemma expand_windows_elem tz from_ms until_ms date ws ivs ivs' i :
  foldM (expand_window tz from_ms until_ms date) ivs ws = Ok ivs' →
  i ∈ ivs' ↔ i ∈ ivs ∨ ∃ w, w ∈ ws ∧ window_yields tz from_ms until_ms date w i.
Proof.
  revert ivs. induction ws as [|w ws IH]; intros ivs Hf; cbn [foldM] in Hf; [injection Hf as <-; set_solver|].
  apply bind_Ok in Hf as (mid & Hw & Hf). rewrite (IH _ Hf), (expand_window_elem _ _ _ _ _ _ _ _ Hw). set_solver.
Qed.

Context `{!CalendarLaws}.

Lemma expand_days_elem fuel tz ws from_ms until_ms local_end date ivs ivs' i :
  local_end - date + 1 ≤ Z.of_nat fuel →
  expand_days fuel tz ws from_ms until_ms local_end date ivs = Ok ivs' →
  i ∈ ivs' ↔ i ∈ ivs ∨ ∃ day w, date ≤ day ≤ local_end ∧ w ∈ ws ∧ window_yields tz from_ms until_ms day w i.
Proof.
  revert date ivs. induction fuel as [|fuel IH]; intros date ivs Hfuel; cbn [expand_days].
  { intros [= <-]. split; [by left|]. intros [?|(day & w & ? & _)]; [done|lia]. }
  destruct (date <=? local_end) eqn:Hd.
  - intros (mid & Hw & Hr)%bind_Ok. apply bind_Ok in Hr as (next & Hn & Hr). apply ok_or_Ok, succ_opt_next in Hn as ->.
    rewrite (IH (date + 1) mid), (expand_windows_elem _ _ _ _ _ _ _ _ Hw) by (done || lia). split.
    + intros [[?|(w & ? & ?)]|(day & w & ? & ? & ?)]; [by left|right; exists date, w; split_and!; (done || lia)|].
      right. exists day, w. split_and!; (done || lia).
    + intros [?|(day & w & ? & ? & ?)]; [by left; left|]. destruct (decide (day = date)) as [->|].
      * left. right. eauto.
      * right. exists day, w. split_and!; (done || lia).
  - intros [= <-]. split; [by left|]. intros [?|(day & w & ? & _)]; [done|lia].
Qed.

(** ** By the clocks of the time zone *)

(** The instant for a time of the wall clock, given as a minute: of the first
    minute from there on that the clock shows at all, within three hours, the first
    time it is shown for a start and the last time for an end. *)
Definition instant_of (tz : Tz) (local : Z) (is_start : bool) (t : Z) : Prop :=
  ∃ m, local ≤ m ≤ local + 180 ∧ (∀ m' x, local ≤ m' < m → wall_clock tz x ≠ m' * MINUTE_MS) ∧ wall_clock tz t = m * MINUTE_MS ∧
    ∀ x, wall_clock tz x = m * MINUTE_MS → if is_start then t ≤ x else x ≤ t.

Lemma instant_of_unique tz local is_start t t' : instant_of tz local is_start t → instant_of tz local is_start t' → t = t'.
Proof.
  intros (m & Hm & Hskip & Ht & Hext) (m' & Hm' & Hskip' & Ht' & Hext'). assert (m = m') as <-.
  { destruct (Z.lt_trichotomy m m') as [Hlt|[->|Hlt]]; [|done|]; exfalso; [by apply (Hskip' m t); [lia|]|by apply (Hskip m' t'); [lia|]]. }
  specialize (Hext t' Ht'). specialize (Hext' t Ht). destruct is_start; lia.
Qed.

Lemma resolve_loop_instant attempts tz local candidate is_start t : local ≤ candidate → candidate + Z.of_nat attempts ≤ local + 181 →
  (∀ m' x, local ≤ m' < candidate → wall_clock tz x ≠ m' * MINUTE_MS) →
  resolve_local_loop attempts tz candidate is_start = Ok t → instant_of tz local is_start t.
Proof.
  revert candidate. induction attempts as [|n IH]; intros c Hle Hn Hskip; cbn [resolve_local_loop]; [done|].
  pose proof (from_local_exact tz c) as Hl. destruct (from_local_datetime tz c) as [ms|a b|].
  - intros [= <-]. exists c. split; [lia|]. split; [done|]. split; [by apply Hl|]. intros x ->%Hl. destruct is_start; lia.
  - intros [= <-]. exists c. split; [lia|]. split; [done|]. split; [apply Hl; destruct is_start; lia|]. intros x Hx%Hl. destruct is_start; lia.
  - intros (c' & Hc' & Hr)%bind_Ok. apply ok_or_Ok, add_minute_next in Hc' as ->. apply (IH (c + 1)); [lia|lia| |done].
    intros m' x Hm'. destruct (decide (m' = c)) as [->|]; [apply Hl|apply Hskip; lia].
Qed.

Lemma resolve_local_instant tz local is_start t : resolve_local tz local is_start = Ok t → instant_of tz local is_start t.
Proof. apply resolve_loop_instant; [lia|lia|]. lia. Qed.

(** When a window that begins on a local day holds. *)
Definition window_holds (tz : Tz) (day : Z) (w : PolicyScheduleWindow) (t : Z) : Prop :=
  ∃ s e first last, weekday day ∈ days w ∧ parse_hour_minute (window_start w) = Ok s ∧ parse_hour_minute (window_end w) = Ok e ∧ s < e ∧
    instant_of tz (day * 1440 + s) true first ∧ instant_of tz (day * 1440 + e) false last ∧ first ≤ t < last.

Lemma window_bounds_instants tz day w first last : window_bounds tz day w = Ok (first, last) →
  ∃ s e, parse_hour_minute (window_start w) = Ok s ∧ parse_hour_minute (window_end w) = Ok e ∧ s < e ∧
    instant_of tz (day * 1440 + s) true first ∧ instant_of tz (day * 1440 + e) false last.
Proof.
  unfold window_bounds. destruct (parse_hour_minute (window_start w)) as [s|]; [|done]. destruct (parse_hour_minute (window_end w)) as [e|]; [|done].
  cbn [map_err mbind result_bind]. destruct (Z.leb_spec e s); [done|]. intros (f & Hf & Hr)%bind_Ok. apply bind_Ok in Hr as (l & Hl & [= <- <-]).
  exists s, e. split_and!; [done|done|lia|by apply resolve_local_instant|by apply resolve_local_instant].
Qed.

Lemma window_holds_bounds tz day w first last t : weekday day ∈ days w → window_bounds tz day w = Ok (first, last) →
  window_holds tz day w t ↔ first ≤ t < last.
Proof.
  intros Hd (s & e & Hs & He & Hse & Hf & Hl)%window_bounds_instants. split; [|intros Ht; by exists s, e, first, last].
  intros (s' & e' & f & l & _ & Hs' & He' & _ & Hf' & Hl' & Ht). rewrite Hs in Hs'. rewrite He in He'. injection Hs' as <-. injection He' as <-.
  by rewrite (instant_of_unique _ _ _ _ _ Hf Hf'), (instant_of_unique _ _ _ _ _ Hl Hl').
Qed.

(** A compilation that succeeds has resolved every window of every day. *)
Lemma expand_window_resolved tz from_ms until_ms date ivs w ivs' : expand_window tz from_ms until_ms date ivs w = Ok ivs' → weekday date ∈ days w →
  ∃ b, window_bounds tz date w = Ok b.
Proof.
  unfold expand_window. intros He Hin. assert (existsb (λ day, weekday_matches day date) (days w) = true) as Hex
    by (apply existsb_exists; exists (weekday date); split; [by apply list_elem_of_In|by apply bool_decide_eq_true]).
  rewrite Hex in He. cbn [negb] in He. apply bind_Ok in He as (b & Hb & _). eauto.
Qed.

Lemma expand_windows_resolved tz from_ms until_ms date ws ivs ivs' w : foldM (expand_window tz from_ms until_ms date) ivs ws = Ok ivs' → w ∈ ws →
  weekday date ∈ days w → ∃ b, window_bounds tz date w = Ok b.
Proof.
  intros Hf Hw. revert ivs Hf. induction Hw as [w ws|w v ws _ IH]; intros ivs Hf Hd; cbn [foldM] in Hf; apply bind_Ok in Hf as (mid & Hm & Hf).
  - by eapply expand_window_resolved.
  - by eapply IH.
Qed.

Lemma expand_days_resolved fuel tz ws from_ms until_ms local_end date ivs ivs' day w : local_end - date + 1 ≤ Z.of_nat fuel →
  expand_days fuel tz ws from_ms until_ms local_end date ivs = Ok ivs' → date ≤ day ≤ local_end → w ∈ ws → weekday day ∈ days w → ∃ b, window_bounds tz day w = Ok b.
Proof.
  revert date ivs. induction fuel as [|fuel IH]; intros date ivs Hfuel He Hday Hw Hd; [lia|]. cbn [expand_days] in He. rewrite (proj2 (Z.leb_le date local_end)) in He by lia.
  apply bind_Ok in He as (mid & Hm & He). apply bind_Ok in He as (next & Hn & He). apply ok_or_Ok, succ_opt_next in Hn as ->.
  destruct (decide (day = date)) as [->|]; [by eapply expand_windows_resolved|]. apply (IH (date + 1) mid); [lia|done|lia|done|done].
Qed.

(** The instants at which the windows of a schedule hold that begin on one of the
    local days of the horizon. *)
Definition in_windows (sch : PolicySchedule) (from_ms until_ms t : Z) : Prop :=
  ∃ tz day w, parse_tz (timezone sch) = Some tz ∧ wall_clock tz from_ms / DAY_MS ≤ day ≤ wall_clock tz until_ms / DAY_MS ∧ w ∈ windows sch ∧ window_holds tz day w t.

(** Linear arithmetic with the lengths of a day and of a minute. *)
Ltac ms_lia := change DAY_MS with 86400000 in *; change MINUTE_MS with 60000 in *; Z.to_euclidean_division_equations; lia.

(** While the clocks are not changed, a time of the wall clock is one instant. *)
Definition steady (tz : Tz) (from_ms until_ms offset : Z) : Prop :=
  ∀ x, from_ms - 3 * DAY_MS ≤ x ≤ until_ms + 3 * DAY_MS → wall_clock tz x = x + offset.

(** The wall clock shows a time within a window of the weekday it shows. *)
Definition by_wall_clock (tz : Tz) (sch : PolicySchedule) (t : Z) : Prop :=
  ∃ w s e, w ∈ windows sch ∧ weekday (wall_clock tz t / DAY_MS) ∈ days w ∧
    parse_hour_minute (window_start w) = Ok s ∧ parse_hour_minute (window_end w) = Ok e ∧
    s * MINUTE_MS ≤ wall_clock tz t mod DAY_MS < e * MINUTE_MS.

Lemma steady_instant tz from_ms until_ms offset local is_start t : steady tz from_ms until_ms offset →
  from_ms - DAY_MS ≤ local * MINUTE_MS - offset ≤ until_ms + DAY_MS →
  instant_of tz local is_start t ↔ t = local * MINUTE_MS - offset.
Proof.
  intros Hst Hr. assert (wall_clock tz (local * MINUTE_MS - offset) = local * MINUTE_MS) as Hw by (rewrite Hst; [lia|ms_lia]).
  assert (∀ x, wall_clock tz x = local * MINUTE_MS → x = local * MINUTE_MS - offset) as Hu.
  { intros x Hx. pose proof (wall_offset tz x). pose proof (wall_offset tz (local * MINUTE_MS - offset)). rewrite Hst in Hx; [lia|ms_lia]. }
  split.
  - intros (m & Hm & Hskip & Ht & _). destruct (decide (m = local)) as [->|]; [by apply Hu|]. exfalso. by apply (Hskip local (local * MINUTE_MS - offset)); [lia|].
  - intros ->. exists local. split; [lia|]. split; [lia|]. split; [done|]. intros x ->%Hu. destruct is_start; lia.
Qed.

Lemma steady_windows sch tz from_ms until_ms offset t : parse_tz (timezone sch) = Some tz → steady tz from_ms until_ms offset → from_ms ≤ t < until_ms →
  in_windows sch from_ms until_ms t ↔ by_wall_clock tz sch t.
Proof.
  intros Htz Hst Ht. pose proof (Hst t ltac:(ms_lia)) as Hwt. pose proof (Hst from_ms ltac:(ms_lia)) as Hwf.
  pose proof (Hst until_ms ltac:(ms_lia)) as Hwu. unfold in_windows, by_wall_clock, window_holds.
  assert (∀ day m, wall_clock tz from_ms / DAY_MS ≤ day ≤ wall_clock tz until_ms / DAY_MS → 0 ≤ m < 1440 →
    from_ms - DAY_MS ≤ (day * 1440 + m) * MINUTE_MS - offset ≤ until_ms + DAY_MS) as Hnear.
  { intros day m. rewrite Hwf, Hwu. ms_lia. }
  split.
  - intros (tz' & day & w & Htz' & Hday & Hw & s & e & f & l & Hwd & Hs & He & Hse & Hf & Hl & Hfl). rewrite Htz in Htz'. injection Htz' as <-.
    pose proof (parse_hour_minute_range _ _ Hs). pose proof (parse_hour_minute_range _ _ He).
    apply (steady_instant tz from_ms until_ms offset) in Hf, Hl; [|done|by apply Hnear|done|by apply Hnear].
    assert (wall_clock tz t / DAY_MS = day) as Hd by (rewrite Hwt; ms_lia). exists w, s, e. rewrite Hd.
    split_and!; [done|done|done|done| |]; rewrite Hwt in *; ms_lia.
  - intros (w & s & e & Hw & Hwd & Hs & He & Hse). pose proof (parse_hour_minute_range _ _ Hs). pose proof (parse_hour_minute_range _ _ He).
    assert (wall_clock tz from_ms / DAY_MS ≤ wall_clock tz t / DAY_MS ≤ wall_clock tz until_ms / DAY_MS) as Hday by (rewrite Hwf, Hwu, Hwt; ms_lia).
    exists tz, (wall_clock tz t / DAY_MS), w. split; [done|]. split; [done|]. split; [done|]. eexists s, e, _, _. split; [done|]. split; [done|]. split; [done|].
    split; [ms_lia|]. split; [apply (steady_instant tz from_ms until_ms offset); [done|by apply Hnear|reflexivity]|].
    split; [apply (steady_instant tz from_ms until_ms offset); [done|by apply Hnear|reflexivity]|]. rewrite Hwt in *. ms_lia.
Qed.

Lemma expand_schedule_covers sp sch from_ms until_ms merged :
  schedule sp = Some sch → expand_schedule sp from_ms until_ms = Ok merged →
  separated merged ∧ ∀ t, covered merged t ↔ from_ms ≤ t < until_ms ∧ in_windows sch from_ms until_ms t.
Proof.
  intros Hsch. unfold expand_schedule. rewrite Hsch. cbn [ok_or mbind result_bind].
  intros (tz & Htz & Hr)%bind_Ok. apply bind_Ok in Hr as (ls & Hls & Hr). apply bind_Ok in Hr as (le & Hle & Hr).
  apply bind_Ok in Hr as (ivs & Hdays & [= <-]). apply ok_or_Ok in Htz, Hls, Hle.
  assert (le - ls + 1 ≤ Z.of_nat (Z.to_nat (le - ls + 1))) as Hfuel by lia.
  pose proof (λ i, expand_days_elem _ _ _ _ _ _ _ _ _ i Hfuel Hdays) as Helem.
  destruct (merge_sorted ivs) as [Hsep Hcov].
  { apply Forall_forall. intros i [[]%elem_of_nil|(day & w & _ & _ & _ & s & e & _ & _ & _ & ?)]%Helem. done. }
  pose proof (λ day w, expand_days_resolved _ _ _ _ _ _ _ _ _ day w Hfuel Hdays) as Hres. apply local_date_wall in Hls, Hle. subst ls le.
  split; [done|]. intros t. rewrite Hcov. unfold covered, in_windows. setoid_rewrite Helem. split.
  - intros (i & [[]%elem_of_nil|(day & w & Hday & Hw & Hin & s & e & Hb & -> & _ & _)] & Ht). cbn in Ht.
    split; [lia|]. exists tz, day, w. split_and!; [done|lia|lia|done|]. apply (window_holds_bounds tz day w s e t Hin Hb). lia.
  - intros (Hft & tz' & day & w & Htz' & Hday & Hw & Hh). rewrite Htz in Htz'. injection Htz' as <-.
    assert (weekday day ∈ days w) as Hin by (by destruct Hh as (? & ? & ? & ? & ? & _)). destruct (Hres day w Hday Hw Hin) as [[s e] Hb].
    apply (window_holds_bounds tz day w s e t Hin Hb) in Hh.
    exists (mkInterval (Z.max s from_ms) (Z.min e until_ms)). cbn. split; [|lia]. right. exists day, w.
    split; [lia|]. split; [done|]. split; [done|]. exists s, e. split_and!; [done|done|lia|cbn; lia].
Qed.

Lemma separated_bounds l from_ms until_ms : separated l → (∀ t, covered l t → from_ms ≤ t < until_ms) →
  Forall (λ i, from_ms ≤ start_ms i ∧ end_ms i ≤ until_ms) l.
Proof.
  intros [_ Hne] Hc. apply Forall_forall. intros i Hi. rewrite Forall_forall in Hne. specialize (Hne i Hi).
  pose proof (Hc (start_ms i) ltac:(exists i; split; [done|lia])).
  pose proof (Hc (end_ms i - 1) ltac:(exists i; split; [done|lia])). lia.
Qed.

Lemma compile_policies_elem from_ms until_ms ps acc ss e :
  foldM (compile_policy from_ms until_ms) acc ps = Ok ss →
  e ∈ ss ↔ e ∈ acc ∨ ∃ p ivs, p ∈ ps ∧ is_Some (schedule (spec p)) ∧
    expand_schedule (spec p) from_ms until_ms = Ok ivs ∧ e = mkIntervals (id p) ivs.
Proof.
  revert acc. induction ps as [|p ps IH]; intros acc Hf; cbn [foldM] in Hf; [injection Hf as <-; set_solver|].
  apply bind_Ok in Hf as (mid & Hp & Hf). rewrite (IH _ Hf). unfold compile_policy in Hp.
  destruct (schedule (spec p)) as [sch|] eqn:Hsch.
  - apply bind_Ok in Hp as (ivs & Hivs & [= <-]). rewrite elem_of_app, list_elem_of_singleton. split.
    + intros [[?| ->]|(q & ivs' & ? & ?)]; [by left|right; exists p, ivs; rewrite Hsch; set_solver|].
      right. exists q, ivs'. set_solver.
    + intros [?|(q & ivs' & [->|?]%elem_of_cons & Hs & Hq & ->)]; [by left; left| |right; eauto 10].
      left. right. congruence.
  - injection Hp as <-. split.
    + intros [?|(q & ivs' & ? & ?)]; [by left|]. right. exists q, ivs'. set_solver.
    + intros [?|(q & ivs' & [->|?]%elem_of_cons & Hs & Hq & ->)]; [by left| |right; eauto 10].
      rewrite Hsch in Hs. by destruct Hs.
Qed.

Lemma snapshot_Ok gw ep rev gen gat val ps ss frame : snapshot gw ep rev gen gat val ps ss = Ok frame →
  ∃ f, frame = PolicySnapshot f ∧ generated_at_ms f = gat ∧ valid_until_ms f = val ∧
    policies f = canonical_policies ps ∧ schedule_intervals f = canonical_schedules ss ∧ snapshot_fields_wf f.
Proof.
  unfold snapshot. cbn zeta. intros (sum & _ & Hr)%bind_Ok. apply check_seq in Hr as [Hv Hr].
  apply bind_Ok in Hr as (enc & _ & Hr). apply check_seq in Hr as [_ [= <-]].
  eexists. split_and!; try done. by apply validate_snapshot_wf in Hv as [? _ _].
Qed.

(** Separated intervals are in canonical order already. *)
Lemma sort_by_separated l l' : separated l → l' ≡ₚ l → sort_by interval_leb l' = l.
Proof.
  intros [Hs Hne] Hp. rewrite (sort_by_unique interval_leb l' l); [| | | |done].
  - apply sort_by_id. clear Hp. induction Hs as [|a l Hs IH Hall]; [constructor|].
    apply Forall_cons in Hne as [Ha Hne]. constructor; [auto|]. eapply Forall_impl; [exact Hall|].
    intros b Hb. unfold interval_leb. cbn in Hb. lia.
  - apply interval_leb_total.
  - apply interval_leb_trans.
  - intros [s e] [s' e'] _ _. unfold interval_leb. cbn. intros. f_equal; lia.
Qed.

(** The intervals of a policy in the compiled frame. *)
Lemma compiled_intervals f from_ms until_ms ps ss p sch :
  foldM (compile_policy from_ms until_ms) [] ps = Ok ss → snapshot_fields_wf f →
  schedule_intervals f = canonical_schedules ss → NoDup (id <$> ps) → p ∈ ps → schedule (spec p) = Some sch →
  ∃ e ivs, find_intervals (schedule_intervals f) (id p) = Some e ∧
    expand_schedule (spec p) from_ms until_ms = Ok ivs ∧ intervals e ≡ₚ ivs.
Proof.
  intros Hss Hwf Hf Hnd Hp Hsch.
  assert (∃ ivs, expand_schedule (spec p) from_ms until_ms = Ok ivs) as [ivs Hivs].
  { clear -Hss Hp Hsch. revert Hss. generalize (@nil PolicyScheduleIntervals) as acc.
    induction Hp as [p ps|p q ps Hp IH]; intros acc Hss; cbn [foldM] in Hss; apply bind_Ok in Hss as (mid & Hm & Hss).
    - unfold compile_policy in Hm. rewrite Hsch in Hm. apply bind_Ok in Hm as (ivs & ? & _). eauto.
    - by eapply IH. }
  assert (mkIntervals (id p) ivs ∈ ss) as Hin.
  { apply (compile_policies_elem _ _ _ _ _ _ Hss). right. exists p, ivs. by rewrite Hsch. }
  assert (sort_intervals (mkIntervals (id p) ivs) ∈ schedule_intervals f) as Hin'.
  { rewrite Hf. unfold canonical_schedules. apply list_elem_of_fmap. eexists. split; [done|]. by rewrite elem_of_sort_by. }
  destruct (find_intervals (schedule_intervals f) (id p)) as [e|] eqn:Hfind.
  - exists e, ivs. split_and!; [done|done|]. apply find_Some_elem in Hfind as [He Hid]. apply String.eqb_eq in Hid.
    assert (e = sort_intervals (mkIntervals (id p) ivs)) as ->.
    { eapply (NoDup_key_inj policy_id); [apply strict_keys_NoDup, (fw_schedules_sorted _ Hwf)|done|done|done]. }
    cbn. apply sort_by_perm.
  - exfalso. unfold find_intervals in Hfind.
    pose proof (find_none _ _ Hfind (sort_intervals (mkIntervals (id p) ivs)) ltac:(by apply list_elem_of_In)) as Hne.
    cbn in Hne. by rewrite String.eqb_refl in Hne.
Qed.

(** C28: The collector's compilation and the agent's evaluation agree on when a
    policy is in force: a compiled snapshot carries exactly the given policies
    for 30 days, the intervals of each schedule are separated and within the
    horizon, and at every instant of it the agent finds a scheduled policy
    active exactly when one of its windows holds by the clocks of its time
    zone: on a local day of the horizon with a weekday of the window, from the first instant
    the clock shows the start until the last instant it shows the end, a time
    the clock skips standing for the first later minute it shows (within three
    hours).  Where the clocks are not changed in or within three days of the
    horizon, that is exactly when the clock shows a weekday and a time of a
    window. *)
Theorem compiled_schedule_evaluates gw ep gen gat rev ps frame :
  compile_snapshot gw ep gen gat rev ps = Ok frame →
  ∃ f, frame = PolicySnapshot f ∧ validate_snapshot_fields f = Ok tt ∧ policies f ≡ₚ ps ∧
    generated_at_ms f = gat ∧ valid_until_ms f = gat + SCHEDULE_HORIZON_MS ∧
    ∀ p sch, p ∈ ps → schedule (spec p) = Some sch →
      (∃ e, find_intervals (schedule_intervals f) (id p) = Some e ∧ separated (sort_by interval_leb (intervals e)) ∧
         Forall (λ i, gat ≤ start_ms i ∧ end_ms i ≤ valid_until_ms f) (intervals e)) ∧
      ∀ t, MIN_CLOCK_MS ≤ t → gat ≤ t < valid_until_ms f →
        (evaluate p (schedule_intervals f) (Some t) (valid_until_ms f) = Active ↔
         in_windows sch gat (valid_until_ms f) t) ∧
        ∀ tz offset, parse_tz (timezone sch) = Some tz → steady tz gat (valid_until_ms f) offset →
          (evaluate p (schedule_intervals f) (Some t) (valid_until_ms f) = Active ↔ by_wall_clock tz sch t).
Proof.
  unfold compile_snapshot. cbn zeta. intros [_ Hr]%check_seq. apply bind_Ok in Hr as (ss & Hss & Hr).
  apply snapshot_Ok in Hr as (f & -> & Hgat & Hval & Hps & Hsi & Hwf).
  assert (policies f ≡ₚ ps) as Hperm by (rewrite Hps; apply sort_by_perm).
  exists f. split_and!; [done|by apply validate_snapshot_fields_Ok|done|done|done|].
  assert (NoDup (id <$> ps)) as Hnd.
  { rewrite <- Hperm. apply strict_keys_NoDup, (fw_sorted _ Hwf). }
  intros p sch Hp Hsch.
  destruct (compiled_intervals f _ _ ps ss p sch Hss Hwf Hsi Hnd Hp Hsch) as (e & ivs & Hfind & Hexp & Heq).
  destruct (expand_schedule_covers _ _ _ _ _ Hsch Hexp) as [Hsep Hcov]. rewrite <- Hval in *. split.
  - exists e. split_and!; [done| |].
    + by rewrite (sort_by_separated ivs).
    + rewrite Heq. apply separated_bounds; [done|]. intros t Ht. by apply Hcov in Ht as [? _].
  - intros t Hclock Ht. enough (evaluate p (schedule_intervals f) (Some t) (valid_until_ms f) = Active ↔ in_windows sch gat (valid_until_ms f) t) as Heq'.
    { split; [done|]. intros tz offset Htz Hst. by rewrite Heq', (steady_windows sch tz gat (valid_until_ms f) offset t). }
    unfold evaluate, clock_ok. rewrite Hsch, (proj2 (Z.leb_le _ _) Hclock), Hfind.
    rewrite (proj2 (Z.leb_gt (valid_until_ms f) t)) by lia.
    assert (existsb (Schedule.covers t) (intervals e) = true ↔ covered (intervals e) t) as Hex.
    { rewrite existsb_exists. unfold covered, covers. setoid_rewrite <- list_elem_of_In. setoid_rewrite andb_true_iff.
      setoid_rewrite Z.leb_le. setoid_rewrite Z.ltb_lt. done. }
    rewrite (covered_perm _ _ t Heq), Hcov in Hex. destruct (existsb _ _); split; try done; [tauto|].
    intros Hw. discriminate (proj2 Hex (conj Ht Hw)).
Qed.

End expansion.

(** ** Examples *)

Module Example.
(** A calendar with the one time zone UTC. *)
Definition digits (b1 b2 : Z) : Z := (b1 - 48) * 10 + (b2 - 48).
Definition utc : Calendar := {|
  Tz := unit;
  parse_tz := λ s, if String.eqb s "UTC" then Some tt else None;
  wall_clock := λ _ ms, ms;
  local_date := λ _ ms, Some (ms / 86400000);
  local_time := λ _ ms,
    Some (default Sun ([Mon; Tue; Wed; Thu; Fri; Sat; Sun] !! Z.to_nat ((ms / 86400000 + 3) mod 7)),
          ms / 3600000 mod 24, ms / 60000 mod 60);
  weekday := λ d, default Sun ([Mon; Tue; Wed; Thu; Fri; Sat; Sun] !! Z.to_nat ((d + 3) mod 7));
  succ_opt := λ d, Some (d + 1);
  parse_hour_minute := λ s,
    match str_bytes s with
    | [a; b; _; c; d] => let m := digits a b * 60 + digits c d in if (0 <=? m) && (m <? 1440) then Ok m else Err "time"
    | _ => Err "time"
    end;
  from_local_datetime := λ _ m, Single (m * 60000);
  add_minute := λ m, Some (m + 1);
|}.
Definition utc_laws : @CalendarLaws utc.
Proof.
  split.
  - by intros d d' [= <-].
  - by intros m m' [= <-].
  - by intros tz t d [= <-].
  - intros tz t. cbn. unfold DAY_MS, MINUTE_MS. lia.
  - intros x m. cbn. destruct (str_bytes x) as [|a [|b [|? [|c [|d [|]]]]]]; try done. cbn zeta. destruct (_ && _) eqn:Hr; [|done]. intros [= <-]. lia.
  - intros tz m. cbn. unfold MINUTE_MS. lia.
Qed.

Definition compiled : result string PolicyWireFrame :=
  @compile_snapshot PolicyWire.Example.codec utc "gw" PolicyWire.Example.epoch 4 1800000000000 3
    [PolicyWire.Example.p2; PolicyWire.Example.p1].
(** Monday 2027-01-18 at 09:30 and at 10:00 UTC. *)
Definition monday : Z := (20836 * 1440 + 570) * 60000.
End Example.

Lemma compiled_schedule_evaluates_witness :
  ∃ f, Example.compiled = Ok (PolicySnapshot f) ∧
    evaluate PolicyWire.Example.p2 (schedule_intervals f) (Some Example.monday) (valid_until_ms f) = Active.
Proof.
  assert (∃ frame, Example.compiled = Ok frame) as [frame Hc] by (eexists; vm_compute; reflexivity).
  destruct (@compiled_schedule_evaluates PolicyWire.Example.codec Example.utc Example.utc_laws "gw"
              PolicyWire.Example.epoch 4 1800000000000 3 [PolicyWire.Example.p2; PolicyWire.Example.p1] frame Hc)
    as (f & Hf & _ & _ & _ & Hval & Hall).
  exists f. rewrite <- Hf. split; [exact Hc|]. rewrite Hval in *.
  destruct (Hall PolicyWire.Example.p2 (mkSchedule "UTC" [mkWindow [Mon] "09:00" "10:00"])) as [_ Heval].
  - left.
  - reflexivity.
  - apply (proj2 (Heval Example.monday ltac:(vm_compute; discriminate) ltac:(vm_compute; split; [discriminate|reflexivity])) tt 0);
      [reflexivity|intros x _; cbn; lia|].
    exists (mkWindow [Mon] "09:00" "10:00"), 540, 600. split; [left|]. split; [left|]. split; [reflexivity|]. split; [reflexivity|].
    vm_compute. split; [discriminate|reflexivity].
Defined.
