(* ===== verification/Evaluator.v ===== *)
(** Application policy decisions on the collector
    (src/crates/collector/src/policy/evaluator.rs): which policies match a
    classified flow, which verdict wins, how long a verdict may live, and the
    flow command built from them (flow_command_for_context in
    src/crates/collector/src/policy/push.rs). *)

From S2P Require Import Prelude PolicyWire Schedule Compiler.
From Stdlib Require Import SpecFloat.

(** ** Requests and results *)

Record PolicyPreviewRequest := mkRequest {
  req_gateway_id : string;
  req_client_mac : string;
  application_id : string;
  category_id : string;
  application_confidence : f64;
  req_scope : string;
  at_ms : Z;
}.

Record PolicyPreviewMatch := mkMatch {
  match_policy_id : string;
  match_name : string;
  match_action : string;
  match_priority : Z;
  selected : bool;
}.

Record PolicyPreviewLimit := mkLimit {
  limit_policy_id : string;
  limit_name : string;
  limit_download_bps : option Z;
  limit_upload_bps : option Z;
  limit_status : string;
  limit_reason_code : option string;
}.

Record PolicyPreviewResult := mkPreview {
  matched_policies : list PolicyPreviewMatch;
  selected_block_verdict : string;
  active_limits : list PolicyPreviewLimit;
  explanation : string;
  unsupported_reasons : list string;
}.

(** ** Decisions *)

Definition selected_policy (r : PolicyPreviewResult) : list string :=
  option_list (match_policy_id <$> List.find selected (matched_policies r)).
Definition supported_limits (r : PolicyPreviewResult) : list string :=
  limit_policy_id <$> List.filter (λ l, String.eqb (limit_status l) "supported") (active_limits r).

Definition flow_command_decision (r : PolicyPreviewResult) : option FlowVerdict * list string :=
  let limits := supported_limits r in
  if String.eqb (selected_block_verdict r) "block" then (Some VBlock, selected_policy r)
  else if String.eqb (selected_block_verdict r) "allow" then
    if bool_decide (limits = []) then (Some VAllow, selected_policy r) else (Some VShape, limits)
  else if bool_decide (limits = []) then (None, []) else (Some VShape, limits).

(** ** Matching *)

Definition is_application_policy (p : PolicySnapshotEntry) : bool :=
  (negb (no_selector (applications (selectors (spec p)))) || negb (no_selector (categories (selectors (spec p)))))%bool.

Definition selectors_match (p : PolicySnapshotEntry) (client_mac : string) (r : PolicyPreviewRequest) : bool :=
  let s := selectors (spec p) in
  let client_matches := (no_selector (clients s) || existsb (λ c, eq_ignore_ascii_case c client_mac) (clients s))%bool in
  let application_matches :=
    (no_selector (applications s) || existsb (λ a, String.eqb a (application_id r)) (applications s))%bool in
  let category_matches :=
    (no_selector (categories s) || existsb (λ c, String.eqb c (category_id r)) (categories s))%bool in
  let app_condition :=
    if no_selector (applications s) then category_matches
    else if no_selector (categories s) then application_matches
    else (application_matches || category_matches)%bool in
  (client_matches && app_condition && SFleb (min_application_confidence s) (application_confidence r))%bool.

Definition u8_from (b : bool) : Z := if b then 1 else 0.

Definition specificity (p : PolicySnapshotEntry) : Z :=
  let s := selectors (spec p) in
  Z.min 255 (Z.min 255 (u8_from (negb (no_selector (clients s)))
                        + Z.min 255 (u8_from (negb (no_selector (applications s))) * 2))
             + u8_from (negb (no_selector (categories s)))).

(** [hours * 60 + minutes] on [u32]: the product is checked, the sum wraps in a
    release build. *)
Definition parse_minute (value : string) : option Z :=
  '(hours, minutes) ← split_once 58 value;
  h ← from_dec (2 ^ 32 - 1) hours;
  if 2 ^ 32 - 1 <? h * 60 then None
  else m ← from_dec (2 ^ 32 - 1) minutes; Some ((h * 60 + m) mod 2 ^ 32).

Definition action_name (k : PolicyActionKind) : string :=
  match k with Block => "block" | Allow => "allow" | Limit => "limit" end.

(** [to_ascii_uppercase]. *)
Definition ascii_upper (c : ascii) : ascii :=
  if is_ascii_lower (byte_val c) then ascii_of_N (Z.to_N (byte_val c - 32)) else c.
Fixpoint to_ascii_uppercase (s : string) : string :=
  match s with EmptyString => EmptyString | String c s => String (ascii_upper c) (to_ascii_uppercase s) end.

Definition preview_leb (a b : PolicySnapshotEntry) : bool :=
  if negb (priority (spec a) =? priority (spec b)) then priority (spec a) <? priority (spec b)
  else if negb (specificity b =? specificity a) then specificity b <? specificity a
  else str_leb (id a) (id b).

Section evaluator.
Context `{Calendar}.

Definition window_active (day : PolicyWeekday) (minute : Z) (w : PolicyScheduleWindow) : bool :=
  (bool_decide (day ∈ days w)
   && match parse_minute (window_start w) with Some start => start <=? minute | None => false end
   && match parse_minute (window_end w) with Some fin => minute <? fin | None => false end)%bool.

Definition schedule_active (p : PolicySnapshotEntry) (at_ms : Z) : bool :=
  match schedule (spec p) with
  | None => true
  | Some sch =>
    match parse_tz (timezone sch) with
    | None => false
    | Some tz =>
      match local_time tz at_ms with
      | None => false
      | Some (day, hour, minute) => existsb (window_active day (hour * 60 + minute)) (windows sch)
      end
    end
  end.

(** The filters of [evaluate_preview], in their order. *)
Definition preview_matches (r : PolicyPreviewRequest) (p : PolicySnapshotEntry) : bool :=
  (String.eqb (spec_gateway_id (spec p)) (req_gateway_id r)
   && enabled (spec p)
   && String.eqb (scope (network (spec p))) "internet"
   && String.eqb (direction (network (spec p))) "both"
   && is_application_policy p
   && schedule_active p (at_ms r)
   && selectors_match p (to_ascii_uppercase (req_client_mac r)) r)%bool.

Definition bad_confidence (c : f64) : bool :=
  (negb (f64_is_finite c) || negb (SFleb (S754_zero false) c && SFleb c f64_1_0))%bool.

(** Requests for which every application policy fails open. *)
Definition rejections (r : PolicyPreviewRequest) : list string :=
  (if negb (String.eqb (req_scope r) "internet") then ["unsupported_scope"] else [])
  ++ (if String.eqb (application_id r) "unknown" then ["application_id_unknown_fail_open"]
      else if bad_confidence (application_confidence r) then ["invalid_application_confidence"] else []).

Definition sorted_matches (r : PolicyPreviewRequest) (ps : list PolicySnapshotEntry) : list PolicySnapshotEntry :=
  sort_by preview_leb
    (if bool_decide (rejections r = []) then List.filter (preview_matches r) ps else []).

Definition is_verdict (p : PolicySnapshotEntry) : bool := negb (bool_decide (kind (action (spec p)) = Limit)).

(** The verdict of the winning policy and the reason it may be unsupported. *)
Definition verdict_of (block_supported : bool) (winner : option PolicySnapshotEntry) : string * list string :=
  match winner with
  | None => ("none", [])
  | Some p =>
    if no_selector (clients (selectors (spec p))) then ("unsupported", ["application_client_selector_required"])
    else match kind (action (spec p)), block_supported with
         | Block, true => ("block", [])
         | Allow, true => ("allow", [])
         | _, _ => ("unsupported", ["unsupported_application_block"])
         end
  end.

Definition limit_of (limit_supported : bool) (p : PolicySnapshotEntry) : PolicyPreviewLimit * list string :=
  let mk status reason :=
    mkLimit (id p) (name (spec p)) (action_download_bps (action (spec p))) (action_upload_bps (action (spec p)))
      status reason in
  if no_selector (clients (selectors (spec p))) then
    (mk "unsupported" (Some "application_client_selector_required"), ["application_client_selector_required"])
  else if negb limit_supported then
    (mk "unsupported" (Some "unsupported_application_shaping"), ["unsupported_application_shaping"])
  else (mk "supported" None, []).

Definition explain (r : PolicyPreviewRequest) (matches : list PolicySnapshotEntry) (verdict : string) : string :=
  if negb (String.eqb (req_scope r) "internet") then "Application policies only apply to internet flows."
  else if String.eqb (application_id r) "unknown" then
    "The application is unknown, so application policies fail open."
  else if bool_decide (length matches = 0%nat) then
    "No enabled application policy matches this client, application, confidence, and time window."
  else if String.eqb verdict "unsupported" then
    "A policy matches, but this gateway has no verified application-flow enforcement capability."
  else if String.eqb verdict "block" then
    "The selected application policy blocks this identified flow after classification."
  else if String.eqb verdict "allow" then
    "The selected application allow rule clears an application-layer block; client blocks and limits still apply."
  else "An application policy matches; its action does not select a block or allow verdict.".

Definition evaluate_preview (r : PolicyPreviewRequest) (ps : list PolicySnapshotEntry)
    (application_block_supported application_limit_supported : bool) : PolicyPreviewResult :=
  let matches := sorted_matches r ps in
  let winning := List.find is_verdict matches in
  let '(verdict, verdict_reasons) := verdict_of application_block_supported winning in
  let limits := limit_of application_limit_supported <$> List.filter (λ p, negb (is_verdict p)) matches in
  let reasons := rejections r ++ verdict_reasons ++ concat (snd <$> limits) in
  let selected_id := id <$> winning in
  mkPreview
    ((λ p, mkMatch (id p) (name (spec p)) (action_name (kind (action (spec p)))) (priority (spec p))
             (bool_decide (selected_id = Some (id p)))) <$> matches)
    verdict (fst <$> limits) (explain r matches verdict) (dedup (sort_by str_leb reasons)).

(** ** The lifetime of a verdict *)

Definition bound_by_policy (f : PolicySnapshotFrame) (now_ms expiry : Z) (pid : string) : result unit Z :=
  p ← ok_or (List.find (λ p, String.eqb (id p) pid) (policies f)) tt;
  if negb (enabled (spec p)) then Err tt
  else match schedule (spec p) with
       | None => Ok expiry
       | Some _ =>
         e ← ok_or (find_intervals (schedule_intervals f) pid) tt;
         i ← ok_or (List.find (covers now_ms) (intervals e)) tt;
         Ok (Z.min expiry (end_ms i))
       end.

Definition flow_verdict_expiry (frame : PolicyWireFrame) (policy_ids : list string) (now_ms ttl_ms : Z) : option Z :=
  match frame with
  | PolicySnapshot f =>
    if (no_selector policy_ids || (now_ms <? 0) || (valid_until_ms f <=? now_ms) || (ttl_ms <=? 0))%bool then None
    else
      expiry ← ok (foldM (bound_by_policy f now_ms)
                     (Z.min (i64_saturating_add now_ms ttl_ms) (valid_until_ms f)) policy_ids);
      if now_ms <? expiry then Some expiry else None
  | _ => None
  end.

(** ** Flow commands *)

Record FlowEvaluationContext := mkContext {
  ctx_generation : Z;
  ctx_request : PolicyPreviewRequest;
  ctx_boot_id : string;
  ctx_policy_flow_id : string;
  ctx_protocol : Z;
  ctx_expires_at_ms : Z;
}.

Definition flow_ttl_ms (protocol : Z) : option Z :=
  if protocol =? 17 then Some 30000 else if protocol =? 6 then Some 120000 else None.

(** [uuid] is the text of the fresh command id. *)
Definition flow_command_for_context (frame : PolicyWireFrame) (ctx : FlowEvaluationContext)
    (application_block_supported application_limit_supported : bool) (now : Z) (uuid : string) : option PolicyWireFrame :=
  match frame with
  | PolicySnapshot f =>
    if ctx_expires_at_ms ctx <=? now then None
    else
      let r := ctx_request ctx in
      let r := mkRequest (req_gateway_id r) (req_client_mac r) (application_id r) (category_id r)
                 (application_confidence r) (req_scope r) now in
      let evaluated := evaluate_preview r (policies f) application_block_supported application_limit_supported in
      let '(verdict, policy_ids) := flow_command_decision evaluated in
      verdict ← (if (negb (no_selector policy_ids) && (zlen policy_ids <=? 16))%bool then verdict else None);
      ttl ← flow_ttl_ms (ctx_protocol ctx);
      expires ← flow_verdict_expiry frame policy_ids now ttl;
      Some (FlowCommand (mkFlowCommand POLICY_WIRE_VERSION (req_gateway_id r) (ctx_boot_id ctx)
              (snap_controller_epoch f) (snap_config_revision f) uuid (ctx_policy_flow_id ctx) Upsert (Some verdict)
              policy_ids expires now))
  | _ => None
  end.

End evaluator.

(** ** What a decision means *)

Lemma preview_leb_total a b : preview_leb a b = false → preview_leb b a = true.
Proof.
  unfold preview_leb. destruct (Z.eqb_spec (priority (spec a)) (priority (spec b))) as [->|]; cbn [negb].
  - rewrite Z.eqb_refl. cbn [negb]. destruct (Z.eqb_spec (specificity b) (specificity a)) as [->|]; cbn [negb].
    + rewrite Z.eqb_refl. cbn [negb]. auto with netq.
    + rewrite (proj2 (Z.eqb_neq (specificity a) (specificity b))) by lia. cbn [negb]. lia.
  - rewrite (proj2 (Z.eqb_neq (priority (spec b)) (priority (spec a)))) by lia. cbn [negb]. lia.
Qed.

(** The rank of matching policies: priority, then how specific the selectors
    are, then the id. *)
Definition ranks (a b : PolicySnapshotEntry) : Prop :=
  priority (spec a) < priority (spec b) ∨
  priority (spec a) = priority (spec b) ∧
    (specificity b < specificity a ∨ specificity a = specificity b ∧ id a ≤ₛ id b).

Lemma preview_leb_ranks a b : preview_leb a b = true ↔ ranks a b.
Proof.
  unfold preview_leb, ranks. destruct (Z.eqb_spec (priority (spec a)) (priority (spec b))); cbn [negb];
    [destruct (Z.eqb_spec (specificity b) (specificity a)); cbn [negb]|]; rewrite ?Z.ltb_lt; naive_solver lia.
Qed.

Lemma preview_leb_trans a b c : preview_leb a b = true → preview_leb b c = true → preview_leb a c = true.
Proof.
  rewrite !preview_leb_ranks. unfold ranks.
  intros [?|[? [?|[? Hab]]]] [?|[? [?|[? Hbc]]]]; try lia. right. split; [lia|]. right. split; [lia|].
  by eapply str_leb_trans.
Qed.

Lemma ranks_refl a : ranks a a.
Proof. right. split; [done|]. right. split; [done|]. auto with netq. Qed.

Section decisions.
Context `{Calendar}.

(** A policy that applies to the flow of a request, which names a known
    application with a confidence between 0 and 1. *)
Definition eligible (r : PolicyPreviewRequest) (p : PolicySnapshotEntry) : Prop :=
  req_scope r = "internet" ∧ application_id r ≠ "unknown" ∧
  f64_is_finite (application_confidence r) = true ∧ SFleb (S754_zero false) (application_confidence r) = true ∧
  SFleb (application_confidence r) f64_1_0 = true ∧ preview_matches r p = true.

Lemma rejections_nil r : rejections r = [] ↔
  req_scope r = "internet" ∧ application_id r ≠ "unknown" ∧ f64_is_finite (application_confidence r) = true ∧
  SFleb (S754_zero false) (application_confidence r) = true ∧ SFleb (application_confidence r) f64_1_0 = true.
Proof.
  unfold rejections, bad_confidence. destruct (String.eqb_spec (req_scope r) "internet"); cbn [negb]; [|naive_solver].
  destruct (String.eqb_spec (application_id r) "unknown"); [naive_solver|].
  destruct (f64_is_finite _), (SFleb (S754_zero false) _), (SFleb _ f64_1_0); naive_solver.
Qed.

Lemma elem_of_sorted_matches r ps p : p ∈ sorted_matches r ps ↔ p ∈ ps ∧ eligible r p.
Proof.
  unfold sorted_matches, eligible. rewrite elem_of_sort_by. pose proof (rejections_nil r) as Hr.
  case_bool_decide; [rewrite elem_of_filterb|rewrite elem_of_nil]; tauto.
Qed.

Lemma sorted_matches_ranks r ps : StronglySorted ranks (sorted_matches r ps).
Proof.
  eapply StronglySorted_impl; [intros a b; apply preview_leb_ranks|].
  apply sort_by_sorted; [apply preview_leb_total|apply preview_leb_trans].
Qed.

(** The policy whose verdict applies. *)
Definition winner (r : PolicyPreviewRequest) (ps : list PolicySnapshotEntry) (p : PolicySnapshotEntry) : Prop :=
  p ∈ ps ∧ eligible r p ∧ kind (action (spec p)) ≠ Limit ∧
  ∀ q, q ∈ ps → eligible r q → kind (action (spec q)) ≠ Limit → ranks p q.

Lemma is_verdict_true p : is_verdict p = true ↔ kind (action (spec p)) ≠ Limit.
Proof. unfold is_verdict. rewrite negb_true_iff. apply bool_decide_eq_false. Qed.

Lemma ranks_id a b : ranks a b → ranks b a → id a = id b.
Proof. unfold ranks. intros [?|[? [?|[? ?]]]] [?|[? [?|[? ?]]]]; try lia. by apply str_leb_antisym. Qed.

Lemma find_winner r ps p : NoDup (id <$> ps) →
  List.find is_verdict (sorted_matches r ps) = Some p ↔ winner r ps p.
Proof.
  intros Hnd. assert (∀ p, List.find is_verdict (sorted_matches r ps) = Some p → winner r ps p) as Hfind.
  { clear p. intros p Hf. pose proof (find_Some_elem _ _ _ Hf) as [Hin Hv].
    apply elem_of_sorted_matches in Hin as [Hin He]. apply is_verdict_true in Hv. split_and!; [done|done|done|].
    intros q Hq Hqe Hqk. destruct (sorted_find ranks is_verdict _ _ (sorted_matches_ranks r ps) Hf q) as [->|];
      [by apply elem_of_sorted_matches|by apply is_verdict_true|apply ranks_refl|done]. }
  split; [apply Hfind|]. intros (Hp & He & Hk & Hmin). destruct (List.find _ _) as [q|] eqn:Hf.
  - destruct (Hfind q eq_refl) as (Hq & Hqe & Hqk & Hqmin). f_equal.
    apply (NoDup_key_inj id ps); [done..|]. by apply ranks_id; [apply Hqmin|apply Hmin].
  - exfalso. pose proof (find_none _ _ Hf p) as Hno. rewrite <- list_elem_of_In, elem_of_sorted_matches in Hno.
    specialize (Hno (conj Hp He)). rewrite <- not_true_iff_false, is_verdict_true in Hno. done.
Qed.

(** The winning policy is the one marked as selected. *)
Lemma selected_policy_winner r ps b l : NoDup (id <$> ps) →
  selected_policy (evaluate_preview r ps b l) = option_list (id <$> List.find is_verdict (sorted_matches r ps)).
Proof.
  intros Hnd. unfold evaluate_preview, selected_policy.
  destruct (verdict_of b _) as [v reasons]. cbn [matched_policies].
  destruct (List.find is_verdict (sorted_matches r ps)) as [w|] eqn:Hw; cbn [fmap option_fmap option_map].
  - apply find_Some_elem in Hw as [Hin _]. induction (sorted_matches r ps) as [|p ms IH]; [by apply elem_of_nil in Hin|].
    rewrite fmap_cons. cbn [List.find selected]. case_bool_decide as Heq.
    + cbn. by injection Heq as ->.
    + apply elem_of_cons in Hin as [->|Hin]; [done|by apply IH].
  - clear Hw. induction (sorted_matches r ps) as [|p ms IH]; [done|]. rewrite fmap_cons. cbn [List.find selected].
    case_bool_decide; [done|]. apply IH.
Qed.

Lemma elem_of_supported_limits r ps b l x :
  x ∈ supported_limits (evaluate_preview r ps b l) ↔
  ∃ p, p ∈ ps ∧ eligible r p ∧ kind (action (spec p)) = Limit ∧ clients (selectors (spec p)) ≠ [] ∧ l = true ∧ id p = x.
Proof.
  unfold evaluate_preview, supported_limits. destruct (verdict_of b _) as [v reasons]. cbn [active_limits].
  rewrite list_elem_of_fmap. setoid_rewrite elem_of_filterb. setoid_rewrite list_elem_of_fmap.
  setoid_rewrite list_elem_of_fmap. setoid_rewrite elem_of_filterb. setoid_rewrite elem_of_sorted_matches. split.
  - intros (lim & -> & (lr & -> & p & -> & (Hp & He) & Hk) & Hs). exists p. unfold limit_of in *.
    apply negb_true_iff, not_true_iff_false in Hk. rewrite is_verdict_true in Hk.
    destruct (clients (selectors (spec p))) eqn:Hc; cbn [no_selector] in *; [done|]. destruct l; cbn in *; [|done].
    split_and!; [done|done| |done|done|done]. by destruct (kind (action (spec p))); try (exfalso; by apply Hk).
  - intros (p & Hp & He & Hk & Hc & -> & <-). exists (fst (limit_of true p)).
    assert (no_selector (clients (selectors (spec p))) = false) as Hn by (by destruct (clients (selectors (spec p)))).
    split; [by unfold limit_of; rewrite Hn|]. split; [|by unfold limit_of; rewrite Hn].
    exists (limit_of true p). split; [done|]. exists p. split_and!; [done|done|done|].
    unfold is_verdict. by rewrite bool_decide_eq_true_2.
Qed.

(** A verdict of the given kind that the gateway can enforce. *)
Definition enforced (r : PolicyPreviewRequest) (ps : list PolicySnapshotEntry) (supported : bool) (k : PolicyActionKind)
    (p : PolicySnapshotEntry) : Prop :=
  winner r ps p ∧ kind (action (spec p)) = k ∧ clients (selectors (spec p)) ≠ [] ∧ supported = true.

(** A rate limit that the gateway can enforce. *)
Definition shaped (r : PolicyPreviewRequest) (ps : list PolicySnapshotEntry) (supported : bool) (x : string) : Prop :=
  ∃ p, p ∈ ps ∧ eligible r p ∧ kind (action (spec p)) = Limit ∧ clients (selectors (spec p)) ≠ [] ∧ supported = true ∧
    id p = x.

Lemma verdict_text r ps b l k : k ≠ Limit → NoDup (id <$> ps) →
  selected_block_verdict (evaluate_preview r ps b l) = action_name k ↔ ∃ p, enforced r ps b k p.
Proof.
  intros Hk Hnd. unfold enforced. setoid_rewrite <- (λ p, find_winner r ps p Hnd). unfold evaluate_preview.
  destruct (List.find is_verdict (sorted_matches r ps)) as [w|] eqn:Hw; cbn [verdict_of selected_block_verdict].
  - apply find_Some_elem in Hw as [_ Hv%is_verdict_true].
    destruct (clients (selectors (spec w))) eqn:Hc, b, (kind (action (spec w))) eqn:Hkw; try done;
      cbn [no_selector selected_block_verdict]; destruct k; try done;
      (split; [done || (intros _; exists w; by rewrite Hc, Hkw)|]); intros (p & [= <-] & Hkp & Hcp & Hbp); first [done | congruence].
  - split; [by destruct k|]. intros (p & [=] & _).
Qed.

Lemma winner_unique r ps p q : NoDup (id <$> ps) → winner r ps p → winner r ps q → p = q.
Proof. intros Hnd Hp%find_winner Hq%find_winner; [congruence|done..]. Qed.

Lemma selected_policy_enforced r ps b l k p : NoDup (id <$> ps) → enforced r ps b k p →
  selected_policy (evaluate_preview r ps b l) = [id p].
Proof. intros Hnd (Hw & _). rewrite selected_policy_winner by done. apply find_winner in Hw as ->; done. Qed.

(** C29: The verdict for a classified flow is decided by rank: it is a block
    exactly when the highest-ranked matching block or allow is an enforceable
    block; otherwise it is a shape exactly when some enforceable limit
    matches, citing all of them; otherwise it is an allow exactly when the
    highest-ranked one is an enforceable allow; the command cites the policy
    that won. *)
Theorem preview_decision r ps b l : NoDup (id <$> ps) →
  let d := flow_command_decision (evaluate_preview r ps b l) in
  (fst d = Some VBlock ↔ ∃ p, enforced r ps b Block p) ∧
  (fst d = Some VShape ↔ (¬ ∃ p, enforced r ps b Block p) ∧ ∃ x, shaped r ps l x) ∧
  (fst d = Some VAllow ↔ (∃ p, enforced r ps b Allow p) ∧ ¬ ∃ x, shaped r ps l x) ∧
  (∀ p k, enforced r ps b k p → fst d = Some VBlock ∨ fst d = Some VAllow → snd d = [id p]) ∧
  (fst d = Some VShape → ∀ x, x ∈ snd d ↔ shaped r ps l x) ∧
  (fst d = None → snd d = []).
Proof.
  intros Hnd d. pose proof (verdict_text r ps b l Block ltac:(done) Hnd) as HB.
  pose proof (verdict_text r ps b l Allow ltac:(done) Hnd) as HA.
  pose proof (elem_of_supported_limits r ps b l) as HL. fold (shaped r ps l) in HL.
  pose proof (λ k p, selected_policy_enforced r ps b l k p Hnd) as Hsel.
  assert ((∃ x, shaped r ps l x) ↔ supported_limits (evaluate_preview r ps b l) ≠ []) as Hsome.
  { setoid_rewrite <- HL. destruct (supported_limits _) as [|x xs]; [set_solver|].
    split; [done|]. intros _. exists x. left. }
  unfold d, flow_command_decision. clear d.
  destruct (String.eqb_spec (selected_block_verdict (evaluate_preview r ps b l)) "block") as [Hb|Hb];
    [|destruct (String.eqb_spec (selected_block_verdict (evaluate_preview r ps b l)) "allow") as [Ha|Ha]];
    try case_bool_decide as Hl; cbn [fst snd]; rewrite Hsome; split_and!; try done; try tauto;
    try (by split; [done|tauto]); try (split; [done|]; rewrite <- HB, <- HA; cbn; intros; destruct_and?; congruence);
    try (intros p k He _; by rewrite (Hsel k p He)); try (by intros p k He [|]).
  split; [done|]. intros [HA' _]. apply HA in HA'. cbn in HA'. congruence.
Qed.

End decisions.

(** ** Commands *)

Section commands.
Context `{PolicyCodec} `{Calendar}.

(** A cited policy stays in force until the verdict expires. *)
Definition in_force_until (f : PolicySnapshotFrame) (now e : Z) (pid : string) : Prop :=
  ∃ p, p ∈ policies f ∧ id p = pid ∧ enabled (spec p) = true ∧
    (schedule (spec p) = None ∨
     ∃ es i, find_intervals (schedule_intervals f) pid = Some es ∧ i ∈ intervals es ∧ start_ms i ≤ now ∧ e ≤ end_ms i).

Lemma in_force_until_le f now e e' pid : e' ≤ e → in_force_until f now e pid → in_force_until f now e' pid.
Proof.
  intros Hle (p & Hp & Hid & Hen & [Hs|(es & i & ? & ? & ? & ?)]); exists p; split_and!; try done; [by left|].
  right. exists es, i. split_and!; (done || lia).
Qed.

Lemma bound_by_policy_Ok f now expiry pid e : bound_by_policy f now expiry pid = Ok e →
  e ≤ expiry ∧ in_force_until f now e pid.
Proof.
  unfold bound_by_policy. intros (p & Hp%ok_or_Ok & Hr)%bind_Ok. apply find_Some_elem in Hp as [Hp Hid%String.eqb_eq].
  destruct (enabled (spec p)) eqn:Hen; [|done]. cbn [negb] in Hr. destruct (schedule (spec p)) eqn:Hs.
  - apply bind_Ok in Hr as (es & Hes%ok_or_Ok & Hr). apply bind_Ok in Hr as (i & Hi%ok_or_Ok & [= <-]).
    apply find_Some_elem in Hi as [Hi Hc]. unfold covers in Hc. split; [lia|].
    exists p. split_and!; [done..|]. right. exists es, i. split_and!; (done || lia).
  - injection Hr as <-. split; [done|]. exists p. split_and!; [done..|by left].
Qed.

Lemma bound_by_policies f now ids expiry e : foldM (bound_by_policy f now) expiry ids = Ok e →
  e ≤ expiry ∧ ∀ pid, pid ∈ ids → in_force_until f now e pid.
Proof.
  revert expiry. induction ids as [|pid ids IH]; intros expiry Hf; cbn [foldM] in Hf.
  { injection Hf as <-. split; [done|]. set_solver. }
  apply bind_Ok in Hf as (mid & Hm & Hf). apply bound_by_policy_Ok in Hm as [Hle Hin].
  destruct (IH _ Hf) as [Hle' Hall]. split; [lia|]. intros x [->|Hx]%elem_of_cons; [|auto].
  by eapply in_force_until_le.
Qed.

Lemma flow_verdict_expiry_Some f ids now ttl e : flow_verdict_expiry (PolicySnapshot f) ids now ttl = Some e →
  0 ≤ now < e ∧ e ≤ valid_until_ms f ∧ e ≤ now + ttl ∧ ∀ pid, pid ∈ ids → in_force_until f now e pid.
Proof.
  unfold flow_verdict_expiry. destruct (_ || _)%bool eqn:Hb; [done|]. split_bools. intros Hx.
  destruct (ok _) as [e'|] eqn:He; cbn in Hx; [|done]. destruct (now <? e') eqn:Hlt; [|done]. injection Hx as ->.
  apply ok_Some, bound_by_policies in He as [Hle Hall].
  assert (i64_saturating_add now ttl ≤ now + ttl) by (unfold i64_saturating_add, clamp, i64_min, i64_max; lia).
  split_and!; (done || lia).
Qed.

Lemma flow_ttl_bound protocol ttl : flow_ttl_ms protocol = Some ttl → 0 < ttl ≤ 120000.
Proof. unfold flow_ttl_ms. repeat case_match; intros; simplify_eq; lia. Qed.

(** Every flow command the collector builds from an accepted snapshot is one
    the agent accepts: its frame passes validation, it lives no longer than the
    snapshot, its protocol's time to live and the active window of every policy
    it cites, and it cites only enabled policies of that snapshot. *)
Lemma flow_command_accepted f ctx b l now uuid cmd :
  snapshot_fields_wf f → is_i64 now → is_i64 (valid_until_ms f) →
  text_ok 128 (req_gateway_id (ctx_request ctx)) → text_ok 128 (ctx_boot_id ctx) →
  text_ok 64 (ctx_policy_flow_id ctx) → text_ok 128 uuid →
  flow_command_for_context (PolicySnapshot f) ctx b l now uuid = Some cmd →
  validate cmd = Ok tt ∧ ∃ c ttl, cmd = FlowCommand c ∧ issued_at_ms c = now ∧ now < ctx_expires_at_ms ctx ∧
    flow_ttl_ms (ctx_protocol ctx) = Some ttl ∧ expires_at_ms c ≤ valid_until_ms f ∧ expires_at_ms c ≤ now + ttl ∧
    ∀ pid, pid ∈ policy_ids c → in_force_until f now (expires_at_ms c) pid.
Proof.
  intros Hwf Hnow Hval Hgw Hboot Hflow Huuid. unfold flow_command_for_context.
  destruct (_ <=? now) eqn:Hctx; [done|]. cbn zeta. destruct (flow_command_decision _) as [v ids].
  destruct (_ && _)%bool eqn:Hids; cbn [mbind option_bind]; [|done]. destruct v as [v|]; [|done].
  destruct (flow_ttl_ms _) as [ttl|] eqn:Httl; [|done]. cbn [mbind option_bind]. destruct (flow_verdict_expiry _ _ _ _) as [e|] eqn:He; [|done].
  intros [= <-]. apply flow_verdict_expiry_Some in He as (Hlt & Hle & Hle' & Hall). pose proof (flow_ttl_bound _ _ Httl) as Hb.
  split_bools. split.
  - assert (∀ pid, pid ∈ ids → text_ok 128 pid) as Htext.
    { intros pid (p & Hp & <- & _)%Hall. pose proof (fw_policies _ Hwf) as Hps. rewrite Forall_forall in Hps. by apply Hps. }
    cbn [validate]. unfold validate_flow_command, validate_flow_operation, check_wire_version, validate_gateway, validate_nonempty_id.
    cbn. rewrite !check_seq, !reject_if_Ok, eachM_Ok, !bad_text_false. split_and!; try done.
    + apply Hwf.
    + apply Z.ltb_ge, (fw_generations _ Hwf).
    + unfold is_i64, i64_saturating_sub, clamp, i64_min, i64_max in *. lia.
    + destruct ids; [done|]. cbn [no_selector orb negb] in *. cbn. lia.
    + apply Forall_forall. intros pid Hp. by apply reject_if_Ok, bad_text_false, Htext.
  - eexists _, ttl. split_and!; try done; lia.
Qed.

End commands.

(** ** Examples *)

Module Example.
Definition spec_of (name : string) (prio : Z) (k : PolicyActionKind) (rate : option Z) : PolicySpecV1 :=
  mkSpec 1 "gw" name "" true prio (mkSelectors [PolicyWire.Example.mac] ["video"] [] f64_0_80)
    (mkNetwork "internet" "both") (mkAction k rate None) None.
Definition blocking : PolicySnapshotEntry := mkEntry "b" (spec_of "no video" 10 Block None).
Definition allowing : PolicySnapshotEntry := mkEntry "a" (spec_of "video" 20 Allow None).
Definition limiting : PolicySnapshotEntry := mkEntry "c" (spec_of "slow video" 5 Limit (Some 64000)).
Definition request : PolicyPreviewRequest :=
  mkRequest "gw" "02:bb:cc:dd:ee:0f" "video" "media" f64_1_0 "internet" 1800000000000.
Definition context : FlowEvaluationContext := mkContext 1 request "boot" "00112233" 6 1800000100000.
Definition frame : PolicySnapshotFrame :=
  mkSnapshot 1 "gw" PolicyWire.Example.epoch 3 4 1800000000000 1800000060000
    (String.append "sha256:" (hex_bytes (replicate 32 0))) [allowing; blocking; limiting] [].
Definition command : option PolicyWireFrame :=
  @flow_command_for_context Compiler.Example.utc (PolicySnapshot frame) context true true 1800000000001 "cmd".
End Example.

Lemma preview_decision_witness :
  let ps := [Example.allowing; Example.blocking; Example.limiting] in
  let d := flow_command_decision (@evaluate_preview Compiler.Example.utc Example.request ps true true) in
  d = (Some VBlock, ["b"]) ∧ ∃ p, @enforced Compiler.Example.utc Example.request ps true Block p.
Proof.
  intros ps d. split; [vm_compute; reflexivity|].
  apply (@preview_decision Compiler.Example.utc Example.request ps true true).
  - apply (bool_decide_unpack _). vm_compute. exact I.
  - vm_compute. reflexivity.
Defined.

Lemma flow_command_accepted_witness :
  ∃ cmd, Example.command = Some cmd ∧ @validate PolicyWire.Example.codec cmd = Ok tt.
Proof.
  destruct Example.command as [cmd|] eqn:Hc; [|exfalso; vm_compute in Hc; discriminate].
  exists cmd. split; [reflexivity|].
  apply (@flow_command_accepted PolicyWire.Example.codec Compiler.Example.utc Example.frame Example.context
           true true 1800000000001 "cmd" cmd).
  - apply validate_snapshot_fields_Ok. vm_compute. reflexivity.
  - vm_compute. split; discriminate.
  - vm_compute. split; discriminate.
  - apply bad_text_false. vm_compute. reflexivity.
  - apply bad_text_false. vm_compute. reflexivity.
  - apply bad_text_false. vm_compute. reflexivity.
  - apply bad_text_false. vm_compute. reflexivity.
  - exact Hc.
Defined.
