(* ===== verification/Verdict.v ===== *)
(** Enforcement of flow verdicts on the agent
    (src/crates/agent/src/policy/flow_verdict.rs, and the key of endpoint blocks
    in src/crates/agent/src/policy/endpoint_block.rs): the values written into
    the BPF verdict map, the registry of block claims by several flows on one
    packet key, and the operations that install, replace and revoke verdicts.
    The kernel's maps are outside the program: a [BpfMap] is their content
    together with the outcomes of the system calls to come, so that every
    pattern of failing calls is covered. *)

From S2P Require Import Prelude ClassIds Shaper Topology Flow.

(** ** BPF maps *)

Record BpfMap := mkMap { content : gmap (list Z) (list Z); faults : list bool }.

(** Whether the next system call fails. *)
Definition next_fault (m : BpfMap) : bool := default false (head (faults m)).
Definition set_content (m : BpfMap) (c : gmap (list Z) (list Z)) : BpfMap := mkMap c (tail (faults m)).

Definition bpf_lookup (k : list Z) : stM BpfMap unit (option (list Z)) := λ m,
  (set_content m (content m), if next_fault m then Err tt else Ok (content m !! k)).

Definition bpf_update (k v : list Z) : stM BpfMap unit unit := λ m,
  if next_fault m then (set_content m (content m), Err tt) else (set_content m (<[k := v]> (content m)), Ok tt).

(** Deleting an absent key fails as well. *)
Definition bpf_delete (k : list Z) : stM BpfMap unit unit := λ m,
  if (next_fault m || bool_decide (content m !! k = None))%bool then (set_content m (content m), Err tt)
  else (set_content m (delete k (content m)), Ok tt).

(** Writing a value, or removing the key where there is none. *)
Definition bpf_write (k : list Z) (v : option (list Z)) : stM BpfMap unit unit :=
  match v with Some v => bpf_update k v | None => bpf_delete k end.

(** [map_err] on a call. *)
Definition or_fail {S E F A} (c : stM S E A) (e : F) : stM S F A := λ s,
  match c s with (s, Ok a) => (s, Ok a) | (s, Err _) => (s, Err e) end.

(** ** Values *)

Definition VERDICT_VALUE_SIZE : nat := 64.
Definition POLICY_STATE_VALUE_SIZE : nat := 16.
Definition MAX_VERDICT_ENTRIES : Z := 16384.
Definition VERDICT_BLOCK : Z := 1.
Definition VERDICT_SHAPE : Z := 2.
Definition MAX_BLOCK_CLAIMS : Z := MAX_VERDICT_ENTRIES * 2.
Definition MAX_BLOCK_OWNERS_PER_ALIAS : Z := 16.

Record VerdictIdentity := mkIdentity { flow_hash : list Z; policy_hash : list Z; id_client_mac : list Z }.

Record BlockClaim := mkClaim {
  claim_identity : VerdictIdentity;
  generation : Z;
  expires_monotonic_ns : Z;
  observed_orientation : bool;
}.

Record BlockClaims := mkClaims {
  claim_aliases : gmap FlowKey (list BlockClaim);
  claim_count : Z;
  next_expired_sweep_ns : Z;
}.

Definition no_claims : BlockClaims := mkClaims ∅ 0 0.

Inductive VerdictError :=
| NotReady
| MapUnavailable
| BadFlowIdentity
| BadClientMac
| BadAlias
| BadShapeTag
| AliasCount
| ReadFailed
| WriteFailed (rollback_errors : nat)
| TooManyOwners
| OwnershipFull
| ResetErrors (n : nat).

Definition is_ascii (s : string) : bool := forallb (λ b, b <? 128) (str_bytes s).

(** [u8::from_str_radix(&text[from..from + 2], 16)]. *)
Definition octet_at (text : string) (from : nat) : option Z := from_hex 255 (String.substring from 2 text).

Definition flow_identity_hash (policy_flow_id : string) : result VerdictError (list Z) :=
  if (negb (str_len policy_flow_id =? 32) || negb (is_ascii policy_flow_id))%bool then Err BadFlowIdentity
  else mapR (λ i, ok_or (octet_at policy_flow_id (i * 2)) BadFlowIdentity) (seq 0 16).

Definition client_mac_identity (client_mac : string) : result VerdictError (list Z) :=
  if (negb (str_len client_mac =? 17) || negb (is_ascii client_mac))%bool then Err BadClientMac
  else mapR (λ i,
         if ((i <? 5)%nat && negb (bool_decide (str_bytes client_mac !! (i * 3 + 2)%nat = Some 58)))%bool
         then Err BadClientMac
         else ok_or (octet_at client_mac (i * 3)) BadClientMac) (seq 0 6).

Definition valid_application_classid (hook classid : Z) : bool :=
  let major := Z.shiftr classid 16 in
  let minor := Z.land classid 65535 in
  if hook =? 1 then ((major =? UPLOAD_MAJOR) && in_range APPLICATION_FIRST APPLICATION_LAST minor)%bool
  else if hook =? 2 then ((major =? DOWNLOAD_MAJOR) && in_range APPLICATION_FIRST APPLICATION_LAST minor)%bool
  else false.

Definition valid_shape_tag (hook tag : Z) : bool :=
  (valid_application_classid hook tag
   || (((hook =? 1) || (hook =? 2)) && in_range 1 MAX_APPLICATION_TAG tag))%bool.

Definition same_observed_orientation (alias observed : FlowKey) : bool :=
  ((ip_version alias =? ip_version observed) && (protocol alias =? protocol observed)
   && (direction alias =? direction observed) && (ifindex alias =? ifindex observed)
   && bool_decide (source_address alias = source_address observed)
   && bool_decide (destination_address alias = destination_address observed)
   && (source_port alias =? source_port observed) && (destination_port alias =? destination_port observed))%bool.

Section values.
Context (big_endian : bool).

Definition encode_verdict (expires generation : Z) (i : VerdictIdentity) (policy_tag verdict : Z) : list Z :=
  let value := replicate VERDICT_VALUE_SIZE 0 in
  let value := list_inserts 0 (ne_bytes big_endian 8 expires) value in
  let value := list_inserts 8 (ne_bytes big_endian 8 generation) value in
  let value := list_inserts 16 (flow_hash i) value in
  let value := list_inserts 32 (policy_hash i) value in
  let value := list_inserts 48 (id_client_mac i) value in
  let value := list_inserts 56 (ne_bytes big_endian 4 policy_tag) value in
  <[60%nat := verdict]> value.

Definition encode_policy_state (enabled : bool) (generation : Z) : list Z :=
  let value := replicate POLICY_STATE_VALUE_SIZE 0 in
  let value := <[0%nat := if enabled then 1 else 0]> value in
  list_inserts 8 (ne_bytes big_endian 8 generation) value.

Definition block_claim_matches_value (c : BlockClaim) (value : list Z) : bool :=
  (bool_decide (length value = VERDICT_VALUE_SIZE)
   && (value !!! 60%nat =? VERDICT_BLOCK)
   && bool_decide (slice 8 16 value = ne_bytes big_endian 8 (generation c))
   && bool_decide (slice 16 32 value = flow_hash (claim_identity c))
   && bool_decide (slice 32 48 value = policy_hash (claim_identity c))
   && bool_decide (slice 48 54 value = id_client_mac (claim_identity c)))%bool.

Definition matches_current (current : option (list Z)) (c : BlockClaim) : bool :=
  match current with Some value => block_claim_matches_value c value | None => false end.

(** The key [(observed_orientation, matches the current value)]. *)
Definition claim_rank (current : option (list Z)) (c : BlockClaim) : Z :=
  (if observed_orientation c then 2 else 0) + (if matches_current current c then 1 else 0).

Definition select_block_claim (claims : list BlockClaim) (current : option (list Z)) : option BlockClaim :=
  max_by (λ a b, claim_rank current a <=? claim_rank current b) claims.

Definition encode_block_claim (c : BlockClaim) (claims : list BlockClaim) : list Z :=
  encode_verdict
    match claims with
    | [] => expires_monotonic_ns c
    | o :: rest => foldl Z.max (expires_monotonic_ns o) (expires_monotonic_ns <$> rest)
    end (generation c) (claim_identity c) 0 VERDICT_BLOCK.

Definition shape_owner_from_value (k : FlowKey) (value : list Z) (gen now : Z) : option (string * Z) :=
  if (negb (bool_decide (length value = VERDICT_VALUE_SIZE)) || negb (value !!! 60%nat =? VERDICT_SHAPE))%bool then None
  else
    let expiry := from_ne_bytes big_endian (slice 0 8 value) in
    let installed_generation := from_ne_bytes big_endian (slice 8 16 value) in
    let tag := from_ne_bytes big_endian (slice 56 60 value) in
    if ((expiry <=? now) || negb (installed_generation =? gen) || negb (valid_shape_tag (hook k) tag))%bool then None
    else Some (hex_bytes (slice 16 32 value), tag).

(** [endpoint_block::key]. *)
Definition endpoint_key (alias : FlowKey) (client_mac : list Z) : list Z :=
  let bytes := replicate 44 0 in
  let bytes := <[0%nat := ip_version alias]> bytes in
  let bytes := <[1%nat := protocol alias]> bytes in
  let bytes := list_inserts 2 (be_bytes 2 (destination_port alias)) bytes in
  let bytes := list_inserts 4 (source_address alias) bytes in
  let bytes := list_inserts 20 (destination_address alias) bytes in
  list_inserts 36 client_mac bytes.

End values.

(** ** The writer *)

Record FlowVerdictWriter := mkWriter {
  verdict_map : option BpfMap;
  endpoint_map : option BpfMap;
  policy_state_map : option BpfMap;
  ready : bool;
  block_claims : BlockClaims;
}.

(** The sizes a map was created with. *)
Record MapAbi := mkAbi { key_size : Z; value_size : Z; max_entries : Z }.

Definition abi_matches (verdict endpoint policy_state : MapAbi) : bool :=
  ((key_size verdict =? 44) && (value_size verdict =? 64) && (max_entries verdict =? MAX_VERDICT_ENTRIES)
   && (key_size policy_state =? 4) && (value_size policy_state =? 16)
   && (key_size endpoint =? 44) && (value_size endpoint =? 64) && (max_entries endpoint =? 8192))%bool.

Definition writer_new (verdict endpoint policy_state : MapAbi * BpfMap) : FlowVerdictWriter :=
  mkWriter (Some (snd verdict)) (Some (snd endpoint)) (Some (snd policy_state))
    (abi_matches (fst verdict) (fst endpoint) (fst policy_state)) no_claims.

Definition writer_unavailable : FlowVerdictWriter := mkWriter None None None false no_claims.

Definition set_verdicts (w : FlowVerdictWriter) (m : BpfMap) (c : BlockClaims) : FlowVerdictWriter :=
  mkWriter (Some m) (endpoint_map w) (policy_state_map w) (ready w) c.

(** [applied.iter().rev()]: the failed calls of a rollback are counted. *)
Fixpoint rollback (applied : list (list Z * option (list Z))) (m : BpfMap) : BpfMap * nat :=
  match applied with
  | [] => (m, 0%nat)
  | (k, v) :: applied =>
    let '(m, r) := bpf_write k v m in
    let '(m, n) := rollback applied m in
    (m, if is_ok r then n else S n)
  end.

(** A write after which [rest] goes on; where it fails, what was [applied] is
    rolled back. *)
Definition try_write {A} (k : list Z) (v : option (list Z)) (applied : list (list Z * option (list Z)))
    (rest : stM BpfMap VerdictError A) : stM BpfMap VerdictError A := λ m,
  match bpf_write k v m with
  | (m, Ok _) => rest m
  | (m, Err _) => let '(m, n) := rollback applied m in (m, Err (WriteFailed n))
  end.

(** [apply_verdict_updates]; [applied] is kept in the order of the rollback. *)
Fixpoint apply_updates (applied : list (list Z * option (list Z)))
    (updates : list (list Z * option (list Z) * option (list Z))) : stM BpfMap VerdictError unit :=
  match updates with
  | [] => mret tt
  | (k, previous, next) :: updates =>
    if bool_decide (previous = next) then apply_updates applied updates
    else try_write k next applied (apply_updates ((k, previous) :: applied) updates)
  end.

Definition apply_verdict_updates := apply_updates [].

Record Staged := mkStaged {
  st_alias : FlowKey;
  st_key : list Z;
  st_previous : option (list Z);
  st_claims : list BlockClaim;
  st_next : option (list Z);
}.

Definition update_of (s : Staged) : list Z * option (list Z) * option (list Z) := (st_key s, st_previous s, st_next s).

(** Recording the claims of an alias; one without claims is dropped ([install]
    always records at least the new claim). *)
Definition record_claims (reg : gmap FlowKey (list BlockClaim)) (s : Staged) : gmap FlowKey (list BlockClaim) :=
  match st_claims s with [] => delete (st_alias s) reg | cs => <[st_alias s := cs]> reg end.

(** [filter(|alias| seen.insert(alias))]: the first occurrence of each key. *)
Fixpoint first_seen_in (seen : gset FlowKey) (l : list FlowKey) : list FlowKey :=
  match l with
  | [] => []
  | a :: l => if bool_decide (a ∈ seen) then first_seen_in seen l else a :: first_seen_in ({[a]} ∪ seen) l
  end.
Definition first_seen : list FlowKey → list FlowKey := first_seen_in ∅.

Definition exact_key (k : FlowKey) : bool :=
  (((ip_version k =? 4) || (ip_version k =? 6)) && ((protocol k =? 6) || (protocol k =? 17))
   && ((hook k =? 1) || (hook k =? 2)) && negb (ifindex k =? 0))%bool.

(** The sum of the claims in the registry. *)
Definition total_claims (aliases : gmap FlowKey (list BlockClaim)) : Z :=
  map_fold (λ _ cs n, zlen cs + n) 0 aliases.

Definition sweep (now : Z) (wanted : Z) (r : BlockClaims) : BlockClaims :=
  if ((MAX_BLOCK_CLAIMS <? claim_count r + wanted) && (next_expired_sweep_ns r <=? now))%bool then
    let kept := filter (λ e : FlowKey * list BlockClaim,
                          existsb (λ c, now <? expires_monotonic_ns c) (snd e) = true) (claim_aliases r) in
    mkClaims kept (total_claims kept) (Z.min u64_max (now + 1000000000))
  else r.

Section writer.
Context (big_endian : bool).

Abbreviation matches_value := (block_claim_matches_value big_endian).

(** The claims on an alias after the one of [identity] is added. *)
Definition joined_claims (observed : list FlowKey) (i : VerdictIdentity) (gen expires now : Z) (alias : FlowKey)
    (previous : option (list Z)) (old : list BlockClaim) : list BlockClaim :=
  let claims :=
    match previous with
    | Some value => if existsb (λ c, matches_value c value) old then old else []
    | None => []
    end in
  let claims := List.filter (λ c, now <? expires_monotonic_ns c) claims in
  let claims :=
    if existsb (λ c, negb (generation c =? gen)
                     || negb (bool_decide (policy_hash (claim_identity c) = policy_hash i))
                     || negb (bool_decide (id_client_mac (claim_identity c) = id_client_mac i)))%bool claims
    then [] else claims in
  List.filter (λ c, negb (bool_decide (flow_hash (claim_identity c) = flow_hash i))) claims
  ++ [mkClaim i gen expires (existsb (same_observed_orientation alias) observed)].

(** What the loop of [install_owned_block] decides for an alias, from the value
    in the map and the claims on record: the claims and the value to be. *)
Definition block_plan (observed : list FlowKey) (i : VerdictIdentity) (gen expires now : Z) (alias : FlowKey)
    (previous : option (list Z)) (old : list BlockClaim) : result VerdictError (list BlockClaim * option (list Z)) :=
  let claims := joined_claims observed i gen expires now alias previous old in
  if MAX_BLOCK_OWNERS_PER_ALIAS <? zlen claims then Err TooManyOwners
  else Ok (claims, (λ winner, encode_block_claim big_endian winner claims) <$> select_block_claim big_endian claims previous).

(** One iteration of the loops that stage changes: read, decide, count. *)
Definition stage (plan : FlowKey → option (list Z) → list BlockClaim → result VerdictError (list BlockClaim * option (list Z)))
    (registry : gmap FlowKey (list BlockClaim)) (st : Z * list Staged) (alias : FlowKey)
    : stM BpfMap VerdictError (Z * list Staged) :=
  let key := bpf_key_bytes big_endian alias in
  previous ← or_fail (bpf_lookup key) ReadFailed;
  let old := default [] (registry !! alias) in
  '(claims, next) ← lift (plan alias previous old);
  mret (Z.max 0 (fst st - zlen old) + zlen claims, snd st ++ [mkStaged alias key previous claims next]).

Definition install_owned_block (w : FlowVerdictWriter) (aliases observed_aliases : list FlowKey) (i : VerdictIdentity)
    (gen expires now : Z) : FlowVerdictWriter * result VerdictError Z :=
  if negb (ready w) then (w, Err NotReady)
  else if (bool_decide (aliases = []) || (8 <? zlen aliases) || existsb (λ k, negb (exact_key k)) aliases
           || negb (bool_decide (NoDup aliases)))%bool then (w, Err BadAlias)
  else match verdict_map w with
  | None => (w, Err MapUnavailable)
  | Some m =>
    let r := sweep now (zlen aliases) (block_claims w) in
    let '(m, staged) :=
      foldS (stage (block_plan observed_aliases i gen expires now) (claim_aliases r)) (claim_count r, []) aliases m in
    match staged with
    | Err e => (set_verdicts w m r, Err e)
    | Ok (count, staged) =>
      if MAX_BLOCK_CLAIMS <? count then (set_verdicts w m r, Err OwnershipFull)
      else match apply_verdict_updates (update_of <$> staged) m with
           | (m, Err e) => (set_verdicts w m r, Err e)
           | (m, Ok _) =>
             (set_verdicts w m (mkClaims (foldl record_claims (claim_aliases r) staged) count (next_expired_sweep_ns r)), Ok (zlen aliases))
           end
    end
  end.

Definition install_block `{Digest} (w : FlowVerdictWriter) (aliases observed_aliases : list FlowKey)
    (policy_flow_id policy_id client_mac : string) (gen expires now : Z) : FlowVerdictWriter * result VerdictError Z :=
  match
    f ← flow_identity_hash policy_flow_id;
    c ← client_mac_identity client_mac;
    Ok (mkIdentity f (take 16 (sha256_digest (str_bytes policy_id))) c)
  with
  | Err e => (w, Err e)
  | Ok i => install_owned_block w aliases observed_aliases i gen expires now
  end.

(** The claims that survive a revocation of the flow [expected]. *)
Definition remaining_claims (expected : option (list Z)) (now : Z) (known : bool) (old : list BlockClaim) : list BlockClaim :=
  List.filter (λ c, (now <? expires_monotonic_ns c)
                    && match expected with
                       | Some e => negb (bool_decide (flow_hash (claim_identity c) = e))
                       | None => false
                       end)%bool (if known then old else []).

(** [value.get(16..32) == Some(&expected)]. *)
Definition owned_by (expected : option (list Z)) (value : list Z) : bool :=
  match expected with
  | None => true
  | Some e => ((32 <=? length value)%nat && bool_decide (slice 16 32 value = e))%bool
  end.

(** What the loop of [clear_aliases] decides for an alias. *)
Definition clear_plan (expected : option (list Z)) (now : Z) (alias : FlowKey) (previous : option (list Z))
    (old : list BlockClaim) : result VerdictError (list BlockClaim * option (list Z)) :=
  let known := match previous with Some v => existsb (λ c, matches_value c v) old | None => false end in
  let claims := remaining_claims expected now known old in
  let is_target := match previous with Some v => owned_by expected v | None => false end in
  let next :=
    if known then (λ c, encode_block_claim big_endian c claims) <$> select_block_claim big_endian claims previous
    else if is_target then None
    else previous in
  Ok (claims, next).

Definition clear_aliases (w : FlowVerdictWriter) (aliases : list FlowKey) (expected_flow_id : option string) (now : Z)
    : FlowVerdictWriter * result VerdictError Z :=
  if negb (ready w) then (w, Err NotReady)
  else match verdict_map w with
  | None => (w, Err MapUnavailable)
  | Some m =>
    match match expected_flow_id with None => Ok None | Some f => Some <$> flow_identity_hash f end with
    | Err e => (w, Err e)
    | Ok expected =>
      let r := block_claims w in
      match foldS (stage (clear_plan expected now) (claim_aliases r)) (claim_count r, []) (first_seen aliases) m with
      | (m, Err e) => (set_verdicts w m r, Err e)
      | (m, Ok (count, staged)) =>
        match apply_verdict_updates (update_of <$> staged) m with
        | (m, Err e) => (set_verdicts w m r, Err e)
        | (m, Ok _) =>
          let removed := zlen (List.filter (λ s, bool_decide (is_Some (st_previous s)) && bool_decide (st_next s = None))%bool staged) in
          (set_verdicts w m (mkClaims (foldl record_claims (claim_aliases r) staged) count (next_expired_sweep_ns r)), Ok removed)
        end
      end
    end
  end.

(** The loop of [install_verdict] and of [remember_endpoint_blocks]: each value
    is read, then written; a failed write rolls back, a failed read does not. *)
Fixpoint write_each (previous_values : list (list Z * option (list Z))) (writes : list (list Z * list Z))
    : stM BpfMap VerdictError Z :=
  match writes with
  | [] => mret (zlen previous_values)
  | (k, v) :: writes =>
    previous ← or_fail (bpf_lookup k) ReadFailed;
    try_write k (Some v) previous_values (write_each ((k, previous) :: previous_values) writes)
  end.

Definition install_verdict (w : FlowVerdictWriter) (aliases : list (FlowKey * Z)) (i : VerdictIdentity)
    (gen expires verdict : Z) : FlowVerdictWriter * result VerdictError Z :=
  if negb (ready w) then (w, Err NotReady)
  else if (bool_decide (aliases = []) || (8 <? zlen aliases))%bool then (w, Err AliasCount)
  else if existsb (λ '(k, classid), negb (exact_key k) || ((verdict =? VERDICT_SHAPE) && negb (valid_shape_tag (hook k) classid)))%bool
            aliases then (w, Err BadAlias)
  else match verdict_map w with
  | None => (w, Err MapUnavailable)
  | Some m =>
    let '(m, r) := write_each []
      ((λ '(k, classid), (bpf_key_bytes big_endian k, encode_verdict big_endian expires gen i classid verdict)) <$> aliases) m in
    (set_verdicts w m (block_claims w), r)
  end.

(** A shape supersedes the block claims on its alias. *)
Definition drop_claims (r : BlockClaims) (a : FlowKey * Z) : BlockClaims :=
  match claim_aliases r !! fst a with
  | Some removed =>
    mkClaims (delete (fst a) (claim_aliases r)) (Z.max 0 (claim_count r - zlen removed)) (next_expired_sweep_ns r)
  | None => r
  end.

Definition install_shape (w : FlowVerdictWriter) (aliases : list (FlowKey * Z)) (policy_flow_id : string)
    (gen expires : Z) : FlowVerdictWriter * result VerdictError Z :=
  if existsb (λ '(k, classid), (ifindex k =? 0) || negb (valid_shape_tag (hook k) classid))%bool aliases then (w, Err BadShapeTag)
  else match flow_identity_hash policy_flow_id with
  | Err e => (w, Err e)
  | Ok f =>
    match install_verdict w aliases (mkIdentity f (replicate 16 0) (replicate 6 0)) gen expires VERDICT_SHAPE with
    | (w, Err e) => (w, Err e)
    | (w, Ok n) =>
      (mkWriter (verdict_map w) (endpoint_map w) (policy_state_map w) (ready w)
         (foldl drop_claims (block_claims w) aliases), Ok n)
    end
  end.

Definition active_shape_owner (w : FlowVerdictWriter) (k : FlowKey) (gen now : Z) : FlowVerdictWriter * option (string * Z) :=
  match verdict_map w with
  | None => (w, None)
  | Some m =>
    let '(m, r) := bpf_lookup (bpf_key_bytes big_endian k) m in
    (set_verdicts w m (block_claims w),
     match r with Ok (Some value) => shape_owner_from_value big_endian k value gen now | _ => None end)
  end.

Definition set_endpoints (w : FlowVerdictWriter) (m : BpfMap) : FlowVerdictWriter :=
  mkWriter (verdict_map w) (Some m) (policy_state_map w) (ready w) (block_claims w).

Definition remember_endpoint_blocks `{Digest} (w : FlowVerdictWriter) (aliases : list FlowKey)
    (policy_flow_id policy_id client_mac : string) (gen expires : Z) : FlowVerdictWriter * result VerdictError Z :=
  if negb (ready w) then (w, Err NotReady)
  else match endpoint_map w with
  | None => (w, Err MapUnavailable)
  | Some m =>
    match c ← client_mac_identity client_mac; f ← flow_identity_hash policy_flow_id; Ok (c, f) with
    | Err e => (w, Err e)
    | Ok (c, f) =>
      let value := encode_verdict big_endian expires gen
                     (mkIdentity f (take 16 (sha256_digest (str_bytes policy_id))) c) 0 VERDICT_BLOCK in
      let '(m, r) := write_each [] ((λ a, (endpoint_key a c, value)) <$> aliases) m in
      (set_endpoints w m, r)
    end
  end.

Definition forget_endpoint (k : list Z) : stM BpfMap VerdictError unit :=
  v ← or_fail (bpf_lookup k) ReadFailed;
  match v with Some _ => or_fail (bpf_delete k) (WriteFailed 0) | None => mret tt end.

Definition forget_endpoint_blocks (w : FlowVerdictWriter) (aliases : list FlowKey) (client_mac : string)
    : FlowVerdictWriter * result VerdictError unit :=
  match endpoint_map w with
  | None => (w, Err MapUnavailable)
  | Some m =>
    match client_mac_identity client_mac with
    | Err e => (w, Err e)
    | Ok c =>
      let '(m, r) := foldS (λ _ a, forget_endpoint (endpoint_key a c)) tt aliases m in
      (set_endpoints w m, r)
    end
  end.

(** Deleting the keys a map had; the failures are counted. *)
Fixpoint delete_each (keys : list (list Z)) (m : BpfMap) : BpfMap * nat :=
  match keys with
  | [] => (m, 0%nat)
  | k :: keys =>
    let '(m, r) := bpf_delete k m in
    let '(m, n) := delete_each keys m in
    (m, if is_ok r then n else S n)
  end.

Definition map_keys (m : BpfMap) : list (list Z) := fst <$> map_to_list (content m).

(** The errors of [write_policy_state]: one, or none. *)
Definition write_policy_state (w : FlowVerdictWriter) (enabled : bool) (gen : Z) : FlowVerdictWriter * nat :=
  match policy_state_map w with
  | None => (w, 1%nat)
  | Some m =>
    let '(m, r) := bpf_update (ne_bytes big_endian 4 0) (encode_policy_state big_endian enabled gen) m in
    (mkWriter (verdict_map w) (endpoint_map w) (Some m) (ready w) (block_claims w), if is_ok r then 0%nat else 1%nat)
  end.

Definition writer_reset (w : FlowVerdictWriter) (gen : Z) (enabled : bool) : FlowVerdictWriter * result VerdictError unit :=
  if negb (ready w) then (w, Err NotReady)
  else match verdict_map w with
  | None => (w, Err MapUnavailable)
  | Some m =>
    let '(w, n0) := write_policy_state w false gen in
    let '(m, n1) := delete_each (map_keys m) m in
    let w := set_verdicts w m no_claims in
    let '(w, n2) :=
      match endpoint_map w with
      | None => (w, 0%nat)
      | Some em => let '(em, n) := delete_each (map_keys em) em in (set_endpoints w em, n)
      end in
    let errors := (n0 + n1 + n2)%nat in
    let '(w, n3) := write_policy_state w (enabled && bool_decide (errors = 0%nat))%bool gen in
    let errors := (errors + n3)%nat in
    (w, if bool_decide (errors = 0%nat) then Ok tt else Err (ResetErrors errors))
  end.

End writer.

(** ** Values *)

Record identity_wf (i : VerdictIdentity) : Prop := {
  iw_flow : length (flow_hash i) = 16%nat;
  iw_policy : length (policy_hash i) = 16%nat;
  iw_mac : length (id_client_mac i) = 6%nat;
}.

Section value_facts.
Context (big_endian : bool).

Lemma encode_verdict_concat expires gen i tag v : identity_wf i →
  encode_verdict big_endian expires gen i tag v =
    ne_bytes big_endian 8 expires ++ ne_bytes big_endian 8 gen ++ flow_hash i ++ policy_hash i ++ id_client_mac i
    ++ [0; 0] ++ ne_bytes big_endian 4 tag ++ [v; 0; 0; 0].
Proof.
  intros [Hf Hp Hm]. unfold encode_verdict.
  pose proof (length_ne_bytes big_endian 8 expires) as He. pose proof (length_ne_bytes big_endian 8 gen) as Hg.
  pose proof (length_ne_bytes big_endian 4 tag) as Ht.
  generalize dependent (ne_bytes big_endian 8 expires). generalize dependent (ne_bytes big_endian 8 gen).
  generalize dependent (ne_bytes big_endian 4 tag). generalize dependent (flow_hash i).
  generalize dependent (policy_hash i). generalize dependent (id_client_mac i). intros c Hc p Hp f Hf t Ht g Hg e He.
  do 17 (destruct f as [|? f]; try discriminate Hf). do 17 (destruct p as [|? p]; try discriminate Hp).
  do 7 (destruct c as [|? c]; try discriminate Hc). do 5 (destruct t as [|? t]; try discriminate Ht).
  do 9 (destruct g as [|? g]; try discriminate Hg). do 9 (destruct e as [|? e]; try discriminate He). reflexivity.
Qed.

(** Reading the fields back. *)
Lemma verdict_fields e g f p c t v :
  length e = 8%nat → length g = 8%nat → length f = 16%nat → length p = 16%nat → length c = 6%nat → length t = 4%nat →
  let value := e ++ g ++ f ++ p ++ c ++ [0; 0] ++ t ++ [v; 0; 0; 0] in
  length value = VERDICT_VALUE_SIZE ∧ value !!! 60%nat = v ∧ slice 0 8 value = e ∧ slice 8 16 value = g ∧
  slice 16 32 value = f ∧ slice 32 48 value = p ∧ slice 48 54 value = c ∧ slice 56 60 value = t.
Proof.
  intros He Hg Hf Hp Hc Ht.
  do 17 (destruct f as [|? f]; try discriminate Hf). do 17 (destruct p as [|? p]; try discriminate Hp).
  do 7 (destruct c as [|? c]; try discriminate Hc). do 5 (destruct t as [|? t]; try discriminate Ht).
  do 9 (destruct g as [|? g]; try discriminate Hg). do 9 (destruct e as [|? e]; try discriminate He).
  repeat split.
Qed.

Lemma encoded_fields expires gen i tag v : identity_wf i →
  let value := encode_verdict big_endian expires gen i tag v in
  length value = VERDICT_VALUE_SIZE ∧ value !!! 60%nat = v ∧ slice 0 8 value = ne_bytes big_endian 8 expires ∧
  slice 8 16 value = ne_bytes big_endian 8 gen ∧ slice 16 32 value = flow_hash i ∧ slice 32 48 value = policy_hash i ∧
  slice 48 54 value = id_client_mac i ∧ slice 56 60 value = ne_bytes big_endian 4 tag.
Proof.
  intros Hi. cbn zeta. rewrite encode_verdict_concat by done. destruct Hi.
  apply verdict_fields; (done || apply length_ne_bytes).
Qed.

(** A value carries the block of a claim, with the given expiry. *)
Definition blocks_as (c : BlockClaim) (expires : Z) (value : list Z) : Prop :=
  value = encode_verdict big_endian expires (generation c) (claim_identity c) 0 VERDICT_BLOCK.

Lemma encoded_block_matches c expires : identity_wf (claim_identity c) →
  block_claim_matches_value big_endian c
    (encode_verdict big_endian expires (generation c) (claim_identity c) 0 VERDICT_BLOCK) = true.
Proof.
  intros Hi. unfold block_claim_matches_value.
  destruct (encoded_fields expires (generation c) (claim_identity c) 0 VERDICT_BLOCK Hi)
    as (-> & -> & _ & -> & -> & -> & -> & _).
  by rewrite !bool_decide_eq_true_2.
Qed.

Lemma shape_owner_encoded k expires gen i tag now : identity_wf i → Forall is_u8 (flow_hash i) →
  is_u64 expires → is_u64 gen → is_u32 tag → now < expires → valid_shape_tag (hook k) tag = true →
  shape_owner_from_value big_endian k (encode_verdict big_endian expires gen i tag VERDICT_SHAPE) gen now =
  Some (hex_bytes (flow_hash i), tag).
Proof.
  intros Hi Hf He Hg Ht Hn Hv. unfold shape_owner_from_value.
  destruct (encoded_fields expires gen i tag VERDICT_SHAPE Hi) as (-> & -> & -> & -> & -> & _ & _ & ->).
  rewrite !from_ne_bytes_of, bool_decide_eq_true_2, !Z.eqb_refl, Hv, (proj2 (Z.leb_gt expires now)) by done. done.
Qed.

End value_facts.

(** ** Writes are all or nothing *)

Definition written (k : list Z) (v : option (list Z)) (c : gmap (list Z) (list Z)) : gmap (list Z) (list Z) :=
  match v with Some v => <[k := v]> c | None => delete k c end.

Lemma written_lookup k v c k' : written k v c !! k' = if decide (k = k') then v else c !! k'.
Proof. unfold written. case_decide as Hk; destruct v; subst; by simplify_map_eq. Qed.

Lemma bpf_write_cases k v m m' r : bpf_write k v m = (m', r) →
  match r with Ok _ => content m' = written k v (content m) | Err _ => content m' = content m end.
Proof.
  unfold bpf_write, bpf_update, bpf_delete. destruct v; [destruct (next_fault m)|destruct (_ || _)%bool]; by intros [= <- <-].
Qed.

Lemma bpf_lookup_cases k m m' r : bpf_lookup k m = (m', r) →
  content m' = content m ∧ match r with Ok v => v = content m !! k | Err _ => True end.
Proof. unfold bpf_lookup. destruct (next_fault m); by intros [= <- <-]. Qed.

(** What was applied so far, newest first. *)
Inductive applied_to (c0 : gmap (list Z) (list Z)) : list (list Z * option (list Z)) → gmap (list Z) (list Z) → Prop :=
| applied_nil : applied_to c0 [] c0
| applied_cons k p next applied c :
    applied_to c0 applied c → c !! k = p → p ≠ next → applied_to c0 ((k, p) :: applied) (written k next c).

Lemma rollback_clean c0 applied c m m' :
  applied_to c0 applied c → content m = c → rollback applied m = (m', 0%nat) → content m' = c0.
Proof.
  intros Ha. revert m m'. induction Ha as [|k p next applied c Ha IH Hp Hne]; intros m m' Hm Hr; cbn [rollback] in Hr.
  { by injection Hr as <-. }
  destruct (bpf_write k p m) as [m1 r1] eqn:Hw. destruct (rollback applied m1) as [m2 n] eqn:Hr2.
  destruct r1 as [u|e]; cbn in Hr; [|by simplify_eq]. injection Hr as -> ->.
  apply bpf_write_cases in Hw. eapply IH; [|exact Hr2]. rewrite Hw, Hm. apply map_eq. intros k'.
  rewrite !written_lookup. case_decide; by subst.
Qed.

(** The content after all the updates. *)
Definition apply_all (us : list (list Z * option (list Z) * option (list Z))) (c : gmap (list Z) (list Z)) :=
  foldl (λ c '(k, _, next), written k next c) c us.

Lemma apply_updates_cases c0 applied us c m m' r :
  applied_to c0 applied c → content m = c →
  NoDup ((λ u, fst (fst u)) <$> us) → (∀ k p n, (k, p, n) ∈ us → c !! k = p) →
  apply_updates applied us m = (m', r) →
  match r with
  | Ok _ => content m' = apply_all us c
  | Err e => ∃ n, e = WriteFailed n ∧ (n = 0%nat → content m' = c0)
  end.
Proof.
  revert applied c m. induction us as [|[[k p] next] us IH]; intros applied c m Ha Hm Hnd Hprev Hr; cbn [apply_updates] in Hr.
  { by injection Hr as <- <-. }
  rewrite fmap_cons, NoDup_cons in Hnd. destruct Hnd as [Hnin Hnd]. cbn [fst] in Hnin.
  assert (c !! k = p) as Hk by (apply (Hprev k p next); left).
  assert (∀ k', (k' ∈ (λ u : list Z * option (list Z) * option (list Z), fst (fst u)) <$> us) → k ≠ k') as Hother
    by (intros k' ? ->; done).
  cbn [apply_all foldl]. case_bool_decide as Heq.
  - assert (written k next c = c) as ->.
    { apply map_eq. intros k'. rewrite written_lookup. case_decide; by subst. }
    eapply (IH applied c m); try done. intros k' p' n' Hin. apply (Hprev k' p' n'). by right.
  - unfold try_write in Hr. destruct (bpf_write k next m) as [m1 [u|e]] eqn:Hw; apply bpf_write_cases in Hw.
    + eapply (IH _ (written k next c) m1); [by econstructor|by rewrite Hw, Hm|done| |exact Hr].
      intros k' p' n' Hin. rewrite written_lookup, decide_False.
      * apply (Hprev k' p' n'). by right.
      * apply Hother. by apply (list_elem_of_fmap_2 (λ u, fst (fst u)) us (k', p', n')).
    + destruct (rollback applied m1) as [m2 n] eqn:Hroll. injection Hr as <- <-. exists n. split; [done|]. intros ->.
      eapply rollback_clean; [exact Ha|by rewrite Hw, Hm|exact Hroll].
Qed.

Lemma apply_all_lookup us c k : NoDup ((λ u, fst (fst u)) <$> us) →
  apply_all us c !! k = match List.find (λ u, bool_decide (fst (fst u) = k)) us with Some u => snd u | None => c !! k end.
Proof.
  revert c. induction us as [|[[k' p] next] us IH]; intros c Hnd; [done|].
  rewrite fmap_cons, NoDup_cons in Hnd. destruct Hnd as [Hnin Hnd].
  change (apply_all ((k', p, next) :: us) c) with (apply_all us (written k' next c)).
  rewrite (IH _ Hnd). cbn [List.find fst snd]. case_bool_decide as Hk.
  - subst k'. destruct (List.find _ us) as [u|] eqn:Hf; [|by rewrite written_lookup, decide_True].
    apply find_Some_elem in Hf as [Hin Hu]. apply bool_decide_eq_true in Hu. destruct Hnin.
    apply list_elem_of_fmap. exists u. split; [by rewrite Hu|done].
  - destruct (List.find _ us); [done|]. by rewrite written_lookup, decide_False.
Qed.

(** ** Counting claims *)

Lemma total_claims_delete k m : total_claims m = zlen (default [] (m !! k)) + total_claims (delete k m).
Proof.
  unfold total_claims. destruct (m !! k) as [cs|] eqn:Hk; cbn [default].
  - rewrite (map_fold_delete_L _ _ k cs m); [done|intros; lia|done].
  - by rewrite delete_id.
Qed.

Lemma total_claims_insert k cs m : total_claims (<[k := cs]> m) = zlen cs + total_claims (delete k m).
Proof. rewrite (total_claims_delete k), lookup_insert_eq, delete_insert_eq. done. Qed.

Lemma total_claims_nonneg m : 0 ≤ total_claims m.
Proof.
  unfold total_claims. apply (map_fold_weak_ind (λ n _, 0 ≤ n)); [done|].
  intros k cs m' n _ Hn. pose proof (zlen_nonneg cs). lia.
Qed.

Lemma record_claims_lookup reg s a : record_claims reg s !! a =
  if decide (st_alias s = a) then (match st_claims s with [] => None | cs => Some cs end) else reg !! a.
Proof. unfold record_claims. case_decide as Ha; destruct (st_claims s); subst; by simplify_map_eq. Qed.

Lemma record_claims_total reg s :
  total_claims (record_claims reg s) = total_claims reg - zlen (default [] (reg !! st_alias s)) + zlen (st_claims s).
Proof.
  rewrite (total_claims_delete (st_alias s) reg). unfold record_claims.
  destruct (st_claims s) as [|c cs]; [change (zlen (@nil BlockClaim)) with 0; lia|]. rewrite total_claims_insert. lia.
Qed.

(** ** Staging *)

Section staging.
Context (big_endian : bool).
Context (plan : FlowKey → option (list Z) → list BlockClaim → result VerdictError (list BlockClaim * option (list Z))).
Context (reg : gmap FlowKey (list BlockClaim)).

Abbreviation key_of := (bpf_key_bytes big_endian).
Abbreviation old_claims a := (default [] (reg !! a)).

Definition staged_for (c : gmap (list Z) (list Z)) (a : FlowKey) (s : Staged) : Prop :=
  st_alias s = a ∧ st_key s = key_of a ∧ st_previous s = c !! key_of a ∧
  plan a (c !! key_of a) (old_claims a) = Ok (st_claims s, st_next s).

(** The running count of claims. *)
Definition recount (n : Z) (s : Staged) : Z := Z.max 0 (n - zlen (old_claims (st_alias s))) + zlen (st_claims s).

Lemma stage_step st a m m' r : stage big_endian plan reg st a m = (m', r) →
  content m' = content m ∧
  match r with
  | Ok st' => ∃ s, st' = (recount (fst st) s, snd st ++ [s]) ∧ staged_for (content m) a s
  | Err _ => True
  end.
Proof.
  unfold stage, or_fail, mbind, stM_bind. destruct (bpf_lookup _ m) as [m1 [v|e]] eqn:Hl;
    apply bpf_lookup_cases in Hl as [Hc Hv]; [|by intros [= <- <-]].
  unfold lift. destruct (plan _ _ _) as [[cs next]|e] eqn:Hp; [|by intros [= <- <-]].
  intros [= <- <-]. split; [done|]. exists (mkStaged a (key_of a) v cs next). split; [reflexivity|]. subst v. by split_and!.
Qed.

Lemma stage_loop aliases st m m' r : foldS (stage big_endian plan reg) st aliases m = (m', r) →
  content m' = content m ∧
  match r with
  | Ok st' => ∃ new, st' = (foldl recount (fst st) new, snd st ++ new) ∧ Forall2 (staged_for (content m)) aliases new
  | Err _ => True
  end.
Proof.
  revert st m. induction aliases as [|a aliases IH]; intros st m Hf; cbn [foldS] in Hf.
  { injection Hf as <- <-. split; [done|]. exists []. rewrite app_nil_r. split; [by destruct st|constructor]. }
  unfold mbind, stM_bind in Hf. destruct (stage _ _ _ _ _ m) as [m1 [st1|e]] eqn:Hs; apply stage_step in Hs as [Hc Hs].
  - destruct Hs as (s & -> & Hst). destruct (IH _ _ Hf) as [Hc' Hr]. split; [congruence|].
    destruct r as [st'|e]; [|done]. destruct Hr as (new & -> & Hnew). exists (s :: new). cbn [fst snd foldl].
    split; [by rewrite <- (assoc_L (++))|]. constructor; [done|by rewrite <- Hc].
  - by injection Hf as <- <-.
Qed.

Lemma staged_keys c aliases new : Forall2 (staged_for c) aliases new →
  (λ u, fst (fst u)) <$> (update_of <$> new) = key_of <$> aliases.
Proof. induction 1 as [|a s aliases new (_ & Hk & _) Hall IH]; [done|]. rewrite !fmap_cons. cbn. by rewrite IH, Hk. Qed.

Lemma staged_previous c aliases new k p n : Forall2 (staged_for c) aliases new →
  (k, p, n) ∈ update_of <$> new → c !! k = p.
Proof.
  induction 1 as [|a s aliases new (_ & Hk & Hp & _) Hall IH]; rewrite ?fmap_cons; [by intros []%elem_of_nil|].
  intros [[= -> -> ->]|Hin]%elem_of_cons; [congruence|auto].
Qed.

Lemma NoDup_key_of aliases : Forall key_wf aliases → NoDup aliases → NoDup (key_of <$> aliases).
Proof.
  intros Hwf Hnd. apply NoDup_fmap_2_strong; [|done]. intros x y Hx Hy. rewrite Forall_forall in Hwf.
  apply key_bytes_inj; auto.
Qed.

Lemma apply_all_staged c aliases new : Forall key_wf aliases → NoDup aliases → Forall2 (staged_for c) aliases new →
  Forall2 (λ a s, staged_for c a s ∧ apply_all (update_of <$> new) c !! key_of a = st_next s) aliases new ∧
  (∀ k, (k ∉ key_of <$> aliases) → apply_all (update_of <$> new) c !! k = c !! k).
Proof.
  intros Hwf Hnd Hall. pose proof (staged_keys _ _ _ Hall) as Hkeys. pose proof (NoDup_key_of _ Hwf Hnd) as Hndk.
  rewrite <- Hkeys in Hndk. split.
  - eapply Forall2_elem_impl; [exact Hall|]. intros a s Ha Hin Hst. split; [done|]. rewrite apply_all_lookup by done.
    destruct (List.find _ _) as [u|] eqn:Hf.
    + apply find_Some_elem in Hf as [Hu Huk]. apply bool_decide_eq_true in Huk.
      assert (u = update_of s) as ->; [|done].
      apply (NoDup_key_inj (λ u, fst (fst u)) (update_of <$> new)); [done|done|by apply list_elem_of_fmap_2|].
      rewrite Huk. symmetry. apply Hst.
    + exfalso. pose proof (find_none _ _ Hf (update_of s)) as Hno. rewrite <- list_elem_of_In in Hno.
      specialize (Hno (list_elem_of_fmap_2 _ _ _ Hin)). apply bool_decide_eq_false in Hno. destruct Hno. apply Hst.
  - intros k Hk. rewrite apply_all_lookup by done. destruct (List.find _ _) as [u|] eqn:Hf; [|done].
    apply find_Some_elem in Hf as [Hu Huk]. apply bool_decide_eq_true in Huk. destruct Hk. rewrite <- Hkeys, <- Huk.
    by apply (list_elem_of_fmap_2 (λ u, fst (fst u))).
Qed.

Lemma record_all_lookup c aliases new reg' : NoDup aliases → Forall2 (staged_for c) aliases new →
  (∀ a s, a ∈ aliases → s ∈ new → st_alias s = a →
     foldl record_claims reg' new !! a = match st_claims s with [] => None | cs => Some cs end) ∧
  (∀ a, a ∉ aliases → foldl record_claims reg' new !! a = reg' !! a).
Proof.
  intros Hnd Hall. revert reg' Hnd. induction Hall as [|a s aliases new (Ha & _) Hall IH]; intros reg' Hnd; [set_solver|].
  apply NoDup_cons in Hnd as [Hnin Hnd]. destruct (IH (record_claims reg' s) Hnd) as [Hin Hout]. cbn [foldl]. split.
  - intros b s' Hb [->|Hs']%elem_of_cons Heq.
    + rewrite Hout by congruence. by rewrite record_claims_lookup, decide_True.
    + assert (b ∈ aliases) as Hb'.
      { apply list_elem_of_lookup in Hs' as [i Hi]. destruct (Forall2_lookup_r _ _ _ _ _ Hall Hi) as (b' & Hb' & Hst).
        assert (b' = b) as -> by (destruct Hst; congruence). by eapply list_elem_of_lookup_2. }
      by apply Hin.
  - intros b Hb. apply not_elem_of_cons in Hb as [Hne Hb]. rewrite Hout by done.
    rewrite record_claims_lookup, decide_False by congruence. done.
Qed.

Lemma record_all_total c aliases new reg' : NoDup aliases → Forall2 (staged_for c) aliases new →
  (∀ a, a ∈ aliases → reg' !! a = reg !! a) →
  total_claims (foldl record_claims reg' new) = foldl recount (total_claims reg') new.
Proof.
  intros Hnd Hall. revert reg' Hnd. induction Hall as [|a s aliases new (Ha & _) Hall IH]; intros reg' Hnd Hsame; [done|].
  apply NoDup_cons in Hnd as [Hnin Hnd]. cbn [foldl]. rewrite IH; [|done|].
  - f_equal. rewrite record_claims_total. unfold recount. rewrite Ha, (Hsame a) by left.
    pose proof (total_claims_delete a reg') as Ht. rewrite (Hsame a) in Ht by left.
    pose proof (total_claims_nonneg (delete a reg')). lia.
  - intros b Hb. rewrite record_claims_lookup, decide_False by (rewrite Ha; set_solver). apply Hsame. by right.
Qed.

End staging.

(** ** The registry *)

Abbreviation flow_of c := (flow_hash (claim_identity c)).

(** A claim for the decision of [gen], [policy] and [mac]. *)
Definition claim_for (gen : Z) (policy mac : list Z) (c : BlockClaim) : Prop :=
  identity_wf (claim_identity c) ∧ generation c = gen ∧ policy_hash (claim_identity c) = policy ∧
  id_client_mac (claim_identity c) = mac.

(** The claims of one alias: by distinct flows, all for the same decision. *)
Definition claims_ok (cs : list BlockClaim) : Prop :=
  cs ≠ [] ∧ zlen cs ≤ MAX_BLOCK_OWNERS_PER_ALIAS ∧ NoDup ((λ c, flow_of c) <$> cs) ∧
  ∃ gen policy mac, Forall (claim_for gen policy mac) cs.

Record registry_ok (r : BlockClaims) : Prop := {
  ro_count : claim_count r = total_claims (claim_aliases r);
  ro_bound : claim_count r ≤ MAX_BLOCK_CLAIMS;
  ro_claims : map_Forall (λ _ cs, claims_ok cs) (claim_aliases r);
}.

Lemma NoDup_filterb {A B} (f : A → B) (q : A → bool) l : NoDup (f <$> l) → NoDup (f <$> List.filter q l).
Proof.
  induction l as [|a l IH]; [done|]. rewrite fmap_cons, NoDup_cons. intros [Hnin Hnd]. cbn [List.filter].
  destruct (q a); [|auto]. rewrite fmap_cons, NoDup_cons. split; [|auto]. intros (x & Hx & Hin)%list_elem_of_fmap.
  apply elem_of_filterb in Hin as [Hin _]. apply Hnin. rewrite Hx. by apply list_elem_of_fmap_2.
Qed.

Lemma Forall_filterb {A} (P : A → Prop) (q : A → bool) l : Forall P l → Forall P (List.filter q l).
Proof. rewrite !Forall_forall. intros Hall x [Hx _]%elem_of_filterb. auto. Qed.

Lemma zlen_filterb {A} (q : A → bool) (l : list A) : zlen (List.filter q l) ≤ zlen l.
Proof. unfold zlen. induction l as [|a l IH]; cbn; [done|]. destruct (q a); cbn; lia. Qed.

Lemma foldl_max_ge x l : x ≤ foldl Z.max x l ∧ (∀ y, y ∈ l → y ≤ foldl Z.max x l) ∧ (foldl Z.max x l = x ∨ foldl Z.max x l ∈ l).
Proof.
  revert x. induction l as [|y l IH]; intros x; cbn; [split_and!; [lia|set_solver|by left]|].
  destruct (IH (Z.max x y)) as (H1 & H2 & H3). split_and!; [lia| |].
  - intros z [->|Hz]%elem_of_cons; [lia|auto].
  - destruct H3 as [->|]; [|right; set_solver]. destruct (Z.max_spec x y) as [[_ ->]|[_ ->]]; [right; left|by left].
Qed.

Section registry.
Context (big_endian : bool).

(** The claims that are alive, of other flows, and for the same decision. *)
Lemma joined_claims_cases observed i gen expires now a previous old c :
  Forall (λ c, identity_wf (claim_identity c)) old → identity_wf i →
  c ∈ joined_claims big_endian observed i gen expires now a previous old →
  claim_for gen (policy_hash i) (id_client_mac i) c ∧
  (c = mkClaim i gen expires (existsb (same_observed_orientation a) observed) ∨
   c ∈ old ∧ flow_of c ≠ flow_hash i ∧ now < expires_monotonic_ns c).
Proof.
  intros Hold Hi. unfold joined_claims. rewrite elem_of_app, list_elem_of_singleton.
  intros [Hin| ->]; [|split; [by split_and!|by left]].
  apply elem_of_filterb in Hin as [Hin Hf]. destruct (existsb _ (List.filter _ _)) eqn:Hagree; [by apply elem_of_nil in Hin|].
  rewrite existsb_false, Forall_forall in Hagree. specialize (Hagree c Hin). split_bools.
  apply elem_of_filterb in Hin as [Hin Hlive]. rewrite Forall_forall in Hold.
  assert (c ∈ old) as Hc by (destruct previous; [destruct (existsb _ old)|]; (done || by apply elem_of_nil in Hin)).
  split; [split_and!; [by apply Hold|lia|done|done]|]. right. split_and!; [done|done|lia].
Qed.

Lemma joined_claims_flows observed i gen expires now a previous old :
  NoDup ((λ c, flow_of c) <$> old) →
  NoDup ((λ c, flow_of c) <$> joined_claims big_endian observed i gen expires now a previous old).
Proof.
  intros Hnd. unfold joined_claims. rewrite fmap_app. apply NoDup_app. split_and!.
  - apply NoDup_filterb. assert (NoDup ((λ c, flow_of c) <$> (@nil BlockClaim))) by constructor.
    destruct (existsb _ (List.filter _ _)); [done|]. apply NoDup_filterb.
    destruct previous; [destruct (existsb _ old)|]; done.
  - intros f (c & -> & Hin)%list_elem_of_fmap. apply elem_of_filterb in Hin as [_ Hne]. split_bools.
    by intros Heq%list_elem_of_singleton.
  - apply NoDup_singleton.
Qed.

Lemma claims_ok_wf cs : claims_ok cs → Forall (λ c, identity_wf (claim_identity c)) cs ∧ NoDup ((λ c, flow_of c) <$> cs).
Proof.
  intros (_ & _ & Hnd & gen & pol & mac & Hall). split; [|done]. eapply Forall_impl; [exact Hall|]. by intros c [? _].
Qed.

Lemma old_claims_wf r a : registry_ok r →
  Forall (λ c, identity_wf (claim_identity c)) (default [] (claim_aliases r !! a)) ∧
  NoDup ((λ c, flow_of c) <$> default [] (claim_aliases r !! a)).
Proof.
  intros Hr. destruct (claim_aliases r !! a) as [cs|] eqn:Ha; cbn [default].
  - apply claims_ok_wf. by apply (ro_claims _ Hr a).
  - split; constructor.
Qed.

Lemma block_plan_ok r observed i gen expires now a previous cs next : registry_ok r → identity_wf i →
  block_plan big_endian observed i gen expires now a previous (default [] (claim_aliases r !! a)) = Ok (cs, next) →
  claims_ok cs ∧ Forall (claim_for gen (policy_hash i) (id_client_mac i)) cs ∧
  mkClaim i gen expires (existsb (same_observed_orientation a) observed) ∈ cs ∧
  ∃ winner, winner ∈ cs ∧ next = Some (encode_block_claim big_endian winner cs).
Proof.
  intros Hr Hi. destruct (old_claims_wf r a Hr) as [Hold Hnd]. unfold block_plan.
  set (joined := joined_claims _ _ _ _ _ _ _ _ _). destruct (_ <? zlen joined) eqn:Hlen; [done|].
  intros [= <- <-].
  assert (mkClaim i gen expires (existsb (same_observed_orientation a) observed) ∈ joined) as Hnew.
  { unfold joined, joined_claims. rewrite elem_of_app. right. by apply list_elem_of_singleton. }
  assert (Forall (claim_for gen (policy_hash i) (id_client_mac i)) joined) as Hall.
  { apply Forall_forall. intros c Hc. by destruct (joined_claims_cases _ _ _ _ _ _ _ _ _ Hold Hi Hc). }
  split_and!; [split_and!|done|done|].
  - intros Heq. rewrite Heq in Hnew. by apply elem_of_nil in Hnew.
  - lia.
  - by apply joined_claims_flows.
  - eauto.
  - destruct (select_block_claim _ _ _) as [winner|] eqn:Hs; cbn.
    + apply max_by_spec in Hs as [Hin _]; [|lia..]. eauto.
    + apply max_by_None in Hs. rewrite Hs in Hnew. by apply elem_of_nil in Hnew.
Qed.

End registry.

(** Recording what was staged keeps the registry: the plan gives each alias no
    claims or good ones, and the running count is the number of claims. *)
Lemma commit_registry big_endian plan r c aliases staged :
  registry_ok r → NoDup aliases →
  Forall2 (staged_for big_endian plan (claim_aliases r) c) aliases staged →
  Forall (λ s, st_claims s = [] ∨ claims_ok (st_claims s)) staged →
  foldl (recount (claim_aliases r)) (claim_count r) staged ≤ MAX_BLOCK_CLAIMS →
  registry_ok (mkClaims (foldl record_claims (claim_aliases r) staged)
    (foldl (recount (claim_aliases r)) (claim_count r) staged) (next_expired_sweep_ns r)).
Proof.
  intros Hr Hnd Hall Hok Hmax. split; cbn [claim_aliases claim_count]; [|done|].
  - rewrite (ro_count _ Hr). symmetry. by eapply record_all_total.
  - intros a cs Ha. destruct (record_all_lookup _ _ _ _ _ _ (claim_aliases r) Hnd Hall) as [Hin Hout].
    destruct (decide (a ∈ aliases)) as [Hal|Hal].
    + apply list_elem_of_lookup in Hal as [i Hi]. destruct (Forall2_lookup_l _ _ _ _ _ Hall Hi) as (s & Hs & Hst).
      apply list_elem_of_lookup_2 in Hi, Hs. rewrite (Hin a s) in Ha; [|done|done|apply Hst].
      rewrite Forall_forall in Hok. specialize (Hok s Hs). destruct (st_claims s); [done|]. destruct Hok; congruence.
    + rewrite Hout in Ha by done. by apply (ro_claims _ Hr a).
Qed.

Lemma staged_Forall big_endian plan reg c aliases staged (P : Staged → Prop) :
  Forall2 (staged_for big_endian plan reg c) aliases staged →
  (∀ a s, staged_for big_endian plan reg c a s → P s) → Forall P staged.
Proof. intros Hall HP. induction Hall; constructor; eauto. Qed.

Lemma total_claims_filter (P : FlowKey * list BlockClaim → Prop) `{∀ x, Decision (P x)} m :
  total_claims (filter P m) ≤ total_claims m.
Proof.
  induction m as [|k cs m Hk Hm IH] using map_first_key_ind; [by rewrite map_filter_empty|].
  rewrite map_filter_insert. case_decide.
  - rewrite !total_claims_insert, !delete_id by (done || by apply map_lookup_filter_None_2; left). lia.
  - rewrite map_filter_delete, delete_id by (by apply map_lookup_filter_None_2; left).
    rewrite total_claims_insert, delete_id by done. pose proof (zlen_nonneg cs). lia.
Qed.

Lemma sweep_registry now wanted r : registry_ok r → registry_ok (sweep now wanted r).
Proof.
  intros Hr. unfold sweep. destruct (_ && _)%bool; [|done]. split; cbn [claim_aliases claim_count].
  - done.
  - pose proof (ro_bound _ Hr). rewrite (ro_count _ Hr) in *. etrans; [apply total_claims_filter|done].
  - intros a cs [Ha _]%map_lookup_filter_Some. by apply (ro_claims _ Hr a).
Qed.

(** An entry with a live claim survives the sweep. *)
Lemma sweep_live now wanted r a c : c ∈ default [] (claim_aliases r !! a) → now < expires_monotonic_ns c →
  claim_aliases (sweep now wanted r) !! a = claim_aliases r !! a.
Proof.
  intros Hc Hlive. unfold sweep. destruct (_ && _)%bool; [|done]. cbn [claim_aliases].
  destruct (claim_aliases r !! a) as [cs|] eqn:Ha; cbn [default] in Hc; [|by apply elem_of_nil in Hc].
  apply map_lookup_filter_Some_2; [done|]. cbn [snd]. apply existsb_exists. exists c.
  split; [by apply list_elem_of_In|lia].
Qed.

(** ** Installing and revoking blocks *)

Section transactions.
Context (big_endian : bool).

(** An alias is blocked for the claims [cs]: its value is the block of one of
    them, and lasts as long as the longest. *)
Definition blocked_for (cs : list BlockClaim) (value : option (list Z)) : Prop :=
  ∃ winner e, winner ∈ cs ∧ (∀ c, c ∈ cs → expires_monotonic_ns c ≤ e) ∧
    (∃ c, c ∈ cs ∧ expires_monotonic_ns c = e) ∧
    value = Some (encode_verdict big_endian e (generation winner) (claim_identity winner) 0 VERDICT_BLOCK).

Lemma encode_block_claim_blocks winner cs : winner ∈ cs → blocked_for cs (Some (encode_block_claim big_endian winner cs)).
Proof.
  intros Hw. destruct cs as [|o rest]; [by apply elem_of_nil in Hw|].
  destruct (foldl_max_ge (expires_monotonic_ns o) (expires_monotonic_ns <$> rest)) as (H1 & H2 & H3).
  exists winner, (foldl Z.max (expires_monotonic_ns o) (expires_monotonic_ns <$> rest)). split_and!; [done| | |done].
  - intros c [->|Hc]%elem_of_cons; [done|]. by apply H2, list_elem_of_fmap_2.
  - destruct H3 as [->|(c & -> & Hc)%list_elem_of_fmap]; [exists o|exists c]; split; (done || set_solver).
Qed.

Lemma select_block_claim_elem cs previous winner : select_block_claim big_endian cs previous = Some winner → winner ∈ cs.
Proof. intros Hs. by apply max_by_spec in Hs as [Hin _]; [|lia..]. Qed.

(** The value in the map is one the registry knows as a block. *)
Definition recognised (r : BlockClaims) (c : gmap (list Z) (list Z)) (a : FlowKey) : Prop :=
  ∃ v claim, c !! bpf_key_bytes big_endian a = Some v ∧ claim ∈ default [] (claim_aliases r !! a) ∧
    block_claim_matches_value big_endian claim v = true.

(** A live claim of another flow for the same decision is kept by an install. *)
Lemma joined_claims_keeps observed i gen expires now a v old c :
  (∃ claim, claim ∈ old ∧ block_claim_matches_value big_endian claim v = true) →
  Forall (λ c, now < expires_monotonic_ns c → claim_for gen (policy_hash i) (id_client_mac i) c) old →
  c ∈ old → now < expires_monotonic_ns c → flow_of c ≠ flow_hash i →
  c ∈ joined_claims big_endian observed i gen expires now a (Some v) old.
Proof.
  intros (claim & Hcl & Hm) Hsame Hc Hlive Hflow. unfold joined_claims. apply elem_of_app. left.
  rewrite (proj2 (existsb_exists _ old)) by (exists claim; split; [by apply list_elem_of_In|done]).
  rewrite (proj2 (existsb_false _ _)).
  - rewrite !elem_of_filterb, bool_decide_eq_false_2 by done. split; [split; [done|lia]|done].
  - apply Forall_forall. intros x [Hx Hxl]%elem_of_filterb. rewrite Forall_forall in Hsame.
    destruct (Hsame x Hx ltac:(lia)) as (_ & -> & -> & ->). by rewrite Z.eqb_refl, !bool_decide_eq_true_2.
Qed.

(** What an install leaves at an alias. *)
Definition installed (w w' : FlowVerdictWriter) (observed : list FlowKey) (i : VerdictIdentity) (gen expires now : Z)
    (m m' : BpfMap) (a : FlowKey) : Prop :=
  ∃ cs, claim_aliases (block_claims w') !! a = Some cs ∧
    mkClaim i gen expires (existsb (same_observed_orientation a) observed) ∈ cs ∧
    Forall (claim_for gen (policy_hash i) (id_client_mac i)) cs ∧
    blocked_for cs (content m' !! bpf_key_bytes big_endian a) ∧
    (∀ c, recognised (block_claims w) (content m) a →
       c ∈ default [] (claim_aliases (block_claims w) !! a) → now < expires_monotonic_ns c →
       claim_for gen (policy_hash i) (id_client_mac i) c → flow_of c ≠ flow_hash i → c ∈ cs).

(** The part the two operations share: stage every alias, then write. *)
Lemma transaction plan reg n aliases m m1 count staged :
  Forall key_wf aliases → NoDup aliases →
  foldS (stage big_endian plan reg) (n, []) aliases m = (m1, Ok (count, staged)) →
  content m1 = content m ∧ Forall2 (staged_for big_endian plan reg (content m)) aliases staged ∧
  count = foldl (recount reg) n staged ∧
  ∀ m2 r, apply_verdict_updates (update_of <$> staged) m1 = (m2, r) →
    match r with
    | Ok _ =>
      Forall2 (λ a s, staged_for big_endian plan reg (content m) a s ∧
                      content m2 !! bpf_key_bytes big_endian a = st_next s) aliases staged ∧
      (∀ k, (k ∉ bpf_key_bytes big_endian <$> aliases) → content m2 !! k = content m !! k)
    | Err e => ∃ failures, e = WriteFailed failures ∧ (failures = 0%nat → content m2 = content m)
    end.
Proof.
  intros Hwf Hnd Hf. apply stage_loop in Hf as [Hc (new & Heq & Hall)]. cbn in Heq. injection Heq as -> ->.
  split_and!; [done|done|done|]. intros m2 r Ha. apply (apply_updates_cases (content m) [] _ (content m)) in Ha.
  - destruct r as [u|e]; [|done]. rewrite Ha. by apply apply_all_staged.
  - constructor.
  - done.
  - rewrite (staged_keys _ _ _ _ _ _ Hall). by apply NoDup_key_of.
  - intros k p nx Hin. by eapply staged_previous.
Qed.

End transactions.

Section theorems.
Context (big_endian : bool).

(** After an error the map is as it was, unless undoing a partial write failed
    too, which the error says. *)
Definition intact (e : VerdictError) (m m' : BpfMap) : Prop :=
  match e with WriteFailed (S _) => True | _ => content m' = content m end.

Lemma intact_same e m m' : content m' = content m → intact e m m'.
Proof. intros Hc. unfold intact. by destruct e as [| | | | | | | |[]| | |]. Qed.

(** Whatever an install decides per alias is what [installed] asks for. *)
Lemma staged_installed w observed i gen expires now m wanted s a :
  registry_ok (block_claims w) → identity_wf i →
  staged_for big_endian (block_plan big_endian observed i gen expires now)
    (claim_aliases (sweep now wanted (block_claims w))) (content m) a s →
  claims_ok (st_claims s) ∧
  mkClaim i gen expires (existsb (same_observed_orientation a) observed) ∈ st_claims s ∧
  Forall (claim_for gen (policy_hash i) (id_client_mac i)) (st_claims s) ∧
  blocked_for big_endian (st_claims s) (st_next s) ∧
  (∀ c, recognised big_endian (block_claims w) (content m) a →
     c ∈ default [] (claim_aliases (block_claims w) !! a) → now < expires_monotonic_ns c →
     claim_for gen (policy_hash i) (id_client_mac i) c → flow_of c ≠ flow_hash i → c ∈ st_claims s).
Proof.
  intros Hr Hi (_ & _ & _ & Hplan). pose proof (sweep_registry now wanted _ Hr) as Hr'.
  destruct (block_plan_ok _ _ _ _ _ _ _ _ _ _ _ Hr' Hi Hplan) as (Hok & Hfor & Hnew & winner & Hw & Hnext).
  split_and!; [done|done|done|rewrite Hnext; by apply encode_block_claim_blocks|].
  intros c (v & claim & Hv & Hcl & Hmatch) Hc Hlive Hcf Hflow.
  unfold block_plan in Hplan. destruct (_ <? _); [done|]. injection Hplan as <- _.
  rewrite (sweep_live _ _ _ _ c) by done. rewrite Hv. apply joined_claims_keeps; [by exists claim| |done..].
  destruct (claim_aliases (block_claims w) !! a) as [cs|] eqn:Hcs; [|by apply elem_of_nil in Hc]. cbn [default] in *.
  destruct (ro_claims _ Hr a cs Hcs) as (_ & _ & _ & g & p & mc & Hall). rewrite Forall_forall in Hall.
  apply Forall_forall. intros x Hx _. destruct (Hall x Hx) as (? & ? & ? & ?). destruct (Hall c Hc) as (? & ? & ? & ?).
  destruct Hcf as (_ & ? & ? & ?). split_and!; congruence.
Qed.

(** An install from any well-formed registry. *)
Lemma install_owned_block_spec w aliases observed i gen expires now m w' r :
  registry_ok (block_claims w) → identity_wf i → Forall key_wf aliases → verdict_map w = Some m →
  install_owned_block big_endian w aliases observed i gen expires now = (w', r) →
  registry_ok (block_claims w') ∧ ∃ m', verdict_map w' = Some m' ∧
  match r with
  | Ok n =>
    n = zlen aliases ∧ (∀ a, a ∈ aliases → installed big_endian w w' observed i gen expires now m m' a) ∧
    (∀ k, (k ∉ bpf_key_bytes big_endian <$> aliases) → content m' !! k = content m !! k)
  | Err e => intact e m m'
  end.
Proof.
  intros Hr Hi Hwf Hm. unfold install_owned_block. destruct (negb (ready w)).
  { intros [= <- <-]. split; [done|]. exists m. split; [done|]. by apply intact_same. }
  destruct (_ || _)%bool eqn:Hg.
  { intros [= <- <-]. split; [done|]. exists m. split; [done|]. by apply intact_same. }
  split_bools. rewrite Hm. pose proof (sweep_registry now (zlen aliases) _ Hr) as Hr'.
  destruct (foldS _ _ aliases m) as [m1 [[count staged]|e]] eqn:Hf.
  - apply transaction in Hf as (Hc & Hall & -> & Happly); [|done..]. destruct (MAX_BLOCK_CLAIMS <? _) eqn:Hmax.
    { intros [= <- <-]. split; [done|]. exists m1. split; [done|]. by apply intact_same. }
    destruct (apply_verdict_updates _ m1) as [m2 [u|e]] eqn:Ha; specialize (Happly _ _ eq_refl).
    + destruct Happly as [Hset Hframe]. intros [= <- <-]. split.
      * apply (commit_registry _ _ _ _ _ _ Hr') in Hall; [done|done| |lia].
        eapply staged_Forall; [exact Hall|]. intros a s Hst. right. by eapply staged_installed.
      * exists m2. split_and!; [done|done| |done]. intros a Hal. destruct (Forall2_elem_l _ _ _ _ Hset Hal) as (s & Hs & Hst & Hval).
        destruct (staged_installed _ _ _ _ _ _ _ _ _ _ Hr Hi Hst) as (Hok & Hnew & Hfor & Hblk & Hkeep).
        exists (st_claims s). rewrite Hval. split_and!; [|done..].
        destruct (record_all_lookup _ _ _ _ _ _ (claim_aliases (sweep now (zlen aliases) (block_claims w))) ltac:(done) Hall)
          as [Hrec _]. cbn [block_claims set_verdicts claim_aliases]. rewrite (Hrec a s Hal Hs) by apply Hst.
        by destruct Hok as [? _], (st_claims s).
    + destruct Happly as (n & -> & Hn). intros [= <- <-]. split; [done|]. exists m2. split; [done|].
      destruct n; [by apply Hn|done].
  - apply stage_loop in Hf as [Hc _]. intros [= <- <-]. split; [done|]. exists m1. split; [done|]. by apply intact_same.
Qed.

(** What a revocation leaves at an alias. *)
Record revoked (w w' : FlowVerdictWriter) (expected : option (list Z)) (now : Z) (m m' : BpfMap) (a : FlowKey) : Prop := {
  rv_gone v : content m' !! bpf_key_bytes big_endian a = Some v → ∃ e, expected = Some e ∧ owned_by (Some e) v = false;
  rv_claims c : c ∈ default [] (claim_aliases (block_claims w') !! a) → expected ≠ Some (flow_of c);
  rv_others c e : recognised big_endian (block_claims w) (content m) a →
    c ∈ default [] (claim_aliases (block_claims w) !! a) → now < expires_monotonic_ns c → expected = Some e → flow_of c ≠ e →
    ∃ cs, claim_aliases (block_claims w') !! a = Some cs ∧ c ∈ cs ∧
      blocked_for big_endian cs (content m' !! bpf_key_bytes big_endian a);
  rv_foreign v : ¬ recognised big_endian (block_claims w) (content m) a →
    content m !! bpf_key_bytes big_endian a = Some v → owned_by expected v = false →
    content m' !! bpf_key_bytes big_endian a = Some v;
}.

Lemma remaining_claims_elem expected now known old c :
  c ∈ remaining_claims expected now known old ↔
  known = true ∧ c ∈ old ∧ now < expires_monotonic_ns c ∧ ∃ e, expected = Some e ∧ flow_of c ≠ e.
Proof.
  unfold remaining_claims. rewrite elem_of_filterb. destruct known; [|split; [intros [[]%elem_of_nil _]|by intros [? _]]].
  destruct expected as [e|]; [|split; [intros [_ ?]; split_bools; done|intros (_ & _ & _ & e & ? & _); done]].
  split.
  - intros [Hc Hb]. split_bools. split_and!; [done|done|lia|]. by exists e.
  - intros (_ & Hc & Hl & e' & [= <-] & Hne). rewrite bool_decide_eq_false_2 by done. split; [done|]. lia.
Qed.

Lemma remaining_claims_ok expected now known old : old = [] ∨ claims_ok old →
  (remaining_claims expected now known old = [] ∨ claims_ok (remaining_claims expected now known old)) ∧
  zlen (remaining_claims expected now known old) ≤ zlen old.
Proof.
  intros Hold. unfold remaining_claims.
  assert (∀ q, zlen (List.filter q (if known then old else [])) ≤ zlen old) as Hle.
  { intros q. etrans; [apply zlen_filterb|]. destruct known; [done|]. apply zlen_nonneg. }
  split; [|apply Hle]. match goal with |- context [List.filter ?q ?l] => specialize (Hle q); destruct (List.filter q l) eqn:Hf end.
  - by left.
  - right. rewrite <- Hf in *. destruct known; [|done]. destruct Hold as [->|(_ & Hlen & Hnd & g & p & mc & Hall)]; [done|].
    split_and!; [congruence|lia|by apply NoDup_filterb|]. exists g, p, mc. by apply Forall_filterb.
Qed.

Lemma encoded_owned expires gen i tag v e : identity_wf i → flow_hash i ≠ e →
  owned_by (Some e) (encode_verdict big_endian expires gen i tag v) = false.
Proof.
  intros Hi Hne. destruct (encoded_fields big_endian expires gen i tag v Hi) as (Hl & _ & _ & _ & Hs & _).
  unfold owned_by. rewrite Hs. rewrite (bool_decide_eq_false_2 _ Hne). apply andb_false_r.
Qed.

Lemma registry_claims r a : registry_ok r →
  default [] (claim_aliases r !! a) = [] ∨ claims_ok (default [] (claim_aliases r !! a)).
Proof. intros Hr. destruct (claim_aliases r !! a) as [cs|] eqn:Ha; [right; by apply (ro_claims _ Hr a)|by left]. Qed.

Lemma first_seen_in_spec seen l : NoDup (first_seen_in seen l) ∧ (∀ a, a ∈ first_seen_in seen l ↔ a ∈ l ∧ a ∉ seen).
Proof.
  revert seen. induction l as [|b l IH]; intros seen; cbn [first_seen_in].
  { split; [constructor|]. intros a. split; [by intros []%elem_of_nil|by intros [[]%elem_of_nil _]]. }
  case_bool_decide as Hb.
  - destruct (IH seen) as [Hnd Hin]. split; [done|]. intros a. rewrite Hin. set_solver.
  - destruct (IH ({[b]} ∪ seen)) as [Hnd Hin]. split.
    + apply NoDup_cons. rewrite Hin. set_solver.
    + intros a. rewrite elem_of_cons, Hin. destruct (decide (a = b)); set_solver.
Qed.

Lemma first_seen_spec l : NoDup (first_seen l) ∧ (∀ a, a ∈ first_seen l ↔ a ∈ l).
Proof. destruct (first_seen_in_spec ∅ l) as [? Hin]. split; [done|]. intros a. rewrite Hin. set_solver. Qed.

Lemma known_recognised r c a :
  match c !! bpf_key_bytes big_endian a with
  | Some v => existsb (λ cl, block_claim_matches_value big_endian cl v) (default [] (claim_aliases r !! a))
  | None => false
  end = true ↔ recognised big_endian r c a.
Proof.
  unfold recognised. destruct (c !! _) as [v|]; [|split; [done|by intros (? & ? & ? & _)]].
  rewrite existsb_exists. setoid_rewrite <- list_elem_of_In. split.
  - intros (cl & ? & ?). by exists v, cl.
  - intros (v' & cl & [= <-] & ? & ?). by exists cl.
Qed.

(** The decision for an alias is what [revoked] asks for. *)
Lemma staged_revoked w w' expected now m m' a s :
  registry_ok (block_claims w) →
  staged_for big_endian (clear_plan big_endian expected now) (claim_aliases (block_claims w)) (content m) a s →
  content m' !! bpf_key_bytes big_endian a = st_next s →
  claim_aliases (block_claims w') !! a = (match st_claims s with [] => None | cs => Some cs end) →
  revoked w w' expected now m m' a.
Proof.
  intros Hr (_ & _ & _ & Hplan) Hval Hreg. unfold clear_plan in Hplan.
  set (old := default [] (claim_aliases (block_claims w) !! a)) in *.
  set (known := match content m !! bpf_key_bytes big_endian a with Some v => existsb _ old | None => false end) in Hplan.
  assert (known = true ↔ recognised big_endian (block_claims w) (content m) a) as Hknown by apply known_recognised.
  set (cs := remaining_claims expected now known old) in *. injection Hplan as Hcs Hnext. rewrite <- Hcs in Hreg.
  assert (default [] (claim_aliases (block_claims w') !! a) = cs) as Hd by (rewrite Hreg; by destruct cs).
  assert (∀ c, c ∈ cs → identity_wf (claim_identity c)) as Hwf.
  { destruct (old_claims_wf (block_claims w) a Hr) as [Hall _]. rewrite Forall_forall in Hall.
    intros c (_ & Hc & _)%remaining_claims_elem. by apply Hall. }
  assert (∀ c, c ∈ cs ↔ known = true ∧ c ∈ old ∧ now < expires_monotonic_ns c ∧ ∃ e, expected = Some e ∧ flow_of c ≠ e)
    as Helem by (intros c; apply remaining_claims_elem).
  clearbody cs known. split; rewrite ?Hd, ?Hval, <- ?Hnext.
  - intros v Hv. destruct known eqn:Hk.
    + destruct (select_block_claim _ cs _) as [winner|] eqn:Hs; [|done]. injection Hv as <-.
      apply select_block_claim_elem in Hs. pose proof Hs as (_ & _ & _ & e & -> & Hne)%Helem.
      exists e. split; [done|]. apply encoded_owned; auto.
    + destruct (content m !! _) as [v'|] eqn:Hm; [|done]. destruct (owned_by expected v') eqn:Ho; [done|].
      injection Hv as ->. destruct expected as [e|]; [by exists e|done].
  - intros c (_ & _ & _ & e & -> & Hne)%Helem [= Heq]. done.
  - intros c e Hrec Hc Hlive -> Hne. apply Hknown in Hrec. rewrite Hrec.
    assert (c ∈ cs) as Hin by (apply Helem; eauto 10).
    exists cs. split_and!; [|done|].
    { rewrite Hreg. destruct cs; [by apply elem_of_nil in Hin|done]. }
    destruct (select_block_claim _ cs _) as [winner|] eqn:Hs.
    + apply encode_block_claim_blocks. by eapply select_block_claim_elem.
    + apply max_by_None in Hs. rewrite Hs in Hin. by apply elem_of_nil in Hin.
  - intros v Hnrec Hm Ho. destruct known; [by destruct Hnrec; apply Hknown|]. by rewrite Hm, Ho.
Qed.

(** Fewer claims per alias make fewer claims in all. *)
Lemma recount_shrinks plan reg c aliases staged reg' : NoDup aliases →
  Forall2 (staged_for big_endian plan reg c) aliases staged →
  Forall (λ s, zlen (st_claims s) ≤ zlen (default [] (reg !! st_alias s))) staged →
  (∀ a, a ∈ aliases → reg' !! a = reg !! a) →
  total_claims (foldl record_claims reg' staged) ≤ total_claims reg'.
Proof.
  intros Hnd Hall. revert reg' Hnd. induction Hall as [|a s aliases new (Ha & _) Hall IH]; intros reg' Hnd Hle Hsame; [done|].
  apply NoDup_cons in Hnd as [Hnin Hnd]. inversion_clear Hle as [|? ? Hs Hle']. cbn [foldl].
  etrans; [apply IH; [done|done|]|].
  - intros b Hb. rewrite record_claims_lookup, decide_False by (rewrite Ha; set_solver). apply Hsame. by right.
  - rewrite record_claims_total, Ha, (Hsame a) by left. rewrite Ha in Hs. lia.
Qed.

Lemma clear_plan_claims r expected now a s c : registry_ok r →
  staged_for big_endian (clear_plan big_endian expected now) (claim_aliases r) c a s →
  (st_claims s = [] ∨ claims_ok (st_claims s)) ∧
  zlen (st_claims s) ≤ zlen (default [] (claim_aliases r !! st_alias s)).
Proof.
  intros Hr (-> & _ & _ & Hplan). unfold clear_plan in Hplan. injection Hplan as <- _.
  apply remaining_claims_ok. by apply registry_claims.
Qed.

(** The aliases whose entry disappeared. *)
Definition entries_removed (aliases : list FlowKey) (m m' : BpfMap) : Z :=
  zlen (List.filter (λ a, bool_decide (is_Some (content m !! bpf_key_bytes big_endian a))
                          && bool_decide (content m' !! bpf_key_bytes big_endian a = None))%bool (first_seen aliases)).

Lemma staged_removed plan reg c aliases staged m m' : content m = c →
  Forall2 (λ a s, staged_for big_endian plan reg c a s ∧ content m' !! bpf_key_bytes big_endian a = st_next s) aliases staged →
  zlen (List.filter (λ s, bool_decide (is_Some (st_previous s)) && bool_decide (st_next s = None))%bool staged) =
  zlen (List.filter (λ a, bool_decide (is_Some (content m !! bpf_key_bytes big_endian a))
                          && bool_decide (content m' !! bpf_key_bytes big_endian a = None))%bool aliases).
Proof.
  intros <-. induction 1 as [|a s aliases staged [(_ & _ & Hp & _) Hn] Hall IH]; [done|]. cbn [List.filter].
  rewrite Hp, Hn. unfold zlen in *. destruct (_ && _)%bool; cbn [length]; lia.
Qed.

(** A revocation from any well-formed registry. *)
Lemma clear_aliases_spec w aliases expected_flow_id now m w' r :
  registry_ok (block_claims w) → Forall key_wf aliases → verdict_map w = Some m →
  clear_aliases big_endian w aliases expected_flow_id now = (w', r) →
  registry_ok (block_claims w') ∧ ∃ m', verdict_map w' = Some m' ∧
  match r with
  | Ok n =>
    ∃ expected, (match expected_flow_id with None => Ok None | Some f => Some <$> flow_identity_hash f end) = Ok expected ∧
    n = entries_removed aliases m m' ∧
    (∀ a, a ∈ aliases → revoked w w' expected now m m' a) ∧
    (∀ k, (k ∉ bpf_key_bytes big_endian <$> aliases) → content m' !! k = content m !! k)
  | Err e => intact e m m'
  end.
Proof.
  intros Hr Hwf Hm. unfold clear_aliases. destruct (negb (ready w)).
  { intros [= <- <-]. split; [done|]. exists m. split; [done|]. by apply intact_same. }
  rewrite Hm. destruct (match expected_flow_id with None => _ | Some _ => _ end) as [expected|e] eqn:He; cycle 1.
  { intros [= <- <-]. split; [done|]. exists m. split; [done|]. by apply intact_same. }
  destruct (first_seen_spec aliases) as [Hnd Hseen].
  assert (Forall key_wf (first_seen aliases)) as Hwf'.
  { rewrite Forall_forall in Hwf. apply Forall_forall. intros a Ha%Hseen. auto. }
  destruct (foldS _ _ (first_seen aliases) m) as [m1 [[count staged]|e]] eqn:Hf.
  - apply transaction in Hf as (Hc & Hall & -> & Happly); [|done..].
    destruct (apply_verdict_updates _ m1) as [m2 [u|e]] eqn:Ha; specialize (Happly _ _ eq_refl).
    + destruct Happly as [Hset Hframe]. intros [= <- <-].
      assert (Forall (λ s, (st_claims s = [] ∨ claims_ok (st_claims s)) ∧
        zlen (st_claims s) ≤ zlen (default [] (claim_aliases (block_claims w) !! st_alias s))) staged) as Hst.
      { eapply staged_Forall; [exact Hall|]. intros a s. by apply clear_plan_claims. }
      apply Forall_and in Hst as [Hok Hle]. split.
      * cbn [block_claims set_verdicts]. eapply commit_registry; [done|exact Hnd|exact Hall|done|].
        rewrite (ro_count _ Hr), <- (record_all_total _ _ _ _ _ _ (claim_aliases (block_claims w)) Hnd Hall) by done.
        etrans; [by eapply recount_shrinks|]. rewrite <- (ro_count _ Hr). apply Hr.
      * exists m2. split; [done|]. exists expected. split_and!; [done| | |].
        -- unfold entries_removed. by eapply staged_removed; [|exact Hset].
        -- intros a Hal%Hseen. destruct (Forall2_elem_l _ _ _ _ Hset Hal) as (s & Hs & Hst' & Hval).
           eapply staged_revoked; [done|exact Hst'|done|]. by apply (record_all_lookup _ _ _ _ _ _ _ Hnd Hall); [| |apply Hst'].
        -- intros k Hk. apply Hframe. contradict Hk. revert Hk. rewrite !list_elem_of_fmap.
           intros (a & -> & Hal%Hseen). by exists a.
    + destruct Happly as (n & -> & Hn). intros [= <- <-]. split; [done|]. exists m2. split; [done|].
      destruct n; [by apply Hn|done].
  - apply stage_loop in Hf as [Hc _]. intros [= <- <-]. split; [done|]. exists m1. split; [done|]. by apply intact_same.
Qed.

End theorems.

(** ** Identities *)

Lemma mapR_length {E A B} (f : A → result E B) l bs : mapR f l = Ok bs → length bs = length l.
Proof. intros Hl%mapR_Ok. symmetry. by eapply Forall2_length. Qed.

Lemma flow_identity_hash_length f bs : flow_identity_hash f = Ok bs → length bs = 16%nat.
Proof. unfold flow_identity_hash. destruct (_ || _)%bool; [done|]. intros Hl%mapR_length. done. Qed.

Lemma client_mac_identity_length c bs : client_mac_identity c = Ok bs → length bs = 6%nat.
Proof. unfold client_mac_identity. destruct (_ || _)%bool; [done|]. intros Hl%mapR_length. done. Qed.

Lemma octet_at_hex bs i b : Forall is_u8 bs → bs !! i = Some b → octet_at (hex_bytes bs) (i * 2) = Some b.
Proof.
  unfold octet_at. intros Hall Hi. assert (is_u8 b) as Hb.
  { rewrite Forall_lookup in Hall. by eapply Hall. }
  clear Hall. revert i Hi. induction bs as [|x bs IH]; intros i Hi; [done|].
  destruct i as [|i]; [injection Hi as ->|by apply IH].
  assert (∀ c d s, String.substring 0 2 (String c (String d s)) = String c (String d "")) as Htake by (by intros ? ? []).
  change (hex_bytes (b :: bs)) with (String (hex_digit (b / 16)) (String (hex_digit (b mod 16)) (hex_bytes bs))).
  rewrite Htake. by apply from_hex_byte.
Qed.

(** The identity in a verdict is read back from the text of a flow's id. *)
Lemma flow_identity_hash_hex bs : Forall is_u8 bs → length bs = 16%nat → flow_identity_hash (hex_bytes bs) = Ok bs.
Proof.
  intros Hb Hl. unfold flow_identity_hash.
  assert (str_len (hex_bytes bs) = 32) as -> by (rewrite str_len_bytes; unfold zlen; rewrite hex_bytes_length; lia).
  assert (is_ascii (hex_bytes bs) = true) as ->.
  { unfold is_ascii. apply forallb_forall. intros x Hx. apply list_elem_of_In in Hx. clear Hl.
    induction Hb as [|b bs Hb _ IH]; [by apply elem_of_nil in Hx|].
    rewrite hex_bytes_cons, hex_byte_bytes in Hx by done. unfold in_width in Hb.
    apply elem_of_app in Hx as [Hx|Hx]; [|by apply IH].
    assert (0 ≤ b / 16 < 16) by (split; [apply Z.div_pos; lia|apply Z.div_lt_upper_bound; lia]).
    pose proof (Z.mod_pos_bound b 16 ltac:(lia)).
    repeat (apply elem_of_cons in Hx as [->|Hx]; [destruct (_ <? 10) eqn:?; lia|]). by apply elem_of_nil in Hx. }
  cbn [negb orb Z.eqb Pos.eqb]. apply mapR_Ok. rewrite <- Hl. apply Forall2_same_length_lookup_2; [by rewrite length_seq|].
  intros i x b [-> Hi]%lookup_seq Hbi. cbn. by rewrite (octet_at_hex bs i b).
Qed.

(** ** The registry stays well-formed *)

Lemma no_claims_ok : registry_ok no_claims.
Proof. split; [done|done|]. apply map_Forall_empty. Qed.

Lemma drop_claims_ok r a : registry_ok r → registry_ok (drop_claims r a).
Proof.
  intros Hr. unfold drop_claims. destruct (claim_aliases r !! fst a) as [cs|] eqn:Ha; [|done].
  pose proof (total_claims_delete (fst a) (claim_aliases r)) as Ht. rewrite Ha in Ht. cbn [default id] in Ht.
  pose proof (total_claims_nonneg (delete (fst a) (claim_aliases r))). pose proof (zlen_nonneg cs).
  pose proof (ro_count _ Hr). pose proof (ro_bound _ Hr). split; cbn [claim_count claim_aliases]; [lia|lia|].
  apply map_Forall_delete. apply Hr.
Qed.

Lemma drop_all_ok l r : registry_ok r → registry_ok (foldl drop_claims r l).
Proof. revert r. induction l as [|a l IH]; intros r Hr; [done|]. cbn. by apply IH, drop_claims_ok. Qed.

Lemma drop_claims_lookup r a k : claim_aliases (drop_claims r a) !! k = if decide (k = fst a) then None else claim_aliases r !! k.
Proof.
  unfold drop_claims. destruct (claim_aliases r !! fst a) as [cs|] eqn:Ha; cbn [claim_aliases]; case_decide as Hk; subst;
    by simplify_map_eq.
Qed.

Lemma drop_all_lookup l r k :
  claim_aliases (foldl drop_claims r l) !! k = if decide (k ∈ fst <$> l) then None else claim_aliases r !! k.
Proof.
  revert r. induction l as [|a l IH]; intros r; cbn [foldl].
  { rewrite decide_False; [done|by intros []%elem_of_nil]. }
  rewrite IH, drop_claims_lookup. repeat case_decide; try done; set_solver.
Qed.

(** ** Reset *)

Lemma delete_each_content keys m m' n : delete_each keys m = (m', n) →
  content m' ⊆ content m ∧ (n = 0%nat → ∀ k, k ∈ keys → content m' !! k = None).
Proof.
  revert m m' n. induction keys as [|k keys IH]; intros m m' n Hd; cbn [delete_each] in Hd.
  { injection Hd as <- <-. split; [done|]. by intros _ k []%elem_of_nil. }
  destruct (bpf_delete k m) as [m1 r] eqn:Hk. destruct (delete_each keys m1) as [m2 n2] eqn:Hrest. injection Hd as <- <-.
  destruct (IH _ _ _ Hrest) as [Hsub Hgone]. unfold bpf_delete in Hk. destruct (_ || _)%bool; injection Hk as <- <-;
    cbn [content set_content is_ok] in *.
  - split; [done|]. discriminate.
  - split; [etrans; [exact Hsub|apply delete_subseteq]|]. intros -> k' [->|Hk']%elem_of_cons; [|auto].
    eapply lookup_weaken_None; [|exact Hsub]. apply lookup_delete_eq.
Qed.

Lemma cleared keys m m' : keys = map_keys m → delete_each keys m = (m', 0%nat) → content m' = ∅.
Proof.
  intros -> [Hsub Hgone]%delete_each_content. apply map_empty. intros k. destruct (content m' !! k) as [v|] eqn:Hk; [|done].
  rewrite Hgone in Hk; [done|done|]. eapply lookup_weaken in Hk; [|exact Hsub].
  apply list_elem_of_fmap. exists (k, v). split; [done|]. by apply elem_of_map_to_list.
Qed.

Section reset.
Context (big_endian : bool).

(** The value in the policy state map, and whether it enables enforcement. *)
Definition policy_value (w : FlowVerdictWriter) : option (list Z) :=
  m ← policy_state_map w; content m !! ne_bytes big_endian 4 0.
Definition map_content (m : option BpfMap) : gmap (list Z) (list Z) := from_option content ∅ m.

Lemma write_policy_state_spec w enabled gen w' n : write_policy_state big_endian w enabled gen = (w', n) →
  block_claims w' = block_claims w ∧ verdict_map w' = verdict_map w ∧ endpoint_map w' = endpoint_map w ∧
  (n = 0%nat ∧ policy_value w' = Some (encode_policy_state big_endian enabled gen) ∨
   n = 1%nat ∧ policy_value w' = policy_value w).
Proof.
  unfold write_policy_state, policy_value. destruct (policy_state_map w) as [m|] eqn:Hm.
  - destruct (bpf_update _ _ m) as [m1 r] eqn:Hu. apply (bpf_write_cases _ (Some _)) in Hu. intros [= <- <-].
    split_and!; [done..|]. cbn. destruct r; cbn [is_ok]; rewrite Hu; [left|by right]. by rewrite written_lookup, decide_True.
  - intros [= <- <-]. split_and!; [done..|]. right. by rewrite Hm.
Qed.

(** A reset that runs: the registry is empty, and enforcement is on only with
    empty maps. *)
Lemma writer_reset_spec w gen enabled m w' r : ready w = true → verdict_map w = Some m →
  writer_reset big_endian w gen enabled = (w', r) →
  block_claims w' = no_claims ∧
  (r = Ok tt →
     map_content (verdict_map w') = ∅ ∧ map_content (endpoint_map w') = ∅ ∧
     policy_value w' = Some (encode_policy_state big_endian enabled gen)) ∧
  (r ≠ Ok tt →
     policy_value w' = Some (encode_policy_state big_endian false gen) ∨ policy_value w' = policy_value w).
Proof.
  intros Hready Hm. unfold writer_reset. rewrite Hready, Hm. cbn [negb].
  destruct (write_policy_state _ w _ _) as [w1 n0] eqn:H0. apply write_policy_state_spec in H0 as (_ & _ & He & H0).
  destruct (delete_each _ m) as [m1 n1] eqn:H1. cbn [endpoint_map set_verdicts].
  set (cleared_endpoints := match endpoint_map w1 with Some em => _ | None => _ end).
  assert (∃ w2 n2, cleared_endpoints = (w2, n2) ∧ block_claims w2 = no_claims ∧ verdict_map w2 = Some m1 ∧
    policy_value w2 = policy_value w1 ∧ (n2 = 0%nat → map_content (endpoint_map w2) = ∅))
    as (w2 & n2 & -> & Hb & Hv & Hp & Hem).
  { unfold cleared_endpoints. destruct (endpoint_map w1) as [em|] eqn:Hem.
    - destruct (delete_each _ em) as [em1 n2] eqn:H2. eexists _, _. split_and!; [done..|]. intros ->. by eapply cleared.
    - eexists _, _. split_and!; [done..|]. cbn. by rewrite Hem. }
  destruct (write_policy_state _ w2 _ _) as [w3 n3] eqn:H3. apply write_policy_state_spec in H3 as (Hb3 & Hv3 & He3 & H3).
  intros [= <- <-]. rewrite Hb3, Hv3, He3. split_and!; [done| |].
  - intros Hok. assert (n0 + n1 + n2 + n3 = 0)%nat as Hz by (by case_bool_decide).
    split_and!; [rewrite Hv; apply (cleared _ m m1 eq_refl); rewrite H1; f_equal; lia|apply Hem; lia|].
    destruct H3 as [[_ ->]|[? _]]; [|lia]. rewrite bool_decide_eq_true_2 by lia. by rewrite andb_true_r.
  - intros Herr. assert (n0 + n1 + n2 + n3 ≠ 0)%nat as Hz by (by case_bool_decide).
    destruct H3 as [[-> ->]|[_ ->]].
    + left. rewrite bool_decide_eq_false_2 by lia. by rewrite andb_false_r.
    + rewrite Hp. by destruct H0 as [[_ ->]|[_ ->]]; [left|right].
Qed.

End reset.

Section invariant.
Context (big_endian : bool).
Context `{Digest}.
Hypothesis sha256_length : ∀ bs, length (sha256_digest bs) = 32%nat.

(** What can happen to the writer: its operations, for keys of the key type, and
    the kernel and the packet path changing the verdict map at will. *)
Inductive writer_step (w : FlowVerdictWriter) : FlowVerdictWriter → Prop :=
| step_install_block aliases observed f p c gen expires now : Forall key_wf aliases →
    writer_step w (fst (install_block big_endian w aliases observed f p c gen expires now))
| step_clear_aliases aliases f now : Forall key_wf aliases →
    writer_step w (fst (clear_aliases big_endian w aliases f now))
| step_install_shape aliases f gen expires :
    writer_step w (fst (install_shape big_endian w aliases f gen expires))
| step_remember aliases f p c gen expires :
    writer_step w (fst (remember_endpoint_blocks big_endian w aliases f p c gen expires))
| step_forget aliases c : writer_step w (fst (forget_endpoint_blocks w aliases c))
| step_reset gen enabled : writer_step w (fst (writer_reset big_endian w gen enabled))
| step_owner k gen now : writer_step w (fst (active_shape_owner big_endian w k gen now))
| step_kernel m : writer_step w (set_verdicts w m (block_claims w)).

(** The identity [install_block] derives from its arguments. *)
Definition block_identity (policy_flow_id policy_id client_mac : string) : result VerdictError VerdictIdentity :=
  f ← flow_identity_hash policy_flow_id;
  c ← client_mac_identity client_mac;
  Ok (mkIdentity f (take 16 (sha256_digest (str_bytes policy_id))) c).

Lemma block_identity_wf f p c i : block_identity f p c = Ok i → identity_wf i.
Proof.
  unfold block_identity. intros (fh & Hf & (cm & Hc & [= <-])%bind_Ok)%bind_Ok. split; cbn.
  - by eapply flow_identity_hash_length.
  - by rewrite length_take, sha256_length.
  - by eapply client_mac_identity_length.
Qed.

Lemma install_block_eq w aliases observed f p c gen expires now :
  install_block big_endian w aliases observed f p c gen expires now =
  match block_identity f p c with
  | Err e => (w, Err e)
  | Ok i => install_owned_block big_endian w aliases observed i gen expires now
  end.
Proof. reflexivity. Qed.

Lemma step_registry w w' : registry_ok (block_claims w) → writer_step w w' → registry_ok (block_claims w').
Proof.
  intros Hr [aliases observed f p c gen expires now Hwf|aliases f now Hwf|aliases f gen expires|aliases f p c gen expires|
             aliases c|gen enabled|k gen now|m].
  - rewrite install_block_eq. destruct (block_identity f p c) as [i|] eqn:Hi; [|done]. apply block_identity_wf in Hi.
    destruct (install_owned_block _ _ _ _ _ _ _ _) as [w1 r] eqn:Hin. destruct (verdict_map w) as [m|] eqn:Hm.
    + by apply (install_owned_block_spec _ _ _ _ _ _ _ _ _ _ _ Hr Hi Hwf Hm Hin).
    + unfold install_owned_block in Hin. rewrite Hm in Hin. destruct (negb _); [by simplify_eq|].
      destruct (_ || _)%bool; by simplify_eq.
  - destruct (clear_aliases _ _ _ _ _) as [w1 r] eqn:Hcl. destruct (verdict_map w) as [m|] eqn:Hm.
    + by apply (clear_aliases_spec _ _ _ _ _ _ _ _ Hr Hwf Hm Hcl).
    + unfold clear_aliases in Hcl. rewrite Hm in Hcl. destruct (negb _); by simplify_eq.
  - unfold install_shape. destruct (existsb _ _); [done|]. destruct (flow_identity_hash f) as [fh|]; [|done].
    destruct (install_verdict _ _ _ _ _ _ _) as [w1 r] eqn:Hiv.
    assert (block_claims w1 = block_claims w) as Hb.
    { unfold install_verdict in Hiv. destruct (negb _); [by simplify_eq|]. destruct (_ || _)%bool; [by simplify_eq|].
      destruct (existsb _ _); [by simplify_eq|]. destruct (verdict_map w); [|by simplify_eq].
      destruct (write_each _ _ _). by simplify_eq. }
    destruct r; cbn [fst block_claims]; [apply drop_all_ok|]; by rewrite Hb.
  - unfold remember_endpoint_blocks. destruct (negb _); [done|]. destruct (endpoint_map w); [|done].
    destruct (client_mac_identity c); [|done]. destruct (flow_identity_hash f); [|done]. cbn [mbind result_bind].
    by destruct (write_each _ _ _).
  - unfold forget_endpoint_blocks. destruct (endpoint_map w); [|done]. destruct (client_mac_identity c); [|done].
    by destruct (foldS _ _ _ _).
  - destruct (ready w) eqn:Hready; [|unfold writer_reset; by rewrite Hready].
    destruct (verdict_map w) as [m|] eqn:Hm; [|unfold writer_reset; by rewrite Hready, Hm].
    destruct (writer_reset _ w gen enabled) as [w1 r] eqn:Hrs.
    apply (writer_reset_spec _ _ _ _ _ _ _ Hready Hm) in Hrs as [Hb _]. cbn [fst]. rewrite Hb. apply no_claims_ok.
  - unfold active_shape_owner. destruct (verdict_map w); [|done]. by destruct (bpf_lookup _ _).
  - done.
Qed.

Definition reachable (w : FlowVerdictWriter) : Prop :=
  ∃ verdict endpoint policy_state, rtc writer_step (writer_new verdict endpoint policy_state) w.

Lemma reachable_registry w : reachable w → registry_ok (block_claims w).
Proof.
  intros (v & e & p & Hsteps). assert (registry_ok (block_claims (writer_new v e p))) as H0 by apply no_claims_ok.
  revert H0. induction Hsteps as [|w1 w2 w3 Hstep _ IH]; [done|]. intros Hr. apply IH. by eapply step_registry.
Qed.

(** C30: However many operations run, in whatever order and with whatever system
    calls failing, and whatever the kernel evicts or overwrites meanwhile, the
    registry of block owners stays in order: its counter is the number of
    claims, never above the bound of 32768; an alias on record has between one
    and 16 claims, by distinct flows, all for one generation, policy and client. *)
Theorem block_registry_invariant w : reachable w →
  claim_count (block_claims w) = total_claims (claim_aliases (block_claims w)) ∧
  claim_count (block_claims w) ≤ 32768 ∧
  ∀ a cs, claim_aliases (block_claims w) !! a = Some cs →
    1 ≤ zlen cs ≤ 16 ∧ NoDup ((λ c, flow_of c) <$> cs) ∧
    ∃ gen policy mac, Forall (claim_for gen policy mac) cs.
Proof.
  intros [Hcount Hbound Hall]%reachable_registry. split_and!; [done|done|]. intros a cs Ha.
  destruct (Hall a cs Ha) as (Hne & Hlen & Hnd & Hfor). split_and!; [|done|done|done].
  destruct cs; [done|]. unfold zlen. cbn. lia.
Qed.

(** C31: Installing a block is all or nothing. At any time in the life of the
    writer: where [install_block] succeeds, each alias carries in the verdict
    map the block of one of its recorded claims, valid until the last of them
    expires; the new claim is recorded, all claims of the alias are for the same
    generation, policy and client, and no live claim of another flow for that
    decision is lost; other keys of the map are as before. Where it fails, the
    map is as it was, unless undoing a partial write failed too, which the error
    says. *)
Theorem install_block_correct w aliases observed f p c gen expires now m w' r :
  reachable w → Forall key_wf aliases → verdict_map w = Some m →
  install_block big_endian w aliases observed f p c gen expires now = (w', r) →
  ∃ m', verdict_map w' = Some m' ∧
  match r with
  | Ok n =>
    n = zlen aliases ∧
    (∃ i, block_identity f p c = Ok i ∧
       ∀ a, a ∈ aliases → installed big_endian w w' observed i gen expires now m m' a) ∧
    (∀ k, (k ∉ bpf_key_bytes big_endian <$> aliases) → content m' !! k = content m !! k)
  | Err e => intact e m m'
  end.
Proof.
  intros Hr%reachable_registry Hwf Hm. rewrite install_block_eq. destruct (block_identity f p c) as [i|e] eqn:Hi.
  - pose proof (block_identity_wf _ _ _ _ Hi) as Hiw. intros Hin.
    destruct (install_owned_block_spec _ _ _ _ _ _ _ _ _ _ _ Hr Hiw Hwf Hm Hin) as (_ & m' & Hm' & Hres).
    exists m'. split; [done|]. destruct r; [|done]. destruct Hres as (-> & Hinst & Hframe). eauto.
  - intros [= <- <-]. exists m. split; [done|]. by apply intact_same.
Qed.

(** Revoking the verdicts of a flow removes them and nothing else, again all
    or nothing. At any time in the life of the writer, where [clear_aliases]
    succeeds: at each of the given aliases no value owned by the revoked flow is
    left and no claim of it is recorded; where the entry was a recorded block
    that another live flow claims too, the alias is still blocked, for the
    remaining claims and until the last of them expires; a value that is neither
    a recorded block nor owned by the flow is left alone, and so are the other
    keys. The result counts the entries removed. Without a flow, all the entries
    go. Where it fails, the map is intact as for an install. *)
Lemma clear_aliases_correct w aliases expected_flow_id now m w' r :
  reachable w → Forall key_wf aliases → verdict_map w = Some m →
  clear_aliases big_endian w aliases expected_flow_id now = (w', r) →
  ∃ m', verdict_map w' = Some m' ∧
  match r with
  | Ok n =>
    ∃ expected, (match expected_flow_id with None => Ok None | Some f => Some <$> flow_identity_hash f end) = Ok expected ∧
    n = entries_removed big_endian aliases m m' ∧
    (∀ a, a ∈ aliases → revoked big_endian w w' expected now m m' a) ∧
    (∀ k, (k ∉ bpf_key_bytes big_endian <$> aliases) → content m' !! k = content m !! k)
  | Err e => intact e m m'
  end.
Proof.
  intros Hr%reachable_registry Hwf Hm Hcl. by destruct (clear_aliases_spec _ _ _ _ _ _ _ _ Hr Hwf Hm Hcl) as [_ Hres].
Qed.

End invariant.

(** A reset fails closed. Where it succeeds, the verdict map and the endpoint
    block map are empty, no claim is recorded and the policy state map carries
    the requested generation and enforcement flag. Where any of its system calls
    fails, enforcement is never switched on by it: the policy state is the
    disabled one, or, where that could not be written either, what it was. *)
Lemma reset_fails_closed big_endian w gen enabled m w' r :
  ready w = true → verdict_map w = Some m → writer_reset big_endian w gen enabled = (w', r) →
  block_claims w' = no_claims ∧
  match r with
  | Ok _ =>
    map_content (verdict_map w') = ∅ ∧ map_content (endpoint_map w') = ∅ ∧
    policy_value big_endian w' = Some (encode_policy_state big_endian enabled gen)
  | Err _ =>
    policy_value big_endian w' = Some (encode_policy_state big_endian false gen) ∨
    policy_value big_endian w' = policy_value big_endian w
  end.
Proof.
  intros Hready Hm Hrs. destruct (writer_reset_spec _ _ _ _ _ _ _ Hready Hm Hrs) as (Hb & Hok & Herr).
  split; [done|]. destruct r as [[]|e]; [by apply Hok|by apply Herr].
Qed.

(** ** Shapes *)

Lemma write_each_content previous writes m m' n : write_each previous writes m = (m', Ok n) →
  n = zlen previous + zlen writes ∧ content m' = foldl (λ c '(k, v), <[k := v]> c) (content m) writes.
Proof.
  revert previous m. induction writes as [|[k v] writes IH]; intros previous m Hw; cbn [write_each] in Hw.
  { injection Hw as <- <-. split; [|done]. unfold zlen. cbn. lia. }
  unfold mbind, stM_bind, or_fail in Hw. destruct (bpf_lookup k m) as [m1 [pv|]] eqn:Hl; [|done].
  apply bpf_lookup_cases in Hl as [Hc _]. unfold try_write in Hw.
  destruct (bpf_write k (Some v) m1) as [m2 [u|]] eqn:Hu; [|by destruct (rollback _ _)].
  apply bpf_write_cases in Hu. destruct (IH _ _ Hw) as [-> ->]. split; [unfold zlen; cbn; lia|].
  cbn [foldl]. by rewrite Hu, Hc.
Qed.

Definition insert_each (writes : list (list Z * list Z)) (c : gmap (list Z) (list Z)) : gmap (list Z) (list Z) :=
  foldl (λ c '(k, v), <[k := v]> c) c writes.

Lemma insert_each_other writes c k : (k ∉ fst <$> writes) → insert_each writes c !! k = c !! k.
Proof.
  revert c. induction writes as [|[k' v'] writes IH]; intros c Hk; [done|].
  rewrite fmap_cons, not_elem_of_cons in Hk. destruct Hk as [Hne Hk].
  change (insert_each ((k', v') :: writes) c) with (insert_each writes (<[k' := v']> c)).
  rewrite IH by done. by rewrite lookup_insert_ne.
Qed.

Lemma insert_each_lookup writes c k v : NoDup (fst <$> writes) → (k, v) ∈ writes → insert_each writes c !! k = Some v.
Proof.
  revert c. induction writes as [|[k' v'] writes IH]; intros c Hnd Hin; [by apply elem_of_nil in Hin|].
  rewrite fmap_cons, NoDup_cons in Hnd. destruct Hnd as [Hnin Hnd].
  change (insert_each ((k', v') :: writes) c) with (insert_each writes (<[k' := v']> c)).
  apply elem_of_cons in Hin as [[= -> ->]|Hin]; [|by apply IH].
  rewrite insert_each_other by done. apply lookup_insert_eq.
Qed.

Section shapes.
Context (big_endian : bool).

Lemma install_verdict_content w aliases i gen expires verdict w' n m :
  verdict_map w = Some m → install_verdict big_endian w aliases i gen expires verdict = (w', Ok n) →
  n = zlen aliases ∧ Forall (λ '(k, tag), exact_key k = true) aliases ∧
  block_claims w' = block_claims w ∧ ∃ m', verdict_map w' = Some m' ∧
    content m' = insert_each
      ((λ '(k, tag), (bpf_key_bytes big_endian k, encode_verdict big_endian expires gen i tag verdict)) <$> aliases) (content m).
Proof.
  intros Hm. unfold install_verdict. destruct (negb _); [done|]. destruct (_ || _)%bool; [done|].
  destruct (existsb _ aliases) eqn:Hex; [done|]. rewrite Hm.
  destruct (write_each [] _ m) as [m1 [k|]] eqn:Hw; [|done]. intros [= <- <-].
  apply write_each_content in Hw as [-> Hc]. split_and!; [| |done|by exists m1].
  - unfold zlen. rewrite length_fmap. done.
  - rewrite existsb_false in Hex. eapply Forall_impl; [exact Hex|]. intros [k tag] Hk. by destruct (exact_key k).
Qed.

(** A shape that was installed is found again. Where [install_shape] succeeds
    for a flow (whose id is the hexadecimal text of its 16-byte hash) and
    distinct aliases, looking up any of them under the same generation, before
    the verdict expires and with the lookup itself succeeding, gives that flow's
    id and the class tag installed for the alias; and no block claim is left on
    it. *)
Lemma installed_shape_owner w aliases flow gen expires m w' n k tag now :
  verdict_map w = Some m → length flow = 16%nat → Forall is_u8 flow → is_u64 gen → is_u64 expires →
  Forall key_wf (fst <$> aliases) → NoDup (fst <$> aliases) → Forall (λ a, is_u32 (snd a)) aliases →
  install_shape big_endian w aliases (hex_bytes flow) gen expires = (w', Ok n) →
  (k, tag) ∈ aliases → now < expires → (∀ m', verdict_map w' = Some m' → next_fault m' = false) →
  n = zlen aliases ∧ snd (active_shape_owner big_endian w' k gen now) = Some (hex_bytes flow, tag) ∧
  claim_aliases (block_claims w') !! k = None.
Proof.
  intros Hm Hlen Hu8 Hgen Hexp Hwf Hnd Htags. unfold install_shape. destruct (existsb _ aliases) eqn:Hex; [done|].
  rewrite flow_identity_hash_hex by done. set (i := mkIdentity _ _ _).
  destruct (install_verdict _ _ _ _ _ _ _) as [w1 [n1|]] eqn:Hiv; [|done]. intros [= <- <-] Hin Hnow Hfault.
  destruct (install_verdict_content _ _ _ _ _ _ _ _ _ Hm Hiv) as (-> & _ & Hb & m1 & Hm1 & Hc).
  split; [done|]. cbn [verdict_map block_claims] in *. split.
  - unfold active_shape_owner. cbn [verdict_map]. rewrite Hm1. unfold bpf_lookup. rewrite (Hfault m1 Hm1). cbn [snd].
    rewrite Hc, (insert_each_lookup _ _ _ (encode_verdict big_endian expires gen i tag VERDICT_SHAPE)).
    + rewrite Forall_forall in Htags. rewrite existsb_false, Forall_forall in Hex.
      pose proof (Hex _ Hin) as Hx. cbn in Hx. apply orb_false_iff in Hx as [_ Hx%negb_false_iff].
      apply shape_owner_encoded; try done. by apply (Htags _ Hin).
    + rewrite <- list_fmap_compose.
      assert (fst ∘ (λ '(k0, tag0), (bpf_key_bytes big_endian k0, encode_verdict big_endian expires gen i tag0 VERDICT_SHAPE))
        <$> aliases = bpf_key_bytes big_endian <$> (fst <$> aliases)) as ->.
      { rewrite <- list_fmap_compose. apply list_fmap_ext. by intros ? [] _. }
      by apply NoDup_key_of.
    + apply list_elem_of_fmap. by exists (k, tag).
  - rewrite drop_all_lookup, decide_True; [done|]. apply list_elem_of_fmap. by exists (k, tag).
Qed.

End shapes.

(** ** Examples *)

Module WriterExample.
Definition digest : Digest := Flow.Example.digest.
Definition key : FlowKey := Flow.Example.key.
Definition key_wf_ok : key_wf key := Flow.Example.key_ok.
Definition flow_a : list Z := replicate 16 10.
Definition flow_b : list Z := replicate 16 11.
Definition id_a : string := hex_bytes flow_a.
Definition id_b : string := hex_bytes flow_b.
Definition mac : string := "02:00:00:00:00:01".
Definition fresh : BpfMap := mkMap ∅ [].
Definition verdict_abi : MapAbi := mkAbi 44 64 16384.
Definition endpoint_abi : MapAbi := mkAbi 44 64 8192.
Definition policy_abi : MapAbi := mkAbi 4 16 1.
Definition writer : FlowVerdictWriter := writer_new (verdict_abi, fresh) (endpoint_abi, fresh) (policy_abi, fresh).
(** Two flows block one key. *)
Definition writer_a : FlowVerdictWriter :=
  fst (@install_block false digest writer [key] [key] id_a "policy" mac 7 1000 10).
Definition writer_ab : FlowVerdictWriter :=
  fst (@install_block false digest writer_a [key] [] id_b "policy" mac 7 2000 20).
End WriterExample.

Lemma example_digest_length bs : length (@sha256_digest WriterExample.digest bs) = 32%nat.
Proof. reflexivity. Qed.

Lemma example_keys_wf : Forall key_wf [WriterExample.key].
Proof. constructor; [apply WriterExample.key_wf_ok|constructor]. Qed.

Lemma writer_a_reachable : @reachable false WriterExample.digest WriterExample.writer_a.
Proof.
  exists (WriterExample.verdict_abi, WriterExample.fresh), (WriterExample.endpoint_abi, WriterExample.fresh),
    (WriterExample.policy_abi, WriterExample.fresh).
  apply rtc_once, (step_install_block false WriterExample.writer), example_keys_wf.
Qed.

Lemma writer_ab_reachable : @reachable false WriterExample.digest WriterExample.writer_ab.
Proof.
  destruct writer_a_reachable as (v & e & p & Hs). exists v, e, p. eapply rtc_r; [exact Hs|].
  apply (step_install_block false WriterExample.writer_a), example_keys_wf.
Qed.

(** Two owners on record. *)
Lemma block_registry_invariant_witness :
  claim_count (block_claims WriterExample.writer_ab) = 2 ∧
  (claim_count (block_claims WriterExample.writer_ab) = total_claims (claim_aliases (block_claims WriterExample.writer_ab)) ∧
   claim_count (block_claims WriterExample.writer_ab) ≤ 32768).
Proof.
  split; [vm_compute; reflexivity|].
  destruct (@block_registry_invariant false WriterExample.digest example_digest_length WriterExample.writer_ab
    writer_ab_reachable) as (H1 & H2 & _). exact (conj H1 H2).
Defined.

(** The second owner joins the first. *)
Lemma install_block_correct_witness :
  let w := WriterExample.writer_a in
  let r := @install_block false WriterExample.digest w [WriterExample.key] [] WriterExample.id_b "policy" WriterExample.mac 7 2000 20 in
  snd r = Ok 1 ∧
  ∃ m', verdict_map (fst r) = Some m' ∧
    ∃ i, @block_identity WriterExample.digest WriterExample.id_b "policy" WriterExample.mac = Ok i ∧
      installed false w (fst r) [] i 7 2000 20 (default WriterExample.fresh (verdict_map w)) m' WriterExample.key.
Proof.
  intros w r. assert (snd r = Ok 1) as Hok by (vm_compute; reflexivity). split; [exact Hok|].
  destruct (@install_block_correct false WriterExample.digest example_digest_length w [WriterExample.key] []
    WriterExample.id_b "policy" WriterExample.mac 7 2000 20 (default WriterExample.fresh (verdict_map w)) (fst r) (snd r)
    writer_a_reachable example_keys_wf ltac:(vm_compute; reflexivity) ltac:(apply surjective_pairing)) as (m' & Hm' & Hres).
  exists m'. split; [exact Hm'|]. rewrite Hok in Hres. destruct Hres as (_ & (i & Hi & Hall) & _).
  exists i. split; [exact Hi|]. apply Hall. left.
Defined.

(** Revoking the first leaves the second. *)
Lemma clear_aliases_correct_witness :
  let w := WriterExample.writer_ab in
  let r := clear_aliases false w [WriterExample.key] (Some WriterExample.id_a) 30 in
  snd r = Ok 0 ∧
  ∃ m', verdict_map (fst r) = Some m' ∧ ∃ expected,
    revoked false w (fst r) expected 30 (default WriterExample.fresh (verdict_map w)) m' WriterExample.key.
Proof.
  intros w r. assert (snd r = Ok 0) as Hok by (vm_compute; reflexivity). split; [exact Hok|].
  destruct (@clear_aliases_correct false WriterExample.digest example_digest_length w [WriterExample.key]
    (Some WriterExample.id_a) 30 (default WriterExample.fresh (verdict_map w)) (fst r) (snd r)
    writer_ab_reachable example_keys_wf ltac:(vm_compute; reflexivity) ltac:(apply surjective_pairing)) as (m' & Hm' & Hres).
  exists m'. split; [exact Hm'|]. rewrite Hok in Hres. destruct Hres as (e & _ & _ & Hall & _).
  exists e. apply Hall. left.
Defined.

(** A reset of the map with a verdict in it. *)
Lemma reset_fails_closed_witness :
  let w := WriterExample.writer_ab in
  let r := writer_reset false w 8 true in
  snd r = Ok tt ∧ block_claims (fst r) = no_claims ∧ map_content (verdict_map (fst r)) = ∅.
Proof.
  intros w r. assert (snd r = Ok tt) as Hok by (vm_compute; reflexivity). split; [exact Hok|].
  destruct (reset_fails_closed false w 8 true (default WriterExample.fresh (verdict_map w)) (fst r) (snd r)
    ltac:(reflexivity) ltac:(vm_compute; reflexivity) ltac:(apply surjective_pairing)) as (Hb & Hres).
  rewrite Hok in Hres. split; [exact Hb|]. apply Hres.
Defined.

Lemma installed_shape_owner_witness :
  let w := WriterExample.writer_ab in
  let r := install_shape false w [(WriterExample.key, 5)] WriterExample.id_a 7 100 in
  snd (active_shape_owner false (fst r) WriterExample.key 7 50) = Some (WriterExample.id_a, 5).
Proof.
  intros w r. assert (snd r = Ok 1) as Hok by (vm_compute; reflexivity).
  assert (Forall (λ a : FlowKey * Z, is_u32 (snd a)) [(WriterExample.key, 5)]) as Htags by (repeat constructor; done).
  assert (Forall is_u8 WriterExample.flow_a) as Hflow by (apply Forall_replicate; split; lia).
  assert (∀ m', verdict_map (fst r) = Some m' → next_fault m' = false) as Hfault.
  { assert (match verdict_map (fst r) with Some m' => next_fault m' | None => false end = false) as Hf by (vm_compute; reflexivity).
    intros m' Hm. rewrite Hm in Hf. exact Hf. }
  apply (installed_shape_owner false w [(WriterExample.key, 5)] WriterExample.flow_a 7 100
    (default WriterExample.fresh (verdict_map w)) (fst r) 1 WriterExample.key 5 50).
  - vm_compute. reflexivity.
  - reflexivity.
  - exact Hflow.
  - split; lia.
  - split; lia.
  - exact example_keys_wf.
  - apply NoDup_singleton.
  - exact Htags.
  - rewrite <- Hok. apply surjective_pairing.
  - left.
  - lia.
  - exact Hfault.
Defined.

(** Unlike a block, a shape is not all or nothing: where the second alias cannot
    be read, the call fails and the verdict of the first stays installed. *)
Example install_shape_read_failure :
  let k2 := mkKey 4 17 2 2 7 (replicate 16 1) (replicate 16 2) 53 47000 in
  let w := writer_new (WriterExample.verdict_abi, mkMap ∅ [false; false; true])
             (WriterExample.endpoint_abi, WriterExample.fresh) (WriterExample.policy_abi, WriterExample.fresh) in
  let r := install_shape false w [(WriterExample.key, 5); (k2, 5)] WriterExample.id_a 7 100 in
  snd r = Err ReadFailed ∧ snd (active_shape_owner false (fst r) WriterExample.key 7 50) = Some (WriterExample.id_a, 5).
Proof. split; vm_compute; reflexivity. Qed.
