(* ===== verification/Sni.v ===== *)
(** Extraction of the TLS server name from sampled packets on the collector
    (src/crates/collector/src/dpi/sni.rs). Packets are bytes off the network:
    every index the code takes is checked here, an index out of bounds being an
    outcome of its own, and so is a loop that does not end. Offsets are natural
    numbers: they stay below the size of the input plus 2^24, so that the
    additions of the code, checked or not, cannot exceed a [usize]. *)

From S2P Require Import Prelude Topology Net Flow.

(** ** Reading bytes *)

(** Why there is no result: [None], a panic, or a loop without end. *)
Inductive halt := NoMatch | OutOfBounds | Unfinished.
Abbreviation scan := (result halt).

(** [bytes[i]], [bytes.get(i)?], [&bytes[a..b]] and [bytes.get(a..b)?]. *)
Definition index (bs : list Z) (i : nat) : scan Z := ok_or (bs !! i) OutOfBounds.
Definition get (bs : list Z) (i : nat) : scan Z := ok_or (bs !! i) NoMatch.
Definition range (oob : halt) (bs : list Z) (a b : nat) : scan (list Z) :=
  if ((a <=? b)%nat && (b <=? length bs)%nat)%bool then Ok (slice a b bs) else Err oob.
Definition index_range : list Z → nat → nat → scan (list Z) := range OutOfBounds.
Definition get_range : list Z → nat → nat → scan (list Z) := range NoMatch.

(** [usize::from(u16::from_be_bytes([a, b]))]. *)
Definition be16 (a b : Z) : nat := Z.to_nat (a * 256 + b).

Definition reject (b : bool) : scan unit := if b then Err NoMatch else Ok tt.

(** ** Packets *)

Definition TLS_HANDSHAKE : Z := 22.
Definition TLS_CLIENT_HELLO : Z := 1.
Definition SNI_EXTENSION : nat := 0.
Definition MAX_HOSTNAME_LEN : Z := 253.

(** The payload of the TCP segment in [packet[header..end_]]. *)
Definition segment_payload (packet : list Z) (header end_ : nat) : scan (list Z) :=
  tcp ← index_range packet header end_;
  _ ← reject (length tcp <? 20)%nat;
  b ← index tcp 12;
  let data_offset := (Z.to_nat (Z.shiftr b 4) * 4)%nat in
  if ((20 <=? data_offset)%nat && (data_offset <=? length tcp)%nat)%bool then index_range tcp data_offset (length tcp)
  else Err NoMatch.

Definition tcp_payload (packet : list Z) : scan (list Z) :=
  _ ← reject (bool_decide (packet = []));
  b0 ← index packet 0;
  if Z.shiftr b0 4 =? 4 then
    let header_len := (Z.to_nat (Z.land b0 15) * 4)%nat in
    if ((header_len <? 20) || (length packet <? header_len))%nat%bool then Err NoMatch
    else
      protocol ← index packet 9;
      if negb (protocol =? 6) then Err NoMatch
      else
        b2 ← index packet 2;
        b3 ← index packet 3;
        let end_ := (be16 b2 b3 `min` length packet)%nat in
        if (end_ <=? header_len)%nat then Err NoMatch
        else segment_payload packet header_len end_
  else if Z.shiftr b0 4 =? 6 then
    if (length packet <? 40)%nat then Err NoMatch
    else
      next_header ← index packet 6;
      b4 ← index packet 4;
      b5 ← index packet 5;
      let end_ := ((40 + be16 b4 b5) `min` length packet)%nat in
      if (negb (next_header =? 6) || (end_ <=? 40)%nat)%bool then Err NoMatch
      else segment_payload packet 40 end_
  else Err NoMatch.

(** ** Host names *)

(** [trim_end_matches('.')] and [split('.')]. *)
Definition trim_end_dots (bs : list Z) : list Z := reverse (drop_while (λ b, b =? 46) (reverse bs)).
Fixpoint split_dots (bs : list Z) : list (list Z) :=
  match bs with
  | [] => [[]]
  | b :: bs =>
    if b =? 46 then [] :: split_dots bs
    else match split_dots bs with label :: labels => (b :: label) :: labels | [] => [[b]] end
  end.

Definition hostname_byte (b : Z) : bool := (is_ascii_alphanumeric b || (b =? 46) || (b =? 45) || (b =? 95))%bool.

Definition valid_hostname (host : string) : option string :=
  let bs := trim_end_dots (str_bytes host) in
  if (bool_decide (bs = []) || (MAX_HOSTNAME_LEN <? zlen bs)
      || bool_decide (is_Some (parse_ip_bytes bs))
      || negb (existsb (λ b, b =? 46) bs)
      || negb (forallb (λ label, negb (bool_decide (label = [])) && (zlen label <=? 63)) (split_dots bs))
      || negb (forallb hostname_byte bs))%bool then None
  else Some (to_ascii_lowercase (bytes_str bs)).

(** ** The ClientHello *)

Fixpoint sni_names (fuel : nat) (extension : list Z) (list_end offset : nat) : scan string :=
  match fuel with
  | O => Err Unfinished
  | S fuel =>
    if (offset + 3 <=? list_end)%nat then
      name_type ← index extension offset;
      l1 ← index extension (offset + 1);
      l2 ← index extension (offset + 2);
      let start := (offset + 3)%nat in
      let end_ := (start + be16 l1 l2)%nat in
      _ ← reject (list_end <? end_)%nat;
      if name_type =? 0 then
        bytes ← index_range extension start end_;
        ok_or (from_utf8 bytes ≫= valid_hostname) NoMatch
      else sni_names fuel extension list_end end_
    else Err NoMatch
  end.

Definition parse_sni_extension (extension : list Z) : scan string :=
  _ ← reject (length extension <? 5)%nat;
  l0 ← index extension 0;
  l1 ← index extension 1;
  let list_end := ((2 + be16 l0 l1) `min` length extension)%nat in
  sni_names (S (length extension)) extension list_end 2.

Fixpoint hello_extensions (fuel : nat) (handshake : list Z) (extensions_end offset : nat) : scan string :=
  match fuel with
  | O => Err Unfinished
  | S fuel =>
    if (offset + 4 <=? extensions_end)%nat then
      t0 ← index handshake offset;
      t1 ← index handshake (offset + 1);
      l0 ← index handshake (offset + 2);
      l1 ← index handshake (offset + 3);
      let data_start := (offset + 4)%nat in
      let data_end := (data_start + be16 l0 l1)%nat in
      _ ← reject (extensions_end <? data_end)%nat;
      if bool_decide (be16 t0 t1 = SNI_EXTENSION) then
        extension ← index_range handshake data_start data_end;
        parse_sni_extension extension
      else hello_extensions fuel handshake extensions_end data_end
    else Err NoMatch
  end.

Definition parse_client_hello (handshake : list Z) : scan string :=
  _ ← reject (length handshake <? 38)%nat;
  version ← index handshake 0;
  _ ← reject (negb (version =? 3));
  let offset := 34%nat in
  session_len ← get handshake offset;
  let offset := (offset + (1 + Z.to_nat session_len))%nat in
  c0 ← get handshake offset;
  c1 ← get handshake (offset + 1);
  let offset := (offset + (2 + be16 c0 c1))%nat in
  compression_len ← get handshake offset;
  let offset := (offset + (1 + Z.to_nat compression_len))%nat in
  e0 ← get handshake offset;
  e1 ← get handshake (offset + 1);
  let offset := (offset + 2)%nat in
  let extensions_end := ((offset + be16 e0 e1) `min` length handshake)%nat in
  hello_extensions (S (length handshake)) handshake extensions_end offset.

Fixpoint find_from (fuel : nat) (data : list Z) (offset : nat) : scan string :=
  match fuel with
  | O => Err Unfinished
  | S fuel =>
    if (offset + 5 <=? length data)%nat then
      b ← index data offset;
      if negb (b =? TLS_HANDSHAKE) then find_from fuel data (offset + 1)
      else
        l0 ← index data (offset + 3);
        l1 ← index data (offset + 4);
        let body_end := (offset + (5 + be16 l0 l1))%nat in
        _ ← reject (length data <? body_end)%nat;
        record ← get_range data (offset + 5) body_end;
        if bool_decide (head record = Some TLS_CLIENT_HELLO) then
          header ← get_range record 0 4;
          h1 ← index header 1;
          h2 ← index header 2;
          h3 ← index header 3;
          let handshake_len := Z.to_nat (Z.lor (Z.lor (Z.shiftl h1 16) (Z.shiftl h2 8)) h3) in
          handshake ← get_range record 4 (4 + handshake_len);
          parse_client_hello handshake
        else find_from fuel data body_end
    else Err NoMatch
  end.

Definition find_client_hello (data : list Z) : scan string := find_from (S (length data)) data 0.

(** [payload.extend_from_slice] over the packets that carry TCP. *)
Fixpoint collect_payload (packets : list (list Z)) (payload : list Z) : scan (list Z) :=
  match packets with
  | [] => Ok payload
  | p :: packets =>
    match tcp_payload p with
    | Ok bytes => collect_payload packets (payload ++ bytes)
    | Err NoMatch => collect_payload packets payload
    | Err e => Err e
    end
  end.

Definition extract_tls_sni (packets : list (list Z)) : scan string :=
  payload ← collect_payload packets [];
  find_client_hello payload.

(** ** No panic, no endless loop *)

(** An outcome the code can have: a result or [None]. *)
Definition tame {A} (r : scan A) : Prop := match r with Err OutOfBounds | Err Unfinished => False | _ => True end.

Lemma tame_bind {A B} (r : scan A) (f : A → scan B) : tame r → (∀ a, r = Ok a → tame (f a)) → tame (r ≫= f).
Proof. destruct r as [a|e]; intros Hr Hf; [by apply Hf|exact Hr]. Qed.

Lemma tame_index bs i : (i < length bs)%nat → tame (index bs i).
Proof. intros Hi. unfold index. destruct (lookup_lt_is_Some_2 bs i Hi) as [b ->]. done. Qed.

Lemma tame_get bs i : tame (get bs i).
Proof. unfold get. by destruct (bs !! i). Qed.

Lemma tame_reject b : tame (reject b).
Proof. by destruct b. Qed.

Lemma tame_index_range bs a b : (a ≤ b ≤ length bs)%nat → tame (index_range bs a b).
Proof.
  intros [Ha Hb]. unfold index_range, range. by rewrite (proj2 (Nat.leb_le a b) Ha), (proj2 (Nat.leb_le b _) Hb).
Qed.

Lemma tame_get_range bs a b : tame (get_range bs a b).
Proof. unfold get_range, range. by destruct (_ && _)%bool. Qed.

Lemma reject_Ok b u : reject b = Ok u ↔ b = false.
Proof. unfold reject. destruct b, u; split; congruence. Qed.

Lemma range_Ok oob bs a b s : range oob bs a b = Ok s ↔ (a ≤ b ≤ length bs)%nat ∧ s = slice a b bs.
Proof.
  unfold range. destruct (_ && _)%bool eqn:Hb.
  - apply andb_true_iff in Hb as [Ha%Nat.leb_le Hb%Nat.leb_le]. split; [intros [= <-]|intros [_ ->]]; done.
  - split; [done|]. intros [[Ha Hb'] _]. apply andb_false_iff in Hb as [H%Nat.leb_gt|H%Nat.leb_gt]; lia.
Qed.

(** Turns what the checks passed established into arithmetic facts. *)
Ltac facts :=
  repeat match goal with
  | H : reject _ = Ok _ |- _ => apply reject_Ok in H
  | H : index_range _ _ _ = Ok _ |- _ => apply range_Ok in H as [H ->]
  | H : get_range _ _ _ = Ok _ |- _ => apply range_Ok in H as [H ->]
  | H : bool_decide (?l = []) = false |- _ =>
    let Hl := fresh in apply bool_decide_eq_false in H; assert (0 < length l)%nat as Hl by (destruct l; [done|cbn; lia]); clear H
  | H : (_ || _)%bool = false |- _ => apply orb_false_iff in H as [? ?]
  | H : (_ && _)%bool = true |- _ => apply andb_true_iff in H as [? ?]
  | H : (_ <? _)%nat = true |- _ => apply Nat.ltb_lt in H
  | H : (_ <? _)%nat = false |- _ => apply Nat.ltb_ge in H
  | H : (_ <=? _)%nat = true |- _ => apply Nat.leb_le in H
  | H : (_ <=? _)%nat = false |- _ => apply Nat.leb_gt in H
  | |- context [length (slice _ _ _)] => rewrite length_slice by (rewrite ?length_slice by lia; lia)
  | H : context [length (slice _ _ _)] |- _ => rewrite length_slice in H by (rewrite ?length_slice by lia; lia)
  end.

Ltac tame_step :=
  lazymatch goal with
  | |- tame (index _ _) => apply tame_index; facts; lia
  | |- tame (get _ _) => apply tame_get
  | |- tame (reject _) => apply tame_reject
  | |- tame (get_range _ _ _) => apply tame_get_range
  | |- tame (index_range _ _ _) => apply tame_index_range; facts; lia
  | |- tame (ok_or ?o NoMatch) => by destruct o
  | |- tame (_ ≫= _) => apply tame_bind; [tame_step|intros ? ?; facts]
  | |- tame (if ?b then _ else _) => destruct b eqn:?; facts
  | |- tame (Err NoMatch) => exact I
  | |- tame (Ok _) => exact I
  end.


Lemma segment_payload_tame packet header end_ : (header ≤ end_ ≤ length packet)%nat → tame (segment_payload packet header end_).
Proof. intros H. unfold segment_payload. repeat tame_step. Qed.

Lemma tcp_payload_tame packet : tame (tcp_payload packet).
Proof. unfold tcp_payload. repeat tame_step; apply segment_payload_tame; lia. Qed.

Lemma sni_names_tame fuel extension list_end offset : (list_end ≤ length extension)%nat → (list_end - offset < fuel)%nat →
  tame (sni_names fuel extension list_end offset).
Proof.
  revert offset. induction fuel as [|fuel IH]; intros offset Hend Hfuel; cbn [sni_names]; [lia|].
  repeat tame_step. apply IH; lia.
Qed.

Lemma parse_sni_extension_tame extension : tame (parse_sni_extension extension).
Proof. unfold parse_sni_extension. repeat tame_step. apply sni_names_tame; lia. Qed.

Lemma hello_extensions_tame fuel handshake end_ offset : (end_ ≤ length handshake)%nat → (end_ - offset < fuel)%nat →
  tame (hello_extensions fuel handshake end_ offset).
Proof.
  revert offset. induction fuel as [|fuel IH]; intros offset Hend Hfuel; cbn [hello_extensions]; [lia|].
  repeat tame_step; [apply parse_sni_extension_tame|apply IH; lia].
Qed.

Lemma parse_client_hello_tame handshake : tame (parse_client_hello handshake).
Proof. unfold parse_client_hello. repeat tame_step. apply hello_extensions_tame; lia. Qed.

Lemma find_from_tame fuel data offset : (length data - offset < fuel)%nat → tame (find_from fuel data offset).
Proof.
  revert offset. induction fuel as [|fuel IH]; intros offset Hfuel; cbn [find_from]; [lia|].
  repeat tame_step; [apply IH; lia|apply parse_client_hello_tame|apply IH; lia].
Qed.

Lemma collect_payload_tame packets payload : tame (collect_payload packets payload).
Proof.
  revert payload. induction packets as [|p packets IH]; intros payload; cbn [collect_payload]; [done|].
  pose proof (tcp_payload_tame p) as Hp. destruct (tcp_payload p) as [bs|[]]; try done; apply IH.
Qed.

Lemma extract_tame packets : tame (extract_tls_sni packets).
Proof.
  apply tame_bind; [apply collect_payload_tame|]. intros data _. apply find_from_tame. lia.
Qed.

(** ** Host names *)

Record hostname_ok (bs : list Z) : Prop := {
  hn_length : 1 ≤ zlen bs ≤ MAX_HOSTNAME_LEN;
  hn_bytes : Forall (λ b, hostname_byte b = true) bs;
  hn_dot : 46 ∈ bs;
  hn_labels : Forall (λ label, 1 ≤ zlen label ≤ 63) (split_dots bs);
  hn_no_address : parse_ip_bytes bs = None;
  hn_end : last bs ≠ Some 46;
}.

Lemma trim_end_dots_last bs : last (trim_end_dots bs) ≠ Some 46.
Proof.
  unfold trim_end_dots. rewrite <- head_reverse, reverse_involutive. intros Hh. by apply drop_while_head in Hh.
Qed.

Lemma trim_end_dots_id bs : last bs ≠ Some 46 → trim_end_dots bs = bs.
Proof.
  unfold trim_end_dots. rewrite <- head_reverse. intros Hh. destruct (reverse bs) as [|b r] eqn:Hr.
  - by rewrite <- (reverse_involutive bs), Hr.
  - cbn [drop_while]. destruct (b =? 46) eqn:Hb; [cbn in Hh; by replace b with 46 in Hh by lia|].
    by rewrite <- Hr, reverse_involutive.
Qed.

Lemma split_dots_labels bs :
  forallb (λ label, negb (bool_decide (label = [])) && (zlen label <=? 63))%bool (split_dots bs) = true ↔
  Forall (λ label, 1 ≤ zlen label ≤ 63) (split_dots bs).
Proof.
  rewrite forallb_Forall. apply Forall_iff. intros label. rewrite andb_true_iff, Z.leb_le.
  destruct label as [|b label]; [split; [by intros [? _]|intros [H _]; by cbn in H]|].
  rewrite bool_decide_eq_false_2 by done. rewrite zlen_cons. pose proof (zlen_nonneg label). cbn [negb]. split; [lia|by intros [_ ?]].
Qed.

Lemma valid_hostname_Some host name : valid_hostname host = Some name ↔
  hostname_ok (trim_end_dots (str_bytes host)) ∧ name = to_ascii_lowercase (bytes_str (trim_end_dots (str_bytes host))).
Proof.
  unfold valid_hostname. set (bs := trim_end_dots _). split.
  - destruct (_ || _)%bool eqn:Hg; [done|]. intros [= <-]. split; [|done]. split_bools.
    match goal with H : existsb _ _ = true |- _ => apply existsb_exists in H as (d & Hd%list_elem_of_In & Hdot%Z.eqb_eq) end.
    split.
    + destruct bs; [done|]. rewrite zlen_cons in *. pose proof (zlen_nonneg bs). lia.
    + by apply forallb_Forall.
    + by subst d.
    + by apply split_dots_labels.
    + destruct (parse_ip_bytes bs); [|done]. match goal with H : ¬ is_Some _ |- _ => by destruct H; eexists end.
    + apply trim_end_dots_last.
  - intros [[Hlen Hb Hdot Hlab Hip _] ->]. clearbody bs.
    rewrite Hip, (bool_decide_eq_false_2 (bs = [])) by (intros ->; by apply elem_of_nil in Hdot).
    rewrite bool_decide_eq_false_2 by (by intros [? ?]). rewrite (proj2 (split_dots_labels bs) Hlab).
    rewrite (proj2 (forallb_Forall _ _) Hb), (proj2 (Z.ltb_ge _ _)) by lia.
    rewrite (proj2 (existsb_exists _ bs)) by (exists 46; split; [by apply list_elem_of_In|done]). done.
Qed.

Lemma hostname_byte_ascii b : hostname_byte b = true → 0 ≤ b < 128.
Proof.
  unfold hostname_byte, is_ascii_alphanumeric, is_ascii_digit, is_ascii_upper, is_ascii_lower.
  rewrite !orb_true_iff, !andb_true_iff. lia.
Qed.

Lemma valid_utf8_ascii bs : Forall (λ b, 0 ≤ b < 128) bs → valid_utf8 bs = true.
Proof. induction 1 as [|b bs Hb _ IH]; [done|]. cbn [valid_utf8]. by rewrite (proj2 (Z.ltb_lt b 128)) by lia. Qed.

(** A well-formed name is accepted as it is, in lowercase. *)
Lemma hostname_accepted bs : hostname_ok bs → from_utf8 bs ≫= valid_hostname = Some (to_ascii_lowercase (bytes_str bs)).
Proof.
  intros Hok. assert (Forall (λ b, 0 ≤ b < 128) bs) as Hascii.
  { eapply Forall_impl; [apply (hn_bytes _ Hok)|]. apply hostname_byte_ascii. }
  unfold from_utf8. rewrite valid_utf8_ascii by done. cbn [mbind option_bind]. apply valid_hostname_Some.
  rewrite str_bytes_of by (eapply Forall_impl; [exact Hascii|]; cbn; lia).
  by rewrite trim_end_dots_id by apply Hok.
Qed.

(** ** What a ClientHello looks like *)

(** A length-prefixed field of two bytes. *)
Definition field16 (bs : list Z) : list Z := be_bytes 2 (zlen bs) ++ bs.

Record Hello := mkHello {
  minor : Z;
  random : list Z;
  session : list Z;
  ciphers : list Z;
  compression : list Z;
  extensions : list (Z * list Z);
}.

Definition encode_extension (e : Z * list Z) : list Z := be_bytes 2 (fst e) ++ field16 (snd e).
Definition encode_extensions (es : list (Z * list Z)) : list Z := concat (encode_extension <$> es).

Definition encode_hello (h : Hello) : list Z :=
  [3; minor h] ++ random h ++ [zlen (session h)] ++ session h ++ field16 (ciphers h)
  ++ [zlen (compression h)] ++ compression h ++ field16 (encode_extensions (extensions h)).

Record hello_wf (h : Hello) : Prop := {
  hw_random : length (random h) = 32%nat;
  hw_session : zlen (session h) < 256;
  hw_ciphers : zlen (ciphers h) < 65536;
  hw_compression : zlen (compression h) < 256;
  hw_extensions : zlen (encode_extensions (extensions h)) < 65536;
  hw_types : Forall (λ e, is_u16 (fst e)) (extensions h);
}.

(** The entries of a server name list, and the extension that carries them. *)
Definition encode_name (n : Z * list Z) : list Z := [fst n] ++ field16 (snd n).
Definition encode_names (ns : list (Z * list Z)) : list Z := concat (encode_name <$> ns).
Definition encode_sni (ns : list (Z * list Z)) : Z * list Z := (0, field16 (encode_names ns)).

(** The server name of a hello: the first entry of type 0 in the first server
    name extension. *)
Definition names_host (h : Hello) (host : list Z) : Prop :=
  ∃ before after others rest, extensions h = before ++ encode_sni (others ++ (0, host) :: rest) :: after ∧
    Forall (λ e, fst e ≠ 0) before ∧ Forall (λ n, fst n ≠ 0) others.

(** A TLS record with the given body; a hello as the first message in it. *)
Definition encode_record (v : Z * Z) (body : list Z) : list Z := [TLS_HANDSHAKE; fst v; snd v] ++ field16 body.
Definition hello_body (h : Hello) (more : list Z) : list Z :=
  [TLS_CLIENT_HELLO] ++ be_bytes 3 (zlen (encode_hello h)) ++ encode_hello h ++ more.

(** What may come before: bytes that do not start a handshake record, and
    handshake records with another message. *)
Inductive noise : list Z → Prop :=
| noise_nil : noise []
| noise_byte b bs : b ≠ TLS_HANDSHAKE → noise bs → noise (b :: bs)
| noise_record v body bs : zlen body < 65536 → head body ≠ Some TLS_CLIENT_HELLO → noise bs →
    noise (encode_record v body ++ bs).

(** ** Reading it back *)

Lemma index_app pre suf i : index (pre ++ suf) (length pre + i) = index suf i.
Proof. unfold index. by rewrite lookup_app_r, Nat.add_sub' by lia. Qed.

Lemma get_app pre suf i : get (pre ++ suf) (length pre + i) = get suf i.
Proof. unfold get. by rewrite lookup_app_r, Nat.add_sub' by lia. Qed.

Lemma slice_mid pre x suf : slice (length pre) (length pre + length x) (pre ++ x ++ suf) = x.
Proof. unfold slice. by rewrite drop_app_length, Nat.add_sub', take_app_length. Qed.

Lemma range_mid oob pre x suf a b : a = length pre → b = (length pre + length x)%nat →
  range oob (pre ++ x ++ suf) a b = Ok x.
Proof. intros -> ->. apply range_Ok. rewrite slice_mid, !length_app. split; [lia|done]. Qed.

Lemma be_bytes_2 n : be_bytes 2 n = [n / 256 mod 256; n mod 256].
Proof. reflexivity. Qed.

Lemma be16_of n : 0 ≤ n < 65536 → be16 (n / 256 mod 256) (n mod 256) = Z.to_nat n.
Proof.
  intros Hn. unfold be16. f_equal. rewrite Z.mod_small by (split; [apply Z.div_pos; lia|apply Z.div_lt_upper_bound; lia]).
  pose proof (Z.div_mod n 256). lia.
Qed.

Lemma to_nat_zlen {A} (l : list A) : Z.to_nat (zlen l) = length l.
Proof. unfold zlen. lia. Qed.

Lemma be16_length (x : list Z) : zlen x < 65536 → be16 (zlen x / 256 mod 256) (zlen x mod 256) = length x.
Proof. intros. rewrite be16_of; [apply to_nat_zlen|]. pose proof (zlen_nonneg x). lia. Qed.

Lemma index_here pre b suf : index (pre ++ b :: suf) (length pre) = Ok b.
Proof. rewrite <- (Nat.add_0_r (length pre)), index_app. done. Qed.

(** One entry of the list. *)
Lemma sni_names_step fuel pre t d suf list_end : zlen d < 65536 → (length pre + (3 + length d) ≤ list_end)%nat →
  sni_names (S fuel) (pre ++ encode_name (t, d) ++ suf) list_end (length pre) =
  if t =? 0 then ok_or (from_utf8 d ≫= valid_hostname) NoMatch
  else sni_names fuel (pre ++ encode_name (t, d) ++ suf) list_end (length pre + (3 + length d)).
Proof.
  intros Hd Hend. cbn [sni_names]. rewrite (proj2 (Nat.leb_le _ _)) by lia.
  unfold encode_name, field16. rewrite be_bytes_2. cbn [fst snd app].
  rewrite index_here, !index_app. cbn [index lookup list_lookup ok_or mbind result_bind].
  rewrite be16_length by done. rewrite (proj2 (Nat.ltb_ge _ _)) by lia. cbn [reject mbind result_bind].
  destruct (t =? 0); [|f_equal; lia].
  change (t :: ?a :: ?b :: d ++ suf) with ([t; a; b] ++ d ++ suf). rewrite (app_assoc pre).
  unfold index_range. rewrite range_mid; [done| |]; rewrite length_app; cbn; lia.
Qed.

Lemma encode_names_app ns ms : encode_names (ns ++ ms) = encode_names ns ++ encode_names ms.
Proof. unfold encode_names. by rewrite fmap_app, concat_app. Qed.

Lemma length_field16 bs : length (field16 bs) = (2 + length bs)%nat.
Proof. unfold field16. by rewrite length_app, length_be_bytes. Qed.

Lemma length_encode_name n : length (encode_name n) = (3 + length (snd n))%nat.
Proof. unfold encode_name. rewrite length_app, length_field16. done. Qed.

Lemma sni_names_finds fuel pre others host rest list_end :
  Forall (λ n, fst n ≠ 0 ∧ zlen (snd n) < 65536) others → zlen host < 65536 → (length others < fuel)%nat →
  zlen pre + zlen (encode_names (others ++ [(0, host)])) ≤ Z.of_nat list_end →
  sni_names fuel (pre ++ encode_names (others ++ (0, host) :: rest)) list_end (length pre) =
  ok_or (from_utf8 host ≫= valid_hostname) NoMatch.
Proof.
  revert fuel pre. induction others as [|[t d] others IH]; intros fuel pre Hall Hhost Hfuel Hend;
    (destruct fuel as [|fuel]; [lia|]).
  - change (encode_names ([] ++ (0, host) :: rest)) with (encode_name (0, host) ++ encode_names rest).
    change (encode_names ([] ++ [(0, host)])) with (encode_name (0, host) ++ []) in Hend.
    unfold zlen in Hend. rewrite app_nil_r, length_encode_name in Hend. cbn [snd] in Hend. rewrite sni_names_step by (done || lia). done.
  - inversion_clear Hall as [|? ? [Ht Hd] Hothers]. cbn [fst snd] in *.
    change (encode_names (((t, d) :: others) ++ ?r)) with (encode_name (t, d) ++ encode_names (others ++ r)) in *.
    pose proof (length_encode_name (t, d)) as Hlen. cbn [snd] in Hlen.
    unfold zlen in Hend. rewrite length_app, Hlen in Hend. rewrite sni_names_step by (done || lia).
    rewrite (proj2 (Z.eqb_neq t 0)) by done. rewrite app_assoc.
    replace (length pre + (3 + length d))%nat with (length (pre ++ encode_name (t, d))) by (rewrite length_app, Hlen; done).
    apply IH; [done|done|cbn in Hfuel; lia|]. unfold zlen. rewrite length_app, Hlen. lia.
Qed.

Lemma length_concat_elem {A B} (f : A → list B) l x : x ∈ l → (length (f x) ≤ length (concat (f <$> l)))%nat.
Proof.
  induction l as [|y l IH]; [by intros []%elem_of_nil|]. intros [->|Hx]%elem_of_cons; cbn; rewrite length_app; [lia|].
  specialize (IH Hx). cbn in IH. lia.
Qed.

Lemma length_concat_count {A B} (f : A → list B) l : (∀ x, (1 ≤ length (f x))%nat) → (length l ≤ length (concat (f <$> l)))%nat.
Proof. intros Hf. induction l as [|y l IH]; cbn; [done|]. rewrite length_app. specialize (Hf y). cbn in IH. lia. Qed.

Lemma parse_sni_finds others host rest :
  Forall (λ n, fst n ≠ 0) others → zlen (encode_names (others ++ (0, host) :: rest)) < 65536 →
  parse_sni_extension (field16 (encode_names (others ++ (0, host) :: rest))) = ok_or (from_utf8 host ≫= valid_hostname) NoMatch.
Proof.
  intros Hne Hsize. set (ns := others ++ (0, host) :: rest) in *. unfold parse_sni_extension, field16. rewrite be_bytes_2.
  assert (∀ n, n ∈ ns → (3 + length (snd n) ≤ length (encode_names ns))%nat) as Hin.
  { intros n Hn. rewrite <- length_encode_name. by apply length_concat_elem. }
  assert ((0, host) ∈ ns) as Hhost by (apply elem_of_app; right; left). pose proof (Hin _ Hhost) as Hhl. cbn [snd] in Hhl.
  assert (length (encode_names (others ++ [(0%Z, host)])) ≤ length (encode_names ns))%nat as Hpre.
  { unfold ns. change ((0, host) :: rest) with ([(0, host)] ++ rest). rewrite app_assoc, (encode_names_app (_ ++ _)), length_app. lia. }
  rewrite (proj2 (Nat.ltb_ge _ _)) by (cbn [app length]; lia). cbn [app index lookup list_lookup ok_or mbind result_bind reject].
  rewrite be16_length by done. rewrite Nat.min_l by (cbn; lia).
  change (?a :: ?b :: encode_names ns) with ([a; b] ++ encode_names ns). apply (sni_names_finds _ [_; _]).
  - rewrite Forall_forall in Hne |- *. intros n Hn. split; [auto|].
    assert (n ∈ ns) as Hn' by (apply elem_of_app; by left). specialize (Hin n Hn'). unfold zlen in *. lia.
  - unfold zlen in *. lia.
  - assert (length ns ≤ length (encode_names ns))%nat as Hc.
    { apply length_concat_count. intros x. rewrite length_encode_name. lia. }
    unfold ns in Hc at 1. rewrite !length_app in *. cbn [length] in *. lia.
  - unfold zlen in *. cbn [length]. lia.
Qed.

Lemma length_encode_extension e : length (encode_extension e) = (4 + length (snd e))%nat.
Proof. unfold encode_extension. by rewrite length_app, length_be_bytes, length_field16. Qed.

(** One extension. *)
Lemma hello_extensions_step fuel pre t d suf end_ : is_u16 t → zlen d < 65536 → (length pre + (4 + length d) ≤ end_)%nat →
  hello_extensions (S fuel) (pre ++ encode_extension (t, d) ++ suf) end_ (length pre) =
  if bool_decide (t = 0) then parse_sni_extension d
  else hello_extensions fuel (pre ++ encode_extension (t, d) ++ suf) end_ (length pre + (4 + length d)).
Proof.
  intros Ht Hd Hend. cbn [hello_extensions]. rewrite (proj2 (Nat.leb_le _ _)) by lia.
  unfold encode_extension, field16. rewrite !be_bytes_2. cbn [fst snd app].
  rewrite index_here, !index_app. cbn [index lookup list_lookup ok_or mbind result_bind].
  rewrite be16_length by done. rewrite (proj2 (Nat.ltb_ge _ _)) by lia. cbn [reject mbind result_bind].
  unfold in_width in Ht. change (2 ^ 16) with 65536 in Ht. rewrite be16_of by lia. unfold SNI_EXTENSION.
  rewrite (bool_decide_ext (Z.to_nat t = 0%nat) (t = 0)) by lia. case_bool_decide; [|f_equal; lia].
  change (?t0 :: ?t1 :: ?a :: ?b :: d ++ suf) with ([t0; t1; a; b] ++ d ++ suf). rewrite (app_assoc pre).
  unfold index_range. rewrite range_mid; [done| |]; rewrite length_app; cbn; lia.
Qed.

Lemma hello_extensions_finds fuel pre before d after end_ :
  Forall (λ e, fst e ≠ 0 ∧ is_u16 (fst e) ∧ zlen (snd e) < 65536) before → zlen d < 65536 → (length before < fuel)%nat →
  zlen pre + zlen (encode_extensions (before ++ [(0, d)])) ≤ Z.of_nat end_ →
  hello_extensions fuel (pre ++ encode_extensions (before ++ (0, d) :: after)) end_ (length pre) = parse_sni_extension d.
Proof.
  revert fuel pre. induction before as [|[t x] before IH]; intros fuel pre Hall Hd Hfuel Hend;
    (destruct fuel as [|fuel]; [lia|]).
  - change (encode_extensions ([] ++ (0, d) :: after)) with (encode_extension (0, d) ++ encode_extensions after).
    change (encode_extensions ([] ++ [(0, d)])) with (encode_extension (0, d) ++ []) in Hend.
    unfold zlen in Hend. rewrite app_nil_r, length_encode_extension in Hend. cbn [snd] in Hend.
    rewrite hello_extensions_step by (done || lia). done.
  - inversion_clear Hall as [|? ? (Hne & Ht & Hx) Hbefore]. cbn [fst snd] in *.
    change (encode_extensions (((t, x) :: before) ++ ?r)) with (encode_extension (t, x) ++ encode_extensions (before ++ r)) in *.
    pose proof (length_encode_extension (t, x)) as Hlen. cbn [snd] in Hlen.
    unfold zlen in Hend. rewrite length_app, Hlen in Hend. rewrite hello_extensions_step by (done || lia).
    rewrite bool_decide_eq_false_2 by done. rewrite app_assoc.
    replace (length pre + (4 + length x))%nat with (length (pre ++ encode_extension (t, x))) by (rewrite length_app, Hlen; done).
    apply IH; [done|done|cbn in Hfuel; lia|]. unfold zlen. rewrite length_app, Hlen. lia.
Qed.

Lemma encode_extensions_app es fs : encode_extensions (es ++ fs) = encode_extensions es ++ encode_extensions fs.
Proof. unfold encode_extensions. by rewrite fmap_app, concat_app. Qed.

Lemma get_here pre b suf i : i = length pre → get (pre ++ b :: suf) i = Ok b.
Proof. intros ->. rewrite <- (Nat.add_0_r (length pre)), get_app. done. Qed.

Lemma get_at data p b suf i : data = p ++ b :: suf → length p = i → get data i = Ok b.
Proof. intros -> <-. by apply get_here. Qed.

Lemma get_after data p a b suf : data = p ++ a :: b :: suf → get data (length p + 1) = Ok b.
Proof. intros ->. by rewrite get_app. Qed.

(** The fixed part of the hello: everything up to the extensions. *)
Definition hello_front (h : Hello) : list Z :=
  [3; minor h] ++ random h ++ [zlen (session h)] ++ session h ++ field16 (ciphers h)
  ++ [zlen (compression h)] ++ compression h ++ be_bytes 2 (zlen (encode_extensions (extensions h))).

Lemma encode_hello_front h : encode_hello h = hello_front h ++ encode_extensions (extensions h).
Proof. unfold encode_hello, hello_front, field16. by rewrite <- !(assoc_L (++)). Qed.

Lemma length_hello_front h : hello_wf h →
  length (hello_front h) = (40 + length (session h) + length (ciphers h) + length (compression h))%nat.
Proof. intros [Hr _ _ _ _ _]. unfold hello_front. rewrite !length_app, length_field16, length_be_bytes. cbn [length]. lia. Qed.

Lemma parse_client_hello_front h : hello_wf h →
  parse_client_hello (encode_hello h) =
  hello_extensions (S (length (encode_hello h))) (encode_hello h) (length (encode_hello h)) (length (hello_front h)).
Proof.
  intros Hwf. pose proof (length_hello_front h Hwf) as Hfront. pose proof (encode_hello_front h) as Heq.
  destruct Hwf as [Hr Hs Hc Hp He _]. set (data := encode_hello h) in *. set (exts := encode_extensions (extensions h)) in *.
  set (a := [3; minor h] ++ random h).
  assert (data = a ++ zlen (session h) :: session h ++ field16 (ciphers h) ++ zlen (compression h) :: compression h ++ field16 exts)
    as H1 by (unfold a; by rewrite <- (assoc_L (++))).
  set (b := a ++ zlen (session h) :: session h).
  assert (data = b ++ zlen (ciphers h) / 256 mod 256 :: zlen (ciphers h) mod 256 :: ciphers h ++ zlen (compression h) :: compression h ++ field16 exts)
    as H2 by (unfold b; rewrite H1, <- (assoc_L (++)); reflexivity).
  set (c := b ++ field16 (ciphers h)).
  assert (data = c ++ zlen (compression h) :: compression h ++ field16 exts) as H3
    by (unfold c; rewrite H2; unfold field16; rewrite <- !(assoc_L (++)); reflexivity).
  set (d := c ++ zlen (compression h) :: compression h).
  assert (data = d ++ zlen exts / 256 mod 256 :: zlen exts mod 256 :: exts) as H4
    by (unfold d; rewrite H3, <- !(assoc_L (++)); reflexivity).
  assert (length a = 34%nat) as La by (unfold a; rewrite length_app; cbn; lia).
  assert (length b = 35 + length (session h))%nat as Lb by (unfold b; rewrite length_app; cbn; lia).
  assert (length c = length b + (2 + length (ciphers h)))%nat as Lc by (unfold c; rewrite length_app, length_field16; lia).
  assert (length d = length c + (1 + length (compression h)))%nat as Ld by (unfold d; rewrite length_app; cbn; lia).
  assert (length data = length (hello_front h) + length exts)%nat as Ldata by (rewrite Heq, length_app; done).
  unfold parse_client_hello. rewrite (proj2 (Nat.ltb_ge (length data) 38)) by lia. cbn [reject mbind result_bind].
  assert (index data 0 = Ok 3) as -> by (rewrite H1; reflexivity). cbn [mbind result_bind Z.eqb Pos.eqb negb reject].
  rewrite (get_at data a _ _ 34 H1) by done. cbn [mbind result_bind]. rewrite to_nat_zlen.
  replace (34 + (1 + length (session h)))%nat with (length b) by lia.
  rewrite (get_at data b _ _ (length b) H2) by done. cbn [mbind result_bind].
  rewrite (get_after data b _ _ _ H2). cbn [mbind result_bind]. rewrite be16_length by done. rewrite <- Lc.
  rewrite (get_at data c _ _ (length c) H3) by done. cbn [mbind result_bind]. rewrite to_nat_zlen, <- Ld.
  rewrite (get_at data d _ _ (length d) H4) by done. cbn [mbind result_bind].
  rewrite (get_after data d _ _ _ H4). cbn [mbind result_bind]. rewrite be16_length by done.
  clear H1 H2 H3 H4 Heq. clearbody a b c d data exts. f_equal; lia.
Qed.

Lemma parse_client_hello_finds h host : hello_wf h → names_host h host →
  parse_client_hello (encode_hello h) = ok_or (from_utf8 host ≫= valid_hostname) NoMatch.
Proof.
  intros Hwf (before & after & others & rest & Hext & Hbefore & Hothers). rewrite parse_client_hello_front by done.
  destruct Hwf as [_ _ _ _ He Ht]. set (ns := others ++ (0, host) :: rest) in *. set (d := field16 (encode_names ns)).
  change (encode_sni ns) with (0, d) in Hext.
  assert (∀ e, e ∈ extensions h → (4 + length (snd e) ≤ length (encode_extensions (extensions h)))%nat) as Hin.
  { intros e Hel. rewrite <- length_encode_extension. by apply length_concat_elem. }
  assert ((0, d) ∈ extensions h) as Hd by (rewrite Hext; apply elem_of_app; right; left).
  pose proof (Hin _ Hd) as Hdl. cbn [snd] in Hdl.
  rewrite <- (parse_sni_finds others host rest Hothers)
    by (unfold d in Hdl; rewrite length_field16 in Hdl; unfold zlen in *; fold ns; lia).
  fold ns. fold d. rewrite encode_hello_front. rewrite Hext in *. apply hello_extensions_finds.
  - rewrite Forall_forall in Hbefore, Ht |- *. intros e Hel. assert (e ∈ before ++ (0, d) :: after) as Hel' by (apply elem_of_app; by left).
    specialize (Hin e Hel'). split_and!; [auto|auto|]. unfold zlen in *. lia.
  - unfold zlen in *. lia.
  - assert (length (before ++ (0%Z, d) :: after) ≤ length (encode_extensions (before ++ (0%Z, d) :: after)))%nat as Hcount.
    { apply length_concat_count. intros x. rewrite length_encode_extension. lia. }
    rewrite !length_app in *. cbn [length] in Hcount. lia.
  - change ((0, d) :: after) with ([(0, d)] ++ after). rewrite (app_assoc before), (encode_extensions_app (_ ++ _)).
    unfold zlen. rewrite !length_app. lia.
Qed.

(** ** Records and packets *)

Lemma be_bytes_3 n : be_bytes 3 n = [n / 256 / 256 mod 256; n / 256 mod 256; n mod 256].
Proof. reflexivity. Qed.

Lemma handshake_length n : 0 ≤ n < 2 ^ 24 →
  Z.lor (Z.lor (Z.shiftl (n / 256 / 256 mod 256) 16) (Z.shiftl (n / 256 mod 256) 8)) (n mod 256) = n.
Proof.
  intros Hn. assert (∀ x, 0 ≤ x mod 256 < 256) as Hm by (intros; apply Z.mod_pos_bound; lia).
  replace (Z.lor (Z.shiftl (n / 256 / 256 mod 256) 16) (Z.shiftl (n / 256 mod 256) 8))
    with (Z.shiftl (n / 256 / 256 mod 256 * 256 + n / 256 mod 256) 8).
  - rewrite lor_shiftl by (try apply Hm; lia). rewrite (Z.mod_small (n / 256 / 256)).
    + pose proof (Z.div_mod n 256). pose proof (Z.div_mod (n / 256) 256). change (2 ^ 8) with 256. lia.
    + split; [apply Z.div_pos; [apply Z.div_pos|]; lia|]. apply Z.div_lt_upper_bound; [lia|]. apply Z.div_lt_upper_bound; lia.
  - pose proof (lor_shiftl (n / 256 / 256 mod 256) 8 (n / 256 mod 256) ltac:(lia) (Hm _)) as Hl.
    change (2 ^ 8) with 256 in Hl. rewrite <- Hl, Z.shiftl_lor, Z.shiftl_shiftl by lia. done.
Qed.

(** A handshake record at the front of what is left. *)
Lemma find_from_record fuel pre v body suf : zlen body < 65536 →
  find_from (S fuel) (pre ++ encode_record v body ++ suf) (length pre) =
  if bool_decide (head body = Some TLS_CLIENT_HELLO) then
    header ← get_range body 0 4;
    h1 ← index header 1;
    h2 ← index header 2;
    h3 ← index header 3;
    handshake ← get_range body 4 (4 + Z.to_nat (Z.lor (Z.lor (Z.shiftl h1 16) (Z.shiftl h2 8)) h3));
    parse_client_hello handshake
  else find_from fuel (pre ++ encode_record v body ++ suf) (length pre + (5 + length body)).
Proof.
  intros Hbody. assert (length (encode_record v body) = 5 + length body)%nat as Hlen.
  { unfold encode_record. rewrite length_app, length_field16. done. }
  cbn [find_from]. rewrite !length_app, Hlen, (proj2 (Nat.leb_le _ _)) by lia.
  unfold encode_record, field16. rewrite be_bytes_2. cbn [app]. rewrite index_here. cbn [mbind result_bind].
  change (negb (TLS_HANDSHAKE =? TLS_HANDSHAKE)) with false. cbn iota. rewrite !index_app.
  cbn [index lookup list_lookup ok_or mbind result_bind]. rewrite be16_length by done.
  rewrite (proj2 (Nat.ltb_ge _ _)) by lia. cbn [reject mbind result_bind].
  set (hdr := [TLS_HANDSHAKE; fst v; snd v; zlen body / 256 mod 256; zlen body mod 256]).
  assert (get_range (pre ++ hdr ++ body ++ suf) (length pre + 5) (length pre + (5 + length body)) = Ok body) as Hr.
  { rewrite (app_assoc pre). apply range_mid; rewrite length_app; cbn; lia. }
  change (get_range (pre ++ TLS_HANDSHAKE :: ?x) ?a ?b) with (get_range (pre ++ hdr ++ body ++ suf) a b).
  rewrite Hr. reflexivity.
Qed.

Lemma find_from_noise fuel pre front suf : noise front → (length (front ++ suf) < fuel)%nat → (5 ≤ length suf)%nat →
  ∃ fuel', (length suf < fuel')%nat ∧
    find_from fuel (pre ++ front ++ suf) (length pre) = find_from fuel' ((pre ++ front) ++ suf) (length (pre ++ front)).
Proof.
  intros Hn. revert fuel pre. induction Hn as [|b bs Hb Hn IH|v body bs Hbody Hhead Hn IH]; intros fuel pre Hfuel Hsuf.
  - exists fuel. rewrite app_nil_r. done.
  - destruct fuel as [|fuel]; [lia|]. cbn [app length] in Hfuel.
    destruct (IH fuel (pre ++ [b])) as (fuel' & Hf & Heq); [lia|done|]. exists fuel'. split; [done|].
    replace (pre ++ b :: bs) with ((pre ++ [b]) ++ bs) by (by rewrite <- app_assoc). rewrite <- Heq. cbn [find_from].
    rewrite !length_app in *. cbn [length app] in *. rewrite (proj2 (Nat.leb_le _ _)) by lia.
    rewrite index_here. cbn [mbind result_bind]. rewrite (proj2 (Z.eqb_neq b TLS_HANDSHAKE)) by done.
    by rewrite <- app_assoc.
  - assert (length (encode_record v body) = 5 + length body)%nat as Hlen.
    { unfold encode_record. rewrite length_app, length_field16. done. }
    destruct fuel as [|fuel]; [lia|]. rewrite !length_app, Hlen in Hfuel.
    destruct (IH fuel (pre ++ encode_record v body)) as (fuel' & Hf & Heq); [rewrite length_app; lia|done|].
    exists fuel'. split; [done|].
    replace (pre ++ encode_record v body ++ bs) with ((pre ++ encode_record v body) ++ bs) by (by rewrite <- app_assoc).
    rewrite <- Heq, <- !app_assoc.
    rewrite find_from_record, bool_decide_eq_false_2 by done. by rewrite length_app, Hlen.
Qed.

Lemma find_client_hello_finds front v h more rest host : noise front → hello_wf h → names_host h host →
  zlen (hello_body h more) < 65536 →
  find_client_hello (front ++ encode_record v (hello_body h more) ++ rest) = ok_or (from_utf8 host ≫= valid_hostname) NoMatch.
Proof.
  intros Hn Hwf Hhost Hbody. unfold find_client_hello. set (suf := encode_record v (hello_body h more) ++ rest).
  destruct (find_from_noise (S (length (front ++ suf))) [] front suf Hn) as (fuel & Hf & Heq).
  { lia. }
  { unfold suf, encode_record. rewrite !length_app, length_field16. cbn [length]. lia. }
  cbn [app length] in Heq. rewrite Heq. destruct fuel as [|fuel]; [lia|]. unfold suf.
  rewrite find_from_record, bool_decide_eq_true_2 by done. rewrite <- (parse_client_hello_finds h host) by done.
  assert (0 ≤ zlen (encode_hello h) < 2 ^ 24) as Hsize.
  { unfold hello_body in Hbody. rewrite !zlen_app in Hbody. pose proof (zlen_nonneg (encode_hello h)).
    pose proof (zlen_nonneg more). pose proof (zlen_nonneg (be_bytes 3 (zlen (encode_hello h)))).
    pose proof (zlen_nonneg [TLS_CLIENT_HELLO]). change (2 ^ 24) with 16777216. lia. }
  unfold hello_body. rewrite be_bytes_3.
  set (hdr := [TLS_CLIENT_HELLO; zlen (encode_hello h) / 256 / 256 mod 256; zlen (encode_hello h) / 256 mod 256; zlen (encode_hello h) mod 256]).
  change ([TLS_CLIENT_HELLO] ++ [?a; ?b; ?c] ++ ?x) with (hdr ++ x).
  assert (get_range (hdr ++ encode_hello h ++ more) 0 4 = Ok hdr) as -> by (by apply (range_mid _ [] hdr)).
  cbn [mbind result_bind index lookup list_lookup ok_or hdr]. rewrite handshake_length by done. rewrite to_nat_zlen.
  assert (get_range (hdr ++ encode_hello h ++ more) 4 (4 + length (encode_hello h)) = Ok (encode_hello h)) as ->
    by (by apply range_mid).
  done.
Qed.

(** A TCP header: whole words, their number in the upper half of byte 12. *)
Definition tcp_header (tcp : list Z) : Prop :=
  ∃ words flags, length tcp = (4 * words)%nat ∧ (5 ≤ words < 16)%nat ∧ 0 ≤ flags < 16 ∧
    tcp !! 12%nat = Some (16 * Z.of_nat words + flags).

(** A packet whose TCP segment has the given payload; bytes after the end the IP
    header gives are padding. *)
Inductive carries (chunk : list Z) : list Z → Prop :=
| carries_v4 header tcp padding words hi lo :
    length header = (4 * words)%nat → (5 ≤ words < 16)%nat → header !! 0%nat = Some (64 + Z.of_nat words) →
    header !! 9%nat = Some 6 → header !! 2%nat = Some hi → header !! 3%nat = Some lo →
    be16 hi lo = length (header ++ tcp ++ chunk) → tcp_header tcp →
    carries chunk (header ++ tcp ++ chunk ++ padding)
| carries_v6 header tcp padding class hi lo :
    length header = 40%nat → 0 ≤ class < 16 → header !! 0%nat = Some (96 + class) →
    header !! 6%nat = Some 6 → header !! 4%nat = Some hi → header !! 5%nat = Some lo →
    be16 hi lo = length (tcp ++ chunk) → tcp_header tcp →
    carries chunk (header ++ tcp ++ chunk ++ padding).

Lemma index_front header suf i b : header !! i = Some b → index (header ++ suf) i = Ok b.
Proof. intros Hi. unfold index. by rewrite (lookup_app_l_Some _ _ _ _ Hi). Qed.

Lemma high_nibble a b : 0 ≤ b < 16 → Z.shiftr (16 * a + b) 4 = a.
Proof.
  intros Hb. rewrite Z.shiftr_div_pow2 by lia. change (2 ^ 4) with 16.
  rewrite Z.mul_comm, Z.div_add_l, Z.div_small by lia. lia.
Qed.

Lemma low_nibble a b : 0 ≤ b < 16 → Z.land (16 * a + b) 15 = b.
Proof. intros Hb. change 15 with (Z.ones 4). rewrite Z.land_ones by lia. change (2 ^ 4) with 16.
  rewrite Z.add_comm, Z.mul_comm, Z.mod_add, Z.mod_small by lia. done. Qed.

Lemma segment_payload_chunk header tcp chunk padding : tcp_header tcp →
  segment_payload (header ++ tcp ++ chunk ++ padding) (length header) (length (header ++ tcp ++ chunk)) = Ok chunk.
Proof.
  intros (words & flags & Hlen & Hw & Hf & H12). unfold segment_payload, index_range.
  rewrite (app_assoc tcp), (range_mid _ header (tcp ++ chunk)) by (rewrite ?length_app; lia). cbn [mbind result_bind].
  rewrite (proj2 (Nat.ltb_ge _ _)) by (rewrite length_app; lia). cbn [reject mbind result_bind].
  rewrite (index_front _ _ _ _ H12). cbn [mbind result_bind]. rewrite high_nibble by done.
  rewrite Nat2Z.id, length_app, !(proj2 (Nat.leb_le _ _)) by lia. cbn [andb].
  rewrite <- (app_nil_r chunk) at 1. apply range_mid; lia.
Qed.

Lemma tcp_payload_carries chunk packet : carries chunk packet → tcp_payload packet = Ok chunk.
Proof.
  intros [header tcp padding words hi lo Hlen Hw H0 H9 H2 H3 Htot Htcp|
          header tcp padding class hi lo Hlen Hc H0 H6 H4 H5 Htot Htcp];
    unfold tcp_payload; rewrite (bool_decide_eq_false_2 (_ = [])) by (destruct header; [cbn in Hlen; lia|done]);
    cbn [reject mbind result_bind]; rewrite (index_front _ _ _ _ H0); cbn [mbind result_bind];
    destruct (Htcp) as (tw & _ & Htl & Htw & _).
  - change (64 + Z.of_nat words) with (16 * 4 + Z.of_nat words). rewrite high_nibble, low_nibble by lia.
    rewrite (proj2 (Z.eqb_eq 4 4)) by done. rewrite Nat2Z.id, !(proj2 (Nat.ltb_ge _ _)) by (rewrite ?length_app; lia).
    cbn [orb]. rewrite (index_front _ _ _ _ H9). cbn [mbind result_bind Z.eqb Pos.eqb negb].
    rewrite (index_front _ _ _ _ H2), (index_front _ _ _ _ H3). cbn [mbind result_bind]. rewrite Htot.
    rewrite Nat.min_l by (rewrite !length_app; lia). rewrite (proj2 (Nat.leb_gt _ _)) by (rewrite !length_app; lia).
    replace (words * 4)%nat with (length header) by lia. by apply segment_payload_chunk.
  - change (96 + class) with (16 * 6 + class). rewrite high_nibble by lia.
    rewrite (proj2 (Z.eqb_neq 6 4)), (proj2 (Z.eqb_eq 6 6)) by done.
    rewrite (proj2 (Nat.ltb_ge _ _)) by (rewrite ?length_app; lia).
    rewrite (index_front _ _ _ _ H6), (index_front _ _ _ _ H4), (index_front _ _ _ _ H5).
    cbn [mbind result_bind Z.eqb Pos.eqb negb orb]. rewrite Htot.
    rewrite Nat.min_l by (rewrite !length_app; lia). rewrite (proj2 (Nat.leb_gt _ _)) by (rewrite !length_app; lia).
    replace (40 + length (tcp ++ chunk))%nat with (length (header ++ tcp ++ chunk)) by (rewrite !length_app; lia).
    rewrite <- Hlen at 1. by apply segment_payload_chunk.
Qed.

(** The sampled packets: the segments of a stream, with others in between. *)
Inductive stream : list (list Z) → list Z → Prop :=
| stream_nil : stream [] []
| stream_other p packets data : tcp_payload p = Err NoMatch → stream packets data → stream (p :: packets) data
| stream_segment chunk p packets data : carries chunk p → stream packets data → stream (p :: packets) (chunk ++ data).

Lemma collect_payload_stream packets data payload : stream packets data → collect_payload packets payload = Ok (payload ++ data).
Proof.
  intros Hs. revert payload. induction Hs as [|p packets data Hp Hs IH|chunk p packets data Hp Hs IH]; intros payload;
    cbn [collect_payload].
  - by rewrite app_nil_r.
  - by rewrite Hp.
  - rewrite (tcp_payload_carries _ _ Hp), IH. by rewrite app_assoc.
Qed.

(** ** Only host names come out *)

Definition hostname (name : string) : Prop := ∃ bs, hostname_ok bs ∧ name = to_ascii_lowercase (bytes_str bs).
Definition only_hostnames (r : scan string) : Prop := ∀ name, r = Ok name → hostname name.

Lemma only_bind {A} (r : scan A) f : (∀ a, only_hostnames (f a)) → only_hostnames (r ≫= f).
Proof. intros Hf name. destruct r; [apply Hf|done]. Qed.

Lemma only_if (b : bool) r s : only_hostnames r → only_hostnames s → only_hostnames (if b then r else s).
Proof. by destruct b. Qed.

Lemma only_err e : only_hostnames (Err e).
Proof. done. Qed.

Lemma only_valid bs : only_hostnames (ok_or (from_utf8 bs ≫= valid_hostname) NoMatch).
Proof.
  intros name Hn. apply ok_or_Ok in Hn. unfold from_utf8 in Hn. destruct (valid_utf8 bs); [|done]. cbn in Hn.
  apply valid_hostname_Some in Hn as [Hok ->]. eexists. by split.
Qed.

Create HintDb hosts.
#[local] Hint Resolve only_if only_err only_valid : hosts.
Ltac hosts := repeat (apply only_bind; intros ?); auto with hosts.

Lemma sni_names_only fuel extension list_end offset : only_hostnames (sni_names fuel extension list_end offset).
Proof. revert offset. induction fuel; intros offset; cbn [sni_names]; hosts. apply only_if; hosts. apply only_if; hosts. Qed.

Lemma hello_extensions_only fuel handshake end_ offset : only_hostnames (hello_extensions fuel handshake end_ offset).
Proof.
  revert offset. induction fuel; intros offset; cbn [hello_extensions]; hosts. apply only_if; hosts.
  apply only_if; hosts. unfold parse_sni_extension. hosts. apply sni_names_only.
Qed.

Lemma find_from_only fuel data offset : only_hostnames (find_from fuel data offset).
Proof.
  revert offset. induction fuel; intros offset; cbn [find_from]; hosts. apply only_if; hosts. apply only_if; hosts.
  apply only_if; hosts. unfold parse_client_hello. hosts. apply hello_extensions_only.
Qed.

(** C32: Whatever bytes were sampled, the extraction ends without an index out of
    bounds, and what it returns is a host name: the lowercase of 1 to 253 bytes
    of letters, digits, dots, hyphens and underscores, with a dot, labels of 1
    to 63 bytes, no dot at the end, and not an IP address. *)
Theorem extract_tls_sni_total packets :
  (∃ name, extract_tls_sni packets = Ok name ∧ hostname name) ∨ extract_tls_sni packets = Err NoMatch.
Proof.
  pose proof (extract_tame packets) as Htame. destruct (extract_tls_sni packets) as [name|[]] eqn:He; [|by right|done|done].
  left. exists name. split; [done|]. unfold extract_tls_sni in He. apply bind_Ok in He as (data & _ & Hf).
  by apply find_from_only in Hf.
Qed.

(** C33: The server name of a ClientHello is found. Whenever the sampled TCP
    segments in order, IPv4 or IPv6, with or without options and padding and
    with other packets in between, carry a stream in which a TLS record with
    a well-formed ClientHello is preceded only by bytes other than 22 and by
    complete handshake records with another message, the extraction gives
    the first host name of its server name extension, in lowercase, wherever
    the segments cut the stream and whatever the other extensions are. (A byte
    22 before it that starts no complete record hides the ClientHello: see
    [stray_byte_hides].) *)
Theorem extract_tls_sni_finds packets front v h more rest host :
  noise front → hello_wf h → names_host h host → hostname_ok host → zlen (hello_body h more) < 65536 →
  stream packets (front ++ encode_record v (hello_body h more) ++ rest) →
  extract_tls_sni packets = Ok (to_ascii_lowercase (bytes_str host)).
Proof.
  intros Hn Hwf Hhost Hok Hsize Hs. unfold extract_tls_sni. rewrite (collect_payload_stream _ _ [] Hs). cbn [mbind result_bind app].
  rewrite (find_client_hello_finds _ _ _ _ _ _ Hn Hwf Hhost Hsize), hostname_accepted by done. done.
Qed.

(** ** Example *)

Module HelloExample.
Definition host : list Z := str_bytes "Www.Example.com".
Definition hello : Hello :=
  mkHello 3 (replicate 32 7) [1; 2; 3] [19; 1; 19; 2] [0] [(10, [0; 2; 0; 29]); encode_sni [(0, host)]; (16, [0; 3; 2; 104; 50])].
Definition data : list Z := [5] ++ encode_record (3, 1) (hello_body hello []) ++ [].
Definition ip (len : Z) : list Z := [69; 0] ++ be_bytes 2 len ++ [0; 0; 0; 0; 64; 6; 0; 0; 10; 0; 0; 1; 1; 1; 1; 1].
Definition tcp : list Z := replicate 12 0 ++ [80; 24; 0; 0; 0; 0; 0; 0].
Definition packet (chunk : list Z) : list Z := ip (40 + zlen chunk) ++ tcp ++ chunk ++ [0; 0].
(** The stream in two segments, a UDP packet between them. *)
Definition packets : list (list Z) := [packet (take 60 data); [69; 0; 0; 20] ++ replicate 16 0; packet (drop 60 data)].

Lemma packet_carries chunk : zlen chunk < 60000 → carries chunk (packet chunk).
Proof.
  intros Hc. pose proof (zlen_nonneg chunk). apply (carries_v4 _ _ _ _ 5 ((40 + zlen chunk) / 256 mod 256) ((40 + zlen chunk) mod 256)); try done.
  - lia.
  - rewrite be16_of by lia. rewrite !length_app. cbn. unfold zlen. lia.
  - exists 5%nat, 0. split_and!; (done || lia).
Qed.

Lemma packets_stream : stream packets data.
Proof.
  rewrite <- (take_drop 60 data). apply stream_segment; [apply packet_carries; vm_compute; reflexivity|].
  apply stream_other; [vm_compute; reflexivity|]. rewrite <- (app_nil_r (drop 60 data)).
  apply stream_segment; [apply packet_carries; vm_compute; reflexivity|constructor].
Qed.

Lemma host_ok : hostname_ok host.
Proof.
  split; [by vm_compute| |by apply (bool_decide_unpack _); vm_compute| |by vm_compute|by vm_compute].
  - repeat constructor; vm_compute; reflexivity.
  - apply split_dots_labels. vm_compute. reflexivity.
Qed.
End HelloExample.

Lemma extract_tls_sni_finds_witness : extract_tls_sni HelloExample.packets = Ok "www.example.com".
Proof.
  apply (extract_tls_sni_finds HelloExample.packets [5] (3, 1) HelloExample.hello [] [] HelloExample.host).
  - apply noise_byte; [discriminate|constructor].
  - split; (reflexivity || (repeat constructor; cbv; congruence)).
  - exists [(10, [0; 2; 0; 29])], [(16, [0; 3; 2; 104; 50])], [], []. split; [reflexivity|]. split; repeat constructor. discriminate.
  - apply HelloExample.host_ok.
  - vm_compute. reflexivity.
  - apply HelloExample.packets_stream.
Defined.

(** What is not [noise] before a ClientHello hides it: the record that the first
    byte seems to start is longer than the stream. *)
Example stray_byte_hides :
  extract_tls_sni [HelloExample.packet ([22; 0; 0; 255; 255] ++ HelloExample.data)] = Err NoMatch.
Proof. vm_compute. reflexivity. Qed.
