(* ===== verification/Transport.v ===== *)
(** The agent's telemetry transport (src/crates/agent/src/transport.rs): the
    bounded retry buffer between the producers and the sender thread, its
    statistics, and the sender loop with enrollment, retries and probe results.
    The critical sections under the buffer's mutex are atomic steps; the sender's
    waits, HTTP exchanges and stop requests are inputs, so that every
    interleaving and every behaviour of the network is covered. *)

From S2P Require Import Prelude.

(** ** Statistics: atomics of 64 bits, [fetch_add] wraps around. *)

Record TransportStats := mkStats {
  sent_batches : Z;
  sent_flows : Z;
  sent_bytes : Z;
  queue_depth : Z;
  queue_high_watermark : Z;
  queue_bytes : Z;
  queue_high_watermark_bytes : Z;
  dropped_batches : Z;
  dropped_flows : Z;
  dropped_bytes : Z;
}.

Definition no_stats : TransportStats := mkStats 0 0 0 0 0 0 0 0 0 0.

Definition u64_wrapping_add (a b : Z) : Z := (a + b) mod 2 ^ 64.

Definition record_sent (s : TransportStats) (flow_count byte_count : Z) : TransportStats :=
  mkStats (u64_wrapping_add (sent_batches s) 1) (u64_wrapping_add (sent_flows s) flow_count)
    (u64_wrapping_add (sent_bytes s) byte_count) (queue_depth s) (queue_high_watermark s) (queue_bytes s)
    (queue_high_watermark_bytes s) (dropped_batches s) (dropped_flows s) (dropped_bytes s).

(** The compare-and-swap loops raise a watermark to the value, if it is higher. *)
Definition update_queue (s : TransportStats) (depth bytes : Z) : TransportStats :=
  mkStats (sent_batches s) (sent_flows s) (sent_bytes s) depth (Z.max (queue_high_watermark s) depth) bytes
    (Z.max (queue_high_watermark_bytes s) bytes) (dropped_batches s) (dropped_flows s) (dropped_bytes s).

(** ** Data *)

Record Credentials := mkCredentials { cr_gateway_id : string; agent_token : string }.

Record EnrollResponse := mkEnrollResponse { en_protocol_version : Z; en_gateway_id : string; en_agent_token : string }.

(** What came back from a POST: nothing, or a status and a body. *)
Inductive HttpOutcome := HttpFailed | HttpAnswer (status : Z) (body : list Z).

Inductive SendError := Unauthorized | OtherError.

Definition RETRY_DELAY : Z := 1.
Definition MAX_ENROLL_RETRY_DELAY : Z := 30.
Definition PROTOCOL_VERSION : Z := 1.

Section transport.
Context {Payload Request Probe : Type}.

(** A batch: the fields the transport reads or sets, and the others. *)
Record Batch := mkBatch {
  gateway_id : string;
  boot_id : string;
  sequence : Z;
  flows : list (Z * Z); (* upload and download bytes *)
  probe_results : list Probe;
  payload : Payload;
}.

(** Generated code: the length of the encoding, whether the encoder accepts the
    batch, and the decoders of responses. *)
Context (encoded_len : Batch → Z).
Context (encodes : Batch → bool).
Context (decode_enroll : list Z → option EnrollResponse).
Context (decode_response : list Z → option (list Request)).

(** ** The buffer *)

Record QueuedTelemetry := mkQueued { batch : Batch; encoded_bytes : Z }.

Record TelemetryBufferState := mkBuffer { batches : list QueuedTelemetry; bytes : Z; closed : bool }.

Definition empty_buffer : TelemetryBufferState := mkBuffer [] 0 false.

Definition record_dropped (s : TransportStats) (b : Batch) (encoded : Z) : TransportStats :=
  mkStats (sent_batches s) (sent_flows s) (sent_bytes s) (queue_depth s) (queue_high_watermark s) (queue_bytes s)
    (queue_high_watermark_bytes s) (u64_wrapping_add (dropped_batches s) 1)
    (u64_wrapping_add (dropped_flows s) (zlen (flows b))) (u64_wrapping_add (dropped_bytes s) encoded).

(** The [while] loop of [push]: the oldest batches make room; what is dropped is
    kept for the specification. *)
Fixpoint make_room (capacity encoded : Z) (queue : list QueuedTelemetry) (bytes : Z) (s : TransportStats)
    : list QueuedTelemetry * Z * TransportStats * list Batch :=
  if capacity <? u64_saturating_add bytes encoded then
    match queue with
    | [] => ([], bytes, s, [])
    | oldest :: queue =>
      let '(q, n, s, dropped) :=
        make_room capacity encoded queue (Z.max 0 (bytes - encoded_bytes oldest))
          (record_dropped s (batch oldest) (encoded_bytes oldest)) in
      (q, n, s, batch oldest :: dropped)
    end
  else (queue, bytes, s, []).

(** The new state and statistics, and the batches dropped. *)
Definition push (capacity : Z) (b : Batch) (st : TelemetryBufferState) (s : TransportStats)
    : TelemetryBufferState * TransportStats * list Batch :=
  let encoded := encoded_len b in
  if (closed st || (capacity <? encoded))%bool then (st, record_dropped s b encoded, [b])
  else
    let '(queue, n, s, dropped) := make_room capacity encoded (batches st) (bytes st) s in
    let n := u64_saturating_add n encoded in
    let queue := queue ++ [mkQueued b encoded] in
    (mkBuffer queue n (closed st), update_queue s (zlen queue) n, dropped).

(** [pop_timeout], when the wait is over: by a batch, by [close] or by time. *)
Definition pop (st : TelemetryBufferState) (s : TransportStats) : TelemetryBufferState * TransportStats * option Batch :=
  match batches st with
  | [] => (st, s, None)
  | q :: queue =>
    let n := Z.max 0 (bytes st - encoded_bytes q) in
    (mkBuffer queue n (closed st), update_queue s (zlen queue) n, Some (batch q))
  end.

Definition close (st : TelemetryBufferState) : TelemetryBufferState := mkBuffer (batches st) (bytes st) true.

(** ** Exchanges with the collector *)

Definition enroll (enrollment_token : string) (answer : HttpOutcome) : option Credentials :=
  if str_is_empty enrollment_token then None
  else match answer with
  | HttpFailed => None
  | HttpAnswer status body =>
    if negb (status =? 200) then None
    else match decode_enroll body with
    | None => None
    | Some r =>
      if negb (en_protocol_version r =? PROTOCOL_VERSION) then None
      else if (str_is_empty (en_gateway_id r) || str_is_empty (en_agent_token r))%bool then None
      else Some (mkCredentials (en_gateway_id r) (en_agent_token r))
    end
  end.

Definition send_batch (b : Batch) (answer : HttpOutcome) : result SendError (list Request) :=
  if negb (encodes b) then Err OtherError
  else match answer with
  | HttpFailed => Err OtherError
  | HttpAnswer status body =>
    if status =? 204 then Ok []
    else if status =? 200 then ok_or (decode_response body) OtherError
    else if ((status =? 401) || (status =? 403))%bool then Err Unauthorized
    else Err OtherError
  end.

(** ** The sender *)

Record SenderSettings := mkSettings { enrollment_token : string; settings_boot_id : string }.

(** Where the sender loop is: at the buffer, delivering a batch, or gone. *)
Inductive Phase := Waiting | Delivering (b : Batch) | Stopped.

Record Sender := mkSender {
  credentials : option Credentials;
  published : option Credentials; (* the watch channel *)
  last_sequence : Z;
  pending_results : list Probe;
  enroll_retry_delay : Z;
  phase : Phase;
}.

Definition start (loaded : option Credentials) : Sender := mkSender loaded loaded 0 [] RETRY_DELAY Waiting.

(** What the code does that can be observed. *)
Inductive Event :=
| Taken (b : Batch)
| Dropped (b : Batch)
| Posted (token : string) (b : Batch)
| Delivered (b : Batch)
| EnrollRetry (delay : Z)
| Executed (probes : list Probe).

Definition set_phase (s : Sender) (p : Phase) : Sender :=
  mkSender (credentials s) (published s) (last_sequence s) (pending_results s) (enroll_retry_delay s) p.

Definition set_credentials (s : Sender) (c : option Credentials) : Sender :=
  mkSender c c (last_sequence s) (pending_results s) RETRY_DELAY (phase s).

(** The top of the outer loop, with what [pop_timeout] returned. *)
Definition take (settings : SenderSettings) (s : Sender) (popped : option Batch) (shutdown : bool) : Sender * list Event :=
  match popped with
  | None => (if shutdown then set_phase s Stopped else s, [])
  | Some b =>
    let seq := u64_saturating_add (last_sequence s) 1 in
    let b := mkBatch (gateway_id b) (settings_boot_id settings) seq (flows b) (probe_results b ++ pending_results s) (payload b) in
    (mkSender (credentials s) (published s) seq [] (enroll_retry_delay s) (Delivering b), [Taken b])
  end.

Definition batch_byte_count (b : Batch) : Z :=
  foldl (λ total '(up, down), u64_saturating_add (u64_saturating_add total up) down) 0 (flows b).

(** What the world answers in one turn of the inner loop. *)
Record Attempt := mkAttempt {
  enroll_answer : HttpOutcome;
  send_answer : HttpOutcome;
  probe_execute : Request → Probe;
  stop : bool; (* [should_stop] *)
}.

(** Posting the batch with the credential at hand. *)
Definition post (settings : SenderSettings) (s : Sender) (c : Credentials) (b : Batch) (a : Attempt) (stats : TransportStats)
    : Sender * TransportStats * list Event :=
  let b := mkBatch (cr_gateway_id c) (boot_id b) (sequence b) (flows b) (probe_results b) (payload b) in
  let stopping (s : Sender) := set_phase s (if stop a then Stopped else Delivering b) in
  match send_batch b (send_answer a) with
  | Ok requests =>
    let results := probe_execute a <$> requests in
    (mkSender (credentials s) (published s) (last_sequence s) (pending_results s ++ results) (enroll_retry_delay s) Waiting,
     record_sent stats (zlen (flows b)) (batch_byte_count b),
     [Posted (agent_token c) b; Delivered b; Executed results])
  | Err Unauthorized => (stopping (set_credentials s None), stats, [Posted (agent_token c) b])
  | Err OtherError => (stopping s, stats, [Posted (agent_token c) b])
  end.

(** One turn of the inner loop. *)
Definition deliver (settings : SenderSettings) (s : Sender) (b : Batch) (a : Attempt) (stats : TransportStats)
    : Sender * TransportStats * list Event :=
  match credentials s with
  | Some c => post settings s c b a stats
  | None =>
    match enroll (enrollment_token settings) (enroll_answer a) with
    | Some c => post settings (set_credentials s (Some c)) c b a stats
    | None =>
      let empty := str_is_empty (enrollment_token settings) in
      let delay := if empty then MAX_ENROLL_RETRY_DELAY else enroll_retry_delay s in
      let next := if empty then enroll_retry_delay s else Z.min (enroll_retry_delay s * 2) MAX_ENROLL_RETRY_DELAY in
      (mkSender (credentials s) (published s) (last_sequence s) (pending_results s) next (if stop a then Stopped else phase s),
       stats, [EnrollRetry delay])
    end
  end.

(** ** The system: producers, the sender and [stop] *)

Record System := mkSystem { buffer : TelemetryBufferState; stats : TransportStats; sender : Sender }.

Inductive Action :=
| Submit (b : Batch)
| Poll (shutdown : bool) (* the sender's turn at the buffer *)
| Try (a : Attempt)      (* the sender's turn of the inner loop *)
| Close.

Definition system_step (capacity : Z) (settings : SenderSettings) (y : System) (a : Action) : System * list Event :=
  match a with
  | Submit b =>
    let '(st, s, dropped) := push capacity b (buffer y) (stats y) in
    (mkSystem st s (sender y), Dropped <$> dropped)
  | Poll shutdown =>
    match phase (sender y) with
    | Waiting =>
      let '(st, s, popped) := pop (buffer y) (stats y) in
      let '(d, events) := take settings (sender y) popped shutdown in
      (mkSystem st s d, events)
    | _ => (y, [])
    end
  | Try a =>
    match phase (sender y) with
    | Delivering b =>
      let '(d, s, events) := deliver settings (sender y) b a (stats y) in
      (mkSystem (buffer y) s d, events)
    | _ => (y, [])
    end
  | Close => (mkSystem (close (buffer y)) (stats y) (sender y), [])
  end.

Fixpoint run (capacity : Z) (settings : SenderSettings) (y : System) (actions : list Action) : System * list Event :=
  match actions with
  | [] => (y, [])
  | a :: actions =>
    let '(y, events) := system_step capacity settings y a in
    let '(y, more) := run capacity settings y actions in
    (y, events ++ more)
  end.

Definition initial (loaded : option Credentials) : System := mkSystem empty_buffer no_stats (start loaded).

(** ** The buffer keeps the newest batches that fit *)

Definition sizes (queue : list QueuedTelemetry) : Z := foldr (λ q n, encoded_bytes q + n) 0 queue.

Record buffer_ok (capacity : Z) (st : TelemetryBufferState) : Prop := {
  bo_bytes : bytes st = sizes (batches st);
  bo_capacity : bytes st ≤ capacity;
  bo_sizes : Forall (λ q, encoded_bytes q = encoded_len (batch q)) (batches st);
}.

Hypothesis encoded_len_nonneg : ∀ b, 0 ≤ encoded_len b.

Lemma sizes_cons q queue : sizes (q :: queue) = encoded_bytes q + sizes queue.
Proof. done. Qed.

Lemma sizes_nonneg queue : Forall (λ q, encoded_bytes q = encoded_len (batch q)) queue → 0 ≤ sizes queue.
Proof.
  induction 1 as [|q queue Hq _ IH]; [done|]. rewrite sizes_cons. pose proof (encoded_len_nonneg (batch q)). lia.
Qed.

Lemma sizes_app l k : sizes (l ++ k) = sizes l + sizes k.
Proof. induction l as [|q l IH]; [done|]. cbn [app]. rewrite !sizes_cons, IH. lia. Qed.

Lemma make_room_spec capacity encoded queue s q n s' dropped :
  Forall (λ q, encoded_bytes q = encoded_len (batch q)) queue → 0 ≤ encoded ≤ capacity → capacity < u64_max →
  make_room capacity encoded queue (sizes queue) s = (q, n, s', dropped) →
  ∃ gone, queue = gone ++ q ∧ dropped = batch <$> gone ∧ n = sizes q ∧ n + encoded ≤ capacity ∧
    (∀ older x, gone = older ++ [x] → capacity < sizes (x :: q) + encoded).
Proof.
  intros Hall Henc Hcap. revert s s' q n dropped. induction Hall as [|o queue Ho Hall IH]; intros s s' q n dropped;
    cbn [make_room]; rewrite ?sizes_cons; unfold u64_saturating_add; destruct (_ <? _) eqn:Hfit.
  - change (sizes []) with 0 in Hfit. lia.
  - intros [= <- <- <- <-]. exists []. change (sizes []) with 0. split_and!; [done..|lia|]. by intros [] ? ?.
  - pose proof (encoded_len_nonneg (batch o)). pose proof (sizes_nonneg queue Hall).
    replace (Z.max 0 (encoded_bytes o + sizes queue - encoded_bytes o)) with (sizes queue) by lia.
    destruct (make_room _ _ _ _ _) as [[[q1 n1] s1] d1] eqn:Hm. intros [= <- <- <- <-].
    destruct (IH _ _ _ _ _ Hm) as (gone & Hq & -> & Hn & Hle & Hmin). exists (o :: gone).
    split_and!; [by rewrite Hq|done|done|done|]. intros [|y older] x Heq.
    + injection Heq as -> ->. cbn in Hq. subst queue. rewrite sizes_cons. lia.
    + injection Heq as -> Heq. by apply (Hmin older x).
  - intros [= <- <- <- <-]. exists []. rewrite sizes_cons. split_and!; [done..|lia|]. by intros [] ? ?.
Qed.

(** [push] of a batch that is accepted: the newest batches that fit stay. *)
Lemma push_spec capacity b st s st' s' dropped : 0 ≤ capacity < u64_max → buffer_ok capacity st →
  push capacity b st s = (st', s', dropped) →
  buffer_ok capacity st' ∧ closed st' = closed st ∧
  if (closed st || (capacity <? encoded_len b))%bool then st' = st ∧ dropped = [b]
  else ∃ gone kept, batches st = gone ++ kept ∧ dropped = batch <$> gone ∧
    batches st' = kept ++ [mkQueued b (encoded_len b)] ∧
    (∀ older x, gone = older ++ [x] → capacity < sizes (x :: kept) + encoded_len b).
Proof.
  intros Hcap [Hb Hc Hs]. unfold push. destruct (_ || _)%bool eqn:Hg.
  { intros [= <- <- <-]. done. }
  apply orb_false_iff in Hg as [_ Hfit]. pose proof (encoded_len_nonneg b). rewrite Hb.
  destruct (make_room _ _ _ _ _) as [[[q n] s1] d] eqn:Hm. intros [= <- <- <-].
  apply make_room_spec in Hm as (gone & Hq & -> & -> & Hle & Hmin); [|done|lia|lia].
  unfold u64_saturating_add. rewrite Z.min_r by lia. split; [|split; [done|by exists gone, q]].
  split; cbn [bytes batches].
  - rewrite sizes_app, sizes_cons. change (sizes []) with 0. cbn [encoded_bytes]. lia.
  - lia.
  - rewrite Hq, Forall_app in Hs. apply Forall_app. split; [apply Hs|by constructor].
Qed.

Lemma pop_spec capacity st s st' s' r : buffer_ok capacity st → pop st s = (st', s', r) →
  buffer_ok capacity st' ∧
  match r with
  | None => batches st = [] ∧ st' = st
  | Some b => ∃ n, batches st = mkQueued b n :: batches st'
  end.
Proof.
  intros [Hb Hc Hs]. unfold pop. destruct (batches st) as [|[b n] queue] eqn:Hq; intros [= <- <- <-].
  - split; [|done]. split; rewrite ?Hq; done.
  - inversion_clear Hs as [|? ? Hn Hs']. pose proof (encoded_len_nonneg b). cbn [encoded_bytes batch] in *.
    rewrite sizes_cons in Hb. cbn [encoded_bytes] in Hb. pose proof (sizes_nonneg queue Hs').
    split; [split; cbn [bytes batches]; [lia|lia|done]|by exists n].
Qed.

(** ** Following the batches *)

(** What a producer put into a batch, and what identifies it on the wire: all
    but the gateway, which is set at every attempt. *)
Definition content (b : Batch) : list (Z * Z) * Payload := (flows b, payload b).
Definition ident (b : Batch) : string * Z * list (Z * Z) * list Probe * Payload :=
  (boot_id b, sequence b, flows b, probe_results b, payload b).

Definition submitted (actions : list Action) : list Batch := omap (λ a, match a with Submit b => Some b | _ => None end) actions.
Definition taken (events : list Event) : list Batch := omap (λ e, match e with Taken b => Some b | _ => None end) events.
Definition dropped (events : list Event) : list Batch := omap (λ e, match e with Dropped b => Some b | _ => None end) events.
Definition delivered (events : list Event) : list Batch := omap (λ e, match e with Delivered b => Some b | _ => None end) events.
Definition posted (events : list Event) : list Batch := omap (λ e, match e with Posted _ b => Some b | _ => None end) events.
Definition executed (events : list Event) : list Probe := concat (omap (λ e, match e with Executed p => Some p | _ => None end) events).
Definition queued (y : System) : list Batch := batch <$> batches (buffer y).

Lemma run_snoc capacity settings y actions a :
  run capacity settings y (actions ++ [a]) =
  let '(y1, e1) := run capacity settings y actions in
  let '(y2, e2) := system_step capacity settings y1 a in (y2, e1 ++ e2).
Proof.
  revert y. induction actions as [|b actions IH]; intros y; cbn [app run].
  - destruct (system_step _ _ y a). by rewrite app_nil_r.
  - destruct (system_step _ _ y b) as [y1 e1]. rewrite IH. destruct (run _ _ y1 actions) as [y2 e2].
    destruct (system_step _ _ y2 a) as [y3 e3]. by rewrite app_assoc.
Qed.

(** The batch the sender is busy with: still in its hands, or lost with it. *)
Definition in_hand (y : System) (b : Batch) : Prop :=
  match phase (sender y) with Waiting => False | Delivering b' => ident b' = ident b | Stopped => True end.

Record trace_ok (capacity : Z) (settings : SenderSettings) (actions : list Action) (y : System) (events : list Event) : Prop := {
  tr_buffer : buffer_ok capacity (buffer y);
  tr_conserved : content <$> submitted actions ≡ₚ content <$> dropped events ++ taken events ++ queued y;
  tr_order : content <$> taken events ++ queued y `sublist_of` content <$> submitted actions;
  tr_numbers : sequence <$> taken events = Z.min u64_max <$> seqZ 1 (zlen (taken events));
  tr_last : last_sequence (sender y) = Z.min u64_max (zlen (taken events));
  tr_boot : Forall (λ b, boot_id b = settings_boot_id settings) (taken events);
  tr_delivered : ∃ rest, ident <$> taken events = ident <$> delivered events ++ rest ∧
    match phase (sender y) with
    | Waiting => rest = []
    | Delivering b => rest = [b]
    | Stopped => (length rest ≤ 1)%nat
    end;
  tr_posted b : b ∈ posted events → ident b ∈ ident <$> taken events;
  tr_published : published (sender y) = credentials (sender y);
  tr_probes : Forall (λ b, probe_results b = []) (submitted actions) →
    concat (probe_results <$> taken events) ++ pending_results (sender y) = executed events ∧
    Forall (λ b, probe_results b = []) (queued y);
  tr_delay : 1 ≤ enroll_retry_delay (sender y) ≤ MAX_ENROLL_RETRY_DELAY;
}.

Lemma trace_initial capacity settings loaded : 0 ≤ capacity → trace_ok capacity settings [] (initial loaded) [].
Proof.
  intros Hcap. split; cbn; try done.
  - by exists [].
  - by intros b []%elem_of_nil.
Qed.

Lemma omap_Dropped {A} (f : Event → option A) l : (∀ b, f (Dropped b) = None) → omap f (Dropped <$> l) = [].
Proof. intros Hf. induction l as [|b l IH]; cbn; [done|]. by rewrite Hf. Qed.

Lemma dropped_Dropped l : dropped (Dropped <$> l) = l.
Proof. induction l as [|b l IH]; cbn; [done|]. by f_equal. Qed.

Lemma trace_submit capacity settings actions y events b y' e : 0 ≤ capacity < u64_max →
  trace_ok capacity settings actions y events → system_step capacity settings y (Submit b) = (y', e) →
  trace_ok capacity settings (actions ++ [Submit b]) y' (events ++ e).
Proof.
  intros Hcap [Hbuf Hcons Hord Hnum Hlast Hboot Hdel Hpost Hpub Hprobes Hdelay]. cbn [system_step].
  destruct (push capacity b (buffer y) (stats y)) as [[st s'] d] eqn:Hp. intros [= <- <-].
  destruct (push_spec _ _ _ _ _ _ _ Hcap Hbuf Hp) as (Hbuf' & _ & Hcase).
  assert (submitted (actions ++ [Submit b]) = submitted actions ++ [b]) as Hsub by (unfold submitted; by rewrite omap_app).
  assert (taken (events ++ (Dropped <$> d)) = taken events) as Ht
    by (unfold taken; by rewrite omap_app, omap_Dropped, app_nil_r).
  assert (delivered (events ++ (Dropped <$> d)) = delivered events) as Hd
    by (unfold delivered; by rewrite omap_app, omap_Dropped, app_nil_r).
  assert (posted (events ++ (Dropped <$> d)) = posted events) as Hpo
    by (unfold posted; by rewrite omap_app, omap_Dropped, app_nil_r).
  assert (executed (events ++ (Dropped <$> d)) = executed events) as He
    by (unfold executed; by rewrite omap_app, omap_Dropped, app_nil_r).
  assert (dropped (events ++ (Dropped <$> d)) = dropped events ++ d) as Hdr
    by (unfold dropped; rewrite omap_app; f_equal; apply dropped_Dropped).
  assert (∃ gone kept last, queued y = gone ++ kept ∧ d ++ last = gone ++ [b] ∧
    batch <$> batches st = kept ++ last ∧ last `sublist_of` [b]) as (gone & kept & last & Hq & Hdl & Hq' & Hl).
  { unfold queued. destruct (_ || _)%bool.
    - destruct Hcase as [-> ->]. exists [], (batch <$> batches (buffer y)), []. rewrite !app_nil_r. split_and!; [done..|]. apply sublist_nil_l.
    - destruct Hcase as (gone & kept & -> & -> & -> & _). exists (batch <$> gone), (batch <$> kept), [b].
      rewrite !fmap_app. by split_and!. }
  split; rewrite ?Hsub, ?Ht, ?Hd, ?Hpo, ?He, ?Hdr; cbn [sender buffer queued]; try done.
  - unfold queued. cbn [buffer]. rewrite fmap_app, Hcons, Hq, Hq', <- fmap_app. apply fmap_Permutation.
    transitivity (dropped events ++ taken events ++ kept ++ gone ++ [b]); [solve_Permutation|].
    rewrite <- Hdl. solve_Permutation.
  - unfold queued in *. cbn [buffer]. rewrite Hq'. rewrite (fmap_app content (submitted actions)), app_assoc, fmap_app.
    apply sublist_app; [|by apply fmap_sublist]. etrans; [|exact Hord]. apply fmap_sublist, sublist_app; [done|].
    unfold queued in Hq. rewrite Hq. by apply sublist_inserts_l.
  - intros [Hall Hb]%Forall_app. destruct (Hprobes Hall) as [Hpr Hqp]. split; [done|]. unfold queued in *. cbn [buffer].
    rewrite Hq'. apply Forall_app. split; [rewrite Hq, Forall_app in Hqp; apply Hqp|].
    apply Forall_forall. intros x Hx. rewrite Forall_forall in Hb. apply Hb. by eapply elem_of_sublist; [|exact Hl].
Qed.

(** A step that changes neither the batches nor the sender. *)
Lemma trace_quiet capacity settings actions y events a st s : trace_ok capacity settings actions y events →
  submitted [a] = [] → batches st = batches (buffer y) → bytes st = bytes (buffer y) →
  trace_ok capacity settings (actions ++ [a]) (mkSystem st s (sender y)) (events ++ []).
Proof.
  intros [Hbuf Hcons Hord Hnum Hlast Hboot Hdel Hpost Hpub Hprobes Hdelay] Ha Hq Hb. rewrite app_nil_r.
  assert (submitted (actions ++ [a]) = submitted actions) as Hsub
    by (unfold submitted in *; by rewrite omap_app, Ha, app_nil_r).
  split; rewrite ?Hsub; unfold queued in *; cbn [sender buffer]; rewrite ?Hq; try done.
  destruct Hbuf. split; by rewrite ?Hq, ?Hb.
Qed.

Lemma seqZ_snoc n : 0 ≤ n → seqZ 1 (n + 1) = seqZ 1 n ++ [n + 1].
Proof. intros Hn. rewrite seqZ_app by lia. f_equal. rewrite (Z.add_comm 1 n). reflexivity. Qed.

Lemma trace_poll capacity settings actions y events shutdown y' e :
  trace_ok capacity settings actions y events → system_step capacity settings y (Poll shutdown) = (y', e) →
  trace_ok capacity settings (actions ++ [Poll shutdown]) y' (events ++ e).
Proof.
  intros Htr. cbn [system_step]. destruct (phase (sender y)) eqn:Hph;
    [|intros [= <- <-]; apply (trace_quiet _ _ _ _ _ (Poll shutdown) (buffer y) (stats y)) in Htr; [by destruct y|done..]..].
  destruct (pop (buffer y) (stats y)) as [[st s'] r] eqn:Hpop.
  destruct (pop_spec _ _ _ _ _ _ (tr_buffer _ _ _ _ _ Htr) Hpop) as [Hbuf' Hr]. destruct r as [b|]; cycle 1.
  { destruct Hr as [_ ->]. cbn [take]. intros [= <- <-].
    destruct (trace_quiet _ _ _ _ _ (Poll shutdown) (buffer y) s' Htr) as [H1 H2 H3 H4 H5 H6 H7 H8 H9 H10 H11]; [done..|].
    destruct shutdown; [|by split]. split; try done. destruct H7 as (rest & Hrest & Hp). cbn [sender] in Hp. rewrite Hph in Hp. subst rest.
    exists []. split; [done|]. cbn. lia. }
  destruct Hr as [n Hq]. unfold take. cbn [take]. set (b' := mkBatch _ _ _ _ _ _). intros [= <- <-].
  destruct Htr as [Hbuf Hcons Hord Hnum Hlast Hboot Hdel Hpost Hpub Hprobes Hdelay].
  assert (submitted (actions ++ [Poll shutdown]) = submitted actions) as Hsub
    by (unfold submitted; by rewrite omap_app, app_nil_r).
  assert (taken (events ++ [Taken b']) = taken events ++ [b']) as Ht by (unfold taken; by rewrite omap_app).
  assert (delivered (events ++ [Taken b']) = delivered events) as Hd by (unfold delivered; by rewrite omap_app, app_nil_r).
  assert (posted (events ++ [Taken b']) = posted events) as Hpo by (unfold posted; by rewrite omap_app, app_nil_r).
  assert (executed (events ++ [Taken b']) = executed events) as He by (unfold executed; by rewrite omap_app, app_nil_r).
  assert (dropped (events ++ [Taken b']) = dropped events) as Hdr by (unfold dropped; by rewrite omap_app, app_nil_r).
  assert (queued y = b :: (batch <$> batches st)) as Hqy by (unfold queued; by rewrite Hq).
  assert (content b' = content b) as Hcb by done.
  assert (u64_saturating_add (last_sequence (sender y)) 1 = Z.min u64_max (zlen (taken events) + 1)) as Hseq
    by (unfold u64_saturating_add; lia).
  pose proof (zlen_nonneg (taken events)).
  split; rewrite ?Hsub, ?Ht, ?Hd, ?Hpo, ?He, ?Hdr; unfold queued; cbn [sender buffer phase last_sequence credentials published
    pending_results enroll_retry_delay]; try done.
  - rewrite Hcons, Hqy. rewrite !fmap_app. cbn [fmap list_fmap]. rewrite Hcb. by rewrite <- app_assoc.
  - rewrite Hqy in Hord. rewrite !fmap_app in *. cbn [fmap list_fmap] in *. rewrite Hcb. by rewrite <- app_assoc.
  - rewrite fmap_app, Hnum, zlen_app. change (zlen [b']) with 1. rewrite seqZ_snoc, fmap_app by done.
    cbn [fmap list_fmap sequence b']. by rewrite Hseq.
  - rewrite zlen_app. change (zlen [b']) with 1. done.
  - apply Forall_app. split; [done|]. by constructor.
  - destruct Hdel as (rest & Hrest & Hp). rewrite Hph in Hp. subst rest. exists [b']. split; [|done].
    rewrite app_nil_r in Hrest. by rewrite !fmap_app, Hrest.
  - intros x Hx. rewrite fmap_app. apply elem_of_app. left. by apply Hpost.
  - intros Hall. destruct (Hprobes Hall) as [Hpr Hqp]. rewrite Hqy in Hqp. inversion_clear Hqp as [|? ? Hb Hqp'].
    split; [|done]. rewrite fmap_app, concat_app. cbn [fmap list_fmap concat probe_results b'].
    by rewrite Hb, !app_nil_r, <- Hpr.
Qed.

(** New credentials change nothing for the batches. *)
Lemma trace_credentials capacity settings actions y events c : trace_ok capacity settings actions y events →
  trace_ok capacity settings actions (mkSystem (buffer y) (stats y) (set_credentials (sender y) c)) events.
Proof. intros []. split; try done. Qed.

(** The sender gives up for good or for now. *)
Lemma trace_phase capacity settings actions y events b b' (stopped : bool) s : trace_ok capacity settings actions y events →
  phase (sender y) = Delivering b → ident b' = ident b →
  trace_ok capacity settings actions
    (mkSystem (buffer y) s (set_phase (sender y) (if stopped then Stopped else Delivering b'))) events.
Proof.
  intros [] Hph Hid. split; try done. cbn [sender set_phase phase].
  destruct tr_delivered0 as (rest & Hrest & Hp). rewrite Hph in Hp. subst rest. exists [b']. split.
  - rewrite Hrest, !fmap_app. cbn. by rewrite Hid.
  - destruct stopped; [cbn; lia|done].
Qed.

(** Posting the batch in hand. *)
Lemma trace_posted capacity settings actions y events b b' token : trace_ok capacity settings actions y events →
  phase (sender y) = Delivering b → ident b' = ident b →
  trace_ok capacity settings actions y (events ++ [Posted token b']).
Proof.
  intros [] Hph Hid. assert (taken (events ++ [Posted token b']) = taken events) as Ht by (unfold taken; by rewrite omap_app, app_nil_r).
  assert (delivered (events ++ [Posted token b']) = delivered events) as Hd by (unfold delivered; by rewrite omap_app, app_nil_r).
  assert (executed (events ++ [Posted token b']) = executed events) as He by (unfold executed; by rewrite omap_app, app_nil_r).
  assert (dropped (events ++ [Posted token b']) = dropped events) as Hdr by (unfold dropped; by rewrite omap_app, app_nil_r).
  split; rewrite ?Ht, ?Hd, ?He, ?Hdr; try done. intros x. unfold posted. rewrite omap_app. intros [Hx|Hx]%elem_of_app; [by apply tr_posted0|].
  cbn in Hx. apply list_elem_of_singleton in Hx as ->. destruct tr_delivered0 as (rest & Hrest & Hp). rewrite Hph in Hp. subst rest.
  rewrite Hrest, fmap_app, elem_of_app. right. cbn. rewrite Hid. by left.
Qed.

(** The collector took it. *)
Lemma trace_sent capacity settings actions y events b b' s results : trace_ok capacity settings actions y events →
  phase (sender y) = Delivering b → ident b' = ident b →
  trace_ok capacity settings actions
    (mkSystem (buffer y) s (mkSender (credentials (sender y)) (published (sender y)) (last_sequence (sender y))
       (pending_results (sender y) ++ results) (enroll_retry_delay (sender y)) Waiting))
    (events ++ [Delivered b'; Executed results]).
Proof.
  intros [] Hph Hid. set (new := [Delivered b'; Executed results]).
  assert (taken (events ++ new) = taken events) as Ht by (unfold taken; by rewrite omap_app, app_nil_r).
  assert (delivered (events ++ new) = delivered events ++ [b']) as Hd by (unfold delivered; by rewrite omap_app).
  assert (posted (events ++ new) = posted events) as Hpo by (unfold posted; by rewrite omap_app, app_nil_r).
  assert (executed (events ++ new) = executed events ++ results) as He
    by (unfold executed; rewrite omap_app, concat_app; cbn; by rewrite app_nil_r).
  assert (dropped (events ++ new) = dropped events) as Hdr by (unfold dropped; by rewrite omap_app, app_nil_r).
  split; rewrite ?Ht, ?Hd, ?Hpo, ?He, ?Hdr; cbn [sender phase pending_results]; try done.
  - destruct tr_delivered0 as (rest & Hrest & Hp). rewrite Hph in Hp. subst rest. exists []. split; [|done].
    rewrite Hrest, app_nil_r, !fmap_app. cbn. by rewrite Hid.
  - intros Hall. destruct (tr_probes0 Hall) as [Hpr Hq]. split; [|done]. by rewrite app_assoc, Hpr.
Qed.

Lemma trace_post capacity settings actions y events b c a d s e : trace_ok capacity settings actions y events →
  phase (sender y) = Delivering b → post settings (sender y) c b a (stats y) = (d, s, e) →
  trace_ok capacity settings actions (mkSystem (buffer y) s d) (events ++ e).
Proof.
  intros Htr Hph. unfold post. set (b' := mkBatch _ _ _ _ _ _). assert (ident b' = ident b) as Hid by done.
  pose proof (trace_posted _ _ _ _ _ _ _ (agent_token c) Htr Hph Hid) as Hpo.
  destruct (send_batch b' (send_answer a)) as [requests|[]]; intros [= <- <- <-].
  - change [Posted ?t b'; ?x; ?y] with ([Posted t b'] ++ [x; y]). rewrite app_assoc. by apply (trace_sent _ _ _ _ _ b).
  - apply (trace_credentials _ _ _ _ _ None) in Hpo. by apply (trace_phase _ _ _ _ _ b b' (stop a) (stats y)) in Hpo.
  - by apply (trace_phase _ _ _ _ _ b b' (stop a) (stats y)) in Hpo.
Qed.

Lemma trace_no_submit capacity settings actions y events a : submitted [a] = [] →
  trace_ok capacity settings actions y events → trace_ok capacity settings (actions ++ [a]) y events.
Proof.
  intros Ha Htr. apply (trace_quiet _ _ _ _ _ a (buffer y) (stats y)) in Htr; [|done..]. rewrite app_nil_r in Htr. by destruct y.
Qed.

Lemma trace_try capacity settings actions y events a y' e :
  trace_ok capacity settings actions y events → system_step capacity settings y (Try a) = (y', e) →
  trace_ok capacity settings (actions ++ [Try a]) y' (events ++ e).
Proof.
  intros Htr. apply (trace_no_submit _ _ _ _ _ (Try a)) in Htr; [|done]. cbn [system_step].
  destruct (phase (sender y)) as [|b|] eqn:Hph; [intros [= <- <-]; by rewrite app_nil_r| |intros [= <- <-]; by rewrite app_nil_r].
  destruct (deliver settings (sender y) b a (stats y)) as [[d s'] ev] eqn:Hdl. intros [= <- <-]. unfold deliver in Hdl.
  destruct (credentials (sender y)) as [c|] eqn:Hcr; [by eapply trace_post|].
  destruct (enroll (enrollment_token settings) (enroll_answer a)) as [c|].
  - apply (trace_credentials _ _ _ _ _ (Some c)) in Htr. by apply (trace_post _ _ _ _ _ b c a d s' ev Htr Hph Hdl).
  - injection Hdl as <- <- <-. apply (trace_phase _ _ _ _ _ b b (stop a) (stats y)) in Htr; [|done..].
    destruct Htr as [H1 H2 H3 H4 H5 H6 H7 H8 H9 H10 H11]. cbn [sender set_phase enroll_retry_delay] in H11.
    set (retry := EnrollRetry _).
    assert (taken (events ++ [retry]) = taken events) as Ht by (unfold taken; by rewrite omap_app, app_nil_r).
    assert (delivered (events ++ [retry]) = delivered events) as Hd by (unfold delivered; by rewrite omap_app, app_nil_r).
    assert (posted (events ++ [retry]) = posted events) as Hpo by (unfold posted; by rewrite omap_app, app_nil_r).
    assert (executed (events ++ [retry]) = executed events) as He by (unfold executed; by rewrite omap_app, app_nil_r).
    assert (dropped (events ++ [retry]) = dropped events) as Hdr by (unfold dropped; by rewrite omap_app, app_nil_r).
    split; rewrite ?Ht, ?Hd, ?Hpo, ?He, ?Hdr, ?Hph; try done.
    + cbn. cbn in H9. congruence.
    + cbn [sender enroll_retry_delay]. unfold MAX_ENROLL_RETRY_DELAY in *. destruct (str_is_empty _); lia.
Qed.

Lemma trace_run capacity settings loaded actions y events : 0 ≤ capacity < u64_max →
  run capacity settings (initial loaded) actions = (y, events) → trace_ok capacity settings actions y events.
Proof.
  intros Hcap. revert y events. induction actions as [|a actions IH] using rev_ind; intros y events Hrun.
  { injection Hrun as <- <-. apply trace_initial; lia. }
  rewrite run_snoc in Hrun. destruct (run _ _ _ actions) as [y1 e1]. destruct (system_step _ _ y1 a) as [y2 e2] eqn:Hs.
  injection Hrun as <- <-. specialize (IH _ _ eq_refl). destruct a as [b|sd|a|].
  - by eapply trace_submit.
  - by eapply trace_poll.
  - by eapply trace_try.
  - injection Hs as <- <-. by apply trace_quiet.
Qed.

(** ** What the transport promises *)

(** The size of batches on the wire. *)
Definition total (l : list Batch) : Z := foldr (λ b n, encoded_len b + n) 0 l.

Lemma total_sizes queue : Forall (λ q, encoded_bytes q = encoded_len (batch q)) queue → total (batch <$> queue) = sizes queue.
Proof. induction 1 as [|q queue Hq _ IH]; [done|]. rewrite sizes_cons, <- IH, Hq. done. Qed.

(** What one action does to the queue, given what was queued before. *)
Definition queue_step (capacity : Z) (y : System) (a : Action) (y' : System) (e : list Event) : Prop :=
  match a with
  | Submit b =>
    if (closed (buffer y) || (capacity <? encoded_len b))%bool then queued y' = queued y ∧ dropped e = [b]
    else ∃ kept, queued y' = kept ++ [b] ∧ queued y = dropped e ++ kept ∧
      ∀ older x, dropped e = older ++ [x] → capacity < total (x :: kept ++ [b])
  | Poll _ =>
    dropped e = [] ∧
    match phase (sender y), queued y with
    | Waiting, b :: rest => queued y' = rest ∧ content <$> taken e = [content b]
    | _, _ => queued y' = queued y ∧ taken e = []
    end
  | Try _ | Close => queued y' = queued y ∧ dropped e = [] ∧ taken e = []
  end.

Definition is_close (a : Action) : bool := match a with Close => true | _ => false end.

Lemma deliver_quiet settings s b a st : dropped (snd (deliver settings s b a st)) = [] ∧ taken (snd (deliver settings s b a st)) = [].
Proof.
  unfold deliver, post. destruct (credentials s); [|destruct (enroll _ _); [|done]]; destruct (send_batch _ _) as [?|[]]; done.
Qed.

Lemma closed_step capacity settings y a : closed (buffer (fst (system_step capacity settings y a))) = (closed (buffer y) || is_close a)%bool.
Proof.
  destruct a as [b|sd|a|]; cbn [system_step is_close]; rewrite ?orb_false_r, ?orb_true_r; [| | |done].
  - unfold push. destruct (_ || _)%bool; [done|]. by destruct (make_room _ _ _ _ _) as [[[? ?] ?] ?].
  - destruct (phase (sender y)); [|done|done]. unfold pop. destruct (batches (buffer y)); by destruct (take _ _ _ _).
  - destruct (phase (sender y)); [done| |done]. by destruct (deliver _ _ _ _ _) as [[? ?] ?].
Qed.

Lemma closed_run capacity settings y actions : closed (buffer (fst (run capacity settings y actions))) = (closed (buffer y) || existsb is_close actions)%bool.
Proof.
  revert y. induction actions as [|a actions IH]; intros y; cbn [run existsb]; [by rewrite orb_false_r|]. pose proof (closed_step capacity settings y a) as Hc.
  destruct (system_step _ _ y a) as [y1 e1]. specialize (IH y1). destruct (run _ _ y1 actions) as [y2 e2]. cbn [fst] in *. by rewrite IH, Hc, orb_assoc.
Qed.

Lemma step_queue capacity settings y a y' e : 0 ≤ capacity < u64_max → buffer_ok capacity (buffer y) →
  system_step capacity settings y a = (y', e) → queue_step capacity y a y' e.
Proof.
  intros Hcap Hbuf. destruct a as [b|sd|a|]; cbn [system_step queue_step].
  - destruct (push capacity b (buffer y) (stats y)) as [[st s'] d] eqn:Hp. intros [= <- <-]. rewrite dropped_Dropped.
    destruct (push_spec _ _ _ _ _ _ _ Hcap Hbuf Hp) as (_ & _ & Hcase). destruct (_ || _)%bool; [by destruct Hcase as [-> ->]|].
    destruct Hcase as (gone & kept & Hq & -> & Hq' & Hmin). exists (batch <$> kept). unfold queued. cbn [buffer]. rewrite Hq, Hq', !fmap_app.
    split; [done|]. split; [done|]. intros older x Hg. apply fmap_app_inv in Hg as (g1 & g2 & Hg1 & Hg2 & ->).
    destruct g2 as [|q [|? ?]]; [done| |done]. injection Hg2 as ->. specialize (Hmin g1 q eq_refl).
    pose proof (bo_sizes _ _ Hbuf) as Hs. rewrite Hq, !Forall_app, Forall_singleton in Hs. destruct Hs as [[_ Hsx] Hsk].
    assert (Forall (λ q, encoded_bytes q = encoded_len (batch q)) (q :: kept ++ [mkQueued b (encoded_len b)])) as Hall
      by (constructor; [done|]; apply Forall_app; split; [done|by constructor]).
    apply total_sizes in Hall. cbn [fmap list_fmap] in Hall. rewrite fmap_app in Hall. cbn [fmap list_fmap batch] in Hall. rewrite Hall.
    rewrite sizes_cons, sizes_app. rewrite sizes_cons in Hmin. change (sizes [mkQueued b (encoded_len b)]) with (encoded_len b + 0). lia.
  - destruct (phase (sender y)); [|intros [= <- <-]; done|intros [= <- <-]; done]. unfold pop, queued. destruct (batches (buffer y)) as [|q queue] eqn:Hq; cbn [take].
    + intros [= <- <-]. cbn [buffer]. by rewrite Hq.
    + intros [= <- <-]. done.
  - destruct (phase (sender y)) as [|b|]; [by intros [= <- <-]| |by intros [= <- <-]]. pose proof (deliver_quiet settings (sender y) b a (stats y)) as Hd.
    destruct (deliver _ _ _ _ _) as [[d s'] ev]. intros [= <- <-]. done.
  - by intros [= <- <-].
Qed.

(** C34: The buffer is a bounded queue that keeps the newest batches, however
    producers, sender and shutdown interleave: its byte count is the size of what
    it holds and never above the capacity; a submitted batch is refused only if the
    buffer was closed or the batch alone is above the capacity, and otherwise it
    is put at the end, after dropping the oldest batches, of which none could
    have stayed; the sender takes the oldest and nothing else removes a batch; so
    every batch submitted is taken by the sender, still queued, or dropped, none
    twice, and those taken and queued are in the order they were submitted. *)
Theorem buffer_bounded_fifo capacity settings loaded actions y events : 0 ≤ capacity < u64_max →
  run capacity settings (initial loaded) actions = (y, events) →
  bytes (buffer y) = sizes (batches (buffer y)) ∧ bytes (buffer y) = total (queued y) ∧ bytes (buffer y) ≤ capacity ∧
  closed (buffer y) = existsb is_close actions ∧
  (∀ a y' e, system_step capacity settings y a = (y', e) → queue_step capacity y a y' e) ∧
  content <$> submitted actions ≡ₚ content <$> dropped events ++ taken events ++ queued y ∧
  content <$> taken events ++ queued y `sublist_of` content <$> submitted actions.
Proof.
  intros Hcap Hrun. pose proof (closed_run capacity settings (initial loaded) actions) as Hc. rewrite Hrun in Hc.
  destruct (trace_run _ _ _ _ _ _ Hcap Hrun) as [Hbuf Hcons Hord _ _ _ _ _ _ _ _]. pose proof Hbuf as [Hb Hle Hs].
  split; [done|]. split; [unfold queued; by rewrite total_sizes|]. split; [done|]. split; [done|]. split; [|done]. intros a y' e. by apply step_queue.
Qed.

(** Batches are delivered in order and none is skipped, whatever the network
    does: those the sender takes are numbered 1, 2, 3, ... (up to the greatest
    64-bit number) under the agent's boot id, only they are posted, retries
    included, unchanged but for the gateway, and the ones delivered are those
    taken, in order, but for at most the last, which is being delivered or was
    lost when the sender stopped. The results of executed probes are each in
    exactly one batch taken after that, or pending for the next. *)
Lemma delivery_in_order capacity settings loaded actions y events : 0 ≤ capacity < u64_max →
  run capacity settings (initial loaded) actions = (y, events) →
  sequence <$> taken events = Z.min u64_max <$> seqZ 1 (zlen (taken events)) ∧
  Forall (λ b, boot_id b = settings_boot_id settings) (taken events) ∧
  (∀ b, b ∈ posted events → ident b ∈ ident <$> taken events) ∧
  (∃ rest, ident <$> taken events = ident <$> delivered events ++ rest ∧
     (length rest ≤ 1)%nat ∧ (phase (sender y) = Waiting → rest = [])) ∧
  (Forall (λ b, probe_results b = []) (submitted actions) →
     concat (probe_results <$> taken events) ++ pending_results (sender y) = executed events).
Proof.
  intros Hcap Hrun. destruct (trace_run _ _ _ _ _ _ Hcap Hrun) as [_ _ _ Hnum _ Hboot (rest & Hrest & Hph) Hpost _ Hpr _].
  split_and!; [done|done|done| |intros Hall; by destruct (Hpr Hall)].
  exists rest. split; [done|]. destruct (phase (sender y)) eqn:Hphase.
  - subst rest. split; [cbn; lia|done].
  - subst rest. split; [done|discriminate].
  - split; [done|discriminate].
Qed.

(** An action that does not stop the sender. *)
Definition goes_on (a : Action) : Prop := match a with Try t => stop t = false | _ => True end.

Lemma post_cases settings s c b a st : stop a = false →
  (∃ b', Delivered b' ∈ snd (post settings s c b a st) ∧ ident b' = ident b) ∨
  (∃ b', phase (fst (fst (post settings s c b a st))) = Delivering b' ∧ ident b' = ident b).
Proof.
  intros Hstop. unfold post. set (b' := mkBatch _ _ _ _ _ _). destruct (send_batch b' _) as [r|[]]; rewrite ?Hstop.
  - left. exists b'. split; [|done]. cbn. right. left.
  - right. by exists b'.
  - right. by exists b'.
Qed.

Lemma step_keeps capacity settings y a b : goes_on a → phase (sender y) = Delivering b →
  (∃ b', Delivered b' ∈ snd (system_step capacity settings y a) ∧ ident b' = ident b) ∨
  (∃ b', phase (sender (fst (system_step capacity settings y a))) = Delivering b' ∧ ident b' = ident b).
Proof.
  intros Ha Hph. destruct a as [b1|sd|a|]; cbn [system_step goes_on] in *; rewrite ?Hph.
  - destruct (push _ _ _ _) as [[st s] d]. right. by exists b.
  - right. by exists b.
  - unfold deliver. destruct (credentials (sender y)) as [c|].
    + destruct (post_cases settings (sender y) c b a (stats y) Ha) as [H|H]; destruct (post _ _ _ _ _ _) as [[d s] e]; auto.
    + destruct (enroll _ _) as [c|].
      * destruct (post_cases settings (set_credentials (sender y) (Some c)) c b a (stats y) Ha) as [H|H];
          destruct (post _ _ _ _ _ _) as [[d s] e]; auto.
      * right. exists b. cbn. by rewrite Ha.
  - right. by exists b.
Qed.

(** C35: A batch in the sender's hands is delivered as soon as the collector
    accepts it: after any actions that do not stop the sender, failed attempts
    and failed enrollments among them, one exchange in which the collector
    enrolls the agent and takes the telemetry delivers the batch, under its
    number and unchanged, if it was not delivered before. *)
Theorem eventually_delivered capacity settings y actions a b c body :
  phase (sender y) = Delivering b → Forall goes_on actions →
  (∀ b', ident b' = ident b → encodes b' = true) →
  enroll (enrollment_token settings) (enroll_answer a) = Some c → send_answer a = HttpAnswer 204 body →
  ∃ b', Delivered b' ∈ snd (run capacity settings y (actions ++ [Try a])) ∧ ident b' = ident b.
Proof.
  intros Hph Hall Henc Hen Hans. revert y b Hph Henc. induction Hall as [|x actions Hx _ IH]; intros y b Hph Henc; cbn [app run].
  - cbn [system_step]. rewrite Hph. unfold deliver.
    assert (∀ s c, ∃ b', Delivered b' ∈ snd (post settings s c b a (stats y)) ∧ ident b' = ident b) as Hpost.
    { intros s c'. unfold post. set (b' := mkBatch _ _ _ _ _ _). unfold send_batch. rewrite (Henc b') by done.
      rewrite Hans. cbn. exists b'. split; [|done]. right. left. }
    destruct (credentials (sender y)) as [c'|]; [|rewrite Hen];
      match goal with |- context [post settings ?s ?c' b a _] =>
        destruct (Hpost s c') as (b' & Hin & Hid); destruct (post settings s c' b a (stats y)) as [[d st] e] end;
      exists b'; (split; [rewrite app_nil_r; exact Hin|exact Hid]).
  - pose proof (step_keeps capacity settings y x b Hx Hph) as Hk. destruct (system_step _ _ y x) as [y1 e1].
    destruct Hk as [(b' & Hin & Hid)|(b' & Hph' & Hid)]; cbn [fst snd] in *.
    + exists b'. destruct (run _ _ y1 _) as [y2 e2]. cbn [snd]. split; [apply elem_of_app; by left|done].
    + destruct (IH y1 b' Hph') as (b2 & Hin & Hid2); [intros; apply Henc; congruence|].
      exists b2. destruct (run _ _ y1 _) as [y2 e2]. cbn [snd] in *. split; [apply elem_of_app; by right|congruence].
Qed.

End transport.

(** ** Example *)

Module SenderExample.
(** Requests and probes are numbers; a batch of [n] flows takes [10 + 5n] bytes. *)
Definition TBatch : Type := @Batch unit Z.
Definition encoded_len (b : TBatch) : Z := 10 + 5 * zlen (flows b).
Definition encodes (b : TBatch) : bool := true.
Definition decode_enroll (body : list Z) : option EnrollResponse := Some (mkEnrollResponse 1 "gateway" "token").
Definition decode_response (body : list Z) : option (list Z) := Some body.
Lemma encoded_len_nonneg b : 0 ≤ encoded_len b.
Proof. unfold encoded_len. pose proof (zlen_nonneg (flows b)). lia. Qed.

Definition telemetry (n : nat) : TBatch := mkBatch "" "" 0 (replicate n (100, 200)) [] tt.
Definition settings : SenderSettings := mkSettings "enrollment" "boot".
Definition accepts : @Attempt Z Z := mkAttempt (HttpAnswer 200 []) (HttpAnswer 200 [7]) (λ r, r + 1) false.
Definition refuses : @Attempt Z Z := mkAttempt HttpFailed HttpFailed (λ r, r) false.
Definition takes : @Attempt Z Z := mkAttempt (HttpAnswer 200 []) (HttpAnswer 204 []) (λ r, r) false.

(** Three batches into a buffer of 40 bytes, which holds two; the collector is
    away at first, and asks for a probe then. *)
Definition actions : list (@Action unit Z Z) :=
  [Submit (telemetry 1); Submit (telemetry 2); Submit (telemetry 0); Poll false; Try refuses; Try accepts; Poll false; Try takes].
Definition play : @System unit Z * list Event := run encoded_len encodes decode_enroll decode_response 40 settings (initial None) actions.
Definition busy : @System unit Z := fst (run encoded_len encodes decode_enroll decode_response 40 settings (initial None) (firstn 4 actions)).
End SenderExample.

Lemma buffer_bounded_fifo_witness :
  dropped (snd SenderExample.play) = [SenderExample.telemetry 1] ∧ bytes (buffer (fst SenderExample.play)) ≤ 40.
Proof.
  split; [vm_compute; reflexivity|].
  apply (buffer_bounded_fifo SenderExample.encoded_len SenderExample.encodes SenderExample.decode_enroll
    SenderExample.decode_response SenderExample.encoded_len_nonneg 40 SenderExample.settings None SenderExample.actions
    (fst SenderExample.play) (snd SenderExample.play)).
  - split; [lia|vm_compute; reflexivity].
  - apply surjective_pairing.
Defined.

Lemma delivery_in_order_witness :
  sequence <$> delivered (snd SenderExample.play) = [1; 2] ∧ executed (snd SenderExample.play) = [8] ∧
  sequence <$> taken (snd SenderExample.play) = Z.min u64_max <$> seqZ 1 (zlen (taken (snd SenderExample.play))).
Proof.
  split; [vm_compute; reflexivity|]. split; [vm_compute; reflexivity|].
  apply (delivery_in_order SenderExample.encoded_len SenderExample.encodes SenderExample.decode_enroll
    SenderExample.decode_response SenderExample.encoded_len_nonneg 40 SenderExample.settings None SenderExample.actions
    (fst SenderExample.play) (snd SenderExample.play)).
  - split; [lia|vm_compute; reflexivity].
  - apply surjective_pairing.
Defined.

Lemma eventually_delivered_witness :
  ∃ b, Delivered b ∈ snd (run SenderExample.encoded_len SenderExample.encodes SenderExample.decode_enroll
         SenderExample.decode_response 40 SenderExample.settings SenderExample.busy
         ([Try SenderExample.refuses; Poll false; Try SenderExample.refuses] ++ [Try SenderExample.takes])) ∧
    ident b = ("boot", 1, [(100, 200); (100, 200)], [], tt).
Proof.
  apply (eventually_delivered SenderExample.encoded_len SenderExample.encodes SenderExample.decode_enroll
    SenderExample.decode_response 40 SenderExample.settings SenderExample.busy
    [Try SenderExample.refuses; Poll false; Try SenderExample.refuses] SenderExample.takes
    (mkBatch "" "boot" 1 [(100, 200); (100, 200)] [] tt) (mkCredentials "gateway" "token") []).
  - vm_compute. reflexivity.
  - repeat constructor.
  - reflexivity.
  - reflexivity.
  - reflexivity.
Defined.
