(* ===== verification/Sample.v ===== *)
(** Packet samples on the agent: decoding a capture event of the BPF program
    into a flow sample (src/crates/agent/src/sample.rs) and merging the samples
    of one flow before an upload (src/crates/agent/src/transport.rs). *)

From S2P Require Import Prelude Topology Net Telemetry Flow Normalization.

(** ** Decoding *)

Definition SAMPLE_EVENT_HEADER_SIZE : Datatypes.nat := 80.

Definition ip_bytes (a : IpAddr) : list Z := match a with V4 v => be_bytes 4 v | V6 v => be_bytes 16 v end.

(** A sample as the agent builds it: the fields of the wire message and the
    flow's policy identity. *)
Record AgentSample := mkAgentSample { wire : FlowSample; sample_policy_flow_id : string }.

(** [format!("{}:{}-{}:{}-{}-{first_seen_ns}", ..)]. *)
Definition sample_flow_id (f : NormalizedFlow) (proto first_seen_ns : Z) : list Z :=
  show_ip_bytes (client_addr f) ++ 58 :: str_bytes (dec_text (client_port f)) ++ 45 ::
  show_ip_bytes (remote_addr f) ++ 58 :: str_bytes (dec_text (remote_port f)) ++ 45 ::
  str_bytes (dec_text proto) ++ 45 :: str_bytes (dec_text first_seen_ns).

Definition u64_saturating_sum (a b : Z) : Z := Z.min u64_max (a + b).

Section decode.
Context `{Digest} (big_endian : bool).
Context (network : TopologySnapshot) (conntrack : ConntrackContext).
Context (boot_epoch_ms : Z) (excluded : list (IpAddr * Z)) (boot : string) (policy_ids_enabled : bool).

Definition wire_direction (d : Direction) : option Z := match d with Upload => Some 1 | Download => Some 2 | _ => None end.

Definition decode_sample (enabled : bool) (bytes : list Z) : option AgentSample :=
  if (negb enabled || (length bytes <? SAMPLE_EVENT_HEADER_SIZE)%nat)%bool then None
  else
    k ← ok (key_try_from big_endian (take 44 bytes));
    f ← normalize k network conntrack;
    if negb (match flow_scope f with ClientScope => true | _ => false end) then None
    else if existsb (λ '(ip, port), bool_decide (ip = remote_addr f) && (port =? remote_port f))%bool excluded then None
    else
      dir ← wire_direction (flow_direction f);
      let original := from_ne_bytes big_endian (slice 44 48 bytes) in
      let timestamp_ns := from_ne_bytes big_endian (slice 48 56 bytes) in
      let first_seen_ns := from_ne_bytes big_endian (slice 56 64 bytes) in
      let flow_first_seen_ns := from_ne_bytes big_endian (slice 64 72 bytes) in
      let captured := from_ne_bytes big_endian (slice 72 76 bytes) in
      if ((captured =? 0) || (4096 <? captured) || (original <? captured) || (timestamp_ns <? first_seen_ns)
          || (Z.of_nat (length bytes - SAMPLE_EVENT_HEADER_SIZE) <? captured))%bool then None
      else Some (mkAgentSample
        (mkSample (bytes_str (sample_flow_id f (protocol k) first_seen_ns))
           (Some (mkSampleKey (ip_version k) (protocol k) (ip_bytes (client_addr f)) (client_port f)
                    (ip_bytes (remote_addr f)) (remote_port f)
                    (u64_saturating_sum boot_epoch_ms (first_seen_ns / 1000000))))
           [mkPacket dir (u64_saturating_sum boot_epoch_ms (timestamp_ns / 1000000)) original captured
              (slice SAMPLE_EVENT_HEADER_SIZE (SAMPLE_EVENT_HEADER_SIZE + Z.to_nat captured) bytes)]
           captured)
        (if policy_ids_enabled then policy_flow_id big_endian boot k flow_first_seen_ns else "")).

End decode.

(** ** Merging *)

(** [existing.total_captured_bytes += ..; existing.packets.extend(..)]; the sum
    is a [u32]. *)
Definition absorb (a s : AgentSample) : AgentSample :=
  mkAgentSample
    (mkSample (Telemetry.flow_id (wire a)) (Telemetry.key (wire a)) (Telemetry.packets (wire a) ++ Telemetry.packets (wire s))
       ((total_captured_bytes (wire a) + total_captured_bytes (wire s)) mod 2 ^ 32))
    (sample_policy_flow_id a).

(** One turn of the loop: the merged samples and the index of each flow id. *)
Definition merge_step (st : list AgentSample * gmap string Datatypes.nat) (s : AgentSample) : list AgentSample * gmap string Datatypes.nat :=
  let '(merged, indexes) := st in
  match indexes !! Telemetry.flow_id (wire s) with
  | Some i => (alter (λ a, absorb a s) i merged, indexes)
  | None => (merged ++ [s], <[Telemetry.flow_id (wire s) := length merged]> indexes)
  end.

Definition merge_samples (samples : list AgentSample) : list AgentSample := fst (foldl merge_step ([], ∅) samples).

(** ** What merging computes *)

Abbreviation id_of s := (Telemetry.flow_id (wire s)).

(** The flow ids in the order of their first sample. *)
Definition first_ids (samples : list AgentSample) : list string :=
  foldl (λ ids s, if bool_decide (id_of s ∈ ids) then ids else ids ++ [id_of s]) [] samples.

(** All samples of a flow in one. *)
Definition combined (samples : list AgentSample) (id : string) : option AgentSample :=
  match filter (λ s, id_of s = id) samples with
  | [] => None
  | s :: rest => Some (foldl absorb s rest)
  end.

Lemma first_ids_snoc l s : first_ids (l ++ [s]) = if bool_decide (id_of s ∈ first_ids l) then first_ids l else first_ids l ++ [id_of s].
Proof. unfold first_ids. by rewrite foldl_app. Qed.

Lemma first_ids_spec l : NoDup (first_ids l) ∧ ∀ id, id ∈ first_ids l ↔ id ∈ (λ s, id_of s) <$> l.
Proof.
  induction l as [|s l [Hnd Hin]] using rev_ind; [split; [constructor|done]|]. rewrite first_ids_snoc, fmap_app. cbn.
  case_bool_decide as Hs.
  - split; [done|]. intros id. rewrite elem_of_app, list_elem_of_singleton, <- Hin. naive_solver.
  - split; [apply NoDup_app; split_and!; [done|intros x Hx ->%list_elem_of_singleton; done|apply NoDup_singleton]|].
    intros id. by rewrite !elem_of_app, Hin.
Qed.

Lemma combined_snoc l s id : combined (l ++ [s]) id =
  if bool_decide (id_of s = id) then Some (match combined l id with Some a => absorb a s | None => s end) else combined l id.
Proof.
  unfold combined. rewrite filter_app. cbn. case_bool_decide as Hs.
  - rewrite decide_True by done. destruct (filter _ l) as [|x rest]; [done|]. cbn. by rewrite foldl_app.
  - rewrite decide_False by done. by rewrite app_nil_r.
Qed.

Lemma combined_Some l id : is_Some (combined l id) ↔ id ∈ first_ids l.
Proof.
  destruct (first_ids_spec l) as [_ ->]. unfold combined. rewrite list_elem_of_fmap. destruct (filter _ l) as [|x rest] eqn:Hf.
  - split; [by intros []|]. intros (s & -> & Hs). assert (s ∈ filter (λ s', id_of s' = id_of s) l) as Hin by (by apply list_elem_of_filter).
    rewrite Hf in Hin. by apply elem_of_nil in Hin.
  - split; [|by eexists]. intros _. assert (x ∈ filter (λ s, id_of s = id) l) as Hin by (rewrite Hf; left).
    apply list_elem_of_filter in Hin as [<- Hin]. by exists x.
Qed.

(** The loop's state after the samples [l]. *)
Definition merged_so_far (l : list AgentSample) (st : list AgentSample * gmap string Datatypes.nat) : Prop :=
  Forall2 (λ id a, combined l id = Some a) (first_ids l) (fst st) ∧
  ∀ id i, snd st !! id = Some i ↔ first_ids l !! i = Some id.

Lemma merge_step_spec l st s : merged_so_far l st → merged_so_far (l ++ [s]) (merge_step st s).
Proof.
  destruct st as [merged indexes]. intros [Hall Hidx]. cbn [fst snd] in *. destruct (first_ids_spec l) as [Hnd _].
  pose proof (Forall2_length _ _ _ Hall) as Hlen. unfold merged_so_far, merge_step. rewrite first_ids_snoc.
  destruct (indexes !! id_of s) as [i|] eqn:Hi; cbn [fst snd].
  - apply Hidx in Hi. rewrite bool_decide_eq_true_2 by (by eapply list_elem_of_lookup_2). split; [|done].
    apply Forall2_same_length_lookup_2; [by rewrite length_alter|]. intros j id a Hj Ha. rewrite combined_snoc.
    destruct (Forall2_lookup_l _ _ _ _ _ Hall Hj) as (a0 & Ha0 & Hc). destruct (decide (j = i)) as [->|Hne].
    + rewrite Hi in Hj. injection Hj as <-. rewrite bool_decide_eq_true_2, Hc by done.
      rewrite list_lookup_alter_eq, Ha0 in Ha. by injection Ha as <-.
    + rewrite list_lookup_alter_ne in Ha by done. rewrite bool_decide_eq_false_2; [congruence|]. intros Hid. apply Hne.
      rewrite <- Hid in Hj. by apply (NoDup_lookup _ _ _ _ Hnd Hj).
  - assert (id_of s ∉ first_ids l) as Hnew.
    { intros [i Hs]%list_elem_of_lookup. apply Hidx in Hs. congruence. }
    rewrite bool_decide_eq_false_2 by done. split.
    + apply Forall2_app.
      * eapply Forall2_elem_impl; [exact Hall|]. intros id a Hid _ Ha. rewrite combined_snoc, bool_decide_eq_false_2; [done|]. congruence.
      * constructor; [|constructor]. rewrite combined_snoc, bool_decide_eq_true_2 by done.
        destruct (combined l (id_of s)) eqn:Hc; [|done]. destruct Hnew. apply combined_Some. by eexists.
    + intros id i. destruct (decide (id = id_of s)) as [->|Hne].
      * rewrite lookup_insert_eq. split; [intros [= <-]; rewrite lookup_app_r, Hlen, Nat.sub_diag by lia; done|].
        intros Hi'. destruct (decide (i < length (first_ids l))%nat) as [Hlt|Hge].
        -- rewrite lookup_app_l in Hi' by done. destruct Hnew. by eapply list_elem_of_lookup_2.
        -- apply lookup_lt_Some in Hi'. rewrite length_app in Hi'. cbn in Hi'. f_equal. lia.
      * rewrite lookup_insert_ne by done. rewrite Hidx. split; [intros Hx; by apply lookup_app_l_Some|].
        intros Hx. apply lookup_app_Some in Hx as [Hx|[_ Hx]]; [done|]. destruct (i - length (first_ids l))%nat; cbn in Hx; [congruence|done].
Qed.

Lemma merge_samples_spec l : Forall2 (λ id a, combined l id = Some a) (first_ids l) (merge_samples l).
Proof.
  assert (merged_so_far l (foldl merge_step ([], ∅) l)) as [Hall _]; [|done].
  induction l as [|s l IH] using rev_ind; [split; [constructor|by intros]|]. rewrite foldl_app. by apply merge_step_spec.
Qed.

(** ** What is decoded *)

(** A tracked connection: addresses of one family, ports of 16 bits. *)
Definition tuple_ok (v4 : bool) (t : FlowTuple) : Prop :=
  is_ipv4 (tuple_source t) = v4 ∧ is_ipv4 (tuple_destination t) = v4 ∧ addr_wf (tuple_source t) ∧
  addr_wf (tuple_destination t) ∧ is_u16 (tuple_source_port t) ∧ is_u16 (tuple_destination_port t).
Definition entry_ok (e : ConntrackEntry) : Prop := ∃ v4, tuple_ok v4 (original e) ∧ tuple_ok v4 (reply e).

Lemma entry_tuples v4 e t : tuple_ok v4 (original e) → tuple_ok v4 (reply e) → t ∈ tuples_of e → tuple_ok v4 t.
Proof.
  unfold tuples_of, tuple_ok. intros Ho Hr Ht. repeat (apply elem_of_cons in Ht as [->|Ht]; [cbn; tauto|]). by apply elem_of_nil in Ht.
Qed.

(** The endpoints of a normalized flow. *)
Record endpoints_ok (v4 : bool) (f : NormalizedFlow) : Prop := {
  eo_client : is_ipv4 (client_addr f) = v4 ∧ addr_wf (client_addr f);
  eo_remote : is_ipv4 (remote_addr f) = v4 ∧ addr_wf (remote_addr f);
  eo_ports : is_u16 (client_port f) ∧ is_u16 (remote_port f);
}.

Lemma key_addresses_ok k s d : Flow.key_wf k → key_addresses k = Some (s, d) →
  (ip_version k = if is_ipv4 s then 4 else 6) ∧
  tuple_ok (is_ipv4 s) (mkTuple (protocol k) s (source_port k) d (destination_port k)).
Proof.
  intros [_ _ _ _ _ [Hsl Hs] [Hdl Hd] Hsp Hdp]. unfold key_addresses.
  assert (∀ bs, length bs = 16%nat → Forall is_u8 bs →
    0 ≤ from_be_bytes (slice 0 4 bs) < 2 ^ 32 ∧ 0 ≤ from_be_bytes bs < 2 ^ 128) as Hw.
  { intros bs Hl Hb. split.
    - apply (from_slice_width from_be_bytes 0 4); [apply from_be_bytes_width|lia|done].
    - pose proof (from_be_bytes_width bs Hb) as Hx. unfold zlen in Hx. by rewrite Hl in Hx. }
  destruct (Hw _ Hsl Hs), (Hw _ Hdl Hd).
  destruct (ip_version k =? 4) eqn:H4; [|destruct (ip_version k =? 6) eqn:H6; [|done]]; intros [= <- <-];
    (split; [cbn; lia|]); split_and!; done.
Qed.

Lemma normalize_endpoints (es : list ConntrackEntry) k (t : TopologySnapshot) f : Forall entry_ok es → Flow.key_wf k →
  normalize k t (foldl conntrack_insert ∅ es) = Some f →
  ∃ v4 : bool, ip_version k = (if v4 then 4 else 6) ∧ endpoints_ok v4 f.
Proof.
  intros Hes Hk. unfold normalize, normalize_with_resolution. destruct (key_addresses k) as [[s d]|] eqn:Ha; [|done].
  destruct (key_addresses_ok _ _ _ Hk Ha) as [Hv Hcap]. cbn [mbind option_bind]. intros Hf. exists (is_ipv4 s). split; [done|].
  destruct (conntrack_resolve _ k) as [e|] eqn:Hr.
  - apply conntrack_resolve_tuple in Hr as (tup & Htup & Hl). apply conntrack_fold_lookup in Hl as [Hl|[Hin Ht]]; [by rewrite lookup_empty in Hl|].
    rewrite Forall_forall in Hes. destruct (Hes e Hin) as (v4 & Ho & Hrp). pose proof (entry_tuples _ _ _ Ho Hrp Ht) as Htk.
    unfold tuple_from_key in Htup. rewrite Ha in Htup. injection Htup as <-.
    assert (v4 = is_ipv4 s) as -> by (destruct Htk as [Hx _]; by rewrite <- Hx).
    destruct (original_orientation k e) as [[[s' sp] d'] dp] eqn:Hor.
    destruct (endpoints t s' sp d' dp) as [[[[[[ca cp] ra] rp] dir] sc] pt] eqn:He. cbn in Hf. injection Hf as <-.
    destruct Ho as (? & ? & ? & ? & ? & ?).
    destruct (endpoints_pair _ _ _ _ _ _ _ _ _ _ _ _ He), (orientation_pair _ _ _ _ _ _ Hor); simplify_eq; by split.
  - destruct (endpoints t s _ d _) as [[[[[[ca cp] ra] rp] dir] sc] pt] eqn:He. cbn in Hf. injection Hf as <-.
    destruct Hcap as (? & ? & ? & ? & ? & ?). destruct (endpoints_pair _ _ _ _ _ _ _ _ _ _ _ _ He); simplify_eq; by split.
Qed.

(** The key of a flow's samples, from what its id is made of. *)
Definition sample_key (boot_epoch_ms : Z) (f : NormalizedFlow) (proto first_seen_ns : Z) : FlowSampleKey :=
  mkSampleKey (if is_ipv4 (client_addr f) then 4 else 6) proto (ip_bytes (client_addr f)) (client_port f)
    (ip_bytes (remote_addr f)) (remote_port f) (u64_saturating_sum boot_epoch_ms (first_seen_ns / 1000000)).

(** A decoded sample: one well-formed packet of the flow its id names. *)
Record decoded_as (boot_epoch_ms : Z) (s : AgentSample) (f : NormalizedFlow) (proto first_seen_ns : Z) (p : SamplePacket) : Prop := {
  da_wire : wire s = mkSample (bytes_str (sample_flow_id f proto first_seen_ns))
              (Some (sample_key boot_epoch_ms f proto first_seen_ns)) [p] (captured_length p);
  da_endpoints : endpoints_ok (is_ipv4 (client_addr f)) f;
  da_proto : is_u8 proto ∧ proto ≠ 0;
  da_seen : is_u64 first_seen_ns;
  da_packet : packet_wf (sample_key boot_epoch_ms f proto first_seen_ns) p;
}.

(** What the capture program guarantees of an event: bytes, a transport
    protocol, and a captured packet of the key's IP version. *)
Record event_ok (bytes : list Z) : Prop := {
  ev_bytes : Forall is_u8 bytes;
  ev_protocol : bytes !! 1%nat ≠ Some 0;
  ev_version : ∀ b v, bytes !! 80%nat = Some b → bytes !! 0%nat = Some v → Z.shiftr b 4 = v;
}.

Lemma sum_mono a x y : x ≤ y → u64_saturating_sum a (x / 1000000) ≤ u64_saturating_sum a (y / 1000000).
Proof. intros Hxy. unfold u64_saturating_sum. pose proof (Z.div_le_mono x y 1000000 ltac:(lia) Hxy). lia. Qed.

Section decoding.
Context `{Digest} (big_endian : bool).
Context (network : TopologySnapshot) (es : list ConntrackEntry).
Context (boot_epoch_ms : Z) (excluded : list (IpAddr * Z)) (boot : string) (policy_ids_enabled : bool).

Abbreviation decode := (decode_sample big_endian network (foldl conntrack_insert ∅ es) boot_epoch_ms excluded boot policy_ids_enabled).

Lemma decode_sample_spec enabled bytes s : Forall entry_ok es → event_ok bytes → decode enabled bytes = Some s →
  ∃ f proto first_seen_ns p, decoded_as boot_epoch_ms s f proto first_seen_ns p.
Proof.
  intros Hes [Hb Hproto Hver]. unfold decode_sample. destruct (_ || _)%bool eqn:Hg; [done|].
  apply orb_false_iff in Hg as [_ Hlen%Nat.ltb_ge]. unfold SAMPLE_EVENT_HEADER_SIZE in *.
  destruct (key_try_from _ _) as [k|] eqn:Hk; cbn [ok mbind option_bind]; [|done].
  pose proof (key_try_from_wf _ _ _ (Forall_take _ 44 _ Hb) Hk) as Hkw.
  assert (ip_version k = bytes !!! 0%nat ∧ protocol k = bytes !!! 1%nat) as [Hkv Hkp].
  { unfold key_try_from in Hk. case_match; [done|]. injection Hk as <-. cbn.
    split; apply list_lookup_total_correct; rewrite lookup_take_lt by lia; apply list_lookup_lookup_total_lt; lia. }
  destruct (normalize k network _) as [f|] eqn:Hf; cbn [mbind option_bind]; [|done].
  destruct (normalize_endpoints _ _ _ _ Hes Hkw Hf) as (v4 & Hv & Hep).
  destruct (negb _); [done|]. destruct (existsb _ excluded); [done|].
  destruct (wire_direction (flow_direction f)) as [dir|] eqn:Hdir; cbn [mbind option_bind]; [|done].
  set (original := from_ne_bytes big_endian (slice 44 48 bytes)). set (timestamp := from_ne_bytes big_endian (slice 48 56 bytes)).
  set (first_seen := from_ne_bytes big_endian (slice 56 64 bytes)). set (captured := from_ne_bytes big_endian (slice 72 76 bytes)).
  destruct (_ || _)%bool eqn:Hc; [done|]. intros [= <-]. split_bools.
  assert (is_ipv4 (client_addr f) = v4) as Hcv by apply Hep.
  assert (0 ≤ captured < 2 ^ 32) as Hcap.
  { apply (from_slice_width (from_ne_bytes big_endian) 72 76); [apply from_ne_bytes_width|lia|done]. }
  assert (is_u64 first_seen) as Hseen.
  { apply (from_slice_width (from_ne_bytes big_endian) 56 64); [apply from_ne_bytes_width|lia|done]. }
  clearbody original timestamp first_seen captured. rewrite !Z.ltb_ge, ?Z.eqb_neq in *.
  assert (length (slice 80 (80 + Z.to_nat captured) bytes) = Z.to_nat captured) as Hplen
    by (rewrite length_slice by lia; lia).
  exists f, (protocol k), first_seen, (mkPacket dir (u64_saturating_sum boot_epoch_ms (timestamp / 1000000)) original captured
    (slice 80 (80 + Z.to_nat captured) bytes)). split.
  - cbn [wire captured_length]. unfold sample_key. by rewrite Hcv, <- Hv.
  - by rewrite Hcv.
  - split; [apply Hkw|]. rewrite Hkp. intros Hz. apply Hproto. rewrite <- Hz. apply list_lookup_lookup_total_lt. lia.
  - done.
  - split; cbn [Telemetry.direction timestamp_unix_ms original_length captured_length Telemetry.payload Telemetry.ip_version sample_key first_seen_unix_ms].
    + unfold wire_direction in Hdir. destruct (flow_direction f); simplify_eq; auto.
    + apply sum_mono. lia.
    + lia.
    + lia.
    + unfold zlen. rewrite Hplen. lia.
    + destruct (slice 80 (80 + Z.to_nat captured) bytes) as [|b rest] eqn:Hs; [cbn in Hplen; lia|]. exists b, rest.
      split; [done|]. rewrite Hcv, <- Hv, Hkv. apply Hver; [|apply list_lookup_lookup_total_lt; lia].
      assert (slice 80 (80 + Z.to_nat captured) bytes !! 0%nat = Some b) as Hb0 by (by rewrite Hs).
      unfold slice in Hb0. rewrite lookup_take_lt, lookup_drop in Hb0 by lia. done.
Qed.

End decoding.

(** ** Flow ids *)

Lemma app_sep_inj (sep : Z) x x' y y' : sep ∉ x → sep ∉ x' → x ++ sep :: y = x' ++ sep :: y' → x = x' ∧ y = y'.
Proof.
  revert x'. induction x as [|a x IH]; intros [|a' x'] Hx Hx' Heq; cbn in Heq; [|set_solver..|].
  - by injection Heq as ->.
  - injection Heq as -> Heq. apply not_elem_of_cons in Hx as [_ Hx], Hx' as [_ Hx']. by destruct (IH x' Hx Hx' Heq) as [-> ->].
Qed.

Lemma app_sep_inj_r (sep : Z) x x' y y' : sep ∉ y → sep ∉ y' → x ++ sep :: y = x' ++ sep :: y' → x = x' ∧ y = y'.
Proof.
  intros Hy Hy' Heq. apply (f_equal reverse) in Heq. rewrite !reverse_app, !reverse_cons, <- !app_assoc in Heq. cbn [app] in Heq.
  apply app_sep_inj in Heq as [H1 H2]; [|by rewrite elem_of_reverse..].
  split; [by apply (inj reverse)|by apply (inj reverse)].
Qed.

Lemma digits_no b n : is_ascii_digit b = false → b ∉ str_bytes (dec_text n).
Proof.
  intros Hb Hin. destruct (dec_text_ascii n) as [Hall _]. rewrite Forall_forall in Hall. specialize (Hall b Hin). congruence.
Qed.

Lemma address_no_hyphen a : addr_wf a → 45 ∉ show_ip_bytes a.
Proof.
  intros Ha Hin. destruct (show_ip_text a Ha) as [Hall _]. rewrite Forall_forall in Hall. by apply (ip_byte_no_hyphen 45 (Hall 45 Hin)).
Qed.

Lemma dec_bytes_inj n m : is_u64 n → is_u64 m → str_bytes (dec_text n) = str_bytes (dec_text m) → n = m.
Proof. intros Hn Hm Heq%str_bytes_inj. by apply dec_text_inj. Qed.

Lemma narrow w n : 0 ≤ w ≤ 64 → in_width w n → is_u64 n.
Proof. unfold in_width. intros Hw Hn. pose proof (Z.pow_le_mono_r 2 w 64 ltac:(lia) ltac:(lia)). lia. Qed.

Lemma sample_flow_id_parts f proto seen :
  sample_flow_id f proto seen =
    (show_ip_bytes (client_addr f) ++ 58 :: str_bytes (dec_text (client_port f))) ++ 45 ::
    (show_ip_bytes (remote_addr f) ++ 58 :: str_bytes (dec_text (remote_port f))) ++ 45 ::
    str_bytes (dec_text proto) ++ 45 :: str_bytes (dec_text seen).
Proof. unfold sample_flow_id. by rewrite <- !app_assoc. Qed.

(** A flow id determines what it is made of. *)
Lemma sample_flow_id_inj v v' f f' proto proto' seen seen' :
  endpoints_ok v f → endpoints_ok v' f' → is_u8 proto → is_u8 proto' → is_u64 seen → is_u64 seen' →
  sample_flow_id f proto seen = sample_flow_id f' proto' seen' →
  client_addr f = client_addr f' ∧ client_port f = client_port f' ∧ remote_addr f = remote_addr f' ∧
  remote_port f = remote_port f' ∧ proto = proto' ∧ seen = seen'.
Proof.
  intros [[_ Hc] [_ Hr] [Hcp Hrp]] [[_ Hc'] [_ Hr'] [Hcp' Hrp']] Hp Hp' Hs Hs'. rewrite !sample_flow_id_parts.
  assert (∀ a p, addr_wf a → 45 ∉ show_ip_bytes a ++ 58 :: str_bytes (dec_text p)) as Hno.
  { intros a p Ha. rewrite elem_of_app, elem_of_cons. intros [Hx|[Hx|Hx]]; [by apply (address_no_hyphen a)|done|by apply (digits_no 45 p)]. }
  intros Heq. apply app_sep_inj in Heq as [H1 Heq]; [|by apply Hno..].
  apply app_sep_inj in Heq as [H2 Heq]; [|by apply Hno..]. apply app_sep_inj in Heq as [H3 H4]; [|by apply digits_no..].
  apply app_sep_inj_r in H1 as [Ha1 Hp1]; [|by apply digits_no..]. apply app_sep_inj_r in H2 as [Ha2 Hp2]; [|by apply digits_no..].
  split_and!.
  - by apply show_ip_inj.
  - apply dec_bytes_inj; [apply (narrow 16); [lia|assumption]..|exact Hp1].
  - by apply show_ip_inj.
  - apply dec_bytes_inj; [apply (narrow 16); [lia|assumption]..|exact Hp2].
  - apply dec_bytes_inj; [apply (narrow 8); [lia|assumption]..|exact H3].
  - apply dec_bytes_inj; [exact Hs|exact Hs'|exact H4].
Qed.

Lemma dec_text_aux_length fuel k n s : (1 ≤ k ≤ fuel)%nat → 0 ≤ n < 10 ^ Z.of_nat k →
  (String.length (dec_text_aux fuel n s) ≤ k + String.length s)%nat.
Proof.
  revert k n s. induction fuel as [|fuel IH]; intros k n s Hk Hn; [lia|]. cbn [dec_text_aux].
  destruct (n <? 10) eqn:Hlt; [cbn [String.length]; lia|]. apply Z.ltb_ge in Hlt. destruct k as [|[|k]]; [lia|change (10 ^ Z.of_nat 1) with 10 in Hn; lia|].
  rewrite Nat2Z.inj_succ, Z.pow_succ_r in Hn by lia.
  etrans; [apply (IH (S k)); [lia|]|cbn [String.length]; lia].
  split; [apply Z.div_pos; lia|apply Z.div_lt_upper_bound; lia].
Qed.

Lemma dec_text_length k n : (1 ≤ k ≤ 20)%nat → 0 ≤ n < 10 ^ Z.of_nat k → (length (str_bytes (dec_text n)) ≤ k)%nat.
Proof.
  intros Hk Hn. rewrite str_bytes_length. unfold dec_text. pose proof (dec_text_aux_length 20 k n EmptyString Hk Hn) as Hl.
  cbn [String.length] in Hl. lia.
Qed.

Lemma sample_flow_id_text v f proto seen : endpoints_ok v f → is_u8 proto → is_u64 seen →
  Forall (λ b, 0 ≤ b < 256) (sample_flow_id f proto seen) ∧ (1 ≤ length (sample_flow_id f proto seen) ≤ 128)%nat.
Proof.
  intros [[_ Hc] [_ Hr] [Hcp Hrp]] Hp Hs. unfold in_width in *.
  destruct (show_ip_text _ Hc) as [Hcb Hcl]. destruct (show_ip_text _ Hr) as [Hrb Hrl].
  pose proof (dec_text_length 5 (client_port f) ltac:(lia) ltac:(lia)). pose proof (dec_text_length 5 (remote_port f) ltac:(lia) ltac:(lia)).
  pose proof (dec_text_length 3 proto ltac:(lia) ltac:(lia)). pose proof (dec_text_length 20 seen ltac:(lia) ltac:(lia)).
  assert (∀ l, Forall ip_byte l → Forall (λ b, 0 ≤ b < 256) l) as Hip.
  { intros l Hl. eapply Forall_impl; [exact Hl|]. intros b [->|[->|[d Hd]]]; [lia..|].
    unfold hex_value, is_ascii_digit, in_range in Hd. repeat case_match; try done; lia. }
  assert (∀ t, Forall (λ b, 0 ≤ b < 256) (str_bytes t)) as Hst by (intros t; apply str_bytes_u8).
  split.
  - rewrite sample_flow_id_parts. repeat (apply Forall_app_2 || apply Forall_cons_2); try lia; auto.
  - rewrite sample_flow_id_parts. rewrite !length_app. cbn [length]. rewrite !length_app. cbn [length].
    rewrite !length_app. cbn [length]. lia.
Qed.

Lemma sample_key_wf boot_epoch_ms f proto seen : 0 < boot_epoch_ms → endpoints_ok (is_ipv4 (client_addr f)) f →
  is_u8 proto → proto ≠ 0 → is_u64 seen → Telemetry.key_wf (sample_key boot_epoch_ms f proto seen).
Proof.
  intros Hboot [[_ Hc] [Hrv Hr] [Hcp Hrp]] Hp Hp0 Hs. unfold in_width in *.
  split; cbn [Telemetry.ip_version Telemetry.protocol client_ip remote_ip Telemetry.client_port Telemetry.remote_port first_seen_unix_ms sample_key].
  - unfold ip_bytes, zlen. destruct (client_addr f), (remote_addr f); cbn [is_ipv4] in *; try discriminate; [left|right];
      rewrite !length_be_bytes; done.
  - lia.
  - lia.
  - unfold u64_saturating_sum, u64_max. pose proof (Z.div_pos seen 1000000). lia.
Qed.

(** ** Merged samples pass validation *)

Abbreviation pk s := (Telemetry.packets (wire s)).

Lemma absorb_all s rest :
  let a := foldl absorb s rest in
  id_of a = id_of s ∧ Telemetry.key (wire a) = Telemetry.key (wire s) ∧ pk a = pk s ++ concat ((λ s, pk s) <$> rest) ∧
  (Forall (λ x, 0 ≤ total_captured_bytes (wire x)) rest → 0 ≤ total_captured_bytes (wire s) →
   let sum := foldr (λ x n, total_captured_bytes (wire x) + n) 0 rest in
   total_captured_bytes (wire s) + sum < 2 ^ 32 → total_captured_bytes (wire a) = total_captured_bytes (wire s) + sum).
Proof.
  revert s. induction rest as [|x rest IH]; intros s; cbn [foldl].
  { split_and!; [done|done|by rewrite app_nil_r|]. cbn. lia. }
  destruct (IH (absorb s x)) as (H1 & H2 & H3 & H4). split_and!; [done|done| |].
  { rewrite H3. cbn [absorb wire Telemetry.packets fmap list_fmap concat]. by rewrite <- app_assoc. }
  intros Hall Hs. inversion_clear Hall as [|? ? Hx Hall']. cbn [foldr] in *. intros Hsum.
  assert (0 ≤ foldr (λ x n, total_captured_bytes (wire x) + n) 0 rest) as Hrest.
  { clear - Hall'. induction Hall'; cbn; lia. }
  cbn [wire absorb total_captured_bytes] in H4. rewrite Z.mod_small in H4 by lia. rewrite H4 by (done || lia). lia.
Qed.

(** The samples of one flow, decoded: one key, and packets that fit it. *)
Definition decoded (boot_epoch_ms : Z) (s : AgentSample) : Prop :=
  ∃ f proto seen p, decoded_as boot_epoch_ms s f proto seen p.

Lemma decoded_same_flow boot_epoch_ms s s' : decoded boot_epoch_ms s → decoded boot_epoch_ms s' → id_of s = id_of s' →
  Telemetry.key (wire s) = Telemetry.key (wire s').
Proof.
  intros (f & proto & seen & p & [Hw Hep [Hp _] Hs _]) (f' & proto' & seen' & p' & [Hw' Hep' [Hp' _] Hs' _]) Hid.
  rewrite Hw, Hw' in *. cbn [Telemetry.flow_id Telemetry.key] in *. apply (f_equal str_bytes) in Hid.
  rewrite !str_bytes_of in Hid by (by eapply sample_flow_id_text).
  destruct (sample_flow_id_inj _ _ _ _ _ _ _ _ Hep Hep' Hp Hp' Hs Hs' Hid) as (H1 & H2 & H3 & H4 & -> & ->).
  unfold sample_key. by rewrite H1, H2, H3, H4.
Qed.

Lemma decoded_sample boot_epoch_ms s : 0 < boot_epoch_ms → decoded boot_epoch_ms s →
  id_of s ≠ EmptyString ∧ str_len (id_of s) ≤ 128 ∧ 0 < total_captured_bytes (wire s) ≤ 4096 ∧
  total_captured_bytes (wire s) = captured_sum (pk s) ∧ pk s ≠ [] ∧
  ∃ k, Telemetry.key (wire s) = Some k ∧ Telemetry.key_wf k ∧ Forall (packet_wf k) (pk s).
Proof.
  intros Hboot (f & proto & seen & p & [Hw Hep [Hp Hp0] Hs Hpk]). rewrite Hw.
  destruct (sample_flow_id_text _ _ _ _ Hep Hp Hs) as [Hb Hl]. pose proof (str_bytes_of _ Hb) as Hsb.
  cbn [Telemetry.flow_id Telemetry.key Telemetry.packets total_captured_bytes]. split_and!.
  - intros He. rewrite He in Hsb. cbn in Hsb. rewrite <- Hsb in Hl. cbn in Hl. lia.
  - rewrite str_len_bytes, Hsb. unfold zlen. lia.
  - apply Hpk.
  - apply Hpk.
  - unfold captured_sum. cbn. lia.
  - done.
  - eexists. split_and!; [done|by apply sample_key_wf|by apply Forall_singleton].
Qed.

Lemma captured_sum_app l k : captured_sum (l ++ k) = captured_sum l + captured_sum k.
Proof. unfold captured_sum. rewrite fmap_app, foldr_app. induction (captured_length <$> l); cbn; lia. Qed.

(** One merged sample. *)
Lemma combined_wf boot_epoch_ms l id a : 0 < boot_epoch_ms → zlen l ≤ 128 → Forall (decoded boot_epoch_ms) l →
  combined l id = Some a →
  id_of a = id ∧ pk a = concat ((λ s, pk s) <$> filter (λ s, id_of s = id) l) ∧
  (n_direction 1 (pk a) ≤ 32 → n_direction 2 (pk a) ≤ 32 → captured_sum (pk a) ≤ 65536 → sample_wf (wire a)).
Proof.
  intros Hboot Hlen Hall. unfold combined. destruct (filter _ l) as [|s rest] eqn:Hf; [done|]. intros [= <-].
  assert (∀ x, x ∈ s :: rest → id_of x = id ∧ decoded boot_epoch_ms x) as Hin.
  { intros x Hx. rewrite <- Hf in Hx. apply list_elem_of_filter in Hx as [Hid Hx]. rewrite Forall_forall in Hall. auto. }
  assert (length (s :: rest) ≤ length l)%nat as Hle by (rewrite <- Hf; apply length_filter).
  destruct (absorb_all s rest) as (H1 & H2 & H3 & H4). destruct (Hin s ltac:(left)) as [Hsid Hsd].
  destruct (decoded_sample _ _ Hboot Hsd) as (Hid0 & Hid1 & Ht & Hts & Hne & k & Hk & Hkw & Hps).
  split_and!; [congruence|by rewrite H3|]. intros Hup Hdown Hbytes.
  assert (Forall (λ x, 0 < total_captured_bytes (wire x) ≤ 4096 ∧ total_captured_bytes (wire x) = captured_sum (pk x) ∧
    Forall (packet_wf k) (pk x)) rest) as Hrest.
  { apply Forall_forall. intros x Hx. destruct (Hin x ltac:(by right)) as [Hxid Hxd].
    destruct (decoded_sample _ _ Hboot Hxd) as (_ & _ & Hxt & Hxs & _ & k' & Hk' & _ & Hxp).
    assert (Some k' = Some k) as [= ->] by (rewrite <- Hk, <- Hk'; apply (decoded_same_flow boot_epoch_ms); [done|done|congruence]).
    done. }
  assert (Forall (packet_wf k) (concat ((λ s, pk s) <$> rest)) ∧
    foldr (λ x n, total_captured_bytes (wire x) + n) 0 rest = captured_sum (concat ((λ s, pk s) <$> rest)) ∧
    0 ≤ foldr (λ x n, total_captured_bytes (wire x) + n) 0 rest ≤ 4096 * zlen rest) as (Hpr & Hsum & Hb).
  { clear - Hrest. induction Hrest as [|x rest (Hx & Hxs & Hxp) _ (IH1 & IH2 & IH3)]; [done|]. cbn [fmap list_fmap concat foldr].
    rewrite captured_sum_app, zlen_cons, Forall_app. cbn [fmap list_fmap] in *. split_and!; [done|done|lia..]. }
  unfold zlen in Hlen, Hb. cbn [length] in Hle.
  split.
  - by rewrite H1.
  - exists k. split_and!; [congruence|done|]. rewrite H3, Forall_app. done.
  - rewrite H3. by destruct (pk s).
  - done.
  - done.
  - rewrite H3, captured_sum_app, <- Hts, <- Hsum. apply H4; [|lia|lia].
    eapply Forall_impl; [exact Hrest|]. cbn. lia.
  - done.
Qed.

(** C36: What the agent uploads, the collector's validation accepts. From up to
    128 capture events of the BPF program, decoded under any topology and
    connection table, the merged samples form a batch that
    [validate_flow_sample_batch] accepts, provided its metadata is complete and
    no flow exceeds the packet and byte budgets within the batch: every flow id
    is short and distinct, each flow's packets share one key, and the byte
    totals are exact. Each merged sample has the packets of its flow's samples,
    in order, and no flow is missing. *)
Theorem merged_samples_accepted `{Digest} big_endian network es boot_epoch_ms excluded boot policy_ids enabled events meta :
  let samples := omap (decode_sample big_endian network (foldl conntrack_insert ∅ es) boot_epoch_ms excluded boot policy_ids enabled) events in
  let merged := merge_samples samples in
  Forall entry_ok es → Forall event_ok events → 0 < boot_epoch_ms → metadata_wf meta →
  1 ≤ zlen samples ≤ 128 →
  Forall (λ a, n_direction 1 (pk a) ≤ 32 ∧ n_direction 2 (pk a) ≤ 32 ∧ captured_sum (pk a) ≤ 65536) merged →
  validate_flow_sample_batch (mkSampleBatch meta (wire <$> merged)) = Ok tt ∧
  (∀ s, s ∈ samples → ∃ a, a ∈ merged ∧ id_of a = id_of s) ∧
  (∀ a, a ∈ merged → pk a = concat ((λ s, pk s) <$> filter (λ s, id_of s = id_of a) samples)).
Proof.
  intros samples merged Hes Hev Hboot Hmeta Hlen Hbudget.
  assert (Forall (decoded boot_epoch_ms) samples) as Hdec.
  { apply Forall_forall. intros s (e & He & Hs)%list_elem_of_omap. rewrite Forall_forall in Hev. by eapply decode_sample_spec; [exact Hes|apply Hev|]. }
  clearbody samples. pose proof (merge_samples_spec samples) as Hm. fold merged in Hm. destruct (first_ids_spec samples) as [Hnd Hids].
  assert (∀ id a, combined samples id = Some a → id_of a = id ∧ pk a = concat ((λ s, pk s) <$> filter (λ s, id_of s = id) samples) ∧
    (n_direction 1 (pk a) ≤ 32 → n_direction 2 (pk a) ≤ 32 → captured_sum (pk a) ≤ 65536 → sample_wf (wire a))) as Hc.
  { intros id a. apply (combined_wf boot_epoch_ms); [done|lia|done]. }
  split_and!.
  - apply validate_flow_sample_batch_Ok. split; cbn [metadata Telemetry.samples].
    + done.
    + unfold zlen. rewrite length_fmap, <- (Forall2_length _ _ _ Hm).
      assert (first_ids samples ≠ []) as Hne.
      { destruct samples as [|s l]; [by destruct Hlen|]. intros Heq. assert (id_of s ∈ first_ids (s :: l)) as Hin by (apply Hids; left).
        rewrite Heq in Hin. by apply elem_of_nil in Hin. }
      assert (length (first_ids samples) ≤ length samples)%nat as Hle.
      { rewrite <- (length_fmap (λ s, id_of s) samples). apply submseteq_length, NoDup_submseteq; [done|]. intros id. by apply Hids. }
      unfold zlen in Hlen. destruct (first_ids samples); [done|]. cbn [length] in *. lia.
    + assert (Telemetry.flow_id <$> (wire <$> merged) = first_ids samples) as ->; [|done].
      rewrite <- list_fmap_compose. clear - Hm Hc. induction Hm as [|id a ids l Ha _ IH]; [done|]. cbn. f_equal; [by apply Hc|done].
    + apply Forall_fmap. apply Forall_forall. intros a Ha. rewrite Forall_forall in Hbudget. destruct (Hbudget a Ha) as (? & ? & ?).
      apply list_elem_of_lookup in Ha as [i Hi]. destruct (Forall2_lookup_r _ _ _ _ _ Hm Hi) as (id & _ & Hia). by apply (Hc id a).
  - intros s Hs. assert (id_of s ∈ first_ids samples) as Hin by (apply Hids; by apply (list_elem_of_fmap_2 (λ s, id_of s))).
    destruct (Forall2_elem_l _ _ _ _ Hm Hin) as (a & Ha & Hca). exists a. split; [done|]. by apply Hc.
  - intros a Ha. apply list_elem_of_lookup in Ha as [i Hi]. destruct (Forall2_lookup_r _ _ _ _ _ Hm Hi) as (id & _ & Hia).
    destruct (Hc id a Hia) as (Hid & Hp & _). by rewrite Hid.
Qed.

(** ** An upload of three events *)

Module SampleExample.
Definition meta : TelemetryBatch := Telemetry.mkBatch "gateway" "boot" 1 1 "1.0" Telemetry.PROTOCOL_VERSION.
Definition event (k : FlowKey) (seen at_ : Z) (payload : list Z) : list Z :=
  bpf_key_bytes false k ++ ne_bytes false 4 1500 ++ ne_bytes false 8 at_ ++ ne_bytes false 8 seen ++ ne_bytes false 8 seen ++
  ne_bytes false 4 (zlen payload) ++ replicate 4 0 ++ payload.
Definition events : list (list Z) :=
  [event Normalization.Example.forward 1000000 2000000 [69; 0; 0; 60];
   event Normalization.Example.backward 1000000 3000000 [69; 0; 0; 90; 1];
   event Normalization.Example.forward 9000000 9000000 [69; 0]].
End SampleExample.

Lemma merged_samples_accepted_witness :
  let samples := omap (@decode_sample Flow.Example.digest false Normalization.Example.topology
    (foldl conntrack_insert ∅ [Normalization.Example.entry]) 1000 [] "boot" true true) SampleExample.events in
  zlen samples = 3 ∧ zlen (merge_samples samples) = 2 ∧
  validate_flow_sample_batch (mkSampleBatch SampleExample.meta (wire <$> merge_samples samples)) = Ok tt.
Proof.
  split; [by vm_compute|]. split; [by vm_compute|].
  apply (merged_samples_accepted (H := Flow.Example.digest) false Normalization.Example.topology [Normalization.Example.entry] 1000 [] "boot"
    true true SampleExample.events SampleExample.meta).
  - apply Forall_singleton. exists true. repeat split; cbv; congruence.
  - apply Forall_forall. intros e He. repeat (apply elem_of_cons in He as [->|He]); [| | |by apply elem_of_nil in He].
    all: split; [apply Forall_forall; intros b Hb; vm_compute in Hb; repeat (apply elem_of_cons in Hb as [->|Hb]; [split; cbv; congruence|]); by apply elem_of_nil in Hb
      |by vm_compute|intros b v; vm_compute; by intros [= <-] [= <-]].
  - lia.
  - split; done.
  - by vm_compute.
  - apply Forall_forall. intros a Ha. vm_compute in Ha.
    repeat (apply elem_of_cons in Ha as [->|Ha]; [by vm_compute|]). by apply elem_of_nil in Ha.
Defined.
