(* ===== verification/Aliases.v ===== *)
(** The flow alias cache of the agent
    (src/crates/agent/src/policy/flow_alias.rs): which packet keys belong to a
    flow, which of them are verified and may receive a verdict, and which
    commands were applied.  The iteration order of Rust's [HashMap] is the
    operation of the class [AliasOrder]; an [Instant] is a number of
    nanoseconds. *)

From S2P Require Import Prelude Topology Flow Normalization.

Definition DEFAULT_POLICY_FLOW_CAPACITY : Z := 8192.
Definition MIN_POLICY_FLOW_CAPACITY : Z := 1024.
Definition MAX_POLICY_FLOW_CAPACITY : Z := 16384.
Definition MAX_ALIASES_PER_FLOW : Z := 8.

Inductive FlowAliasError := CapacityFull | AliasLimitReached | FlowEnded.

Inductive AliasDirection := AliasUpload | AliasDownload | AliasUnshaped.
#[export] Instance AliasDirection_eq_dec : EqDecision AliasDirection.
Proof. solve_decision. Defined.

Record ShapeEvidence := mkEvidence {
  ev_controller_epoch : string;
  ev_revision : Z;
  ev_policy_ids : list string;
  ev_aliases : gmap FlowKey Z;
  ev_expires_monotonic_ns : Z;
}.

Record AliasEntry := mkAlias {
  keys : list FlowKey;
  observed : gset FlowKey;
  directions : gmap FlowKey AliasDirection;
  verified : gset FlowKey;
  unresolved : list FlowKey;
  client_mac : option string;
  client_ip : option IpAddr;
  default_client_ifindex : option Z;
  client_identity_conflict : bool;
  last_seen : Z;
  ended : bool;
  partial : bool;
  last_command_issued_at_ms : option Z;
  shape_evidence : option ShapeEvidence;
}.

Record PolicyFlowAliasCache := mkCache { entries : gmap string AliasEntry; capacity : Z }.

(** ** Field updates *)

Definition set_keys (e : AliasEntry) (ks : list FlowKey) : AliasEntry :=
  mkAlias ks (observed e) (directions e) (verified e) (unresolved e) (client_mac e) (client_ip e) (default_client_ifindex e)
    (client_identity_conflict e) (last_seen e) (ended e) (partial e) (last_command_issued_at_ms e) (shape_evidence e).
Definition set_observed (e : AliasEntry) (o : gset FlowKey) : AliasEntry :=
  mkAlias (keys e) o (directions e) (verified e) (unresolved e) (client_mac e) (client_ip e) (default_client_ifindex e)
    (client_identity_conflict e) (last_seen e) (ended e) (partial e) (last_command_issued_at_ms e) (shape_evidence e).
Definition set_directions (e : AliasEntry) (d : gmap FlowKey AliasDirection) : AliasEntry :=
  mkAlias (keys e) (observed e) d (verified e) (unresolved e) (client_mac e) (client_ip e) (default_client_ifindex e)
    (client_identity_conflict e) (last_seen e) (ended e) (partial e) (last_command_issued_at_ms e) (shape_evidence e).
Definition set_verified (e : AliasEntry) (v : gset FlowKey) : AliasEntry :=
  mkAlias (keys e) (observed e) (directions e) v (unresolved e) (client_mac e) (client_ip e) (default_client_ifindex e)
    (client_identity_conflict e) (last_seen e) (ended e) (partial e) (last_command_issued_at_ms e) (shape_evidence e).
Definition set_unresolved (e : AliasEntry) (u : list FlowKey) : AliasEntry :=
  mkAlias (keys e) (observed e) (directions e) (verified e) u (client_mac e) (client_ip e) (default_client_ifindex e)
    (client_identity_conflict e) (last_seen e) (ended e) (partial e) (last_command_issued_at_ms e) (shape_evidence e).
Definition set_client_mac (e : AliasEntry) (m : option string) (conflict : bool) : AliasEntry :=
  mkAlias (keys e) (observed e) (directions e) (verified e) (unresolved e) m (client_ip e) (default_client_ifindex e)
    conflict (last_seen e) (ended e) (partial e) (last_command_issued_at_ms e) (shape_evidence e).
Definition set_client_ip (e : AliasEntry) (ip : option IpAddr) : AliasEntry :=
  mkAlias (keys e) (observed e) (directions e) (verified e) (unresolved e) (client_mac e) ip (default_client_ifindex e)
    (client_identity_conflict e) (last_seen e) (ended e) (partial e) (last_command_issued_at_ms e) (shape_evidence e).
Definition set_ifindex (e : AliasEntry) (i : option Z) : AliasEntry :=
  mkAlias (keys e) (observed e) (directions e) (verified e) (unresolved e) (client_mac e) (client_ip e) i
    (client_identity_conflict e) (last_seen e) (ended e) (partial e) (last_command_issued_at_ms e) (shape_evidence e).
Definition set_last_seen (e : AliasEntry) (t : Z) : AliasEntry :=
  mkAlias (keys e) (observed e) (directions e) (verified e) (unresolved e) (client_mac e) (client_ip e) (default_client_ifindex e)
    (client_identity_conflict e) t (ended e) (partial e) (last_command_issued_at_ms e) (shape_evidence e).
Definition set_ended (e : AliasEntry) : AliasEntry :=
  mkAlias (keys e) (observed e) (directions e) (verified e) (unresolved e) (client_mac e) (client_ip e) (default_client_ifindex e)
    (client_identity_conflict e) (last_seen e) true (partial e) (last_command_issued_at_ms e) (shape_evidence e).
Definition set_partial (e : AliasEntry) : AliasEntry :=
  mkAlias (keys e) (observed e) (directions e) (verified e) (unresolved e) (client_mac e) (client_ip e) (default_client_ifindex e)
    (client_identity_conflict e) (last_seen e) (ended e) true (last_command_issued_at_ms e) (shape_evidence e).
Definition set_command (e : AliasEntry) (t : Z) : AliasEntry :=
  mkAlias (keys e) (observed e) (directions e) (verified e) (unresolved e) (client_mac e) (client_ip e) (default_client_ifindex e)
    (client_identity_conflict e) (last_seen e) (ended e) (partial e) (Some t) (shape_evidence e).
Definition set_evidence (e : AliasEntry) (s : ShapeEvidence) : AliasEntry :=
  mkAlias (keys e) (observed e) (directions e) (verified e) (unresolved e) (client_mac e) (client_ip e) (default_client_ifindex e)
    (client_identity_conflict e) (last_seen e) (ended e) (partial e) (last_command_issued_at_ms e) (Some s).

(** [unresolved.retain(|pending| pending != key)]. *)
Definition settle (e : AliasEntry) (k : FlowKey) : AliasEntry := set_unresolved e (filter (λ p, p ≠ k) (unresolved e)).
Definition add_direction (e : AliasEntry) (k : FlowKey) (d : AliasDirection) : AliasEntry := set_directions e (<[k := d]> (directions e)).

(** ** Keys and tuples *)

Definition alias_ip_bytes (ip : IpAddr) : list Z :=
  match ip with V4 a => be_bytes 4 a ++ replicate 12 0 | V6 a => be_bytes 16 a end.

Definition key_tuple (k : FlowKey) : option FlowTuple :=
  '(s, d) ← key_addresses k; Some (mkTuple (protocol k) s (source_port k) d (destination_port k)).

Definition key_with_tuple (template : FlowKey) (hook ifindex : Z) (t : FlowTuple) : FlowKey :=
  mkKey (ip_version template) (protocol template) (direction template) hook ifindex
    (alias_ip_bytes (tuple_source t)) (alias_ip_bytes (tuple_destination t)) (tuple_source_port t) (tuple_destination_port t).

Definition client_side_tuple (tracked : ConntrackEntry) (d : Direction) : FlowTuple :=
  match d with
  | Upload => original tracked
  | _ => if destination_nat tracked then reply tracked else reverse_tuple (original tracked)
  end.

Definition direct_client_tuple (k : FlowKey) (d : AliasDirection) (client_ip : option IpAddr) : option FlowTuple :=
  ip ← client_ip;
  let bytes := alias_ip_bytes ip in
  let client_side :=
    match d with
    | AliasUpload => bool_decide (source_address k = bytes)
    | AliasDownload => bool_decide (destination_address k = bytes)
    | AliasUnshaped => false
    end in
  if client_side then key_tuple k else None.

(** ** Operations on one entry *)

Definition insert_alias (e : AliasEntry) (alias : FlowKey) (d : AliasDirection) : AliasEntry :=
  if (negb (bool_decide (alias ∈ keys e)) && (MAX_ALIASES_PER_FLOW <=? zlen (keys e)))%bool then set_partial e
  else
    let e := if bool_decide (alias ∈ keys e) then e else set_keys e (keys e ++ [alias]) in
    add_direction (settle (set_verified e ({[alias]} ∪ verified e)) alias) alias d.

Definition record_unresolved (e : AliasEntry) (alias : FlowKey) : AliasEntry :=
  if (bool_decide (alias ∈ verified e) || bool_decide (alias ∈ unresolved e))%bool then e
  else if MAX_ALIASES_PER_FLOW <=? zlen (unresolved e) then set_partial e
  else set_unresolved e (unresolved e ++ [alias]).

(** The client's address claimed by an observation. *)
Definition observe_mac (e : AliasEntry) (mac : option string) : AliasEntry :=
  match mac with
  | None => e
  | Some mac =>
    match client_identity_conflict e, client_mac e with
    | true, _ => e
    | false, Some current =>
      if bool_decide (current = mac) then e else set_partial (set_client_mac e None true)
    | false, None => set_client_mac e (Some mac) false
    end
  end.

Definition observe_known (e : AliasEntry) (k : FlowKey) (mac : option string) (now : Z) : AliasEntry * result FlowAliasError Z :=
  if ended e then (e, Err FlowEnded)
  else
    let e := observe_mac (set_last_seen e now) mac in
    if bool_decide (k ∈ keys e) then (set_observed e ({[k]} ∪ observed e), Ok (zlen (keys e)))
    else if MAX_ALIASES_PER_FLOW <=? zlen (keys e) then (set_partial e, Err AliasLimitReached)
    else (set_keys (set_observed e ({[k]} ∪ observed e)) (keys e ++ [k]), Ok (zlen (keys e) + 1)).

Definition new_entry (k : FlowKey) (mac : option string) (now : Z) : AliasEntry :=
  mkAlias [k] {[k]} ∅ ∅ [] mac None None false now false false None None.

(** [(AliasDirection, hook)] of a side of the connection. *)
Definition alias_direction (d : Direction) : AliasDirection :=
  match d with Upload => AliasUpload | Download => AliasDownload | _ => AliasUnshaped end.
Definition client_hook (d : Direction) : Z := match d with Upload => 1 | _ => 2 end.

(** The key of the opposite direction, as recorded where nothing proves it. *)
Definition pending_key (k : FlowKey) (hook ifindex : Z) : FlowKey :=
  mkKey (ip_version k) (protocol k) (direction k) hook ifindex (destination_address k) (source_address k) (destination_port k) (source_port k).

(** The tuple on the client side of an observation, if anything proves it. *)
Definition client_tuple (k : FlowKey) (d : Direction) (ip : option IpAddr) (client_ifindex : Z) (tracked : option ConntrackEntry) : option FlowTuple :=
  if ((hook k =? client_hook d) && (ifindex k =? client_ifindex))%bool then key_tuple k
  else match tracked with
  | Some t => Some (client_side_tuple t d)
  | None => direct_client_tuple k (alias_direction d) ip
  end.

(** The body for upload and download observations of a key of the flow. *)
Definition observe_shaped (e : AliasEntry) (k : FlowKey) (d : Direction) (ip : option IpAddr) (egress : option (Z * Z))
    (tracked : option ConntrackEntry) : AliasEntry :=
  let e := add_direction e k (alias_direction d) in
  let e := match ip with Some _ => set_client_ip e ip | None => e end in
  let e := settle e k in
  match egress with
  | None => e
  | Some (_, client_ifindex) =>
    let e := set_ifindex e (Some client_ifindex) in
    match client_tuple k d ip client_ifindex tracked with
    | None => record_unresolved e k
    | Some t =>
      let e := insert_alias e (key_with_tuple k (client_hook d) client_ifindex t) (alias_direction d) in
      let o := opposite d in
      match tracked with
      | Some c => insert_alias e (key_with_tuple k (client_hook o) client_ifindex (client_side_tuple c o)) (alias_direction o)
      | None => record_unresolved e (pending_key k (client_hook o) client_ifindex)
      end
    end
  end.

Definition observe_entry (e : AliasEntry) (k : FlowKey) (d : Direction) (ip : option IpAddr) (egress : option (Z * Z))
    (tracked : option ConntrackEntry) : AliasEntry :=
  if bool_decide (k ∈ keys e) then
    match d with
    | Upload | Download => observe_shaped e k d ip egress tracked
    | _ => add_direction e k AliasUnshaped
    end
  else e.

Definition add_proxy_return (e : AliasEntry) (alias : FlowKey) : AliasEntry * result FlowAliasError () :=
  if ended e then (e, Err FlowEnded)
  else if bool_decide (alias ∈ keys e) then
    (add_direction (set_verified e ({[alias]} ∪ verified e)) alias AliasDownload, Ok ())
  else if MAX_ALIASES_PER_FLOW <=? zlen (keys e) then (set_partial e, Err AliasLimitReached)
  else
    let e := set_keys e (keys e ++ [alias]) in
    (add_direction (settle (set_verified e ({[alias]} ∪ verified e)) alias) alias AliasDownload, Ok ()).

(** ** The cache *)

Definition cache_new (capacity : Z) : PolicyFlowAliasCache :=
  mkCache ∅ (Z.max MIN_POLICY_FLOW_CAPACITY (Z.min capacity MAX_POLICY_FLOW_CAPACITY)).

Definition set_entries (c : PolicyFlowAliasCache) (m : gmap string AliasEntry) : PolicyFlowAliasCache := mkCache m (capacity c).

Definition observe_with_client (c : PolicyFlowAliasCache) (id : string) (k : FlowKey) (mac : option string) (now : Z)
    : PolicyFlowAliasCache * result FlowAliasError Z :=
  let mac := to_ascii_lowercase <$> mac in
  match entries c !! id with
  | Some e => let '(e, r) := observe_known e k mac now in (set_entries c (<[id := e]> (entries c)), r)
  | None =>
    if capacity c <=? Z.of_nat (size (entries c)) then (c, Err CapacityFull)
    else (set_entries c (<[id := new_entry k mac now]> (entries c)), Ok 1)
  end.

Definition observe_direction (c : PolicyFlowAliasCache) (id : string) (k : FlowKey) (d : Direction) (ip : option IpAddr)
    (egress : option (Z * Z)) (tracked : option ConntrackEntry) : PolicyFlowAliasCache :=
  set_entries c (alter (λ e, observe_entry e k d ip egress tracked) id (entries c)).

Definition insert_proxy_return (c : PolicyFlowAliasCache) (id : string) (alias : FlowKey) : PolicyFlowAliasCache * result FlowAliasError () :=
  match entries c !! id with
  | None => (c, Err FlowEnded)
  | Some e => let '(e, r) := add_proxy_return e alias in (set_entries c (<[id := e]> (entries c)), r)
  end.

(** The order in which the map of directions is iterated: unspecified. *)
Class AliasOrder := { alias_order : gmap FlowKey AliasDirection → list (FlowKey * AliasDirection) }.
Class AliasOrderLaw `{AliasOrder} := { alias_order_perm m : alias_order m ≡ₚ map_to_list m }.

Section cache.
Context `{AliasOrder}.

Definition shaped_observation (kd : FlowKey * AliasDirection) : option (FlowKey * Direction) :=
  match snd kd with
  | AliasUpload => Some (fst kd, Upload)
  | AliasDownload => Some (fst kd, Download)
  | AliasUnshaped => None
  end.

(** What has to be observed again, with the interface of the client. *)
Definition reconcile_plan (e : AliasEntry) (client_ifindex : option Z) : option (list (FlowKey * Direction) * Z) :=
  if ended e then None
  else
    i ← match client_ifindex with Some i => Some i | None => default_client_ifindex e end;
    let side h := existsb (λ k, (hook k =? h) && (ifindex k =? i))%bool (keys e) in
    if (bool_decide (unresolved e = []) && side 1 && side 2)%bool then None
    else
      let observations := omap shaped_observation (alias_order (directions e)) in
      if bool_decide (observations = []) then None else Some (observations, i).

Definition reconcile_entry (e : AliasEntry) (client_ifindex : option Z) (conntrack : ConntrackContext) : AliasEntry :=
  match reconcile_plan e client_ifindex with
  | None => e
  | Some (observations, i) =>
    foldl (λ e' '(k, d), observe_entry e' k d (client_ip e) (Some (i, i)) (conntrack_resolve conntrack k))
      (set_unresolved e []) observations
  end.

Definition reconcile_for_command (c : PolicyFlowAliasCache) (id : string) (client_ifindex : option Z) (conntrack : ConntrackContext)
    : PolicyFlowAliasCache :=
  set_entries c (alter (λ e, reconcile_entry e client_ifindex conntrack) id (entries c)).

End cache.

Definition aliases (c : PolicyFlowAliasCache) (id : string) : option (list FlowKey) := keys <$> entries c !! id.

Definition endpoint_block_aliases (c : PolicyFlowAliasCache) (id : string) : list FlowKey :=
  match entries c !! id with
  | None => []
  | Some e =>
    if (client_identity_conflict e || bool_decide (client_mac e = None))%bool then []
    else filter (λ k, hook k = 1 ∧ Some (ifindex k) = default_client_ifindex e ∧ k ∈ verified e ∧
                      directions e !! k = Some AliasUpload ∧ fst <$> key_addresses k = client_ip e) (keys e)
  end.

Definition shape_direction (c : PolicyFlowAliasCache) (id : string) (k : FlowKey) : option AliasDirection :=
  e ← entries c !! id; directions e !! k.

Definition entry_client_mac (c : PolicyFlowAliasCache) (id : string) : option string := e ← entries c !! id; client_mac e.
Definition is_ended (c : PolicyFlowAliasCache) (id : string) : bool := match entries c !! id with Some e => ended e | None => false end.
Definition is_partial (c : PolicyFlowAliasCache) (id : string) : bool := match entries c !! id with Some e => partial e | None => false end.
Definition has_unverified_aliases (c : PolicyFlowAliasCache) (id : string) : bool :=
  match entries c !! id with Some e => negb (bool_decide (unresolved e = [])) | None => false end.

Definition remove (c : PolicyFlowAliasCache) (id : string) : PolicyFlowAliasCache := set_entries c (delete id (entries c)).
Definition mark_ended (c : PolicyFlowAliasCache) (id : string) : PolicyFlowAliasCache := set_entries c (alter set_ended id (entries c)).
Definition clear (c : PolicyFlowAliasCache) : PolicyFlowAliasCache := set_entries c ∅.

(** [policy_ids.sort_unstable(); policy_ids.dedup()]. *)
Definition sorted_ids (ids : list string) : list string := dedup (sort_by str_leb ids).

Definition remember_shape (c : PolicyFlowAliasCache) (id epoch : string) (revision : Z) (policy_ids : list string)
    (tags : list (FlowKey * Z)) (expires : Z) : PolicyFlowAliasCache :=
  set_entries c (alter (λ e, set_evidence e (mkEvidence epoch revision (sorted_ids policy_ids)
    (foldl (λ m '(k, t), <[k := t]> m) ∅ tags) expires)) id (entries c)).

Definition peer_shape_covers (c : PolicyFlowAliasCache) (id peer : string) (alias : FlowKey) (installed_tag : Z) (mac epoch : string)
    (revision : Z) (policy_ids : list string) (now : Z) : bool :=
  if bool_decide (id = peer) then false
  else match entries c !! peer with
  | None => false
  | Some e =>
    match shape_evidence e with
    | None => false
    | Some s =>
      (negb (ended e) && negb (client_identity_conflict e)
       && match client_mac e with Some m => eq_ignore_ascii_case m mac | None => false end
       && (ev_revision s =? revision) && bool_decide (ev_controller_epoch s = epoch)
       && bool_decide (ev_policy_ids s = sorted_ids policy_ids) && (now <? ev_expires_monotonic_ns s)
       && bool_decide (ev_aliases s !! alias = Some installed_tag) && bool_decide (alias ∈ verified e))%bool
    end
  end.

Definition stale (e : AliasEntry) (issued_at_ms : Z) : bool :=
  match last_command_issued_at_ms e with Some last => issued_at_ms <? last | None => false end.
Definition command_is_stale (c : PolicyFlowAliasCache) (id : string) (issued_at_ms : Z) : bool :=
  match entries c !! id with None => true | Some e => stale e issued_at_ms end.
Definition record_command (c : PolicyFlowAliasCache) (id : string) (issued_at_ms : Z) : PolicyFlowAliasCache * bool :=
  match entries c !! id with
  | None => (c, false)
  | Some e => if stale e issued_at_ms then (c, false) else (set_entries c (<[id := set_command e issued_at_ms]> (entries c)), true)
  end.

(** [now.saturating_duration_since(last_seen) < timeout]. *)
Definition kept (now tcp_idle udp_idle : Z) (e : AliasEntry) : bool :=
  Z.max 0 (now - last_seen e) <? (if forallb (λ k, protocol k =? 17) (keys e) then udp_idle else tcp_idle).
Definition prune (c : PolicyFlowAliasCache) (now tcp_idle udp_idle : Z) : PolicyFlowAliasCache * Z :=
  let retained := filter (λ p : string * AliasEntry, kept now tcp_idle udp_idle (snd p) = true) (entries c) in
  (set_entries c retained, Z.of_nat (size (entries c)) - Z.of_nat (size retained)).

(** ** Histories *)

Inductive Op :=
| Observe (id : string) (k : FlowKey) (mac : option string) (now : Z)
| ObserveDirection (id : string) (k : FlowKey) (d : Direction) (ip : option IpAddr) (egress : option (Z * Z)) (tracked : option ConntrackEntry)
| ReconcileForCommand (id : string) (client_ifindex : option Z) (conntrack : ConntrackContext)
| InsertProxyReturn (id : string) (alias : FlowKey)
| RememberShape (id epoch : string) (revision : Z) (policy_ids : list string) (tags : list (FlowKey * Z)) (expires : Z)
| RecordCommand (id : string) (issued_at_ms : Z)
| MarkEnded (id : string)
| Remove (id : string)
| Clear
| Prune (now tcp_idle udp_idle : Z).

Section histories.
Context `{AliasOrder}.

Definition step (c : PolicyFlowAliasCache) (op : Op) : PolicyFlowAliasCache :=
  match op with
  | Observe id k mac now => fst (observe_with_client c id k mac now)
  | ObserveDirection id k d ip egress tracked => observe_direction c id k d ip egress tracked
  | ReconcileForCommand id i conntrack => reconcile_for_command c id i conntrack
  | InsertProxyReturn id alias => fst (insert_proxy_return c id alias)
  | RememberShape id epoch revision ids tags expires => remember_shape c id epoch revision ids tags expires
  | RecordCommand id t => fst (record_command c id t)
  | MarkEnded id => mark_ended c id
  | Remove id => remove c id
  | Clear => clear c
  | Prune now tcp udp => fst (prune c now tcp udp)
  end.
Definition run (c : PolicyFlowAliasCache) (ops : list Op) : PolicyFlowAliasCache := foldl step c ops.

(** What an operation does to an entry of the flow it names. *)
Definition touch (op : Op) (e : AliasEntry) : AliasEntry :=
  match op with
  | Observe _ k mac now => fst (observe_known e k (to_ascii_lowercase <$> mac) now)
  | ObserveDirection _ k d ip egress tracked => observe_entry e k d ip egress tracked
  | ReconcileForCommand _ i conntrack => reconcile_entry e i conntrack
  | InsertProxyReturn _ alias => fst (add_proxy_return e alias)
  | RememberShape _ epoch revision ids tags expires =>
    set_evidence e (mkEvidence epoch revision (sorted_ids ids) (foldl (λ m '(k, t), <[k := t]> m) ∅ tags) expires)
  | RecordCommand _ t => if stale e t then e else set_command e t
  | MarkEnded _ => set_ended e
  | Remove _ | Clear | Prune _ _ _ => e
  end.
Definition names (op : Op) (id : string) : Prop :=
  match op with
  | Observe i _ _ _ | ObserveDirection i _ _ _ _ _ | ReconcileForCommand i _ _ | InsertProxyReturn i _
  | RememberShape i _ _ _ _ _ | RecordCommand i _ | MarkEnded i | Remove i => i = id
  | Clear | Prune _ _ _ => False
  end.

Lemma alter_entry (f : AliasEntry → AliasEntry) (m : gmap string AliasEntry) id id' e :
  alter f id m !! id' = Some e → ∃ e0, m !! id' = Some e0 ∧ (e = e0 ∨ id = id' ∧ e = f e0).
Proof. rewrite lookup_alter_Some. naive_solver. Qed.

Lemma insert_entry (m : gmap string AliasEntry) id id' e0 e1 e :
  m !! id = Some e0 → <[id := e1]> m !! id' = Some e → ∃ e2, m !! id' = Some e2 ∧ (e = e2 ∨ id = id' ∧ e2 = e0 ∧ e = e1).
Proof. intros Hid. rewrite lookup_insert_Some. naive_solver. Qed.

(** Entries are kept, changed by an operation that names them, or created. *)
Lemma step_entry c op id e : entries (step c op) !! id = Some e →
  (∃ e0, entries c !! id = Some e0 ∧ (e = e0 ∨ names op id ∧ e = touch op e0)) ∨
  (∃ k mac now, op = Observe id k mac now ∧ entries c !! id = None ∧ e = new_entry k (to_ascii_lowercase <$> mac) now).
Proof.
  destruct op as [i k mac now|i k d ip eg tr|i ix ct|i a|i ep rv ids tags ex|i t|i|i| |now tcp udp]; cbn [step].
  - unfold observe_with_client. destruct (entries c !! i) as [e0|] eqn:Hi.
    + destruct (observe_known _ _ _ _) as [e1 r] eqn:Hk. cbn. intros (e2 & He2 & Hc)%(insert_entry _ _ _ _ _ _ Hi). left.
      exists e2. split; [done|]. destruct Hc as [->|(-> & -> & ->)]; [by left|]. right. split; [done|]. cbn. by rewrite Hk.
    + case_match; cbn; [eauto|]. rewrite lookup_insert_Some. intros [[<- <-]|[_ He]]; [|eauto]. right. by exists k, mac, now.
  - intros (e0 & He0 & Hc)%alter_entry. left. eauto.
  - intros (e0 & He0 & Hc)%alter_entry. left. eauto.
  - unfold insert_proxy_return. destruct (entries c !! i) as [e0|] eqn:Hi; [|cbn; eauto].
    destruct (add_proxy_return _ _) as [e1 r] eqn:Hk. cbn. intros (e2 & He2 & Hc)%(insert_entry _ _ _ _ _ _ Hi). left.
    exists e2. split; [done|]. destruct Hc as [->|(-> & -> & ->)]; [by left|]. right. split; [done|]. cbn. by rewrite Hk.
  - intros (e0 & He0 & Hc)%alter_entry. left. eauto.
  - unfold record_command. destruct (entries c !! i) as [e0|] eqn:Hi; [|cbn; eauto].
    destruct (stale e0 t) eqn:Hs; cbn; [eauto|]. intros (e2 & He2 & Hc)%(insert_entry _ _ _ _ _ _ Hi). left. exists e2. split; [done|].
    destruct Hc as [->|(-> & -> & ->)]; [by left|]. right. split; [done|]. by rewrite Hs.
  - intros (e0 & He0 & Hc)%alter_entry. left. eauto.
  - cbn. intros [_ He]%lookup_delete_Some. eauto.
  - by cbn.
  - cbn. intros [He _]%map_lookup_filter_Some. eauto.
Qed.

(** An invariant of entries over histories. *)
Lemma run_entries (P : list Op → string → AliasEntry → Prop) capacity ops :
  (∀ h op id e, P h id e → P (h ++ [op]) id e) →
  (∀ h op id e, names op id → P h id e → P (h ++ [op]) id e → P (h ++ [op]) id (touch op e)) →
  (∀ h id k mac now, P (h ++ [Observe id k mac now]) id (new_entry k (to_ascii_lowercase <$> mac) now)) →
  ∀ id e, entries (run (cache_new capacity) ops) !! id = Some e → P ops id e.
Proof.
  intros Hmono Htouch Hnew. induction ops as [|op ops IH] using rev_ind; [done|]. intros id e.
  unfold run. rewrite foldl_app. cbn. intros [(e0 & He0 & Hc)|(k & mac & now & -> & _ & ->)]%step_entry; [|apply Hnew].
  specialize (IH id e0 He0). destruct Hc as [->|[Hn ->]]; auto.
Qed.

End histories.

(** ** Bounds and consistency of the entries *)

Record entry_ok (e : AliasEntry) : Prop := {
  eo_keys : NoDup (keys e) ∧ 1 ≤ zlen (keys e) ≤ MAX_ALIASES_PER_FLOW;
  eo_observed : ∀ k, k ∈ observed e → k ∈ keys e;
  eo_directions : ∀ k, is_Some (directions e !! k) → k ∈ keys e;
  eo_verified : ∀ k, k ∈ verified e → is_Some (directions e !! k);
  eo_unresolved : NoDup (unresolved e) ∧ zlen (unresolved e) ≤ MAX_ALIASES_PER_FLOW;
  eo_conflict : client_identity_conflict e = true → client_mac e = None ∧ partial e = true;
}.

Ltac fields :=
  cbn [keys observed directions verified unresolved client_mac client_ip default_client_ifindex client_identity_conflict last_seen
       ended partial last_command_issued_at_ms shape_evidence set_keys set_observed set_directions set_verified set_unresolved
       set_client_mac set_client_ip set_ifindex set_last_seen set_ended set_partial set_command set_evidence settle add_direction fst snd] in *.

(** Updates of the fields the invariant does not constrain. *)
Lemma entry_ok_ext e e' : keys e' = keys e → observed e' = observed e → directions e' = directions e → verified e' = verified e →
  unresolved e' = unresolved e → client_identity_conflict e' = client_identity_conflict e → client_mac e' = client_mac e →
  (partial e = true → partial e' = true) → entry_ok e → entry_ok e'.
Proof. intros Hk Ho Hd Hv Hu Hc Hm Hp []. split; rewrite ?Hk, ?Ho, ?Hd, ?Hv, ?Hu, ?Hc, ?Hm; try done. naive_solver. Qed.

Lemma set_partial_ok e : entry_ok e → entry_ok (set_partial e).
Proof. by apply entry_ok_ext. Qed.

Lemma settle_ok e k : entry_ok e → entry_ok (settle e k).
Proof.
  intros []. split; fields; try done. destruct eo_unresolved0 as [Hnd Hl]. split; [by apply NoDup_filter|].
  pose proof (length_filter (λ p, p ≠ k) (unresolved e)). unfold zlen in *. lia.
Qed.

Lemma add_direction_ok e k d : k ∈ keys e → entry_ok e → entry_ok (add_direction e k d).
Proof.
  intros Hin []. split; fields; try done.
  - intros k'. destruct (decide (k' = k)) as [->|]; [done|]. rewrite lookup_insert_ne by done. auto.
  - intros k' Hk'. destruct (decide (k' = k)) as [->|]; [rewrite lookup_insert_eq; eauto|]. rewrite lookup_insert_ne by done. auto.
Qed.

Lemma push_key_ok e k : k ∉ keys e → zlen (keys e) < MAX_ALIASES_PER_FLOW → entry_ok e → entry_ok (set_keys e (keys e ++ [k])).
Proof.
  intros Hk Hl []. split; fields; try done.
  - rewrite NoDup_app, zlen_app. change (zlen [k]) with 1. split; [|lia]. split_and!; [tauto|intros x Hx ->%list_elem_of_singleton; done|apply NoDup_singleton].
  - intros k' Hk'. apply elem_of_app. auto.
  - intros k' Hk'. apply elem_of_app. auto.
Qed.

(** A key becomes verified together with its direction. *)
Lemma verify_ok e k d : k ∈ keys e → entry_ok e → entry_ok (add_direction (set_verified e ({[k]} ∪ verified e)) k d).
Proof.
  intros Hin Hok. pose proof (add_direction_ok e k d Hin Hok) as []. split; fields; try done.
  intros k' [->%elem_of_singleton|Hk']%elem_of_union; [rewrite lookup_insert_eq; eauto|auto].
Qed.

Lemma verify_settled_ok e k d : k ∈ keys e → entry_ok e → entry_ok (add_direction (settle (set_verified e ({[k]} ∪ verified e)) k) k d).
Proof.
  intros Hin Hok. apply (entry_ok_ext (settle (add_direction (set_verified e ({[k]} ∪ verified e)) k d) k)); try done.
  by apply settle_ok, verify_ok.
Qed.

Lemma full_false e : (MAX_ALIASES_PER_FLOW <=? zlen (keys e)) = false → zlen (keys e) < MAX_ALIASES_PER_FLOW.
Proof. by rewrite Z.leb_gt. Qed.

Lemma insert_alias_ok e k d : entry_ok e → entry_ok (insert_alias e k d).
Proof.
  intros Hok. unfold insert_alias. case_bool_decide as Hk; cbn [negb andb].
  - by apply verify_settled_ok.
  - destruct (_ <=? _) eqn:Hl; [by apply set_partial_ok|]. apply verify_settled_ok; [fields; apply elem_of_app; right; left|].
    apply push_key_ok; [done|by apply full_false|done].
Qed.

Lemma record_unresolved_ok e k : entry_ok e → entry_ok (record_unresolved e k).
Proof.
  intros Hok. unfold record_unresolved. destruct (_ || _)%bool eqn:Hg; [done|]. destruct (_ <=? _) eqn:Hl; [by apply set_partial_ok|].
  apply orb_false_iff in Hg as [_ Hu%bool_decide_eq_false]. apply Z.leb_gt in Hl. destruct Hok. split; fields; try done.
  rewrite NoDup_app, zlen_app. change (zlen [k]) with 1. split; [|lia].
  split_and!; [tauto|intros x Hx ->%list_elem_of_singleton; done|apply NoDup_singleton].
Qed.

Lemma observe_mac_ok e mac : entry_ok e → entry_ok (observe_mac e mac) ∧ keys (observe_mac e mac) = keys e ∧ observed (observe_mac e mac) = observed e.
Proof.
  intros Hok. unfold observe_mac. repeat case_match; try done; (split; [|done]); destruct Hok; split; fields; naive_solver.
Qed.

Lemma observe_known_ok e k mac now : entry_ok e → entry_ok (fst (observe_known e k mac now)).
Proof.
  intros Hok. unfold observe_known. destruct (ended e); [done|].
  assert (entry_ok (set_last_seen e now)) as Hok1 by (by apply (entry_ok_ext e)).
  destruct (observe_mac_ok _ mac Hok1) as (Hok2 & _). set (e2 := observe_mac _ _) in *. clearbody e2.
  case_bool_decide as Hk; [|destruct (_ <=? _) eqn:Hl]; fields.
  - destruct Hok2. split; fields; try done. intros k' [->%elem_of_singleton|Hk']%elem_of_union; auto.
  - by apply set_partial_ok.
  - pose proof (push_key_ok _ _ Hk (full_false _ Hl) Hok2) as []. split; fields; try done.
    intros k' [->%elem_of_singleton|Hk']%elem_of_union; [apply elem_of_app; right; left|auto].
Qed.

Lemma observe_entry_ok e k d ip egress tracked : entry_ok e → entry_ok (observe_entry e k d ip egress tracked).
Proof.
  intros Hok. unfold observe_entry. case_bool_decide as Hk; [|done].
  assert (∀ d, entry_ok (observe_shaped e k d ip egress tracked)) as Hs; [|destruct d; [apply Hs|apply Hs|by apply add_direction_ok..]].
  clear d. intros d. unfold observe_shaped.
  assert (∀ e1, e1 = add_direction e k (alias_direction d) → entry_ok (match ip with Some _ => set_client_ip e1 ip | None => e1 end)) as Hok1.
  { intros e1 ->. pose proof (add_direction_ok e k (alias_direction d) Hk Hok) as Hok1. destruct ip; [|done]. eapply entry_ok_ext; [..|exact Hok1]; done. }
  specialize (Hok1 _ eq_refl). apply (settle_ok _ k) in Hok1. set (e1 := settle _ k) in *. clearbody e1.
  destruct egress as [[w i]|]; [|done]. assert (entry_ok (set_ifindex e1 (Some i))) as Hok2 by (by apply (entry_ok_ext e1)).
  case_match; [|by apply record_unresolved_ok]. destruct tracked.
  - by apply insert_alias_ok, insert_alias_ok.
  - by apply record_unresolved_ok, insert_alias_ok.
Qed.

Lemma add_proxy_return_ok e k : entry_ok e → entry_ok (fst (add_proxy_return e k)).
Proof.
  intros Hok. unfold add_proxy_return. destruct (ended e); [done|]. case_bool_decide as Hk; cbn [fst]; [by apply verify_ok|].
  destruct (_ <=? _) eqn:Hl; cbn [fst]; [by apply set_partial_ok|].
  apply verify_settled_ok; [fields; apply elem_of_app; right; left|]. by apply push_key_ok; [|apply full_false|].
Qed.

Lemma reconcile_entry_ok `{AliasOrder} e i ct : entry_ok e → entry_ok (reconcile_entry e i ct).
Proof.
  intros Hok. unfold reconcile_entry. destruct (reconcile_plan e i) as [[os x]|]; [|done].
  generalize (client_ip e) as ip. intros ip. assert (entry_ok (set_unresolved e [])) as Hok1.
  { destruct Hok. split; fields; try done. split; [constructor|done]. }
  revert Hok1. generalize (set_unresolved e []). clear. induction os as [|[k d] os IH]; intros e Hok; [done|]. cbn. by apply IH, observe_entry_ok.
Qed.

Lemma touch_ok `{AliasOrder} op e : entry_ok e → entry_ok (touch op e).
Proof.
  intros Hok. destruct op; cbn [touch]; try done.
  - by apply observe_known_ok.
  - by apply observe_entry_ok.
  - by apply reconcile_entry_ok.
  - by apply add_proxy_return_ok.
  - by apply (entry_ok_ext e).
  - case_match; [done|]. by apply (entry_ok_ext e).
  - by apply (entry_ok_ext e).
Qed.

Lemma new_entry_ok k mac now : entry_ok (new_entry k mac now).
Proof.
  split; cbn [new_entry keys observed directions verified unresolved client_identity_conflict client_mac partial]; try done.
  - split; [apply NoDup_singleton|done].
  - intros k' ->%elem_of_singleton. left.
  - intros k'. rewrite lookup_empty. by intros [].
  - split; [constructor|done].
Qed.

Lemma step_capacity `{AliasOrder} c op : capacity (step c op) = capacity c.
Proof.
  destruct op; try done; cbn; unfold observe_with_client, insert_proxy_return, record_command; repeat case_match; try done.
Qed.

Lemma size_alter_entries (f : AliasEntry → AliasEntry) id (m : gmap string AliasEntry) : size (alter f id m) = size m.
Proof. by rewrite <- !size_dom, dom_alter_L. Qed.

Lemma step_size `{AliasOrder} c op : 1 ≤ capacity c → Z.of_nat (size (entries c)) ≤ capacity c → Z.of_nat (size (entries (step c op))) ≤ capacity c.
Proof.
  intros Hc Hs. destruct op; cbn [step].
  - unfold observe_with_client. destruct (entries c !! id) eqn:Hi.
    + destruct (observe_known _ _ _ _). cbn. by rewrite map_size_insert_Some by eauto.
    + destruct (_ <=? _) eqn:Hl; [done|]. cbn. rewrite map_size_insert_None by done. apply Z.leb_gt in Hl. lia.
  - cbn. by rewrite size_alter_entries.
  - cbn. by rewrite size_alter_entries.
  - unfold insert_proxy_return. destruct (entries c !! id) eqn:Hi; [|done]. destruct (add_proxy_return _ _). cbn. by rewrite map_size_insert_Some by eauto.
  - cbn. by rewrite size_alter_entries.
  - unfold record_command. destruct (entries c !! id) eqn:Hi; [|done]. case_match; [done|]. cbn. by rewrite map_size_insert_Some by eauto.
  - cbn. by rewrite size_alter_entries.
  - cbn. pose proof (map_subseteq_size _ _ (delete_subseteq (entries c) id)). lia.
  - cbn. rewrite map_size_empty. lia.
  - cbn. pose proof (map_subseteq_size _ _ (map_filter_subseteq (λ p : string * AliasEntry, kept now tcp_idle udp_idle p.2 = true) (entries c))). lia.
Qed.

(** C37: Whatever is observed, reconciled, commanded and pruned in whatever
    order, the cache holds at most its capacity of flows, which is between 1024
    and 16384, and every flow has between one and eight distinct packet keys.
    Only keys of the flow are observed, have a direction or are verified, every
    verified key has a direction, at most eight distinct keys are unresolved,
    and a flow claimed by two clients belongs to neither and is partial. *)
Theorem alias_cache_invariant `{AliasOrder} n ops :
  let c := run (cache_new n) ops in
  MIN_POLICY_FLOW_CAPACITY ≤ capacity c ≤ MAX_POLICY_FLOW_CAPACITY ∧
  Z.of_nat (size (entries c)) ≤ capacity c ∧
  map_Forall (λ _, entry_ok) (entries c).
Proof.
  intros c. split; [|split].
  - assert (capacity c = capacity (cache_new n)) as ->.
    { subst c. induction ops as [|op ops IH] using rev_ind; [done|]. unfold run. rewrite foldl_app. cbn. by rewrite step_capacity. }
    cbn. unfold MIN_POLICY_FLOW_CAPACITY, MAX_POLICY_FLOW_CAPACITY. lia.
  - subst c. assert (1 ≤ capacity (run (cache_new n) ops) ∧ Z.of_nat (size (entries (run (cache_new n) ops))) ≤ capacity (run (cache_new n) ops)) as [_ Hs]; [|exact Hs].
    induction ops as [|op ops [IH1 IH2]] using rev_ind.
    + cbn. rewrite map_size_empty. unfold MIN_POLICY_FLOW_CAPACITY, MAX_POLICY_FLOW_CAPACITY. lia.
    + unfold run in *. rewrite foldl_app. cbn. rewrite step_capacity. split; [done|]. by apply step_size.
  - intros id e. apply (run_entries (λ _ _, entry_ok)).
    + done.
    + intros. by apply touch_ok.
    + intros. apply new_entry_ok.
Qed.

(** ** Proxy return paths *)

Record ProxyReturnResolution := mkResolution { proxy_aliases : list FlowKey; expected : bool; proxy_unresolved : bool }.
Definition no_resolution : ProxyReturnResolution := mkResolution [] false false.

(** The interface of the client, where a key on the egress hook has it. *)
Definition delivery_ifindex (aliases : list FlowKey) : Z :=
  match find (λ a, hook a =? 2) aliases with Some a => ifindex a | None => 0 end.

(** A return path was found for an alias. *)
Definition add_return (client_ifindex : Z) (alias : FlowKey) (t : FlowTuple) (r : ProxyReturnResolution) : ProxyReturnResolution :=
  let i := if negb (client_ifindex =? 0) then client_ifindex else ifindex alias in
  if i =? 0 then mkResolution (proxy_aliases r) true true
  else
    let proxy := key_with_tuple alias 2 i t in
    mkResolution (if bool_decide (proxy ∈ proxy_aliases r) then proxy_aliases r else proxy_aliases r ++ [proxy]) true (proxy_unresolved r).

(** A TCP connection redirected to a socket of the gateway itself. *)
Definition is_redirect (topology : TopologySnapshot) (t : FlowTuple) (e : ConntrackEntry) : bool :=
  ((bool_decide (original e = t) || bool_decide (reverse_tuple (original e) = t))
   && (tuple_protocol (original e) =? 6) && (tuple_protocol (reply e) =? 6) && destination_nat e
   && bool_decide (tuple_destination (reply e) = tuple_source (original e))
   && (tuple_destination_port (reply e) =? tuple_source_port (original e))
   && is_local topology (tuple_source (reply e)) && negb (is_local topology (tuple_source (original e)))
   && negb (is_local topology (tuple_destination (original e))))%bool.

Definition proxy_return_step (conntrack : ConntrackContext) (topology : TopologySnapshot) (client_ifindex : Z)
    (r : ProxyReturnResolution) (alias : FlowKey) : ProxyReturnResolution :=
  match key_tuple alias, conntrack_resolve conntrack alias with
  | Some t, Some e => if is_redirect topology t e then add_return client_ifindex alias (reply e) r else r
  | _, _ => r
  end.

Definition proxy_return_aliases (aliases : list FlowKey) (conntrack : ConntrackContext) (topology : TopologySnapshot) : ProxyReturnResolution :=
  foldl (proxy_return_step conntrack topology (delivery_ifindex aliases)) no_resolution aliases.

(** [ProxySocketContext::by_client]. *)
Abbreviation ProxySocketContext := (gmap (IpAddr * Z) (IpAddr * Z)).

Definition is_unspecified (a : IpAddr) : bool := addr_val a =? 0.

Definition proxy_socket_side (sockets : ProxySocketContext) (topology : TopologySnapshot) (client_ifindex : Z) (alias : FlowKey)
    (r : ProxyReturnResolution) (side : IpAddr * Z * IpAddr) : ProxyReturnResolution :=
  let '(client, port, other) := side in
  if (is_local topology client || is_unspecified other)%bool then r
  else match sockets !! (client, port) with
  | None => r
  | Some (proxy_ip, proxy_port) =>
    if (negb (is_local topology proxy_ip) || bool_decide (proxy_ip = client))%bool then r
    else add_return client_ifindex alias (mkTuple (protocol alias) proxy_ip proxy_port client port) r
  end.

Definition proxy_socket_step (sockets : ProxySocketContext) (topology : TopologySnapshot) (client_ifindex : Z)
    (r : ProxyReturnResolution) (alias : FlowKey) : ProxyReturnResolution :=
  match key_addresses alias with
  | None => r
  | Some (s, d) =>
    foldl (proxy_socket_side sockets topology client_ifindex alias) r [(s, source_port alias, d); (d, destination_port alias, s)]
  end.

Definition proxy_socket_return_aliases (aliases : list FlowKey) (sockets : ProxySocketContext) (topology : TopologySnapshot) : ProxyReturnResolution :=
  foldl (proxy_socket_step sockets topology (delivery_ifindex aliases)) no_resolution aliases.

(** The return paths through a local proxy, from the connection table or else
    from the sockets of the proxy. *)
Definition resolve_returns (aliases : list FlowKey) (conntrack : ConntrackContext) (sockets : ProxySocketContext) (topology : TopologySnapshot)
    : ProxyReturnResolution :=
  let r := proxy_return_aliases aliases conntrack topology in
  if (negb (expected r) && bool_decide (proxy_aliases r = []))%bool then
    let s := proxy_socket_return_aliases aliases sockets topology in
    if expected s then s else r
  else r.

(** A resolution: what it found, and that it says so. *)
Record resolution_ok (returns : FlowKey → Prop) (r : ProxyReturnResolution) : Prop := {
  ro_aliases : Forall returns (proxy_aliases r);
  ro_distinct : NoDup (proxy_aliases r);
  ro_expected : expected r = negb (bool_decide (proxy_aliases r = []) && negb (proxy_unresolved r));
}.

Lemma push_return_ok (returns : FlowKey → Prop) p r : returns p → resolution_ok returns r →
  resolution_ok returns (mkResolution (if bool_decide (p ∈ proxy_aliases r) then proxy_aliases r else proxy_aliases r ++ [p]) true (proxy_unresolved r)).
Proof.
  intros Hp [Ha Hd He]. destruct (bool_decide_reflect (p ∈ proxy_aliases r)) as [Hin|Hin]; split; cbn [proxy_aliases expected proxy_unresolved]; try done.
  - destruct (proxy_aliases r); [by apply elem_of_nil in Hin|done].
  - apply Forall_app. split; [done|]. by apply Forall_singleton.
  - apply NoDup_app. split_and!; [done|intros y Hy ->%list_elem_of_singleton; done|apply NoDup_singleton].
  - by destruct (proxy_aliases r).
Qed.

Lemma add_return_ok (returns : FlowKey → Prop) x a t r :
  (∀ i, i ≠ 0 → i = x ∨ i = ifindex a → returns (key_with_tuple a 2 i t)) → resolution_ok returns r → resolution_ok returns (add_return x a t r).
Proof.
  intros Hret Hr. unfold add_return. set (i := if negb (x =? 0) then x else ifindex a).
  assert (i = x ∨ i = ifindex a) as Hi by (subst i; case_match; auto). clearbody i. destruct (Z.eqb_spec i 0) as [->|Hne].
  - destruct Hr. split; cbn; [done|done|]. by rewrite andb_false_r.
  - apply push_return_ok; auto.
Qed.

(** On an interface where the flow was seen. *)
Definition own_interface (aliases : list FlowKey) (k : FlowKey) : Prop := ifindex k ≠ 0 ∧ ∃ a, a ∈ aliases ∧ ifindex k = ifindex a.

Lemma delivery_own aliases a i : a ∈ aliases → i ≠ 0 → i = delivery_ifindex aliases ∨ i = ifindex a → ∃ a, a ∈ aliases ∧ i = ifindex a.
Proof.
  intros Ha Hi [-> | ->]; [|by exists a]. unfold delivery_ifindex in *. destruct (find _ aliases) as [b|] eqn:Hb; [|done].
  apply find_Some_elem in Hb as [Hb _]. by exists b.
Qed.

(** A key of the flow's client side on which a local proxy answers. *)
Definition redirect_return (conntrack : ConntrackContext) (topology : TopologySnapshot) (aliases : list FlowKey) (k : FlowKey) : Prop :=
  ∃ a t e, a ∈ aliases ∧ key_tuple a = Some t ∧ conntrack_resolve conntrack a = Some e ∧ is_redirect topology t e = true ∧
    own_interface aliases k ∧ k = key_with_tuple a 2 (ifindex k) (reply e).

Definition socket_return (sockets : ProxySocketContext) (topology : TopologySnapshot) (aliases : list FlowKey) (k : FlowKey) : Prop :=
  ∃ a s d client port proxy_ip proxy_port, a ∈ aliases ∧ key_addresses a = Some (s, d) ∧
    ((client, port) = (s, source_port a) ∨ (client, port) = (d, destination_port a)) ∧
    sockets !! (client, port) = Some (proxy_ip, proxy_port) ∧
    is_local topology client = false ∧ is_local topology proxy_ip = true ∧ own_interface aliases k ∧
    k = key_with_tuple a 2 (ifindex k) (mkTuple (protocol a) proxy_ip proxy_port client port).

Lemma fold_resolution_ok {A} (returns : FlowKey → Prop) (step : ProxyReturnResolution → A → ProxyReturnResolution) l :
  (∀ r a, a ∈ l → resolution_ok returns r → resolution_ok returns (step r a)) →
  ∀ r, resolution_ok returns r → resolution_ok returns (foldl step r l).
Proof.
  induction l as [|a l IH]; intros Hs r Hr; [done|]. cbn. apply IH; [intros r' b Hb; apply Hs; by right|]. apply Hs; [left|done].
Qed.

Lemma no_resolution_ok returns : resolution_ok returns no_resolution.
Proof. split; [constructor|constructor|done]. Qed.

Lemma proxy_return_aliases_ok conntrack topology aliases :
  resolution_ok (redirect_return conntrack topology aliases) (proxy_return_aliases aliases conntrack topology).
Proof.
  apply fold_resolution_ok; [|apply no_resolution_ok]. intros r a Ha Hr.
  unfold proxy_return_step. destruct (key_tuple a) as [t|] eqn:Ht; [|done]. destruct (conntrack_resolve conntrack a) as [e|] eqn:He; [|done].
  destruct (is_redirect topology t e) eqn:Hre; [|done]. apply add_return_ok; [|done]. intros i Hi Hx.
  exists a, t, e. split_and!; try done. split; [done|]. by eapply delivery_own.
Qed.

Lemma proxy_socket_return_aliases_ok sockets topology aliases :
  resolution_ok (socket_return sockets topology aliases) (proxy_socket_return_aliases aliases sockets topology).
Proof.
  apply fold_resolution_ok; [|apply no_resolution_ok]. intros r a Ha Hr. unfold proxy_socket_step.
  destruct (key_addresses a) as [[s d]|] eqn:Hkey; [|done]. apply fold_resolution_ok; [|done]. clear r Hr. intros r [[c p] o] Hin Hr.
  assert ((c, p) = (s, source_port a) ∨ (c, p) = (d, destination_port a)) as Hside by (apply elem_of_cons in Hin as [[= -> -> _]|[= -> -> _]%list_elem_of_singleton]; auto).
  unfold proxy_socket_side. destruct (_ || _)%bool eqn:Hg; [done|]. apply orb_false_iff in Hg as [Hc _].
  destruct (sockets !! (c, p)) as [[ip port]|] eqn:Hs; [|done]. destruct (_ || _)%bool eqn:Hl; [done|].
  apply orb_false_iff in Hl as [Hl%negb_false_iff _]. apply add_return_ok; [|done]. intros i Hi Hx.
  exists a, s, d, c, p, ip, port. split_and!; try done. split; [done|]. by eapply delivery_own.
Qed.

Lemma resolve_returns_ok aliases conntrack sockets topology k : k ∈ proxy_aliases (resolve_returns aliases conntrack sockets topology) →
  redirect_return conntrack topology aliases k ∨ socket_return sockets topology aliases k.
Proof.
  pose proof (ro_aliases _ _ (proxy_return_aliases_ok conntrack topology aliases)) as Hr. pose proof (ro_aliases _ _ (proxy_socket_return_aliases_ok sockets topology aliases)) as Hs.
  rewrite Forall_forall in Hr, Hs. unfold resolve_returns. repeat case_match; auto.
Qed.

(** ** Evidence *)

(** How the cache is used: by its operations, except that return paths through a
    proxy are added only as the command handler does it, which reads the keys of
    the flow, looks for return paths in the connection table and the sockets
    it reads then, and adds what it finds. Between the two the lock is free. *)
Inductive Event :=
| Did (op : Op)
| ReadKeys (id : string)
| ReturnPaths (id : string) (n : Datatypes.nat) (conntrack : ConntrackContext) (sockets : ProxySocketContext) (topology : TopologySnapshot).

Record Aliased := mkAliased { al_cache : PolicyFlowAliasCache; al_reads : list (string * list FlowKey) }.

Section events.
Context `{AliasOrder}.

Definition insert_returns (c : PolicyFlowAliasCache) (id : string) (ks : list FlowKey) : PolicyFlowAliasCache :=
  foldl (λ c k, fst (insert_proxy_return c id k)) c ks.

Definition event_step (s : Aliased) (ev : Event) : Aliased :=
  match ev with
  | Did (InsertProxyReturn _ _) => s
  | Did op => mkAliased (step (al_cache s) op) (al_reads s)
  | ReadKeys id => mkAliased (al_cache s) (al_reads s ++ [(id, default [] (aliases (al_cache s) id))])
  | ReturnPaths id n conntrack sockets topology =>
    match al_reads s !! n with
    | Some (id', base) =>
      if String.eqb id id' then
        mkAliased (insert_returns (al_cache s) id (proxy_aliases (resolve_returns base conntrack sockets topology))) (al_reads s)
      else s
    | None => s
    end
  end.
Definition run_events (n : Z) (evs : list Event) : Aliased := foldl event_step (mkAliased (cache_new n) []) evs.

End events.

Section evidence.
Context (h : list Event) (id : string).

(** What the history attributes to the flow: observations of an upload or a
    download, and what was read for its commands. *)
Definition observed_as (k : FlowKey) (d : Direction) (ip : option IpAddr) (egress : option (Z * Z)) (tracked : option ConntrackEntry) : Prop :=
  Did (ObserveDirection id k d ip egress tracked) ∈ h ∧ (d = Upload ∨ d = Download).
Definition client_address (ip : IpAddr) : Prop := ∃ k d egress tracked, observed_as k d (Some ip) egress tracked.
Definition client_interface (i : Z) : Prop :=
  (∃ k d ip wan tracked, observed_as k d ip (Some (wan, i)) tracked) ∨
  (∃ conntrack, Did (ReconcileForCommand id (Some i) conntrack) ∈ h).
Definition tracked_by (k : FlowKey) (c : ConntrackEntry) : Prop :=
  (∃ d ip egress, observed_as k d ip egress (Some c)) ∨
  (∃ i conntrack, Did (ReconcileForCommand id i conntrack) ∈ h ∧ conntrack_resolve conntrack k = Some c).
Definition packet_seen (k : FlowKey) : Prop := ∃ mac now, Did (Observe id k mac now) ∈ h.
Definition returns_read (conntrack : ConntrackContext) (sockets : ProxySocketContext) (topology : TopologySnapshot) : Prop :=
  ∃ n, ReturnPaths id n conntrack sockets topology ∈ h.

(** Why a key belongs to the client's side of the flow, in a direction: a key of
    the flow with that direction was seen on the client's interface; a
    connection tracked for a key with a direction says so; a key with that
    direction carries the client's address untranslated; the connection
    tracked for a key of the flow is redirected to a local proxy that answers
    on it; or a local proxy has accepted a socket of the client's end of a
    key. A key has a direction by an observation or by such evidence. *)
Inductive evidence : FlowKey → Direction → Prop :=
| seen_at_client k d t : directed k d → client_interface (ifindex k) → hook k = client_hook d →
    key_tuple k = Some t → evidence (key_with_tuple k (hook k) (ifindex k) t) d
| from_connection k d i c o : directed k d → client_interface i → tracked_by k c → (o = Upload ∨ o = Download) →
    evidence (key_with_tuple k (client_hook o) i (client_side_tuple c o)) o
| untranslated k d i ip t : directed k d → client_interface i → client_address ip →
    direct_client_tuple k (alias_direction d) (Some ip) = Some t → evidence (key_with_tuple k (client_hook d) i t) d
| redirected a b k t c conntrack sockets topology : flow_key a → flow_key b → ifindex k = ifindex b → returns_read conntrack sockets topology →
    key_tuple a = Some t → conntrack_resolve conntrack a = Some c → is_redirect topology t c = true →
    k = key_with_tuple a 2 (ifindex k) (reply c) → evidence k Download
| accepted a b k s d client port proxy_ip proxy_port conntrack sockets topology : flow_key a → flow_key b → ifindex k = ifindex b →
    returns_read conntrack sockets topology → key_addresses a = Some (s, d) →
    ((client, port) = (s, source_port a) ∨ (client, port) = (d, destination_port a)) →
    sockets !! (client, port) = Some (proxy_ip, proxy_port) → is_local topology client = false → is_local topology proxy_ip = true →
    k = key_with_tuple a 2 (ifindex k) (mkTuple (protocol a) proxy_ip proxy_port client port) → evidence k Download
with directed : FlowKey → Direction → Prop :=
| directed_seen k d ip egress tracked : flow_key k → observed_as k d ip egress tracked → directed k d
| directed_proved k d : evidence k d → directed k d
with flow_key : FlowKey → Prop :=
| seen_key k : packet_seen k → flow_key k
| proved_key k d : evidence k d → flow_key k.

Record sourced (e : AliasEntry) : Prop := {
  so_keys : ∀ k, k ∈ keys e → flow_key k;
  so_verified : ∀ k, k ∈ verified e → ∃ d, evidence k d;
  so_directions : ∀ k d, d = Upload ∨ d = Download → directions e !! k = Some (alias_direction d) → directed k d;
  so_ip : ∀ ip, client_ip e = Some ip → client_address ip;
  so_ifindex : ∀ i, default_client_ifindex e = Some i → client_interface i;
}.

Lemma sourced_ext e e' : keys e' = keys e → verified e' = verified e → directions e' = directions e → client_ip e' = client_ip e →
  default_client_ifindex e' = default_client_ifindex e → sourced e → sourced e'.
Proof. intros H1 H2 H3 H4 H5 []. by split; rewrite ?H1, ?H2, ?H3, ?H4, ?H5. Qed.

Lemma sourced_verify e k d : evidence k d → sourced e → sourced (set_verified e ({[k]} ∪ verified e)).
Proof. intros Hk []. split; fields; try done. intros k' [->%elem_of_singleton|Hk']%elem_of_union; eauto. Qed.

Lemma sourced_push e k : flow_key k → sourced e → sourced (set_keys e (keys e ++ [k])).
Proof. intros Hk []. split; fields; try done. intros k' [Hk'| ->%list_elem_of_singleton]%elem_of_app; auto. Qed.

Lemma sourced_direct e k d : directed k d → d = Upload ∨ d = Download → sourced e → sourced (add_direction e k (alias_direction d)).
Proof.
  intros Hk Hd []. split; fields; try done. intros k' d' Hd' [[<- Heq]|[_ ?]]%lookup_insert_Some; [|auto].
  by destruct Hd as [-> | ->], Hd' as [-> | ->].
Qed.

Lemma sourced_unshaped e k : sourced e → sourced (add_direction e k AliasUnshaped).
Proof.
  intros []. split; fields; try done. intros k' d' Hd' [[_ Heq]|[_ ?]]%lookup_insert_Some; [|auto]. by destruct Hd' as [-> | ->].
Qed.

Lemma insert_alias_sourced e k d : evidence k d → d = Upload ∨ d = Download → sourced e → sourced (insert_alias e k (alias_direction d)).
Proof.
  intros Hk Hd Hs. unfold insert_alias. destruct (_ && _)%bool; [by eapply sourced_ext; [..|exact Hs]|].
  assert (sourced (if bool_decide (k ∈ keys e) then e else set_keys e (keys e ++ [k]))) as Hs1.
  { case_bool_decide; [done|]. apply sourced_push; [by eapply proved_key|done]. }
  set (e1 := if bool_decide _ then e else _) in *. clearbody e1. apply sourced_direct; [by apply directed_proved|done|].
  eapply sourced_ext; [..|exact (sourced_verify e1 k d Hk Hs1)]; done.
Qed.

Lemma record_unresolved_sourced e k : sourced e → sourced (record_unresolved e k).
Proof. intros Hs. unfold record_unresolved. repeat case_match; try done; by eapply sourced_ext; [..|exact Hs]. Qed.

Lemma client_tuple_evidence k d ip i tracked t : directed k d → client_interface i →
  (∀ a, ip = Some a → client_address a) → (∀ c, tracked = Some c → tracked_by k c) → d = Upload ∨ d = Download →
  client_tuple k d ip i tracked = Some t → evidence (key_with_tuple k (client_hook d) i t) d.
Proof.
  intros Hk Hi Hip Htr Hd. unfold client_tuple. destruct (_ && _)%bool eqn:Hs.
  - apply andb_true_iff in Hs as [Hh%Z.eqb_eq Hx%Z.eqb_eq]. intros Ht. rewrite <- Hh, <- Hx in *. by eapply seen_at_client.
  - destruct tracked as [c|].
    + intros [= <-]. eapply from_connection; eauto.
    + destruct ip as [a|]; [|done]. intros Ht. eapply untranslated; eauto.
Qed.

Lemma observe_shaped_sourced e k d ip egress tracked : sourced e → directed k d →
  (∀ w i, egress = Some (w, i) → client_interface i) → (∀ a, ip = Some a → client_address a) →
  (∀ c, tracked = Some c → tracked_by k c) → d = Upload ∨ d = Download → sourced (observe_shaped e k d ip egress tracked).
Proof.
  intros Hs Hk Heg Hip Htr Hd. unfold observe_shaped.
  assert (∀ e1, e1 = add_direction e k (alias_direction d) → sourced (match ip with Some _ => set_client_ip e1 ip | None => e1 end)) as Hs1.
  { intros e1 ->. pose proof (sourced_direct e k d Hk Hd Hs) as Hs1. destruct ip; [|done]. destruct Hs1. by split; fields. }
  specialize (Hs1 _ eq_refl). set (e1 := match ip with Some _ => _ | None => _ end) in *. clearbody e1.
  assert (sourced (settle e1 k)) as Hs2 by (by eapply sourced_ext; [..|exact Hs1]). set (e2 := settle e1 k) in *. clearbody e2.
  destruct egress as [[w i]|]; [|done]. pose proof (Heg w i eq_refl) as Hi.
  assert (sourced (set_ifindex e2 (Some i))) as Hs3. { destruct Hs2. split; fields; try done. by intros j [= <-]. }
  set (e3 := set_ifindex e2 (Some i)) in *. clearbody e3. destruct (client_tuple _ _ _ _ _) as [t|] eqn:Ht; [|by apply record_unresolved_sourced].
  assert (evidence (key_with_tuple k (client_hook d) i t) d) as Hev by (by eapply client_tuple_evidence).
  pose proof (insert_alias_sourced e3 _ d Hev Hd Hs3) as Hs4. destruct tracked as [c|].
  - assert (opposite d = Upload ∨ opposite d = Download) as Ho by (destruct Hd as [-> | ->]; [by right|by left]).
    apply insert_alias_sourced; [|done|done]. eapply from_connection; eauto.
  - by apply record_unresolved_sourced.
Qed.

(** An observation of a key; that the direction is sound is needed only of a key
    of the flow. *)
Lemma observe_entry_sourced e k d ip egress tracked : sourced e → (d = Upload ∨ d = Download → flow_key k → directed k d) →
  (d = Upload ∨ d = Download → (∀ w i, egress = Some (w, i) → client_interface i) ∧ (∀ a, ip = Some a → client_address a) ∧
    (∀ c, tracked = Some c → tracked_by k c)) → sourced (observe_entry e k d ip egress tracked).
Proof.
  intros Hs Hdir Hctx. unfold observe_entry. case_bool_decide as Hk; [|done]. pose proof (so_keys _ Hs k Hk) as Hf.
  destruct d; [| |by apply sourced_unshaped..]; (destruct Hctx as (? & ? & ?); [auto|]; apply observe_shaped_sourced; auto).
Qed.

Lemma observe_mac_fields e mac : keys (observe_mac e mac) = keys e ∧ verified (observe_mac e mac) = verified e ∧ directions (observe_mac e mac) = directions e ∧
  client_ip (observe_mac e mac) = client_ip e ∧ default_client_ifindex (observe_mac e mac) = default_client_ifindex e.
Proof. unfold observe_mac. by repeat case_match. Qed.

Lemma observe_known_sourced e k mac now : packet_seen k → sourced e → sourced (fst (observe_known e k mac now)).
Proof.
  intros Hk Hs. unfold observe_known. destruct (ended e); [done|].
  destruct (observe_mac_fields (set_last_seen e now) mac) as (H1 & H2 & H3 & H4 & H5).
  assert (sourced (observe_mac (set_last_seen e now) mac)) as Hs1 by (by eapply sourced_ext; [..|exact Hs]).
  set (e1 := observe_mac _ _) in *. clearbody e1. case_bool_decide; [|destruct (_ <=? _)]; cbn [fst].
  - by eapply sourced_ext; [..|exact Hs1].
  - by eapply sourced_ext; [..|exact Hs1].
  - eapply sourced_ext; [..|exact (sourced_push e1 k (seen_key _ Hk) Hs1)]; done.
Qed.

Lemma add_proxy_return_sourced e k : evidence k Download → sourced e → sourced (fst (add_proxy_return e k)).
Proof.
  intros Hev Hs. unfold add_proxy_return. destruct (ended e); [done|].
  case_bool_decide; [|destruct (_ <=? _)]; cbn [fst].
  - apply (sourced_direct _ k Download); [by apply directed_proved|by right|]. by eapply sourced_verify.
  - by eapply sourced_ext; [..|exact Hs].
  - pose proof (sourced_push e k (proved_key _ _ Hev) Hs) as Hs1. apply (sourced_direct _ k Download); [by apply directed_proved|by right|].
    eapply sourced_ext; [..|exact (sourced_verify _ k Download Hev Hs1)]; done.
Qed.

Lemma return_evidence base conntrack sockets topology k : (∀ a, a ∈ base → flow_key a) → returns_read conntrack sockets topology →
  k ∈ proxy_aliases (resolve_returns base conntrack sockets topology) → evidence k Download.
Proof.
  intros Hb Hr [(a & t & c & Ha & Ht & Hc & Hre & [_ (b & Hbb & Hi)] & Hk)|(a & s & d & cl & pt & ip & pp & Ha & Hka & Hsd & Hsk & Hl1 & Hl2 & [_ (b & Hbb & Hi)] & Hk)]%resolve_returns_ok.
  - by apply (redirected a b k t c conntrack sockets topology); auto.
  - by apply (accepted a b k s d cl pt ip pp conntrack sockets topology); auto.
Qed.

Lemma reconcile_entry_sourced `{AliasOrder} `{!AliasOrderLaw} e i ct : Did (ReconcileForCommand id i ct) ∈ h → sourced e → sourced (reconcile_entry e i ct).
Proof.
  intros Hin Hs. unfold reconcile_entry. destruct (reconcile_plan e i) as [[os x]|] eqn:Hp; [|done].
  assert (client_interface x ∧ ∀ k d, (k, d) ∈ os → (d = Upload ∨ d = Download) ∧ directed k d) as [Hx Hos].
  { unfold reconcile_plan in Hp. destruct (ended e); [done|].
    assert (∀ k d, (k, d) ∈ omap shaped_observation (alias_order (directions e)) → (d = Upload ∨ d = Download) ∧ directed k d) as Hshaped.
    { intros k d ([k' d'] & Hkd & Hsh)%list_elem_of_omap. rewrite alias_order_perm, elem_of_map_to_list in Hkd.
      destruct d'; cbn in Hsh; try done; injection Hsh as <- <-; (split; [auto|]); apply (so_directions _ Hs); auto. }
    destruct i as [i|]; cbn [mbind option_bind] in Hp.
    - repeat case_match; simplify_eq. split; [|done]. right. by exists ct.
    - destruct (default_client_ifindex e) as [j|] eqn:Hj; cbn in Hp; [|done]. repeat case_match; simplify_eq. split; [|done]. by apply (so_ifindex _ Hs). }
  pose proof (so_ip _ Hs) as Hip. assert (sourced (set_unresolved e [])) as Hs1 by (by eapply sourced_ext; [..|exact Hs]).
  revert Hs1 Hip. generalize (set_unresolved e []) (client_ip e). clear Hp Hs e. intros e ip Hs Hip. revert e Hs.
  induction os as [|[k d] os IH]; intros e Hs; [done|]. cbn. apply IH; [intros k' d' Hkd; apply Hos; by right|].
  apply observe_entry_sourced; [done|intros _ _; apply Hos; left|]. intros _. split_and!.
  - by intros w j [= <- <-].
  - done.
  - intros c Hc. right. by exists i, ct.
Qed.

End evidence.

Scheme evidence_mut := Minimality for evidence Sort Prop
with directed_mut := Minimality for directed Sort Prop
with flow_key_mut := Minimality for flow_key Sort Prop.

Section longer_history.
Context (h : list Event) (ev : Event) (id : string).

Lemma observed_as_app k d ip eg t : observed_as h id k d ip eg t → observed_as (h ++ [ev]) id k d ip eg t.
Proof. intros [Hin Hd]. split; [|done]. apply elem_of_app. by left. Qed.

Lemma packet_seen_app k : packet_seen h id k → packet_seen (h ++ [ev]) id k.
Proof. intros (m & n & Hin). exists m, n. apply elem_of_app. by left. Qed.

Lemma client_interface_app i : client_interface h id i → client_interface (h ++ [ev]) id i.
Proof.
  intros [(k & d & ip & w & t & Hin)|(ct & Hin)]; [left; exists k, d, ip, w, t; by apply observed_as_app|right; exists ct; apply elem_of_app; by left].
Qed.

Lemma tracked_by_app k c : tracked_by h id k c → tracked_by (h ++ [ev]) id k c.
Proof.
  intros [(d & ip & eg & Hin)|(i & ct & Hin & Hc)]; [left; exists d, ip, eg; by apply observed_as_app|right; exists i, ct; split; [apply elem_of_app; by left|done]].
Qed.

Lemma client_address_app ip : client_address h id ip → client_address (h ++ [ev]) id ip.
Proof. intros (k & d & eg & t & Hin). exists k, d, eg, t. by apply observed_as_app. Qed.

Lemma returns_read_app ct sk tp : returns_read h id ct sk tp → returns_read (h ++ [ev]) id ct sk tp.
Proof. intros (n & Hin). exists n. apply elem_of_app. by left. Qed.

#[local] Hint Resolve observed_as_app packet_seen_app client_interface_app tracked_by_app client_address_app returns_read_app : core.
#[local] Hint Constructors evidence directed flow_key : core.

Lemma evidence_app :
  (∀ k d, evidence h id k d → evidence (h ++ [ev]) id k d) ∧ (∀ k d, directed h id k d → directed (h ++ [ev]) id k d) ∧
  (∀ k, flow_key h id k → flow_key (h ++ [ev]) id k).
Proof.
  set (P := λ k d, evidence (h ++ [ev]) id k d). set (Q := λ k d, directed (h ++ [ev]) id k d). set (R := λ k, flow_key (h ++ [ev]) id k).
  split_and!; [apply (evidence_mut h id P Q R)|apply (directed_mut h id P Q R)|apply (flow_key_mut h id P Q R)]; subst P Q R; cbn beta;
    intros; eauto using redirected, accepted.
Qed.

Lemma sourced_app e : sourced h id e → sourced (h ++ [ev]) id e.
Proof.
  destruct evidence_app as (He & Hd & Hf). intros []. split; auto. intros k Hk. destruct (so_verified0 k Hk) as [d ?]. eauto.
Qed.

End longer_history.

Lemma touch_sourced `{AliasOrder} `{!AliasOrderLaw} h op id e : names op id → (∀ k, op ≠ InsertProxyReturn id k) →
  sourced (h ++ [Did op]) id e → sourced (h ++ [Did op]) id (touch op e).
Proof.
  intros Hn Hno Hs. assert (Did op ∈ h ++ [Did op]) as Hin by (apply elem_of_app; right; left).
  destruct op; cbn [names] in Hn; subst; cbn [touch]; try done.
  - apply observe_known_sourced; [|done]. by eexists _, _.
  - apply observe_entry_sourced; [done| |].
    + intros Hd Hf. eapply directed_seen; [done|]. by split.
    + intros Hd. split_and!.
      * intros w i ->. left. by eexists _, _, _, _, _.
      * intros a ->. by eexists _, _, _, _.
      * intros c ->. left. by eexists _, _, _.
  - by apply reconcile_entry_sourced.
  - by specialize (Hno alias).
  - by eapply sourced_ext; [..|exact Hs].
  - case_match; [done|]. by eapply sourced_ext; [..|exact Hs].
  - by eapply sourced_ext; [..|exact Hs].
Qed.

(** What is true of the cache and of what was read from it. *)
Record history_ok (h : list Event) (s : Aliased) : Prop := {
  hi_entries : ∀ id e, entries (al_cache s) !! id = Some e → sourced h id e;
  hi_reads : ∀ id base, (id, base) ∈ al_reads s → ∀ k, k ∈ base → flow_key h id k;
}.

Lemma history_app h ev s : history_ok h s → history_ok (h ++ [ev]) s.
Proof. intros [He Hr]. split; [intros; by apply sourced_app, He|]. intros id base Hb k Hk. apply evidence_app. by eapply Hr. Qed.

Lemma insert_returns_sourced h id ks c : (∀ k, k ∈ ks → evidence h id k Download) → (∀ id' e, entries c !! id' = Some e → sourced h id' e) →
  ∀ id' e, entries (insert_returns c id ks) !! id' = Some e → sourced h id' e.
Proof.
  revert c. induction ks as [|k ks IH]; intros c Hks Hc; [done|]. cbn. apply IH; [intros k' Hk'; apply Hks; by right|]. intros id' e.
  unfold insert_proxy_return. destruct (entries c !! id) as [e0|] eqn:Hi; [|apply Hc]. pose proof (add_proxy_return_sourced h id e0 k (Hks k ltac:(left)) (Hc _ _ Hi)) as Hs.
  destruct (add_proxy_return e0 k) as [e1 r]. cbn in *. intros [[<- <-]|[_ ?]]%lookup_insert_Some; [done|by apply Hc].
Qed.

Lemma did_history `{AliasOrder} `{!AliasOrderLaw} h op s : (∀ id k, op ≠ InsertProxyReturn id k) → history_ok h s →
  history_ok (h ++ [Did op]) (mkAliased (step (al_cache s) op) (al_reads s)).
Proof.
  intros Hno Hok. destruct (history_app h (Did op) s Hok) as [He Hr]. split; [|done]. cbn.
  intros id e [(e0 & He0 & Hc)|(k & mac & now & -> & _ & ->)]%step_entry.
  - destruct Hc as [->|[Hn ->]]; [by apply He|]. apply touch_sourced; auto.
  - split; cbn [new_entry keys verified directions client_ip default_client_ifindex]; try done.
    intros k' ->%list_elem_of_singleton. left. exists mac, now. apply elem_of_app. right. left.
Qed.

Lemma event_history `{AliasOrder} `{!AliasOrderLaw} h ev s : history_ok h s → history_ok (h ++ [ev]) (event_step s ev).
Proof.
  intros Hok. pose proof (history_app h ev s Hok) as Hok'. destruct ev as [op|id|id n ct sk tp]; cbn [event_step].
  - destruct op; try done; by apply did_history.
  - destruct Hok' as [He Hr]. split; [done|]. cbn. intros id' base [Hb|[= -> ->]%list_elem_of_singleton]%elem_of_app; [by eapply Hr|].
    unfold aliases. destruct (entries (al_cache s) !! id) as [e|] eqn:Hi; [|by intros k Hk%elem_of_nil]. cbn. apply (so_keys _ _ _ (He _ _ Hi)).
  - destruct (al_reads s !! n) as [[id' base]|] eqn:Hn; [|done]. destruct (String.eqb_spec id id') as [<-|]; [|done]. apply list_elem_of_lookup_2 in Hn.
    destruct Hok' as [He Hr]. split; [|done]. cbn. apply insert_returns_sourced; [|done]. intros k. apply return_evidence; [by eapply Hr|].
    exists n. apply elem_of_app. right. left.
Qed.


(** ** Completeness *)

(** What an insertion leaves of the other keys, and what it does to its own. *)
Record grows (e e' : AliasEntry) : Prop := {
  gr_keys : ∀ k, k ∈ keys e → k ∈ keys e';
  gr_verified : ∀ k, k ∈ verified e → k ∈ verified e';
  gr_partial : partial e = true → partial e' = true;
}.

Lemma insert_alias_grows e k d : grows e (insert_alias e k d).
Proof.
  unfold insert_alias. case_bool_decide; cbn [negb andb]; [|destruct (_ <=? _)]; (split; fields; [|set_solver|done]); intros k' Hk'; rewrite ?elem_of_app; auto.
Qed.

Lemma insert_alias_spec e k d : entry_ok e → let e' := insert_alias e k d in
  (k ∈ verified e' ∧ directions e' !! k = Some d) ∨ (zlen (keys e') = MAX_ALIASES_PER_FLOW ∧ partial e' = true).
Proof.
  intros Hok. unfold insert_alias. case_bool_decide as Hk; cbn [negb andb]; [|destruct (_ <=? _) eqn:Hl]; fields.
  - left. split; [set_solver|apply lookup_insert_eq].
  - right. destruct (eo_keys _ Hok) as [_ Hb]. apply Z.leb_le in Hl. split; [lia|done].
  - left. split; [set_solver|apply lookup_insert_eq].
Qed.

Lemma insert_alias_other e k k' d : k' ≠ k → k' ∈ verified (insert_alias e k d) ↔ k' ∈ verified e.
Proof. intros Hne. unfold insert_alias. repeat case_match; fields; set_solver. Qed.

Lemma insert_alias_direction e k k' d : k' ≠ k → directions (insert_alias e k d) !! k' = directions e !! k'.
Proof. intros Hne. unfold insert_alias. repeat case_match; fields; [done|by rewrite lookup_insert_ne..]. Qed.

(** A tracked observation is not lost. Once the direction of a packet key of
    the flow is observed with the connection it belongs to, the keys of both
    directions on the client's interface are verified with their directions,
    unless the flow has its eight keys and is marked partial; no key of the flow
    and no verified key is dropped. *)
Lemma tracked_observation_verifies e k d ip wan i c :
  entry_ok e → k ∈ keys e → d = Upload ∨ d = Download → hook k ≠ client_hook d ∨ ifindex k ≠ i →
  let e' := observe_entry e k d ip (Some (wan, i)) (Some c) in
  let alias d := key_with_tuple k (client_hook d) i (client_side_tuple c d) in
  (∀ k', k' ∈ keys e → k' ∈ keys e') ∧ (∀ k', k' ∈ verified e → k' ∈ verified e') ∧
  ∀ o, o = Upload ∨ o = Download →
    (alias o ∈ verified e' ∧ directions e' !! alias o = Some (alias_direction o)) ∨
    (zlen (keys e') = MAX_ALIASES_PER_FLOW ∧ partial e' = true).
Proof.
  intros Hok Hk Hd Hother e' alias.
  assert (∃ e1, entry_ok e1 ∧ keys e1 = keys e ∧ verified e1 = verified e ∧
    e' = insert_alias (insert_alias e1 (alias d) (alias_direction d)) (alias (opposite d)) (alias_direction (opposite d))) as (e1 & Hok1 & Hk1 & Hv1 & ->).
  { pose proof (observe_entry_ok e k d ip None None Hok) as Hok0. subst e'. unfold observe_entry in *. rewrite bool_decide_eq_true_2 in * by done.
    assert (client_tuple k d ip i (Some c) = Some (client_side_tuple c d)) as Ht.
    { unfold client_tuple. destruct (_ && _)%bool eqn:Hb; [|done]. apply andb_true_iff in Hb as [?%Z.eqb_eq ?%Z.eqb_eq]. naive_solver. }
    exists (set_ifindex (observe_shaped e k d ip None None) (Some i)). split_and!.
    - destruct Hd as [-> | ->]; by eapply entry_ok_ext; [..|exact Hok0].
    - cbn. by destruct ip.
    - cbn. by destruct ip.
    - destruct Hd as [-> | ->]; unfold observe_shaped; rewrite Ht; done. }
  set (e2 := insert_alias e1 (alias d) (alias_direction d)). pose proof (insert_alias_grows e1 (alias d) (alias_direction d)) as Hg1. fold e2 in Hg1.
  pose proof (insert_alias_grows e2 (alias (opposite d)) (alias_direction (opposite d))) as Hg2.
  assert (alias d ≠ alias (opposite d)) as Hne by (destruct Hd as [-> | ->]; cbn; intros [=]).
  assert (entry_ok e2) as Hok2 by (by apply insert_alias_ok).
  split_and!.
  - intros k' Hk'. apply Hg2, Hg1. by rewrite Hk1.
  - intros k' Hk'. apply Hg2, Hg1. by rewrite Hv1.
  - intros o Ho. assert (o = opposite d ∨ o = d) as [-> | ->] by (destruct Hd as [-> | ->], Ho as [-> | ->]; cbn; auto).
    { by apply insert_alias_spec. }
    destruct (insert_alias_spec e1 (alias d) (alias_direction d) Hok1) as [[Hv Hdr]|[Hz Hp]].
    + left. split; [by apply Hg2|]. by rewrite insert_alias_direction.
    + fold e2 in Hz, Hp. right. split; [|by apply Hg2]. destruct (eo_keys _ (insert_alias_ok e2 (alias (opposite d)) (alias_direction (opposite d)) Hok2)) as [Hnd Hb].
      assert (zlen (keys e2) ≤ zlen (keys (insert_alias e2 (alias (opposite d)) (alias_direction (opposite d))))) as Hle; [|lia].
      unfold zlen. apply Nat2Z.inj_le, submseteq_length, NoDup_submseteq; [apply (eo_keys _ Hok2)|]. apply Hg2.
Qed.

(** ** Keys at their widths *)

Definition ports_ok (t : FlowTuple) : Prop := is_u16 (tuple_source_port t) ∧ is_u16 (tuple_destination_port t).
Definition connection_ok (c : ConntrackEntry) : Prop := ports_ok (original c) ∧ ports_ok (reply c).
Definition table_ok (conntrack : ConntrackContext) : Prop := map_Forall (λ _, connection_ok) conntrack.

Definition keys_wf (e : AliasEntry) : Prop := Forall key_wf (keys e) ∧ ∀ i, default_client_ifindex e = Some i → is_u32 i.

Lemma alias_ip_bytes_wf ip : length (alias_ip_bytes ip) = 16%nat ∧ Forall is_u8 (alias_ip_bytes ip).
Proof.
  destruct ip; cbn [alias_ip_bytes].
  - rewrite length_app, length_be_bytes. split; [done|]. apply Forall_app. split; [apply be_bytes_u8|]. apply Forall_replicate. split; lia.
  - rewrite length_be_bytes. split; [done|apply be_bytes_u8].
Qed.

Lemma key_with_tuple_wf k h i t : key_wf k → ports_ok t → is_u8 h → is_u32 i → key_wf (key_with_tuple k h i t).
Proof. intros [] [] Hh Hi. split; cbn; try done; apply alias_ip_bytes_wf. Qed.

Lemma key_tuple_ports k t : key_wf k → key_tuple k = Some t → ports_ok t.
Proof. intros []. unfold key_tuple. destruct (key_addresses k) as [[s d]|]; [|done]. cbn. by intros [= <-]. Qed.

Lemma client_side_ports c d : connection_ok c → ports_ok (client_side_tuple c d).
Proof. intros [Ho Hr]. assert (ports_ok (reverse_tuple (original c))) by (destruct Ho; by split). unfold client_side_tuple. repeat case_match; done. Qed.

Lemma client_hook_u8 d : is_u8 (client_hook d).
Proof. destruct d; cbn; split; lia. Qed.

Lemma keys_wf_ext e e' : keys e' = keys e → default_client_ifindex e' = default_client_ifindex e → keys_wf e → keys_wf e'.
Proof. unfold keys_wf. by intros -> ->. Qed.

Lemma insert_alias_wf e k d : key_wf k → keys_wf e → keys_wf (insert_alias e k d).
Proof.
  intros Hk [Hks Hi]. unfold insert_alias. repeat case_match; split; fields; try done. apply Forall_app. split; [done|]. by apply Forall_singleton.
Qed.

Lemma record_unresolved_wf e k : keys_wf e → keys_wf (record_unresolved e k).
Proof. intros He. unfold record_unresolved. by repeat case_match. Qed.

Lemma client_tuple_ports k d ip i tracked t : key_wf k → (∀ c, tracked = Some c → connection_ok c) →
  client_tuple k d ip i tracked = Some t → ports_ok t.
Proof.
  intros Hk Hc. unfold client_tuple, direct_client_tuple. destruct (_ && _)%bool; [by apply key_tuple_ports|]. destruct tracked as [c|].
  - intros [= <-]. apply client_side_ports. auto.
  - destruct ip; [|done]. cbn. repeat case_match; try done; by apply key_tuple_ports.
Qed.

Lemma observe_entry_wf e k d ip egress tracked : keys_wf e → (∀ w i, egress = Some (w, i) → is_u32 i) →
  (∀ c, tracked = Some c → connection_ok c) → keys_wf (observe_entry e k d ip egress tracked).
Proof.
  intros He Heg Hc. unfold observe_entry. case_bool_decide as Hk; [|done].
  assert (key_wf k) as Hkw by (destruct He as [Hks _]; rewrite Forall_forall in Hks; auto).
  assert (keys_wf (observe_shaped e k d ip egress tracked)) as Hs; [|by destruct d]. unfold observe_shaped.
  assert (∀ e1, e1 = add_direction e k (alias_direction d) → keys_wf (match ip with Some _ => set_client_ip e1 ip | None => e1 end)) as H1.
  { intros e1 ->. by destruct ip. }
  specialize (H1 _ eq_refl). set (e1 := match ip with Some _ => _ | None => _ end) in *. clearbody e1.
  destruct egress as [[w i]|]; [|done]. pose proof (Heg w i eq_refl) as Hi.
  assert (keys_wf (set_ifindex (settle e1 k) (Some i))) as H2 by (destruct H1; split; fields; [done|by intros j [= <-]]).
  set (e2 := set_ifindex _ _) in *. clearbody e2. destruct (client_tuple k d ip i tracked) as [t|] eqn:Ht; [|by apply record_unresolved_wf].
  apply client_tuple_ports in Ht; [|done|done].
  assert (keys_wf (insert_alias e2 (key_with_tuple k (client_hook d) i t) (alias_direction d))) as H3
    by (apply insert_alias_wf; [|done]; apply key_with_tuple_wf; auto using client_hook_u8).
  destruct tracked as [c|]; [|by apply record_unresolved_wf]. apply insert_alias_wf; [|done].
  apply key_with_tuple_wf; auto using client_hook_u8, client_side_ports.
Qed.

Lemma conntrack_resolve_ok conntrack k c : table_ok conntrack → conntrack_resolve conntrack k = Some c → connection_ok c.
Proof. intros Ht. unfold conntrack_resolve. destruct (tuple_from_key k); [|done]. cbn. apply Ht. Qed.

Lemma reconcile_entry_wf `{AliasOrder} e i conntrack : keys_wf e → (∀ j, i = Some j → is_u32 j) → table_ok conntrack → keys_wf (reconcile_entry e i conntrack).
Proof.
  intros He Hi Ht. unfold reconcile_entry. destruct (reconcile_plan e i) as [[os x]|] eqn:Hp; [|done].
  assert (is_u32 x) as Hx.
  { unfold reconcile_plan in Hp. destruct (ended e); [done|]. destruct i as [i|]; cbn [mbind option_bind] in Hp.
    - repeat case_match; simplify_eq. auto.
    - destruct (default_client_ifindex e) as [j|] eqn:Hj; cbn in Hp; [|done]. repeat case_match; simplify_eq. by apply He. }
  generalize (client_ip e) as ip. assert (keys_wf (set_unresolved e [])) as He1 by done. revert He1. generalize (set_unresolved e []).
  clear Hp He e. intros e He ip. revert e He. induction os as [|[k d] os IH]; intros e He; [done|]. cbn. apply IH. apply observe_entry_wf; [done| |].
  - by intros w j [= <- <-].
  - intros c. by apply conntrack_resolve_ok.
Qed.

Lemma add_proxy_return_wf e k : key_wf k → keys_wf e → keys_wf (fst (add_proxy_return e k)).
Proof.
  intros Hk [Hks Hi]. unfold add_proxy_return. repeat case_match; split; cbn [fst]; fields; try done. apply Forall_app. split; [done|]. by apply Forall_singleton.
Qed.

(** ** A flow behind source NAT *)

Module AliasExample.
#[export] Instance order : AliasOrder := {| alias_order m := map_to_list m |}.
(** A DNS query seen on the WAN after its source was translated. *)
Definition wan_key : FlowKey :=
  mkKey 4 17 1 2 2 ([203; 0; 113; 5] ++ replicate 12 0) ([1; 1; 1; 1] ++ replicate 12 0) 40000 53.
Definition events : list Event :=
  [Did (Observe "flow" wan_key (Some "AA:BB:CC:DD:EE:FF") 10);
   Did (ObserveDirection "flow" wan_key Upload (Some Normalization.Example.client) (Some (2, 7)) (Some Normalization.Example.entry))].
Definition entry : AliasEntry := new_entry wan_key None 0.
Definition ingress : FlowKey :=
  mkKey 4 17 1 1 7 ([192; 168; 1; 20] ++ replicate 12 0) ([1; 1; 1; 1] ++ replicate 12 0) 47000 53.
End AliasExample.
#[local] Existing Instance AliasExample.order.
#[local] Instance example_order_law : AliasOrderLaw.
Proof. split. done. Defined.


Lemma tracked_observation_verifies_witness :
  let e' := observe_entry AliasExample.entry AliasExample.wan_key Upload None (Some (2, 7)) (Some Normalization.Example.entry) in
  zlen (keys e') = 3 ∧ ∀ k, k ∈ keys AliasExample.entry → k ∈ keys e'.
Proof.
  split; [vm_compute; reflexivity|].
  apply (tracked_observation_verifies AliasExample.entry AliasExample.wan_key Upload None 2 7 Normalization.Example.entry).
  - apply new_entry_ok.
  - apply list_elem_of_singleton. reflexivity.
  - by left.
  - right. vm_compute. discriminate.
Defined.
