(* ===== verification/Marks.v ===== *)
(** The packet-mark rules of the HTB backend
    (src/crates/agent/src/policy/mark.rs): which addresses of which clients are
    marked with which class tag on the way to the queues.  Rendering a rule as
    nftables text and the search for foreign users of packet marks in the
    output of other programs are not part of it. *)

From S2P Require Import Prelude Topology Shaper.

Record MarkRule := mkRule {
  interface_in : string;
  interface_out : string;
  address : IpAddr;
  rule_direction : Direction;
  rule_tag : Z;
}.
#[export] Instance MarkRule_eq_dec : EqDecision MarkRule.
Proof. solve_decision. Defined.

(** The order of [Direction]: uploads first. *)
Definition direction_leb (a b : Direction) : bool := match a, b with Download, Upload => false | _, _ => true end.
#[export] Instance direction_order : TotalOrder direction_leb.
Proof. split; [by intros [] []|by intros [] [] []|by intros [] []]. Qed.

Definition rule_key (r : MarkRule) : Direction * (string * (string * (IpAddr * Z))) :=
  (rule_direction r, (interface_in r, (interface_out r, (address r, rule_tag r)))).
Definition rule_leb (a b : MarkRule) : bool :=
  lex_leb direction_leb (lex_leb str_leb (lex_leb str_leb (lex_leb addr_leb Z.leb))) (rule_key a) (rule_key b).

(** The rules of one direction, in the order of classes and addresses. *)
Definition direction_rules (classes : list ClientClass) (addresses : list (string * IpAddr)) (rule : ClientClass → IpAddr → MarkRule) : list MarkRule :=
  c ← classes; '(mac, a) ← addresses; if eq_ignore_ascii_case mac (Shaper.mac c) then [rule c a] else [].

Definition rules_for_clients (upload download : list ClientClass) (addresses : list (string * IpAddr)) (lan wan : string) : list MarkRule :=
  let rules :=
    direction_rules upload addresses (λ c a, mkRule lan wan a Upload (tag c))
    ++ direction_rules download addresses (λ c a, mkRule wan lan a Download (tag c)) in
  dedup (sort_by rule_leb rules).

#[export] Instance rule_order : TotalOrder rule_leb.
Proof.
  apply (order_by rule_key); [|apply _]. intros [i o a d t] [i' o' a' d' t']. unfold rule_key. cbn. by intros [= -> -> -> -> ->].
Qed.

Lemma elem_of_direction_rules classes addresses rule r :
  r ∈ direction_rules classes addresses rule ↔
  ∃ c m a, c ∈ classes ∧ (m, a) ∈ addresses ∧ eq_ignore_ascii_case m (mac c) = true ∧ r = rule c a.
Proof.
  unfold direction_rules. rewrite list_elem_of_bind. split.
  - intros (c & Hx & Hc). apply list_elem_of_bind in Hx as ([m a] & Hr & Ha). destruct (eq_ignore_ascii_case m (mac c)) eqn:He; [|by apply elem_of_nil in Hr].
    apply list_elem_of_singleton in Hr as ->. eauto 10.
  - intros (c & m & a & Hc & Ha & He & ->). exists c. split; [|done]. apply list_elem_of_bind. exists (m, a). rewrite He. split; [left|done].
Qed.

(** The direction of a rule decides its classes and its interfaces. *)
Definition wanted_rule (upload download : list ClientClass) (addresses : list (string * IpAddr)) (lan wan : string) (r : MarkRule) : Prop :=
  ∃ c m, c ∈ match rule_direction r with Upload => upload | Download => download end ∧ (m, address r) ∈ addresses ∧
    eq_ignore_ascii_case m (mac c) = true ∧ rule_tag r = tag c ∧
    (interface_in r, interface_out r) = match rule_direction r with Upload => (lan, wan) | Download => (wan, lan) end.

Lemma eq_ignore_ascii_case_spec a b : eq_ignore_ascii_case a b = true ↔ to_ascii_lowercase a = to_ascii_lowercase b.
Proof. unfold eq_ignore_ascii_case. apply String.eqb_eq. Qed.

(** The mark rules are exactly those wanted - one for each class and each
    address of its client, whatever the case of the MAC address, from the LAN to
    the WAN for uploads and back for downloads - each once and in a fixed order.
    Where no two classes of a direction are for the same client and no address
    belongs to two clients, at most one rule marks the packets of an address in a
    direction, so that the tag set does not depend on the order of the rules. *)
Lemma rules_for_clients_correct upload download addresses lan wan :
  let rules := rules_for_clients upload download addresses lan wan in
  (∀ r, r ∈ rules ↔ wanted_rule upload download addresses lan wan r) ∧
  NoDup rules ∧ StronglySorted (λ a b, rule_leb a b = true) rules ∧
  (NoDup ((λ c, to_ascii_lowercase (mac c)) <$> upload) → NoDup ((λ c, to_ascii_lowercase (mac c)) <$> download) →
   (∀ m m' a, (m, a) ∈ addresses → (m', a) ∈ addresses → to_ascii_lowercase m = to_ascii_lowercase m') →
   NoDup ((λ r, (rule_direction r, address r)) <$> rules)).
Proof.
  intros rules. assert (∀ r, r ∈ rules ↔ wanted_rule upload download addresses lan wan r) as Hin.
  { intros [i o a d t]. unfold rules, rules_for_clients. rewrite elem_of_dedup, elem_of_sort_by, elem_of_app, !elem_of_direction_rules.
    unfold wanted_rule. cbn. split.
    - intros [(c & m & a' & Hc & Ha & He & [= -> -> -> -> ->])|(c & m & a' & Hc & Ha & He & [= -> -> -> -> ->])]; by exists c, m.
    - intros (c & m & Hc & Ha & He & -> & Hi). destruct d; simplify_eq; [left|right]; by exists c, m, a. }
  destruct (dedup_sorted rule_leb (sort_by rule_leb (direction_rules upload addresses (λ c a, mkRule lan wan a Upload (tag c))
    ++ direction_rules download addresses (λ c a, mkRule wan lan a Download (tag c)))) _) as [Hs Hnd].
  { apply sort_by_sorted; apply rule_order. }
  fold rules in Hs, Hnd. split_and!; [done|done|done|]. intros Hup Hdown Haddr. apply NoDup_fmap_2_strong; [|exact Hnd].
  intros r r' Hr Hr' [= Hd Ha]. apply Hin in Hr as (c & m & Hc & Hm & He & Ht & Hi). apply Hin in Hr' as (c' & m' & Hc' & Hm' & He' & Ht' & Hi').
  rewrite Ha in Hm. apply eq_ignore_ascii_case_spec in He, He'. pose proof (Haddr _ _ _ Hm Hm') as Hmm.
  assert (c = c') as <-.
  { rewrite Hd in Hc. destruct (rule_direction r'); [apply (NoDup_key_inj (λ c, to_ascii_lowercase (mac c)) upload)|apply (NoDup_key_inj (λ c, to_ascii_lowercase (mac c)) download)]; try done; congruence. }
  rewrite <- Hd in Hi'. destruct r, r'. cbn in *. congruence.
Qed.
