(* ===== verification/Store.v ===== *)
(** The persisted policy state of the agent
    (src/crates/agent/src/policy/state.rs): its validation, loading and
    crash-safe replacement.  A file system keeps what programs see apart from
    what survives a crash: data reaches the disk only when the file is synced, a
    new directory entry only when the directory is.  Every call may fail, and a
    crash may come between any two steps.  Paths are those of files in one
    existing directory, so that [Path::parent] succeeds; serde_json is the class
    [StateCodec]. *)

From S2P Require Import Prelude Topology PolicyWire Shaper Marks.

Definition MAX_POLICY_STATE_BYTES : Z := 2 * 1024 * 1024.
Definition MAX_BLOCKED_ADDRESSES_PER_FAMILY : Z := 16384.

Record PolicyState := mkState {
  st_schema_version : Z;
  st_gateway_id : string;
  st_controller_epoch : string;
  st_config_revision : Z;
  st_bundle_generation : Z;
  st_checksum : string;
  topology_fingerprint : string;
  st_snapshot : PolicyWireFrame;
  blocked_clients_v4 : list IpAddr;
  blocked_clients_v6 : list IpAddr;
  shaping_state : option ShapingState;
  shaping_marks : list MarkRule;
}.

Inductive StoreError :=
| BadFrame (message : string)
| NotASnapshot
| UnsupportedStateSchema
| BadFingerprint
| OtherGateway
| IdentityMismatch
| BadFamily
| TooManyAddresses
| BadShaping
| TooManyMarks
| BadJson (message : string)
| TooLarge
| ReadFailed
| WriteFailed.

Class StateCodec := {
  state_to_json : PolicyState → result string (list Z);
  state_from_json : list Z → result string PolicyState;
}.

(** ** Validation *)

Definition lower_hex (b : Z) : bool := (in_range 48 57 b || in_range 97 102 b)%bool.

Definition identity_of (s : PolicyState) : string * string * Z * Z * string :=
  (st_gateway_id s, st_controller_epoch s, st_config_revision s, st_bundle_generation s, st_checksum s).

Section store.
Context `{PolicyCodec} `{StateCodec}.

Definition from_snapshot (snapshot : PolicyWireFrame) (fingerprint : string) (v4 v6 : list IpAddr)
    (shaping : option ShapingState) (marks : list MarkRule) : result StoreError PolicyState :=
  _ ← map_err BadFrame (validate snapshot);
  match snapshot_identity snapshot with
  | None => Err NotASnapshot
  | Some (gateway, epoch, revision, generation, checksum) =>
    Ok (mkState 1 gateway epoch revision generation checksum fingerprint snapshot v4 v6 shaping marks)
  end.

Definition state_validate (s : PolicyState) (expected_gateway : string) : result StoreError () :=
  _ ← reject_if (negb (st_schema_version s =? 1)) UnsupportedStateSchema;
  _ ← reject_if (negb (str_is_empty (topology_fingerprint s))
        && (negb (str_len (topology_fingerprint s) =? 64) || negb (forallb lower_hex (str_bytes (topology_fingerprint s)))))%bool BadFingerprint;
  _ ← reject_if (negb (String.eqb (st_gateway_id s) expected_gateway)) OtherGateway;
  _ ← map_err BadFrame (validate (st_snapshot s));
  identity ← ok_or (snapshot_identity (st_snapshot s)) NotASnapshot;
  _ ← reject_if (negb (bool_decide (identity = identity_of s))) IdentityMismatch;
  _ ← reject_if (existsb (λ a, negb (is_ipv4 a)) (blocked_clients_v4 s) || existsb is_ipv4 (blocked_clients_v6 s))%bool BadFamily;
  _ ← reject_if ((MAX_BLOCKED_ADDRESSES_PER_FAMILY <? zlen (blocked_clients_v4 s))
        || (MAX_BLOCKED_ADDRESSES_PER_FAMILY <? zlen (blocked_clients_v6 s)))%bool TooManyAddresses;
  _ ← match shaping_state s with
      | Some shaping => map_err (λ _, BadShaping) (shaping_validate shaping)
      | None => Ok ()
      end;
  reject_if (512 <? zlen (shaping_marks s)) TooManyMarks.

(** ** The disk *)

(** [dir] and [data] are what programs see; [disk_dir] is the directory on the
    disk, and [flushed] the files whose data is on it. *)
Record Disk := mkDisk {
  dir : gmap string nat;
  disk_dir : gmap string nat;
  data : gmap nat (list Z);
  flushed : gset nat;
}.

Definition file_of (d : Disk) (name : string) : option (list Z) := i ← dir d !! name; data d !! i.

(** What [name] may be after a crash. *)
Definition survives (d : Disk) (name : string) (content : option (list Z)) : Prop :=
  match content with
  | None => dir d !! name = None ∨ disk_dir d !! name = None
  | Some c => ∃ i, (dir d !! name = Some i ∨ disk_dir d !! name = Some i) ∧ (i ∈ flushed d → data d !! i = Some c)
  end.

(** [OpenOptions::create(true).truncate(true)]: an existing file is emptied. *)
Definition disk_open (d : Disk) (name : string) : Disk * nat :=
  match dir d !! name with
  | Some i => (mkDisk (dir d) (disk_dir d) (<[i := []]> (data d)) (flushed d ∖ {[i]}), i)
  | None => let i := fresh (dom (data d)) in (mkDisk (<[name := i]> (dir d)) (disk_dir d) (<[i := []]> (data d)) (flushed d), i)
  end.
Definition disk_write (d : Disk) (i : nat) (bytes : list Z) : Disk := mkDisk (dir d) (disk_dir d) (<[i := bytes]> (data d)) (flushed d ∖ {[i]}).
Definition disk_sync (d : Disk) (i : nat) : Disk := mkDisk (dir d) (disk_dir d) (data d) ({[i]} ∪ flushed d).
Definition disk_rename (d : Disk) (from to : string) : option Disk :=
  i ← dir d !! from; Some (mkDisk (<[to := i]> (delete from (dir d))) (disk_dir d) (data d) (flushed d)).
Definition disk_remove (d : Disk) (name : string) : Disk := mkDisk (delete name (dir d)) (disk_dir d) (data d) (flushed d).
Definition sync_parent (d : Disk) : Disk := mkDisk (dir d) (dir d) (data d) (flushed d).

(** Which calls fail; a failing [write_all] has written some bytes. *)
Record Faults := mkFaults {
  mkdir_fails : bool;
  open_fails : bool;
  write_fails : option nat;
  sync_fails : bool;
  rename_fails : bool;
  sync_parent_fails : bool;
}.
Definition no_faults : Faults := mkFaults false false None false false false.

(** [path.with_extension(..)] with the extension [tmp.<pid>]: the last extension
    of the file name is replaced. *)
Fixpoint last_dot (bs : list Z) : option (list Z) :=
  match bs with
  | [] => None
  | b :: bs => match last_dot bs with Some stem => Some (b :: stem) | None => if b =? 46 then Some [] else None end
  end.
Definition file_stem (name : string) : list Z :=
  match last_dot (str_bytes name) with None | Some [] => str_bytes name | Some stem => stem end.
Definition with_extension (name extension : string) : string := bytes_str (file_stem name ++ 46 :: str_bytes extension).
Definition temporary_name (name : string) (pid : Z) : string := with_extension name (String.append "tmp." (dec_text pid)).

(** The states of the disk the steps go through, and the outcome; the first
    state is the initial one. *)
Definition atomic_write (d : Disk) (pid : Z) (path : string) (contents : list Z) (f : Faults) : list Disk * result StoreError () :=
  let temporary := temporary_name path pid in
  if (mkdir_fails f || open_fails f)%bool then ([d], Err WriteFailed)
  else
    let '(d1, i) := disk_open d temporary in
    let written n := (λ n, disk_write d1 i (take n contents)) <$> seq 0 (S n) in
    match write_fails f with
    | Some n => (d :: d1 :: written n, Err WriteFailed)
    | None =>
      let d2 := disk_write d1 i contents in
      let trace := d :: d1 :: written (length contents) in
      if sync_fails f then (trace, Err WriteFailed)
      else
        let d3 := disk_sync d2 i in
        if rename_fails f then (trace ++ [d3], Err WriteFailed)
        else match disk_rename d3 temporary path with
        | None => (trace ++ [d3], Err WriteFailed)
        | Some d4 =>
          if sync_parent_fails f then (trace ++ [d3; d4], Err WriteFailed)
          else (trace ++ [d3; d4; sync_parent d4], Ok ())
        end
    end.

(** ** Loading and storing *)

Definition load_any (d : Disk) (path : string) (io_fails : bool) : result StoreError (option PolicyState) :=
  match file_of d path with
  | None => Ok None
  | Some contents =>
    if io_fails then Err ReadFailed
    else
      let contents := ztake (MAX_POLICY_STATE_BYTES + 1) contents in
      _ ← reject_if (MAX_POLICY_STATE_BYTES <? zlen contents) TooLarge;
      value ← map_err BadJson (state_from_json contents);
      _ ← state_validate value (st_gateway_id value);
      Ok (Some value)
  end.

Definition load (d : Disk) (path expected_gateway : string) (io_fails : bool) : result StoreError (option PolicyState) :=
  state ← load_any d path io_fails;
  _ ← match state with Some s => state_validate s expected_gateway | None => Ok () end;
  Ok state.

Definition persist (d : Disk) (pid : Z) (path : string) (value : PolicyState) (f : Faults) : list Disk * result StoreError () :=
  match
    _ ← state_validate value (st_gateway_id value);
    identity ← ok_or (snapshot_identity (st_snapshot value)) NotASnapshot;
    _ ← reject_if (negb (bool_decide (identity = identity_of value))) IdentityMismatch;
    bytes ← map_err BadJson (state_to_json value);
    _ ← reject_if (MAX_POLICY_STATE_BYTES <? zlen bytes) TooLarge;
    Ok bytes
  with
  | Err e => ([d], Err e)
  | Ok bytes => atomic_write d pid path bytes f
  end.

Definition write_disabled_marker (d : Disk) (pid : Z) (path : string) (f : Faults) : list Disk * result StoreError () :=
  atomic_write d pid path (str_bytes "netqmon emergency policy disable" ++ [10]) f.

Definition remove_disabled_marker (d : Disk) (path : string) (remove_fails sync_fails : bool) : Disk * result StoreError () :=
  match dir d !! path with
  | None => (d, Ok ())
  | Some _ =>
    if remove_fails then (d, Err WriteFailed)
    else if sync_fails then (disk_remove d path, Err WriteFailed)
    else (sync_parent (disk_remove d path), Ok ())
  end.

Definition quarantine_gateway_mismatch (d : Disk) (path : string) (now_ms : Z) (rename_fails sync_fails : bool) : Disk * result StoreError () :=
  let target := with_extension path (String.append "gateway-mismatch-" (dec_text now_ms)) in
  match disk_rename d path target with
  | None => (d, Err WriteFailed)
  | Some d' =>
    if rename_fails then (d, Err WriteFailed)
    else if sync_fails then (d', Err WriteFailed) else (sync_parent d', Ok ())
  end.

End store.

(** ** Names *)

Lemma last_dot_Some bs stem : last_dot bs = Some stem → ∃ ext, bs = stem ++ 46 :: ext ∧ 46 ∉ ext.
Proof.
  revert stem. induction bs as [|b bs IH]; [done|]. intros stem. cbn. destruct (last_dot bs) as [s|] eqn:Hs.
  - intros [= <-]. destruct (IH s eq_refl) as (ext & -> & Hext). by exists ext.
  - destruct (Z.eqb_spec b 46) as [->|]; [|done]. intros [= <-]. exists bs. split; [done|]. intros Hin. clear IH.
    induction bs as [|c bs IH]; [by apply elem_of_nil in Hin|]. cbn in Hs. destruct (last_dot bs); [done|].
    destruct (Z.eqb_spec c 46) as [|Hc]; [done|]. apply elem_of_cons in Hin as [?|Hin]; [congruence|auto].
Qed.

Lemma file_stem_u8 name : Forall is_u8 (file_stem name).
Proof.
  unfold file_stem. destruct (last_dot (str_bytes name)) as [[|b stem]|] eqn:Hl; try apply str_bytes_u8.
  apply last_dot_Some in Hl as (ext & He & _). pose proof (str_bytes_u8 name) as Hu. rewrite He, Forall_app in Hu. apply Hu.
Qed.

Lemma temporary_name_ne name pid : temporary_name name pid ≠ name.
Proof.
  intros Heq. apply (f_equal str_bytes) in Heq. unfold temporary_name, with_extension in Heq.
  rewrite str_bytes_of in Heq.
  2:{ apply Forall_app. split; [apply file_stem_u8|]. constructor; [split; lia|apply str_bytes_u8]. }
  rewrite str_bytes_app in Heq. unfold file_stem in Heq. destruct (last_dot (str_bytes name)) as [[|b stem]|] eqn:Hl.
  - apply (f_equal length) in Heq. rewrite length_app in Heq. cbn in Heq. lia.
  - apply last_dot_Some in Hl as (ext & He & Hext). rewrite He in Heq. apply app_inv_head in Heq. injection Heq as Heq. apply Hext.
    rewrite <- Heq. right. right. right. left.
  - apply (f_equal length) in Heq. rewrite length_app in Heq. cbn in Heq. lia.
Qed.

(** ** Crash safety *)

(** The path is never bound to a file whose data is not on the disk, nor to the
    file about to be truncated. *)
Record settled (d : Disk) (path temporary : string) : Prop := {
  sd_dir : ∀ name i, dir d !! name = Some i → i ∈ dom (data d);
  sd_disk_dir : ∀ name i, disk_dir d !! name = Some i → i ∈ dom (data d);
  sd_flushed : flushed d ⊆ dom (data d);
  sd_path : ∀ i, dir d !! path = Some i ∨ disk_dir d !! path = Some i → i ∈ flushed d ∧ dir d !! temporary ≠ Some i;
}.

Section crash.
Context (path temporary : string) (Hne : temporary ≠ path).

(** Only files other than those of the path changed. *)
Definition path_kept (d d' : Disk) : Prop :=
  dir d' !! path = dir d !! path ∧ disk_dir d' !! path = disk_dir d !! path ∧
  ∀ i, dir d !! path = Some i ∨ disk_dir d !! path = Some i → (i ∈ flushed d' ↔ i ∈ flushed d) ∧ data d' !! i = data d !! i.

Lemma path_kept_survives d d' c : path_kept d d' → survives d' path c → survives d path c.
Proof.
  intros (Hd & Hdd & Hi). unfold survives. destruct c as [c|]; rewrite Hd, Hdd; [|done]. intros (i & Hp & Hc). exists i. split; [done|].
  destruct (Hi i Hp) as [Hf Hdata]. by rewrite <- Hf, <- Hdata.
Qed.

Lemma path_kept_file d d' : path_kept d d' → file_of d' path = file_of d path.
Proof. intros (Hd & _ & Hi). unfold file_of. rewrite Hd. destruct (dir d !! path) as [i|]; [|done]. cbn. apply Hi. auto. Qed.

Lemma path_kept_trans d1 d2 d3 : path_kept d1 d2 → path_kept d2 d3 → path_kept d1 d3.
Proof.
  intros (A1 & B1 & C1) (A2 & B2 & C2). split_and!; [congruence|congruence|]. intros i Hi. destruct (C1 i Hi) as [E1 F1].
  rewrite <- A1, <- B1 in Hi. destruct (C2 i Hi) as [E2 F2]. split; [by rewrite E2|congruence].
Qed.

Lemma disk_open_spec d d' i : settled d path temporary → disk_open d temporary = (d', i) →
  settled d' path temporary ∧ path_kept d d' ∧ dir d' !! temporary = Some i ∧ i ∈ dom (data d').
Proof.
  intros [Hdir Hdd Hfl Hp]. unfold disk_open. destruct (dir d !! temporary) as [j|] eqn:Ht; intros [= <- <-].
  - assert (∀ k, dir d !! path = Some k ∨ disk_dir d !! path = Some k → k ≠ j) as Hk by (intros k Hk ->; by apply (Hp j Hk)).
    split; [|split; [|by cbn; set_solver]].
    + split; cbn; [set_solver|set_solver|set_solver|]. intros k Hk'. destruct (Hp k Hk') as [Hf Hx]. specialize (Hk k Hk'). split; [set_solver|congruence].
    + split_and!; [done|done|]. intros k Hk'. cbn. specialize (Hk k Hk'). rewrite lookup_insert_ne by congruence. set_solver.
  - pose proof (is_fresh (dom (data d))) as Hfresh. set (j := fresh _) in *. clearbody j.
    assert (∀ k, dir d !! path = Some k ∨ disk_dir d !! path = Some k → k ≠ j) as Hk by (intros k [Hk|Hk] ->; eauto).
    split; [|split; [|by cbn; rewrite lookup_insert_eq; set_solver]].
    + split; cbn; [|set_solver|set_solver|].
      * intros name k. rewrite lookup_insert_Some. intros [[_ <-]|[_ Hn]]; [set_solver|]. apply Hdir in Hn. set_solver.
      * rewrite lookup_insert_ne, lookup_insert_eq by done. intros k Hk'. destruct (Hp k Hk') as [Hf _]. specialize (Hk k Hk'). split; [done|congruence].
    + split_and!; [cbn; by rewrite lookup_insert_ne|done|]. intros k Hk'. cbn. specialize (Hk k Hk'). by rewrite lookup_insert_ne by congruence.
Qed.

Lemma disk_write_spec d i bytes : settled d path temporary → dir d !! temporary = Some i →
  settled (disk_write d i bytes) path temporary ∧ path_kept d (disk_write d i bytes) ∧ dir (disk_write d i bytes) !! temporary = Some i.
Proof.
  intros [Hdir Hdd Hfl Hp] Ht.
  assert (∀ k, dir d !! path = Some k ∨ disk_dir d !! path = Some k → k ≠ i) as Hk by (intros k Hk ->; by apply (Hp i Hk)).
  split; [|split; [split; [done|split; [done|]]|done]].
  - split; cbn; [set_solver|set_solver|set_solver|]. intros k Hk'. destruct (Hp k Hk') as [Hf Hx]. specialize (Hk k Hk'). split; [set_solver|done].
  - intros k Hk'. cbn. specialize (Hk k Hk'). rewrite lookup_insert_ne by congruence. set_solver.
Qed.

Lemma disk_sync_spec d i : settled d path temporary → dir d !! temporary = Some i →
  settled (disk_sync d i) path temporary ∧ path_kept d (disk_sync d i) ∧ dir (disk_sync d i) !! temporary = Some i.
Proof.
  intros [Hdir Hdd Hfl Hp] Ht.
  assert (∀ k, dir d !! path = Some k ∨ disk_dir d !! path = Some k → k ≠ i) as Hk by (intros k Hk ->; by apply (Hp i Hk)).
  split; [|split; [split; [done|split; [done|]]|done]].
  - split; cbn; [done|done|apply Hdir in Ht; set_solver|]. intros k Hk'. destruct (Hp k Hk') as [Hf Hx]. split; [set_solver|done].
  - intros k Hk'. cbn. specialize (Hk k Hk'). set_solver.
Qed.

(** The rename makes the new contents the only other possibility. *)
Lemma disk_rename_spec d d' i c : settled d path temporary → dir d !! temporary = Some i → i ∈ flushed d → data d !! i = Some c →
  disk_rename d temporary path = Some d' →
  settled d' path temporary ∧ file_of d' path = Some c ∧ (∀ x, survives d' path x → survives d path x ∨ x = Some c) ∧
  settled (sync_parent d') path temporary ∧ file_of (sync_parent d') path = Some c ∧ (∀ x, survives (sync_parent d') path x ↔ x = Some c).
Proof.
  intros [Hdir Hdd Hfl Hp] Ht Hf Hc. unfold disk_rename. rewrite Ht. cbn. intros [= <-].
  assert (∀ name k, <[path:=i]> (delete temporary (dir d)) !! name = Some k → k ∈ dom (data d)) as Hdir'.
  { intros name k. rewrite lookup_insert_Some. intros [[_ <-]|[_ [_ Hn]%lookup_delete_Some]]; eauto. }
  assert (<[path:=i]> (delete temporary (dir d)) !! temporary = None) as Hnone by (by rewrite lookup_insert_ne, lookup_delete_eq by done).
  assert (<[path:=i]> (delete temporary (dir d)) !! path = Some i) as Hpath by apply lookup_insert_eq.
  split_and!.
  - split; cbn; [done|done|done|]. intros k [Hk|Hk]; (split; [|congruence]); [congruence|]. by apply Hp; right.
  - unfold file_of. cbn. by rewrite Hpath.
  - intros [x|]; cbn; rewrite Hpath.
    + intros (k & [[= <-]|Hk] & Hx); [right; by rewrite Hc in Hx; specialize (Hx Hf); injection Hx as ->|]. left. by exists k; auto.
    + intros [?|Hn]; [done|]. left. by right.
  - split; cbn; [done|done|done|]. intros k [Hk|Hk]; (split; [|congruence]); congruence.
  - unfold file_of. cbn. by rewrite Hpath.
  - intros [x|]; cbn; rewrite Hpath; split.
    + intros (k & [[= <-]|[= <-]] & Hx); specialize (Hx Hf); congruence.
    + intros [= ->]. exists i. auto.
    + by intros [|].
    + done.
Qed.

End crash.

(** What a crash in [d'] may leave, coming from [d]. *)
Definition old_or_new (path : string) (contents : list Z) (d d' : Disk) : Prop :=
  (∀ x, survives d' path x → survives d path x ∨ x = Some contents) ∧
  (file_of d' path = file_of d path ∨ file_of d' path = Some contents).

Lemma path_kept_old path contents d d' : path_kept path d d' → old_or_new path contents d d'.
Proof. intros Hk. split; [intros x Hx; left; by eapply path_kept_survives|left; by apply path_kept_file]. Qed.

Lemma atomic_write_spec d pid path contents f : settled d path (temporary_name path pid) →
  let '(trace, r) := atomic_write d pid path contents f in
  Forall (λ d', settled d' path (temporary_name path pid) ∧ old_or_new path contents d d') trace ∧
  (r = Ok () → ∃ d', last trace = Some d' ∧ file_of d' path = Some contents ∧ ∀ x, survives d' path x ↔ x = Some contents) ∧
  (f = no_faults → r = Ok ()).
Proof.
  intros Hs. pose proof (temporary_name_ne path pid) as Hne. unfold atomic_write. set (temporary := temporary_name path pid) in *. clearbody temporary.
  assert (settled d path temporary ∧ old_or_new path contents d d) as H0 by (split; [done|]; apply path_kept_old; by split).
  destruct (mkdir_fails f || open_fails f)%bool eqn:Hmk.
  { split_and!; [by apply Forall_singleton|done|by intros ->]. }
  destruct (disk_open d temporary) as [d1 i] eqn:Ho. destruct (disk_open_spec path temporary Hne d d1 i Hs Ho) as (Hs1 & Hk1 & Ht1 & _).
  assert (settled d1 path temporary ∧ old_or_new path contents d d1) as H1 by (split; [done|by apply path_kept_old]).
  set (wr := λ n, (λ n, disk_write d1 i (take n contents)) <$> seq 0 (S n)).
  assert (∀ n, Forall (λ d', settled d' path temporary ∧ old_or_new path contents d d') (wr n)) as Hw.
  { intros n. apply Forall_fmap, Forall_forall. intros m _. destruct (disk_write_spec path temporary Hne d1 i (take m contents) Hs1 Ht1) as (Hs2 & Hk2 & _).
    split; [done|]. apply path_kept_old. by eapply path_kept_trans. }
  destruct (write_fails f) as [n|] eqn:Hwf.
  { split_and!; [do 2 (constructor; [done|]); apply Hw|done|by intros ->]. }
  assert (Forall (λ d', settled d' path temporary ∧ old_or_new path contents d d') (d :: d1 :: wr (length contents))) as Htr by (do 2 (constructor; [done|]); apply Hw).
  change ((λ n, disk_write d1 i (take n contents)) <$> seq 0 (S (length contents))) with (wr (length contents)).
  set (trace := d :: d1 :: wr (length contents)) in *. clearbody trace. clear wr Hw.
  destruct (sync_fails f) eqn:Hsf; [split_and!; [done|done|by intros ->]|].
  destruct (disk_write_spec path temporary Hne d1 i contents Hs1 Ht1) as (Hs2 & Hk2 & Ht2). set (d2 := disk_write d1 i contents) in *.
  destruct (disk_sync_spec path temporary Hne d2 i Hs2 Ht2) as (Hs3 & Hk3 & Ht3). set (d3 := disk_sync d2 i) in *.
  assert (path_kept path d d3) as Hk by (eapply path_kept_trans; [|exact Hk3]; by eapply path_kept_trans).
  assert (Forall (λ d', settled d' path temporary ∧ old_or_new path contents d d') (trace ++ [d3])) as Htr3.
  { apply Forall_app. split; [done|]. apply Forall_singleton. split; [done|by apply path_kept_old]. }
  destruct (rename_fails f) eqn:Hrf; [split_and!; [done|done|by intros ->]|].
  destruct (disk_rename d3 temporary path) as [d4|] eqn:Hr; [|exfalso; unfold disk_rename in Hr; by rewrite Ht3 in Hr].
  destruct (disk_rename_spec path temporary Hne d3 d4 i contents Hs3 Ht3) as (Hs4 & Hf4 & Hx4 & Hs5 & Hf5 & Hx5); [cbn; set_solver|cbn; apply lookup_insert_eq|done|].
  assert (old_or_new path contents d d4) as Ho4.
  { split; [|by right]. intros x Hx. destruct (Hx4 x Hx) as [Hx'|]; [left; by eapply path_kept_survives|by right]. }
  replace (trace ++ [d3; d4]) with ((trace ++ [d3]) ++ [d4]) by (by rewrite <- app_assoc).
  replace (trace ++ [d3; d4; sync_parent d4]) with (((trace ++ [d3]) ++ [d4]) ++ [sync_parent d4]) by (by rewrite <- !app_assoc).
  assert (Forall (λ d', settled d' path temporary ∧ old_or_new path contents d d') ((trace ++ [d3]) ++ [d4])) as Htr4.
  { apply Forall_app. split; [done|]. by apply Forall_singleton. }
  destruct (sync_parent_fails f) eqn:Hpf; [split_and!; [done|done|by intros ->]|]. split_and!; [|intros _|done].
  - apply Forall_app. split; [done|]. apply Forall_singleton. split; [done|]. split; [|by right]. intros x Hx. right. by apply Hx5.
  - exists (sync_parent d4). split_and!; [by rewrite last_snoc|done|done].
Qed.

(** ** The theorems *)

Section persistence.
Context `{PolicyCodec} `{StateCodec}.

Lemma load_persisted d path value bytes : file_of d path = Some bytes → zlen bytes ≤ MAX_POLICY_STATE_BYTES →
  state_from_json bytes = Ok value → state_validate value (st_gateway_id value) = Ok () →
  load d path (st_gateway_id value) false = Ok (Some value).
Proof.
  intros Hf Hl Hj Hv. unfold load, load_any. rewrite Hf. cbn [mbind result_bind]. rewrite ztake_all by lia.
  assert ((MAX_POLICY_STATE_BYTES <? zlen bytes) = false) as -> by (by apply Z.ltb_ge). cbn [reject_if mbind result_bind]. rewrite Hj.
  cbn [map_err mbind result_bind]. by rewrite !Hv; cbn [mbind result_bind]; rewrite Hv.
Qed.

(** C10: Replacing the saved policy is atomic, durable and readable. Whatever
    calls fail and whenever the machine stops, what the path holds afterwards is
    what it could have held before, or the new state in full: never a truncated
    or mixed file. When the call succeeds the new state is the only possibility,
    and loading it for its gateway gives back exactly the state that was stored.
    Without failures the call succeeds for every state that is valid and within
    the size limit; an invalid or too large one changes nothing. *)
Theorem persist_crash_safe d pid path value bytes f :
  settled d path (temporary_name path pid) → state_to_json value = Ok bytes → state_from_json bytes = Ok value →
  let '(trace, r) := persist d pid path value f in
  Forall (λ d', settled d' path (temporary_name path pid) ∧ old_or_new path bytes d d') trace ∧
  (r = Ok () → ∃ d', last trace = Some d' ∧ (∀ x, survives d' path x ↔ x = Some bytes) ∧
     load d' path (st_gateway_id value) false = Ok (Some value)) ∧
  (state_validate value (st_gateway_id value) = Ok () → zlen bytes ≤ MAX_POLICY_STATE_BYTES → f = no_faults → r = Ok ()) ∧
  (state_validate value (st_gateway_id value) ≠ Ok () ∨ MAX_POLICY_STATE_BYTES < zlen bytes → trace = [d] ∧ r ≠ Ok ()).
Proof.
  intros Hs Hto Hfrom. unfold persist.
  assert (∀ e : StoreError, let '(trace, r) := ([d], Err e : result StoreError ()) in
    Forall (λ d', settled d' path (temporary_name path pid) ∧ old_or_new path bytes d d') trace ∧ r ≠ Ok ()) as Hfail.
  { intros e. split; [|done]. apply Forall_singleton. split; [done|]. by apply path_kept_old. }
  destruct (state_validate value (st_gateway_id value)) as [[]|e] eqn:Hv; cbn [mbind result_bind].
  2:{ destruct (Hfail e) as [Hf _]. by split_and!; [done|done|done|]. }
  assert (∃ identity, snapshot_identity (st_snapshot value) = Some identity ∧ identity = identity_of value) as (identity & Hid & Heq).
  { revert Hv. unfold state_validate. do 4 (intros (? & _ & Hv)%bind_Ok; revert Hv). intros (identity & Hid & Hv)%bind_Ok. exists identity.
    apply ok_or_Ok in Hid. split; [done|]. apply bind_Ok in Hv as (? & Hm%reject_if_Ok & _). apply negb_false_iff in Hm. by apply bool_decide_eq_true in Hm. }
  rewrite Hid. cbn [ok_or mbind result_bind]. rewrite bool_decide_eq_true_2 by done. cbn [negb reject_if mbind result_bind].
  rewrite Hto. cbn [map_err mbind result_bind]. destruct (MAX_POLICY_STATE_BYTES <? zlen bytes) eqn:Hl; cbn [reject_if mbind result_bind].
  { destruct (Hfail TooLarge) as [Hf _]. apply Z.ltb_lt in Hl. split_and!; [done|done|lia|done]. }
  apply Z.ltb_ge in Hl. pose proof (atomic_write_spec d pid path bytes f Hs) as Hw. destruct (atomic_write d pid path bytes f) as [trace r].
  destruct Hw as (Hall & Hok & Hnf). split_and!; [done| |auto|].
  - intros Hr. destruct (Hok Hr) as (d' & Hlast & Hfile & Hx). exists d'. split_and!; [done|done|]. by eapply load_persisted.
  - intros [?|?]; [done|lia].
Qed.

End persistence.

Module StoreExample.
Definition state : PolicyState :=
  mkState 1 "gw" PolicyWire.Example.epoch 3 4 (snap_checksum PolicyWire.Example.frame) "" (PolicySnapshot PolicyWire.Example.frame)
    [V4 3232235796] [] None [mkRule "br-lan" "wan" (V4 3232235796) Upload 1].
Definition codec : StateCodec := {| state_to_json := λ _, Ok [123; 125]; state_from_json := λ _, Ok state |}.
(** A disk with an older state. *)
Definition disk : Disk := mkDisk {[ "policy.json" := 0%nat ]} {[ "policy.json" := 0%nat ]} {[ 0%nat := [7] ]} {[ 0%nat ]}.
Lemma disk_settled : settled disk "policy.json" (temporary_name "policy.json" 4).
Proof.
  split.
  - intros name i Hi. cbn in Hi. apply lookup_singleton_Some in Hi as [_ <-]. cbn. set_solver.
  - intros name i Hi. cbn in Hi. apply lookup_singleton_Some in Hi as [_ <-]. cbn. set_solver.
  - cbn. set_solver.
  - intros i Hi. assert (i = 0%nat) as -> by (cbn in Hi; destruct Hi as [Hi|Hi]; by apply lookup_singleton_Some in Hi as [_ <-]).
    split; [cbn; set_solver|]. by vm_compute.
Qed.
End StoreExample.

Lemma persist_crash_safe_witness :
  let '(trace, r) := @persist PolicyWire.Example.codec StoreExample.codec StoreExample.disk 4 "policy.json" StoreExample.state no_faults in
  length trace = 8%nat ∧ r = Ok () ∧ Forall (old_or_new "policy.json" [123; 125] StoreExample.disk) trace.
Proof.
  pose proof (@persist_crash_safe PolicyWire.Example.codec StoreExample.codec StoreExample.disk 4 "policy.json" StoreExample.state [123; 125] no_faults
    StoreExample.disk_settled eq_refl eq_refl) as Hp.
  destruct (persist _ _ _ _ _) as [trace r] eqn:He. destruct Hp as (Hall & _ & Hok & _).
  assert (length (fst (@persist PolicyWire.Example.codec StoreExample.codec StoreExample.disk 4 "policy.json" StoreExample.state no_faults)) = 8%nat)
    as Hlen by (vm_compute; reflexivity).
  rewrite He in Hlen. split_and!; [exact Hlen| |].
  - apply Hok; [vm_compute; reflexivity|vm_compute; congruence|reflexivity].
  - eapply Forall_impl; [exact Hall|]. intros d' Hd. apply Hd.
Defined.
