(* ===== verification/Command.v ===== *)
(** Flow commands on the agent (apply_flow_command and its helpers in
    src/crates/agent/src/policy/receiver.rs, snapshot_has_enabled_application_verdicts
    in policy/mod.rs, ShapeTagRejection in policy/shape_tags.rs): from a command of
    the collector, through the flow's aliases and the saved snapshot, to the
    verdict map and the acknowledgement.  It is the HTB backend, the one without a
    priority runtime.  What the function reads from its surroundings - clocks, the
    saved state, the kernel's connection table and sockets, flags - is the record
    [Situation]; mutexes are not poisoned. *)

From S2P Require Import Prelude Topology PolicyWire Schedule Compiler Evaluator Flow Normalization Shaper Marks Store Verdict Aliases.

(** ** Policies a command may cite *)

Definition snapshot_has_enabled_application_verdicts (snapshot : PolicyWireFrame) : bool :=
  match snapshot with
  | PolicySnapshot f => existsb (λ p, enabled (spec p) && names_application p)%bool (policies f)
  | _ => false
  end.

(** What the check asks of one cited policy. *)
Definition policy_reference_valid (f : PolicySnapshotFrame) (v : option FlowVerdict) (issued expires : Z) (pid : string) : bool :=
  match List.find (λ p, String.eqb (PolicyWire.id p) pid) (policies f) with
  | None => false
  | Some p =>
    let active_schedule :=
      match schedule (spec p) with
      | None => true
      | Some _ =>
        match e ← find_intervals (schedule_intervals f) pid; List.find (covers issued) (intervals e) with
        | Some i => expires <=? end_ms i
        | None => false
        end
      end in
    (active_schedule && enabled (spec p) && names_application p
     && match v with
        | Some VBlock => bool_decide (kind (action (spec p)) = Block)
        | Some VAllow => bool_decide (kind (action (spec p)) = Allow)
        | Some VShape => bool_decide (kind (action (spec p)) = Limit) && negb (no_selector (PolicyWire.clients (selectors (spec p))))
        | None => false
        end)%bool
  end.

Definition flow_command_policy_references_valid (state : option PolicyState) (ids : list string) (v : option FlowVerdict)
    (issued expires : Z) : bool :=
  match state with
  | None => false
  | Some s =>
    match st_snapshot s with
    | PolicySnapshot f =>
      if (no_selector ids || (expires <=? issued) || (valid_until_ms f <? expires))%bool then false
      else forallb (policy_reference_valid f v issued expires) ids
    | _ => false
    end
  end.

(** ** Which keys are blocked *)

Definition MAX_BLOCK_ALIASES : Z := 8.

Definition reverse_key (k : FlowKey) (h : Z) : FlowKey :=
  mkKey (ip_version k) (protocol k) (Flow.direction k) h (Flow.ifindex k) (destination_address k) (source_address k)
    (destination_port k) (source_port k).
Definition with_hook (k : FlowKey) (h : Z) : FlowKey :=
  mkKey (ip_version k) (protocol k) (Flow.direction k) h (Flow.ifindex k) (source_address k) (destination_address k)
    (source_port k) (destination_port k).

Definition push_block_alias (result : list FlowKey) (k : FlowKey) : list FlowKey :=
  if ((zlen result <? MAX_BLOCK_ALIASES) && negb (bool_decide (k ∈ result)))%bool then result ++ [k] else result.

Definition block_variants (k : FlowKey) : list FlowKey :=
  [reverse_key k 1; reverse_key k 2; with_hook k (if hook k =? 1 then 2 else 1)].

Definition block_reverse_aliases (ks : list FlowKey) : list FlowKey :=
  let ks := take 8 ks in
  foldl push_block_alias (foldl push_block_alias [] ks) (ks ≫= block_variants).

(** ** Which classes shape a flow *)

Section tags.
Context (shaping : ShapingState) (client_mac : string).
Context (direction : FlowKey → option Shaper.Direction) (shared_wan_ingress : list Z).

Definition class_fits (k : FlowKey) (pid : string) (i : ManagedInterface) (c : ApplicationClass) : bool :=
  (String.eqb (app_policy_id c) pid && eq_ignore_ascii_case (app_mac c) client_mac && (app_ifindex c =? m_ifindex i)
   && (negb (shared_egress i) || bool_decide (direction k = Some (app_direction c))))%bool.

Definition interface_fits (k : FlowKey) (i : ManagedInterface) : bool :=
  if hook k =? 1 then
    (match upload_interface shaping with Some u => m_ifindex u =? m_ifindex i | None => false end
     && bool_decide (direction k = Some Shaper.Upload))%bool
  else m_ifindex i =? Flow.ifindex k.

(** [policy_ids.iter().find_map(..)]: the class of the first policy with one. *)
Definition class_for (k : FlowKey) (ids : list string) : option ApplicationClass :=
  head (omap (λ pid, head (omap (λ i, List.find (class_fits k pid i) (application_classes i))
                             (List.filter (interface_fits k) (interfaces shaping)))) ids).

Definition shapeable (k : FlowKey) : bool :=
  ((hook k =? 2) || ((hook k =? 1) && existsb (Z.eqb (Flow.ifindex k)) shared_wan_ingress))%bool.

Definition application_shape_tags (ks : list FlowKey) (ids : list string) : option (list (FlowKey * Z)) :=
  let tags := omap (λ k, (λ c, (k, app_tag c)) <$> class_for k ids) (List.filter shapeable ks) in
  if bool_decide (tags = []) then None else Some tags.

End tags.

(** [if_nametoindex] is the system's. *)
Definition shared_wan_ingress_ifindices (if_nametoindex : string → option Z) (s : PolicyState) : list Z :=
  match sh ← shaping_state s; upload_interface sh with
  | None => []
  | Some upload =>
    let uploads := List.filter (λ r, bool_decide (rule_direction r = Shaper.Upload)) (shaping_marks s) in
    if existsb (λ r, negb (String.eqb (interface_out r) (Shaper.name upload))) uploads then
      btree_elements Z.leb (list_to_set (omap (λ r, if_nametoindex (interface_in r)) uploads))
    else []
  end.

(** ** Outcomes *)

Abbreviation Outcome := (FlowAckStatus * option string)%type.

Definition block_ack_status (proxy_capacity_exceeded proxy_unresolved flow_partial : bool) : Outcome :=
  if proxy_capacity_exceeded then (AckPartial, Some "proxy_alias_capacity_exceeded")
  else if proxy_unresolved then (AckPartial, Some "proxy_return_path_unresolved")
  else if flow_partial then (AckPartial, Some "partial_alias_coverage")
  else (AckApplied, None).

Definition shape_coverage_status (incomplete : bool) : Outcome :=
  if incomplete then (AckPartial, Some "partial_alias_coverage") else (AckApplied, None).

(** [ShapeTagRejection::reason]. *)
Definition rejection_reason (controlled_hook client_mac_present flow_direction_known direction_unknown tuple_unverified : bool) : string :=
  if negb controlled_hook then "traffic_not_on_controlled_hook"
  else if negb client_mac_present then "flow_identity_or_alias_mismatch"
  else if direction_unknown then "alias_direction_unknown"
  else if tuple_unverified then "alias_tuple_unverified"
  else if negb flow_direction_known then "flow_identity_or_alias_mismatch"
  else "application_class_unresolved".

(** ** The command *)

Record Situation := mkSituation {
  si_gateway_id : string;
  si_boot_id : string;
  saved : option PolicyState;
  refreshed_conntrack : ConntrackContext;
  sockets : ProxySocketContext;
  topology : TopologySnapshot;
  flow_commands_enabled : bool;
  flow_bpf_ready : bool;
  policy_disabled : bool;
  endpoint_cache_enabled : bool;
  now_ms : Z;
  received_monotonic_ns : Z;
  shape_monotonic_ns : Z;
  writer_monotonic_ns : Z;
  ack_reported_at_ms : Z;
  if_nametoindex : string → option Z;
}.

Record Agent := mkAgent {
  cache : PolicyFlowAliasCache;
  conntrack : ConntrackContext;
  writer : FlowVerdictWriter;
}.

Section command.
Context `{AliasOrder} `{Digest} (big_endian : bool) (si : Situation) (cmd : FlowCommandFrame).

Abbreviation flow := (PolicyWire.policy_flow_id cmd).
Abbreviation is_upsert := (match operation cmd with Upsert => true | Revoke => false end).

Definition set_cache (a : Agent) (c : PolicyFlowAliasCache) : Agent := mkAgent c (conntrack a) (writer a).
Definition set_writer (a : Agent) (w : FlowVerdictWriter) : Agent := mkAgent (cache a) (conntrack a) w.

Definition flow_aliases (a : Agent) : list FlowKey := default [] (aliases (cache a) flow).

(** Refreshing the connection table and the aliases of the flow. *)
Definition reconcile (a : Agent) : Agent :=
  let base := flow_aliases a in
  let table :=
    if (is_upsert && existsb (λ k, bool_decide (conntrack_resolve (conntrack a) k = None)) base)%bool
    then refreshed_conntrack si else conntrack a in
  mkAgent (if is_upsert then reconcile_for_command (cache a) flow None table else cache a) table (writer a).

(** The return paths through a local proxy, from the connection table or else
    from the sockets of the proxy. *)
Definition proxy_resolution (a : Agent) : ProxyReturnResolution := resolve_returns (flow_aliases a) (conntrack a) (sockets si) (topology si).

(** Adding them to the flow; whether one did not fit. *)
Definition add_proxy (st : Agent * bool) (k : FlowKey) : Agent * bool :=
  let '(c, res) := insert_proxy_return (cache (fst st)) flow k in
  (set_cache (fst st) c, (snd st || match res with Ok _ => false | Err _ => true end)%bool).
Definition add_proxies (a : Agent) (r : ProxyReturnResolution) : Agent * bool := foldl add_proxy (a, false) (proxy_aliases r).

Definition revision_matches : bool :=
  match saved si with
  | Some s => (String.eqb (st_controller_epoch s) (fc_controller_epoch cmd) && (st_config_revision s =? fc_config_revision cmd))%bool
  | None => false
  end.

Definition references_valid : bool :=
  flow_command_policy_references_valid (saved si) (policy_ids cmd) (verdict cmd) (issued_at_ms cmd) (expires_at_ms cmd).

(** The conditions before the verdict is looked at, with their reasons. *)
Definition early_outcome (a : Agent) : option Outcome :=
  let ks := flow_aliases a in
  if negb (String.eqb (fc_gateway_id cmd) (si_gateway_id si) && String.eqb (fc_boot_id cmd) (si_boot_id si))%bool then
    Some (AckFailed, Some "flow_identity_unresolved")
  else if expires_at_ms cmd <=? now_ms si then Some (AckExpired, Some "expired")
  else if policy_disabled si then Some (AckUnsupported, Some "emergency_disabled")
  else if negb revision_matches then Some (AckUnsupported, Some "revision_mismatch")
  else if (is_upsert && negb (flow_commands_enabled si))%bool then Some (AckUnsupported, Some "application_policy_disabled")
  else if (is_upsert && negb (flow_bpf_ready si))%bool then Some (AckUnsupported, Some "application_enforcement_unavailable")
  else if (is_upsert && is_ended (cache a) flow)%bool then Some (AckUnsupported, Some "flow_identity_unresolved")
  else if (command_is_stale (cache a) flow (issued_at_ms cmd) && negb (bool_decide (ks = [])))%bool then
    Some (AckExpired, Some "stale_flow_command")
  else match ks with
  | [] =>
    let has_app_verdicts := match saved si with Some s => snapshot_has_enabled_application_verdicts (st_snapshot s) | None => false end in
    if (negb is_upsert && negb has_app_verdicts)%bool then Some (AckApplied, None)
    else Some (AckUnsupported, Some "flow_identity_unresolved")
  | k :: _ =>
    let ttl := i64_saturating_sub (expires_at_ms cmd) (issued_at_ms cmd) in
    if (((protocol k =? 17) && (30000 <? ttl)) || ((protocol k =? 6) && (120000 <? ttl))
        || negb ((protocol k =? 6) || (protocol k =? 17)) || existsb (λ k', negb (protocol k' =? protocol k)) ks)%bool then
      Some (AckFailed, Some "invalid_flow_ttl")
    else if (is_upsert && negb references_valid)%bool then Some (AckFailed, Some "invalid_policy_reference")
    else None
  end.

(** A deadline on the monotonic clock for a wall-clock time. *)
Definition deadline (from_ns until_ms : Z) : Z :=
  u64_saturating_add from_ns (Z.min u64_max (Z.max 0 (i64_saturating_sub until_ms (now_ms si)) * 1000000)).

Definition record (a : Agent) : Agent := set_cache a (fst (record_command (cache a) flow (issued_at_ms cmd))).

Definition client_mac_of (a : Agent) : option string := entry_client_mac (cache a) flow.

Definition endpoint_expiry (mac : string) : option Z :=
  if endpoint_cache_enabled si then
    s ← saved si; block_expires_at_ms (st_snapshot s) (policy_ids cmd) mac (issued_at_ms cmd) (now_ms si)
  else None.

Definition execute_block (a : Agent) (exceeded unresolved partial : bool) : Agent * Outcome :=
  match policy_ids cmd, client_mac_of a with
  | pid :: _, Some mac =>
    let observed := match entries (cache a) !! flow with Some e => elements (observed e) | None => [] end in
    let '(w, r) := install_block big_endian (writer a) (block_reverse_aliases (flow_aliases a)) observed flow pid mac
                     (fc_config_revision cmd) (deadline (received_monotonic_ns si) (expires_at_ms cmd)) (writer_monotonic_ns si) in
    let '(w, r) :=
      match r, endpoint_expiry mac with
      | Ok n, Some expiry =>
        let '(w, r) := remember_endpoint_blocks big_endian w (endpoint_block_aliases (cache a) flow) flow pid mac (fc_config_revision cmd)
                         (u64_saturating_add (received_monotonic_ns si) (Z.min u64_max (i64_saturating_sub expiry (now_ms si) mod 2 ^ 64 * 1000000))) in
        (w, match r with Ok _ => Ok n | Err e => Err e end)
      | r, _ => (w, r)
      end in
    let a := set_writer a w in
    match r with
    | Ok _ => (record a, block_ack_status exceeded unresolved partial)
    | Err TooManyOwners | Err OwnershipFull => (a, (AckFailed, Some "block_owner_capacity_exceeded"))
    | Err _ => (a, (AckFailed, Some "bpf_map_write_failed"))
    end
  | _, _ => (a, (AckFailed, Some "flow_identity_unresolved"))
  end.

Definition execute_allow (a : Agent) : Agent * Outcome :=
  let '(w, r) := clear_aliases big_endian (writer a) (block_reverse_aliases (flow_aliases a)) (Some flow) (writer_monotonic_ns si) in
  let '(w, r) :=
    match r, client_mac_of a with
    | Ok n, Some mac => let '(w, r) := forget_endpoint_blocks w (endpoint_block_aliases (cache a) flow) mac in (w, match r with Ok _ => Ok n | Err e => Err e end)
    | r, _ => (w, r)
    end in
  let a := set_writer a w in
  match r with Ok _ => (record a, (AckApplied, None)) | Err _ => (a, (AckFailed, Some "bpf_map_write_failed")) end.

Definition shaped_direction (a : Agent) (k : FlowKey) : option Shaper.Direction :=
  match shape_direction (cache a) flow k with
  | Some AliasUpload => Some Shaper.Upload
  | Some AliasDownload => Some Shaper.Download
  | _ => None
  end.

Definition shape_tags (a : Agent) : option (list (FlowKey * Z)) :=
  s ← saved si;
  shaping ← shaping_state s;
  mac ← client_mac_of a;
  application_shape_tags shaping mac (shaped_direction a) (shared_wan_ingress_ifindices (if_nametoindex si) s) (flow_aliases a) (policy_ids cmd).

(** Upload classes exist behind a common WAN queue, but no upload was tagged, or
    a proxy ends the connection before that queue. *)
Definition unresolved_class (a : Agent) (proxy_expected : bool) (tags : list (FlowKey * Z)) : bool :=
  match saved si with
  | None => false
  | Some s =>
    let shared := negb (bool_decide (shared_wan_ingress_ifindices (if_nametoindex si) s = [])) in
    let has_class :=
      match sh ← shaping_state s; upload_interface sh, client_mac_of a with
      | Some upload, Some mac =>
        existsb (λ c, eq_ignore_ascii_case (app_mac c) mac && bool_decide (app_policy_id c ∈ policy_ids cmd))%bool (application_classes upload)
      | _, _ => false
      end in
    ((shared && has_class && negb (existsb (λ t, hook (fst t) =? 1) tags)) || (proxy_expected && shared))%bool
  end.

Definition execute_shape (a : Agent) (proxy_expected partial : bool) : Agent * Outcome :=
  let tuple_unverified := has_unverified_aliases (cache a) flow in
  match shape_tags a with
  | Some tags =>
    let '(w, r) := install_shape big_endian (writer a) tags flow (fc_config_revision cmd) (deadline (shape_monotonic_ns si) (expires_at_ms cmd)) in
    let incomplete := (unresolved_class a proxy_expected tags || tuple_unverified || partial)%bool in
    let a := set_writer a w in
    match r with
    | Ok _ => (record a, shape_coverage_status incomplete)
    | Err _ => (a, (AckFailed, Some "bpf_map_write_failed"))
    end
  | None =>
    let ks := flow_aliases a in
    let controlled := existsb (λ k, negb (Flow.ifindex k =? 0) && (hook k =? 2))%bool ks in
    let known := existsb (λ k, bool_decide (is_Some (shaped_direction a k))) ks in
    (a, (AckUnsupported, Some (rejection_reason controlled (bool_decide (is_Some (client_mac_of a))) known false tuple_unverified)))
  end.

Definition execute_revoke (a : Agent) : Agent * Outcome :=
  let '(w, r) := clear_aliases big_endian (writer a) (block_reverse_aliases (flow_aliases a)) (Some flow) (writer_monotonic_ns si) in
  let a := set_writer a w in
  match r with Ok _ => (record a, (AckApplied, None)) | Err _ => (a, (AckFailed, Some "bpf_map_write_failed")) end.

Definition apply_flow_command (a : Agent) : Agent * PolicyWireFrame :=
  let a := reconcile a in
  let proxies := proxy_resolution a in
  let '(a, exceeded) := add_proxies a proxies in
  let unresolved := (expected proxies && (bool_decide (proxy_aliases proxies = []) || proxy_unresolved proxies))%bool in
  let partial := is_partial (cache a) flow in
  let count := zlen (flow_aliases a) in
  let '(a, (status, reason)) :=
    match early_outcome a with
    | Some o => (a, o)
    | None =>
      match operation cmd, verdict cmd with
      | Upsert, Some VBlock => execute_block a exceeded unresolved partial
      | Upsert, Some VAllow => execute_allow a
      | Upsert, Some VShape => execute_shape a (expected proxies) partial
      | Revoke, None => execute_revoke a
      | _, _ => (a, (AckFailed, Some "invalid_flow_operation"))
      end
    end in
  let '(status, reason) :=
    match partial, status with
    | true, AckApplied => (AckPartial, Some "partial_alias_coverage")
    | _, _ => (status, reason)
    end in
  (a, FlowAck (mkFlowAck POLICY_WIRE_VERSION (si_gateway_id si) (si_boot_id si) (fc_controller_epoch cmd) (command_id cmd) flow
         (fc_config_revision cmd) status reason count (ack_reported_at_ms si))).

End command.

(** ** The keys a block covers *)

Lemma push_all r l : NoDup (r ++ l) → zlen (r ++ l) ≤ MAX_BLOCK_ALIASES → foldl push_block_alias r l = r ++ l.
Proof.
  revert r. induction l as [|k l IH]; intros r Hnd Hlen; [by rewrite app_nil_r|]. cbn. unfold push_block_alias at 2.
  rewrite zlen_app, zlen_cons in Hlen. pose proof (zlen_nonneg l).
  assert (k ∉ r) as Hk. { apply NoDup_app in Hnd as (_ & Hd & _). intros Hin. apply (Hd k Hin). left. }
  assert ((zlen r <? MAX_BLOCK_ALIASES) = true) as -> by (apply Z.ltb_lt; lia). rewrite bool_decide_eq_false_2 by done. cbn [negb andb].
  rewrite IH; rewrite <- app_assoc; try done. cbn. rewrite zlen_app, zlen_cons. lia.
Qed.

Lemma push_more r l : NoDup r → zlen r ≤ MAX_BLOCK_ALIASES → let r' := foldl push_block_alias r l in
  NoDup r' ∧ zlen r' ≤ MAX_BLOCK_ALIASES ∧ (∀ k, k ∈ r → k ∈ r') ∧ (∀ k, k ∈ r' → k ∈ r ∨ k ∈ l).
Proof.
  revert r. induction l as [|k l IH]; intros r Hnd Hlen; [cbn; auto|]. cbn.
  assert (NoDup (push_block_alias r k) ∧ zlen (push_block_alias r k) ≤ MAX_BLOCK_ALIASES ∧
    (∀ x, x ∈ r → x ∈ push_block_alias r k) ∧ (∀ x, x ∈ push_block_alias r k → x ∈ r ∨ x = k)) as (H1 & H2 & H3 & H4).
  { unfold push_block_alias. destruct (_ && _)%bool eqn:Hg; [|auto]. apply andb_true_iff in Hg as [Hl%Z.ltb_lt Hk%negb_true_iff%bool_decide_eq_false].
    rewrite zlen_app. change (zlen [k]) with 1. split_and!; [|lia|intros x Hx; apply elem_of_app; auto|].
    - apply NoDup_app. split_and!; [done|intros x Hx ->%list_elem_of_singleton; done|apply NoDup_singleton].
    - intros x [Hx|Hx%list_elem_of_singleton]%elem_of_app; auto. }
  destruct (IH _ H1 H2) as (I1 & I2 & I3 & I4). split_and!; [done|done|auto|]. intros x Hx. destruct (I4 x Hx) as [Hx'|Hx'].
  - destruct (H4 x Hx') as [Hr| ->]; [by left|right; left].
  - right. by right.
Qed.

Lemma block_reverse_aliases_spec ks : NoDup ks → zlen ks ≤ MAX_BLOCK_ALIASES → let bs := block_reverse_aliases ks in
  NoDup bs ∧ zlen bs ≤ MAX_BLOCK_ALIASES ∧ (∀ k, k ∈ ks → k ∈ bs) ∧ (∀ k, k ∈ bs → ∃ k0, k0 ∈ ks ∧ (k = k0 ∨ k ∈ block_variants k0)).
Proof.
  intros Hnd Hlen bs. subst bs. unfold block_reverse_aliases. rewrite (take_ge ks 8).
  2:{ unfold zlen, MAX_BLOCK_ALIASES in Hlen. lia. }
  rewrite (push_all [] ks) by done. destruct (push_more ks (ks ≫= block_variants) Hnd Hlen) as (H1 & H2 & H3 & H4). cbn [app].
  split_and!; [done|done|done|]. intros k Hk. destruct (H4 k Hk) as [Hin|Hin]; [by exists k; auto|].
  apply list_elem_of_bind in Hin as (k0 & Hk0 & Hin). by exists k0; auto.
Qed.

Lemma block_variants_wf k : key_wf k → Forall key_wf (block_variants k).
Proof.
  intros []. assert (∀ h, is_u8 h → key_wf (reverse_key k h) ∧ key_wf (with_hook k h)) as Hv by (intros h Hh; split; by split).
  unfold block_variants. constructor; [apply Hv; split; lia|]. constructor; [apply Hv; split; lia|]. apply Forall_singleton, Hv. case_match; split; lia.
Qed.

Lemma block_reverse_aliases_wf ks : NoDup ks → zlen ks ≤ MAX_BLOCK_ALIASES → Forall key_wf ks → Forall key_wf (block_reverse_aliases ks).
Proof.
  intros Hnd Hlen Hwf. apply Forall_forall. intros k Hk. rewrite Forall_forall in Hwf.
  apply (block_reverse_aliases_spec ks Hnd Hlen) in Hk as (k0 & Hk0 & [->|Hk]); [auto|].
  pose proof (block_variants_wf k0 (Hwf k0 Hk0)) as Hv. rewrite Forall_forall in Hv. auto.
Qed.

(** ** Preparation *)

Record agent_wf (a : Agent) : Prop := {
  aw_entries : map_Forall (λ _ e, Aliases.entry_ok e ∧ keys_wf e) (entries (cache a));
  aw_conntrack : table_ok (conntrack a);
}.
Record situation_ok (si : Situation) : Prop := {
  so_conntrack : table_ok (refreshed_conntrack si);
  so_sockets : ∀ c p ip port, sockets si !! (c, p) = Some (ip, port) → is_u16 p ∧ is_u16 port;
}.

Section facts.
Context `{AliasOrder} `{Digest} (big_endian : bool) (si : Situation) (cmd : FlowCommandFrame).

Lemma alter_entries_wf (f : AliasEntry → AliasEntry) id (m : gmap string AliasEntry) : map_Forall (λ _ e, Aliases.entry_ok e ∧ keys_wf e) m →
  (∀ e, Aliases.entry_ok e → keys_wf e → Aliases.entry_ok (f e) ∧ keys_wf (f e)) →
  map_Forall (λ _ e, Aliases.entry_ok e ∧ keys_wf e) (alter f id m).
Proof.
  intros Hm Hf i e. rewrite lookup_alter_Some. intros [(<- & x & Hx & ->)|[_ Hx]]; [|by apply Hm in Hx]. apply Hm in Hx as []. auto.
Qed.

Lemma reconcile_wf a : agent_wf a → situation_ok si → agent_wf (reconcile si cmd a) ∧ writer (reconcile si cmd a) = writer a.
Proof.
  intros [He Ht] [Hr _]. split; [|done]. unfold reconcile.
  assert (∀ b : bool, table_ok (if b then refreshed_conntrack si else conntrack a)) as Htab by (by intros []).
  split; cbn [cache conntrack]; [|done]. destruct (operation cmd); [|done]. cbn. apply alter_entries_wf; [done|]. intros e Hok Hw.
  split; [by apply reconcile_entry_ok|]. by apply reconcile_entry_wf.
Qed.

Lemma flow_aliases_wf a : agent_wf a → NoDup (flow_aliases cmd a) ∧ zlen (flow_aliases cmd a) ≤ MAX_BLOCK_ALIASES ∧ Forall key_wf (flow_aliases cmd a).
Proof.
  intros [He _]. unfold flow_aliases, aliases. destruct (entries (cache a) !! _) as [e|] eqn:Hx; cbn.
  - destruct (He _ _ Hx) as [[[Hnd Hl] _ _ _ _ _] [Hw _]]. split_and!; [done|apply Hl|done].
  - split_and!; [constructor|done|constructor].
Qed.

Lemma proxy_resolution_wf a : agent_wf a → situation_ok si → Forall key_wf (proxy_aliases (proxy_resolution si cmd a)).
Proof.
  intros Ha [_ Hs]. destruct (flow_aliases_wf a Ha) as (_ & _ & Hwf). rewrite Forall_forall in Hwf.
  assert (∀ k, own_interface (flow_aliases cmd a) k → is_u32 (Flow.ifindex k)) as Hown by (intros k (_ & b & Hb & ->); apply (Hwf b Hb)).
  apply Forall_forall. intros k [(b & t & e & Hb & _ & He & _ & Ho & ->)|(b & s & d & c & p & ip & port & Hb & _ & _ & Hk & _ & _ & Ho & ->)]%resolve_returns_ok.
  - apply key_with_tuple_wf; [auto| |split; lia|by apply Hown]. eapply conntrack_resolve_ok; [apply Ha|exact He].
  - destruct (Hs _ _ _ _ Hk). apply key_with_tuple_wf; [auto|done|split; lia|by apply Hown].
Qed.

Lemma add_proxy_wf st k : agent_wf (fst st) → key_wf k → agent_wf (fst (add_proxy cmd st k)) ∧ writer (fst (add_proxy cmd st k)) = writer (fst st).
Proof.
  intros [He Ht] Hk. unfold add_proxy. destruct (insert_proxy_return _ _ k) as [c res] eqn:Hi. cbn [fst]. split; [|done]. split; [|done]. cbn [cache set_cache].
  unfold insert_proxy_return in Hi. destruct (entries (cache (fst st)) !! _) as [e|] eqn:Hl; [|by injection Hi as <- _]. destruct (He _ _ Hl) as [Hok Hw].
  pose proof (add_proxy_return_ok e k Hok) as Hok'. pose proof (add_proxy_return_wf e k Hk Hw) as Hw'.
  destruct (add_proxy_return e k) as [e' r']. injection Hi as <- _. by apply map_Forall_insert_2.
Qed.

Lemma add_proxies_wf a r : agent_wf a → Forall key_wf (proxy_aliases r) →
  agent_wf (fst (add_proxies cmd a r)) ∧ writer (fst (add_proxies cmd a r)) = writer a.
Proof.
  intros Ha Hks. unfold add_proxies. change a with (fst (a, false)) at 3. change (agent_wf (fst (a, false))) in Ha. revert Ha. generalize (a, false). clear a.
  induction Hks as [|k ks Hk _ IH]; intros st Ha; [done|]. destruct (add_proxy_wf st k Ha Hk) as [Ha' Hw]. cbn. rewrite <- Hw. by apply IH.
Qed.

(** The agent after the aliases of the flow have been brought up to date. *)
Definition prepared (a : Agent) : Agent := fst (add_proxies cmd (reconcile si cmd a) (proxy_resolution si cmd (reconcile si cmd a))).

Lemma prepared_wf a : agent_wf a → situation_ok si → agent_wf (prepared a) ∧ writer (prepared a) = writer a.
Proof.
  intros Ha Hs. destruct (reconcile_wf a Ha Hs) as [Hr Hw]. destruct (add_proxies_wf _ _ Hr (proxy_resolution_wf _ Hr Hs)) as [Hp Hw'].
  split; [done|]. unfold prepared. by rewrite Hw'.
Qed.

(** ** What a command needs *)

Definition verdict_kind (v : FlowVerdict) : PolicyActionKind := match v with VBlock => Block | VAllow => Allow | VShape => Limit end.

(** The saved snapshot backs the command: its revision is that of the command,
    and every cited policy is an enabled application policy with the action of the
    verdict, in force from the issue of the command to its expiry. *)
Definition backed (s : PolicyState) (v : FlowVerdict) : Prop :=
  st_controller_epoch s = fc_controller_epoch cmd ∧ st_config_revision s = fc_config_revision cmd ∧
  ∃ f, st_snapshot s = PolicySnapshot f ∧ policy_ids cmd ≠ [] ∧ issued_at_ms cmd < expires_at_ms cmd ≤ valid_until_ms f ∧
  ∀ pid, pid ∈ policy_ids cmd → in_force_until f (issued_at_ms cmd) (expires_at_ms cmd) pid ∧
    ∃ p, p ∈ policies f ∧ PolicyWire.id p = pid ∧ names_application p = true ∧ kind (action (spec p)) = verdict_kind v.

Definition authorised (v : FlowVerdict) : Prop :=
  fc_gateway_id cmd = si_gateway_id si ∧ fc_boot_id cmd = si_boot_id si ∧ now_ms si < expires_at_ms cmd ∧
  policy_disabled si = false ∧ flow_commands_enabled si = true ∧ flow_bpf_ready si = true ∧ ∃ s, saved si = Some s ∧ backed s v.

Lemma policy_reference_valid_spec f v issued expires pid : policy_reference_valid f (Some v) issued expires pid = true →
  in_force_until f issued expires pid ∧ ∃ p, p ∈ policies f ∧ PolicyWire.id p = pid ∧ names_application p = true ∧ kind (action (spec p)) = verdict_kind v.
Proof.
  unfold policy_reference_valid. destruct (List.find _ (policies f)) as [p|] eqn:Hp; [|done].
  apply find_Some_elem in Hp as [Hp Hid%String.eqb_eq]. intros Hg. apply andb_true_iff in Hg as [Hg Hv]. apply andb_true_iff in Hg as [Hg Hn].
  apply andb_true_iff in Hg as [Hs Hen]. split.
  - exists p. split_and!; [done..|]. destruct (schedule (spec p)); [right|by left].
    destruct (find_intervals (schedule_intervals f) pid) as [es|]; cbn in Hs; [|done].
    destruct (List.find (covers issued) (intervals es)) as [i|] eqn:Hi; [|done]. apply find_Some_elem in Hi as [Hi Hc]. exists es, i.
    unfold covers in Hc. apply andb_true_iff in Hc as [Hc _]. split_and!; [done|done|lia|lia].
  - exists p. split_and!; [done..|]. destruct v; [by apply bool_decide_eq_true in Hv..|]. apply andb_true_iff in Hv as [Hv _]. by apply bool_decide_eq_true in Hv.
Qed.

Lemma references_valid_spec s v : saved si = Some s → verdict cmd = Some v → revision_matches si cmd = true → references_valid si cmd = true → backed s v.
Proof.
  intros Hs Hv. unfold revision_matches, references_valid, flow_command_policy_references_valid. rewrite Hs, Hv.
  intros [He%String.eqb_eq Hr%Z.eqb_eq]%andb_true_iff Href. split_and!; [done|done|].
  destruct (st_snapshot s) as [f| | | | |]; [|done..]. exists f. destruct (_ || _)%bool eqn:Hg; [done|].
  apply orb_false_iff in Hg as [Hg Hu%Z.ltb_ge]. apply orb_false_iff in Hg as [Hne Hlt%Z.leb_gt]. split_and!; [done|by intros Hn; rewrite Hn in Hne|lia|lia|].
  intros pid Hpid. rewrite forallb_Forall, Forall_forall in Href. by apply policy_reference_valid_spec, Href.
Qed.

Lemma early_none a v : operation cmd = Upsert → verdict cmd = Some v → early_outcome si cmd a = None →
  authorised v ∧ flow_aliases cmd a ≠ [] ∧ command_is_stale (cache a) (PolicyWire.policy_flow_id cmd) (issued_at_ms cmd) = false.
Proof.
  intros Hop Hv. unfold early_outcome. rewrite Hop. cbn [andb negb]. unfold authorised.
  destruct (String.eqb_spec (fc_gateway_id cmd) (si_gateway_id si)); cbn [negb andb]; [|done].
  destruct (String.eqb_spec (fc_boot_id cmd) (si_boot_id si)); cbn [negb]; [|done].
  destruct (expires_at_ms cmd <=? now_ms si) eqn:Hexp; [done|]. apply Z.leb_gt in Hexp. destruct (policy_disabled si); [done|].
  destruct (revision_matches si cmd) eqn:Hrev; cbn [negb]; [|done]. destruct (flow_commands_enabled si); cbn [negb]; [|done].
  destruct (flow_bpf_ready si); cbn [negb]; [|done]. destruct (is_ended _ _); [done|].
  destruct (flow_aliases cmd a) as [|k ks]; [by destruct (_ && _)%bool|]. rewrite andb_true_r.
  destruct (command_is_stale _ _ _); [done|]. destruct (_ || _ || _ || _)%bool; [done|].
  destruct (references_valid si cmd) eqn:Href; cbn [negb]; [|done]. intros _. split_and!; try done.
  destruct (saved si) as [s|] eqn:Hs; [|unfold revision_matches in Hrev; by rewrite Hs in Hrev]. exists s. split; [done|]. by apply references_valid_spec.
Qed.

(** ** Blocks *)

Hypothesis sha256_length : ∀ bs, length (sha256_digest bs) = 32%nat.

Lemma install_block_spec w aliases observed f p c gen expires now m w' r :
  registry_ok (block_claims w) → Forall key_wf aliases → verdict_map w = Some m →
  install_block big_endian w aliases observed f p c gen expires now = (w', r) →
  registry_ok (block_claims w') ∧ ∃ m', verdict_map w' = Some m' ∧
  match r with
  | Ok n => (∃ i, block_identity f p c = Ok i ∧ ∀ a, a ∈ aliases → installed big_endian w w' observed i gen expires now m m' a) ∧
            (∀ k, (k ∉ bpf_key_bytes big_endian <$> aliases) → content m' !! k = content m !! k)
  | Err e => intact e m m'
  end.
Proof.
  intros Hr Hwf Hm. rewrite install_block_eq. destruct (block_identity f p c) as [i|e] eqn:Hi.
  - pose proof (block_identity_wf sha256_length _ _ _ _ Hi) as Hiw. intros Hin.
    destruct (install_owned_block_spec _ _ _ _ _ _ _ _ _ _ _ Hr Hiw Hwf Hm Hin) as (Hr' & m' & Hm' & Hres).
    split; [done|]. exists m'. split; [done|]. destruct r; [|done]. destruct Hres as (_ & Hinst & Hframe). eauto.
  - intros [= <- <-]. split; [done|]. exists m. split; [done|]. by apply intact_same.
Qed.

Lemma remember_endpoints_keeps w aliases f p c gen expires w' r : remember_endpoint_blocks big_endian w aliases f p c gen expires = (w', r) →
  verdict_map w' = verdict_map w ∧ block_claims w' = block_claims w.
Proof. unfold remember_endpoint_blocks. repeat case_match; intros; by simplify_eq. Qed.

(** The flow is blocked: every key of the flow carries in the verdict map a block
    until the command's deadline or later, for the client of the flow and the
    first cited policy; nothing but these keys, their reverses and their
    counterparts on the other hook changed. *)
Definition block_in_force (a a' : Agent) (m m' : BpfMap) : Prop :=
  let flow := PolicyWire.policy_flow_id cmd in
  let ks := block_reverse_aliases (flow_aliases cmd a') in
  flow_aliases cmd a' ≠ [] ∧ (∀ k, k ∈ flow_aliases cmd a' → k ∈ ks) ∧
  (∀ k, k ∈ ks → ∃ k0, k0 ∈ flow_aliases cmd a' ∧ (k = k0 ∨ k ∈ block_variants k0)) ∧
  ∃ pid mac i observed, head (policy_ids cmd) = Some pid ∧ client_mac_of cmd a' = Some mac ∧ block_identity flow pid mac = Ok i ∧
    (∀ k, k ∈ ks → installed big_endian (writer a) (writer a') observed i (fc_config_revision cmd)
                     (deadline si (received_monotonic_ns si) (expires_at_ms cmd)) (writer_monotonic_ns si) m m' k) ∧
    (∀ k, (k ∉ bpf_key_bytes big_endian <$> ks) → content m' !! k = content m !! k).

Lemma record_keeps a : writer (record cmd a) = writer a ∧ flow_aliases cmd (record cmd a) = flow_aliases cmd a ∧
  client_mac_of cmd (record cmd a) = client_mac_of cmd a.
Proof.
  unfold record, flow_aliases, client_mac_of, entry_client_mac, aliases, record_command, set_cache. cbn [writer cache]. split; [done|].
  destruct (entries (cache a) !! _) as [e|] eqn:He; cbn [fst]; [|by rewrite He].
  destruct (stale e _); cbn [fst entries set_entries]; [by rewrite He|]. by rewrite lookup_insert_eq.
Qed.

Lemma execute_block_spec a m exceeded unresolved partial a' o : agent_wf a → flow_aliases cmd a ≠ [] → registry_ok (block_claims (writer a)) →
  verdict_map (writer a) = Some m → execute_block big_endian si cmd a exceeded unresolved partial = (a', o) →
  registry_ok (block_claims (writer a')) ∧ ∃ m', verdict_map (writer a') = Some m' ∧
  ((o = block_ack_status exceeded unresolved partial ∧ block_in_force a a' m m') ∨
   (fst o = AckFailed ∧
    (content m' = content m ∨
     (∃ observed pid mac e, snd (install_block big_endian (writer a) (block_reverse_aliases (flow_aliases cmd a)) observed (PolicyWire.policy_flow_id cmd) pid mac
         (fc_config_revision cmd) (deadline si (received_monotonic_ns si) (expires_at_ms cmd)) (writer_monotonic_ns si)) = Err e ∧ intact e m m') ∨
     (endpoint_cache_enabled si = true ∧ block_in_force a a' m m')))).
Proof.
  intros Ha Hne Hr Hm. destruct (flow_aliases_wf a Ha) as (Hnd & Hlen & Hwf). unfold execute_block.
  destruct (policy_ids cmd) as [|pid ids] eqn:Hids.
  { intros [= <- <-]. split; [done|]. exists m. split; [done|]. right. auto. }
  destruct (client_mac_of cmd a) as [mac|] eqn:Hmac.
  2:{ intros [= <- <-]. split; [done|]. exists m. split; [done|]. right. auto. }
  set (observed := match entries (cache a) !! _ with Some _ => _ | None => _ end). clearbody observed.
  destruct (install_block _ _ _ _ _ _ _ _ _ _) as [w r] eqn:Hin.
  destruct (install_block_spec _ _ _ _ _ _ _ _ _ _ _ _ Hr (block_reverse_aliases_wf _ Hnd Hlen Hwf) Hm Hin) as (Hrw & m' & Hm' & Hres).
  destruct (block_reverse_aliases_spec _ Hnd Hlen) as (_ & _ & Hsub & Hsup).
  assert (∀ w', verdict_map w' = verdict_map w → block_claims w' = block_claims w → ∀ n, r = Ok n → block_in_force a (set_writer a w') m m') as Hforce.
  { intros w' Hv Hc n ->. destruct Hres as [(i & Hi & Hinst) Hframe]. unfold block_in_force. rewrite Hids. change (flow_aliases cmd (set_writer a w')) with (flow_aliases cmd a).
    split_and!; [done|done|done|]. exists pid, mac, i, observed. split_and!; [done|done|done| |done].
    intros k Hk. destruct (Hinst k Hk) as (cs & Hcs). exists cs. cbn [writer set_writer]. by rewrite Hc. }
  assert (∀ a1, writer (record cmd a1) = writer a1) as Hrec by (intros; apply record_keeps).
  destruct r as [n|e].
  - destruct (endpoint_expiry si cmd mac) as [expiry|] eqn:Hexp.
    + destruct (remember_endpoint_blocks _ _ _ _ _ _ _ _) as [w' r'] eqn:Hre. destruct (remember_endpoints_keeps _ _ _ _ _ _ _ _ _ Hre) as [Hv Hc].
      pose proof (Hforce w' Hv Hc n eq_refl) as Hf. destruct r' as [n'|e'].
      * intros [= <- <-]. rewrite Hrec. cbn [writer set_writer]. rewrite Hc, Hv. split; [done|]. exists m'. split; [done|]. left. split; [done|].
        unfold block_in_force in *. destruct (record_keeps (set_writer a w')) as (H1 & H2 & H3). by rewrite H1, H2, H3.
      * intros Heq. assert (a' = set_writer a w' ∧ fst o = AckFailed) as [-> Ho] by (destruct e'; by simplify_eq).
        cbn [writer set_writer]. rewrite Hc, Hv. split; [done|]. exists m'. split; [done|]. right. split; [done|]. right. right. split; [|done].
        unfold endpoint_expiry in Hexp. by destruct (endpoint_cache_enabled si).
    + intros [= <- <-]. rewrite Hrec. cbn [writer set_writer]. split; [done|]. exists m'. split; [done|]. left. split; [done|].
      pose proof (Hforce w eq_refl eq_refl n eq_refl) as Hf. unfold block_in_force in *. destruct (record_keeps (set_writer a w)) as (H1 & H2 & H3). by rewrite H1, H2, H3.
  - intros Heq. assert (a' = set_writer a w ∧ fst o = AckFailed) as [-> Ho] by (destruct e; by simplify_eq). split; [done|]. exists m'. split; [done|].
    right. split; [done|]. right. left. exists observed, pid, mac, e. split; [|done]. by rewrite Hin.
Qed.

(** C5: A block that the agent acknowledges is a block that is enforced. Where a
    block command ends with the status applied or partial, the command was
    authorised - for this gateway and boot, not expired, backed by the saved
    snapshot, in whose every cited policy is an enabled application block in force
    from the issue of the command until it expires - and the verdict map blocks
    every known packet key of the flow at least until the command's deadline,
    with nothing else changed but the reverse keys; applied means that no key is
    known to be missing. Otherwise the verdict map is as it was, unless undoing
    a failed write failed too, or only the learning of the endpoint failed. *)
Theorem block_command_enforced a m a' ack :
  agent_wf a → situation_ok si → registry_ok (block_claims (writer a)) → verdict_map (writer a) = Some m →
  operation cmd = Upsert → verdict cmd = Some VBlock →
  apply_flow_command big_endian si cmd a = (a', FlowAck ack) →
  registry_ok (block_claims (writer a')) ∧ ∃ m', verdict_map (writer a') = Some m' ∧
  (fa_status ack = AckApplied ∨ fa_status ack = AckPartial →
   authorised VBlock ∧ block_in_force (prepared a) a' m m') ∧
  (fa_status ack = AckApplied → is_partial (cache (prepared a)) (PolicyWire.policy_flow_id cmd) = false) ∧
  (fa_status ack ≠ AckApplied → fa_status ack ≠ AckPartial →
   content m' = content m ∨
   (∃ observed pid mac e, snd (install_block big_endian (writer a) (block_reverse_aliases (flow_aliases cmd (prepared a))) observed
       (PolicyWire.policy_flow_id cmd) pid mac (fc_config_revision cmd) (deadline si (received_monotonic_ns si) (expires_at_ms cmd))
       (writer_monotonic_ns si)) = Err e ∧ intact e m m') ∨
   (endpoint_cache_enabled si = true ∧ block_in_force (prepared a) a' m m')).
Proof.
  intros Ha Hs Hr Hm Hop Hv. destruct (prepared_wf a Ha Hs) as [Hpa Hpw]. unfold apply_flow_command. unfold prepared in *.
  set (proxies := proxy_resolution si cmd (reconcile si cmd a)) in *. destruct (add_proxies cmd (reconcile si cmd a) proxies) as [a1 exceeded] eqn:Hadd.
  cbn [fst] in *. rewrite <- Hpw in Hr, Hm |- *. clear Hadd Hpw.
  set (unresolved := (expected proxies && _)%bool). clearbody unresolved. set (partial := is_partial (cache a1) _).
  destruct (early_outcome si cmd a1) as [[st re]|] eqn:He.
  { intros Heq. assert (a' = a1 ∧ fa_status ack ≠ AckApplied ∧ fa_status ack ≠ AckPartial) as (-> & H1 & H2).
    { revert He. unfold early_outcome. rewrite Hop. cbn [negb andb]. intros He.
      assert (st ≠ AckApplied ∧ st ≠ AckPartial) as [Hst1 Hst2] by (repeat case_match; simplify_eq; done).
      destruct partial, st; by simplify_eq. }
    split; [done|]. exists m. split_and!; [done|by intros [?|?]|done|by left]. }
  destruct (early_none a1 VBlock Hop Hv He) as (Hauth & Hne & _). rewrite Hop, Hv.
  destruct (execute_block big_endian si cmd a1 exceeded unresolved partial) as [a2 [st re]] eqn:Hex.
  destruct (execute_block_spec _ _ _ _ _ _ _ Hpa Hne Hr Hm Hex) as (Hr2 & m' & Hm' & Hcase). intros Heq.
  assert (a' = a2 ∧ fa_status ack = match partial, st with true, AckApplied => AckPartial | _, _ => st end) as [-> Hst]
    by (destruct partial, st; by simplify_eq).
  split; [done|]. exists m'. split; [done|]. rewrite Hst. destruct Hcase as [[Ho Hf]|[Ho Hf]].
  - split_and!; [done|by destruct partial, st|].
    intros H1 H2. exfalso. unfold block_ack_status in Ho. destruct exceeded, unresolved, partial; simplify_eq; done.
  - cbn [fst] in Ho. subst st. split_and!; [by destruct partial; intros [|]|by destruct partial|done].
Qed.

End facts.

(** ** The two sides *)

(** The policies a decision cites. *)
Lemma decision_cites `{Calendar} r ps b l v ids pid : NoDup (PolicyWire.id <$> ps) →
  flow_command_decision (evaluate_preview r ps b l) = (Some v, ids) → pid ∈ ids →
  ∃ p, p ∈ ps ∧ PolicyWire.id p = pid ∧ eligible r p ∧ kind (action (spec p)) = verdict_kind v ∧ PolicyWire.clients (selectors (spec p)) ≠ [].
Proof.
  intros Hnd. unfold flow_command_decision.
  assert (∀ x, x ∈ supported_limits (evaluate_preview r ps b l) → ∃ p, p ∈ ps ∧ PolicyWire.id p = x ∧ eligible r p ∧
    kind (action (spec p)) = Limit ∧ PolicyWire.clients (selectors (spec p)) ≠ []) as Hlim.
  { intros x (p & Hp & He & Hk & Hc & _ & Hid)%elem_of_supported_limits. by exists p. }
  assert (∀ k, k ≠ Limit → selected_block_verdict (evaluate_preview r ps b l) = action_name k → ∀ x, x ∈ selected_policy (evaluate_preview r ps b l) →
    ∃ p, p ∈ ps ∧ PolicyWire.id p = x ∧ eligible r p ∧ kind (action (spec p)) = k ∧ PolicyWire.clients (selectors (spec p)) ≠ []) as Hsel.
  { intros k Hk Ht x Hx. apply (verdict_text r ps b l k Hk Hnd) in Ht as (p & Hen). rewrite (selected_policy_enforced _ _ _ _ _ _ Hnd Hen) in Hx.
    apply list_elem_of_singleton in Hx as ->. destruct Hen as ((Hp & He & _) & Hkp & Hc & _). by exists p. }
  destruct (String.eqb_spec (selected_block_verdict (evaluate_preview r ps b l)) "block") as [Hb|Hb].
  { intros [= <- <-] Hin. by apply (Hsel Block). }
  destruct (String.eqb_spec (selected_block_verdict (evaluate_preview r ps b l)) "allow") as [Ha|Ha].
  - case_bool_decide; intros [= <- <-] Hin; [by apply (Hsel Allow)|auto].
  - case_bool_decide; intros [= <- <-] Hin; auto.
Qed.

Lemma bound_references f now ids expiry e : foldM (bound_by_policy f now) expiry ids = Ok e → e ≤ expiry ∧
  ∀ pid, pid ∈ ids → ∃ p, List.find (λ p, String.eqb (PolicyWire.id p) pid) (policies f) = Some p ∧ enabled (spec p) = true ∧
    (schedule (spec p) = None ∨
     ∃ es i, find_intervals (schedule_intervals f) pid = Some es ∧ List.find (covers now) (intervals es) = Some i ∧ e ≤ end_ms i).
Proof.
  revert expiry. induction ids as [|pid ids IH]; intros expiry Hf; cbn [foldM] in Hf.
  { injection Hf as <-. split; [done|]. intros pid []%elem_of_nil. }
  apply bind_Ok in Hf as (mid & Hm & Hf). destruct (IH _ Hf) as [Hle' Hall]. unfold bound_by_policy in Hm.
  apply bind_Ok in Hm as (p & Hp%ok_or_Ok & Hm). destruct (enabled (spec p)) eqn:Hen; [|done]. cbn [negb] in Hm.
  assert (mid ≤ expiry ∧ (schedule (spec p) = None ∨ ∃ es i, find_intervals (schedule_intervals f) pid = Some es ∧
    List.find (covers now) (intervals es) = Some i ∧ mid ≤ end_ms i)) as [Hle Hcase].
  { destruct (schedule (spec p)); [|injection Hm as <-; split; [lia|by left]].
    apply bind_Ok in Hm as (es & Hes%ok_or_Ok & Hm). apply bind_Ok in Hm as (i & Hi%ok_or_Ok & [= <-]). split; [lia|]. right. exists es, i. split_and!; (done || lia). }
  split; [lia|]. intros x [->|Hx]%elem_of_cons; [|auto]. exists p. split_and!; [done|done|]. destruct Hcase as [|(es & i & ? & ? & ?)]; [by left|].
  right. exists es, i. split_and!; (done || lia).
Qed.

(** C7: The agent never refuses what the collector decided on the same snapshot.
    A flow command that the collector builds from a snapshot reaches its verdict
    on an agent that has that snapshot as its saved state, for the gateway and
    boot it names and a live, known flow of the protocol the collector assumed:
    every policy it cites resolves there, with the right action, enabled and in
    force for the whole lifetime of the command. *)
Theorem collector_command_resolves `{Calendar} `{AliasOrder} si a s f ctx b l now uuid c :
  flow_command_for_context (PolicySnapshot f) ctx b l now uuid = Some (FlowCommand c) → is_i64 now →
  NoDup (PolicyWire.id <$> policies f) →
  saved si = Some s → st_snapshot s = PolicySnapshot f → identity_of s = (snap_gateway_id f, snap_controller_epoch f, snap_config_revision f, snap_bundle_generation f, snap_checksum f) →
  fc_gateway_id c = si_gateway_id si → fc_boot_id c = si_boot_id si → now_ms si < expires_at_ms c →
  policy_disabled si = false → flow_commands_enabled si = true → flow_bpf_ready si = true →
  is_ended (cache a) (PolicyWire.policy_flow_id c) = false → command_is_stale (cache a) (PolicyWire.policy_flow_id c) (issued_at_ms c) = false →
  flow_aliases c a ≠ [] → (∀ k, k ∈ flow_aliases c a → protocol k = ctx_protocol ctx) →
  early_outcome si c a = None.
Proof.
  intros Hcmd Hnow Hnd Hs Hsnap Hid Hgw Hboot Hexp Hdis Hen Hbpf Hended Hstale Hne Hproto. revert Hcmd. unfold flow_command_for_context.
  destruct (_ <=? now); [done|]. cbn zeta. set (r := mkRequest _ _ _ _ _ _ _). destruct (flow_command_decision _) as [v ids] eqn:Hdec.
  destruct (_ && _)%bool eqn:Hids; cbn [mbind option_bind]; [|done]. destruct v as [v|]; [|done].
  destruct (flow_ttl_ms _) as [ttl|] eqn:Httl; [|done]. cbn [mbind option_bind]. destruct (flow_verdict_expiry _ _ _ _) as [e|] eqn:He; [|done].
  cbn [mbind option_bind]. intros [= Hc]. rewrite <- Hc in Hexp, Hne, Hproto, Hstale, Hended, Hgw, Hboot |- *.
  set (cmd := mkFlowCommand _ _ _ _ _ _ _ _ _ _ _ _) in *. unfold early_outcome.
  change (operation cmd) with Upsert. cbn [andb negb]. rewrite Hgw, Hboot, !String.eqb_refl. cbn [andb negb].
  assert ((expires_at_ms cmd <=? now_ms si) = false) as -> by (by apply Z.leb_gt). rewrite Hdis, Hen, Hbpf, Hended, Hstale. cbn [negb andb].
  assert (revision_matches si cmd = true) as ->.
  { unfold revision_matches. rewrite Hs. injection Hid as _ -> -> _ _. cbn. by rewrite String.eqb_refl, Z.eqb_refl. }
  destruct (flow_aliases cmd a) as [|k ks] eqn:Hal; [done|]. cbn [negb].
  pose proof (flow_verdict_expiry_Some _ _ _ _ _ He) as (Hlt & Hval & Httl' & _).
  assert (protocol k = ctx_protocol ctx) as Hk by (apply Hproto; left).
  assert (existsb (λ k', negb (protocol k' =? protocol k)) (k :: ks) = false) as ->.
  { apply existsb_false, Forall_forall. intros k1 Hk1. rewrite Hk, (Hproto k1 Hk1). by rewrite Z.eqb_refl. }
  assert (i64_saturating_sub (expires_at_ms cmd) (issued_at_ms cmd) ≤ ttl) as Hsub.
  { cbn. unfold is_i64, i64_saturating_sub, clamp, i64_min, i64_max in *. lia. }
  assert (references_valid si cmd = true) as Href.
  { unfold references_valid, flow_command_policy_references_valid. rewrite Hs, Hsnap. cbn [cmd policy_ids PolicyWire.verdict issued_at_ms expires_at_ms].
    assert ((no_selector ids || (e <=? now) || (valid_until_ms f <? e))%bool = false) as ->.
    { apply andb_true_iff in Hids as [Hids%negb_true_iff _]. rewrite Hids. cbn. apply orb_false_iff. split; lia. }
    apply forallb_Forall, Forall_forall. intros pid Hpid. unfold flow_verdict_expiry in He. destruct (_ || _ || _ || _)%bool; [done|].
    destruct (ok _) as [e'|] eqn:Hok; cbn in He; [|done]. destruct (now <? e'); [|done]. injection He as ->.
    apply ok_Some, bound_references in Hok as [_ Hall]. destruct (Hall pid Hpid) as (p & Hp & Hpe & Hsch).
    destruct (decision_cites _ _ _ _ _ _ pid Hnd Hdec Hpid) as (q & Hq & Hqid & Helig & Hkind & Hcl).
    assert (p = q) as <-.
    { apply find_Some_elem in Hp as [Hp Hpid'%String.eqb_eq]. apply (NoDup_key_inj PolicyWire.id (policies f)); [done..|congruence]. }
    unfold policy_reference_valid. rewrite Hp, Hpe.
    assert (names_application p = true) as ->.
    { destruct Helig as (_ & _ & _ & _ & _ & Hm). unfold preview_matches in Hm. split_bools. done. }
    assert (match schedule (spec p) with
      | Some _ => match e ← find_intervals (schedule_intervals f) pid; List.find (covers now) (intervals e) with Some i => e <=? end_ms i | None => false end
      | None => true end = true) as ->.
    { destruct Hsch as [->|(es & i & Hes & Hi & Hle)]; [done|]. rewrite Hes. cbn. rewrite Hi. case_match; [|done]. by apply Z.leb_le. }
    cbn [andb]. rewrite Hkind. destruct v; cbn; try by rewrite bool_decide_eq_true_2. rewrite bool_decide_eq_true_2 by done. by destruct (PolicyWire.clients _). }
  rewrite Href. cbn [negb]. rewrite Hk. unfold flow_ttl_ms in Httl.
  destruct (ctx_protocol ctx =? 17) eqn:H17; [|destruct (ctx_protocol ctx =? 6) eqn:H6; [|done]]; injection Httl as <-.
  - apply Z.eqb_eq in H17. assert ((30000 <? i64_saturating_sub (expires_at_ms cmd) (issued_at_ms cmd)) = false) as -> by lia. by rewrite H17.
  - assert ((120000 <? i64_saturating_sub (expires_at_ms cmd) (issued_at_ms cmd)) = false) as -> by lia. done.
Qed.

#[local] Existing Instance AliasExample.order.

Module CommandExample.
(** The collector blocks video for a client whose TCP flow the agent has seen. *)
Definition policy_flow : string := WriterExample.id_a.
Definition key : FlowKey :=
  mkKey 4 6 1 1 7 ([192; 168; 1; 20] ++ replicate 12 0) ([1; 1; 1; 1] ++ replicate 12 0) 47000 443.
Definition context : FlowEvaluationContext := mkContext 1 Evaluator.Example.request "boot" policy_flow 6 1800000100000.
Definition command : FlowCommandFrame :=
  mkFlowCommand 1 "gw" "boot" PolicyWire.Example.epoch 3 "cmd" policy_flow Upsert (Some VBlock) ["b"] 1800000060000 1800000000001.
Definition state : PolicyState :=
  mkState 1 "gw" PolicyWire.Example.epoch 3 4 (snap_checksum Evaluator.Example.frame) "" (PolicySnapshot Evaluator.Example.frame) [] [] None [].
Definition situation : Situation :=
  mkSituation "gw" "boot" (Some state) ∅ ∅ Normalization.Example.topology true true false false 1800000000500 500 600 700 1800000000600 (λ _, None).
Definition agent : Agent :=
  mkAgent (run (cache_new 0) [Observe policy_flow key (Some "02:bb:cc:dd:ee:0f") 10]) ∅ WriterExample.writer.

Lemma decided : @flow_command_for_context Compiler.Example.utc (PolicySnapshot Evaluator.Example.frame) context true true 1800000000001 "cmd"
  = Some (FlowCommand command).
Proof. vm_compute. reflexivity. Qed.
Lemma example_key_ok : key_wf key.
Proof. split; cbv; try (split; congruence); (split; [done|]); repeat constructor; try done; cbv; congruence. Qed.
Lemma table_empty : table_ok ∅.
Proof. by intros ???. Qed.
Lemma agent_ok : agent_wf agent.
Proof.
  split; [|apply table_empty]. unfold agent, run. cbn [cache foldl step]. cbn. apply map_Forall_singleton. split.
  - apply new_entry_ok.
  - split; [|done]. apply Forall_singleton, example_key_ok.
Qed.
Lemma situation_is_ok : situation_ok situation.
Proof. split; [apply table_empty|done]. Qed.
End CommandExample.

(** The command that the collector decided reaches its verdict. *)
Lemma collector_command_resolves_witness :
  (∃ ids, policy_ids CommandExample.command = ids ∧ ids ≠ []) ∧
  early_outcome CommandExample.situation CommandExample.command CommandExample.agent = None.
Proof.
  split; [by exists ["b"]|].
  apply (@collector_command_resolves Compiler.Example.utc AliasExample.order CommandExample.situation CommandExample.agent CommandExample.state
    Evaluator.Example.frame CommandExample.context true true 1800000000001 "cmd" CommandExample.command CommandExample.decided).
  - vm_compute. split; discriminate.
  - apply (bool_decide_unpack _). vm_compute. exact I.
  - reflexivity.
  - reflexivity.
  - reflexivity.
  - reflexivity.
  - reflexivity.
  - reflexivity.
  - reflexivity.
  - reflexivity.
  - reflexivity.
  - vm_compute. reflexivity.
  - vm_compute. reflexivity.
  - vm_compute. discriminate.
  - assert (flow_aliases CommandExample.command CommandExample.agent = [CommandExample.key]) as -> by (vm_compute; reflexivity).
    intros k ->%list_elem_of_singleton. reflexivity.
Defined.

(** It is carried out, and its acknowledgement says so. *)
Lemma block_command_enforced_witness :
  let r := @apply_flow_command _ WriterExample.digest false CommandExample.situation CommandExample.command CommandExample.agent in
  ∃ ack, snd r = FlowAck ack ∧ fa_status ack = AckApplied ∧
    authorised CommandExample.situation CommandExample.command VBlock ∧
    is_partial (cache (prepared CommandExample.situation CommandExample.command CommandExample.agent)) CommandExample.policy_flow = false ∧
    ∃ m', @block_in_force WriterExample.digest false CommandExample.situation CommandExample.command
      (prepared CommandExample.situation CommandExample.command CommandExample.agent) (fst r) WriterExample.fresh m'.
Proof.
  intros r. destruct (snd r) as [| | | | |ack] eqn:Hs; try (exfalso; vm_compute in Hs; discriminate).
  assert (match snd r with FlowAck ack => fa_status ack | _ => AckFailed end = AckApplied) as Hst by (vm_compute; reflexivity).
  rewrite Hs in Hst. exists ack. split; [reflexivity|]. split; [exact Hst|].
  destruct (@block_command_enforced _ WriterExample.digest false CommandExample.situation CommandExample.command example_digest_length
    CommandExample.agent WriterExample.fresh (fst r) ack CommandExample.agent_ok CommandExample.situation_is_ok no_claims_ok eq_refl eq_refl eq_refl
    ltac:(rewrite <- Hs; apply surjective_pairing)) as (_ & m' & _ & Happlied & Hpart & _).
  destruct (Happlied (or_introl Hst)) as [Hauth Hforce]. split; [exact Hauth|]. split; [exact (Hpart Hst)|]. exists m'. exact Hforce.
Defined.
