(* ===== verification/Plan.v ===== *)
(** What a policy snapshot asks of the HTB backend (build_plan,
    build_shaping_state, compile_shaping_plan and the results of policies in
    src/crates/agent/src/policy/executor.rs, PolicyTopology in
    policy/capabilities.rs, NftPlan in policy/nft.rs): which addresses are
    blocked, which classes and marks shape which client, and what is reported
    for every policy.  How the topology is discovered is not part of it. *)

From S2P Require Import Prelude PolicyWire Topology Identity Schedule Selection Shaper Marks.

(** ** The topology policies are enforced on *)

Record PolicyTopology := mkPolicyTopology {
  supported : bool;
  topology_reason_code : option string;
  topology_reason : option string;
  capabilities : PolicyCapabilities;
  client_limit_reason_code : option string;
  client_limit_reason : option string;
  lan_interfaces : list string;
  wan_interfaces : list string;
  wan_shaping_interface : option string;
  lan_ifindex : option Z;
  wan_ifindex : option Z;
  lan_capacity_bps : option Z;
  wan_capacity_bps : option Z;
  internal_networks : list string;
  neighbor_bindings : list (string * IpAddr);
  ipv6_coverage : bool;
}.

Definition shaping_wan (t : PolicyTopology) : option string :=
  match wan_shaping_interface t with
  | Some w => Some w
  | None => match wan_interfaces t with [w] => Some w | _ => None end
  end.

Definition is_one_arm_router (t : PolicyTopology) : bool :=
  (supported t && match lan_interfaces t, wan_interfaces t with [l], [w] => String.eqb l w | _, _ => false end)%bool.

Record NftPlan := mkNftPlan { plan_v4 : list Z; plan_v6 : list Z; plan_marks : list MarkRule }.
#[export] Instance NftPlan_eq_dec : EqDecision NftPlan.
Proof. solve_decision. Defined.

#[export] Instance PolicyCapability_eq_dec : EqDecision PolicyCapability.
Proof. solve_decision. Defined.
#[export] Instance PolicyResultStatus_eq_dec : EqDecision PolicyResultStatus.
Proof. solve_decision. Defined.

(** ** Results *)

(** [str::split_once] at a colon and a space. *)
Fixpoint split_code (s : string) : option (string * string) :=
  match s with
  | EmptyString => None
  | String c rest =>
    match rest with
    | String d tail =>
      if ((byte_val c =? 58) && (byte_val d =? 32))%bool then Some (EmptyString, tail)
      else '(a, b) ← split_code rest; Some (String c a, b)
    | EmptyString => None
    end
  end.

(** The characters that fit in 512 bytes, control characters as spaces; [len]
    bytes are taken already. *)
Fixpoint sanitize_chars (len : Z) (cs : list (Z * list Z)) : list (Z * list Z) :=
  match cs with
  | [] => []
  | c :: cs =>
    let c := if is_control (fst c) then (32, [32]) else c in
    if 512 <? len + zlen (snd c) then [] else c :: sanitize_chars (len + zlen (snd c)) cs
  end.
Definition sanitize_result_message (message : string) : string :=
  str_trim (bytes_str (concat (snd <$> sanitize_chars 0 (utf8_split (str_bytes message))))).

Definition policy_result (pid : string) (st : PolicyResultStatus) (code message : option string) : PolicyResult :=
  mkResult pid st (c ← code; if bad_text 128 c then None else Some c) (sanitize_result_message <$> message) None.

Definition is_client_policy_shape (p : PolicySnapshotEntry) : bool :=
  (negb (no_selector (PolicyWire.clients (selectors (spec p)))) && no_selector (applications (selectors (spec p)))
   && no_selector (categories (selectors (spec p)))
   && String.eqb (scope (PolicyWire.network (spec p))) "internet" && String.eqb (PolicyWire.direction (PolicyWire.network (spec p))) "both")%bool.

Definition is_supported_client_policy (p : PolicySnapshotEntry) : bool := (enabled (spec p) && is_client_policy_shape p)%bool.

(** [is_application_policy] is [names_application]. *)

Definition is_cap (c : PolicyCapability) (v : PolicyCapability) : bool := bool_decide (c = v).

Definition unsupported_reason (p : PolicySnapshotEntry) (t : PolicyTopology) : string * string :=
  if (names_application p && no_selector (PolicyWire.clients (selectors (spec p))))%bool then
    ("application_client_selector_required", "application block, allow, and limit policies require at least one client selector")
  else if (names_application p && is_kind Limit p)%bool then
    ("unsupported_application_shaping", "aggregate application shaping requires verified child classes and egress marks")
  else if (names_application p && is_cap (application_block (capabilities t)) CapUnsupported)%bool then
    (default "unsupported_bpf_verifier" (topology_reason_code t),
     default "exact application flow verdicts require a verified BPF writer and TC hooks" (topology_reason t))
  else if is_kind Limit p then
    (default "unsupported_kernel_feature" (client_limit_reason_code t),
     default "client aggregate shaping is unavailable on this topology" (client_limit_reason t))
  else ("unsupported_policy_shape", "policy does not match the supported client Internet block/allow/limit shape").

Definition unsupported_result (p : PolicySnapshotEntry) (t : PolicyTopology) : PolicyResult :=
  let '(code, message) := unsupported_reason p t in
  policy_result (id p) Unsupported (Some code) (Some message).

Definition unsupported_topology_results (ps : list PolicySnapshotEntry) (t : PolicyTopology) : list PolicyResult :=
  (λ p,
    if negb (enabled (spec p)) then policy_result (id p) Disabled None None
    else if (is_supported_client_policy p
             || (names_application p && is_kind Limit p && negb (no_selector (PolicyWire.clients (selectors (spec p))))
                 && negb (is_cap (application_limit (capabilities t)) CapUnsupported)))%bool then
      let '(code, message) :=
        if is_kind Limit p then
          ("unsupported_topology", default "aggregate shaping topology is not verified" (client_limit_reason t))
        else (default "unsupported_topology" (topology_reason_code t),
              default "client enforcement topology is not verified" (topology_reason t)) in
      policy_result (id p) Unsupported (Some code) (Some message)
    else unsupported_result p t) <$> ps.

Definition snapshot_results (snapshot : PolicyWireFrame) (st : PolicyResultStatus) (error : option (string * string)) : list PolicyResult :=
  match snapshot with
  | PolicySnapshot f =>
    (λ p, if (negb (enabled (spec p)) && bool_decide (error = None))%bool then policy_result (id p) Disabled None None
          else policy_result (id p) st (fst <$> error) (snd <$> error)) <$> policies f
  | _ => []
  end.

(** ** The plan *)

Record BuiltPlan := mkPlan {
  blocked_v4 : gset Z;
  blocked_v6 : gset Z;
  plan_results : list PolicyResult;
  ack_status : PolicyAckStatus;
  has_supported_policy : bool;
  client_rates : gmap string ClientRates;
  application_rates : gmap (string * string) ClientRates;
  client_addresses : list (string * IpAddr);
  mark_rules : list MarkRule;
  plan_shaping : option ShapingState;
}.

Section build.
Context (ps : list PolicySnapshotEntry) (si : list PolicyScheduleIntervals) (valid_until : Z) (now : option Z) (t : PolicyTopology).

(** The first result of a policy, and whether it is a candidate. *)
Definition classify (p : PolicySnapshotEntry) : PolicyResult * bool :=
  let applied := policy_result (id p) Applied None None in
  let failed code message := policy_result (id p) Failed (Some code) (Some message) in
  if negb (enabled (spec p)) then (policy_result (id p) Disabled None None, false)
  else if negb (is_client_policy_shape p) then
    if (names_application p && is_kind Limit p && negb (no_selector (PolicyWire.clients (selectors (spec p))))
        && String.eqb (scope (PolicyWire.network (spec p))) "internet" && String.eqb (PolicyWire.direction (PolicyWire.network (spec p))) "both"
        && negb (is_cap (application_limit (capabilities t)) CapUnsupported))%bool then (applied, true)
    else if (names_application p && (is_kind Block p || is_kind Allow p)
             && negb (is_cap (application_block (capabilities t)) CapUnsupported))%bool then (applied, false)
    else (unsupported_result p t, false)
  else if (is_kind Limit p && is_cap (client_limit (capabilities t)) CapUnsupported)%bool then (unsupported_result p t, false)
  else if (bool_decide (is_Some (schedule (spec p))) && forallb (λ e, negb (String.eqb (policy_id e) (id p))) si)%bool then
    (failed "schedule_window_missing" "scheduled policy has no compiled UTC intervals", false)
  else match evaluate p si now valid_until with
  | Expired => (failed "schedule_expired" "the Collector schedule window has expired", false)
  | ClockInvalid => (failed "clock_invalid" "system time is not a plausible Unix epoch", false)
  | Inactive => (applied, false)
  | Active => (applied, true)
  end.

Definition candidates : list PolicySnapshotEntry := sort_by policy_leb (List.filter (λ p, snd (classify p)) ps).

Definition first_results : gmap string PolicyResult := foldl (λ m p, <[id p := fst (classify p)]> m) ∅ ps.

(** Addresses that are never blocked. *)
Definition v4_blockable (a : Z) : bool :=
  (negb (a =? 0) && negb (Z.shiftr a 24 =? 127) && negb (Z.shiftr a 28 =? 14) && negb (Z.shiftr a 16 =? 43518))%bool.
Definition v6_blockable (a : Z) : bool :=
  (negb (a =? 0) && negb (a =? 1) && negb (Z.shiftr a 120 =? 255) && negb (Z.shiftr a 118 =? 1018))%bool.

Record PlanState := mkPlanState {
  s_results : gmap string PolicyResult;
  s_v4 : gset Z;
  s_v6 : gset Z;
  s_client_rates : gmap string ClientRates;
  s_application_rates : gmap (string * string) ClientRates;
  s_addresses : list (string * IpAddr);
  s_policy_clients : gmap string (gset string);
  s_decided : gset string;
}.

Definition block_address (st : gset Z * gset Z) (a : IpAddr) : gset Z * gset Z :=
  match a with
  | V4 a => if v4_blockable a then ({[a]} ∪ fst st, snd st) else st
  | V6 a => if (v6_blockable a && ipv6_coverage t)%bool then (fst st, {[a]} ∪ snd st) else st
  end.

Definition unresolved_message (e : IdentityError) (mac : string) : string :=
  match e with
  | Unresolved => String.append "no current LAN neighbor address was found for " mac
  | Conflict => String.append "current LAN neighbor data maps an address to multiple MACs for " mac
  end.

Definition set_result (r : PolicyResult) (st : PolicyResultStatus) (code message : option string) : PolicyResult :=
  mkResult (result_policy_id r) st code message (details r).

(** One client of a candidate; the flags say whether a client resolved, and
    whether one did not.  The source remembers the answers of [resolve]. *)
Definition plan_client (p : PolicySnapshotEntry) (acc : PlanState * (bool * bool)) (mac : string) : PlanState * (bool * bool) :=
  let '(st, (resolved, unresolved)) := acc in
  let m := to_ascii_lowercase mac in
  match resolve (from_neighbors (neighbor_bindings t)) m with
  | Ok addresses =>
    let decides := negb (is_kind Limit p) in
    let applies := (decides && negb (bool_decide (m ∈ s_decided st)))%bool in
    let '(v4, v6) := if (applies && is_kind Block p)%bool then foldl block_address (s_v4 st, s_v6 st) addresses else (s_v4 st, s_v6 st) in
    let limit r := add_limit r (action_upload_bps (action (spec p))) (action_download_bps (action (spec p))) in
    let limited {K} `{Countable K} (k : K) (rates : gmap K ClientRates) := <[k := limit (default (mkRates None None) (rates !! k))]> rates in
    (mkPlanState (s_results st) v4 v6
       (if (is_kind Limit p && negb (names_application p))%bool then limited m (s_client_rates st) else s_client_rates st)
       (if (is_kind Limit p && names_application p)%bool then limited (id p, m) (s_application_rates st) else s_application_rates st)
       (s_addresses st ++ ((λ a, (m, a)) <$> addresses))
       (<[id p := {[m]} ∪ default ∅ (s_policy_clients st !! id p)]> (s_policy_clients st))
       (if decides then {[m]} ∪ s_decided st else s_decided st),
     (true, unresolved))
  | Err e =>
    let current := default (policy_result (id p) Failed None None) (s_results st !! id p) in
    let r := set_result current (if is_kind Limit p then Degraded else Failed)
               (Some (if is_kind Limit p then "identity_partial" else identity_reason_code e)) (Some (unresolved_message e m)) in
    (mkPlanState (<[id p := r]> (s_results st)) (s_v4 st) (s_v6 st) (s_client_rates st) (s_application_rates st) (s_addresses st)
       (s_policy_clients st) (s_decided st), (resolved, true))
  end.

Definition set_results (st : PlanState) (r : gmap string PolicyResult) : PlanState :=
  mkPlanState r (s_v4 st) (s_v6 st) (s_client_rates st) (s_application_rates st) (s_addresses st) (s_policy_clients st) (s_decided st).

Definition identity_gap : string :=
  "some selected clients have no unambiguous current LAN identity; known clients remain shaped".

Definition plan_candidate (st : PlanState) (p : PolicySnapshotEntry) : PlanState :=
  let '(st, (resolved, unresolved)) := foldl (plan_client p) (st, (false, false)) (PolicyWire.clients (selectors (spec p))) in
  if (is_kind Limit p && unresolved && resolved)%bool then
    set_results st (alter (λ r, set_result r Degraded (Some "identity_partial") (Some identity_gap)) (id p) (s_results st))
  else st.

Definition planned : PlanState := foldl plan_candidate (mkPlanState first_results ∅ ∅ ∅ ∅ [] ∅ ∅) candidates.

(** A degraded shaping capability degrades every applied limit. *)
Definition degrade_limits (m : gmap string PolicyResult) : gmap string PolicyResult :=
  foldl (λ m p, alter (λ r,
    if (bool_decide (status r = Applied) && is_cap (client_limit (capabilities t)) CapDegraded)%bool then
      set_result r Degraded
        (Some (default "ipv6_unavailable" (client_limit_reason_code t)))
        (Some (default "rate limiting has partial address-family coverage" (client_limit_reason t)))
    else r) (id p) m) m (List.filter (is_kind Limit) ps).

(** [policies.iter().filter_map(|policy| results.remove(&policy.id))]. *)
Fixpoint remove_results (m : gmap string PolicyResult) (l : list PolicySnapshotEntry) : list PolicyResult :=
  match l with
  | [] => []
  | p :: l =>
    match m !! id p with
    | Some r => r :: remove_results (delete (id p) m) l
    | None => remove_results m l
    end
  end.

(** [results.iter_mut().find(|entry| entry.policy_id == id)] and a change of it. *)
Fixpoint update_result (pid : string) (f : PolicyResult → PolicyResult) (rs : list PolicyResult) : list PolicyResult :=
  match rs with
  | [] => []
  | r :: rs => if String.eqb (result_policy_id r) pid then f r :: rs else r :: update_result pid f rs
  end.

Definition degraded_block (p : PolicySnapshotEntry) : bool :=
  (negb (is_kind Limit p)
   && ((is_supported_client_policy p && is_cap (client_block (capabilities t)) CapDegraded)
       || (names_application p && is_cap (application_block (capabilities t)) CapDegraded)))%bool.

Definition degrade_blocks (rs : list PolicyResult) : list PolicyResult :=
  if (is_cap (client_block (capabilities t)) CapDegraded || is_cap (application_block (capabilities t)) CapDegraded)%bool then
    foldl (λ rs p, update_result (id p) (λ r,
      if bool_decide (status r = Applied) then set_result r Degraded (topology_reason_code t) (topology_reason t) else r) rs)
      rs (List.filter degraded_block ps)
  else rs.

(** The rates of a client under a limit. *)
Definition effective (st : PlanState) (p : PolicySnapshotEntry) (mac : string) : option PolicyClientRate :=
  if names_application p then
    r ← s_application_rates st !! (id p, mac);
    let parent := s_client_rates st !! mac in
    Some (mkClientRate mac
      ((λ rate, Z.min rate (default (default rate (wan_capacity_bps t)) (c ← parent; upload_bps c))) <$> upload_bps r)
      ((λ rate, Z.min rate (default (default rate (lan_capacity_bps t)) (c ← parent; download_bps c))) <$> download_bps r))
  else
    r ← s_client_rates st !! mac;
    Some (mkClientRate mac (upload_bps r) (download_bps r)).

Definition limit_details (st : PlanState) (p : PolicySnapshotEntry) : PolicyResultDetails :=
  let selected := default ∅ (s_policy_clients st !! id p) in
  let cs := omap (effective st p) (btree_elements str_leb selected) in
  let up := if existsb (λ c, bool_decide (is_Some (effective_upload_bps c))) cs then option_list (shaping_wan t) else [] in
  let down := if existsb (λ c, bool_decide (is_Some (effective_download_bps c))) cs then option_list (head (lan_interfaces t)) else [] in
  mkDetails cs (btree_elements str_leb (list_to_set (up ++ down)))
    (if bool_decide (selected = ∅) then None else Some "HTB + fq_codel") None.

Definition set_details (r : PolicyResult) (d : PolicyResultDetails) : PolicyResult :=
  mkResult (result_policy_id r) (status r) (reason_code r) (message r) (Some d).

Definition add_details (st : PlanState) (rs : list PolicyResult) : list PolicyResult :=
  foldl (λ rs p, update_result (id p) (λ r, set_details r (limit_details st p)) rs) rs (List.filter (is_kind Limit) ps).

Definition in_effect (r : PolicyResult) : bool := match status r with Applied | Degraded => true | _ => false end.
Definition has_status (st : PolicyResultStatus) (r : PolicyResult) : bool := bool_decide (status r = st).

Definition overall (any_applied : bool) (rs : list PolicyResult) : PolicyAckStatus :=
  if existsb (has_status Unsupported) rs then
    if (any_applied || existsb (has_status Failed) rs)%bool then PPartial else PUnsupported
  else if existsb (has_status Failed) rs then if any_applied then PPartial else PFailed
  else if existsb (has_status Degraded) rs then PPartial
  else PApplied.

Definition final_results : list PolicyResult :=
  add_details planned (degrade_blocks (remove_results (degrade_limits (s_results planned)) ps)).

Definition build_plan : BuiltPlan :=
  let st := planned in
  let rs := final_results in
  let any_applied := (negb (bool_decide (s_v4 st = ∅)) || negb (bool_decide (s_v6 st = ∅)) || existsb in_effect rs)%bool in
  mkPlan (s_v4 st) (s_v6 st) rs (overall any_applied rs) (existsb in_effect rs) (s_client_rates st) (s_application_rates st)
    (dedup (sort_by (lex_leb str_leb addr_leb) (s_addresses st))) [] None.

End build.

(** ** Shaping *)

(** Messages of the allocators and of the validation; a panic, which cannot
    happen, has none. *)
Definition alloc_text (e : AllocError) : string :=
  match e with
  | ClientLimit => "unsupported_client_limit: at most 256 client budgets are allowed per egress"
  | InvalidClientRate => "invalid_client_rate: client budgets are outside the safe capacity range"
  | DuplicatedTags => "degraded_ownership_conflict: saved client class tags are duplicated"
  | NoFreeTag => "unsupported_client_limit: no collision-free class tag is available"
  | ApplicationLimit => "unsupported_application_limit: at most 4096 application budgets are allowed per egress"
  | InvalidApplicationRate => "invalid_application_rate: application rates must be between 64000 and 1000000000 bps"
  | DuplicatedClassIds => "degraded_ownership_conflict: saved application class IDs are invalid or duplicated"
  | NoParent => "invalid_application_parent: application class has no client parent class"
  | NoFreeApplicationTag => "unsupported_application_limit: a client cannot own more than 127 application budgets"
  | NoFreeClassId => "unsupported_application_limit: no collision-free application class ID is available"
  | ExceedsParent => "invalid_application_rate: application budget exceeds its client parent rate"
  | SharedClientLimit => "unsupported_client_limit: shared egress supports 255 clients per direction"
  | SharedTagsExhausted => "shared egress client tag space exhausted"
  | AllocPanic => EmptyString
  end.
Definition shaping_text (e : ShapingError) : string :=
  match e with
  | UnsupportedSchema => "unsupported local traffic-shaping state schema"
  | SharedWithDedicated => "shared egress cannot coexist with dedicated direction roots"
  | LayoutMismatch => "shaping layout does not match its physical root"
  | InvalidInterface => "local traffic-shaping state contains invalid interface metadata"
  | InvalidClient => "local traffic-shaping state contains invalid client assignments"
  | TooManyApplications => "local traffic-shaping state exceeds the application class limit"
  | OrphanApplication => "local traffic-shaping state contains an orphan application class"
  | InvalidApplication => "local traffic-shaping state contains an invalid application class"
  | DuplicateDefault => "local traffic-shaping state contains duplicate default classes"
  | Panic => EmptyString
  end.

Definition directional (d : Direction) (r : ClientRates) : option Z :=
  match d with Upload => upload_bps r | Download => download_bps r end.

Definition set_budget (c : ClientClass) (b : bool) : ClientClass :=
  mkClient (gateway_id c) (mac c) (direction c) (interface c) (ifindex c) (tag c) (class_minor c) (leaf_minor c) (rate_bps c) b.

Section shaping.
Context `{Digest} (gw : string).
Context (client_rates : gmap string ClientRates) (application_rates : gmap (string * string) ClientRates).

Definition own_rates (d : Direction) : gmap string Z := omap (directional d) client_rates.
Definition has_budget (d : Direction) (c : ClientClass) : bool :=
  bool_decide (is_Some (r ← client_rates !! mac c; directional d r)).

(** Clients with an application limit get a parent class, with the capacity as
    their rate where they have none of their own. *)
Definition parent_rates (d : Direction) (capacity : Z) : gmap string Z :=
  foldl (λ m '((pid, mac), r),
    match directional d r with
    | Some _ => match m !! mac with Some _ => m | None => <[mac := capacity]> m end
    | None => m
    end) (own_rates d) (btree_entries key_leb application_rates).

Definition kept_root_kind (previous : option ManagedInterface) (idx : Z) : string :=
  match previous with
  | Some i => if m_ifindex i =? idx then original_root_kind i else EmptyString
  | None => EmptyString
  end.

Definition build_managed_interface (d : Direction) (iface : string) (idx capacity : Z) (previous : option ManagedInterface)
    : result string (option ManagedInterface) :=
  let parents := parent_rates d capacity in
  let policy_rates : gmap (string * string) Z := omap (directional d) application_rates in
  if bool_decide (parents = ∅) then Ok None
  else
    cs ← map_err alloc_text (allocate_classes gw d iface idx parents (match previous with Some i => clients i | None => [] end));
    let cs := (λ c, set_budget c (has_budget d c)) <$> cs in
    let policy_rates := map_imap (λ k r,
      Some (match List.find (λ c, String.eqb (mac c) (snd k)) cs with Some p => Z.min r (rate_bps p) | None => r end)) policy_rates in
    apps ← map_err alloc_text (allocate_application_classes gw d iface idx policy_rates cs
                                 (match previous with Some i => application_classes i | None => [] end));
    Ok (Some (mkManaged false iface idx capacity (kept_root_kind previous idx) cs apps)).

(** Application classes of the other direction that stay wanted keep their
    class ids, unless they are taken already. *)
Definition reserved_minors (d : Direction) (prior : option ManagedInterface) (apps : list ApplicationClass) : gset Z :=
  let taken := app_class_minor <$> apps in
  let kept :=
    match prior with
    | None => []
    | Some i =>
      List.filter (λ a,
        negb (bool_decide (app_direction a = d))
        && bool_decide (is_Some (r ← application_rates !! (app_policy_id a, app_mac a); directional (app_direction a) r))
        && negb (bool_decide (app_class_minor a ∈ taken)))%bool (application_classes i)
    end in
  list_to_set taken ∪ list_to_set (app_class_minor <$> kept).

(** One direction of a shared egress. *)
Definition shared_direction (iface : string) (idx capacity : Z) (prior : option ManagedInterface)
    (st : list ClientClass * list ApplicationClass) (d : Direction) : result string (list ClientClass * list ApplicationClass) :=
  let rates := parent_rates d capacity in
  let app_rates := map_imap (λ k r, r ← directional d r; Some (Z.min r (default capacity (rates !! snd k)))) application_rates in
  _ ← reject_if (existsb (λ e, capacity <? snd e) (btree_entries str_leb rates))
        "invalid_client_rate: shared client ceiling exceeds interface capacity";
  cs ← map_err alloc_text (allocate_shared_client_classes gw d iface idx rates (match prior with Some i => clients i | None => [] end));
  let cs := (λ c, set_budget c (has_budget d c)) <$> cs in
  apps ← map_err alloc_text (allocate_application_classes_reserved gw d iface idx app_rates cs
                               (match prior with Some i => application_classes i | None => [] end) (reserved_minors d prior (snd st)));
  Ok (fst st ++ cs, snd st ++ apps).

Definition build_shaping_state (t : PolicyTopology) (previous : option ShapingState) : result string ShapingState :=
  if (bool_decide (client_rates = ∅) && bool_decide (application_rates = ∅))%bool then Ok Shaper.empty
  else match head (lan_interfaces t), shaping_wan t, lan_ifindex t, wan_ifindex t, lan_capacity_bps t, wan_capacity_bps t with
  | Some lan, Some wan, Some lan_idx, Some wan_idx, Some lan_cap, Some wan_cap =>
    if is_one_arm_router t then
      _ ← reject_if (negb (lan_idx =? wan_idx) || negb (lan_cap =? wan_cap))%bool
            "shared egress requires one consistent physical interface identity and capacity";
      let prior := s ← previous; s_shared_egress s in
      '(cs, apps) ← foldM (shared_direction lan lan_idx lan_cap prior) ([], []) [Upload; Download];
      let state := mkShaping 2 None None (Some (mkManaged true lan lan_idx lan_cap (kept_root_kind prior lan_idx) cs apps)) in
      _ ← map_err shaping_text (shaping_validate state);
      Ok state
    else
      up ← build_managed_interface Upload wan wan_idx wan_cap (s ← previous; upload_interface s);
      down ← build_managed_interface Download lan lan_idx lan_cap (s ← previous; download_interface s);
      Ok (mkShaping 1 up down None)
  | _, _, _, _, _, _ => Err "unsupported_multi_egress: verified LAN/WAN interface metadata is incomplete"
  end.

End shaping.

Definition with_shaping (p : BuiltPlan) (marks : list MarkRule) (s : option ShapingState) : BuiltPlan :=
  mkPlan (blocked_v4 p) (blocked_v6 p) (plan_results p) (ack_status p) (has_supported_policy p) (client_rates p) (application_rates p)
    (client_addresses p) marks s.

Definition compile_shaping_plan `{Digest} (gw : string) (t : PolicyTopology) (previous : option ShapingState) (p : BuiltPlan)
    : result string BuiltPlan :=
  state ← build_shaping_state gw (client_rates p) (application_rates p) t previous;
  if Shaper.is_empty state then Ok p
  else
    lan ← ok_or (head (lan_interfaces t)) "unsupported_multi_egress: no verified LAN interface is available";
    _ ← reject_if (bool_decide (wan_interfaces t = [])) "unsupported_multi_egress: no verified WAN interface is available";
    let classes o := match o with Some i => clients i | None => [] end in
    let '(up, down) :=
      match s_shared_egress state with
      | Some i => (List.filter (λ c, bool_decide (direction c = Upload)) (clients i),
                   List.filter (λ c, bool_decide (direction c = Download)) (clients i))
      | None => (classes (upload_interface state), classes (download_interface state))
      end in
    let marks := wan_interfaces t ≫= rules_for_clients up down (client_addresses p) lan in
    Ok (with_shaping p marks (Some state)).

Definition mark_limit_unsupported (t : PolicyTopology) (error : string) : PolicyTopology :=
  let '(code, message) :=
    match split_code error with
    | Some (c, m) => if (negb (str_is_empty c) && (str_len c <=? 128))%bool then (c, m) else ("unsupported_kernel_feature", error)
    | None => ("unsupported_kernel_feature", error)
    end in
  let caps := capabilities t in
  mkPolicyTopology (supported t) (topology_reason_code t) (topology_reason t)
    (mkCapabilities (client_block caps) CapUnsupported (application_block caps) CapUnsupported (client_total_limit caps))
    (Some code) (Some message) (lan_interfaces t) (wan_interfaces t) (wan_shaping_interface t) (lan_ifindex t) (wan_ifindex t)
    (lan_capacity_bps t) (wan_capacity_bps t) (internal_networks t) (neighbor_bindings t) (ipv6_coverage t).

(** What a limit reports when its classes could not be prepared. *)
Definition degrade_result (code message : string) (r : PolicyResult) : PolicyResult :=
  let d := default (mkDetails [] [] None None) (details r) in
  let d := mkDetails (details_clients d) (controlled_interfaces d) (qdisc d) (Some code) in
  if bool_decide (status r = Applied) then mkResult (result_policy_id r) Unsupported (Some code) (Some message) (Some d)
  else mkResult (result_policy_id r) (status r) (reason_code r) (PolicyWire.message r) (Some d).

Definition mark_limit_results_degraded (p : BuiltPlan) (ps : list PolicySnapshotEntry) (error : string) : BuiltPlan :=
  let '(code, message) := default ("degraded_ownership_conflict", error) (split_code error) in
  let rs := foldl (λ rs q, update_result (id q) (degrade_result code message) rs) (plan_results p)
              (List.filter (λ q, enabled (spec q) && is_kind Limit q)%bool ps) in
  let st := if (existsb in_effect rs && existsb (λ r, has_status Unsupported r || has_status Failed r) rs)%bool then PPartial else ack_status p in
  mkPlan (blocked_v4 p) (blocked_v6 p) rs st (has_supported_policy p) (client_rates p) (application_rates p) (client_addresses p)
    (mark_rules p) (plan_shaping p).

(** ** Which addresses are blocked *)

Section blocked.
Context (ps : list PolicySnapshotEntry) (si : list PolicyScheduleIntervals) (valid_until : Z) (now : option Z) (t : PolicyTopology).

Abbreviation addresses_of m := (resolve (from_neighbors (neighbor_bindings t)) m).

(** The policies and clients the plan goes through, in order. *)
Definition decisions (l : list PolicySnapshotEntry) : list (PolicySnapshotEntry * string) :=
  l ≫= λ p, pair p <$> PolicyWire.clients (selectors (spec p)).

(** The policy that decides the access of a client. *)
Definition decider (ds : list (PolicySnapshotEntry * string)) (m : string) : option (PolicySnapshotEntry * string) :=
  List.find (λ d, negb (is_kind Limit (fst d)) && String.eqb (to_ascii_lowercase (snd d)) m)%bool ds.

Definition blockable (a : IpAddr) : bool :=
  match a with V4 a => v4_blockable a | V6 a => (v6_blockable a && ipv6_coverage t)%bool end.
Definition is_blocked (st : PlanState) (a : IpAddr) : Prop := match a with V4 a => a ∈ s_v4 st | V6 a => a ∈ s_v6 st end.

(** The client's policy is a block, and the address is one of the client's. *)
Definition block_of (ds : list (PolicySnapshotEntry * string)) (a : IpAddr) : Prop :=
  ∃ m addrs d, decider ds m = Some d ∧ is_kind Block (fst d) = true ∧ addresses_of m = Ok addrs ∧ a ∈ addrs ∧ blockable a = true.

Record plan_inv (ds : list (PolicySnapshotEntry * string)) (st : PlanState) : Prop := mkPlanInv {
  pi_decided : ∀ m, m ∈ s_decided st ↔ is_Some (decider ds m) ∧ is_ok (addresses_of m) = true;
  pi_blocked : ∀ a, is_blocked st a ↔ block_of ds a;
}.

Lemma block_addresses addrs v4 v6 a : let '(v4', v6') := foldl (block_address t) (v4, v6) addrs in
  match a with V4 x => x ∈ v4' | V6 x => x ∈ v6' end ↔ match a with V4 x => x ∈ v4 | V6 x => x ∈ v6 end ∨ (a ∈ addrs ∧ blockable a = true).
Proof.
  revert v4 v6. induction addrs as [|b addrs IH]; intros v4 v6; cbn [foldl].
  { rewrite elem_of_nil. destruct a; tauto. }
  destruct (block_address t (v4, v6) b) as [v4' v6'] eqn:Hb. specialize (IH v4' v6'). destruct (foldl _ _ addrs) as [v4'' v6''].
  rewrite IH, elem_of_cons. clear IH. unfold block_address in Hb. cbn [fst snd] in Hb.
  destruct b as [b|b]; [destruct (v4_blockable b) eqn:Hbl|destruct (v6_blockable b && ipv6_coverage t)%bool eqn:Hbl];
    injection Hb as <- <-; destruct a as [a|a]; cbn [blockable]; rewrite ?elem_of_union, ?elem_of_singleton;
    (split; intros Hx; destruct_or? Hx; destruct_and? Hx; destruct_or?; simplify_eq; auto; congruence).
Qed.

Lemma plan_client_inv ds st flags p mac : plan_inv ds st →
  plan_inv (ds ++ [(p, mac)]) (fst (plan_client t p (st, flags) mac)).
Proof.
  intros [Hd Hb]. unfold plan_client. destruct flags as [r u]. set (m := to_ascii_lowercase mac).
  assert (∀ m', decider (ds ++ [(p, mac)]) m' = match decider ds m' with Some d => Some d | None =>
      if (negb (is_kind Limit p) && String.eqb m m')%bool then Some (p, mac) else None end) as Hdec.
  { intros m'. unfold decider. by rewrite find_snoc. }
  destruct (addresses_of m) as [addrs|e] eqn:Hm.
  2:{ cbn [fst]. split.
      - intros m'. cbn [s_decided]. rewrite Hd, Hdec. destruct (decider ds m') as [d|]; [done|].
        destruct (negb (is_kind Limit p) && String.eqb m m')%bool eqn:Hc; [|done].
        apply andb_true_iff in Hc as [_ <-%String.eqb_eq]. rewrite Hm. split; [intros [[? [=]] _]|by intros [_ [=]]].
      - intros a. change (is_blocked _ a) with (is_blocked st a). rewrite Hb. unfold block_of. split; intros (m' & addrs & d & H1 & H2 & H3 & H4).
        + exists m', addrs, d. rewrite Hdec, H1. done.
        + rewrite Hdec in H1. destruct (decider ds m') as [d'|] eqn:Hd'; [injection H1 as <-; by exists m', addrs, d'|].
          destruct (negb (is_kind Limit p) && String.eqb m m')%bool eqn:Hc; [|done]. apply andb_true_iff in Hc as [_ <-%String.eqb_eq]. congruence. }
  set (applies := (negb (is_kind Limit p) && negb (bool_decide (m ∈ s_decided st)))%bool).
  pose proof (λ a, block_addresses addrs (s_v4 st) (s_v6 st) a) as Hblk.
  destruct (foldl (block_address t) (s_v4 st, s_v6 st) addrs) as [v4 v6].
  destruct (if (applies && is_kind Block p)%bool then (v4, v6) else (s_v4 st, s_v6 st)) as [v4' v6'] eqn:Hv. cbn [fst]. split.
  - intros m'. cbn [s_decided]. rewrite Hdec. specialize (Hd m'). destruct (negb (is_kind Limit p)) eqn:Hl; cbn [andb].
    + destruct (String.eqb_spec m m') as [<-|Hne].
      * split; [intros _; split; [destruct (decider ds m); eauto|by rewrite Hm]|]. intros _. set_solver.
      * rewrite elem_of_union, elem_of_singleton, Hd. destruct (decider ds m'); naive_solver.
    + rewrite Hd. by destruct (decider ds m').
  - intros a. assert (is_blocked (mkPlanState (s_results st) v4' v6' ∅ ∅ [] ∅ ∅) a ↔
      is_blocked st a ∨ (applies = true ∧ is_kind Block p = true ∧ a ∈ addrs ∧ blockable a = true)) as Hbl.
    { destruct applies, (is_kind Block p); cbn [andb] in Hv; injection Hv as <- <-;
        [rewrite (Hblk a)|..]; destruct a; cbn [is_blocked s_v4 s_v6]; naive_solver. }
    etransitivity; [|etransitivity; [exact Hbl|]]; [by destruct a|]. rewrite Hb. unfold block_of. split.
    + intros [(m' & addrs' & d & H1 & H2 & H3)|(Ha & Hk & Hin & Hbk)].
      * exists m', addrs', d. rewrite Hdec, H1. done.
      * exists m, addrs, (p, mac). rewrite Hdec. unfold applies in Ha. apply andb_true_iff in Ha as [-> Hnd%negb_true_iff%bool_decide_eq_false].
        rewrite Hd, Hm in Hnd. rewrite String.eqb_refl. destruct (decider ds m) eqn:Hdm; [|done]. exfalso. apply Hnd. split; [eauto|done].
    + intros (m' & addrs' & d & H1 & H2 & H3 & H4). rewrite Hdec in H1. destruct (decider ds m') as [d'|] eqn:Hd'.
      * injection H1 as <-. left. by exists m', addrs', d'.
      * destruct (negb (is_kind Limit p) && String.eqb m m')%bool eqn:Hc; [|done]. injection H1 as <-. apply andb_true_iff in Hc as [Hl <-%String.eqb_eq].
        right. rewrite Hm in H3. injection H3 as <-. split; [|done]. unfold applies. rewrite Hl. cbn [andb].
        apply negb_true_iff, bool_decide_eq_false. rewrite Hd, Hd'. by intros [[? ?] _].
Qed.

Lemma plan_clients_inv p cs ds st flags : plan_inv ds st →
  plan_inv (ds ++ (pair p <$> cs)) (fst (foldl (plan_client t p) (st, flags) cs)).
Proof.
  revert ds st flags. induction cs as [|c cs IH]; intros ds st flags Hi; [by rewrite app_nil_r|]. cbn [foldl fmap list_fmap].
  destruct (plan_client t p (st, flags) c) as [st' flags'] eqn:Hc. change (?x :: ?l) with ([x] ++ l). rewrite app_assoc. apply IH.
  replace st' with (fst (plan_client t p (st, flags) c)) by (by rewrite Hc). by apply plan_client_inv.
Qed.

Lemma plan_candidate_inv ds st p : plan_inv ds st → plan_inv (ds ++ (pair p <$> PolicyWire.clients (selectors (spec p)))) (plan_candidate t st p).
Proof.
  intros Hi. unfold plan_candidate. pose proof (plan_clients_inv p (PolicyWire.clients (selectors (spec p))) ds st (false, false) Hi) as Hc.
  destruct (foldl _ _ _) as [st' [r u]]. cbn [fst] in Hc. destruct (_ && _)%bool; [|done]. destruct Hc as [Hd Hb]. split; [done|].
  intros a. rewrite <- Hb. by destruct a.
Qed.

Lemma planned_inv : plan_inv (decisions (candidates ps si valid_until now t)) (planned ps si valid_until now t).
Proof.
  unfold planned. assert (∀ l ds st, plan_inv ds st → plan_inv (ds ++ decisions l) (foldl (plan_candidate t) st l)) as Hall.
  { induction l as [|p l IH]; intros ds st Hi; [by rewrite app_nil_r|]. cbn [foldl]. unfold decisions. cbn. rewrite app_assoc. apply IH.
    by apply plan_candidate_inv. }
  apply (Hall _ []). split.
  - intros m. cbn. split; [set_solver|by intros [[? [=]] _]].
  - intros a. split; [destruct a; set_solver|]. by intros (? & ? & ? & [=] & _).
Qed.

(** A policy on the access of clients that is in force and names the client. *)
Definition decides (p : PolicySnapshotEntry) (m : string) : Prop :=
  p ∈ ps ∧ is_supported_client_policy p = true ∧ is_kind Limit p = false ∧ evaluate p si now valid_until = Active ∧
  ∃ mac, mac ∈ PolicyWire.clients (selectors (spec p)) ∧ to_ascii_lowercase mac = m.

Lemma candidate_in_force p : is_kind Limit p = false →
  snd (classify si valid_until now t p) = true ↔ is_supported_client_policy p = true ∧ evaluate p si now valid_until = Active.
Proof.
  intros Hl. unfold classify, is_supported_client_policy. rewrite Hl. cbn [andb]. destruct (enabled (spec p)); cbn [negb andb]; [|naive_solver].
  destruct (is_client_policy_shape p); cbn [negb].
  2:{ rewrite andb_false_r. cbn [andb]. destruct (_ && _)%bool; naive_solver. }
  destruct (bool_decide (is_Some (schedule (spec p))) && forallb _ si)%bool eqn:Hmiss.
  - split; [done|]. intros [_ Ha]. exfalso. apply andb_true_iff in Hmiss as [Hs%bool_decide_eq_true Hall].
    unfold evaluate in Ha. destruct (schedule (spec p)); [|by destruct Hs]. destruct (clock_ok now); [|done]. destruct (_ <=? _); [done|].
    destruct (find_intervals si (id p)) as [e|] eqn:Hf; [|done]. apply find_Some_elem in Hf as [Hin He].
    apply forallb_Forall in Hall. rewrite Forall_forall in Hall. specialize (Hall e Hin). cbn in Hall. by rewrite He in Hall.
  - destruct (evaluate _ _ _ _); naive_solver.
Qed.

Definition names (m : string) (p : PolicySnapshotEntry) : bool :=
  (negb (is_kind Limit p) && existsb (λ mac, String.eqb (to_ascii_lowercase mac) m) (PolicyWire.clients (selectors (spec p))))%bool.

Lemma decider_clients p cs ds m : fst <$> decider ((pair p <$> cs) ++ ds) m =
  if (negb (is_kind Limit p) && existsb (λ mac, String.eqb (to_ascii_lowercase mac) m) cs)%bool then Some p else fst <$> decider ds m.
Proof.
  unfold decider. induction cs as [|c cs IH]; cbn; [by rewrite andb_false_r|].
  destruct (is_kind Limit p); cbn [negb andb] in *; [exact IH|]. by destruct (String.eqb (to_ascii_lowercase c) m).
Qed.

Lemma decider_find l m : fst <$> decider (decisions l) m = List.find (names m) l.
Proof. induction l as [|p l IH]; [done|]. cbn [List.find]. rewrite <- IH. apply decider_clients. Qed.

Lemma names_candidate m p : p ∈ candidates ps si valid_until now t ∧ names m p = true ↔ decides p m.
Proof.
  unfold candidates, names, decides. rewrite elem_of_sort_by, elem_of_filterb, andb_true_iff, negb_true_iff, existsb_exists. split.
  - intros [[Hp Hc] [Hl (c & Hc1 & Hc2%String.eqb_eq)]]. apply candidate_in_force in Hc as []; [|done]. split_and!; [done..|].
    exists c. by rewrite list_elem_of_In.
  - intros (Hp & Hs & Hl & Ha & c & Hc & <-). split_and!; [done|by apply candidate_in_force|done|]. exists c. rewrite <- list_elem_of_In, String.eqb_refl. done.
Qed.

Lemma first_decides m p : NoDup (id <$> ps) →
  List.find (names m) (candidates ps si valid_until now t) = Some p ↔ decides p m ∧ ∀ q, decides q m → policy_leb p q = true.
Proof.
  intros Hnd. assert (StronglySorted (λ a b, policy_leb a b = true) (candidates ps si valid_until now t)) as Hsort.
  { apply sort_by_sorted; [apply policy_leb_total|apply policy_leb_trans]. }
  assert (∀ q, List.find (names m) (candidates ps si valid_until now t) = Some q → decides q m ∧ ∀ r, decides r m → policy_leb q r = true) as Hmin.
  { intros q Hf. split; [by apply names_candidate, find_Some_elem|]. intros r [Hr Hn]%names_candidate.
    destruct (sorted_find _ _ _ _ Hsort Hf r Hr Hn) as [->|]; [|done]. destruct (policy_leb r r) eqn:He; [done|]. by apply policy_leb_total in He as Hx; rewrite Hx in He. }
  split; [apply Hmin|]. intros [Hd Hall]. destruct (List.find (names m) _) as [q|] eqn:Hf.
  - destruct (Hmin q eq_refl) as [Hq Hqm]. f_equal. apply (NoDup_key_inj id ps); [done|apply Hq|apply Hd|].
    apply policy_leb_antisym; auto.
  - exfalso. apply names_candidate in Hd as [Hin Hn]. apply list_elem_of_In in Hin. by rewrite (find_none _ _ Hf p Hin) in Hn.
Qed.

(** C3: The plan blocks exactly the addresses of the clients whose access a block
    decides: an address that can be blocked is in the plan where it belongs,
    without a conflict, to a client for which the first policy in force by
    priority and id is a block, whatever comes later. *)
Theorem blocked_addresses_exact a : NoDup (id <$> ps) →
  let b := build_plan ps si valid_until now t in
  match a with V4 x => x ∈ blocked_v4 b | V6 x => x ∈ blocked_v6 b end ↔
  blockable a = true ∧ ∃ p m addrs, decides p m ∧ (∀ q, decides q m → policy_leb p q = true) ∧ is_kind Block p = true ∧
    addresses_of m = Ok addrs ∧ a ∈ addrs.
Proof.
  intros Hnd b. transitivity (is_blocked (planned ps si valid_until now t) a); [by destruct a|].
  rewrite (pi_blocked _ _ planned_inv). unfold block_of. split.
  - intros (m & addrs & d & Hd & Hk & Hm & Ha & Hb). split; [done|]. exists (fst d), m, addrs.
    assert (List.find (names m) (candidates ps si valid_until now t) = Some (fst d)) as [Hdec Hmin]%first_decides; [by rewrite <- decider_find, Hd|done..].
  - intros (Hb & p & m & addrs & Hd & Hmin & Hk & Hm & Ha). pose proof (proj2 (first_decides m p Hnd) (conj Hd Hmin)) as Hf.
    rewrite <- decider_find in Hf. apply fmap_Some in Hf as (d & Hf & ->). by exists m, addrs, d.
Qed.

End blocked.

(** ** What is reported *)

Section reported.
Context (ps : list PolicySnapshotEntry) (si : list PolicyScheduleIntervals) (valid_until : Z) (now : option Z) (t : PolicyTopology).
Context (Hnd : NoDup (id <$> ps)).

Abbreviation addresses_of m := (resolve (from_neighbors (neighbor_bindings t)) m).

(** A relation between a policy and its result, kept by the last phases. *)
Context (R : PolicySnapshotEntry → PolicyResult → Prop) (HRid : ∀ p r, R p r → result_policy_id r = id p).

Definition reports (m : gmap string PolicyResult) : Prop := ∀ p, p ∈ ps → ∃ r, m !! id p = Some r ∧ R p r.

Lemma same_id p q : p ∈ ps → q ∈ ps → id p = id q → p = q.
Proof. intros Hp Hq He. by apply (NoDup_key_inj id ps). Qed.

Lemma alter_reports f q m : q ∈ ps → (∀ r, R q r → R q (f r)) → reports m → reports (alter f (id q) m).
Proof.
  intros Hq Hf Hm p Hp. destruct (Hm p Hp) as (r & Hr & HR). destruct (decide (id q = id p)) as [He|He].
  - apply same_id in He as <-; [|done..]. exists (f r). rewrite lookup_alter_eq, Hr. auto.
  - exists r. by rewrite lookup_alter_ne.
Qed.

Lemma update_reports l rs pid f : Forall2 R l rs → (∀ p r, p ∈ l → R p r → id p = pid → R p (f r)) → Forall2 R l (update_result pid f rs).
Proof.
  intros Hl Hf. induction Hl as [|p r l rs HR Hl IH]; [constructor|]. cbn. destruct (String.eqb_spec (result_policy_id r) pid) as [He|He].
  - constructor; [|done]. apply Hf; [left|done|]. by rewrite <- (HRid _ _ HR).
  - constructor; [done|]. apply IH. intros q x Hq. apply Hf. by right.
Qed.

Lemma remove_reports m l : NoDup (id <$> l) → (∀ p, p ∈ l → ∃ r, m !! id p = Some r ∧ R p r) → Forall2 R l (remove_results m l).
Proof.
  revert m. induction l as [|p l IH]; intros m Hl Hm; [constructor|]. cbn in *. destruct (Hm p) as (r & Hr & HR); [left|]. rewrite Hr.
  apply NoDup_cons in Hl as [Hp Hl]. constructor; [done|]. apply IH; [done|]. intros q Hq. destruct (Hm q) as (x & Hx & HRx); [by right|].
  exists x. rewrite lookup_delete_ne; [done|]. intros He. apply Hp. rewrite He. by apply list_elem_of_fmap_2.
Qed.

(** The phases after the candidates. *)
Lemma final_reports :
  reports (s_results (planned ps si valid_until now t)) →
  (∀ p r c m, p ∈ ps → R p r → is_kind Limit p = true → status r = Applied →
     c = default "ipv6_unavailable" (client_limit_reason_code t) →
     m = default "rate limiting has partial address-family coverage" (client_limit_reason t) → R p (set_result r Degraded (Some c) (Some m))) →
  (∀ p r, p ∈ ps → R p r → degraded_block t p = true → status r = Applied → R p (set_result r Degraded (topology_reason_code t) (topology_reason t))) →
  (∀ p r, p ∈ ps → R p r → is_kind Limit p = true → R p (set_details r (limit_details t (planned ps si valid_until now t) p))) →
  Forall2 R ps (plan_results (build_plan ps si valid_until now t)).
Proof.
  intros Hplan Hlim Hblk Hdet. cbn [build_plan plan_results]. unfold final_results.
  assert (reports (degrade_limits ps t (s_results (planned ps si valid_until now t)))) as Hdeg.
  { unfold degrade_limits. assert (∀ l m, (∀ p, p ∈ l → p ∈ ps ∧ is_kind Limit p = true) → reports m → reports (foldl (λ m p, alter (λ r,
      if (bool_decide (status r = Applied) && is_cap (client_limit (capabilities t)) CapDegraded)%bool then
      set_result r Degraded (Some (default "ipv6_unavailable" (client_limit_reason_code t)))
        (Some (default "rate limiting has partial address-family coverage" (client_limit_reason t))) else r) (id p) m) m l)) as Hfold.
    { induction l as [|p l IH]; intros m Hl Hm; [done|]. cbn [foldl]. apply IH; [intros q Hq; apply Hl; by right|].
      destruct (Hl p) as [Hp Hk]; [left|]. apply alter_reports; [done| |done]. intros r HR.
      destruct (bool_decide (status r = Applied)) eqn:Hs; cbn [andb]; [|done]. apply bool_decide_eq_true in Hs. destruct (is_cap _ _); [|done]. by eapply Hlim. }
    apply Hfold; [|done]. intros p Hp. by apply elem_of_filterb in Hp. }
  pose proof (remove_reports _ ps Hnd Hdeg) as Hrem.
  assert (Forall2 R ps (degrade_blocks ps t (remove_results (degrade_limits ps t (s_results (planned ps si valid_until now t))) ps))) as Hbl.
  { unfold degrade_blocks. destruct (_ || _)%bool; [|done]. revert Hrem. generalize (remove_results (degrade_limits ps t (s_results (planned ps si valid_until now t))) ps).
    assert (∀ p, p ∈ List.filter (degraded_block t) ps → p ∈ ps ∧ degraded_block t p = true) as Hin by (intros p Hp; by apply elem_of_filterb in Hp).
    induction (List.filter (degraded_block t) ps) as [|p l IH]; intros rs Hrs; [done|]. cbn [foldl]. apply IH; [intros q Hq; apply Hin; by right|].
    apply update_reports; [done|]. intros q r Hq HR He. destruct (Hin p) as [Hp Hd]; [left|]. apply same_id in He as <-; [|done..].
    case_bool_decide; [|done]. by apply Hblk. }
  unfold add_details. revert Hbl. generalize (degrade_blocks ps t (remove_results (degrade_limits ps t (s_results (planned ps si valid_until now t))) ps)).
  assert (∀ p, p ∈ List.filter (is_kind Limit) ps → p ∈ ps ∧ is_kind Limit p = true) as Hin by (intros p Hp; by apply elem_of_filterb in Hp).
  induction (List.filter (is_kind Limit) ps) as [|p l IH]; intros rs Hrs; [done|]. cbn [foldl]. apply IH; [intros q Hq; apply Hin; by right|].
  apply update_reports; [done|]. intros q r Hq HR He. destruct (Hin p) as [Hp Hd]; [left|]. apply same_id in He as <-; [|done..]. by apply Hdet.
Qed.

(** The candidates: a policy is only changed at its own turn. *)
Definition keeps : Prop :=
  (∀ p, p ∈ ps → R p (fst (classify si valid_until now t p))) ∧
  (∀ p r mac e, p ∈ ps → R p r → mac ∈ PolicyWire.clients (selectors (spec p)) → addresses_of (to_ascii_lowercase mac) = Err e →
     R p (set_result r (if is_kind Limit p then Degraded else Failed) (Some (if is_kind Limit p then "identity_partial" else identity_reason_code e))
            (Some (unresolved_message e (to_ascii_lowercase mac))))) ∧
  (∀ p r, p ∈ ps → R p r → is_kind Limit p = true → R p (set_result r Degraded (Some "identity_partial") (Some identity_gap))).

Lemma first_reports : keeps → reports (first_results ps si valid_until now t).
Proof.
  intros (Hc & _) p Hp. exists (fst (classify si valid_until now t p)). split; [|auto]. clear Hc R HRid. unfold first_results. revert p Hp.
  induction ps as [|q l IH] using rev_ind; intros p Hp; [by apply elem_of_nil in Hp|]. rewrite foldl_app. cbn [foldl].
  rewrite fmap_app in Hnd. apply NoDup_app in Hnd as (Hl & Hdis & _). apply elem_of_app in Hp as [Hp|Hp%list_elem_of_singleton].
  - rewrite lookup_insert_ne; [by apply IH|]. intros He. apply (Hdis (id p)); [by apply list_elem_of_fmap_2|rewrite <- He; left].
  - subst p. by rewrite lookup_insert_eq.
Qed.

Lemma plan_client_reports p st flags mac : keeps → p ∈ ps → mac ∈ PolicyWire.clients (selectors (spec p)) →
  reports (s_results st) → reports (s_results (fst (plan_client t p (st, flags) mac))).
Proof.
  intros (_ & He & _) Hp Hmac Hr. unfold plan_client. destruct flags as [a b]. destruct (addresses_of (to_ascii_lowercase mac)) as [addrs|e] eqn:Hm.
  - by case_match.
  - cbn [fst s_results]. intros q Hq. destruct (Hr q Hq) as (r & Hlk & HR). destruct (decide (id p = id q)) as [Hid|Hid].
    + apply same_id in Hid as <-; [|done..]. rewrite lookup_insert_eq, Hlk. cbn [default]. eexists. split; [done|]. by eapply He.
    + exists r. by rewrite lookup_insert_ne.
Qed.

Lemma planned_reports : keeps → reports (s_results (planned ps si valid_until now t)).
Proof.
  intros Hk. unfold planned. assert (∀ p, p ∈ candidates ps si valid_until now t → p ∈ ps) as Hin.
  { intros p Hp. unfold candidates in Hp. rewrite elem_of_sort_by, elem_of_filterb in Hp. tauto. }
  assert (reports (s_results (mkPlanState (first_results ps si valid_until now t) ∅ ∅ ∅ ∅ [] ∅ ∅))) as Hst by (by apply first_reports).
  revert Hst Hin. generalize (mkPlanState (first_results ps si valid_until now t) ∅ ∅ ∅ ∅ [] ∅ ∅).
  induction (candidates ps si valid_until now t) as [|p l IH]; intros st Hst Hin; [done|]. cbn [foldl]. apply IH; [|intros q Hq; apply Hin; by right].
  assert (p ∈ ps) as Hp by (apply Hin; left). unfold plan_candidate.
  assert (∀ cs st flags, (∀ c, c ∈ cs → c ∈ PolicyWire.clients (selectors (spec p))) → reports (s_results st) →
    reports (s_results (fst (foldl (plan_client t p) (st, flags) cs)))) as Hfold.
  { clear st Hst IH Hin l. induction cs as [|c cs IH]; intros st flags Hcs Hst; [done|]. cbn [foldl].
    pose proof (plan_client_reports p st flags c Hk Hp (Hcs c ltac:(left)) Hst) as Hstep. destruct (plan_client t p (st, flags) c) as [st' flags'].
    apply IH; [intros x Hx; apply Hcs; by right|done]. }
  specialize (Hfold _ st (false, false) (λ c Hc, Hc) Hst). destruct (foldl _ _ _) as [st' [a b]]. cbn [fst] in Hfold.
  destruct (is_kind Limit p && b && a)%bool eqn:Hl; [|done]. apply andb_true_iff in Hl as [Hl _]. apply andb_true_iff in Hl as [Hl _].
  cbn [s_results set_results]. apply alter_reports; [done| |done]. intros r HR. by apply Hk.
Qed.

End reported.

Section honest.
Context (ps : list PolicySnapshotEntry) (si : list PolicyScheduleIntervals) (valid_until : Z) (now : option Z) (t : PolicyTopology).
Context (Hnd : NoDup (id <$> ps)).

Abbreviation addresses_of m := (resolve (from_neighbors (neighbor_bindings t)) m).
Abbreviation the_plan := (build_plan ps si valid_until now t).

(** A block or allow with a client that has no clear address. *)
Definition unresolved (p : PolicySnapshotEntry) : Prop :=
  is_kind Limit p = false ∧ ∃ mac e, mac ∈ PolicyWire.clients (selectors (spec p)) ∧ addresses_of (to_ascii_lowercase mac) = Err e.

Lemma plan_client_status p st flags mac k : k ≠ id p → s_results (fst (plan_client t p (st, flags) mac)) !! k = s_results st !! k.
Proof.
  intros Hk. unfold plan_client. destruct flags as [a b]. destruct (addresses_of (to_ascii_lowercase mac)); [by case_match|].
  cbn. by rewrite lookup_insert_ne.
Qed.

Lemma plan_clients_status p cs st flags k : k ≠ id p → s_results (fst (foldl (plan_client t p) (st, flags) cs)) !! k = s_results st !! k.
Proof.
  intros Hk. revert st flags. induction cs as [|c cs IH]; intros st flags; [done|]. cbn [foldl].
  pose proof (plan_client_status p st flags c k Hk) as Hc. destruct (plan_client t p (st, flags) c) as [st' flags']. by rewrite IH.
Qed.

Lemma plan_candidate_other st p k : k ≠ id p → s_results (plan_candidate t st p) !! k = s_results st !! k.
Proof.
  intros Hk. unfold plan_candidate. pose proof (plan_clients_status p (PolicyWire.clients (selectors (spec p))) st (false, false) k Hk) as Hc.
  destruct (foldl _ _ _) as [st' [a b]]. destruct (_ && _)%bool; [|done]. cbn. by rewrite lookup_alter_ne.
Qed.

Definition failed_at (m : gmap string PolicyResult) (k : string) : Prop := ∃ r, m !! k = Some r ∧ status r = Failed.

Lemma plan_clients_failed p cs st flags : is_kind Limit p = false →
  failed_at (s_results st) (id p) ∨ (∃ mac e, mac ∈ cs ∧ addresses_of (to_ascii_lowercase mac) = Err e) →
  failed_at (s_results (fst (foldl (plan_client t p) (st, flags) cs))) (id p).
Proof.
  intros Hl. revert st flags. induction cs as [|c cs IH]; intros st flags Hor.
  { destruct Hor as [?|(? & ? & []%elem_of_nil & _)]. done. }
  cbn [foldl]. destruct (plan_client t p (st, flags) c) as [st' flags'] eqn:Hc. apply IH.
  unfold plan_client in Hc. destruct flags as [a b]. destruct (addresses_of (to_ascii_lowercase c)) as [addrs|e] eqn:Hm.
  - assert (s_results st' = s_results st) as -> by (revert Hc; case_match; by intros [= <- <-]).
    destruct Hor as [?|(mac & e & [->|Hin]%elem_of_cons & He)]; [by left|congruence|right; eauto].
  - left. injection Hc as <- <-. unfold failed_at. cbn [s_results]. rewrite lookup_insert_eq. rewrite Hl. eauto.
Qed.

Lemma planned_failed p : p ∈ candidates ps si valid_until now t → unresolved p → failed_at (s_results (planned ps si valid_until now t)) (id p).
Proof.
  intros Hp (Hl & mac & e & Hmac & He). unfold planned. generalize (mkPlanState (first_results ps si valid_until now t) ∅ ∅ ∅ ∅ [] ∅ ∅). intros st.
  assert (NoDup (id <$> candidates ps si valid_until now t)) as Hc.
  { unfold candidates. rewrite (sort_by_perm policy_leb). clear -Hnd. induction ps as [|q l IH]; [constructor|]. cbn in *. apply NoDup_cons in Hnd as [Hq Hl].
    destruct (snd _); [|auto]. cbn. apply NoDup_cons. split; [|auto]. intros (x & Hx & Hin)%list_elem_of_fmap. apply Hq. rewrite Hx.
    apply list_elem_of_fmap_2. by apply elem_of_filterb in Hin as [? _]. }
  apply list_elem_of_split in Hp as (l1 & l2 & Hsplit). rewrite Hsplit in Hc |- *. rewrite fmap_app in Hc. apply NoDup_app in Hc as (_ & _ & Hc). cbn in Hc. apply NoDup_cons in Hc as [Hp _].
  rewrite foldl_app. cbn [foldl]. set (st1 := foldl (plan_candidate t) st l1).
  assert (failed_at (s_results (plan_candidate t st1 p)) (id p)) as Hfail.
  { unfold plan_candidate. pose proof (plan_clients_failed p (PolicyWire.clients (selectors (spec p))) st1 (false, false) Hl) as Hf.
    destruct (foldl (plan_client t p) (st1, (false, false)) _) as [st' [a b]]. rewrite Hl. apply Hf. right. eauto. }
  revert Hfail. generalize (plan_candidate t st1 p). clear Hsplit. induction l2 as [|q l2 IH]; intros st0 Hf; [done|]. cbn [foldl]. cbn in Hp. apply IH.
  - intros Hin. apply Hp. by right.
  - unfold failed_at. rewrite plan_candidate_other; [done|]. intros Heq. apply Hp. rewrite Heq. left.
Qed.

Lemma classify_id p : result_policy_id (fst (classify si valid_until now t p)) = id p.
Proof. unfold classify, unsupported_result. repeat case_match; done. Qed.

Lemma results_honest : Forall2 (λ p r, result_policy_id r = id p ∧ (p ∈ candidates ps si valid_until now t → unresolved p → status r = Failed))
  ps (plan_results the_plan).
Proof.
  apply final_reports; [done|by intros ?? []| |..].
  - intros p Hp. destruct (planned_reports ps si valid_until now t Hnd (λ p r, result_policy_id r = id p)) with p as (r & Hr & Hid); [|done|].
    { split_and!; [intros; apply classify_id|done|done]. }
    exists r. split_and!; [done|done|]. intros Hc Hu. destruct (planned_failed p Hc Hu) as (r' & Hr' & Hs). congruence.
  - intros p r c m _ [Hid _] Hl _ _ _. split; [done|]. intros _ [? _]. congruence.
  - intros p r _ [Hid Hf] _ Hs. split; [done|]. intros Hc Hu. specialize (Hf Hc Hu). congruence.
  - intros p r _ [Hid _] Hl. split; [done|]. intros _ [? _]. congruence.
Qed.

(** C11: Every policy of a snapshot is reported once, in the order of the snapshot,
    and a block or allow of clients in force that is reported as enforced means
    it: all its clients have their addresses, and for each of them a policy at
    least as important decides, whose addresses are blocked if it is a block. *)
Theorem reported_policies_enforced :
  result_policy_id <$> plan_results the_plan = id <$> ps ∧
  ∀ p r, p ∈ ps → r ∈ plan_results the_plan → result_policy_id r = id p → is_supported_client_policy p = true → is_kind Limit p = false →
    evaluate p si now valid_until = Active → in_effect r = true →
    ∀ mac, mac ∈ PolicyWire.clients (selectors (spec p)) →
    ∃ addrs q, addresses_of (to_ascii_lowercase mac) = Ok addrs ∧ decides ps si valid_until now q (to_ascii_lowercase mac) ∧ policy_leb q p = true ∧
      (is_kind Block q = true → ∀ a, a ∈ addrs → blockable t a = true →
       match a with V4 x => x ∈ blocked_v4 the_plan | V6 x => x ∈ blocked_v6 the_plan end).
Proof.
  pose proof results_honest as Hall. split.
  { clear -Hall. induction Hall as [|p r l rs [Hid _] _ IH]; [done|]. cbn. by rewrite Hid, IH. }
  intros p r Hp Hr Hid Hs Hl Ha Heff mac Hmac. set (m := to_ascii_lowercase mac).
  assert (decides ps si valid_until now p m) as Hd by (split_and!; [done..|by exists mac]).
  destruct (addresses_of m) as [addrs|e] eqn:Hm.
  2:{ exfalso. apply list_elem_of_lookup in Hr as (i & Hi). destruct (Forall2_lookup_r _ _ _ _ _ Hall Hi) as (q & Hq & Hqid & Hfail).
      assert (q = p) as -> by (apply (NoDup_key_inj id ps); [done|by eapply list_elem_of_lookup_2|done|congruence]).
      unfold in_effect in Heff. rewrite Hfail in Heff; [done| |].
      - apply (names_candidate ps si valid_until now t m). done.
      - split; [done|]. eauto. }
  destruct (List.find (names m) (candidates ps si valid_until now t)) as [q|] eqn:Hf.
  2:{ exfalso. apply (names_candidate ps si valid_until now t) in Hd as [Hin Hn]. apply list_elem_of_In in Hin. by rewrite (find_none _ _ Hf p Hin) in Hn. }
  pose proof (proj1 (first_decides ps si valid_until now t m q Hnd) Hf) as [Hq Hmin]. exists addrs, q. split_and!; [done|done|by apply Hmin|].
  intros Hk a Ha' Hb. assert (is_blocked (planned ps si valid_until now t) a) as Hblk; [|by destruct a].
  rewrite (pi_blocked _ _ _ (planned_inv ps si valid_until now t)). rewrite <- decider_find in Hf. apply fmap_Some in Hf as (d & Hf & ->). by exists m, addrs, d.
Qed.

End honest.

(** ** Reports that can be sent *)

Lemma sanitize_chars_spec cs len : 0 ≤ len ≤ 512 → Forall (λ c, is_char c ∧ Forall is_u8 (snd c)) cs →
  Forall (λ c, is_char c ∧ Forall is_u8 (snd c) ∧ is_control (fst c) = false) (sanitize_chars len cs) ∧
  len + zlen (concat (snd <$> sanitize_chars len cs)) ≤ 512.
Proof.
  intros Hlen Hcs. revert len Hlen. induction Hcs as [|c cs [Hc Hu] _ IH]; intros len Hlen; cbn [sanitize_chars].
  { split; [constructor|]. change (zlen (concat (snd <$> []))) with 0. lia. }
  set (c' := if is_control (fst c) then (32, [32]) else c).
  assert (is_char c' ∧ Forall is_u8 (snd c') ∧ is_control (fst c') = false) as Hc'.
  { unfold c'. destruct (is_control (fst c)) eqn:He; [|done]. split_and!; [done| |done]. repeat constructor; done. }
  destruct (Z.ltb_spec 512 (len + zlen (snd c'))) as [Hl|Hl]; [split; [constructor|change (zlen (concat (snd <$> []))) with 0; lia]|].
  destruct (IH (len + zlen (snd c'))) as [Hall Hle]; [pose proof (zlen_nonneg (snd c')); lia|]. split; [by constructor|].
  cbn. rewrite zlen_app. lia.
Qed.

Lemma sanitize_ok message : str_len (sanitize_result_message message) ≤ 512 ∧ has_control (sanitize_result_message message) = false.
Proof.
  unfold sanitize_result_message. pose proof (utf8_split_Forall is_u8 (str_bytes message) (str_bytes_u8 message)) as Hall.
  destruct (sanitize_chars_spec _ 0 ltac:(lia) Hall) as [Hs Hle]. set (cs := sanitize_chars 0 (utf8_split (str_bytes message))) in *.
  assert (str_bytes (bytes_str (concat (snd <$> cs))) = concat (snd <$> cs)) as Hb.
  { apply str_bytes_of. clear -Hs. induction Hs as [|c l (_ & Hc & _) _ IH]; [constructor|]. cbn. apply Forall_app. split; [|done].
    eapply Forall_impl; [exact Hc|]. intros b Hb. unfold in_width in Hb. lia. }
  destruct (str_trim_chars (bytes_str (concat (snd <$> cs)))) as (pre & mid & suf & Hsplit & Hmid & Hbytes).
  rewrite Hb, utf8_split_concat in Hsplit by (eapply Forall_impl; [exact Hs|]; by intros c [? _]).
  split.
  - rewrite str_len_bytes, Hbytes. rewrite Hsplit, !fmap_app, !concat_app, !zlen_app in Hle.
    pose proof (zlen_nonneg (concat (snd <$> pre))). pose proof (zlen_nonneg (concat (snd <$> suf))). lia.
  - unfold has_control, str_chars. rewrite Hmid. apply existsb_false. apply Forall_fmap. rewrite Hsplit, !Forall_app in Hs.
    eapply Forall_impl; [apply Hs|]. intros c Hc. apply Hc.
Qed.

(** What the protocol asks of the texts of a result. *)
Record result_ok (r : PolicyResult) : Prop := mkResultOk {
  ro_id : text_ok 128 (result_policy_id r);
  ro_reason : bad_optional (bad_text 128) (reason_code r) = false;
  ro_message : bad_optional (λ v, (512 <? str_len v) || has_control v)%bool (message r) = false;
  ro_details : details r = None;
}.

Lemma validate_results_Ok rs : Forall result_ok rs → NoDup (result_policy_id <$> rs) → zlen rs ≤ 256 → validate_results rs = Ok tt.
Proof.
  intros Hrs Hnd Hlen. unfold validate_results.
  assert (∀ seen, (∀ r, r ∈ rs → result_policy_id r ∉ seen) → ∃ seen', foldM validate_result seen rs = Ok seen') as Hfold.
  { clear Hlen. induction Hrs as [|r rs [Hid Hre Hme Hde] _ IH]; intros seen Hseen; [by exists seen|]. cbn in Hnd. apply NoDup_cons in Hnd as [Hr Hnd].
    assert (validate_result seen r = Ok ({[result_policy_id r]} ∪ seen)) as Hv.
    { unfold validate_result. rewrite (proj2 (validate_nonempty_id_Ok _ _) Hid), Hre, Hme, Hde. cbn [mbind result_bind orb].
      rewrite bool_decide_eq_false_2 by (apply Hseen; left). done. }
    cbn [foldM]. rewrite Hv. cbn [mbind result_bind]. apply IH; [done|]. intros x Hx. apply not_elem_of_union. split; [|apply Hseen; by right].
    apply not_elem_of_singleton. intros He. apply Hr. rewrite <- He. by apply list_elem_of_fmap_2. }
  destruct (Hfold ∅) as [seen ->]; [set_solver|]. cbn. rewrite (proj2 (Z.ltb_ge 256 (zlen rs))) by done. done.
Qed.

Lemma policy_result_ok pid st code message : text_ok 128 pid → result_ok (policy_result pid st code message).
Proof.
  intros Hp. split; cbn; [done| | |done].
  - destruct code as [c|]; [|done]. cbn. by destruct (bad_text 128 c) eqn:He; cbn.
  - destruct message as [m|]; [|done]. cbn. destruct (sanitize_ok m) as [Hl Hc]. rewrite Hc, (proj2 (Z.ltb_ge _ _) Hl). done.
Qed.

Lemma snapshot_results_ok f st error : snapshot_fields_wf f → Forall result_ok (snapshot_results (PolicySnapshot f) st error) ∧
  result_policy_id <$> snapshot_results (PolicySnapshot f) st error = id <$> policies f.
Proof.
  intros Hwf. pose proof (fw_policies f Hwf) as Hps. cbn. split.
  - apply Forall_fmap. eapply Forall_impl; [exact Hps|]. intros p [Hp _]. cbn. case_match; by apply policy_result_ok.
  - rewrite <- list_fmap_compose. apply list_fmap_ext. intros i p _. cbn. by case_match.
Qed.

Lemma unsupported_topology_results_ok ps t : Forall (λ p, text_ok 128 (id p)) ps → Forall result_ok (unsupported_topology_results ps t) ∧
  result_policy_id <$> unsupported_topology_results ps t = id <$> ps.
Proof.
  intros Hps. unfold unsupported_topology_results, unsupported_result. split.
  - apply Forall_fmap. eapply Forall_impl; [exact Hps|]. intros p Hp. cbn. repeat case_match; by apply policy_result_ok.
  - rewrite <- list_fmap_compose. apply list_fmap_ext. intros i p _. cbn. by repeat case_match.
Qed.

(** The reasons of the topology are texts the protocol takes. *)
Definition topology_text_ok (t : PolicyTopology) : Prop :=
  bad_optional (bad_text 128) (topology_reason_code t) = false ∧
  bad_optional (λ v, (512 <? str_len v) || has_control v)%bool (topology_reason t) = false.

Lemma mac_char_printable c : ((byte_val c =? 58) || is_upper_hex (byte_val c))%bool = true → 32 ≤ byte_val (ascii_lower c) < 127.
Proof. destruct c as [[] [] [] [] [] [] [] []]; vm_compute; intros; split; congruence. Qed.

Lemma unresolved_message_ok e mac : valid_mac mac = true → let m := unresolved_message e (to_ascii_lowercase mac) in
  str_len m ≤ 512 ∧ has_control m = false.
Proof.
  intros Hm. assert (str_len (to_ascii_lowercase mac) = 17 ∧ printable (to_ascii_lowercase mac)) as [Hl Hp].
  { unfold valid_mac in Hm. apply andb_true_iff in Hm as [Hl%Z.eqb_eq Hb]. split.
    - rewrite <- Hl. clear. unfold str_len. f_equal. induction mac as [|c s IH]; [done|]. cbn. by rewrite IH.
    - clear Hl. unfold printable. revert Hb. generalize 0%nat. induction mac as [|c s IH]; intros i Hb; [constructor|].
      cbn in Hb. apply andb_true_iff in Hb as [Hc Hb]. cbn. constructor; [|by eapply IH].
      apply mac_char_printable. apply orb_true_iff. unfold mac_byte_ok in Hc. destruct (Nat.eqb _ 2); auto. }
  split.
  - destruct e; cbn [unresolved_message]; rewrite str_len_bytes, str_bytes_app, zlen_app, <- (str_len_bytes (to_ascii_lowercase mac)), Hl; vm_compute; congruence.
  - apply printable_clean. destruct e; apply printable_app; try done; by repeat (constructor; [vm_compute; split; congruence|]); constructor.
Qed.

Lemma plan_results_ok f now t : snapshot_fields_wf f → topology_text_ok t → Forall (λ p, is_kind Limit p = false) (policies f) →
  let rs := plan_results (build_plan (policies f) (schedule_intervals f) (valid_until_ms f) now t) in
  Forall result_ok rs ∧ result_policy_id <$> rs = id <$> policies f.
Proof.
  intros Hwf [Hcode Hreason] Hlim rs. pose proof (strict_keys_NoDup id _ (fw_sorted f Hwf)) as Hnd.
  pose proof (fw_policies f Hwf) as Hps. rewrite Forall_forall in Hps, Hlim.
  assert (Forall2 (λ p r, result_policy_id r = id p ∧ result_ok r) (policies f) rs) as Hall.
  { apply final_reports; [done|by intros ?? []| |..].
    - apply (planned_reports (policies f) (schedule_intervals f) (valid_until_ms f) now t Hnd (λ p r, result_policy_id r = id p ∧ result_ok r)). split_and!.
      + intros p Hp. destruct (Hps p Hp) as [Hid _]. split; [apply classify_id|]. unfold classify, unsupported_result.
        repeat case_match; cbn [fst]; by apply policy_result_ok.
      + intros p r mac e Hp [Hid [Hr1 Hr2 Hr3 Hr4]] Hmac He. split; [done|]. destruct (Hps p Hp) as [_ Hs]. pose proof (sw_clients _ _ Hs) as Hcl.
        rewrite Forall_forall in Hcl. destruct (unresolved_message_ok e mac (Hcl mac Hmac)) as [Hlen Hctl].
        split; cbn; [done| | |done]; [by destruct (is_kind Limit p), e|]. rewrite Hctl, (proj2 (Z.ltb_ge _ _) Hlen). done.
      + intros p r Hp _ Hl. rewrite (Hlim p Hp) in Hl. done.
    - intros p r c m Hp _ Hl. rewrite (Hlim p Hp) in Hl. done.
    - intros p r Hp [Hid [Hr1 Hr2 Hr3 Hr4]] _ _. split; [done|]. by split.
    - intros p r Hp _ Hl. rewrite (Hlim p Hp) in Hl. done. }
  clear -Hall. induction Hall as [|p r l rs [Hid Hr] _ [IH1 IH2]]; [done|]. split; [by constructor|]. cbn. by rewrite Hid, IH2.
Qed.

(** ** An example *)

Module PlanExample.
Definition first_mac : string := "02:AA:BB:CC:DD:01".
Definition second_mac : string := "02:AA:BB:CC:DD:02".
Definition topology : PolicyTopology :=
  mkPolicyTopology true None None (mkCapabilities CapSupported CapSupported CapSupported CapSupported None) None None ["br-lan"] ["wan"] None
    (Some 3) (Some 2) (Some 1000000000) (Some 100000000) ["192.168.1.0/24"] [(first_mac, V4 3232235796); (second_mac, V4 3232235797)] true.
Definition spec_of (priority : Z) (clients : list string) (k : PolicyActionKind) : PolicySpecV1 :=
  mkSpec 1 "gw" "policy" "" true priority (mkSelectors clients [] [] f64_0_80) (mkNetwork "internet" "both") (mkAction k None None) None.
(** An exception for one of two blocked clients. *)
Definition exception : PolicySnapshotEntry := mkEntry "p1" (spec_of 1 [first_mac] Allow).
Definition both : PolicySnapshotEntry := mkEntry "p2" (spec_of 10 [first_mac; second_mac] Block).
Definition entries : list PolicySnapshotEntry := [exception; both].
End PlanExample.

Lemma example_ids_distinct : NoDup (id <$> PlanExample.entries).
Proof. repeat (apply NoDup_cons; split; [apply (bool_decide_unpack _); vm_compute; exact I|]). apply NoDup_nil_2. Qed.

Lemma blocked_addresses_exact_witness :
  let b := build_plan PlanExample.entries [] 1800000060000 (Some 1800000000001) PlanExample.topology in
  3232235796 ∉ blocked_v4 b ∧ 3232235797 ∈ blocked_v4 b ∧ ∃ p, decides PlanExample.entries [] 1800000060000 (Some 1800000000001) p (to_ascii_lowercase PlanExample.second_mac) ∧ is_kind Block p = true.
Proof.
  intros b. pose proof (blocked_addresses_exact PlanExample.entries [] 1800000060000 (Some 1800000000001) PlanExample.topology) as Ht.
  split; [apply (bool_decide_unpack _); vm_compute; exact I|]. assert (3232235797 ∈ blocked_v4 b) as Hin by (apply (bool_decide_unpack _); vm_compute; exact I).
  split; [done|]. exists PlanExample.both. specialize (Ht (V4 3232235797) example_ids_distinct). cbv zeta in Ht.
  apply (proj1 Ht) in Hin as (_ & p & m & addrs & Hd & _ & Hk & _ & _). split; [|vm_compute; reflexivity].
  split_and!; [by right; left|vm_compute; reflexivity..|]. exists PlanExample.second_mac. split; [by right; left|reflexivity].
Defined.

Lemma reported_policies_enforced_witness :
  let b := build_plan PlanExample.entries [] 1800000060000 (Some 1800000000001) PlanExample.topology in
  status <$> plan_results b = [Applied; Applied] ∧
  ∃ addrs q, resolve (from_neighbors (neighbor_bindings PlanExample.topology)) (to_ascii_lowercase PlanExample.first_mac) = Ok addrs ∧
    decides PlanExample.entries [] 1800000060000 (Some 1800000000001) q (to_ascii_lowercase PlanExample.first_mac) ∧ policy_leb q PlanExample.both = true.
Proof.
  intros b. split; [vm_compute; reflexivity|].
  destruct (proj2 (reported_policies_enforced PlanExample.entries [] 1800000060000 (Some 1800000000001) PlanExample.topology example_ids_distinct)
    PlanExample.both (policy_result "p2" Applied None None)) with PlanExample.first_mac as (addrs & q & Ha & Hq & Hle & _).
  - by right; left.
  - apply list_elem_of_lookup. exists 1%nat. vm_compute. reflexivity.
  - reflexivity.
  - vm_compute. reflexivity.
  - reflexivity.
  - vm_compute. reflexivity.
  - reflexivity.
  - by left.
  - exists addrs, q. exact (conj Ha (conj Hq Hle)).
Defined.
