(* ===== verification/Guarantees.v ===== *)
(** The guaranteed rates of the classes of an interface (client_guarantee,
    shared_fallback_guarantee and application_child_rates in
    src/crates/agent/src/policy/qdisc.rs, and the checks of apply on them).  HTB
    serves the guarantee of every class before any class may borrow, so the
    budgets hold only if the guarantees below a class add up to at most its
    own. *)

From S2P Require Import Prelude Config Shaper.

Fixpoint sum_of {A} (f : A → Z) (l : list A) : Z :=
  match l with
  | [] => 0
  | a :: l => f a + sum_of f l
  end.

(** ** The shares of the clients *)

Definition shared_fallback_guarantee (i : ManagedInterface) : Z := Z.min (capacity_bps i / 32) 1000000 / 8 * 8.

Definition peers (i : ManagedInterface) (c : ClientClass) : list ClientClass :=
  List.filter (λ p, negb (shared_egress i) || bool_decide (direction p = direction c))%bool (clients i).

Definition guarantee_budget (i : ManagedInterface) : Z :=
  if shared_egress i then u64_saturating_sub (capacity_bps i / 2) (shared_fallback_guarantee i) else capacity_bps i.

(** The cast of the share to 64 bits keeps the low bits. *)
Definition client_guarantee (i : ManagedInterface) (c : ClientClass) : Z :=
  let demand := sum_of rate_bps (peers i c) in
  let share := (guarantee_budget i * rate_bps c / Z.max demand 1) mod 2 ^ 64 in
  Z.min (rate_bps c) share / 8 * 8.

(** ** The shares of the applications of a client *)

Definition applications_of (i : ManagedInterface) (c : ClientClass) : list ApplicationClass :=
  List.filter (λ a, parent_class_minor a =? class_minor c) (application_classes i).

Definition rate_bytes (a : ApplicationClass) : Z := app_rate_bps a / 8.

Definition insert_rates (f : ApplicationClass → Z) (l : list ApplicationClass) : gmap Z Z :=
  foldl (λ m a, <[app_class_minor a := f a]> m) ∅ l.

(** Descending by remainder and class. *)
Definition remainder_leb (x y : Z * Z) : bool := lex_leb Z.leb Z.leb y x.

(** [None] where a subtraction would wrap below zero. *)
Definition application_child_rates (parent_rate_bps default_minor : Z) (apps : list ApplicationClass) : option (gmap Z Z) :=
  match apps with
  | [] => Some ∅
  | _ =>
    let total := sum_of rate_bytes apps in
    let parent := parent_rate_bps / 8 in
    if total <? parent then
      Some (<[default_minor := (parent - total) * 8]> (insert_rates (λ a, rate_bytes a * 8) apps))
    else if parent <? 1 + zlen apps then None
    else
      let budget := parent - 1 - zlen apps in
      let share a := budget * rate_bytes a / total in
      let remainders := sort_by remainder_leb ((λ a, ((budget * rate_bytes a) mod total, app_class_minor a)) <$> apps) in
      let remaining := budget - sum_of share apps in
      let rates := insert_rates (λ a, (share a + 1) * 8) apps in
      let rates := foldl (λ m e, alter (Z.add 8) (snd e) m) rates (take (Z.to_nat remaining) remainders) in
      Some (<[default_minor := 8]> rates)
  end.

(** ** What [apply] asks first *)

Definition check_client (i : ManagedInterface) (c : ClientClass) : result string unit :=
  let g := client_guarantee i c in
  let children := zlen (applications_of i c) in
  _ ← reject_if (g <? 8) "unsupported_client_limit: interface capacity cannot provide one byte per second to every client class";
  reject_if ((0 <? children) && (g <? 8 * (children + 1)))%bool
    "unsupported_application_limit: interface capacity cannot provide one byte per second to every application/default class".

Definition check_guarantees (s : ShapingState) : result string unit :=
  _ ← mapR (λ i, mapR (check_client i) (clients i)) (interfaces s);
  Ok tt.

(** ** Sums *)

Section sums.
Context {A : Type}.
Implicit Types (f g : A → Z) (l : list A).

Lemma sum_of_app f l k : sum_of f (l ++ k) = sum_of f l + sum_of f k.
Proof. induction l as [|a l IH]; cbn; [done|]. rewrite IH. lia. Qed.

Lemma sum_of_mono f g l : (∀ a, a ∈ l → f a ≤ g a) → sum_of f l ≤ sum_of g l.
Proof.
  induction l as [|a l IH]; intros Hl; cbn; [done|]. pose proof (Hl a (list_elem_of_here _ _)).
  enough (sum_of f l ≤ sum_of g l) by lia. apply IH. intros b Hb. apply Hl. by right.
Qed.

Lemma sum_of_ext f g l : (∀ a, a ∈ l → f a = g a) → sum_of f l = sum_of g l.
Proof. intros Hl. apply Z.le_antisymm; apply sum_of_mono; intros a Ha; rewrite (Hl a Ha); done. Qed.

Lemma sum_of_nonneg f l : (∀ a, a ∈ l → 0 ≤ f a) → 0 ≤ sum_of f l.
Proof.
  intros Hl. induction l as [|a l IH]; cbn; [done|]. pose proof (Hl a (list_elem_of_here _ _)).
  enough (0 ≤ sum_of f l) by lia. apply IH. intros b Hb. apply Hl. by right.
Qed.

Lemma sum_of_scale f k l : sum_of (λ a, k * f a) l = k * sum_of f l.
Proof. induction l as [|a l IH]; cbn [sum_of]; [by rewrite Z.mul_0_r|]. rewrite IH. ring. Qed.

Lemma sum_of_add f g l : sum_of (λ a, f a + g a) l = sum_of f l + sum_of g l.
Proof. induction l as [|a l IH]; cbn; [done|]. rewrite IH. lia. Qed.

Lemma sum_of_const k l : sum_of (λ _, k) l = k * zlen l.
Proof. induction l as [|a l IH]; cbn [sum_of]; [by rewrite Z.mul_0_r|]. rewrite zlen_cons, IH. ring. Qed.

Lemma sum_of_elem f l a : (∀ b, b ∈ l → 0 ≤ f b) → a ∈ l → f a ≤ sum_of f l.
Proof.
  intros Hl (l1 & l2 & ->)%list_elem_of_split. rewrite sum_of_app. cbn.
  assert (0 ≤ sum_of f l1) by (apply sum_of_nonneg; intros; apply Hl; set_solver).
  assert (0 ≤ sum_of f l2) by (apply sum_of_nonneg; intros; apply Hl; set_solver). lia.
Qed.

(** Shares of a budget, rounded down, fit into it, and less than one unit per
    share is lost. *)
Lemma sum_of_shares f budget total l : 0 < total → sum_of f l = total →
  let rest := budget - sum_of (λ a, budget * f a / total) l in 0 ≤ rest ∧ (l ≠ [] → rest < zlen l).
Proof.
  intros Ht Hs rest.
  assert (total * rest = sum_of (λ a, (budget * f a) mod total) l) as Hrest.
  { unfold rest. rewrite Z.mul_sub_distr_l, <- sum_of_scale.
    assert (total * budget = sum_of (λ a, budget * f a) l) as -> by (rewrite sum_of_scale; lia).
    enough (sum_of (λ a, budget * f a) l = sum_of (λ a, total * (budget * f a / total)) l + sum_of (λ a, (budget * f a) mod total) l) by lia.
    rewrite <- sum_of_add. apply sum_of_ext. intros a _. apply Z.div_mod. lia. }
  assert (0 ≤ sum_of (λ a, (budget * f a) mod total) l) as Hpos by (apply sum_of_nonneg; intros; apply Z.mod_pos_bound; lia).
  split; [nia|]. intros Hl. assert (sum_of (λ a, (budget * f a) mod total) l ≤ (total - 1) * zlen l) as Hle.
  { rewrite <- sum_of_const. apply sum_of_mono. intros a _. pose proof (Z.mod_pos_bound (budget * f a) total Ht). lia. }
  assert (0 < zlen l) by (destruct l; [done|rewrite zlen_cons; pose proof (zlen_nonneg l); lia]). nia.
Qed.
End sums.

Lemma sum_of_fmap {A B} (f : B → Z) (g : A → B) l : sum_of f (g <$> l) = sum_of (λ a, f (g a)) l.
Proof. induction l as [|a l IH]; [done|]. cbn. by rewrite IH. Qed.

Lemma sum_of_perm {A} (f : A → Z) (l k : list A) : l ≡ₚ k → sum_of f l = sum_of f k.
Proof. induction 1; cbn; lia. Qed.

(** ** Guarantees fit *)

Lemma not_nil_match {A B} (l : list A) (x y : B) : l ≠ [] → match l with [] => x | _ :: _ => y end = y.
Proof. by destruct l. Qed.

Lemma insert_rates_lookup f l : NoDup (app_class_minor <$> l) → ∀ a, a ∈ l → insert_rates f l !! app_class_minor a = Some (f a).
Proof.
  intros Hnd a Ha. unfold insert_rates. revert Hnd Ha. induction l as [|b l IH] using rev_ind; [by intros _ ?%elem_of_nil|].
  rewrite fmap_app, NoDup_app, elem_of_app, list_elem_of_singleton, foldl_app. cbn. intros (Hnd & Hne & _) [Ha| ->].
  - rewrite lookup_insert_ne; [by apply IH|]. intros Heq. apply (Hne (app_class_minor a)); [by apply list_elem_of_fmap_2|]. rewrite Heq. left.
  - apply lookup_insert_eq.
Qed.

Lemma insert_rates_dom f l : dom (insert_rates f l) = list_to_set (app_class_minor <$> l).
Proof.
  unfold insert_rates. induction l as [|b l IH] using rev_ind; [done|]. rewrite foldl_app, fmap_app, list_to_set_app_L. cbn. rewrite dom_insert_L, IH. set_solver.
Qed.

(** Eight more for each of some classes. *)
Lemma add_eights (ks : list (Z * Z)) (m : gmap Z Z) k : NoDup (snd <$> ks) →
  foldl (λ m e, alter (Z.add 8) (snd e) m) m ks !! k = (if bool_decide (k ∈ snd <$> ks) then Z.add 8 else λ v, v) <$> m !! k.
Proof.
  revert m. induction ks as [|e ks IH]; intros m Hnd; cbn [foldl].
  { rewrite bool_decide_eq_false_2 by apply not_elem_of_nil. by destruct (m !! k). }
  cbn in Hnd. apply NoDup_cons in Hnd as [He Hnd]. rewrite IH by done. destruct (decide (snd e = k)) as [<-|Hne].
  - rewrite lookup_alter_eq, (bool_decide_eq_false_2 _ He), (bool_decide_eq_true_2 (snd e ∈ snd <$> (e :: ks))) by (cbn; left).
    by destruct (m !! snd e).
  - rewrite lookup_alter_ne by done.
    assert (bool_decide (k ∈ snd <$> ks) = bool_decide (k ∈ snd <$> (e :: ks))) as ->; [|done].
    apply bool_decide_ext. cbn. rewrite elem_of_cons. split; [by right|]. intros [?|?]; [congruence|done].
Qed.

Lemma count_members {A} `{EqDecision A} (ks rest : list A) : (∀ k, k ∈ ks → k ∉ rest) →
  sum_of (λ k, if bool_decide (k ∈ ks) then 1 else 0) (ks ++ rest) = zlen ks.
Proof.
  intros Hd. rewrite sum_of_app, (sum_of_ext _ (λ _, 1)), (sum_of_ext _ (λ _, 0) rest), !sum_of_const; [lia| |].
  - intros k Hk. rewrite bool_decide_eq_false_2; [done|]. intros Hin. by apply (Hd k).
  - intros k Hk. by rewrite bool_decide_eq_true_2.
Qed.

(** The children of a client: distinct classes, and eight bits per second for
    each of them and the default class. *)
Record children_ok (parent default_minor : Z) (apps : list ApplicationClass) : Prop := mkChildren {
  ch_some : apps ≠ [];
  ch_minors : NoDup (default_minor :: (app_class_minor <$> apps));
  ch_rates : Forall (λ a, 8 ≤ app_rate_bps a) apps;
  ch_parent : 8 * (zlen apps + 1) ≤ parent;
}.

Definition rates_fit (parent default_minor : Z) (apps : list ApplicationClass) (m : gmap Z Z) : Prop :=
  dom m = {[default_minor]} ∪ list_to_set (app_class_minor <$> apps) ∧
  sum_of (λ k, default 0 (m !! k)) (default_minor :: (app_class_minor <$> apps)) = parent / 8 * 8 ∧
  (∃ d, m !! default_minor = Some d ∧ 8 ≤ d) ∧
  ∀ a, a ∈ apps → ∃ r, m !! app_class_minor a = Some r ∧ 8 ≤ r ≤ app_rate_bps a / 8 * 8 + 8.

Section children.
Context (parent default_minor : Z) (apps : list ApplicationClass) (Hok : children_ok parent default_minor apps).

Lemma rate_bytes_pos a : a ∈ apps → 1 ≤ rate_bytes a.
Proof.
  intros Ha. pose proof (ch_rates _ _ _ Hok) as Hr. rewrite Forall_forall in Hr. specialize (Hr a Ha).
  unfold rate_bytes. apply Z.div_le_lower_bound; lia.
Qed.

(** A map that gives the applications [f] and the default class [d]. *)
Lemma rates_fit_intro (m : gmap Z Z) f d x : x = d * 8 → dom m = list_to_set (app_class_minor <$> apps) →
  (∀ a, a ∈ apps → m !! app_class_minor a = Some (f a * 8) ∧ 1 ≤ f a ≤ rate_bytes a + 1) → 1 ≤ d → d + sum_of f apps = parent / 8 →
  rates_fit parent default_minor apps (<[default_minor := x]> m).
Proof.
  intros -> Hdom Hf Hd Hsum. pose proof (ch_minors _ _ _ Hok) as [Hdef Hnd]%NoDup_cons.
  assert (∀ a, a ∈ apps → <[default_minor := d * 8]> m !! app_class_minor a = Some (f a * 8)) as Hl.
  { intros a Ha. rewrite lookup_insert_ne by (intros ->; apply Hdef; by apply list_elem_of_fmap_2). by apply Hf. }
  split_and!.
  - by rewrite dom_insert_L, Hdom.
  - cbn [sum_of]. rewrite lookup_insert_eq, sum_of_fmap. cbn [default]. rewrite (sum_of_ext _ (λ a, 8 * f a)).
    + rewrite sum_of_scale. cbn. lia.
    + intros a Ha. rewrite (Hl a Ha). cbn. lia.
  - exists (d * 8). split; [by rewrite lookup_insert_eq|lia].
  - intros a Ha. exists (f a * 8). split; [by apply Hl|]. destruct (Hf a Ha) as [_ Hb]. unfold rate_bytes in Hb. lia.
Qed.

Lemma application_child_rates_fit : ∃ m, application_child_rates parent default_minor apps = Some m ∧ rates_fit parent default_minor apps m.
Proof.
  pose proof (ch_minors _ _ _ Hok) as [Hdef Hnd]%NoDup_cons. pose proof (ch_parent _ _ _ Hok) as Hp. pose proof (ch_some _ _ _ Hok) as Hne.
  unfold application_child_rates. rewrite not_nil_match by done.
  set (total := sum_of rate_bytes apps). set (p := parent / 8).
  assert (1 + zlen apps ≤ p) as Hpn by (unfold p; apply Z.div_le_lower_bound; lia).
  assert (0 < total) as Htotal.
  { assert (∃ a, a ∈ apps) as [a Ha] by (clear -Hne; destruct apps; [done|eexists; left]). pose proof (rate_bytes_pos a Ha).
    enough (rate_bytes a ≤ total) by lia. apply sum_of_elem; [|done]. intros b Hb. pose proof (rate_bytes_pos b Hb). lia. }
  destruct (Z.ltb_spec total p) as [Hlt|Hge].
  - eexists. split; [reflexivity|]. apply (rates_fit_intro _ rate_bytes (p - total)); [done|apply insert_rates_dom| |lia|fold total p; lia].
    intros a Ha. split; [by apply (insert_rates_lookup (λ a, rate_bytes a * 8))|]. pose proof (rate_bytes_pos a Ha). lia.
  - rewrite (proj2 (Z.ltb_ge p (1 + zlen apps))) by lia. set (budget := p - 1 - zlen apps). set (share := λ a, budget * rate_bytes a / total).
    set (rem := sort_by remainder_leb _). set (remaining := budget - sum_of share apps).
    assert (0 ≤ remaining ∧ (apps ≠ [] → remaining < zlen apps)) as [Hr0 Hr1] by (apply sum_of_shares; done). specialize (Hr1 Hne).
    assert (snd <$> rem ≡ₚ app_class_minor <$> apps) as Hperm.
    { unfold rem. rewrite (sort_by_perm remainder_leb). rewrite <- list_fmap_compose. done. }
    set (chosen := take (Z.to_nat remaining) rem).
    assert (NoDup (snd <$> chosen)) as Hchosen.
    { unfold chosen. apply (sublist_NoDup _ (snd <$> rem)); [by rewrite Hperm|]. apply fmap_sublist, sublist_take. }
    set (bonus := λ a, if bool_decide (app_class_minor a ∈ snd <$> chosen) then 1 else 0).
    eexists. split; [reflexivity|].
    apply (rates_fit_intro _ (λ a, share a + 1 + bonus a) 1); [done|..].
    + rewrite <- (insert_rates_dom (λ a, (share a + 1) * 8)). apply set_eq. intros k. rewrite !elem_of_dom, add_eights, fmap_is_Some by done. done.
    + intros a Ha. rewrite add_eights, (insert_rates_lookup (λ a, (share a + 1) * 8)) by done. unfold bonus.
      assert (0 ≤ share a < rate_bytes a) as Hshare.
      { pose proof (rate_bytes_pos a Ha). unfold share. split; [apply Z.div_pos; nia|]. apply Z.div_lt_upper_bound; nia. }
      case_bool_decide; cbn; split; try (f_equal; lia); lia.
    + lia.
    + rewrite !sum_of_add, sum_of_const. assert (sum_of bonus apps = remaining) as ->; [|unfold remaining, budget, share; fold p; lia].
      assert (snd <$> rem = (snd <$> chosen) ++ (snd <$> drop (Z.to_nat remaining) rem)) as Hsplit by (unfold chosen; by rewrite <- fmap_app, take_drop).
      rewrite Hsplit in Hperm. change bonus with (λ a, (λ k, if bool_decide (k ∈ snd <$> chosen) then 1 else 0) (app_class_minor a)).
      rewrite <- sum_of_fmap, <- (sum_of_perm _ _ _ Hperm), count_members
        by (rewrite <- Hperm in Hnd; apply NoDup_app in Hnd as (_ & ? & _); done).
      unfold chosen, zlen. rewrite length_fmap, length_take_le; [lia|]. apply Permutation_length in Hperm.
      rewrite <- Hsplit, !length_fmap in Hperm. unfold zlen in Hr1. lia.
Qed.
End children.

(** ** The clients *)

Lemma demand_positive i c : Forall (λ p, 0 < rate_bps p) (clients i) → c ∈ clients i → 0 < rate_bps c ≤ sum_of rate_bps (peers i c).
Proof.
  intros Hpos Hc. rewrite Forall_forall in Hpos. split; [by apply Hpos|]. apply sum_of_elem.
  - intros p [Hp _]%elem_of_filterb. specialize (Hpos p Hp). lia.
  - apply elem_of_filterb. split; [done|]. rewrite (bool_decide_eq_true_2 (direction c = direction c)) by done. apply orb_true_r.
Qed.

Lemma client_guarantee_le i c : Forall (λ p, 0 < rate_bps p) (clients i) → c ∈ clients i → 0 ≤ guarantee_budget i < 2 ^ 64 →
  0 ≤ client_guarantee i c ≤ rate_bps c ∧ client_guarantee i c ≤ guarantee_budget i * rate_bps c / sum_of rate_bps (peers i c) ∧
  client_guarantee i c mod 8 = 0.
Proof.
  intros Hpos Hc Hb. destruct (demand_positive i c Hpos Hc) as [Hr Hd]. unfold client_guarantee. rewrite Z.max_l by lia.
  set (q := guarantee_budget i * rate_bps c / sum_of rate_bps (peers i c)).
  assert (0 ≤ q ≤ guarantee_budget i) as Hq.
  { unfold q. split; [apply Z.div_pos; nia|]. apply Z.div_le_upper_bound; nia. }
  rewrite (Z.mod_small q) by lia. clearbody q. pose proof (Z.mul_div_le (Z.min (rate_bps c) q) 8). pose proof (Z.div_pos (Z.min (rate_bps c) q) 8).
  split_and!; [lia..|]. apply Z.mod_mul. lia.
Qed.

(** ** What the validation of a state ensures *)

Record valid_interface (i : ManagedInterface) : Prop := mkValid {
  vi_capacity : 64000 ≤ capacity_bps i ≤ MAX_POLICY_CAPACITY_BPS;
  vi_clients : Forall (λ c, valid_client_tag c (shared_egress i) = true ∧ class_minor c = client_class_minor (tag c) (shared_egress i) ∧
    leaf_minor c = 1000 + tag c ∧ 64000 ≤ rate_bps c ≤ MAX_POLICY_CAPACITY_BPS) (clients i);
  vi_tags : NoDup (tag <$> clients i);
  vi_minors : NoDup (class_minor <$> clients i);
  vi_apps : Forall (λ a, ∃ p, p ∈ clients i ∧ class_minor p = parent_class_minor a ∧ 1 ≤ app_tag a ≤ 127 ∧
    2000 ≤ app_class_minor a ≤ 6095 ∧ 64000 ≤ app_rate_bps a ≤ 1000000000 ∧ app_rate_bps a ≤ rate_bps p) (application_classes i);
  vi_app_tags : NoDup ((λ a, (parent_class_minor a, app_tag a)) <$> application_classes i);
  vi_app_minors : NoDup (app_class_minor <$> application_classes i);
}.

Lemma NoDup_snoc {A} (l : list A) x : NoDup l → x ∉ l → NoDup (l ++ [x]).
Proof. intros Hl Hx. apply NoDup_app. split_and!; [done| |apply NoDup_singleton]. intros y Hy ->%list_elem_of_singleton. done. Qed.

Lemma validate_clients_inv i st : foldM (validate_client i) (∅, ∅) (clients i) = Ok st →
  Forall (λ c, valid_client_tag c (shared_egress i) = true ∧ class_minor c = client_class_minor (tag c) (shared_egress i) ∧
    leaf_minor c = 1000 + tag c ∧ 64000 ≤ rate_bps c ≤ MAX_POLICY_CAPACITY_BPS) (clients i) ∧
  NoDup (tag <$> clients i) ∧ NoDup (class_minor <$> clients i) ∧
  fst st = list_to_set (tag <$> clients i) ∧ snd st = list_to_set (class_minor <$> clients i).
Proof.
  apply (foldM_ind (λ l st, Forall (λ c, valid_client_tag c (shared_egress i) = true ∧ class_minor c = client_class_minor (tag c) (shared_egress i) ∧
    leaf_minor c = 1000 + tag c ∧ 64000 ≤ rate_bps c ≤ MAX_POLICY_CAPACITY_BPS) l ∧ NoDup (tag <$> l) ∧ NoDup (class_minor <$> l) ∧
    fst st = list_to_set (tag <$> l) ∧ snd st = list_to_set (class_minor <$> l)) (validate_client i)) with (pre := []).
  - intros pre [tags classes] c st' (Hall & Ht & Hm & Htags & Hclasses) Hv. cbn in Htags, Hclasses. unfold validate_client in Hv.
    apply bind_Ok in Hv as (_ & Hr%reject_if_Ok & [= <-]). split_bools.
    rewrite !fmap_app, !list_to_set_app_L. cbn. split_and!.
    + apply Forall_app. split; [done|]. constructor; [|done]. split_and!; try (done || lia).
      all: unfold in_capacity, in_range in *; split_bools; change MIN_POLICY_CAPACITY_BPS with 64000 in *; lia.
    + apply NoDup_snoc; [done|]. subst tags. by rewrite elem_of_list_to_set in *.
    + apply NoDup_snoc; [done|]. subst classes. by rewrite !elem_of_list_to_set in *.
    + rewrite Htags. clear. set_solver.
    + rewrite Hclasses. clear. set_solver.
  - split_and!; [constructor|constructor|constructor|done|done].
Qed.

Lemma validate_applications_inv i classes st : NoDup (class_minor <$> clients i) →
  foldM (validate_application i) (∅, ∅, classes) (application_classes i) = Ok st →
  Forall (λ a, ∃ p, p ∈ clients i ∧ class_minor p = parent_class_minor a ∧ 1 ≤ app_tag a ≤ 127 ∧
    2000 ≤ app_class_minor a ≤ 6095 ∧ 64000 ≤ app_rate_bps a ≤ 1000000000 ∧ app_rate_bps a ≤ rate_bps p) (application_classes i) ∧
  NoDup ((λ a, (parent_class_minor a, app_tag a)) <$> application_classes i) ∧ NoDup (app_class_minor <$> application_classes i) ∧
  (list_to_set ((λ a, (parent_class_minor a, app_tag a)) <$> application_classes i) ⊆ st.1.1) ∧
  (list_to_set (app_class_minor <$> application_classes i) ⊆ st.2).
Proof.
  intros Hcs. apply (foldM_ind (λ l (st : app_state), Forall (λ a, ∃ p, p ∈ clients i ∧ class_minor p = parent_class_minor a ∧ 1 ≤ app_tag a ≤ 127 ∧
    2000 ≤ app_class_minor a ≤ 6095 ∧ 64000 ≤ app_rate_bps a ≤ 1000000000 ∧ app_rate_bps a ≤ rate_bps p) l ∧
    NoDup ((λ a, (parent_class_minor a, app_tag a)) <$> l) ∧ NoDup (app_class_minor <$> l) ∧
    (list_to_set ((λ a, (parent_class_minor a, app_tag a)) <$> l) ⊆ st.1.1) ∧ (list_to_set (app_class_minor <$> l) ⊆ st.2))
    (validate_application i)) with (pre := []).
  - intros pre [[tags keys] minors] a st' (Hall & Ht & Hm & Htags & Hminors) Hv. cbn in Htags, Hminors. unfold validate_application in Hv.
    apply bind_Ok in Hv as (p & Hp%ok_or_Ok & Hv). apply bind_Ok in Hv as (_ & Htag%reject_if_Ok & Hv). apply bind_Ok in Hv as (_ & Hr%reject_if_Ok & [= <-]).
    unfold clients_by_class in Hp. apply insert_all_Some in Hp as [[Hpin Hpm]|Hno]; [|by rewrite lookup_empty in Hno].
    split_bools. repeat match goal with Hx : in_range _ _ _ = true |- _ => apply in_range_spec in Hx end.
    rewrite !fmap_app, !list_to_set_app_L. cbn. split_and!.
    + apply Forall_app. split; [done|]. constructor; [|done]. exists p.
      unfold FIRST_APPLICATION_CLASS_MINOR, MAX_APPLICATION_CLASSES_PER_EGRESS, FIRST_APPLICATION_TAG, MAX_APPLICATION_TAG in *. split_and!; (done || lia).
    + apply NoDup_snoc; [done|]. intros Hin. apply (elem_of_list_to_set (C := gset (Z * Z))) in Hin. by apply Htags in Hin.
    + apply NoDup_snoc; [done|]. intros Hin. apply (elem_of_list_to_set (C := gset Z)) in Hin. by apply Hminors in Hin.
    + clear -Htags. set_solver.
    + clear -Hminors. set_solver.
  - split_and!; [constructor|constructor|constructor|done|apply empty_subseteq].
Qed.

Lemma validate_interface_inv names i names' : validate_interface names i = Ok names' →
  valid_interface i ∧ name i ∉ names ∧ names' = {[name i]} ∪ names.
Proof.
  unfold validate_interface. intros (_ & Hr%reject_if_Ok & Hv)%bind_Ok. apply bind_Ok in Hv as (cst & Hcs & Hv).
  apply bind_Ok in Hv as (_ & _ & Hv). apply bind_Ok in Hv as (ast & Has & Hv). apply bind_Ok in Hv as (? & _ & [= <-]).
  destruct (validate_clients_inv _ _ Hcs) as (Hc & Ht & Hm & _ & _). destruct (validate_applications_inv _ _ _ Hm Has) as (Ha & Hat & Ham & _ & _).
  split_bools. split_and!; [|done|done]. split; try done. unfold in_capacity in *.
  repeat match goal with Hx : in_range _ _ _ = true |- _ => apply in_range_spec in Hx end. unfold MIN_POLICY_CAPACITY_BPS in *. lia.
Qed.

Lemma shaping_validate_inv s : shaping_validate s = Ok tt →
  Forall valid_interface (interfaces s) ∧ NoDup (name <$> interfaces s) ∧
  match s_shared_egress s with Some i => shared_egress i = true | None => True end ∧
  match upload_interface s, download_interface s with Some i, _ => shared_egress i = false | _, _ => True end ∧
  match download_interface s with Some i => shared_egress i = false | _ => True end.
Proof.
  unfold shaping_validate. intros (_ & _ & Hv)%bind_Ok. apply bind_Ok in Hv as (_ & _ & Hv). apply bind_Ok in Hv as (_ & Hl%reject_if_Ok & Hv).
  apply bind_Ok in Hv as (names & Hf & _).
  assert (Forall valid_interface (interfaces s) ∧ NoDup (name <$> interfaces s) ∧ names = list_to_set (name <$> interfaces s)) as (Ha & Hn & _).
  { revert Hf. apply (foldM_ind (λ l (names : gset string), Forall valid_interface l ∧ NoDup (name <$> l) ∧ names = list_to_set (name <$> l)) validate_interface) with (pre := []).
    - intros pre st i st' (Hall & Hnd & ->) (Hi & Hni & ->)%validate_interface_inv. rewrite fmap_app, list_to_set_app_L. cbn. split_and!.
      + apply Forall_app. split; [done|]. by constructor.
      + apply NoDup_snoc; [done|]. by rewrite elem_of_list_to_set in Hni.
      + set_solver.
    - split_and!; [constructor|constructor|done]. }
  split_bools. split_and!; [done|done| | |].
  - destruct (s_shared_egress s); [|done]. by destruct (shared_egress m).
  - by destruct (upload_interface s).
  - by destruct (download_interface s).
Qed.

(** ** Guarantees never exceed what is above them *)

(** The clients that share one parent class. *)
Definition side (i : ManagedInterface) (d : Direction) : list ClientClass :=
  List.filter (λ p, negb (shared_egress i) || bool_decide (direction p = d))%bool (clients i).

Lemma fallback_bounds i : valid_interface i → 0 ≤ shared_fallback_guarantee i ≤ capacity_bps i / 2.
Proof. intros Hv. pose proof (vi_capacity i Hv). unfold shared_fallback_guarantee. Z.div_mod_to_equations. lia. Qed.

Lemma budget_bounds i : valid_interface i →
  0 ≤ guarantee_budget i < 2 ^ 64 ∧
  guarantee_budget i + (if shared_egress i then shared_fallback_guarantee i else 0) = (if shared_egress i then capacity_bps i / 2 else capacity_bps i).
Proof.
  intros Hv. pose proof (vi_capacity i Hv) as Hc. pose proof (fallback_bounds i Hv) as Hf. unfold MAX_POLICY_CAPACITY_BPS in Hc. unfold guarantee_budget.
  assert (capacity_bps i / 2 ≤ capacity_bps i) by (apply Z.div_le_upper_bound; lia).
  destruct (shared_egress i); unfold u64_saturating_sub, clamp, u64_max; lia.
Qed.

Lemma valid_rates_positive i : valid_interface i → Forall (λ p, 0 < rate_bps p) (clients i).
Proof. intros Hv. eapply Forall_impl; [apply (vi_clients i Hv)|]. intros c (_ & _ & _ & Hr). lia. Qed.

Lemma side_guarantees i d : valid_interface i → sum_of (client_guarantee i) (side i d) ≤ guarantee_budget i.
Proof.
  intros Hv. destruct (budget_bounds i Hv) as [Hb _]. pose proof (valid_rates_positive i Hv) as Hpos.
  destruct (decide (side i d = [])) as [->|Hne]; [cbn; lia|]. set (total := sum_of rate_bps (side i d)).
  assert (∀ c, c ∈ side i d → c ∈ clients i ∧ sum_of rate_bps (peers i c) = total) as Hside.
  { intros c [Hc Hd]%elem_of_filterb. split; [done|]. unfold total, side, peers. f_equal. destruct (shared_egress i); [|done].
    cbn in Hd. apply bool_decide_eq_true in Hd. by rewrite Hd. }
  assert (∃ c, c ∈ side i d) as [c0 Hc0] by (clear -Hne; destruct (side i d); [done|eexists; left]).
  destruct (Hside c0 Hc0) as [Hin0 Ht0]. destruct (demand_positive i c0 Hpos Hin0) as [Hr0 Hd0]. rewrite Ht0 in Hd0.
  transitivity (sum_of (λ c, guarantee_budget i * rate_bps c / total) (side i d)).
  - apply sum_of_mono. intros c Hc. destruct (Hside c Hc) as [Hin Ht]. rewrite <- Ht. by apply client_guarantee_le.
  - destruct (sum_of_shares rate_bps (guarantee_budget i) total (side i d)) as [Hle _]; [lia|done|]. lia.
Qed.

Lemma check_guarantees_Ok s i c : check_guarantees s = Ok tt → i ∈ interfaces s → c ∈ clients i →
  8 ≤ client_guarantee i c ∧ (applications_of i c ≠ [] → 8 * (zlen (applications_of i c) + 1) ≤ client_guarantee i c).
Proof.
  unfold check_guarantees. intros (us & Hm%mapR_Ok & _)%bind_Ok Hi Hc. apply list_elem_of_lookup in Hi as (n & Hn).
  destruct (Forall2_lookup_l _ _ _ _ _ Hm Hn) as (vs & _ & Hvs%mapR_Ok). apply list_elem_of_lookup in Hc as (k & Hk).
  destruct (Forall2_lookup_l _ _ _ _ _ Hvs Hk) as (u & _ & Hu). unfold check_client in Hu.
  apply bind_Ok in Hu as (_ & Ha%reject_if_Ok & Hb%reject_if_Ok). split; [lia|]. intros Hne.
  assert (0 < zlen (applications_of i c)) by (destruct (applications_of i c); [done|rewrite zlen_cons; pose proof (zlen_nonneg l); lia]). lia.
Qed.

Lemma applications_children s i c : valid_interface i → check_guarantees s = Ok tt → i ∈ interfaces s → c ∈ clients i →
  applications_of i c ≠ [] → children_ok (client_guarantee i c) (default_class_minor (tag c)) (applications_of i c).
Proof.
  intros Hv Hg Hi Hc Hne. destruct (check_guarantees_Ok s i c Hg Hi Hc) as [_ Hn]. pose proof (vi_apps i Hv) as Ha. rewrite Forall_forall in Ha.
  assert (∀ a, a ∈ applications_of i c → a ∈ application_classes i) as Hin by (by intros a [? _]%elem_of_filterb).
  split; [done| | |by apply Hn].
  - apply NoDup_cons. split.
    + intros (a & Heq & Hmem)%list_elem_of_fmap. destruct (Ha a (Hin a Hmem)) as (p & _ & _ & _ & Hm & _).
      pose proof (vi_clients i Hv) as Hcl. rewrite Forall_forall in Hcl. destruct (Hcl c Hc) as (Htag & _). unfold default_class_minor in Heq.
      unfold valid_client_tag in Htag. destruct (shared_egress i); cbn [negb] in Htag; split_bools; [lia|].
      apply in_range_spec in Htag. unfold MAX_CLASS_TAG in Htag. lia.
    + apply (sublist_NoDup _ (app_class_minor <$> application_classes i)); [apply (vi_app_minors i Hv)|]. apply fmap_sublist. unfold applications_of.
      clear. induction (application_classes i) as [|a l IH]; [constructor|]. cbn. destruct (_ =? _); by constructor.
  - apply Forall_forall. intros a Hmem. destruct (Ha a (Hin a Hmem)) as (p & _ & _ & _ & _ & Hr & _). lia.
Qed.

(** C12: The rates that HTB guarantees never add up to more than what they are
    taken from, for every shaping state that passes the checks of apply: the
    clients of a dedicated interface share its capacity, those of one direction of
    a shared interface half of it less the fallback class; a client is
    guaranteed at most its limit; and the classes of its applications with the
    default class exactly its own guarantee, at least one byte per second each
    and at most one above their limit. *)
Theorem guarantees_fit s i : shaping_validate s = Ok tt → check_guarantees s = Ok tt → i ∈ interfaces s →
  (∀ d, sum_of (client_guarantee i) (side i d) + (if shared_egress i then shared_fallback_guarantee i else 0)
        ≤ if shared_egress i then capacity_bps i / 2 else capacity_bps i) ∧
  ∀ c, c ∈ clients i → 8 ≤ client_guarantee i c ≤ rate_bps c ∧
    (applications_of i c ≠ [] → ∃ m d,
       application_child_rates (client_guarantee i c) (default_class_minor (tag c)) (applications_of i c) = Some m ∧
       m !! default_class_minor (tag c) = Some d ∧ 8 ≤ d ∧
       d + sum_of (λ a, default 0 (m !! app_class_minor a)) (applications_of i c) = client_guarantee i c ∧
       ∀ a, a ∈ applications_of i c → ∃ r, m !! app_class_minor a = Some r ∧ 8 ≤ r ≤ app_rate_bps a / 8 * 8 + 8).
Proof.
  intros Hs Hg Hi. destruct (shaping_validate_inv s Hs) as (Hall & _). rewrite Forall_forall in Hall. specialize (Hall i Hi).
  destruct (budget_bounds i Hall) as [Hb Heq]. split.
  - intros d. pose proof (side_guarantees i d Hall). lia.
  - intros c Hc. destruct (client_guarantee_le i c (valid_rates_positive i Hall) Hc Hb) as (Hle & _ & Hmod).
    destruct (check_guarantees_Ok s i c Hg Hi Hc) as [H8 _]. split; [lia|]. intros Hne.
    destruct (application_child_rates_fit _ _ _ (applications_children s i c Hall Hg Hi Hc Hne)) as (m & Hm & _ & Hsum & (d & Hd & Hd8) & Happs).
    exists m, d. split_and!; [done|done|done| |done]. cbn [sum_of] in Hsum. rewrite Hd, sum_of_fmap in Hsum. cbn [default id] in Hsum.
    pose proof (Z.div_mod (client_guarantee i c) 8). lia.
Qed.

(** ** An example *)

Module GuaranteesExample.
(** A shared interface with a client in either direction; the uploads of the
    client are limited for two applications. *)
Definition client (d : Direction) (t minor : Z) : ClientClass :=
  mkClient "gw" "02:bb:cc:dd:ee:0f" d "eth0" 2 t minor (1000 + t) 2000000000 true.
Definition application (pid : string) (t minor rate : Z) : ApplicationClass :=
  mkApplication pid "gw" "02:bb:cc:dd:ee:0f" Upload "eth0" 2 t minor 101 rate.
Definition interface (capacity : Z) : ManagedInterface :=
  mkManaged true "eth0" 2 capacity "fq_codel" [client Upload 1 101; client Download 257 1001]
    [application "p1" 1 2000 64000; application "p2" 2 2001 1000000000].
Definition state (capacity : Z) : ShapingState := mkShaping 2 None None (Some (interface capacity)).
End GuaranteesExample.

Lemma guarantees_fit_witness : let i := GuaranteesExample.interface 2500000000 in
  sum_of (client_guarantee i) (side i Upload) + shared_fallback_guarantee i ≤ 1250000000 ∧
  ∃ m d, application_child_rates (client_guarantee i (GuaranteesExample.client Upload 1 101)) 401 (application_classes i) = Some m ∧
    m !! 401 = Some d ∧ d + sum_of (λ a, default 0 (m !! app_class_minor a)) (application_classes i) = 1249000000.
Proof.
  intros i. destruct (guarantees_fit (GuaranteesExample.state 2500000000) i) as [Hs Hc].
  - vm_compute. reflexivity.
  - vm_compute. reflexivity.
  - vm_compute. left.
  - split; [exact (Hs Upload)|]. destruct (Hc (GuaranteesExample.client Upload 1 101)) as [_ (m & d & Hm & Hd & _ & Hsum & _)].
    + vm_compute. left.
    + vm_compute. discriminate.
    + exists m, d. split_and!; [exact Hm|exact Hd|exact Hsum].
Defined.

(** The guarantee of a class can be above its limit: here one byte per second. *)
Example guarantee_above_limit : let i := GuaranteesExample.interface 2002128000 in
  check_guarantees (GuaranteesExample.state 2002128000) = Ok tt ∧ client_guarantee i (GuaranteesExample.client Upload 1 101) = 1000064000 ∧
  (m ← application_child_rates (client_guarantee i (GuaranteesExample.client Upload 1 101)) 401 (application_classes i); m !! 2000) = Some 64008.
Proof. vm_compute. split_and!; reflexivity. Qed.
