(* ===== verification/Triples.v ===== *)
(** Triples for code that changes a state and can fail: what holds after a step
    of the monad [stM], whether it returns a value or an error. *)

From S2P Require Import Prelude.

Section triples.
Context {W E : Type}.

Definition step_spec {A} (pre : W → Prop) (c : stM W E A) (ok : A → W → Prop) (err : E → W → Prop) : Prop :=
  ∀ w, pre w → match c w with (w', Ok a) => ok a w' | (w', Err e) => err e w' end.

Lemma spec_bind {A B} pre (c : stM W E A) mid (k : A → stM W E B) ok err :
  step_spec pre c mid err → (∀ a, step_spec (mid a) (k a) ok err) → step_spec pre (c ≫= k) ok err.
Proof.
  intros Hc Hk w Hw. specialize (Hc w Hw). unfold mbind, stM_bind. destruct (c w) as [w1 [a|e]]; [|done]. by apply Hk.
Qed.

Lemma spec_lift {A} pre (r : result E A) (ok : A → W → Prop) err :
  (∀ w a, pre w → r = Ok a → ok a w) → (∀ w e, pre w → r = Err e → err e w) → step_spec pre (lift r) ok err.
Proof. intros Hok Herr w Hw. unfold lift. destruct r; eauto. Qed.

Lemma spec_ret {A} (pre : W → Prop) (a : A) (ok : A → W → Prop) err : (∀ w, pre w → ok a w) → step_spec pre (mret a) ok err.
Proof. intros Hok w Hw. by apply Hok. Qed.

Lemma spec_pre {A} (pre pre' : W → Prop) (c : stM W E A) (ok : A → W → Prop) err :
  (∀ w, pre w → pre' w) → step_spec pre' c ok err → step_spec pre c ok err.
Proof. intros Hp Hc w Hw. by apply Hc, Hp. Qed.

Lemma spec_post {A} (pre : W → Prop) (c : stM W E A) (ok ok' : A → W → Prop) (err err' : E → W → Prop) :
  (∀ a w, ok a w → ok' a w) → (∀ e w, err e w → err' e w) → step_spec pre c ok err → step_spec pre c ok' err'.
Proof. intros Hok Herr Hc w Hw. specialize (Hc w Hw). destruct (c w) as [w' [a|e]]; eauto. Qed.

(** A loop whose steps keep an invariant of what is done so far. *)
Lemma spec_foldS {A B} (inv : list A → B → W → Prop) (f : B → A → stM W E B) (err : E → W → Prop) l b :
  (∀ done a rest b, l = done ++ a :: rest → step_spec (inv done b) (f b a) (inv (done ++ [a])) err) →
  step_spec (inv [] b) (foldS f b l) (inv l) err.
Proof.
  intros Hf. assert (∀ rest done b, l = done ++ rest → step_spec (inv done b) (foldS f b rest) (inv l) err) as Hall; [|by apply Hall].
  induction rest as [|a rest IH]; intros done b' Hl; cbn [foldS].
  - apply spec_ret. intros w Hw. by rewrite Hl, app_nil_r.
  - eapply spec_bind; [by eapply Hf|]. intros b''. apply IH. by rewrite Hl, <- app_assoc.
Qed.

End triples.
