(* ===== verification/Qdisc.v ===== *)
(** Changing the queues of the HTB backend (prepare_state, apply,
    rollback_changed, restore, write_journal, clear_journal and recover_journal
    in src/crates/agent/src/policy/qdisc.rs): interfaces are taken over, changed
    and given back one by one, and a journal on disk names them before the
    first is touched.  The operations on one interface, which run tc and ip, and
    on the file of the journal are classes: [Interfaces] has the operations,
    [Devices] what they do. *)

From S2P Require Import Prelude Shaper Guarantees Plan Triples.

#[export] Instance ManagedInterface_eq_dec : EqDecision ManagedInterface.
Proof.
  assert (EqDecision ClientClass) by solve_decision. assert (EqDecision ApplicationClass) by solve_decision. solve_decision.
Defined.
#[export] Instance ShapingState_eq_dec : EqDecision ShapingState.
Proof. solve_decision. Defined.

Definition MAX_SHAPING_JOURNAL_BYTES : Z := 8 * 1024 * 1024.

Record ShapingJournal := mkJournal {
  journal_schema : Z;
  previous_shape : option ShapingState;
  next_shape : option ShapingState;
  journal_interfaces : list ManagedInterface;
}.

(** [std::io::ErrorKind::NotFound], or another error. *)
Inductive IoError := NotFound | OtherError (text : string).

Class Interfaces (W : Type) := {
  verify_owned : ManagedInterface → stM W string unit;
  inspect_shaping_backend : string → stM W string string;
  apply_interface : ManagedInterface → option ManagedInterface → stM W string unit;
  restore_interface : ManagedInterface → stM W string unit;
  restore_from_journal : ManagedInterface → ShapingJournal → stM W string unit;
  (** The file of the journal; reading is cut off after so many bytes. *)
  read_journal : Z → stM W IoError (list Z);
  atomic_write : list Z → stM W string unit;
  remove_journal : stM W IoError unit;
  sync_parent : stM W string unit;
}.

(** [serde_json] for the journal. *)
Class JournalJson := {
  journal_to_vec : ShapingJournal → list Z;
  journal_from_slice : list Z → result string ShapingJournal;
}.

Definition find_interface (s : option ShapingState) (n : string) : option ManagedInterface :=
  s ← s; List.find (λ i, String.eqb (name i) n) (interfaces s).

Definition set_root (kind : string) (i : ManagedInterface) : ManagedInterface :=
  mkManaged (shared_egress i) (name i) (m_ifindex i) (capacity_bps i) kind (clients i) (application_classes i).

Definition state_interfaces (s : option ShapingState) : list ManagedInterface := match s with Some s => interfaces s | None => [] end.

(** A [HashMap] by name: later interfaces replace earlier ones.  The order of its
    values is any order. *)
Definition interface_map (l : list ManagedInterface) : gmap string ManagedInterface := foldl (λ m i, <[name i := i]> m) ∅ l.
Definition make_journal (previous next : option ShapingState) : ShapingJournal :=
  mkJournal 1 previous next (snd <$> map_to_list (interface_map (state_interfaces previous ++ state_interfaces next))).

Definition validate_state (s : ShapingState) : result string unit := map_err shaping_text (shaping_validate s).

(** [errors.join("; ")]. *)
Fixpoint join_errors (es : list string) : string :=
  match es with
  | [] => EmptyString
  | [e] => e
  | e :: es => String.append e (String.append "; " (join_errors es))
  end.

Section qdisc.
Context {W : Type} `{Interfaces W} `{JournalJson}.

(** ** Preparing *)

Definition prepare_interface (previous : option ShapingState) (i : ManagedInterface) : stM W string ManagedInterface :=
  match find_interface previous (name i) with
  | Some prior =>
    _ ← lift (reject_if (negb (Bool.eqb (shared_egress prior) (shared_egress i)))
          "degraded_ownership_conflict: remove the old shaping layout before changing physical root roles");
    _ ← lift (reject_if (negb (m_ifindex prior =? m_ifindex i))
          (String.append "degraded_ownership_conflict: interface " (String.append (name i) (String.append " changed ifindex from "
             (String.append (dec_text (m_ifindex prior)) (String.append " to " (dec_text (m_ifindex i))))))));
    _ ← verify_owned prior;
    mret (set_root (original_root_kind prior) i)
  | None => kind ← inspect_shaping_backend (name i); mret (set_root kind i)
  end.

Definition prepare_optional (previous : option ShapingState) (o : option ManagedInterface) : stM W string (option ManagedInterface) :=
  match o with
  | Some i => i ← prepare_interface previous i; mret (Some i)
  | None => mret None
  end.

(** The interfaces of one state that another one does not keep. *)
Definition dropped (previous : option ShapingState) (next : ShapingState) : list ManagedInterface :=
  List.filter (λ old, negb (existsb (λ i, String.eqb (name i) (name old)) (interfaces next))) (state_interfaces previous).

Definition prepare_state (desired : ShapingState) (previous : option ShapingState) : stM W string ShapingState :=
  _ ← lift (validate_state desired);
  up ← prepare_optional previous (upload_interface desired);
  down ← prepare_optional previous (download_interface desired);
  shared ← prepare_optional previous (s_shared_egress desired);
  let prepared := mkShaping (if bool_decide (is_Some (s_shared_egress desired)) then 2 else 1) up down shared in
  _ ← foldS (λ _ old, verify_owned old) tt (dropped previous prepared);
  mret prepared.

(** ** Applying *)

Definition Changed : Type := ManagedInterface * option ManagedInterface.

(** The outcome of a rollback is only logged. *)
Definition rollback_one (previous : option ShapingState) (j : ShapingJournal) (w : W) (c : Changed) : W :=
  let i := default (fst c) (snd c) in
  match restore_from_journal i j w with
  | (w, Err _) => w
  | (w, Ok _) =>
    match find_interface previous (name i) with
    | Some p => fst (apply_interface p None w)
    | None => w
    end
  end.

Definition rollback_changed (changed : list Changed) (previous : option ShapingState) (desired : ShapingState) (w : W) : W :=
  let j := make_journal previous (if Shaper.is_empty desired then None else Some desired) in
  let w := foldl (rollback_one previous j) w (reverse changed) in
  foldl (λ w old, if existsb (λ c, String.eqb (name (fst c)) (name old)) changed then w else fst (verify_owned old w)) w (state_interfaces previous).

(** A step of [apply]: the interface is noted before it is touched. *)
Definition change_interface (previous : option ShapingState) (desired : ShapingState) (note : Changed) (c : stM W string unit)
    (changed : list Changed) : stM W string (list Changed) := λ w,
  let changed := changed ++ [note] in
  match c w with
  | (w, Ok _) => (w, Ok changed)
  | (w, Err e) => (rollback_changed changed previous desired w, Err e)
  end.

Definition apply (desired : ShapingState) (previous : option ShapingState) : stM W string unit :=
  _ ← lift (validate_state desired);
  _ ← lift (check_guarantees desired);
  _ ← lift (match previous with Some p => validate_state p | None => Ok tt end);
  changed ← foldS (λ changed i, let prior := find_interface previous (name i) in
    change_interface previous desired (i, prior) (apply_interface i prior) changed) [] (interfaces desired);
  _ ← foldS (λ changed old, change_interface previous desired (old, Some old) (restore_interface old) changed) changed
        (dropped previous desired);
  mret tt.

Definition restore (s : ShapingState) : stM W string unit := λ w,
  match validate_state s with
  | Err e => (w, Err e)
  | Ok _ =>
    let '(w, errors) := foldl (λ '(w, errors) i,
      match restore_interface i w with
      | (w, Ok _) => (w, errors)
      | (w, Err e) => (w, errors ++ [e])
      end) (w, []) (interfaces s) in
    (w, match errors with [] => Ok tt | _ => Err (String.append "manual_cleanup_required: " (join_errors errors)) end)
  end.

(** ** The journal *)

Definition write_journal (previous next : option ShapingState) : stM W string unit :=
  let bytes := journal_to_vec (make_journal previous next) in
  _ ← lift (reject_if (256 * 1024 <? zlen bytes) "refuse to persist a shaping recovery journal above 256 KiB");
  atomic_write bytes.

Definition clear_journal : stM W string unit := λ w,
  match remove_journal w with
  | (w, Ok _) => sync_parent w
  | (w, Err NotFound) => (w, Ok tt)
  | (w, Err (OtherError e)) => (w, Err (String.append "remove shaping recovery journal: " e))
  end.

(** [None] where there is no journal. *)
Definition load_journal : stM W string (option ShapingJournal) := λ w,
  match read_journal (MAX_SHAPING_JOURNAL_BYTES + 1) w with
  | (w, Err NotFound) => (w, Ok None)
  | (w, Err (OtherError e)) => (w, Err (String.append "read shaping recovery journal: " e))
  | (w, Ok bytes) =>
    (w, _ ← reject_if (MAX_SHAPING_JOURNAL_BYTES <? zlen bytes) "shaping recovery journal exceeds the size limit";
        j ← map_err (String.append "decode shaping recovery journal: ") (journal_from_slice bytes);
        _ ← reject_if (negb (journal_schema j =? 1)) "unsupported shaping recovery journal schema";
        _ ← match previous_shape j with Some s => validate_state s | None => Ok tt end;
        _ ← match next_shape j with Some s => validate_state s | None => Ok tt end;
        Ok (Some j))
  end.

(** The committed state if the journal led to it, else the one before. *)
Definition recovery_target (committed : option ShapingState) (j : ShapingJournal) : option ShapingState :=
  if bool_decide (committed = next_shape j) then committed else previous_shape j.

Definition recover_journal (committed : option ShapingState) : stM W string bool :=
  o ← load_journal;
  match o with
  | None => mret false
  | Some j =>
    _ ← foldS (λ _ i, restore_from_journal i j) tt (journal_interfaces j);
    _ ← foldS (λ _ i, apply_interface i None) tt (state_interfaces (recovery_target committed j));
    _ ← clear_journal;
    mret true
  end.

End qdisc.

(** ** What the operations do *)

Class Devices (W : Type) `{Interfaces W} := {
  (** The classes on an interface that are the agent's. *)
  trees : W → gmap string ManagedInterface;
  journal_file : W → option (list Z);
  (** The table and the files of other components. *)
  same_rest : W → W → Prop;
  same_rest_preorder :: PreOrder same_rest;
  same_queues_and_file (w w' : W) : Prop := same_rest w w' ∧ trees w' = trees w ∧ journal_file w' = journal_file w;
  only_at (n : string) (w w' : W) : Prop :=
    same_rest w w' ∧ journal_file w' = journal_file w ∧ ∀ m, m ≠ n → trees w' !! m = trees w !! m;
  verify_owned_law i w w' r : verify_owned i w = (w', r) → same_queues_and_file w w' ∧ (r = Ok tt → trees w !! name i = Some i);
  inspect_backend_law n w w' r : inspect_shaping_backend n w = (w', r) → same_queues_and_file w w' ∧ (is_ok r = true → trees w !! n = None);
  (** Success means that the interface was as expected before. *)
  apply_interface_law i p w w' r : apply_interface i p w = (w', r) → (∀ q, p = Some q → name q = name i) →
    only_at (name i) w w' ∧ (r = Ok tt → trees w !! name i = p ∧ trees w' !! name i = Some i);
  restore_interface_law i w w' r : restore_interface i w = (w', r) →
    only_at (name i) w w' ∧ (r = Ok tt → trees w !! name i = Some i ∧ trees w' !! name i = None);
  restore_from_journal_law i j w w' r : restore_from_journal i j w = (w', r) →
    only_at (name i) w w' ∧ (r = Ok tt → trees w' !! name i = None);
  read_journal_law n w w' r : read_journal n w = (w', r) → same_queues_and_file w w' ∧
    match r with
    | Ok bytes => ∃ all, journal_file w = Some all ∧ bytes = ztake n all
    | Err NotFound => journal_file w = None
    | Err (OtherError _) => True
    end;
  (** The file is replaced or removed at once, before the directory is synced. *)
  atomic_write_law bytes w w' r : atomic_write bytes w = (w', r) → same_rest w w' ∧ trees w' = trees w ∧
    (journal_file w' = Some bytes ∨ (is_ok r = false ∧ journal_file w' = journal_file w));
  remove_journal_law w w' r : remove_journal w = (w', r) → same_rest w w' ∧ trees w' = trees w ∧
    match r with
    | Ok _ => journal_file w' = None
    | Err NotFound => journal_file w = None ∧ journal_file w' = None
    | Err (OtherError _) => journal_file w' = journal_file w
    end;
  sync_parent_law w w' r : sync_parent w = (w', r) → same_queues_and_file w w';
}.

(** The queues of a saved state. *)
Definition queues_of (s : option ShapingState) : gmap string ManagedInterface := interface_map (state_interfaces s).

Definition names (s : option ShapingState) : gset string := list_to_set (name <$> state_interfaces s).

Lemma interface_map_dom l : dom (interface_map l) = list_to_set (name <$> l).
Proof.
  unfold interface_map. induction l as [|i l IH] using rev_ind; [done|]. rewrite foldl_app, fmap_app, list_to_set_app_L. cbn. rewrite dom_insert_L, IH. set_solver.
Qed.

Lemma interface_map_lookup l n i : NoDup (name <$> l) → interface_map l !! n = Some i ↔ i ∈ l ∧ name i = n.
Proof.
  intros Hnd. unfold interface_map. split.
  - intros [?|Hn]%insert_all_Some; [done|]. by rewrite lookup_empty in Hn.
  - intros [Hi <-]. by apply insert_all_lookup.
Qed.

Lemma queues_of_dom s : dom (queues_of s) = names s.
Proof. apply interface_map_dom. Qed.

Lemma find_interface_Some s n i : find_interface s n = Some i → i ∈ state_interfaces s ∧ name i = n.
Proof. unfold find_interface. destruct s; [|done]. intros [? ?%String.eqb_eq]%find_Some_elem. done. Qed.

Lemma find_interface_lookup s n : NoDup (name <$> state_interfaces s) → find_interface s n = queues_of s !! n.
Proof.
  intros Hnd. destruct (queues_of s !! n) as [i|] eqn:Hq.
  - apply interface_map_lookup in Hq as [Hi <-]; [|done]. destruct s as [s|]; [|by apply elem_of_nil in Hi]. cbn [find_interface mbind option_bind state_interfaces] in *. unfold find_interface. cbn [mbind option_bind].
    destruct (List.find (λ j, String.eqb (name j) (name i)) (interfaces s)) as [j|] eqn:Hf.
    + apply find_Some_elem in Hf as [Hj Hn%String.eqb_eq]. f_equal. by apply (NoDup_key_inj name (interfaces s)).
    + apply list_elem_of_In in Hi. apply (find_none _ _ Hf) in Hi. by rewrite String.eqb_refl in Hi.
  - destruct (find_interface s n) as [i|] eqn:Hf; [|done]. apply find_interface_Some in Hf as Hi. apply (interface_map_lookup _ _ _ Hnd) in Hi.
    unfold queues_of in Hq. congruence.
Qed.

Lemma validate_state_names s : validate_state s = Ok tt → NoDup (name <$> interfaces s).
Proof. unfold validate_state. intros Hv%map_err_Ok. by apply shaping_validate_inv in Hv as (_ & ? & _). Qed.

Section effects.
Context {W : Type} `{Devices W} `{JournalJson}.

(** Nothing but the classes on some interfaces changes. *)
Definition only (X : gset string) (w w' : W) : Prop :=
  same_rest w w' ∧ journal_file w' = journal_file w ∧ ∀ n, n ∉ X → trees w' !! n = trees w !! n.

#[export] Instance only_preorder X : PreOrder (only X).
Proof.
  split; [done|]. intros a b c (Hr1 & Hj1 & Ht1) (Hr2 & Hj2 & Ht2). split_and!; [by transitivity b|congruence|].
  intros n Hn. by rewrite (Ht2 n Hn), (Ht1 n Hn).
Qed.

Lemma only_at_only X n w w' : n ∈ X → only_at n w w' → only X w w'.
Proof. intros Hn (Hr & Hj & Ht). split_and!; [done|done|]. intros m Hm. apply Ht. by intros ->. Qed.

Lemma same_only X w w' : same_queues_and_file w w' → only X w w'.
Proof. intros (Hr & Ht & Hj). split_and!; [done|done|]. intros n _. by rewrite Ht. Qed.

Lemma rollback_one_only X previous j w c : name (default (fst c) (snd c)) ∈ X → only X w (rollback_one previous j w c).
Proof.
  intros Hx. unfold rollback_one. set (i := default (fst c) (snd c)) in *. destruct (restore_from_journal i j w) as [w1 r] eqn:Hr.
  apply restore_from_journal_law in Hr as [Hr _]. pose proof (only_at_only X _ _ _ Hx Hr) as Ho. destruct r; [|done].
  destruct (find_interface previous (name i)) as [p|] eqn:Hf; [|done]. apply find_interface_Some in Hf as [_ Hn].
  destruct (apply_interface p None w1) as [w2 r2] eqn:Ha. apply apply_interface_law in Ha as [Ha _]; [|done]. cbn [fst].
  etrans; [exact Ho|]. eapply only_at_only; [|exact Ha]. by rewrite Hn.
Qed.

Lemma verify_all_only X (skip : ManagedInterface → bool) l w : only X w (foldl (λ w old, if skip old then w else fst (verify_owned old w)) w l).
Proof.
  revert w. induction l as [|old l IH]; intros w; [done|]. cbn [foldl]. etrans; [|apply IH]. destruct (skip old); [done|].
  destruct (verify_owned old w) as [w' r] eqn:Hv. apply verify_owned_law in Hv as [Hv _]. by apply same_only.
Qed.

Lemma rollback_changed_only X changed previous desired w : Forall (λ c, name (default (fst c) (snd c)) ∈ X) changed →
  only X w (rollback_changed changed previous desired w).
Proof.
  intros Hc. unfold rollback_changed. set (j := make_journal _ _).
  assert (only X w (foldl (rollback_one previous j) w (reverse changed))) as Ho.
  { apply Forall_reverse in Hc. revert w. induction Hc as [|c l Hc _ IH]; intros w; [done|]. cbn [foldl].
    etrans; [by apply (rollback_one_only X previous j w c)|]. apply IH. }
  etrans; [exact Ho|]. apply verify_all_only.
Qed.

Definition notes_ok (X : gset string) (changed : list Changed) : Prop := Forall (λ c, name (default (fst c) (snd c)) ∈ X) changed.

(** One interface is changed, or what was noted is rolled back. *)
Lemma change_interface_spec X previous desired note (c : stM W string unit) changed w0 (pre post : W → Prop) :
  name (default (fst note) (snd note)) ∈ X → notes_ok X changed →
  (∀ w w' r, only X w0 w → pre w → c w = (w', r) → only X w0 w' ∧ (r = Ok tt → post w')) →
  step_spec (λ w, only X w0 w ∧ pre w) (change_interface previous desired note c changed)
    (λ changed' w, only X w0 w ∧ notes_ok X changed' ∧ post w) (λ _, only X w0).
Proof.
  intros Hn Hc Hstep w [Ho Hp]. unfold change_interface. assert (notes_ok X (changed ++ [note])) as Hnotes.
  { apply Forall_app. split; [done|]. by constructor. }
  destruct (c w) as [w' [[]|e]] eqn:He; destruct (Hstep _ _ _ Ho Hp He) as [Ho' Hpost].
  - split_and!; auto.
  - etrans; [exact Ho'|]. by apply rollback_changed_only.
Qed.

Lemma unique_split {A} (key : A → string) l done a rest : NoDup (key <$> l) → l = done ++ a :: rest → a ∈ l ∧ key a ∉ key <$> done.
Proof.
  intros Hnd ->. rewrite fmap_app in Hnd. cbn in Hnd. apply NoDup_app in Hnd as (_ & Hd & _). split; [set_solver|].
  intros Hin. apply (Hd _ Hin). left.
Qed.

Lemma elem_of_dropped previous next i : i ∈ dropped previous next ↔ i ∈ state_interfaces previous ∧ name i ∉ names (Some next).
Proof.
  unfold dropped, names. rewrite elem_of_filterb, negb_true_iff, existsb_false, Forall_forall, elem_of_list_to_set, list_elem_of_fmap. cbn [state_interfaces]. split.
  - intros [Hi Hn]. split; [done|]. intros (j & Heq & Hj). specialize (Hn j Hj). by rewrite Heq, String.eqb_refl in Hn.
  - intros [Hi Hn]. split; [done|]. intros j Hj. apply String.eqb_neq. intros Heq. apply Hn. by exists j.
Qed.

Lemma dropped_names previous next : NoDup (name <$> state_interfaces previous) → NoDup (name <$> dropped previous next).
Proof.
  intros Hnd. apply (sublist_NoDup _ _ Hnd), fmap_sublist. unfold dropped. clear Hnd. induction (state_interfaces previous) as [|i l IH]; [constructor|].
  cbn [List.filter]. destruct (negb _); by constructor.
Qed.

Section applying.
Context (desired : ShapingState) (previous : option ShapingState) (w0 : W) (Hpre : trees w0 = queues_of previous).
Context (Hdn : NoDup (name <$> interfaces desired)) (Hpn : NoDup (name <$> state_interfaces previous)).

Abbreviation both := (names previous ∪ names (Some desired)).

Definition applied_to (done : list ManagedInterface) (changed : list Changed) (w : W) : Prop :=
  only both w0 w ∧ notes_ok both changed ∧ (∀ n, n ∉ name <$> done → trees w !! n = trees w0 !! n) ∧ (∀ i, i ∈ done → trees w !! name i = Some i).

Lemma apply_wanted : step_spec (λ w, w = w0)
  (foldS (λ changed i, let prior := find_interface previous (name i) in
    change_interface previous desired (i, prior) (apply_interface i prior) changed) [] (interfaces desired))
  (applied_to (interfaces desired)) (λ _, only both w0).
Proof.
  eapply spec_pre, (spec_foldS applied_to).
  { intros w ->. split_and!; [done|constructor|done|]. by intros i ?%elem_of_nil. }
  intros done i rest changed Hl w (Ho & Hnotes & Hother & Hdone). destruct (unique_split name _ _ _ _ Hdn Hl) as [Hi Hn].
  assert (name i ∈ both) as Hin by (apply elem_of_union_r, elem_of_list_to_set; by apply list_elem_of_fmap_2).
  assert (∀ q, find_interface previous (name i) = Some q → name q = name i) as Hfind by (by intros q [_ ?]%find_interface_Some).
  apply (change_interface_spec both previous desired (i, find_interface previous (name i)) (apply_interface i (find_interface previous (name i))) changed w0 (λ v, v = w)
    (λ w', (∀ n, n ∉ name <$> (done ++ [i]) → trees w' !! n = trees w0 !! n) ∧ (∀ j, j ∈ done ++ [i] → trees w' !! name j = Some j))).
  - cbn [fst snd]. destruct (find_interface previous (name i)) as [q|] eqn:Hf; [|done]. cbn. by rewrite (Hfind q eq_refl).
  - done.
  - intros ? w' r _ -> He. apply apply_interface_law in He as [Hat Hok]; [|done]. split; [etrans; [exact Ho|]; by eapply only_at_only|].
    destruct Hat as (_ & _ & Hat). intros ->. destruct (Hok eq_refl) as [_ Hnew]. rewrite fmap_app. split.
    + intros n Hn'. rewrite Hat by (intros ->; apply Hn'; set_solver). apply Hother. set_solver.
    + intros j [Hj|Hj]%elem_of_app; [|by apply list_elem_of_singleton in Hj as ->]. rewrite Hat; [by apply Hdone|].
      intros Heq. apply Hn. rewrite <- Heq. by apply list_elem_of_fmap_2.
  - done.
Qed.

Definition given_back (done : list ManagedInterface) (changed : list Changed) (w : W) : Prop :=
  only both w0 w ∧ notes_ok both changed ∧ (∀ i, i ∈ interfaces desired → trees w !! name i = Some i) ∧
  ∀ n, n ∉ names (Some desired) → trees w !! n = if bool_decide (n ∈ name <$> done) then None else trees w0 !! n.

Lemma apply_dropped changed : step_spec (applied_to (interfaces desired) changed)
  (foldS (λ changed old, change_interface previous desired (old, Some old) (restore_interface old) changed) changed (dropped previous desired))
  (given_back (dropped previous desired)) (λ _, only both w0).
Proof.
  eapply spec_pre, (spec_foldS given_back).
  { intros w (Ho & Hnotes & Hother & Hdone). split_and!; [done..|]. intros n Hn. rewrite bool_decide_eq_false_2 by apply not_elem_of_nil.
    apply Hother. intros Hin. apply Hn, elem_of_list_to_set. done. }
  intros done i rest changed' Hl w (Ho & Hnotes & Hkept & Hgone). destruct (unique_split name _ _ _ _ (dropped_names previous desired Hpn) Hl) as [Hi Hn].
  apply elem_of_dropped in Hi as [Hi Hni].
  assert (name i ∈ both) as Hin by (apply elem_of_union_l, elem_of_list_to_set; by apply list_elem_of_fmap_2).
  apply (change_interface_spec both previous desired (i, Some i) (restore_interface i) changed' w0 (λ v, v = w)
    (λ w', (∀ i, i ∈ interfaces desired → trees w' !! name i = Some i) ∧
       ∀ n, n ∉ names (Some desired) → trees w' !! n = if bool_decide (n ∈ name <$> (done ++ [i])) then None else trees w0 !! n)).
  - done.
  - done.
  - intros ? w' r _ -> He. apply restore_interface_law in He as [Hat Hok]. split; [etrans; [exact Ho|]; by eapply only_at_only|].
    destruct Hat as (_ & _ & Hat). intros ->. destruct (Hok eq_refl) as [_ Hnew]. split.
    + intros j Hj. rewrite Hat; [by apply Hkept|]. intros Heq. apply Hni. rewrite <- Heq. apply elem_of_list_to_set. by apply list_elem_of_fmap_2.
    + intros n Hn'. rewrite fmap_app. destruct (decide (n = name i)) as [->|Hne].
      * rewrite bool_decide_eq_true_2 by (apply elem_of_app; right; left). done.
      * rewrite (Hat n Hne), (Hgone n Hn'). assert (n ∈ name <$> done ↔ n ∈ (name <$> done) ++ (name <$> [i])) as Hiff by (clear -Hne; set_solver).
        by rewrite (bool_decide_ext _ _ Hiff).
  - done.
Qed.

Lemma given_back_queues changed w : given_back (dropped previous desired) changed w → trees w = queues_of (Some desired).
Proof.
  intros (_ & _ & Hkept & Hgone). apply map_eq. intros n. destruct (queues_of (Some desired) !! n) as [i|] eqn:Hq.
  - apply interface_map_lookup in Hq as [Hi <-]; [|done]. by apply Hkept.
  - assert (n ∉ names (Some desired)) as Hn by (rewrite <- queues_of_dom; by apply not_elem_of_dom). rewrite (Hgone n Hn).
    case_bool_decide as Hd; [done|]. rewrite Hpre. destruct (queues_of previous !! n) as [i|] eqn:Hp; [|done]. exfalso.
    apply interface_map_lookup in Hp as [Hi <-]; [|done]. apply Hd. apply list_elem_of_fmap_2. by apply elem_of_dropped.
Qed.
End applying.

(** Applying a state leaves its queues, or touches no interface that neither
    state names. *)
Lemma apply_spec desired previous w w' r : trees w = queues_of previous → apply desired previous w = (w', r) →
  only (names previous ∪ names (Some desired)) w w' ∧ (r = Ok tt → trees w' = queues_of (Some desired)).
Proof.
  intros Hpre Ha.
  assert (step_spec (λ v, v = w) (apply desired previous) (λ _ w', only (names previous ∪ names (Some desired)) w w' ∧ trees w' = queues_of (Some desired))
    (λ _, only (names previous ∪ names (Some desired)) w)) as Hs.
  { unfold apply. eapply (spec_bind _ _ (λ _ v, v = w ∧ NoDup (name <$> interfaces desired))).
    { apply spec_lift; [|by intros ? ? ->]. intros ? [] -> Hv. split; [done|]. by apply validate_state_names. }
    intros _ v [Hv Hdn]. revert v Hv. apply (spec_bind (λ v, v = w) _ (λ _ v, v = w)). { apply spec_lift; by intros ? ? ->. }
    intros _. eapply (spec_bind _ _ (λ _ v, v = w ∧ NoDup (name <$> state_interfaces previous))).
    { apply spec_lift; [|by intros ? ? ->]. intros ? [] -> Hv. split; [done|]. destruct previous; [by apply validate_state_names|constructor]. }
    intros _ v [Hv Hpn]. revert v Hv. apply (spec_bind (λ v, v = w) _ _ _ _ _ (apply_wanted desired previous w Hpre Hdn Hpn)). intros changed.
    eapply spec_bind; [by apply apply_dropped|]. intros changed'. apply spec_ret. intros v Hv. split; [apply Hv|by eapply given_back_queues]. }
  specialize (Hs w eq_refl). rewrite Ha in Hs. destruct r as [[]|e]; [|done]. destruct Hs. done.
Qed.

Lemma restore_spec s w w' r : restore s w = (w', r) → only (names (Some s)) w w' ∧ (r = Ok tt → ∀ i, i ∈ interfaces s → trees w' !! name i = None).
Proof.
  unfold restore. destruct (validate_state s) as [[]|e] eqn:Hv; [|by intros [= <- <-]]. apply validate_state_names in Hv. set (X := names (Some s)).
  assert (∀ rest done v errors, interfaces s = done ++ rest → only X w v → (errors = [] → ∀ i, i ∈ done → trees v !! name i = None) →
    let '(v', errors') := foldl (λ '(w, errors) i, match restore_interface i w with (w, Ok _) => (w, errors) | (w, Err e) => (w, errors ++ [e]) end) (v, errors) rest in
    only X w v' ∧ (errors' = [] → ∀ i, i ∈ interfaces s → trees v' !! name i = None)) as Hloop.
  { induction rest as [|i rest IH]; intros done v errors Hl Ho Hd; cbn [foldl]; [by rewrite Hl, app_nil_r|].
    destruct (unique_split name _ _ _ _ Hv Hl) as [Hi Hn]. destruct (restore_interface i v) as [v1 r1] eqn:Hr.
    apply restore_interface_law in Hr as [Hat Hok].
    assert (only X w v1) as Ho1. { etrans; [exact Ho|]. eapply only_at_only; [|exact Hat]. apply elem_of_list_to_set. by apply list_elem_of_fmap_2. }
    destruct r1 as [[]|e]; (apply (IH (done ++ [i])); [by rewrite Hl, <- app_assoc|done|]).
    - destruct Hat as (_ & _ & Hat). intros Hnil j [Hj|Hj]%elem_of_app; [|apply list_elem_of_singleton in Hj as ->; by apply Hok].
      rewrite Hat; [by apply Hd|]. intros Heq. apply Hn. rewrite <- Heq. by apply list_elem_of_fmap_2.
    - intros Hnil. by destruct errors. }
  specialize (Hloop (interfaces s) [] w [] eq_refl). destruct (foldl _ (w, []) (interfaces s)) as [v errors].
  intros [= <- <-]. destruct Hloop as [Ho Hd]; [done|by intros _ i ?%elem_of_nil|]. split; [done|]. intros He. apply Hd. by destruct errors.
Qed.

(** ** The journal *)

Definition stored_journal (w : W) : option ShapingJournal :=
  bytes ← journal_file w; match journal_from_slice bytes with Ok j => Some j | Err _ => None end.

(** The interfaces that a recovery gives back. *)
Definition covered_names (j : ShapingJournal) : gset string := list_to_set (name <$> journal_interfaces j).
Definition journal_covers (j : ShapingJournal) : Prop := names (previous_shape j) ∪ names (next_shape j) ⊆ covered_names j.

Lemma make_journal_covers p n : covered_names (make_journal p n) = names p ∪ names n ∧ journal_covers (make_journal p n).
Proof.
  assert (covered_names (make_journal p n) = names p ∪ names n) as Hc; [|split; [done|]; unfold journal_covers; by rewrite Hc].
  unfold covered_names, make_journal. cbn [journal_interfaces]. set (l := state_interfaces p ++ state_interfaces n).
  assert (∀ k i, interface_map l !! k = Some i → name i = k) as Hname.
  { intros k i [[_ ?]|Hn]%insert_all_Some; [done|]. by rewrite lookup_empty in Hn. }
  transitivity (dom (interface_map l)); [|unfold names; by rewrite interface_map_dom, <- list_to_set_app_L, <- fmap_app].
  apply set_eq. intros k. rewrite elem_of_list_to_set, list_elem_of_fmap, elem_of_dom. split.
  - intros (i & -> & ([k' i'] & -> & Hin%elem_of_map_to_list)%list_elem_of_fmap). cbn. rewrite (Hname _ _ Hin). eauto.
  - intros [i Hi]. exists i. split; [by rewrite (Hname _ _ Hi)|]. apply list_elem_of_fmap. exists (k, i). split; [done|]. by apply elem_of_map_to_list.
Qed.

Lemma load_journal_spec w w' r : load_journal w = (w', r) → same_queues_and_file w w' ∧
  match r with Ok None => journal_file w = None | Ok (Some j) => stored_journal w = Some j | Err _ => True end.
Proof.
  unfold load_journal. destruct (read_journal _ w) as [w1 r1] eqn:Hr. apply read_journal_law in Hr as [Hs Hr].
  destruct r1 as [bytes|[|e]]; [|by intros [= <- <-]..]. destruct Hr as (all & Hf & Hb). intros [= <- <-]. split; [done|].
  set (chain := mbind _ _). destruct chain as [o|e] eqn:Hc; [|done]. subst chain. apply bind_Ok in Hc as (_ & Hsz%reject_if_Ok & Hc).
  apply bind_Ok in Hc as (j & Hj%map_err_Ok & Hc). apply bind_Ok in Hc as (_ & _ & Hc). apply bind_Ok in Hc as (_ & _ & Hc). apply bind_Ok in Hc as (_ & _ & [= <-]).
  unfold stored_journal. rewrite Hf. cbn. assert (bytes = all) as <-; [|by rewrite Hj].
  rewrite Hb. apply ztake_all. rewrite Hb, zlen_ztake in Hsz by (unfold MAX_SHAPING_JOURNAL_BYTES; lia). lia.
Qed.

Lemma clear_journal_spec w w' r : clear_journal w = (w', r) → same_rest w w' ∧ trees w' = trees w ∧
  (journal_file w' = None ∨ (is_ok r = false ∧ journal_file w' = journal_file w)).
Proof.
  unfold clear_journal. destruct (remove_journal w) as [w1 r1] eqn:Hr. apply remove_journal_law in Hr as (Hs & Ht & Hr).
  destruct r1 as [[]|[|e]].
  - intros (Hs2 & Ht2 & Hj2)%sync_parent_law. split_and!; [by transitivity w1|congruence|left; congruence].
  - intros [= <- <-]. split_and!; [done|done|left; apply Hr].
  - intros [= <- <-]. split_and!; [done|done|by right].
Qed.

Lemma restore_journal_spec j w : step_spec (λ v, v = w) (foldS (λ _ i, restore_from_journal i j) tt (journal_interfaces j))
  (λ _ v, only (covered_names j) w v ∧ ∀ n, n ∈ covered_names j → trees v !! n = None) (λ _, only (covered_names j) w).
Proof.
  eapply spec_pre, spec_post, (spec_foldS (λ done _ v, only (covered_names j) w v ∧ ∀ n, n ∈ name <$> done → trees v !! n = None)).
  { intros v ->. split; [done|]. by intros n ?%elem_of_nil. }
  { intros _ v [Ho Hd]. split; [done|]. intros n Hn. apply Hd. by apply elem_of_list_to_set in Hn. }
  { intros e v Hv. exact Hv. }
  intros done i rest _ Hl v [Ho Hd]. destruct (restore_from_journal i j v) as [v' r] eqn:Hr. apply restore_from_journal_law in Hr as [Hat Hok].
  assert (only (covered_names j) w v') as Ho'.
  { etrans; [exact Ho|]. eapply only_at_only; [|exact Hat]. apply elem_of_list_to_set. rewrite Hl. set_solver. }
  destruct r as [[]|e]; [|done]. split; [done|]. destruct Hat as (_ & _ & Hat). intros n Hn. rewrite fmap_app in Hn.
  destruct (decide (n = name i)) as [->|Hne]; [by apply Hok|]. rewrite (Hat n Hne). apply Hd. clear -Hn Hne. set_solver.
Qed.

Lemma apply_target_spec X target v0 : NoDup (name <$> state_interfaces target) → names target ⊆ X → trees v0 = ∅ →
  step_spec (λ v, v = v0) (foldS (λ _ i, apply_interface i None) tt (state_interfaces target))
    (λ _ v, only X v0 v ∧ trees v = queues_of target) (λ _, only X v0).
Proof.
  intros Hnd Hsub He. eapply spec_pre, spec_post, (spec_foldS (λ done _ v, only X v0 v ∧ trees v = interface_map done)).
  { by intros v ->. } { intros u v Hv. exact Hv. } { intros e v Hv. exact Hv. }
  intros done i rest _ Hl v [Ho Hd]. destruct (apply_interface i None v) as [v' r] eqn:Ha. apply apply_interface_law in Ha as [Hat Hok]; [|done].
  assert (only X v0 v') as Ho'.
  { etrans; [exact Ho|]. eapply only_at_only; [|exact Hat]. apply Hsub, elem_of_list_to_set. rewrite Hl. set_solver. }
  destruct r as [[]|e]; [|done]. split; [done|]. destruct Hat as (_ & _ & Hat). destruct (Hok eq_refl) as [_ Hnew].
  unfold interface_map in *. rewrite foldl_app. cbn. apply map_eq. intros n. destruct (decide (n = name i)) as [->|Hne].
  - by rewrite lookup_insert_eq.
  - rewrite lookup_insert_ne, (Hat n Hne), Hd; done.
Qed.

Lemma only_dom X w w' : only X w w' → dom (trees w) ⊆ X → dom (trees w') ⊆ X.
Proof.
  intros (_ & _ & Ht) Hd n Hn. destruct (decide (n ∈ X)) as [|Hx]; [done|]. apply Hd. rewrite elem_of_dom in *. by rewrite <- (Ht n Hx).
Qed.

Lemma recovery_target_names committed j : journal_covers j → names (recovery_target committed j) ⊆ covered_names j.
Proof. unfold journal_covers, recovery_target. intros Hc. case_bool_decide as He; [rewrite He|]; set_solver. Qed.

(** The journal of a loaded state is valid. *)
Lemma load_journal_valid w w' j : load_journal w = (w', Ok (Some j)) → NoDup (name <$> state_interfaces (previous_shape j)) ∧ NoDup (name <$> state_interfaces (next_shape j)).
Proof.
  unfold load_journal. destruct (read_journal _ w) as [w1 [bytes|[|e]]]; [|done..]. intros [= _ Hc].
  apply bind_Ok in Hc as (_ & _ & Hc). apply bind_Ok in Hc as (j' & _ & Hc). apply bind_Ok in Hc as (_ & _ & Hc).
  apply bind_Ok in Hc as ([] & Hp & Hc). apply bind_Ok in Hc as ([] & Hn & [= ->]).
  split; [destruct (previous_shape j)|destruct (next_shape j)]; try apply NoDup_nil_2; by apply validate_state_names.
Qed.

(** Where the queues are those of the interfaces that the journal names. *)
Definition journal_ready (w : W) : Prop :=
  match stored_journal w with Some j => journal_covers j ∧ dom (trees w) ⊆ covered_names j | None => True end.

Lemma recovery_steps committed j w : journal_covers j → dom (trees w) ⊆ covered_names j →
  NoDup (name <$> state_interfaces (recovery_target committed j)) →
  step_spec (λ v, v = w)
    (_ ← foldS (λ _ i, restore_from_journal i j) tt (journal_interfaces j);
     _ ← foldS (λ _ i, apply_interface i None) tt (state_interfaces (recovery_target committed j));
     _ ← clear_journal;
     mret true)
    (λ b v, b = true ∧ same_rest w v ∧ journal_file v = None ∧ trees v = queues_of (recovery_target committed j))
    (λ _ v, same_rest w v ∧ ((journal_file v = journal_file w ∧ dom (trees v) ⊆ covered_names j) ∨
                             (journal_file v = None ∧ trees v = queues_of (recovery_target committed j)))).
Proof.
  intros Hc Hd Hnd. assert (∀ v, only (covered_names j) w v → same_rest w v ∧ journal_file v = journal_file w ∧ dom (trees v) ⊆ covered_names j) as Hinv.
  { intros v Ho. split_and!; [apply Ho|apply Ho|by eapply only_dom]. }
  eapply spec_bind; [eapply spec_post; [| |apply (restore_journal_spec j w)]|].
  { intros u v Hv. exact Hv. } { intros _ v (? & ? & ?)%Hinv. auto. }
  intros u v [Ho Hnone]. assert (trees v = ∅) as He.
  { apply map_eq. intros n. rewrite lookup_empty. destruct (decide (n ∈ covered_names j)) as [|Hn]; [by apply Hnone|].
    apply not_elem_of_dom. intros Hin. apply Hn. by apply (only_dom _ w v). }
  revert v Ho Hnone He. intros v0 Ho _ He. cut (step_spec (λ v, v = v0)
    (_ ← foldS (λ _ i, apply_interface i None) tt (state_interfaces (recovery_target committed j)); _ ← clear_journal; mret true)
    (λ b v, b = true ∧ same_rest w v ∧ journal_file v = None ∧ trees v = queues_of (recovery_target committed j))
    (λ _ v, same_rest w v ∧ ((journal_file v = journal_file w ∧ dom (trees v) ⊆ covered_names j) ∨
                             (journal_file v = None ∧ trees v = queues_of (recovery_target committed j))))); [intros Hs; by apply Hs|].
  eapply spec_bind; [eapply spec_post; [| |apply (apply_target_spec (covered_names j) _ v0 Hnd (recovery_target_names committed j Hc) He)]|].
  { intros u' v Hv. exact Hv. } { intros e v Hv. cbv beta in Hv. assert (only (covered_names j) w v) as (? & ? & ?)%Hinv by (by etrans). auto. }
  intros u' v [Ho' Hq]. assert (only (covered_names j) w v) as Hwv by (by etrans). destruct (Hinv v Hwv) as (Hs & Hj & Hdv).
  unfold mbind, stM_bind. destruct (clear_journal v) as [v' r] eqn:Hcl. apply clear_journal_spec in Hcl as (Hs' & Ht' & Hf').
  assert (same_rest w v') by (by transitivity v). destruct r as [[]|e]; cbn.
  - split_and!; [done|done| |congruence]. destruct Hf' as [|[[=] _]]. done.
  - split; [done|]. destruct Hf' as [Hf'|[_ Hf']]; [right; split; [done|congruence]|]. left. split; [congruence|]. by rewrite Ht'.
Qed.

(** Recovery without a journal changes nothing; with one it ends with the queues
    of the committed or the previous state and without the journal, or it fails
    and the journal is still there. *)
Lemma recover_journal_spec committed w w' r : journal_ready w → recover_journal committed w = (w', r) → same_rest w w' ∧
  match stored_journal w with
  | None => trees w' = trees w ∧ journal_file w' = journal_file w ∧ r ≠ Ok true
  | Some j => r ≠ Ok false ∧
    ((is_ok r = false ∧ journal_file w' = journal_file w ∧ dom (trees w') ⊆ covered_names j) ∨
     (journal_file w' = None ∧ trees w' = queues_of (recovery_target committed j)))
  end.
Proof.
  unfold journal_ready, recover_journal, mbind at 1, stM_bind at 1. destruct (load_journal w) as [w1 r1] eqn:Hload.
  pose proof (load_journal_spec _ _ _ Hload) as [(Hs1 & Ht1 & Hj1) Hr1]. destruct r1 as [[j|]|e].
  - apply load_journal_valid in Hload as [Hnp Hnn]. rewrite Hr1. intros [Hc Hd] Hrun.
    assert (NoDup (name <$> state_interfaces (recovery_target committed j))) as Hnd by (unfold recovery_target; case_bool_decide; congruence).
    rewrite <- Ht1 in Hd. pose proof (recovery_steps committed j w1 Hc Hd Hnd w1 eq_refl) as Hs. rewrite Hrun in Hs. destruct r as [b|e].
    + destruct Hs as (-> & Hs & Hf & Ht). split_and!; [by transitivity w1|done|]. by right.
    + destruct Hs as (Hs & Hor). split_and!; [by transitivity w1|done|]. destruct Hor as [[Hf Ht]|?]; [|by right]. left. split_and!; [done|congruence|done].
  - intros _ [= <- <-]. split; [done|]. assert (stored_journal w = None) as -> by (unfold stored_journal; by rewrite Hr1). done.
  - intros Hready [= <- <-]. split; [done|]. destruct (stored_journal w) as [j|]; [|done]. destruct Hready as [Hc Hd]. split; [done|]. left. split_and!; [done|done|]. by rewrite Ht1.
Qed.

Lemma write_journal_spec p n w w' r : write_journal p n w = (w', r) → same_rest w w' ∧ trees w' = trees w ∧
  (journal_file w' = Some (journal_to_vec (make_journal p n)) ∨ (is_ok r = false ∧ journal_file w' = journal_file w)).
Proof.
  unfold write_journal, mbind, stM_bind, lift. destruct (reject_if _ _) as [[]|e]; [by intros ?%atomic_write_law|].
  intros [= <- <-]. split_and!; [done|done|by right].
Qed.

(** Preparing only looks. *)
Lemma prepare_state_reads desired previous w w' r : prepare_state desired previous w = (w', r) → same_queues_and_file w w'.
Proof.
  assert (PreOrder (same_queues_and_file (W := W))) as Hpo.
  { split; [by intros v|]. intros a b c (? & ? & ?) (? & ? & ?). split_and!; [by transitivity b|congruence|congruence]. }
  assert (∀ (A : Type) (c : stM W string A), (∀ v v' x, c v = (v', x) → same_queues_and_file v v') →
    step_spec (same_queues_and_file w) c (λ _, same_queues_and_file w) (λ _, same_queues_and_file w)) as Hread.
  { intros A c Hc v Hv. destruct (c v) as [v' [a|e]] eqn:He; by (transitivity v; [|by eapply Hc]). }
  assert (∀ i, step_spec (same_queues_and_file w) (verify_owned i) (λ _, same_queues_and_file w) (λ _, same_queues_and_file w)) as Hver.
  { intros i. apply Hread. by intros v v' x [? _]%verify_owned_law. }
  assert (∀ A (x : result string A), step_spec (same_queues_and_file w) (lift x) (λ _, same_queues_and_file w) (λ _, same_queues_and_file w)) as Hlift.
  { intros A x. by apply spec_lift. }
  assert (∀ o, step_spec (same_queues_and_file w) (prepare_optional previous o) (λ _, same_queues_and_file w) (λ _, same_queues_and_file w)) as Hopt.
  { intros [i|]; [|by apply spec_ret]. unfold prepare_optional. apply (spec_bind _ _ (λ _, same_queues_and_file w)); [|intros a; by apply spec_ret]. unfold prepare_interface.
    destruct (find_interface previous (name i)) as [prior|].
    - do 2 (apply (spec_bind _ _ (λ _, same_queues_and_file w)); [apply Hlift|intros _]). apply (spec_bind _ _ (λ _, same_queues_and_file w)); [apply Hver|intros _]. by apply spec_ret.
    - apply (spec_bind _ _ (λ _, same_queues_and_file w)); [|intros k; by apply spec_ret]. apply Hread. by intros v v' x [? _]%inspect_backend_law. }
  assert (step_spec (same_queues_and_file w) (prepare_state desired previous) (λ _, same_queues_and_file w) (λ _, same_queues_and_file w)) as Hs.
  { unfold prepare_state. apply (spec_bind _ _ (λ _, same_queues_and_file w)); [apply Hlift|intros _]. do 3 (apply (spec_bind _ _ (λ _, same_queues_and_file w)); [apply Hopt|intros ?]).
    apply (spec_bind _ _ (λ _, same_queues_and_file w)); [|intros _; by apply spec_ret]. apply (spec_foldS (λ _ _, same_queues_and_file w)). intros. apply Hver. }
  intros Hp. assert (same_queues_and_file w w) as Hrefl by done. specialize (Hs w Hrefl). rewrite Hp in Hs. by destruct r.
Qed.

End effects.

(** ** A change can always be undone *)

(** [serde_json] reads back what it wrote. *)
Class JournalRoundtrip `{JournalJson} : Prop := { journal_roundtrip j : journal_from_slice (journal_to_vec j) = Ok j }.

Section recovery.
Context {W : Type} `{Devices W} `{JournalRoundtrip}.

(** C4: A change of the queues that stops anywhere is undone by the journal. Once
    the journal is written, whatever becomes of the interfaces of the two
    states, in particular where a failing change leaves them, a recovery that
    reports success has removed the journal and left exactly the queues of the
    committed state, or of the state before if the new one was not committed; a
    recovery that fails leaves the journal, or is done. *)
Theorem interrupted_change_recovers previous next committed w w1 w2 w3 r :
  trees w = queues_of previous → write_journal previous (Some next) w = (w1, Ok tt) →
  (∃ r', apply next previous w1 = (w2, r')) ∨ only (names previous ∪ names (Some next)) w1 w2 →
  recover_journal committed w2 = (w3, r) →
  let target := if bool_decide (committed = Some next) then committed else previous in
  r ≠ Ok false ∧
  ((is_ok r = false ∧ journal_file w3 = Some (journal_to_vec (make_journal previous (Some next)))) ∨
   (journal_file w3 = None ∧ trees w3 = queues_of target)).
Proof.
  intros Hpre Hw Hmid Hrec target. apply write_journal_spec in Hw as (_ & Ht & Hj). destruct Hj as [Hj|[[=] _]].
  assert (only (names previous ∪ names (Some next)) w1 w2) as Ho.
  { destruct Hmid as [[r' Ha]|?]; [|done]. apply apply_spec in Ha as [? _]; [done|congruence]. }
  assert (journal_file w2 = Some (journal_to_vec (make_journal previous (Some next)))) as Hj2 by (rewrite <- Hj; apply Ho).
  assert (stored_journal w2 = Some (make_journal previous (Some next))) as Hst by (unfold stored_journal; rewrite Hj2; cbn; by rewrite journal_roundtrip).
  destruct (make_journal_covers previous (Some next)) as [Hc Hcov].
  apply recover_journal_spec in Hrec as (_ & Hr).
  - rewrite Hst in Hr. destruct Hr as [Hf Hr]. split; [done|]. destruct Hr as [(? & ? & _)|?]; [left; split; congruence|by right].
  - unfold journal_ready. rewrite Hst. split; [done|]. rewrite Hc. eapply only_dom; [exact Ho|]. rewrite Ht, Hpre, queues_of_dom. set_solver.
Qed.

End recovery.

(** ** Devices with faults *)

Module QdiscSim.
(** Journals as trees of numbers and texts, and a tree as one number. *)
Abbreviation tree := (gen_tree (Z + string)).
Definition num (z : Z) : tree := GenLeaf (inl z).
Definition text (s : string) : tree := GenLeaf (inr s).
Definition flag (b : bool) : tree := num (if b then 1 else 0).
Definition many {A} (f : A → tree) (l : list A) : tree := GenNode 0 (f <$> l).
Definition maybe {A} (f : A → tree) (o : option A) : tree := many f (option_list o).
Definition of_num (t : tree) : Z := match t with GenLeaf (inl z) => z | _ => 0 end.
Definition of_text (t : tree) : string := match t with GenLeaf (inr s) => s | _ => EmptyString end.
Definition of_flag (t : tree) : bool := of_num t =? 1.
Definition parts (t : tree) : list tree := match t with GenNode _ l => l | _ => [] end.
Definition part (n : nat) (t : tree) : tree := default (num 0) (parts t !! n).
Definition of_direction (b : bool) : Direction := if b then Upload else Download.

Definition client_tree (c : ClientClass) : tree :=
  GenNode 0 [text (gateway_id c); text (mac c); flag (bool_decide (direction c = Upload)); text (interface c); num (ifindex c); num (tag c);
             num (class_minor c); num (leaf_minor c); num (rate_bps c); flag (has_total_budget c)].
Definition tree_client (t : tree) : ClientClass :=
  mkClient (of_text (part 0 t)) (of_text (part 1 t)) (of_direction (of_flag (part 2 t))) (of_text (part 3 t)) (of_num (part 4 t)) (of_num (part 5 t))
    (of_num (part 6 t)) (of_num (part 7 t)) (of_num (part 8 t)) (of_flag (part 9 t)).
Definition app_tree (a : ApplicationClass) : tree :=
  GenNode 0 [text (app_policy_id a); text (app_gateway_id a); text (app_mac a); flag (bool_decide (app_direction a = Upload)); text (app_interface a);
             num (app_ifindex a); num (app_tag a); num (app_class_minor a); num (parent_class_minor a); num (app_rate_bps a)].
Definition tree_app (t : tree) : ApplicationClass :=
  mkApplication (of_text (part 0 t)) (of_text (part 1 t)) (of_text (part 2 t)) (of_direction (of_flag (part 3 t))) (of_text (part 4 t))
    (of_num (part 5 t)) (of_num (part 6 t)) (of_num (part 7 t)) (of_num (part 8 t)) (of_num (part 9 t)).
Definition interface_tree (i : ManagedInterface) : tree :=
  GenNode 0 [flag (shared_egress i); text (name i); num (m_ifindex i); num (capacity_bps i); text (original_root_kind i);
             many client_tree (clients i); many app_tree (application_classes i)].
Definition tree_interface (t : tree) : ManagedInterface :=
  mkManaged (of_flag (part 0 t)) (of_text (part 1 t)) (of_num (part 2 t)) (of_num (part 3 t)) (of_text (part 4 t))
    (tree_client <$> parts (part 5 t)) (tree_app <$> parts (part 6 t)).
Definition state_tree (s : ShapingState) : tree :=
  GenNode 0 [num (schema_version s); maybe interface_tree (upload_interface s); maybe interface_tree (download_interface s);
             maybe interface_tree (s_shared_egress s)].
Definition tree_state (t : tree) : ShapingState :=
  mkShaping (of_num (part 0 t)) (head (tree_interface <$> parts (part 1 t))) (head (tree_interface <$> parts (part 2 t)))
    (head (tree_interface <$> parts (part 3 t))).
Definition journal_tree (j : ShapingJournal) : tree :=
  GenNode 0 [num (journal_schema j); maybe state_tree (previous_shape j); maybe state_tree (next_shape j); many interface_tree (journal_interfaces j)].
Definition tree_journal (t : tree) : ShapingJournal :=
  mkJournal (of_num (part 0 t)) (head (tree_state <$> parts (part 1 t))) (head (tree_state <$> parts (part 2 t))) (tree_interface <$> parts (part 3 t)).

#[export] Instance json : JournalJson := {|
  journal_to_vec j := [Zpos (encode (journal_tree j))];
  journal_from_slice bytes :=
    match bytes with
    | [Zpos p] => match decode p with Some t => Ok (tree_journal t) | None => Err "not a journal" end
    | _ => Err "not a journal"
    end;
|}.

Lemma fmap_inverse {A} (f : A → tree) (g : tree → A) (l : list A) : (∀ a, g (f a) = a) → g <$> (f <$> l) = l.
Proof. intros Hf. rewrite <- list_fmap_compose. induction l as [|a l IH]; [done|]. cbn. by rewrite Hf, IH. Qed.

Lemma tree_client_of c : tree_client (client_tree c) = c.
Proof. by destruct c as [? ? [] ? ? ? ? ? ? []]. Qed.
Lemma tree_app_of a : tree_app (app_tree a) = a.
Proof. by destruct a as [? ? ? [] ? ? ? ? ? ?]. Qed.
Lemma tree_interface_of i : tree_interface (interface_tree i) = i.
Proof.
  unfold tree_interface. cbn. rewrite (fmap_inverse _ _ _ tree_client_of), (fmap_inverse _ _ _ tree_app_of). by destruct i as [[] ? ? ? ? ? ?].
Qed.
Lemma head_maybe {A} (f : A → tree) (g : tree → A) o : (∀ a, g (f a) = a) → head (g <$> parts (maybe f o)) = o.
Proof. intros Hf. destruct o; cbn; by rewrite ?Hf. Qed.
Lemma tree_state_of s : tree_state (state_tree s) = s.
Proof.
  change (tree_state (state_tree s)) with (mkShaping (schema_version s) (head (tree_interface <$> parts (maybe interface_tree (upload_interface s))))
    (head (tree_interface <$> parts (maybe interface_tree (download_interface s)))) (head (tree_interface <$> parts (maybe interface_tree (s_shared_egress s))))).
  rewrite !(head_maybe interface_tree tree_interface) by apply tree_interface_of. by destruct s.
Qed.

#[export] Instance json_roundtrip : JournalRoundtrip.
Proof.
  split. intros j. cbn [journal_to_vec journal_from_slice json]. rewrite decode_encode. f_equal.
  change (tree_journal (journal_tree j)) with (mkJournal (journal_schema j) (head (tree_state <$> parts (maybe state_tree (previous_shape j))))
    (head (tree_state <$> parts (maybe state_tree (next_shape j)))) (tree_interface <$> (interface_tree <$> journal_interfaces j))).
  rewrite !(head_maybe state_tree tree_state) by apply tree_state_of.
  rewrite (fmap_inverse _ _ _ tree_interface_of). by destruct j.
Qed.

(** Every call takes the next fault; a failing change of an interface leaves it
    without classes. *)
Record World := mkWorld { d_trees : gmap string ManagedInterface; d_file : option (list Z); faults : list bool }.

Definition call {E A} (fault : E) (ok : World → World * result E A) (failed : World → World) : stM World E A := λ w,
  let w' := mkWorld (d_trees w) (d_file w) (tail (faults w)) in
  if default false (head (faults w)) then (failed w', Err fault) else ok w'.

Definition set_tree (n : string) (o : option ManagedInterface) (w : World) : World :=
  mkWorld (partial_alter (λ _, o) n (d_trees w)) (d_file w) (faults w).
Definition set_file (f : option (list Z)) (w : World) : World := mkWorld (d_trees w) f (faults w).
Definition expect (n : string) (o : option ManagedInterface) (w : World) {A} (k : World * result string A) : World * result string A :=
  if bool_decide (d_trees w !! n = o) then k else (w, Err "ownership conflict").

#[export] Instance interfaces : Interfaces World := {|
  verify_owned i := call "fault" (λ w, expect (name i) (Some i) w (w, Ok tt)) (λ w, w);
  inspect_shaping_backend n := call "fault" (λ w, expect n None w (w, Ok "fq_codel")) (λ w, w);
  apply_interface i p := call "fault" (λ w, expect (name i) p w (set_tree (name i) (Some i) w, Ok tt)) (set_tree (name i) None);
  restore_interface i := call "fault" (λ w, expect (name i) (Some i) w (set_tree (name i) None w, Ok tt)) (λ w, w);
  restore_from_journal i _ := call "fault" (λ w, (set_tree (name i) None w, Ok tt)) (λ w, w);
  read_journal n := call (OtherError "fault") (λ w, (w, match d_file w with Some b => Ok (ztake n b) | None => Err NotFound end)) (λ w, w);
  atomic_write b := call "fault" (λ w, (set_file (Some b) w, Ok tt)) (set_file (Some b));
  remove_journal := call (OtherError "fault") (λ w, match d_file w with Some _ => (set_file None w, Ok tt) | None => (w, Err NotFound) end) (λ w, w);
  sync_parent := call "fault" (λ w, (w, Ok tt)) (λ w, w);
|}.

Lemma set_tree_other n o w m : m ≠ n → d_trees (set_tree n o w) !! m = d_trees w !! m.
Proof. intros Hm. unfold set_tree. cbn. by rewrite lookup_partial_alter_ne. Qed.
Lemma set_tree_at n o w : d_trees (set_tree n o w) !! n = o.
Proof. unfold set_tree. cbn. by rewrite lookup_partial_alter_eq. Qed.

#[export] Instance devices : Devices World.
Proof.
  refine {| trees := d_trees; journal_file := d_file; same_rest _ _ := True |}; [done|..]; intros;
    cbn [verify_owned inspect_shaping_backend apply_interface restore_interface restore_from_journal read_journal atomic_write remove_journal sync_parent interfaces] in *;
    unfold call, expect in *; destruct (default false (head (faults w))); repeat case_match; simplify_eq; repeat case_bool_decide; simplify_eq;
    cbn in *; simplify_eq; split_and!; try done; intros; try (by apply set_tree_other); eauto;
    split_and?; rewrite ?lookup_partial_alter_eq; done.
Defined.
End QdiscSim.

#[local] Existing Instances QdiscSim.json QdiscSim.json_roundtrip QdiscSim.interfaces QdiscSim.devices.

(** The queues of one interface give way to those of another one; the last step
    fails, and the rollback of the second interface fails too. *)
Module QdiscExample.
Definition old : ShapingState := mkShaping 1 (Some (Shaper.Example.interface Upload "wan" 2)) None None.
Definition new : ShapingState := mkShaping 1 None (Some (Shaper.Example.interface Download "br-lan" 3)) None.
Definition start : QdiscSim.World := QdiscSim.mkWorld (queues_of (Some old)) None [false; false; true; true].
Definition journalled : QdiscSim.World := fst (write_journal (Some old) (Some new) start).
Definition interrupted : QdiscSim.World := fst (apply new (Some old) journalled).
Definition recovered : QdiscSim.World * result string bool := recover_journal (Some old) interrupted.
End QdiscExample.

Lemma interrupted_change_recovers_witness :
  size (QdiscSim.d_trees QdiscExample.interrupted) = 1%nat ∧ snd QdiscExample.recovered = Ok true ∧
  QdiscSim.d_trees (fst QdiscExample.recovered) = queues_of (Some QdiscExample.old).
Proof.
  split; [vm_compute; reflexivity|]. split; [vm_compute; reflexivity|].
  destruct (interrupted_change_recovers (Some QdiscExample.old) QdiscExample.new (Some QdiscExample.old) QdiscExample.start QdiscExample.journalled
    QdiscExample.interrupted (fst QdiscExample.recovered) (Ok true)) as [_ [[Hf _]|[_ Ht]]].
  - reflexivity.
  - vm_compute. reflexivity.
  - left. exists (snd (apply QdiscExample.new (Some QdiscExample.old) QdiscExample.journalled)). vm_compute. reflexivity.
  - vm_compute. reflexivity.
  - discriminate.
  - refine (eq_trans Ht _). vm_compute. reflexivity.
Defined.
