(* ===== verification/Executor.v ===== *)
(** Applying a policy snapshot (process_snapshot_with, rollback_runtime,
    reconcile_saved_with_flow_capability, restore_local and the acknowledgements
    of src/crates/agent/src/policy/executor.rs): the saved state, the nftables
    table and the queues change together or not at all.  The trait [NftRunner]
    of the source is a class; what its operations do to the kernel is a class of
    laws over the table, the queues and the recovery journal.  The text of nft
    and tc commands is not part of it. *)

From S2P Require Import Prelude PolicyWire Topology Identity Schedule Selection Shaper Marks Store Plan Triples Qdisc.

(** Equality of saved states; the confidence of a valid policy is neither a NaN
    nor a zero, where the equality of the source differs. *)
#[export] Instance PolicyWireFrame_eq_dec : EqDecision PolicyWireFrame.
Proof.
  assert (EqDecision FlowCommandOperation) by solve_decision. assert (EqDecision FlowVerdict) by solve_decision.
  assert (EqDecision FlowAckStatus) by solve_decision. assert (EqDecision PolicyAckStatus) by solve_decision.
  assert (EqDecision SpecFloat.spec_float) by solve_decision. assert (EqDecision PolicySelectors) by solve_decision.
  assert (EqDecision PolicyNetworkSelector) by solve_decision. assert (EqDecision PolicyAction) by solve_decision.
  assert (EqDecision PolicyScheduleWindow) by solve_decision. assert (EqDecision PolicySchedule) by solve_decision.
  assert (EqDecision PolicySpecV1) by solve_decision. assert (EqDecision PolicySnapshotEntry) by solve_decision.
  assert (EqDecision PolicyScheduleInterval) by solve_decision. assert (EqDecision PolicyScheduleIntervals) by solve_decision.
  assert (EqDecision PolicyCapabilities) by solve_decision. assert (EqDecision PolicyClientRate) by solve_decision.
  assert (EqDecision PolicyResultDetails) by solve_decision. assert (EqDecision PolicyResult) by solve_decision.
  assert (EqDecision PolicyDirectionMetrics) by solve_decision. assert (EqDecision PolicyClientMetrics) by solve_decision.
  assert (EqDecision PolicySnapshotFrame) by solve_decision. assert (EqDecision PolicyAckFrame) by solve_decision.
  assert (EqDecision PolicyHealthFrame) by solve_decision. assert (EqDecision PolicyMetricsFrame) by solve_decision.
  assert (EqDecision FlowCommandFrame) by solve_decision. assert (EqDecision FlowAckFrame) by solve_decision. solve_decision.
Defined.
#[export] Instance PolicyState_eq_dec : EqDecision PolicyState.
Proof. solve_decision. Defined.

(** ** What the transaction calls *)

(** The trait [NftRunner], and the saved state. *)
Class NftRunner (W : Type) := {
  clear_owned : stM W string unit;
  is_installed : stM W string bool;
  replace : PolicyTopology → NftPlan → stM W string unit;
  inspect_mark_conflicts : PolicyTopology → option ShapingState → stM W string unit;
  prepare_shaping : ShapingState → option ShapingState → stM W string ShapingState;
  write_shaping_journal : option ShapingState → option ShapingState → stM W string unit;
  apply_shaping : ShapingState → option ShapingState → stM W string unit;
  rollback_shaping : option ShapingState → option ShapingState → stM W string unit;
  clear_shaping_journal : stM W string unit;
  recover_shaping_journal : option ShapingState → stM W string bool;
  load_state : W → string → result string (option PolicyState);
  persist_state : PolicyState → stM W string unit;
}.

(** [serde_json::to_vec] of the fields of a topology that a policy depends on. *)
Class FingerprintJson := {
  fingerprint_json : Z → list string → list string → option string → option Z → option Z → list string → bool → list Z;
}.

Definition RULESET_VERSION : Z := 3.

Definition topology_fingerprint `{FingerprintJson} `{Digest} (t : PolicyTopology) : string :=
  hex_bytes (sha256_digest (fingerprint_json RULESET_VERSION (lan_interfaces t) (wan_interfaces t) (shaping_wan t) (lan_ifindex t) (wan_ifindex t)
                              (internal_networks t) (ipv6_coverage t))).

(** What is read from the surroundings while a snapshot is processed. *)
Record Moment := mkMoment {
  inspected : PolicyTopology;
  emergency : bool;
  plan_now : option Z;
  ack_now : option Z;
}.

(** ** Acknowledgements *)

Definition policy_ack (snapshot : PolicyWireFrame) (boot_id : string) (caps : PolicyCapabilities) (st : PolicyAckStatus)
    (rs : list PolicyResult) (now : option Z) : PolicyWireFrame :=
  let '(gateway, epoch, revision, generation, checksum) :=
    default ("invalid", "00000000-0000-4000-8000-000000000000", 0, 0,
             "sha256:0000000000000000000000000000000000000000000000000000000000000000") (snapshot_identity snapshot) in
  PolicyAck (mkPolicyAck POLICY_WIRE_VERSION gateway boot_id epoch revision generation checksum st caps rs (Z.max 0 (default 0 now))).

Definition failure_ack (snapshot : PolicyWireFrame) (boot_id : string) (caps : PolicyCapabilities) (code message : string)
    (now : option Z) : PolicyWireFrame :=
  policy_ack snapshot boot_id caps PFailed (snapshot_results snapshot Failed (Some (code, message))) now.

Definition health_frame_with `{NftRunner W} (caps : PolicyCapabilities) (gateway_id boot_id : string) (m : Moment) (w : W) : PolicyWireFrame :=
  let state := match load_state w gateway_id with Ok s => s | Err _ => None end in
  PolicyHealth (mkPolicyHealth POLICY_WIRE_VERSION gateway_id boot_id
    (match state with Some s => st_config_revision s | None => 0 end)
    (st_controller_epoch <$> state) (st_bundle_generation <$> state) (st_checksum <$> state)
    caps (Z.max 0 (default 0 (ack_now m))) (emergency m)).

(** Without the flow hooks, [runtime_topology] is what was inspected. *)
Definition health_frame `{NftRunner W} (gateway_id boot_id : string) (m : Moment) (w : W) : PolicyWireFrame :=
  health_frame_with (capabilities (inspected m)) gateway_id boot_id m w.

(** ** Rolling back *)

(** The table that belongs to a saved state. *)
Definition state_plan (s : PolicyState) : NftPlan :=
  mkNftPlan (omap (λ a, match a with V4 a => Some a | V6 _ => None end) (blocked_clients_v4 s))
    (omap (λ a, match a with V6 a => Some a | V4 _ => None end) (blocked_clients_v6 s)) (shaping_marks s).

Definition snapshot_has_enabled_client_policy (s : PolicyState) : bool :=
  match st_snapshot s with
  | PolicySnapshot f => existsb (λ p, is_supported_client_policy p || (enabled (spec p) && names_application p))%bool (policies f)
  | _ => false
  end.

Definition has_runtime_policy (s : PolicyState) : bool :=
  let p := state_plan s in
  (negb (bool_decide (plan_v4 p = [])) || negb (bool_decide (plan_v6 p = [])) || negb (bool_decide (plan_marks p = []))
   || snapshot_has_enabled_client_policy s)%bool.

Definition saved_shaping (s : option PolicyState) : option ShapingState := s ← s; shaping_state s.

Section transaction.
Context {W : Type} `{NftRunner W} `{PolicyCodec} `{Digest} `{FingerprintJson}.

Definition restore_queues (previous : option PolicyState) (current : option ShapingState) (w : W) : W * list string :=
  let '(w, r) := recover_shaping_journal (saved_shaping previous) w in
  match r with
  | Ok true => (w, [])
  | Ok false =>
    let '(w, r) := rollback_shaping (saved_shaping previous) current w in
    (w, match r with Ok _ => [] | Err e => [String.append "qdisc rollback failed: " e] end)
  | Err e => (w, [String.append "qdisc recovery failed: " e])
  end.

Definition restore_table (t : PolicyTopology) (previous : option PolicyState) : stM W string unit :=
  match previous with
  | Some s => if has_runtime_policy s then replace t (state_plan s) else clear_owned
  | None => clear_owned
  end.

Definition rollback_runtime (t : PolicyTopology) (previous : option PolicyState) (current : option ShapingState) (rollback_shape : bool)
    : stM W string unit := λ w,
  let '(w, errors) := if rollback_shape then restore_queues previous current w else (w, []) in
  let '(w, r) := restore_table t previous w in
  let errors := errors ++ match r with Ok _ => [] | Err e => [String.append "nft rollback failed: " e] end in
  (w, match errors with [] => Ok tt | _ => Err (join_errors errors) end).

(** ** The transaction *)

(** An early return: a failure of the whole snapshot, or an unsupported one. *)
Inductive Refusal :=
| Refuse (caps : PolicyCapabilities) (code message : string)
| Decline (caps : PolicyCapabilities) (rs : list PolicyResult).

Definition attempt {A} (c : stM W string A) : stM W Refusal (result string A) := λ w, let '(w, r) := c w in (w, Ok r).

(** An error after the kernel was touched. *)
Definition abort {A} (t : PolicyTopology) (old : option PolicyState) (current : option ShapingState) (rollback_shape journal always : bool)
    (code error : string) : stM W Refusal A := λ w,
  let '(w, r) := rollback_runtime t old current rollback_shape w in
  let w := if (journal && (always || is_ok r))%bool then fst (clear_shaping_journal w) else w in
  (w, Err (Refuse (capabilities t) code
             (match r with Ok _ => error | Err rollback => String.append error (String.append "; rollback failed: " rollback) end))).

Definition code_of (fallback error : string) : string := match split_code error with Some (c, _) => c | None => fallback end.
Definition kept_message (error : string) : string := String.append error "; the previous policy snapshot remains active".

(** Stale and conflicting snapshots. *)
Definition check_order (t : PolicyTopology) (f : PolicySnapshotFrame) (old : option PolicyState) : result Refusal unit :=
  match old with
  | None => Ok tt
  | Some s =>
    let same_epoch := String.eqb (snap_controller_epoch f) (st_controller_epoch s) in
    let revision := snap_config_revision f in
    _ ← reject_if (revision <? st_config_revision s)
          (Refuse (capabilities t) "revision_rollback_detected" "snapshot revision is lower than the last successfully persisted revision");
    _ ← reject_if (same_epoch && ((revision <? st_config_revision s)
                   || ((revision =? st_config_revision s) && (snap_bundle_generation f <? st_bundle_generation s))))%bool
          (Refuse (capabilities t) "stale_snapshot" "snapshot revision or generation is older than the last applied snapshot");
    reject_if (same_epoch && (revision =? st_config_revision s) && (snap_bundle_generation f =? st_bundle_generation s)
               && negb (String.eqb (snap_checksum f) (st_checksum s)))%bool
      (Refuse (capabilities t) "snapshot_identity_conflict" "the same epoch, revision, and generation carried a different checksum")
  end.

Definition has_shaping_rates (p : BuiltPlan) : bool :=
  (negb (bool_decide (client_rates p = ∅)) || negb (bool_decide (application_rates p = ∅)))%bool.

(** The plan with its classes and marks, after looking for foreign marks. *)
Definition preflight (gateway_id : string) (t : PolicyTopology) (previous : option ShapingState) (p : BuiltPlan) : stM W Refusal BuiltPlan :=
  if has_shaping_rates p then
    inspected ← attempt (inspect_mark_conflicts t previous);
    lift (map_err (λ error, Refuse (capabilities (mark_limit_unsupported t error)) (code_of "unsupported_mark_conflict" error) (kept_message error))
            (_ ← inspected; compile_shaping_plan gateway_id t previous p))
  else mret p.

Record Prepared := mkPrepared {
  plan : BuiltPlan;
  desired_shape : ShapingState;
  saved_shape : option ShapingState;
  shape_prepared : bool;
}.

Definition prepare (t : PolicyTopology) (previous : option ShapingState) (ps : list PolicySnapshotEntry) (p : BuiltPlan) : stM W Refusal Prepared :=
  let desired := default Shaper.empty (plan_shaping p) in
  if (bool_decide (is_Some (plan_shaping p)) || bool_decide (is_Some previous))%bool then
    r ← attempt (prepare_shaping desired previous);
    lift match r with
    | Ok prepared =>
      let saved := if Shaper.is_empty prepared then None else Some prepared in
      Ok (mkPrepared (with_shaping p (mark_rules p) saved) prepared saved true)
    | Err error =>
      if has_shaping_rates p then
        Err (Refuse (capabilities (mark_limit_unsupported t error)) (code_of "unsupported_existing_qdisc" error) (kept_message error))
      else if bool_decide (is_Some previous) then Err (Refuse (capabilities t) (code_of "manual_cleanup_required" error) error)
      else Ok (mkPrepared (mark_limit_results_degraded (with_shaping p (mark_rules p) previous) ps error) desired previous false)
    end
  else mret (mkPrepared p desired (plan_shaping p) false).

Definition nft_plan (p : BuiltPlan) : NftPlan :=
  mkNftPlan (btree_elements Z.leb (blocked_v4 p)) (btree_elements Z.leb (blocked_v6 p)) (mark_rules p).

Definition same_configuration (t : PolicyTopology) (f : PolicySnapshotFrame) (old : option PolicyState) (q : Prepared) : bool :=
  match old with
  | None => false
  | Some s =>
    let n := nft_plan (plan q) in
    (String.eqb (st_checksum s) (snap_checksum f) && String.eqb (Store.topology_fingerprint s) (topology_fingerprint t)
     && bool_decide (blocked_clients_v4 s = V4 <$> plan_v4 n) && bool_decide (blocked_clients_v6 s = V6 <$> plan_v6 n)
     && bool_decide (shaping_marks s = plan_marks n) && bool_decide (shaping_state s = saved_shape q))%bool
  end.

(** Whether the queues change, and the journal that precedes it. *)
Definition queues_change (old : option PolicyState) (q : Prepared) : bool :=
  (shape_prepared q && negb (bool_decide (saved_shaping old = saved_shape q)))%bool.

Definition begin_journal (t : PolicyTopology) (old : option PolicyState) (q : Prepared) : stM W Refusal bool :=
  if (queues_change old q && (bool_decide (is_Some (saved_shaping old)) || bool_decide (is_Some (saved_shape q))))%bool then
    r ← attempt (write_shaping_journal (saved_shaping old) (saved_shape q));
    lift (map_err (Refuse (capabilities t) "state_prepare_failed") (_ ← r; Ok true))
  else mret false.

(** The outcome of removing the journal does not matter. *)
Definition drop_journal (journal : bool) (r : result Refusal unit) : stM W Refusal unit := λ w,
  (if journal then fst (clear_shaping_journal w) else w, r).

Definition install_table (t : PolicyTopology) (f : PolicySnapshotFrame) (old : option PolicyState) (q : Prepared) (journal : bool)
    : stM W Refusal unit :=
  if negb (has_supported_policy (plan q)) then
    r ← attempt clear_owned;
    match r with Ok _ => mret tt | Err error => drop_journal journal (Err (Refuse (capabilities t) "nft_apply_failed" error)) end
  else
    installed ← (if same_configuration t f old q then attempt is_installed else mret (Ok false));
    match installed with
    | Ok true => mret tt
    | Ok false =>
      r ← attempt (replace t (nft_plan (plan q)));
      match r with Ok _ => mret tt | Err error => abort t old None false journal true "nft_apply_failed" error end
    | Err error => drop_journal journal (Err (Refuse (capabilities t) "nft_inspection_failed" error))
    end.

Definition change_queues (t : PolicyTopology) (old : option PolicyState) (q : Prepared) (journal : bool) : stM W Refusal unit :=
  if queues_change old q then
    r ← attempt (apply_shaping (desired_shape q) (saved_shaping old));
    match r with Ok _ => mret tt | Err error => abort t old (Some (desired_shape q)) true journal false "tc_apply_failed" error end
  else mret tt.

Definition store_text (e : StoreError) : string :=
  match e with BadFrame message => message | _ => "expected a complete policy snapshot" end.

Definition new_state (t : PolicyTopology) (f : PolicySnapshotFrame) (q : Prepared) : result string PolicyState :=
  map_err store_text (from_snapshot (PolicySnapshot f) (topology_fingerprint t) (V4 <$> plan_v4 (nft_plan (plan q)))
    (V6 <$> plan_v6 (nft_plan (plan q))) (saved_shape q) (mark_rules (plan q))).

Definition commit (t : PolicyTopology) (f : PolicySnapshotFrame) (old : option PolicyState) (q : Prepared) (journal : bool) : stM W Refusal unit :=
  match new_state t f q with
  | Err error => abort t old (Some (desired_shape q)) (queues_change old q) journal false "state_prepare_failed" error
  | Ok state =>
    stored ← (if bool_decide (old = Some state) then mret (Ok tt) else attempt (persist_state state));
    match stored with
    | Err error => abort t old (Some (desired_shape q)) (queues_change old q) journal false "state_persist_failed" error
    | Ok _ => drop_journal journal (Ok tt)
    end
  end.

Definition transaction (gateway_id : string) (t : PolicyTopology) (m : Moment) (f : PolicySnapshotFrame) : stM W Refusal BuiltPlan :=
  let caps := capabilities t in
  let ps := policies f in
  _ ← lift (reject_if (negb (String.eqb (snap_gateway_id f) gateway_id) || negb (is_ok (validate (PolicySnapshot f))))%bool
        (Refuse caps "invalid_snapshot" "snapshot validation failed or the gateway binding does not match"));
  _ ← lift (reject_if (emergency m) (Refuse caps "emergency_disabled" "local emergency disable marker is present"));
  _ ← lift (reject_if (existsb (λ p, enabled (spec p) && is_client_total_spec (spec p))%bool ps)
        (Refuse caps "priority_backend_required"
           "client totals require the verified priority backend; the previous policy remains active"));
  old ← (λ w, (w, map_err (Refuse caps "local_state_invalid") (load_state w gateway_id)));
  recovered ← attempt (recover_shaping_journal (saved_shaping old));
  _ ← lift (map_err (Refuse caps "manual_cleanup_required") recovered);
  _ ← lift (check_order t f old);
  _ ← lift (reject_if (negb (supported t) && existsb is_supported_client_policy ps)%bool (Decline caps (unsupported_topology_results ps t)));
  p ← preflight gateway_id t (saved_shaping old) (build_plan ps (schedule_intervals f) (valid_until_ms f) (plan_now m) t);
  q ← prepare t (saved_shaping old) ps p;
  journal ← begin_journal t old q;
  _ ← install_table t f old q journal;
  _ ← change_queues t old q journal;
  _ ← commit t f old q journal;
  mret (plan q).

Definition process_snapshot_with (gateway_id boot_id : string) (snapshot : PolicyWireFrame) (t : PolicyTopology) (m : Moment) (w : W)
    : W * PolicyWireFrame :=
  match snapshot with
  | PolicySnapshot f =>
    let '(w, r) := transaction gateway_id t m f w in
    (w, match r with
        | Ok p => policy_ack snapshot boot_id (capabilities t) (ack_status p) (plan_results p) (ack_now m)
        | Err (Refuse caps code message) => failure_ack snapshot boot_id caps code message (ack_now m)
        | Err (Decline caps rs) => policy_ack snapshot boot_id caps PUnsupported rs (ack_now m)
        end)
  | _ => (w, health_frame gateway_id boot_id m w)
  end.

End transaction.

(** ** What the operations do *)

(** The owned table, the queues the agent manages, by interface, and the recovery
    journal. *)
Class Kernel (W : Type) `{NftRunner W} := {
  table : W → option NftPlan;
  queues : W → gmap string ManagedInterface;
  journal : W → option ShapingJournal;
  same_files (w w' : W) : Prop := ∀ g, load_state w' g = load_state w g;
  same_queues (w w' : W) : Prop := queues w' = queues w ∧ journal w' = journal w;
  (** A transaction of nft is atomic, but one that is reported as failed, because it
      took too long, may have been carried out. *)
  clear_owned_law w w' r : clear_owned w = (w', r) →
    same_files w w' ∧ same_queues w w' ∧ (table w' = None ∨ (is_ok r = false ∧ table w' = table w));
  is_installed_law w w' r : is_installed w = (w', r) →
    same_files w w' ∧ same_queues w w' ∧ table w' = table w ∧ ∀ b, r = Ok b → b = bool_decide (is_Some (table w));
  (** The check after the transaction can fail too. *)
  replace_law t n w w' r : replace t n w = (w', r) →
    same_files w w' ∧ same_queues w w' ∧
    match r with Ok _ => table w' = Some n | Err _ => table w' = table w ∨ table w' = Some n end;
  inspect_law t s w w' r : inspect_mark_conflicts t s w = (w', r) → same_files w w' ∧ same_queues w w' ∧ table w' = table w;
  prepare_law d s w w' r : prepare_shaping d s w = (w', r) → same_files w w' ∧ same_queues w w' ∧ table w' = table w;
  (** A file is replaced or removed at once, and then the directory is synced. *)
  write_journal_law p n w w' r : write_shaping_journal p n w = (w', r) →
    same_files w w' ∧ table w' = table w ∧ queues w' = queues w ∧
    (journal w' = Some (make_journal p n) ∨ (is_ok r = false ∧ journal w' = journal w));
  clear_journal_law w w' r : clear_shaping_journal w = (w', r) →
    same_files w w' ∧ table w' = table w ∧ queues w' = queues w ∧
    (journal w' = None ∨ (is_ok r = false ∧ journal w' = journal w));
  (** A failing change of the queues can stop anywhere, but only on the interfaces
      of the two states. *)
  apply_law d p w w' r : apply_shaping d p w = (w', r) → queues w = queues_of p →
    same_files w w' ∧ table w' = table w ∧ journal w' = journal w ∧ dom (queues w') ⊆ names p ∪ names (Some d) ∧
    (r = Ok tt → queues w' = queues_of (Some d));
  recover_law c w w' r : recover_shaping_journal c w = (w', r) →
    (∀ j, journal w = Some j → journal_covers j ∧ dom (queues w) ⊆ covered_names j) →
    same_files w w' ∧ table w' = table w ∧
    match journal w with
    | None => same_queues w w' ∧ r ≠ Ok true
    | Some j => r ≠ Ok false ∧
      ((is_ok r = false ∧ journal w' = journal w ∧ dom (queues w') ⊆ covered_names j) ∨
       (journal w' = None ∧ queues w' = queues_of (recovery_target c j)))
    end;
  (** The file is the old or the new one ([persist_crash_safe]). *)
  persist_law s w w' r : persist_state s w = (w', r) →
    same_queues w w' ∧ table w' = table w ∧
    match r with
    | Ok _ => load_state w' (st_gateway_id s) = Ok (Some s)
    | Err _ => same_files w w' ∨ load_state w' (st_gateway_id s) = Ok (Some s)
    end;
}.

Lemma spec_attempt {W A} (pre : W → Prop) (c : stM W string A) (ok : result string A → W → Prop) err :
  (∀ w w' r, pre w → c w = (w', r) → ok r w') → step_spec pre (attempt c) ok err.
Proof. intros Hc w Hw. unfold attempt. destruct (c w) as [w' r] eqn:He. eauto. Qed.

(** ** The transaction is atomic *)

Definition no_rules : NftPlan := mkNftPlan [] [] [].
(** What the table does to packets: one without rules does nothing. *)
Definition effective_table `{Kernel W} (w : W) : NftPlan := default no_rules (table w).
Definition saved_plan (old : option PolicyState) : NftPlan := match old with Some s => state_plan s | None => no_rules end.

(** The queues are those that are saved, or the journal leads back to them. *)
Definition settled_queues `{Kernel W} (w : W) (saved : option ShapingState) : Prop :=
  match journal w with
  | None => queues w = queues_of saved
  | Some j => (next_shape j = saved ∨ previous_shape j = saved) ∧ journal_covers j ∧ dom (queues w) ⊆ covered_names j
  end.

(** The kernel enforces the saved state. *)
Definition in_sync `{Kernel W} (w : W) (old : option PolicyState) : Prop :=
  effective_table w = saved_plan old ∧ settled_queues w (saved_shaping old).

Definition rollback_failed (r : Refusal) : Prop :=
  match r with Refuse _ _ message => ∃ e rb, message = String.append e (String.append "; rollback failed: " rb) | Decline _ _ => False end.
Definition refusal_code (r : Refusal) : string := match r with Refuse _ code _ => code | Decline _ _ => "" end.

Section atomic.
Context {W : Type} `{Kernel W} `{PolicyCodec} `{Digest} `{FingerprintJson}.
Context (gateway_id : string) (t : PolicyTopology) (f : PolicySnapshotFrame) (old : option PolicyState).
(** The plan enforces nothing, so that the table is removed. *)
Context (nothing : bool).

(** Before anything is changed: as saved, without a journal. *)
Definition clean (w : W) : Prop :=
  load_state w gateway_id = Ok old ∧ effective_table w = saved_plan old ∧ queues w = queues_of (saved_shaping old) ∧ journal w = None.

(** The removal of the table was reported as failed, but was carried out: the
    refusal does not put the rules back. *)
Definition removed_late (r : Refusal) (w : W) : Prop := nothing = true ∧ refusal_code r = "nft_apply_failed" ∧ table w = None.

(** After a refusal. *)
Definition undone (r : Refusal) (w : W) : Prop :=
  settled_queues w (saved_shaping old) ∧ (effective_table w = saved_plan old ∨ rollback_failed r ∨ removed_late r w) ∧
  (load_state w gateway_id = Ok old ∨ refusal_code r = "state_persist_failed").

Lemma clean_undone r w : clean w → undone r w.
Proof. intros (Hl & Ht & Hq & Hj). split_and!; [|by left|by left]. unfold settled_queues. by rewrite Hj. Qed.

Lemma same_clean w w' : same_files w w' → same_queues w w' → table w' = table w → clean w → clean w'.
Proof.
  intros Hf [Hq Hj] Ht (Hl & He & Hqs & Hjs). unfold clean, effective_table in *. rewrite (Hf gateway_id), Hq, Hj, Ht. done.
Qed.

Lemma restore_table_spec w w' r : restore_table t old w = (w', r) →
  same_files w w' ∧ same_queues w w' ∧ (r = Ok tt → effective_table w' = saved_plan old).
Proof.
  unfold restore_table, effective_table, saved_plan. destruct old as [s|].
  - destruct (has_runtime_policy s) eqn:Hrt; intros He.
    + apply replace_law in He as (Hf & Hq & Ht). split_and!; [done|done|]. intros ->. by rewrite Ht.
    + apply clear_owned_law in He as (Hf & Hq & Ht). split_and!; [done|done|]. intros ->. destruct Ht as [-> |[[=] _]]. cbn.
      unfold has_runtime_policy in Hrt. apply orb_false_iff in Hrt as [Hrt _]. apply orb_false_iff in Hrt as [Hrt Hc].
      apply orb_false_iff in Hrt as [Ha Hb]. apply negb_false_iff, bool_decide_eq_true in Ha, Hb, Hc.
      destruct (state_plan s). cbn in *. by subst.
  - intros He. apply clear_owned_law in He as (Hf & Hq & Ht). split_and!; [done|done|]. intros ->. by destruct Ht as [-> |[[=] _]].
Qed.

(** The state before an abort: the saved files, and queues that are as saved or
    covered by the journal. *)
Definition covered (rollback_shape wrote : bool) (next : option ShapingState) (w : W) : Prop :=
  if wrote then journal w = Some (make_journal (saved_shaping old) next) ∧
    if rollback_shape then next ≠ saved_shaping old ∧ dom (queues w) ⊆ names (saved_shaping old) ∪ names next else queues w = queues_of (saved_shaping old)
  else journal w = None ∧ queues w = queues_of (saved_shaping old) ∧ rollback_shape = false.

(** A journal of the saved queues, whose interfaces are the only ones in use. *)
Lemma journal_settled w next : journal w = Some (make_journal (saved_shaping old) next) → dom (queues w) ⊆ names (saved_shaping old) ∪ names next →
  settled_queues w (saved_shaping old).
Proof.
  intros Hj Hd. unfold settled_queues. rewrite Hj. destruct (make_journal_covers (saved_shaping old) next) as [Hc Hcov]. split_and!; [by right|done|by rewrite Hc].
Qed.

Lemma saved_names w next : queues w = queues_of (saved_shaping old) → dom (queues w) ⊆ names (saved_shaping old) ∪ names next.
Proof. intros ->. rewrite queues_of_dom. apply union_subseteq_l. Qed.


Lemma restore_queues_spec next current w w' errors : covered true true next w → restore_queues old current w = (w', errors) →
  same_files w w' ∧ table w' = table w ∧ settled_queues w' (saved_shaping old) ∧
  (errors = [] → journal w' = None ∧ queues w' = queues_of (saved_shaping old)).
Proof.
  intros (Hj & Hn & Hd). destruct (make_journal_covers (saved_shaping old) next) as [Hc Hcov].
  unfold restore_queues. destruct (recover_shaping_journal _ w) as [w1 r] eqn:Hrec.
  apply recover_law in Hrec as (Hf & Ht & Hr); [|rewrite Hj; intros j [= <-]; by rewrite Hc]. rewrite Hj in Hr. destruct Hr as [Hnf Hr].
  assert (recovery_target (saved_shaping old) (make_journal (saved_shaping old) next) = saved_shaping old) as Htarget.
  { unfold recovery_target. cbn. by rewrite bool_decide_eq_false_2. }
  rewrite Htarget in Hr. destruct r as [[]|e]; [|done|].
  - destruct Hr as [[[=] _]|[Hj1 Hq1]]. intros [= <- <-]. split_and!; [done|done| |done]. unfold settled_queues. by rewrite Hj1.
  - intros [= <- <-]. split_and!; [done|done| |done]. destruct Hr as [(_ & Hj1 & Hd1)|[Hj1 Hq1]].
    + apply (journal_settled _ next); [done|]. by rewrite <- Hc.
    + unfold settled_queues. by rewrite Hj1.
Qed.

Lemma abort_spec {A} next current rollback_shape wrote always code error (ok : A → W → Prop) : (rollback_shape = true → always = false) →
  step_spec (λ w, covered rollback_shape wrote next w ∧ (load_state w gateway_id = Ok old ∨ code = "state_persist_failed"))
    (abort (A:=A) t old current rollback_shape wrote always code error) ok undone.
Proof.
  intros Halways w [Hcov Hload]. unfold abort, rollback_runtime.
  assert (∃ w1 errors, (if rollback_shape then restore_queues old current w else (w, [])) = (w1, errors) ∧ same_files w w1 ∧
    settled_queues w1 (saved_shaping old) ∧
    ((errors = [] ∨ rollback_shape = false) → queues w1 = queues_of (saved_shaping old) ∧ (journal w1 = None ∨ ∃ n, journal w1 = Some (make_journal (saved_shaping old) n)))) as (w1 & errors & -> & Hf1 & Hs1 & Hok1).
  { destruct rollback_shape.
    - destruct wrote; [|by destruct Hcov as (_ & _ & ?)]. destruct (restore_queues old current w) as [w1 errors] eqn:He.
      destruct (restore_queues_spec _ _ _ _ _ Hcov He) as (? & ? & ? & Hz). exists w1, errors. split_and!; [done..|]. intros [Hnil|?]; [|done].
      destruct (Hz Hnil). auto.
    - exists w, []. split_and!; [done|done| |].
      + unfold covered in Hcov. destruct wrote; destruct Hcov as (Hj & Hq); [by apply (journal_settled _ next); [|apply saved_names]|].
        unfold settled_queues. by rewrite Hj, (proj1 Hq).
      + intros _. unfold covered in Hcov. destruct wrote; destruct Hcov as (Hj & Hq); [eauto|]. destruct Hq. auto. }
  destruct (restore_table t old w1) as [w2 r2] eqn:Hrt. apply restore_table_spec in Hrt as (Hf2 & [Hq2 Hj2] & Ht2).
  set (es := errors ++ _). set (r := match es with [] => Ok () | _ => Err (join_errors es) end).
  assert (∀ w', w' = (if (wrote && (always || is_ok r))%bool then (clear_shaping_journal w2).1 else w2) →
    load_state w' gateway_id = load_state w gateway_id ∧ table w' = table w2 ∧ settled_queues w' (saved_shaping old)) as Hfin.
  { intros w' ->. destruct (wrote && (always || is_ok r))%bool eqn:Hclr.
    - destruct (clear_shaping_journal w2) as [w3 r3] eqn:Hc. apply clear_journal_law in Hc as (Hf3 & Ht3 & Hq3 & Hj3). cbn [fst].
      rewrite (Hf3 gateway_id), (Hf2 gateway_id), (Hf1 gateway_id). split_and!; [done|done|].
      assert (errors = [] ∨ rollback_shape = false) as Hz.
      { destruct rollback_shape; [|by right]. left. rewrite (Halways eq_refl) in Hclr. apply andb_true_iff in Hclr as [_ Hclr]. cbn in Hclr.
        subst r. unfold es in Hclr. by destruct errors. }
      destruct (Hok1 Hz) as [Hqq Hjj]. assert (queues w3 = queues_of (saved_shaping old)) as Hqs by congruence.
      assert (journal w3 = None ∨ ∃ n, journal w3 = Some (make_journal (saved_shaping old) n)) as [Hj4|[n Hj4]].
      { destruct Hj3 as [|[_ ->]]; [by left|]. by rewrite Hj2. }
      + unfold settled_queues. by rewrite Hj4.
      + apply (journal_settled _ n); [done|]. by apply saved_names.
    - rewrite (Hf2 gateway_id), (Hf1 gateway_id). split_and!; [done|done|]. unfold settled_queues in *. by rewrite Hq2, Hj2. }
  destruct (Hfin _ eq_refl) as (Hl & Ht & Hs). split_and!; [done| |].
  - destruct r2 as [[]|e]; [|right; left].
    + left. unfold effective_table in *. rewrite Ht. auto.
    + subst r es. assert (∃ x, (match errors ++ [String.append "nft rollback failed: " e] with [] => Ok () | _ => Err (join_errors (errors ++ [String.append "nft rollback failed: " e])) end) = (Err x : result string ())) as [x ->]
        by (destruct errors; cbn; eauto). cbn. eauto.
  - rewrite Hl. cbn. tauto.
Qed.

(** *** The stages *)

Context (q : Prepared).

Definition prepared_ok : Prop :=
  if shape_prepared q then saved_shape q = (if Shaper.is_empty (desired_shape q) then None else Some (desired_shape q))
  else saved_shape q = saved_shaping old.

Definition new_rules : NftPlan := if has_supported_policy (plan q) then nft_plan (plan q) else no_rules.

Definition ready (rules : NftPlan) (wrote : bool) (w : W) : Prop :=
  load_state w gateway_id = Ok old ∧ effective_table w = rules ∧ wrote = queues_change old q ∧ covered false wrote (saved_shape q) w.

Lemma drop_journal_ready rules wrote w r : ready rules wrote w → (rules = saved_plan old ∨ removed_late r w) →
  undone r (if wrote then fst (clear_shaping_journal w) else w).
Proof.
  intros (Hl & Ht & Hw & Hc) Hr. destruct wrote; cbn [covered] in Hc.
  - destruct Hc as [Hj Hq]. destruct (clear_shaping_journal w) as [w' r'] eqn:He. apply clear_journal_law in He as (Hf & Ht' & Hq' & Hj'). cbn [fst]. split_and!.
    + assert (queues w' = queues_of (saved_shaping old)) as Hqs by congruence. destruct Hj' as [Hj'|[_ Hj']]; [unfold settled_queues; by rewrite Hj'|].
      apply (journal_settled _ (saved_shape q)); [congruence|]. by apply saved_names.
    + unfold effective_table, removed_late in *. rewrite Ht'. destruct Hr as [-> |]; auto.
    + left. by rewrite (Hf gateway_id).
  - destruct Hc as (Hj & Hq & _). split_and!; [|destruct Hr as [-> |]; auto|by left]. unfold settled_queues. by rewrite Hj.
Qed.

Lemma begin_journal_spec : step_spec clean (begin_journal t old q) (ready (saved_plan old)) undone.
Proof.
  unfold begin_journal. assert (queues_change old q = true → (bool_decide (is_Some (saved_shaping old)) || bool_decide (is_Some (saved_shape q)))%bool = true) as Hq.
  { unfold queues_change. intros [_ Hne%negb_true_iff%bool_decide_eq_false]%andb_true_iff. apply orb_true_iff. rewrite !bool_decide_eq_true.
    destruct (saved_shaping old), (saved_shape q); naive_solver. }
  destruct (queues_change old q) eqn:Hch; cbn [andb].
  - rewrite (Hq eq_refl). eapply (spec_bind _ _ (λ r w, load_state w gateway_id = Ok old ∧ effective_table w = saved_plan old ∧ queues w = queues_of (saved_shaping old) ∧
      (journal w = Some (make_journal (saved_shaping old) (saved_shape q)) ∨ (is_ok r = false ∧ journal w = None)))).
    + apply spec_attempt. intros w w' r (Hl & Ht & Hqs & Hj) He. apply write_journal_law in He as (Hf & Ht' & Hq' & Hr).
      unfold effective_table in *. rewrite (Hf gateway_id), Ht', Hq'. split_and!; [done..|]. rewrite Hj in Hr. done.
    + intros r. apply spec_lift.
      * intros w b (Hl & Ht & Hqs & Hr) Hb. destruct r; [|done]. injection Hb as <-. destruct Hr as [Hr|[[=] _]]. split_and!; done.
      * intros w e (Hl & Ht & Hqs & Hr) He. destruct r; [done|]. split_and!; [|by left|by left].
        destruct Hr as [Hr|[_ Hr]]; [by apply (journal_settled _ (saved_shape q)); [|apply saved_names]|]. unfold settled_queues. by rewrite Hr.
  - apply spec_ret. intros w (Hl & Ht & Hqs & Hj). split_and!; done.
Qed.

Lemma ready_same rules wrote w w' : same_files w w' → same_queues w w' → ready rules wrote w → effective_table w' = rules → ready rules wrote w'.
Proof.
  intros Hf [Hq Hj] (Hl & _ & Hw & Hc) Ht. split_and!; [by rewrite (Hf gateway_id)|done|done|]. unfold covered in *. by rewrite Hq, Hj.
Qed.

Lemma same_configuration_plan : same_configuration t f old q = true → saved_plan old = nft_plan (plan q).
Proof.
  unfold same_configuration. destruct old as [s|]; [|done]. intros Hs. split_bools. cbn. unfold state_plan.
  match goal with Ha : blocked_clients_v4 s = _, Hb : blocked_clients_v6 s = _, Hc : shaping_marks s = _ |- _ => rewrite Ha, Hb, Hc end.
  unfold nft_plan. cbn [plan_v4 plan_v6 plan_marks]. f_equal; induction (btree_elements _ _) as [|x l IH]; [done| |done|]; cbn; by f_equal.
Qed.

Lemma install_table_spec wrote : has_supported_policy (plan q) = negb nothing → step_spec (ready (saved_plan old) wrote) (install_table t f old q wrote) (λ _, ready new_rules wrote) undone.
Proof.
  intros Hnothing. unfold install_table, new_rules. destruct (has_supported_policy (plan q)); cbn [negb].
  - eapply (spec_bind _ _ (λ r w, ready (saved_plan old) wrote w ∧ (r = Ok true → effective_table w = nft_plan (plan q)))).
    + destruct (same_configuration t f old q) eqn:Hsame.
      * apply spec_attempt. intros w w' r Hr He. apply is_installed_law in He as (Hf & Hqs & Ht & Hb).
        assert (effective_table w' = saved_plan old) as Hte by (unfold effective_table; rewrite Ht; apply Hr).
        split; [by eapply ready_same|]. intros _. rewrite Hte. by apply same_configuration_plan.
      * apply spec_ret. done.
    + intros [[|]|error].
      * apply spec_ret. intros w [Hr Ht]. destruct Hr as (Hl & _ & ?). split_and!; [done|auto|tauto..].
      * eapply (spec_bind _ _ (λ r w, load_state w gateway_id = Ok old ∧ wrote = queues_change old q ∧ covered false wrote (saved_shape q) w ∧
          (r = Ok tt → effective_table w = nft_plan (plan q)))).
        -- apply spec_attempt. intros w w' r [(Hl & Ht & Hw & Hc) _] He. apply replace_law in He as (Hf & [Hq Hj] & Ht').
           split_and!; [by rewrite (Hf gateway_id)|done| |].
           ++ unfold covered in *. by rewrite Hq, Hj.
           ++ intros ->. unfold effective_table. by rewrite Ht'.
        -- intros [[]|error].
           ++ apply spec_ret. intros w (Hl & Hw & Hc & Ht). split_and!; auto.
           ++ eapply spec_pre, (abort_spec (saved_shape q)); [|done]. intros w (? & ? & ? & ?). split; [done|by left].
      * intros w [Hr _]. apply (drop_journal_ready (saved_plan old)); [done|by left].
  - eapply (spec_bind _ _ (λ r w, ready no_rules wrote w ∧ table w = None ∨ (is_ok r = false ∧ ready (saved_plan old) wrote w))).
    + apply spec_attempt. intros w w' r Hr He. apply clear_owned_law in He as (Hf & Hqs & [Ht|[Hfail Ht]]).
      * left. split; [|done]. destruct Hr as (Hl & _ & Hw & Hc). split_and!; [by rewrite (Hf gateway_id)|by unfold effective_table; rewrite Ht|done|].
        destruct Hqs as [Hq Hj]. unfold covered in *. by rewrite Hq, Hj.
      * right. split; [done|]. eapply ready_same; [done|done|done|]. unfold effective_table. rewrite Ht. apply Hr.
    + intros [[]|error]; [by apply spec_ret; intros w [[? _]|[[=] _]]|]. intros w [[Hr Ht]|[_ Hr]].
      * apply (drop_journal_ready no_rules); [done|]. right. split_and!; [by destruct nothing|done|done].
      * apply (drop_journal_ready (saved_plan old)); [done|by left].
Qed.

Lemma queues_change_true : queues_change old q = true → shape_prepared q = true ∧ saved_shape q ≠ saved_shaping old.
Proof. unfold queues_change. intros [-> Hne%negb_true_iff%bool_decide_eq_false]%andb_true_iff. split; [done|congruence]. Qed.

Lemma queues_change_false : prepared_ok → queues_change old q = false → saved_shape q = saved_shaping old.
Proof.
  unfold prepared_ok, queues_change. destruct (shape_prepared q); [|done]. intros _ Hne. cbn [andb] in Hne.
  apply negb_false_iff, bool_decide_eq_true in Hne. done.
Qed.

Definition changed (wrote : bool) (w : W) : Prop :=
  load_state w gateway_id = Ok old ∧ effective_table w = new_rules ∧ wrote = queues_change old q ∧ queues w = queues_of (saved_shape q) ∧
  journal w = if wrote then Some (make_journal (saved_shaping old) (saved_shape q)) else None.

Lemma new_names w : queues w = queues_of (saved_shape q) → dom (queues w) ⊆ names (saved_shaping old) ∪ names (saved_shape q).
Proof. intros ->. rewrite queues_of_dom. apply union_subseteq_r. Qed.

Lemma desired_queues : prepared_ok → shape_prepared q = true →
  queues_of (Some (desired_shape q)) = queues_of (saved_shape q) ∧ names (Some (desired_shape q)) = names (saved_shape q).
Proof.
  unfold prepared_ok. intros Hok Hp. rewrite Hp in Hok. rewrite Hok. unfold Shaper.is_empty, queues_of, names, state_interfaces.
  destruct (interfaces (desired_shape q)) eqn:Hi; [done|]. by rewrite Hi.
Qed.

Lemma changed_covered wrote w : prepared_ok → changed wrote w → covered wrote wrote (saved_shape q) w.
Proof.
  intros Hok (_ & _ & -> & Hq & Hj). unfold covered. destruct (queues_change old q) eqn:Hch; [|by rewrite <- (queues_change_false Hok Hch)].
  destruct (queues_change_true Hch). split_and!; [done|done|]. by apply new_names.
Qed.

Lemma change_queues_spec wrote : prepared_ok → step_spec (ready new_rules wrote) (change_queues t old q wrote) (λ _, changed wrote) undone.
Proof.
  intros Hok. unfold change_queues. destruct (queues_change old q) eqn:Hch.
  - destruct (queues_change_true Hch) as [Hprep Hne]. destruct (desired_queues Hok Hprep) as [Hdq Hdn].
    eapply (spec_bind _ _ (λ r w, load_state w gateway_id = Ok old ∧ effective_table w = new_rules ∧ wrote = true ∧
      journal w = Some (make_journal (saved_shaping old) (saved_shape q)) ∧ dom (queues w) ⊆ names (saved_shaping old) ∪ names (saved_shape q) ∧
      (r = Ok tt → queues w = queues_of (saved_shape q)))).
    + apply spec_attempt. intros w w' r (Hl & Ht & -> & Hc) He. rewrite Hch in Hc |- *. destruct Hc as [Hj Hq]. apply apply_law in He as (Hf & Ht' & Hj' & Hd & Hr); [|done].
      split_and!; [by rewrite (Hf gateway_id)|by unfold effective_table in *; rewrite Ht'|done|congruence|by rewrite <- Hdn|].
      intros Hr'. by rewrite (Hr Hr').
    + intros [[]|error].
      * apply spec_ret. intros w (Hl & Ht & -> & Hj & Hd & Hq). split_and!; auto.
      * eapply spec_pre, (abort_spec (saved_shape q)); [|done]. intros w (Hl & Ht & -> & Hj & Hd & _). split; [done|by left].
  - apply spec_ret. intros w (Hl & Ht & -> & Hc). rewrite Hch in *. destruct Hc as (Hj & Hq & _). split_and!; [done..| |done].
    by rewrite Hq, (queues_change_false Hok Hch).
Qed.

(** What a commit leaves. *)
Definition committed (state : PolicyState) (w : W) : Prop :=
  load_state w gateway_id = Ok (Some state) ∧ effective_table w = new_rules ∧ settled_queues w (saved_shape q).

Lemma new_state_Ok state : new_state t f q = Ok state → st_gateway_id state = snap_gateway_id f ∧ st_snapshot state = PolicySnapshot f ∧
  state_plan state = nft_plan (plan q) ∧ shaping_state state = saved_shape q ∧ identity_of state = (snap_gateway_id f, snap_controller_epoch f, snap_config_revision f, snap_bundle_generation f, snap_checksum f).
Proof.
  unfold new_state, from_snapshot. intros Hs%map_err_Ok. apply bind_Ok in Hs as (_ & _ & Hs). cbn in Hs. injection Hs as <-. split_and!; try done.
  unfold state_plan, nft_plan. cbn. f_equal; induction (btree_elements _ _) as [|x l IH]; [done| |done|]; cbn; by f_equal.
Qed.

Lemma commit_spec wrote : prepared_ok → snap_gateway_id f = gateway_id →
  step_spec (changed wrote) (commit t f old q wrote) (λ _ w, ∃ state, new_state t f q = Ok state ∧ committed state w) undone.
Proof.
  intros Hok Hgw. unfold commit.
  assert (∀ (A : Type) code error (ok : A → W → Prop), step_spec (λ w, changed wrote w)
    (abort (A:=A) t old (Some (desired_shape q)) (queues_change old q) wrote false code error) ok undone) as Habort.
  { intros A code error ok w Hw. pose proof (changed_covered _ _ Hok Hw) as Hc. destruct Hw as (Hl & _ & -> & _).
    apply (abort_spec (saved_shape q)); [done|]. split; [done|by left]. }
  destruct (new_state t f q) as [state|error] eqn:Hst; [|apply Habort].
  destruct (new_state_Ok _ Hst) as (Hg & _ & _ & Hsh & _).
  eapply (spec_bind _ _ (λ r w, effective_table w = new_rules ∧ wrote = queues_change old q ∧ queues w = queues_of (saved_shape q) ∧
    journal w = (if wrote then Some (make_journal (saved_shaping old) (saved_shape q)) else None) ∧ (r = Ok tt → load_state w gateway_id = Ok (Some state)))).
  - case_bool_decide as Heq.
    + apply spec_ret. intros w (Hl & ?). split_and!; try tauto. intros _. by rewrite Hl, Heq.
    + apply spec_attempt. intros w w' r (Hl & Ht & Hw & Hq & Hj) He. apply persist_law in He as ([Hq' Hj'] & Ht' & Hr).
      split_and!; [by unfold effective_table in *; rewrite Ht'|done|congruence|congruence|]. intros ->. by rewrite <- Hgw, <- Hg.
  - intros [[]|error].
    + intros w (Ht & Hw & Hq & Hj & Hl). unfold drop_journal. exists state. split; [done|]. destruct wrote.
      * destruct (clear_shaping_journal w) as [w' r'] eqn:He. apply clear_journal_law in He as (Hf & Ht' & Hq' & Hj'). cbn [fst]. split_and!.
        -- rewrite (Hf gateway_id). auto.
        -- unfold effective_table in *. by rewrite Ht'.
        -- unfold settled_queues. destruct Hj' as [-> |[_ ->]]; [congruence|]. rewrite Hj. destruct (make_journal_covers (saved_shaping old) (saved_shape q)) as [Hc Hcov].
           split_and!; [by left|done|]. rewrite Hc. apply new_names. congruence.
      * split_and!; [auto|done|]. unfold settled_queues. by rewrite Hj.
    + intros w (Ht & Hw & Hq & Hj & _). apply (abort_spec (saved_shape q)); [done|]. split; [|by right].
      rewrite <- Hw. unfold covered. destruct wrote.
      * destruct (queues_change_true (eq_sym Hw)). split_and!; [done|done|]. by apply new_names.
      * rewrite (queues_change_false Hok (eq_sym Hw)) in Hq. done.
Qed.

End atomic.

Section whole.
Context {W : Type} `{Kernel W} `{PolicyCodec} `{Digest} `{FingerprintJson}.
Context (gateway_id : string) (t : PolicyTopology) (m : Moment) (f : PolicySnapshotFrame) (old : option PolicyState).

Definition built : BuiltPlan := build_plan (policies f) (schedule_intervals f) (valid_until_ms f) (plan_now m) t.

Definition nothing_enforced : bool := negb (has_supported_policy built).

(** Later stages change neither the addresses nor whether anything is enforced. *)
Definition same_blocks (p p' : BuiltPlan) : Prop :=
  blocked_v4 p' = blocked_v4 p ∧ blocked_v6 p' = blocked_v6 p ∧ has_supported_policy p' = has_supported_policy p.

Lemma compile_same_blocks p p' : compile_shaping_plan gateway_id t (saved_shaping old) p = Ok p' → same_blocks p p'.
Proof.
  unfold compile_shaping_plan. intros (s & _ & Hs)%bind_Ok. destruct (Shaper.is_empty s); [by injection Hs as <-|].
  apply bind_Ok in Hs as (lan & _ & Hs). apply bind_Ok in Hs as (_ & _ & Hs). destruct (s_shared_egress s); by injection Hs as <-.
Qed.

Lemma preflight_spec p : step_spec (clean gateway_id old) (preflight gateway_id t (saved_shaping old) p)
  (λ p' w, clean gateway_id old w ∧ same_blocks p p') (undone gateway_id old nothing_enforced).
Proof.
  unfold preflight. destruct (has_shaping_rates p); [|by apply spec_ret].
  eapply (spec_bind _ _ (λ _, clean gateway_id old)).
  - apply spec_attempt. intros w w' r Hw He. apply inspect_law in He as (? & ? & ?). by eapply same_clean.
  - intros r. apply spec_lift.
    + intros w p' Hw Hp. split; [done|]. apply map_err_Ok, bind_Ok in Hp as (_ & _ & Hp). by eapply compile_same_blocks.
    + intros w e Hw _. by apply clean_undone.
Qed.

Lemma prepare_spec p : step_spec (clean gateway_id old) (prepare t (saved_shaping old) (policies f) p)
  (λ q w, clean gateway_id old w ∧ prepared_ok old q ∧ same_blocks p (plan q)) (undone gateway_id old nothing_enforced).
Proof.
  unfold prepare. destruct (_ || _)%bool eqn:Hany.
  - eapply (spec_bind _ _ (λ _, clean gateway_id old)).
    + apply spec_attempt. intros w w' r Hw He. apply prepare_law in He as (? & ? & ?). by eapply same_clean.
    + intros r. apply spec_lift; [|intros; by apply clean_undone]. intros w q Hw Hq. split; [done|]. destruct r as [s|e].
      * injection Hq as <-. done.
      * destruct (has_shaping_rates p); [done|]. case_bool_decide; [done|]. injection Hq as <-. split; [done|].
        unfold mark_limit_results_degraded. by destruct (default _ _).
  - apply spec_ret. intros w Hw. apply orb_false_iff in Hany as [Ha%bool_decide_eq_false Hb%bool_decide_eq_false].
    split; [done|]. split; [|done]. unfold prepared_ok. cbn. destruct (plan_shaping p), (saved_shaping old); naive_solver.
Qed.

Lemma in_sync_recovers w w' r : load_state w gateway_id = Ok old → in_sync w old → recover_shaping_journal (saved_shaping old) w = (w', r) →
  match r with Ok _ => clean gateway_id old w' | Err _ => ∀ e, undone gateway_id old nothing_enforced e w' end.
Proof.
  intros Hl [Ht Hs] He. unfold settled_queues in Hs. apply recover_law in He as (Hf & Ht' & Hr); [|intros j Hj; rewrite Hj in Hs; apply Hs].
  assert (load_state w' gateway_id = Ok old ∧ effective_table w' = saved_plan old) as [Hl' Hte'].
  { unfold effective_table in *. by rewrite Ht', (Hf gateway_id). }
  assert (queues w' = queues_of (saved_shaping old) → journal w' = None → clean gateway_id old w') as Hclean by done.
  destruct (journal w) as [j|] eqn:Hj.
  - destruct Hs as (Hs & Hcov & Hd), Hr as [_ Hr].
    assert (recovery_target (saved_shaping old) j = saved_shaping old) as Htarget
      by (unfold recovery_target; case_bool_decide; [done|destruct Hs; congruence]). rewrite Htarget in Hr. destruct r as [b|x].
    + destruct Hr as [[[=] _]|[? ?]]. auto.
    + intros e. destruct Hr as [(_ & Hj' & Hd')|[? ?]]; [|by apply clean_undone, Hclean]. split_and!; [|by left|by left].
      unfold settled_queues. by rewrite Hj'.
  - destruct Hr as [[Hq Hj'] _]. destruct r as [b|x]; [apply Hclean; congruence|]. intros e. apply clean_undone, Hclean; congruence.
Qed.

(** The saved state never moves back. *)
Definition not_older : Prop :=
  match old with
  | Some s => st_config_revision s ≤ snap_config_revision f ∧
    (snap_controller_epoch f = st_controller_epoch s → snap_config_revision f = st_config_revision s →
     st_bundle_generation s ≤ snap_bundle_generation f ∧ (snap_bundle_generation f = st_bundle_generation s → snap_checksum f = st_checksum s))
  | None => True
  end.

Lemma check_order_Ok u : check_order t f old = Ok u → not_older.
Proof.
  unfold check_order, not_older. destruct old as [s|]; [|done]. intros (_ & Ha%reject_if_Ok & Hc)%bind_Ok. apply bind_Ok in Hc as (_ & Hb%reject_if_Ok & Hc%reject_if_Ok).
  split; [lia|]. intros He Hr. rewrite He, String.eqb_refl in Hb, Hc. rewrite Hr, Z.eqb_refl in Hb, Hc. cbn [andb] in Hb, Hc.
  apply orb_false_iff in Hb as [_ Hb]. split; [lia|]. intros Hg. rewrite Hg, Z.eqb_refl in Hc. cbn [andb] in Hc.
  apply negb_false_iff, String.eqb_eq in Hc. done.
Qed.

Definition applied_snapshot (p : BuiltPlan) (w : W) : Prop :=
  ∃ state, load_state w gateway_id = Ok (Some state) ∧ st_snapshot state = PolicySnapshot f ∧ not_older ∧
    plan_v4 (state_plan state) = btree_elements Z.leb (blocked_v4 built) ∧ plan_v6 (state_plan state) = btree_elements Z.leb (blocked_v6 built) ∧
    has_supported_policy p = has_supported_policy built ∧
    settled_queues w (shaping_state state) ∧ effective_table w = if has_supported_policy built then state_plan state else no_rules.

Lemma stages_spec : snap_gateway_id f = gateway_id → not_older →
  step_spec (clean gateway_id old)
    (p ← preflight gateway_id t (saved_shaping old) built; q ← prepare t (saved_shaping old) (policies f) p; journal ← begin_journal t old q;
     _ ← install_table t f old q journal; _ ← change_queues t old q journal; _ ← commit t f old q journal; mret (plan q))
    applied_snapshot (undone gateway_id old nothing_enforced).
Proof.
  intros Hgw Hold. eapply spec_bind; [apply preflight_spec|]. intros p w [Hw Hp]. revert w Hw. apply (spec_bind _ _ _ _ _ _ (prepare_spec p)).
  intros q w (Hw & Hok & Hq). revert w Hw. eapply spec_bind; [apply begin_journal_spec|]. intros wrote.
  eapply spec_bind; [apply install_table_spec; unfold nothing_enforced; rewrite negb_involutive; destruct Hp as (_ & _ & <-); apply Hq|]. intros []. eapply spec_bind; [by apply change_queues_spec|]. intros [].
  eapply spec_bind; [by apply commit_spec|]. intros []. apply spec_ret. intros w (state & Hst & Hl & Ht & Hs).
  destruct (new_state_Ok _ _ _ _ Hst) as (_ & Hsnap & Hplan & Hshape & _). destruct Hp as (Hp4 & Hp6 & Hps), Hq as (Hq4 & Hq6 & Hqs).
  exists state. rewrite Hplan, Hshape. unfold new_rules in Ht. rewrite Hqs, Hps in Ht. unfold nft_plan at 1 2. cbn [plan_v4 plan_v6].
  rewrite Hq4, Hp4, Hq6, Hp6, Hqs, Hps. split_and!; done.
Qed.

Lemma transaction_spec : step_spec (λ w, load_state w gateway_id = Ok old ∧ in_sync w old) (transaction gateway_id t m f)
  applied_snapshot (undone gateway_id old nothing_enforced).
Proof.
  assert (∀ r w, load_state w gateway_id = Ok old ∧ in_sync w old → undone gateway_id old nothing_enforced r w) as Hundone.
  { intros r w [Hl [Ht Hq]]. split_and!; auto. }
  unfold transaction.
  eapply (spec_bind _ _ (λ _ w, (load_state w gateway_id = Ok old ∧ in_sync w old) ∧ snap_gateway_id f = gateway_id)).
  { apply spec_lift; [|eauto]. intros w u Hw Hr%reject_if_Ok. split; [done|]. apply orb_false_iff in Hr as [Hr%negb_false_iff _]. by apply String.eqb_eq. }
  intros [] w [Hw Hgw]. revert w Hw. do 2 (apply (spec_bind _ _ (λ _ w, load_state w gateway_id = Ok old ∧ in_sync w old)); [apply spec_lift; eauto|]; intros []).
  eapply (spec_bind _ _ (λ o w, (load_state w gateway_id = Ok old ∧ in_sync w old) ∧ o = old)).
  { intros w Hw. destruct Hw as [Hl Hs]. rewrite Hl. cbn. done. }
  intros o w [Hw ->]. revert w Hw.
  eapply (spec_bind _ _ (λ r w, match r with Ok _ => clean gateway_id old w | Err _ => ∀ e, undone gateway_id old nothing_enforced e w end)).
  { apply spec_attempt. intros w w' r [Hl Hs] He. by eapply in_sync_recovers. }
  intros r. eapply (spec_bind _ _ (λ _, clean gateway_id old)).
  { apply spec_lift; intros w x Hw Hx; destruct r; try done. }
  intros _. eapply (spec_bind _ _ (λ _ w, clean gateway_id old w ∧ not_older)).
  { apply spec_lift; intros w x Hw Hx; [split; [done|by eapply check_order_Ok]|by apply clean_undone]. }
  intros _ w [Hw Hold]. revert w Hw. eapply (spec_bind _ _ (λ _, clean gateway_id old)).
  { apply spec_lift; intros w x Hw Hx; [done|by apply clean_undone]. }
  intros _. by apply stages_spec.
Qed.

(** C1: Applying a policy snapshot is atomic. Where the kernel enforces the saved
    state before, a snapshot that is refused at any stage, whatever call fails,
    leaves the queues as saved or with a journal that leads back to them, the
    file as it was unless saving it was what failed, and the table as saved,
    with two exceptions: the refusal reports that the rollback failed, or the
    snapshot enforces nothing and the removal of the table was reported as
    failed after it was carried out. A snapshot that is applied is not older than
    the saved one, is the saved one afterwards, with the addresses that its
    plan blocks, and the kernel enforces it - except that nothing is installed
    where no policy is reported as enforced. *)
Theorem snapshot_transaction w : load_state w gateway_id = Ok old → in_sync w old →
  match transaction gateway_id t m f w with
  | (w', Ok p) => applied_snapshot p w'
  | (w', Err r) =>
    settled_queues w' (saved_shaping old) ∧
    (effective_table w' = saved_plan old ∨ rollback_failed r ∨
     has_supported_policy built = false ∧ refusal_code r = "nft_apply_failed" ∧ table w' = None) ∧
    (load_state w' gateway_id = Ok old ∨ refusal_code r = "state_persist_failed")
  end.
Proof.
  intros Hl Hs. pose proof (transaction_spec w (conj Hl Hs)) as Ht. destruct (transaction _ _ _ _ w) as [w' [p|r]]; [done|].
  destruct Ht as (Hq & Ht & Hf). split_and!; [done| |done]. destruct Ht as [?|[?|[Hn ?]]]; [by left|by right; left|].
  right. right. split; [|done]. by apply negb_true_iff.
Qed.

End whole.

(** ** The system *)

(** The table and the saved state: nft.rs, mark.rs and state.rs. *)
Class Table (W : Type) := {
  nft_clear_owned : stM W string unit;
  nft_is_installed : stM W string bool;
  nft_replace : PolicyTopology → NftPlan → stM W string unit;
  inspect_conflicts : list string → option ShapingState → stM W string unit;
  state_load : W → string → result string (option PolicyState);
  state_persist : PolicyState → stM W string unit;
}.

Definition SystemNftRunner {W} `{Table W} `{Interfaces W} `{JournalJson} : NftRunner W := {|
  clear_owned := nft_clear_owned;
  is_installed := nft_is_installed;
  replace := nft_replace;
  inspect_mark_conflicts t owned :=
    inspect_conflicts (btree_elements str_leb (list_to_set (lan_interfaces t ++ wan_interfaces t ++ option_list (shaping_wan t)))) owned;
  prepare_shaping := prepare_state;
  write_shaping_journal := write_journal;
  apply_shaping := apply;
  rollback_shaping previous current :=
    match previous, current with
    | Some p, _ => apply p current
    | None, Some c => restore c
    | None, None => mret tt
    end;
  clear_shaping_journal := clear_journal;
  recover_shaping_journal := recover_journal;
  load_state := state_load;
  persist_state := state_persist;
|}.

(** What nft and the files do. *)
Class Host (W : Type) `{Table W} `{Devices W} := {
  host_table : W → option NftPlan;
  same_state (w w' : W) : Prop := ∀ g, state_load w' g = state_load w g;
  same_devices (w w' : W) : Prop := trees w' = trees w ∧ journal_file w' = journal_file w;
  rest_law w w' : same_rest w w' → host_table w' = host_table w ∧ same_state w w';
  nft_clear_law w w' r : nft_clear_owned w = (w', r) →
    same_state w w' ∧ same_devices w w' ∧ (host_table w' = None ∨ (is_ok r = false ∧ host_table w' = host_table w));
  nft_installed_law w w' r : nft_is_installed w = (w', r) →
    same_state w w' ∧ same_devices w w' ∧ host_table w' = host_table w ∧ ∀ b, r = Ok b → b = bool_decide (is_Some (host_table w));
  nft_replace_law t n w w' r : nft_replace t n w = (w', r) → same_state w w' ∧ same_devices w w' ∧
    match r with Ok _ => host_table w' = Some n | Err _ => host_table w' = host_table w ∨ host_table w' = Some n end;
  inspect_conflicts_law l s w w' r : inspect_conflicts l s w = (w', r) → same_state w w' ∧ same_devices w w' ∧ host_table w' = host_table w;
  state_persist_law s w w' r : state_persist s w = (w', r) → same_devices w w' ∧ host_table w' = host_table w ∧
    match r with
    | Ok _ => state_load w' (st_gateway_id s) = Ok (Some s)
    | Err _ => same_state w w' ∨ state_load w' (st_gateway_id s) = Ok (Some s)
    end;
}.

Section system.
Context {W : Type} `{Host W} `{JournalRoundtrip}.

#[local] Existing Instance SystemNftRunner.

Lemma stored_same (w w' : W) : same_devices w w' → trees w' = trees w ∧ stored_journal w' = stored_journal w.
Proof. intros [Ht Hj]. split; [done|]. unfold stored_journal. by rewrite Hj. Qed.

(** The queues of qdisc.rs keep the promises that the transaction relies on. *)
Definition system_kernel : Kernel W.
Proof.
  refine {| table := host_table; queues := trees; journal := stored_journal |}; cbn [clear_owned is_installed replace inspect_mark_conflicts prepare_shaping
    write_shaping_journal apply_shaping clear_shaping_journal recover_shaping_journal load_state persist_state SystemNftRunner].
  - intros w w' r (Hs & Hd & Ht)%nft_clear_law. by pose proof (stored_same _ _ Hd).
  - intros w w' r (Hs & Hd & Ht & Hb)%nft_installed_law. by pose proof (stored_same _ _ Hd).
  - intros t n w w' r (Hs & Hd & Ht)%nft_replace_law. by pose proof (stored_same _ _ Hd).
  - intros t s w w' r (Hs & Hd & Ht)%inspect_conflicts_law. by pose proof (stored_same _ _ Hd).
  - intros d s w w' r (Hs & Ht & Hj)%prepare_state_reads. destruct (rest_law _ _ Hs). pose proof (stored_same w w' (conj Ht Hj)). done.
  - intros p n w w' r (Hs & Ht & Hj)%write_journal_spec. destruct (rest_law _ _ Hs). split_and!; [done..|]. unfold stored_journal.
    destruct Hj as [Hj|[? Hj]]; [left|right; split; [done|]]; rewrite Hj; [cbn; by rewrite journal_roundtrip|done].
  - intros w w' r (Hs & Ht & Hj)%clear_journal_spec. destruct (rest_law _ _ Hs). split_and!; [done..|]. unfold stored_journal.
    destruct Hj as [Hj|[? Hj]]; [left|right; split; [done|]]; by rewrite Hj.
  - intros d p w w' r Ha Hq. apply (apply_spec _ _ _ _ _ Hq) in Ha as [Ho Hok]. destruct (rest_law _ _ (proj1 Ho)). split_and!; [done|done| | |done].
    + unfold stored_journal. by rewrite (proj1 (proj2 Ho)).
    + eapply only_dom; [exact Ho|]. rewrite Hq, queues_of_dom. apply union_subseteq_l.
  - intros c w w' r Hr Hready. apply recover_journal_spec in Hr as [Hs Hr].
    + destruct (rest_law _ _ Hs). split_and!; [done|done|]. destruct (stored_journal w) as [j|] eqn:Hj.
      * destruct Hr as [Hf [(? & Hjf & ?)|[Hjf ?]]]; (split; [done|]); [left|right]; split_and!; try done; unfold stored_journal in *; by rewrite Hjf.
      * destruct Hr as (Ht & Hjf & Hf). split; [|done]. split; [done|]. unfold stored_journal in *. by rewrite Hjf.
    + unfold journal_ready. destruct (stored_journal w) as [j|]; [by apply Hready|done].
  - intros s w w' r (Hd & Ht & Hr)%state_persist_law. by pose proof (stored_same _ _ Hd).
Defined.
End system.

(** ** A kernel with faults *)

#[local] Existing Instances QdiscSim.json QdiscSim.json_roundtrip QdiscSim.interfaces QdiscSim.devices.

Module Sim.
(** The devices of [QdiscSim] with a table, a file for the state and the marker
    that disables enforcement. *)
Record World := mkWorld { host : QdiscSim.World; s_table : option NftPlan; s_file : option PolicyState; s_marker : bool }.

(** A call of a device. *)
Definition on_host {E A} (c : stM QdiscSim.World E A) : stM World E A := λ w,
  let '(h, r) := c (host w) in (mkWorld h (s_table w) (s_file w) (s_marker w), r).

#[export] Instance interfaces : Interfaces World := {|
  verify_owned i := on_host (verify_owned i);
  inspect_shaping_backend n := on_host (inspect_shaping_backend n);
  apply_interface i p := on_host (apply_interface i p);
  restore_interface i := on_host (restore_interface i);
  restore_from_journal i j := on_host (restore_from_journal i j);
  read_journal n := on_host (read_journal n);
  atomic_write b := on_host (atomic_write b);
  remove_journal := on_host remove_journal;
  sync_parent := on_host sync_parent;
|}.

#[export] Instance devices : Devices World.
Proof.
  refine {| trees w := trees (host w); journal_file w := journal_file (host w); same_rest w w' := s_table w' = s_table w ∧ s_file w' = s_file w ∧ s_marker w' = s_marker w |};
    [split; [done|intros ??? (? & ? & ?) (? & ? & ?); split_and!; congruence]|..]; intros;
    cbn [verify_owned inspect_shaping_backend apply_interface restore_interface restore_from_journal read_journal atomic_write remove_journal sync_parent interfaces] in *;
    unfold on_host in *;
    match goal with Hc : (let '(h, r) := ?c in _) = _ |- _ => destruct c as [h x] eqn:Hx; injection Hc as <- <- end;
    [apply verify_owned_law in Hx as [(? & ? & ?) ?]|apply inspect_backend_law in Hx as [(? & ? & ?) ?]|apply apply_interface_law in Hx as [(? & ? & ?) ?]
    |apply restore_interface_law in Hx as [(? & ? & ?) ?]|apply restore_from_journal_law in Hx as [(? & ? & ?) ?]|apply read_journal_law in Hx as [(? & ? & ?) ?]
    |apply atomic_write_law in Hx as (? & ? & ?)|apply remove_journal_law in Hx as (? & ? & ?)|apply sync_parent_law in Hx as (? & ? & ?)];
    split_and?; done.
Defined.

(** A failing [replace] or [clear_owned] has changed the table already. *)
Definition call {A} (ok : World → World * A) (failed : World → World) : stM World string A := λ w,
  let h := host w in
  let w' := mkWorld (QdiscSim.mkWorld (QdiscSim.d_trees h) (QdiscSim.d_file h) (tail (QdiscSim.faults h))) (s_table w) (s_file w) (s_marker w) in
  if default false (head (QdiscSim.faults h)) then (failed w', Err "fault") else let '(w', a) := ok w' in (w', Ok a).

Definition set_table (n : option NftPlan) (w : World) : World := mkWorld (host w) n (s_file w) (s_marker w).
Definition set_state (s : PolicyState) (w : World) : World := mkWorld (host w) (s_table w) (Some s) (s_marker w).

#[export] Instance table : Table World := {|
  nft_clear_owned := call (λ w, (set_table None w, tt)) (set_table None);
  nft_is_installed := call (λ w, (w, bool_decide (is_Some (s_table w)))) (λ w, w);
  nft_replace _ n := call (λ w, (set_table (Some n) w, tt)) (set_table (Some n));
  inspect_conflicts _ _ := call (λ w, (w, tt)) (λ w, w);
  state_load w _ := Ok (s_file w);
  state_persist s := call (λ w, (set_state s w, tt)) (λ w, w);
|}.

#[export] Instance hosted : Host World.
Proof.
  refine {| host_table := s_table |}; intros;
    cbn [nft_clear_owned nft_is_installed nft_replace inspect_conflicts state_load state_persist table] in *; unfold call in *;
    try (destruct (default false (head (QdiscSim.faults (host w))))); simplify_eq; cbn in *; split_and?; try done; try (intros; destruct_and?; congruence); first [by left|by right].
Defined.

#[export] Instance runner : NftRunner World := SystemNftRunner.
#[export] Instance kernel : Kernel World := system_kernel.
End Sim.

#[local] Existing Instances Sim.runner Sim.kernel.

Module ExecutorExample.
Definition fingerprint : FingerprintJson := {| fingerprint_json v l w s li wi n c := [v] |}.
Definition digest : Digest := {| sha256_digest m := replicate 31 0 ++ [zlen m mod 256] |}.
Definition other_mac : string := "02:BB:CC:DD:EE:10".
Definition topology : PolicyTopology :=
  mkPolicyTopology true None None (mkCapabilities CapSupported CapSupported CapSupported CapSupported None) None None ["br-lan"] ["wan"] None
    (Some 3) (Some 2) (Some 1000000000) (Some 100000000) ["192.168.1.0/24"] [(PolicyWire.Example.mac, V4 3232235796)] true.
Definition spec_of (clients : list string) (k : PolicyActionKind) (rate : option Z) : PolicySpecV1 :=
  mkSpec 1 "gw" "policy" "" true 10 (mkSelectors clients [] [] f64_0_80) (mkNetwork "internet" "both") (mkAction k rate None) None.
Definition frame (revision : Z) (p : PolicySnapshotEntry) : PolicySnapshotFrame :=
  mkSnapshot 1 "gw" PolicyWire.Example.epoch revision 1 1800000000000 1800000060000
    (String.append "sha256:" (hex_bytes (@sha256 PolicyWire.Example.codec (str_bytes "gw" ++ str_bytes (id p))))) [p] [].
(** A block of one known client; one of a known and an unknown client; a limit. *)
Definition block : PolicySnapshotFrame := frame 1 (mkEntry "p1" (spec_of [PolicyWire.Example.mac] Block None)).
Definition half_known : PolicySnapshotFrame := frame 2 (mkEntry "p1" (spec_of [PolicyWire.Example.mac; other_mac] Block None)).
Definition limit : PolicySnapshotFrame := frame 2 (mkEntry "p2" (spec_of [PolicyWire.Example.mac] Limit (Some 5000000))).
Definition moment : Moment := mkMoment topology false (Some 1800000000001) (Some 1800000000002).
Definition empty_world (faults : list bool) : Sim.World := Sim.mkWorld (QdiscSim.mkWorld ∅ None faults) None None false.
(** The same state, with faults ahead. *)
Definition with_faults (faults : list bool) (w : Sim.World) : Sim.World :=
  Sim.mkWorld (QdiscSim.mkWorld (QdiscSim.d_trees (Sim.host w)) (QdiscSim.d_file (Sim.host w)) faults) (Sim.s_table w) (Sim.s_file w) (Sim.s_marker w).
Definition run (f : PolicySnapshotFrame) (w : Sim.World) : Sim.World * result Refusal BuiltPlan :=
  @transaction Sim.World Sim.runner PolicyWire.Example.codec digest fingerprint "gw" topology moment f w.
Definition reported (f : PolicySnapshotFrame) (w : Sim.World) : PolicyWireFrame :=
  snd (@process_snapshot_with Sim.World Sim.runner PolicyWire.Example.codec digest fingerprint "gw" "boot" (PolicySnapshot f) topology moment w).
End ExecutorExample.

(** After the block is applied, a limit whose queues cannot be changed is undone. *)
Lemma snapshot_transaction_witness :
  let w := fst (ExecutorExample.run ExecutorExample.block (ExecutorExample.empty_world [])) in
  let failing := ExecutorExample.with_faults [false; false; false; false; false; true] w in
  let r := ExecutorExample.run ExecutorExample.limit failing in
  effective_table w = mkNftPlan [3232235796] [] [] ∧ (∃ caps, snd r = Err (Refuse caps "tc_apply_failed" "fault")) ∧
  settled_queues (fst r) (saved_shaping (Sim.s_file w)).
Proof.
  intros w failing r. split; [vm_compute; reflexivity|]. split; [eexists; vm_compute; reflexivity|].
  pose proof (@snapshot_transaction Sim.World Sim.runner Sim.kernel PolicyWire.Example.codec ExecutorExample.digest ExecutorExample.fingerprint
    "gw" ExecutorExample.topology ExecutorExample.moment ExecutorExample.limit (Sim.s_file w) failing eq_refl) as Ht.
  change (transaction _ _ _ _ failing) with r in Ht. destruct r as [w' [p|e]] eqn:Hr.
  - exfalso. vm_compute in Hr. discriminate.
  - apply Ht. split; [vm_compute; reflexivity|vm_compute; reflexivity].
Defined.

(** A block of two clients of which one is unknown: the address of the other is
    in the saved state and the acknowledgement says partial, but the table is
    removed and nothing is blocked. *)
Example half_known_block_not_installed :
  let '(w, r) := ExecutorExample.run ExecutorExample.half_known (ExecutorExample.empty_world []) in
  Sim.s_table w = None ∧ (blocked_clients_v4 <$> Sim.s_file w) = Some [V4 3232235796] ∧
  match r with Ok p => ack_status p = PPartial ∧ has_supported_policy p = false | Err _ => False end.
Proof. vm_compute. split_and!; reflexivity. Qed.

(** A block is in force and a snapshot arrives of which no policy is enforced: the
    removal of the table is carried out but takes too long. The snapshot is refused and the
    block stays saved, but it is no longer enforced. *)
Example refused_but_removed :
  let w := fst (ExecutorExample.run ExecutorExample.block (ExecutorExample.empty_world [])) in
  let '(w', r) := ExecutorExample.run ExecutorExample.half_known (ExecutorExample.with_faults [false; true] w) in
  effective_table w = mkNftPlan [3232235796] [] [] ∧ (∃ caps, r = Err (Refuse caps "nft_apply_failed" "fault")) ∧
  Sim.s_file w' = Sim.s_file w ∧ Sim.s_table w' = None.
Proof. vm_compute. split_and!; try reflexivity. eexists. reflexivity. Qed.

(** The acknowledgement of a limit names clients in lower case, which the
    protocol refuses: it cannot be sent. *)
Example limit_ack_not_encodable :
  @validate PolicyWire.Example.codec (PolicySnapshot ExecutorExample.limit) = Ok tt ∧
  @encode PolicyWire.Example.codec (ExecutorExample.reported ExecutorExample.limit (ExecutorExample.empty_world [])) =
    Err "policy result details are invalid".
Proof. vm_compute. split; reflexivity. Qed.

(** A crash between the change of the table and the saving of the state leaves a
    table that is not of the saved snapshot; processing the saved snapshot again,
    as the start of the agent does, only looks whether a table exists: it
    reports success and the table stays. *)
Example stale_table_kept :
  let w := fst (ExecutorExample.run ExecutorExample.block (ExecutorExample.empty_world [])) in
  let crashed := Sim.set_table (Some no_rules) w in
  let '(w', r) := ExecutorExample.run ExecutorExample.block crashed in
  Sim.s_table w' = Some no_rules ∧ (state_plan <$> Sim.s_file w') = Some (mkNftPlan [3232235796] [] []) ∧
  match r with Ok p => ack_status p = PApplied | Err _ => False end.
Proof. vm_compute. split_and!; reflexivity. Qed.

(** ** Acknowledgements that can be sent *)

Section acknowledged.
Context {W : Type} `{NftRunner W} `{PolicyCodec} `{Digest} `{FingerprintJson}.
Context (gateway_id : string) (t : PolicyTopology) (m : Moment) (f : PolicySnapshotFrame).

Lemma policy_ack_valid boot_id caps st rs now : snapshot_fields_wf f → text_ok 128 boot_id →
  Forall result_ok rs → result_policy_id <$> rs = id <$> policies f →
  validate (policy_ack (PolicySnapshot f) boot_id caps st rs now) = Ok tt.
Proof.
  intros Hwf Hboot Hrs Hids. cbn. unfold validate_policy_ack. cbn. rewrite (proj2 (validate_gateway_Ok _) (fw_gateway f Hwf)). cbn.
  rewrite (proj2 (validate_nonempty_id_Ok _ _) Hboot). cbn. rewrite (fw_epoch f Hwf). cbn. rewrite (proj2 (validate_generations_Ok _ _) (fw_generations f Hwf)). cbn.
  rewrite (fw_checksum_form f Hwf). cbn. rewrite (proj2 (Z.ltb_ge (Z.max 0 (default 0 now)) 0)) by lia. cbn.
  apply validate_results_Ok; [done|rewrite Hids; by apply strict_keys_NoDup, fw_sorted|].
  apply (f_equal length) in Hids. rewrite !length_fmap in Hids. unfold zlen. rewrite Hids. apply (fw_count f Hwf).
Qed.

Definition same_results (p : BuiltPlan) : Prop := plan_results p = plan_results (built t m f).

Lemma no_limit_degrade p ps error : Forall (λ q, is_kind Limit q = false) ps → plan_results (mark_limit_results_degraded p ps error) = plan_results p.
Proof.
  intros Hl. unfold mark_limit_results_degraded. assert (List.filter (λ q, enabled (spec q) && is_kind Limit q)%bool ps = []) as ->.
  { induction Hl as [|q l Hq _ IH]; [done|]. cbn. by rewrite Hq, andb_false_r. }
  by destruct (default _ _).
Qed.

Lemma stages_results : Forall (λ p, is_kind Limit p = false) (policies f) → ∀ old (w w' : W) p,
  (p ← preflight gateway_id t (saved_shaping old) (built t m f); q ← prepare t (saved_shaping old) (policies f) p; journal ← begin_journal t old q;
   _ ← install_table t f old q journal; _ ← change_queues t old q journal; _ ← commit t f old q journal; mret (plan q)) w = (w', Ok p) → same_results p.
Proof.
  intros Hlim old w w' p. intros (w1 & p1 & Hp1 & Hs)%stM_bind_Ok. apply stM_bind_Ok in Hs as (w2 & q & Hq & Hs).
  apply stM_bind_Ok in Hs as (w3 & j & _ & Hs). apply stM_bind_Ok in Hs as (w4 & [] & _ & Hs). apply stM_bind_Ok in Hs as (w5 & [] & _ & Hs).
  apply stM_bind_Ok in Hs as (w6 & [] & _ & Hs). injection Hs as _ <-.
  assert (same_results p1) as Hp1s.
  { unfold preflight in Hp1. destruct (has_shaping_rates _); [|by injection Hp1 as _ <-]. apply stM_bind_Ok in Hp1 as (w0 & r & _ & Hr).
    injection Hr as _ Hr. apply map_err_Ok, bind_Ok in Hr as (_ & _ & Hr). unfold compile_shaping_plan in Hr. apply bind_Ok in Hr as (s & _ & Hr).
    destruct (Shaper.is_empty s); [by injection Hr as <-|]. apply bind_Ok in Hr as (lan & _ & Hr). apply bind_Ok in Hr as (_ & _ & Hr).
    destruct (s_shared_egress s); by injection Hr as <-. }
  unfold same_results in *. rewrite <- Hp1s. unfold prepare in Hq. destruct (_ || _)%bool; [|by injection Hq as _ <-].
  apply stM_bind_Ok in Hq as (w0 & r & _ & Hr). injection Hr as _ Hr. destruct r as [s|e]; [by injection Hr as <-|].
  destruct (has_shaping_rates p1); [done|]. destruct (bool_decide _); [done|]. injection Hr as <-. cbn [plan]. by rewrite no_limit_degrade.
Qed.

(** Only an unsupported topology declines a snapshot. *)
Definition declines (r : Refusal) (_ : W) : Prop :=
  match r with Refuse _ _ _ => True | Decline _ rs => rs = unsupported_topology_results (policies f) t end.
Abbreviation refuses c := (step_spec (λ _, True) c (λ _ _, True) declines).

Lemma refuses_bind {A B} (c : stM W Refusal A) (k : A → stM W Refusal B) : refuses c → (∀ a, refuses (k a)) → refuses (c ≫= k).
Proof. intros Hc Hk. by eapply spec_bind. Qed.
Lemma refuses_attempt {A} (c : stM W string A) : refuses (attempt c).
Proof. by apply spec_attempt. Qed.
Lemma refuses_ret {A} (a : A) : refuses (mret a).
Proof. by apply spec_ret. Qed.
Lemma refuses_lift {A} (r : result Refusal A) : (∀ e w, r = Err e → declines e w) → refuses (lift r).
Proof. intros Hr w _. unfold lift. destruct r; [done|by apply Hr]. Qed.
Lemma refuses_map_err {A B} (g : A → Refusal) (r : result A B) : (∀ a w, declines (g a) w) → refuses (lift (map_err g r)).
Proof. intros Hg. apply refuses_lift. intros e w. destruct r; [done|]. intros [= <-]. apply Hg. Qed.
Lemma refuses_reject b r : (∀ w, declines r w) → refuses (lift (reject_if b r)).
Proof. intros Hr. apply refuses_lift. intros e w. destruct b; [|done]. by intros [= <-]. Qed.
Lemma refuses_abort {A} old current rollback_shape wrote always code error : refuses (abort (A:=A) t old current rollback_shape wrote always code error).
Proof. intros w _. unfold abort. by destruct (rollback_runtime _ _ _ _ _). Qed.

Lemma check_order_refuses old : refuses (lift (check_order t f old)).
Proof. apply refuses_lift. intros e w. unfold check_order. destruct old; [|done]. intros [He|(? & _ & [He|(? & _ & He)]%bind_Err)]%bind_Err; by apply reject_if_Err in He as [_ <-]. Qed.

Lemma transaction_declines : refuses (transaction gateway_id t m f).
Proof.
  unfold transaction. do 3 (apply refuses_bind; [by apply refuses_reject|]; intros _).
  apply refuses_bind; [intros w _; by destruct (load_state w gateway_id)|]. intros old. apply refuses_bind; [apply refuses_attempt|]. intros r.
  apply refuses_bind; [by apply refuses_map_err|]. intros _. apply refuses_bind; [apply check_order_refuses|]. intros _.
  apply refuses_bind; [by apply refuses_reject|]. intros _. apply refuses_bind; [|intros p; apply refuses_bind; [|intros q; apply refuses_bind; [|intros wrote;
    apply refuses_bind; [|intros _; apply refuses_bind; [|intros _; apply refuses_bind; [|intros _; apply refuses_ret]]]]]].
  - unfold preflight. destruct (has_shaping_rates _); [|apply refuses_ret]. apply refuses_bind; [apply refuses_attempt|]. intros i. by apply refuses_map_err.
  - unfold prepare. destruct (_ || _)%bool; [|apply refuses_ret]. apply refuses_bind; [apply refuses_attempt|]. intros i. apply refuses_lift.
    intros e w. destruct i; [done|]. destruct (has_shaping_rates p); [by intros [= <-]|]. destruct (bool_decide _); by intros [= <-].
  - unfold begin_journal. destruct (_ && _)%bool; [|apply refuses_ret]. apply refuses_bind; [apply refuses_attempt|]. intros i. by apply refuses_map_err.
  - unfold install_table. destruct (has_supported_policy _); cbn [negb].
    + apply refuses_bind; [destruct (same_configuration _ _ _ _); [apply refuses_attempt|apply refuses_ret]|]. intros [[]|e]; [apply refuses_ret| |by intros w _].
      apply refuses_bind; [apply refuses_attempt|]. intros [[]|e]; [apply refuses_ret|apply refuses_abort].
    + apply refuses_bind; [apply refuses_attempt|]. intros [[]|e]; [apply refuses_ret|by intros w _].
  - unfold change_queues. destruct (queues_change old q); [|apply refuses_ret]. apply refuses_bind; [apply refuses_attempt|].
    intros [[]|e]; [apply refuses_ret|apply refuses_abort].
  - unfold commit. destruct (new_state t f q); [|apply refuses_abort]. apply refuses_bind; [destruct (bool_decide _); [apply refuses_ret|apply refuses_attempt]|].
    intros [[]|e]; [by intros w _|apply refuses_abort].
Qed.

(** C15: Whatever the kernel answers, the agent's acknowledgement of a valid
    snapshot without limits is one that the protocol accepts: it names this
    snapshot and reports every policy once, with reasons and messages in
    bounds even where an error of the system is quoted. *)
Theorem acknowledgement_accepted boot_id w : snapshot_wf f → text_ok 128 boot_id → topology_text_ok t →
  Forall (λ p, is_kind Limit p = false) (policies f) →
  validate (snd (process_snapshot_with gateway_id boot_id (PolicySnapshot f) t m w)) = Ok tt.
Proof.
  intros Hsnap Hboot Htext Hlim. pose proof (nw_fields f Hsnap) as Hwf. unfold process_snapshot_with.
  destruct (transaction gateway_id t m f w) as [w' [p|[caps code msg|caps rs]]] eqn:Ht; cbn [snd].
  - assert (same_results p) as Hsame.
    { unfold transaction in Ht. do 3 (apply stM_bind_Ok in Ht as (? & [] & _ & Ht)). apply stM_bind_Ok in Ht as (w1 & old & _ & Ht).
      apply stM_bind_Ok in Ht as (? & ? & _ & Ht). apply stM_bind_Ok in Ht as (? & ? & _ & Ht). do 2 (apply stM_bind_Ok in Ht as (? & [] & _ & Ht)).
      by eapply (stages_results Hlim old). }
    rewrite Hsame. destruct (plan_results_ok f (plan_now m) t Hwf Htext Hlim). by apply policy_ack_valid.
  - destruct (snapshot_results_ok f Failed (Some (code, msg)) Hwf). by apply policy_ack_valid.
  - assert (rs = unsupported_topology_results (policies f) t) as ->.
    { pose proof (transaction_declines w I) as Hd. by rewrite Ht in Hd. }
    destruct (unsupported_topology_results_ok (policies f) t) as [? ?]; [|by apply policy_ack_valid].
    eapply Forall_impl; [exact (fw_policies f Hwf)|]. by intros p [? _].
Qed.

End acknowledged.

(** A kernel that refuses every change still leaves an acknowledgement that can
    be sent. *)
Lemma acknowledgement_accepted_witness : let w := ExecutorExample.empty_world (replicate 8 true) in
  @validate PolicyWire.Example.codec (ExecutorExample.reported ExecutorExample.half_known w) = Ok tt.
Proof.
  intros w. apply (@acknowledgement_accepted Sim.World Sim.runner PolicyWire.Example.codec ExecutorExample.digest ExecutorExample.fingerprint).
  - apply (proj1 (validate_snapshot_wf _)). vm_compute. reflexivity.
  - apply (proj1 (validate_nonempty_id_Ok _ "")). vm_compute. reflexivity.
  - split; reflexivity.
  - repeat constructor.
Defined.
