(* ===== verification/Local.v ===== *)
(** Local control of the executor (runtime_topology, restore_local,
    invalidate_gateway_mismatch, reconcile_saved_with_flow_capability,
    restore_command and unlock_command in src/crates/agent/src/policy/executor.rs):
    restoring the saved snapshot at the start, the periodic reconciliation, and
    the emergency commands of the operator with the marker that disables
    enforcement. *)

From S2P Require Import Prelude PolicyWire Topology Identity Schedule Selection Shaper Marks Store Plan Triples Qdisc Executor.

(** ** What the gateway can do *)

Definition set_capabilities (t : PolicyTopology) (caps : PolicyCapabilities) : PolicyTopology :=
  mkPolicyTopology (supported t) (topology_reason_code t) (topology_reason t) caps (client_limit_reason_code t) (client_limit_reason t)
    (lan_interfaces t) (wan_interfaces t) (wan_shaping_interface t) (lan_ifindex t) (wan_ifindex t) (lan_capacity_bps t) (wan_capacity_bps t)
    (internal_networks t) (neighbor_bindings t) (ipv6_coverage t).

(** [observed] are the interfaces of the configuration; [shaping_supported] is the
    probe of the kernel for application classes. *)
Definition runtime_topology (inspected : PolicyTopology) (observed : list string) (shaping_supported flow_bpf_ready : bool) : PolicyTopology :=
  if (flow_bpf_ready && supported inspected)%bool then
    let caps := capabilities inspected in
    let covered := forallb (λ i, bool_decide (i ∈ observed)) in
    let limit :=
      if (negb (is_cap (client_limit caps) CapUnsupported) && covered (lan_interfaces inspected)
          && (bool_decide (is_Some (wan_shaping_interface inspected)) || covered (wan_interfaces inspected)) && shaping_supported)%bool
      then CapSupported else application_limit caps in
    set_capabilities inspected
      (mkCapabilities (client_block caps) (client_limit caps) (if is_one_arm_router inspected then CapDegraded else CapSupported) limit
         (client_total_limit caps))
  else inspected.

Definition priority_runtime_capabilities (flow_bpf_ready : bool) (block : PolicyCapability) : PolicyCapabilities :=
  let application := if flow_bpf_ready then CapSupported else CapUnsupported in
  mkCapabilities block CapUnsupported application application None.

(** ** The operations *)

(** The saved state of any gateway and the marker. *)
Class LocalFiles (W : Type) := {
  load_saved : W → result string (option PolicyState);
  disabled : W → bool;
  marker_write : stM W string unit;
  marker_remove : stM W string unit;
  quarantine_state : stM W string unit;
}.

(** What is read while a command runs. *)
Record Surroundings := mkSurroundings {
  topology_now : PolicyTopology;
  observed_interfaces : list string;
  shaping_probe : bool;
  clock : option Z;
  is_root : bool;
}.

Section local.
Context {W : Type} `{Table W} `{Interfaces W} `{JournalJson} `{LocalFiles W} `{PolicyCodec} `{Digest} `{FingerprintJson}.
#[local] Existing Instance SystemNftRunner.

Definition local_topology (e : Surroundings) (flow_bpf_ready : bool) : PolicyTopology :=
  runtime_topology (topology_now e) (observed_interfaces e) (shaping_probe e) flow_bpf_ready.

Definition process_snapshot_with_flow_capability (e : Surroundings) (gateway_id boot_id : string) (snapshot : PolicyWireFrame)
    (flow_bpf_ready : bool) (w : W) : W * PolicyWireFrame :=
  process_snapshot_with gateway_id boot_id snapshot (local_topology e flow_bpf_ready) (mkMoment (topology_now e) (disabled w) (clock e) (clock e)) w.

Definition process_snapshot (e : Surroundings) (gateway_id boot_id : string) (snapshot : PolicyWireFrame) : W → W * PolicyWireFrame :=
  process_snapshot_with_flow_capability e gateway_id boot_id snapshot false.

Definition took_effect (f : PolicyWireFrame) : bool :=
  match f with PolicyAck a => match pack_status a with PApplied | PPartial => true | _ => false end | _ => false end.

Definition restore_local (e : Surroundings) (gateway_id : string) (flow_bpf_ready : bool) (w : W) : W * option (string * PolicyWireFrame) :=
  if disabled w then (w, None)
  else match load_state w gateway_id with
  | Ok (Some saved) =>
    let '(w, ack) := process_snapshot_with_flow_capability e gateway_id "startup-restore" (st_snapshot saved) flow_bpf_ready w in
    (w, if took_effect ack then Some (st_gateway_id saved, st_snapshot saved) else None)
  | _ => (w, None)
  end.

(** The state without its queues. *)
Definition without_shaping (s : PolicyState) : PolicyState :=
  mkState (st_schema_version s) (st_gateway_id s) (st_controller_epoch s) (st_config_revision s) (st_bundle_generation s) (st_checksum s)
    (Store.topology_fingerprint s) (st_snapshot s) (blocked_clients_v4 s) (blocked_clients_v6 s) None [].

Definition invalidate_gateway_mismatch (gateway_id : string) : stM W string unit :=
  saved ← (λ w, (w, load_saved w));
  match saved with
  | None => mret tt
  | Some s =>
    if String.eqb (st_gateway_id s) gateway_id then mret tt
    else
      _ ← nft_clear_owned;
      match shaping_state s with
      | Some shape =>
        _ ← write_journal (Some shape) None;
        _ ← restore shape;
        _ ← state_persist (without_shaping s);
        _ ← clear_journal;
        quarantine_state
      | None => quarantine_state
      end
  end.

(** Whether the saved state is what the plan of its snapshot asks for. *)
Definition up_to_date (t : PolicyTopology) (gateway_id : string) (s : PolicyState) (p : BuiltPlan) : option BuiltPlan :=
  match (if has_shaping_rates p then compile_shaping_plan gateway_id t (shaping_state s) p else Ok p) with
  | Err _ => None
  | Ok p =>
    let n := nft_plan p in
    if (String.eqb (Store.topology_fingerprint s) (topology_fingerprint t) && bool_decide (blocked_clients_v4 s = V4 <$> plan_v4 n)
        && bool_decide (blocked_clients_v6 s = V6 <$> plan_v6 n) && bool_decide (shaping_marks s = plan_marks n)
        && bool_decide (shaping_state s = plan_shaping p))%bool then Some p else None
  end.

Definition reconcile_saved_with_flow_capability (e : Surroundings) (gateway_id boot_id : string) (flow_bpf_ready : bool) (w : W)
    : W * option PolicyWireFrame :=
  match load_state w gateway_id with
  | Ok (Some saved) =>
    if disabled w then (w, None)
    else
      let t := local_topology e flow_bpf_ready in
      let kept :=
        match st_snapshot saved with
        | PolicySnapshot f =>
          if (supported t || negb (existsb is_supported_client_policy (policies f)))%bool then
            up_to_date t gateway_id saved (build_plan (policies f) (schedule_intervals f) (valid_until_ms f) (clock e) t)
          else None
        | _ => None
        end in
      match kept with
      | Some p => (w, Some (policy_ack (st_snapshot saved) boot_id (capabilities t) (ack_status p) (plan_results p) (clock e)))
      | None =>
        let '(w, ack) := process_snapshot_with_flow_capability e gateway_id boot_id (st_snapshot saved) flow_bpf_ready w in
        (w, Some ack)
      end
  | _ => (w, None)
  end.

Definition has_application_policy (snapshot : PolicyWireFrame) : bool :=
  match snapshot with
  | PolicySnapshot f => existsb (λ p, enabled (spec p) && names_application p)%bool (policies f)
  | _ => false
  end.

(** The first message of the results. *)
Definition first_message (rs : list PolicyResult) : string :=
  default "the local policy snapshot was not applied" (head (omap message rs)).

Definition resume_saved (e : Surroundings) (s : PolicyState) : stM W string unit := λ w,
  if has_application_policy (st_snapshot s) then (w, Ok tt)
  else
    let '(w, ack) := process_snapshot e (st_gateway_id s) "local-resume" (st_snapshot s) w in
    match ack with
    | PolicyAck a =>
      if took_effect ack then (w, Ok tt)
      else (fst (marker_write w), Err (String.append "could not resume local policy enforcement: " (first_message (results a))))
    | _ => (w, Err "could not resume local policy enforcement")
    end.

Definition restore_command (e : Surroundings) : stM W string unit :=
  _ ← lift (reject_if (negb (is_root e)) "policy resume must run as root");
  saved ← (λ w, (w, load_saved w));
  s ← lift (ok_or saved "no valid local policy snapshot is available");
  _ ← marker_remove;
  resume_saved e s.

Definition unlock_command (e : Surroundings) : stM W string unit :=
  _ ← lift (reject_if (negb (is_root e)) "policy unlock must run as root");
  _ ← marker_write;
  saved ← (λ w, (w, load_saved w));
  match saved with
  | None => nft_clear_owned
  | Some s =>
    _ ← match shaping_state s with Some shape => write_journal (Some shape) None | None => mret tt end;
    _ ← nft_clear_owned;
    match shaping_state s with
    | Some shape =>
      _ ← restore shape;
      _ ← state_persist (without_shaping s);
      clear_journal
    | None => mret tt
    end
  end.

End local.

(** ** What the files do *)

Class LocalHost (W : Type) `{Host W} `{LocalFiles W} := {
  (** The same but for the marker. *)
  same_but_marker (w w' : W) : Prop :=
    host_table w' = host_table w ∧ same_state w w' ∧ same_devices w w' ∧ load_saved w' = load_saved w;
  marker_write_law w w' r : marker_write w = (w', r) → same_but_marker w w' ∧ (r = Ok tt → disabled w' = true);
  marker_remove_law w w' r : marker_remove w = (w', r) → same_but_marker w w' ∧ (r = Ok tt → disabled w' = false);
  quarantine_law w w' r : quarantine_state w = (w', r) → host_table w' = host_table w ∧ same_devices w w' ∧ disabled w' = disabled w ∧
    (r = Ok tt → load_saved w' = Ok None);
  (** Other operations leave the marker alone. *)
  rest_disabled w w' : same_rest w w' → disabled w' = disabled w;
  clear_disabled w w' r : nft_clear_owned w = (w', r) → disabled w' = disabled w;
  persist_disabled s w w' r : state_persist s w = (w', r) → disabled w' = disabled w;
}.

Section local_laws.
Context {W : Type} `{LocalHost W} `{JournalRoundtrip} `{PolicyCodec} `{Digest} `{FingerprintJson}.
#[local] Existing Instances SystemNftRunner system_kernel.

(** ** The marker *)

Lemma disabled_refuses gateway_id t m f (w : W) : emergency m = true →
  ∃ caps code text, transaction gateway_id t m f w = (w, Err (Refuse caps code text)).
Proof.
  intros He. unfold transaction, mbind at 1, stM_bind at 1, lift at 1. destruct (reject_if (_ || _)%bool _) as [[]|e] eqn:Hr.
  - unfold mbind at 1, stM_bind at 1. rewrite He. cbn. eauto.
  - apply reject_if_Err in Hr as [_ <-]. eauto.
Qed.

Lemma disabled_snapshot e gateway_id boot_id f ready (w : W) : disabled w = true →
  ∃ ack, process_snapshot_with_flow_capability e gateway_id boot_id (PolicySnapshot f) ready w = (w, ack) ∧ took_effect ack = false.
Proof.
  intros Hd. unfold process_snapshot_with_flow_capability, process_snapshot_with. rewrite Hd.
  set (m := mkMoment _ _ _ _). destruct (disabled_refuses gateway_id (local_topology e ready) m f w eq_refl) as (caps & code & text & ->). eauto.
Qed.

Lemma without_queues shape (w w' : W) : trees w = queues_of (Some shape) → restore shape w = (w', Ok tt) → trees w' = ∅.
Proof.
  intros Ht Hr. apply restore_spec in Hr as [(_ & _ & Ho) Hr]. apply map_eq. intros n. rewrite lookup_empty.
  destruct (decide (n ∈ names (Some shape))) as [Hn|Hn].
  - apply elem_of_list_to_set, list_elem_of_fmap in Hn as (i & -> & Hi). by apply Hr.
  - rewrite (Ho n Hn), Ht. apply not_elem_of_dom. by rewrite queues_of_dom.
Qed.

(** What unlocking does after the marker is written. *)
Lemma unlock_steps saved (w w' : W) r : trees w = queues_of (saved_shaping saved) →
  match saved with
  | None => nft_clear_owned
  | Some s =>
    _ ← match shaping_state s with Some shape => write_journal (Some shape) None | None => mret tt end;
    _ ← nft_clear_owned;
    match shaping_state s with
    | Some shape => _ ← restore shape; _ ← state_persist (without_shaping s); clear_journal
    | None => mret tt
    end
  end w = (w', r) →
  disabled w' = disabled w ∧ (r = Ok tt → host_table w' = None ∧ trees w' = ∅ ∧ (is_Some (saved_shaping saved) → journal_file w' = None)).
Proof.
  intros Ht. destruct saved as [s|].
  2:{ intros Hc. split; [by eapply clear_disabled|]. intros ->. apply nft_clear_law in Hc as (_ & [Htr _] & [Htab|[[=] _]]).
      split_and!; [done|by rewrite Htr, Ht|]. by intros [? ?]. }
  cbn [saved_shaping mbind option_bind] in Ht |- *. destruct (shaping_state s) as [shape|] eqn:Hs.
  - unfold mbind, stM_bind. destruct (write_journal (Some shape) None w) as [w1 r1] eqn:Hw1. apply write_journal_spec in Hw1 as (Hr1 & Ht1 & _).
    pose proof (rest_disabled _ _ Hr1) as Hd1. destruct r1 as [[]|e]; [|by intros [= <- <-]].
    destruct (nft_clear_owned w1) as [w2 r2] eqn:Hw2. pose proof (clear_disabled _ _ _ Hw2) as Hd2. apply nft_clear_law in Hw2 as (_ & [Ht2 _] & Htab2).
    destruct r2 as [[]|e]; [destruct Htab2 as [Htab2|[[=] _]]|intros [= <- <-]; split; [congruence|done]].
    destruct (restore shape w2) as [w3 r3] eqn:Hw3. assert (disabled w3 = disabled w2) as Hd3 by (apply rest_disabled; by apply restore_spec in Hw3 as [(? & _ & _) _]).
    destruct r3 as [[]|e]; [|intros [= <- <-]; split; [congruence|done]].
    assert (host_table w3 = host_table w2) as Htab3 by (apply restore_spec in Hw3 as [(Hr & _ & _) _]; by apply rest_law in Hr as [? _]).
    apply without_queues in Hw3; [|congruence].
    destruct (state_persist (without_shaping s) w3) as [w4 r4] eqn:Hw4. pose proof (persist_disabled _ _ _ _ Hw4) as Hd4. apply state_persist_law in Hw4 as ([Ht4 _] & Htab4 & _).
    destruct r4 as [[]|e]; [|intros [= <- <-]; split; [congruence|done]].
    intros (Hr5 & Ht5 & Hj5)%clear_journal_spec. pose proof (rest_disabled _ _ Hr5) as Hd5. apply rest_law in Hr5 as [Htab5 _].
    split; [congruence|]. intros ->. destruct Hj5 as [Hj5|[[=] _]]. split_and!; [congruence|congruence|done].
  - unfold mbind, stM_bind. cbn. destruct (nft_clear_owned w) as [w2 r2] eqn:Hw2. pose proof (clear_disabled _ _ _ Hw2) as Hd2. apply nft_clear_law in Hw2 as (_ & [Ht2 _] & Htab2).
    destruct r2 as [[]|e]; intros [= <- <-]; (split; [congruence|]); [|done]. intros _. destruct Htab2 as [Htab2|[[=] _]]. split_and!; [done|by rewrite Ht2, Ht|]. by intros [? ?].
Qed.

(** C14: The emergency unlock ends enforcement and keeps it off. Where the queues are
    the saved ones, a successful unlock leaves no table and no queues, and no
    journal either where queues were saved; and once it has written the
    marker, even if it fails later, neither the processing of a snapshot that
    arrives, nor the restoring of the saved one when the agent starts, nor a
    reconciliation changes anything, and none of them reports anything as in
    effect. *)
Theorem unlock_stops_enforcement e saved (w w' : W) r : load_saved w = Ok saved → trees w = queues_of (saved_shaping saved) →
  unlock_command e w = (w', r) →
  (r = Ok tt → host_table w' = None ∧ trees w' = ∅ ∧ disabled w' = true ∧ (is_Some (saved_shaping saved) → journal_file w' = None)) ∧
  (disabled w' = true → ∀ e' gateway_id boot_id f ready,
    (∃ ack, process_snapshot_with_flow_capability e' gateway_id boot_id (PolicySnapshot f) ready w' = (w', ack) ∧ took_effect ack = false) ∧
    restore_local e' gateway_id ready w' = (w', None) ∧ reconcile_saved_with_flow_capability e' gateway_id boot_id ready w' = (w', None)).
Proof.
  intros Hl Ht Hu. split.
  - intros ->. unfold unlock_command in Hu. apply stM_bind_Ok in Hu as (w0 & [] & Hw0 & Hu). apply stM_bind_Ok in Hu as (w1 & [] & Hw1 & Hu).
    injection Hw0 as <- _. apply marker_write_law in Hw1 as [(Htab & Hst & [Htr _] & Hls) Hd]. specialize (Hd eq_refl).
    apply stM_bind_Ok in Hu as (w2 & o & Hw2 & Hu). injection Hw2 as <- Ho. rewrite Hls, Hl in Ho. injection Ho as <-.
    apply unlock_steps in Hu as [Hdis Hok]; [|congruence]. destruct (Hok eq_refl) as (? & ? & ?). split_and!; [done|done|congruence|done].
  - intros Hd e' gateway_id boot_id f ready. split; [by apply disabled_snapshot|]. unfold restore_local, reconcile_saved_with_flow_capability. rewrite Hd.
    split; [done|]. by destruct (load_state w' gateway_id) as [[s|]|].
Qed.

(** ** Reconciliation *)

Lemma up_to_date_plan t gateway_id s p p' : up_to_date t gateway_id s p = Some p' →
  same_blocks p p' ∧ state_plan s = nft_plan p'.
Proof.
  unfold up_to_date. destruct (if has_shaping_rates p then _ else _) as [q|] eqn:Hq; [|done]. destruct (_ && _)%bool eqn:Hc; [|done]. intros [= <-]. split.
  - destruct (has_shaping_rates p); [|by injection Hq as <-]. by apply (compile_same_blocks gateway_id t (Some s)) in Hq.
  - split_bools. unfold state_plan.
    match goal with Ha : blocked_clients_v4 s = _, Hb : blocked_clients_v6 s = _, Hm : shaping_marks s = _ |- _ => rewrite Ha, Hb, Hm end.
    unfold nft_plan. cbn [plan_v4 plan_v6 plan_marks]. f_equal; induction (btree_elements _ _) as [|x l IH]; [done| |done|]; cbn; by f_equal.
Qed.


End local_laws.

(** ** An example *)

Module LocalSim.
#[export] Instance files : LocalFiles Sim.World := {|
  load_saved w := Ok (Sim.s_file w);
  disabled := Sim.s_marker;
  marker_write := Sim.call (λ w, (Sim.mkWorld (Sim.host w) (Sim.s_table w) (Sim.s_file w) true, tt)) (λ w, w);
  marker_remove := Sim.call (λ w, (Sim.mkWorld (Sim.host w) (Sim.s_table w) (Sim.s_file w) false, tt)) (λ w, w);
  quarantine_state := Sim.call (λ w, (Sim.mkWorld (Sim.host w) (Sim.s_table w) None (Sim.s_marker w), tt)) (λ w, w);
|}.
End LocalSim.

#[local] Existing Instances QdiscSim.json QdiscSim.json_roundtrip QdiscSim.interfaces QdiscSim.devices Sim.interfaces Sim.devices Sim.table Sim.hosted LocalSim.files.

#[local] Instance local_host : LocalHost Sim.World.
Proof.
  split; intros; cbn [marker_write marker_remove quarantine_state nft_clear_owned state_persist Sim.table LocalSim.files] in *; unfold Sim.call in *;
    try (destruct (default false (head (QdiscSim.faults (Sim.host w))))); simplify_eq; cbn in *; split_and?; try done; intros; destruct_and?; done.
Defined.

#[local] Existing Instances PolicyWire.Example.codec ExecutorExample.digest ExecutorExample.fingerprint.

Module LocalExample.
Definition surroundings : Surroundings := mkSurroundings ExecutorExample.topology ["br-lan"; "wan"] true (Some 1800000000001) true.
Definition limited : Sim.World := fst (ExecutorExample.run ExecutorExample.limit (ExecutorExample.empty_world [])).
Definition unlocked : Sim.World := fst (unlock_command surroundings limited).

(** A block of a client next to a policy for an application. *)
Definition app_spec : PolicySpecV1 :=
  mkSpec 1 "gw" "policy" "" true 20 (mkSelectors [PolicyWire.Example.mac] ["youtube"] [] f64_0_80) (mkNetwork "internet" "both") (mkAction Block None None) None.
Definition mixed : PolicySnapshotFrame :=
  mkSnapshot 1 "gw" PolicyWire.Example.epoch 1 1 1800000000000 1800000060000
    (String.append "sha256:" (hex_bytes (@sha256 PolicyWire.Example.codec (str_bytes "gw" ++ str_bytes "p1" ++ str_bytes "p2"))))
    [mkEntry "p1" (ExecutorExample.spec_of [PolicyWire.Example.mac] Block None); mkEntry "p2" app_spec] [].
Definition blocked : Sim.World * PolicyWireFrame :=
  process_snapshot_with_flow_capability surroundings "gw" "boot" (PolicySnapshot mixed) true (ExecutorExample.empty_world []).
Definition resumed : Sim.World := fst (restore_command surroundings (fst (unlock_command surroundings (fst blocked)))).
Definition reconciled : Sim.World * option PolicyWireFrame := reconcile_saved_with_flow_capability surroundings "gw" "boot" true resumed.
End LocalExample.

(** Unlocking takes away the queues of a limit. *)
Lemma unlock_stops_enforcement_witness :
  size (trees LocalExample.limited) = 1%nat ∧
  Sim.s_table LocalExample.unlocked = None ∧ QdiscSim.d_trees (Sim.host LocalExample.unlocked) = ∅ ∧
  reconcile_saved_with_flow_capability LocalExample.surroundings "gw" "boot" false LocalExample.unlocked = (LocalExample.unlocked, None).
Proof.
  split; [vm_compute; reflexivity|].
  destruct (@unlock_stops_enforcement Sim.World _ _ _ _ _ local_host _ PolicyWire.Example.codec ExecutorExample.digest ExecutorExample.fingerprint
    LocalExample.surroundings (Sim.s_file LocalExample.limited) LocalExample.limited LocalExample.unlocked (Ok tt)) as [Hoff Hkept].
  - reflexivity.
  - vm_compute. reflexivity.
  - vm_compute. reflexivity.
  - destruct (Hoff eq_refl) as (Htab & Htr & Hd & _). split; [exact Htab|]. split; [exact Htr|].
    apply (Hkept Hd LocalExample.surroundings "gw" "boot" ExecutorExample.limit false).
Defined.


(** After an unlock and a resume the block of a client is gone, although the next
    reconciliation reports it as applied: the resume leaves a snapshot with an
    application policy to the reconciliation, which finds the saved state up to
    date and does not look at the table. *)
Example resume_leaves_block_off :
  took_effect (snd LocalExample.blocked) = true ∧ is_Some (Sim.s_table (fst LocalExample.blocked)) ∧
  Sim.s_marker LocalExample.resumed = false ∧ Sim.s_table (fst LocalExample.reconciled) = None ∧
  (took_effect <$> snd LocalExample.reconciled) = Some true.
Proof. vm_compute. split_and!; eauto. Qed.

(** The unlock does not look for a journal: queues of an interrupted first limit
    stay, and it reports success. *)
Example unlock_leaves_interrupted_queues :
  let journal := make_journal None (saved_shaping (Sim.s_file LocalExample.limited)) in
  let interrupted := Sim.mkWorld (QdiscSim.mkWorld (trees LocalExample.limited) (Some (journal_to_vec journal)) []) (Sim.s_table LocalExample.limited) None false in
  let '(w, r) := unlock_command LocalExample.surroundings interrupted in
  r = Ok tt ∧ QdiscSim.d_trees (Sim.host w) = QdiscSim.d_trees (Sim.host LocalExample.limited) ∧
  size (QdiscSim.d_trees (Sim.host LocalExample.limited)) = 1%nat.
Proof. vm_compute. split_and!; reflexivity. Qed.
