(* ===== verification/Contexts.v ===== *)
(** The contexts of recently seen flows in the collector
    (src/crates/collector/src/policy/flow_context.rs): a bounded cache of flow
    deltas with an index by expiry and one by normalized five-tuple, the lookup
    that attaches the result of a packet inspection to its flows, and the queue
    of results that wait for their flow.  An [Instant] is a number of
    nanoseconds. *)

From S2P Require Import Prelude Telemetry.

Definition CAPACITY : Z := 16384.
Definition TTL : Z := 300 * 10 ^ 9.
Definition PENDING_SAMPLE_CAPACITY : Z := 1024.
Definition PENDING_SAMPLE_TTL : Z := 5 * 10 ^ 9.

(** ** Messages *)

Definition LIFECYCLE_ENDED : Z := 3.

Record FlowDelta := mkFlowDelta {
  d_ip_version : Z;
  d_protocol : Z;
  d_client_ip : list Z;
  d_client_port : Z;
  d_remote_ip : list Z;
  d_remote_port : Z;
  d_direction : Z;
  d_upload_bytes : Z;
  d_download_bytes : Z;
  d_packets : Z;
  d_first_seen_unix_ms : Z;
  d_last_seen_unix_ms : Z;
  d_tcp_flags : Z;
  d_lifecycle : Z;
  d_client_mac : list Z;
  d_protocol_hint : string;
  d_scope : Z;
  d_path_type : Z;
  d_nat : Z;
  d_source_segment : string;
  d_destination_segment : string;
  d_policy_flow_id : string;
}.

Definition set_lifecycle (l : Z) (f : FlowDelta) : FlowDelta :=
  mkFlowDelta (d_ip_version f) (d_protocol f) (d_client_ip f) (d_client_port f) (d_remote_ip f) (d_remote_port f) (d_direction f)
    (d_upload_bytes f) (d_download_bytes f) (d_packets f) (d_first_seen_unix_ms f) (d_last_seen_unix_ms f) (d_tcp_flags f) l
    (d_client_mac f) (d_protocol_hint f) (d_scope f) (d_path_type f) (d_nat f) (d_source_segment f) (d_destination_segment f)
    (d_policy_flow_id f).

Definition set_client_mac (m : list Z) (f : FlowDelta) : FlowDelta :=
  mkFlowDelta (d_ip_version f) (d_protocol f) (d_client_ip f) (d_client_port f) (d_remote_ip f) (d_remote_port f) (d_direction f)
    (d_upload_bytes f) (d_download_bytes f) (d_packets f) (d_first_seen_unix_ms f) (d_last_seen_unix_ms f) (d_tcp_flags f) (d_lifecycle f)
    m (d_protocol_hint f) (d_scope f) (d_path_type f) (d_nat f) (d_source_segment f) (d_destination_segment f)
    (d_policy_flow_id f).

(** The part of a telemetry batch that the cache reads. *)
Record FlowBatch := mkFlowBatch { b_gateway_id : string; b_boot_id : string; flows : list FlowDelta }.

(** The result of inspecting the packets of a flow; [analysis] is what was
    found and [c_expires] how long the inspection keeps it, which the cache only
    passes on. *)
Record CachedResult {Analysis : Type} := mkCached {
  c_gateway : string;
  c_boot : string;
  c_key : FlowSampleKey;
  last_packet_ms : Z;
  analysis : Analysis;
  policy_flow_ids : list string;
  c_expires : Z;
}.
#[global] Arguments CachedResult : clear implicits.

(** ** Keys and their order *)

Definition Key : Type := string * string * string.

Record FlowIdentity := mkFlowIdentity {
  gateway : string;
  boot : string;
  i_ip_version : Z;
  i_protocol : Z;
  i_client_ip : list Z;
  i_client_port : Z;
  i_remote_ip : list Z;
  i_remote_port : Z;
}.

Definition identity_tuple (i : FlowIdentity) : string * (string * (Z * (Z * (list Z * (Z * (list Z * Z)))))) :=
  (gateway i, (boot i, (i_ip_version i, (i_protocol i, (i_client_ip i, (i_client_port i, (i_remote_ip i, i_remote_port i))))))).

(** For hashing, a list of components. *)
Definition identity_parts (i : FlowIdentity) : list (string + (Z + list Z)) :=
  [inl (gateway i); inl (boot i); inr (inl (i_ip_version i)); inr (inl (i_protocol i)); inr (inr (i_client_ip i)); inr (inl (i_client_port i));
   inr (inr (i_remote_ip i)); inr (inl (i_remote_port i))].
Definition parts_identity (l : list (string + (Z + list Z))) : FlowIdentity :=
  match l with
  | [inl g; inl b; inr (inl v); inr (inl p); inr (inr ci); inr (inl cp); inr (inr ri); inr (inl rp)] => mkFlowIdentity g b v p ci cp ri rp
  | _ => mkFlowIdentity "" "" 0 0 [] 0 [] 0
  end.

#[export] Instance FlowIdentity_eq_dec : EqDecision FlowIdentity.
Proof. solve_decision. Defined.
#[export] Instance FlowIdentity_countable : Countable FlowIdentity.
Proof. refine (inj_countable' identity_parts parts_identity _). by intros []. Defined.

Definition AnonymousKey : Type := FlowIdentity * Z.

Definition from_flow (g b : string) (f : FlowDelta) : FlowIdentity :=
  mkFlowIdentity g b (d_ip_version f) (d_protocol f) (d_client_ip f) (d_client_port f) (d_remote_ip f) (d_remote_port f).

Definition from_sample {A} (s : CachedResult A) : FlowIdentity :=
  mkFlowIdentity (c_gateway s) (c_boot s) (ip_version (c_key s)) (protocol (c_key s)) (client_ip (c_key s)) (client_port (c_key s))
    (remote_ip (c_key s)) (remote_port (c_key s)).

(** The derived order of vectors, keys and identities is lexicographic. *)
Fixpoint list_leb (l k : list Z) : bool :=
  match l, k with
  | [], _ => true
  | _ :: _, [] => false
  | x :: l, y :: k => if x =? y then list_leb l k else x <? y
  end.

Definition context_key_leb : Key → Key → bool := lex_leb (lex_leb str_leb str_leb) str_leb.
Definition identity_leb (i j : FlowIdentity) : bool :=
  lex_leb str_leb (lex_leb str_leb (lex_leb Z.leb (lex_leb Z.leb (lex_leb list_leb (lex_leb Z.leb (lex_leb list_leb Z.leb))))))
    (identity_tuple i) (identity_tuple j).
Definition anonymous_leb : AnonymousKey → AnonymousKey → bool := lex_leb identity_leb Z.leb.
Definition expiry_leb {K} (leb : K → K → bool) : Z * K → Z * K → bool := lex_leb Z.leb leb.

(** [BTreeSet::first]. *)
Definition btree_first {K} `{Countable K} (leb : K → K → bool) (X : gset K) : option K := head (btree_elements leb X).

(** ** The cache *)

Record FlowContextCache := mkContexts {
  entries : gmap Key (Z * FlowDelta);
  expirations : gset (Z * Key);
  identities : gmap FlowIdentity (gset Key);
  anonymous_entries : gmap AnonymousKey (Z * FlowDelta);
  anonymous_expirations : gset (Z * AnonymousKey);
  anonymous_identities : gmap FlowIdentity (gset AnonymousKey);
  anonymous_ambiguities : gset AnonymousKey;
}.

Definition empty_contexts : FlowContextCache := mkContexts ∅ ∅ ∅ ∅ ∅ ∅ ∅.

Definition cached (c : FlowContextCache) : Z := Z.of_nat (size (entries c)) + Z.of_nat (size (anonymous_entries c)).

(** [entry(i).or_default().insert(k)], and the removal of a key with its set if
    that is left empty. *)
Definition add_to_index {K} `{Countable K} (i : FlowIdentity) (k : K) (m : gmap FlowIdentity (gset K)) : gmap FlowIdentity (gset K) :=
  <[i := {[k]} ∪ default ∅ (m !! i)]> m.
Definition remove_from_index {K} `{Countable K} (i : FlowIdentity) (k : K) (m : gmap FlowIdentity (gset K)) : gmap FlowIdentity (gset K) :=
  match m !! i with
  | Some keys => if bool_decide (keys ∖ {[k]} = ∅) then delete i m else <[i := keys ∖ {[k]}]> m
  | None => m
  end.

Definition remove_identity (i : FlowIdentity) (k : Key) (c : FlowContextCache) : FlowContextCache :=
  mkContexts (entries c) (expirations c) (remove_from_index i k (identities c)) (anonymous_entries c) (anonymous_expirations c)
    (anonymous_identities c) (anonymous_ambiguities c).

Definition set_explicit (e : gmap Key (Z * FlowDelta)) (x : gset (Z * Key)) (c : FlowContextCache) : FlowContextCache :=
  mkContexts e x (identities c) (anonymous_entries c) (anonymous_expirations c) (anonymous_identities c) (anonymous_ambiguities c).

Definition explicit_first (c : FlowContextCache) : option (Z * Key) := btree_first (expiry_leb context_key_leb) (expirations c).
Definition anonymous_first (c : FlowContextCache) : option (Z * AnonymousKey) := btree_first (expiry_leb anonymous_leb) (anonymous_expirations c).

Definition remove_explicit (t : Z) (k : Key) (c : FlowContextCache) : FlowContextCache :=
  let c' := set_explicit (entries c) (expirations c ∖ {[(t, k)]}) c in
  match entries c !! k with
  | Some (_, f) => remove_identity (from_flow (fst (fst k)) (snd (fst k)) f) k (set_explicit (delete k (entries c')) (expirations c') c')
  | None => c'
  end.

Definition remove_anonymous (t : Z) (k : AnonymousKey) (c : FlowContextCache) : FlowContextCache :=
  match anonymous_entries c !! k with
  | Some _ =>
    mkContexts (entries c) (expirations c) (identities c) (delete k (anonymous_entries c)) (anonymous_expirations c ∖ {[(t, k)]})
      (remove_from_index (fst k) k (anonymous_identities c)) (anonymous_ambiguities c ∖ {[k]})
  | None =>
    mkContexts (entries c) (expirations c) (identities c) (anonymous_entries c) (anonymous_expirations c ∖ {[(t, k)]})
      (anonymous_identities c) (anonymous_ambiguities c)
  end.

Definition remove_oldest (c : FlowContextCache) : FlowContextCache :=
  match explicit_first c, anonymous_first c with
  | Some (t, k), None => remove_explicit t k c
  | Some (t, k), Some (t', k') => if t <=? t' then remove_explicit t k c else remove_anonymous t' k' c
  | None, Some (t', k') => remove_anonymous t' k' c
  | None, None => c
  end.

Definition is_expired {K} (first : option (Z * K)) (now : Z) : bool := match first with Some (t, _) => t <=? now | None => false end.

(** The loop ends because every round drops a pair from one of the two sets. *)
Fixpoint expire_loop (fuel : nat) (now : Z) (c : FlowContextCache) : FlowContextCache :=
  match fuel with
  | O => c
  | S fuel => if (is_expired (explicit_first c) now || is_expired (anonymous_first c) now)%bool
              then expire_loop fuel now (remove_oldest c) else c
  end.
Definition expire_contexts (now : Z) (c : FlowContextCache) : FlowContextCache :=
  expire_loop (size (expirations c) + size (anonymous_expirations c)) now c.

Definition make_context_room (c : FlowContextCache) : FlowContextCache := if CAPACITY <=? cached c then remove_oldest c else c.

(** ** Observing flows *)

Definition has_counters (f : FlowDelta) : bool :=
  (negb (d_packets f =? 0) || negb (d_upload_bytes f =? 0) || negb (d_download_bytes f =? 0))%bool.
Definition has_ended (f : FlowDelta) : bool := d_lifecycle f =? LIFECYCLE_ENDED.

Definition end_context : Z * FlowDelta → Z * FlowDelta := λ e, (fst e, set_lifecycle LIFECYCLE_ENDED (snd e)).

(** A known MAC of the client is kept where the new delta has none. *)
Definition inherit_mac (previous f : FlowDelta) : FlowDelta :=
  if ((zlen (d_client_mac previous) =? 6) && negb (zlen (d_client_mac f) =? 6))%bool then set_client_mac (d_client_mac previous) f else f.

Definition context_conflict (previous f : FlowDelta) : bool :=
  ((zlen (d_client_mac previous) =? 6) && (zlen (d_client_mac f) =? 6) && negb (bool_decide (d_client_mac previous = d_client_mac f))
   || negb (d_scope previous =? d_scope f) || negb (d_path_type previous =? d_path_type f) || negb (d_nat previous =? d_nat f))%bool.

Definition observe_anonymous (k : AnonymousKey) (f : FlowDelta) (now : Z) (c : FlowContextCache) : FlowContextCache :=
  let '(c, f) :=
    match anonymous_entries c !! k with
    | Some (t, previous) =>
      let f := inherit_mac previous f in
      (mkContexts (entries c) (expirations c) (identities c) (delete k (anonymous_entries c)) (anonymous_expirations c ∖ {[(t, k)]})
         (anonymous_identities c) (if context_conflict previous f then {[k]} ∪ anonymous_ambiguities c else anonymous_ambiguities c), f)
    | None => (make_context_room c, f)
    end in
  mkContexts (entries c) (expirations c) (identities c) (<[k := (now + TTL, f)]> (anonymous_entries c))
    ({[(now + TTL, k)]} ∪ anonymous_expirations c) (add_to_index (fst k) k (anonymous_identities c)) (anonymous_ambiguities c).

Definition observe_explicit (g b : string) (f : FlowDelta) (now : Z) (c : FlowContextCache) : FlowContextCache :=
  let k : Key := (g, b, d_policy_flow_id f) in
  let c :=
    match entries c !! k with
    | Some (t, previous) =>
      remove_identity (from_flow g b previous) k (set_explicit (delete k (entries c)) (expirations c ∖ {[(t, k)]}) c)
    | None => make_context_room c
    end in
  mkContexts (<[k := (now + TTL, f)]> (entries c)) ({[(now + TTL, k)]} ∪ expirations c) (add_to_index (from_flow g b f) k (identities c))
    (anonymous_entries c) (anonymous_expirations c) (anonymous_identities c) (anonymous_ambiguities c).

Definition end_anonymous (k : AnonymousKey) (c : FlowContextCache) : FlowContextCache :=
  mkContexts (entries c) (expirations c) (identities c) (alter end_context k (anonymous_entries c)) (anonymous_expirations c)
    (anonymous_identities c) (anonymous_ambiguities c).

Definition observe_flow (g b : string) (now : Z) (c : FlowContextCache) (f : FlowDelta) : FlowContextCache :=
  let anonymous_key := (from_flow g b f, d_first_seen_unix_ms f) in
  if str_is_empty (d_policy_flow_id f) then
    if has_counters f then observe_anonymous anonymous_key f now c
    else if has_ended f then end_anonymous anonymous_key c else c
  else if has_counters f then observe_explicit g b f now c
  else if has_ended f then set_explicit (alter end_context ((g, b, d_policy_flow_id f) : Key) (entries c)) (expirations c) c else c.

Definition observe (batch : FlowBatch) (now : Z) (c : FlowContextCache) : FlowContextCache :=
  foldl (observe_flow (b_gateway_id batch) (b_boot_id batch) now) (expire_contexts now c) (flows batch).

(** ** Attaching a result to its flows *)

Definition sample_context_matches {A} (f : FlowDelta) (expires : Z) (s : CachedResult A) (now : Z) : bool :=
  let k := c_key s in
  ((now <? expires) && negb (has_ended f) && (d_ip_version f =? ip_version k) && (d_protocol f =? protocol k)
   && bool_decide (d_client_ip f = client_ip k) && (d_client_port f =? client_port k)
   && bool_decide (d_remote_ip f = remote_ip k) && (d_remote_port f =? remote_port k)
   && (d_first_seen_unix_ms f <=? u64_saturating_add (last_packet_ms s) 1)
   && (first_seen_unix_ms k <=? u64_saturating_add (d_last_seen_unix_ms f) 1))%bool.

(** The flow of an entry that matches the sample. *)
Definition context_of {A} (s : CachedResult A) (now : Z) (e : option (Z * FlowDelta)) : option FlowDelta :=
  '(t, f) ← e; if sample_context_matches f t s now then Some f else None.

Definition exact_contexts {A} (c : FlowContextCache) (s : CachedResult A) (now : Z) : list FlowDelta :=
  omap (λ i, context_of s now (entries c !! (c_gateway s, c_boot s, i))) (policy_flow_ids s).

Definition insert_context {K} (id : K → FlowDelta → string) (get : K → option FlowDelta) (m : gmap string FlowDelta) (k : K) : gmap string FlowDelta :=
  match get k with Some f => <[id k f := f]> m | None => m end.

Definition anonymous_id (k : AnonymousKey) : string := String.append "anonymous:" (dec_text (snd k)).

(** The iteration order of the two hash sets does not matter: the identifiers
    of one identity's keys differ. *)
Definition candidates {A} (c : FlowContextCache) (s : CachedResult A) (now : Z) : gmap string FlowDelta :=
  let i := from_sample s in
  let m := foldl (insert_context (λ _, d_policy_flow_id) Some) ∅ (exact_contexts c s now) in
  let m := foldl (insert_context (λ _, d_policy_flow_id) (λ k, context_of s now (entries c !! k))) m (elements (default ∅ (identities c !! i))) in
  match policy_flow_ids s with
  | [] =>
    foldl (insert_context (λ k _, anonymous_id k)
             (λ k, if bool_decide (k ∈ anonymous_ambiguities c) then None else context_of s now (anonymous_entries c !! k)))
      m (elements (default ∅ (anonymous_identities c !! i)))
  | _ => m
  end.

Definition same_path (f g : FlowDelta) : bool :=
  (bool_decide (d_client_mac f = d_client_mac g) && (d_scope f =? d_scope g) && (d_path_type f =? d_path_type g) && (d_nat f =? d_nat g))%bool.

Definition agreed (l : list FlowDelta) : list FlowDelta :=
  match l with
  | [] => []
  | first :: _ => if (negb (zlen (d_client_mac first) =? 6) || (16 <? zlen l) || existsb (λ f, negb (same_path f first)) l)%bool then [] else l
  end.

Definition matching {A} (c : FlowContextCache) (s : CachedResult A) (now : Z) : list FlowDelta :=
  match policy_flow_ids s, exact_contexts c s now with
  | _ :: _, [] => []
  | _, _ => agreed (snd <$> btree_entries str_leb (candidates c s now))
  end.

(** ** Results that wait for their flow *)

Definition PendingFlowSamples (A : Type) : Type := list (Z * CachedResult A).

Definition expire_pending {A} (now : Z) (p : PendingFlowSamples A) : PendingFlowSamples A := drop_while (λ e, fst e <=? now) p.

Definition defer {A} (s : CachedResult A) (now : Z) (p : PendingFlowSamples A) : PendingFlowSamples A :=
  let p := expire_pending now p in
  (if zlen p =? PENDING_SAMPLE_CAPACITY then tail p else p) ++ [(now + PENDING_SAMPLE_TTL, s)].

Definition is_waiting {A} (c : FlowContextCache) (now : Z) (e : Z * CachedResult A) : bool :=
  match matching c (snd e) now with [] => true | _ => false end.

Definition take_ready {A} (c : FlowContextCache) (now : Z) (p : PendingFlowSamples A) : PendingFlowSamples A * list (CachedResult A) :=
  let p := expire_pending now p in
  (List.filter (is_waiting c now) p, snd <$> List.filter (λ e, negb (is_waiting c now e)) p).

(** * Orders *)

Lemma list_leb_total l k : list_leb l k = false → list_leb k l = true.
Proof.
  revert k. induction l as [|x l IH]; intros [|y k]; cbn; [done..|]. rewrite (Z.eqb_sym y x). destruct (Z.eqb_spec x y); [apply IH|]. lia.
Qed.

#[export] Instance list_order : TotalOrder list_leb.
Proof.
  split.
  - apply list_leb_total.
  - intros a. induction a as [|x a IH]; intros [|y b] [|z c]; cbn; try done.
    destruct (Z.eqb_spec x y), (Z.eqb_spec y z), (Z.eqb_spec x z); subst; try lia; eauto.
  - intros a. induction a as [|x a IH]; intros [|y b]; cbn; try done. rewrite (Z.eqb_sym y x).
    destruct (Z.eqb_spec x y); [|lia]. subst. intros. f_equal. auto.
Qed.

#[export] Instance context_key_order : TotalOrder context_key_leb.
Proof. apply _. Qed.
#[export] Instance identity_order : TotalOrder identity_leb.
Proof. apply (order_by identity_tuple); [|apply _]. intros [] []. unfold identity_tuple. cbn. by intros [= -> -> -> -> -> -> -> ->]. Qed.
#[export] Instance anonymous_order : TotalOrder anonymous_leb.
Proof. apply _. Qed.
#[export] Instance expiry_order {K} (leb : K → K → bool) : TotalOrder leb → TotalOrder (expiry_leb leb).
Proof. intros. apply lex_order; apply _. Qed.

Lemma order_refl {A} (leb : A → A → bool) `{!TotalOrder leb} a : leb a a = true.
Proof. destruct (leb a a) eqn:E; [done|]. pose proof (order_total _ _ E). congruence. Qed.

Section first.
Context {K : Type} `{Countable K} (leb : K → K → bool) `{!TotalOrder leb}.

Lemma btree_first_Some (X : gset K) k : btree_first leb X = Some k → k ∈ X ∧ ∀ k', k' ∈ X → leb k k' = true.
Proof.
  unfold btree_first. intros Hk. pose proof (sort_by_sorted leb order_total order_trans (elements X)) as Hs. fold (btree_elements leb X) in Hs.
  destruct (btree_elements leb X) as [|k0 l] eqn:E; [done|]. injection Hk as <-.
  assert (∀ k', k' ∈ X ↔ k' ∈ k0 :: l) as Hel by (intros; by rewrite <- E, elem_of_btree_elements).
  apply StronglySorted_inv in Hs as [_ Hs]. rewrite Forall_forall in Hs. split; [apply Hel; left|].
  intros k' [->|Hin]%Hel%elem_of_cons; [by apply order_refl|auto].
Qed.

Lemma btree_first_None (X : gset K) : btree_first leb X = None ↔ X = ∅.
Proof.
  unfold btree_first. rewrite head_None. split.
  - intros E. apply set_eq. intros k. rewrite <- (elem_of_btree_elements leb), E. set_solver.
  - intros ->. unfold btree_elements. by rewrite elements_empty.
Qed.
End first.

(** * The indices *)

Section keys.
Context {K : Type} `{Countable K}.

Lemma elem_of_add i (k : K) m j k' : k' ∈ default ∅ (add_to_index i k m !! j) ↔ (j = i ∧ k' = k) ∨ k' ∈ default ∅ (m !! j).
Proof.
  unfold add_to_index. destruct (decide (i = j)) as [->|]; [rewrite lookup_insert_eq|rewrite lookup_insert_ne by done; naive_solver].
  cbn. set_solver.
Qed.

Lemma elem_of_remove i (k : K) m j k' : k' ∈ default ∅ (remove_from_index i k m !! j) ↔ k' ∈ default ∅ (m !! j) ∧ (j = i → k' ≠ k).
Proof.
  unfold remove_from_index. destruct (m !! i) as [keys|] eqn:E.
  - case_bool_decide as Hempty; (destruct (decide (i = j)) as [->|];
      [rewrite ?lookup_delete_eq, ?lookup_insert_eq, E; cbn; set_solver|rewrite ?lookup_delete_ne, ?lookup_insert_ne by done; naive_solver]).
  - split; [|naive_solver]. intros Hk. split; [done|]. intros ->. rewrite E in Hk. set_solver.
Qed.

Lemma add_nonempty i (k : K) m : (∀ j, m !! j ≠ Some ∅) → ∀ j, add_to_index i k m !! j ≠ Some ∅.
Proof.
  intros Hm j. unfold add_to_index. destruct (decide (i = j)) as [->|]; [rewrite lookup_insert_eq|by rewrite lookup_insert_ne].
  intros [= E]. set_solver.
Qed.

Lemma remove_nonempty i (k : K) m : (∀ j, m !! j ≠ Some ∅) → ∀ j, remove_from_index i k m !! j ≠ Some ∅.
Proof.
  intros Hm j. unfold remove_from_index. destruct (m !! i) as [keys|]; [|done]. case_bool_decide; (destruct (decide (i = j)) as [->|];
    [rewrite ?lookup_delete_eq, ?lookup_insert_eq; congruence|rewrite ?lookup_delete_ne, ?lookup_insert_ne by done; done]).
Qed.

End keys.

(** The expiry index holds exactly the expiry of each entry, and the identity
    index exactly the keys of each identity, without empty sets. *)
Section index.
Context {K V : Type} `{Countable K} (ident : K → V → FlowIdentity).

Record index_ok (e : gmap K (Z * V)) (x : gset (Z * K)) (m : gmap FlowIdentity (gset K)) : Prop := mkIndexOk {
  ix_expiry : ∀ t k, (t, k) ∈ x ↔ ∃ f, e !! k = Some (t, f);
  ix_identity : ∀ i k, k ∈ default ∅ (m !! i) ↔ ∃ t f, e !! k = Some (t, f) ∧ ident k f = i;
  ix_nonempty : ∀ i, m !! i ≠ Some ∅;
}.

Lemma index_empty : index_ok ∅ ∅ ∅.
Proof. split; [set_solver| |done]. intros i k. rewrite lookup_empty. cbn. split; [set_solver|]. by intros (? & ? & ? & _). Qed.

Lemma index_delete e x m k t f : index_ok e x m → e !! k = Some (t, f) →
  index_ok (delete k e) (x ∖ {[(t, k)]}) (remove_from_index (ident k f) k m).
Proof.
  intros [Hx Hi Hn] Hk. split; [| |by apply remove_nonempty].
  - intros t' k'. rewrite elem_of_difference, Hx, elem_of_singleton. destruct (decide (k = k')) as [->|Hne].
    + rewrite lookup_delete_eq, Hk. naive_solver.
    + rewrite lookup_delete_ne by done. naive_solver.
  - intros i k'. rewrite elem_of_remove, Hi. destruct (decide (k = k')) as [->|Hne].
    + rewrite lookup_delete_eq, Hk. naive_solver.
    + rewrite lookup_delete_ne by done. naive_solver.
Qed.

Lemma index_insert e x m k t f : index_ok e x m → e !! k = None →
  index_ok (<[k := (t, f)]> e) ({[(t, k)]} ∪ x) (add_to_index (ident k f) k m).
Proof.
  intros [Hx Hi Hn] Hk. split; [| |by apply add_nonempty].
  - intros t' k'. rewrite elem_of_union, Hx, elem_of_singleton. destruct (decide (k = k')) as [->|Hne].
    + rewrite lookup_insert_eq, Hk. naive_solver.
    + rewrite lookup_insert_ne by done. naive_solver.
  - intros i k'. rewrite elem_of_add, Hi. destruct (decide (k = k')) as [->|Hne].
    + rewrite lookup_insert_eq, Hk. naive_solver.
    + rewrite lookup_insert_ne by done. naive_solver.
Qed.

(** An entry may be replaced by one with the same identity. *)
Lemma index_replace e x m k t f t' f' : index_ok e x m → e !! k = Some (t, f) → ident k f' = ident k f →
  index_ok (<[k := (t', f')]> (delete k e)) ({[(t', k)]} ∪ x ∖ {[(t, k)]}) (add_to_index (ident k f') k m).
Proof.
  intros [Hx Hi Hn] Hk Hid. split; [| |by apply add_nonempty].
  - intros t0 k'. rewrite elem_of_union, elem_of_difference, Hx, !elem_of_singleton. destruct (decide (k = k')) as [->|Hne].
    + rewrite lookup_insert_eq, Hk. naive_solver.
    + rewrite lookup_insert_ne, lookup_delete_ne by done. naive_solver.
  - intros i k'. rewrite elem_of_add, Hi. destruct (decide (k = k')) as [->|Hne].
    + rewrite lookup_insert_eq, Hk, Hid. naive_solver.
    + rewrite lookup_insert_ne, lookup_delete_ne by done. naive_solver.
Qed.

Lemma index_no_expiry e x m : index_ok e x m → x = ∅ → e = ∅.
Proof.
  intros [Hx _ _] ->. apply map_empty. intros k. destruct (e !! k) as [[t f]|] eqn:E; [|done].
  exfalso. assert ((t, k) ∈ (∅ : gset (Z * K))) by (apply Hx; eauto). set_solver.
Qed.
End index.

Lemma index_end {K} `{Countable K} ident (e : gmap K (Z * FlowDelta)) x m k : (∀ k f, ident k (set_lifecycle LIFECYCLE_ENDED f) = ident k f) → index_ok ident e x m → index_ok ident (alter end_context k e) x m.
Proof.
  intros Hid [Hx Hi Hn]. split; [| |done].
  - intros t k'. rewrite Hx. destruct (decide (k = k')) as [->|Hne]; [|by rewrite lookup_alter_ne].
    rewrite lookup_alter_eq. destruct (e !! k') as [[t' f']|]; [|done]. split; intros [g [= <- _]]; by eexists.
  - intros i k'. rewrite Hi. destruct (decide (k = k')) as [->|Hne]; [|by rewrite lookup_alter_ne].
    rewrite lookup_alter_eq. destruct (e !! k') as [[t' f']|]; [|done].
    split; intros (t0 & g & [= <- <-] & <-); (do 2 eexists; split; [reflexivity|]); [apply Hid|symmetry; apply Hid].
Qed.

(** * The invariant of the cache *)

Definition explicit_identity (k : Key) (f : FlowDelta) : FlowIdentity := from_flow (fst (fst k)) (snd (fst k)) f.
Definition anonymous_identity (k : AnonymousKey) (f : FlowDelta) : FlowIdentity := fst k.

(** Every entry is a delta with traffic, stored under its own name. *)
Definition explicit_entry (k : Key) (e : Z * FlowDelta) : Prop :=
  d_policy_flow_id (snd e) = snd k ∧ snd k ≠ "" ∧ has_counters (snd e) = true.
Definition anonymous_entry (k : AnonymousKey) (e : Z * FlowDelta) : Prop :=
  k = (from_flow (gateway (fst k)) (boot (fst k)) (snd e), d_first_seen_unix_ms (snd e)) ∧ d_policy_flow_id (snd e) = "" ∧
  has_counters (snd e) = true.

Record contexts_ok (c : FlowContextCache) : Prop := mkContextsOk {
  ok_explicit : index_ok explicit_identity (entries c) (expirations c) (identities c);
  ok_anonymous : index_ok anonymous_identity (anonymous_entries c) (anonymous_expirations c) (anonymous_identities c);
  ok_ambiguities : anonymous_ambiguities c ⊆ dom (anonymous_entries c);
  ok_entries : map_Forall explicit_entry (entries c);
  ok_anonymous_entries : map_Forall anonymous_entry (anonymous_entries c);
}.

(** The expiry of a context of the cache, and of one that is gone. *)
Definition present (c : FlowContextCache) (t : Z) : Prop :=
  (∃ k f, entries c !! k = Some (t, f)) ∨ (∃ k f, anonymous_entries c !! k = Some (t, f)).
Definition lost (c c' : FlowContextCache) (t : Z) : Prop :=
  (∃ k f, entries c !! k = Some (t, f) ∧ entries c' !! k = None) ∨
  (∃ k f, anonymous_entries c !! k = Some (t, f) ∧ anonymous_entries c' !! k = None).

(** A smaller cache. *)
Definition narrowed (c c' : FlowContextCache) : Prop := entries c' ⊆ entries c ∧ anonymous_entries c' ⊆ anonymous_entries c.

Lemma index_first {K V} `{Countable K} (ident : K → V → FlowIdentity) (leb : K → K → bool) `{!TotalOrder leb} e x m t k : index_ok ident e x m →
  btree_first (expiry_leb leb) x = Some (t, k) → (∃ f, e !! k = Some (t, f)) ∧ ∀ t' k' f', e !! k' = Some (t', f') → t ≤ t'.
Proof.
  intros Hix [Hin Hmin]%btree_first_Some; [|apply _]. split; [by apply (ix_expiry _ _ _ _ Hix)|]. intros t' k' f' Hk'.
  assert (expiry_leb leb (t, k) (t', k') = true) as Hle by (apply Hmin, (ix_expiry _ _ _ _ Hix); eauto).
  unfold expiry_leb, lex_leb in Hle. cbn [fst snd] in Hle. case_bool_decide; [lia|]. by apply Z.leb_le.
Qed.

Lemma index_first_None {K V} `{Countable K} (ident : K → V → FlowIdentity) (leb : K → K → bool) `{!TotalOrder leb} e x m : index_ok ident e x m →
  btree_first (expiry_leb leb) x = None → e = ∅.
Proof. intros Hix Hn. eapply index_no_expiry; [exact Hix|]. by apply (btree_first_None (expiry_leb leb)). Qed.

Lemma map_Forall_sub {K A} `{Countable K} (P : K → A → Prop) (m m' : gmap K A) : m' ⊆ m → map_Forall P m → map_Forall P m'.
Proof. intros Hsub Hm k a Ha. eapply Hm, lookup_weaken; eassumption. Qed.

Lemma size_delete_present {K A} `{Countable K} (m : gmap K A) k a : m !! k = Some a → Z.of_nat (size (delete k m)) = Z.of_nat (size m) - 1.
Proof.
  intros Hk. rewrite map_size_delete_Some by eauto. assert (size m ≠ 0%nat); [|lia]. rewrite map_size_ne_0_lookup. eauto.
Qed.

(** What removing one of the oldest contexts does. *)
Record removal (c c' : FlowContextCache) : Prop := mkRemoval {
  rm_ok : contexts_ok c';
  rm_narrowed : narrowed c c';
  rm_cached : cached c' = cached c - 1;
  rm_expirations : (size (expirations c') + size (anonymous_expirations c') < size (expirations c) + size (anonymous_expirations c))%nat;
  rm_oldest : ∀ t t', lost c c' t → present c t' → t ≤ t';
}.

Lemma remove_explicit_removal c t k : contexts_ok c → explicit_first c = Some (t, k) →
  (∀ t' k' f', anonymous_entries c !! k' = Some (t', f') → t ≤ t') → removal c (remove_explicit t k c).
Proof.
  intros Hok Hf Hmin. destruct (index_first explicit_identity context_key_leb _ _ _ _ _ (ok_explicit _ Hok) Hf) as [[f Hk] Hfirst].
  destruct (btree_first_Some _ _ _ Hf) as [Hin _]. unfold remove_explicit. rewrite Hk. unfold remove_identity, set_explicit. destruct Hok as [He Ha Hamb Hent Hanon].
  split; cbn [entries expirations identities anonymous_entries anonymous_expirations anonymous_identities anonymous_ambiguities].
  - split; [by apply (index_delete explicit_identity)|done|done| |done]. eapply map_Forall_sub; [apply delete_subseteq|done].
  - split; [apply delete_subseteq|done].
  - unfold cached. cbn [entries anonymous_entries]. pose proof (size_delete_present _ _ _ Hk). lia.
  - rewrite size_difference by set_solver. rewrite size_singleton. assert (size (expirations c) ≠ 0%nat); [|lia].
    apply size_non_empty_iff. set_solver.
  - intros t0 t' [(k0 & f0 & Hk0 & Hn)|(k0 & f0 & Hk0 & Hn)] Hp; [|cbn in Hn; congruence]. cbn [entries] in Hn.
    destruct (decide (k0 = k)) as [->|]; [|rewrite lookup_delete_ne in Hn by done; congruence]. rewrite Hk in Hk0. injection Hk0 as <- <-.
    destruct Hp as [(k' & f' & Hk')|(k' & f' & Hk')]; eauto.
Qed.

Lemma remove_anonymous_removal c t k : contexts_ok c → anonymous_first c = Some (t, k) →
  (∀ t' k' f', entries c !! k' = Some (t', f') → t ≤ t') → removal c (remove_anonymous t k c).
Proof.
  intros Hok Hf Hmin. destruct (index_first anonymous_identity anonymous_leb _ _ _ _ _ (ok_anonymous _ Hok) Hf) as [[f Hk] Hfirst].
  destruct (btree_first_Some _ _ _ Hf) as [Hin _]. unfold remove_anonymous. rewrite Hk. destruct Hok as [He Ha Hamb Hent Hanon].
  split; cbn [entries expirations identities anonymous_entries anonymous_expirations anonymous_identities anonymous_ambiguities].
  - split; [done|by apply (index_delete anonymous_identity _ _ _ _ _ f)| |done|].
    + cbn [anonymous_entries anonymous_ambiguities]. rewrite dom_delete_L. set_solver.
    + eapply map_Forall_sub; [apply delete_subseteq|done].
  - split; [done|apply delete_subseteq].
  - unfold cached. cbn [entries anonymous_entries]. pose proof (size_delete_present _ _ _ Hk). lia.
  - rewrite size_difference by set_solver. rewrite size_singleton. assert (size (anonymous_expirations c) ≠ 0%nat); [|lia].
    apply size_non_empty_iff. set_solver.
  - intros t0 t' [(k0 & f0 & Hk0 & Hn)|(k0 & f0 & Hk0 & Hn)] Hp; [cbn in Hn; congruence|]. cbn [anonymous_entries] in Hn.
    destruct (decide (k0 = k)) as [->|]; [|rewrite lookup_delete_ne in Hn by done; congruence]. rewrite Hk in Hk0. injection Hk0 as <- <-.
    destruct Hp as [(k' & f' & Hk')|(k' & f' & Hk')]; eauto.
Qed.

(** Unless the cache is empty, one of the contexts that expire first goes. *)
Lemma remove_oldest_removal c : contexts_ok c → 0 < cached c → removal c (remove_oldest c).
Proof.
  intros Hok Hpos. unfold remove_oldest. destruct (explicit_first c) as [[t k]|] eqn:He, (anonymous_first c) as [[t' k']|] eqn:Ha.
  - destruct (index_first explicit_identity context_key_leb _ _ _ _ _ (ok_explicit _ Hok) He) as [_ Hmin].
    destruct (index_first anonymous_identity anonymous_leb _ _ _ _ _ (ok_anonymous _ Hok) Ha) as [_ Hmin'].
    destruct (Z.leb_spec t t'); [apply remove_explicit_removal|apply remove_anonymous_removal]; try done.
    + intros t0 k0 f0 H0. specialize (Hmin' _ _ _ H0). lia.
    + intros t0 k0 f0 H0. specialize (Hmin _ _ _ H0). lia.
  - apply remove_explicit_removal; [done..|]. rewrite (index_first_None anonymous_identity anonymous_leb _ _ _ (ok_anonymous _ Hok) Ha). set_solver.
  - apply remove_anonymous_removal; [done..|]. rewrite (index_first_None explicit_identity context_key_leb _ _ _ (ok_explicit _ Hok) He). set_solver.
  - exfalso. unfold cached in Hpos. rewrite (index_first_None anonymous_identity anonymous_leb _ _ _ (ok_anonymous _ Hok) Ha),
      (index_first_None explicit_identity context_key_leb _ _ _ (ok_explicit _ Hok) He) in Hpos. by rewrite !map_size_empty in Hpos.
Qed.

(** ** Expiry *)

Lemma first_expired {K V} `{Countable K} (ident : K → V → FlowIdentity) (leb : K → K → bool) `{!TotalOrder leb} e x m now : index_ok ident e x m →
  is_expired (btree_first (expiry_leb leb) x) now = true ↔ ∃ t k f, e !! k = Some (t, f) ∧ t ≤ now.
Proof.
  intros Hix. unfold is_expired. destruct (btree_first (expiry_leb leb) x) as [[t k]|] eqn:E.
  - destruct (index_first ident leb _ _ _ _ _ Hix E) as [[f Hk] Hmin]. rewrite Z.leb_le. split; [eauto 6|].
    intros (t' & k' & f' & Hk' & Hle). specialize (Hmin _ _ _ Hk'). lia.
  - rewrite (index_first_None ident leb _ _ _ Hix E). split; [done|]. by intros (? & ? & ? & ? & _).
Qed.

Lemma loop_condition c now : contexts_ok c →
  (is_expired (explicit_first c) now || is_expired (anonymous_first c) now)%bool = true ↔ ∃ t, present c t ∧ t ≤ now.
Proof.
  intros Hok. unfold explicit_first, anonymous_first. rewrite orb_true_iff, (first_expired explicit_identity context_key_leb _ _ _ now (ok_explicit _ Hok)),
    (first_expired anonymous_identity anonymous_leb _ _ _ now (ok_anonymous _ Hok)). unfold present. naive_solver.
Qed.

Lemma present_cached c t : present c t → 0 < cached c.
Proof.
  unfold cached. intros [(k & f & Hk)|(k & f & Hk)]; [assert (size (entries c) ≠ 0%nat)|assert (size (anonymous_entries c) ≠ 0%nat)];
    try lia; rewrite map_size_ne_0_lookup; eauto.
Qed.

Lemma present_expirations c t : contexts_ok c → present c t → (0 < size (expirations c) + size (anonymous_expirations c))%nat.
Proof.
  intros Hok [(k & f & Hk)|(k & f & Hk)].
  - assert (size (expirations c) ≠ 0%nat); [|lia]. apply size_non_empty_iff. intros E%leibniz_equiv%(index_no_expiry _ _ _ _ (ok_explicit _ Hok)). by rewrite E in Hk.
  - assert (size (anonymous_expirations c) ≠ 0%nat); [|lia]. apply size_non_empty_iff. intros E%leibniz_equiv%(index_no_expiry _ _ _ _ (ok_anonymous _ Hok)). by rewrite E in Hk.
Qed.

Lemma narrowed_trans c1 c2 c3 : narrowed c1 c2 → narrowed c2 c3 → narrowed c1 c3.
Proof. intros [] []. split; by etrans. Qed.

Lemma lost_split c1 c2 c3 t : narrowed c1 c2 → lost c1 c3 t → lost c1 c2 t ∨ lost c2 c3 t.
Proof.
  intros [He Ha] [(k & f & Hk & Hn)|(k & f & Hk & Hn)].
  - destruct (entries c2 !! k) as [e|] eqn:E; [|left; left; eauto]. pose proof (lookup_weaken _ _ _ _ E He) as Hk'. rewrite Hk in Hk'. injection Hk' as <-.
    right. left. eauto.
  - destruct (anonymous_entries c2 !! k) as [e|] eqn:E; [|left; right; eauto]. pose proof (lookup_weaken _ _ _ _ E Ha) as Hk'. rewrite Hk in Hk'. injection Hk' as <-.
    right. right. eauto.
Qed.

(** With as much fuel as there are pairs the loop ends by itself: nothing
    expired is left, and nothing else is gone. *)
Lemma expire_loop_spec now fuel c : contexts_ok c → (size (expirations c) + size (anonymous_expirations c) ≤ fuel)%nat →
  let c' := expire_loop fuel now c in
  contexts_ok c' ∧ narrowed c c' ∧ (∀ t, lost c c' t → t ≤ now) ∧ (∀ t, present c' t → now < t).
Proof.
  revert c. induction fuel as [|fuel IH]; intros c Hok Hfuel; cbn [expire_loop].
  - split_and!; [done|done| |].
    + intros t [(? & ? & ? & ?)|(? & ? & ? & ?)]; congruence.
    + intros t Hp. pose proof (present_expirations c t Hok Hp). lia.
  - destruct (_ || _)%bool eqn:Hexp.
    + pose proof (proj1 (loop_condition c now Hok) Hexp) as (t0 & Hp0 & Ht0).
      destruct (remove_oldest_removal c Hok (present_cached _ _ Hp0)) as [Hok' Hn _ Hsz Hold].
      destruct (IH (remove_oldest c) Hok') as (Hok2 & Hn2 & Hl2 & Hp2); [lia|]. split_and!; [done|by eapply narrowed_trans| |done].
      intros t [Hl|Hl]%(lost_split _ (remove_oldest c)); [specialize (Hold t t0 Hl Hp0); lia|auto|done].
    + split_and!; [done|done| |].
      * intros t [(? & ? & ? & ?)|(? & ? & ? & ?)]; congruence.
      * intros t Hp. destruct (Z.lt_ge_cases now t); [done|]. exfalso. assert (∃ t, present c t ∧ t ≤ now) as Hc%loop_condition by eauto; [congruence|done].
Qed.

Definition unexpired {K V} `{Countable K} (now : Z) (m : gmap K (Z * V)) : gmap K (Z * V) := filter (λ p, now < fst (snd p)) m.

Lemma unexpired_unique {K V} `{Countable K} now (m m' : gmap K (Z * V)) : m' ⊆ m →
  (∀ k t f, m !! k = Some (t, f) → m' !! k = None → t ≤ now) → (∀ k t f, m' !! k = Some (t, f) → now < t) → m' = unexpired now m.
Proof.
  intros Hsub Hl Hp. apply map_eq. intros k. unfold unexpired. rewrite map_lookup_filter. destruct (m' !! k) as [[t f]|] eqn:E.
  - rewrite (lookup_weaken _ _ _ _ E Hsub). cbn. rewrite option_guard_True; [done|]. cbn. eauto.
  - destruct (m !! k) as [[t f]|] eqn:E'; [|done]. cbn. rewrite option_guard_False; [done|]. cbn. specialize (Hl _ _ _ E' E). lia.
Qed.

Lemma expire_contexts_spec now c : contexts_ok c → let c' := expire_contexts now c in
  contexts_ok c' ∧ entries c' = unexpired now (entries c) ∧ anonymous_entries c' = unexpired now (anonymous_entries c).
Proof.
  intros Hok c'. destruct (expire_loop_spec now (size (expirations c) + size (anonymous_expirations c)) c Hok) as (Hok' & [He Ha] & Hl & Hp); [lia|].
  fold (expire_contexts now c) in Hok', He, Ha, Hl, Hp. fold c' in Hok', He, Ha, Hl, Hp. split_and!; [done|apply unexpired_unique..]; try done.
  - intros k t f Hk Hn. apply Hl. left. eauto.
  - intros k t f Hk. apply Hp. left. eauto.
  - intros k t f Hk Hn. apply Hl. right. eauto.
  - intros k t f Hk. apply Hp. right. eauto.
Qed.

(** ** Room for one more *)

Lemma make_context_room_spec c : contexts_ok c → cached c ≤ CAPACITY → let c' := make_context_room c in
  contexts_ok c' ∧ narrowed c c' ∧ cached c' < CAPACITY ∧ (cached c < CAPACITY → c' = c) ∧ cached c ≤ cached c' + 1 ∧ ∀ t t', lost c c' t → present c t' → t ≤ t'.
Proof.
  intros Hok Hcap. unfold make_context_room. destruct (Z.leb_spec CAPACITY (cached c)) as [Hle|Hlt].
  - destruct (remove_oldest_removal c Hok) as [Hok' Hn Hs _ Hold]; [unfold CAPACITY in *; lia|]. split_and!; [done|done|lia|lia|lia|done].
  - cbn zeta. split_and!; [done|done|lia|done|lia|]. intros t t' [(? & ? & ? & ?)|(? & ? & ? & ?)]; congruence.
Qed.

(** ** Observing one flow *)

(** What the named contexts would be in a cache that forgets nothing. *)
Definition log_flow (g b : string) (now : Z) (m : gmap Key (Z * FlowDelta)) (f : FlowDelta) : gmap Key (Z * FlowDelta) :=
  let k : Key := (g, b, d_policy_flow_id f) in
  if str_is_empty (d_policy_flow_id f) then m
  else if has_counters f then <[k := (now + TTL, f)]> m
  else if has_ended f then alter end_context k m else m.

(** What one observation does to the cache. *)
Record observation (g b : string) (now : Z) (f : FlowDelta) (c c' : FlowContextCache) : Prop := mkObservation {
  ob_ok : contexts_ok c';
  ob_capacity : cached c' ≤ CAPACITY;
  ob_growth : cached c' ≤ cached c + 1;
  ob_logged : entries c' ⊆ log_flow g b now (entries c) f;
  ob_exact : cached c < CAPACITY → entries c' = log_flow g b now (entries c) f;
  ob_expiry : ∀ t, present c' t → present c t ∨ t = now + TTL;
  ob_mono : cached c ≤ cached c';
  ob_new : ∀ k, is_Some (log_flow g b now ∅ f !! k) → is_Some (entries c' !! k);
  ob_lost : ∀ k t f0, entries c !! k = Some (t, f0) → entries c' !! k = None → cached c' = CAPACITY ∧ ∀ t', present c t' → t ≤ t';
}.

Lemma insert_explicit_ok g b f now c (k : Key) : k = (g, b, d_policy_flow_id f) → contexts_ok c → entries c !! k = None → cached c < CAPACITY →
  d_policy_flow_id f ≠ "" → has_counters f = true →
  let c' := mkContexts (<[k := (now + TTL, f)]> (entries c)) ({[(now + TTL, k)]} ∪ expirations c) (add_to_index (from_flow g b f) k (identities c))
              (anonymous_entries c) (anonymous_expirations c) (anonymous_identities c) (anonymous_ambiguities c) in
  contexts_ok c' ∧ cached c' = cached c + 1.
Proof.
  intros Hkey [He Ha Hamb Hent Hanon] Hk Hcap Hid Hc. split.
  - split; [subst k; by apply (index_insert explicit_identity)|done|done| |done]. apply map_Forall_insert_2; [|done]. by subst k.
  - unfold cached. cbn [entries anonymous_entries]. rewrite map_size_insert_None by done. lia.
Qed.

Lemma present_insert_explicit c x i ae ax ai am k now f t :
  present (mkContexts (<[k := (now + TTL, f)]> (entries c)) x i ae ax ai am) t → ae ⊆ anonymous_entries c →
  present c t ∨ t = now + TTL.
Proof.
  intros [(k' & f' & Hk')|(k' & f' & Hk')] Hsub; cbn in Hk'.
  - destruct (decide (k = k')) as [->|]; [rewrite lookup_insert_eq in Hk'; right; congruence|].
    rewrite lookup_insert_ne in Hk' by done. left. left. eauto.
  - left. right. do 2 eexists. by eapply lookup_weaken.
Qed.

Lemma observe_explicit_observation g b f now c : contexts_ok c → cached c ≤ CAPACITY → d_policy_flow_id f ≠ "" → has_counters f = true →
  observation g b now f c (observe_explicit g b f now c).
Proof.
  intros Hok Hcap Hid Hc. unfold observe_explicit. set (k := (g, b, d_policy_flow_id f) : Key).
  assert (log_flow g b now (entries c) f = <[k := (now + TTL, f)]> (entries c)) as Hlog.
  { unfold log_flow. destruct (str_is_empty _) eqn:E; [by apply str_is_empty_spec in E|]. by rewrite Hc. }
  assert (∀ (e : gmap Key (Z * FlowDelta)) k', is_Some (log_flow g b now ∅ f !! k') → is_Some (<[k := (now + TTL, f)]> e !! k')) as Hnewest.
  { intros e k'. unfold log_flow. destruct (str_is_empty _) eqn:E; [by apply str_is_empty_spec in E|]. rewrite Hc. fold k.
    destruct (decide (k = k')) as [<-|]; [by rewrite !lookup_insert_eq|]. rewrite lookup_insert_ne by done. by intros []. }
  destruct (entries c !! k) as [[t previous]|] eqn:Hk.
  - set (c1 := remove_identity _ _ _). assert (contexts_ok c1) as Hok1.
    { destruct Hok as [He Ha Hamb Hent Hanon]. split; [by apply (index_delete explicit_identity)|done|done| |done].
      eapply map_Forall_sub; [apply delete_subseteq|done]. }
    assert (cached c1 = cached c - 1) as Hs1.
    { unfold cached. change (entries c1) with (delete k (entries c)). pose proof (size_delete_present _ _ _ Hk).
      change (anonymous_entries c1) with (anonymous_entries c). lia. }
    destruct (insert_explicit_ok g b f now c1 k) as [Hok' Hs']; [done|done|apply lookup_delete_eq|lia|done|done|].
    assert (entries c1 = delete k (entries c)) as Hd by done. cbv zeta in Hok', Hs'.
    split; [done|rewrite Hs'; lia|rewrite Hs'; lia| | | |rewrite Hs'; lia| |]; cbn [entries]; rewrite ?Hd, ?insert_delete_eq, ?Hlog; [done|done| |by apply Hnewest|].
    + intros t' Hp. eapply present_insert_explicit; [exact Hp|done].
    + intros k' t' f' Hk' Hn. destruct (decide (k = k')) as [<-|]; [by rewrite lookup_insert_eq in Hn|rewrite lookup_insert_ne in Hn by done; congruence].
  - destruct (make_context_room_spec c Hok Hcap) as (Hok1 & [Hn1 Hn2] & Hs1 & Hsame & Hleast & Hold).
    destruct (insert_explicit_ok g b f now (make_context_room c) k) as [Hok' Hs']; [done|done| |lia|done|done|].
    { destruct (entries (make_context_room c) !! k) as [e|] eqn:E; [|done]. pose proof (lookup_weaken _ _ _ _ E Hn1). congruence. }
    cbv zeta in Hok', Hs'. split; [done|rewrite Hs'; lia| | | | |rewrite Hs'; lia| |].
    + rewrite Hs'. destruct (Z.lt_ge_cases (cached c) CAPACITY); [|lia]. rewrite Hsame by done. lia.
    + cbn [entries]. rewrite Hlog. by apply insert_mono.
    + cbn [entries]. rewrite Hlog. intros Hlt. by rewrite Hsame.
    + intros t' [Hp|Hp]%(present_insert_explicit (make_context_room c)); [left|by right|done].
      destruct Hp as [(k' & f' & Hk')|(k' & f' & Hk')]; [left|right]; do 2 eexists; by eapply lookup_weaken.
    + cbn [entries]. by apply Hnewest.
    + cbn [entries]. intros k' t' f' Hk' Hn. destruct (decide (k = k')) as [<-|]; [by rewrite lookup_insert_eq in Hn|]. rewrite lookup_insert_ne in Hn by done.
      assert (lost c (make_context_room c) t') as Hl by (left; eauto). split; [|intros t2 H2; by eapply Hold]. rewrite Hs'.
      destruct (Z.lt_ge_cases (cached c) CAPACITY) as [Hlt|]; [rewrite Hsame in Hn by done; congruence|]. lia.
Qed.

Lemma log_flow_anonymous g b now m f : d_policy_flow_id f = "" → log_flow g b now m f = m.
Proof. unfold log_flow. by intros ->. Qed.

Lemma inherit_mac_same previous f : from_flow "" "" (inherit_mac previous f) = from_flow "" "" f ∧
  d_first_seen_unix_ms (inherit_mac previous f) = d_first_seen_unix_ms f ∧ d_policy_flow_id (inherit_mac previous f) = d_policy_flow_id f ∧
  has_counters (inherit_mac previous f) = has_counters f.
Proof. unfold inherit_mac. by destruct (_ && _)%bool. Qed.

Lemma from_flow_same g b f f' : from_flow "" "" f = from_flow "" "" f' → from_flow g b f = from_flow g b f'.
Proof. unfold from_flow. by intros [= -> -> -> -> -> ->]. Qed.

Lemma anonymous_entry_own g b t f f' : from_flow "" "" f = from_flow "" "" f' → d_first_seen_unix_ms f = d_first_seen_unix_ms f' →
  d_policy_flow_id f = "" → has_counters f = true → anonymous_entry (from_flow g b f', d_first_seen_unix_ms f') (t, f).
Proof. intros Hid Hfirst Hp Hc. unfold anonymous_entry. cbn [fst snd gateway boot from_flow]. rewrite <- Hfirst, <- (from_flow_same g b _ _ Hid). done. Qed.

Lemma present_insert_anonymous c e x i ax ai am k now f t :
  present (mkContexts e x i (<[k := (now + TTL, f)]> (anonymous_entries c)) ax ai am) t → e ⊆ entries c → present c t ∨ t = now + TTL.
Proof.
  intros [(k' & f' & Hk')|(k' & f' & Hk')] Hsub; cbn in Hk'.
  - left. left. do 2 eexists. by eapply lookup_weaken.
  - destruct (decide (k = k')) as [->|]; [rewrite lookup_insert_eq in Hk'; right; congruence|].
    rewrite lookup_insert_ne in Hk' by done. left. right. eauto.
Qed.

Lemma observe_anonymous_observation g b f now c : contexts_ok c → cached c ≤ CAPACITY → d_policy_flow_id f = "" → has_counters f = true →
  observation g b now f c (observe_anonymous (from_flow g b f, d_first_seen_unix_ms f) f now c).
Proof.
  intros Hok Hcap Hid Hc. unfold observe_anonymous. set (k := (from_flow g b f, d_first_seen_unix_ms f) : AnonymousKey).
  destruct (anonymous_entries c !! k) as [[t previous]|] eqn:Hk.
  - destruct (inherit_mac_same previous f) as (Hff & Hfirst & Hpid & Hcnt). set (f' := inherit_mac previous f) in *.
    pose proof (size_delete_present _ _ _ Hk) as Hs. destruct Hok as [He Ha Hamb Hent Hanon].
    split; rewrite ?(log_flow_anonymous _ _ _ _ _ Hid); unfold cached;
      cbn [entries expirations identities anonymous_entries anonymous_expirations anonymous_identities anonymous_ambiguities];
      rewrite ?map_size_insert_None by apply lookup_delete_eq; try (unfold cached in Hcap; lia); try done.
    + split; [done|by apply (index_replace anonymous_identity _ _ _ _ _ previous)| |done|].
      * cbn [anonymous_entries anonymous_ambiguities]. rewrite dom_insert_L, dom_delete_L. apply elem_of_dom_2 in Hk as Hd.
        destruct (context_conflict _ _); intros k'; specialize (Hamb k'); destruct (decide (k' = k)) as [->|]; set_solver.
      * apply map_Forall_insert_2; [apply anonymous_entry_own; congruence|]. eapply map_Forall_sub; [apply delete_subseteq|done].
    + rewrite insert_delete_eq. intros t' Hp. by eapply present_insert_anonymous in Hp.
    + by intros k' [].
    + intros k' t' f0 Hk' Hn. congruence.
  - destruct (make_context_room_spec c Hok Hcap) as (Hok1 & [Hn1 Hn2] & Hs1 & Hsame & Hleast & Hold).
    assert (anonymous_entries (make_context_room c) !! k = None) as Hk1.
    { destruct (anonymous_entries (make_context_room c) !! k) as [e|] eqn:E; [|done]. pose proof (lookup_weaken _ _ _ _ E Hn2). congruence. }
    assert (cached (make_context_room c) ≤ cached c) as Hs2 by (destruct (Z.lt_ge_cases (cached c) CAPACITY); [rewrite Hsame by done|]; lia).
    destruct Hok1 as [He Ha Hamb Hent Hanon].
    split; rewrite ?(log_flow_anonymous _ _ _ _ _ Hid); unfold cached in *;
      cbn [entries expirations identities anonymous_entries anonymous_expirations anonymous_identities anonymous_ambiguities];
      rewrite ?map_size_insert_None by done; try lia; try done.
    + split; [done|by apply (index_insert anonymous_identity)| |done|].
      * cbn [anonymous_entries anonymous_ambiguities]. rewrite dom_insert_L. set_solver.
      * apply map_Forall_insert_2; [by apply anonymous_entry_own|done].
    + intros Hlt. by rewrite Hsame.
    + intros t' [Hp|Hp]%(present_insert_anonymous (make_context_room c)); [left|by right|done].
      destruct Hp as [(k' & f' & Hk')|(k' & f' & Hk')]; [left|right]; do 2 eexists; by eapply lookup_weaken.
    + by intros k' [].
    + intros k' t' f' Hk' Hn. assert (lost c (make_context_room c) t') as Hl by (left; eauto). split; [|intros t2 H2; by eapply Hold].
      destruct (Z.lt_ge_cases (Z.of_nat (size (entries c)) + Z.of_nat (size (anonymous_entries c))) CAPACITY) as [Hlt|]; [rewrite Hsame in Hn by done; congruence|]. lia.
Qed.

Lemma lookup_end {K} `{Countable K} (m : gmap K (Z * FlowDelta)) k k' t f : alter end_context k m !! k' = Some (t, f) →
  ∃ f0, m !! k' = Some (t, f0) ∧ (f = f0 ∨ f = set_lifecycle LIFECYCLE_ENDED f0).
Proof.
  destruct (decide (k = k')) as [->|]; [rewrite lookup_alter_eq|rewrite lookup_alter_ne by done; eauto].
  destruct (m !! k') as [[t0 f0]|]; [|done]. intros [= <- <-]. eauto.
Qed.

Lemma size_alter {K A} `{Countable K} (g : A → A) (m : gmap K A) k : size (alter g k m) = size m.
Proof. rewrite <- !(size_dom (D := gset K)). by rewrite dom_alter_L. Qed.

Lemma end_explicit_observation g b f now c : contexts_ok c → cached c ≤ CAPACITY → str_is_empty (d_policy_flow_id f) = false →
  has_counters f = false → has_ended f = true →
  observation g b now f c (set_explicit (alter end_context ((g, b, d_policy_flow_id f) : Key) (entries c)) (expirations c) c).
Proof.
  intros [He Ha Hamb Hent Hanon] Hcap Hid Hc Hend.
  assert (log_flow g b now (entries c) f = alter end_context ((g, b, d_policy_flow_id f) : Key) (entries c)) as Hlog
    by (unfold log_flow; by rewrite Hid, Hc, Hend).
  unfold set_explicit. split; rewrite ?Hlog; cbn [entries]; try done; try (unfold cached in *; cbn [entries anonymous_entries]; rewrite ?size_alter; lia).
  - split; [by apply index_end|done|done| |done]. intros k [t f'] (f0 & Hk & Hf)%lookup_end. specialize (Hent _ _ Hk). by destruct Hf as [->| ->].
  - intros t [(k & f' & Hk)|(k & f' & Hk)]; left; [left|right; eauto]. apply lookup_end in Hk as (f0 & Hk & _). eauto.
  - intros k. unfold log_flow. rewrite Hid, Hc, Hend. rewrite <- not_eq_None_Some, lookup_alter_None. by intros [].
  - intros k t f0 Hk. rewrite lookup_alter_None. congruence.
Qed.

Lemma end_anonymous_observation g b f now c k : contexts_ok c → cached c ≤ CAPACITY → d_policy_flow_id f = "" →
  observation g b now f c (end_anonymous k c).
Proof.
  intros [He Ha Hamb Hent Hanon] Hcap Hid.
  unfold end_anonymous. split; rewrite ?(log_flow_anonymous _ _ _ _ _ Hid); cbn [entries]; try done;
    try (unfold cached in *; cbn [entries anonymous_entries]; rewrite ?size_alter; lia).
  - split; [done|by apply index_end| |done|].
    + cbn [anonymous_entries anonymous_ambiguities]. by rewrite dom_alter_L.
    + intros k' [t f'] (f0 & Hk & Hf)%lookup_end. specialize (Hanon _ _ Hk). by destruct Hf as [->| ->].
  - intros t [(k' & f' & Hk)|(k' & f' & Hk)]; left; [left; eauto|right]. apply lookup_end in Hk as (f0 & Hk & _). eauto.
  - by intros k' [].
  - congruence.
Qed.

Lemma skip_observation g b f now c : contexts_ok c → cached c ≤ CAPACITY → (∀ m, log_flow g b now m f = m) → observation g b now f c c.
Proof. intros Hok Hcap Hlog. split; rewrite ?Hlog; try done; [lia|by left|by intros k []|congruence]. Qed.

Lemma observe_flow_observation g b f now c : contexts_ok c → cached c ≤ CAPACITY → observation g b now f c (observe_flow g b now c f).
Proof.
  intros Hok Hcap. unfold observe_flow. destruct (str_is_empty (d_policy_flow_id f)) eqn:Hid.
  - apply str_is_empty_spec in Hid. destruct (has_counters f) eqn:Hc; [by apply observe_anonymous_observation|].
    destruct (has_ended f); [by apply end_anonymous_observation|]. apply skip_observation; [done..|]. intros. by apply log_flow_anonymous.
  - destruct (has_counters f) eqn:Hc; [|destruct (has_ended f) eqn:Hend].
    + apply observe_explicit_observation; try done. intros E%str_is_empty_spec. congruence.
    + by apply end_explicit_observation.
    + apply skip_observation; try done. intros m. unfold log_flow. by rewrite Hid, Hc, Hend.
Qed.

(** ** Observing a batch *)

Definition log_batch (batch : FlowBatch) (now : Z) (m : gmap Key (Z * FlowDelta)) : gmap Key (Z * FlowDelta) :=
  foldl (log_flow (b_gateway_id batch) (b_boot_id batch) now) m (flows batch).

Lemma log_flow_mono g b now m m' f : m ⊆ m' → log_flow g b now m f ⊆ log_flow g b now m' f.
Proof.
  intros Hsub. unfold log_flow. destruct (str_is_empty _); [done|]. destruct (has_counters f); [by apply insert_mono|].
  destruct (has_ended f); [|done]. by apply alter_mono.
Qed.

Lemma log_fold_mono g b now l m m' : m ⊆ m' → foldl (log_flow g b now) m l ⊆ foldl (log_flow g b now) m' l.
Proof. revert m m'. induction l as [|f l IH]; cbn; [done|]. intros m m' Hsub. by apply IH, log_flow_mono. Qed.

Lemma fold_observation g b now l c : contexts_ok c → cached c ≤ CAPACITY → let c' := foldl (observe_flow g b now) c l in
  contexts_ok c' ∧ cached c' ≤ CAPACITY ∧ cached c' ≤ cached c + zlen l ∧ entries c' ⊆ foldl (log_flow g b now) (entries c) l ∧
  (cached c + zlen l ≤ CAPACITY → entries c' = foldl (log_flow g b now) (entries c) l) ∧
  ∀ t, present c' t → present c t ∨ t = now + TTL.
Proof.
  revert c. induction l as [|f l IH]; intros c Hok Hcap; cbn [foldl].
  - change (zlen []) with 0. split_and!; [done|done|lia|done|done|by left].
  - destruct (observe_flow_observation g b f now c Hok Hcap) as [Hok1 Hcap1 Hgrow Hsub Hexact Hexp].
    destruct (IH _ Hok1 Hcap1) as (Hok' & Hcap' & Hg' & Hsub' & Hexact' & Hexp'). rewrite zlen_cons. pose proof (zlen_nonneg l).
    split_and!; [done|done|lia| | |].
    + etrans; [exact Hsub'|]. by apply log_fold_mono.
    + intros Hle. rewrite Hexact' by lia. f_equal. apply Hexact. lia.
    + intros t [Hp|Ht]%Hexp'; [auto|by right].
Qed.

(** The expired contexts are forgotten by the log as well. *)
Lemma observe_spec batch now c : contexts_ok c → cached c ≤ CAPACITY → let c' := observe batch now c in
  contexts_ok c' ∧ cached c' ≤ CAPACITY ∧ cached c' ≤ cached c + zlen (flows batch) ∧
  entries c' ⊆ log_batch batch now (unexpired now (entries c)) ∧
  (cached c + zlen (flows batch) ≤ CAPACITY → entries c' = log_batch batch now (unexpired now (entries c))) ∧
  ∀ t, present c' t → (present c t ∧ now < t) ∨ t = now + TTL.
Proof.
  intros Hok Hcap. destruct (expire_contexts_spec now c Hok) as (Hok1 & He & Ha).
  assert (cached (expire_contexts now c) ≤ cached c) as Hle.
  { unfold cached. rewrite He, Ha. pose proof (map_size_filter (λ p : Key * (Z * FlowDelta), now < fst (snd p)) (entries c)).
    pose proof (map_size_filter (λ p : AnonymousKey * (Z * FlowDelta), now < fst (snd p)) (anonymous_entries c)). unfold unexpired. lia. }
  destruct (fold_observation (b_gateway_id batch) (b_boot_id batch) now (flows batch) _ Hok1) as (Hok' & Hcap' & Hg & Hsub & Hexact & Hexp); [lia|].
  unfold observe, log_batch. rewrite <- He. split_and!; [done|done|lia|done|intros; apply Hexact; lia|].
  intros t [Hp|Ht]%Hexp; [left|by right]. unfold present in *. rewrite He, Ha in Hp. unfold unexpired in Hp.
  destruct Hp as [(k & f & [Hk Ht]%map_lookup_filter_Some)|(k & f & [Hk Ht]%map_lookup_filter_Some)]; (split; [|done]); [left|right]; eauto.
Qed.

(** * A history of batches *)

Definition run (history : list (Z * FlowBatch)) : FlowContextCache := foldl (λ c e, observe (snd e) (fst e) c) empty_contexts history.

(** The named contexts of a cache without a bound on their number. *)
Definition history_log (history : list (Z * FlowBatch)) : gmap Key (Z * FlowDelta) :=
  foldl (λ m e, log_batch (snd e) (fst e) (unexpired (fst e) m)) ∅ history.

Definition observed_flows (history : list (Z * FlowBatch)) : Z := foldl (λ n e, n + zlen (flows (snd e))) 0 history.

Lemma empty_contexts_ok : contexts_ok empty_contexts ∧ cached empty_contexts = 0.
Proof.
  split; [|done]. split; [apply index_empty|apply index_empty|set_solver|by apply map_Forall_empty..].
Qed.

Lemma log_batch_mono batch now m m' : m ⊆ m' → log_batch batch now (unexpired now m) ⊆ log_batch batch now (unexpired now m').
Proof. intros Hsub. apply log_fold_mono. unfold unexpired. by apply map_filter_subseteq_mono. Qed.

Lemma run_spec history : let c := run history in
  contexts_ok c ∧ cached c ≤ CAPACITY ∧ cached c ≤ observed_flows history ∧ entries c ⊆ history_log history ∧
  (observed_flows history ≤ CAPACITY → entries c = history_log history).
Proof.
  induction history as [|[now batch] h IH] using rev_ind; unfold run, history_log, observed_flows in *.
  - destruct empty_contexts_ok as [Hok Hz]. cbn [foldl]. rewrite Hz. unfold CAPACITY. split_and!; [done|lia|lia|done|done].
  - rewrite !foldl_app. cbn [foldl fst snd]. destruct IH as (Hok & Hcap & Hn & Hsub & Hexact).
    destruct (observe_spec batch now _ Hok Hcap) as (Hok' & Hcap' & Hn' & Hsub' & Hexact' & _). split_and!; [done|done|lia| |].
    + etrans; [exact Hsub'|]. by apply log_batch_mono.
    + intros Hle. pose proof (zlen_nonneg (flows batch)). rewrite Hexact' by lia. by rewrite Hexact by lia.
Qed.

Lemma run_expiry history : StronglySorted (λ x y, fst x ≤ fst y) history → ∀ now batch, last history = Some (now, batch) →
  ∀ t, present (run history) t → now < t ≤ now + TTL.
Proof.
  intros Hs now batch. destruct history as [|e h _] using rev_ind; [done|]. rewrite last_snoc. intros [= ->].
  assert (∀ l, StronglySorted (λ x y : Z * FlowBatch, fst x ≤ fst y) (l ++ [(now, batch)]) → ∀ t, present (run l) t → t ≤ now + TTL) as Hprev.
  { clear. intros l. induction l as [|[t0 b0] l IH] using rev_ind; [intros _ t [(? & ? & ?)|(? & ? & ?)]; done|].
    intros Hs t Hp. apply StronglySorted_app in Hs as (Hlt & Hsl & _). assert (t0 ≤ now) as Hle.
    { apply (Hlt (t0, b0) (now, batch)); [apply elem_of_app; right|]; by apply list_elem_of_singleton. }
    unfold run in Hp. rewrite foldl_app in Hp. cbn [foldl fst snd] in Hp. destruct (run_spec l) as (Hok & Hcap & _).
    destruct (observe_spec b0 t0 _ Hok Hcap) as (_ & _ & _ & _ & _ & Hexp). apply Hexp in Hp as [[Hp _]|Hp]; [|lia].
    apply IH; [|done]. apply StronglySorted_app. apply StronglySorted_app in Hsl as (_ & Hsl & _). split_and!; [|done|repeat constructor].
    intros x y Hx ->%list_elem_of_singleton. apply Hlt; [apply elem_of_app; by left|by apply list_elem_of_singleton]. }
  intros t Hp. unfold run in Hp. rewrite foldl_app in Hp. cbn [foldl fst snd] in Hp. destruct (run_spec h) as (Hok & Hcap & _).
  destruct (observe_spec batch now _ Hok Hcap) as (_ & _ & _ & _ & _ & Hexp). apply Hexp in Hp as [[Hp Ht]|Hp]; [|unfold TTL in *; lia].
  specialize (Hprev h Hs t Hp). lia.
Qed.

(** ** What a full cache forgets *)

(** Against the log: the contexts are those of the log, none of which is refreshed
    after [now]; one that is missing was not refreshed after any that is there,
    and as many as fit are there. *)
Record forgets (now : Z) (c : FlowContextCache) (m : gmap Key (Z * FlowDelta)) : Prop := mkForgets {
  fg_logged : entries c ⊆ m;
  fg_time : ∀ k t f, m !! k = Some (t, f) → t ≤ now + TTL;
  fg_missing : ∀ k t f, m !! k = Some (t, f) → entries c !! k = None → cached c = CAPACITY ∧ ∀ t', present c t' → t ≤ t';
}.

Lemma forgets_later now now' c m : now ≤ now' → forgets now c m → forgets now' c m.
Proof. intros Hn [Hl Ht Hm]. split; [done| |done]. intros k t f Hk. specialize (Ht _ _ _ Hk). lia. Qed.

(** The log keeps the time of a context that is not refreshed. *)
Lemma log_flow_lookup g b now m f k t f0 : log_flow g b now m f !! k = Some (t, f0) →
  (∃ f1, m !! k = Some (t, f1)) ∨ (t = now + TTL ∧ ∀ m', is_Some (log_flow g b now m' f !! k)).
Proof.
  unfold log_flow. destruct (str_is_empty _); [eauto|]. destruct (has_counters f).
  - destruct (decide ((g, b, d_policy_flow_id f) = k)) as [<-|]; [|rewrite lookup_insert_ne by done; eauto].
    rewrite lookup_insert_eq. intros [= <- <-]. right. split; [done|]. intros m'. by rewrite lookup_insert_eq.
  - destruct (has_ended f); [|eauto]. intros (f1 & Hk & _)%lookup_end. eauto.
Qed.

Lemma observation_forgets g b now f c c' m : observation g b now f c c' → cached c ≤ CAPACITY → forgets now c m → forgets now c' (log_flow g b now m f).
Proof.
  intros [Hok Hcap _ Hlog _ Hexp Hmono Hnew Hlost] Hc [Hsub Htime Hmiss]. split.
  - etrans; [exact Hlog|]. by apply log_flow_mono.
  - intros k t f0 [(f1 & Hk)|[-> _]]%log_flow_lookup; [by eapply Htime|done].
  - intros k t f0 Hk Hn. pose proof (log_flow_lookup _ _ _ _ _ _ _ _ Hk) as Hcase.
    destruct (entries c !! k) as [[t1 f1]|] eqn:He.
    + destruct (Hlost _ _ _ He Hn) as [Hfull Hmin]. pose proof (lookup_weaken _ _ _ _ He Hsub) as Hm. split; [done|].
      destruct Hcase as [(f2 & Hk2)|[-> Hall]]; [|destruct (Hnew k (Hall _)); congruence]. rewrite Hm in Hk2. injection Hk2 as -> ->.
      intros t' [Hp| ->]%Hexp; [auto|by eapply Htime].
    + destruct Hcase as [(f2 & Hk2)|[-> Hall]]; [|destruct (Hnew k (Hall _)); congruence].
      destruct (Hmiss _ _ _ Hk2 He) as [Hfull Hmin]. split; [lia|]. intros t' [Hp| ->]%Hexp; [auto|by eapply Htime].
Qed.

Lemma fold_forgets g b now l c m : contexts_ok c → cached c ≤ CAPACITY → forgets now c m →
  forgets now (foldl (observe_flow g b now) c l) (foldl (log_flow g b now) m l).
Proof.
  revert c m. induction l as [|f l IH]; intros c m Hok Hcap Hf; [done|]. cbn [foldl]. pose proof (observe_flow_observation g b f now c Hok Hcap) as Ho.
  apply IH; [apply Ho|apply Ho|by eapply observation_forgets].
Qed.

(** A full cache that misses something has nothing to expire before it. *)
Lemma expire_forgets now c m : contexts_ok c → forgets now c m → forgets now (expire_contexts now c) (unexpired now m).
Proof.
  intros Hok [Hsub Htime Hmiss]. destruct (expire_contexts_spec now c Hok) as (_ & He & Ha). split.
  - rewrite He. unfold unexpired. by apply map_filter_subseteq_mono.
  - intros k t f [Hk _]%map_lookup_filter_Some. by eapply Htime.
  - intros k t f [Hk Ht]%map_lookup_filter_Some Hn. cbn in Ht. assert (entries c !! k = None) as Hc.
    { destruct (entries c !! k) as [[t1 f1]|] eqn:E; [|done]. pose proof (lookup_weaken _ _ _ _ E Hsub) as Hm. rewrite Hk in Hm. injection Hm as <- <-.
      rewrite He in Hn. unfold unexpired in Hn. rewrite map_lookup_filter, E in Hn. cbn in Hn. by rewrite option_guard_True in Hn. }
    destruct (Hmiss _ _ _ Hk Hc) as [Hfull Hmin].
    assert (unexpired now (entries c) = entries c) as He' by (apply map_filter_id; intros k' [t' f'] Hk'; cbn; assert (t ≤ t') by (apply Hmin; left; eauto); lia).
    assert (unexpired now (anonymous_entries c) = anonymous_entries c) as Ha' by (apply map_filter_id; intros k' [t' f'] Hk'; cbn; assert (t ≤ t') by (apply Hmin; right; eauto); lia).
    unfold cached, present in *. rewrite He, Ha, He', Ha'. done.
Qed.

Lemma run_forgets history now : StronglySorted (λ x y, fst x ≤ fst y) history → Forall (λ e, fst e ≤ now) history →
  forgets now (run history) (history_log history).
Proof.
  revert now. induction history as [|[t batch] h IH] using rev_ind; intros now Hs Hn.
  { split; [done|intros k t f Hk; done|intros k t f Hk; done]. }
  apply StronglySorted_app in Hs as (Hlt & Hs & _). apply Forall_app in Hn as [_ Hn]. rewrite Forall_singleton in Hn. cbn [fst] in Hn.
  assert (forgets t (run h) (history_log h)) as Hf.
  { apply IH; [done|]. apply Forall_forall. intros e He. apply (Hlt e (t, batch)); [done|by apply list_elem_of_singleton]. }
  apply (forgets_later t); [done|]. destruct (run_spec h) as (Hok & Hcap & _).
  assert (run (h ++ [(t, batch)]) = observe batch t (run h)) as -> by (unfold run; by rewrite foldl_app).
  assert (history_log (h ++ [(t, batch)]) = log_batch batch t (unexpired t (history_log h))) as -> by (unfold history_log; by rewrite foldl_app).
  set (c := run h) in *. destruct (expire_contexts_spec t c Hok) as (Hok1 & He & Ha).
  apply fold_forgets; [done| |by apply expire_forgets]. etrans; [|exact Hcap]. unfold cached. rewrite He, Ha. unfold unexpired.
  pose proof (map_size_filter (λ p : Key * (Z * FlowDelta), t < fst (snd p)) (entries c)).
  pose proof (map_size_filter (λ p : AnonymousKey * (Z * FlowDelta), t < fst (snd p)) (anonymous_entries c)). lia.
Qed.

(** C24: Whatever batches of telemetry arrive, the cache of flow contexts stays
    consistent and bounded: its two indices list exactly its entries, every entry
    is the delta of a flow with traffic under that flow's own name, there are at
    most 16384, and each was refreshed within the last 300 seconds. A named
    context is always the one of the unbounded log of the batches; one of that log
    is missing only if the cache is full, with 16384 contexts of which none was
    refreshed earlier than the missing one; and none is missing while no more
    deltas were observed than fit. *)
Theorem context_cache_correct history now batch : StronglySorted (λ x y, fst x ≤ fst y) history → last history = Some (now, batch) →
  let c := run history in
  contexts_ok c ∧ cached c ≤ 16384 ∧ (∀ t, present c t → now < t ≤ now + TTL) ∧
  entries c ⊆ history_log history ∧
  (∀ k t f, history_log history !! k = Some (t, f) → entries c !! k = None → cached c = 16384 ∧ ∀ t', present c t' → t ≤ t') ∧
  (observed_flows history ≤ 16384 → entries c = history_log history).
Proof.
  intros Hs Hl c. destruct (run_spec history) as (Hok & Hcap & _ & Hsub & Hexact). split_and!; [done|done|by eapply run_expiry|done| |done].
  apply (fg_missing now). apply run_forgets; [done|]. destruct history as [|e h _] using rev_ind; [done|]. rewrite last_snoc in Hl. injection Hl as ->.
  apply StronglySorted_app in Hs as (Hlt & _ & _). apply Forall_app. split; [|by constructor].
  apply Forall_forall. intros e He. apply (Hlt e (now, batch)); [done|by apply list_elem_of_singleton].
Qed.

(** * Attaching results *)

Section fold.
Context {K : Type} (id : K → FlowDelta → string) (get : K → option FlowDelta).

(** Inserting contexts whose names differ puts each under its name. *)
Lemma fold_insert_context l m i f :
  (∀ k k' g g', k ∈ l → k' ∈ l → get k = Some g → get k' = Some g' → id k g = id k' g' → g = g') →
  foldl (insert_context id get) m l !! i = Some f ↔
  (∃ k, k ∈ l ∧ get k = Some f ∧ id k f = i) ∨ (m !! i = Some f ∧ ∀ k g, k ∈ l → get k = Some g → id k g ≠ i).
Proof.
  intros Hinj. induction l as [|k l IH] using rev_ind.
  - cbn. split; [intros ->; right; split; [done|]; set_solver|]. intros [(k & Hk & _)|[Hm _]]; [set_solver|done].
  - rewrite foldl_snoc. unfold insert_context at 1. assert (∀ x, x ∈ l ++ [k] ↔ x ∈ l ∨ x = k) as Hel by (intros; rewrite elem_of_app, list_elem_of_singleton; done).
    assert (∀ k k' g g', k ∈ l → k' ∈ l → get k = Some g → get k' = Some g' → id k g = id k' g' → g = g') as Hinj' by (intros k1 k2 g g' H1 H2; apply Hinj; apply Hel; by left).
    specialize (IH Hinj'). destruct (get k) as [g|] eqn:Hg; [destruct (decide (id k g = i)) as [Hi|Hi]|].
    + rewrite <- Hi, lookup_insert_eq. split.
      * intros [= <-]. left. exists k. rewrite Hel. auto.
      * intros [(k' & Hk' & Hg' & Hid)|[_ Hno]]; [|exfalso; by apply (Hno k g); [apply Hel; right| |]].
        f_equal. apply (Hinj k k' g f); [by apply Hel; right|done|done|done|done].
    + rewrite lookup_insert_ne, IH by done. setoid_rewrite Hel. naive_solver.
    + rewrite IH. setoid_rewrite Hel. naive_solver.
Qed.
End fold.

Section matching.
Context {A : Type} (c : FlowContextCache) (s : CachedResult A) (now : Z).

(** A named context that the result can belong to, and one without a name. *)
Definition named_context (i : string) (f : FlowDelta) : Prop :=
  ∃ t, entries c !! ((c_gateway s, c_boot s, i) : Key) = Some (t, f) ∧ sample_context_matches f t s now = true.
Definition anonymous_context (i : string) (f : FlowDelta) : Prop :=
  ∃ n t, i = anonymous_id (from_sample s, n) ∧ anonymous_entries c !! ((from_sample s, n) : AnonymousKey) = Some (t, f) ∧
    (from_sample s, n) ∉ anonymous_ambiguities c ∧ sample_context_matches f t s now = true.

(** The contexts that a result can belong to, by name. A result that names its
    flows belongs to named contexts only. *)
Definition candidate (i : string) (f : FlowDelta) : Prop := named_context i f ∨ (policy_flow_ids s = [] ∧ anonymous_context i f).

Lemma context_of_Some e f : context_of s now e = Some f ↔ ∃ t, e = Some (t, f) ∧ sample_context_matches f t s now = true.
Proof.
  unfold context_of. destruct e as [[t g]|]; [|split; [done|by intros (? & ? & _)]]. cbn [mbind option_bind].
  destruct (sample_context_matches g t s now) eqn:E; (split; [|intros (t' & [= <- <-] & Hm); congruence]); [|done]. intros [= <-]. eauto.
Qed.

Lemma matches_identity f t : sample_context_matches f t s now = true → from_flow (c_gateway s) (c_boot s) f = from_sample s.
Proof. unfold sample_context_matches, from_flow, from_sample. intros Hm. split_bools. f_equal; first [done|lia]. Qed.

Lemma elem_of_exact f : f ∈ exact_contexts c s now ↔ ∃ i, i ∈ policy_flow_ids s ∧ named_context i f.
Proof.
  unfold exact_contexts, named_context. rewrite list_elem_of_omap. setoid_rewrite context_of_Some. done.
Qed.

Context (Hok : contexts_ok c).

Lemma named_own i f : named_context i f → d_policy_flow_id f = i.
Proof. intros (t & Hk & _). by destruct (ok_entries _ Hok _ _ Hk). Qed.

Lemma indexed_context i f : named_context i f ↔
  ∃ k, k ∈ elements (default ∅ (identities c !! from_sample s)) ∧ context_of s now (entries c !! k) = Some f ∧ d_policy_flow_id f = i.
Proof.
  setoid_rewrite elem_of_elements. setoid_rewrite (ix_identity _ _ _ _ (ok_explicit _ Hok)). setoid_rewrite context_of_Some. split.
  - intros Hn. pose proof (named_own _ _ Hn). destruct Hn as (t & Hk & Hm). exists (c_gateway s, c_boot s, i). split_and!; [|eauto|done].
    exists t, f. split; [done|]. unfold explicit_identity. cbn [fst snd]. by eapply matches_identity.
  - intros ([[g b] j] & (t & f' & Hk & Hid) & (t' & Hk' & Hm) & Hi). rewrite Hk in Hk'. injection Hk' as <- <-.
    destruct (ok_entries _ Hok _ _ Hk) as [Hj _]. cbn in Hj. assert (g = c_gateway s ∧ b = c_boot s) as [-> ->] by (by injection Hid). exists t. split; [|done]. congruence.
Qed.

Lemma indexed_anonymous i f : anonymous_context i f ↔
  ∃ k, k ∈ elements (default ∅ (anonymous_identities c !! from_sample s)) ∧
    (if bool_decide (k ∈ anonymous_ambiguities c) then None else context_of s now (anonymous_entries c !! k)) = Some f ∧ anonymous_id k = i.
Proof.
  setoid_rewrite elem_of_elements. setoid_rewrite (ix_identity _ _ _ _ (ok_anonymous _ Hok)). split.
  - intros (n & t & -> & Hk & Ha & Hm). exists (from_sample s, n). split_and!; [by exists t, f| |done].
    rewrite bool_decide_false by done. apply context_of_Some. eauto.
  - intros ([j n] & (t & f' & Hk & Hid) & Hc & Hi). case_bool_decide; [done|]. cbn in Hid. unfold anonymous_identity in Hid. cbn in Hid. subst j.
    apply context_of_Some in Hc as (t' & Hk' & Hm). exists n, t'. done.
Qed.

Lemma named_unique i f g : named_context i f → named_context i g → f = g.
Proof. intros (t & Hk & _) (t' & Hk' & _). congruence. Qed.

Definition named_candidates : gmap string FlowDelta :=
  foldl (insert_context (λ _, d_policy_flow_id) (λ k, context_of s now (entries c !! k)))
    (foldl (insert_context (λ _, d_policy_flow_id) Some) ∅ (exact_contexts c s now)) (elements (default ∅ (identities c !! from_sample s))).

Lemma named_candidates_spec i f : named_candidates !! i = Some f ↔ named_context i f.
Proof.
  unfold named_candidates. rewrite fold_insert_context.
  - rewrite <- indexed_context. split; [|by left]. intros [Hn|[Hm _]]; [done|]. apply fold_insert_context in Hm as [(g & Hg & [= ->] & Hi)|[Hm _]]; [|by rewrite lookup_empty in Hm|].
    + apply elem_of_exact in Hg as (j & _ & Hn). pose proof (named_own _ _ Hn). congruence.
    + intros k k' g g' (j & _ & Hn)%elem_of_exact (j' & _ & Hn')%elem_of_exact [= ->] [= ->] Heq.
      pose proof (named_own _ _ Hn). pose proof (named_own _ _ Hn'). apply (named_unique j); congruence.
  - intros k k' g g' Hk Hk' Hg Hg' Heq. apply (named_unique (d_policy_flow_id g)); apply indexed_context; [by exists k|by exists k'].
Qed.

(** No flow is named like an anonymous context, and first sightings have 64 bits. *)
Context (Hnames : map_Forall (λ k _, ∀ n, snd k ≠ String.append "anonymous:" (dec_text n)) (entries c)).
Context (Hwidth : map_Forall (λ k _, is_u64 (snd k)) (anonymous_entries c)).

Lemma append_inj x y z : String.append x y = String.append x z → y = z.
Proof. induction x as [|a x IH]; cbn; [done|]. intros [= E]. auto. Qed.

Lemma anonymous_unique i f g : anonymous_context i f → anonymous_context i g → f = g.
Proof.
  intros (n & t & -> & Hk & _) (n' & t' & Hi & Hk' & _). unfold anonymous_id in Hi. cbn [snd] in Hi.
  assert (n = n') as ->; [|congruence]. apply append_inj in Hi. apply dec_text_inj in Hi; [done|exact (Hwidth _ _ Hk)|exact (Hwidth _ _ Hk')].
Qed.

Lemma candidates_spec i f : candidates c s now !! i = Some f ↔ candidate i f.
Proof.
  unfold candidates, candidate. cbv zeta. fold named_candidates. destruct (policy_flow_ids s) as [|j l].
  - rewrite fold_insert_context.
    + rewrite <- indexed_anonymous, named_candidates_spec. split; [naive_solver|]. intros [Hn|[_ Ha]]; [right|by left]. split; [done|].
      intros k g Hk Hg Hid. destruct Hn as (t & Hke & _). apply (Hnames _ _ Hke (snd k)). done.
    + intros k k' g g' Hk Hk' Hg Hg' Heq. apply (anonymous_unique (anonymous_id k)); apply indexed_anonymous; [by exists k|by exists k'].
  - rewrite named_candidates_spec. naive_solver.
Qed.

Lemma elem_of_values (m : gmap string FlowDelta) f : f ∈ snd <$> btree_entries str_leb m ↔ ∃ i, m !! i = Some f.
Proof.
  rewrite list_elem_of_fmap. setoid_rewrite <- (elem_of_btree_entries str_leb). split; [intros ([i g] & -> & Hin); eauto|]. intros [i Hin]. by exists (i, f).
Qed.

(** [agreed] keeps a list of at most 16 contexts of one known client and path. *)
Lemma elem_of_agreed l f : f ∈ agreed l ↔ f ∈ l ∧ zlen l ≤ 16 ∧ (∀ g, g ∈ l → zlen (d_client_mac g) = 6 ∧ same_path g f = true).
Proof.
  assert (∀ g h, same_path g h = true ↔ d_client_mac g = d_client_mac h ∧ d_scope g = d_scope h ∧ d_path_type g = d_path_type h ∧ d_nat g = d_nat h) as Hsp.
  { intros g h. unfold same_path. rewrite !andb_true_iff, bool_decide_eq_true, !Z.eqb_eq. tauto. }
  unfold agreed. destruct l as [|first l]; [set_solver|]. destruct (_ || _)%bool eqn:E.
  - split; [set_solver|]. intros (Hf & Hlen & Hall). exfalso. assert (first ∈ first :: l) as Hfirst by left. destruct (Hall _ Hfirst) as [Hmac Hp].
    apply orb_true_iff in E as [E|E]; [split_bools; apply orb_true_iff in E as [E|E]; split_bools; lia|].
    apply existsb_exists in E as (g & Hg%list_elem_of_In & Hn%negb_true_iff). destruct (Hall _ Hg) as [_ Hg']. rewrite Hsp in Hg', Hp.
    assert (same_path g first = true) as Hs; [apply Hsp; intuition congruence|congruence].
  - apply orb_false_iff in E as [E Hall]. apply orb_false_iff in E as [Hmac Hlen]. apply negb_false_iff in Hmac. rewrite existsb_false, Forall_forall in Hall.
    assert (∀ g, g ∈ first :: l → same_path g first = true) as Hsame by (intros g Hg%Hall; by apply negb_false_iff).
    split; [|tauto]. intros Hf. split_and!; [done|lia|]. intros g Hg. pose proof (Hsame _ Hf) as H1. pose proof (Hsame _ Hg) as H2. rewrite Hsp in H1, H2.
    destruct H1 as (Hfm & ? & ? & ?), H2 as (Hgm & ? & ? & ?). split; [rewrite Hgm; lia|]. apply Hsp. intuition congruence.
Qed.

(** The declared bound on the number of candidates is their count. *)
Lemma at_most_16 (m : gmap string FlowDelta) :
  zlen (snd <$> btree_entries str_leb m) ≤ 16 ↔ ∀ l : list string, NoDup l → (∀ i, i ∈ l → ∃ f, m !! i = Some f) → zlen l ≤ 16.
Proof.
  assert (zlen (snd <$> btree_entries str_leb m) = Z.of_nat (size m)) as -> by (unfold zlen; by rewrite length_fmap, length_btree_entries). split.
  - intros Hsz l Hnd Hl. unfold zlen. rewrite <- (size_list_to_set (C := gset string) l) by done.
    assert (list_to_set l ⊆ dom m) as Hsub%subseteq_size; [|rewrite size_dom in Hsub; lia]. intros i Hi%elem_of_list_to_set. apply elem_of_dom. by apply Hl.
  - intros Hl. specialize (Hl (elements (dom m)) (NoDup_elements _)). rewrite <- (size_dom (D := gset string) m). apply Hl.
    intros i Hi%elem_of_elements%elem_of_dom. done.
Qed.

(** A result of packet inspection is attached to exactly the live flow contexts of
    its gateway and boot that have its five-tuple and lifetime, if they are at
    most 16 and all of one known client and one path, and to none otherwise. If
    the result names flows, one of them must be among the contexts, and contexts
    without a name do not count. *)
Lemma matching_exact f : f ∈ matching c s now ↔
  (∃ i, candidate i f) ∧ (policy_flow_ids s = [] ∨ ∃ i g, i ∈ policy_flow_ids s ∧ named_context i g) ∧
  (∀ l : list string, NoDup l → (∀ i, i ∈ l → ∃ g, candidate i g) → zlen l ≤ 16) ∧
  ∀ i g, candidate i g → zlen (d_client_mac g) = 6 ∧ same_path g f = true.
Proof.
  assert (f ∈ agreed (snd <$> btree_entries str_leb (candidates c s now)) ↔
    (∃ i, candidate i f) ∧ (∀ l : list string, NoDup l → (∀ i, i ∈ l → ∃ g, candidate i g) → zlen l ≤ 16) ∧
    ∀ i g, candidate i g → zlen (d_client_mac g) = 6 ∧ same_path g f = true) as Hag.
  { rewrite elem_of_agreed, at_most_16. setoid_rewrite elem_of_values. setoid_rewrite candidates_spec. naive_solver. }
  unfold matching. assert (∀ g, g ∈ exact_contexts c s now ↔ ∃ i, i ∈ policy_flow_ids s ∧ named_context i g) as Hex by apply elem_of_exact.
  destruct (policy_flow_ids s) as [|j l] eqn:El; [rewrite Hag; tauto|]. destruct (exact_contexts c s now) as [|g r] eqn:Er.
  - split; [set_solver|]. intros (_ & [[=]|(i & g & Hi & Hn)] & _). exfalso. assert (g ∈ ([] : list FlowDelta)) by (apply Hex; eauto). set_solver.
  - rewrite Hag. destruct (proj1 (Hex g) (list_elem_of_here _ _)) as (i & Hi & Hn). split; [|tauto]. intros (H1 & H2 & H3). split_and!; eauto.
Qed.
End matching.

(** * Waiting results *)

(** The queue is in the order of expiry and bounded; nothing in it was deferred
    after [now]. *)
Record pending_ok {A} (now : Z) (p : PendingFlowSamples A) : Prop := mkPendingOk {
  po_sorted : StronglySorted (λ x y, fst x ≤ fst y) p;
  po_bound : Forall (λ e, fst e ≤ now + PENDING_SAMPLE_TTL) p;
  po_capacity : zlen p ≤ PENDING_SAMPLE_CAPACITY;
}.

Lemma StronglySorted_filterb {A} (R : A → A → Prop) (p : A → bool) l : StronglySorted R l → StronglySorted R (List.filter p l).
Proof.
  induction 1 as [|x l Hs IH Hall]; cbn; [constructor|]. destruct (p x); [|done]. constructor; [done|].
  rewrite Forall_forall in Hall |- *. intros y [Hy _]%elem_of_filterb. auto.
Qed.

(** Dropping expired results from the front drops all of them. *)
Lemma expire_pending_filter {A} now (p : PendingFlowSamples A) : StronglySorted (λ x y, fst x ≤ fst y) p →
  expire_pending now p = List.filter (λ e, now <? fst e) p.
Proof.
  unfold expire_pending. induction 1 as [|x l Hs IH Hall]; [done|]. cbn. destruct (Z.leb_spec (fst x) now), (Z.ltb_spec now (fst x)); try lia; [done|].
  f_equal. clear -Hall H0. induction Hall as [|y l Hy _ IH]; [done|]. cbn. destruct (Z.ltb_spec now (fst y)); [|lia]. by f_equal.
Qed.

Lemma zlen_filterb_le {A} (p : A → bool) l : zlen (List.filter p l) ≤ zlen l.
Proof. induction l as [|x l IH]; cbn; [done|]. destruct (p x); rewrite ?zlen_cons; lia. Qed.

Lemma filter_pending_ok {A} now now' f (p : PendingFlowSamples A) : pending_ok now p → now ≤ now' → pending_ok now' (List.filter f p).
Proof.
  intros [Hs Hb Hc] Hle. split; [by apply StronglySorted_filterb| |pose proof (zlen_filterb_le f p); lia].
  rewrite Forall_forall in Hb |- *. intros e [He _]%elem_of_filterb. specialize (Hb _ He). cbn beta in Hb. lia.
Qed.

Lemma filter_twice {A} (f g : A → bool) l : List.filter f (List.filter g l) = List.filter (λ x, g x && f x)%bool l.
Proof. induction l as [|x l IH]; [done|]. cbn. destruct (g x); cbn; [destruct (f x); by rewrite IH|done]. Qed.

(** Deferring a result keeps the queue in order and bounded; of 1024 waiting results
    the first makes room. *)
Lemma defer_ok {A} now now' (s : CachedResult A) p : pending_ok now p → now ≤ now' → let waiting := List.filter (λ e, now' <? fst e) p in
  pending_ok now' (defer s now' p) ∧
  defer s now' p = (if zlen waiting =? 1024 then tail waiting else waiting) ++ [(now' + PENDING_SAMPLE_TTL, s)].
Proof.
  intros Hp Hle waiting. pose proof (filter_pending_ok now now' (λ e, now' <? fst e) p Hp Hle) as [Hs Hb Hc]. fold waiting in Hs, Hb, Hc.
  unfold defer. rewrite (expire_pending_filter now' p (po_sorted _ _ Hp)). fold waiting. split; [|done]. unfold PENDING_SAMPLE_CAPACITY in *.
  set (kept := if zlen waiting =? 1024 then tail waiting else waiting).
  assert (StronglySorted (λ x y : Z * CachedResult A, fst x ≤ fst y) kept ∧ Forall (λ e, fst e ≤ now' + PENDING_SAMPLE_TTL) kept ∧ zlen kept < 1024) as (Hs' & Hb' & Hc').
  { unfold kept. destruct (Z.eqb_spec (zlen waiting) 1024); [|split_and!; [done|done|lia]].
    destruct waiting as [|x l]; [done|]. rewrite zlen_cons in *. cbn [tail]. apply StronglySorted_inv in Hs as [Hs _]. apply Forall_cons in Hb as [_ Hb]. split_and!; [done|done|lia]. }
  split; [|apply Forall_app; split; [done|]; by repeat constructor|rewrite zlen_app; cbn; unfold PENDING_SAMPLE_CAPACITY; change (zlen [_]) with 1; lia].
  apply StronglySorted_app. split_and!; [|done|repeat constructor]. intros x y Hx ->%list_elem_of_singleton. rewrite Forall_forall in Hb'. by apply Hb'.
Qed.

(** Deferred results are neither lost nor repeated nor delivered late: taking the
    ready ones splits the results deferred within the last five seconds, in
    their order, into those that now have flow contexts and those that go on
    waiting. *)
Lemma take_ready_exact {A} c now now' (p : PendingFlowSamples A) : pending_ok now p → now ≤ now' →
  let '(p', ready) := take_ready c now' p in
  pending_ok now' p' ∧
  p' = List.filter (λ e, (now' <? fst e) && match matching c (snd e) now' with [] => true | _ => false end)%bool p ∧
  ready = snd <$> List.filter (λ e, (now' <? fst e) && match matching c (snd e) now' with [] => false | _ => true end)%bool p.
Proof.
  intros Hp Hle. unfold take_ready. rewrite (expire_pending_filter now' p (po_sorted _ _ Hp)), !filter_twice.
  split_and!; [by apply (filter_pending_ok now)|done|]. f_equal. apply List.filter_ext. intros e. unfold is_waiting.
  by destruct (matching c (snd e) now').
Qed.

(** * A concrete history *)

Module ContextsExample.
Definition flow (id : string) (mac : list Z) (packets first last lifecycle : Z) : FlowDelta :=
  mkFlowDelta 4 6 [10; 0; 0; 2] 40000 [1; 1; 1; 1] 443 1 100 0 packets first last 0 lifecycle mac "" 1 1 0 "" "" id.
Definition mac : list Z := [2; 0; 0; 0; 0; 1].
Definition batch (l : list FlowDelta) : FlowBatch := mkFlowBatch "gw" "boot" l.
Definition idle (id : string) : FlowDelta :=
  mkFlowDelta 4 6 [10; 0; 0; 2] 40000 [1; 1; 1; 1] 443 1 0 0 0 0 0 0 3 mac "" 1 1 0 "" "" id.
Definition second : Z := 10 ^ 9.
(** Two flows and one without a name; the second ends; a new one of another client. *)
Definition history : list (Z * FlowBatch) :=
  [(1 * second, batch [flow "f1" mac 3 1000 2000 1; flow "f2" mac 1 1000 1500 1; flow "" [] 1 1200 1300 1]);
   (2 * second, batch [idle "f2"; flow "" mac 1 1200 1800 1]);
   (290 * second, batch [flow "f1" mac 1 1000 200000 1])].
Definition sample (ids : list string) : CachedResult unit :=
  mkCached unit "gw" "boot" (mkSampleKey 4 6 [10; 0; 0; 2] 40000 [1; 1; 1; 1] 443 1000) 1900 tt ids 0.
End ContextsExample.

Lemma context_cache_correct_witness : let h := ContextsExample.history in
  last h = Some (290 * ContextsExample.second, ContextsExample.batch [ContextsExample.flow "f1" ContextsExample.mac 1 1000 200000 1]) ∧
  cached (run h) = 3 ∧ contexts_ok (run h) ∧ entries (run h) = history_log h.
Proof.
  destruct (context_cache_correct ContextsExample.history (290 * ContextsExample.second) (ContextsExample.batch [ContextsExample.flow "f1" ContextsExample.mac 1 1000 200000 1]))
    as (Hok & _ & _ & _ & _ & Hexact).
  - repeat constructor; cbn; unfold ContextsExample.second; lia.
  - reflexivity.
  - split; [reflexivity|]. split; [vm_compute; reflexivity|]. split; [exact Hok|]. apply Hexact. vm_compute. discriminate.
Defined.

Lemma matching_exact_witness : let c := run ContextsExample.history in let now := 295 * ContextsExample.second in
  matching c (ContextsExample.sample ["f1"]) now = [ContextsExample.flow "f1" ContextsExample.mac 1 1000 200000 1] ∧
  zlen (matching c (ContextsExample.sample []) now) = 2 ∧ matching c (ContextsExample.sample ["f2"]) now = [] ∧
  ∃ i, candidate c (ContextsExample.sample []) now i (ContextsExample.flow "" ContextsExample.mac 1 1200 1800 1).
Proof.
  cbv zeta. split; [vm_compute; reflexivity|]. split; [vm_compute; reflexivity|]. split; [vm_compute; reflexivity|].
  refine (proj1 (proj1 (matching_exact (run ContextsExample.history) (ContextsExample.sample []) (295 * ContextsExample.second) _ _ _
    (ContextsExample.flow "" ContextsExample.mac 1 1200 1800 1)) _)).
  - exact (proj1 (run_spec ContextsExample.history)).
  - assert (map_Forall (λ k _, String.length (snd k) = 2%nat) (entries (run ContextsExample.history))) as Hlen
      by (apply (bool_decide_unpack _); vm_compute; exact I).
    intros k e Hk n E. specialize (Hlen k e Hk). cbn beta in Hlen. rewrite E in Hlen. discriminate Hlen.
  - assert (map_Forall (λ k _, 0 ≤ snd k < 2 ^ 64) (anonymous_entries (run ContextsExample.history))) as Hw
      by (apply (bool_decide_unpack _); vm_compute; exact I). exact Hw.
  - vm_compute. left.
Defined.
