(* ===== verification/Inspection.v ===== *)
(** What the collector keeps of inspected flows
    (src/crates/collector/src/dpi/mod.rs, [Stats]): the windows of ended flows and
    the interval index that the inspection worker derives from them, the flows
    seen recently, and the cached results with the lookup that combines them.
    The fields of [Stats] are grouped by the operations that use them; an
    [Instant] is a number of nanoseconds.  The identity of a flow is the one of
    [Contexts], whose definition the source repeats. *)

From S2P Require Import Prelude PolicyWire Telemetry Contexts.

Definition CACHE_CAPACITY : Z := 4096.
Definition CACHE_TTL : Z := 300 * 10 ^ 9.
Definition CACHE_MAINTENANCE_INTERVAL : Z := 10 ^ 9.
Definition SEEN_FLOWS_CAPACITY : Z := 65536.
Definition SEEN_FLOWS_CLEANUP_INTERVAL : Z := 30 * 10 ^ 9.
Definition ENDING_DELAY : Z := 10 ^ 9.
Definition MAX_POLICY_FLOW_IDENTITIES_PER_SAMPLE : Z := 4.

Abbreviation CacheKey := Key.

Fixpoint take_while {A} (p : A → bool) (l : list A) : list A :=
  match l with x :: l => if p x then x :: take_while p l else [] | [] => [] end.

(** ** The interval index *)

Record EndingIntervalIndex := mkIndex { starts : list Z; prefix_max_ends : list Z }.

Fixpoint prefix_max (max : Z) (l : list Z) : list Z :=
  match l with [] => [] | x :: l => Z.max max x :: prefix_max (Z.max max x) l end.

Definition new_index (windows : list (Z * Z)) : option EndingIntervalIndex :=
  match windows with
  | [] => None
  | _ =>
    let windows := sort_by (λ a b, fst a <=? fst b) windows in
    Some (mkIndex (fst <$> windows) (prefix_max 0 (snd <$> windows)))
  end.

(** [partition_point] of a slice in which the predicate holds first. *)
Definition partition_point {A} (p : A → bool) (l : list A) : nat := length (take_while p l).

Definition overlaps (ix : EndingIntervalIndex) (sample_first_seen_unix_ms sample_last_packet_ms : Z) : bool :=
  let eligible := partition_point (λ first, first <=? u64_saturating_add sample_last_packet_ms 1) (starts ix) in
  match eligible with
  | O => false
  | S n => match prefix_max_ends ix !! n with
           | Some e => sample_first_seen_unix_ms <=? u64_saturating_add e 1
           | None => false
           end
  end.

(** ** The windows of ended flows *)

Record EndingWindow := mkWindow {
  w_id : Z;
  w_first_seen_unix_ms : Z;
  w_last_seen_unix_ms : Z;
  received_at : Z;
  w_expires : Z;
}.

Record Endings := mkEndings {
  endings : gmap FlowIdentity (list EndingWindow);
  ending_expirations : gset (Z * (FlowIdentity * Z));
  pending_ending_deadlines : gmap Z (Z * FlowIdentity);
  ending_index_dirty : bool;
  ending_count : Z;
  next_ending_id : Z;
}.

Definition no_endings : Endings := mkEndings ∅ ∅ ∅ false 0 0.

Definition ending_leb : Z * (FlowIdentity * Z) → Z * (FlowIdentity * Z) → bool := expiry_leb anonymous_leb.

(** [entry(i).or_default().insert(id)]. *)
Definition note_expired (m : gmap FlowIdentity (gset Z)) (e : Z * (FlowIdentity * Z)) : gmap FlowIdentity (gset Z) :=
  <[fst (snd e) := {[snd (snd e)]} ∪ default ∅ (m !! fst (snd e))]> m.

Definition drop_windows (s : Endings) (p : FlowIdentity * gset Z) : Endings :=
  match endings s !! fst p with
  | None => s
  | Some entries =>
    let kept := List.filter (λ w, negb (bool_decide (w_id w ∈ snd p))) entries in
    let removed := zlen entries - zlen kept in
    mkEndings (match kept with [] => delete (fst p) (endings s) | _ => <[fst p := kept]> (endings s) end)
      (ending_expirations s) (pending_ending_deadlines s) (ending_index_dirty s || (0 <? removed)) (ending_count s - removed) (next_ending_id s)
  end.

(** The loop takes the first pair while that has expired; the iteration order
    of the map of expired windows does not matter. *)
Definition expire_endings (now : Z) (s : Endings) : Endings :=
  let popped := take_while (λ e, fst e <=? now) (btree_elements ending_leb (ending_expirations s)) in
  let expired := foldl note_expired ∅ popped in
  foldl drop_windows
    (mkEndings (endings s) (ending_expirations s ∖ list_to_set popped)
       (foldl (λ m e, delete (snd (snd e)) m) (pending_ending_deadlines s) popped) (ending_index_dirty s) (ending_count s) (next_ending_id s))
    (map_to_list expired).

Definition insert_ending (i : FlowIdentity) (first last now : Z) (s : Endings) : Endings * bool :=
  let s := if CACHE_CAPACITY <=? ending_count s then expire_endings now s else s in
  if CACHE_CAPACITY <=? ending_count s then (s, false)
  else
    let id := next_ending_id s in
    let expires := now + CACHE_TTL in
    (mkEndings (<[i := default [] (endings s !! i) ++ [mkWindow id first last now expires]]> (endings s))
       ({[(expires, (i, id))]} ∪ ending_expirations s) (<[id := (now + ENDING_DELAY, i)]> (pending_ending_deadlines s))
       (ending_index_dirty s) (ending_count s + 1) ((id + 1) mod 2 ^ 64), true).

Definition take_ending_updates (s : Endings) : Endings * (list (Z * FlowIdentity) * gset FlowIdentity * bool) :=
  let deadlines := snd <$> map_to_list (pending_ending_deadlines s) in
  let refresh := list_to_set (snd <$> deadlines) : gset FlowIdentity in
  (mkEndings (endings s) (ending_expirations s) ∅ false (ending_count s) (next_ending_id s),
   (deadlines, if ending_index_dirty s then refresh ∪ dom (endings s) else refresh, ending_index_dirty s)).

Definition is_mature (now : Z) (w : EndingWindow) : bool := ((now <? w_expires w) && (ENDING_DELAY <=? Z.max 0 (now - received_at w)))%bool.
Definition window_span (w : EndingWindow) : Z * Z := (w_first_seen_unix_ms w, w_last_seen_unix_ms w).
Definition mature_ending_windows (i : FlowIdentity) (now : Z) (s : Endings) : list (Z * Z) :=
  window_span <$> List.filter (is_mature now) (default [] (endings s !! i)).

(** ** Keeping the index of the worker current *)

(** The deadlines are a priority queue, whose content is all that matters. *)
Record Ready := mkReady { ending_deadlines : list (Z * FlowIdentity); ready_endings : gmap FlowIdentity EndingIntervalIndex }.

Definition set_ready (r : gmap FlowIdentity EndingIntervalIndex) (p : FlowIdentity * list (Z * Z)) : gmap FlowIdentity EndingIntervalIndex :=
  match new_index (snd p) with Some ix => <[fst p := ix]> r | None => delete (fst p) r end.

(** One pass of the worker: expire, take the updates, and index the identities that
    changed; the result also names those whose deadline has passed. *)
Definition refresh_endings (now : Z) (s : Endings) (r : Ready) : Endings * Ready * gset FlowIdentity :=
  let s := expire_endings now s in
  let '(s, (deadlines, refresh, rebuild_all)) := take_ending_updates s in
  let heap := ending_deadlines r ++ deadlines in
  let due := List.filter (λ d, fst d <=? now) heap in
  let due_identities := list_to_set (snd <$> due) : gset FlowIdentity in
  let snapshots := (λ i, (i, mature_ending_windows i now s)) <$> elements (refresh ∪ due_identities) in
  let ready := if rebuild_all then ∅ else ready_endings r in
  (s, mkReady (List.filter (λ d, negb (fst d <=? now)) heap) (foldl set_ready ready snapshots), due_identities).

(** * The index answers what scanning the windows would *)

Lemma take_while_filter {A} (p : A → bool) (l : list A) (R : A → A → Prop) : StronglySorted R l →
  (∀ x y, R x y → p y = true → p x = true) → take_while p l = List.filter p l.
Proof.
  intros Hs Hp. induction Hs as [|x l Hs IH Hall]; [done|]. cbn. destruct (p x) eqn:E; [by f_equal|]. clear IH Hs. symmetry.
  induction Hall as [|y l Hy _ IH]; [done|]. cbn. destruct (p y) eqn:Ey; [|done]. by rewrite (Hp _ _ Hy Ey) in E.
Qed.

Lemma take_while_prefix {A} (p : A → bool) (l : list A) : ∃ r, l = take_while p l ++ r.
Proof. induction l as [|x l [r IH]]; cbn; [by exists []|]. destruct (p x); [exists r; by rewrite IH at 1|by exists (x :: l)]. Qed.

Lemma take_while_fmap {A B} (f : A → B) (p : B → bool) (l : list A) : take_while p (f <$> l) = f <$> take_while (λ x, p (f x)) l.
Proof. induction l as [|x l IH]; [done|]. cbn. destruct (p (f x)); [|done]. cbn. by rewrite <- IH. Qed.

(** The entry of the prefix maxima at the end of a prefix is the maximum of that prefix. *)
Lemma prefix_max_lookup m l n : (n < length l)%nat → prefix_max m l !! n = Some (foldl Z.max m (take (S n) l)).
Proof.
  revert m n. induction l as [|x l IH]; intros m n Hn; cbn in Hn; [lia|]. destruct n as [|n]; [done|]. cbn [prefix_max lookup list_lookup take foldl].
  apply (IH (Z.max m x) n). lia.
Qed.

Lemma le_foldl_max a m l : a ≤ foldl Z.max m l ↔ a ≤ m ∨ ∃ x, x ∈ l ∧ a ≤ x.
Proof.
  revert m. induction l as [|x l IH]; intros m; cbn; [set_solver|]. rewrite IH. setoid_rewrite elem_of_cons. split.
  - intros [H|(y & Hy & H)]; [destruct (Z.max_spec m x) as [[_ E]|[_ E]]; rewrite E in H; eauto|eauto].
  - intros [H|(y & [->|Hy] & H)]; [left; lia|left; lia|eauto].
Qed.

Lemma saturating_le a b : a ≤ u64_saturating_add b 1 ↔ a ≤ u64_max ∧ a ≤ b + 1.
Proof. unfold u64_saturating_add. lia. Qed.

(** A window overlaps the lifetime of a sample, with a tolerance of one
    millisecond. *)
Definition window_overlaps (first last : Z) (w : Z * Z) : bool :=
  ((fst w <=? u64_saturating_add last 1) && (first <=? u64_saturating_add (snd w) 1))%bool.

(** The interval index of the inspection worker, a binary search over sorted starts
    and a table of prefix maxima, answers exactly whether some window overlaps
    the lifetime of a sample, as scanning all windows would. *)
Lemma interval_index_correct windows first last : Forall (λ w, 0 ≤ snd w) windows → is_u64 first →
  match new_index windows with Some ix => overlaps ix first last | None => false end = existsb (window_overlaps first last) windows.
Proof.
  intros Hpos Hfirst. destruct windows as [|w0 ws]; [done|]. unfold new_index. set (l := w0 :: ws) in *.
  assert (existsb (window_overlaps first last) l = existsb (window_overlaps first last) (sort_by (λ a b, fst a <=? fst b) l)) as ->.
  { apply eq_true_iff_eq. rewrite !existsb_exists. setoid_rewrite <- list_elem_of_In. by setoid_rewrite elem_of_sort_by. }
  assert (StronglySorted (λ a b : Z * Z, (fst a <=? fst b) = true) (sort_by (λ a b, fst a <=? fst b) l)) as Hs
    by (apply sort_by_sorted; intros; rewrite ?Z.leb_le, ?Z.leb_gt in *; lia).
  assert (Forall (λ w : Z * Z, 0 ≤ snd w) (sort_by (λ a b, fst a <=? fst b) l)) as Hpos' by (by rewrite sort_by_perm).
  clearbody l. set (k := sort_by _ l) in *. clearbody k. clear Hpos w0 ws l.
  unfold overlaps, partition_point. cbn [starts prefix_max_ends]. rewrite take_while_fmap, length_fmap.
  set (p := λ x : Z * Z, fst x <=? u64_saturating_add last 1).
  assert (take_while p k = List.filter p k) as Htw.
  { eapply take_while_filter; [exact Hs|]. unfold p. cbn. intros x y. rewrite !Z.leb_le. lia. }
  destruct (take_while_prefix p k) as [r Hr]. assert (∀ x, x ∈ take_while p k ↔ x ∈ k ∧ p x = true) as Hel by (intros; by rewrite Htw, elem_of_filterb).
  apply eq_true_iff_eq. rewrite existsb_exists. setoid_rewrite <- list_elem_of_In. unfold window_overlaps. setoid_rewrite andb_true_iff.
  destruct (length (take_while p k)) as [|n] eqn:Hlen.
  - apply nil_length_inv in Hlen. rewrite Hlen in Hel. split; [done|]. intros (x & Hx & Hp & _). exfalso.
    assert (x ∈ ([] : list (Z * Z))) by (apply Hel; done). set_solver.
  - rewrite prefix_max_lookup by (rewrite length_fmap, Hr, length_app; lia).
    assert (take (S n) (snd <$> k) = snd <$> take_while p k) as ->.
    { rewrite Hr at 1. rewrite fmap_app, <- Hlen, <- (length_fmap snd (take_while p k)). by rewrite take_app_length. }
    rewrite Z.leb_le, saturating_le. setoid_rewrite Z.leb_le. setoid_rewrite (saturating_le first). assert (first ≤ u64_max) as Hmax by (unfold is_u64, in_width, u64_max in *; lia).
    rewrite Forall_forall in Hpos'. split.
    + intros [_ Hle]. assert (first - 1 ≤ foldl Z.max 0 (snd <$> take_while p k)) as H%le_foldl_max by lia.
      assert (∃ x, x ∈ take_while p k ∧ first - 1 ≤ snd x) as (x & [Hx Hpx]%Hel & Hle').
      { destruct H as [H|(y & (x & -> & Hx)%list_elem_of_fmap & H)]; [|eauto]. destruct (take_while p k) as [|x t]; [done|]. exists x. split; [left|].
        assert (x ∈ k) as Hx by (apply Hel; left). specialize (Hpos' _ Hx). lia. }
      exists x. unfold p in Hpx. apply Z.leb_le in Hpx. split_and!; [done|done|done|lia].
    + intros (x & Hx & Hpx & _ & Hle). split; [done|]. assert (first - 1 ≤ foldl Z.max 0 (snd <$> take_while p k)); [|lia].
      apply le_foldl_max. right. exists (snd x). split; [|lia]. apply list_elem_of_fmap. exists x. split; [done|]. apply Hel. split; [done|]. by apply Z.leb_le.
Qed.

Lemma interval_index_correct_witness : let ws := [(100, 200); (50, 900); (400, 500)] in
  overlaps (mkIndex [50; 100; 400] [900; 900; 900]) 700 800 = true ∧ existsb (window_overlaps 700 800) ws = true ∧
  match new_index ws with Some ix => overlaps ix 902 950 | None => false end = existsb (window_overlaps 902 950) ws.
Proof.
  split; [reflexivity|]. split; [reflexivity|]. apply interval_index_correct; [repeat constructor; cbn; lia|unfold is_u64, in_width; lia].
Defined.

(** * The windows of ended flows *)

Definition windows (s : Endings) (i : FlowIdentity) : list EndingWindow := default [] (endings s !! i).
Definition total (m : gmap FlowIdentity (list EndingWindow)) : Z := map_fold (λ _ l n, zlen l + n) 0 m.

(** Each window is listed for expiry once, under a number of its own, and counted. *)
Record endings_ok (s : Endings) : Prop := mkEndingsOk {
  eo_expiry : ∀ t i n, (t, (i, n)) ∈ ending_expirations s ↔ ∃ w, w ∈ windows s i ∧ w_id w = n ∧ w_expires w = t;
  eo_ids : ∀ i, NoDup (w_id <$> windows s i);
  eo_owner : ∀ i j w v, w ∈ windows s i → v ∈ windows s j → w_id w = w_id v → i = j;
  eo_fresh : ∀ i w, w ∈ windows s i → 0 ≤ w_id w < next_ending_id s;
  eo_nonempty : ∀ i, endings s !! i ≠ Some [];
  eo_count : ending_count s = total (endings s);
}.

Lemma total_insert_None m i l : m !! i = None → total (<[i := l]> m) = zlen l + total m.
Proof. intros Hi. unfold total. rewrite map_fold_insert_L; [done| |done]. intros. lia. Qed.

Lemma total_delete m i : total (delete i m) = total m - zlen (default [] (m !! i)).
Proof.
  destruct (m !! i) as [l|] eqn:E.
  - change (default [] (Some l)) with l. pose proof (total_insert_None (delete i m) i l (lookup_delete_eq _ _)) as Ht.
    rewrite (insert_delete_id m i l E) in Ht. lia.
  - rewrite delete_id by done. change (zlen (default [] None)) with 0. lia.
Qed.

Lemma total_insert m i l : total (<[i := l]> m) = total m - zlen (default [] (m !! i)) + zlen l.
Proof. rewrite <- insert_delete_eq, total_insert_None by apply lookup_delete_eq. rewrite total_delete. lia. Qed.

Lemma total_nonneg m : 0 ≤ total m.
Proof. induction m as [|i l m Hi IH] using map_ind; [done|]. rewrite total_insert_None by done. pose proof (zlen_nonneg l). lia. Qed.

Lemma filterb_same_length {A} (p : A → bool) l : zlen l ≤ zlen (List.filter p l) → List.filter p l = l.
Proof.
  induction l as [|x l IH]; [done|]. cbn. pose proof (zlen_filterb_le p l). destruct (p x); rewrite !zlen_cons; intros; [|lia]. f_equal. apply IH. lia.
Qed.

Definition remaining (ids : gset Z) : list EndingWindow → list EndingWindow := List.filter (λ w, negb (bool_decide (w_id w ∈ ids))).

(** Dropping windows of one identity. *)
Record dropped_windows (i : FlowIdentity) (ids : gset Z) (s s' : Endings) : Prop := mkDropped {
  dw_own : windows s' i = remaining ids (windows s i);
  dw_other : ∀ j, j ≠ i → windows s' j = windows s j;
  dw_same : ending_expirations s' = ending_expirations s ∧ pending_ending_deadlines s' = pending_ending_deadlines s ∧ next_ending_id s' = next_ending_id s;
  dw_nonempty : (∀ j, endings s !! j ≠ Some []) → ∀ j, endings s' !! j ≠ Some [];
  dw_count : ending_count s' - total (endings s') = ending_count s - total (endings s);
  dw_clean : ending_index_dirty s' = false → ending_index_dirty s = false ∧ windows s' i = windows s i;
}.

Lemma drop_windows_dropped i ids s : dropped_windows i ids s (drop_windows s (i, ids)).
Proof.
  unfold drop_windows. cbn [fst snd]. destruct (endings s !! i) as [l|] eqn:E.
  2: { split; try done; unfold windows; by rewrite E. }
  fold (remaining ids l). destruct (remaining ids l) as [|w k] eqn:Ek.
  - split; unfold windows; cbn [endings ending_expirations pending_ending_deadlines next_ending_id ending_count ending_index_dirty]; try done.
    + by rewrite lookup_delete_eq, E.
    + intros j Hj. by rewrite lookup_delete_ne.
    + intros Hn j. destruct (decide (i = j)) as [->|]; [by rewrite lookup_delete_eq|by rewrite lookup_delete_ne].
    + rewrite total_delete, E. change (default [] (Some l)) with l. change (zlen []) with 0. lia.
    + intros [Hd Hz]%orb_false_iff. split; [done|]. rewrite lookup_delete_eq, E. cbn. change (zlen []) with 0 in Hz. pose proof (zlen_nonneg l). symmetry. apply zlen_nil_iff. lia.
  - split; unfold windows; cbn [endings ending_expirations pending_ending_deadlines next_ending_id ending_count ending_index_dirty]; try done.
    + by rewrite lookup_insert_eq, E.
    + intros j Hj. by rewrite lookup_insert_ne.
    + intros Hn j. destruct (decide (i = j)) as [->|]; [by rewrite lookup_insert_eq|by rewrite lookup_insert_ne].
    + rewrite total_insert, E. change (default [] (Some l)) with l. lia.
    + intros [Hd Hz]%orb_false_iff. split; [done|]. rewrite lookup_insert_eq, E. cbn. rewrite <- Ek. apply filterb_same_length. fold (remaining ids l). rewrite Ek. lia.
Qed.

(** Dropping windows of several identities. *)
Lemma drop_all l s : NoDup (fst <$> l) → let s' := foldl drop_windows s l in
  (∀ i ids, (i, ids) ∈ l → windows s' i = remaining ids (windows s i)) ∧ (∀ i, i ∉ fst <$> l → windows s' i = windows s i) ∧
  (ending_expirations s' = ending_expirations s ∧ pending_ending_deadlines s' = pending_ending_deadlines s ∧ next_ending_id s' = next_ending_id s) ∧
  ((∀ j, endings s !! j ≠ Some []) → ∀ j, endings s' !! j ≠ Some []) ∧
  ending_count s' - total (endings s') = ending_count s - total (endings s) ∧
  (ending_index_dirty s' = false → ending_index_dirty s = false ∧ ∀ i, windows s' i = windows s i).
Proof.
  revert s. induction l as [|[i ids] l IH]; intros s Hnd; cbn [foldl].
  { split_and!; try done. intros i ids Hin. set_solver. }
  apply NoDup_cons in Hnd as [Hi Hnd]. cbn [fst] in Hi. destruct (drop_windows_dropped i ids s) as [Hown Hoth (Hx & Hp & Hn) Hne Hc Hd].
  destruct (IH (drop_windows s (i, ids)) Hnd) as (Hown' & Hoth' & (Hx' & Hp' & Hn') & Hne' & Hc' & Hd'). split_and!.
  - intros j jds [[= -> ->]|Hin]%elem_of_cons; [rewrite Hoth'; done|]. rewrite (Hown' _ _ Hin), Hoth; [done|]. intros ->. apply Hi. apply list_elem_of_fmap. by exists (i, jds).
  - intros j Hj. cbn in Hj. rewrite Hoth' by set_solver. apply Hoth. set_solver.
  - congruence.
  - congruence.
  - congruence.
  - auto.
  - lia.
  - intros Hf. destruct (Hd' Hf) as [Hf1 Hw]. destruct (Hd Hf1) as [Hf2 Hw2]. split; [done|]. intros j. rewrite Hw. destruct (decide (j = i)) as [->|]; [done|by apply Hoth].
Qed.

(** Popping the first pair of an expiry index while that has expired takes
    exactly the expired pairs. *)
Lemma elem_of_expired_prefix {K} `{Countable K} (leb : K → K → bool) `{!TotalOrder leb} (now : Z) (X : gset (Z * K)) e :
  e ∈ take_while (λ e, fst e <=? now) (btree_elements (expiry_leb leb) X) ↔ e ∈ X ∧ fst e ≤ now.
Proof.
  rewrite (take_while_filter _ _ (λ x y, expiry_leb leb x y = true)).
  - rewrite elem_of_filterb, elem_of_btree_elements, Z.leb_le. done.
  - apply sort_by_sorted; [apply order_total|apply order_trans].
  - intros x y Hxy. rewrite !Z.leb_le. unfold expiry_leb, lex_leb in Hxy. case_bool_decide as E; [lia|]. apply Z.leb_le in Hxy. lia.
Qed.

Lemma NoDup_expired_prefix {K} `{Countable K} (leb : K → K → bool) (p : Z * K → bool) (X : gset (Z * K)) :
  NoDup (take_while p (btree_elements (expiry_leb leb) X)).
Proof. destruct (take_while_prefix p (btree_elements (expiry_leb leb) X)) as [r Hr]. pose proof (NoDup_btree_elements (expiry_leb leb) X) as Hnd. rewrite Hr in Hnd. by apply NoDup_app in Hnd as [? _]. Qed.

Lemma elem_of_noted l m i n : n ∈ default ∅ (foldl note_expired m l !! i) ↔ n ∈ default ∅ (m !! i) ∨ ∃ t, (t, (i, n)) ∈ l.
Proof.
  revert m. induction l as [|[t [j k]] l IH]; intros m; cbn [foldl]; [set_solver|]. rewrite IH. unfold note_expired at 1. cbn [fst snd].
  setoid_rewrite elem_of_cons. destruct (decide (j = i)) as [->|].
  - rewrite lookup_insert_eq. cbn. rewrite elem_of_union, elem_of_singleton. naive_solver.
  - rewrite lookup_insert_ne by done. naive_solver.
Qed.

Lemma lookup_delete_all {A} (l : list (Z * (FlowIdentity * Z))) (m : gmap Z A) n :
  foldl (λ m e, delete (snd (snd e)) m) m l !! n = if bool_decide (n ∈ (λ e, snd (snd e)) <$> l) then None else m !! n.
Proof.
  revert m. induction l as [|e l IH]; intros m; [done|]. cbn [foldl fmap list_fmap]. rewrite IH. repeat case_bool_decide; try set_solver.
  - destruct (decide (n = snd (snd e))) as [->|]; [by rewrite lookup_delete_eq|]. exfalso. set_solver.
  - apply lookup_delete_ne. set_solver.
Qed.

(** What expiry does: exactly the expired windows go, and unless the index is
    then marked as stale, there were none. *)
Record expired_endings (now : Z) (s s' : Endings) : Prop := mkExpired {
  xe_ok : endings_ok s';
  xe_windows : ∀ i, windows s' i = List.filter (λ w, now <? w_expires w) (windows s i);
  xe_pending : ∀ i w, w ∈ windows s' i → pending_ending_deadlines s' !! w_id w = pending_ending_deadlines s !! w_id w;
  xe_next : next_ending_id s' = next_ending_id s;
  xe_clean : ending_index_dirty s' = false →
    ending_index_dirty s = false ∧ pending_ending_deadlines s' = pending_ending_deadlines s ∧ ∀ i, windows s' i = windows s i;
  xe_count : ending_count s' ≤ ending_count s;
  xe_less : pending_ending_deadlines s' ⊆ pending_ending_deadlines s;
}.

Lemma drop_windows_count s p : ending_count (drop_windows s p) ≤ ending_count s.
Proof.
  unfold drop_windows. destruct (endings s !! fst p) as [l|]; [|done]. cbn [ending_count].
  pose proof (zlen_filterb_le (λ w, negb (bool_decide (w_id w ∈ snd p))) l). lia.
Qed.

Lemma drop_all_count l s : ending_count (foldl drop_windows s l) ≤ ending_count s.
Proof. revert s. induction l as [|p l IH]; intros s; cbn [foldl]; [done|]. pose proof (drop_windows_count s p). specialize (IH (drop_windows s p)). lia. Qed.

Lemma expire_endings_expired now s : endings_ok s → expired_endings now s (expire_endings now s).
Proof.
  intros [Hx Hids Hown Hfresh Hne Hcount]. unfold expire_endings. set (popped := take_while _ _). cbv zeta. set (expired := foldl note_expired ∅ popped).
  assert (∀ e, e ∈ popped ↔ e ∈ ending_expirations s ∧ fst e ≤ now) as Hpop by (intros; by apply (elem_of_expired_prefix anonymous_leb)).
  assert (∀ i w, w ∈ windows s i → w_id w ∈ default ∅ (expired !! i) ↔ w_expires w ≤ now) as Hexp.
  { intros i w Hw. unfold expired. rewrite elem_of_noted, lookup_empty. setoid_rewrite Hpop. cbn [fst]. split.
    - intros [H|(t & (v & Hv & Hid & <-)%Hx & Ht)]; [cbn in H; set_solver|]. by rewrite (NoDup_key_inj w_id _ w v (Hids i) Hw Hv).
    - intros Hle. right. exists (w_expires w). split; [|done]. apply Hx. eauto. }
  match goal with |- expired_endings _ _ (foldl _ ?s1 _) => set (s1' := s1) end.
  destruct (drop_all (map_to_list expired) s1' (NoDup_fst_map_to_list _)) as (Hin & Hout & (Hx' & Hp' & Hn') & Hne' & Hc' & Hd').
  set (s' := foldl drop_windows s1' (map_to_list expired)) in *. assert (∀ i, windows s1' i = windows s i) as Hs1 by done.
  assert (∀ i, windows s' i = List.filter (λ w, now <? w_expires w) (windows s i)) as Hw.
  { intros i. assert (windows s' i = remaining (default ∅ (expired !! i)) (windows s i)) as ->.
    - destruct (expired !! i) as [ids|] eqn:E; [apply Hin; by apply elem_of_map_to_list|]. rewrite Hout, Hs1.
      + unfold remaining. cbn [default]. symmetry. apply filterb_same_length. clear. induction (windows s i) as [|w l IH]; [done|]. cbn.
        rewrite bool_decide_false by (cbn; set_solver). cbn. rewrite !zlen_cons. lia.
      + intros ([j ids] & -> & Hj%elem_of_map_to_list)%list_elem_of_fmap. cbn in E. congruence.
    - unfold remaining. apply filter_ext_in. intros w Hw%list_elem_of_In. specialize (Hexp i w Hw). destruct (Z.ltb_spec now (w_expires w)).
      + rewrite bool_decide_false; [done|]. rewrite Hexp. lia.
      + rewrite bool_decide_true; [done|]. rewrite Hexp. lia. }
  assert (∀ i w, w ∈ windows s' i ↔ w ∈ windows s i ∧ now < w_expires w) as Hel by (intros; by rewrite Hw, elem_of_filterb, Z.ltb_lt).
  split.
  - split.
    + intros t i n. rewrite Hx'. unfold s1'. cbn [ending_expirations]. rewrite elem_of_difference, elem_of_list_to_set, Hpop, Hx. cbn [fst]. setoid_rewrite Hel.
      split; [intros [(w & Hwi & Hid & Ht) Hno]|intros (w & [Hwi Hlt] & Hid & Ht)].
      * exists w. split_and!; try done. apply Z.nle_gt. intros Hle. apply Hno. split; [eauto|lia].
      * split; [eauto|]. intros [_ Hle]. lia.
    + intros i. rewrite Hw. eapply sublist_NoDup; [apply (Hids i)|]. apply fmap_sublist, filterb_sublist.
    + intros i j w v [Hwi _]%Hel [Hv _]%Hel. by apply Hown.
    + intros i w [Hwi _]%Hel. rewrite Hn'. by apply (Hfresh i).
    + by apply Hne'.
    + change (ending_count s1') with (ending_count s) in Hc'. change (endings s1') with (endings s) in Hc'. lia.
  - done.
  - intros i w [Hwi Hlt]%Hel. rewrite Hp'. unfold s1'. cbn [pending_ending_deadlines]. rewrite lookup_delete_all, bool_decide_false; [done|].
    intros ([t [j n]] & Hid & Hin')%list_elem_of_fmap. cbn in Hid. subst n. apply Hpop in Hin' as [(v & Hv & Hid & <-)%Hx Ht]. cbn in Ht.
    pose proof (Hown _ _ _ _ Hv Hwi Hid) as ->. rewrite (NoDup_key_inj w_id _ w v (Hids i) Hwi Hv) in Hlt; [lia|done].
  - by rewrite Hn'.
  - intros [Hd Hsame]%Hd'. split_and!; [done| |done]. rewrite Hp'. unfold s1'. cbn [pending_ending_deadlines].
    destruct popped as [|[t [i n]] l]; [done|]. exfalso. destruct (proj1 (Hpop (t, (i, n)))) as [(w & Hwi & _ & <-)%Hx Ht]; [left|].
    rewrite <- Hs1, <- Hsame, Hel in Hwi. cbn in Ht. lia.
  - apply (drop_all_count _ s1').
  - rewrite Hp'. apply map_subseteq_spec. intros n p. unfold s1'. cbn [pending_ending_deadlines]. rewrite lookup_delete_all. by case_bool_decide.
Qed.

(** A new window. *)
Lemma push_ending_ok i first last now s (w := mkWindow (next_ending_id s) first last now (now + CACHE_TTL)) : endings_ok s → 0 ≤ next_ending_id s < 2 ^ 64 - 1 →
  let s' := mkEndings (<[i := windows s i ++ [w]]> (endings s)) ({[(now + CACHE_TTL, (i, next_ending_id s))]} ∪ ending_expirations s)
              (<[next_ending_id s := (now + ENDING_DELAY, i)]> (pending_ending_deadlines s)) (ending_index_dirty s) (ending_count s + 1)
              ((next_ending_id s + 1) mod 2 ^ 64) in
  endings_ok s' ∧ windows s' i = windows s i ++ [w] ∧ (∀ j, j ≠ i → windows s' j = windows s j) ∧ next_ending_id s' = next_ending_id s + 1.
Proof.
  intros [Hx Hids Hown Hfresh Hne Hcount] Hnext s'.
  assert (next_ending_id s' = next_ending_id s + 1) as Hn by (cbn; rewrite Z.mod_small; lia).
  assert (windows s' i = windows s i ++ [w]) as Hi by (unfold windows; cbn; by rewrite lookup_insert_eq).
  assert (∀ j, j ≠ i → windows s' j = windows s j) as Hj by (intros; unfold windows; cbn; by rewrite lookup_insert_ne).
  assert (∀ j v, v ∈ windows s' j ↔ v ∈ windows s j ∨ (j = i ∧ v = w)) as Hel.
  { intros j v. destruct (decide (j = i)) as [->|]; [rewrite Hi, elem_of_app, list_elem_of_singleton; naive_solver|rewrite Hj by done; naive_solver]. }
  assert (∀ j v, v ∈ windows s j → w_id v ≠ next_ending_id s) as Hold by (intros j v Hv; specialize (Hfresh _ _ Hv); lia).
  split_and!; [|done|done|done]. split.
  - intros t j n. cbn [ending_expirations s']. rewrite elem_of_union, elem_of_singleton, Hx. setoid_rewrite Hel. split.
    + intros [[= -> -> ->]|(v & Hv & Hid & Ht)]; [exists w; auto|eauto].
    + intros (v & [Hv|[-> ->]] & <- & <-); [right; eauto|by left].
  - intros j. destruct (decide (j = i)) as [->|]; [|by rewrite Hj]. rewrite Hi, fmap_app. apply NoDup_app. split_and!; [done| |apply NoDup_singleton].
    intros n (v & -> & Hv)%list_elem_of_fmap. cbn. rewrite list_elem_of_singleton. by apply (Hold i).
  - intros j k v u [Hv|[-> ->]]%Hel [Hu|[-> ->]]%Hel E; cbn in E; [by eapply Hown|by apply Hold in Hv|by apply Hold in Hu|done].
  - intros j v [Hv|[-> ->]]%Hel; rewrite Hn; [specialize (Hfresh _ _ Hv)|cbn]; lia.
  - intros j. cbn [endings s']. destruct (decide (i = j)) as [->|]; [|by rewrite lookup_insert_ne]. rewrite lookup_insert_eq. intros [= E]. by destruct (windows s j).
  - cbn [endings ending_count s']. rewrite total_insert, zlen_app. change (zlen [w]) with 1. fold (windows s i). lia.
Qed.

(** * The index of the worker is current *)

(** The telemetry side inserts and expires at any time; the worker refreshes at
    times that do not decrease. *)
Inductive reachable : Endings → Ready → Z → Prop :=
| r_start t : reachable no_endings (mkReady [] ∅) t
| r_insert s r t i first last now : reachable s r t → is_u64 last → next_ending_id s < 2 ^ 64 - 1 →
    reachable (fst (insert_ending i first last now s)) r t
| r_expire s r t now : reachable s r t → reachable (expire_endings now s) r t
| r_refresh s r t now s' r' due : reachable s r t → t ≤ now → refresh_endings now s r = (s', r', due) → reachable s' r' now.

Definition ripe (t : Z) (w : EndingWindow) : bool := received_at w + ENDING_DELAY <=? t.

(** Every window is ripe, or waits in the queue of the worker or among the updates;
    and where no update is pending, the index lists the ripe windows. *)
Record index_current (s : Endings) (r : Ready) (t : Z) : Prop := mkCurrent {
  ic_ok : endings_ok s;
  ic_next : 0 ≤ next_ending_id s;
  ic_count : ending_count s ≤ CACHE_CAPACITY;
  ic_last : ∀ i w, w ∈ windows s i → 0 ≤ w_last_seen_unix_ms w;
  ic_covered : ∀ i w, w ∈ windows s i → ripe t w = true ∨ (received_at w + ENDING_DELAY, i) ∈ ending_deadlines r ∨
    pending_ending_deadlines s !! w_id w = Some (received_at w + ENDING_DELAY, i);
  ic_pending : map_Forall (λ n p, n < next_ending_id s ∧ ∀ i w, w ∈ windows s i → w_id w = n → p = (received_at w + ENDING_DELAY, i))
    (pending_ending_deadlines s);
  ic_ready : ending_index_dirty s = false → ∀ i, (∀ n d, pending_ending_deadlines s !! n ≠ Some (d, i)) →
    ready_endings r !! i = new_index (window_span <$> List.filter (ripe t) (windows s i));
}.

Lemma expire_current now s r t : index_current s r t → index_current (expire_endings now s) r t.
Proof.
  intros [Hok Hn Hc Hl Hcov Hpn Hr]. destruct (expire_endings_expired now s Hok) as [Hok' Hw Hp Hn' Hclean Hc' Hless].
  assert (∀ i w, w ∈ windows (expire_endings now s) i → w ∈ windows s i) as Hsub by (intros i w; rewrite Hw, elem_of_filterb; tauto).
  split; [done|lia|lia|intros i w Hwi; by apply (Hl i), Hsub| | |].
  - intros i w Hwi. rewrite (Hp i w Hwi). by apply Hcov, Hsub.
  - rewrite Hn'. eapply map_Forall_impl; [by eapply map_Forall_sub|]. cbn beta. intros n p [Hlt Hcons]. split; [done|]. intros i w Hwi. by apply Hcons, Hsub.
  - intros (Hd & -> & Hsame)%Hclean i Hnone. rewrite Hsame. by apply Hr.
Qed.

Lemma insert_current i first last now s r t : index_current s r t → is_u64 last → next_ending_id s < 2 ^ 64 - 1 →
  index_current (fst (insert_ending i first last now s)) r t.
Proof.
  intros Hcur Hlast Hnext. unfold insert_ending.
  set (s1 := if CACHE_CAPACITY <=? ending_count s then expire_endings now s else s).
  assert (index_current s1 r t ∧ next_ending_id s1 = next_ending_id s) as [[Hok Hn Hc Hl Hcov Hpn Hr] Hnx].
  { unfold s1. destruct (_ <=? _); [|done]. split; [by apply expire_current|]. by destruct (expire_endings_expired now s (ic_ok _ _ _ Hcur)). }
  destruct (Z.leb_spec CACHE_CAPACITY (ending_count s1)); cbn [fst]; [done|]. fold (windows s1 i).
  destruct (push_ending_ok i first last now s1 Hok) as (Hok' & Hi & Hj & Hn'); [lia|]. cbv zeta in Hok', Hi, Hj, Hn'.
  match goal with |- index_current ?x _ _ => set (s' := x) in * end. set (w := mkWindow _ _ _ _ _) in *.
  assert (∀ j v, v ∈ windows s' j → v ∈ windows s1 j ∨ (j = i ∧ v = w)) as Hel.
  { intros j v. destruct (decide (j = i)) as [->|]; [rewrite Hi, elem_of_app, list_elem_of_singleton; naive_solver|rewrite Hj by done; naive_solver]. }
  split; [done|lia|cbn; lia| | | |].
  - intros j v [Hv|[_ ->]]%Hel; [by apply (Hl j)|]. cbn. unfold is_u64, in_width in Hlast. lia.
  - intros j v [Hv|[-> ->]]%Hel; [|right; right; cbn; by rewrite lookup_insert_eq].
    cbn [pending_ending_deadlines s']. rewrite lookup_insert_ne; [by apply Hcov|]. pose proof (eo_fresh _ Hok _ _ Hv). lia.
  - rewrite Hn'. apply map_Forall_insert_2.
    + split; [lia|]. intros j v [Hv|[-> ->]]%Hel Hid; [|done]. pose proof (eo_fresh _ Hok _ _ Hv). lia.
    + eapply map_Forall_impl; [exact Hpn|]. cbn beta. intros n p [Hlt Hcons]. split; [lia|]. intros j v [Hv|[-> ->]]%Hel Hid; [by apply Hcons|]. cbn in Hid. lia.
  - intros Hd j Hnone. destruct (decide (j = i)) as [->|Hne].
    { exfalso. apply (Hnone (next_ending_id s1) (now + ENDING_DELAY)). cbn. by rewrite lookup_insert_eq. }
    rewrite Hj by done. apply Hr; [done|]. intros n d Hp. apply (Hnone n d). cbn [pending_ending_deadlines s'].
    rewrite lookup_insert_ne; [done|]. destruct (Hpn _ _ Hp) as [Hlt _]. lia.
Qed.

(** A window after an insertion was there before, or is the new one. *)
Lemma insert_ending_old i first last now s r t : index_current s r t → is_u64 last → next_ending_id s < 2 ^ 64 - 1 →
  let s' := fst (insert_ending i first last now s) in ∀ j v, v ∈ windows s' j →
  (v ∈ windows s j ∧ (pending_ending_deadlines s' !! w_id v = None → pending_ending_deadlines s !! w_id v = None)) ∨ is_Some (pending_ending_deadlines s' !! w_id v).
Proof.
  intros Hcur Hlast Hnext. unfold insert_ending. set (s1 := if CACHE_CAPACITY <=? ending_count s then expire_endings now s else s).
  assert (endings_ok s1 ∧ next_ending_id s1 = next_ending_id s ∧ ∀ j v, v ∈ windows s1 j → v ∈ windows s j ∧ pending_ending_deadlines s1 !! w_id v = pending_ending_deadlines s !! w_id v)
    as (Hok & Hnx & Hsub).
  { unfold s1. destruct (_ <=? _); [|split; [exact (ic_ok _ _ _ Hcur)|done]]. destruct (expire_endings_expired now s (ic_ok _ _ _ Hcur)) as [Hok' Hw Hp Hn' _ _ _].
    split_and!; [done|done|]. intros j v Hv. split; [rewrite Hw, elem_of_filterb in Hv; tauto|by apply (Hp j)]. }
  destruct (CACHE_CAPACITY <=? ending_count s1); cbn [fst]; cbv zeta; intros j v Hv.
  { left. destruct (Hsub j v Hv) as [? ->]. done. }
  fold (windows s1 i) in *. destruct (push_ending_ok i first last now s1 Hok) as (_ & Hi & Hj & _); [pose proof (ic_next _ _ _ Hcur); lia|]. cbv zeta in Hi, Hj.
  assert (v ∈ windows s1 j ∨ w_id v = next_ending_id s1) as [Hold|Hid].
  { destruct (decide (j = i)) as [->|Hne]; [rewrite Hi, elem_of_app, list_elem_of_singleton in Hv; naive_solver|rewrite Hj in Hv by done; by left]. }
  - left. destruct (Hsub j v Hold) as [Hs Hp]. split; [done|]. cbn [pending_ending_deadlines]. pose proof (eo_fresh _ Hok _ _ Hold). rewrite lookup_insert_ne by lia. by rewrite Hp.
  - right. cbn [pending_ending_deadlines]. rewrite Hid, lookup_insert_eq. eauto.
Qed.

Lemma is_mature_ripe now w : now < w_expires w → is_mature now w = ripe now w.
Proof. intros Hlt. unfold is_mature, ripe, ENDING_DELAY. apply eq_true_iff_eq. rewrite andb_true_iff, Z.ltb_lt, !Z.leb_le. lia. Qed.

Lemma lookup_set_ready (mature : FlowIdentity → list (Z * Z)) l ready i :
  foldl set_ready ready ((λ i, (i, mature i)) <$> l) !! i = if bool_decide (i ∈ l) then new_index (mature i) else ready !! i.
Proof.
  induction l as [|j l IH] using rev_ind; [done|]. rewrite fmap_app, foldl_app. cbn [fmap list_fmap foldl]. unfold set_ready at 1. cbn [fst snd].
  assert (∀ x, x ∈ l ++ [j] ↔ x ∈ l ∨ x = j) as Hel by (intros; by rewrite elem_of_app, list_elem_of_singleton).
  destruct (decide (j = i)) as [->|Hne].
  - rewrite bool_decide_true by (apply Hel; by right). destruct (new_index (mature i)); [by rewrite lookup_insert_eq|by rewrite lookup_delete_eq].
  - rewrite (bool_decide_ext _ (i ∈ l)) by (rewrite Hel; naive_solver). rewrite <- IH. destruct (new_index (mature j)); [by rewrite lookup_insert_ne|by rewrite lookup_delete_ne].
Qed.

(** After a refresh the index of each identity is the one of its mature windows. *)
Lemma refresh_current now s r t : index_current s r t → t ≤ now → let '(s', r', _) := refresh_endings now s r in
  index_current s' r' now ∧ (∀ i w, w ∈ windows s' i → now < w_expires w) ∧
  ∀ i, ready_endings r' !! i = new_index (mature_ending_windows i now s').
Proof.
  intros Hcur Hle. unfold refresh_endings. pose proof (expire_current now s r t Hcur) as [Hok Hn Hc Hl Hcov Hpn Hr].
  destruct (expire_endings_expired now s (ic_ok _ _ _ Hcur)) as [_ Hw _ _ _ _ _]. set (s1 := expire_endings now s) in *. unfold take_ending_updates.
  set (deadlines := snd <$> map_to_list (pending_ending_deadlines s1)). set (s' := mkEndings _ _ ∅ false _ _).
  set (due := List.filter (λ d : Z * FlowIdentity, fst d <=? now) (ending_deadlines r ++ deadlines)).
  set (R := (if ending_index_dirty s1 then list_to_set (snd <$> deadlines) ∪ dom (endings s1) else list_to_set (snd <$> deadlines)) ∪ list_to_set (snd <$> due) : gset FlowIdentity).
  assert (∀ n d i, pending_ending_deadlines s1 !! n = Some (d, i) → (d, i) ∈ deadlines) as Hdl.
  { intros n d i Hp%elem_of_map_to_list. apply list_elem_of_fmap. by exists (n, (d, i)). }
  assert (∀ i d, (d, i) ∈ deadlines → i ∈ R) as HR1.
  { intros i d Hd. apply elem_of_union_l. assert (i ∈ (list_to_set (snd <$> deadlines) : gset FlowIdentity)); [|destruct (ending_index_dirty s1); set_solver].
    apply elem_of_list_to_set, list_elem_of_fmap. by exists (d, i). }
  assert (∀ i d, (d, i) ∈ ending_deadlines r ++ deadlines → d ≤ now → i ∈ R) as HR2.
  { intros i d Hd Hdn. apply elem_of_union_r, elem_of_list_to_set, list_elem_of_fmap. exists (d, i). split; [done|]. apply elem_of_filterb. split; [done|]. by apply Z.leb_le. }
  assert (∀ i w, w ∈ windows s1 i → now < w_expires w) as Hlive by (intros i w; rewrite Hw, elem_of_filterb, Z.ltb_lt; tauto).
  assert (∀ i w, w ∈ windows s1 i → i ∉ R → ripe now w = ripe t w) as Hsame.
  { intros i w Hwi Hi. unfold ripe. apply eq_true_iff_eq. rewrite !Z.leb_le. split; [|lia]. intros Hripe.
    destruct (Hcov i w Hwi) as [Ht|[Hd|Hp]]; [by apply Z.leb_le in Ht| |].
    - exfalso. apply Hi. apply (HR2 i (received_at w + ENDING_DELAY)); [|done]. apply elem_of_app. by left.
    - exfalso. apply Hi. by eapply HR1, Hdl. }
  assert (∀ i, mature_ending_windows i now s' = window_span <$> List.filter (ripe now) (windows s1 i)) as Hmat.
  { intros i. unfold mature_ending_windows. change (endings s' !! i) with (endings s1 !! i). fold (windows s1 i). f_equal. apply filter_ext_in.
    intros w Hwi%list_elem_of_In. by apply is_mature_ripe, (Hlive i). }
  assert (∀ i, foldl set_ready (if ending_index_dirty s1 then ∅ else ready_endings r) ((λ i, (i, mature_ending_windows i now s')) <$> elements R) !! i =
    new_index (mature_ending_windows i now s')) as Hready.
  { intros i. rewrite lookup_set_ready. case_bool_decide as Hi; [done|]. rewrite elem_of_elements in Hi. destruct (ending_index_dirty s1) eqn:Hd.
    - rewrite lookup_empty, Hmat. assert (windows s1 i = []) as ->; [|done]. unfold windows. destruct (endings s1 !! i) as [l|] eqn:E; [|done].
      exfalso. apply Hi. unfold R. apply elem_of_union_l, elem_of_union_r, elem_of_dom. eauto.
    - rewrite Hr; [|done|intros n d Hp; apply Hi; by eapply HR1, Hdl]. rewrite Hmat. do 2 f_equal. apply filter_ext_in. intros w Hwi%list_elem_of_In.
      symmetry. by apply (Hsame i). }
  split_and!; [|done|done]. split; cbn [pending_ending_deadlines next_ending_id ending_count ending_index_dirty ending_deadlines ready_endings s']; try done.
  - destruct Hok as [Hx Hids Hown Hfresh Hne Hcount]. by split.
  - intros i w Hwi. destruct (Z.leb_spec (received_at w + ENDING_DELAY) now) as [Hlw|Hgt]; [left; by apply Z.leb_le|right; left].
    apply elem_of_filterb. split; [|apply negb_true_iff, Z.leb_gt; cbn; lia]. apply elem_of_app. destruct (Hcov i w Hwi) as [Ht|[Hd|Hp]]; [|by left|right; by eapply Hdl].
    apply Z.leb_le in Ht. lia.
  - intros _ i _. rewrite Hready. by rewrite Hmat.
Qed.

(** A window that ripens is of an identity that falls due. *)
Lemma refresh_due now s r t s' r' due : index_current s r t → refresh_endings now s r = (s', r', due) →
  ∀ i w, w ∈ windows s' i → ripe now w = true → i ∉ due → w ∈ windows s i ∧ ripe t w = true ∧ pending_ending_deadlines s !! w_id w = None.
Proof.
  intros Hcur Hr i w Hw Hripe Hdue. pose proof (expire_current now s r t Hcur) as [Hok _ _ _ Hcov Hpn _].
  destruct (expire_endings_expired now s (ic_ok _ _ _ Hcur)) as [_ Hws Hp _ _ _ _]. unfold refresh_endings, take_ending_updates in Hr. injection Hr as <- _ <-.
  change (windows _ i) with (windows (expire_endings now s) i) in Hw. set (s1 := expire_endings now s) in *. apply Z.leb_le in Hripe as Hle.
  assert ((received_at w + ENDING_DELAY, i) ∉ ending_deadlines r ++ (snd <$> map_to_list (pending_ending_deadlines s1))) as Hheap.
  { intros Hin. apply Hdue. apply elem_of_list_to_set, list_elem_of_fmap. exists (received_at w + ENDING_DELAY, i). split; [done|]. apply elem_of_filterb. split; [done|]. by apply Z.leb_le. }
  rewrite elem_of_app in Hheap. rewrite <- (Hp i w Hw). split; [rewrite Hws, elem_of_filterb in Hw; tauto|].
  assert (pending_ending_deadlines s1 !! w_id w = None) as Hnone.
  { destruct (pending_ending_deadlines s1 !! w_id w) as [p|] eqn:E; [|done]. exfalso. apply Hheap. right. destruct (Hpn _ _ E) as [_ Hc]. rewrite (Hc i w Hw eq_refl) in E.
    apply list_elem_of_fmap. exists (w_id w, (received_at w + ENDING_DELAY, i)). split; [done|]. by apply elem_of_map_to_list. }
  split; [|done]. destruct (Hcov i w Hw) as [?|[?|?]]; [done|tauto|congruence].
Qed.

Lemma reachable_current s r t : reachable s r t → index_current s r t.
Proof.
  induction 1 as [t|s r t i first last now _ IH Hl Hn|s r t now _ IH|s r t now s' r' due _ IH Hle Hr].
  - assert (∀ i w, w ∉ windows no_endings i) as Hno by (intros i w; unfold windows; cbn; rewrite lookup_empty; cbn; set_solver).
    split; try done; try (intros i w Hw; by apply Hno in Hw). split; try done; try (intros i w Hw; by apply Hno in Hw).
    + intros t' i n. split; [cbn; set_solver|]. intros (w & Hw & _). by apply Hno in Hw.
    + intros i. unfold windows. cbn. rewrite lookup_empty. constructor.
    + intros i j w v Hw. by apply Hno in Hw.
  - by apply insert_current.
  - by apply expire_current.
  - pose proof (refresh_current now s r t IH Hle) as Hc. rewrite Hr in Hc. by destruct Hc.
Qed.

(** C25: However ended flows are reported, expired and taken over in any interleaving
    with the inspection worker, the worker's incrementally kept index is as good
    as the full table: after each of its passes, asking the index whether a sampled
    flow has ended says exactly whether some reported end of that flow, at least one
    second and less than 300 seconds old, overlaps its lifetime. At most 4096 ends
    are kept. *)
Theorem ending_index_current s r t now s' r' due i first last : reachable s r t → t ≤ now → refresh_endings now s r = (s', r', due) → is_u64 first →
  match ready_endings r' !! i with Some ix => overlaps ix first last | None => false end =
    existsb (λ w, is_mature now w && window_overlaps first last (window_span w))%bool (windows s' i) ∧
  windows s' i = List.filter (λ w, now <? w_expires w) (windows s i) ∧ ending_count s' = total (endings s') ∧ ending_count s' ≤ 4096.
Proof.
  intros Hreach Hle Hr Hfirst. pose proof (reachable_current _ _ _ Hreach) as Hcur. pose proof (refresh_current now s r t Hcur Hle) as Hc. rewrite Hr in Hc.
  destruct Hc as ([Hok _ Hcount Hl _ _ _] & _ & Hready). split_and!; [|..].
  - rewrite Hready, interval_index_correct; [|apply Forall_forall; intros x (w & -> & [Hw _]%elem_of_filterb)%list_elem_of_fmap; by apply (Hl i)|done].
    unfold mature_ending_windows. fold (windows s' i). induction (windows s' i) as [|w l IH]; [done|]. cbn. destruct (is_mature now w); cbn; by rewrite IH.
  - unfold refresh_endings, take_ending_updates in Hr. injection Hr as <- _ _.
    exact (xe_windows _ _ _ (expire_endings_expired now s (ic_ok _ _ _ Hcur)) i).
  - apply (eo_count _ Hok).
  - done.
Qed.

Lemma triple_eta {A B C} (p : A * B * C) : p = (fst (fst p), snd (fst p), snd p).
Proof. by destruct p as [[] ?]. Qed.

Module InspectionExample.
Definition flow : FlowIdentity := mkFlowIdentity "gw" "boot" 4 6 [10; 0; 0; 2] 40000 [1; 1; 1; 1] 443.
Definition inserted : Endings := fst (insert_ending flow 1000 2000 0 (fst (insert_ending flow 5000 6000 0 no_endings))).
Definition pass1 : Endings * Ready * gset FlowIdentity := refresh_endings 1 inserted (mkReady [] ∅).
Definition pass2 : Endings * Ready * gset FlowIdentity := refresh_endings (2 * 10 ^ 9) (fst (fst pass1)) (snd (fst pass1)).
Definition ended (p : Endings * Ready * gset FlowIdentity) (first last : Z) : bool :=
  match ready_endings (snd (fst p)) !! flow with Some ix => overlaps ix first last | None => false end.
End InspectionExample.

(** Not yet mature on the first pass, found on the second. *)
Lemma ending_index_current_witness :
  InspectionExample.ended InspectionExample.pass1 1500 1600 = false ∧ InspectionExample.ended InspectionExample.pass2 1500 1600 = true ∧
  InspectionExample.ended InspectionExample.pass2 3000 4000 = false ∧
  InspectionExample.ended InspectionExample.pass2 1500 1600 =
    existsb (λ w, is_mature (2 * 10 ^ 9) w && window_overlaps 1500 1600 (window_span w))%bool (windows (fst (fst InspectionExample.pass2)) InspectionExample.flow).
Proof.
  split; [vm_compute; reflexivity|]. split; [vm_compute; reflexivity|]. split; [vm_compute; reflexivity|].
  refine (proj1 (ending_index_current (fst (fst InspectionExample.pass1)) (snd (fst InspectionExample.pass1)) 1 (2 * 10 ^ 9)
    (fst (fst InspectionExample.pass2)) (snd (fst InspectionExample.pass2)) (snd InspectionExample.pass2) InspectionExample.flow 1500 1600 _ _ _ _)).
  - eapply (r_refresh InspectionExample.inserted (mkReady [] ∅) 0 1); [|lia|exact (triple_eta InspectionExample.pass1)].
    apply r_insert; [apply r_insert; [apply r_start|unfold is_u64, in_width; lia|cbn; lia]|unfold is_u64, in_width; lia|vm_compute; reflexivity].
  - lia.
  - exact (triple_eta InspectionExample.pass2).
  - unfold is_u64, in_width; lia.
Defined.
