(* ===== verification/Findings.v ===== *)
(** The results of packet inspection that the collector keeps, and the flows it has
    seen (src/crates/collector/src/dpi/mod.rs, [Stats], and the records of
    src/crates/collector/src/dpi/engine.rs): inserting, expiring and combining the
    results of one flow, and deciding whether a flow is new.  The iteration order
    of a [HashSet] is the operation of the class [ResultOrder]. *)

From Stdlib Require Import SpecFloat.
From S2P Require Import Prelude PolicyWire Telemetry Contexts Inspection.

(** ** Records *)

Record DpiResult := mkDpi { dpi_protocol : string; dpi_confidence : f64; dpi_metadata : gmap string string; dpi_source : string }.

Record SignatureApplicationMatch := mkSignature { application_id : string; sig_confidence : f64; signature_hits : Z }.

(** What an inspection found; the payload of a cached result. *)
Record SampleAnalysis := mkAnalysis { dpi : option DpiResult; signatures : list SignatureApplicationMatch }.

Abbreviation Cached := (CachedResult SampleAnalysis).

Record Results := mkResults {
  results : gmap CacheKey Cached;
  results_by_identity : gmap FlowIdentity (gset CacheKey);
  result_expirations : gset (Z * CacheKey);
}.

Definition no_results : Results := mkResults ∅ ∅ ∅.

(** ** Inserting and expiring *)

Definition remove_result (s : Results) (e : Z * CacheKey) : Results :=
  let s := mkResults (results s) (results_by_identity s) (result_expirations s ∖ {[e]}) in
  match results s !! snd e with
  | Some r => mkResults (delete (snd e) (results s)) (remove_from_index (from_sample r) (snd e) (results_by_identity s)) (result_expirations s)
  | None => s
  end.

(** The loop takes the first pair while that has expired. *)
Definition expire_results (now : Z) (s : Results) : Results :=
  foldl remove_result s (take_while (λ e, fst e <=? now) (btree_elements (expiry_leb context_key_leb) (result_expirations s))).

(** A new result does not fit. *)
Definition results_full (id : CacheKey) (s : Results) : bool :=
  (negb (bool_decide (is_Some (results s !! id))) && (CACHE_CAPACITY <=? Z.of_nat (size (results s))))%bool.

Definition insert_result (id : CacheKey) (r : Cached) (now : Z) (s : Results) : Results * bool :=
  let s := if results_full id s then expire_results now s else s in
  if results_full id s then (s, false)
  else
    let s := match results s !! id with
             | Some previous =>
               mkResults (delete id (results s)) (remove_from_index (from_sample previous) id (results_by_identity s))
                 (result_expirations s ∖ {[(c_expires previous, id)]})
             | None => s
             end in
    (mkResults (<[id := r]> (results s)) (add_to_index (from_sample r) id (results_by_identity s)) ({[(c_expires r, id)]} ∪ result_expirations s), true).

(** ** Combining the results of a flow *)

Class ResultOrder := { result_order : gset CacheKey → list CacheKey }.
Class ResultOrderLaw `{ResultOrder} : Prop := { result_order_perm X : result_order X ≡ₚ elements X }.

(** [max_by_key]: the last of the greatest elements. *)
Definition last_max {A} (leb : A → A → bool) (l : list A) : option A :=
  foldl (λ o a, match o with Some b => if leb b a then Some a else Some b | None => Some a end) None l.

(** [f64::max]: a number rather than NaN. *)
Definition f64_is_nan (x : f64) : bool := match x with S754_nan => true | _ => false end.
Definition f64_max (x y : f64) : f64 := if f64_is_nan x then y else if f64_is_nan y then x else if SFltb x y then y else x.

Definition lifetimes_overlap (first last : Z) (r : Cached) : bool :=
  ((first_seen_unix_ms (c_key r) <=? u64_saturating_add last 1) && (first <=? u64_saturating_add (last_packet_ms r) 1))%bool.

Definition is_candidate (first last now : Z) (r : Cached) : bool := ((now <? c_expires r) && lifetimes_overlap first last r)%bool.

Definition has_hostname (d : DpiResult) : bool := match dpi_metadata d !! "hostname" with Some h => negb (str_is_empty h) | None => false end.

Definition result_rank (r : Cached) : bool * Z :=
  (match dpi (analysis r) with Some d => has_hostname d | None => false end, first_seen_unix_ms (c_key r)).
Definition bool_leb (a b : bool) : bool := (negb a || b)%bool.
Definition evidence_leb (a b : Cached) : bool := lex_leb bool_leb Z.leb (result_rank a) (result_rank b).

Fixpoint add_signature (l : list SignatureApplicationMatch) (s : SignatureApplicationMatch) : list SignatureApplicationMatch :=
  match l with
  | [] => [s]
  | x :: l =>
    if String.eqb (application_id x) (application_id s)
    then mkSignature (application_id x) (f64_max (sig_confidence x) (sig_confidence s)) (signature_hits x) :: l
    else x :: add_signature l s
  end.

Section results.
Context `{ResultOrder}.

Definition stored (i : FlowIdentity) (s : Results) : list Cached := omap (λ id, results s !! id) (result_order (default ∅ (results_by_identity s !! i))).

Definition combined_result (i : FlowIdentity) (first_seen_ms last_seen_ms now : Z) (s : Results) : option Cached :=
  let candidates := List.filter (is_candidate first_seen_ms last_seen_ms now) (stored i s) in
  latest ← last_max (λ a b, first_seen_unix_ms (c_key a) <=? first_seen_unix_ms (c_key b)) candidates;
  let overlapping := List.filter (lifetimes_overlap (first_seen_unix_ms (c_key latest)) (last_packet_ms latest)) candidates in
  let best := last_max evidence_leb (List.filter (λ r, bool_decide (is_Some (dpi (analysis r)))) overlapping) in
  Some (mkCached SampleAnalysis (c_gateway latest) (c_boot latest) (c_key latest) (last_packet_ms latest)
          (mkAnalysis (r ← best; dpi (analysis r)) (foldl (λ l r, foldl add_signature l (signatures (analysis r))) [] overlapping))
          (take 4 (btree_elements str_leb (foldl (λ X r, list_to_set (policy_flow_ids r) ∪ X) ∅ overlapping)))
          (foldl (λ t r, Z.min t (c_expires r)) (c_expires latest) overlapping)).

(** The combined result under the key and lifetime of the one that was completed. *)
Definition completion_result (c : Cached) (now : Z) (s : Results) : option Cached :=
  r ← combined_result (from_sample c) (first_seen_unix_ms (c_key c)) (last_packet_ms c) now s;
  Some (mkCached SampleAnalysis (c_gateway r) (c_boot r) (c_key c) (last_packet_ms c) (analysis r) (policy_flow_ids r) (c_expires r)).

(** [SamplingService::lookup]. *)
Definition lookup_analysis (g b : string) (f : FlowDelta) (now : Z) (s : Results) : option SampleAnalysis :=
  r ← combined_result (from_flow g b f) (d_first_seen_unix_ms f) (d_last_seen_unix_ms f) now s; Some (analysis r).
End results.

(** ** Flows seen recently *)

Record SeenFlows := mkSeen { seen_flows : gmap string Z; seen_flow_expirations : gset (Z * string); next_seen_flows_cleanup : Z }.

Definition drop_seen (s : SeenFlows) (e : Z * string) : SeenFlows :=
  mkSeen (if bool_decide (seen_flows s !! snd e = Some (fst e)) then delete (snd e) (seen_flows s) else seen_flows s)
    (seen_flow_expirations s ∖ {[e]}) (next_seen_flows_cleanup s).

Definition expire_seen_flows (now : Z) (s : SeenFlows) : SeenFlows :=
  foldl drop_seen s (take_while (λ e, fst e <=? now) (btree_elements (expiry_leb str_leb) (seen_flow_expirations s))).

Definition cleanup_seen_flows_if_due (now : Z) (s : SeenFlows) : SeenFlows :=
  if now <? next_seen_flows_cleanup s then s
  else expire_seen_flows now (mkSeen (seen_flows s) (seen_flow_expirations s) (now + SEEN_FLOWS_CLEANUP_INTERVAL)).

Definition record_seen_flow (id : string) (now : Z) (s : SeenFlows) : SeenFlows * bool :=
  let existing := seen_flows s !! id in
  let is_new := match existing with Some expires => expires <=? now | None => true end in
  let full (s : SeenFlows) := (is_new && (SEEN_FLOWS_CAPACITY <=? Z.of_nat (size (seen_flows s))))%bool in
  let s := match existing with
           | Some expires => mkSeen (if is_new then delete id (seen_flows s) else seen_flows s) (seen_flow_expirations s ∖ {[(expires, id)]}) (next_seen_flows_cleanup s)
           | None => s
           end in
  let s := if full s then expire_seen_flows now s else s in
  if full s then (s, false)
  else (mkSeen (<[id := now + CACHE_TTL]> (seen_flows s)) ({[(now + CACHE_TTL, id)]} ∪ seen_flow_expirations s) (next_seen_flows_cleanup s), is_new).

(** * The cache of results *)

Definition result_entries (s : Results) : gmap CacheKey (Z * Cached) := (λ r, (c_expires r, r)) <$> results s.
Definition result_identity (k : CacheKey) (r : Cached) : FlowIdentity := from_sample r.

(** The two indices list exactly the results. *)
Definition results_ok (s : Results) : Prop := index_ok result_identity (result_entries s) (result_expirations s) (results_by_identity s).

Lemma lookup_entries s k t r : result_entries s !! k = Some (t, r) ↔ results s !! k = Some r ∧ t = c_expires r.
Proof. unfold result_entries. rewrite lookup_fmap, fmap_Some. naive_solver. Qed.

Lemma expirations_results s t k : results_ok s → (t, k) ∈ result_expirations s ↔ ∃ r, results s !! k = Some r ∧ c_expires r = t.
Proof. intros Hok. rewrite (ix_expiry _ _ _ _ Hok). setoid_rewrite lookup_entries. naive_solver. Qed.

Lemma stored_results s i k : results_ok s → k ∈ default ∅ (results_by_identity s !! i) ↔ ∃ r, results s !! k = Some r ∧ from_sample r = i.
Proof. intros Hok. rewrite (ix_identity _ _ _ _ Hok). setoid_rewrite lookup_entries. unfold result_identity. naive_solver. Qed.

Lemma remove_result_ok s t k : results_ok s → (t, k) ∈ result_expirations s →
  results_ok (remove_result s (t, k)) ∧ results (remove_result s (t, k)) = delete k (results s) ∧
  result_expirations (remove_result s (t, k)) = result_expirations s ∖ {[(t, k)]}.
Proof.
  intros Hok (r & Hr & Ht)%expirations_results; [|done]. unfold remove_result. cbn [results snd]. rewrite Hr. split; [|done].
  unfold results_ok, result_entries. cbn [results result_expirations results_by_identity]. rewrite fmap_delete.
  apply (index_delete result_identity _ _ _ _ _ r); [done|]. apply lookup_entries. done.
Qed.

Lemma remove_results_ok l s : results_ok s → NoDup l → (∀ e, e ∈ l → e ∈ result_expirations s) → let s' := foldl remove_result s l in
  results_ok s' ∧ results s' = filter (λ p, (c_expires (snd p), fst p) ∉ l) (results s).
Proof.
  revert s. induction l as [|[t k] l IH]; intros s Hok Hnd Hl; cbn [foldl].
  - split; [done|]. symmetry. apply map_filter_id. intros. set_solver.
  - apply NoDup_cons in Hnd as [Hk Hnd]. assert ((t, k) ∈ result_expirations s) as Htk by (apply Hl; left).
    destruct (remove_result_ok s t k Hok Htk) as (Hok1 & Hr1 & Hx1).
    destruct (IH _ Hok1 Hnd) as [Hok' Hr'].
    { intros e He. rewrite Hx1. apply elem_of_difference. split; [apply Hl; by right|]. rewrite elem_of_singleton. by intros ->. }
    split; [done|]. rewrite Hr', Hr1. apply expirations_results in Htk as (r & Hr & Ht); [|done]. apply map_eq. intros k'. rewrite !map_lookup_filter. cbn [fst snd].
    destruct (decide (k = k')) as [<-|Hne].
    + rewrite lookup_delete_eq, Hr. cbn. rewrite option_guard_False; [done|]. rewrite Ht. set_solver.
    + rewrite lookup_delete_ne by done. destruct (results s !! k') as [r'|]; [|done]. cbn. repeat case_guard; [done| |set_solver|done]. exfalso. set_solver.
Qed.

Lemma expire_results_ok now s : results_ok s →
  results_ok (expire_results now s) ∧ results (expire_results now s) = filter (λ p, now < c_expires (snd p)) (results s).
Proof.
  intros Hok. unfold expire_results. set (l := take_while _ _).
  assert (∀ e, e ∈ l ↔ e ∈ result_expirations s ∧ fst e ≤ now) as Hel by (intros; by apply (elem_of_expired_prefix context_key_leb)).
  destruct (remove_results_ok l s Hok (NoDup_expired_prefix context_key_leb _ _)) as [Hok' Hr]; [intros e; rewrite Hel; tauto|]. split; [done|]. rewrite Hr.
  apply map_filter_ext. intros k r Hk. cbn [fst snd]. rewrite Hel, (expirations_results s _ _ Hok). cbn [fst]. split; [|lia]. intros Hn. apply Z.nle_gt. intros Hle.
  apply Hn. split; [eauto|done].
Qed.

(** A result is stored, or refused because 4096 live results are: others than the
    expired ones are never removed. *)
Lemma insert_result_ok id r now s : results_ok s → Z.of_nat (size (results s)) ≤ CACHE_CAPACITY → let '(s', b) := insert_result id r now s in
  results_ok s' ∧ Z.of_nat (size (results s')) ≤ CACHE_CAPACITY ∧
  (b = true → results s' !! id = Some r) ∧ (b = false → CACHE_CAPACITY ≤ Z.of_nat (size (results s')) ∧ ∀ k c, results s' !! k = Some c → now < c_expires c) ∧
  ∀ k c, k ≠ id → results s !! k = Some c → now < c_expires c → results s' !! k = Some c.
Proof.
  intros Hok Hsize. unfold insert_result. set (s1 := if results_full id s then expire_results now s else s).
  destruct (expire_results_ok now s Hok) as [Hoke Hre].
  assert (results_ok s1 ∧ Z.of_nat (size (results s1)) ≤ CACHE_CAPACITY ∧ (results_full id s1 = true → results s1 = filter (λ p, now < c_expires (snd p)) (results s)) ∧
    ∀ k c, results s !! k = Some c → now < c_expires c → results s1 !! k = Some c) as (Hok1 & Hs1 & Hf1 & Hk1).
  { unfold s1. destruct (results_full id s) eqn:Hf; [|split_and!; [done|done|congruence|done]].
    pose proof (map_size_filter (λ p : CacheKey * Cached, now < c_expires (snd p)) (results s)). rewrite Hre. split_and!; [done|lia|done|].
    intros k c Hk Hlt. apply map_lookup_filter_Some. done. }
  destruct (results_full id s1) eqn:Hf.
  - apply andb_true_iff in Hf as [_ Hcap%Z.leb_le]. split_and!; [done|done|done| |intros k c _; apply Hk1]. intros _. split; [done|].
    intros k c. rewrite Hf1 by done. intros [_ Hlt]%map_lookup_filter_Some. done.
  - assert (∀ s2 : Results, results_ok s2 → results s2 !! id = None → Z.of_nat (size (results s2)) < CACHE_CAPACITY → (∀ k, k ≠ id → results s2 !! k = results s1 !! k) →
      let s' := mkResults (<[id := r]> (results s2)) (add_to_index (from_sample r) id (results_by_identity s2)) ({[(c_expires r, id)]} ∪ result_expirations s2) in
      results_ok s' ∧ Z.of_nat (size (results s')) ≤ CACHE_CAPACITY ∧ results s' !! id = Some r ∧ ∀ k c, k ≠ id → results s !! k = Some c → now < c_expires c → results s' !! k = Some c) as Hins.
    { intros s2 Hok2 Hn2 Hsz2 Hsame. cbn [results]. split_and!; [|rewrite map_size_insert_None by done; lia|by rewrite lookup_insert_eq|].
      - unfold results_ok, result_entries. cbn [results result_expirations results_by_identity]. rewrite fmap_insert.
        apply (index_insert result_identity); [done|]. by rewrite lookup_fmap, Hn2.
      - intros k c Hne Hk Hlt. rewrite lookup_insert_ne, Hsame by done. by apply Hk1. }
    destruct (results s1 !! id) as [previous|] eqn:Hid.
    + destruct (Hins (mkResults (delete id (results s1)) (remove_from_index (from_sample previous) id (results_by_identity s1))
         (result_expirations s1 ∖ {[(c_expires previous, id)]}))) as (H1 & H2 & H3 & H4); cbn [results] in *.
      * unfold results_ok, result_entries. cbn [results result_expirations results_by_identity]. rewrite fmap_delete.
        apply (index_delete result_identity _ _ _ _ _ previous); [done|]. by apply lookup_entries.
      * apply lookup_delete_eq.
      * pose proof (size_delete_present _ _ _ Hid). lia.
      * intros k Hne. by apply lookup_delete_ne.
      * split_and!; try done. 
    + destruct (Hins s1 Hok1 Hid) as (H1 & H2 & H3 & H4); [|done|split_and!; done].
      unfold results_full in Hf. rewrite Hid, bool_decide_false in Hf by (by intros []). cbn in Hf. lia.
Qed.

(** * Combining *)

Section max.
Context {A : Type} (leb : A → A → bool).
Context (leb_total : ∀ x y, leb x y = false → leb y x = true) (leb_trans : ∀ x y z, leb x y = true → leb y z = true → leb x z = true).

Lemma last_max_snoc l x : last_max leb (l ++ [x]) = match last_max leb l with Some b => if leb b x then Some x else Some b | None => Some x end.
Proof. unfold last_max. by rewrite foldl_app. Qed.

Lemma last_max_None l : last_max leb l = None ↔ l = [].
Proof.
  destruct l as [|x l _] using rev_ind; [done|]. rewrite last_max_snoc. split; [|by destruct l]. destruct (last_max leb l) as [b|]; [destruct (leb b x)|]; done.
Qed.

Lemma last_max_Some l x : last_max leb l = Some x → x ∈ l ∧ ∀ y, y ∈ l → leb y x = true.
Proof.
  assert (∀ a, leb a a = true) as Hrefl by (intros a; destruct (leb a a) eqn:E; [done|]; pose proof (leb_total _ _ E); congruence).
  revert x. induction l as [|z l IH] using rev_ind; intros x; [done|]. rewrite last_max_snoc. setoid_rewrite elem_of_app. setoid_rewrite list_elem_of_singleton.
  destruct (last_max leb l) as [b|] eqn:Hb.
  - destruct (IH b eq_refl) as [Hin Hmax]. destruct (leb b z) eqn:E; intros [= <-]; (split; [auto|]); intros y [Hy| ->]; eauto.
  - intros [= <-]. apply last_max_None in Hb. subst l. split; [by right|]. intros y [Hy| ->]; [set_solver|done].
Qed.
End max.

#[export] Instance bool_order : TotalOrder bool_leb.
Proof. split; intros [] []; cbn; try done; by intros []. Qed.

Lemma add_signature_ids l s : application_id <$> add_signature l s =
  if bool_decide (application_id s ∈ application_id <$> l) then application_id <$> l else (application_id <$> l) ++ [application_id s].
Proof.
  induction l as [|x l IH]; [done|]. cbn [add_signature]. destruct (String.eqb_spec (application_id x) (application_id s)) as [E|E]; cbn [fmap list_fmap application_id].
  - rewrite bool_decide_true; [done|]. rewrite E. left.
  - rewrite IH. repeat case_bool_decide; try done; set_solver.
Qed.

Lemma f64_max_either x y : f64_max x y = x ∨ f64_max x y = y.
Proof. unfold f64_max. repeat case_match; auto. Qed.

Definition same_evidence (x y : SignatureApplicationMatch) : Prop := application_id x = application_id y ∧ sig_confidence x = sig_confidence y.

Lemma add_signature_from l s y : y ∈ add_signature l s → same_evidence y s ∨ ∃ x, x ∈ l ∧ same_evidence y x.
Proof.
  unfold same_evidence. induction l as [|x l IH]; cbn [add_signature]; [intros ->%list_elem_of_singleton; by left|].
  destruct (String.eqb_spec (application_id x) (application_id s)) as [E|E]; intros [->|Hy]%elem_of_cons.
  - cbn. destruct (f64_max_either (sig_confidence x) (sig_confidence s)) as [-> | ->]; [right; exists x; split; [left|done]|by left].
  - right. exists y. split; [by right|done].
  - right. exists x. split; [left|done].
  - destruct (IH Hy) as [H|(z & Hz & H)]; [by left|]. right. exists z. split; [by right|done].
Qed.

Definition merge_signatures (l : list Cached) : list SignatureApplicationMatch := foldl (λ l r, foldl add_signature l (signatures (analysis r))) [] l.

Lemma add_signatures_spec sigs l : NoDup (application_id <$> l) → let l' := foldl add_signature l sigs in
  NoDup (application_id <$> l') ∧ (∀ a, a ∈ application_id <$> l' ↔ a ∈ application_id <$> l ∨ a ∈ application_id <$> sigs) ∧
  ∀ y, y ∈ l' → ∃ x, (x ∈ l ∨ x ∈ sigs) ∧ same_evidence y x.
Proof.
  revert l. induction sigs as [|s sigs IH]; intros l Hnd; cbn [foldl].
  - split_and!; [done|set_solver|]. intros y Hy. exists y. split; [by left|done].
  - destruct (IH (add_signature l s)) as (Hnd' & Hids & Hfrom).
    { rewrite add_signature_ids. case_bool_decide; [done|]. apply NoDup_app. split_and!; [done| |apply NoDup_singleton]. set_solver. }
    split_and!; [done| |].
    + intros a. rewrite Hids, add_signature_ids, fmap_cons, elem_of_cons. case_bool_decide; [|set_solver]. naive_solver.
    + intros y (x & [Hx|Hx] & Hxy)%Hfrom; [|exists x; split; [right; by right|done]].
      apply add_signature_from in Hx as [Hx|(z & Hz & Hx)]; [exists s; split; [right; left|]|exists z; split; [by left|]]; unfold same_evidence in *; destruct Hxy, Hx; split; congruence.
Qed.

Lemma merge_signatures_spec l : NoDup (application_id <$> merge_signatures l) ∧
  (∀ a, a ∈ application_id <$> merge_signatures l ↔ ∃ c, c ∈ l ∧ a ∈ application_id <$> signatures (analysis c)) ∧
  ∀ y, y ∈ merge_signatures l → ∃ c x, c ∈ l ∧ x ∈ signatures (analysis c) ∧ same_evidence y x.
Proof.
  unfold merge_signatures. induction l as [|c l IH] using rev_ind; [cbn; split_and!; [constructor|set_solver|set_solver]|].
  rewrite foldl_app. cbn [foldl]. destruct IH as (Hnd & Hids & Hfrom). destruct (add_signatures_spec (signatures (analysis c)) _ Hnd) as (Hnd' & Hids' & Hfrom').
  setoid_rewrite elem_of_app. setoid_rewrite list_elem_of_singleton. split_and!; [done| |].
  - intros a. rewrite Hids', Hids. split; [naive_solver|]. intros (c' & [Hc| ->] & Ha); eauto.
  - intros y (x & [(c' & z & Hc & Hz & Hxz)%Hfrom|Hx] & Hxy)%Hfrom'; [|exists c, x; auto]. exists c', z. split_and!; auto.
    unfold same_evidence in *. destruct Hxy, Hxz. split; congruence.
Qed.

Lemma elem_of_policy_ids p l : p ∈ foldl (λ (X : gset string) (r : Cached), list_to_set (policy_flow_ids r) ∪ X) ∅ l ↔ ∃ c, c ∈ l ∧ p ∈ policy_flow_ids c.
Proof.
  induction l as [|c l IH] using rev_ind; [cbn; set_solver|]. rewrite foldl_app. cbn [foldl]. rewrite elem_of_union, IH, elem_of_list_to_set.
  setoid_rewrite elem_of_app. setoid_rewrite list_elem_of_singleton. naive_solver.
Qed.

Lemma foldl_min_le (l : list Cached) t : foldl (λ t r, Z.min t (c_expires r)) t l ≤ t ∧ (∀ c, c ∈ l → foldl (λ t r, Z.min t (c_expires r)) t l ≤ c_expires c) ∧
  ∀ now, now < t → (∀ c, c ∈ l → now < c_expires c) → now < foldl (λ t r, Z.min t (c_expires r)) t l.
Proof.
  induction l as [|c l (IH1 & IH2 & IH3)] using rev_ind; [cbn; split_and!; [lia|set_solver|done]|]. rewrite foldl_app. cbn [foldl]. split_and!; [lia| |].
  - intros c' [Hc| ->%list_elem_of_singleton]%elem_of_app; [specialize (IH2 _ Hc)|]; lia.
  - intros now Ht Hall. apply Z.min_glb_lt; [apply IH3; [done|]; intros c' Hc'|]; apply Hall, elem_of_app; [by left|right; left].
Qed.

Section combined.
Context `{ResultOrderLaw} (s : Results) (i : FlowIdentity) (first last now : Z) (Hok : results_ok s).

(** The live results of the flow within the lifetime that is asked for, and those
    of them that overlap a given one. *)
Definition candidate_result (c : Cached) : Prop := ∃ k, results s !! k = Some c ∧ from_sample c = i ∧ is_candidate first last now c = true.
Definition related_result (latest c : Cached) : Prop :=
  candidate_result c ∧ lifetimes_overlap (first_seen_unix_ms (c_key latest)) (last_packet_ms latest) c = true.

Lemma elem_of_candidates c : c ∈ List.filter (is_candidate first last now) (stored i s) ↔ candidate_result c.
Proof.
  rewrite elem_of_filterb. unfold stored, candidate_result. rewrite list_elem_of_omap. setoid_rewrite (result_order_perm _). setoid_rewrite elem_of_elements.
  setoid_rewrite (stored_results s i _ Hok). split; [intros [(k & (r & Hr & Hi) & Hk) Hc]; exists k; naive_solver|naive_solver].
Qed.

(** The result that the collector attributes to a flow combines exactly the stored
    results that belong to it: live, of the same gateway, boot and five-tuple,
    overlapping the flow's lifetime and that of the newest such result, never a
    disjoint reuse of the tuple. It has a protocol result if one of them has, and
    a host name if one of them has; each application once, if one of them matched
    it, with a confidence that one of them gave it; at most four flow ids, all
    theirs; and it expires with the first of them. There is none exactly when no
    stored result belongs to the flow. *)
Lemma combined_result_exact :
  match combined_result i first last now s with
  | None => ∀ c, ¬ candidate_result c
  | Some r => ∃ latest, candidate_result latest ∧ (∀ c, candidate_result c → first_seen_unix_ms (c_key c) ≤ first_seen_unix_ms (c_key latest)) ∧
      from_sample r = i ∧ c_key r = c_key latest ∧ last_packet_ms r = last_packet_ms latest ∧
      (∀ d, dpi (analysis r) = Some d → ∃ c, related_result latest c ∧ dpi (analysis c) = Some d) ∧
      (∀ c d, related_result latest c → dpi (analysis c) = Some d → ∃ d', dpi (analysis r) = Some d' ∧ (has_hostname d = true → has_hostname d' = true)) ∧
      NoDup (application_id <$> signatures (analysis r)) ∧
      (∀ a, a ∈ application_id <$> signatures (analysis r) ↔ ∃ c, related_result latest c ∧ a ∈ application_id <$> signatures (analysis c)) ∧
      (∀ y, y ∈ signatures (analysis r) → ∃ c x, related_result latest c ∧ x ∈ signatures (analysis c) ∧ same_evidence y x) ∧
      (∀ p, p ∈ policy_flow_ids r → ∃ c, related_result latest c ∧ p ∈ policy_flow_ids c) ∧ zlen (policy_flow_ids r) ≤ 4 ∧
      now < c_expires r ∧ ∀ c, related_result latest c → c_expires r ≤ c_expires c
  end.
Proof.
  unfold combined_result. set (cs := List.filter (is_candidate first last now) (stored i s)).
  destruct (last_max _ cs) as [latest|] eqn:Hl; cbn [mbind option_bind].
  2: { apply last_max_None in Hl. intros c Hc%elem_of_candidates. fold cs in Hc. rewrite Hl in Hc. set_solver. }
  apply last_max_Some in Hl as [Hlatest Hmax]; [|intros; rewrite ?Z.leb_le, ?Z.leb_gt in *; lia..].
  set (os := List.filter (lifetimes_overlap _ _) cs). assert (∀ c, c ∈ os ↔ related_result latest c) as Hel.
  { intros c. unfold os, related_result. by rewrite elem_of_filterb, <- elem_of_candidates. }
  apply elem_of_candidates in Hlatest as Hcl. exists latest. split; [done|]. split; [intros c Hc; apply Z.leb_le, Hmax; by apply elem_of_candidates|].
  split; [destruct Hcl as (k & _ & Hi & _); done|]. split; [done|]. split; [done|]. cbn [analysis dpi signatures policy_flow_ids c_expires].
  fold (merge_signatures os). destruct (merge_signatures_spec os) as (Hnd & Hids & Hfrom). set (ds := List.filter _ os).
  assert (∀ c, c ∈ ds ↔ related_result latest c ∧ is_Some (dpi (analysis c))) as Hds by (intros; unfold ds; by rewrite elem_of_filterb, Hel, bool_decide_eq_true).
  assert (∀ b, last_max evidence_leb ds = Some b → b ∈ ds ∧ ∀ y, y ∈ ds → evidence_leb y b = true) as Hbest.
  { apply last_max_Some; unfold evidence_leb; intros *; [apply order_total|apply order_trans]. }
  assert (∀ c, candidate_result c → now < c_expires c) as Hlive.
  { intros c (k & _ & _ & [Hlt%Z.ltb_lt _]%andb_true_iff). done. }
  split_and!.
  - intros d. destruct (last_max evidence_leb ds) as [b|] eqn:Hb; [|done]. cbn. intros Hd. exists b. destruct (Hbest b eq_refl) as [Hin _]. by apply Hds in Hin as [? _].
  - intros c d Hc Hd. destruct (last_max evidence_leb ds) as [b|] eqn:Hb; cbn.
    + destruct (Hbest b eq_refl) as [[_ [d' Hd']]%Hds Hge]. exists d'. split; [done|]. assert (c ∈ ds) as Hcd by (apply Hds; eauto).
      specialize (Hge c Hcd). unfold evidence_leb, lex_leb, result_rank in Hge. cbn [fst snd] in Hge. rewrite Hd, Hd' in Hge.
      intros Hh. rewrite Hh in Hge. case_bool_decide as E; [done|]. by destruct (has_hostname d').
    + exfalso. apply last_max_None in Hb. assert (c ∈ ds) as Hcd by (apply Hds; eauto). rewrite Hb in Hcd. set_solver.
  - done.
  - intros a. rewrite Hids. by setoid_rewrite Hel.
  - intros y (c & x & Hc & Hx & Hxy)%Hfrom. exists c, x. by rewrite <- Hel.
  - intros p Hp. assert (p ∈ btree_elements str_leb (foldl (λ (X : gset string) (r : Cached), list_to_set (policy_flow_ids r) ∪ X) ∅ os)) as Hp'.
    { rewrite <- (take_drop 4). apply elem_of_app. by left. }
    apply elem_of_btree_elements, elem_of_policy_ids in Hp' as (c & Hc & Hpc). exists c. by rewrite <- Hel.
  - unfold zlen. rewrite length_take. lia.
  - apply foldl_min_le; [by apply Hlive|]. intros c Hc%Hel. apply Hlive. by destruct Hc.
  - intros c Hc%Hel. by apply foldl_min_le.
Qed.
End combined.

(** * Flows seen recently *)

Definition seen_ok (s : SeenFlows) : Prop := ∀ t k, (t, k) ∈ seen_flow_expirations s ↔ seen_flows s !! k = Some t.

Lemma drop_seen_ok s t k : seen_ok s → (t, k) ∈ seen_flow_expirations s →
  seen_ok (drop_seen s (t, k)) ∧ seen_flows (drop_seen s (t, k)) = delete k (seen_flows s).
Proof.
  intros Hok Hk%Hok. unfold drop_seen. cbn [fst snd]. rewrite bool_decide_true by done. split; [|done]. intros t' k'. cbn [seen_flow_expirations seen_flows].
  rewrite elem_of_difference, (Hok t' k'), elem_of_singleton. destruct (decide (k = k')) as [<-|]; [rewrite lookup_delete_eq|rewrite lookup_delete_ne by done]; naive_solver.
Qed.

Lemma drop_all_seen l s : seen_ok s → NoDup l → (∀ e, e ∈ l → e ∈ seen_flow_expirations s) → let s' := foldl drop_seen s l in
  seen_ok s' ∧ seen_flows s' = filter (λ p, (snd p, fst p) ∉ l) (seen_flows s).
Proof.
  revert s. induction l as [|[t k] l IH]; intros s Hok Hnd Hl; cbn [foldl].
  - split; [done|]. symmetry. apply map_filter_id. intros. set_solver.
  - apply NoDup_cons in Hnd as [Hk Hnd]. assert ((t, k) ∈ seen_flow_expirations s) as Htk by (apply Hl; left).
    destruct (drop_seen_ok s t k Hok Htk) as [Hok1 Hr1]. apply Hok in Htk. destruct (IH _ Hok1 Hnd) as [Hok' Hr'].
    { intros e He. cbn. apply elem_of_difference. split; [apply Hl; by right|]. rewrite elem_of_singleton. by intros ->. }
    split; [done|]. rewrite Hr', Hr1. apply map_eq. intros k'. rewrite !map_lookup_filter. cbn [fst snd]. destruct (decide (k = k')) as [<-|Hne].
    + rewrite lookup_delete_eq, Htk. cbn. rewrite option_guard_False; [done|]. set_solver.
    + rewrite lookup_delete_ne by done. destruct (seen_flows s !! k') as [r'|]; [|done]. cbn. repeat case_guard; [done| |set_solver|done]. exfalso. set_solver.
Qed.

Lemma expire_seen_ok now s : seen_ok s → seen_ok (expire_seen_flows now s) ∧ seen_flows (expire_seen_flows now s) = filter (λ p, now < snd p) (seen_flows s).
Proof.
  intros Hok. unfold expire_seen_flows. set (l := take_while _ _).
  assert (∀ e, e ∈ l ↔ e ∈ seen_flow_expirations s ∧ fst e ≤ now) as Hel by (intros; by apply (elem_of_expired_prefix str_leb)).
  destruct (drop_all_seen l s Hok (NoDup_expired_prefix str_leb _ _)) as [Hok' Hr]; [intros e; rewrite Hel; tauto|]. split; [done|]. rewrite Hr.
  apply map_filter_ext. intros k t Hk. cbn [fst snd]. rewrite Hel, (Hok t k). cbn [fst]. split; [|lia]. intros Hn. apply Z.nle_gt. tauto.
Qed.

Lemma insert_seen_ok id t s x : seen_ok (mkSeen (delete id (seen_flows s)) x (next_seen_flows_cleanup s)) →
  seen_ok (mkSeen (<[id := t]> (seen_flows s)) ({[(t, id)]} ∪ x) (next_seen_flows_cleanup s)).
Proof.
  intros Hok t' k. specialize (Hok t' k). cbn [seen_flow_expirations seen_flows] in *. rewrite elem_of_union, elem_of_singleton, Hok.
  destruct (decide (id = k)) as [<-|]; [rewrite lookup_insert_eq, lookup_delete_eq|rewrite lookup_insert_ne, lookup_delete_ne by done]; naive_solver.
Qed.

(** A flow that is not in the table. *)
Lemma record_new id now s : seen_ok s → Z.of_nat (size (seen_flows s)) ≤ SEEN_FLOWS_CAPACITY → seen_flows s !! id = None →
  let s2 := if SEEN_FLOWS_CAPACITY <=? Z.of_nat (size (seen_flows s)) then expire_seen_flows now s else s in
  let '(s', new) := if SEEN_FLOWS_CAPACITY <=? Z.of_nat (size (seen_flows s2)) then (s2, false)
    else (mkSeen (<[id := now + CACHE_TTL]> (seen_flows s2)) ({[(now + CACHE_TTL, id)]} ∪ seen_flow_expirations s2) (next_seen_flows_cleanup s2), true) in
  seen_ok s' ∧ Z.of_nat (size (seen_flows s')) ≤ SEEN_FLOWS_CAPACITY ∧
  ((new = true ∧ seen_flows s' !! id = Some (now + CACHE_TTL)) ∨
   (new = false ∧ SEEN_FLOWS_CAPACITY ≤ Z.of_nat (size (seen_flows s')) ∧ ∀ k t, seen_flows s' !! k = Some t → now < t)) ∧
  ∀ k t, k ≠ id → seen_flows s !! k = Some t → now < t → seen_flows s' !! k = Some t.
Proof.
  intros Hok Hsize Hid s2. destruct (expire_seen_ok now s Hok) as [Hoke He].
  assert (seen_ok s2 ∧ Z.of_nat (size (seen_flows s2)) ≤ SEEN_FLOWS_CAPACITY ∧ seen_flows s2 !! id = None ∧
    (∀ k t, seen_flows s !! k = Some t → now < t → seen_flows s2 !! k = Some t) ∧
    (SEEN_FLOWS_CAPACITY ≤ Z.of_nat (size (seen_flows s2)) → ∀ k t, seen_flows s2 !! k = Some t → now < t)) as (Hok2 & Hs2 & Hid2 & Hk2 & Hfull).
  { unfold s2. destruct (Z.leb_spec SEEN_FLOWS_CAPACITY (Z.of_nat (size (seen_flows s)))); [|split_and!; [done|done|done|done|lia]].
    pose proof (map_size_filter (λ p : string * Z, now < snd p) (seen_flows s)). rewrite He. split_and!; [done|lia| | |].
    - apply map_lookup_filter_None. by left.
    - intros k t Hk Hlt. by apply map_lookup_filter_Some.
    - intros _ k t [_ Hlt]%map_lookup_filter_Some. done. }
  clearbody s2. destruct (Z.leb_spec SEEN_FLOWS_CAPACITY (Z.of_nat (size (seen_flows s2)))) as [Hge|Hlt].
  - split_and!; [done|done|right; split_and!; [done|done|by apply Hfull]|intros k t _; apply Hk2].
  - cbn [seen_flows]. split_and!.
    + apply insert_seen_ok. rewrite delete_id by done. destruct s2. done.
    + rewrite map_size_insert_None by done. lia.
    + left. by rewrite lookup_insert_eq.
    + intros k t Hne Hk Hn. rewrite lookup_insert_ne by done. by apply Hk2.
Qed.

(** A flow is reported as new exactly when it was not seen within the last 300
    seconds, unless the table is full of flows that were. *)
Lemma record_seen_flow_ok id now s : seen_ok s → Z.of_nat (size (seen_flows s)) ≤ SEEN_FLOWS_CAPACITY → let '(s', new) := record_seen_flow id now s in
  let recent := match seen_flows s !! id with Some t => now <? t | None => false end in
  seen_ok s' ∧ Z.of_nat (size (seen_flows s')) ≤ SEEN_FLOWS_CAPACITY ∧ (recent = true → new = false ∧ seen_flows s' !! id = Some (now + CACHE_TTL)) ∧
  (recent = false → (new = true ∧ seen_flows s' !! id = Some (now + CACHE_TTL)) ∨
     (new = false ∧ SEEN_FLOWS_CAPACITY ≤ Z.of_nat (size (seen_flows s')) ∧ ∀ k t, seen_flows s' !! k = Some t → now < t)) ∧
  ∀ k t, k ≠ id → seen_flows s !! k = Some t → now < t → seen_flows s' !! k = Some t.
Proof.
  intros Hok Hsize. unfold record_seen_flow. destruct (seen_flows s !! id) as [t|] eqn:Hid; [destruct (Z.leb_spec t now) as [Hle|Hgt]|]; cbn [andb].
  - set (s1 := mkSeen (delete id (seen_flows s)) (seen_flow_expirations s ∖ {[(t, id)]}) (next_seen_flows_cleanup s)).
    assert (seen_ok s1) as Hok1.
    { destruct (drop_seen_ok s t id Hok) as [Hd _]; [by apply Hok|]. unfold drop_seen in Hd. cbn [fst snd] in Hd. by rewrite bool_decide_true in Hd. }
    pose proof (size_delete_present _ _ _ Hid) as Hsz.
    pose proof (record_new id now s1 Hok1) as Hnew. cbv zeta in Hnew. destruct (if _ <=? _ then (_, false) else _) as [s' new].
    destruct Hnew as (H1 & H2 & H3 & H4); [cbn; lia|apply lookup_delete_eq|]. assert ((now <? t) = false) as -> by lia. split_and!; [done|done|done|by intros _|].
    intros k t' Hne Hk. apply H4; [done|]. cbn. by rewrite lookup_delete_ne.
  - assert ((now <? t) = true) as -> by lia. cbn [seen_flows]. split_and!; [| |by rewrite lookup_insert_eq|done|].
    + apply (insert_seen_ok id (now + CACHE_TTL) s (seen_flow_expirations s ∖ {[(t, id)]})). destruct (drop_seen_ok s t id Hok) as [Hd _]; [by apply Hok|]. unfold drop_seen in Hd. cbn [fst snd] in Hd. by rewrite bool_decide_true in Hd.
    + rewrite map_size_insert_Some by eauto. done.
    + intros k t' Hne Hk _. by rewrite lookup_insert_ne.
  - pose proof (record_new id now s Hok Hsize Hid) as Hnew. cbv zeta in Hnew. destruct (if _ <=? _ then (_, false) else _) as [s' new].
    destruct Hnew as (H1 & H2 & H3 & H4). by split_and!.
Qed.

(** * A flow with two observation points *)

Module FindingsExample.
#[export] Instance order : ResultOrder := { result_order := elements }.
#[export] Instance order_law : ResultOrderLaw.
Proof. split. done. Qed.

Definition key (first : Z) : FlowSampleKey := mkSampleKey 4 6 [10; 0; 0; 2] 40000 [1; 1; 1; 1] 443 first.
Definition identified (host : list (string * string)) : option DpiResult := Some (mkDpi "tls" f64_1_0 (list_to_map host) "ndpi").
Definition found (first last expires : Z) (d : option DpiResult) (apps ids : list string) : Cached :=
  mkCached SampleAnalysis "gw" "boot" (key first) last (mkAnalysis d ((λ a, mkSignature a f64_1_0 1) <$> apps)) ids expires.
(** The newer half has no host name; the third result is an earlier use of the tuple. *)
Definition hello : Cached := found 1000 2000 900 (identified [("hostname", "example.org")]) ["video"] ["f1"].
Definition reply : Cached := found 1500 2500 800 (identified []) ["video"; "chat"] ["f2"].
Definition reuse : Cached := found 10 20 850 (identified [("hostname", "old.org")]) ["game"] ["f0"].
Definition insert (s : Results) (p : string * Cached) : Results := fst (insert_result ("gw", "boot", fst p) (snd p) 0 s).
Definition store : Results := foldl insert no_results [("a", hello); ("b", reply); ("c", reuse)].
Definition answer : option Cached := combined_result (from_sample hello) 1000 3000 100 store.
End FindingsExample.
#[local] Existing Instances FindingsExample.order FindingsExample.order_law.

Lemma no_results_ok : results_ok no_results.
Proof. unfold results_ok, result_entries. cbn. rewrite fmap_empty. apply index_empty. Qed.

Lemma combined_result_exact_witness :
  (r ← FindingsExample.answer; dpi (analysis r)) = FindingsExample.identified [("hostname", "example.org")] ∧
  (policy_flow_ids <$> FindingsExample.answer) = Some ["f1"; "f2"] ∧ (c_expires <$> FindingsExample.answer) = Some 800 ∧
  ∃ r, FindingsExample.answer = Some r ∧ from_sample r = from_sample FindingsExample.hello ∧ NoDup (application_id <$> signatures (analysis r)) ∧ 100 < c_expires r.
Proof.
  split; [vm_compute; reflexivity|]. split; [vm_compute; reflexivity|]. split; [vm_compute; reflexivity|].
  assert (results_ok FindingsExample.store) as Hok.
  { unfold FindingsExample.store. cbn [foldl]. assert (∀ s p, results_ok s ∧ Z.of_nat (size (results s)) ≤ CACHE_CAPACITY →
      results_ok (FindingsExample.insert s p) ∧ Z.of_nat (size (results (FindingsExample.insert s p))) ≤ CACHE_CAPACITY) as Hins.
    { intros s p [H1 H2]. unfold FindingsExample.insert. pose proof (insert_result_ok ("gw", "boot", fst p) (snd p) 0 s H1 H2) as Hi.
      destruct (insert_result _ _ _ _) as [s' b]. by destruct Hi as (? & ? & _). }
    do 3 apply Hins. split; [apply no_results_ok|]. vm_compute. discriminate. }
  pose proof (combined_result_exact FindingsExample.store (from_sample FindingsExample.hello) 1000 3000 100 Hok) as Hc.
  unfold FindingsExample.answer. destruct (combined_result _ _ _ _ _) as [r|] eqn:E; [|vm_compute in E; discriminate]. exists r.
  destruct Hc as (latest & _ & _ & Hi & _ & _ & _ & _ & Hnd & _ & _ & _ & _ & Hx & _). exact (conj eq_refl (conj Hi (conj Hnd Hx))).
Defined.
