(* ===== verification/Worker.v ===== *)
(** The packet inspection worker of the collector
    (src/crates/collector/src/dpi/mod.rs, the thread of [SamplingService::new]): its
    table of sampled flows, the passes that finish flows that have ended or
    expired, and the batches of samples it receives.  The inspection engine and
    the signature matcher are the class [Inspector].  Samples are those that
    passed [validate_flow_sample_batch], so that their key is present and their
    byte counts do not overflow; within a batch the clock of the statistics is
    read once. *)

From S2P Require Import Prelude PolicyWire Telemetry Contexts Inspection Sni Findings.

Definition WINDOW : Z := 3600 * 10 ^ 9.
Definition DEFAULT_SAMPLE_BYTES_PER_FLOW : Z := 4096.
Definition DEFAULT_SAMPLE_PACKETS_PER_DIRECTION : Z := 4.

Class Inspector := {
  engine : Type;
  start_engine : FlowSampleKey → option engine;
  classify : engine → list SamplePacket → engine * option DpiResult;
  finish_engine : engine → option DpiResult;
  match_sample : FlowSampleKey → list SamplePacket → list SignatureApplicationMatch;
}.

(** ** Messages *)

Record ReceivedSample := mkReceived {
  r_flow_id : string;
  r_key : FlowSampleKey;
  r_packets : list SamplePacket;
  r_total_captured_bytes : Z;
  r_policy_flow_id : string;
}.

Record ReceivedBatch := mkReceivedBatch { rb_gateway_id : string; rb_boot_id : string; rb_sequence : Z; rb_samples : list ReceivedSample }.

Record SampleConfig := mkSampleConfig { sampling_enabled : bool; max_bytes_per_flow : Z; max_packets_per_direction : Z; max_bytes_per_packet : Z }.

#[export] Instance FlowSampleKey_eq_dec : EqDecision FlowSampleKey.
Proof. solve_decision. Defined.

(** ** Statistics *)

Record MinuteStats := mkMinute {
  m_samples : Z;
  m_bytes : Z;
  identified : Z;
  attempted : Z;
  drops : Z;
  internal_drops : Z;
  drop_bytes : Z;
  network_bytes : Z;
  new_flows : Z;
  theoretical_bytes : Z;
  sizes : gmap Z Z;
}.
Definition no_minute : MinuteStats := mkMinute 0 0 0 0 0 0 0 0 0 0 ∅.

Definition Buckets : Type := list (Z * MinuteStats).

(** [bucket]: forget buckets of more than an hour ago, open one if the last is a
    minute old, and update it. *)
Definition open_buckets (at_ : Z) (b : Buckets) : Buckets :=
  let b := drop_while (λ p, WINDOW <=? Z.max 0 (at_ - fst p)) b in
  match last b with
  | Some (t, _) => if 60 * 10 ^ 9 <=? Z.max 0 (at_ - t) then b ++ [(at_, no_minute)] else b
  | None => [(at_, no_minute)]
  end.
Definition in_bucket (at_ : Z) (f : MinuteStats → MinuteStats) (b : Buckets) : Buckets :=
  let b := open_buckets at_ b in alter (λ p, (fst p, f (snd p))) (pred (length b)) b.

Definition count_sample (s : ReceivedSample) (m : MinuteStats) : MinuteStats :=
  mkMinute (m_samples m + zlen (r_packets s)) (m_bytes m + r_total_captured_bytes s) (identified m) (attempted m) (drops m) (internal_drops m)
    (drop_bytes m) (network_bytes m) (new_flows m) (theoretical_bytes m)
    (<[r_total_captured_bytes s := default 0 (sizes m !! r_total_captured_bytes s) + 1]> (sizes m)).
Definition count_attempt (m : MinuteStats) : MinuteStats :=
  mkMinute (m_samples m) (m_bytes m) (identified m) (attempted m + 1) (drops m) (internal_drops m) (drop_bytes m) (network_bytes m) (new_flows m)
    (theoretical_bytes m) (sizes m).
Definition count_identified (m : MinuteStats) : MinuteStats :=
  mkMinute (m_samples m) (m_bytes m) (identified m + 1) (attempted m) (drops m) (internal_drops m) (drop_bytes m) (network_bytes m) (new_flows m)
    (theoretical_bytes m) (sizes m).
(** [record_drop]. *)
Definition record_drop (packets bytes : Z) (m : MinuteStats) : MinuteStats :=
  mkMinute (m_samples m) (m_bytes m) (identified m) (attempted m) (drops m + packets) (internal_drops m + packets) (drop_bytes m + bytes)
    (network_bytes m) (new_flows m) (theoretical_bytes m) (sizes m).

(** ** State *)

Section worker.
Context `{Inspector} `{ResultOrder}.

Record FlowState := mkFlowState {
  fs_key : FlowSampleKey;
  fs_bytes : Z;
  fs_packets : Z * Z;
  fs_last_packet_ms : Z;
  fs_expires : Z;
  fs_engine : option engine;
  fs_result : option DpiResult;
  fs_signatures : list SignatureApplicationMatch;
  fs_policy_flow_ids : gset string;
}.

(** The worker's own state, the statistics it shares with the telemetry side, and
    the results it has announced. *)
Record Worker := mkWorker {
  flows : gmap CacheKey FlowState;
  flow_index : gmap FlowIdentity (gset CacheKey);
  sequences : gmap (string * string) (Z * Z);
  ready : Ready;
  dirty_flow_identities : gset FlowIdentity;
  next_cleanup : Z;
  st_endings : Endings;
  st_results : Results;
  st_next_cleanup : Z;
  buckets : Buckets;
  configs : gmap string SampleConfig;
  completed : list Cached;
}.

Definition sample_identity (id : CacheKey) (k : FlowSampleKey) : FlowIdentity :=
  mkFlowIdentity (fst (fst id)) (snd (fst id)) (ip_version k) (protocol k) (client_ip k) (client_port k) (remote_ip k) (remote_port k).

Definition set_flows (f : gmap CacheKey FlowState) (w : Worker) : Worker :=
  mkWorker f (flow_index w) (sequences w) (ready w) (dirty_flow_identities w) (next_cleanup w) (st_endings w) (st_results w) (st_next_cleanup w)
    (buckets w) (configs w) (completed w).
Definition set_index (i : gmap FlowIdentity (gset CacheKey)) (w : Worker) : Worker :=
  mkWorker (flows w) i (sequences w) (ready w) (dirty_flow_identities w) (next_cleanup w) (st_endings w) (st_results w) (st_next_cleanup w)
    (buckets w) (configs w) (completed w).
Definition set_sequences (s : gmap (string * string) (Z * Z)) (w : Worker) : Worker :=
  mkWorker (flows w) (flow_index w) s (ready w) (dirty_flow_identities w) (next_cleanup w) (st_endings w) (st_results w) (st_next_cleanup w)
    (buckets w) (configs w) (completed w).
Definition set_dirty (d : gset FlowIdentity) (w : Worker) : Worker :=
  mkWorker (flows w) (flow_index w) (sequences w) (ready w) d (next_cleanup w) (st_endings w) (st_results w) (st_next_cleanup w) (buckets w)
    (configs w) (completed w).
Definition set_endings (e : Endings) (r : Ready) (w : Worker) : Worker :=
  mkWorker (flows w) (flow_index w) (sequences w) r (dirty_flow_identities w) (next_cleanup w) e (st_results w) (st_next_cleanup w) (buckets w)
    (configs w) (completed w).
Definition set_results (r : Results) (announced : list Cached) (w : Worker) : Worker :=
  mkWorker (flows w) (flow_index w) (sequences w) (ready w) (dirty_flow_identities w) (next_cleanup w) (st_endings w) r (st_next_cleanup w)
    (buckets w) (configs w) (completed w ++ announced).
Definition set_cleanups (own shared : Z) (w : Worker) : Worker :=
  mkWorker (flows w) (flow_index w) (sequences w) (ready w) (dirty_flow_identities w) own (st_endings w) (st_results w) shared (buckets w) (configs w)
    (completed w).
Definition count (at_ : Z) (f : MinuteStats → MinuteStats) (w : Worker) : Worker :=
  mkWorker (flows w) (flow_index w) (sequences w) (ready w) (dirty_flow_identities w) (next_cleanup w) (st_endings w) (st_results w) (st_next_cleanup w)
    (in_bucket at_ f (buckets w)) (configs w) (completed w).

(** ** Finishing and removing flows *)

Definition is_running (e : FlowState) : bool := match fs_engine e with Some _ => true | None => false end.

Definition stop_engine (e : FlowState) : FlowState :=
  match fs_engine e with
  | Some g =>
    mkFlowState (fs_key e) (fs_bytes e) (fs_packets e) (fs_last_packet_ms e) (fs_expires e) None
      (match finish_engine g with Some r => Some r | None => fs_result e end) (fs_signatures e) (fs_policy_flow_ids e)
  | None => e
  end.

Definition has_findings (e : FlowState) : bool := (bool_decide (is_Some (fs_result e)) || negb (bool_decide (fs_signatures e = [])))%bool.

Definition flow_result (id : CacheKey) (k : FlowSampleKey) (e : FlowState) (expires : Z) : Cached :=
  mkCached SampleAnalysis (fst (fst id)) (snd (fst id)) k (fs_last_packet_ms e) (mkAnalysis (fs_result e) (fs_signatures e))
    (btree_elements str_leb (fs_policy_flow_ids e)) expires.

(** Store a result and announce what is now known of the flow. *)
Definition publish (id : CacheKey) (c : Cached) (now : Z) (w : Worker) : Worker :=
  let results := fst (insert_result id c now (st_results w)) in
  set_results results (option_list (completion_result c now results)) w.

Definition finish_flow (now : Z) (w : Worker) (id : CacheKey) : Worker :=
  match flows w !! id with
  | None => w
  | Some e =>
    let e := stop_engine e in
    let w := set_flows (<[id := e]> (flows w)) w in
    if has_findings e then publish id (flow_result id (fs_key e) e (now + CACHE_TTL)) now w else w
  end.

Definition finish_flows (ids : gset CacheKey) (now : Z) (w : Worker) : Worker := foldl (finish_flow now) w (result_order ids).

Definition remove_flow (w : Worker) (id : CacheKey) : Worker :=
  match flows w !! id with
  | Some e => set_index (remove_from_index (sample_identity id (fs_key e)) id (flow_index w)) (set_flows (delete id (flows w)) w)
  | None => w
  end.
Definition remove_flows (ids : gset CacheKey) (w : Worker) : Worker := foldl remove_flow w (result_order ids).

Definition expired_flow_ids (now : Z) (w : Worker) : gset CacheKey := dom (filter (λ p, fs_expires (snd p) ≤ now) (flows w)).
Definition running_flow (w : Worker) (id : CacheKey) : bool := match flows w !! id with Some e => is_running e | None => false end.
Definition running_ids (ids : gset CacheKey) (w : Worker) : gset CacheKey := filter (λ id, running_flow w id = true) ids.

Definition expire_sequences (now : Z) (w : Worker) : Worker := set_sequences (filter (λ p, now < snd (snd p)) (sequences w)) w.

Definition has_ended_flow (ready : gmap FlowIdentity EndingIntervalIndex) (i : FlowIdentity) (e : FlowState) : bool :=
  match ready !! i with
  | Some ix => (is_running e && overlaps ix (first_seen_unix_ms (fs_key e)) (fs_last_packet_ms e))%bool
  | None => false
  end.

Definition matching_flows_for_endings (identities : gset FlowIdentity) (w : Worker) : gset CacheKey :=
  list_to_set (mjoin ((λ i, List.filter (λ id, match flows w !! id with Some e => has_ended_flow (ready_endings (ready w)) i e | None => false end)
                               (elements (default ∅ (flow_index w !! i)))) <$> elements identities)).

(** ** A pass over the table *)

Definition pass (now : Z) (w : Worker) : Worker :=
  let cleanup_due := next_cleanup w <=? now in
  let expired := if cleanup_due then expired_flow_ids now w else ∅ in
  let finalizable := running_ids expired w in
  let w := if cleanup_due then set_cleanups (now + CACHE_MAINTENANCE_INTERVAL) (st_next_cleanup w) (expire_sequences now w) else w in
  let w := if st_next_cleanup w <=? now
           then set_cleanups (next_cleanup w) (now + CACHE_MAINTENANCE_INTERVAL) (set_results (expire_results now (st_results w)) [] w) else w in
  let '(endings, ready, due) := refresh_endings now (st_endings w) (ready w) in
  let identities := dirty_flow_identities w ∪ due in
  let w := set_dirty ∅ (set_endings endings ready w) in
  let w := finish_flows (finalizable ∪ matching_flows_for_endings identities w) now w in
  if cleanup_due then remove_flows expired w else w.

(** ** Receiving a batch *)

Definition is_exhausted (c : option SampleConfig) (e : FlowState) : bool :=
  let byte_budget := match c with Some c => max_bytes_per_flow c | None => DEFAULT_SAMPLE_BYTES_PER_FLOW end in
  let packet_budget := match c with Some c => max_packets_per_direction c | None => DEFAULT_SAMPLE_PACKETS_PER_DIRECTION end in
  ((byte_budget <=? fs_bytes e) || ((packet_budget <=? fst (fs_packets e)) && (packet_budget <=? snd (fs_packets e))))%bool.

Definition count_packet (c : Z * Z) (p : SamplePacket) : Z * Z := if direction p =? 2 then (fst c, snd c + 1) else (fst c + 1, snd c).

(** A host name from the TLS handshake where the engine found none. *)
Definition with_hostname (packets : list SamplePacket) (d : DpiResult) : DpiResult :=
  if match dpi_metadata d !! "hostname" with Some h => str_is_empty h | None => true end then
    match extract_tls_sni (payload <$> packets) with
    | Ok h => mkDpi (dpi_protocol d) (dpi_confidence d) (<["hostname" := h]> (dpi_metadata d)) (dpi_source d)
    | Err _ => d
    end
  else d.

Definition is_final (d : DpiResult) : bool :=
  (negb (String.eqb (dpi_source d) "ndpi") && negb (existsb (String.eqb (dpi_protocol d)) ["tls"; "quic"; "http"]))%bool.

(** The flow of a sample is in the table, or there is no room for it. *)
Definition admit_flow (now at_ : Z) (id : CacheKey) (k : FlowSampleKey) (w : Worker) : Worker * bool :=
  let w := match flows w !! id with
           | Some e => if fs_expires e <=? now then remove_flow (if is_running e then finish_flows {[id]} now w else w) id else w
           | None => w
           end in
  match flows w !! id with
  | Some _ => (w, true)
  | None =>
    let w := if CACHE_CAPACITY <=? Z.of_nat (size (flows w)) then
               let expired := expired_flow_ids now w in remove_flows expired (finish_flows (running_ids expired w) now w)
             else w in
    if CACHE_CAPACITY <=? Z.of_nat (size (flows w)) then (w, false)
    else
      let e := mkFlowState k 0 (0, 0) 0 (now + CACHE_TTL) (start_engine k) None [] ∅ in
      (count at_ count_attempt (set_index (add_to_index (sample_identity id k) id (flow_index w)) (set_flows (<[id := e]> (flows w)) w)), true)
  end.

Definition note_policy_flow (p : string) (e : FlowState) : FlowState :=
  if (negb (str_is_empty p)
      && (bool_decide (p ∈ fs_policy_flow_ids e) || (Z.of_nat (size (fs_policy_flow_ids e)) <? MAX_POLICY_FLOW_IDENTITIES_PER_SAMPLE)))%bool
  then mkFlowState (fs_key e) (fs_bytes e) (fs_packets e) (fs_last_packet_ms e) (fs_expires e) (fs_engine e) (fs_result e) (fs_signatures e)
         ({[p]} ∪ fs_policy_flow_ids e)
  else e.

(** The sample is of another key, or more than a flow may have. *)
Definition over_limit (s : ReceivedSample) (counts : Z * Z) (e : FlowState) : bool :=
  (negb (bool_decide (r_key s = fs_key e)) || (MAX_SAMPLE_BYTES_PER_FLOW <? fs_bytes e + r_total_captured_bytes s)
   || (MAX_SAMPLE_PACKETS_PER_DIRECTION <? fst counts) || (MAX_SAMPLE_PACKETS_PER_DIRECTION <? snd counts))%bool.

(** What the sample adds to the flow. *)
Definition account_sample (s : ReceivedSample) (counts : Z * Z) (now : Z) (e : FlowState) : FlowState :=
  mkFlowState (fs_key e) (fs_bytes e + r_total_captured_bytes s) counts
    (Z.max (fs_last_packet_ms e) (foldl Z.max 0 (timestamp_unix_ms <$> r_packets s))) (now + CACHE_TTL) (fs_engine e) (fs_result e)
    (fs_signatures e) (fs_policy_flow_ids e).

Definition classify_sample (s : ReceivedSample) (e : FlowState) : FlowState :=
  let '(g, r) := match fs_engine e with Some g => let '(g, r) := classify g (r_packets s) in (Some g, r) | None => (None, None) end in
  mkFlowState (fs_key e) (fs_bytes e) (fs_packets e) (fs_last_packet_ms e) (fs_expires e) g
    (match r with Some d => Some (with_hostname (r_packets s) d) | None => fs_result e end)
    (match fs_signatures e with [] => match_sample (r_key s) (r_packets s) | l => l end) (fs_policy_flow_ids e).

Definition drop_engine (e : FlowState) : FlowState :=
  mkFlowState (fs_key e) (fs_bytes e) (fs_packets e) (fs_last_packet_ms e) (fs_expires e) None (fs_result e) (fs_signatures e) (fs_policy_flow_ids e).

Definition conclude (c : option SampleConfig) (e : FlowState) : FlowState :=
  if is_exhausted c e then stop_engine e
  else match fs_result e with Some d => if is_final d then drop_engine e else e | None => e end.

Definition process_sample (now at_ : Z) (gateway_id boot_id : string) (w : Worker) (s : ReceivedSample) : Worker :=
  let id : CacheKey := (gateway_id, boot_id, r_flow_id s) in
  let drop := count at_ (record_drop (zlen (r_packets s)) (r_total_captured_bytes s)) in
  let '(w, admitted) := admit_flow now at_ id (r_key s) (count at_ (count_sample s) w) in
  match flows w !! id with
  | Some e =>
    if admitted then
      let e := note_policy_flow (r_policy_flow_id s) e in
      let w := set_dirty ({[sample_identity id (r_key s)]} ∪ dirty_flow_identities w) (set_flows (<[id := e]> (flows w)) w) in
      let counts := foldl count_packet (fs_packets e) (r_packets s) in
      if over_limit s counts e then drop w
      else
        let first_identification := bool_decide (fs_result e = None) in
        let e := conclude (configs w !! gateway_id) (classify_sample s (account_sample s counts now e)) in
        let w := set_flows (<[id := e]> (flows w)) w in
        let w := if (first_identification && bool_decide (is_Some (fs_result e)))%bool then count at_ count_identified w else w in
        if has_findings e then publish id (flow_result id (r_key s) e (fs_expires e)) now w else w
    else drop w
  | None => drop w
  end.

(** No room to remember the sequence of another agent. *)
Definition sequences_full (key : string * string) (w : Worker) : bool :=
  ((CACHE_CAPACITY <=? Z.of_nat (size (sequences w))) && bool_decide (sequences w !! key = None))%bool.

Definition process_batch (now at_ : Z) (b : ReceivedBatch) (w : Worker) : Worker :=
  let key := (rb_gateway_id b, rb_boot_id b) in
  if match sequences w !! key with Some (sequence, expires) => (now <? expires) && (rb_sequence b <=? sequence) | None => false end%bool then w
  else
    let w := if sequences_full key w then expire_sequences now w else w in
    if sequences_full key w then w
    else foldl (process_sample now at_ (rb_gateway_id b) (rb_boot_id b)) (set_sequences (<[key := (rb_sequence b, now + CACHE_TTL)]> (sequences w)) w) (rb_samples b).

(** ** The telemetry side *)

(** [cleanup_if_due]. *)
Definition cleanup_if_due (now : Z) (w : Worker) : Worker :=
  if now <? st_next_cleanup w then w
  else set_results (expire_results now (st_results w)) []
         (set_endings (expire_endings now (st_endings w)) (ready w) (set_cleanups (next_cleanup w) (now + CACHE_MAINTENANCE_INTERVAL) w)).

Definition report_end (now : Z) (g b : string) (w : Worker) (f : FlowDelta) : Worker :=
  if has_ended f
  then set_endings (fst (insert_ending (from_flow g b f) (d_first_seen_unix_ms f) (d_last_seen_unix_ms f) now (st_endings w))) (ready w) w
  else w.

Definition set_config (g : string) (c : SampleConfig) (w : Worker) : Worker :=
  mkWorker (flows w) (flow_index w) (sequences w) (ready w) (dirty_flow_identities w) (next_cleanup w) (st_endings w) (st_results w) (st_next_cleanup w)
    (buckets w) (<[g := c]> (configs w)) (completed w).

(** What the agent reports of itself, and what else the telemetry side keeps. *)
Record AgentHealth := mkHealth { h_sample_config : option SampleConfig; h_dropped_samples : Z; h_dropped_sample_bytes : Z }.
Record Side := mkSide { seen : SeenFlows; health : gmap (string * string) (Z * Z) }.

(** [{:?}] of a vector of bytes. *)
Fixpoint comma_text (l : list Z) : string :=
  match l with
  | [] => EmptyString
  | [b] => dec_text b
  | b :: l => String.append (dec_text b) (String.append ", " (comma_text l))
  end.
Definition debug_bytes (l : list Z) : string := String.append "[" (String.append (comma_text l) "]").
Fixpoint join_colons (l : list string) : string :=
  match l with
  | [] => EmptyString
  | [t] => t
  | t :: l => String.append t (String.append ":" (join_colons l))
  end.
Definition seen_flow_id (g b : string) (f : FlowDelta) : string :=
  join_colons [g; b; debug_bytes (d_client_ip f); dec_text (d_client_port f); debug_bytes (d_remote_ip f); dec_text (d_remote_port f); dec_text (d_protocol f)].

Definition record_flow (now : Z) (g b : string) (st : SeenFlows * Z) (f : FlowDelta) : SeenFlows * Z :=
  if d_packets f =? 0 then st
  else let '(s, is_new) := record_seen_flow (seen_flow_id g b f) now (fst st) in (s, if (is_new : bool) then snd st + 1 else snd st).

Definition count_traffic (new_flows_ budget dropped dropped_bytes bytes : Z) (m : MinuteStats) : MinuteStats :=
  mkMinute (m_samples m) (m_bytes m) (identified m) (attempted m) (drops m + dropped) (internal_drops m) (drop_bytes m + dropped_bytes)
    (network_bytes m + bytes) (new_flows m + new_flows_) (theoretical_bytes m + new_flows_ * budget) (sizes m).

Definition observe_telemetry (now at_ : Z) (batch : FlowBatch) (h : option AgentHealth) (w : Worker) (d : Side) : Worker * Side :=
  let g := b_gateway_id batch in
  let b := b_boot_id batch in
  let w := foldl (report_end now g b) (cleanup_if_due now w) (Contexts.flows batch) in
  let '(seen, new) := foldl (record_flow now g b) (cleanup_seen_flows_if_due now (seen d), 0) (Contexts.flows batch) in
  let '(w, health, dropped, dropped_bytes) :=
    match h with
    | Some h =>
      let w := match h_sample_config h with Some c => set_config g c w | None => w end in
      let prior := default (0, 0) (health d !! (g, b)) in
      (w, <[(g, b) := (h_dropped_samples h, h_dropped_sample_bytes h)]> (health d),
       Z.max 0 (h_dropped_samples h - fst prior), Z.max 0 (h_dropped_sample_bytes h - snd prior))
    | None => (w, health d, 0, 0)
    end in
  let budget := match configs w !! g with Some c => if sampling_enabled c then max_bytes_per_flow c else 0 | None => 0 end in
  let bytes := foldl (λ n f, n + u64_saturating_add (d_upload_bytes f) (d_download_bytes f)) 0 (Contexts.flows batch) in
  (count at_ (count_traffic new budget dropped dropped_bytes bytes) w, mkSide seen health).
End worker.

(** * The table of flows *)

Section proofs.
Context `{Inspector} `{ResultOrderLaw}.

Definition flow_identity (id : CacheKey) (e : FlowState) : FlowIdentity := sample_identity id (fs_key e).

(** No flow has more than it may have. *)
Record flow_bounded (e : FlowState) : Prop := mkBounded {
  fb_bytes : fs_bytes e ≤ MAX_SAMPLE_BYTES_PER_FLOW;
  fb_uploads : fst (fs_packets e) ≤ MAX_SAMPLE_PACKETS_PER_DIRECTION;
  fb_downloads : snd (fs_packets e) ≤ MAX_SAMPLE_PACKETS_PER_DIRECTION;
  fb_ids : Z.of_nat (size (fs_policy_flow_ids e)) ≤ MAX_POLICY_FLOW_IDENTITIES_PER_SAMPLE;
  fb_first : is_u64 (first_seen_unix_ms (fs_key e));
}.

(** The index lists exactly the flows, every table is bounded and so is each flow. *)
Record table_ok (w : Worker) : Prop := mkTableOk {
  to_index : ∀ i id, id ∈ default ∅ (flow_index w !! i) ↔ ∃ e, flows w !! id = Some e ∧ flow_identity id e = i;
  to_nonempty : ∀ i, flow_index w !! i ≠ Some ∅;
  to_size : Z.of_nat (size (flows w)) ≤ CACHE_CAPACITY;
  to_flows : map_Forall (λ _, flow_bounded) (flows w);
  to_sequences : Z.of_nat (size (sequences w)) ≤ CACHE_CAPACITY;
  to_results : results_ok (st_results w) ∧ Z.of_nat (size (results (st_results w))) ≤ CACHE_CAPACITY;
}.

(** A step that starts no inspection, other than of the flows [X] and those it marks. *)
Record quiet (X : gset CacheKey) (w w' : Worker) : Prop := mkQuiet {
  qu_endings : st_endings w' = st_endings w;
  qu_ready : ready w' = ready w;
  qu_dirty : dirty_flow_identities w ⊆ dirty_flow_identities w';
  qu_running : ∀ id e', id ∉ X → flows w' !! id = Some e' → is_running e' = true →
    flow_identity id e' ∈ dirty_flow_identities w' ∨
    ∃ e, flows w !! id = Some e ∧ is_running e = true ∧ fs_key e' = fs_key e ∧ fs_last_packet_ms e' = fs_last_packet_ms e;
}.

Lemma quiet_refl X w : quiet X w w.
Proof. split; try done. intros id e _ Hk Hr. right. eauto. Qed.

Lemma quiet_trans X w1 w2 w3 : quiet X w1 w2 → quiet X w2 w3 → quiet X w1 w3.
Proof.
  intros [E1 R1 D1 Q1] [E2 R2 D2 Q2]. split; [congruence|congruence|by etrans|]. intros id e' HX Hk Hr.
  destruct (Q2 id e' HX Hk Hr) as [?|(e & Hk2 & Hr2 & Hkey & Hl)]; [by left|]. destruct (Q1 id e HX Hk2 Hr2) as [Hd|(e0 & Hk1 & Hr1 & Hkey1 & Hl1)].
  - left. apply D2. unfold flow_identity in *. by rewrite Hkey.
  - right. exists e0. split_and!; congruence.
Qed.

Lemma quiet_weaken X Y w w' : X ⊆ Y → quiet X w w' → quiet Y w w'.
Proof. intros HXY [E R D Q]. split; try done. intros id e' HX. apply Q. set_solver. Qed.

(** Steps that leave the flows alone. *)
Lemma quiet_same X w w' : flows w' = flows w → st_endings w' = st_endings w → ready w' = ready w → dirty_flow_identities w' = dirty_flow_identities w → quiet X w w'.
Proof. intros Hf He Hr Hd. split; [done|done|by rewrite Hd|]. rewrite Hf. intros id e _ Hk Hrun. right. eauto. Qed.

(** ** Publishing *)

Lemma publish_same id c now w : let w' := publish id c now w in
  flows w' = flows w ∧ flow_index w' = flow_index w ∧ sequences w' = sequences w ∧ ready w' = ready w ∧
  dirty_flow_identities w' = dirty_flow_identities w ∧ st_endings w' = st_endings w ∧ configs w' = configs w.
Proof. done. Qed.

Lemma publish_results id c now w : results_ok (st_results w) ∧ Z.of_nat (size (results (st_results w))) ≤ CACHE_CAPACITY →
  results_ok (st_results (publish id c now w)) ∧ Z.of_nat (size (results (st_results (publish id c now w)))) ≤ CACHE_CAPACITY.
Proof.
  intros [Hro Hrs]. unfold publish. cbn [st_results set_results]. pose proof (insert_result_ok id c now _ Hro Hrs) as Hi.
  destruct (insert_result _ _ _ _) as [s' b]. by destruct Hi as (? & ? & _).
Qed.

Lemma table_ok_frame w w' : flows w' = flows w → flow_index w' = flow_index w → Z.of_nat (size (sequences w')) ≤ Z.of_nat (size (sequences w)) →
  (results_ok (st_results w) ∧ Z.of_nat (size (results (st_results w))) ≤ CACHE_CAPACITY →
   results_ok (st_results w') ∧ Z.of_nat (size (results (st_results w'))) ≤ CACHE_CAPACITY) → table_ok w → table_ok w'.
Proof. intros Hf Hi Hs Hr [T1 T2 T3 T4 T5 T6]. split; rewrite ?Hf, ?Hi; try done; [lia|auto]. Qed.

(** Replacing a flow by one with the same key. *)
Lemma table_ok_update w id e e' : table_ok w → flows w !! id = Some e → fs_key e' = fs_key e → flow_bounded e' → table_ok (set_flows (<[id := e']> (flows w)) w).
Proof.
  intros [T1 T2 T3 T4 T5 T6] Hk Hkey Hb. split; cbn [flows flow_index sequences st_results set_flows]; try done.
  - intros i id'. rewrite T1. destruct (decide (id = id')) as [<-|]; [rewrite lookup_insert_eq|by rewrite lookup_insert_ne]. unfold flow_identity.
    split; intros (x & Hx & <-); eexists; (split; [first [reflexivity|exact Hk]|]); congruence.
  - rewrite map_size_insert_Some by eauto. done.
  - by apply map_Forall_insert_2.
Qed.

(** ** Finishing *)

Lemma stop_engine_same e : fs_key (stop_engine e) = fs_key e ∧ fs_last_packet_ms (stop_engine e) = fs_last_packet_ms e ∧
  is_running (stop_engine e) = false ∧ (flow_bounded e → flow_bounded (stop_engine e)).
Proof.
  unfold stop_engine, is_running. destruct (fs_engine e) eqn:E; cbn; [|by rewrite E]. split_and!; try done. by intros [? ? ? ? ?].
Qed.

Lemma finish_flow_spec now w id : table_ok w → let w' := finish_flow now w id in
  table_ok w' ∧ quiet ∅ w w' ∧ flow_index w' = flow_index w ∧ dirty_flow_identities w' = dirty_flow_identities w ∧ sequences w' = sequences w ∧
  flows w' = alter stop_engine id (flows w).
Proof.
  intros Hok. unfold finish_flow. destruct (flows w !! id) as [e|] eqn:Hk.
  2: { cbn. split_and!; [done|apply quiet_refl|done|done|done|]. apply map_eq. intros k. destruct (decide (id = k)) as [<-|]; [by rewrite lookup_alter_eq, Hk|by rewrite lookup_alter_ne]. }
  destruct (stop_engine_same e) as (Hkey & Hl & Hrun & Hb). set (w1 := set_flows (<[id := stop_engine e]> (flows w)) w).
  assert (table_ok w1) as Hok1 by (eapply table_ok_update; [done|done|done|apply Hb; exact (to_flows _ Hok _ _ Hk)]).
  assert (flows w1 = alter stop_engine id (flows w)) as Hfl.
  { apply map_eq. intros k. cbn. destruct (decide (id = k)) as [<-|]; [by rewrite lookup_insert_eq, lookup_alter_eq, Hk|by rewrite lookup_insert_ne, lookup_alter_ne]. }
  assert (quiet ∅ w w1) as Hq.
  { split; [done|done|done|]. intros k e' _. rewrite Hfl. destruct (decide (id = k)) as [<-|]; [rewrite lookup_alter_eq, Hk|rewrite lookup_alter_ne by done; intros Hk' Hr'; right; eauto].
    intros [= <-] Hr. congruence. }
  destruct (has_findings (stop_engine e)); [|by split_and!]. cbv zeta. set (w2 := publish _ _ _ w1). split_and!; try done.
  - eapply table_ok_frame; [..|exact Hok1]; try done. apply publish_results.
  - eapply quiet_trans; [exact Hq|]. by apply quiet_same.
Qed.

Lemma finish_flows_spec ids now w : table_ok w → let w' := finish_flows ids now w in
  table_ok w' ∧ quiet ∅ w w' ∧ dirty_flow_identities w' = dirty_flow_identities w ∧
  (∀ id, id ∈ ids → running_flow w' id = false) ∧ ∀ id, is_Some (flows w' !! id) ↔ is_Some (flows w !! id).
Proof.
  intros Hok. unfold finish_flows. assert (∀ l w, table_ok w → let w' := foldl (finish_flow now) w l in
    table_ok w' ∧ quiet ∅ w w' ∧ dirty_flow_identities w' = dirty_flow_identities w ∧ (∀ id, running_flow w id = false ∨ id ∈ l → running_flow w' id = false) ∧
    ∀ id, is_Some (flows w' !! id) ↔ is_Some (flows w !! id)) as Hall.
  { clear w Hok. intros l. induction l as [|k l IH]; intros w Hok; cbn [foldl].
    - split_and!; [done|apply quiet_refl|done| |done]. intros id [?|?]; [done|set_solver].
    - destruct (finish_flow_spec now w k Hok) as (Hok1 & Hq1 & _ & Hd1 & _ & Hf1). destruct (IH _ Hok1) as (Hok' & Hq' & Hd' & Hr' & Hs'). split_and!; [done|by eapply quiet_trans|congruence| |].
      + intros id Hid. apply Hr'. unfold running_flow in *. rewrite Hf1. destruct (decide (k = id)) as [<-|Hne].
        * left. rewrite lookup_alter_eq. destruct (flows w !! k) as [e|]; [|done]. cbn. apply stop_engine_same.
        * rewrite lookup_alter_ne by done. destruct Hid as [?|[->|?]%elem_of_cons]; [by left|done|by right].
      + intros id. rewrite Hs', Hf1. destruct (decide (k = id)) as [<-|Hne]; [rewrite lookup_alter_eq; by rewrite fmap_is_Some|by rewrite lookup_alter_ne]. }
  destruct (Hall (result_order ids) w Hok) as (F1 & F2 & F3 & F4 & F5). split_and!; try done. intros id Hid. apply F4. right.
  rewrite (result_order_perm ids). by apply elem_of_elements.
Qed.

(** ** Removing *)

Lemma remove_flow_spec w id : table_ok w → let w' := remove_flow w id in
  table_ok w' ∧ quiet ∅ w w' ∧ dirty_flow_identities w' = dirty_flow_identities w ∧ flows w' = delete id (flows w).
Proof.
  intros Hok. unfold remove_flow. destruct (flows w !! id) as [e|] eqn:Hk; [|cbn; split_and!; [done|apply quiet_refl|done|by rewrite delete_id]].
  destruct Hok as [T1 T2 T3 T4 T5 T6]. split_and!; [| |done|done].
  - split; cbn [flows flow_index sequences st_results set_flows set_index]; try done.
    + intros i k. rewrite elem_of_remove, T1. destruct (decide (id = k)) as [<-|Hne].
      * rewrite lookup_delete_eq, Hk. split; [|by intros (? & ? & _)]. intros [(e' & [= <-] & <-) Hno]. by destruct Hno.
      * rewrite lookup_delete_ne by done. split; [tauto|]. intros He. split; [done|]. intros _. congruence.
    + by apply remove_nonempty.
    + pose proof (size_delete_present _ _ _ Hk). lia.
    + eapply map_Forall_sub; [apply delete_subseteq|done].
  - split; [done|done|done|]. cbn [flows set_index set_flows]. intros k e' _. destruct (decide (id = k)) as [<-|]; [by rewrite lookup_delete_eq|].
    rewrite lookup_delete_ne by done. intros Hk' Hr'. right. eauto.
Qed.

Lemma remove_flows_spec ids w : table_ok w → let w' := remove_flows ids w in
  table_ok w' ∧ quiet ∅ w w' ∧ dirty_flow_identities w' = dirty_flow_identities w ∧ flows w' ⊆ flows w ∧ ∀ id, id ∈ ids → flows w' !! id = None.
Proof.
  intros Hok. unfold remove_flows. assert (∀ l w, table_ok w → let w' := foldl remove_flow w l in
    table_ok w' ∧ quiet ∅ w w' ∧ dirty_flow_identities w' = dirty_flow_identities w ∧ flows w' ⊆ flows w ∧ ∀ id, id ∈ l → flows w' !! id = None) as Hall.
  { clear w Hok. intros l. induction l as [|k l IH]; intros w Hok; cbn [foldl].
    - split_and!; [done|apply quiet_refl|done|done|set_solver].
    - destruct (remove_flow_spec w k Hok) as (Hok1 & Hq1 & Hd1 & Hf1). destruct (IH _ Hok1) as (Hok' & Hq' & Hd' & Hs' & Hn').
      split_and!; [done|by eapply quiet_trans|congruence| |].
      + etrans; [exact Hs'|]. rewrite Hf1. apply delete_subseteq.
      + intros id [->|Hin]%elem_of_cons; [|auto]. eapply lookup_weaken_None; [|exact Hs']. rewrite Hf1. apply lookup_delete_eq. }
  destruct (Hall (result_order ids) w Hok) as (F1 & F2 & F3 & F4 & F5). split_and!; try done. intros id Hid. apply F5.
  rewrite (result_order_perm ids). by apply elem_of_elements.
Qed.

(** ** Admitting a flow *)

(** The flow of a sample is one that was there, as it was, or a fresh one. *)
Definition admitted_flow (w : Worker) (id : CacheKey) (k : FlowSampleKey) (e : FlowState) : Prop :=
  fs_key e = k ∨ (∃ e0, flows w !! id = Some e0 ∧ (is_running e = true → is_running e0 = true) ∧ fs_key e = fs_key e0 ∧ fs_last_packet_ms e = fs_last_packet_ms e0).

Lemma count_spec X at_ f w : table_ok w → table_ok (count at_ f w) ∧ quiet X w (count at_ f w).
Proof. intros Hok. split; [|by apply quiet_same]. eapply table_ok_frame; [..|exact Hok]; done. Qed.

Lemma insert_flow_spec w id e : table_ok w → flows w !! id = None → Z.of_nat (size (flows w)) < CACHE_CAPACITY → flow_bounded e →
  let w' := set_index (add_to_index (flow_identity id e) id (flow_index w)) (set_flows (<[id := e]> (flows w)) w) in
  table_ok w' ∧ quiet {[id]} w w'.
Proof.
  intros [T1 T2 T3 T4 T5 T6] Hn Hlt Hb w'. split.
  - split; cbn [flows flow_index sequences st_results set_flows set_index w']; try done.
    + intros i k. rewrite elem_of_add, T1. destruct (decide (id = k)) as [<-|Hne].
      * rewrite lookup_insert_eq, Hn. split; [intros [[-> _]|(? & ? & _)]; [eauto|done]|]. intros (e' & [= <-] & <-). by left.
      * rewrite lookup_insert_ne by done. split; [|by right]. intros [[_ ->]|?]; done.
    + by apply add_nonempty.
    + rewrite map_size_insert_None by done. lia.
    + by apply map_Forall_insert_2.
  - split; [done|done|done|]. cbn [flows set_index set_flows w']. intros k e' Hk. rewrite lookup_insert_ne by set_solver. intros Hk' Hr'. right. eauto.
Qed.

Lemma admit_flow_spec now at_ id k w : table_ok w → is_u64 (first_seen_unix_ms k) → let '(w', admitted) := admit_flow now at_ id k w in
  table_ok w' ∧ quiet {[id]} w w' ∧ (∀ e, flows w' !! id = Some e → admitted = true ∧ admitted_flow w id k e) ∧ (admitted = true → is_Some (flows w' !! id)).
Proof.
  intros Hok Hu. unfold admit_flow. set (w1 := match flows w !! id with Some e => _ | None => w end).
  assert (table_ok w1 ∧ quiet {[id]} w w1 ∧ (∀ e, flows w1 !! id = Some e → flows w !! id = Some e)) as (Hok1 & Hq1 & Hid1).
  { unfold w1. destruct (flows w !! id) as [e|] eqn:Hk; [|split_and!; [done|apply quiet_refl|congruence]].
    destruct (fs_expires e <=? now); [|split_and!; [done|apply quiet_refl|congruence]].
    set (wf := if is_running e then finish_flows {[id]} now w else w). assert (table_ok wf ∧ quiet ∅ w wf) as [Hokf Hqf].
    { unfold wf. destruct (is_running e); [|split; [done|apply quiet_refl]]. by destruct (finish_flows_spec {[id]} now w Hok) as (? & ? & _). }
    destruct (remove_flow_spec wf id Hokf) as (Hokr & Hqr & _ & Hfr). split_and!; [done| |].
    - eapply quiet_weaken; [|eapply quiet_trans; eassumption]. set_solver.
    - rewrite Hfr, lookup_delete_eq. done. }
  clearbody w1. destruct (flows w1 !! id) as [e1|] eqn:Hk1.
  { split_and!; [done|done| |by rewrite Hk1]. intros e He. split; [done|]. right. exists e. rewrite He in Hk1. injection Hk1 as <-. split_and!; auto. }
  set (w2 := if CACHE_CAPACITY <=? Z.of_nat (size (flows w1)) then _ else w1).
  assert (table_ok w2 ∧ quiet {[id]} w1 w2 ∧ flows w2 !! id = None) as (Hok2 & Hq2 & Hn2).
  { unfold w2. destruct (CACHE_CAPACITY <=? _); [|split_and!; [done|apply quiet_refl|done]].
    destruct (finish_flows_spec (running_ids (expired_flow_ids now w1) w1) now w1 Hok1) as (Hokf & Hqf & _ & _ & Hsf).
    destruct (remove_flows_spec (expired_flow_ids now w1) _ Hokf) as (Hokr & Hqr & _ & Hsr & _). split_and!; [done| |].
    - eapply quiet_weaken; [|eapply quiet_trans; eassumption]. set_solver.
    - eapply lookup_weaken_None; [|exact Hsr]. apply eq_None_not_Some. rewrite Hsf, Hk1. by intros []. }
  clearbody w2. destruct (Z.leb_spec CACHE_CAPACITY (Z.of_nat (size (flows w2)))) as [Hge|Hlt].
  { split_and!; [done|by eapply quiet_trans|congruence|done]. }
  set (e := mkFlowState k 0 (0, 0) 0 (now + CACHE_TTL) (start_engine k) None [] ∅). assert (flow_bounded e) as Hb by (split; cbn; done).
  destruct (insert_flow_spec w2 id e Hok2 Hn2 Hlt Hb) as [Hok3 Hq3]. destruct (count_spec {[id]} at_ count_attempt _ Hok3) as [Hok4 Hq4]. split_and!; [exact Hok4| | |].
  - eapply quiet_trans; [exact Hq1|]. eapply quiet_trans; [exact Hq2|]. eapply quiet_trans; [exact Hq3|exact Hq4].
  - intros e'. cbn [flows count set_index set_flows]. rewrite lookup_insert_eq. intros [= <-]. split; [done|]. by left.
  - intros _. cbn [flows count set_index set_flows]. rewrite lookup_insert_eq. eauto.
Qed.

(** ** A sample *)

(** What validation guarantees of a sample. *)
Definition sample_valid (s : ReceivedSample) : Prop := is_u64 (first_seen_unix_ms (r_key s)).

Lemma note_policy_flow_same p e : let e' := note_policy_flow p e in
  fs_key e' = fs_key e ∧ fs_last_packet_ms e' = fs_last_packet_ms e ∧ is_running e' = is_running e ∧ (flow_bounded e → flow_bounded e').
Proof.
  unfold note_policy_flow. destruct (_ && _)%bool eqn:E; [|done]. split_and!; try done. intros [B1 B2 B3 B4 B5]. split; cbn; try done.
  apply andb_true_iff in E as [_ E]. apply orb_true_iff in E as [Hin%bool_decide_eq_true|Hlt%Z.ltb_lt].
  - rewrite subseteq_union_1_L by set_solver. done.
  - pose proof (size_union_alt {[p]} (fs_policy_flow_ids e)) as Hsz. rewrite size_singleton in Hsz.
    pose proof (subseteq_size (fs_policy_flow_ids e ∖ {[p]}) (fs_policy_flow_ids e)) as Hle. specialize (Hle ltac:(set_solver)). lia.
Qed.

Lemma concluded_flow c s counts now e : over_limit s counts e = false → flow_bounded e →
  let e' := conclude c (classify_sample s (account_sample s counts now e)) in fs_key e' = fs_key e ∧ r_key s = fs_key e ∧ flow_bounded e'.
Proof.
  intros Hlim Hb. unfold over_limit in Hlim. apply orb_false_iff in Hlim as [Hlim H4]. apply orb_false_iff in Hlim as [Hlim H3]. apply orb_false_iff in Hlim as [Hkey H2].
  apply negb_false_iff, bool_decide_eq_true in Hkey. set (e1 := classify_sample s (account_sample s counts now e)).
  assert (fs_key e1 = fs_key e ∧ flow_bounded e1) as [Hk1 Hb1].
  { unfold e1, classify_sample. destruct (match fs_engine _ with Some g => _ | None => _ end) as [g r]. split; [done|]. destruct Hb as [B1 B2 B3 B4 B5]. split; cbn; try done; lia. }
  clearbody e1. cbv zeta. split_and!; [| done|]; unfold conclude; (destruct (is_exhausted c e1); [by destruct (stop_engine_same e1) as (? & ? & ? & ?); try congruence; auto|]);
    (destruct (fs_result e1) as [d|]; [destruct (is_final d)|]); try done. destruct Hb1. by split.
Qed.

Lemma quiet_close X w w' : quiet X w w' → (∀ id e', id ∈ X → flows w' !! id = Some e' → is_running e' = true →
    flow_identity id e' ∈ dirty_flow_identities w' ∨
    ∃ e, flows w !! id = Some e ∧ is_running e = true ∧ fs_key e' = fs_key e ∧ fs_last_packet_ms e' = fs_last_packet_ms e) → quiet ∅ w w'.
Proof. intros [E R D Q] HX. split; try done. intros id e' _. destruct (decide (id ∈ X)); eauto. Qed.

Lemma process_sample_spec now at_ g b w s : table_ok w → sample_valid s → let w' := process_sample now at_ g b w s in table_ok w' ∧ quiet ∅ w w'.
Proof.
  intros Hok Hs. unfold process_sample. set (id := (g, b, r_flow_id s) : CacheKey). destruct (count_spec {[id]} at_ (count_sample s) w Hok) as [Hok0 Hq0].
  set (w0 := count at_ (count_sample s) w) in *. pose proof (admit_flow_spec now at_ id (r_key s) w0 Hok0 Hs) as Had.
  destruct (admit_flow now at_ id (r_key s) w0) as [w1 admitted]. destruct Had as (Hok1 & Hq1 & Hid1 & _).
  assert (∀ w2, table_ok w2 → quiet {[id]} w1 w2 → flows w2 !! id = None → table_ok (count at_ (record_drop (zlen (r_packets s)) (r_total_captured_bytes s)) w2) ∧
    quiet ∅ w (count at_ (record_drop (zlen (r_packets s)) (r_total_captured_bytes s)) w2)) as Hdrop.
  { intros w2 Hok2 Hq2 Hn2. destruct (count_spec {[id]} at_ (record_drop (zlen (r_packets s)) (r_total_captured_bytes s)) w2 Hok2) as [Hok3 Hq3]. split; [done|].
    eapply quiet_close; [eapply quiet_trans; [exact Hq0|eapply quiet_trans; [exact Hq1|eapply quiet_trans; [exact Hq2|exact Hq3]]]|].
    intros k e' ->%elem_of_singleton. cbn [flows count]. congruence. }
  destruct (flows w1 !! id) as [e|] eqn:Hk1; [|by apply Hdrop; [|apply quiet_refl|]]. destruct (Hid1 e eq_refl) as [-> Hadm].
  destruct (note_policy_flow_same (r_policy_flow_id s) e) as (Hkey & Hlast & Hrun & Hb). set (e1 := note_policy_flow (r_policy_flow_id s) e) in *.
  specialize (Hb (to_flows _ Hok1 _ _ Hk1)). pose proof (table_ok_update w1 id e e1 Hok1 Hk1 Hkey Hb) as Hoku.
  set (w2 := set_dirty _ _). assert (table_ok w2) as Hok2 by (eapply table_ok_frame; [..|exact Hoku]; done).
  assert (∀ w3, flows w3 = <[id := default e1 (flows w3 !! id)]> (flows w2) → st_endings w3 = st_endings w2 → ready w3 = ready w2 →
    dirty_flow_identities w3 = dirty_flow_identities w2 →
    (∀ e', flows w3 !! id = Some e' → is_running e' = true → flow_identity id e' ∈ dirty_flow_identities w2 ∨ (is_running e1 = true ∧ fs_key e' = fs_key e1 ∧ fs_last_packet_ms e' = fs_last_packet_ms e1)) →
    quiet ∅ w w3) as Hquiet.
  { intros w3 Hf He Hr Hd Hrun3. assert (quiet {[id]} w1 w3) as Hq3.
    { split; [by rewrite He|by rewrite Hr|rewrite Hd; cbn; set_solver|]. intros k e' Hne. rewrite Hf. cbn [flows w2 set_dirty set_flows].
      rewrite !lookup_insert_ne by set_solver. intros Hk' Hr'. right. eauto. }
    eapply quiet_close; [eapply quiet_trans; [exact Hq0|eapply quiet_trans; [exact Hq1|exact Hq3]]|].
    intros k e' ->%elem_of_singleton He' Hr'. rewrite Hd. destruct (Hrun3 e' He' Hr') as [?|(Hr1 & Hk' & Hl')]; [by left|].
    destruct Hadm as [Hnew|(e0 & Hk0 & Hr0 & Hkey0 & Hl0)].
    - left. unfold flow_identity. rewrite Hk', Hkey, Hnew. cbn. set_solver.
    - right. exists e0. split_and!; [done|apply Hr0; congruence|congruence|congruence]. }
  destruct (over_limit s _ e1) eqn:Hlim.
  { destruct (count_spec ∅ at_ (record_drop (zlen (r_packets s)) (r_total_captured_bytes s)) w2 Hok2) as [Hok3 _]. split; [exact Hok3|].
    apply Hquiet; try done; cbn [flows count w2 set_dirty set_flows]; rewrite ?lookup_insert_eq; [by rewrite insert_insert_eq|].
    intros e' [= <-] Hr'. right. done. }
  match goal with |- context [conclude ?c ?x] => destruct (concluded_flow c s (foldl count_packet (fs_packets e1) (r_packets s)) now e1 Hlim Hb) as (Hck & Hsk & Hcb); set (e2 := conclude c x) in * end.
  set (w3 := set_flows (<[id := e2]> (flows w2)) w2). assert (table_ok w3) as Hok3 by (eapply (table_ok_update w2 id e1); [done|cbn; apply lookup_insert_eq|congruence|done]).
  set (w4 := if (_ && _)%bool then count at_ count_identified w3 else w3).
  assert (table_ok w4 ∧ flows w4 = flows w3 ∧ st_endings w4 = st_endings w3 ∧ ready w4 = ready w3 ∧ dirty_flow_identities w4 = dirty_flow_identities w3) as (Hok4 & Hf4 & He4 & Hr4 & Hd4).
  { unfold w4. destruct (_ && _)%bool; [|done]. by destruct (count_spec ∅ at_ count_identified w3 Hok3). }
  clearbody w4. assert (∀ w5, table_ok w5 → flows w5 = flows w3 → st_endings w5 = st_endings w3 → ready w5 = ready w3 → dirty_flow_identities w5 = dirty_flow_identities w3 → table_ok w5 ∧ quiet ∅ w w5) as Hend.
  { intros w5 Hok5 Hf5 He5 Hr5 Hd5. split; [done|]. apply Hquiet; rewrite ?He5, ?Hr5, ?Hd5; try done; rewrite Hf5; cbn [flows w3 set_flows]; rewrite lookup_insert_eq; [done|].
    intros e' [= <-] _. left. unfold flow_identity. rewrite Hck, <- Hsk. cbn. set_solver. }
  destruct (has_findings e2); [|by apply Hend]. apply Hend; try done.
  eapply table_ok_frame; [..|exact Hok4]; try done. apply publish_results.
Qed.

(** ** A batch *)

Lemma process_samples_spec now at_ g b l w : table_ok w → Forall sample_valid l →
  let w' := foldl (process_sample now at_ g b) w l in table_ok w' ∧ quiet ∅ w w'.
Proof.
  intros Hok Hl. revert w Hok. induction Hl as [|s l Hs _ IH]; intros w Hok; cbn [foldl]; [split; [done|apply quiet_refl]|].
  destruct (process_sample_spec now at_ g b w s Hok Hs) as [Hok1 Hq1]. destruct (IH _ Hok1) as [Hok2 Hq2]. split; [done|by eapply quiet_trans].
Qed.

Lemma expire_sequences_spec now w : table_ok w → table_ok (expire_sequences now w) ∧ quiet ∅ w (expire_sequences now w).
Proof.
  intros Hok. split; [|by apply quiet_same]. eapply table_ok_frame; [..|exact Hok]; try done. cbn [sequences expire_sequences set_sequences].
  pose proof (map_size_filter (λ p : string * string * (Z * Z), now < snd (snd p)) (sequences w)). lia.
Qed.

Lemma process_batch_spec now at_ b w : table_ok w → Forall sample_valid (rb_samples b) → let w' := process_batch now at_ b w in table_ok w' ∧ quiet ∅ w w'.
Proof.
  intros Hok Hl. unfold process_batch. set (key := (rb_gateway_id b, rb_boot_id b)). destruct (match sequences w !! key with Some _ => _ | None => _ end); [split; [done|apply quiet_refl]|].
  set (w1 := if sequences_full key w then expire_sequences now w else w).
  assert (table_ok w1 ∧ quiet ∅ w w1) as [Hok1 Hq1] by (unfold w1; destruct (sequences_full key w); [by apply expire_sequences_spec|split; [done|apply quiet_refl]]).
  clearbody w1. destruct (sequences_full key w1) eqn:Hfull; [by split|].
  assert (table_ok (set_sequences (<[key := (rb_sequence b, now + CACHE_TTL)]> (sequences w1)) w1)) as Hok2.
  { destruct Hok1 as [T1 T2 T3 T4 T5 T6]. split; try done. cbn [sequences set_sequences]. unfold sequences_full in Hfull. rewrite map_size_insert.
    destruct (sequences w1 !! key); cbn [id]; [done|]. apply andb_false_iff in Hfull as [?|Hf]; [lia|]. by rewrite bool_decide_true in Hf. }
  destruct (process_samples_spec now at_ (rb_gateway_id b) (rb_boot_id b) (rb_samples b) _ Hok2 Hl) as [Hok3 Hq3]. split; [done|].
  eapply quiet_trans; [exact Hq1|]. eapply quiet_trans; [|exact Hq3]. by apply quiet_same.
Qed.

(** ** A pass *)

(** No inspection goes on of a flow with a reported end that the worker knows. *)
Definition checked (t : Z) (w : Worker) : Prop := ∀ id e, flows w !! id = Some e → is_running e = true → flow_identity id e ∉ dirty_flow_identities w →
  ∀ v, v ∈ windows (st_endings w) (flow_identity id e) → ripe t v = true → pending_ending_deadlines (st_endings w) !! w_id v = None →
    window_overlaps (first_seen_unix_ms (fs_key e)) (fs_last_packet_ms e) (window_span v) = false.

Record worker_ok (t : Z) (w : Worker) : Prop := mkWorkerOk {
  wo_table : table_ok w;
  wo_endings : index_current (st_endings w) (ready w) t;
  wo_checked : checked t w;
}.

Lemma quiet_checked t w w' : quiet ∅ w w' → checked t w → checked t w'.
Proof.
  intros [E R D Q] Hc id e' Hk Hr Hd. rewrite E. destruct (Q id e' ltac:(set_solver) Hk Hr) as [?|(e & Hk0 & Hr0 & Hkey & Hl)]; [done|].
  rewrite Hkey, Hl. unfold flow_identity in *. rewrite Hkey in *. apply (Hc id e Hk0 Hr0). set_solver.
Qed.

Lemma quiet_worker t w w' : table_ok w' → quiet ∅ w w' → worker_ok t w → worker_ok t w'.
Proof. intros Hok Hq [_ He Hc]. split; [done| |by eapply quiet_checked]. destruct Hq as [-> -> _ _]. done. Qed.

(** Steps of the telemetry side. *)
Lemma endings_worker t w s : index_current s (ready w) t →
  (∀ i v, v ∈ windows s i → pending_ending_deadlines s !! w_id v = None → ripe t v = true → v ∈ windows (st_endings w) i ∧ pending_ending_deadlines (st_endings w) !! w_id v = None) →
  worker_ok t w → worker_ok t (set_endings s (ready w) w).
Proof.
  intros Hs Hsub [Hok _ Hc]. split; [|done|].
  - eapply table_ok_frame; [..|exact Hok]; done.
  - intros id e Hk Hr Hd v Hv Hripe Hp. destruct (Hsub _ v Hv Hp Hripe) as [Hv0 Hp0]. by apply (Hc id e Hk Hr Hd v).
Qed.

Lemma pass_preparation now w : table_ok w →
  let w1 := if next_cleanup w <=? now then set_cleanups (now + CACHE_MAINTENANCE_INTERVAL) (st_next_cleanup w) (expire_sequences now w) else w in
  let w2 := if st_next_cleanup w1 <=? now
            then set_cleanups (next_cleanup w1) (now + CACHE_MAINTENANCE_INTERVAL) (set_results (expire_results now (st_results w1)) [] w1) else w1 in
  table_ok w2 ∧ flows w2 = flows w ∧ flow_index w2 = flow_index w ∧ st_endings w2 = st_endings w ∧ ready w2 = ready w ∧ dirty_flow_identities w2 = dirty_flow_identities w.
Proof.
  intros Hok w1 w2. assert (table_ok w1 ∧ flows w1 = flows w ∧ flow_index w1 = flow_index w ∧ st_endings w1 = st_endings w ∧ ready w1 = ready w ∧ dirty_flow_identities w1 = dirty_flow_identities w)
    as (Hok1 & Hf & Hi & He & Hr & Hd).
  { unfold w1. destruct (next_cleanup w <=? now); [|done]. destruct (expire_sequences_spec now w Hok) as [Hoks _]. split; [|done]. eapply table_ok_frame; [..|exact Hoks]; done. }
  clearbody w1. unfold w2. destruct (st_next_cleanup w1 <=? now); [|done]. split; [|done]. eapply table_ok_frame; [..|exact Hok1]; try done.
  cbn [st_results set_cleanups set_results]. intros [Hro Hrs]. destruct (expire_results_ok now (st_results w1) Hro) as [Hro' Hre]. split; [done|]. rewrite Hre.
  pose proof (map_size_filter (λ p : CacheKey * Cached, now < c_expires (snd p)) (results (st_results w1))). lia.
Qed.

Lemma elem_of_matching identities w i id e : table_ok w → i ∈ identities → flows w !! id = Some e → flow_identity id e = i →
  has_ended_flow (ready_endings (ready w)) i e = true → id ∈ matching_flows_for_endings identities w.
Proof.
  intros Hok Hi Hk Hid Hend. unfold matching_flows_for_endings. apply elem_of_list_to_set, list_elem_of_join.
  eexists. split; [|apply list_elem_of_fmap; exists i; split; [reflexivity|by apply elem_of_elements]]. apply elem_of_filterb. split.
  - apply elem_of_elements, (to_index _ Hok). eauto.
  - by rewrite Hk.
Qed.

(** After a pass nothing is inspected any more that ended according to a mature
    report, and nothing waits to be looked at. *)
Lemma pass_spec t now w : worker_ok t w → t ≤ now → let w' := pass now w in
  worker_ok now w' ∧ dirty_flow_identities w' = ∅ ∧
  (∀ id e, flows w' !! id = Some e → is_running e = true → ∀ v, v ∈ windows (st_endings w') (flow_identity id e) → is_mature now v = true →
     window_overlaps (first_seen_unix_ms (fs_key e)) (fs_last_packet_ms e) (window_span v) = false) ∧
  (next_cleanup w ≤ now → ∀ id e, flows w' !! id = Some e → ∃ e0, flows w !! id = Some e0 ∧ now < fs_expires e0).
Proof.
  intros [Hok Hcur Hch] Hle. unfold pass. set (expired := if next_cleanup w <=? now then expired_flow_ids now w else ∅).
  set (finalizable := running_ids expired w). destruct (pass_preparation now w Hok) as (Hok2 & Hf2 & Hi2 & He2 & Hr2 & Hd2).
  set (w1 := if next_cleanup w <=? now then _ else w) in *. set (w2 := if st_next_cleanup w1 <=? now then _ else w1) in *. clearbody w2. clear w1. rewrite He2, Hr2.
  pose proof (refresh_current now (st_endings w) (ready w) t Hcur Hle) as Hrc. destruct (refresh_endings now (st_endings w) (ready w)) as [[s' r'] due] eqn:Hrefresh.
  destruct Hrc as (Hcur' & Hlive & Hready). pose proof (refresh_due now _ _ t s' r' due Hcur Hrefresh) as Hdue.
  set (w3 := set_dirty ∅ (set_endings s' r' w2)). assert (table_ok w3) as Hok3 by (eapply table_ok_frame; [..|exact Hok2]; done).
  set (ids := finalizable ∪ matching_flows_for_endings (dirty_flow_identities w2 ∪ due) w3).
  destruct (finish_flows_spec ids now w3 Hok3) as (Hok4 & Hq4 & Hd4 & Hstop & Hsome). set (w4 := finish_flows ids now w3) in *.
  set (w5 := if next_cleanup w <=? now then remove_flows expired w4 else w4).
  assert (table_ok w5 ∧ quiet ∅ w4 w5 ∧ dirty_flow_identities w5 = dirty_flow_identities w4 ∧ flows w5 ⊆ flows w4 ∧
    (next_cleanup w ≤ now → ∀ id, id ∈ expired → flows w5 !! id = None)) as (Hok5 & Hq5 & Hd5 & Hf5 & Hx5).
  { unfold w5. destruct (Z.leb_spec (next_cleanup w) now); [|split_and!; [done|apply quiet_refl|done|done|lia]].
    destruct (remove_flows_spec expired w4 Hok4) as (R1 & R2 & R3 & R4 & R5). by split_and!. }
  clearbody w5. pose proof (quiet_trans _ _ _ _ Hq4 Hq5) as [Qe Qr Qd Qrun]. change (st_endings w3) with s' in Qe. change (ready w3) with r' in Qr.
  assert (dirty_flow_identities w5 = ∅) as Hdirty by (rewrite Hd5, Hd4; done).
  assert (∀ id e, flows w5 !! id = Some e → is_running e = true → ∀ v, v ∈ windows s' (flow_identity id e) → ripe now v = true →
    window_overlaps (first_seen_unix_ms (fs_key e)) (fs_last_packet_ms e) (window_span v) = false) as Hno.
  { intros id e Hk Hr v Hv Hripe. assert (running_flow w4 id = true) as Hr4 by (unfold running_flow; by rewrite (lookup_weaken _ _ _ _ Hk Hf5)).
    destruct (Qrun id e ltac:(set_solver) Hk Hr) as [Hd|(e0 & Hk0 & Hr0 & Hkey & Hl)]; [rewrite Hdirty in Hd; set_solver|].
    unfold flow_identity in *. rewrite Hkey in *. rewrite Hl. set (i := sample_identity id (fs_key e0)) in *. change (flows w3) with (flows w2) in Hk0.
    destruct (decide (i ∈ dirty_flow_identities w2 ∪ due)) as [Hin|Hout].
    - assert (has_ended_flow (ready_endings r') i e0 = false) as Hend.
      { destruct (has_ended_flow (ready_endings r') i e0) eqn:E; [|done]. exfalso. assert (id ∈ ids) as Hids; [|by rewrite (Hstop id Hids) in Hr4].
        apply elem_of_union_r. by apply (elem_of_matching _ w3 i id e0). }
      assert (existsb (window_overlaps (first_seen_unix_ms (fs_key e0)) (fs_last_packet_ms e0)) (mature_ending_windows i now s') = false) as Hex.
      { rewrite <- interval_index_correct; [|apply Forall_forall; intros x (u & -> & [Hu _]%elem_of_filterb)%list_elem_of_fmap; by apply (ic_last _ _ _ Hcur' i)|by apply (fb_first _ (to_flows _ Hok2 _ _ Hk0))].
        rewrite <- Hready. unfold has_ended_flow in Hend. rewrite Hr0 in Hend. by destruct (ready_endings r' !! i). }
      rewrite existsb_false, Forall_forall in Hex. apply Hex. unfold mature_ending_windows. apply list_elem_of_fmap. exists v. split; [done|]. apply elem_of_filterb.
      split; [exact Hv|]. rewrite is_mature_ripe; [done|by apply (Hlive i)].
    - destruct (Hdue i v Hv Hripe ltac:(set_solver)) as (Hv0 & Hripe0 & Hp0). rewrite Hf2 in Hk0. apply (Hch id e0 Hk0 Hr0); [rewrite <- Hd2; set_solver|done|done|done]. }
  cbv zeta. split_and!; [split; [done|by rewrite Qe, Qr|]|done| |].
  - intros id e Hk Hr _ v Hv Hripe _. rewrite Qe in Hv. by apply (Hno id e Hk Hr v).
  - intros id e Hk Hr v Hv Hm. rewrite Qe in Hv. apply (Hno id e Hk Hr v Hv). rewrite <- (is_mature_ripe now v); [done|by eapply Hlive].
  - intros Hdue_clean id e Hk. assert (is_Some (flows w !! id)) as [e0 He0].
    { rewrite <- Hf2. change (flows w2) with (flows w3). apply Hsome. rewrite (lookup_weaken _ _ _ _ Hk Hf5). eauto. }
    exists e0. split; [done|]. apply Z.nle_gt. intros Hexp. specialize (Hx5 Hdue_clean id). rewrite Hx5 in Hk; [done|].
    unfold expired. assert ((next_cleanup w <=? now) = true) as -> by lia. unfold expired_flow_ids. apply elem_of_dom. exists e0. by apply map_lookup_filter_Some.
Qed.

(** * The worker and the telemetry side *)

Definition idle_worker (t : Z) : Worker :=
  mkWorker ∅ ∅ ∅ (mkReady [] ∅) ∅ (t + CACHE_MAINTENANCE_INTERVAL) no_endings no_results (t + CACHE_MAINTENANCE_INTERVAL) [] ∅ [].

(** The worker passes at times that do not decrease and receives validated batches;
    telemetry arrives at any time, with whatever else its side keeps, as long as
    the numbers of reported ends last. *)
Inductive runs : Z → Worker → Prop :=
| run_start t : runs t (idle_worker t)
| run_pass t w now : runs t w → t ≤ now → runs now (pass now w)
| run_batch t w at_ b : runs t w → Forall sample_valid (rb_samples b) → runs t (process_batch t at_ b w)
| run_telemetry t w now at_ batch h d : runs t w → Forall (λ f, is_u64 (d_last_seen_unix_ms f)) (Contexts.flows batch) →
    next_ending_id (st_endings w) + zlen (Contexts.flows batch) < 2 ^ 64 → runs t (fst (observe_telemetry now at_ batch h w d)).

(** A pass takes the reports that have not expired. *)
Lemma finish_flows_endings ids now w : st_endings (finish_flows ids now w) = st_endings w.
Proof.
  unfold finish_flows. generalize (result_order ids). intros l. revert w. induction l as [|k l IH]; intros w; [done|]. cbn [foldl]. rewrite IH. unfold finish_flow.
  destruct (flows w !! k); [|done]. by destruct (has_findings _).
Qed.

Lemma remove_flows_endings ids w : st_endings (remove_flows ids w) = st_endings w.
Proof.
  unfold remove_flows. generalize (result_order ids). intros l. revert w. induction l as [|k l IH]; intros w; [done|]. cbn [foldl]. rewrite IH. unfold remove_flow.
  by destruct (flows w !! k).
Qed.

Lemma pass_windows now w i : endings_ok (st_endings w) → windows (st_endings (pass now w)) i = List.filter (λ v, now <? w_expires v) (windows (st_endings w) i).
Proof.
  intros Hok. unfold pass. set (w1 := if next_cleanup w <=? now then _ else w). set (w2 := if st_next_cleanup w1 <=? now then _ else w1).
  assert (st_endings w2 = st_endings w) as -> by (unfold w2, w1; by destruct (next_cleanup w <=? now), (_ <=? now)).
  destruct (refresh_endings now (st_endings w) (ready w2)) as [[s' r'] due] eqn:Hr. rewrite <- (xe_windows _ _ _ (expire_endings_expired now _ Hok)).
  assert (∀ j, windows s' j = windows (expire_endings now (st_endings w)) j) as Hs by (unfold refresh_endings, take_ending_updates in Hr; by injection Hr as <- _ _).
  rewrite <- Hs. f_equal. destruct (next_cleanup w <=? now); by rewrite ?remove_flows_endings, finish_flows_endings.
Qed.

Lemma idle_worker_ok t : worker_ok t (idle_worker t).
Proof.
  split.
  - split; cbn; try done; [|split; [apply no_results_ok|done]]. intros i id. rewrite lookup_empty. cbn. split; [set_solver|]. by intros (? & ? & _).
  - apply (reachable_current no_endings (mkReady [] ∅) t). apply r_start.
  - intros id e Hk. cbn in Hk. by rewrite lookup_empty in Hk.
Qed.

(** ** Telemetry *)

Lemma insert_ending_next i first last now s : endings_ok s → 0 ≤ next_ending_id s < 2 ^ 64 - 1 →
  next_ending_id (fst (insert_ending i first last now s)) ≤ next_ending_id s + 1.
Proof.
  intros Hok Hn. unfold insert_ending. set (s1 := if CACHE_CAPACITY <=? ending_count s then expire_endings now s else s). assert (next_ending_id s1 = next_ending_id s) as Hs
    by (unfold s1; destruct (_ <=? _); [apply (expire_endings_expired now s Hok)|done]).
  clearbody s1. destruct (_ <=? _); cbn [fst next_ending_id]; [lia|]. rewrite Z.mod_small; lia.
Qed.

Lemma cleanup_worker t now w : worker_ok t w → worker_ok t (cleanup_if_due now w) ∧ next_ending_id (st_endings (cleanup_if_due now w)) = next_ending_id (st_endings w).
Proof.
  intros Hw. unfold cleanup_if_due. destruct (now <? st_next_cleanup w); [done|].
  assert (worker_ok t (set_endings (expire_endings now (st_endings w)) (ready w) w)) as He.
  { apply endings_worker; [by apply expire_current, (wo_endings _ _ Hw)| |done]. intros i v Hv Hp _.
    destruct (expire_endings_expired now _ (ic_ok _ _ _ (wo_endings _ _ Hw))) as [_ Hwin Hpe _ _ _ _]. rewrite <- (Hpe i v Hv). split; [|done].
    rewrite Hwin, elem_of_filterb in Hv. tauto. }
  split; [|cbn [st_endings set_results set_endings]; exact (xe_next _ _ _ (expire_endings_expired now _ (ic_ok _ _ _ (wo_endings _ _ Hw))))].
  eapply quiet_worker; [| |exact He].
  - eapply table_ok_frame; [..|exact (wo_table _ _ He)]; try done. cbn [st_results set_results set_endings set_cleanups]. intros [Hro Hrs].
    destruct (expire_results_ok now (st_results w) Hro) as [Hro' Hre]. split; [done|]. rewrite Hre.
    pose proof (map_size_filter (λ p : CacheKey * Cached, now < c_expires (snd p)) (results (st_results w))). lia.
  - split; try done. intros id e _ Hk Hr. right. by exists e.
Qed.

Lemma report_worker t now g b w f : worker_ok t w → is_u64 (d_last_seen_unix_ms f) → next_ending_id (st_endings w) < 2 ^ 64 - 1 →
  worker_ok t (report_end now g b w f) ∧ next_ending_id (st_endings (report_end now g b w f)) ≤ next_ending_id (st_endings w) + 1.
Proof.
  intros Hw Hl Hn. unfold report_end. destruct (has_ended f); [|split; [done|lia]]. pose proof (wo_endings _ _ Hw) as Hc. split.
  - apply endings_worker; [by apply insert_current| |done]. intros j v Hv Hp Hr.
    destruct (insert_ending_old _ _ _ now (st_endings w) (ready w) t Hc Hl Hn j v Hv) as [[Hold Hpo]|[x Hnew]]; [auto|congruence].
  - cbn [st_endings set_endings]. apply insert_ending_next; [exact (ic_ok _ _ _ Hc)|]. pose proof (ic_next _ _ _ Hc). lia.
Qed.

Lemma reports_worker t now g b l w : worker_ok t w → Forall (λ f, is_u64 (d_last_seen_unix_ms f)) l → next_ending_id (st_endings w) + zlen l < 2 ^ 64 →
  worker_ok t (foldl (report_end now g b) w l).
Proof.
  intros Hw Hl. revert w Hw. induction Hl as [|f l Hf Hl IH]; intros w Hw Hn; [done|]. cbn [foldl]. rewrite zlen_cons in Hn. pose proof (zlen_nonneg l).
  destruct (report_worker t now g b w f Hw Hf) as [Hw' Hn']; [lia|]. apply IH; [done|lia].
Qed.

Lemma telemetry_worker t now at_ batch h w d : worker_ok t w → Forall (λ f, is_u64 (d_last_seen_unix_ms f)) (Contexts.flows batch) →
  next_ending_id (st_endings w) + zlen (Contexts.flows batch) < 2 ^ 64 → worker_ok t (fst (observe_telemetry now at_ batch h w d)).
Proof.
  intros Hw Hl Hn. unfold observe_telemetry. destruct (cleanup_worker t now w Hw) as [Hc Hnext].
  assert (worker_ok t (foldl (report_end now (b_gateway_id batch) (b_boot_id batch)) (cleanup_if_due now w) (Contexts.flows batch))) as Hr
    by (apply reports_worker; [done|done|lia]).
  set (w1 := foldl _ (cleanup_if_due now w) _) in *. clearbody w1. destruct (foldl _ _ _) as [sn new].
  assert (∀ w2 : Worker, flows w2 = flows w1 → flow_index w2 = flow_index w1 → sequences w2 = sequences w1 → st_results w2 = st_results w1 → st_endings w2 = st_endings w1 →
    ready w2 = ready w1 → dirty_flow_identities w2 = dirty_flow_identities w1 → worker_ok t w2) as Hsame.
  { intros w2 Ef Ei Es Er Ee Ey Ed. eapply quiet_worker; [| |exact Hr].
    - eapply table_ok_frame; [done|done|by rewrite Es|by rewrite Er|exact (wo_table _ _ Hr)].
    - split; [done|done|by rewrite Ed|]. intros id e _ Hk Hrun. right. exists e. by rewrite <- Ef. }
  destruct h as [h|]; [destruct (h_sample_config h)|]; cbn [fst]; by apply Hsame.
Qed.

Lemma runs_ok t w : runs t w → worker_ok t w.
Proof.
  induction 1 as [t|t w now _ IH Hle|t w at_ b _ IH Hb|t w now at_ batch h d _ IH Hl Hn].
  - apply idle_worker_ok.
  - by destruct (pass_spec t now w IH Hle).
  - destruct (process_batch_spec t at_ b w (wo_table _ _ IH) Hb) as [Hok Hq]. by eapply quiet_worker.
  - by apply telemetry_worker.
Qed.


(** ** Batches that arrive twice *)

Lemma fold_sequences {A} (f : Worker → A → Worker) l w : (∀ w a, sequences (f w a) = sequences w) → sequences (foldl f w l) = sequences w.
Proof. intros Hf. revert w. induction l as [|a l IH]; intros w; [done|]. cbn [foldl]. by rewrite IH. Qed.

Lemma finish_flows_sequences ids now w : sequences (finish_flows ids now w) = sequences w.
Proof. apply fold_sequences. intros v k. unfold finish_flow. destruct (flows v !! k); [|done]. by destruct (has_findings _). Qed.

Lemma remove_flow_sequences w id : sequences (remove_flow w id) = sequences w.
Proof. unfold remove_flow. by destruct (flows w !! id). Qed.

Lemma remove_flows_sequences ids w : sequences (remove_flows ids w) = sequences w.
Proof. apply fold_sequences. intros. apply remove_flow_sequences. Qed.

Lemma admit_flow_sequences now at_ id k w : sequences (fst (admit_flow now at_ id k w)) = sequences w.
Proof.
  unfold admit_flow. set (w1 := match flows w !! id with Some e => _ | None => w end). assert (sequences w1 = sequences w) as <-.
  { unfold w1. destruct (flows w !! id) as [e|]; [|done]. destruct (_ <=? _); [|done]. rewrite remove_flow_sequences. destruct (is_running e); [apply finish_flows_sequences|done]. }
  clearbody w1. destruct (flows w1 !! id); [done|]. set (w2 := if _ <=? Z.of_nat (size (flows w1)) then _ else w1). assert (sequences w2 = sequences w1) as <-.
  { unfold w2. destruct (_ <=? _); [|done]. by rewrite remove_flows_sequences, finish_flows_sequences. }
  clearbody w2. by destruct (_ <=? _).
Qed.

Lemma process_sample_sequences now at_ g b w s : sequences (process_sample now at_ g b w s) = sequences w.
Proof.
  unfold process_sample. pose proof (admit_flow_sequences now at_ (g, b, r_flow_id s) (r_key s) (count at_ (count_sample s) w)) as Ha.
  destruct (admit_flow _ _ _ _ _) as [w1 admitted]. cbn [fst] in Ha. change (sequences (count at_ (count_sample s) w)) with (sequences w) in Ha. rewrite <- Ha.
  destruct (flows w1 !! _) as [e|]; [|done]. destruct admitted; [|done]. destruct (over_limit _ _ _); [done|]. destruct (has_findings _); destruct (_ && _)%bool; done.
Qed.

(** A batch that was taken is ignored when it, or an older one of the same agent,
    arrives again within 300 seconds. *)
Lemma replayed_batch_ignored now at_ b w now' at' b' : (rb_gateway_id b', rb_boot_id b') = (rb_gateway_id b, rb_boot_id b) → rb_sequence b' ≤ rb_sequence b →
  now' < now + CACHE_TTL → let w' := process_batch now at_ b w in
  w' = w ∨ w' = expire_sequences now w ∨ process_batch now' at' b' w' = w'.
Proof.
  intros Hkey Hseq Hlt w'. assert (w' = w ∨ w' = expire_sequences now w ∨ sequences w' !! (rb_gateway_id b, rb_boot_id b) = Some (rb_sequence b, now + CACHE_TTL)) as [?|[?|Hs]]; [|auto..|].
  - unfold w', process_batch. set (key := (rb_gateway_id b, rb_boot_id b)). destruct (match sequences w !! key with Some _ => _ | None => _ end); [by left|].
    set (w1 := if sequences_full key w then expire_sequences now w else w). destruct (sequences_full key w1); [unfold w1; destruct (sequences_full key w); auto|].
    right. right. rewrite fold_sequences by apply process_sample_sequences. cbn [sequences set_sequences]. apply lookup_insert_eq.
  - right. right. clearbody w'. unfold process_batch. rewrite Hkey, Hs. assert (((now' <? now + CACHE_TTL) && (rb_sequence b' <=? rb_sequence b))%bool = true) as -> by lia. done.
Qed.
End proofs.

(** * A flow that is sampled and ends *)

#[local] Existing Instances FindingsExample.order FindingsExample.order_law.

Module WorkerExample.
#[export] Instance inspector : Inspector := {|
  engine := nat;
  start_engine _ := Some 0%nat;
  classify n _ := (S n, None);
  finish_engine n := Some (mkDpi "dns" f64_1_0 ∅ "ndpi");
  match_sample _ _ := [];
|}.
Definition packet (t : Z) : SamplePacket := mkPacket 1 t 60 60 [].
Definition sample : ReceivedSample := mkReceived "s1" (FindingsExample.key 1000) [packet 1100; packet 1200] 120 "f1".
Definition received : Worker := process_batch 0 0 (mkReceivedBatch "gw" "boot" 1 [sample]) (idle_worker 0).
Definition identity : FlowIdentity := sample_identity ("gw", "boot", "s1") (FindingsExample.key 1000).
Definition ended : FlowDelta :=
  let k := FindingsExample.key 1000 in
  mkFlowDelta (ip_version k) (protocol k) (client_ip k) (client_port k) (remote_ip k) (remote_port k) 1 0 0 0 1000 1300 0 LIFECYCLE_ENDED [] "" 0 0 0 "" "" "f1".
Definition side : Side := mkSide (mkSeen ∅ ∅ 0) ∅.
Definition health : AgentHealth := mkHealth (Some (mkSampleConfig true 8192 8 1024)) 3 180.
Definition reported : Worker := fst (observe_telemetry 0 0 (mkFlowBatch "gw" "boot" [ended]) (Some health) received side).
Definition later : Worker := pass (2 * 10 ^ 9) (pass 1 reported).
End WorkerExample.
#[local] Existing Instances WorkerExample.inspector.

