(* ===== verification/Admission.v ===== *)
(** Admission of policies on the collector
    (src/crates/collector/src/policy/validation.rs, and validate_spec of
    src/crates/collector/src/policy/api.rs): how a submitted policy is normalized,
    what is wrong with it, and which application limits may not exist together.
    The catalog of known clients, applications and categories is a database query
    and a parameter; so are the capabilities that a gateway has reported. *)

From S2P Require Import Prelude PolicyWire Identity Compiler Evaluator.
From Stdlib Require Import SpecFloat.

Record ValidationIssue := mkIssue { path : string; code : string; message : string }.

Record KnownSelectors := mkKnown {
  gateway_exists : bool;
  known_clients : gset string;
  known_applications : gset string;
  known_categories : gset string;
}.

Definition issue_if (b : bool) (path code message : string) : list ValidationIssue := if b then [mkIssue path code message] else [].

(** [format!("{path}[{index}]")]. *)
Definition at_index (path : string) (index : Z) : string := String.append path (String.append "[" (String.append (dec_text index) "]")).

(** ** Identity *)

Definition validate_identity (known : option KnownSelectors) (s : PolicySpecV1) : PolicySpecV1 * list ValidationIssue :=
  let gateway_id := str_trim (spec_gateway_id s) in
  let name := str_trim (name s) in
  let description := str_trim (description s) in
  (mkSpec (schema_version s) gateway_id name description (enabled s) (priority s) (selectors s) (network s) (action s) (schedule s),
   issue_if (negb (schema_version s =? 1)) "schema_version" "invalid_spec" "schema_version must be 1"
   ++ issue_if (str_is_empty gateway_id || (128 <? zlen (str_chars gateway_id)))%bool "gateway_id" "invalid_spec" "gateway_id must contain 1–128 characters"
   ++ issue_if (match known with Some k => negb (gateway_exists k) | None => false end) "gateway_id" "not_found"
        "gateway is not registered with this Collector"
   ++ issue_if (negb (in_range 1 100 (zlen (str_chars name)))) "name" "invalid_spec" "name must contain 1–100 Unicode characters after trimming"
   ++ issue_if (500 <? zlen (str_chars description)) "description" "invalid_spec" "description must not exceed 500 Unicode characters"
   ++ issue_if (1000 <? priority s) "priority" "invalid_spec" "priority must be between 0 and 1000").

(** ** Selectors *)

Definition is_ascii_hexdigit (b : Z) : bool := (is_ascii_digit b || in_range 65 70 b || in_range 97 102 b)%bool.

(** [parts.join(":")]. *)
Fixpoint join_colon (parts : list string) : string :=
  match parts with
  | [] => EmptyString
  | [p] => p
  | p :: ps => String.append p (String (ascii_of_N 58) (join_colon ps))
  end.

Definition bad_octet (part : string) : bool := (negb (str_len part =? 2) || negb (forallb is_ascii_hexdigit (str_bytes part)))%bool.

Definition normalize_mac (value : string) : option string :=
  let parts := str_split 58 (str_trim value) in
  if (negb (zlen parts =? 6) || existsb bad_octet parts)%bool then None else Some (to_ascii_uppercase (join_colon parts)).

(** The loop over the clients: the canonical ones, each once, in order of
    appearance. *)
Fixpoint canonical_clients (index : Z) (unique : gset string) (cs : list string) : list string * list ValidationIssue :=
  match cs with
  | [] => ([], [])
  | c :: cs =>
    match normalize_mac c with
    | Some mac =>
      if bool_decide (mac ∈ unique) then canonical_clients (index + 1) unique cs
      else let '(l, more) := canonical_clients (index + 1) ({[mac]} ∪ unique) cs in (mac :: l, more)
    | None =>
      let '(l, more) := canonical_clients (index + 1) unique cs in
      (l, mkIssue (at_index "selectors.clients" index) "unsupported_selector" "client selector must be a six-octet colon-separated MAC address" :: more)
    end
  end.

Definition unknown_clients (gateway_id : string) (known : option KnownSelectors) (cs : list string) : list ValidationIssue :=
  match known with
  | None => []
  | Some k =>
    mjoin ((λ c, issue_if (negb (bool_decide (c ∈ known_clients k))) "selectors.clients" "unsupported_selector"
                   (String.append "client " (String.append c (String.append " is not registered on gateway " gateway_id)))) <$> cs)
  end.

(** The loop of [validate_ids]: the trimmed ids. *)
Fixpoint trim_ids (path : string) (known : option (gset string)) (index : Z) (seen : gset string) (values : list string)
    : list string * list ValidationIssue :=
  match values with
  | [] => ([], [])
  | v :: values =>
    let v := str_trim v in
    let bad := (str_is_empty v || (128 <? zlen (str_chars v)) || has_control v)%bool in
    let '(l, more) := trim_ids path known (index + 1) (if bad then seen else {[v]} ∪ seen) values in
    (v :: l,
     (if bad then [mkIssue (at_index path index) "unsupported_selector" "selector ID must be non-empty and at most 128 characters"]
      else issue_if (bool_decide (v ∈ seen)) (at_index path index) "invalid_spec" "duplicate selector IDs are not allowed")
     ++ issue_if (match known with Some k => negb (bool_decide (v ∈ k)) | None => false end) (at_index path index) "unsupported_selector"
          (String.append "selector ID " (String.append v " is not available in existing metadata"))
     ++ more)
  end.

Definition validate_ids (values : list string) (max : Z) (path : string) (known : option (gset string)) : list string * list ValidationIssue :=
  let '(l, more) := trim_ids path known 0 ∅ values in
  (sort_by str_leb l,
   issue_if (max <? zlen values) path "invalid_spec" (String.append "at most " (String.append (dec_text max) " selectors are allowed")) ++ more).

Definition set_selectors (sel : PolicySelectors) (s : PolicySpecV1) : PolicySpecV1 :=
  mkSpec (schema_version s) (spec_gateway_id s) (name s) (description s) (enabled s) (priority s) sel (network s) (action s) (schedule s).

Definition validate_selectors (known : option KnownSelectors) (s : PolicySpecV1) : PolicySpecV1 * list ValidationIssue :=
  let sel := selectors s in
  let '(clients, client_issues) := canonical_clients 0 ∅ (clients sel) in
  let clients := sort_by str_leb clients in
  let '(applications, application_issues) := validate_ids (applications sel) 32 "selectors.applications" (known_applications <$> known) in
  let '(categories, category_issues) := validate_ids (categories sel) 16 "selectors.categories" (known_categories <$> known) in
  let confidence := min_application_confidence sel in
  (set_selectors (mkSelectors clients applications categories confidence) s,
   client_issues
   ++ issue_if (32 <? zlen clients) "selectors.clients" "invalid_spec" "at most 32 clients are allowed"
   ++ unknown_clients (spec_gateway_id s) known clients
   ++ application_issues ++ category_issues
   ++ issue_if (negb (f64_is_finite confidence) || negb (SFleb f64_0_80 confidence && SFleb confidence f64_1_0))%bool
        "selectors.min_application_confidence" "invalid_spec" "min_application_confidence must be a finite number from 0.80 through 1.00"
   ++ issue_if (no_selector clients && no_selector applications && no_selector categories)%bool "selectors" "invalid_spec"
        "at least one client, application, or category selector is required").

(** ** Network and action *)

Definition validate_network (s : PolicySpecV1) : list ValidationIssue :=
  issue_if (negb (String.eqb (scope (network s)) "internet") && negb (is_client_total_spec s))%bool "network.scope" "unsupported_scope"
    "use internet scope, or agent scope for client-only aggregate limits in both directions"
  ++ issue_if (negb (String.eqb (direction (network s)) "both")) "network.direction" "unsupported_selector" "V1 supports only both directions".

Definition validate_rate (value : option Z) (path : string) : list ValidationIssue :=
  issue_if (bad_rate value) path "invalid_spec" "rate must be null or an integer from 64000 through 1000000000 bps".

Definition validate_action (s : PolicySpecV1) : list ValidationIssue :=
  let sel := selectors s in
  let application_policy := (negb (no_selector (applications sel)) || negb (no_selector (categories sel)))%bool in
  let down := action_download_bps (action s) in
  let up := action_upload_bps (action s) in
  issue_if (application_policy && no_selector (clients sel))%bool "selectors.clients" "unsupported_selector"
    "application block, allow, and limit policies require at least one client selector"
  ++ match kind (action s) with
     | Limit =>
       issue_if (no_selector (clients sel) && negb application_policy)%bool "selectors.clients" "unsupported_selector"
         "client limits require at least one client selector"
       ++ validate_rate down "action.download_bps" ++ validate_rate up "action.upload_bps"
       ++ issue_if (bool_decide (down = None) && bool_decide (up = None))%bool "action" "invalid_spec" "limit requires at least one download or upload rate"
     | Block | Allow =>
       issue_if (bool_decide (is_Some down) || bool_decide (is_Some up))%bool "action" "invalid_spec" "block and allow actions cannot include rate limits"
     end.

(** ** Schedule *)

(** The order of [Vec<PolicyWeekday>]. *)
Fixpoint days_compare (a b : list PolicyWeekday) : comparison :=
  match a, b with
  | [], [] => Eq
  | [], _ :: _ => Lt
  | _ :: _, [] => Gt
  | x :: a, y :: b => match monday_index x ?= monday_index y with Eq => days_compare a b | c => c end
  end.

(** [days.cmp().then(start.cmp()).then(end.cmp())] is not greater. *)
Definition window_leb (a b : PolicyScheduleWindow) : bool :=
  match days_compare (days a) (days b) with
  | Lt => true
  | Gt => false
  | Eq => if String.eqb (window_start a) (window_start b) then str_leb (window_end a) (window_end b) else str_leb (window_start a) (window_start b)
  end.

Definition day_leb (a b : PolicyWeekday) : bool := monday_index a <=? monday_index b.

Fixpoint duplicate_days (path : string) (seen ds : list PolicyWeekday) : list ValidationIssue :=
  match ds with
  | [] => []
  | d :: ds => issue_if (bool_decide (d ∈ seen)) path "invalid_spec" "duplicate weekdays are not allowed" ++ duplicate_days path (d :: seen) ds
  end.

Section schedule.
Context `{Calendar}.

Definition parse_time (value : string) : option Z :=
  if (negb (str_len value =? 5) || negb (forallb (λ b, b <? 128) (str_bytes value)) || negb (bool_decide (str_bytes value !! 2%nat = Some 58))
      || negb (all_indexed (λ i b, Nat.eqb i 2 || is_ascii_digit b)%bool 0 (str_bytes value)))%bool then None
  else match parse_hour_minute value with Ok t => Some t | Err _ => None end.

(** The body of the loop over windows. *)
Definition validate_window (index : Z) (w : PolicyScheduleWindow) : PolicyScheduleWindow * list ValidationIssue :=
  let path := at_index "schedule.windows" index in
  let days_path := String.append path ".days" in
  (mkWindow (sort_by day_leb (days w)) (window_start w) (window_end w),
   issue_if (no_selector (days w) || (7 <? zlen (days w)))%bool days_path "invalid_spec" "each window must include one or more days"
   ++ duplicate_days days_path [] (days w)
   ++ match parse_time (window_start w), parse_time (window_end w) with
      | Some s, Some e =>
        issue_if (e <=? s) path "invalid_spec" "start must be before end; split cross-midnight windows into two windows"
      | _, _ => [mkIssue path "invalid_spec" "times must use 24-hour HH:mm format"]
      end).

Fixpoint validate_windows (index : Z) (ws : list PolicyScheduleWindow) : list PolicyScheduleWindow * list ValidationIssue :=
  match ws with
  | [] => ([], [])
  | w :: ws =>
    let '(w, issues) := validate_window index w in
    let '(ws, more) := validate_windows (index + 1) ws in (w :: ws, issues ++ more)
  end.

Definition validate_schedule (sch : PolicySchedule) : PolicySchedule * list ValidationIssue :=
  let '(ws, more) := validate_windows 0 (windows sch) in
  (mkSchedule (timezone sch) (sort_by window_leb ws),
   issue_if (match parse_tz (timezone sch) with Some _ => false | None => true end) "schedule.timezone" "invalid_spec" "timezone must be a valid IANA timezone"
   ++ issue_if (no_selector (windows sch) || (32 <? zlen (windows sch)))%bool "schedule.windows" "invalid_spec" "schedule must contain 1–32 windows"
   ++ more).

Definition set_schedule (sch : option PolicySchedule) (s : PolicySpecV1) : PolicySpecV1 :=
  mkSpec (schema_version s) (spec_gateway_id s) (name s) (description s) (enabled s) (priority s) (selectors s) (network s) (action s) sch.

Definition normalize_and_validate (known : option KnownSelectors) (s : PolicySpecV1) : PolicySpecV1 * list ValidationIssue :=
  let '(s, identity_issues) := validate_identity known s in
  let '(s, selector_issues) := validate_selectors known s in
  let rest := validate_network s ++ validate_action s in
  match schedule s with
  | Some sch =>
    let '(sch, more) := validate_schedule sch in (set_schedule (Some sch) s, identity_issues ++ selector_issues ++ rest ++ more)
  | None => (s, identity_issues ++ selector_issues ++ rest)
  end.
End schedule.

(** ** Admission by the HTTP interface *)

(** The specs that [validate_spec] does not look up in the catalog. *)
Definition outside_catalog (s : PolicySpecV1) : bool :=
  let sel := selectors s in
  ((32 <? zlen (clients sel)) || (32 <? zlen (applications sel)) || (16 <? zlen (categories sel))
   || existsb (λ v, 32 <? str_len v) (clients sel) || existsb (λ v, 128 <? str_len v) (applications sel)
   || existsb (λ v, 128 <? str_len v) (categories sel) || str_is_empty (spec_gateway_id s))%bool.

Definition client_only (s : PolicySpecV1) : bool :=
  (negb (no_selector (clients (selectors s))) && no_selector (applications (selectors s)) && no_selector (categories (selectors s)))%bool.

#[export] Instance f64_eq_dec : EqDecision f64.
Proof. solve_decision. Defined.

(** What a gateway's agent has reported: connected, [client_total_limit] and
    [client_limit]. *)
Definition limit_warning (client_total : bool) (caps : bool * string * string) : list string :=
  let '(agent_connected, total, limit) := caps in
  if (client_total && String.eqb total "unsupported")%bool then
    ["This Agent reports that client-total limits are unsupported; an enabled policy cannot currently be applied."]
  else if (client_total && String.eqb total "unknown")%bool then
    ["This Agent has not reported client-total limit support; verify the execution status after applying the policy."]
  else if (negb client_total && String.eqb limit "unsupported" && agent_connected && negb (String.eqb total "unknown"))%bool then
    ["This Agent reports that Internet-scoped client limits are unsupported; an enabled policy cannot currently be applied."]
  else [].

Section admission.
Context `{Calendar}.

Definition validate_spec (catalog : PolicySpecV1 → result string KnownSelectors) (gateway_capabilities : string → result string (bool * string * string))
    (s : PolicySpecV1) : result string (PolicySpecV1 * list ValidationIssue * list string) :=
  let '(s, structural_errors) := normalize_and_validate None s in
  if outside_catalog s then Ok (s, structural_errors, [])
  else
    known ← catalog s;
    let '(s, errors) := normalize_and_validate (Some known) s in
    let allow_warning :=
      if bool_decide (kind (action s) = Allow)
      then ["Allow only skips NetQmon blocks; it does not bypass the upstream firewall or limits."] else [] in
    let client_total := is_client_total_spec s in
    let client_internet_limit := (String.eqb (scope (network s)) "internet" && bool_decide (kind (action s) = Limit) && client_only s)%bool in
    limit_warnings ← (if ((client_total || client_internet_limit) && gateway_exists known)%bool
                      then caps ← gateway_capabilities (spec_gateway_id s); Ok (limit_warning client_total caps) else Ok []);
    let confidence_warning :=
      if (client_only s && negb (bool_decide (min_application_confidence (selectors s) = f64_0_80)))%bool
      then ["min_application_confidence is ignored for client-only selectors."] else [] in
    Ok (s, errors, allow_warning ++ limit_warnings ++ confidence_warning).

(** ** Limits that may not exist together *)

Definition application_limits_overlap (left right : PolicySpecV1) : bool :=
  let l := selectors left in
  let r := selectors right in
  if (negb (String.eqb (spec_gateway_id left) (spec_gateway_id right)) || negb (bool_decide (kind (action left) = Limit))
      || negb (bool_decide (kind (action right) = Limit)) || (no_selector (applications l) && no_selector (categories l))
      || (no_selector (applications r) && no_selector (categories r)))%bool then false
  else if negb (existsb (λ c, bool_decide (c ∈ clients r)) (clients l)) then false
  else
    let applications_overlap := existsb (λ a, bool_decide (a ∈ applications r)) (applications l) in
    let categories_overlap := existsb (λ c, bool_decide (c ∈ categories r)) (categories l) in
    let cross_dimension_overlap_is_unknown :=
      ((negb (no_selector (applications l)) && negb (no_selector (categories r)))
       || (negb (no_selector (categories l)) && negb (no_selector (applications r))))%bool in
    (applications_overlap || categories_overlap || cross_dimension_overlap_is_unknown)%bool.

(** The windows that the next 30 local days have, at the time [now_ms], which has a
    local date. *)
Definition schedule_projection_cost (now_ms : Z) (s : PolicySpecV1) : Z :=
  match schedule s with
  | None => 0
  | Some sch =>
    match parse_tz (timezone sch) with
    | None => u64_max
    | Some tz =>
      match local_date tz now_ms with
      | None => u64_max
      | Some today =>
        foldl Z.add 0 ((λ offset, zlen (List.filter (λ w, existsb (λ d, monday_index d =? monday_index (weekday (today + Z.of_nat offset))) (days w)) (windows sch)))
                         <$> seq 0 30)
      end
    end
  end.
End admission.

(** * Normal forms *)

Lemma issue_if_nil b p c m : issue_if b p c m = [] ↔ b = false.
Proof. by destruct b. Qed.

Lemma existsb_bad_length l n : existsb (λ v, n <? str_len v) l = false ↔ Forall (λ v, str_len v ≤ n) l.
Proof. rewrite existsb_false, !Forall_forall. by setoid_rewrite Z.ltb_ge. Qed.

(** ** MAC addresses *)

Definition upper_octet (p : string) : Prop := str_len p = 2 ∧ Forall (λ b, is_upper_hex b = true) (str_bytes p).

Lemma upper_octet_chars p : upper_octet p → ∃ a b, p = String a (String b "") ∧ is_upper_hex (byte_val a) = true ∧ is_upper_hex (byte_val b) = true.
Proof.
  intros [Hl Hb]. destruct p as [|a [|b [|c p]]]; unfold str_len in Hl; cbn [String.length] in Hl; try lia. exists a, b. cbn in Hb. rewrite !Forall_cons in Hb. tauto.
Qed.

Lemma upper_hex_range b : is_upper_hex b = true → 48 ≤ b ≤ 57 ∨ 65 ≤ b ≤ 70.
Proof. unfold is_upper_hex, is_ascii_digit, in_range. lia. Qed.

Lemma upper_octet_bytes p : upper_octet p → Forall (λ b, 48 ≤ b ≤ 57 ∨ 65 ≤ b ≤ 70) (str_bytes p).
Proof. intros [_ Hb]. eapply Forall_impl; [exact Hb|]. apply upper_hex_range. Qed.

Lemma join_colon_bytes ps : Forall upper_octet ps → Forall (λ b, 32 < b < 127) (str_bytes (join_colon ps)).
Proof.
  induction 1 as [|p ps Hp _ IH]; [constructor|]. apply upper_octet_bytes in Hp.
  assert (Forall (λ b, 32 < b < 127) (str_bytes p)) by (eapply Forall_impl; [exact Hp|]; cbn; lia).
  destruct ps; [done|]. cbn [join_colon]. rewrite str_bytes_app. apply Forall_app. split; [done|]. by constructor.
Qed.

Lemma split_join_colon p ps : Forall upper_octet (p :: ps) → str_split 58 (join_colon (p :: ps)) = p :: ps.
Proof.
  revert p. induction ps as [|q ps IH]; intros p [Hp Hps]%Forall_cons.
  all: assert (Forall (λ b, b ≠ 58) (str_bytes p)) as Hn by (eapply Forall_impl; [by apply upper_octet_bytes|]; cbn; lia).
  - by apply str_split_no_sep.
  - change (join_colon (p :: q :: ps)) with (String.append p (String (ascii_of_N 58) (join_colon (q :: ps)))). rewrite str_split_sep by done. by rewrite IH.
Qed.

Lemma ascii_split bs : Forall (λ b, 32 < b < 127) bs → utf8_split bs = (λ b, (b, [b])) <$> bs.
Proof. induction 1 as [|b bs Hb _ IH]; [done|]. cbn. destruct (Z.ltb_spec b 128); [|lia]. by rewrite IH. Qed.

Lemma str_trim_ascii s : Forall (λ b, 32 < b < 127) (str_bytes s) → str_trim s = s.
Proof.
  intros Hs. apply str_bytes_inj. destruct (str_trim_split s) as [_ ->]. rewrite ascii_split by done.
  assert (∀ l c, Forall (λ b, 32 < b < 127) l → head ((λ b, (b, [b])) <$> l) = Some c → is_space c = false) as Hsp.
  { intros l c Hl. destruct Hl as [|b l Hb _]; [done|]. intros [= <-]. unfold is_space, is_whitespace. cbn [fst]. lia. }
  rewrite trim_chars_id.
  - rewrite <- list_fmap_compose. clear. induction (str_bytes s) as [|b bs IH]; [done|]. cbn. by f_equal.
  - intros c. by apply Hsp.
  - intros c. rewrite <- fmap_reverse. apply Hsp. by apply Forall_reverse.
Qed.

Lemma upper_app a b : to_ascii_uppercase (String.append a b) = String.append (to_ascii_uppercase a) (to_ascii_uppercase b).
Proof. induction a as [|c a IH]; [done|]. change (String (ascii_upper c) (to_ascii_uppercase (String.append a b)) = String (ascii_upper c) (String.append (to_ascii_uppercase a) (to_ascii_uppercase b))). by rewrite IH. Qed.

Lemma upper_join ps : to_ascii_uppercase (join_colon ps) = join_colon (to_ascii_uppercase <$> ps).
Proof.
  induction ps as [|p ps IH]; [done|]. destruct ps as [|q ps]; [done|]. cbn [join_colon fmap list_fmap] in *. rewrite upper_app. cbn [to_ascii_uppercase].
  by rewrite IH.
Qed.

Lemma ascii_upper_id c : is_upper_hex (byte_val c) = true → ascii_upper c = c.
Proof. intros Hc%upper_hex_range. unfold ascii_upper, is_ascii_lower. destruct (_ && _)%bool eqn:E; [|done]. apply andb_true_iff in E. lia. Qed.

Lemma upper_octet_id p : upper_octet p → to_ascii_uppercase p = p.
Proof. intros (a & b & -> & Ha & Hb)%upper_octet_chars. cbn [to_ascii_uppercase]. by rewrite !ascii_upper_id. Qed.

Lemma upper_hexdigit c : is_ascii_hexdigit (byte_val c) = true → is_upper_hex (byte_val (ascii_upper c)) = true.
Proof.
  unfold ascii_upper, is_ascii_hexdigit, is_ascii_lower, is_upper_hex, is_ascii_digit, in_range. intros Hc. pose proof (byte_val_bound c) as Hb.
  destruct ((97 <=? byte_val c) && (byte_val c <=? 122))%bool eqn:E; [|lia]. rewrite byte_val_of_Z by lia. lia.
Qed.

Lemma good_octet p : bad_octet p = false → upper_octet (to_ascii_uppercase p).
Proof.
  unfold bad_octet. intros [Hl Hb]%orb_false_iff. apply negb_false_iff in Hl, Hb. apply Z.eqb_eq in Hl.
  destruct p as [|a [|b [|c p]]]; unfold str_len in Hl; cbn [String.length] in Hl; try lia. cbn in Hb. apply andb_true_iff in Hb as [Ha [Hb _]%andb_true_iff].
  split; [done|]. cbn. repeat constructor; by apply upper_hexdigit.
Qed.

Lemma append_octet a b r : String.append (String a (String b "")) r = String a (String b r).
Proof. done. Qed.

(** A canonical MAC address is six upper case octets. *)
Lemma valid_mac_octets m : valid_mac m = true ↔ ∃ ps, length ps = 6%nat ∧ Forall upper_octet ps ∧ m = join_colon ps.
Proof.
  split.
  - unfold valid_mac. intros [Hl Hb]%andb_true_iff. apply Z.eqb_eq in Hl.
    do 17 (destruct m as [|? m]; [unfold str_len in Hl; cbn [String.length] in Hl; lia|]). destruct m; [|unfold str_len in Hl; cbn [String.length] in Hl; lia]. cbn in Hb. unfold mac_byte_ok in Hb. cbn in Hb.
    rewrite !andb_true_iff, !Z.eqb_eq in Hb. destruct_and?.
    repeat match goal with Hc : byte_val ?c = 58 |- _ => apply (byte_val_inj c (ascii_of_N 58)) in Hc; subst c end.
    eexists [String _ (String _ ""); String _ (String _ ""); String _ (String _ ""); String _ (String _ ""); String _ (String _ ""); String _ (String _ "")].
    split; [done|]. split; [|reflexivity]. repeat constructor; assumption.
  - intros (ps & Hl & Hps & ->). do 6 (destruct ps as [|? ps]; [done|]). destruct ps; [|done]. rewrite !Forall_cons in Hps. destruct_and?.
    repeat match goal with Hc : upper_octet _ |- _ => apply upper_octet_chars in Hc as (? & ? & -> & ? & ?) end.
    cbn [join_colon]. rewrite !append_octet. unfold valid_mac, mac_byte_ok. cbn.
    repeat match goal with Hc : is_upper_hex _ = true |- _ => rewrite Hc; clear Hc end. done.
Qed.

Lemma normalize_mac_valid v m : normalize_mac v = Some m → valid_mac m = true.
Proof.
  unfold normalize_mac. set (ps := str_split _ _). destruct (_ || _)%bool eqn:E; [done|]. intros [= <-].
  apply orb_false_iff in E as [Hl Hb]. apply negb_false_iff, Z.eqb_eq in Hl. apply existsb_false in Hb. apply valid_mac_octets.
  exists (to_ascii_uppercase <$> ps). rewrite length_fmap. split_and!; [unfold zlen in Hl; lia| |apply upper_join].
  apply Forall_fmap. eapply Forall_impl; [exact Hb|]. apply good_octet.
Qed.

Lemma upper_octet_good p : upper_octet p → bad_octet p = false.
Proof.
  intros (a & b & -> & Ha & Hb)%upper_octet_chars. unfold bad_octet. cbn. unfold is_ascii_hexdigit. unfold is_upper_hex in Ha, Hb.
  rewrite Ha, Hb. done.
Qed.

Lemma valid_mac_normal m : valid_mac m = true → normalize_mac m = Some m.
Proof.
  intros (ps & Hl & Hps & ->)%valid_mac_octets. unfold normalize_mac. rewrite str_trim_ascii by by apply join_colon_bytes.
  destruct ps as [|p ps]; [done|]. rewrite split_join_colon by done. unfold zlen. rewrite Hl. cbn [negb orb Z.of_nat Pos.of_succ_nat Z.eqb Pos.eqb Pos.succ].
  assert (existsb bad_octet (p :: ps) = false) as -> by (apply existsb_false; eapply Forall_impl; [exact Hps|]; apply upper_octet_good).
  f_equal. rewrite upper_join. f_equal. clear Hl. induction Hps as [|q l Hq _ IH]; [done|]. cbn. by rewrite upper_octet_id, IH.
Qed.

(** ** What normalization computes *)

(** The first occurrence of each. *)
Fixpoint first_occurrences (seen : gset string) (l : list string) : list string :=
  match l with [] => [] | x :: l => if bool_decide (x ∈ seen) then first_occurrences seen l else x :: first_occurrences ({[x]} ∪ seen) l end.

Definition normal_clients (cs : list string) : list string := sort_by str_leb (first_occurrences ∅ (omap normalize_mac cs)).
Definition normal_ids (ids : list string) : list string := sort_by str_leb (str_trim <$> ids).
Definition normal_window (w : PolicyScheduleWindow) : PolicyScheduleWindow := mkWindow (sort_by day_leb (days w)) (window_start w) (window_end w).
Definition normal_schedule (sch : PolicySchedule) : PolicySchedule := mkSchedule (timezone sch) (sort_by window_leb (normal_window <$> windows sch)).
Definition normal_spec (s : PolicySpecV1) : PolicySpecV1 :=
  mkSpec (schema_version s) (str_trim (spec_gateway_id s)) (str_trim (name s)) (str_trim (description s)) (enabled s) (priority s)
    (mkSelectors (normal_clients (clients (selectors s))) (normal_ids (applications (selectors s))) (normal_ids (categories (selectors s)))
       (min_application_confidence (selectors s)))
    (network s) (action s) (normal_schedule <$> schedule s).

Lemma canonical_clients_fst index unique cs : fst (canonical_clients index unique cs) = first_occurrences unique (omap normalize_mac cs).
Proof.
  revert index unique. induction cs as [|c cs IH]; intros index unique; [done|]. cbn. destruct (normalize_mac c) as [m|] eqn:E; cbn.
  - case_bool_decide; [apply IH|]. specialize (IH (index + 1) ({[m]} ∪ unique)). destruct (canonical_clients _ _ _). cbn in *. by rewrite IH.
  - specialize (IH (index + 1) unique). by destruct (canonical_clients _ _ _).
Qed.

Lemma trim_ids_fst path known index seen values : fst (trim_ids path known index seen values) = str_trim <$> values.
Proof.
  revert index seen. induction values as [|v values IH]; intros index seen; [done|]. cbn.
  specialize (IH (index + 1) (if (str_is_empty (str_trim v) || (128 <? zlen (str_chars (str_trim v))) || has_control (str_trim v))%bool then seen else {[str_trim v]} ∪ seen)).
  destruct (trim_ids _ _ _ _ _). cbn in *. by rewrite IH.
Qed.

Lemma validate_ids_fst values max path known : fst (validate_ids values max path known) = normal_ids values.
Proof. unfold validate_ids. pose proof (trim_ids_fst path known 0 ∅ values) as Hf. destruct (trim_ids _ _ _ _ _). cbn in *. by rewrite Hf. Qed.

Section normal.
Context `{Calendar}.

Lemma validate_windows_fst index ws : fst (validate_windows index ws) = normal_window <$> ws.
Proof.
  revert index. induction ws as [|w ws IH]; intros index; [done|]. cbn [validate_windows]. unfold validate_window. specialize (IH (index + 1)).
  destruct (validate_windows _ _). cbn in *. by rewrite IH.
Qed.

Lemma normalize_fst known s : fst (normalize_and_validate known s) = normal_spec s.
Proof.
  unfold normalize_and_validate, validate_identity, validate_selectors. cbn [selectors].
  pose proof (canonical_clients_fst 0 ∅ (clients (selectors s))) as Hc. destruct (canonical_clients _ _ _) as [cs ci]. cbn [fst] in Hc.
  pose proof (validate_ids_fst (applications (selectors s)) 32 "selectors.applications" (known_applications <$> known)) as Ha. destruct (validate_ids _ _ _ _) as [al ai] eqn:Ea. cbn [fst] in Ha.
  pose proof (validate_ids_fst (categories (selectors s)) 16 "selectors.categories" (known_categories <$> known)) as Hg. destruct (validate_ids (categories _) _ _ _) as [gl gi] eqn:Eg. cbn [fst] in Hg.
  unfold set_selectors. cbn [schedule]. unfold normal_spec, normal_clients. destruct (schedule s) as [sch|]; subst; [|done]. unfold validate_schedule.
  pose proof (validate_windows_fst 0 (windows sch)) as Hw. destruct (validate_windows _ _) as [ws wi]. cbn [fst] in Hw. subst. done.
Qed.
End normal.

(** ** Idempotence *)

Lemma fmap_fixed {A} (f : A → A) l : Forall (λ x, f x = x) l → f <$> l = l.
Proof. induction 1 as [|x l Hx _ IH]; [done|]. cbn. by rewrite Hx, IH. Qed.

Lemma sort_fixed {A} (leb : A → A → bool) (f : A → A) l : (∀ x y, leb x y = false → leb y x = true) →
  (∀ x y z, leb x y = true → leb y z = true → leb x z = true) → Forall (λ x, f x = x) l →
  sort_by leb (f <$> sort_by leb l) = sort_by leb l.
Proof. intros Htot Htr Hf. rewrite fmap_fixed; [|by rewrite sort_by_perm]. apply sort_by_id. by apply sort_by_sorted. Qed.

Lemma normal_ids_idemp ids : normal_ids (normal_ids ids) = normal_ids ids.
Proof. unfold normal_ids. apply sort_fixed; [eauto with netq..|]. apply Forall_fmap, Forall_forall. intros v _. cbn. apply str_trim_idemp. Qed.

Lemma elem_of_first_occurrences seen l x : x ∈ first_occurrences seen l ↔ x ∈ l ∧ x ∉ seen.
Proof.
  revert seen. induction l as [|y l IH]; intros seen; [set_solver|]. cbn. case_bool_decide; [rewrite IH; set_solver|].
  rewrite !elem_of_cons, IH. destruct (decide (x = y)); set_solver.
Qed.

Lemma NoDup_first_occurrences seen l : NoDup (first_occurrences seen l).
Proof. revert seen. induction l as [|y l IH]; intros seen; [constructor|]. cbn. case_bool_decide; [done|]. constructor; [|done]. rewrite elem_of_first_occurrences. set_solver. Qed.

Lemma first_occurrences_id seen l : NoDup l → (∀ x, x ∈ l → x ∉ seen) → first_occurrences seen l = l.
Proof.
  intros Hnd. revert seen. induction Hnd as [|y l Hy _ IH]; intros seen Hs; [done|]. cbn. rewrite bool_decide_eq_false_2 by set_solver.
  f_equal. apply IH. set_solver.
Qed.

Lemma normal_clients_elem cs m : m ∈ normal_clients cs ↔ ∃ c, c ∈ cs ∧ normalize_mac c = Some m.
Proof. unfold normal_clients. rewrite elem_of_sort_by, elem_of_first_occurrences, list_elem_of_omap. set_solver. Qed.

Lemma normal_clients_valid cs : Forall (λ c, valid_mac c = true) (normal_clients cs).
Proof. apply Forall_forall. intros m (c & _ & Hc)%normal_clients_elem. by eapply normalize_mac_valid. Qed.

Lemma NoDup_normal_clients cs : NoDup (normal_clients cs).
Proof. unfold normal_clients. rewrite sort_by_perm. apply NoDup_first_occurrences. Qed.

Lemma omap_fixed (f : string → option string) l : Forall (λ x, f x = Some x) l → omap f l = l.
Proof. induction 1 as [|x l Hx _ IH]; [done|]. cbn. by rewrite Hx, IH. Qed.

Lemma normal_clients_idemp cs : normal_clients (normal_clients cs) = normal_clients cs.
Proof.
  unfold normal_clients at 1. rewrite omap_fixed, first_occurrences_id; [| apply NoDup_normal_clients|set_solver|].
  - apply sort_by_id, sort_by_sorted; eauto with netq.
  - eapply Forall_impl; [apply normal_clients_valid|]. apply valid_mac_normal.
Qed.

Lemma days_compare_eq a b : days_compare a b = Eq ↔ a = b.
Proof.
  revert b. induction a as [|x a IH]; intros [|y b]; cbn; try done. destruct (monday_index x ?= monday_index y) eqn:E.
  - apply Z.compare_eq in E. rewrite IH. assert (x = y) as -> by (by destruct x, y). naive_solver.
  - split; [done|]. intros [= -> ->]. by rewrite Z.compare_refl in E.
  - split; [done|]. intros [= -> ->]. by rewrite Z.compare_refl in E.
Qed.

Lemma days_compare_opp a b : days_compare b a = CompOpp (days_compare a b).
Proof.
  revert b. induction a as [|x a IH]; intros [|y b]; cbn; try done. rewrite (Z.compare_antisym (monday_index x) (monday_index y)).
  destruct (_ ?= _); cbn; auto.
Qed.

Lemma days_compare_trans a b c : days_compare a b = Lt → days_compare b c = Lt → days_compare a c = Lt.
Proof.
  revert b c. induction a as [|x a IH]; intros [|y b] [|z c]; cbn; try done.
  destruct (Z.compare_spec (monday_index x) (monday_index y)), (Z.compare_spec (monday_index y) (monday_index z)); try done;
    destruct (Z.compare_spec (monday_index x) (monday_index z)); try lia; try done. apply IH.
Qed.

Lemma window_leb_total a b : window_leb a b = false → window_leb b a = true.
Proof.
  unfold window_leb. rewrite (days_compare_opp (days a) (days b)). destruct (days_compare _ _); cbn; try done. rewrite (String.eqb_sym (window_start b)).
  destruct (String.eqb _ _); apply str_leb_total.
Qed.

Lemma window_leb_trans a b c : window_leb a b = true → window_leb b c = true → window_leb a c = true.
Proof.
  unfold window_leb. destruct (days_compare (days a) (days b)) eqn:E1, (days_compare (days b) (days c)) eqn:E2; try done; intros H1 H2.
  - apply days_compare_eq in E1, E2. rewrite E1, E2, (proj2 (days_compare_eq _ _) eq_refl).
    destruct (String.eqb_spec (window_start a) (window_start b)) as [Ha|Ha], (String.eqb_spec (window_start b) (window_start c)) as [Hb|Hb],
      (String.eqb_spec (window_start a) (window_start c)) as [Hc|Hc]; try congruence; eauto using str_leb_trans.
    exfalso. apply Ha. apply str_leb_antisym; [done|]. congruence.
  - apply days_compare_eq in E1. by rewrite E1, E2.
  - apply days_compare_eq in E2. by rewrite <- E2, E1.
  - by rewrite (days_compare_trans _ _ _ E1 E2).
Qed.

Lemma normal_window_idemp w : normal_window (normal_window w) = normal_window w.
Proof.
  unfold normal_window. cbn [days window_start window_end]. f_equal. apply sort_by_id, sort_by_sorted; unfold day_leb; intros; rewrite ?Z.leb_le, ?Z.leb_gt in *; lia.
Qed.

Lemma normal_schedule_idemp sch : normal_schedule (normal_schedule sch) = normal_schedule sch.
Proof.
  unfold normal_schedule. cbn [timezone windows]. f_equal. apply sort_fixed; eauto using window_leb_total, window_leb_trans.
  apply Forall_fmap, Forall_forall. intros w _. apply normal_window_idemp.
Qed.

(** Normalizing twice is normalizing once. *)
Lemma normal_spec_idemp s : normal_spec (normal_spec s) = normal_spec s.
Proof.
  unfold normal_spec. cbn [schema_version spec_gateway_id name description enabled priority selectors network action schedule clients applications categories min_application_confidence].
  rewrite !str_trim_idemp, normal_clients_idemp, !normal_ids_idemp. f_equal. destruct (schedule s); [|done]. cbn. f_equal. apply normal_schedule_idemp.
Qed.

(** ** What it means that nothing is wrong *)

Definition good_id (v : string) : Prop := v ≠ EmptyString ∧ zlen (str_chars v) ≤ 128 ∧ has_control v = false.

Lemma canonical_clients_clean index unique cs : snd (canonical_clients index unique cs) = [] ↔ Forall (λ c, is_Some (normalize_mac c)) cs.
Proof.
  revert index unique. induction cs as [|c cs IH]; intros index unique; [done|]. cbn. rewrite Forall_cons. destruct (normalize_mac c) as [m|] eqn:E; cbn.
  - case_bool_decide; [rewrite IH|specialize (IH (index + 1) ({[m]} ∪ unique)); destruct (canonical_clients _ _ _); cbn in *; rewrite IH]; naive_solver.
  - destruct (canonical_clients _ _ _). cbn. split; [done|]. intros [[] _]; done.
Qed.

Lemma trim_ids_clean path known index seen values : snd (trim_ids path known index seen values) = [] →
  Forall good_id (str_trim <$> values) ∧ NoDup (str_trim <$> values) ∧ (∀ v, v ∈ str_trim <$> values → v ∉ seen) ∧
  (∀ k, known = Some k → Forall (λ v, v ∈ k) (str_trim <$> values)).
Proof.
  revert index seen. induction values as [|v values IH]; intros index seen; [cbn; intros _; split_and!; [constructor|constructor|set_solver|intros; constructor]|].
  cbn. set (t := str_trim v). destruct (_ || _)%bool eqn:Hb; [by destruct (trim_ids _ _ _ _ _)|]. specialize (IH (index + 1) ({[t]} ∪ seen)).
  destruct (trim_ids _ _ _ _ _) as [l more]. cbn [snd] in *. rewrite !app_nil, !issue_if_nil, bool_decide_eq_false. intros (Hs & Hk & Hm).
  destruct (IH Hm) as (Hg & Hnd & Hns & Hkn). apply orb_false_iff in Hb as [[He Hl%Z.ltb_ge]%orb_false_iff Hc].
  split_and!; [|constructor; [|done]| |].
  - constructor; [|done]. split_and!; [|done|done]. intros Ht. by rewrite Ht in He.
  - intros Ht. by destruct (Hns _ Ht); set_solver.
  - set_solver.
  - intros k ->. constructor; [|by apply Hkn]. by apply negb_false_iff, bool_decide_eq_true in Hk.
Qed.

Lemma normal_ids_perm ids : normal_ids ids ≡ₚ (str_trim <$> ids).
Proof. apply sort_by_perm. Qed.

Lemma validate_ids_clean values max path known : snd (validate_ids values max path known) = [] →
  zlen (normal_ids values) ≤ max ∧ Forall good_id (normal_ids values) ∧ NoDup (normal_ids values) ∧
  (∀ k, known = Some k → Forall (λ v, v ∈ k) (normal_ids values)).
Proof.
  unfold validate_ids. pose proof (trim_ids_clean path known 0 ∅ values) as Hc. destruct (trim_ids _ _ _ _ _) as [l more]. cbn [snd] in *.
  rewrite app_nil, issue_if_nil, Z.ltb_ge. intros [Hl Hm]. destruct (Hc Hm) as (Hg & Hnd & _ & Hk). unfold zlen. rewrite normal_ids_perm, length_fmap.
  split_and!; try done. intros k Hk'. rewrite normal_ids_perm. by apply Hk.
Qed.

Lemma unknown_clients_nil gateway known cs : unknown_clients gateway known cs = [] ↔ ∀ k, known = Some k → Forall (λ c, c ∈ known_clients k) cs.
Proof.
  unfold unknown_clients. destruct known as [k|]; [|naive_solver]. transitivity (Forall (λ c, c ∈ known_clients k) cs); [|naive_solver].
  induction cs as [|c cs IH]; [done|]. cbn. rewrite app_nil, issue_if_nil, Forall_cons, negb_false_iff, bool_decide_eq_true. by rewrite <- IH.
Qed.

Section clean.
Context `{Calendar}.

(** A window that the compiler can resolve. *)
Definition good_window (w : PolicyScheduleWindow) : Prop :=
  ∃ s e, parse_hour_minute (window_start w) = Ok s ∧ parse_hour_minute (window_end w) = Ok e ∧ s < e.

Lemma parse_time_Some v t : parse_time v = Some t → parse_hour_minute v = Ok t.
Proof. unfold parse_time. destruct (_ || _)%bool; [done|]. destruct (parse_hour_minute v); [by intros [= ->]|done]. Qed.

Lemma validate_windows_clean index ws : snd (validate_windows index ws) = [] → Forall good_window (normal_window <$> ws).
Proof.
  revert index. induction ws as [|w ws IH]; intros index; [constructor|]. cbn [validate_windows]. unfold validate_window. specialize (IH (index + 1)).
  destruct (validate_windows _ _) as [l more]. cbn [snd] in *. rewrite !app_nil. intros [(_ & _ & Ht) Hm]. constructor; [|by apply IH].
  destruct (parse_time (window_start w)) as [s|] eqn:Es; [|done]. destruct (parse_time (window_end w)) as [e|] eqn:Ee; [|done].
  apply issue_if_nil, Z.leb_gt in Ht. exists s, e. cbn. eauto using parse_time_Some.
Qed.

(** The checks of the identity and of the selectors, as facts of the result. *)
Record checked (known : option KnownSelectors) (s : PolicySpecV1) : Prop := {
  ck_schema : schema_version s = 1;
  ck_gateway : spec_gateway_id s ≠ EmptyString;
  ck_known : ∀ k, known = Some k → gateway_exists k = true;
  ck_name : 1 ≤ zlen (str_chars (name s)) ≤ 100;
  ck_description : zlen (str_chars (description s)) ≤ 500;
  ck_priority : priority s ≤ 1000;
  ck_clients : zlen (clients (selectors s)) ≤ 32 ∧ ∀ k, known = Some k → Forall (λ c, c ∈ known_clients k) (clients (selectors s));
  ck_applications : zlen (applications (selectors s)) ≤ 32 ∧ Forall good_id (applications (selectors s)) ∧ NoDup (applications (selectors s)) ∧
    ∀ k, known = Some k → Forall (λ v, v ∈ known_applications k) (applications (selectors s));
  ck_categories : zlen (categories (selectors s)) ≤ 16 ∧ Forall good_id (categories (selectors s)) ∧ NoDup (categories (selectors s)) ∧
    ∀ k, known = Some k → Forall (λ v, v ∈ known_categories k) (categories (selectors s));
  ck_confidence : f64_is_finite (min_application_confidence (selectors s)) = true ∧ SFleb f64_0_80 (min_application_confidence (selectors s)) = true ∧
    SFleb (min_application_confidence (selectors s)) f64_1_0 = true;
  ck_selects : clients (selectors s) ≠ [] ∨ applications (selectors s) ≠ [] ∨ categories (selectors s) ≠ [];
  ck_scope : scope (network s) = "internet" ∨ is_client_total_spec s = true;
  ck_direction : direction (network s) = "both";
  ck_action : validate_action s = [];
  ck_schedule : ∀ sch, schedule s = Some sch → is_Some (parse_tz (timezone sch)) ∧ Forall good_window (windows sch);
}.

Lemma normalize_snd known s : let s1 := fst (validate_identity known s) in let s2 := fst (validate_selectors known s1) in
  snd (normalize_and_validate known s) = snd (validate_identity known s) ++ snd (validate_selectors known s1)
    ++ (validate_network s2 ++ validate_action s2) ++ match schedule s2 with Some sch => snd (validate_schedule sch) | None => [] end.
Proof.
  cbn zeta. unfold normalize_and_validate. destruct (validate_identity known s) as [s1 i1]. cbn [fst snd]. destruct (validate_selectors known s1) as [s2 i2]. cbn [fst snd].
  destruct (schedule s2) as [sch|]; [by destruct (validate_schedule sch)|]. cbn [snd]. by rewrite app_nil_r.
Qed.

Lemma validate_selectors_fst known s : fst (validate_selectors known s) =
  set_selectors (mkSelectors (normal_clients (clients (selectors s))) (normal_ids (applications (selectors s))) (normal_ids (categories (selectors s)))
    (min_application_confidence (selectors s))) s.
Proof.
  unfold validate_selectors. pose proof (canonical_clients_fst 0 ∅ (clients (selectors s))) as Hc. destruct (canonical_clients _ _ _) as [cs ci].
  pose proof (validate_ids_fst (applications (selectors s)) 32 "selectors.applications" (known_applications <$> known)) as Ha. destruct (validate_ids _ _ _ _) as [al ai].
  pose proof (validate_ids_fst (categories (selectors s)) 16 "selectors.categories" (known_categories <$> known)) as Hg. destruct (validate_ids (categories _) _ _ _) as [gl gi].
  cbn [fst] in *. by subst.
Qed.

Lemma validate_selectors_clean known s : snd (validate_selectors known s) = [] → let sel := selectors (fst (validate_selectors known s)) in
  (zlen (clients sel) ≤ 32 ∧ ∀ k, known = Some k → Forall (λ c, c ∈ known_clients k) (clients sel)) ∧
  (zlen (applications sel) ≤ 32 ∧ Forall good_id (applications sel) ∧ NoDup (applications sel) ∧
    ∀ k, known = Some k → Forall (λ v, v ∈ known_applications k) (applications sel)) ∧
  (zlen (categories sel) ≤ 16 ∧ Forall good_id (categories sel) ∧ NoDup (categories sel) ∧
    ∀ k, known = Some k → Forall (λ v, v ∈ known_categories k) (categories sel)) ∧
  (f64_is_finite (min_application_confidence sel) = true ∧ SFleb f64_0_80 (min_application_confidence sel) = true ∧
    SFleb (min_application_confidence sel) f64_1_0 = true) ∧
  (clients sel ≠ [] ∨ applications sel ≠ [] ∨ categories sel ≠ []).
Proof.
  rewrite validate_selectors_fst. unfold validate_selectors. pose proof (canonical_clients_fst 0 ∅ (clients (selectors s))) as Hc.
  destruct (canonical_clients _ _ _) as [cs ci]. cbn [fst] in Hc. subst cs.
  pose proof (validate_ids_fst (applications (selectors s)) 32 "selectors.applications" (known_applications <$> known)) as Ha.
  pose proof (validate_ids_clean (applications (selectors s)) 32 "selectors.applications" (known_applications <$> known)) as Ca.
  destruct (validate_ids _ _ _ _) as [al ai]. cbn [fst snd] in Ha, Ca. subst al.
  pose proof (validate_ids_fst (categories (selectors s)) 16 "selectors.categories" (known_categories <$> known)) as Hg.
  pose proof (validate_ids_clean (categories (selectors s)) 16 "selectors.categories" (known_categories <$> known)) as Cg.
  destruct (validate_ids (categories _) _ _ _) as [gl gi]. cbn [fst snd] in Hg, Cg. subst gl. cbn zeta.
  unfold set_selectors. cbn [snd selectors clients applications categories min_application_confidence].
  change (sort_by str_leb (first_occurrences ∅ (omap normalize_mac (clients (selectors s))))) with (normal_clients (clients (selectors s))).
  rewrite !app_nil, !issue_if_nil, unknown_clients_nil, Z.ltb_ge, orb_false_iff, !negb_false_iff, andb_true_iff.
  intros (_ & Hl & Hk & Hai & Hgi & (Hf & Hlo & Hhi) & Hsel). destruct (Ca Hai) as (Ca1 & Ca2 & Ca3 & Ca4), (Cg Hgi) as (Cg1 & Cg2 & Cg3 & Cg4).
  split_and!; try done.
  - intros k ->. by apply Ca4.
  - intros k ->. by apply Cg4.
  - apply andb_false_iff in Hsel as [[Hs|Hs]%andb_false_iff|Hs]; apply no_selector_false in Hs; tauto.
Qed.

Lemma no_issues_checked known s : snd (normalize_and_validate known s) = [] → checked known (normal_spec s).
Proof.
  rewrite normalize_snd. pose proof (validate_selectors_clean known (fst (validate_identity known s))) as Hsel. rewrite validate_selectors_fst in Hsel |- *.
  set (s1 := fst (validate_identity known s)) in *.
  rewrite !app_nil. intros (Hid & Hse & [Hnet Hact] & Hsch). specialize (Hsel Hse). clear Hse. cbn zeta in Hsel.
  unfold validate_identity in Hid. cbn [snd] in Hid. rewrite !app_nil, !issue_if_nil in Hid. destruct Hid as (H1 & H2 & H3 & H4 & H5 & H6).
  unfold validate_network in Hnet. rewrite app_nil, !issue_if_nil in Hnet. destruct Hnet as [Hn1 Hn2].
  apply negb_false_iff, Z.eqb_eq in H1. apply orb_false_iff in H2 as [H2 _]. apply negb_false_iff in H4. apply Z.ltb_ge in H5, H6.
  apply negb_false_iff, String.eqb_eq in Hn2. destruct Hsel as (Hc & Ha & Hg & Hf & Hs).
  split; try done; try exact Hact.
  - cbn. intros E. by rewrite E in H2.
  - intros k ->. by apply negb_false_iff in H3.
  - unfold in_range in H4. apply andb_true_iff in H4 as [Hn3%Z.leb_le Hn4%Z.leb_le]. exact (conj Hn3 Hn4).
  - apply andb_false_iff in Hn1 as [Hn1|Hn1]; apply negb_false_iff in Hn1; [left; by apply String.eqb_eq|by right].
  - change (match schedule s with Some sch => snd (validate_schedule sch) | None => [] end = []) in Hsch. cbn [normal_spec schedule].
    destruct (schedule s) as [sch|]; [|done]. intros sch' [= <-]. cbn [normal_schedule timezone windows]. unfold validate_schedule in Hsch.
    pose proof (validate_windows_clean 0 (windows sch)) as Hw. pose proof (validate_windows_fst 0 (windows sch)) as Hwf. destruct (validate_windows _ _) as [ws more].
    cbn [fst snd] in *. subst ws. rewrite !app_nil, !issue_if_nil in Hsch. destruct Hsch as (Htz & _ & Hm). split; [by destruct (parse_tz _)|].
    rewrite sort_by_perm. by apply Hw.
Qed.

Lemma trimmed_visible v : 1 ≤ zlen (str_chars (str_trim v)) → ∃ c, c ∈ str_chars (str_trim v) ∧ is_whitespace c = false.
Proof.
  unfold str_chars. destruct (str_trim_split v) as [-> _]. set (cs := utf8_split (str_bytes v)). pose proof (trim_chars_head cs) as Hh.
  destruct (trim_chars cs) as [|c l]; [intros Hz; change (1 ≤ 0) in Hz; lia|]. intros _. exists (fst c). split; [left|]. by apply Hh.
Qed.

Lemma good_id_text v : good_id v → str_len v ≤ 128 → text_ok 128 v.
Proof. intros (Hn & _ & Hc) Hl. split; [done..|]. by apply existsb_false in Hc. Qed.

Lemma clean_action_wf s : validate_action s = [] → action_wf s.
Proof.
  unfold validate_action, validate_rate, action_wf. rewrite app_nil, issue_if_nil. destruct (kind (action s)).
  1,2: rewrite issue_if_nil, orb_false_iff, !bool_decide_eq_false, <- !eq_None_not_Some; tauto.
  rewrite !app_nil, !issue_if_nil, !bad_rate_false. intros (Ha & Hc & Hd & Hu & Hn). split_and!; [| |done..].
  2: { apply andb_false_iff in Hn. rewrite !bool_decide_eq_false in Hn. by rewrite <- !not_eq_None_Some. }
  rewrite <- no_selector_false. destruct (no_selector (clients _)); [|done].
  by destruct (_ || _)%bool.
Qed.

Lemma checked_wf known s : checked known (normal_spec s) →
  Forall (λ v, str_len v ≤ 128) (normal_ids (applications (selectors s))) → Forall (λ v, str_len v ≤ 128) (normal_ids (categories (selectors s))) →
  spec_wf (spec_gateway_id (normal_spec s)) (normal_spec s).
Proof.
  intros [] Ha Hg. destruct ck_name0 as [Hn1 Hn2], ck_clients0 as [Hc _], ck_applications0 as (Ha1 & Ha2 & _), ck_categories0 as (Hg1 & Hg2 & _), ck_confidence0 as (Hf & Hlo & Hhi).
  split; try done.
  - by apply trimmed_visible.
  - apply normal_clients_valid.
  - rewrite Forall_forall in *. intros v Hv. apply good_id_text; auto.
  - rewrite Forall_forall in *. intros v Hv. apply good_id_text; auto.
  - by apply clean_action_wf.
Qed.

(** What is admitted without a look at the catalog has an id that is too long in bytes. *)
Lemma short_ids_inside s : checked None (normal_spec s) → Forall (λ v, str_len v ≤ 128) (normal_ids (applications (selectors s))) →
  Forall (λ v, str_len v ≤ 128) (normal_ids (categories (selectors s))) → outside_catalog (normal_spec s) = false.
Proof.
  intros [] Ha Hg. unfold outside_catalog. cbn zeta. rewrite !orb_false_iff, !existsb_bad_length. destruct ck_clients0 as [Hc _], ck_applications0 as [Hal _], ck_categories0 as [Hcl _].
  split_and!; try (apply Z.ltb_ge); try done.
  - eapply Forall_impl; [apply normal_clients_valid|]. intros m Hm. unfold valid_mac in Hm. apply andb_true_iff in Hm as [Hm _]. lia.
  - destruct (str_is_empty _) eqn:E; [by apply str_is_empty_spec in E|done].
Qed.

(** C20: What the HTTP interface admits without errors as a policy, none of its
    application and category ids longer than 128 bytes, is the normal form of what
    was submitted, and its selectors were looked up in the catalog; normalizing and
    checking it again changes nothing and finds nothing. The agent's validation of a
    snapshot accepts it, its gateway and selectors are registered, no selector
    is there twice, its time zone is known and each of its windows has times
    that the compiler can read and ends after it starts. (The limit on ids is in
    characters; [wide_selector_admitted] shows what happens beyond 128 bytes.) *)
Theorem admitted_policy_accepted catalog capabilities s s' warnings :
  validate_spec catalog capabilities s = Ok (s', [], warnings) →
  Forall (λ v, str_len v ≤ 128) (applications (selectors s')) → Forall (λ v, str_len v ≤ 128) (categories (selectors s')) →
  s' = normal_spec s ∧ validate_policy_spec (spec_gateway_id s') s' = Ok tt ∧
  (∃ k, catalog s' = Ok k ∧ normalize_and_validate (Some k) s' = (s', []) ∧ gateway_exists k = true ∧
     Forall (λ c, c ∈ known_clients k) (clients (selectors s')) ∧ Forall (λ v, v ∈ known_applications k) (applications (selectors s')) ∧
     Forall (λ v, v ∈ known_categories k) (categories (selectors s'))) ∧
  NoDup (clients (selectors s')) ∧ NoDup (applications (selectors s')) ∧ NoDup (categories (selectors s')) ∧
  ∀ sch, schedule s' = Some sch → is_Some (parse_tz (timezone sch)) ∧ Forall good_window (windows sch).
Proof.
  unfold validate_spec. pose proof (normalize_fst None s) as Hf. pose proof (no_issues_checked None s) as Hstr.
  destruct (normalize_and_validate None s) as [s1 structural]. cbn [fst snd] in Hf, Hstr. subst s1.
  destruct (outside_catalog (normal_spec s)) eqn:Ho; [intros [= <- -> _] Ha Hg; by rewrite (short_ids_inside s (Hstr eq_refl) Ha Hg) in Ho|]. destruct (catalog (normal_spec s)) as [k|e] eqn:Ek; [|done].
  cbn [mbind result_bind]. pose proof (normalize_fst (Some k) (normal_spec s)) as Hf. rewrite normal_spec_idemp in Hf.
  pose proof (no_issues_checked (Some k) (normal_spec s)) as Hck. rewrite normal_spec_idemp in Hck.
  destruct (normalize_and_validate (Some k) (normal_spec s)) as [s2 errors] eqn:En. cbn [fst snd] in Hf, Hck. subst s2. intros Hok _ _.
  assert (s' = normal_spec s ∧ errors = []) as [-> ->].
  { apply bind_Ok in Hok as (w & _ & Hok). by injection Hok as <- <- _. }
  clear Hok. specialize (Hck eq_refl). split; [done|]. split.
  { apply validate_policy_spec_Ok. unfold outside_catalog in Ho. cbn zeta in Ho. rewrite !orb_false_iff, !existsb_bad_length in Ho. destruct_and?. by apply (checked_wf (Some k)). }
  destruct Hck. destruct ck_clients0 as [_ Hkc], ck_applications0 as (_ & _ & Hna & Hka), ck_categories0 as (_ & _ & Hng & Hkg).
  split; [exists k; split_and!; auto|]. split; [apply NoDup_normal_clients|]. done.
Qed.
End clean.

(** ** Limits of one flow *)

Lemma upper_lower s : to_ascii_uppercase (to_ascii_lowercase s) = to_ascii_uppercase s.
Proof.
  induction s as [|c s IH]; [done|]. cbn [to_ascii_lowercase to_ascii_uppercase]. rewrite IH. f_equal.
  destruct c as [[] [] [] [] [] [] [] []]; reflexivity.
Qed.

Lemma valid_mac_upper m : valid_mac m = true → to_ascii_uppercase m = m.
Proof.
  intros (ps & _ & Hps & ->)%valid_mac_octets. rewrite upper_join. f_equal. induction Hps as [|q l Hq _ IH]; [done|]. cbn. by rewrite upper_octet_id, IH.
Qed.

Lemma valid_mac_case a b m : valid_mac a = true → valid_mac b = true → eq_ignore_ascii_case a m = true → eq_ignore_ascii_case b m = true → a = b.
Proof.
  unfold eq_ignore_ascii_case. rewrite !String.eqb_eq. intros Ha Hb E1 E2. rewrite <- (valid_mac_upper a Ha), <- (valid_mac_upper b Hb), <- (upper_lower a), <- (upper_lower b). congruence.
Qed.

(** An application policy that has clients selects a client and an application or a
    category of the flow. *)
Lemma selectors_match_selects p mac r : selectors_match p mac r = true → clients (selectors (spec p)) ≠ [] → is_application_policy p = true →
  (∃ c, c ∈ clients (selectors (spec p)) ∧ eq_ignore_ascii_case c mac = true) ∧
  (application_id r ∈ applications (selectors (spec p)) ∨ category_id r ∈ categories (selectors (spec p))).
Proof.
  unfold selectors_match, is_application_policy. intros [[Hc Ha]%andb_true_iff _]%andb_true_iff Hn Happ. split.
  - rewrite (proj2 (no_selector_false _) Hn) in Hc. cbn [orb] in Hc. apply existsb_exists in Hc as (c & Hin & Hc). exists c. by rewrite list_elem_of_In.
  - destruct (no_selector (applications _)) eqn:E1, (no_selector (categories _)) eqn:E2; try done; cbn [orb] in Ha;
      repeat (apply orb_true_iff in Ha as [Ha|Ha]); apply existsb_exists in Ha as (x & Hin%list_elem_of_In & ->%String.eqb_eq); auto.
Qed.

Lemma existsb_common (l r : list string) : existsb (λ x, bool_decide (x ∈ r)) l = existsb (λ x, bool_decide (x ∈ l)) r.
Proof. apply eq_true_iff_eq. rewrite !existsb_exists. setoid_rewrite <- list_elem_of_In. setoid_rewrite bool_decide_eq_true. naive_solver. Qed.

Lemma application_limits_overlap_sym l r : application_limits_overlap l r = application_limits_overlap r l.
Proof.
  unfold application_limits_overlap. rewrite (String.eqb_sym (spec_gateway_id r)), (existsb_common (clients (selectors r))), (existsb_common (applications (selectors r))),
    (existsb_common (categories (selectors r))).
  destruct (String.eqb _ _), (bool_decide (kind (action l) = Limit)), (bool_decide (kind (action r) = Limit)), (no_selector (applications (selectors l))),
    (no_selector (applications (selectors r))), (no_selector (categories (selectors l))), (no_selector (categories (selectors r))); reflexivity.
Qed.

Lemma application_limits_overlap_gateway l r : spec_gateway_id l ≠ spec_gateway_id r → application_limits_overlap l r = false.
Proof. intros Hne. unfold application_limits_overlap. by rewrite (proj2 (String.eqb_neq _ _) Hne). Qed.

(** Of two application limits that do not overlap, a flow has at most one. *)
Lemma disjoint_limits `{Calendar} l r req : application_limits_overlap (spec l) (spec r) = false →
  kind (action (spec l)) = Limit → kind (action (spec r)) = Limit →
  Forall (λ c, valid_mac c = true) (clients (selectors (spec l))) → Forall (λ c, valid_mac c = true) (clients (selectors (spec r))) →
  clients (selectors (spec l)) ≠ [] → clients (selectors (spec r)) ≠ [] → preview_matches req l = true → preview_matches req r = false.
Proof.
  intros Hov Hkl Hkr Hml Hmr Hcl Hcr Hl. destruct (preview_matches req r) eqn:Hr; [|done]. exfalso. unfold preview_matches in Hl, Hr.
  rewrite !andb_true_iff in Hl, Hr. destruct Hl as [[[[[[Hgl _] _] _] Hal] _] Hsl], Hr as [[[[[[Hgr _] _] _] Har] _] Hsr].
  apply String.eqb_eq in Hgl, Hgr.
  destruct (selectors_match_selects l _ _ Hsl Hcl Hal) as [(c & Hc & Hcm) Hl1], (selectors_match_selects r _ _ Hsr Hcr Har) as [(d & Hd & Hdm) Hr1].
  rewrite Forall_forall in Hml, Hmr. pose proof (valid_mac_case c d _ (Hml _ Hc) (Hmr _ Hd) Hcm Hdm) as <-.
  unfold application_limits_overlap in Hov. rewrite Hgl, Hgr, String.eqb_refl, Hkl, Hkr in Hov. unfold is_application_policy in Hal, Har.
  assert (existsb (λ x, bool_decide (x ∈ clients (selectors (spec r)))) (clients (selectors (spec l))) = true) as Hcc.
  { apply existsb_exists. exists c. rewrite <- list_elem_of_In. by rewrite bool_decide_eq_true. }
  rewrite Hcc in Hov. rewrite <- negb_andb, negb_true_iff in Hal, Har. rewrite Hal, Har, (bool_decide_eq_true_2 (Limit = Limit)) in Hov by done. cbn [negb orb andb] in Hov.
  rewrite !orb_false_iff, !andb_false_iff, !negb_false_iff, !no_selector_true in Hov. destruct Hov as [[Ha Hg] [Hx Hy]].
  apply existsb_false in Ha, Hg. rewrite Forall_forall in Ha, Hg.
  destruct Hl1 as [Hl1|Hl1], Hr1 as [Hr1|Hr1].
  - specialize (Ha _ Hl1). by apply bool_decide_eq_false in Ha.
  - destruct Hx as [E|E]; rewrite E in *; set_solver.
  - destruct Hy as [E|E]; rewrite E in *; set_solver.
  - specialize (Hg _ Hl1). by apply bool_decide_eq_false in Hg.
Qed.

(** ** Examples *)

Module Example.
Definition lower_mac : string := " aa:bb:cc:dd:ee:ff".
Definition upper_mac : string := "AA:BB:CC:DD:EE:FF".
Definition submitted (cs ids : list string) : PolicySpecV1 :=
  mkSpec 1 "gw " " Evening TV" "" true 500 (mkSelectors cs ids [] f64_0_80) (mkNetwork "internet" "both") (mkAction Block None None)
    (Some (mkSchedule "UTC" [mkWindow [Tue; Mon] "09:00" "10:00"])).
Definition registered (s : PolicySpecV1) : result string KnownSelectors := Ok (mkKnown true {[upper_mac]} {["tv"]} ∅).
Definition no_capabilities (g : string) : result string (bool * string * string) := Err "unavailable".

(** An application id of 43 Chinese characters, which is 129 bytes. *)
Definition wide_id : string := foldr String.append "" (replicate 43 "测").
End Example.

Lemma admitted_policy_accepted_witness : ∃ s',
  @validate_spec Compiler.Example.utc Example.registered Example.no_capabilities (Example.submitted [Example.lower_mac; Example.upper_mac] ["tv "]) = Ok (s', [], []) ∧
  validate_policy_spec "gw" s' = Ok tt ∧ clients (selectors s') = [Example.upper_mac].
Proof.
  eexists. split; [vm_compute; reflexivity|].
  match goal with |- validate_policy_spec _ ?t = _ ∧ _ =>
    destruct (@admitted_policy_accepted Compiler.Example.utc Example.registered Example.no_capabilities
                (Example.submitted [Example.lower_mac; Example.upper_mac] ["tv "]) t []) as (_ & Hv & _); [vm_compute; reflexivity|repeat constructor; vm_compute; discriminate|repeat constructor; vm_compute; discriminate|]
  end.
  split; [exact Hv|reflexivity].
Defined.

(** The first pass reports a malformed client and drops it; only the issues of the
    second pass, which no longer sees it, are returned. *)
Lemma malformed_client_dropped : ∃ s' issue,
  snd (@normalize_and_validate Compiler.Example.utc None (Example.submitted ["AA:BB:CC:DD:EE"; Example.upper_mac] ["tv"])) = [issue] ∧
  @validate_spec Compiler.Example.utc Example.registered Example.no_capabilities (Example.submitted ["AA:BB:CC:DD:EE"; Example.upper_mac] ["tv"]) = Ok (s', [], []) ∧
  clients (selectors s') = [Example.upper_mac].
Proof. do 2 eexists. split; [vm_compute; reflexivity|]. split; [vm_compute; reflexivity|reflexivity]. Qed.

(** An id of at most 128 characters but more bytes is admitted without a look at the
    catalog, although the agent's validation refuses every snapshot with it. *)
Lemma wide_selector_admitted : ∃ s' e,
  @validate_spec Compiler.Example.utc (λ _, Err "unavailable") Example.no_capabilities (Example.submitted [Example.upper_mac] [Example.wide_id]) = Ok (s', [], []) ∧
  validate_policy_spec "gw" s' = Err e.
Proof. do 2 eexists. split; [vm_compute; reflexivity|vm_compute; reflexivity]. Qed.
