(* ===== verification/Database.v ===== *)
(** The policy database of the collector and its mutations
    (src/crates/collector/src/policy/service.rs, model.rs and
    src/migrations/policy/0001_initial.sql): tables as finite maps, statements as
    functions on them, transactions that are rolled back when a statement
    fails, and the operations that create, change and delete policies with their
    revisions and audit events.  Whether the database engine executes a
    statement is an outcome read from a list, so that every statement can fail.
    The order of a SELECT without ORDER BY is that of the ids; it decides only
    which of several errors is reported. *)

From S2P Require Import Prelude PolicyWire Compiler Evaluator Admission Triples.

(** [serde_json] on a spec. *)
Class SpecJson := {
  spec_to_json : PolicySpecV1 → result string string;
  spec_from_json : string → result string PolicySpecV1;
}.

Definition MAX_SPEC_BYTES : Z := 8 * 1024.
Definition MAX_POLICY_COUNT : Z := 256.
Definition MAX_GATEWAY_SPEC_BYTES : Z := 192 * 1024.
Definition MAX_PUSH_BUNDLE_BYTES : Z := 768 * 1024.
Definition MAX_SCHEDULE_COMPLEXITY : Z := 100000.
Definition PROJECTED_WINDOW_BYTES : Z := 64.

(** ** Tables *)

(** A row of traffic_policies. *)
Record PolicyRow := mkPolicyRow {
  row_gateway_id : string;
  row_name : string;
  row_enabled : bool;
  row_priority : Z;
  spec_json : string;
  row_version : Z;
  row_created_at_ms : Z;
  row_updated_at_ms : Z;
}.

(** A row of policy_events; its event_id is its position. *)
Record EventRow := mkEvent {
  event_gateway_id : string;
  event_policy_id : option string;
  event_action : string;
  event_actor_user_id : string;
  before_json : option string;
  after_json : option string;
  event_revision : Z;
  event_created_at_ms : Z;
}.

(** A row of policy_deployments. *)
Record DeploymentRow := mkDeployment {
  dep_desired_revision : Z;
  dep_applied_revision : Z;
  dep_status : string;
  dep_last_error_code : option string;
  dep_last_error_message : option string;
  dep_last_reported_at_ms : option Z;
  dep_last_heartbeat_at_ms : option Z;
  dep_agent_connected : bool;
  dep_agent_boot_id : option string;
  dep_agent_connection_epoch : option string;
  dep_agent_connection_id : Z;
  dep_controller_epoch : option string;
  dep_bundle_generation : Z;
  dep_bundle_checksum : option string;
  dep_reported_revision : Z;
  dep_agent_applied_revision : Z;
  dep_capabilities_json : option string;
  dep_policy_results_json : string;
  dep_delivered_revision : Z;
  dep_delivered_at_ms : option Z;
  dep_acknowledged_status : option string;
}.

(** The defaults of the columns. *)
Definition new_deployment : DeploymentRow :=
  mkDeployment 0 0 "not_deployed" None None None None false None None 0 None 0 None 0 0 None "[]" 0 None None.

(** A row of policy_client_metrics: the metrics and when they were sampled. *)
Record MetricRow := mkMetricRow { row_upload : option PolicyDirectionMetrics; row_download : option PolicyDirectionMetrics; row_sampled_at_ms : Z }.

Record Database := mkDatabase {
  policy_gateways : gmap string Z;
  traffic_policies : gmap string PolicyRow;
  policy_events : list EventRow;
  policy_deployments : gmap string DeploymentRow;
  policy_client_metrics : gmap (string * string * string) MetricRow;
}.
Definition empty_database : Database := mkDatabase ∅ ∅ [] ∅ ∅.

Definition set_gateways (f : gmap string Z → gmap string Z) (d : Database) : Database :=
  mkDatabase (f (policy_gateways d)) (traffic_policies d) (policy_events d) (policy_deployments d) (policy_client_metrics d).
Definition set_policies (f : gmap string PolicyRow → gmap string PolicyRow) (d : Database) : Database :=
  mkDatabase (policy_gateways d) (f (traffic_policies d)) (policy_events d) (policy_deployments d) (policy_client_metrics d).
Definition add_event (e : EventRow) (d : Database) : Database :=
  mkDatabase (policy_gateways d) (traffic_policies d) (policy_events d ++ [e]) (policy_deployments d) (policy_client_metrics d).
Definition set_deployments (f : gmap string DeploymentRow → gmap string DeploymentRow) (d : Database) : Database :=
  mkDatabase (policy_gateways d) (traffic_policies d) (policy_events d) (f (policy_deployments d)) (policy_client_metrics d).
Definition set_metrics (f : gmap (string * string * string) MetricRow → gmap (string * string * string) MetricRow) (d : Database) : Database :=
  mkDatabase (policy_gateways d) (traffic_policies d) (policy_events d) (policy_deployments d) (f (policy_client_metrics d)).

(** ** Statements and transactions *)

Inductive PolicyFailure :=
  | NotFound
  | RevisionConflict (current_revision : Z)
  | VersionConflict (current_revision current_version : Z)
  | LimitOverlapUnsupported
  | PolicyLimitExceeded
  | PolicyTooLarge
  | PolicyBundleTooLarge
  | ScheduleComplexityExceeded
  | InvalidPolicy (code message : string)
  | StoreFailure (message : string).

(** The service: its database, when it last pruned the metrics of a gateway, and
    the outcomes of the statements to come ([Some e] is the error [e]). *)
Record Service := mkService { db : Database; last_metrics_prune_ms : gmap string Z; outcomes : list (option string) }.

Abbreviation Tx := (stM Service PolicyFailure).

Definition statement {A} (f : Database → result string (A * Database)) : Tx A := λ s,
  match outcomes s with
  | Some e :: rest => (mkService (db s) (last_metrics_prune_ms s) rest, Err (StoreFailure e))
  | rest =>
    match f (db s) with
    | Ok (a, d) => (mkService d (last_metrics_prune_ms s) (tail rest), Ok a)
    | Err e => (mkService (db s) (last_metrics_prune_ms s) (tail rest), Err (StoreFailure e))
    end
  end.

Definition query {A} (f : Database → result string A) : Tx A := statement (λ d, a ← f d; Ok (a, d)).
Definition execute (f : Database → result string Database) : Tx unit := statement (λ d, d ← f d; Ok (tt, d)).
(** An UPDATE of one row of policy_deployments, with the number of rows that it
    affected. *)
Definition update_deployment (gateway_id : string) (where_ : DeploymentRow → bool) (set_ : DeploymentRow → DeploymentRow) : Tx Z :=
  statement (λ d,
    match policy_deployments d !! gateway_id with
    | Some r => if where_ r then Ok (1, set_deployments (insert gateway_id (set_ r)) d) else Ok (0, d)
    | None => Ok (0, d)
    end).

(** [transaction_with_behavior], the body, and [commit]; a transaction that is
    dropped is rolled back. *)
Definition begin_and_commit {A} (body : Tx A) : Tx A := _ ← query (λ _, Ok tt); a ← body; _ ← query (λ _, Ok tt); mret a.
Definition transaction {A} (body : Tx A) : Tx A := λ s,
  match begin_and_commit body s with
  | (s', Ok a) => (s', Ok a)
  | (s', Err e) => (mkService (db s) (last_metrics_prune_ms s') (outcomes s'), Err e)
  end.

Definition to_i64 (v : Z) : Z := Z.min v i64_max.
Definition to_u64 (v : Z) : Z := Z.max v 0.

(** ** Gateways and revisions *)

Definition insert_default {V} (k : string) (v : V) (m : gmap string V) : gmap string V :=
  match m !! k with Some _ => m | None => <[k := v]> m end.

Definition ensure_gateway (gateway_id : string) : Tx unit :=
  _ ← execute (λ d, Ok (set_gateways (insert_default gateway_id 0) d));
  execute (λ d, Ok (set_deployments (insert_default gateway_id new_deployment) d)).

Definition read_revision (gateway_id : string) : Tx Z := query (λ d, Ok (default 0 (to_u64 <$> policy_gateways d !! gateway_id))).

Definition check_revision (gateway_id : string) (expected_revision : Z) : Tx unit :=
  current_revision ← read_revision gateway_id;
  lift (if negb (current_revision =? expected_revision) then Err (RevisionConflict current_revision) else Ok tt).

(** A deployment whose desired revision is [revision], with [status] and no
    error. *)
Definition desire (revision : Z) (status : string) (r : DeploymentRow) : DeploymentRow :=
  mkDeployment revision (dep_applied_revision r) status None None (dep_last_reported_at_ms r) (dep_last_heartbeat_at_ms r) (dep_agent_connected r)
    (dep_agent_boot_id r) (dep_agent_connection_epoch r) (dep_agent_connection_id r) (dep_controller_epoch r) (dep_bundle_generation r)
    (dep_bundle_checksum r) (dep_reported_revision r) (dep_agent_applied_revision r) (dep_capabilities_json r) (dep_policy_results_json r)
    (dep_delivered_revision r) (dep_delivered_at_ms r) (dep_acknowledged_status r).

(** Beyond [i64] the sum is a REAL, which cannot be read back. *)
Definition increment_revision (gateway_id : string) (d : Database) : result string Database :=
  match policy_gateways d !! gateway_id with
  | Some r => if i64_max <=? r then Err "Invalid column type Real" else Ok (set_gateways (insert gateway_id (r + 1)) d)
  | None => Ok d
  end.

Definition waiting_status (agent_connected : bool) : string := if agent_connected then "pending" else "offline".

Definition bump_revision (gateway_id : string) : Tx Z :=
  _ ← execute (increment_revision gateway_id);
  revision ← read_revision gateway_id;
  agent_connected ← query (λ d, ok_or (dep_agent_connected <$> policy_deployments d !! gateway_id) "Query returned no rows");
  _ ← update_deployment gateway_id (λ _, true) (desire (to_i64 revision) (waiting_status agent_connected));
  mret revision.

Definition insert_event (gateway_id policy_id action actor_user_id : string) (before after : option string) (revision now : Z) : Tx unit :=
  execute (λ d, Ok (add_event (mkEvent gateway_id (Some policy_id) action actor_user_id before after (to_i64 revision) now) d)).

(** ** Reading policies *)

Record PolicyRecord := mkRecord {
  rec_id : string;
  rec_created_at_ms : Z;
  rec_updated_at_ms : Z;
  rec_version : Z;
  rec_spec : PolicySpecV1;
  execution_status : string;
  execution_reason_code : option string;
  execution_message : option string;
  execution_details : option PolicyResultDetails;
}.

Record MutationResult := mkMutation { mut_policy : option PolicyRecord; mut_gateway_id : string; mut_revision : Z; mut_changed : bool }.

Section policies.
Context `{SpecJson} `{Calendar}.

Definition map_record (id : string) (r : PolicyRow) : result string PolicyRecord :=
  s ← spec_from_json (spec_json r);
  Ok (mkRecord id (row_created_at_ms r) (row_updated_at_ms r) (to_u64 (row_version r)) s (if enabled s then "offline" else "disabled") None None None).

Definition find_record (id : string) : Tx (option PolicyRecord) :=
  query (λ d, match traffic_policies d !! id with Some r => c ← map_record id r; Ok (Some c) | None => Ok None end).

(** [find_record(..)?.ok_or(NotFound)?]. *)
Definition require_record (id : string) : Tx PolicyRecord := c ← find_record id; lift (ok_or c NotFound).

Definition serialized_spec (s : PolicySpecV1) : result PolicyFailure string := map_err StoreFailure (spec_to_json s).

(** The policies of a gateway, by id. *)
Definition gateway_policies (gateway_id : string) (d : Database) : list (string * PolicyRow) :=
  List.filter (λ p, String.eqb (row_gateway_id (snd p)) gateway_id) (btree_entries str_leb (traffic_policies d)).

Definition parse_stored (j : string) : result PolicyFailure PolicySpecV1 :=
  map_err (λ e, StoreFailure (String.append "invalid policy JSON in database: " e)) (spec_from_json j).

(** ** Checks *)

Definition check_overlap_with (candidate : PolicySpecV1) (exclude_id : option string) (p : string * PolicyRow) : result PolicyFailure unit :=
  if bool_decide (exclude_id = Some (fst p)) then Ok tt
  else
    s ← parse_stored (spec_json (snd p));
    if application_limits_overlap candidate s then Err LimitOverlapUnsupported else Ok tt.

Definition check_policy_overlap (candidate : PolicySpecV1) (exclude_id : option string) : Tx unit :=
  existing ← query (λ d, Ok (gateway_policies (spec_gateway_id candidate) d));
  lift (eachM (check_overlap_with candidate exclude_id) existing).

Record Usage := mkUsage { u_count : Z; total_bytes : Z; bundle_bytes : Z; schedule_complexity : Z; schedule_expansions : Z }.

Definition window_complexity (s : PolicySpecV1) : Z :=
  match schedule s with Some sch => Z.min u64_max (zlen (windows sch) * 30) | None => 0 end.

Definition add_usage (now : Z) (u : Usage) (j : string) (s : PolicySpecV1) : Usage :=
  mkUsage (u_count u + 1) (u64_saturating_add (total_bytes u) (str_len j)) (u64_saturating_add (bundle_bytes u) (str_len j))
    (u64_saturating_add (schedule_complexity u) (window_complexity s)) (u64_saturating_add (schedule_expansions u) (schedule_projection_cost now s)).

Definition count_existing (now : Z) (exclude_id : option string) (u : Usage) (p : string * PolicyRow) : result PolicyFailure Usage :=
  if bool_decide (exclude_id = Some (fst p)) then Ok u
  else s ← parse_stored (spec_json (snd p)); Ok (add_usage now u (spec_json (snd p)) s).

Definition check_usage (u : Usage) : result PolicyFailure unit :=
  if MAX_POLICY_COUNT <? u_count u then Err PolicyLimitExceeded
  else if MAX_SCHEDULE_COMPLEXITY <? schedule_complexity u then Err ScheduleComplexityExceeded
  else if MAX_GATEWAY_SPEC_BYTES <? total_bytes u then Err PolicyBundleTooLarge
  else if MAX_PUSH_BUNDLE_BYTES <? u64_saturating_add (bundle_bytes u) (Z.min u64_max (schedule_expansions u * PROJECTED_WINDOW_BYTES))
  then Err PolicyBundleTooLarge else Ok tt.

(** Every caller has a replacement. *)
Definition check_resource_limits (now : Z) (gateway_id replacement_json : string) (exclude_id : option string) : Tx unit :=
  existing ← query (λ d, Ok (gateway_policies gateway_id d));
  lift (u ← foldM (count_existing now exclude_id) (mkUsage 0 0 0 0 0) existing;
        s ← map_err (λ e, StoreFailure (String.append "invalid candidate policy JSON: " e)) (spec_from_json replacement_json);
        check_usage (add_usage now u replacement_json s)).

Definition check_one_spec_size (j : string) : result PolicyFailure unit := if MAX_SPEC_BYTES <? str_len j then Err PolicyTooLarge else Ok tt.

(** ** Mutations *)

(** The row's constraints: PRIMARY KEY, FOREIGN KEY and CHECK. *)
Definition insert_policy (id : string) (r : PolicyRow) (d : Database) : result string Database :=
  if (bool_decide (is_Some (traffic_policies d !! id)) || bool_decide (policy_gateways d !! row_gateway_id r = None)
      || negb (in_range 0 1000 (row_priority r)))%bool
  then Err "constraint failed" else Ok (set_policies (insert id r) d).

Definition update_policy (id : string) (f : PolicyRow → PolicyRow) (d : Database) : result string Database :=
  match traffic_policies d !! id with
  | Some r => if negb (in_range 0 1000 (row_priority (f r))) then Err "constraint failed" else Ok (set_policies (insert id (f r)) d)
  | None => Ok d
  end.

Definition create (uuid : string) (now : Z) (s : PolicySpecV1) (actor_user_id : string) (expected_revision : Z) : Tx MutationResult :=
  j ← lift (serialized_spec s);
  _ ← lift (check_one_spec_size j);
  transaction (
    _ ← ensure_gateway (spec_gateway_id s);
    _ ← check_revision (spec_gateway_id s) expected_revision;
    _ ← check_policy_overlap s None;
    _ ← check_resource_limits now (spec_gateway_id s) j None;
    _ ← execute (insert_policy uuid (mkPolicyRow (spec_gateway_id s) (name s) (enabled s) (priority s) j 1 now now));
    revision ← bump_revision (spec_gateway_id s);
    _ ← insert_event (spec_gateway_id s) uuid "create" actor_user_id None (Some j) revision now;
    policy ← query (λ d, r ← ok_or (traffic_policies d !! uuid) "Query returned no rows"; map_record uuid r);
    mret (mkMutation (Some policy) (spec_gateway_id s) revision true)).

Definition unchanged (current : PolicyRecord) (revision : Z) : MutationResult := mkMutation (Some current) (spec_gateway_id (rec_spec current)) revision false.

Definition update (now : Z) (id : string) (s : PolicySpecV1) (actor_user_id : string) (expected_revision expected_version : Z) : Tx MutationResult :=
  j ← lift (serialized_spec s);
  _ ← lift (check_one_spec_size j);
  transaction (
    current ← require_record id;
    let gateway_id := spec_gateway_id (rec_spec current) in
    _ ← lift (if negb (String.eqb (spec_gateway_id s) gateway_id)
              then Err (InvalidPolicy "invalid_spec" "gateway_id cannot be changed when editing a policy") else Ok tt);
    _ ← check_revision gateway_id expected_revision;
    if negb (rec_version current =? expected_version) then
      current_revision ← read_revision gateway_id; lift (Err (VersionConflict current_revision (rec_version current)))
    else
      before ← lift (serialized_spec (rec_spec current));
      if String.eqb j before then revision ← read_revision gateway_id; mret (unchanged current revision)
      else
        _ ← check_policy_overlap s (Some id);
        _ ← check_resource_limits now gateway_id j (Some id);
        _ ← execute (update_policy id (λ r, mkPolicyRow (row_gateway_id r) (name s) (enabled s) (priority s) j (row_version r + 1) (row_created_at_ms r) now));
        revision ← bump_revision gateway_id;
        _ ← insert_event gateway_id id "update" actor_user_id (Some before) (Some j) revision now;
        updated ← require_record id;
        mret (mkMutation (Some updated) gateway_id revision true)).

Definition set_spec_enabled (enabled : bool) (s : PolicySpecV1) : PolicySpecV1 :=
  mkSpec (schema_version s) (spec_gateway_id s) (name s) (description s) enabled (priority s) (selectors s) (network s) (action s) (schedule s).

Definition set_enabled (now : Z) (id : string) (on : bool) (actor_user_id : string) (expected_revision expected_version : Z) : Tx MutationResult :=
  transaction (
    current ← require_record id;
    let gateway_id := spec_gateway_id (rec_spec current) in
    current_revision ← read_revision gateway_id;
    _ ← check_revision gateway_id expected_revision;
    if negb (rec_version current =? expected_version) then lift (Err (VersionConflict current_revision (rec_version current)))
    else if Bool.eqb (enabled (rec_spec current)) on then mret (unchanged current current_revision)
    else
      j ← lift (serialized_spec (set_spec_enabled on (rec_spec current)));
      _ ← lift (check_one_spec_size j);
      _ ← check_resource_limits now gateway_id j (Some id);
      _ ← execute (update_policy id (λ r, mkPolicyRow (row_gateway_id r) (row_name r) on (row_priority r) j (row_version r + 1) (row_created_at_ms r) now));
      revision ← bump_revision gateway_id;
      before ← lift (serialized_spec (rec_spec current));
      _ ← insert_event gateway_id id (if on then "enable" else "disable") actor_user_id (Some before) (Some j) revision now;
      updated ← require_record id;
      mret (mkMutation (Some updated) gateway_id revision true)).

Definition delete (now : Z) (id actor_user_id : string) (expected_revision : Z) : Tx MutationResult :=
  transaction (
    current ← require_record id;
    let gateway_id := spec_gateway_id (rec_spec current) in
    _ ← check_revision gateway_id expected_revision;
    before ← lift (serialized_spec (rec_spec current));
    _ ← execute (λ d, Ok (set_policies (base.delete id) d));
    revision ← bump_revision gateway_id;
    _ ← insert_event gateway_id id "delete" actor_user_id (Some before) None revision now;
    mret (mkMutation None gateway_id revision true)).

Definition republish (now : Z) (gateway_id actor_user_id : string) : Tx Z :=
  transaction (
    _ ← ensure_gateway gateway_id;
    revision ← read_revision gateway_id;
    row ← query (λ d, ok_or (policy_deployments d !! gateway_id) "Query returned no rows");
    let next_revision := u64_saturating_add (Z.max revision (to_u64 (dep_agent_applied_revision row))) 1 in
    _ ← lift (if MAX_SAFE_JSON_INTEGER <? next_revision then Err (StoreFailure "policy revision exhausted") else Ok tt);
    _ ← execute (λ d, Ok (set_gateways (alter (λ _, to_i64 next_revision) gateway_id) d));
    _ ← update_deployment gateway_id (λ _, true) (λ r, desire (to_i64 next_revision) (waiting_status (dep_agent_connected r)) r);
    _ ← execute (λ d, Ok (add_event (mkEvent gateway_id None "republish" actor_user_id None None (to_i64 next_revision) now) d));
    mret next_revision).

(** [snapshot]: the policies of a gateway in the order of their ids. *)
Definition stored_snapshot (gateway_id : string) : Tx (Z * list PolicySnapshotEntry) :=
  revision ← read_revision gateway_id;
  policies ← query (λ d, mapR (λ p, s ← spec_from_json (spec_json (snd p)); Ok (mkEntry (fst p) s)) (gateway_policies gateway_id d));
  mret (revision, policies).
End policies.

(** * What a successful step did *)

Lemma statement_Ok {A} (f : Database → result string (A * Database)) s s' a : statement f s = (s', Ok a) →
  f (db s) = Ok (a, db s') ∧ last_metrics_prune_ms s' = last_metrics_prune_ms s.
Proof.
  unfold statement. destruct (outcomes s) as [|[e|] rest]; [|done|]; destruct (f (db s)) as [[b d]|e]; try done; intros [= <- ->]; done.
Qed.

Lemma query_Ok {A} (f : Database → result string A) s s' a : query f s = (s', Ok a) → f (db s) = Ok a ∧ db s' = db s.
Proof. intros [(b & Hb & [= <- <-])%bind_Ok _]%statement_Ok. done. Qed.

Lemma execute_Ok (f : Database → result string Database) s s' u : execute f s = (s', Ok u) → f (db s) = Ok (db s').
Proof. intros [(b & Hb & [= <- <-])%bind_Ok _]%statement_Ok. done. Qed.

Lemma lift_Ok {S E A} (r : result E A) (s s' : S) a : lift r s = (s', Ok a) → r = Ok a ∧ s' = s.
Proof. by intros [= <- <-]. Qed.

Lemma mret_Ok {S E A} (b a : A) (s s' : S) : (mret b : stM S E A) s = (s', Ok a) → a = b ∧ s' = s.
Proof. by intros [= <- <-]. Qed.

Lemma transaction_Ok {A} (body : Tx A) s s' a : transaction body s = (s', Ok a) → ∃ s1 s2, db s1 = db s ∧ body s1 = (s2, Ok a) ∧ db s' = db s2.
Proof.
  unfold transaction. destruct (begin_and_commit body s) as [t [b|e]] eqn:E; [|done]. intros [= <- <-]. unfold begin_and_commit in E.
  apply stM_bind_Ok in E as (s1 & u & [_ Hu]%query_Ok & E). apply stM_bind_Ok in E as (s2 & c & Hc & E).
  apply stM_bind_Ok in E as (s3 & v & [_ Hv]%query_Ok & [-> ->]%mret_Ok). exists s1, s2. by rewrite Hv.
Qed.

(** A failed transaction leaves the database as it was. *)
Lemma transaction_Err {A} (body : Tx A) s s' e : transaction body s = (s', Err e) → db s' = db s.
Proof. unfold transaction. destruct (begin_and_commit body s) as [t [b|e']]; [done|]. by intros [= <- _]. Qed.

(** [inv_tx] splits a successful sequence into its steps. *)
Ltac inv_tx :=
  repeat match goal with
  | Hs : mbind _ _ _ = (_, Ok _) |- _ => apply stM_bind_Ok in Hs as (? & ? & ? & Hs); cbn beta in Hs
  | Hs : lift _ _ = (_, Ok _) |- _ => apply lift_Ok in Hs as [? ->]
  | Hs : mret _ _ = (_, Ok _) |- _ => apply mret_Ok in Hs as [-> ->]
  | Hs : query _ _ = (_, Ok _) |- _ => apply query_Ok in Hs as [? ?]
  | Hs : execute _ _ = (_, Ok _) |- _ => apply execute_Ok in Hs
  | Hs : transaction _ _ = (_, Ok _) |- _ => apply transaction_Ok in Hs as (? & ? & ? & Hs & ?)
  end.

(** [chain] follows the databases of a sequence of steps. *)
Ltac chain := repeat match goal with E : db _ = _ |- _ => rewrite E in *; clear E end.

(** The gateway and its deployment exist. *)
Definition ensured (g : string) (d : Database) : Database :=
  set_deployments (insert_default g new_deployment) (set_gateways (insert_default g 0) d).

Lemma ensure_gateway_Ok g s s' u : ensure_gateway g s = (s', Ok u) → db s' = ensured g (db s).
Proof. unfold ensure_gateway. intros Hs. inv_tx. unfold ensured. congruence. Qed.

Definition revision_of (g : string) (d : Database) : Z := default 0 (to_u64 <$> policy_gateways d !! g).

Lemma read_revision_Ok g s s' r : read_revision g s = (s', Ok r) → r = revision_of g (db s) ∧ db s' = db s.
Proof. unfold read_revision. intros Hs. inv_tx. by simplify_eq. Qed.

Lemma check_revision_Ok g r s s' u : check_revision g r s = (s', Ok u) → revision_of g (db s) = r ∧ db s' = db s.
Proof.
  unfold check_revision. intros Hs. inv_tx. match goal with Hr : read_revision _ _ = _ |- _ => apply read_revision_Ok in Hr as [-> Hd] end.
  rewrite Hd. destruct (Z.eqb_spec (revision_of g (db s)) r); [done|]. by cbn in *.
Qed.

(** The revision of a gateway, raised to [r]. *)
Definition raise (g : string) (r : Z) (d : Database) : Database :=
  set_deployments (alter (λ w, desire r (waiting_status (dep_agent_connected w)) w) g) (set_gateways (insert g r) d).

Lemma update_deployment_Ok g wh f s s' n : update_deployment g wh f s = (s', Ok n) →
  (∃ w, policy_deployments (db s) !! g = Some w ∧ wh w = true ∧ n = 1 ∧ db s' = set_deployments (insert g (f w)) (db s)) ∨
  ((∀ w, policy_deployments (db s) !! g = Some w → wh w = false) ∧ n = 0 ∧ db s' = db s).
Proof.
  unfold update_deployment. intros [Hf _]%statement_Ok. destruct (policy_deployments (db s) !! g) as [w|]; [|simplify_eq; right; naive_solver].
  destruct (wh w) eqn:Hw; simplify_eq; [left|right]; naive_solver.
Qed.

Lemma set_deployments_insert g w w' d : policy_deployments d !! g = Some w → set_deployments (insert g w') d = set_deployments (alter (λ _, w') g) d.
Proof. intros Hw. unfold set_deployments. f_equal. apply map_eq. intros i. destruct (decide (i = g)) as [->|]; [by rewrite lookup_insert_eq, lookup_alter_eq, Hw|by rewrite lookup_insert_ne, lookup_alter_ne]. Qed.

Lemma bump_revision_Ok g r s s' r' : policy_gateways (db s) !! g = Some r → 0 ≤ r → bump_revision g s = (s', Ok r') →
  r' = r + 1 ∧ r' ≤ i64_max ∧ db s' = raise g r' (db s).
Proof.
  unfold bump_revision. intros Hg Hr Hs. inv_tx.
  match goal with Hi : increment_revision _ _ = _ |- _ => unfold increment_revision in Hi; rewrite Hg in Hi; destruct (Z.leb_spec i64_max r); simplify_eq/=; rename Hi into Hdb end.
  match goal with Hq : read_revision _ _ = _ |- _ => apply read_revision_Ok in Hq as [-> Hd1] end.
  rewrite <- Hdb in *.
  assert (revision_of g (set_gateways (insert g (r + 1)) (db s)) = r + 1) as Hrev by (unfold revision_of, set_gateways; cbn; rewrite lookup_insert_eq; cbn; unfold to_u64; lia).
  rewrite Hrev in *. split; [done|]. split; [lia|].
  match goal with Hq : ok_or _ _ = _ |- _ => apply ok_or_Ok in Hq; rewrite Hd1 in Hq; apply fmap_Some in Hq as (w & Hw & ->) end.
  match goal with Hq : update_deployment _ _ _ _ = _, H3 : db ?x = db _ |- _ => apply update_deployment_Ok in Hq; rewrite H3, Hd1 in Hq;
    destruct Hq as [(w' & Hw' & _ & _ & ->)|[Hno _]]; [|by specialize (Hno w Hw)] end.
  simplify_eq. rewrite (set_deployments_insert _ _ _ _ Hw). unfold raise, set_deployments. f_equal. apply map_eq. intros i.
  assert (to_i64 (r + 1) = r + 1) as -> by (unfold to_i64; lia).
  destruct (decide (i = g)) as [->|]; [by rewrite !lookup_alter_eq, Hw|by rewrite !lookup_alter_ne].
Qed.

Lemma insert_event_Ok g p act actor before after r now s s' u : insert_event g p act actor before after r now s = (s', Ok u) → r ≤ i64_max →
  db s' = add_event (mkEvent g (Some p) act actor before after r now) (db s).
Proof. unfold insert_event. intros Hs Hr. assert (to_i64 r = r) as E by (unfold to_i64; lia). rewrite E in Hs. inv_tx. congruence. Qed.

Section policies_proofs.
Context `{SpecJson} `{Calendar}.

Lemma require_record_Ok id s s' c : require_record id s = (s', Ok c) → db s' = db s ∧ ∃ r, traffic_policies (db s) !! id = Some r ∧ map_record id r = Ok c.
Proof.
  unfold require_record, find_record. intros Hs. inv_tx. split; [done|]. inv_ok. simplify_eq. destruct (traffic_policies (db s) !! id) as [r|]; [|done].
  inv_ok. simplify_eq. eauto.
Qed.

Lemma map_record_Ok id r c : map_record id r = Ok c → spec_from_json (spec_json r) = Ok (rec_spec c) ∧ rec_id c = id ∧ rec_version c = to_u64 (row_version r).
Proof. unfold map_record. intros Hs. inv_ok. by subst. Qed.

Lemma elem_of_gateway_policies g d id r : (id, r) ∈ gateway_policies g d ↔ traffic_policies d !! id = Some r ∧ row_gateway_id r = g.
Proof. unfold gateway_policies. rewrite elem_of_filterb, elem_of_btree_entries. cbn [snd]. by rewrite String.eqb_eq. Qed.

Lemma NoDup_gateway_policies g d : NoDup (gateway_policies g d).
Proof.
  unfold gateway_policies. apply NoDup_ListNoDup, List.NoDup_filter, NoDup_ListNoDup. unfold btree_entries. rewrite sort_by_perm. apply NoDup_map_to_list.
Qed.

Lemma check_policy_overlap_Ok cand ex s s' u : check_policy_overlap cand ex s = (s', Ok u) → db s' = db s ∧
  ∀ id r, traffic_policies (db s) !! id = Some r → row_gateway_id r = spec_gateway_id cand → ex ≠ Some id →
    ∃ t, spec_from_json (spec_json r) = Ok t ∧ application_limits_overlap cand t = false.
Proof.
  unfold check_policy_overlap. intros Hs. inv_tx. split; [done|]. simplify_eq. intros id r Hr Hg Hex. destruct u.
  match goal with He : eachM _ _ = _ |- _ => apply eachM_Ok in He; rewrite Forall_forall in He; specialize (He (id, r)) as Hp end.
  unfold check_overlap_with in Hp. cbn [fst snd] in Hp. rewrite bool_decide_eq_false_2 in Hp by done. unfold parse_stored in Hp.
  assert ((id, r) ∈ gateway_policies (spec_gateway_id cand) (db s)) as Hin by by apply elem_of_gateway_policies.
  specialize (Hp Hin). inv_ok. destruct (application_limits_overlap cand _) eqn:E; [done|]. eauto.
Qed.

(** ** Resource limits *)

Definition json_bytes (l : list (string * PolicyRow)) : Z := foldr (λ p n, str_len (spec_json (snd p)) + n) 0 l.

Lemma json_bytes_cons p l : json_bytes (p :: l) = str_len (spec_json (snd p)) + json_bytes l.
Proof. done. Qed.

#[export] Instance json_bytes_perm : Proper ((≡ₚ) ==> eq) json_bytes.
Proof. intros l l'. induction 1; cbn [json_bytes foldr]; unfold json_bytes in *; [done|lia|lia|congruence]. Qed.

Lemma json_bytes_nonneg l : 0 ≤ json_bytes l.
Proof. induction l as [|p l IH]; [done|]. rewrite json_bytes_cons. unfold str_len. lia. Qed.

Definition others (ex : option string) (l : list (string * PolicyRow)) : list (string * PolicyRow) := List.filter (λ p, negb (bool_decide (ex = Some (fst p)))) l.

Lemma others_cons ex p l : others ex (p :: l) = if bool_decide (ex = Some (fst p)) then others ex l else p :: others ex l.
Proof. unfold others. cbn. by destruct (bool_decide _). Qed.

Lemma count_existing_total now ex l u u' : foldM (count_existing now ex) u l = Ok u' → 0 ≤ total_bytes u ≤ u64_max →
  u_count u' = u_count u + zlen (others ex l) ∧ total_bytes u' = Z.min u64_max (total_bytes u + json_bytes (others ex l)).
Proof.
  revert u. induction l as [|p l IH]; intros u; cbn [foldM].
  - intros [= <-] Hu. change (zlen (others ex [])) with 0. change (json_bytes (others ex [])) with 0. lia.
  - rewrite others_cons. intros (v & Hv & Hs)%bind_Ok Hu. unfold count_existing in Hv. destruct (bool_decide (ex = Some (fst p))); [simplify_eq; by apply IH in Hs|].
    inv_ok. subst. apply IH in Hs; [|unfold add_usage, u64_saturating_add, u64_max, str_len in *; cbn; lia].
    rewrite zlen_cons, json_bytes_cons. pose proof (json_bytes_nonneg (others ex l)). unfold add_usage, u64_saturating_add, str_len in *. cbn [u_count total_bytes] in Hs. lia.
Qed.

Lemma check_usage_Ok u v : check_usage u = Ok v → u_count u ≤ MAX_POLICY_COUNT ∧ total_bytes u ≤ MAX_GATEWAY_SPEC_BYTES.
Proof.
  unfold check_usage. destruct (Z.ltb_spec MAX_POLICY_COUNT (u_count u)); [discriminate|]. destruct (_ <? _); [discriminate|].
  destruct (Z.ltb_spec MAX_GATEWAY_SPEC_BYTES (total_bytes u)); [discriminate|]. intros _. split; assumption.
Qed.

Lemma check_resource_limits_Ok now g j ex s s' u : check_resource_limits now g j ex s = (s', Ok u) → db s' = db s ∧
  zlen (others ex (gateway_policies g (db s))) + 1 ≤ MAX_POLICY_COUNT ∧ json_bytes (others ex (gateway_policies g (db s))) + str_len j ≤ MAX_GATEWAY_SPEC_BYTES ∧
  ∃ t, spec_from_json j = Ok t.
Proof.
  unfold check_resource_limits. intros Hs. inv_tx. split; [done|]. simplify_eq. inv_ok.
  match goal with Hf : foldM _ _ _ = _ |- _ => apply count_existing_total in Hf as [Hc Ht]; [|done] end. cbn [u_count total_bytes] in Hc, Ht.
  pose proof (json_bytes_nonneg (others ex (gateway_policies g (db s)))).
  match goal with Hu : check_usage _ = _ |- _ => apply check_usage_Ok in Hu as [Hn Hb] end.
  cbn [add_usage u_count total_bytes] in Hn, Hb. rewrite Hc in Hn. rewrite Ht in Hb. split; [lia|]. split; [|eauto].
  assert (0 ≤ str_len j) by (unfold str_len; lia). unfold u64_saturating_add, u64_max, MAX_GATEWAY_SPEC_BYTES in *. lia.
Qed.

(** * The invariant *)

(** Specs that differ at most in the confidence, whose decimal text need not read
    back as the same number. *)
Definition without_confidence (s : PolicySpecV1) : PolicySpecV1 :=
  set_selectors (mkSelectors (clients (selectors s)) (applications (selectors s)) (categories (selectors s)) f64_0_80) s.
Definition same_policy (s t : PolicySpecV1) : Prop := without_confidence s = without_confidence t.

Lemma same_policy_overlap s t u v : same_policy s t → same_policy u v → application_limits_overlap s u = application_limits_overlap t v.
Proof.
  intros Hst Huv. transitivity (application_limits_overlap (without_confidence s) (without_confidence u)); [done|]. by rewrite Hst, Huv.
Qed.

Class SpecJsonLaws : Prop := { spec_json_fields s j t : spec_to_json s = Ok j → spec_from_json j = Ok t → same_policy s t }.

(** The audit log as a history: what it says of each policy. *)
Definition replay_event (m : gmap string string) (e : EventRow) : gmap string string :=
  match event_policy_id e with Some p => partial_alter (λ _, after_json e) p m | None => m end.
Definition replay (es : list EventRow) : gmap string string := foldl replay_event ∅ es.

(** The revisions of a gateway that the log tells of. *)
Definition gateway_revisions (g : string) (es : list EventRow) : list Z := event_revision <$> List.filter (λ e, String.eqb (event_gateway_id e) g) es.

(** A row says what its document says. *)
Definition row_agrees (r : PolicyRow) : Prop := ∃ s, spec_from_json (spec_json r) = Ok s ∧ spec_gateway_id s = row_gateway_id r ∧ name s = row_name r ∧
  enabled s = row_enabled r ∧ priority s = row_priority r.

Record row_ok (d : Database) (r : PolicyRow) : Prop := {
  ro_gateway : ∃ n, policy_gateways d !! row_gateway_id r = Some n ∧ 1 ≤ n;
  ro_size : str_len (spec_json r) ≤ MAX_SPEC_BYTES;
  ro_version : 1 ≤ row_version r;
  ro_priority : 0 ≤ row_priority r ≤ 1000;
  ro_spec : row_agrees r;
}.

Record database_ok (d : Database) : Prop := {
  do_revision g r : policy_gateways d !! g = Some r → 0 ≤ r ≤ i64_max ∧ ∃ w, policy_deployments d !! g = Some w ∧ dep_desired_revision w = r;
  do_deployment g : is_Some (policy_deployments d !! g) → is_Some (policy_gateways d !! g);
  do_rows id r : traffic_policies d !! id = Some r → row_ok d r;
  do_count g : zlen (gateway_policies g d) ≤ MAX_POLICY_COUNT;
  do_bytes g : json_bytes (gateway_policies g d) ≤ MAX_GATEWAY_SPEC_BYTES;
  do_overlap id id' r r' s s' : id ≠ id' → traffic_policies d !! id = Some r → traffic_policies d !! id' = Some r' →
    spec_from_json (spec_json r) = Ok s → spec_from_json (spec_json r') = Ok s' → application_limits_overlap s s' = false;
  do_audit : replay (policy_events d) = spec_json <$> traffic_policies d;
  do_sorted g : StronglySorted Z.lt (gateway_revisions g (policy_events d));
  do_last g : default 0 (last (gateway_revisions g (policy_events d))) = default 0 (policy_gateways d !! g);
}.

Lemma empty_database_ok : database_ok empty_database.
Proof.
  split; try done; intros; unfold empty_database in *; cbn in *; try done; try (by rewrite lookup_empty in *); try constructor.
  all: try (match goal with Hs : is_Some (∅ !! _) |- _ => by destruct Hs end).
  all: try (by rewrite fmap_empty).
Qed.

Lemma ensured_gateways g d : policy_gateways (ensured g d) = insert_default g 0 (policy_gateways d).
Proof. done. Qed.

Lemma insert_default_lookup {V} (g g' : string) (v : V) m : insert_default g v m !! g' = if decide (g' = g) then Some (default v (m !! g)) else m !! g'.
Proof.
  unfold insert_default. destruct (decide (g' = g)) as [->|Hne]; destruct (m !! g) eqn:E; try done; [apply lookup_insert_eq|by rewrite lookup_insert_ne].
Qed.

Lemma ensured_id g d : is_Some (policy_gateways d !! g) → is_Some (policy_deployments d !! g) → ensured g d = d.
Proof. intros [r Hr] [w Hw]. unfold ensured, set_deployments, set_gateways, insert_default. cbn. rewrite Hr, Hw. by destruct d. Qed.

Lemma ensured_ok g d : database_ok d → database_ok (ensured g d).
Proof.
  intros Hok. destruct (policy_gateways d !! g) as [r|] eqn:Hg.
  { rewrite ensured_id; [done|by rewrite Hg|]. destruct (do_revision _ Hok g r Hg) as (_ & w & Hw & _). by rewrite Hw. }
  assert (policy_deployments d !! g = None) as Hd by (apply eq_None_not_Some; intros [? Hs]%(do_deployment _ Hok); congruence).
  destruct Hok. split; try done; cbn [ensured set_deployments set_gateways policy_gateways policy_deployments traffic_policies policy_events].
  - intros g' r'. rewrite !insert_default_lookup, Hg, Hd. cbn [default]. destruct (decide (g' = g)) as [->|]; [|by apply do_revision0]. intros [= <-]. split; [|by exists new_deployment]. unfold i64_max. lia.
  - intros g'. rewrite !insert_default_lookup, Hg, Hd. destruct (decide (g' = g)); [done|]. apply do_deployment0.
  - intros id r' Hr'. destruct (do_rows0 id r' Hr') as [(n & Hn & Hn1)]. split; try done. cbn. exists n. rewrite insert_default_lookup. destruct (decide _) as [E|]; [|done]. by rewrite E, Hg in Hn.
  - intros g'. rewrite insert_default_lookup. destruct (decide (g' = g)) as [->|]; [|done]. rewrite Hg. cbn. by rewrite do_last0, Hg.
Qed.

Lemma revision_of_ensured g d : revision_of g (ensured g d) = revision_of g d.
Proof. unfold revision_of. rewrite ensured_gateways, insert_default_lookup, decide_True by done. by destruct (policy_gateways d !! g). Qed.

(** ** A change of one policy *)

(** Write or delete the policy [id] of the gateway [g], raise the gateway's
    revision and log the change. *)
Definition commit_change (g id : string) (row : option PolicyRow) (act actor : string) (before : option string) (now : Z) (d : Database) : Database :=
  let r := revision_of g d + 1 in
  add_event (mkEvent g (Some id) act actor before (spec_json <$> row) r now) (raise g r (set_policies (partial_alter (λ _, row) id) d)).

Lemma commit_change_policies g id row act actor before now d i :
  traffic_policies (commit_change g id row act actor before now d) !! i = if decide (i = id) then row else traffic_policies d !! i.
Proof. cbn. destruct (decide (i = id)) as [->|]; [apply lookup_partial_alter_eq|by apply lookup_partial_alter_ne]. Qed.

Lemma elem_of_others ex l p : p ∈ others ex l ↔ p ∈ l ∧ ex ≠ Some (fst p).
Proof. unfold others. by rewrite elem_of_filterb, negb_true_iff, bool_decide_eq_false. Qed.

Lemma others_le ex l : zlen (others ex l) ≤ zlen l ∧ json_bytes (others ex l) ≤ json_bytes l.
Proof.
  induction l as [|p l IH]; [done|]. rewrite others_cons. destruct (bool_decide _); rewrite ?zlen_cons, ?json_bytes_cons; unfold str_len; lia.
Qed.

Lemma others_absent id g d : traffic_policies d !! id = None → others (Some id) (gateway_policies g d) = gateway_policies g d.
Proof.
  intros Hno. unfold others. rewrite forallb_filter_id; [done|]. apply forallb_forall. intros [i r] Hin%list_elem_of_In%elem_of_gateway_policies.
  apply negb_true_iff, bool_decide_eq_false. intros [= ->]. naive_solver.
Qed.

Lemma NoDup_others ex g d : NoDup (others ex (gateway_policies g d)).
Proof. unfold others. apply NoDup_ListNoDup, List.NoDup_filter, NoDup_ListNoDup, NoDup_gateway_policies. Qed.

Lemma sorted_snoc l x : StronglySorted Z.lt l → (∀ y, last l = Some y → y < x) → StronglySorted Z.lt (l ++ [x]).
Proof.
  induction l as [|a l IH]; [repeat constructor|]. intros [Hs Ha]%StronglySorted_inv Hx. cbn [app]. rewrite last_cons in Hx. constructor.
  - apply IH; [done|]. intros y Hy. apply Hx. by rewrite Hy.
  - apply Forall_app. split; [done|]. constructor; [|done]. destruct (last l) as [y|] eqn:Hy; [|by apply Hx].
    specialize (Hx y eq_refl). apply last_Some_elem_of in Hy. rewrite Forall_forall in Ha. specialize (Ha y Hy). lia.
Qed.

Section change.
Context (g id : string) (row : option PolicyRow) (act actor : string) (before : option string) (now : Z) (d : Database).
Hypothesis Hold : ∀ r, traffic_policies d !! id = Some r → row_gateway_id r = g.
Hypothesis Hnew : ∀ r, row = Some r → row_gateway_id r = g.
Let d' := commit_change g id row act actor before now d.

Lemma change_own : gateway_policies g d' ≡ₚ option_list ((λ r, (id, r)) <$> row) ++ others (Some id) (gateway_policies g d).
Proof.
  apply NoDup_Permutation; [apply NoDup_gateway_policies| |].
  - apply NoDup_app. split_and!; [destruct row; repeat constructor; set_solver| |apply NoDup_others].
    intros p Hp [_ Hne]%elem_of_others. destruct row as [r|]; [|set_solver]. apply list_elem_of_singleton in Hp as ->. by apply Hne.
  - intros [i r]. rewrite elem_of_app, elem_of_others, !elem_of_gateway_policies. unfold d'. rewrite commit_change_policies. destruct (decide (i = id)) as [->|Hi].
    + split; [intros [-> _]; left; by left|]. intros [Hin|[_ Hne]]; [|by destruct Hne]. destruct row as [r'|]; [|set_solver].
      apply list_elem_of_singleton in Hin as [= ->]. split; [done|]. by apply Hnew.
    + split; [intros Hr; right; split; [done|cbn; congruence]|]. intros [Hin|[Hr _]]; [|done]. destruct row; [|set_solver]. apply list_elem_of_singleton in Hin as [= ? ?]. done.
Qed.

Lemma change_other g' : g' ≠ g → gateway_policies g' d' ≡ₚ gateway_policies g' d.
Proof.
  intros Hg. apply NoDup_Permutation; [apply NoDup_gateway_policies..|]. intros [i r]. rewrite !elem_of_gateway_policies. unfold d'. rewrite commit_change_policies.
  destruct (decide (i = id)) as [->|]; [|done]. split; intros [Hr <-]; [by rewrite (Hnew _ Hr) in Hg|by rewrite (Hold _ Hr) in Hg].
Qed.

Lemma change_revisions g' : gateway_revisions g' (policy_events d') = gateway_revisions g' (policy_events d) ++ (if decide (g' = g) then [revision_of g d + 1] else []).
Proof.
  unfold gateway_revisions, d'. cbn [commit_change add_event policy_events raise set_deployments set_gateways set_policies]. rewrite List.filter_app, fmap_app. f_equal. cbn.
  destruct (decide (g' = g)) as [->|Hne]; [by rewrite String.eqb_refl|]. by rewrite (proj2 (String.eqb_neq g g')).
Qed.

Record new_row_ok (r : PolicyRow) : Prop := {
  nr_size : str_len (spec_json r) ≤ MAX_SPEC_BYTES;
  nr_version : 1 ≤ row_version r;
  nr_priority : 0 ≤ row_priority r ≤ 1000;
  nr_spec : row_agrees r;
  nr_count : zlen (others (Some id) (gateway_policies g d)) + 1 ≤ MAX_POLICY_COUNT;
  nr_bytes : json_bytes (others (Some id) (gateway_policies g d)) + str_len (spec_json r) ≤ MAX_GATEWAY_SPEC_BYTES;
  nr_overlap i r' s s' : i ≠ id → traffic_policies d !! i = Some r' → row_gateway_id r' = g →
    spec_from_json (spec_json r) = Ok s → spec_from_json (spec_json r') = Ok s' → application_limits_overlap s s' = false;
}.

Lemma change_limits : database_ok d → (∀ r, row = Some r → new_row_ok r) → ∀ g',
  zlen (gateway_policies g' d') ≤ MAX_POLICY_COUNT ∧ json_bytes (gateway_policies g' d') ≤ MAX_GATEWAY_SPEC_BYTES.
Proof.
  intros Hok Hrow g'. destruct (decide (g' = g)) as [->|Hne].
  - assert (zlen (gateway_policies g d') = zlen (option_list ((λ r, (id, r)) <$> row) ++ others (Some id) (gateway_policies g d))) as ->
      by (unfold zlen; by rewrite change_own). rewrite change_own. destruct row as [r|].
    + destruct (Hrow r eq_refl). change (option_list ((λ r, (id, r)) <$> Some r) ++ others (Some id) (gateway_policies g d)) with ((id, r) :: others (Some id) (gateway_policies g d)). rewrite zlen_cons, json_bytes_cons. cbn [snd]. lia.
    + change (option_list _ ++ others (Some id) (gateway_policies g d)) with (others (Some id) (gateway_policies g d)).
      destruct (others_le (Some id) (gateway_policies g d)). pose proof (do_count _ Hok g). pose proof (do_bytes _ Hok g). lia.
  - assert (zlen (gateway_policies g' d') = zlen (gateway_policies g' d)) as -> by (unfold zlen; by rewrite change_other).
    rewrite change_other by done. split; [by apply do_count|by apply do_bytes].
Qed.

Lemma change_overlap : database_ok d → (∀ r, row = Some r → new_row_ok r) → ∀ i i' r r' s s', i ≠ i' → traffic_policies d' !! i = Some r →
  traffic_policies d' !! i' = Some r' → spec_from_json (spec_json r) = Ok s → spec_from_json (spec_json r') = Ok s' → application_limits_overlap s s' = false.
Proof.
  intros Hok Hrow.
  assert (∀ i r r' s s', i ≠ id → traffic_policies d !! i = Some r' → row = Some r → spec_from_json (spec_json r) = Ok s → spec_from_json (spec_json r') = Ok s' →
    application_limits_overlap s s' = false) as Hnv.
  { intros i r r' s s' Hi Hr' Hr Hs Hs'. destruct (decide (row_gateway_id r' = g)) as [Hg|Hg]; [by eapply (nr_overlap _ (Hrow r Hr))|].
    apply application_limits_overlap_gateway. destruct (nr_spec _ (Hrow r Hr)) as (t & Ht & Hgt & _), (ro_spec _ _ (do_rows _ Hok _ _ Hr')) as (t' & Ht' & Hgt' & _).
    rewrite (Hnew r Hr) in Hgt. congruence. }
  intros i i' r r' s s' Hne. unfold d'. rewrite !commit_change_policies. destruct (decide (i = id)) as [->|Hi], (decide (i' = id)) as [->|Hi']; [done| | |].
  - intros Hr Hr' Hs Hs'. by eapply (Hnv i').
  - intros Hr Hr' Hs Hs'. rewrite application_limits_overlap_sym. by eapply (Hnv i).
  - by eapply (do_overlap _ Hok).
Qed.

Lemma change_audit : database_ok d → replay (policy_events d') = spec_json <$> traffic_policies d'.
Proof.
  intros Hok. unfold d'. cbn [commit_change add_event policy_events raise set_deployments set_gateways set_policies traffic_policies].
  unfold replay. rewrite foldl_app. cbn. fold (replay (policy_events d)). rewrite (do_audit _ Hok). apply map_eq. intros i.
  destruct (decide (i = id)) as [->|]; rewrite lookup_fmap; [by rewrite !lookup_partial_alter_eq|by rewrite !lookup_partial_alter_ne, lookup_fmap].
Qed.

Lemma change_ok r0 : database_ok d → policy_gateways d !! g = Some r0 → r0 < i64_max → (∀ r, row = Some r → new_row_ok r) → database_ok d'.
Proof.
  intros Hok Hg Hmax Hrow. destruct (do_revision _ Hok g r0 Hg) as (Hr0 & w0 & Hw0 & _).
  assert (revision_of g d = r0) as Hrev by (unfold revision_of; rewrite Hg; cbn; unfold to_u64; lia).
  pose proof (change_limits Hok Hrow) as Hlim. pose proof (change_overlap Hok Hrow) as Hov. pose proof (change_audit Hok) as Haud.
  split; try done; try apply Hlim; try exact Hov.
  - intros g' r'. unfold d'. cbn. rewrite Hrev. destruct (decide (g' = g)) as [->|].
    + rewrite lookup_insert_eq, lookup_alter_eq, Hw0. intros [= <-]. split; [lia|]. by eexists.
    + rewrite lookup_insert_ne, lookup_alter_ne by done. apply (do_revision _ Hok).
  - intros g'. unfold d'. cbn. destruct (decide (g' = g)) as [->|]; [by rewrite lookup_insert_eq|]. rewrite lookup_insert_ne, lookup_alter_ne by done. apply (do_deployment _ Hok).
  - intros i r. unfold d'. rewrite commit_change_policies. destruct (decide (i = id)) as [->|].
    + intros Hr. destruct (Hrow r Hr). split; try done. cbn. rewrite (Hnew r Hr), lookup_insert_eq. exists (revision_of g d + 1). split; [done|lia].
    + intros Hr. destruct (do_rows _ Hok _ _ Hr). split; try done. cbn. destruct (decide (row_gateway_id r = g)) as [->|]; [|by rewrite lookup_insert_ne].
      rewrite lookup_insert_eq. exists (revision_of g d + 1). split; [done|lia].
  - intros g'. rewrite change_revisions. destruct (decide (g' = g)) as [->|]; [|rewrite app_nil_r; apply (do_sorted _ Hok)].
    apply sorted_snoc; [apply (do_sorted _ Hok)|]. intros y Hy. pose proof (do_last _ Hok g) as Hl. rewrite Hy, Hg in Hl. cbn in Hl. lia.
  - intros g'. rewrite change_revisions. unfold d'. cbn. destruct (decide (g' = g)) as [->|].
    + rewrite last_snoc, lookup_insert_eq. done.
    + rewrite app_nil_r, lookup_insert_ne by done. apply (do_last _ Hok).
Qed.
End change.

(** ** The mutations *)

Ltac inv_steps :=
  inv_tx; repeat (match goal with
  | Hs : ensure_gateway _ _ = (_, Ok _) |- _ => apply ensure_gateway_Ok in Hs
  | Hs : check_revision _ _ _ = (_, Ok _) |- _ => apply check_revision_Ok in Hs as [? ?]
  | Hs : read_revision _ _ = (_, Ok _) |- _ => apply read_revision_Ok in Hs as [-> ?]
  | Hs : check_policy_overlap _ _ _ = (_, Ok _) |- _ => apply check_policy_overlap_Ok in Hs as [? ?]
  | Hs : check_resource_limits _ _ _ _ _ = (_, Ok _) |- _ => apply check_resource_limits_Ok in Hs as (? & ? & ? & ?)
  | Hs : require_record _ _ = (_, Ok _) |- _ => apply require_record_Ok in Hs as (? & ? & ? & ?)
  | Hs : serialized_spec _ = Ok _ |- _ => unfold serialized_spec in Hs; apply map_err_Ok in Hs
  end; inv_tx).

(** A change with the revision that the caller expected. *)
Record changed (g id : string) (expected : Z) (row : option PolicyRow) (act actor : string) (before : option string) (now : Z) (d d' : Database) : Prop := {
  ch_revision : revision_of g d = expected;
  ch_max : expected < i64_max;
  ch_db : d' = commit_change g id row act actor before now (ensured g d);
  ch_old : ∀ r, traffic_policies d !! id = Some r → row_gateway_id r = g;
  ch_new : ∀ r, row = Some r → row_gateway_id r = g ∧ new_row_ok g id (ensured g d) r;
}.

Lemma changed_ok g id expected row act actor before now d d' : database_ok d → changed g id expected row act actor before now d d' → database_ok d'.
Proof.
  intros Hok [Hrev Hmax -> Hold Hnew]. pose proof (ensured_ok g d Hok) as Hok'.
  assert (∃ r0, policy_gateways (ensured g d) !! g = Some r0) as [r0 Hr0] by (rewrite ensured_gateways, insert_default_lookup, decide_True by done; eauto).
  eapply change_ok; [done|by intros r Hr; apply Hnew|done|exact Hr0| |by intros r Hr; apply Hnew].
  destruct (do_revision _ Hok' g r0 Hr0) as [Hb _]. rewrite <- revision_of_ensured in Hrev. unfold revision_of in Hrev. rewrite Hr0 in Hrev. cbn in Hrev. unfold to_u64 in Hrev. lia.
Qed.

Context `{!SpecJsonLaws}.

Lemma commit_steps g id row act actor before now d s1 s2 s3 r u : database_ok d → is_Some (policy_gateways d !! g) →
  db s1 = set_policies (partial_alter (λ _, row) id) d → bump_revision g s1 = (s2, Ok r) →
  insert_event g id act actor before (spec_json <$> row) r now s2 = (s3, Ok u) →
  db s3 = commit_change g id row act actor before now d ∧ revision_of g d < i64_max ∧ r = revision_of g d + 1.
Proof.
  intros Hok [r0 Hr0] Hd1 Hb He. destruct (do_revision _ Hok g r0 Hr0) as [Hr0b _].
  assert (revision_of g d = r0) as Hrev by (unfold revision_of; rewrite Hr0; cbn; unfold to_u64; lia).
  destruct (bump_revision_Ok g r0 s1 s2 r) as (-> & Hle & Hd2); [by rewrite Hd1|lia|done|]. apply insert_event_Ok in He; [|done].
  rewrite He, Hd2, Hd1. unfold commit_change. rewrite Hrev. split; [done|lia].
Qed.

(** The document of a new row says what the row says. *)
Lemma written_agrees s j t r : spec_to_json s = Ok j → spec_from_json j = Ok t → spec_json r = j → row_gateway_id r = spec_gateway_id s → row_name r = name s →
  row_enabled r = enabled s → row_priority r = priority s → row_agrees r.
Proof.
  intros Hj Ht E1 E2 E3 E4 E5. unfold row_agrees. rewrite E1, E2, E3, E4, E5. pose proof (spec_json_fields s j t Hj Ht) as Hsame. exists t. split; [done|]. unfold same_policy, without_confidence, set_selectors in Hsame. by injection Hsame.
Qed.

Lemma create_changed uuid now s actor expected sv sv' m : database_ok (db sv) → create uuid now s actor expected sv = (sv', Ok m) →
  ∃ row, changed (spec_gateway_id s) uuid expected (Some row) "create" actor None now (db sv) (db sv') ∧ spec_to_json s = Ok (spec_json row) ∧
    mut_changed m = true ∧ mut_revision m = expected + 1.
Proof.
  intros Hok. unfold create. intros Hs. inv_steps. set (g := spec_gateway_id s) in *. pose proof (ensured_ok g _ Hok) as Hok'.
  match goal with Hj : spec_to_json s = Ok ?j |- _ => rename j into js end. chain.
  match goal with Hi : insert_policy _ ?row _ = Ok _ |- _ => set (r := row) in *; unfold insert_policy in Hi; destruct (_ || _)%bool eqn:Hb in Hi; [discriminate Hi|];
    injection Hi as Hi; symmetry in Hi; rename Hi into Hins end.
  apply orb_false_iff in Hb as [[Hno Hgw]%orb_false_iff Hpr]. apply bool_decide_eq_false in Hno, Hgw. apply negb_false_iff in Hpr.
  match goal with Hp : bump_revision _ _ = _, He : insert_event _ _ _ _ _ _ _ _ _ = _ |- _ =>
    destruct (commit_steps g uuid (Some r) "create" actor None now (ensured g (db sv)) _ _ _ _ _ Hok' ltac:(by apply not_eq_None_Some) Hins Hp He) as (Hd & Hmax & ->) end.
  exists r. split; [|split; [done|]; split; [done|]; cbn; congruence].
  match goal with Ht : ∃ t, spec_from_json js = Ok t |- _ => destruct Ht as [t Ht] end.
  match goal with Hz : check_one_spec_size _ = _ |- _ => unfold check_one_spec_size in Hz; destruct (Z.ltb_spec MAX_SPEC_BYTES (str_len js)) as [|Hsize]; [discriminate Hz|] end.
  assert (others None (gateway_policies g (ensured g (db sv))) = others (Some uuid) (gateway_policies g (ensured g (db sv)))) as Hoth.
  { rewrite others_absent by by apply eq_None_not_Some. unfold others. apply forallb_filter_id. by apply forallb_forall. }
  rewrite Hoth in *. split; [by rewrite <- revision_of_ensured|congruence|done| |].
  - intros r' Hr'. destruct Hno. change (traffic_policies (ensured g (db sv))) with (traffic_policies (db sv)). eauto.
  - intros r' [= <-]. split; [done|]. split; cbn; try done; try lia.
    + change (in_range 0 1000 (priority s) = true) in Hpr. unfold in_range in Hpr. lia.
    + by eapply (written_agrees s js t).
    + intros i r' s1 s2 Hi Hr' Hg Hs1 Hs2.
      match goal with Hov : ∀ _ _, _ → _ → _ → ∃ _, _ |- _ => destruct (Hov i r' Hr' Hg ltac:(done)) as (t' & Ht' & Hf) end.
      rewrite <- Hf. apply same_policy_overlap; [|congruence]. symmetry. assert (s1 = t) as -> by congruence. by eapply spec_json_fields.
Qed.

(** A stored policy belongs to the gateway that its document names, which exists. *)
Lemma stored_policy id r c d : database_ok d → traffic_policies d !! id = Some r → map_record id r = Ok c →
  spec_gateway_id (rec_spec c) = row_gateway_id r ∧ rec_version c = row_version r ∧ spec_from_json (spec_json r) = Ok (rec_spec c) ∧
  is_Some (policy_gateways d !! row_gateway_id r) ∧ ensured (row_gateway_id r) d = d.
Proof.
  intros Hok Hr (Hs & _ & Hv)%map_record_Ok. destruct (do_rows _ Hok id r Hr) as [(g0 & Hg & _) _ Hver _ (t & Ht & Hgt & _)].
  assert (t = rec_spec c) as -> by congruence. split_and!; try done; [rewrite Hv; unfold to_u64; lia|].
  destruct (do_revision _ Hok _ _ Hg) as (_ & w & Hw & _). apply ensured_id; eauto.
Qed.

(** The rest of the policies have no limit in common with the new document. *)
Lemma new_document_overlap s js t g id d : spec_to_json s = Ok js → spec_from_json js = Ok t →
  (∀ i r, traffic_policies d !! i = Some r → row_gateway_id r = g → Some id ≠ Some i → ∃ u, spec_from_json (spec_json r) = Ok u ∧ application_limits_overlap s u = false) →
  ∀ i r s1 s2, i ≠ id → traffic_policies d !! i = Some r → row_gateway_id r = g → spec_from_json js = Ok s1 → spec_from_json (spec_json r) = Ok s2 →
    application_limits_overlap s1 s2 = false.
Proof.
  intros Hj Ht Hov i r s1 s2 Hi Hr Hg Hs1 Hs2. destruct (Hov i r Hr Hg) as (u & Hu & Hf); [congruence|]. rewrite <- Hf.
  apply same_policy_overlap; [|congruence]. symmetry. assert (s1 = t) as -> by congruence. by eapply spec_json_fields.
Qed.

(** The steps that write a policy again. *)
Lemma rewrite_changed id r f act actor before expected now d s1 s2 s3 rev u : database_ok d → traffic_policies d !! id = Some r →
  let g := row_gateway_id r in row_gateway_id (f r) = g → revision_of g d = expected → update_policy id f d = Ok (db s1) → bump_revision g s1 = (s2, Ok rev) →
  insert_event g id act actor before (Some (spec_json (f r))) rev now s2 = (s3, Ok u) → (0 ≤ row_priority (f r) ≤ 1000 → new_row_ok g id d (f r)) →
  changed g id expected (Some (f r)) act actor before now d (db s3) ∧ rev = expected + 1.
Proof.
  intros Hok Hr g Hg Hrev Hup Hb He Hnew. destruct (do_rows _ Hok id r Hr) as [(g0 & Hg0 & _) _ _ _ _].
  assert (ensured g d = d) as Hen by (destruct (do_revision _ Hok _ _ Hg0) as (_ & w & Hw & _); apply ensured_id; eauto).
  unfold update_policy in Hup. rewrite Hr in Hup. destruct (negb _) eqn:Hp in Hup; [discriminate Hup|]. injection Hup as Hup. symmetry in Hup.
  apply negb_false_iff in Hp. unfold in_range in Hp.
  destruct (commit_steps g id (Some (f r)) act actor before now d s1 s2 s3 rev u) as (-> & Hmax & ->); try done.
  split; [|congruence]. split; rewrite ?Hen; try done; [lia| |].
  - intros r' Hr'. assert (r' = r) as -> by congruence. done.
  - intros r' [= <-]. split; [done|]. apply Hnew. lia.
Qed.

Lemma update_changed now id s actor expected version sv sv' m : database_ok (db sv) → update now id s actor expected version sv = (sv', Ok m) →
  (mut_changed m = false ∧ db sv' = db sv ∧ ∃ r, traffic_policies (db sv) !! id = Some r ∧ revision_of (row_gateway_id r) (db sv) = expected) ∨
  ∃ r before row, traffic_policies (db sv) !! id = Some r ∧ row_version r = version ∧ row_version row = version + 1 ∧ spec_to_json s = Ok (spec_json row) ∧
    changed (row_gateway_id r) id expected (Some row) "update" actor before now (db sv) (db sv') ∧ mut_changed m = true ∧ mut_revision m = expected + 1.
Proof.
  intros Hok. unfold update. intros Hs. inv_steps.
  match goal with Hm : map_record _ ?r0 = Ok ?c0, Hr0 : traffic_policies _ !! _ = Some ?r0 |- _ => rename c0 into c; rename r0 into r; rename Hr0 into Hr; rename Hm into Hc end.
  match goal with Hj : spec_to_json s = Ok ?j |- _ => rename j into js; rename Hj into Hjs end. chain.
  destruct (stored_policy id r c _ Hok Hr Hc) as (Hg & Hv & Hsp & Hgw & Hen). rewrite Hg, Hv in *.
  match goal with Hi : (if negb (String.eqb _ _) then _ else _) = _ |- _ => destruct (String.eqb_spec (spec_gateway_id s) (row_gateway_id r)) as [Hgs|]; [clear Hi|discriminate Hi] end.
  destruct (Z.eqb_spec (row_version r) version) as [Hver|]; cbn [negb] in Hs; [|by inv_steps].
  apply stM_bind_Ok in Hs as (t0 & before & Hbe & Hs). inv_steps. destruct (String.eqb js before); inv_steps; [left; split; [done|]; split; [congruence|by exists r]|]. right. chain.
  match goal with Hu : update_policy _ ?f0 _ = Ok _ |- _ => set (f := f0) in *; rename Hu into Hup end.
  match goal with Ht : ∃ t, spec_from_json js = Ok t |- _ => destruct Ht as [t Ht] end.
  match goal with Hz : check_one_spec_size _ = _ |- _ => unfold check_one_spec_size in Hz; destruct (Z.ltb_spec MAX_SPEC_BYTES (str_len js)) as [|Hsize]; [discriminate Hz|] end.
  match goal with Hp : bump_revision _ _ = _, He : insert_event _ _ _ _ _ _ _ _ _ = _ |- _ =>
    destruct (rewrite_changed id r f "update" actor (Some before) expected now (db sv) _ _ _ _ _ Hok Hr eq_refl ltac:(done) Hup Hp He) as [Hch ->] end.
  - intros Hpr. split; cbn; try done; [destruct (do_rows _ Hok id r Hr); lia|by eapply (written_agrees s js t)|].
    eapply new_document_overlap; try done. rewrite <- Hgs. done.
  - exists r, (Some before), (f r). split_and!; try done. cbn. lia.
Qed.

Lemma same_policy_refl s : same_policy s s.
Proof. done. Qed.

Lemma set_enabled_overlap b s t : application_limits_overlap (set_spec_enabled b s) t = application_limits_overlap s t.
Proof. done. Qed.

Lemma set_enabled_changed now id on actor expected version sv sv' m : database_ok (db sv) → set_enabled now id on actor expected version sv = (sv', Ok m) →
  (mut_changed m = false ∧ db sv' = db sv ∧ ∃ r, traffic_policies (db sv) !! id = Some r ∧ revision_of (row_gateway_id r) (db sv) = expected) ∨
  ∃ r act before row, traffic_policies (db sv) !! id = Some r ∧ row_version r = version ∧ row_version row = version + 1 ∧ row_enabled row = on ∧
    (∃ s, spec_from_json (spec_json r) = Ok s ∧ spec_to_json (set_spec_enabled on s) = Ok (spec_json row)) ∧
    changed (row_gateway_id r) id expected (Some row) act actor before now (db sv) (db sv') ∧ mut_changed m = true ∧ mut_revision m = expected + 1.
Proof.
  intros Hok. unfold set_enabled. intros Hs. inv_steps.
  match goal with Hm : map_record _ ?r0 = Ok ?c0, Hr0 : traffic_policies _ !! _ = Some ?r0 |- _ => rename c0 into c; rename r0 into r; rename Hr0 into Hr; rename Hm into Hc end.
  chain. destruct (stored_policy id r c _ Hok Hr Hc) as (Hg & Hv & Hsp & Hgw & Hen). rewrite Hg, Hv in *.
  destruct (Z.eqb_spec (row_version r) version) as [Hver|]; cbn [negb] in Hs; [|by inv_steps].
  destruct (Bool.eqb (enabled (rec_spec c)) on) eqn:Hen2; inv_steps; [left; split; [done|]; split; [congruence|by exists r]|]. right. chain.
  match goal with Hj : spec_to_json (set_spec_enabled on (rec_spec c)) = Ok ?j |- _ => rename j into js; rename Hj into Hjs end.
  match goal with Hu : update_policy _ ?f0 _ = Ok _ |- _ => set (f := f0) in *; rename Hu into Hup end.
  match goal with Ht : ∃ t, spec_from_json js = Ok t |- _ => destruct Ht as [t Ht] end.
  match goal with Hz : check_one_spec_size _ = _ |- _ => unfold check_one_spec_size in Hz; destruct (Z.ltb_spec MAX_SPEC_BYTES (str_len js)) as [|Hsize]; [discriminate Hz|] end.
  match goal with Hp : bump_revision _ _ = _, He : insert_event _ _ ?act _ ?be _ _ _ _ = _ |- _ =>
    destruct (rewrite_changed id r f act actor be expected now (db sv) _ _ _ _ _ Hok Hr eq_refl ltac:(done) Hup Hp He) as [Hch ->]; [|exists r, act, be, (f r); split_and!; try done; [cbn; lia|by exists (rec_spec c)]] end.
  destruct (do_rows _ Hok id r Hr) as [_ _ Hver1 _ (t0 & Ht0 & Hg0 & Hn0 & He0 & Hp0)]. assert (t0 = rec_spec c) as -> by congruence.
  intros Hpr. split; cbn; try done; [lia|by eapply (written_agrees (set_spec_enabled on (rec_spec c)) js t)|].
  eapply (new_document_overlap (set_spec_enabled on (rec_spec c))); try done. intros i r' Hr' Hg' Hi. destruct (do_rows _ Hok i r' Hr') as [_ _ _ _ (u & Hu & _)].
  exists u. split; [done|]. rewrite set_enabled_overlap. eapply (do_overlap _ Hok id i); try done. congruence.
Qed.

Lemma delete_changed now id actor expected sv sv' m : database_ok (db sv) → delete now id actor expected sv = (sv', Ok m) →
  ∃ r before, traffic_policies (db sv) !! id = Some r ∧ changed (row_gateway_id r) id expected None "delete" actor before now (db sv) (db sv') ∧
    mut_changed m = true ∧ mut_revision m = expected + 1.
Proof.
  intros Hok. unfold delete. intros Hs. inv_steps.
  match goal with Hm : map_record _ ?r0 = Ok ?c0, Hr0 : traffic_policies _ !! _ = Some ?r0 |- _ => rename c0 into c; rename r0 into r; rename Hr0 into Hr; rename Hm into Hc end.
  chain. destruct (stored_policy id r c _ Hok Hr Hc) as (Hg & _ & _ & Hgw & Hen). rewrite Hg in *.
  match goal with Hd : Ok _ = Ok _ |- _ => injection Hd as Hd; symmetry in Hd; rename Hd into Hdel end.
  match goal with Hp : bump_revision _ _ = _, He : insert_event _ _ _ _ ?be _ _ _ _ = _ |- _ =>
    destruct (commit_steps (row_gateway_id r) id None "delete" actor be now (db sv) _ _ _ _ _ Hok Hgw Hdel Hp He) as (-> & Hmax & ->); exists r, be end.
  split_and!; try done; [|cbn; congruence]. split; rewrite ?Hen; try done; [congruence|]. intros r' Hr'. by assert (r' = r) as -> by congruence.
Qed.

(** [republish] raises the revision above what the agent has applied. *)
Definition republished (g actor : string) (now r : Z) (d : Database) : Database := add_event (mkEvent g None "republish" actor None None r now) (raise g r d).

Lemma republish_Ok now g actor sv sv' r : database_ok (db sv) → republish now g actor sv = (sv', Ok r) →
  db sv' = republished g actor now r (ensured g (db sv)) ∧ revision_of g (db sv) < r ≤ MAX_SAFE_JSON_INTEGER.
Proof.
  intros Hok. unfold republish. intros Hs. inv_steps. chain. rewrite revision_of_ensured in *. set (d := ensured g (db sv)) in *.
  match goal with Hq : ok_or _ _ = Ok ?x |- _ => apply ok_or_Ok in Hq; rename x into w; rename Hq into Hw end.
  set (next := u64_saturating_add _ 1) in *. match goal with Hi : (if _ <? next then _ else _) = _ |- _ => destruct (Z.ltb_spec MAX_SAFE_JSON_INTEGER next) as [|Hmax]; [discriminate Hi|clear Hi] end.
  assert (∃ r0, policy_gateways d !! g = Some r0) as [r0 Hr0] by (unfold d; rewrite ensured_gateways, insert_default_lookup, decide_True by done; eauto).
  clearbody d. assert (to_i64 next = next) as Hn by (unfold to_i64, MAX_SAFE_JSON_INTEGER, i64_max in *; lia). rewrite Hn in *.
  match goal with Hg : Ok (set_gateways _ _) = _, He : Ok (add_event _ _) = _, Hu : update_deployment _ _ _ _ = _ |- _ =>
    injection Hg as Hg; injection He as He; apply update_deployment_Ok in Hu; rewrite <- Hg in Hu; rewrite <- He; destruct Hu as [(w' & Hw' & _ & _ & Hd)|[Hno _]]; [|by specialize (Hno w Hw)] end.
  split.
  - rewrite Hd. unfold republished, raise. f_equal. rewrite (set_deployments_insert _ _ _ _ Hw'). unfold set_deployments, set_gateways. cbn. f_equal; apply map_eq; intros i.
    + destruct (decide (i = g)) as [->|]; [by rewrite lookup_alter_eq, lookup_insert_eq, Hr0|by rewrite lookup_alter_ne, lookup_insert_ne].
    + cbn in Hw'. destruct (decide (i = g)) as [->|]; [by rewrite !lookup_alter_eq, Hw'|by rewrite !lookup_alter_ne].
  - split; [|done]. unfold next, u64_saturating_add, u64_max in *. unfold MAX_SAFE_JSON_INTEGER in Hmax. lia.
Qed.

Lemma republished_ok g actor now r d : database_ok d → is_Some (policy_gateways d !! g) → revision_of g d < r ≤ MAX_SAFE_JSON_INTEGER →
  database_ok (republished g actor now r d).
Proof.
  intros Hok [r0 Hr0] Hr. destruct (do_revision _ Hok g r0 Hr0) as (Hb & w & Hw & _). unfold revision_of in Hr. rewrite Hr0 in Hr. cbn in Hr. unfold to_u64 in Hr.
  assert (∀ g', gateway_revisions g' (policy_events (republished g actor now r d)) = gateway_revisions g' (policy_events d) ++ if decide (g' = g) then [r] else []) as Hev.
  { intros g'. unfold gateway_revisions. cbn [republished add_event policy_events raise set_deployments set_gateways]. rewrite List.filter_app, fmap_app. f_equal. cbn.
    destruct (decide (g' = g)) as [->|Hne]; [by rewrite String.eqb_refl|]. by rewrite (proj2 (String.eqb_neq g g')). }
  pose proof (do_last _ Hok g) as Hlast. rewrite Hr0 in Hlast. cbn in Hlast.
  split; try apply Hok.
  - intros g' r'. cbn. destruct (decide (g' = g)) as [->|].
    + rewrite lookup_insert_eq, lookup_alter_eq, Hw. intros [= <-]. split; [|by eexists]. unfold MAX_SAFE_JSON_INTEGER, i64_max in *. lia.
    + rewrite lookup_insert_ne, lookup_alter_ne by done. apply (do_revision _ Hok).
  - intros g'. cbn. destruct (decide (g' = g)) as [->|]; [by rewrite lookup_insert_eq|]. rewrite lookup_insert_ne, lookup_alter_ne by done. apply (do_deployment _ Hok).
  - intros i r' Hr'. destruct (do_rows _ Hok i r' Hr'). split; try done. cbn. destruct (decide (row_gateway_id r' = g)) as [->|]; [|by rewrite lookup_insert_ne].
    rewrite lookup_insert_eq. exists r. split; [done|lia].
  - unfold replay. cbn. rewrite foldl_app. apply (do_audit _ Hok).
  - intros g'. rewrite Hev. destruct (decide (g' = g)) as [->|]; [|rewrite app_nil_r; apply (do_sorted _ Hok)].
    apply sorted_snoc; [apply (do_sorted _ Hok)|]. intros y Hy. rewrite Hy in Hlast. cbn in Hlast. lia.
  - intros g'. rewrite Hev. cbn. destruct (decide (g' = g)) as [->|]; [by rewrite last_snoc, lookup_insert_eq|]. rewrite app_nil_r, lookup_insert_ne by done. apply (do_last _ Hok).
Qed.
End policies_proofs.
