(* ===== verification/Sessions.v ===== *)
(** Agent sessions and their reports in the policy database of the collector
    (src/crates/collector/src/policy/service.rs): which session owns the deployment
    of a gateway, what deliveries, health reports, acknowledgements and metrics
    write, what is shown of a policy's execution, and all operations together
    over any history of calls and failing statements.  The handlers that create and
    change policies (src/crates/collector/src/policy/api.rs) admit them first. *)

From S2P Require Import Prelude PolicyWire Compiler Evaluator Admission Triples Database.

(** [serde_json] on reports, and SQLite's functions on the stored text. *)
Class ReportJson := {
  capabilities_to_json : PolicyCapabilities → result string string;
  capabilities_from_json : string → option PolicyCapabilities;
  results_to_json : list PolicyResult → result string string;
  results_from_json : string → option (list PolicyResult);
  without_client_total : string → string;
  enforced_ids : string → gset string;
}.

Record SessionIdentity := mkSession { connection_epoch : string; connection_id : Z }.

Inductive SessionWrite := WriteApplied | Superseded.
#[export] Instance SessionWrite_eq_dec : EqDecision SessionWrite.
Proof. solve_decision. Defined.

Definition session_write (affected_rows : Z) : SessionWrite := if affected_rows =? 0 then Superseded else WriteApplied.

(** [agent_connection_epoch = ?e AND agent_connection_id = ?i] in SQL. *)
Definition owned_by (s : SessionIdentity) (r : DeploymentRow) : bool :=
  (bool_decide (dep_agent_connection_epoch r = Some (connection_epoch s)) && (dep_agent_connection_id r =? to_i64 (connection_id s)))%bool.

(** The same in Rust, on the row that was read. *)
Definition row_owned_by (s : SessionIdentity) (r : DeploymentRow) : bool :=
  (bool_decide (dep_agent_connection_epoch r = Some (connection_epoch s)) && (to_u64 (dep_agent_connection_id r) =? connection_id s))%bool.

Definition deployment_row (gateway_id : string) : Tx DeploymentRow :=
  query (λ d, ok_or (policy_deployments d !! gateway_id) "Query returned no rows").

(** ** Connections and deliveries *)

Section sessions.
Context `{ReportJson}.

Definition connect_row (epoch : string) (i : Z) (r : DeploymentRow) : DeploymentRow :=
  mkDeployment (dep_desired_revision r) (dep_applied_revision r) (if dep_reported_revision r <? dep_desired_revision r then "pending" else dep_status r)
    (dep_last_error_code r) (dep_last_error_message r) (dep_last_reported_at_ms r) (dep_last_heartbeat_at_ms r) true (dep_agent_boot_id r) (Some epoch) i
    (dep_controller_epoch r) (dep_bundle_generation r) (dep_bundle_checksum r) (dep_reported_revision r) (dep_agent_applied_revision r)
    (if (negb (bool_decide (dep_agent_connection_epoch r = Some epoch)) || negb (dep_agent_connection_id r =? i))%bool
     then without_client_total <$> dep_capabilities_json r else dep_capabilities_json r)
    (dep_policy_results_json r) 0 None (dep_acknowledged_status r).

Definition mark_agent_connected (gateway_id connection_epoch : string) (connection_id : Z) : Tx SessionWrite :=
  transaction (
    _ ← ensure_gateway gateway_id;
    updated ← update_deployment gateway_id
      (λ r, negb (bool_decide (dep_agent_connection_epoch r = Some connection_epoch)) || (dep_agent_connection_id r <=? to_i64 connection_id))%bool
      (connect_row connection_epoch (to_i64 connection_id));
    mret (session_write updated)).

Definition deliver_row (revision at_ms : Z) (r : DeploymentRow) : DeploymentRow :=
  mkDeployment (dep_desired_revision r) (dep_applied_revision r) (dep_status r) (dep_last_error_code r) (dep_last_error_message r)
    (dep_last_reported_at_ms r) (dep_last_heartbeat_at_ms r) (dep_agent_connected r) (dep_agent_boot_id r) (dep_agent_connection_epoch r)
    (dep_agent_connection_id r) (dep_controller_epoch r) (dep_bundle_generation r) (dep_bundle_checksum r) (dep_reported_revision r)
    (dep_agent_applied_revision r) (dep_capabilities_json r) (dep_policy_results_json r) revision (Some at_ms) (dep_acknowledged_status r).

Definition record_delivery (gateway_id : string) (session : SessionIdentity) (revision delivered_at_ms : Z) : Tx SessionWrite :=
  transaction (
    _ ← ensure_gateway gateway_id;
    updated ← update_deployment gateway_id (λ r, owned_by session r && (dep_delivered_revision r <=? to_i64 revision))%bool
      (deliver_row (to_i64 revision) delivered_at_ms);
    mret (session_write updated)).

Definition disconnect_row (r : DeploymentRow) : DeploymentRow :=
  mkDeployment (dep_desired_revision r) (dep_applied_revision r) (if dep_desired_revision r =? 0 then "not_deployed" else "offline")
    (dep_last_error_code r) (dep_last_error_message r) (dep_last_reported_at_ms r) (dep_last_heartbeat_at_ms r) false (dep_agent_boot_id r)
    (dep_agent_connection_epoch r) (dep_agent_connection_id r) (dep_controller_epoch r) (dep_bundle_generation r) (dep_bundle_checksum r)
    (dep_reported_revision r) (dep_agent_applied_revision r) (dep_capabilities_json r) (dep_policy_results_json r) (dep_delivered_revision r)
    (dep_delivered_at_ms r) (dep_acknowledged_status r).

(** A single statement, which commits itself. *)
Definition mark_agent_disconnected (gateway_id : string) (session : SessionIdentity) : Tx unit :=
  _ ← update_deployment gateway_id (owned_by session) disconnect_row; mret tt.

(** ** Health reports *)

Definition health_error (rollback emergency_disabled : bool) : option (string * string) :=
  if rollback then
    Some ("revision_rollback_detected",
          "agent has a persisted policy revision newer than the Collector database; explicitly republish policies")
  else if emergency_disabled then Some ("emergency_disabled", "policies are locally disabled by the emergency marker")
  else None.

Definition health_row (boot_id controller_epoch : string) (agent_revision : Z) (capabilities : string) (at_ms : Z) (error : option (string * string))
    (r : DeploymentRow) : DeploymentRow :=
  let same_epoch := bool_decide (dep_controller_epoch r = Some controller_epoch) in
  let same_boot := bool_decide (dep_agent_boot_id r = Some boot_id) in
  let fresh := (negb same_epoch || negb same_boot)%bool in
  mkDeployment (dep_desired_revision r) (dep_applied_revision r)
    (if bool_decide (is_Some error) then "failed"
     else if (fresh && (0 <? dep_desired_revision r))%bool then "pending"
     else if dep_reported_revision r <? dep_desired_revision r then "pending" else dep_status r)
    (fst <$> error) (snd <$> error) (dep_last_reported_at_ms r) (Some at_ms) true (Some boot_id) (dep_agent_connection_epoch r) (dep_agent_connection_id r)
    (Some controller_epoch) (if same_epoch then dep_bundle_generation r else 0) (if same_epoch then dep_bundle_checksum r else None)
    (if fresh then 0 else dep_reported_revision r) (Z.max (dep_agent_applied_revision r) agent_revision)
    (if (same_epoch && same_boot && (agent_revision <? dep_reported_revision r))%bool then dep_capabilities_json r else Some capabilities)
    (dep_policy_results_json r) (dep_delivered_revision r) (dep_delivered_at_ms r) (if fresh then None else dep_acknowledged_status r).

Definition record_health (gateway_id : string) (session : SessionIdentity) (boot_id controller_epoch : string) (agent_revision : Z)
    (capabilities : PolicyCapabilities) (emergency_disabled : bool) (reported_at_ms : Z) : Tx SessionWrite :=
  transaction (
    _ ← ensure_gateway gateway_id;
    desired_revision ← read_revision gateway_id;
    capabilities_json ← lift (map_err StoreFailure (capabilities_to_json capabilities));
    updated ← update_deployment gateway_id (owned_by session)
      (health_row boot_id controller_epoch (to_i64 agent_revision) capabilities_json reported_at_ms
         (health_error (desired_revision <? agent_revision) emergency_disabled));
    mret (session_write updated)).

(** ** Acknowledgements *)

Definition ack_status_text (s : PolicyAckStatus) : string :=
  match s with PApplied => "applied" | PPartial => "partial" | PFailed => "failed" | PUnsupported => "unsupported" end.

Definition status_text (s : PolicyAckStatus) (current : bool) : string :=
  match s with PApplied => if current then "applied" else "pending" | _ => ack_status_text s end.

(** The first failed result that has a reason. *)
Definition failed_result (results : list PolicyResult) : option PolicyResult :=
  List.find (λ r, bool_decide (is_Some (reason_code r)) && match status r with Failed => true | _ => false end)%bool results.

Record AckReport := mkAckReport {
  a_boot_id : string;
  a_controller_epoch : string;
  a_config_revision : Z;
  a_bundle_generation : Z;
  a_checksum : string;
  a_status : PolicyAckStatus;
  a_capabilities : PolicyCapabilities;
  a_results : list PolicyResult;
  a_reported_at_ms : Z;
}.

Definition is_enforcing (s : PolicyAckStatus) : bool := match s with PApplied | PPartial => true | _ => false end.

Definition ack_row (a : AckReport) (results capabilities : string) (current : bool) (r : DeploymentRow) : DeploymentRow :=
  let revision := to_i64 (a_config_revision a) in
  let error := failed_result (a_results a) in
  mkDeployment (dep_desired_revision r)
    (if (match a_status a with PApplied => true | _ => false end && (dep_applied_revision r <=? revision))%bool then revision else dep_applied_revision r)
    (status_text (a_status a) current) (error ≫= reason_code) (error ≫= PolicyWire.message) (Some (a_reported_at_ms a)) (Some (a_reported_at_ms a)) true
    (Some (a_boot_id a)) (dep_agent_connection_epoch r) (dep_agent_connection_id r) (Some (a_controller_epoch a)) (to_i64 (a_bundle_generation a))
    (Some (a_checksum a)) revision (if is_enforcing (a_status a) then Z.max (dep_agent_applied_revision r) revision else dep_agent_applied_revision r)
    (Some capabilities) results (dep_delivered_revision r) (dep_delivered_at_ms r) (Some (ack_status_text (a_status a))).

(** The acknowledgement is of a replaced session, or older than what is recorded. *)
Definition is_stale (session : SessionIdentity) (a : AckReport) (r : DeploymentRow) : bool :=
  (negb (row_owned_by session r) || (a_config_revision a <? to_u64 (dep_agent_applied_revision r))
   || (bool_decide (dep_controller_epoch r = Some (a_controller_epoch a)) && (a_bundle_generation a <? to_u64 (dep_bundle_generation r))))%bool.

(** DELETE of the metrics of policies that are not enforced. *)
Definition drop_unenforced (gateway_id results : string) (d : Database) : Database :=
  set_metrics (filter (λ p, fst (fst (fst p)) = gateway_id → snd (fst (fst p)) ∈ enforced_ids results)) d.

Definition record_ack (gateway_id : string) (session : SessionIdentity) (a : AckReport) : Tx SessionWrite :=
  transaction (
    _ ← ensure_gateway gateway_id;
    desired_revision ← read_revision gateway_id;
    row ← deployment_row gateway_id;
    if is_stale session a row then mret Superseded
    else
      results ← lift (map_err StoreFailure (results_to_json (a_results a)));
      capabilities ← lift (map_err StoreFailure (capabilities_to_json (a_capabilities a)));
      updated ← update_deployment gateway_id (owned_by session) (ack_row a results capabilities (a_config_revision a =? desired_revision));
      if updated =? 0 then mret Superseded
      else
        _ ← (if is_enforcing (a_status a) then execute (λ d, Ok (drop_unenforced gateway_id results d)) else mret tt);
        mret (session_write updated)).

(** ** Metrics *)

Definition sql_count (v : option Z) : option Z := v ← v; if i64_max <? v then None else Some v.
Definition sql_direction (m : PolicyDirectionMetrics) : PolicyDirectionMetrics :=
  mkDirectionMetrics (interface m) (sql_count (metric_bytes m)) (sql_count (metric_packets m)) (sql_count (metric_drops m)) (sql_count (metric_overlimits m)).

(** INSERT .. ON CONFLICT DO UPDATE .. WHERE the new sample is not older; the table
    checks the length of the MAC address and the sign of the time. *)
Definition upsert_metric (gateway_id : string) (sampled_at_ms : Z) (m : PolicyClientMetrics) (d : Database) : result string Database :=
  let key := (gateway_id, metric_policy_id m, metric_mac m) in
  if (negb (zlen (str_chars (metric_mac m)) =? 17) || (sampled_at_ms <? 0))%bool then Err "constraint failed"
  else if match policy_client_metrics d !! key with Some old => sampled_at_ms <? row_sampled_at_ms old | None => false end then Ok d
  else Ok (set_metrics (insert key (mkMetricRow (sql_direction <$> upload m) (sql_direction <$> download m) sampled_at_ms)) d).

Definition prune_metrics (gateway_id : string) (cutoff_ms : Z) (d : Database) : Database :=
  set_metrics (filter (λ p, fst (fst (fst p)) = gateway_id → cutoff_ms ≤ row_sampled_at_ms (snd p))) d.

(** The last prune was a minute ago; it is noted even if the transaction fails. *)
Definition prune_due (gateway_id : string) (now : Z) : Tx bool := λ s,
  let due := match last_metrics_prune_ms s !! gateway_id with Some t => 60000 <=? i64_saturating_sub now t | None => true end in
  ((if due then mkService (db s) (<[gateway_id := now]> (last_metrics_prune_ms s)) (outcomes s) else s), Ok due).

Definition prune_if (due : bool) (gateway_id : string) (cutoff_ms : Z) : Tx unit :=
  if due then execute (λ d, Ok (prune_metrics gateway_id cutoff_ms d)) else mret tt.

Definition record_metrics (gateway_id : string) (session : SessionIdentity) (boot_id : string) (sampled_at_ms : Z) (metrics : list PolicyClientMetrics)
    (now : Z) : Tx SessionWrite :=
  transaction (
    _ ← ensure_gateway gateway_id;
    row ← deployment_row gateway_id;
    if (negb (dep_agent_connected row) || negb (bool_decide (dep_agent_boot_id row = Some boot_id)) || negb (row_owned_by session row))%bool then mret Superseded
    else if i64_saturating_add now 30000 <? sampled_at_ms then mret Superseded
    else
      _ ← foldS (λ _ m, execute (upsert_metric gateway_id sampled_at_ms m)) tt metrics;
      let cutoff_ms := i64_saturating_sub now (24 * 60 * 60 * 1000) in
      due ← (if sampled_at_ms <? cutoff_ms then mret true else prune_due gateway_id now);
      _ ← prune_if due gateway_id cutoff_ms;
      mret WriteApplied).

(** ** What is shown *)

Definition revision_or_zero (r : option DeploymentRow) (f : DeploymentRow → Z) : Z := default 0 (to_u64 ∘ f <$> r).

Definition idle_status (desired_revision : Z) : string := if desired_revision =? 0 then "not_deployed" else "offline".

Definition deployment_status (desired_revision : Z) (row : option DeploymentRow) : string :=
  match row with
  | None => idle_status desired_revision
  | Some r =>
    if negb (dep_agent_connected r) then idle_status desired_revision
    else if to_u64 (dep_reported_revision r) <? desired_revision then "pending" else dep_status r
  end.

Definition delivery_status (desired_revision : Z) (row : option DeploymentRow) : string :=
  if desired_revision =? 0 then "not_deployed"
  else match row with
  | None => "offline"
  | Some r =>
    if negb (dep_agent_connected r) then "offline" else if to_u64 (dep_delivered_revision r) =? desired_revision then "delivered" else "pending"
  end.

Definition result_status_name (s : PolicyResultStatus) : string :=
  match s with Applied => "applied" | Degraded => "degraded" | Unsupported => "unsupported" | Failed => "failed" | Disabled => "disabled" end.

Record PolicyExecution := mkExecution {
  ex_status : string;
  ex_reason_code : option string;
  ex_message : option string;
  ex_details : option PolicyResultDetails;
}.

Definition reported_result (policy_id : string) (desired_revision : Z) (r : DeploymentRow) : option PolicyResult :=
  if to_u64 (dep_reported_revision r) =? desired_revision
  then results_from_json (dep_policy_results_json r) ≫= List.find (λ x, String.eqb (result_policy_id x) policy_id) else None.

Definition policy_execution_from_values (policy_id : string) (enabled : bool) (desired_revision : Z) (row : option DeploymentRow) : PolicyExecution :=
  match row with
  | None => mkExecution (if enabled then "offline" else "not_deployed") None None None
  | Some r =>
    let result := reported_result policy_id desired_revision r in
    let emergency_disabled := (enabled && bool_decide (dep_last_error_code r = Some "emergency_disabled"))%bool in
    let fallback {A} (v : option A) : option A := if (negb (dep_agent_connected r) || emergency_disabled)%bool then v else None in
    mkExecution
      (if negb (dep_agent_connected r) then (if ((desired_revision =? 0) && negb enabled)%bool then "disabled" else "offline")
       else if emergency_disabled then "failed"
       else match result with Some x => result_status_name (status x) | None => "pending" end)
      (match result ≫= reason_code with Some c => Some c | None => fallback (dep_last_error_code r) end)
      (match result ≫= PolicyWire.message with Some c => Some c | None => fallback (dep_last_error_message r) end)
      (result ≫= details)
  end.

Record ServiceCapabilities := mkServiceCapabilities {
  sc_enforcement_supported : bool;
  sc_status : string;
  sc_reason : string;
  sc_client_block : string;
  sc_client_limit : string;
  sc_client_total_limit : string;
  sc_application_block : string;
  sc_application_limit : string;
}.

Definition capability_name (c : PolicyCapability) : string :=
  match c with CapSupported => "supported" | CapUnsupported => "unsupported" | CapDegraded => "degraded" end.

Definition capabilities (row : option DeploymentRow) : ServiceCapabilities :=
  let connected := match row with Some r => dep_agent_connected r | None => false end in
  let wire : option PolicyCapabilities := r ← row; j ← dep_capabilities_json r; capabilities_from_json j in
  let named (f : PolicyCapabilities → PolicyCapability) : string := match wire with Some c => capability_name (f c) | None => "unsupported" end in
  let block := named client_block in
  let '(st, reason) :=
    if negb connected then ("unsupported", "agent_offline")
    else if String.eqb block "supported" then ("supported", "client_block_available")
    else if String.eqb block "degraded" then ("degraded", "client_block_has_coverage_gaps")
    else ("unsupported", "client_block_unsupported") in
  mkServiceCapabilities (String.eqb st "supported") st reason block (named client_limit)
    (if connected then match wire ≫= client_total_limit with Some c => capability_name c | None => "unknown" end else "unknown")
    (named application_block) (named application_limit).

(** The desired and the applied revision, and the row. *)
Definition read_deployment (gateway_id : string) : Tx (Z * Z * option DeploymentRow) :=
  desired ← query (λ d, Ok (default 0 (policy_gateways d !! gateway_id)));
  query (λ d, Ok match policy_deployments d !! gateway_id with
                 | Some r => (to_u64 (dep_desired_revision r), to_u64 (dep_applied_revision r), Some r)
                 | None => (to_u64 desired, 0, None)
                 end).

Definition gateway_capabilities (gateway_id : string) : Tx (bool * ServiceCapabilities) :=
  '(_, _, row) ← read_deployment gateway_id;
  mret (match row with Some r => dep_agent_connected r | None => false end, capabilities row).

Context `{SpecJson}.

(** ORDER BY priority ASC, id ASC. *)
Definition priority_leb (a b : string * PolicyRow) : bool :=
  if row_priority (snd a) =? row_priority (snd b) then str_leb (fst a) (fst b) else row_priority (snd a) <? row_priority (snd b).

Definition by_priority (gateway_id : string) (d : Database) : list (string * PolicyRow) := sort_by priority_leb (gateway_policies gateway_id d).

Definition with_execution (desired_revision : Z) (row : option DeploymentRow) (c : PolicyRecord) : PolicyRecord :=
  match row with
  | None => c
  | Some r =>
    let e := policy_execution_from_values (rec_id c) (enabled (rec_spec c)) desired_revision (Some r) in
    mkRecord (rec_id c) (rec_created_at_ms c) (rec_updated_at_ms c) (rec_version c) (rec_spec c) (ex_status e) (ex_reason_code e) (ex_message e) (ex_details e)
  end.

Record PolicyPage := mkPage { items : list PolicyRecord; total : Z; page_desired_revision : Z; page_applied_revision : Z; page_capabilities : ServiceCapabilities }.

(** LIMIT and OFFSET of [list]. *)
Definition page_of {A} (page page_size : Z) (l : list A) : list A :=
  take (Z.to_nat page_size) (drop (Z.to_nat (to_i64 (Z.max 0 (page - 1) * page_size))) l).

Definition list_policies (gateway_id : string) (page page_size : Z) : Tx PolicyPage :=
  total ← query (λ d, Ok (zlen (gateway_policies gateway_id d)));
  found ← query (λ d, mapR (λ p, map_record (fst p) (snd p)) (page_of page page_size (by_priority gateway_id d)));
  '(desired, applied, row) ← read_deployment gateway_id;
  mret (mkPage (with_execution desired row <$> found) (to_u64 total) desired applied (capabilities row)).

Definition MAX_AUDIT_EVENTS : nat := 100.

Record PolicyDetail := mkDetail { detail_policy : PolicyRecord; detail_events : list (nat * EventRow); detail_desired_revision : Z; detail_applied_revision : Z }.

(** The events of a policy, the newest first, with their ids; their documents are
    read as specs. *)
Definition policy_log (policy_id : string) (d : Database) : list (nat * EventRow) :=
  List.filter (λ e, bool_decide (event_policy_id (snd e) = Some policy_id)) (reverse (imap (λ i e, (S i, e)) (policy_events d))).

Definition parse_event_spec (v : option string) : result string (option PolicySpecV1) :=
  match v with Some j => s ← spec_from_json j; Ok (Some s) | None => Ok None end.

Definition map_event (e : nat * EventRow) : result string (nat * EventRow) :=
  _ ← parse_event_spec (before_json (snd e)); _ ← parse_event_spec (after_json (snd e)); Ok e.

Definition detail (id : string) : Tx PolicyDetail :=
  record ← require_record id;
  events ← query (λ d, mapR map_event (take MAX_AUDIT_EVENTS (policy_log id d)));
  '(desired, applied, row) ← read_deployment (spec_gateway_id (rec_spec record));
  mret (mkDetail (with_execution desired row record) events desired applied).

(** [read_traffic_metrics] of one policy, by MAC address. *)
Definition traffic_metrics (gateway_id policy_id : string) (d : Database) : list PolicyClientMetrics :=
  omap (λ p, let '(g, q, mac, m) := p in
             if (String.eqb g gateway_id && String.eqb q policy_id)%bool then Some (mkClientMetrics q mac (row_upload m) (row_download m)) else None)
    (sort_by (λ a b, str_leb (snd (fst a)) (snd (fst b))) (map_to_list (policy_client_metrics d))).

Record PolicyDeploymentStatus := mkDeploymentStatus { ds_policy_id : string; ds_execution : PolicyExecution; ds_traffic_metrics : list PolicyClientMetrics }.

Record PolicyDeployment := mkPolicyDeployment {
  pd_desired_revision : Z;
  pd_delivered_revision : Z;
  pd_delivery_status : string;
  pd_acknowledged_revision : Z;
  pd_applied_revision : Z;
  pd_status : string;
  pd_row : option DeploymentRow;
  pd_capabilities : ServiceCapabilities;
  pd_policies : list PolicyDeploymentStatus;
}.

Definition deployment (gateway_id : string) : Tx PolicyDeployment :=
  '(desired, applied, row) ← read_deployment gateway_id;
  metrics ← query (λ d, Ok (λ id, traffic_metrics gateway_id id d));
  policies ← query (λ d, mapR (λ p, s ← spec_from_json (spec_json (snd p));
                                    Ok (mkDeploymentStatus (fst p) (policy_execution_from_values (fst p) (enabled s) desired row) (metrics (fst p))))
                              (by_priority gateway_id d));
  mret (mkPolicyDeployment desired (revision_or_zero row dep_delivered_revision) (delivery_status desired row)
          (revision_or_zero row dep_reported_revision) applied (deployment_status desired row) row (capabilities row) policies).
End sessions.

(** ** All operations *)

Inductive ApiFailure := ValidationFailed (issues : list ValidationIssue) | StoreUnavailable | Refused (e : PolicyFailure).

Section calls.
Context `{ReportJson} `{SpecJson} `{Calendar}.

(** The handlers [create] and [update]: only what [validate_spec] finds nothing
    wrong with is written. *)
Definition admitted_call (catalog : PolicySpecV1 → result string KnownSelectors) (limits : string → result string (bool * string * string)) (s : PolicySpecV1)
    (write : PolicySpecV1 → Tx MutationResult) (sv : Service) : Service * result ApiFailure MutationResult :=
  match validate_spec catalog limits s with
  | Err _ => (sv, Err StoreUnavailable)
  | Ok (s, [], _) => let '(sv, r) := write s sv in (sv, map_err Refused r)
  | Ok (_, issues, _) => (sv, Err (ValidationFailed issues))
  end.

Inductive Call :=
  | CCreate (catalog : PolicySpecV1 → result string KnownSelectors) (limits : string → result string (bool * string * string)) (uuid : string) (now : Z)
      (s : PolicySpecV1) (actor : string) (expected : Z)
  | CUpdate (catalog : PolicySpecV1 → result string KnownSelectors) (limits : string → result string (bool * string * string)) (now : Z) (id : string)
      (s : PolicySpecV1) (actor : string) (expected version : Z)
  | CSetEnabled (now : Z) (id : string) (on : bool) (actor : string) (expected version : Z)
  | CDelete (now : Z) (id actor : string) (expected : Z)
  | CRepublish (now : Z) (gateway_id actor : string)
  | CConnect (gateway_id epoch : string) (i : Z)
  | CDeliver (gateway_id : string) (session : SessionIdentity) (revision at_ms : Z)
  | CDisconnect (gateway_id : string) (session : SessionIdentity)
  | CHealth (gateway_id : string) (session : SessionIdentity) (boot_id controller_epoch : string) (agent_revision : Z) (caps : PolicyCapabilities)
      (emergency_disabled : bool) (at_ms : Z)
  | CAck (gateway_id : string) (session : SessionIdentity) (a : AckReport)
  | CMetrics (gateway_id : string) (session : SessionIdentity) (boot_id : string) (sampled_at_ms : Z) (metrics : list PolicyClientMetrics) (now : Z).

Inductive Response :=
  | RMutation (r : result ApiFailure MutationResult)
  | RRevision (r : result PolicyFailure Z)
  | RWrite (r : result PolicyFailure SessionWrite)
  | RDone (r : result PolicyFailure unit).

Definition answer {A} (f : A → Response) (p : Service * A) : Service * Response := (fst p, f (snd p)).

Definition call (c : Call) (sv : Service) : Service * Response :=
  match c with
  | CCreate catalog limits uuid now s actor expected => answer RMutation (admitted_call catalog limits s (λ s, create uuid now s actor expected) sv)
  | CUpdate catalog limits now i s actor expected version => answer RMutation (admitted_call catalog limits s (λ s, update now i s actor expected version) sv)
  | CSetEnabled now i on actor expected version => answer (RMutation ∘ map_err Refused) (set_enabled now i on actor expected version sv)
  | CDelete now i actor expected => answer (RMutation ∘ map_err Refused) (delete now i actor expected sv)
  | CRepublish now g actor => answer RRevision (republish now g actor sv)
  | CConnect g epoch i => answer RWrite (mark_agent_connected g epoch i sv)
  | CDeliver g session revision at_ms => answer RWrite (record_delivery g session revision at_ms sv)
  | CDisconnect g session => answer RDone (mark_agent_disconnected g session sv)
  | CHealth g session boot epoch revision caps emergency at_ms => answer RWrite (record_health g session boot epoch revision caps emergency at_ms sv)
  | CAck g session a => answer RWrite (record_ack g session a sv)
  | CMetrics g session boot at_ms ms now => answer RWrite (record_metrics g session boot at_ms ms now sv)
  end.

(** The service with what its history says: the session that connected last, and
    the acknowledgement that was accepted last, of each gateway. *)
Record World := mkWorld { service : Service; owners : gmap string (string * Z); acks : gmap string AckReport }.

Definition step (w : World) (c : Call) : World :=
  let '(sv, r) := call c (service w) in
  mkWorld sv
    (match c, r with CConnect g e i, RWrite (Ok WriteApplied) => <[g := (e, to_i64 i)]> (owners w) | _, _ => owners w end)
    (match c, r with CAck g _ a, RWrite (Ok WriteApplied) => <[g := a]> (acks w) | _, _ => acks w end).

Definition start (os : list (option string)) : World := mkWorld (mkService empty_database ∅ os) ∅ ∅.
Definition run (cs : list Call) (w : World) : World := foldl step w cs.
End calls.

(** * What a report does *)

Section reports.
Context `{ReportJson}.

(** The row of the gateway after it was ensured. *)
Definition row_of (g : string) (d : Database) : DeploymentRow := default new_deployment (policy_deployments d !! g).

Lemma ensured_row g d : policy_deployments (ensured g d) !! g = Some (row_of g d).
Proof. change (policy_deployments (ensured g d)) with (insert_default g new_deployment (policy_deployments d)). by rewrite insert_default_lookup, decide_True. Qed.

(** A statement that changes the row [g] where it is [wh]. *)
Definition written (g : string) (wh : DeploymentRow → bool) (f : DeploymentRow → DeploymentRow) (r : SessionWrite) (d d' : Database) : Prop :=
  (wh (row_of g d) = true ∧ r = WriteApplied ∧ d' = set_deployments (insert g (f (row_of g d))) (ensured g d)) ∨
  (wh (row_of g d) = false ∧ r = Superseded ∧ d' = ensured g d).

Lemma update_written g wh f s s' n d : db s = ensured g d → update_deployment g wh f s = (s', Ok n) → written g wh f (session_write n) d (db s').
Proof.
  intros Hd [(w & Hw & Hwh & -> & Hs')|(Hno & -> & Hs')]%update_deployment_Ok; rewrite Hd in *.
  - rewrite ensured_row in Hw. injection Hw as <-. by left.
  - right. split; [apply Hno, ensured_row|done].
Qed.

Ltac inv_report := inv_tx; repeat (match goal with
  | Hs : ensure_gateway _ _ = (_, Ok _) |- _ => apply ensure_gateway_Ok in Hs
  | Hs : read_revision _ _ = (_, Ok _) |- _ => apply read_revision_Ok in Hs as [-> ?]
  end; inv_tx).

Lemma connect_Ok g e i sv sv' r : mark_agent_connected g e i sv = (sv', Ok r) →
  written g (λ w, negb (bool_decide (dep_agent_connection_epoch w = Some e)) || (dep_agent_connection_id w <=? to_i64 i))%bool (connect_row e (to_i64 i)) r (db sv) (db sv').
Proof. unfold mark_agent_connected. intros Hs. inv_report. chain. eapply update_written; [|done]. congruence. Qed.

Lemma delivery_Ok g x revision at_ms sv sv' r : record_delivery g x revision at_ms sv = (sv', Ok r) →
  written g (λ w, owned_by x w && (dep_delivered_revision w <=? to_i64 revision))%bool (deliver_row (to_i64 revision) at_ms) r (db sv) (db sv').
Proof. unfold record_delivery. intros Hs. inv_report. chain. eapply update_written; [|done]. congruence. Qed.

Lemma disconnect_Ok g x sv sv' r : mark_agent_disconnected g x sv = (sv', Ok r) → db sv' = db sv ∨
  ∃ w, policy_deployments (db sv) !! g = Some w ∧ owned_by x w = true ∧ db sv' = set_deployments (insert g (disconnect_row w)) (db sv).
Proof.
  unfold mark_agent_disconnected. intros Hs. inv_tx. match goal with Hu : update_deployment _ _ _ _ = _ |- _ => apply update_deployment_Ok in Hu as [(w & Hw & Ho & _ & Hd)|(_ & _ & Hd)] end; eauto.
Qed.

Lemma health_Ok g x boot epoch revision caps emergency at_ms sv sv' r : record_health g x boot epoch revision caps emergency at_ms sv = (sv', Ok r) →
  ∃ json, written g (owned_by x) (health_row boot epoch (to_i64 revision) json at_ms (health_error (revision_of g (db sv) <? revision) emergency)) r (db sv) (db sv').
Proof.
  unfold record_health. intros Hs. inv_report. chain. rewrite revision_of_ensured in *. eexists. eapply update_written; [|done]. congruence.
Qed.

(** All tables but that of the metrics are those of [d']. *)
Definition but_metrics (d d' : Database) : Prop := ∃ m, d' = set_metrics (λ _, m) d.

Lemma but_metrics_refl d : but_metrics d d.
Proof. exists (policy_client_metrics d). by destruct d. Qed.

Lemma ack_Ok g x a sv sv' r : record_ack g x a sv = (sv', Ok r) →
  (r = Superseded ∧ db sv' = ensured g (db sv)) ∨
  (r = WriteApplied ∧ is_stale x a (row_of g (db sv)) = false ∧ ∃ results caps current d', results_to_json (a_results a) = Ok results ∧
     written g (owned_by x) (ack_row a results caps current) WriteApplied (db sv) d' ∧ but_metrics d' (db sv')).
Proof.
  unfold record_ack. intros Hs. inv_report. chain. unfold deployment_row in *. inv_tx. chain.
  match goal with Hq : ok_or _ _ = Ok ?w |- _ => apply ok_or_Ok in Hq; rewrite ensured_row in Hq; injection Hq as <- end.
  destruct (is_stale x a (row_of g (db sv))) eqn:Hst; inv_tx; chain; [by left|].
  match goal with Hu : update_deployment _ _ _ _ = (_, Ok ?k), Hd : db _ = ensured g (db sv) |- _ => pose proof (update_written _ _ _ _ _ _ _ Hd Hu) as Hw; destruct (Z.eqb_spec k 0) as [E|Hn]; [rewrite E in *|]; clear Hu end; inv_tx.
  - left. destruct Hw as [(_ & [=] & _)|(_ & _ & Hd)]. split; [done|]. congruence.
  - right. match goal with |- context [session_write ?n] => assert (session_write n = WriteApplied) as Hsw by (unfold session_write; by rewrite (proj2 (Z.eqb_neq _ _) Hn)) end. rewrite Hsw in *.
    split; [done|]. split; [done|]. match goal with Hm : map_err _ (results_to_json _) = _ |- _ => apply map_err_Ok in Hm end. do 4 eexists. split; [done|]. split; [exact Hw|].
    destruct (is_enforcing (a_status a)); inv_tx; [|apply but_metrics_refl]. match goal with He : Ok _ = Ok _ |- _ => injection He as <- end. by eexists.
Qed.

Lemma but_metrics_trans d1 d2 d3 : but_metrics d1 d2 → but_metrics d2 d3 → but_metrics d1 d3.
Proof. intros [m ->] [m' ->]. by exists m'. Qed.

Lemma upsert_metric_Ok g at_ms m d d' : upsert_metric g at_ms m d = Ok d' → but_metrics d d'.
Proof.
  unfold upsert_metric. destruct (_ || _)%bool; [done|]. match goal with |- context [if ?b then Ok d else _] => destruct b end; intros [= <-]; [apply but_metrics_refl|by eexists].
Qed.

Lemma foldS_metrics g at_ms ms s s' u : foldS (λ _ m, execute (upsert_metric g at_ms m)) tt ms s = (s', Ok u) → but_metrics (db s) (db s').
Proof.
  revert s. induction ms as [|m ms IH]; intros s; cbn [foldS]; intros Hs; inv_tx; [apply but_metrics_refl|].
  match goal with Hu : upsert_metric _ _ _ _ = _, v : unit |- _ => apply upsert_metric_Ok in Hu; destruct v end. eapply but_metrics_trans; [done|]. by apply IH.
Qed.

Lemma prune_choice_db (b : bool) g now s s' v : (if b then mret true else prune_due g now) s = (s', Ok v) → db s' = db s.
Proof. destruct b; [by intros [= <- <-]|]. unfold prune_due. intros [= <- <-]. by destruct (match last_metrics_prune_ms s !! g with Some _ => _ | None => _ end). Qed.

Lemma metrics_Ok g x boot at_ms ms now sv sv' r : record_metrics g x boot at_ms ms now sv = (sv', Ok r) →
  (r = Superseded ∧ db sv' = ensured g (db sv)) ∨ (r = WriteApplied ∧ row_owned_by x (row_of g (db sv)) = true ∧ but_metrics (ensured g (db sv)) (db sv')).
Proof.
  unfold record_metrics. intros Hs. inv_report. chain. unfold deployment_row in *. inv_tx. chain.
  match goal with Hq : ok_or _ _ = Ok ?w |- _ => apply ok_or_Ok in Hq; rewrite ensured_row in Hq; injection Hq as <- end.
  destruct (_ || _)%bool eqn:Hg in Hs; inv_tx; chain; [by left|]. destruct (_ <? _) eqn:Ht in Hs; inv_tx; chain; [by left|]. right.
  apply orb_false_iff in Hg as [_ Ho%negb_false_iff]. split; [done|]. split; [done|].
  match goal with Hf : foldS _ _ _ _ = _ |- _ => apply foldS_metrics in Hf; rename Hf into Hbm end.
  eapply but_metrics_trans; [match goal with Hd : db _ = ensured g (db sv) |- _ => rewrite Hd in Hbm end; exact Hbm|].
  match goal with Hp : (if _ then _ else prune_due _ _) _ = _ |- _ => apply prune_choice_db in Hp as <- end.
  match goal with Hp : prune_if ?b _ _ _ = _ |- _ => unfold prune_if in Hp; destruct b; inv_tx end; [|apply but_metrics_refl].
  match goal with He : Ok _ = Ok _ |- _ => injection He as <- end. by eexists.
Qed.
End reports.

(** * Failed calls *)

Lemma statement_Err {A} (f : Database → result string (A * Database)) s s' e : statement f s = (s', Err e) → db s' = db s.
Proof. unfold statement. intros Hs. destruct (outcomes s) as [|[e0|] os]; [|by injection Hs as <- _|]; (destruct (f (db s)) as [[a d]|e1]; [discriminate Hs|by injection Hs as <- _]). Qed.

Lemma lift_bind_db {A B} (r : result PolicyFailure A) (k : A → Tx B) s s' e : (∀ a, k a s = (s', Err e) → db s' = db s) → (lift r ≫= k) s = (s', Err e) → db s' = db s.
Proof. unfold mbind, stM_bind, lift. intros Hk Hs. destruct r as [a|e0]; [by apply (Hk a)|by injection Hs as <- _]. Qed.

Section failures.
Context `{ReportJson} `{SpecJson} `{Calendar}.

Lemma create_Err uuid now s actor expected sv sv' e : create uuid now s actor expected sv = (sv', Err e) → db sv' = db sv.
Proof. unfold create. do 2 (apply lift_bind_db; intros ?). apply transaction_Err. Qed.

Lemma update_Err now i s actor expected version sv sv' e : update now i s actor expected version sv = (sv', Err e) → db sv' = db sv.
Proof. unfold update. do 2 (apply lift_bind_db; intros ?). apply transaction_Err. Qed.

Lemma disconnect_Err g x sv sv' e : mark_agent_disconnected g x sv = (sv', Err e) → db sv' = db sv.
Proof.
  unfold mark_agent_disconnected, mbind, stM_bind. destruct (update_deployment g (owned_by x) disconnect_row sv) as [s1 [n|e']] eqn:E; [done|]. intros [= <- _]. by eapply statement_Err.
Qed.

Definition is_error (r : Response) : bool :=
  match r with RMutation (Err _) | RRevision (Err _) | RWrite (Err _) | RDone (Err _) => true | _ => false end.

(** A call that fails, wherever, leaves the database as it was. *)
Lemma failed_call c sv : is_error (snd (call c sv)) = true → db (fst (call c sv)) = db sv.
Proof.
  destruct c; cbn [call answer fst snd].
  1,2: unfold admitted_call; destruct (validate_spec _ _ _) as [[[s' [|]] ws]|]; try done;
    match goal with |- context [let '(sv, r) := ?t in _] => destruct t as [sv' [m|e]] eqn:E end; try done; cbn; intros _; eauto using create_Err, update_Err.
  all: match goal with |- context [fst ?t] => destruct t as [sv' [m|e]] eqn:E end; try done; cbn; intros _.
  all: first [by eapply transaction_Err|by eapply disconnect_Err].
Qed.
End failures.

(** * Reports keep the policies *)

Lemma row_write_ok `{SpecJson} g w w' d : database_ok d → policy_deployments d !! g = Some w → dep_desired_revision w' = dep_desired_revision w →
  database_ok (set_deployments (insert g w') d).
Proof.
  intros [] Hw Hdes. split; try done; cbn.
  - intros g' r Hr. destruct (do_revision g' r Hr) as (Hb & v & Hv & Hd). split; [done|]. destruct (decide (g' = g)) as [->|]; [|rewrite lookup_insert_ne; eauto].
    rewrite lookup_insert_eq. exists w'. split; [done|]. congruence.
  - intros g'. destruct (decide (g' = g)) as [->|]; [intros _; apply do_deployment; eauto|]. rewrite lookup_insert_ne by done. apply do_deployment.
  - intros i r Hr. by destruct (do_rows i r Hr).
Qed.

Lemma but_metrics_ok `{SpecJson} d d' : database_ok d → but_metrics d d' → database_ok d'.
Proof. intros [] [m ->]. split; try done. intros i r Hr. by destruct (do_rows i r Hr). Qed.

Lemma written_ok `{SpecJson} g wh f r d d' : database_ok d → written g wh f r d d' → (∀ w, dep_desired_revision (f w) = dep_desired_revision w) → database_ok d'.
Proof. intros Hok [(_ & _ & ->)|(_ & _ & ->)] Hf; pose proof (ensured_ok g d Hok); [|done]. eapply row_write_ok; [done|apply ensured_row|apply Hf]. Qed.

(** What a report may change: the row of its gateway and the metrics. *)
Definition report_frame (d d' : Database) : Prop :=
  traffic_policies d' = traffic_policies d ∧ policy_events d' = policy_events d ∧ ∀ g, revision_of g d' = revision_of g d.

Lemma ensured_frame g d : report_frame d (ensured g d).
Proof.
  split_and!; try done. intros g'. unfold revision_of. rewrite ensured_gateways, insert_default_lookup. destruct (decide (g' = g)) as [->|]; [|done]. by destruct (policy_gateways d !! g).
Qed.

Lemma written_frame g wh f r d d' : written g wh f r d d' → report_frame d d'.
Proof. intros [(_ & _ & ->)|(_ & _ & ->)]; apply (ensured_frame g d). Qed.

(** * The rows of the deployments *)

Lemma ensured_row_of g g' d : row_of g' (ensured g d) = row_of g' d.
Proof.
  unfold row_of. change (policy_deployments (ensured g d)) with (insert_default g new_deployment (policy_deployments d)). rewrite insert_default_lookup.
  by destruct (decide (g' = g)) as [->|].
Qed.

Lemma insert_row_of g g' w d : row_of g' (set_deployments (insert g w) d) = if decide (g' = g) then w else row_of g' d.
Proof. unfold row_of. cbn. destruct (decide (g' = g)) as [->|]; [by rewrite lookup_insert_eq|by rewrite lookup_insert_ne]. Qed.

Lemma but_metrics_row_of g d d' : but_metrics d d' → row_of g d' = row_of g d.
Proof. by intros [m ->]. Qed.

Lemma written_row_of g wh f r d d' g' : written g wh f r d d' → row_of g' d' = if decide (g' = g ∧ r = WriteApplied) then f (row_of g d) else row_of g' d.
Proof.
  intros [(_ & -> & ->)|(_ & -> & ->)].
  - rewrite insert_row_of, ensured_row_of. destruct (decide (g' = g)) as [->|]; [by rewrite decide_True|]. rewrite decide_False by tauto. done.
  - rewrite ensured_row_of, decide_False by naive_solver. done.
Qed.

(** Raising a revision changes the desired revision, the status and the error. *)
Lemma raise_row_of (P : DeploymentRow → Prop) g g' r d : (∀ w st, P w → P (desire r st w)) → P (row_of g' d) → P (row_of g' (raise g r d)).
Proof.
  intros Hp. unfold row_of, raise. cbn. destruct (decide (g' = g)) as [->|]; [|by rewrite lookup_alter_ne]. rewrite lookup_alter_eq. destruct (policy_deployments d !! g); [|done]. apply Hp.
Qed.

Section world.
Context `{ReportJson} `{SpecJson} `{!SpecJsonLaws} `{Calendar}.

Lemma changed_row_of (P : DeploymentRow → Prop) g i expected row act actor before now d d' g' : (∀ w r st, P w → P (desire r st w)) →
  changed g i expected row act actor before now d d' → P (row_of g' d) → P (row_of g' d').
Proof.
  intros Hp [_ _ -> _ _] Hrow. change (P (row_of g' (raise g (revision_of g (ensured g d) + 1) (set_policies (partial_alter (λ _, row) i) (ensured g d))))).
  apply raise_row_of; [auto|]. change (row_of g' (set_policies (partial_alter (λ _, row) i) (ensured g d))) with (row_of g' (ensured g d)). by rewrite ensured_row_of.
Qed.

Lemma changed_revision g i expected row act actor before now d d' g' : changed g i expected row act actor before now d d' → 0 ≤ expected →
  revision_of g' d' = if decide (g' = g) then expected + 1 else revision_of g' d.
Proof.
  intros [Hrev _ -> _ _] He. unfold revision_of at 1. cbn [commit_change add_event raise set_deployments set_gateways policy_gateways set_policies].
  rewrite revision_of_ensured, Hrev. destruct (decide (g' = g)) as [->|Hne].
  - rewrite lookup_insert_eq. cbn. unfold to_u64. lia.
  - rewrite lookup_insert_ne by done. apply (proj2 (proj2 (ensured_frame g d)) g').
Qed.

(** ** The effect of a call *)

(** What a successful call of each kind did. *)
Inductive effect (c : Call) (d d' : Database) : Response → Prop :=
  | effect_changed g i expected row act actor before now m :
      changed g i expected row act actor before now d d' → mut_changed m = true → mut_revision m = expected + 1 → effect c d d' (RMutation (Ok m))
  | effect_same m : d' = d → mut_changed m = false → effect c d d' (RMutation (Ok m))
  | effect_republished g actor now r : c = CRepublish now g actor → d' = republished g actor now r (ensured g d) → revision_of g d < r ≤ MAX_SAFE_JSON_INTEGER →
      effect c d d' (RRevision (Ok r))
  | effect_written g wh f r : written g wh f r d d' → (∀ w, dep_desired_revision (f w) = dep_desired_revision w) → effect c d d' (RWrite (Ok r))
  | effect_reported g wh f d1 : written g wh f WriteApplied d d1 → (∀ w, dep_desired_revision (f w) = dep_desired_revision w) → but_metrics d1 d' →
      effect c d d' (RWrite (Ok WriteApplied))
  | effect_ignored g : d' = ensured g d → effect c d d' (RWrite (Ok Superseded))
  | effect_metrics g : but_metrics (ensured g d) d' → effect c d d' (RWrite (Ok WriteApplied))
  | effect_disconnected g w : policy_deployments d !! g = Some w → d' = set_deployments (insert g (disconnect_row w)) d → effect c d d' (RDone (Ok tt))
  | effect_none : d' = d → effect c d d' (RDone (Ok tt))
  | effect_failed r : d' = d → is_error r = true → effect c d d' r.

Lemma call_effect c sv : database_ok (db sv) → effect c (db sv) (db (fst (call c sv))) (snd (call c sv)).
Proof.
  intros Hok. destruct (is_error (snd (call c sv))) eqn:He; [by apply effect_failed; [apply failed_call|]|]. revert He.
  destruct c; cbn [call answer fst snd].
  1,2: unfold admitted_call; destruct (validate_spec _ _ _) as [[[s' [|]] ws]|] eqn:Ev; try done;
    match goal with |- context [let '(sv, r) := ?t in _] => destruct t as [sv' [m|e]] eqn:E end; try done; cbn; intros _.
  3-11: match goal with |- context [fst ?t] => destruct t as [sv' [m|e]] eqn:E end; try done; cbn; intros _.
  - apply create_changed in E as (row & Hch & _ & Hm & Hr); [|done]. by eapply effect_changed.
  - apply update_changed in E as [(Hm & Hd & _)|(r & be & row & _ & _ & _ & _ & Hch & Hm & Hr)]; [by apply effect_same|by eapply effect_changed|done].
  - apply set_enabled_changed in E as [(Hm & Hd & _)|(r & act & be & row & _ & _ & _ & _ & _ & Hch & Hm & Hr)]; [by apply effect_same|by eapply effect_changed|done].
  - apply delete_changed in E as (r & be & _ & Hch & Hm & Hr); [|done]. by eapply effect_changed.
  - apply republish_Ok in E as [Hd Hr]; [|done]. by eapply effect_republished.
  - apply connect_Ok in E. by eapply effect_written.
  - apply delivery_Ok in E. by eapply effect_written.
  - destruct m. apply disconnect_Ok in E as [Hd|(w & Hw & _ & Hd)]; [by apply effect_none|by eapply effect_disconnected].
  - apply health_Ok in E as [json E]. by eapply effect_written.
  - apply ack_Ok in E as [[-> Hd]|(-> & _ & results & cps & cur & d1 & _ & Hw & Hb)]; [by eapply effect_ignored|by eapply effect_reported].
  - apply metrics_Ok in E as [[-> Hd]|(-> & _ & Hb)]; [by eapply effect_ignored|by eapply effect_metrics].
Qed.

Lemma call_ok c sv : database_ok (db sv) → database_ok (db (fst (call c sv))).
Proof.
  intros Hok. destruct (call_effect c sv Hok); try done; try congruence; subst.
  - by eapply changed_ok.
  - match goal with Hd : _ = republished _ _ _ _ _ |- _ => rewrite Hd end. apply republished_ok; [by apply ensured_ok| |by rewrite revision_of_ensured].
    rewrite ensured_gateways, insert_default_lookup, decide_True by done. eauto.
  - by eapply written_ok.
  - eapply but_metrics_ok; [|done]. by eapply written_ok.
  - match goal with Hd : _ = ensured _ _ |- _ => rewrite Hd end. by apply ensured_ok.
  - eapply but_metrics_ok; [|done]. by apply ensured_ok.
  - match goal with Hd : _ = set_deployments _ _ |- _ => rewrite Hd end. by eapply row_write_ok.
Qed.

Lemma revision_of_nonneg g d : 0 ≤ revision_of g d.
Proof. unfold revision_of. destruct (policy_gateways d !! g); cbn; unfold to_u64; lia. Qed.

(** No call lowers the revision of a gateway. *)
Lemma call_revision c sv g : database_ok (db sv) → revision_of g (db sv) ≤ revision_of g (db (fst (call c sv))).
Proof.
  intros Hok. destruct (call_effect c sv Hok) as [g' i expected row act actor before now m Hch|m Hs _|g' actor now r _ Hd Hr|g' wh f r Hw|g' wh f d1 Hw _ [m Hm]|g' Hd|g' [m Hm]|g' w _ Hd|Hs|r Hs _];
    try (rewrite Hs; apply Z.le_refl).
  - rewrite (changed_revision _ _ _ _ _ _ _ _ _ _ g Hch) by (rewrite <- (ch_revision _ _ _ _ _ _ _ _ _ _ Hch); apply revision_of_nonneg).
    destruct (decide (g = g')) as [->|]; [|lia]. rewrite (ch_revision _ _ _ _ _ _ _ _ _ _ Hch). lia.
  - rewrite Hd. unfold revision_of at 2. cbn [republished add_event raise set_deployments set_gateways policy_gateways]. destruct (decide (g = g')) as [->|].
    + rewrite lookup_insert_eq. cbn. unfold to_u64. lia.
    + rewrite lookup_insert_ne by done. rewrite <- (proj2 (proj2 (ensured_frame g' (db sv))) g). unfold revision_of. lia.
  - destruct (written_frame _ _ _ _ _ _ Hw) as (_ & _ & Hf). rewrite Hf. lia.
  - destruct (written_frame _ _ _ _ _ _ Hw) as (_ & _ & Hf). rewrite Hm. specialize (Hf g). unfold revision_of in *. cbn. lia.
  - rewrite Hd, (proj2 (proj2 (ensured_frame g' (db sv))) g). lia.
  - rewrite Hm. pose proof (proj2 (proj2 (ensured_frame g' (db sv))) g) as Hf. unfold revision_of in *. cbn [set_metrics policy_gateways]. lia.
  - rewrite Hd. unfold revision_of. cbn. lia.
Qed.

Lemma run_ok cs w : database_ok (db (service w)) → database_ok (db (service (run cs w))).
Proof.
  revert w. induction cs as [|c cs IH]; intros w Hw; [done|]. apply IH. unfold step. pose proof (call_ok c (service w) Hw) as Hc. by destruct (call c (service w)).
Qed.

Lemma run_revision cs w g : database_ok (db (service w)) → revision_of g (db (service w)) ≤ revision_of g (db (service (run cs w))).
Proof.
  revert w. induction cs as [|c cs IH]; intros w Hw; [cbn; lia|]. cbn [run foldl]. etrans; [apply (call_revision c (service w) g Hw)|].
  assert (fst (call c (service w)) = service (step w c)) as -> by (unfold step; by destruct (call c (service w))). apply IH.
  pose proof (call_ok c (service w) Hw) as Hc. unfold step. by destruct (call c (service w)).
Qed.

Lemma start_ok os : database_ok (db (service (start os))).
Proof. apply empty_database_ok. Qed.

(** ** The owner of a deployment and its last acknowledgement *)

Record row_inv (o : option (string * Z)) (a : option AckReport) (w : DeploymentRow) : Prop := {
  ri_owner : match o with Some (e, i) => dep_agent_connection_epoch w = Some e ∧ dep_agent_connection_id w = i | None => dep_agent_connection_epoch w = None end;
  ri_reported : dep_reported_revision w = 0 ∨ ∃ r, a = Some r ∧ dep_reported_revision w = to_i64 (a_config_revision r);
  ri_results : ∀ r, a = Some r → results_to_json (a_results r) = Ok (dep_policy_results_json w);
}.

Lemma row_inv_keep o a w w' : dep_agent_connection_epoch w' = dep_agent_connection_epoch w → dep_agent_connection_id w' = dep_agent_connection_id w →
  (dep_reported_revision w' = dep_reported_revision w ∨ dep_reported_revision w' = 0) → dep_policy_results_json w' = dep_policy_results_json w → row_inv o a w → row_inv o a w'.
Proof. intros E1 E2 E3 E4 []. split; rewrite ?E1, ?E2, ?E4; try done. destruct E3 as [->| ->]; auto. Qed.

Definition rows_inv (w : World) : Prop := ∀ g, row_inv (owners w !! g) (acks w !! g) (row_of g (db (service w))).

Lemma desire_inv o a w r st : row_inv o a w → row_inv o a (desire r st w).
Proof. apply row_inv_keep; try done. by left. Qed.

(** The calls that change neither the owner nor the acknowledgement. *)
Lemma written_inv g wh f r d d' o a g' : written g wh f r d d' → (∀ w, row_inv o a w → row_inv o a (f w)) → row_inv o a (row_of g' d) → row_inv o a (row_of g' d').
Proof. intros Hw Hf Hi. rewrite (written_row_of _ _ _ _ _ _ g' Hw). destruct (decide _) as [[-> _]|]; auto. Qed.

Definition is_policy_call (c : Call) : bool := match c with CCreate _ _ _ _ _ _ _ | CUpdate _ _ _ _ _ _ _ _ | CSetEnabled _ _ _ _ _ _ | CDelete _ _ _ _ | CRepublish _ _ _ => true | _ => false end.

Lemma policy_call_response c sv : is_policy_call c = true → match snd (call c sv) with RMutation _ | RRevision _ => True | _ => False end.
Proof. by destruct c. Qed.

Lemma policy_call_row (P : DeploymentRow → Prop) c d d' r g : (∀ w r st, P w → P (desire r st w)) → effect c d d' r →
  match r with RMutation _ | RRevision _ => True | _ => False end → P (row_of g d) → P (row_of g d').
Proof.
  intros HP [] Hr Hi; try done; subst; try done.
  - by eapply changed_row_of.
  - change (P (row_of g (raise g0 r0 (ensured g0 d)))). apply raise_row_of; [auto|]. by rewrite ensured_row_of.
Qed.

Lemma ack_row_inv a results caps current w o ak : results_to_json (a_results a) = Ok results → row_inv o ak w →
  row_inv o (Some a) (ack_row a results caps current w).
Proof. intros Hr []. split; [done|right; by exists a|]. by intros r [= <-]. Qed.

Lemma step_rows w c : database_ok (db (service w)) → rows_inv w → rows_inv (step w c).
Proof.
  intros Hok Hrows g. pose proof (Hrows g) as Hg. unfold step. pose proof (failed_call c (service w)) as Hfail. pose proof (call_effect c (service w) Hok) as Heff.
  pose proof (policy_call_response c (service w)) as Hpol. destruct (call c (service w)) as [sv r] eqn:Hcall. cbn [fst snd] in *. cbn [service owners acks].
  destruct (is_error r) eqn:He; [rewrite Hfail by done; by destruct c, r as [[]|[]|[]|[]]|].
  destruct (is_policy_call c) eqn:Hp; [by destruct c; try done; (eapply (policy_call_row (row_inv _ _)); [intros; by apply desire_inv|done|by apply Hpol|done])|]. clear Heff Hpol Hfail.
  destruct c; try done; cbn [call] in Hcall; unfold answer in Hcall; match type of Hcall with (fst ?t, _) = _ => destruct t as [sv' [m|e]] eqn:E end;
    cbn [fst snd] in Hcall; injection Hcall as <- <-; try done; clear He Hp.
  - apply connect_Ok in E. rewrite (written_row_of _ _ _ _ _ _ g E). destruct (decide _) as [[-> ->]|Hne].
    + rewrite lookup_insert_eq. destruct Hg. by split.
    + destruct m; [|done]. rewrite lookup_insert_ne by naive_solver. done.
  - eapply written_inv; [by apply delivery_Ok|intros v Hv; apply (row_inv_keep _ _ v); try done; by left|done].
  - destruct m. apply disconnect_Ok in E as [->|(v & Hv & _ & ->)]; [done|]. rewrite insert_row_of. destruct (decide (g = gateway_id)) as [->|]; [|done].
    eapply (row_inv_keep _ _ v); try done; [by left|]. unfold row_of in Hg. by rewrite Hv in Hg.
  - apply health_Ok in E as [json E]. eapply written_inv; [exact E| |done]. intros v Hv. apply (row_inv_keep _ _ v); try done. cbn. destruct (_ || _)%bool; auto.
  - apply ack_Ok in E as [[-> ->]|(-> & _ & results & cps & cur & d1 & Hr & Hw & Hb)]; [by rewrite ensured_row_of|].
    rewrite (but_metrics_row_of _ _ _ Hb), (written_row_of _ _ _ _ _ _ g Hw). destruct (decide _) as [[-> _]|Hne].
    + rewrite lookup_insert_eq. by eapply ack_row_inv.
    + rewrite lookup_insert_ne by naive_solver. done.
  - apply metrics_Ok in E as [[-> ->]|(-> & _ & Hb)]; [by rewrite ensured_row_of|]. by rewrite (but_metrics_row_of _ _ _ Hb), ensured_row_of.
Qed.

Lemma run_rows cs w : database_ok (db (service w)) → rows_inv w → rows_inv (run cs w).
Proof.
  revert w. induction cs as [|c cs IH]; intros w Hw Hr; [done|]. apply IH; [|by apply step_rows]. apply (run_ok [c] w Hw).
Qed.

Lemma start_rows os : rows_inv (start os).
Proof. intros g. unfold start, row_of. cbn. rewrite !lookup_empty. split; [done|by left|done]. Qed.

(** ** Admitted policies *)

(** Canonical clients, and some client for a policy on applications. *)
Definition well_selected (s : PolicySpecV1) : Prop :=
  Forall (λ c, valid_mac c = true) (clients (selectors s)) ∧
  ((applications (selectors s) ≠ [] ∨ categories (selectors s) ≠ []) → clients (selectors s) ≠ []).

Lemma well_selected_same s t : same_policy s t → well_selected s → well_selected t.
Proof.
  intros Hs. change (well_selected (without_confidence s) → well_selected (without_confidence t)). by rewrite Hs.
Qed.

Lemma checked_selected known s : checked known (normal_spec s) → well_selected (normal_spec s).
Proof.
  intros Hck. split; [apply normal_clients_valid|]. pose proof (ck_action _ _ Hck) as Ha. unfold validate_action in Ha. apply app_nil in Ha as [Ha _]. apply issue_if_nil in Ha.
  intros Hsel. rewrite <- no_selector_false. destruct (no_selector (clients _)); [|done]. rewrite andb_true_r in Ha. apply orb_false_iff in Ha as [Hn1 Hn2].
  rewrite negb_false_iff, no_selector_true in Hn1, Hn2. tauto.
Qed.

Lemma admitted_selected catalog limits s s' ws : validate_spec catalog limits s = Ok (s', [], ws) → well_selected s'.
Proof.
  unfold validate_spec. pose proof (normalize_fst None s) as Hf. pose proof (no_issues_checked None s) as Hc. destruct (normalize_and_validate None s) as [s1 i1]. cbn [fst snd] in Hf, Hc. subst s1.
  destruct (outside_catalog _); [intros [= <- -> _]; by eapply checked_selected, Hc|]. destruct (catalog (normal_spec s)) as [k|e]; [|done]. cbn [mbind result_bind].
  pose proof (normalize_fst (Some k) (normal_spec s)) as Hf. pose proof (no_issues_checked (Some k) (normal_spec s)) as Hc2. destruct (normalize_and_validate (Some k) (normal_spec s)) as [s2 i2].
  cbn [fst snd] in Hf, Hc2. subst s2. intros (w & _ & [= <- -> _])%bind_Ok. eapply checked_selected, Hc2. done.
Qed.

Definition policies_selected (d : Database) : Prop := ∀ i r s, traffic_policies d !! i = Some r → spec_from_json (spec_json r) = Ok s → well_selected s.

Lemma changed_selected g i expected row act actor before now d d' : changed g i expected row act actor before now d d' →
  (∀ r s, row = Some r → spec_from_json (spec_json r) = Ok s → well_selected s) → policies_selected d → policies_selected d'.
Proof.
  intros [_ _ -> _ _] Hrow Hd j r s. rewrite commit_change_policies. destruct (decide (j = i)); [by apply Hrow|]. apply Hd.
Qed.

Lemma same_policies_selected d d' : traffic_policies d' = traffic_policies d → policies_selected d → policies_selected d'.
Proof. intros E Hd. unfold policies_selected. by rewrite E. Qed.

Lemma call_selected c sv : database_ok (db sv) → policies_selected (db sv) → policies_selected (db (fst (call c sv))).
Proof.
  intros Hok Hsel. destruct (is_error (snd (call c sv))) eqn:He; [by rewrite failed_call|]. revert He.
  destruct c; cbn [call]; unfold answer; cbn [fst snd].
  1,2: unfold admitted_call; destruct (validate_spec _ _ _) as [[[s' [|]] ws]|] eqn:Ev; try done;
    match goal with |- context [let '(sv, r) := ?t in _] => destruct t as [sv' [m|e]] eqn:E end; try done; cbn; intros _; apply admitted_selected in Ev.
  3-11: match goal with |- context [fst ?t] => destruct t as [sv' [m|e]] eqn:E end; try done; cbn; intros _.
  - apply create_changed in E as (row & Hch & Hj & _); [|done]. eapply changed_selected; [exact Hch| |done]. intros r t [= <-] Ht. eapply well_selected_same; [|exact Ev]. by eapply spec_json_fields.
  - apply update_changed in E as [(_ & -> & _)|(r & be & row & _ & _ & _ & Hj & Hch & _)]; [done| |done]. eapply changed_selected; [exact Hch| |done].
    intros r' t [= <-] Ht. eapply well_selected_same; [|exact Ev]. by eapply spec_json_fields.
  - apply set_enabled_changed in E as [(_ & -> & _)|(r & act & be & row & Hr & _ & _ & _ & (s0 & Hs0 & Hj) & Hch & _)]; [done| |done]. eapply changed_selected; [exact Hch| |done].
    intros r' t [= <-] Ht. eapply well_selected_same; [by eapply spec_json_fields|]. exact (Hsel _ _ _ Hr Hs0).
  - apply delete_changed in E as (r & be & _ & Hch & _); [|done]. by eapply changed_selected.
  - apply republish_Ok in E as [-> _]; [|done]. by eapply same_policies_selected.
  - apply connect_Ok in E. eapply same_policies_selected; [|done]. apply (written_frame _ _ _ _ _ _ E).
  - apply delivery_Ok in E. eapply same_policies_selected; [|done]. apply (written_frame _ _ _ _ _ _ E).
  - apply disconnect_Ok in E as [->|(w & _ & _ & ->)]; by eapply same_policies_selected.
  - apply health_Ok in E as [json E]. eapply same_policies_selected; [|done]. apply (written_frame _ _ _ _ _ _ E).
  - apply ack_Ok in E as [[-> ->]|(-> & _ & results & cps & cur & d1 & _ & Hw & [m ->])]; [by eapply same_policies_selected|].
    eapply same_policies_selected; [|done]. apply (written_frame _ _ _ _ _ _ Hw).
  - apply metrics_Ok in E as [[-> ->]|(-> & _ & [mt ->])]; by eapply same_policies_selected.
Qed.

Lemma run_selected cs w : database_ok (db (service w)) → policies_selected (db (service w)) → policies_selected (db (service (run cs w))).
Proof.
  revert w. induction cs as [|c cs IH]; intros w Hw Hs; [done|]. apply IH; [apply (run_ok [c] w Hw)|]. pose proof (call_selected c (service w) Hw Hs) as Hc. unfold step. by destruct (call c (service w)).
Qed.

(** * The theorems *)

(** C19: Whatever calls arrive at the policy service and whatever statements of the
    database fail in between, the audit log is a complete history: replaying its
    events gives exactly the stored policies, the revisions that it tells of each
    gateway strictly increase, and the last of them is the gateway's current
    revision, the same in the table of gateways and in that of deployments. *)
Theorem audit_log_replays os cs : let d := db (service (run cs (start os))) in
  replay (policy_events d) = spec_json <$> traffic_policies d ∧
  ∀ g, StronglySorted Z.lt (gateway_revisions g (policy_events d)) ∧
    default 0 (last (gateway_revisions g (policy_events d))) = default 0 (policy_gateways d !! g) ∧
    (∀ r, policy_gateways d !! g = Some r → ∃ w, policy_deployments d !! g = Some w ∧ dep_desired_revision w = r).
Proof.
  intros d. pose proof (run_ok cs _ (start_ok os)) as Hok. fold d in Hok. split; [apply (do_audit _ Hok)|]. intros g. split; [apply (do_sorted _ Hok)|].
  split; [apply (do_last _ Hok)|]. intros r Hr. by destruct (do_revision _ Hok g r Hr).
Qed.

(** C22: Of the policies that the service stores, whatever was created, changed,
    enabled and deleted through the HTTP interface, no two application limits apply
    to the same flow; each gateway has at most 256 policies of together 192 KiB,
    none above 8 KiB; and the columns of every row say what its document says. *)
Theorem stored_limits_disjoint os cs : let d := db (service (run cs (start os))) in
  (∀ i i' r r' s s' req, i ≠ i' → traffic_policies d !! i = Some r → traffic_policies d !! i' = Some r' →
     spec_from_json (spec_json r) = Ok s → spec_from_json (spec_json r') = Ok s' → kind (action s) = Limit → kind (action s') = Limit →
     preview_matches req (mkEntry i s) = true → preview_matches req (mkEntry i' s') = false) ∧
  (∀ g, zlen (gateway_policies g d) ≤ 256 ∧ json_bytes (gateway_policies g d) ≤ 192 * 1024) ∧
  ∀ i r, traffic_policies d !! i = Some r → str_len (spec_json r) ≤ 8 * 1024 ∧ row_agrees r.
Proof.
  intros d. pose proof (run_ok cs _ (start_ok os)) as Hok. pose proof (run_selected cs _ (start_ok os)) as Hsel. fold d in Hok, Hsel.
  assert (policies_selected d) as Hs by (apply Hsel; intros i r s Hr; cbn in Hr; by rewrite lookup_empty in Hr). split_and!.
  - intros i i' r r' s s' req Hne Hr Hr' Hp Hp' Hk Hk' Hm. destruct (Hs _ _ _ Hr Hp) as [Hv Hc], (Hs _ _ _ Hr' Hp') as [Hv' Hc'].
    destruct (preview_matches req (mkEntry i' s')) eqn:Hm'; [|done]. rewrite <- Hm'. assert (∀ j t, preview_matches req (mkEntry j t) = true → is_application_policy (mkEntry j t) = true) as Happ.
    { intros j t. unfold preview_matches. rewrite !andb_true_iff. tauto. }
    assert (∀ j t, preview_matches req (mkEntry j t) = true → applications (selectors t) ≠ [] ∨ categories (selectors t) ≠ []) as Hcl.
    { intros j t Ht%Happ. unfold is_application_policy in Ht. apply orb_true_iff in Ht. rewrite !negb_true_iff, !no_selector_false in Ht. exact Ht. }
    apply (disjoint_limits (mkEntry i s) (mkEntry i' s')); try done; [by eapply (do_overlap _ Hok i i')|by eapply Hc, Hcl|by eapply Hc', Hcl].
  - intros g. split; [apply (do_count _ Hok)|apply (do_bytes _ Hok)].
  - intros i r Hr. destruct (do_rows _ Hok i r Hr). done.
Qed.

(** ** Edits *)

(** The gateway whose policies a call edits, and the revision that it expects. *)
Definition edit_of (c : Call) (d : Database) : option (string * Z) :=
  match c with
  | CCreate _ _ _ _ s _ e => Some (str_trim (spec_gateway_id s), e)
  | CUpdate _ _ _ i _ _ e _ | CSetEnabled _ i _ _ e _ | CDelete _ i _ e => (λ r, (row_gateway_id r, e)) <$> traffic_policies d !! i
  | _ => None
  end.

(** The policy that it edits. *)
Definition edited (c : Call) : string :=
  match c with CCreate _ _ i _ _ _ _ | CUpdate _ _ _ i _ _ _ _ | CSetEnabled _ i _ _ _ _ | CDelete _ i _ _ => i | _ => EmptyString end.

Lemma validate_spec_normal catalog limits s s' issues ws : validate_spec catalog limits s = Ok (s', issues, ws) → s' = normal_spec s.
Proof.
  unfold validate_spec. pose proof (normalize_fst None s) as Hf. destruct (normalize_and_validate None s) as [s1 i1]. cbn [fst] in Hf. subst s1.
  destruct (outside_catalog _); [by intros [= <- _ _]|]. destruct (catalog (normal_spec s)) as [k|e]; [|done]. cbn [mbind result_bind].
  pose proof (normalize_fst (Some k) (normal_spec s)) as Hf. rewrite normal_spec_idemp in Hf. destruct (normalize_and_validate (Some k) (normal_spec s)) as [s2 i2].
  cbn [fst] in Hf. subst s2. by intros (w & _ & [= <- _ _])%bind_Ok.
Qed.

Lemma edit_effect c sv g e m : database_ok (db sv) → edit_of c (db sv) = Some (g, e) → snd (call c sv) = RMutation (Ok m) →
  revision_of g (db sv) = e ∧ (mut_changed m = false → db (fst (call c sv)) = db sv) ∧
  (mut_changed m = true → mut_revision m = e + 1 ∧ ∃ row act actor before now, changed g (edited c) e row act actor before now (db sv) (db (fst (call c sv)))).
Proof.
  intros Hok. destruct c; try done; cbn [call edit_of edited]; unfold answer; cbn [fst snd].
  1,2: unfold admitted_call; destruct (validate_spec _ _ _) as [[[s' [|]] ws]|] eqn:Ev; try done;
    match goal with |- context [let '(sv, r) := ?t in _] => destruct t as [sv' [m'|e']] eqn:E end; try done; cbn; intros Hed [= <-]; apply validate_spec_normal in Ev.
  3,4: match goal with |- context [fst ?t] => destruct t as [sv' [m'|e']] eqn:E end; try done; cbn; intros Hed [= <-].
  - apply create_changed in E as (row & Hch & _ & Hm & Hr); [|done]. subst s'. cbn in Hch. injection Hed as <- <-. rewrite Hm.
    split; [apply Hch|]. split; [done|]. intros _. split; [done|]. do 5 eexists. exact Hch.
  - apply fmap_Some in Hed as (r0 & Hr0 & [= -> ->]). apply update_changed in E as [(Hm & Hd & r & Hr & Hrev)|(r & be & row & Hr & _ & _ & _ & Hch & Hm & Hrv)]; [| |done];
      assert (r = r0) as -> by congruence; rewrite Hm; split; try done; [by apply Hch|]. split; [done|]. intros _. split; [done|]. do 5 eexists. exact Hch.
  - apply fmap_Some in Hed as (r0 & Hr0 & [= -> ->]). apply set_enabled_changed in E as [(Hm & Hd & r & Hr & Hrev)|(r & act & be & row & Hr & _ & _ & _ & _ & Hch & Hm & Hrv)]; [| |done];
      assert (r = r0) as -> by congruence; rewrite Hm; split; try done; [by apply Hch|]. split; [done|]. intros _. split; [done|]. do 5 eexists. exact Hch.
  - apply fmap_Some in Hed as (r0 & Hr0 & [= -> ->]). apply delete_changed in E as (r & be & Hr & Hch & Hm & Hrv); [|done]. assert (r = r0) as -> by congruence. rewrite Hm.
    split; [by apply Hch|]. split; [done|]. intros _. split; [done|]. do 5 eexists. exact Hch.
Qed.

(** C18: An edit of a policy succeeds only with the gateway's current revision. If it
    changes anything, it changes that one policy and raises the revision by one,
    and no other edit that expected the same revision succeeds afterwards,
    whatever happens in between: a stale edit never overwrites a newer one. *)
Theorem edits_serialized os cs c g e m : let w := run cs (start os) in
  edit_of c (db (service w)) = Some (g, e) → snd (call c (service w)) = RMutation (Ok m) →
  revision_of g (db (service w)) = e ∧ (mut_changed m = false → db (service (step w c)) = db (service w)) ∧
  (mut_changed m = true → mut_revision m = e + 1 ∧ revision_of g (db (service (step w c))) = e + 1 ∧
     (∀ j, j ≠ edited c → traffic_policies (db (service (step w c))) !! j = traffic_policies (db (service w)) !! j) ∧
     ∀ cs' c' m', let w' := run cs' (step w c) in edit_of c' (db (service w')) = Some (g, e) → snd (call c' (service w')) ≠ RMutation (Ok m')).
Proof.
  intros w Hed Hres. pose proof (run_ok cs _ (start_ok os)) as Hok. fold w in Hok.
  assert (fst (call c (service w)) = service (step w c)) as Hst by (unfold step; by destruct (call c (service w))).
  destruct (edit_effect c (service w) g e m Hok Hed Hres) as (Hrev & Hsame & Hchg). rewrite Hst in *. split; [done|]. split; [done|]. intros Hm.
  destruct (Hchg Hm) as (Hr & row & act & actor & before & now & Hch). assert (0 ≤ e) as He by (rewrite <- Hrev; apply revision_of_nonneg).
  pose proof (changed_revision _ _ _ _ _ _ _ _ _ _ g Hch He) as Hnew. rewrite decide_True in Hnew by done. split; [done|]. split; [done|]. split.
  - intros j Hj. rewrite (ch_db _ _ _ _ _ _ _ _ _ _ Hch), commit_change_policies, decide_False by done. done.
  - intros cs' c' m' w' Hed' Hres'. assert (database_ok (db (service (step w c)))) as Hok1 by (rewrite <- Hst; by apply call_ok).
    pose proof (run_revision cs' _ g Hok1) as Hle. pose proof (run_ok cs' _ Hok1) as Hok2. fold w' in Hle, Hok2.
    destruct (edit_effect c' (service w') g e m' Hok2 Hed' Hres') as (Hrev' & _). lia.
Qed.

(** ** Sessions *)

Definition report_of (c : Call) : option (string * SessionIdentity) :=
  match c with
  | CDeliver g x _ _ | CDisconnect g x | CHealth g x _ _ _ _ _ _ | CAck g x _ | CMetrics g x _ _ _ _ => Some (g, x)
  | _ => None
  end.

(** Connection ids count the connections of a collector process. *)
Definition call_wf (c : Call) : Prop :=
  (∀ g e i, c = CConnect g e i → 0 ≤ i ≤ i64_max) ∧ ∀ g x, report_of c = Some (g, x) → 0 ≤ connection_id x ≤ i64_max.

Definition owners_wf (w : World) : Prop := ∀ g e i, owners w !! g = Some (e, i) → 0 ≤ i.

Lemma step_owners w c : call_wf c → owners_wf w → owners_wf (step w c).
Proof.
  intros [Hc _] Hw g e i. unfold step. destruct (call c (service w)) as [sv r]. cbn [owners].
  destruct c as [| | | | |g0 e0 i0| | | | |]; try apply Hw. destruct r as [| |[[]|]|]; try apply Hw. destruct (Hc g0 e0 i0 eq_refl). destruct (decide (g = g0)) as [->|]; [|rewrite lookup_insert_ne by done; apply Hw].
  rewrite lookup_insert_eq. intros [= <- <-]. unfold to_i64. lia.
Qed.

Lemma run_owners cs w : Forall call_wf cs → owners_wf w → owners_wf (run cs w).
Proof. intros Hcs. revert w. induction Hcs as [|c cs Hc _ IH]; intros w Hw; [done|]. apply IH. by apply step_owners. Qed.

(** Only the session that owns the row passes the checks. *)
Lemma owned_owner o a x w : row_inv o a w → 0 ≤ connection_id x ≤ i64_max → (∀ e i, o = Some (e, i) → 0 ≤ i) → o ≠ Some (connection_epoch x, connection_id x) →
  owned_by x w = false ∧ row_owned_by x w = false.
Proof.
  intros [Hown _ _] Hx Hpos Hne. unfold owned_by, row_owned_by. destruct (bool_decide (dep_agent_connection_epoch w = Some (connection_epoch x))) eqn:E; [|done].
  apply bool_decide_eq_true in E. destruct o as [[e i]|]; [|congruence]. destruct Hown as [He Hi]. assert (e = connection_epoch x) as -> by congruence. specialize (Hpos _ _ eq_refl).
  rewrite Hi. unfold to_i64, to_u64. cbn [andb]. rewrite !Z.eqb_neq. assert (i ≠ connection_id x) by congruence. lia.
Qed.

Lemma written_refused g wh f r d d' : written g wh f r d d' → wh (row_of g d) = false → r = Superseded ∧ d' = ensured g d.
Proof. intros [(Ht & _)|(_ & -> & ->)] Hf; [congruence|done]. Qed.

(** A report of another session than the owner. *)
Lemma foreign_report c sv g x : report_of c = Some (g, x) → owned_by x (row_of g (db sv)) = false → row_owned_by x (row_of g (db sv)) = false →
  snd (call c sv) ≠ RWrite (Ok WriteApplied) ∧ (db (fst (call c sv)) = db sv ∨ db (fst (call c sv)) = ensured g (db sv)).
Proof.
  intros Hrep Ho Hro. destruct (is_error (snd (call c sv))) eqn:He; [split; [by intros E; rewrite E in He|left; by apply failed_call]|]. revert He.
  destruct c; try done; injection Hrep as -> ->; cbn [call]; unfold answer; cbn [fst snd];
    match goal with |- context [fst ?t] => destruct t as [sv' [m|e]] eqn:E end; try done; cbn; intros _.
  - apply delivery_Ok, written_refused in E as [-> ->]; [auto|by rewrite Ho].
  - split; [done|]. apply disconnect_Ok in E as [->|(w & Hw & Hw' & _)]; [auto|]. unfold row_of in Ho. rewrite Hw in Ho. cbn in Ho. congruence.
  - apply health_Ok in E as [json E]. apply written_refused in E as [-> ->]; auto.
  - apply ack_Ok in E as [[-> ->]|(-> & Hst & _)]; [auto|]. unfold is_stale in Hst. by rewrite Hro in Hst.
  - apply metrics_Ok in E as [[-> ->]|(-> & Hst & _)]; [auto|congruence].
Qed.

(** ** What was applied stays applied *)

Definition at_least (a b : Z) (w : DeploymentRow) : Prop := a ≤ dep_applied_revision w ∧ b ≤ dep_agent_applied_revision w.

Lemma call_applied c sv g a b : database_ok (db sv) → at_least a b (row_of g (db sv)) → at_least a b (row_of g (db (fst (call c sv)))).
Proof.
  intros Hok Hal. destruct (is_error (snd (call c sv))) eqn:He; [by rewrite failed_call|]. pose proof (call_effect c sv Hok) as Heff. destruct (is_policy_call c) eqn:Hp.
  { by eapply (policy_call_row (at_least a b)); [|done|by apply policy_call_response|]. }
  clear Heff. revert He. destruct c; try done; cbn [call]; unfold answer; cbn [fst snd];
    match goal with |- context [fst ?t] => destruct t as [sv' [m|e]] eqn:E end; try done; cbn; intros _.
  - apply connect_Ok in E. rewrite (written_row_of _ _ _ _ _ _ g E). by destruct (decide _) as [[-> _]|].
  - apply delivery_Ok in E. rewrite (written_row_of _ _ _ _ _ _ g E). by destruct (decide _) as [[-> _]|].
  - apply disconnect_Ok in E as [->|(w & Hw & _ & ->)]; [done|]. rewrite insert_row_of. destruct (decide (g = gateway_id)) as [->|]; [|done]. unfold row_of in Hal. by rewrite Hw in Hal.
  - apply health_Ok in E as [json E]. rewrite (written_row_of _ _ _ _ _ _ g E). destruct (decide _) as [[-> _]|]; [|done]. unfold at_least in *. cbn. lia.
  - apply ack_Ok in E as [[-> ->]|(-> & _ & results & cps & cur & d1 & _ & Hw & Hb)]; [by rewrite ensured_row_of|].
    rewrite (but_metrics_row_of _ _ _ Hb), (written_row_of _ _ _ _ _ _ g Hw). destruct (decide _) as [[-> _]|]; [|done]. unfold at_least in *. cbn.
    destruct (a_status a0); cbn [is_enforcing andb]; try lia. destruct (Z.leb_spec (dep_applied_revision (row_of gateway_id (db sv))) (to_i64 (a_config_revision a0))); lia.
  - apply metrics_Ok in E as [[-> ->]|(-> & _ & Hb)]; [by rewrite ensured_row_of|]. by rewrite (but_metrics_row_of _ _ _ Hb), ensured_row_of.
Qed.

(** C21: A report of an agent session that does not own the deployment of its gateway,
    because another session connected after it, changes no policy, no deployment
    and no metric and is not acknowledged as written; within one process of the
    collector a session is never replaced by an earlier one; and no call of any kind
    lowers the revision that a gateway has applied. *)
Theorem sessions_fenced os cs c : let w := run cs (start os) in let d := db (service w) in let d' := db (service (step w c)) in
  Forall call_wf cs → call_wf c →
  (∀ g x, report_of c = Some (g, x) → owners w !! g ≠ Some (connection_epoch x, connection_id x) →
     snd (call c (service w)) ≠ RWrite (Ok WriteApplied) ∧ traffic_policies d' = traffic_policies d ∧ policy_client_metrics d' = policy_client_metrics d ∧
     ∀ g', row_of g' d' = row_of g' d) ∧
  (∀ g e i j, c = CConnect g e i → snd (call c (service w)) = RWrite (Ok WriteApplied) → owners w !! g = Some (e, j) → j ≤ i) ∧
  ∀ g, dep_applied_revision (row_of g d) ≤ dep_applied_revision (row_of g d') ∧ dep_agent_applied_revision (row_of g d) ≤ dep_agent_applied_revision (row_of g d').
Proof.
  intros w d d' Hcs [Hci Hcx]. pose proof (run_ok cs _ (start_ok os)) as Hok. pose proof (run_rows cs _ (start_ok os) (start_rows os)) as Hrows.
  assert (owners_wf w) as How by (apply run_owners; [done|]; intros g e i Hg; cbn in Hg; by rewrite lookup_empty in Hg). fold w in Hok, Hrows.
  assert (fst (call c (service w)) = service (step w c)) as Hst by (unfold step; by destruct (call c (service w))). unfold d'. rewrite <- Hst. split_and!.
  - intros g x Hrep Hne. destruct (owned_owner _ _ x _ (Hrows g) (Hcx g x Hrep)) as [Ho Hro]; [by intros e i; apply How|done|].
    destruct (foreign_report c (service w) g x Hrep Ho Hro) as [Hr [Hd|Hd]]; rewrite Hd; split_and!; try done. intros g'. apply ensured_row_of.
  - intros g e i j -> Hr Hown. cbn [call] in Hr. unfold answer in Hr. destruct (mark_agent_connected g e i (service w)) as [sv [r|]] eqn:E; [|done]. cbn in Hr. injection Hr as ->.
    apply connect_Ok in E as [(Hwh & _)|(_ & [=] & _)]. destruct (Hrows g) as [Hinv _ _]. rewrite Hown in Hinv. destruct Hinv as [He Hi]. rewrite He, bool_decide_eq_true_2, Hi in Hwh by done.
    cbn in Hwh. apply Z.leb_le in Hwh. unfold to_i64 in Hwh. lia.
  - intros g. apply call_applied; [done|]. split; apply Z.le_refl.
Qed.

(** ** What is shown of a policy *)

Lemma read_deployment_Ok g w sv sv' v : policy_deployments (db sv) !! g = Some w → read_deployment g sv = (sv', Ok v) →
  v = (to_u64 (dep_desired_revision w), to_u64 (dep_applied_revision w), Some w).
Proof.
  unfold read_deployment. intros Hw Hs. apply stM_bind_Ok in Hs as (s1 & n & [_ Hd]%query_Ok & Hs). apply query_Ok in Hs as [Hq _].
  rewrite Hd, Hw in Hq. by injection Hq as <-.
Qed.

Lemma shown_status i on desired w : ex_status (policy_execution_from_values i on desired (Some w)) = "applied" →
  dep_agent_connected w = true ∧ ∃ x, reported_result i desired w = Some x ∧ status x = Applied.
Proof.
  cbn. destruct (dep_agent_connected w); cbn [negb]; [|by destruct (_ && _)%bool]. destruct (on && _)%bool; [done|].
  destruct (reported_result i desired w) as [x|]; [|done]. intros Hx. split; [done|]. exists x. split; [done|]. by destruct (status x).
Qed.
End world.

(** Reports are read back as they were written. *)
Class ReportJsonLaws `{ReportJson} : Prop := { results_roundtrip rs j : results_to_json rs = Ok j → results_from_json j = Some rs }.

Section shown.
Context `{ReportJsonLaws} `{SpecJson} `{!SpecJsonLaws} `{Calendar}.

(** A policy is shown as applied when its gateway's agent is connected, and the
    acknowledgement that was accepted last from that gateway is of the current
    revision and reports this policy as applied. *)
Lemma shown_applied w i p sv' : database_ok (db (service w)) → rows_inv w →
  detail i (service w) = (sv', Ok p) → execution_status (detail_policy p) = "applied" →
  ∃ r a x, traffic_policies (db (service w)) !! i = Some r ∧ dep_agent_connected (row_of (row_gateway_id r) (db (service w))) = true ∧
    acks w !! row_gateway_id r = Some a ∧ to_i64 (a_config_revision a) = revision_of (row_gateway_id r) (db (service w)) ∧
    x ∈ a_results a ∧ result_policy_id x = i ∧ status x = Applied.
Proof.
  intros Hok Hrows Hs Happ.
  unfold detail in Hs. apply stM_bind_Ok in Hs as (s1 & c & (Hd1 & r & Hr & Hc)%require_record_Ok & Hs). apply stM_bind_Ok in Hs as (s2 & es & [_ Hd2]%query_Ok & Hs).
  destruct (stored_policy i r c _ Hok Hr Hc) as (Hg & _ & Hsp & _ & _). rewrite Hg in Hs. set (g := row_gateway_id r) in *.
  destruct (do_rows _ Hok i r Hr) as [(n & Hn & Hn1) _ _ _ _]. destruct (do_revision _ Hok g n Hn) as (Hnb & row & Hrow & Hdes).
  apply stM_bind_Ok in Hs as (s3 & v & Hv & Hs). apply (read_deployment_Ok g row) in Hv as ->; [|by rewrite Hd2, Hd1]. apply mret_Ok in Hs as [-> ->].
  cbn [detail_policy with_execution execution_status] in Happ. apply map_record_Ok in Hc as (_ & Hid & _). rewrite Hid in Happ.
  apply shown_status in Happ as (Hcon & x & Hx & Hst). assert (row_of g (db (service w)) = row) as Hro by (unfold row_of; by rewrite Hrow).
  unfold reported_result in Hx. destruct (Z.eqb_spec (to_u64 (dep_reported_revision row)) (to_u64 (dep_desired_revision row))) as [Heq|]; [|done].
  assert (dep_reported_revision row = n) as Hrep by (unfold to_u64 in Heq; lia). destruct (Hrows g) as [_ Hack Hres]. rewrite Hro in Hack, Hres.
  destruct Hack as [Hz|(a & Ha & Hrev)]; [lia|]. specialize (Hres a Ha). apply results_roundtrip in Hres. rewrite Hres in Hx. cbn in Hx.
  apply List.find_some in Hx as [Hin%list_elem_of_In Heqb%String.eqb_eq]. exists r, a, x. fold g. rewrite Hro. split_and!; try done.
  unfold revision_of. fold g in Hn. rewrite Hn. cbn. unfold to_u64. lia.
Qed.
End shown.

Module Example.
#[local] Instance selectors_eq_dec : EqDecision PolicySelectors.
Proof. assert (EqDecision f64) by solve_decision. solve_decision. Defined.
#[local] Instance network_eq_dec : EqDecision PolicyNetworkSelector.
Proof. solve_decision. Defined.
#[local] Instance action_eq_dec : EqDecision PolicyAction.
Proof. solve_decision. Defined.
#[local] Instance window_eq_dec : EqDecision PolicyScheduleWindow.
Proof. solve_decision. Defined.
#[local] Instance schedule_eq_dec : EqDecision PolicySchedule.
Proof. solve_decision. Defined.
#[local] Instance spec_eq_dec : EqDecision PolicySpecV1.
Proof. solve_decision. Defined.

(** An encoding of one policy and of the results that report one policy as applied. *)
Definition evening : PolicySpecV1 := normal_spec (Admission.Example.submitted [Admission.Example.upper_mac] ["tv"]).

Definition one_spec : SpecJson :=
  {| spec_to_json s := if bool_decide (s = evening) then Ok "evening" else Err "unknown policy";
     spec_from_json j := if String.eqb j "evening" then Ok evening else Err "expected value" |}.

Lemma one_spec_laws : @SpecJsonLaws one_spec.
Proof. split. intros s j t. cbn. case_bool_decide as Hs; [|done]. intros [= <-]. cbn. intros [= <-]. by subst. Qed.

Definition one_result : ReportJson :=
  {| capabilities_to_json _ := Ok "capabilities";
     capabilities_from_json _ := None;
     results_to_json rs := match rs with [mkResult p Applied None None None] => Ok p | _ => Err "unknown results" end;
     results_from_json j := Some [mkResult j Applied None None None];
     without_client_total j := j;
     enforced_ids _ := ∅ |}.

Lemma one_result_laws : @ReportJsonLaws one_result.
Proof. split. intros rs j. cbn. destruct rs as [|[p [] [|] [|] [|]] [|]]; by intros [= <-]. Qed.

Definition create_evening (uuid : string) (expected : Z) : Call :=
  CCreate Admission.Example.registered Admission.Example.no_capabilities uuid 1000 (Admission.Example.submitted [Admission.Example.upper_mac] ["tv"]) "admin" expected.
Definition acknowledge (p : string) (i revision : Z) : Call :=
  CAck "gw" (mkSession "epoch" i) (mkAckReport "boot" "controller" revision 1 "checksum" PApplied capabilities_unsupported [mkResult p Applied None None None] 2000).
Abbreviation run_example cs := (@run one_result one_spec Compiler.Example.utc cs (start [])).
End Example.

Lemma edits_serialized_witness : let w := Example.run_example [Example.create_evening "p1" 0] in
  revision_of "gw" (db (service w)) = 1 ∧ (∃ m, snd (@call Example.one_result Example.one_spec Compiler.Example.utc (Example.create_evening "p2" 1) (service w)) = RMutation (Ok m)) ∧
  ∀ m, snd (@call Example.one_result Example.one_spec Compiler.Example.utc (Example.create_evening "p2" 0) (service w)) ≠ RMutation (Ok m).
Proof.
  split; [vm_compute; reflexivity|]. split; [eexists; vm_compute; reflexivity|]. intros m'.
  edestruct (@edits_serialized Example.one_result Example.one_spec Example.one_spec_laws Compiler.Example.utc [] [] (Example.create_evening "p1" 0) "gw" 0)
    as (_ & _ & Hc); [vm_compute; reflexivity|vm_compute; reflexivity|].
  destruct Hc as (_ & _ & _ & Hc); [vm_compute; reflexivity|]. apply (Hc [] (Example.create_evening "p2" 0) m'). vm_compute. reflexivity.
Defined.

Lemma sessions_fenced_witness : let cs := [CConnect "gw" "epoch" 1; CConnect "gw" "epoch" 2] in
  snd (@call Example.one_result Example.one_spec Compiler.Example.utc (Example.acknowledge "p1" 2 1) (service (Example.run_example cs))) = RWrite (Ok WriteApplied) ∧
  snd (@call Example.one_result Example.one_spec Compiler.Example.utc (Example.acknowledge "p1" 1 1) (service (Example.run_example cs))) ≠ RWrite (Ok WriteApplied).
Proof.
  split; [vm_compute; reflexivity|].
  destruct (@sessions_fenced Example.one_result Example.one_spec Example.one_spec_laws Compiler.Example.utc [] [CConnect "gw" "epoch" 1; CConnect "gw" "epoch" 2]
    (Example.acknowledge "p1" 1 1)) as (Hf & _).
  - assert (∀ i, 0 ≤ i ≤ 2 → call_wf (CConnect "gw" "epoch" i)) as Hwf by (intros i Hi; split; [intros g e j [= <- <- <-]; unfold i64_max; lia|done]).
    apply Forall_cons. split; [apply Hwf; lia|]. apply Forall_singleton. apply Hwf. lia.
  - split; [done|]. intros g x [= <- <-]. unfold i64_max. cbn. lia.
  - apply (Hf "gw" (mkSession "epoch" 1)); [reflexivity|]. vm_compute. intros [=].
Defined.

Lemma audit_log_replays_witness : let d := db (service (Example.run_example [Example.create_evening "p1" 0; CDelete 2000 "p1" "admin" 1])) in
  length (policy_events d) = 2%nat ∧ replay (policy_events d) = spec_json <$> traffic_policies d ∧ gateway_revisions "gw" (policy_events d) = [1; 2] ∧
  StronglySorted Z.lt (gateway_revisions "gw" (policy_events d)).
Proof.
  destruct (@audit_log_replays Example.one_result Example.one_spec Example.one_spec_laws Compiler.Example.utc []
    [Example.create_evening "p1" 0; CDelete 2000 "p1" "admin" 1]) as [Hr Hg].
  split; [vm_compute; reflexivity|]. split; [exact Hr|]. split; [vm_compute; reflexivity|]. apply (Hg "gw").
Defined.

Lemma stored_limits_disjoint_witness : let d := db (service (Example.run_example [Example.create_evening "p1" 0])) in
  ∃ r, traffic_policies d !! "p1" = Some r ∧ str_len (spec_json r) ≤ 8 * 1024 ∧ zlen (gateway_policies "gw" d) = 1 ∧ json_bytes (gateway_policies "gw" d) ≤ 192 * 1024.
Proof.
  destruct (@stored_limits_disjoint Example.one_result Example.one_spec Example.one_spec_laws Compiler.Example.utc [] [Example.create_evening "p1" 0]) as (_ & Hg & Hr).
  eexists. split; [vm_compute; reflexivity|]. split; [|split; [vm_compute; reflexivity|apply (Hg "gw")]].
  apply (Hr "p1"). vm_compute. reflexivity.
Defined.
