(* ===== verification/Hub.v ===== *)
(** The collector's policy hub (src/crates/collector/src/policy/push.rs): for each
    gateway the published snapshot, the connected session and the flow commands
    on their way to the agent: the latest decision of each flow, the bounded
    send queue, the commands in flight, their attempts and delayed retries.
    [now] is the wall clock in milliseconds and [at] the monotonic clock, read
    once by each operation. *)

From S2P Require Import Prelude PolicyWire Compiler Evaluator.

Definition FLOW_COMMAND_QUEUE_CAPACITY : Z := 64.
Definition FLOW_COMMAND_STATE_CAPACITY : Z := 16384.
Definition FLOW_COMMAND_IN_FLIGHT_CAPACITY : Z := 64.
Definition FLOW_COMMAND_RETRY_AFTER : Z := 5000.
Definition FLOW_COMMAND_MAX_ATTEMPTS : Z := 3.
Definition FLOW_EVALUATION_CONTEXT_TTL_MS : Z := 300000.

(** Library code: the order in which a [HashMap] with string keys is iterated, and
    the random identifiers of [Uuid::new_v4], the n-th that is drawn. *)
Class MapOrder := { map_order {A} : gmap string A → list (string * A) }.
Class MapOrderLaw `{MapOrder} : Prop := { map_order_perm {A} (m : gmap string A) : map_order m ≡ₚ map_to_list m }.
Class Uuids := { uuid : Z → string }.
Class UuidsLaw `{Uuids} : Prop := { uuid_inj m n : uuid m = uuid n → m = n }.

(** ** State *)

Record PublishedBundle := mkBundle { frame : PolicyWireFrame; bytes : list Z }.

Record InFlightFlowCommand := mkInFlight { fl_key : string; fl_frame : PolicyWireFrame; fl_sent_at : Z; fl_attempts : Z }.

Record DelayedPartialRetry := mkRetry { retry_command_id : string; retry_at : Z }.

(** [updates] is the watch channel of published bundles with the number of values
    sent, [session] the id of the active session, [flow_notify] the stored permit
    of the [Notify]. *)
Record GatewayState := mkGateway {
  generation : Z;
  bundle : option PublishedBundle;
  updates : Z * option PublishedBundle;
  session : option Z;
  session_boot_id : option string;
  flow_boot_id : option string;
  flow_pending : gmap string PolicyWireFrame;
  flow_queue : list string;
  flow_queued : gset string;
  flow_states : gmap string PolicyWireFrame;
  flow_evaluation_contexts : gmap string FlowEvaluationContext;
  flow_in_flight : gmap string InFlightFlowCommand;
  flow_attempts : gmap string Z;
  flow_partial_retries : gmap string DelayedPartialRetry;
  flow_notify : bool;
  flow_capabilities : option (Z * bool * bool);
}.

Definition set_session (a : option Z) (s : GatewayState) : GatewayState :=
  mkGateway (generation s) (bundle s) (updates s) a (session_boot_id s) (flow_boot_id s) (flow_pending s) (flow_queue s) (flow_queued s) (flow_states s)
    (flow_evaluation_contexts s) (flow_in_flight s) (flow_attempts s) (flow_partial_retries s) (flow_notify s) (flow_capabilities s).
Definition set_session_boot (a : option string) (s : GatewayState) : GatewayState :=
  mkGateway (generation s) (bundle s) (updates s) (session s) a (flow_boot_id s) (flow_pending s) (flow_queue s) (flow_queued s) (flow_states s)
    (flow_evaluation_contexts s) (flow_in_flight s) (flow_attempts s) (flow_partial_retries s) (flow_notify s) (flow_capabilities s).
Definition set_flow_boot (a : option string) (s : GatewayState) : GatewayState :=
  mkGateway (generation s) (bundle s) (updates s) (session s) (session_boot_id s) a (flow_pending s) (flow_queue s) (flow_queued s) (flow_states s)
    (flow_evaluation_contexts s) (flow_in_flight s) (flow_attempts s) (flow_partial_retries s) (flow_notify s) (flow_capabilities s).
Definition set_pending (a : gmap string PolicyWireFrame) (s : GatewayState) : GatewayState :=
  mkGateway (generation s) (bundle s) (updates s) (session s) (session_boot_id s) (flow_boot_id s) a (flow_queue s) (flow_queued s) (flow_states s)
    (flow_evaluation_contexts s) (flow_in_flight s) (flow_attempts s) (flow_partial_retries s) (flow_notify s) (flow_capabilities s).
Definition set_queue (a : list string) (b : gset string) (s : GatewayState) : GatewayState :=
  mkGateway (generation s) (bundle s) (updates s) (session s) (session_boot_id s) (flow_boot_id s) (flow_pending s) a b (flow_states s)
    (flow_evaluation_contexts s) (flow_in_flight s) (flow_attempts s) (flow_partial_retries s) (flow_notify s) (flow_capabilities s).
Definition set_states (a : gmap string PolicyWireFrame) (s : GatewayState) : GatewayState :=
  mkGateway (generation s) (bundle s) (updates s) (session s) (session_boot_id s) (flow_boot_id s) (flow_pending s) (flow_queue s) (flow_queued s) a
    (flow_evaluation_contexts s) (flow_in_flight s) (flow_attempts s) (flow_partial_retries s) (flow_notify s) (flow_capabilities s).
Definition set_contexts (a : gmap string FlowEvaluationContext) (s : GatewayState) : GatewayState :=
  mkGateway (generation s) (bundle s) (updates s) (session s) (session_boot_id s) (flow_boot_id s) (flow_pending s) (flow_queue s) (flow_queued s)
    (flow_states s) a (flow_in_flight s) (flow_attempts s) (flow_partial_retries s) (flow_notify s) (flow_capabilities s).
Definition set_in_flight (a : gmap string InFlightFlowCommand) (s : GatewayState) : GatewayState :=
  mkGateway (generation s) (bundle s) (updates s) (session s) (session_boot_id s) (flow_boot_id s) (flow_pending s) (flow_queue s) (flow_queued s)
    (flow_states s) (flow_evaluation_contexts s) a (flow_attempts s) (flow_partial_retries s) (flow_notify s) (flow_capabilities s).
Definition set_attempts (a : gmap string Z) (s : GatewayState) : GatewayState :=
  mkGateway (generation s) (bundle s) (updates s) (session s) (session_boot_id s) (flow_boot_id s) (flow_pending s) (flow_queue s) (flow_queued s)
    (flow_states s) (flow_evaluation_contexts s) (flow_in_flight s) a (flow_partial_retries s) (flow_notify s) (flow_capabilities s).
Definition set_retries (a : gmap string DelayedPartialRetry) (s : GatewayState) : GatewayState :=
  mkGateway (generation s) (bundle s) (updates s) (session s) (session_boot_id s) (flow_boot_id s) (flow_pending s) (flow_queue s) (flow_queued s)
    (flow_states s) (flow_evaluation_contexts s) (flow_in_flight s) (flow_attempts s) a (flow_notify s) (flow_capabilities s).
Definition set_capabilities (a : option (Z * bool * bool)) (s : GatewayState) : GatewayState :=
  mkGateway (generation s) (bundle s) (updates s) (session s) (session_boot_id s) (flow_boot_id s) (flow_pending s) (flow_queue s) (flow_queued s)
    (flow_states s) (flow_evaluation_contexts s) (flow_in_flight s) (flow_attempts s) (flow_partial_retries s) (flow_notify s) a.
Definition set_published (a : Z) (b : option PublishedBundle) (c : Z * option PublishedBundle) (s : GatewayState) : GatewayState :=
  mkGateway a b c (session s) (session_boot_id s) (flow_boot_id s) (flow_pending s) (flow_queue s) (flow_queued s) (flow_states s)
    (flow_evaluation_contexts s) (flow_in_flight s) (flow_attempts s) (flow_partial_retries s) (flow_notify s) (flow_capabilities s).
Definition set_notify (a : bool) (s : GatewayState) : GatewayState :=
  mkGateway (generation s) (bundle s) (updates s) (session s) (session_boot_id s) (flow_boot_id s) (flow_pending s) (flow_queue s) (flow_queued s)
    (flow_states s) (flow_evaluation_contexts s) (flow_in_flight s) (flow_attempts s) (flow_partial_retries s) a (flow_capabilities s).

Definition new_gateway : GatewayState := mkGateway 0 None (0, None) None None None ∅ [] ∅ ∅ ∅ ∅ ∅ ∅ false None.

(** [cancelled] holds the sessions whose cancel flag is raised, [drawn] counts the
    identifiers drawn so far. *)
Record PolicyHub := mkHub {
  controller_epoch : string;
  next_session_id : Z;
  next_flow_context_generation : Z;
  gateways : gmap string GatewayState;
  cancelled : gset Z;
  drawn : Z;
}.

Definition new_hub (epoch : string) : PolicyHub := mkHub epoch 1 1 ∅ ∅ 0.

Record AgentSession := mkAgentSession { as_gateway_id : string; as_id : Z; as_connection_epoch : string }.

(** [gateway_state]: the state of a gateway, created on first use. *)
Definition gateway_state (h : PolicyHub) (g : string) : GatewayState := default new_gateway (gateways h !! g).

Definition put_gateway (h : PolicyHub) (g : string) (s : GatewayState) : PolicyHub :=
  mkHub (controller_epoch h) (next_session_id h) (next_flow_context_generation h) (<[g := s]> (gateways h)) (cancelled h) (drawn h).
Definition draw (h : PolicyHub) (n : Z) : PolicyHub :=
  mkHub (controller_epoch h) (next_session_id h) (next_flow_context_generation h) (gateways h) (cancelled h) (drawn h + n).

(** ** Flow commands *)

Definition flow_command_key (boot_id policy_flow_id : string) : string := String.append boot_id (String (ascii_of_nat 0) policy_flow_id).
Definition flow_command_id (f : PolicyWireFrame) : option string := match f with FlowCommand c => Some (command_id c) | _ => None end.
Definition flow_command_revision (f : PolicyWireFrame) : option Z := match f with FlowCommand c => Some (fc_config_revision c) | _ => None end.
Definition flow_command_boot (f : PolicyWireFrame) : option string := match f with FlowCommand c => Some (fc_boot_id c) | _ => None end.
Definition flow_command_expires_at (f : PolicyWireFrame) : option Z := match f with FlowCommand c => Some (expires_at_ms c) | _ => None end.
Definition flow_command_issued_at (f : PolicyWireFrame) : option Z := match f with FlowCommand c => Some (issued_at_ms c) | _ => None end.
Definition flow_command_lifetime (f : PolicyWireFrame) : option Z :=
  match f with FlowCommand c => Some (i64_saturating_sub (expires_at_ms c) (issued_at_ms c)) | _ => None end.

#[export] Instance FlowCommandOperation_eq_dec : EqDecision FlowCommandOperation.
Proof. solve_decision. Defined.
#[export] Instance FlowVerdict_eq_dec : EqDecision FlowVerdict.
Proof. solve_decision. Defined.

Definition same_flow_decision (l r : PolicyWireFrame) : bool :=
  match l, r with
  | FlowCommand l, FlowCommand r =>
    (String.eqb (fc_gateway_id l) (fc_gateway_id r) && String.eqb (fc_boot_id l) (fc_boot_id r)
     && String.eqb (fc_controller_epoch l) (fc_controller_epoch r) && (fc_config_revision l =? fc_config_revision r)
     && String.eqb (policy_flow_id l) (policy_flow_id r) && bool_decide (operation l = operation r)
     && bool_decide (verdict l = verdict r) && bool_decide (policy_ids l = policy_ids r))%bool
  | _, _ => false
  end.

Definition bundle_revision (b : option PublishedBundle) : option Z := b ← b; (λ i, snd (fst (fst i))) <$> snapshot_identity (frame b).

(** A command that has not expired. *)
Definition live (now : Z) (f : PolicyWireFrame) : bool := match flow_command_expires_at f with Some e => now <? e | None => false end.

(** A command that may still be sent: live and not of an earlier revision. *)
Definition sendable (now : Z) (revision : option Z) (f : PolicyWireFrame) : bool :=
  (live now f && match revision with
                 | Some current => match flow_command_revision f with Some v => current <=? v | None => false end
                 | None => true
                 end)%bool.

(** A command of the published revision. *)
Definition of_revision (revision : option Z) (f : PolicyWireFrame) : bool :=
  match revision with Some current => bool_decide (flow_command_revision f = Some current) | None => true end.

Section hub.
Context `{MapOrder} `{Uuids}.

(** Attempts of the discarded commands are forgotten, unless the command is in
    flight or waits for a retry. *)
Definition forget_discarded (in_flight : gmap string InFlightFlowCommand) (delayed_ids : list string) (attempts : gmap string Z) (i : string) : gmap string Z :=
  if (bool_decide (is_Some (in_flight !! i)) || existsb (String.eqb i) delayed_ids)%bool then attempts else delete i attempts.

Definition fill_flow_queue (now : Z) (s : GatewayState) : GatewayState :=
  let revision := bundle_revision (bundle s) in
  let discarded := omap flow_command_id (snd <$> List.filter (λ p, negb (sendable now revision (snd p))) (map_order (flow_pending s))) in
  let pending := filter (λ p, sendable now revision p.2 = true) (flow_pending s) in
  let delayed_ids := (λ p, retry_command_id (snd p)) <$> map_order (flow_partial_retries s) in
  let attempts := foldl (forget_discarded (flow_in_flight s) delayed_ids) (flow_attempts s) discarded in
  let states := filter (λ p, live now p.2 = true) (flow_states s) in
  let queue := List.filter (λ k, match pending !! k with Some f => of_revision revision f | None => false end) (flow_queue s) in
  let queued : gset string := list_to_set queue in
  let s := set_queue queue queued (set_states states (set_attempts attempts (set_pending pending s))) in
  if FLOW_COMMAND_QUEUE_CAPACITY <=? zlen queue then s
  else
    let available := Z.to_nat (FLOW_COMMAND_QUEUE_CAPACITY - zlen queue) in
    let keys := fst <$> take available (List.filter (λ p, negb (bool_decide (fst p ∈ queued)) && of_revision revision (snd p))%bool (map_order pending)) in
    set_queue (queue ++ keys) (queued ∪ list_to_set keys) s.

(** [if !flow_queue.is_empty() { flow_notify.notify_one() }]. *)
Definition notify_if_queued (s : GatewayState) : GatewayState := if no_selector (flow_queue s) then s else set_notify true s.

Definition clear_flow_delivery (s : GatewayState) : GatewayState :=
  set_pending ∅ (set_queue [] ∅ (set_in_flight ∅ (set_attempts ∅ (set_retries ∅ s)))).

Definition clear_flow_commands (s : GatewayState) : GatewayState :=
  set_pending ∅ (set_queue [] ∅ (set_states ∅ (set_contexts ∅ (set_in_flight ∅ (set_attempts ∅ (set_retries ∅ s)))))).

Definition requeue_flow_states (now : Z) (s : GatewayState) : GatewayState :=
  let s := set_in_flight ∅ (set_attempts ∅ (set_retries ∅ s)) in
  let s := set_pending (filter (λ p, live now p.2 = true) (flow_states s) ∪ flow_pending s) s in
  notify_if_queued (fill_flow_queue now s).

Definition revoke_command (gateway_id boot_id epoch : string) (revision : Z) (i flow : string) (now : Z) : PolicyWireFrame :=
  FlowCommand (mkFlowCommand POLICY_WIRE_VERSION gateway_id boot_id epoch revision i flow Revoke None [] (i64_saturating_add now 30000) now).

(** Each active verdict is replaced by its revocation; [n] is the next identifier. *)
Definition revoke_active (epoch : string) (revision now : Z) (st : GatewayState * Z) (p : string * PolicyWireFrame) : GatewayState * Z :=
  let '(s, n) := st in
  match snd p with
  | FlowCommand c =>
    match operation c with
    | Upsert =>
      let f := revoke_command (fc_gateway_id c) (fc_boot_id c) epoch revision (uuid n) (policy_flow_id c) now in
      (set_pending (<[fst p := f]> (flow_pending s)) (set_states (<[fst p := f]> (flow_states s)) s), n + 1)
    | Revoke => st
    end
  | _ => st
  end.

Definition revoke_active_flow_states (epoch : string) (revision now n : Z) (s : GatewayState) : GatewayState * Z :=
  let '(s, n) := foldl (revoke_active epoch revision now) (s, n) (map_order (flow_states s)) in
  (notify_if_queued (fill_flow_queue now (set_queue [] ∅ s)), n).

(** ** Publishing snapshots *)

Definition is_snapshot_valid (now : Z) (b : PublishedBundle) : bool :=
  match frame b with PolicySnapshot f => now <? valid_until_ms f | _ => now <? 0 end.

Context `{PolicyCodec} `{Calendar}.

(** The bundle that is kept instead of compiling a new one. *)
Definition kept_bundle (now revision : Z) (force_new_generation : bool) (s : GatewayState) : option PublishedBundle :=
  b ← bundle s;
  if match bundle_revision (Some b) with Some current => revision <? current | None => false end then Some b
  else if (negb force_new_generation && bool_decide (bundle_revision (Some b) = Some revision) && is_snapshot_valid now b)%bool then Some b
  else None.

(** [read] is the answer of [PolicyService::snapshot]. *)
Definition refresh_gateway (now : Z) (g : string) (force_new_generation : bool) (read : result string (Z * list PolicySnapshotEntry)) (h : PolicyHub)
    : PolicyHub * result string PublishedBundle :=
  match read with
  | Err e => (h, Err e)
  | Ok (revision, policies) =>
    let s := gateway_state h g in
    let h := put_gateway h g s in
    match kept_bundle now revision force_new_generation s with
    | Some b => (h, Ok b)
    | None =>
      if generation s =? u64_max then (h, Err "policy bundle generation exhausted")
      else
        let generation := generation s + 1 in
        match (f ← compile_snapshot g (controller_epoch h) generation now revision policies; bytes ← encode f; Ok (mkBundle f bytes)) with
        | Err e => (h, Err e)
        | Ok b =>
          let '(s, n) :=
            match snapshot_identity (frame b), bundle_revision (bundle s) with
            | Some (_, epoch, next_revision, _, _), Some old =>
              if negb (old =? next_revision)
              then let '(s, n) := revoke_active_flow_states epoch next_revision now (drawn h) s in (set_capabilities None s, n)
              else (s, drawn h)
            | _, _ => (s, drawn h)
            end in
          (draw (put_gateway h g (set_published generation (Some b) (fst (updates s) + 1, Some b) s)) (n - drawn h), Ok b)
        end
    end
  end.

Definition current_bundle (g : string) (h : PolicyHub) : option PublishedBundle := s ← gateways h !! g; bundle s.

(** ** Sessions *)

Definition register (g : string) (h : PolicyHub) : PolicyHub * result string AgentSession :=
  let i := next_session_id h in
  let h := mkHub (controller_epoch h) ((i + 1) mod 2 ^ 64) (next_flow_context_generation h) (gateways h) (cancelled h) (drawn h) in
  if i =? u64_max then (h, Err "policy connection id exhausted")
  else
    let s := gateway_state h g in
    let cancelled := match session s with Some old => {[old]} ∪ cancelled h | None => cancelled h end in
    let s := clear_flow_delivery (set_session_boot None (set_session (Some i) s)) in
    (mkHub (controller_epoch h) (next_session_id h) (next_flow_context_generation h) (<[g := s]> (gateways h)) cancelled (drawn h),
     Ok (mkAgentSession g i (controller_epoch h))).

Definition is_session (i : Z) (s : GatewayState) : bool := bool_decide (session s = Some i).

(** The state of the gateway of [x], where [x] is the active session. *)
Definition active_state (x : AgentSession) (h : PolicyHub) : option GatewayState :=
  s ← gateways h !! as_gateway_id x; if is_session (as_id x) s then Some s else None.

(** An operation on that state; other sessions change nothing. *)
Definition in_session (x : AgentSession) (f : GatewayState → GatewayState) (h : PolicyHub) : PolicyHub :=
  match active_state x h with Some s => put_gateway h (as_gateway_id x) (f s) | None => h end.

Definition is_active (x : AgentSession) (h : PolicyHub) : bool := bool_decide (is_Some (active_state x h)).

Definition unregister (x : AgentSession) (h : PolicyHub) : PolicyHub * bool := (in_session x (set_session None) h, is_active x h).

(** The boot of the agent, from an accepted health report. *)
Definition latch_boot (now : Z) (boot_id : string) (s : GatewayState) : GatewayState :=
  let first_latch := bool_decide (session_boot_id s = None) in
  let boot_changed := negb (bool_decide (flow_boot_id s = Some boot_id)) in
  let s := if boot_changed then set_capabilities None (clear_flow_commands s) else s in
  let s := set_flow_boot (Some boot_id) (set_session_boot (Some boot_id) s) in
  if (first_latch && negb boot_changed)%bool then requeue_flow_states now s else s.

Definition latch_agent_boot (now : Z) (x : AgentSession) (boot_id : string) (h : PolicyHub) : PolicyHub := in_session x (latch_boot now boot_id) h.

Definition notify_flow_commands (x : AgentSession) (h : PolicyHub) : PolicyHub :=
  match gateways h !! as_gateway_id x with Some s => put_gateway h (as_gateway_id x) (set_notify true s) | None => h end.

(** ** Contexts and capabilities *)

Definition live_contexts (now : Z) (s : GatewayState) : GatewayState :=
  set_contexts (filter (λ p, (now <? ctx_expires_at_ms p.2) = true) (flow_evaluation_contexts s)) s.

Definition other_boot (current : option string) (boot_id : string) : bool :=
  match current with Some b => negb (String.eqb b boot_id) | None => false end.

(** Its part on the state of the gateway; [n] is the generation of the context. *)
Definition remember_context (now n : Z) (boot_id flow : string) (protocol : Z) (request : PolicyPreviewRequest) (s : GatewayState) : GatewayState * option Z :=
  let key := flow_command_key boot_id flow in
  if other_boot (session_boot_id s) boot_id then (s, None)
  else
    let s := if other_boot (flow_boot_id s) boot_id then clear_flow_commands s else s in
    let s := set_session_boot (Some boot_id) (set_flow_boot (Some boot_id) s) in
    let full (s : GatewayState) := FLOW_COMMAND_STATE_CAPACITY <=? Z.of_nat (size (flow_evaluation_contexts s)) in
    let s := if (bool_decide (flow_evaluation_contexts s !! key = None) && full s)%bool then live_contexts now s else s in
    if (bool_decide (flow_evaluation_contexts s !! key = None) && full s)%bool then (s, None)
    else
      let c := mkContext n request boot_id flow protocol (i64_saturating_add now FLOW_EVALUATION_CONTEXT_TTL_MS) in
      (set_contexts (<[key := c]> (flow_evaluation_contexts s)) s, Some n).

Definition remember_flow_context (now : Z) (g boot_id flow : string) (protocol : Z) (request : PolicyPreviewRequest) (h : PolicyHub)
    : PolicyHub * option Z :=
  let n := next_flow_context_generation h in
  if n =? u64_max then (h, None)
  else
    let h := mkHub (controller_epoch h) (next_session_id h) (n + 1) (gateways h) (cancelled h) (drawn h) in
    let '(s, r) := remember_context now n boot_id flow protocol request (gateway_state h g) in
    (put_gateway h g s, r).

Definition forget_flow_context (g boot_id flow : string) (h : PolicyHub) : PolicyHub :=
  match gateways h !! g with
  | Some s => put_gateway h g (set_contexts (delete (flow_command_key boot_id flow) (flow_evaluation_contexts s)) s)
  | None => h
  end.

(** [PolicyHub::flow_capabilities]. *)
Definition hub_flow_capabilities (g : string) (h : PolicyHub) : bool * bool :=
  match gateways h !! g with
  | Some s =>
    match flow_capabilities s with
    | Some (revision, block, limit) => if bool_decide (Some revision = bundle_revision (bundle s)) then (block, limit) else (false, false)
    | None => (false, false)
    end
  | None => (false, false)
  end.

(** ** Queueing *)

(** A newer decision is issued after the previous one of its flow. *)
Definition issue_after (previous : option PolicyWireFrame) (f : PolicyWireFrame) : PolicyWireFrame :=
  match previous ≫= flow_command_issued_at, f with
  | Some previous_issued, FlowCommand c =>
    let ttl := i64_saturating_sub (expires_at_ms c) (issued_at_ms c) in
    let issued := Z.max (issued_at_ms c) (i64_saturating_add previous_issued 1) in
    FlowCommand (mkFlowCommand (fc_wire_version c) (fc_gateway_id c) (fc_boot_id c) (fc_controller_epoch c) (fc_config_revision c) (command_id c)
      (policy_flow_id c) (operation c) (verdict c) (policy_ids c) (i64_saturating_add issued ttl) issued)
  | _, _ => f
  end.

(** The previous decision says the same and is far from its end. *)
Definition still_fresh (f : PolicyWireFrame) (issued : Z) (previous : PolicyWireFrame) : bool :=
  (same_flow_decision previous f
   && match flow_command_expires_at previous with
      | Some expires => i64_saturating_add issued (Z.quot (default 30000 (flow_command_lifetime previous)) 2) <? expires
      | None => false
      end)%bool.

(** The decision [f] replaces that of its flow and waits to be sent. *)
Definition replace_decision (now : Z) (key : string) (f : PolicyWireFrame) (s : GatewayState) : GatewayState :=
  let s := match flow_partial_retries s !! key with
           | Some r => set_attempts (delete (retry_command_id r) (flow_attempts s)) (set_retries (delete key (flow_partial_retries s)) s)
           | None => s
           end in
  let s := set_states (<[key := f]> (flow_states s)) s in
  let previous_id := flow_pending s !! key ≫= flow_command_id in
  let s := set_pending (<[key := f]> (flow_pending s)) s in
  let s := match previous_id with
           | Some i => if (negb (bool_decide (Some i = flow_command_id f)) && bool_decide (flow_in_flight s !! i = None))%bool
                       then set_attempts (delete i (flow_attempts s)) s else s
           | None => s
           end in
  set_notify true (fill_flow_queue now s).

(** The decision was made for another snapshot than the published one. *)
Definition check_snapshot (c : FlowCommandFrame) (b : option PublishedBundle) : result string unit :=
  match b with
  | None => Ok tt
  | Some b =>
    match snapshot_identity (frame b) with
    | None => Err "current policy bundle has no snapshot identity"
    | Some (gateway, epoch, revision, _, _) =>
      reject_if (negb (String.eqb gateway (fc_gateway_id c)) || negb (String.eqb epoch (fc_controller_epoch c)) || negb (revision =? fc_config_revision c))%bool
        "stale_flow_command_snapshot"
    end
  end.

(** The context for which the decision was made is gone or newer. *)
Definition superseded (c : FlowCommandFrame) (key : string) (expected : option Z) (s : GatewayState) : bool :=
  match expected with
  | Some n => (negb (bool_decide (flow_boot_id s = Some (fc_boot_id c)))
               || negb (bool_decide (ctx_generation <$> flow_evaluation_contexts s !! key = Some n)))%bool
  | None => false
  end.

Definition queue_command (now : Z) (c : FlowCommandFrame) (expected : option Z) (s : GatewayState) : GatewayState * result string unit :=
  let key := flow_command_key (fc_boot_id c) (policy_flow_id c) in
  if other_boot (session_boot_id s) (fc_boot_id c) then (s, Ok tt)
  else match check_snapshot c (bundle s) with
  | Err e => (s, Err e)
  | Ok _ =>
    if superseded c key expected s then (s, Ok tt)
    else
      let s := if other_boot (flow_boot_id s) (fc_boot_id c) then clear_flow_commands s else s in
      let s := set_flow_boot (Some (fc_boot_id c)) s in
      let previous := flow_states s !! key in
      if match previous with Some p => still_fresh (FlowCommand c) (issued_at_ms c) p | None => false end then (s, Ok tt)
      else if (bool_decide (previous = None) && (FLOW_COMMAND_STATE_CAPACITY <=? Z.of_nat (size (flow_states s))))%bool
      then (s, Err "flow_command_backpressure")
      else (replace_decision now key (issue_after previous (FlowCommand c)) s, Ok tt)
  end.

Definition queue_flow_command_inner (now : Z) (f : PolicyWireFrame) (expected : option Z) (h : PolicyHub) : PolicyHub * result string unit :=
  match validate f with
  | Err e => (h, Err e)
  | Ok _ =>
    match f with
    | FlowCommand c => let '(s, r) := queue_command now c expected (gateway_state h (fc_gateway_id c)) in (put_gateway h (fc_gateway_id c) s, r)
    | _ => (h, Err "expected a flow_command frame")
    end
  end.

Definition queue_flow_command (now : Z) (f : PolicyWireFrame) : PolicyHub → PolicyHub * result string unit := queue_flow_command_inner now f None.
Definition queue_flow_command_for_context (now : Z) (f : PolicyWireFrame) (n : Z) : PolicyHub → PolicyHub * result string unit :=
  queue_flow_command_inner now f (Some n).

Definition is_upsert (f : PolicyWireFrame) : bool := match f with FlowCommand c => bool_decide (operation c = Upsert) | _ => false end.

Definition revoke_flow_if_active (g boot_id epoch : string) (revision : Z) (flow : string) (now : Z) (h : PolicyHub) : PolicyHub * result string bool :=
  let active := match gateways h !! g ≫= λ s, flow_states s !! flow_command_key boot_id flow with Some f => is_upsert f | None => false end in
  if negb active then (h, Ok false)
  else let '(h, r) := queue_flow_command now (revoke_command g boot_id epoch revision (uuid (drawn h)) flow now) (draw h 1) in (h, _ ← r; Ok true).

(** ** Re-evaluating the known flows *)

(** What a session re-evaluates: the published bundle, the contexts that have not
    expired, and what the agent supports. *)
Record Evaluation := mkEvaluation { ev_bundle : PublishedBundle; ev_contexts : list FlowEvaluationContext; ev_block : bool; ev_limit : bool }.

(** The locked part of [record_flow_capabilities]. *)
Definition record_capabilities (now : Z) (x : AgentSession) (revision : Z) (caps : PolicyCapabilities) (h : PolicyHub) : PolicyHub * option Evaluation :=
  match active_state x h with
  | None => (h, None)
  | Some s =>
    let block := match application_block caps with CapUnsupported => false | _ => true end in
    let limit := match application_limit caps with CapSupported => true | _ => false end in
    let s := live_contexts now s in
    match bundle s with
    | Some b =>
      if bool_decide (bundle_revision (Some b) = Some revision)
      then (put_gateway h (as_gateway_id x) (set_capabilities (Some (revision, block, limit)) s),
            Some (mkEvaluation b (snd <$> map_order (flow_evaluation_contexts s)) block limit))
      else (put_gateway h (as_gateway_id x) s, None)
    | None => (put_gateway h (as_gateway_id x) s, None)
    end
  end.

(** The locked part of [refresh_active_flow_commands]. *)
Definition active_contexts (now : Z) (x : AgentSession) (h : PolicyHub) : PolicyHub * option Evaluation :=
  match active_state x h with
  | None => (h, None)
  | Some s =>
    let s := live_contexts now s in
    (put_gateway h (as_gateway_id x) s,
     b ← bundle s; '(revision, block, limit) ← flow_capabilities s;
     if bool_decide (bundle_revision (Some b) = Some revision) then Some (mkEvaluation b (snd <$> map_order (flow_evaluation_contexts s)) block limit) else None)
  end.

(** One turn of their loops: a context is evaluated and its command queued. *)
Definition evaluate_context (now : Z) (b : PublishedBundle) (block limit : bool) (c : FlowEvaluationContext) (h : PolicyHub) : PolicyHub :=
  match flow_command_for_context (frame b) c block limit now (uuid (drawn h)) with
  | Some f => fst (queue_flow_command_for_context now f (ctx_generation c) (draw h 1))
  | None => h
  end.

Definition evaluate_all (now : Z) (r : PolicyHub * option Evaluation) : PolicyHub :=
  match snd r with
  | Some e => foldl (λ h c, evaluate_context now (ev_bundle e) (ev_block e) (ev_limit e) c h) (fst r) (ev_contexts e)
  | None => fst r
  end.

Definition record_flow_capabilities (now : Z) (x : AgentSession) (revision : Z) (caps : PolicyCapabilities) (h : PolicyHub) : PolicyHub :=
  evaluate_all now (record_capabilities now x revision caps h).
Definition refresh_active_flow_commands (now : Z) (x : AgentSession) (h : PolicyHub) : PolicyHub := evaluate_all now (active_contexts now x h).

(** ** Sending *)

(** The loop over the queue; commands of another boot are dropped. *)
Fixpoint take_queued (turns : nat) (now revision : Z) (boot_id : string) (s : GatewayState) : GatewayState * option PolicyWireFrame :=
  match turns, flow_queue s with
  | S turns, key :: rest =>
    let s := set_queue rest (flow_queued s ∖ {[key]}) s in
    match flow_pending s !! key with
    | None => take_queued turns now revision boot_id s
    | Some f =>
      if negb (bool_decide (flow_command_revision f = Some revision)) then take_queued turns now revision boot_id s
      else
        let s := set_pending (delete key (flow_pending s)) s in
        if negb (bool_decide (flow_command_boot f = Some boot_id)) then take_queued turns now revision boot_id s
        else (notify_if_queued (fill_flow_queue now s), Some f)
    end
  | _, _ => (s, None)
  end.

Definition take_flow_command (now : Z) (x : AgentSession) (current_revision : Z) (current_boot_id : option string) (h : PolicyHub)
    : PolicyHub * option PolicyWireFrame :=
  match current_boot_id, active_state x h with
  | Some boot_id, Some s =>
    if FLOW_COMMAND_IN_FLIGHT_CAPACITY <=? Z.of_nat (size (flow_in_flight s)) then (h, None)
    else
      let s := fill_flow_queue now s in
      let '(s, f) := take_queued (length (flow_queue s)) now current_revision boot_id s in
      (put_gateway h (as_gateway_id x) s, f)
  | _, _ => (h, None)
  end.

Definition mark_sent (at_ : Z) (c : FlowCommandFrame) (s : GatewayState) : GatewayState :=
  let attempts := match flow_attempts s !! command_id c with Some n => Z.min 255 (n + 1) | None => 1 end in
  let key := flow_command_key (fc_boot_id c) (policy_flow_id c) in
  set_in_flight (<[command_id c := mkInFlight key (FlowCommand c) at_ attempts]> (flow_in_flight s))
    (set_attempts (<[command_id c := attempts]> (flow_attempts s)) s).

Definition mark_flow_command_sent (at_ : Z) (x : AgentSession) (f : PolicyWireFrame) (h : PolicyHub) : PolicyHub :=
  match f with FlowCommand c => in_session x (mark_sent at_ c) h | _ => h end.

Definition requeue_unsent (now : Z) (c : FlowCommandFrame) (s : GatewayState) : GatewayState :=
  let key := flow_command_key (fc_boot_id c) (policy_flow_id c) in
  if negb (bool_decide (flow_states s !! key ≫= flow_command_id = Some (command_id c))) then s
  else set_notify true (fill_flow_queue now (set_pending (<[key := FlowCommand c]> (flow_pending s)) s)).

Definition requeue_unsent_flow_command (now : Z) (x : AgentSession) (f : PolicyWireFrame) (h : PolicyHub) : PolicyHub :=
  match f with FlowCommand c => in_session x (requeue_unsent now c) h | _ => h end.

(** ** Retries *)

(** A delayed retry of a partial acknowledgement whose time has come. *)
Definition retry_partial (now : Z) (s : GatewayState) (key : string) : GatewayState :=
  match flow_partial_retries s !! key with
  | None => s
  | Some r =>
    let s := set_retries (delete key (flow_partial_retries s)) s in
    match flow_states s !! key with
    | Some f =>
      if (bool_decide (flow_command_id f = Some (retry_command_id r)) && live now f)%bool
      then set_pending (<[key := f]> (flow_pending s)) s
      else set_attempts (delete (retry_command_id r) (flow_attempts s)) s
    | None => set_attempts (delete (retry_command_id r) (flow_attempts s)) s
    end
  end.

(** A command that was not acknowledged in time. *)
Definition retry_in_flight (s : GatewayState) (i : string) : GatewayState :=
  match flow_in_flight s !! i with
  | None => s
  | Some p =>
    let s := set_in_flight (delete i (flow_in_flight s)) s in
    if bool_decide (flow_states s !! fl_key p ≫= flow_command_id = Some i)
    then set_pending (<[fl_key p := fl_frame p]> (flow_pending s)) s
    else set_attempts (delete i (flow_attempts s)) s
  end.

Definition drop_exhausted (s : GatewayState) (i : string) : GatewayState :=
  set_attempts (delete i (flow_attempts s)) (set_in_flight (delete i (flow_in_flight s)) s).

Definition timed_out (at_ : Z) (p : InFlightFlowCommand) : bool := FLOW_COMMAND_RETRY_AFTER <=? Z.max 0 (at_ - fl_sent_at p).

Definition retry_commands (now at_ : Z) (s : GatewayState) : GatewayState :=
  let ready := fst <$> List.filter (λ p, retry_at (snd p) <=? at_) (map_order (flow_partial_retries s)) in
  let s := foldl (retry_partial now) s ready in
  let due := fst <$> List.filter (λ p, timed_out at_ (snd p) && (fl_attempts (snd p) <? FLOW_COMMAND_MAX_ATTEMPTS))%bool (map_order (flow_in_flight s)) in
  let s := foldl retry_in_flight s due in
  let exhausted := fst <$> List.filter (λ p, timed_out at_ (snd p) && (FLOW_COMMAND_MAX_ATTEMPTS <=? fl_attempts (snd p)))%bool (map_order (flow_in_flight s)) in
  let s := foldl drop_exhausted s exhausted in
  notify_if_queued (fill_flow_queue now s).

Definition retry_flow_commands (now at_ : Z) (x : AgentSession) : PolicyHub → PolicyHub := in_session x (retry_commands now at_).

(** ** Acknowledgements *)

Definition acknowledges (epoch : string) (revision : Z) (key : string) (p : InFlightFlowCommand) : bool :=
  (String.eqb (fl_key p) key
   && match fl_frame p with FlowCommand c => String.eqb (fc_controller_epoch c) epoch && (fc_config_revision c =? revision) | _ => false end)%bool.

Definition is_shape (f : PolicyWireFrame) : bool :=
  match f with FlowCommand c => bool_decide (operation c = Upsert) && bool_decide (verdict c = Some VShape) | _ => false end%bool.
Definition is_revoke (f : PolicyWireFrame) : bool := match f with FlowCommand c => bool_decide (operation c = Revoke) | _ => false end.

Definition has_id (i : string) (f : option PolicyWireFrame) : bool := match f with Some f => bool_decide (flow_command_id f = Some i) | None => false end.

(** A partly covered limit is retried later; otherwise its attempts are forgotten. *)
Definition delay_or_forget (now at_ : Z) (i key : string) (sent : InFlightFlowCommand) (status : FlowAckStatus) (reason_code : option string) (s : GatewayState)
    : GatewayState :=
  let retry :=
    (match status with AckPartial => true | _ => false end && bool_decide (reason_code = Some "partial_alias_coverage") && is_shape (fl_frame sent)
     && (fl_attempts sent <? FLOW_COMMAND_MAX_ATTEMPTS)
     && ((Z.of_nat (size (flow_partial_retries s)) <? FLOW_COMMAND_STATE_CAPACITY) || bool_decide (is_Some (flow_partial_retries s !! key)))
     && (has_id i (flow_states s !! key) && match flow_states s !! key with Some f => live now f | None => false end))%bool in
  if retry then
    let previous := flow_partial_retries s !! key in
    let s := set_retries (<[key := mkRetry i (at_ + FLOW_COMMAND_RETRY_AFTER)]> (flow_partial_retries s)) s in
    match previous with
    | Some r => if negb (String.eqb (retry_command_id r) i) then set_attempts (delete (retry_command_id r) (flow_attempts s)) s else s
    | None => s
    end
  else set_attempts (delete i (flow_attempts s)) s.

(** A revocation that is done leaves no decision. *)
Definition withdraw (i key : string) (sent : InFlightFlowCommand) (status : FlowAckStatus) (s : GatewayState) : GatewayState :=
  if (is_revoke (fl_frame sent) && match status with AckApplied | AckPartial | AckExpired => true | _ => false end && has_id i (flow_states s !! key))%bool
  then set_states (delete key (flow_states s)) s else s.

(** The state after the acknowledgement of [sent], which was in flight as [i]. *)
Definition acknowledge (now at_ : Z) (i key : string) (sent : InFlightFlowCommand) (status : FlowAckStatus) (reason_code : option string) (s : GatewayState)
    : GatewayState :=
  let s := set_in_flight (delete i (flow_in_flight s)) s in
  notify_if_queued (fill_flow_queue now (withdraw i key sent status (delay_or_forget now at_ i key sent status reason_code s))).

Definition acknowledge_flow_command (now at_ : Z) (x : AgentSession) (a : FlowAckFrame) (h : PolicyHub) : PolicyHub * bool :=
  match active_state x h with
  | Some s =>
    if negb (String.eqb (fa_gateway_id a) (as_gateway_id x)) then (h, false)
    else
      let key := flow_command_key (fa_boot_id a) (fa_policy_flow_id a) in
      match flow_in_flight s !! fa_command_id a with
      | Some sent =>
        if acknowledges (fa_controller_epoch a) (fa_config_revision a) key sent
        then (put_gateway h (as_gateway_id x) (acknowledge now at_ (fa_command_id a) key sent (fa_status a) (fa_reason_code a) s), true)
        else (h, false)
      | None => (h, false)
      end
  | None => (h, false)
  end.
End hub.

(** * Invariants *)

Definition command_key (c : FlowCommandFrame) : string := flow_command_key (fc_boot_id c) (policy_flow_id c).

(** [c] is the latest decision of its flow. *)
Definition current (s : GatewayState) (c : FlowCommandFrame) : Prop := flow_states s !! command_key c = Some (FlowCommand c).

(** A published bundle of gateway [g]: a snapshot of this process. *)
Definition bundle_of (g epoch : string) (b : PublishedBundle) (f : PolicySnapshotFrame) : Prop :=
  frame b = PolicySnapshot f ∧ snap_gateway_id f = g ∧ snap_controller_epoch f = epoch.

(** The commands of a gateway, of those [issued] by their identifiers. *)
Record flows_ok (g epoch : string) (issued : gmap string FlowCommandFrame) (s : GatewayState) : Prop := {
  fo_states k f : flow_states s !! k = Some f → ∃ c, f = FlowCommand c ∧ k = command_key c ∧ issued !! command_id c = Some c ∧
    fc_gateway_id c = g ∧ fc_controller_epoch c = epoch ∧ flow_boot_id s = Some (fc_boot_id c);
  fo_pending : flow_pending s ⊆ flow_states s;
  fo_in_flight i p : flow_in_flight s !! i = Some p → ∃ c, fl_frame p = FlowCommand c ∧ fl_key p = command_key c ∧ command_id c = i ∧ issued !! i = Some c;
  fo_retries k r : flow_partial_retries s !! k = Some r → ∃ c, issued !! retry_command_id r = Some c ∧ k = command_key c;
  fo_attempts i n : flow_attempts s !! i = Some n → is_Some (issued !! i);
  fo_contexts k x : flow_evaluation_contexts s !! k = Some x → req_gateway_id (ctx_request x) = g;
  fo_nodup : NoDup (flow_queue s);
  fo_queue : zlen (flow_queue s) ≤ FLOW_COMMAND_QUEUE_CAPACITY;
  fo_queued : flow_queued s = list_to_set (flow_queue s);
  fo_size_states : Z.of_nat (size (flow_states s)) ≤ FLOW_COMMAND_STATE_CAPACITY;
  fo_size_contexts : Z.of_nat (size (flow_evaluation_contexts s)) ≤ FLOW_COMMAND_STATE_CAPACITY;
  fo_size_retries : Z.of_nat (size (flow_partial_retries s)) ≤ FLOW_COMMAND_STATE_CAPACITY;
  fo_updates : snd (updates s) = bundle s;
  fo_bundle : match bundle s with
              | None => flow_states s = ∅
              | Some b => ∃ f, bundle_of g epoch b f ∧ snap_bundle_generation f = generation s
              end;
}.

(** Where a command is on its way: a command is in one place at a time. *)
Inductive Place := Pending | InFlight | Delayed | InHand.

Record placed (pl : gmap string Place) (hand : option string) (s : GatewayState) : Prop := {
  pl_pending k c : flow_pending s !! k = Some (FlowCommand c) → pl !! command_id c = Some Pending;
  pl_in_flight i p : flow_in_flight s !! i = Some p → pl !! i = Some InFlight;
  pl_retries k r : flow_partial_retries s !! k = Some r → pl !! retry_command_id r = Some Delayed;
  pl_hand i : hand = Some i → pl !! i = Some InHand;
}.

(** The attempts that are remembered of the commands that can still be sent are
    the times [count] that they were sent. *)
Definition waits (hand : option string) (s : GatewayState) (c : FlowCommandFrame) : Prop :=
  flow_pending s !! command_key c = Some (FlowCommand c) ∨
  (∃ r, flow_partial_retries s !! command_key c = Some r ∧ retry_command_id r = command_id c) ∨ hand = Some (command_id c).

Record counted (count : string → Z) (hand : option string) (s : GatewayState) : Prop := {
  ct_waits c : current s c → waits hand s c → default 0 (flow_attempts s !! command_id c) = count (command_id c) ∧ count (command_id c) < FLOW_COMMAND_MAX_ATTEMPTS;
  ct_in_flight p c : flow_in_flight s !! command_id c = Some p → current s c →
    flow_attempts s !! command_id c = Some (fl_attempts p) ∧ fl_attempts p = count (command_id c);
}.

Definition window (hand : option string) (s : GatewayState) : Prop :=
  Z.of_nat (size (flow_in_flight s)) + match hand with Some _ => 1 | None => 0 end ≤ FLOW_COMMAND_IN_FLIGHT_CAPACITY.

(** The delivery to the session that has [hand] in its hands and has sent each
    command [count] times. *)
Record delivery_ok (count : string → Z) (hand : option string) (s : GatewayState) : Prop := {
  dl_placed : ∃ pl, placed pl hand s;
  dl_counted : counted count hand s;
  dl_window : window hand s;
}.

Lemma flows_ok_grow g e i i' s : i ⊆ i' → flows_ok g e i s → flows_ok g e i' s.
Proof.
  intros Hi []. split; try done.
  - intros k f Hf. destruct (fo_states0 k f Hf) as (c & -> & -> & Hc & ? & ? & ?). exists c. split_and!; try done. by eapply lookup_weaken.
  - intros j p Hp. destruct (fo_in_flight0 j p Hp) as (c & ? & ? & ? & Hc). exists c. split_and!; try done. by eapply lookup_weaken.
  - intros k r Hr. destruct (fo_retries0 k r Hr) as (c & Hc & ->). exists c. split; [|done]. by eapply lookup_weaken.
  - intros j n [c Hc]%fo_attempts0. exists c. by eapply lookup_weaken.
Qed.

Lemma new_gateway_ok g e i : flows_ok g e i new_gateway.
Proof. split; cbn; try done; try (intros; by rewrite lookup_empty in * ); try (by vm_compute); constructor. Qed.

(** ** Filling the queue *)

Section fill.
Context `{MapOrder} `{Uuids} `{!MapOrderLaw}.

Lemma map_order_elem {A} (m : gmap string A) k a : (k, a) ∈ map_order m ↔ m !! k = Some a.
Proof. by rewrite map_order_perm, elem_of_map_to_list. Qed.

Lemma map_order_keys {A} (m : gmap string A) : NoDup (fst <$> map_order m).
Proof. rewrite map_order_perm. apply NoDup_fst_map_to_list. Qed.

Lemma sendable_live now r f : sendable now r f = true → live now f = true.
Proof. unfold sendable. by destruct (live now f). Qed.

(** The identifiers whose attempts are forgotten with the discarded commands. *)
Definition forgotten (now : Z) (s : GatewayState) (i : string) : Prop :=
  (∃ k f, flow_pending s !! k = Some f ∧ flow_command_id f = Some i ∧ sendable now (bundle_revision (bundle s)) f = false) ∧
  flow_in_flight s !! i = None ∧ ∀ k r, flow_partial_retries s !! k = Some r → retry_command_id r ≠ i.

Lemma forget_discarded_lookup fl ds l a i : foldl (forget_discarded fl ds) a l !! i = a !! i ∨
  (foldl (forget_discarded fl ds) a l !! i = None ∧ i ∈ l ∧ fl !! i = None ∧ i ∉ ds).
Proof.
  revert a. induction l as [|j l IH]; intros a; cbn [foldl]; [by left|]. specialize (IH (forget_discarded fl ds a j)).
  remember (forget_discarded fl ds a j) as a' eqn:Ha. unfold forget_discarded in Ha. destruct (_ || _)%bool eqn:Hb.
  { subst a'. destruct IH as [?|(? & ? & ? & ?)]; [by left|right; split_and!; [done|by right|done|done]]. }
  destruct (decide (i = j)) as [->|Hne].
  - right. apply orb_false_iff in Hb as [Hf Hd]. apply bool_decide_eq_false in Hf.
    assert (foldl (forget_discarded fl ds) a' l !! j = None) as Hn by (destruct IH as [IH|[IH _]]; [rewrite IH, Ha; apply lookup_delete_eq|done]).
    split; [done|]. split; [left|]. split; [by destruct (fl !! j); [destruct Hf; eauto|]|]. intros Hin.
    apply not_true_iff_false in Hd. apply Hd. apply existsb_exists. exists j. split; [by apply list_elem_of_In|]. apply String.eqb_refl.
  - destruct IH as [IH|(? & ? & ? & ?)]; [left|right; split_and!; [done|by right|done|done]]. rewrite IH, Ha. by apply lookup_delete_ne.
Qed.

(** What filling the queue does. *)
Lemma fill_spec now s : ∃ p st a q qd,
  fill_flow_queue now s = set_queue q qd (set_states st (set_attempts a (set_pending p s))) ∧
  (∀ k f, p !! k = Some f ↔ flow_pending s !! k = Some f ∧ sendable now (bundle_revision (bundle s)) f = true) ∧
  (∀ k f, st !! k = Some f ↔ flow_states s !! k = Some f ∧ live now f = true) ∧
  (∀ i, a !! i = flow_attempts s !! i ∨ (a !! i = None ∧ forgotten now s i)) ∧
  (NoDup (flow_queue s) → zlen (flow_queue s) ≤ FLOW_COMMAND_QUEUE_CAPACITY → NoDup q ∧ zlen q ≤ FLOW_COMMAND_QUEUE_CAPACITY) ∧
  qd = list_to_set q ∧ ∀ k, k ∈ q → ∃ f, p !! k = Some f ∧ of_revision (bundle_revision (bundle s)) f = true.
Proof.
  unfold fill_flow_queue. cbn zeta. set (r := bundle_revision (bundle s)). set (p := filter _ (flow_pending s)).
  set (st := filter _ (flow_states s)). set (a := foldl _ _ _). set (q0 := List.filter _ (flow_queue s)).
  assert (∀ k f, p !! k = Some f ↔ flow_pending s !! k = Some f ∧ sendable now r f = true) as Hp by (intros; subst p; by rewrite map_lookup_filter_Some).
  assert (∀ k f, st !! k = Some f ↔ flow_states s !! k = Some f ∧ live now f = true) as Hst by (intros; subst st; by rewrite map_lookup_filter_Some).
  assert (∀ i, a !! i = flow_attempts s !! i ∨ (a !! i = None ∧ forgotten now s i)) as Ha.
  { intros i. destruct (forget_discarded_lookup (flow_in_flight s) ((λ p, retry_command_id (snd p)) <$> map_order (flow_partial_retries s))
      (omap flow_command_id (snd <$> List.filter (λ p, negb (sendable now r (snd p))) (map_order (flow_pending s)))) (flow_attempts s) i) as [Hi|(Hi & Hin & Hf & Hd)];
      [by left|right]. split; [exact Hi|]. split; [|split; [done|]].
    - apply list_elem_of_omap in Hin as (f & Hf' & Hid). apply list_elem_of_fmap in Hf' as ([k f'] & -> & Hk%list_elem_of_In%filter_In).
      destruct Hk as [Hk%list_elem_of_In Hs]. apply map_order_elem in Hk. exists k, f'. split_and!; [done|done|]. by apply negb_true_iff in Hs.
    - intros k x Hx Heq. apply Hd. apply list_elem_of_fmap. exists (k, x). split; [done|]. by apply map_order_elem. }
  assert (∀ k, k ∈ q0 → ∃ f, p !! k = Some f ∧ of_revision r f = true) as Hq0.
  { intros k Hk%list_elem_of_In%filter_In. destruct Hk as [_ Hk]. destruct (p !! k) as [f|] eqn:Hpk; [|done]. by exists f. }
  destruct (Z.leb_spec FLOW_COMMAND_QUEUE_CAPACITY (zlen q0)) as [Hfull|Hroom].
  { exists p, st, a, q0, (list_to_set q0). split_and!; try done. intros Hnd Hlen. split; [by apply NoDup_ListNoDup, List.NoDup_filter, NoDup_ListNoDup|].
    pose proof (filter_length_le (λ k, match p !! k with Some f => of_revision r f | None => false end) (flow_queue s)). fold q0 in H2. unfold zlen in *. lia. }
  set (ks := fst <$> take _ _). exists p, st, a, (q0 ++ ks), (list_to_set (q0 ++ ks)).
  assert (∀ k, k ∈ ks → k ∉ q0 ∧ ∃ f, p !! k = Some f ∧ of_revision r f = true) as Hks.
  { intros k ([k' f] & -> & Hk)%list_elem_of_fmap. apply elem_of_take in Hk as (n & Hk & _). apply list_elem_of_lookup_2, list_elem_of_In, filter_In in Hk as [Hk Hb].
    apply andb_prop in Hb as [Hb1 Hb2]. apply negb_true_iff, bool_decide_eq_false in Hb1. rewrite elem_of_list_to_set in Hb1.
    split; [done|]. exists f. split; [|done]. apply map_order_elem. by apply list_elem_of_In. }
  split_and!; try done.
  - by rewrite list_to_set_app_L.
  - intros Hnd Hlen. split.
    + apply NoDup_app. split; [by apply NoDup_ListNoDup, List.NoDup_filter, NoDup_ListNoDup|]. split; [intros k Hk Hk'; by apply Hks in Hk' as [? _]|].
      subst ks. rewrite fmap_take. eapply sublist_NoDup; [apply (map_order_keys p)|]. etrans; [apply sublist_take|]. apply fmap_sublist, filterb_sublist.
    + unfold zlen in *. rewrite length_app. subst ks. rewrite length_fmap, length_take. lia.
  - intros k [Hk|Hk]%elem_of_app; [by apply Hq0|by apply Hks].
Qed.

Lemma fill_flows_ok g e issued now s : flows_ok g e issued s → flows_ok g e issued (fill_flow_queue now s).
Proof.
  intros Hok. destruct (fill_spec now s) as (p & st & a & q & qd & -> & Hp & Hst & Ha & Hq & -> & _).
  destruct Hok. destruct (Hq fo_nodup0 fo_queue0). assert (st ⊆ flow_states s) as Hsub by (apply map_subseteq_spec; intros k f Hf; by apply Hst).
  split; cbn; try done.
  - intros k f Hf. by apply fo_states0, Hst.
  - apply map_subseteq_spec. intros k f [Hf Hs]%Hp. apply Hst. split; [by eapply lookup_weaken|]. by eapply sendable_live.
  - intros i n Hn. destruct (Ha i) as [Hi|[Hi _]]; [|congruence]. rewrite Hi in Hn. by eapply fo_attempts0.
  - pose proof (map_subseteq_size _ _ Hsub). lia.
  - destruct (bundle s); [done|]. apply map_empty. intros k. apply eq_None_not_Some. intros [f [Hf _]%Hst]. by rewrite fo_bundle0, lookup_empty in Hf.
Qed.

(** Commands with the same identifier are the same. *)
Lemma current_issued g e issued s c : flows_ok g e issued s → current s c → issued !! command_id c = Some c.
Proof. intros Hok Hc. destruct (fo_states _ _ _ _ Hok _ _ Hc) as (c' & [= <-] & _ & Hi & _). done. Qed.

Lemma pending_current g e issued s k f : flows_ok g e issued s → flow_pending s !! k = Some f → ∃ c, f = FlowCommand c ∧ k = command_key c ∧ current s c.
Proof.
  intros Hok Hf. pose proof (lookup_weaken _ _ _ _ Hf (fo_pending _ _ _ _ Hok)) as Hs. destruct (fo_states _ _ _ _ Hok _ _ Hs) as (c & -> & -> & _).
  by exists c.
Qed.

Lemma fill_delivery_ok g e issued count hand now s : flows_ok g e issued s → delivery_ok count hand s → delivery_ok count hand (fill_flow_queue now s).
Proof.
  intros Hok [[pl Hpl] Hct Hwin]. destruct (fill_spec now s) as (p & st & a & q & qd & -> & Hp & Hst & Ha & _ & _ & _).
  split; [exists pl; destruct Hpl; split; cbn; try done; intros k c Hc; by eapply pl_pending0, Hp| |done].
  destruct Hct as [Hw Hf]. split; cbn.
  - intros c Hc Hwait. assert (current s c) as Hcs by (by apply Hst).
    assert (waits hand s c) as Hws by (destruct Hwait as [Hpc|[?|?]]; [left; by apply Hp|right; by left|by right; right]). destruct (Hw c Hcs Hws) as [Hn Hlt].
    destruct (Ha (command_id c)) as [->|[_ ((k & f & Hk & Hid & Hns) & _ & Hnr)]]; [done|]. exfalso.
    destruct (pending_current _ _ _ _ _ _ Hok Hk) as (c' & -> & -> & Hc'). injection Hid as Hid.
    pose proof (current_issued _ _ _ _ _ Hok Hc') as Hi'. rewrite Hid, (current_issued _ _ _ _ _ Hok Hcs) in Hi'. injection Hi' as <-.
    destruct Hwait as [Hpc|[(r & Hr & Hrid)|Hh]].
    + apply Hp in Hpc as [_ ?]. congruence.
    + cbn in Hr. by apply (Hnr _ _ Hr).
    + pose proof (pl_hand _ _ _ Hpl _ Hh) as H1'. rewrite (pl_pending _ _ _ Hpl _ _ Hk) in H1'. done.
  - intros x c Hx Hc. assert (current s c) as Hcs by (by apply Hst). destruct (Hf x c Hx Hcs) as [Hn Hc'].
    destruct (Ha (command_id c)) as [->|[_ (_ & Hnf & _)]]; [done|]. congruence.
Qed.
End fill.

(** ** The moves of a command *)

Section moves.
Context (g e : string) (count : string → Z).

Implicit Types (issued : gmap string FlowCommandFrame) (hand : option string) (s : GatewayState).

Lemma same_command issued s c c' : flows_ok g e issued s → current s c → issued !! command_id c = Some c' → c' = c.
Proof. intros Hok Hc Hi. rewrite (current_issued _ _ _ _ _ Hok Hc) in Hi. by injection Hi. Qed.

Lemma current_by_id issued s c : flows_ok g e issued s → issued !! command_id c = Some c →
  flow_states s !! command_key c ≫= flow_command_id = Some (command_id c) → current s c.
Proof.
  intros Hok Hi (f & Hf & Hid)%bind_Some. destruct (fo_states _ _ _ _ Hok _ _ Hf) as (x & -> & Hk & Hx & _). injection Hid as Hid.
  rewrite Hid, Hi in Hx. by injection Hx as <-.
Qed.

(** A session that has nothing in its hands. *)
Lemma drop_hand hand s : delivery_ok count hand s → delivery_ok count None s.
Proof.
  intros [[pl Hpl] [Hw Hf] Hwin]. split; [exists pl; by destruct Hpl| |unfold window in *; by destruct hand; lia].
  split; [|done]. intros c Hc [Hp|[Hr|[=]]]; apply (Hw c Hc); [by left|by right; left].
Qed.

(** Attempts may be forgotten of what is neither waiting nor in flight. *)
Lemma forget_attempts hand s i : (∀ c, current s c → command_id c = i → ¬ waits hand s c ∧ flow_in_flight s !! i = None) → delivery_ok count hand s →
  delivery_ok count hand (set_attempts (delete i (flow_attempts s)) s).
Proof.
  intros Hi [[pl Hpl] [Hw Hf] Hwin]. split; [exists pl; by destruct Hpl| |done]. split; cbn.
  - intros c Hc Hwt. assert (command_id c ≠ i) by (intros Heq; by destruct (Hi c Hc Heq)). rewrite lookup_delete_ne by done. by apply Hw.
  - intros p c Hp Hc. assert (command_id c ≠ i) by (intros Heq; destruct (Hi c Hc Heq); congruence). rewrite lookup_delete_ne by done. by apply Hf.
Qed.

Lemma forget_attempts_flows issued s i : flows_ok g e issued s → flows_ok g e issued (set_attempts (delete i (flow_attempts s)) s).
Proof. intros []. split; cbn; try done. intros j n [_ Hj]%lookup_delete_Some. by eapply fo_attempts0. Qed.

Lemma drop_retry hand s k : delivery_ok count hand s → delivery_ok count hand (set_retries (delete k (flow_partial_retries s)) s).
Proof.
  intros [[pl Hpl] [Hw Hf] Hwin]. split; [exists pl; destruct Hpl; split; cbn; try done; intros ? ? [_ ?]%lookup_delete_Some; eauto| |done].
  split; [|done]. cbn. intros c Hc Hwt. unfold waits in Hwt. cbn in Hwt. destruct Hwt as [Hp|[(r & [_ Hr]%lookup_delete_Some & Hid)|Hh]]; apply (Hw c Hc); [by left|right; left; eauto|by right; right].
Qed.

Lemma drop_retry_flows issued s k : flows_ok g e issued s → flows_ok g e issued (set_retries (delete k (flow_partial_retries s)) s).
Proof.
  intros []. split; cbn; try done; [intros j r [_ Hj]%lookup_delete_Some; eauto|].
  pose proof (map_subseteq_size _ _ (delete_subseteq (flow_partial_retries s) k)). lia.
Qed.

Lemma drop_in_flight hand s i : delivery_ok count hand s → delivery_ok count hand (set_in_flight (delete i (flow_in_flight s)) s).
Proof.
  intros [[pl Hpl] [Hw Hf] Hwin]. split; [exists pl; destruct Hpl; split; cbn; try done; intros ? ? [_ ?]%lookup_delete_Some; eauto| |].
  - split; [done|]. cbn. intros p c [_ Hp]%lookup_delete_Some Hc. by apply Hf.
  - unfold window in *. cbn. pose proof (map_subseteq_size _ _ (delete_subseteq (flow_in_flight s) i)). lia.
Qed.

Lemma drop_in_flight_flows issued s i : flows_ok g e issued s → flows_ok g e issued (set_in_flight (delete i (flow_in_flight s)) s).
Proof. intros []. split; cbn; try done. intros j p [_ Hj]%lookup_delete_Some. eauto. Qed.

Lemma drop_pending hand s k : delivery_ok count hand s → delivery_ok count hand (set_pending (delete k (flow_pending s)) s).
Proof.
  intros [[pl Hpl] [Hw Hf] Hwin]. split; [exists pl; destruct Hpl; split; cbn; try done; intros ? ? [_ ?]%lookup_delete_Some; eauto| |done].
  split; [|done]. cbn. intros c Hc Hwt. unfold waits in Hwt. cbn in Hwt. destruct Hwt as [[_ Hp]%lookup_delete_Some|[Hr|Hh]]; apply (Hw c Hc); [by left|by right; left|by right; right].
Qed.

Lemma drop_pending_flows issued s k : flows_ok g e issued s → flows_ok g e issued (set_pending (delete k (flow_pending s)) s).
Proof. intros []. split; cbn; try done. etrans; [apply delete_subseteq|done]. Qed.

(** A decision is withdrawn when its command is not pending. *)
Lemma drop_state hand s k : delivery_ok count hand s → delivery_ok count hand (set_states (delete k (flow_states s)) s).
Proof.
  intros [[pl Hpl] [Hw Hf] Hwin]. split; [exists pl; by destruct Hpl| |done]. split; cbn; unfold current; cbn.
  - intros c [_ Hc]%lookup_delete_Some Hwt. by apply Hw.
  - intros p c Hp [_ Hc]%lookup_delete_Some. by apply Hf.
Qed.

Lemma drop_state_flows issued s k : flow_pending s !! k = None → flows_ok g e issued s → flows_ok g e issued (set_states (delete k (flow_states s)) s).
Proof.
  intros Hk []. split; cbn; try done.
  - intros j f [_ Hj]%lookup_delete_Some. eauto.
  - apply map_subseteq_spec. intros j f Hj. apply lookup_delete_Some. split; [congruence|]. by eapply lookup_weaken.
  - pose proof (map_subseteq_size _ _ (delete_subseteq (flow_states s) k)). lia.
  - destruct (bundle s); [done|]. by rewrite fo_bundle0, delete_empty.
Qed.

(** The latest decision of a flow becomes pending, from a place where it waits. *)
Lemma make_pending issued hand hand' s c : flows_ok g e issued s → delivery_ok count hand s → current s c →
  (hand' = None ∨ hand' = hand ∧ hand ≠ Some (command_id c)) → flow_in_flight s !! command_id c = None →
  (∀ k r, flow_partial_retries s !! k = Some r → retry_command_id r ≠ command_id c) →
  default 0 (flow_attempts s !! command_id c) = count (command_id c) → count (command_id c) < FLOW_COMMAND_MAX_ATTEMPTS →
  delivery_ok count hand' (set_pending (<[command_key c := FlowCommand c]> (flow_pending s)) s).
Proof.
  intros Hok [[pl Hpl] [Hw Hf] Hwin] Hc Hh Hfl Hre Hat Hlt. split.
  - exists (<[command_id c := Pending]> pl). destruct Hpl. split; cbn.
    + intros k c' Hk. destruct (decide (command_id c' = command_id c)) as [Heq|]; [by rewrite Heq, lookup_insert_eq|]. rewrite lookup_insert_ne by done.
      apply lookup_insert_Some in Hk as [[_ [= ->]]|[_ Hk]]; [done|]. by eapply pl_pending0.
    + intros i p Hp. rewrite lookup_insert_ne by congruence. by eapply pl_in_flight0.
    + intros k r Hr. rewrite lookup_insert_ne by (intros Heq; by apply (Hre k r Hr)). by eapply pl_retries0.
    + intros i Hi. destruct Hh as [->|[-> Hne]]; [done|]. rewrite lookup_insert_ne by congruence. by apply pl_hand0.
  - split; cbn; [|done]. intros c' Hc' Hwt. destruct (decide (command_id c' = command_id c)) as [Heq|Hne].
    { rewrite Heq. by split. }
    apply (Hw c' Hc'). unfold waits in Hwt. cbn in Hwt. destruct Hwt as [Hp|[Hr|Hi]].
    + left. apply lookup_insert_Some in Hp as [[_ [= ->]]|[_ Hp]]; [done|done].
    + by right; left.
    + right; right. by destruct Hh as [->|[-> _]].
  - unfold window in *. cbn. destruct Hh as [->|[-> _]]; [destruct hand|]; lia.
Qed.

Lemma make_pending_flows issued s c : flows_ok g e issued s → current s c →
  flows_ok g e issued (set_pending (<[command_key c := FlowCommand c]> (flow_pending s)) s).
Proof. intros [] Hc. split; cbn; try done. by apply insert_subseteq_l. Qed.

(** A new decision replaces that of its flow. *)
Definition put_decision (c : FlowCommandFrame) (s : GatewayState) : GatewayState :=
  set_pending (<[command_key c := FlowCommand c]> (flow_pending s)) (set_states (<[command_key c := FlowCommand c]> (flow_states s)) s).

Lemma put_decision_flows issued s c : flows_ok g e issued s → issued !! command_id c = None → fc_gateway_id c = g → fc_controller_epoch c = e →
  flow_boot_id s = Some (fc_boot_id c) → bundle s ≠ None → (flow_states s !! command_key c = None → Z.of_nat (size (flow_states s)) < FLOW_COMMAND_STATE_CAPACITY) →
  flows_ok g e (<[command_id c := c]> issued) (put_decision c s).
Proof.
  intros Hok Hnew Hg He Hb Hbu Hsz. apply (flows_ok_grow _ _ _ (<[command_id c := c]> issued)) in Hok; [|by apply insert_subseteq]. destruct Hok. split; cbn; try done.
  - intros k f [[<- <-]|[_ Hf]]%lookup_insert_Some; [|eauto]. exists c. split_and!; try done. apply lookup_insert_eq.
  - by apply insert_mono.
  - destruct (flow_states s !! command_key c) as [f|] eqn:Hf; [rewrite map_size_insert_Some by eauto; lia|]. rewrite map_size_insert_None by done. specialize (Hsz eq_refl). lia.
  - by destruct (bundle s).
Qed.

Lemma put_decision_delivery issued hand s c : flows_ok g e issued s → delivery_ok count hand s → issued !! command_id c = None →
  (∀ i, hand = Some i → is_Some (issued !! i)) → count (command_id c) = 0 → delivery_ok count hand (put_decision c s).
Proof.
  intros Hok [[pl Hpl] [Hw Hf] Hwin] Hnew Hh Hz. split; [|split|done].
  - exists (<[command_id c := Pending]> pl). destruct Hpl. split; cbn.
    + intros k c' [[<- [= <-]]|[_ Hk]]%lookup_insert_Some; [apply lookup_insert_eq|]. rewrite lookup_insert_ne; [by eapply pl_pending0|].
      destruct (pending_current _ _ _ _ _ _ Hok Hk) as (x & [= <-] & _ & Hx%(current_issued _ _ _ _ _ Hok)). congruence.
    + intros i p Hp. rewrite lookup_insert_ne; [by eapply pl_in_flight0|]. destruct (fo_in_flight _ _ _ _ Hok i p Hp) as (x & _ & _ & _ & ?). congruence.
    + intros k r Hr. rewrite lookup_insert_ne; [by eapply pl_retries0|]. destruct (fo_retries _ _ _ _ Hok k r Hr) as (x & ? & _). congruence.
    + intros i Hi. rewrite lookup_insert_ne; [by apply pl_hand0|]. destruct (Hh i Hi). congruence.
  - unfold current, waits. cbn. intros c' [[Hk [= <-]]|[Hne Hc]]%lookup_insert_Some Hwt.
    + destruct (flow_attempts s !! command_id c) as [n|] eqn:Hn; [|unfold FLOW_COMMAND_MAX_ATTEMPTS; cbn; lia].
      apply (fo_attempts _ _ _ _ Hok) in Hn as [? ?]. congruence.
    + rewrite lookup_insert_ne in Hwt by done. by apply Hw.
  - unfold current. cbn. intros p c' Hp [[Hk [= <-]]|[Hne Hc]]%lookup_insert_Some; [|by apply Hf].
    destruct (fo_in_flight _ _ _ _ Hok _ _ Hp) as (? & _ & _ & _ & ?). congruence.
Qed.

(** Nothing is on its way. *)
Lemma clear_delivery_flows issued s : flows_ok g e issued s → flows_ok g e issued (clear_flow_delivery s).
Proof. intros []. split; cbn; try done; try (intros; by rewrite lookup_empty in * ); [apply map_empty_subseteq|apply NoDup_nil_2]. Qed.

Lemma clear_delivery_ok s : delivery_ok count None (clear_flow_delivery s).
Proof.
  split; [exists ∅; split; cbn; try (intros; by rewrite lookup_empty in * ); done| |by vm_compute].
  split; cbn; [|intros; by rewrite lookup_empty in * ]. intros c _ Hwt. unfold waits in Hwt. cbn in Hwt. rewrite !lookup_empty in Hwt. naive_solver.
Qed.

Lemma clear_commands_flows issued b s : flows_ok g e issued s → flows_ok g e issued (set_flow_boot b (clear_flow_commands s)).
Proof.
  intros []. split; cbn; try done; try (intros; by rewrite lookup_empty in * ); [apply NoDup_nil_2|].
  by destruct (bundle s).
Qed.

Lemma clear_commands_ok hand b s : delivery_ok count hand (set_flow_boot b (clear_flow_commands s)).
Proof.
  split.
  - exists (match hand with Some i => {[i := InHand]} | None => ∅ end). split; cbn; try (intros; by rewrite lookup_empty in * ). intros i ->. by rewrite lookup_singleton_eq.
  - split; unfold current; cbn; intros; by rewrite lookup_empty in *.
  - unfold window. cbn. rewrite map_size_empty. unfold FLOW_COMMAND_IN_FLIGHT_CAPACITY. destruct hand; lia.
Qed.
End moves.

(** ** Operations on one gateway *)

Section operations.
Context `{MapOrder} `{Uuids} `{!MapOrderLaw} (g e : string).

Implicit Types (issued : gmap string FlowCommandFrame) (hand : option string) (count : string → Z) (s : GatewayState).

Lemma notify_flows issued s : flows_ok g e issued s → flows_ok g e issued (notify_if_queued s).
Proof. unfold notify_if_queued. destruct (no_selector _); [done|]. by intros []. Qed.

Lemma notify_delivery count hand s : delivery_ok count hand s → delivery_ok count hand (notify_if_queued s).
Proof. unfold notify_if_queued. destruct (no_selector _); [done|]. intros [[pl []] [] ?]. split; [by exists pl|done|done]. Qed.

Lemma requeue_flows issued now s : flows_ok g e issued s → flows_ok g e issued (requeue_flow_states now s).
Proof.
  intros Hok. apply notify_flows, fill_flows_ok. destruct Hok. split; cbn; try done; try (intros; by rewrite lookup_empty in * ).
  - apply map_union_least; [apply map_filter_subseteq|done].
Qed.

Lemma requeue_delivery count issued now s : flows_ok g e issued s → (∀ i, count i = 0) → delivery_ok count None (requeue_flow_states now s).
Proof.
  intros Hok Hz. apply notify_delivery. set (s1 := set_pending _ _). assert (flows_ok g e issued s1) as Hok1.
  { destruct Hok. split; cbn; try done; try (intros; by rewrite lookup_empty in * ). apply map_union_least; [apply map_filter_subseteq|done]. }
  apply (fill_delivery_ok g e issued); [done|]. split; [|split|by vm_compute].
  - exists ((λ _, Pending) <$> issued). split; cbn; try (intros; by rewrite lookup_empty in * ); [|done]. intros k c Hk.
    destruct (pending_current _ _ _ _ _ _ Hok1 Hk) as (c' & [= <-] & _ & Hc%(current_issued _ _ _ _ _ Hok1)). by rewrite lookup_fmap, Hc.
  - intros c _ _. cbn. rewrite lookup_empty, Hz. by vm_compute.
  - cbn. intros; by rewrite lookup_empty in *.
Qed.

(** ** Taking a command *)

Lemma pop_queue_flows issued s k rest : flow_queue s = k :: rest → flows_ok g e issued s → flows_ok g e issued (set_queue rest (flow_queued s ∖ {[k]}) s).
Proof.
  intros Hq []. rewrite Hq in *. split; cbn; try done.
  - by apply NoDup_cons in fo_nodup0 as [_ ?].
  - rewrite zlen_cons in fo_queue0. lia.
  - apply NoDup_cons in fo_nodup0 as [Hk _]. rewrite fo_queued0. cbn. apply set_eq. intros x. rewrite elem_of_difference, elem_of_union, elem_of_singleton, !elem_of_list_to_set.
    split; [naive_solver|]. intros Hx. split; [by right|]. intros ->. done.
Qed.

Lemma pop_queue_delivery count hand s q qd : delivery_ok count hand s → delivery_ok count hand (set_queue q qd s).
Proof. intros [[pl []] [] ?]. split; [by exists pl|done|done]. Qed.

Lemma take_pending count issued s c : flows_ok g e issued s → delivery_ok count None s → Z.of_nat (size (flow_in_flight s)) < FLOW_COMMAND_IN_FLIGHT_CAPACITY →
  flow_pending s !! command_key c = Some (FlowCommand c) → delivery_ok count (Some (command_id c)) (set_pending (delete (command_key c) (flow_pending s)) s).
Proof.
  intros Hok [[pl Hpl] [Hw Hf] _] Hsz Hc. destruct (pending_current _ _ _ _ _ _ Hok Hc) as (c' & [= <-] & _ & Hcur). pose proof (pl_pending _ _ _ Hpl _ _ Hc) as Hplc.
  split; [|split; [|done]|unfold window; cbn; lia].
  - exists (<[command_id c := InHand]> pl). destruct Hpl. split; cbn.
    + intros k x [Hne Hx]%lookup_delete_Some. rewrite lookup_insert_ne; [by eapply pl_pending0|]. intros Heq.
      destruct (pending_current _ _ _ _ _ _ Hok Hx) as (y & [= <-] & -> & Hy). apply Hne.
      pose proof (current_issued _ _ _ _ _ Hok Hcur) as H1'. rewrite Heq in H1'. by rewrite (same_command _ _ _ _ _ _ Hok Hy H1').
    + intros i p Hp. rewrite lookup_insert_ne; [by eapply pl_in_flight0|]. intros <-. by rewrite (pl_in_flight0 _ _ Hp) in Hplc.
    + intros k r Hr. rewrite lookup_insert_ne; [by eapply pl_retries0|]. intros Heq. by rewrite Heq, (pl_retries0 _ _ Hr) in Hplc.
    + intros i [= <-]. apply lookup_insert_eq.
  - unfold waits. cbn. intros x Hx Hwt. destruct (decide (command_id x = command_id c)) as [Heq|Hne].
    { pose proof (current_issued _ _ _ _ _ Hok Hcur) as Hi. rewrite <- Heq in Hi. rewrite (same_command _ _ _ _ _ _ Hok Hx Hi) in *. apply Hw; [done|]. by left. }
    apply Hw; [done|]. destruct Hwt as [[_ Hp]%lookup_delete_Some|[Hr|[= ?]]]; [by left|by right; left|congruence].
Qed.

Lemma take_queued_spec turns now revision boot count issued s s' o : flows_ok g e issued s → delivery_ok count None s →
  Z.of_nat (size (flow_in_flight s)) < FLOW_COMMAND_IN_FLIGHT_CAPACITY → take_queued turns now revision boot s = (s', o) →
  flows_ok g e issued s' ∧ delivery_ok count (o ≫= flow_command_id) s' ∧
  (∀ f, o = Some f → ∃ c, f = FlowCommand c ∧ current s c ∧ flow_pending s !! command_key c = Some f ∧ fc_config_revision c = revision ∧ fc_boot_id c = boot).
Proof.
  revert s. induction turns as [|n IH]; intros s Hok Hdl Hsz Ht; cbn [take_queued] in Ht; [by simplify_eq|].
  destruct (flow_queue s) as [|k rest] eqn:Hq; [by simplify_eq|]. cbn zeta in Ht. set (s1 := set_queue rest (flow_queued s ∖ {[k]}) s) in *.
  assert (flows_ok g e issued s1) as Hok1 by (by apply pop_queue_flows). assert (delivery_ok count None s1) as Hdl1 by (by apply pop_queue_delivery).
  change (flow_pending s1) with (flow_pending s) in Ht. destruct (flow_pending s !! k) as [f|] eqn:Hf; [|by apply (IH s1)].
  destruct (pending_current _ _ _ _ _ _ Hok Hf) as (c & -> & -> & Hcur). case_bool_decide as Hr; cbn [negb] in Ht; [|by apply (IH s1)].
  set (s2 := set_pending (delete (command_key c) (flow_pending s)) s1) in *.
  assert (flows_ok g e issued s2) as Hok2 by (by apply (drop_pending_flows g e issued s1)).
  case_bool_decide as Hb; cbn [negb] in Ht.
  - injection Ht as <- <-. split; [by apply notify_flows, fill_flows_ok|]. split.
    + apply notify_delivery, (fill_delivery_ok g e issued); [done|]. by apply (take_pending count issued s1).
    + intros f [= <-]. exists c. injection Hr as Hr. injection Hb as Hb. done.
  - destruct (IH s2 Hok2 (drop_pending count None s1 _ Hdl1) Hsz Ht) as (? & ? & Hs). split_and!; [done|done|]. intros f Hfo. destruct (Hs f Hfo) as (x & -> & ? & Hx & ? & ?).
    exists x. split_and!; try done. cbn in Hx. by apply lookup_delete_Some in Hx as [_ ?].
Qed.

(** ** Sending, retrying, acknowledging *)

Definition bump (i : string) (count : string → Z) : string → Z := λ j, if String.eqb j i then count j + 1 else count j.

Lemma mark_sent_flows issued at_ s c : flows_ok g e issued s → issued !! command_id c = Some c → flows_ok g e issued (mark_sent at_ c s).
Proof.
  intros [] Hc. split; cbn; try done.
  - intros i p [[<- <-]|[_ Hp]]%lookup_insert_Some; [|eauto]. by exists c.
  - intros i n [[<- _]|[_ Hn]]%lookup_insert_Some; [by rewrite Hc|eauto].
Qed.

Lemma mark_sent_delivery count issued at_ s c : flows_ok g e issued s → issued !! command_id c = Some c → 0 ≤ count (command_id c) →
  delivery_ok count (Some (command_id c)) s → delivery_ok (bump (command_id c) count) None (mark_sent at_ c s).
Proof.
  intros Hok Hi Hc0 [[pl Hpl] [Hw Hf] Hwin]. pose proof (pl_hand _ _ _ Hpl _ eq_refl) as Hh. split; [|split|].
  - exists (<[command_id c := InFlight]> pl). destruct Hpl. split; cbn; [| | |done].
    + intros k x Hx. rewrite lookup_insert_ne; [by eapply pl_pending0|]. intros Heq. rewrite Heq, (pl_pending0 _ _ Hx) in Hh. done.
    + intros i p [[<- _]|[Hne Hp]]%lookup_insert_Some; [apply lookup_insert_eq|]. rewrite lookup_insert_ne by done. by eapply pl_in_flight0.
    + intros k r Hr. rewrite lookup_insert_ne; [by eapply pl_retries0|]. intros Heq. rewrite Heq, (pl_retries0 _ _ Hr) in Hh. done.
  - intros x Hx Hwt. assert (command_id x ≠ command_id c) as Hne.
    { intros Heq. destruct Hwt as [Hp|[(r & Hr & Hid)|[=]]]; cbn in *; destruct Hpl.
      - rewrite <- Heq, (pl_pending0 _ _ Hp) in Hh. done.
      - rewrite <- Heq, <- Hid, (pl_retries0 _ _ Hr) in Hh. done. }
    unfold bump. destruct (String.eqb_spec (command_id x) (command_id c)) as [|_]; [done|]. cbn. rewrite lookup_insert_ne by done. apply Hw; [done|].
    destruct Hwt as [|[|[=]]]; [by left|by right; left].
  - cbn. intros p x Hp Hx. unfold bump. destruct (decide (command_id x = command_id c)) as [Heq|Hne].
    + rewrite Heq, lookup_insert_eq in Hp. injection Hp as <-. rewrite Heq, lookup_insert_eq, String.eqb_refl. cbn. split; [done|].
      assert (x = c) as -> by (symmetry; eapply same_command; [done|done|by rewrite Heq]).
      destruct (Hw c Hx) as [Hn Hlt]; [by right; right|]. unfold FLOW_COMMAND_MAX_ATTEMPTS in Hlt.
      destruct (flow_attempts s !! command_id c); cbn in Hn; lia.
    + rewrite lookup_insert_ne in Hp by done. destruct (String.eqb_spec (command_id x) (command_id c)); [done|]. rewrite lookup_insert_ne by done. by apply Hf.
  - unfold window in *. cbn. destruct (flow_in_flight s !! command_id c) eqn:Hc; [rewrite map_size_insert_Some by eauto|rewrite map_size_insert_None by done]; lia.
Qed.

Lemma requeue_unsent_flows issued now s c : flows_ok g e issued s → issued !! command_id c = Some c → flows_ok g e issued (requeue_unsent now c s).
Proof.
  intros Hok Hi. unfold requeue_unsent. fold (command_key c). case_bool_decide as Hid; cbn [negb]; [|done]. pose proof (current_by_id _ _ _ _ _ Hok Hi Hid) as Hc.
  pose proof (fill_flows_ok g e issued now _ (make_pending_flows g e issued s c Hok Hc)) as []. by split.
Qed.

Lemma requeue_unsent_delivery count issued now s c : flows_ok g e issued s → issued !! command_id c = Some c →
  delivery_ok count (Some (command_id c)) s → delivery_ok count None (requeue_unsent now c s).
Proof.
  intros Hok Hi Hdl. unfold requeue_unsent. fold (command_key c). case_bool_decide as Hid; cbn [negb]; [|by eapply drop_hand]. pose proof (current_by_id _ _ _ _ _ Hok Hi Hid) as Hc.
  assert (delivery_ok count None (set_pending (<[command_key c := FlowCommand c]> (flow_pending s)) s)) as Hdl'.
  { destruct (dl_counted _ _ _ Hdl) as [Hw _]. destruct (Hw c Hc) as [Hn Hlt]; [by right; right|]. destruct (dl_placed _ _ _ Hdl) as [pl Hpl].
    pose proof (pl_hand _ _ _ Hpl _ eq_refl) as Hh. apply (make_pending g e count issued (Some (command_id c))); try done.
    - by left.
    - destruct (flow_in_flight s !! command_id c) as [p|] eqn:Hp; [|done]. by rewrite (pl_in_flight _ _ _ Hpl _ _ Hp) in Hh.
    - intros k r Hr Heq. rewrite <- Heq, (pl_retries _ _ _ Hpl _ _ Hr) in Hh. done. }
  pose proof (fill_delivery_ok g e issued count None now _ (make_pending_flows g e issued s c Hok Hc) Hdl') as [[pl []] [] ?].
  split; [by exists pl|done|done].
Qed.

(** The two invariants together, for a session with free hands. *)
Definition both_ok count issued s : Prop := flows_ok g e issued s ∧ delivery_ok count None s.

Lemma retry_partial_ok count issued now s k : both_ok count issued s → both_ok count issued (retry_partial now s k).
Proof.
  intros [Hok Hdl]. unfold retry_partial. destruct (flow_partial_retries s !! k) as [r|] eqn:Hr; [|done]. cbn zeta. set (s1 := set_retries _ s).
  assert (flows_ok g e issued s1) as Hok1 by (by apply drop_retry_flows). assert (delivery_ok count None s1) as Hdl1 by (by apply drop_retry).
  destruct (fo_retries _ _ _ _ Hok _ _ Hr) as (cr & Hi & ->). destruct (dl_placed _ _ _ Hdl) as [pl Hpl]. pose proof (pl_retries _ _ _ Hpl _ _ Hr) as Hplr.
  assert (∀ c, current s c → command_id c = retry_command_id r → c = cr) as Hsame.
  { intros c Hc Hid. rewrite <- Hid, (current_issued _ _ _ _ _ Hok Hc) in Hi. by injection Hi. }
  assert (∀ f, flow_states s !! command_key cr = Some f → (bool_decide (flow_command_id f = Some (retry_command_id r)) && live now f)%bool = false ∨
    ∃ c, f = FlowCommand c ∧ c = cr ∧ command_id c = retry_command_id r ∧ current s c) as Hcase.
  { intros f Hf. case_bool_decide as Hid; [|by left]. destruct (fo_states _ _ _ _ Hok _ _ Hf) as (c & -> & Hk & Hc & _). injection Hid as Hid.
    right. exists c. assert (current s c) by (unfold current; by rewrite <- Hk). by split_and!; [|apply Hsame| |]. }
  assert (∀ f, flow_states s !! command_key cr = Some f → (bool_decide (flow_command_id f = Some (retry_command_id r)) && live now f)%bool = true →
    both_ok count issued (set_pending (<[command_key cr := f]> (flow_pending s1)) s1)) as Hpend.
  { intros f Hf Hb. destruct (Hcase f Hf) as [Hb'|(c & -> & -> & Hid & Hc)]; [congruence|]. destruct (dl_counted _ _ _ Hdl) as [Hw _].
    destruct (Hw cr Hc) as [Hn Hlt]; [right; left; eauto|]. split; [by apply make_pending_flows|].
    apply (make_pending g e count issued None); try done; [by left| |].
    - change (flow_in_flight s1) with (flow_in_flight s). destruct (flow_in_flight s !! command_id cr) as [p|] eqn:Hp; [|done].
      rewrite <- Hid, (pl_in_flight _ _ _ Hpl _ _ Hp) in Hplr. done.
    - intros k' r' Hr' Heq. change (flow_partial_retries s1) with (delete (command_key cr) (flow_partial_retries s)) in Hr'.
      apply lookup_delete_Some in Hr' as [Hne Hr']. destruct (fo_retries _ _ _ _ Hok _ _ Hr') as (x & Hx & ->). apply Hne.
      rewrite Heq, Hid, Hi in Hx. by injection Hx as ->. }
  assert ((∀ f, flow_states s !! command_key cr = Some f → (bool_decide (flow_command_id f = Some (retry_command_id r)) && live now f)%bool = false) →
    both_ok count issued (set_attempts (delete (retry_command_id r) (flow_attempts s1)) s1)) as Hforget.
  { intros Hf. split; [by apply forget_attempts_flows|]. apply forget_attempts; [|done]. intros c Hc Hid. pose proof (Hsame c Hc Hid) as ->. split.
    - intros [Hp|[(r' & Hr' & _)|[=]]]; [|cbn in Hr'; by rewrite lookup_delete_eq in Hr']. cbn in Hp. rewrite <- Hid, (pl_pending _ _ _ Hpl _ _ Hp) in Hplr. done.
    - change (flow_in_flight s1) with (flow_in_flight s). destruct (flow_in_flight s !! retry_command_id r) as [p|] eqn:Hp; [|done].
      rewrite (pl_in_flight _ _ _ Hpl _ _ Hp) in Hplr. done. }
  change (flow_states s1) with (flow_states s). destruct (flow_states s !! command_key cr) as [f|] eqn:Hf; [|by apply Hforget].
  destruct (_ && _)%bool eqn:Hb; [by apply Hpend|]. apply Hforget. by intros f' [= <-].
Qed.

Lemma retry_in_flight_ok count issued s i : both_ok count issued s → (∀ p, flow_in_flight s !! i = Some p → fl_attempts p < FLOW_COMMAND_MAX_ATTEMPTS) →
  both_ok count issued (retry_in_flight s i) ∧ flow_in_flight (retry_in_flight s i) ⊆ flow_in_flight s.
Proof.
  intros [Hok Hdl] Hlt. unfold retry_in_flight. destruct (flow_in_flight s !! i) as [p|] eqn:Hp; [|done]. cbn zeta. specialize (Hlt p eq_refl).
  set (s1 := set_in_flight _ s). assert (flows_ok g e issued s1) as Hok1 by (by apply drop_in_flight_flows).
  assert (delivery_ok count None s1) as Hdl1 by (by apply drop_in_flight). destruct (fo_in_flight _ _ _ _ Hok _ _ Hp) as (c & Hfr & Hk & <- & Hi).
  destruct (dl_placed _ _ _ Hdl) as [pl Hpl]. pose proof (pl_in_flight _ _ _ Hpl _ _ Hp) as Hplc. rewrite Hk, Hfr. change (flow_states s1) with (flow_states s).
  case_bool_decide as Hid; (split; [|cbn; apply delete_subseteq]); split.
  - apply make_pending_flows; [done|]. by apply (current_by_id g e issued).
  - pose proof (current_by_id g e issued s c Hok Hi Hid) as Hc. destruct (dl_counted _ _ _ Hdl) as [_ Hf]. destruct (Hf _ _ Hp Hc) as [Hat Hn].
    apply (make_pending g e count issued None); try done; [by left|apply lookup_delete_eq| |cbn; by rewrite Hat|lia].
    intros k r Hr Heq. rewrite <- Heq in Hplc. by rewrite (pl_retries _ _ _ Hpl _ _ Hr) in Hplc.
  - by apply forget_attempts_flows.
  - apply forget_attempts; [|done]. intros x Hx Heq. destruct Hid. pose proof (current_issued _ _ _ _ _ Hok Hx) as Hix. rewrite Heq, Hi in Hix. injection Hix as <-.
    by rewrite (Hx : flow_states s !! _ = _).
Qed.

Lemma drop_exhausted_ok count issued s i : both_ok count issued s → is_Some (flow_in_flight s !! i) → both_ok count issued (drop_exhausted s i).
Proof.
  intros [Hok Hdl] [p Hp]. unfold drop_exhausted. set (s1 := set_in_flight _ s). change (flow_attempts s) with (flow_attempts s1). split; [by apply forget_attempts_flows, drop_in_flight_flows|].
  destruct (dl_placed _ _ _ Hdl) as [pl Hpl]. pose proof (pl_in_flight _ _ _ Hpl _ _ Hp) as Hplc.
  apply forget_attempts; [|by apply drop_in_flight]. intros c Hc Hid. split; [|apply lookup_delete_eq].
  intros [Hq|[(r & Hr & Hrid)|[=]]]; cbn in *.
  - rewrite <- Hid, (pl_pending _ _ _ Hpl _ _ Hq) in Hplc. done.
  - rewrite <- Hid, <- Hrid, (pl_retries _ _ _ Hpl _ _ Hr) in Hplc. done.
Qed.

Lemma retry_commands_ok count issued now at_ s : both_ok count issued s → both_ok count issued (retry_commands now at_ s).
Proof.
  intros Hok. unfold retry_commands. cbn zeta. set (s1 := foldl (retry_partial now) s _). assert (both_ok count issued s1) as Hok1.
  { subst s1. generalize (fst <$> List.filter (λ p, retry_at (snd p) <=? at_) (map_order (flow_partial_retries s))). intros l. revert s Hok.
    induction l as [|k l IH]; intros s Hok; [done|]. cbn. by apply IH, retry_partial_ok. }
  set (s2 := foldl retry_in_flight s1 _). assert (both_ok count issued s2) as Hok2.
  { subst s2. set (l := fst <$> _). assert (∀ i, i ∈ l → ∀ p, flow_in_flight s1 !! i = Some p → fl_attempts p < FLOW_COMMAND_MAX_ATTEMPTS) as Hl.
    { intros i ([j q] & -> & Hj%list_elem_of_In%filter_In)%list_elem_of_fmap p Hp. destruct Hj as [Hj%list_elem_of_In%map_order_elem Hb].
      cbn in Hp. rewrite Hj in Hp. injection Hp as <-. apply andb_prop in Hb as [_ Hb]. cbn in Hb. lia. }
    clearbody l s1. revert s1 Hok1 Hl. induction l as [|i l IH]; intros t Hokt Hl; [done|]. cbn.
    destruct (retry_in_flight_ok count issued t i Hokt) as [Hok' Hsub]; [apply Hl; left|]. apply IH; [done|]. intros j Hj p Hp. apply (Hl j); [by right|].
    by eapply lookup_weaken. }
  assert (both_ok count issued (foldl drop_exhausted s2 (fst <$> List.filter (λ p, timed_out at_ (snd p) && (FLOW_COMMAND_MAX_ATTEMPTS <=? fl_attempts (snd p)))%bool
    (map_order (flow_in_flight s2))))) as [Hok3 Hdl3].
  { set (l := fst <$> _). assert (NoDup l) as Hnd by (subst l; eapply sublist_NoDup; [apply (map_order_keys (flow_in_flight s2))|]; apply fmap_sublist, filterb_sublist).
    assert (∀ i, i ∈ l → is_Some (flow_in_flight s2 !! i)) as Hl.
    { intros i ([j q] & -> & Hj%list_elem_of_In%filter_In)%list_elem_of_fmap. destruct Hj as [Hj%list_elem_of_In%map_order_elem _]. eauto. }
    clearbody l s2. revert s2 Hok2 Hl. induction l as [|i l IH]; intros t Hokt Hl; [done|]. cbn. apply NoDup_cons in Hnd as [Hi Hnd].
    apply IH; [done|apply drop_exhausted_ok; [done|apply Hl; left]|]. intros j Hj. cbn. rewrite lookup_delete_ne by congruence. apply Hl. by right. }
  split; [by apply notify_flows, fill_flows_ok|]. by apply notify_delivery, (fill_delivery_ok g e issued).
Qed.

(** A command in flight that will be retried later. *)
Lemma delay_flows issued s k r : flows_ok g e issued s → (∃ c, issued !! retry_command_id r = Some c ∧ k = command_key c) →
  Z.of_nat (size (flow_partial_retries s)) < FLOW_COMMAND_STATE_CAPACITY ∨ is_Some (flow_partial_retries s !! k) →
  flows_ok g e issued (set_retries (<[k := r]> (flow_partial_retries s)) s).
Proof.
  intros [] Hr Hsz. split; cbn; try done; [intros k' r' [[<- <-]|[_ ?]]%lookup_insert_Some; eauto|].
  destruct (flow_partial_retries s !! k) as [r'|] eqn:Hk; [by rewrite map_size_insert_Some by eauto|]. rewrite map_size_insert_None by done.
  destruct Hsz as [|[? [=]]]. lia.
Qed.

Lemma delay_delivery count issued s c p at_ : flows_ok g e issued s → delivery_ok count None s → flow_in_flight s !! command_id c = Some p → current s c →
  fl_attempts p < FLOW_COMMAND_MAX_ATTEMPTS →
  let s1 := set_in_flight (delete (command_id c) (flow_in_flight s)) s in
  delivery_ok count None (set_retries (<[command_key c := mkRetry (command_id c) at_]> (flow_partial_retries s1)) s1).
Proof.
  intros Hok Hdl Hp Hc Hlt s1. assert (delivery_ok count None s1) as [_ _ Hwin1] by (by apply drop_in_flight). destruct Hdl as [[pl Hpl] [Hw Hf] _].
  destruct (Hf _ _ Hp Hc) as [Hat Hn]. pose proof (pl_in_flight _ _ _ Hpl _ _ Hp) as Hplc. split; [|split|exact Hwin1].
  - exists (<[command_id c := Delayed]> pl). destruct Hpl. split; cbn; [| | |done].
    + intros k x Hx. rewrite lookup_insert_ne; [by eapply pl_pending0|]. intros Heq. rewrite Heq, (pl_pending0 _ _ Hx) in Hplc. done.
    + intros i q [Hne Hq]%lookup_delete_Some. rewrite lookup_insert_ne by done. by eapply pl_in_flight0.
    + intros k r [[<- <-]|[Hne Hr]]%lookup_insert_Some; [apply lookup_insert_eq|]. rewrite lookup_insert_ne; [by eapply pl_retries0|].
      intros Heq. rewrite Heq, (pl_retries0 _ _ Hr) in Hplc. done.
  - intros x Hx Hwt. destruct (decide (command_id x = command_id c)) as [Heq|Hne]; [cbn; rewrite Heq, Hat; cbn; lia|]. apply (Hw x Hx).
    unfold waits in Hwt. cbn in Hwt. destruct Hwt as [?|[(r & [[_ <-]|[_ Hr]]%lookup_insert_Some & Hid)|[=]]]; [by left|cbn in Hid; congruence|right; left; eauto].
  - cbn. intros q x [Hne Hq]%lookup_delete_Some Hx. by apply Hf.
Qed.

Lemma acknowledge_ok count issued now at_ i key sent st reason s : both_ok count issued s → flow_in_flight s !! i = Some sent → fl_key sent = key →
  both_ok count issued (acknowledge now at_ i key sent st reason s).
Proof.
  intros [Hok Hdl] Hp <-. destruct (fo_in_flight _ _ _ _ Hok _ _ Hp) as (c & Hfr & Hk & <- & Hi). rewrite Hk. destruct (dl_placed _ _ _ Hdl) as [pl Hpl].
  pose proof (pl_in_flight _ _ _ Hpl _ _ Hp) as Hplc.
  assert (has_id (command_id c) (flow_states s !! command_key c) = true → current s c ∧ flow_pending s !! command_key c = None) as Hcur.
  { unfold has_id. intros Hid. destruct (flow_states s !! command_key c) as [f|] eqn:Hf; [|done]. apply bool_decide_eq_true in Hid.
    assert (current s c) as Hc by (apply (current_by_id g e issued); [done|done|by rewrite Hf]). split; [done|].
    destruct (flow_pending s !! command_key c) as [f'|] eqn:Hq; [|done]. pose proof (lookup_weaken _ _ _ _ Hq (fo_pending _ _ _ _ Hok)) as Hs.
    rewrite (Hc : flow_states s !! _ = _) in Hs. injection Hs as <-. rewrite (pl_pending _ _ _ Hpl _ _ Hq) in Hplc. done. }
  unfold acknowledge. cbn zeta. set (s1 := set_in_flight _ s). assert (flows_ok g e issued s1) as Hok1 by (by apply drop_in_flight_flows).
  set (s2 := delay_or_forget _ _ _ _ _ _ _ s1). assert (both_ok count issued s2 ∧ flow_states s2 = flow_states s ∧ flow_pending s2 = flow_pending s) as ([Hok2 Hdl2] & Hst2 & Hpe2).
  { subst s2. unfold delay_or_forget. cbn zeta. destruct (_ && _)%bool eqn:Hretry.
    - apply andb_prop in Hretry as [Hretry [Hid _]%andb_prop]. apply andb_prop in Hretry as [Hretry Hsz]. apply andb_prop in Hretry as [_ Hat].
      destruct (Hcur Hid) as [Hc _]. set (s3 := set_retries _ s1).
      assert (flows_ok g e issued s3) as Hok3 by (apply delay_flows; [done|by exists c|]; apply orb_prop in Hsz as [?|?%bool_decide_eq_true]; [left; lia|by right]).
      assert (delivery_ok count None s3) as Hdl3 by (apply (delay_delivery count issued s c sent); [done|done|done|done|lia]).
      destruct (flow_partial_retries s1 !! command_key c) as [r|] eqn:Hr; [|done]. destruct (String.eqb_spec (retry_command_id r) (command_id c)) as [|Hne]; [done|]. cbn [negb].
      split; [|done]. split; [by apply forget_attempts_flows|]. apply forget_attempts; [|done]. intros x Hx Heq. exfalso.
      destruct (fo_retries _ _ _ _ Hok1 _ _ Hr) as (y & Hy & Hky). pose proof (current_issued _ _ _ _ _ Hok3 Hx) as Hix. rewrite Heq, Hy in Hix. injection Hix as ->.
      unfold current in Hx, Hc. cbn in Hx. rewrite <- Hky, Hc in Hx. injection Hx as ->. done.
    - split; [|done]. split; [by apply forget_attempts_flows|]. apply forget_attempts; [|by apply drop_in_flight]. intros x Hx Hid. split; [|apply lookup_delete_eq].
      intros [Hq|[(r & Hr & Hrid)|[=]]]; cbn in *.
      + rewrite <- Hid, (pl_pending _ _ _ Hpl _ _ Hq) in Hplc. done.
      + rewrite <- Hid, <- Hrid, (pl_retries _ _ _ Hpl _ _ Hr) in Hplc. done. }
  assert (both_ok count issued (withdraw (command_id c) (command_key c) sent st s2)) as [Hok4 Hdl4].
  { unfold withdraw. destruct (_ && _)%bool eqn:Hrev; [|done]. apply andb_prop in Hrev as [_ Hf]. rewrite Hst2 in Hf.
    destruct (Hcur Hf) as [_ Hpn]. split; [apply drop_state_flows; [by rewrite Hpe2|done]|by apply drop_state]. }
  split; [by apply notify_flows, fill_flows_ok|]. by apply notify_delivery, (fill_delivery_ok g e issued).
Qed.

(** ** New decisions *)

Lemma replace_decision_flows issued now s c : flows_ok g e issued s → issued !! command_id c = None → fc_gateway_id c = g → fc_controller_epoch c = e →
  flow_boot_id s = Some (fc_boot_id c) → bundle s ≠ None → (flow_states s !! command_key c = None → Z.of_nat (size (flow_states s)) < FLOW_COMMAND_STATE_CAPACITY) →
  flows_ok g e (<[command_id c := c]> issued) (replace_decision now (command_key c) (FlowCommand c) s).
Proof.
  intros Hok Hnew Hg He Hb Hbu Hsz. unfold replace_decision. cbn zeta. set (s0 := match flow_partial_retries s !! _ with Some _ => _ | None => _ end).
  assert (flows_ok g e issued s0 ∧ flow_states s0 = flow_states s ∧ flow_boot_id s0 = flow_boot_id s ∧ bundle s0 = bundle s) as (Hok0 & Hs0 & Hb0 & Hbu0).
  { subst s0. destruct (flow_partial_retries s !! _) as [r|]; [|done]. split; [|done]. apply (forget_attempts_flows g e issued (set_retries _ s)). by apply drop_retry_flows. }
  clearbody s0. assert (flows_ok g e (<[command_id c := c]> issued) (put_decision c s0)) as Hok1 by (apply put_decision_flows; [done|done|done|done|by rewrite Hb0|by rewrite Hbu0|by rewrite Hs0]).
  assert (∀ t, flows_ok g e (<[command_id c := c]> issued) t → flows_ok g e (<[command_id c := c]> issued) (set_notify true (fill_flow_queue now t))) as Hend.
  { intros t Ht. apply (fill_flows_ok g e _ now) in Ht. by destruct Ht. }
  apply Hend. fold (put_decision c s0). destruct (_ ≫= _); [|done]. destruct (_ && _)%bool; [|done]. by apply forget_attempts_flows.
Qed.

Lemma replace_decision_delivery count issued hand now s c : flows_ok g e issued s → delivery_ok count hand s → issued !! command_id c = None →
  (∀ i, hand = Some i → is_Some (issued !! i)) → count (command_id c) = 0 → fc_gateway_id c = g → fc_controller_epoch c = e →
  flow_boot_id s = Some (fc_boot_id c) → bundle s ≠ None → (flow_states s !! command_key c = None → Z.of_nat (size (flow_states s)) < FLOW_COMMAND_STATE_CAPACITY) →
  delivery_ok count hand (replace_decision now (command_key c) (FlowCommand c) s).
Proof.
  intros Hok Hdl Hnew Hh Hz Hg He Hb Hbu Hsz. unfold replace_decision. cbn zeta. set (s0 := match flow_partial_retries s !! _ with Some _ => _ | None => _ end).
  assert (flows_ok g e issued s0 ∧ delivery_ok count hand s0 ∧ flow_states s0 = flow_states s ∧ flow_boot_id s0 = flow_boot_id s ∧ bundle s0 = bundle s) as (Hok0 & Hdl0 & Hs0 & Hb0 & Hbu0).
  { subst s0. destruct (flow_partial_retries s !! _) as [r|] eqn:Hr; [|done]. set (s1 := set_retries _ s). change (flow_attempts s) with (flow_attempts s1).
    split; [by apply forget_attempts_flows, drop_retry_flows|]. split; [|done]. apply forget_attempts; [|by apply drop_retry].
    destruct (dl_placed _ _ _ Hdl) as [pl Hpl]. pose proof (pl_retries _ _ _ Hpl _ _ Hr) as Hplr. destruct (fo_retries _ _ _ _ Hok _ _ Hr) as (y & Hy & Hky).
    intros x Hx Hid. pose proof (current_issued _ _ _ _ _ Hok Hx) as Hix. rewrite Hid, Hy in Hix. injection Hix as ->. split.
    - intros [Hp|[(r' & Hr' & _)|Hi]]; cbn in *.
      + rewrite <- Hid, (pl_pending _ _ _ Hpl _ _ Hp) in Hplr. done.
      + by rewrite Hky, lookup_delete_eq in Hr'.
      + apply (pl_hand _ _ _ Hpl) in Hi. congruence.
    - cbn. destruct (flow_in_flight s !! retry_command_id r) as [p|] eqn:Hp; [|done]. apply (pl_in_flight _ _ _ Hpl) in Hp. congruence. }
  clearbody s0. assert (flows_ok g e (<[command_id c := c]> issued) (put_decision c s0)) as Hok1 by (apply put_decision_flows; [done|done|done|done|by rewrite Hb0|by rewrite Hbu0|by rewrite Hs0]).
  assert (delivery_ok count hand (put_decision c s0)) as Hdl1 by (by apply (put_decision_delivery g e count issued)).
  assert (∀ t, flows_ok g e (<[command_id c := c]> issued) t → delivery_ok count hand t → delivery_ok count hand (set_notify true (fill_flow_queue now t))) as Hend.
  { intros t Ht Hdt. pose proof (fill_delivery_ok g e _ count hand now t Ht Hdt) as [[pl []] [] ?]. split; [by exists pl|done|done]. }
  fold (put_decision c s0). destruct (_ ≫= _) as [i|] eqn:Hprev; [|by apply Hend]. destruct (_ && _)%bool eqn:Hcond; [|by apply Hend].
  apply Hend; [by apply forget_attempts_flows|]. apply forget_attempts; [|done]. apply andb_prop in Hcond as [Hne%negb_true_iff%bool_decide_eq_false _].
  apply bind_Some in Hprev as (f & Hf & Hid). cbn in Hf. destruct (pending_current _ _ _ _ _ _ Hok0 Hf) as (y & -> & Hky & Hy). injection Hid as <-.
  intros x Hx Hxi. exfalso. unfold current in Hx. cbn in Hx. apply lookup_insert_Some in Hx as [[_ [= <-]]|[Hne' Hx]]; [by apply Hne; cbn; congruence|].
  pose proof (current_issued _ _ _ _ _ Hok0 Hx) as H1'. rewrite Hxi, (current_issued _ _ _ _ _ Hok0 Hy) in H1'. injection H1' as ->. done.
Qed.

Lemma set_flow_boot_flows issued b s : other_boot (flow_boot_id s) b = false → flows_ok g e issued s → flows_ok g e issued (set_flow_boot (Some b) s).
Proof.
  intros Hb []. split; cbn; try done. intros k f Hf. destruct (fo_states0 k f Hf) as (c & -> & -> & ? & ? & ? & Hc). exists c. split_and!; try done.
  rewrite Hc in Hb. cbn in Hb. apply negb_false_iff, String.eqb_eq in Hb. by rewrite Hb.
Qed.

Lemma set_flow_boot_delivery count hand b s : delivery_ok count hand s → delivery_ok count hand (set_flow_boot b s).
Proof. intros [[pl []] [] ?]. split; [by exists pl|done|done]. Qed.

(** The boot of a decision: what belongs to another one is forgotten. *)
Definition switch_boot (b : string) (s : GatewayState) : GatewayState :=
  set_flow_boot (Some b) (if other_boot (flow_boot_id s) b then clear_flow_commands s else s).

Lemma switch_boot_flows issued b s : flows_ok g e issued s → flows_ok g e issued (switch_boot b s).
Proof. intros Hok. unfold switch_boot. destruct (other_boot _ _) eqn:Hb; [by apply clear_commands_flows|by apply set_flow_boot_flows]. Qed.

Lemma switch_boot_delivery count hand b s : delivery_ok count hand s → delivery_ok count hand (switch_boot b s).
Proof. intros Hdl. unfold switch_boot. destruct (other_boot _ _); [apply clear_commands_ok|by apply set_flow_boot_delivery]. Qed.

Lemma issue_after_command p c : ∃ c', issue_after p (FlowCommand c) = FlowCommand c' ∧ command_id c' = command_id c ∧ command_key c' = command_key c ∧
  fc_gateway_id c' = fc_gateway_id c ∧ fc_boot_id c' = fc_boot_id c ∧ fc_controller_epoch c' = fc_controller_epoch c ∧ fc_config_revision c' = fc_config_revision c.
Proof. unfold issue_after. destruct (_ ≫= _); by eexists. Qed.

Lemma check_snapshot_Ok issued c s : flows_ok g e issued s → bundle s ≠ None → check_snapshot c (bundle s) = Ok tt → fc_controller_epoch c = e ∧ fc_gateway_id c = g.
Proof.
  intros Hok Hbu. pose proof (fo_bundle _ _ _ _ Hok) as Hf. destruct (bundle s) as [b|]; [|done]. destruct Hf as (f & (Hfr & Hg & He) & _). cbn. rewrite Hfr. cbn.
  rewrite reject_if_Ok. destruct (String.eqb_spec (snap_gateway_id f) (fc_gateway_id c)), (String.eqb_spec (snap_controller_epoch f) (fc_controller_epoch c)); try done.
  intros _. split; congruence.
Qed.

Lemma fill_frame now s : bundle (fill_flow_queue now s) = bundle s ∧ session (fill_flow_queue now s) = session s ∧
  session_boot_id (fill_flow_queue now s) = session_boot_id s.
Proof. by destruct (fill_spec now s) as (? & ? & ? & ? & ? & -> & _). Qed.

Lemma replace_decision_frame now k f s : bundle (replace_decision now k f s) = bundle s ∧ session (replace_decision now k f s) = session s ∧
  session_boot_id (replace_decision now k f s) = session_boot_id s.
Proof.
  unfold replace_decision. cbn zeta. match goal with |- context [fill_flow_queue now ?t] => destruct (fill_frame now t) as (Hb & Hs & Hsb) end.
  cbn [bundle session session_boot_id set_notify]. rewrite Hb, Hs, Hsb.
  destruct (_ ≫= flow_command_id) as [i|]; [destruct (_ && _)%bool|]; cbn; by destruct (flow_partial_retries s !! k).
Qed.

(** What queueing a command does: nothing to the other commands, and the command
    is issued at most once. *)
Lemma queue_command_ok issued now c expected s s' r : flows_ok g e issued s → bundle s ≠ None → fc_gateway_id c = g → issued !! command_id c = None →
  queue_command now c expected s = (s', r) →
  bundle s' = bundle s ∧ session s' = session s ∧ session_boot_id s' = session_boot_id s ∧
  ∃ issued', issued ⊆ issued' ∧ (∀ i, is_Some (issued' !! i) → is_Some (issued !! i) ∨ i = command_id c) ∧ flows_ok g e issued' s' ∧
  ∀ count hand, (∀ i, hand = Some i → is_Some (issued !! i)) → count (command_id c) = 0 → delivery_ok count hand s → delivery_ok count hand s'.
Proof.
  intros Hok Hbu Hg Hnew. unfold queue_command. cbn zeta. fold (command_key c).
  assert (∀ t r', flows_ok g e issued t → (∀ count hand, delivery_ok count hand s → delivery_ok count hand t) →
    bundle t = bundle s ∧ session t = session s ∧ session_boot_id t = session_boot_id s → (t, r') = (s', r) → bundle s' = bundle s ∧ session s' = session s ∧ session_boot_id s' = session_boot_id s ∧
    ∃ issued', issued ⊆ issued' ∧ (∀ i, is_Some (issued' !! i) → is_Some (issued !! i) ∨ i = command_id c) ∧ flows_ok g e issued' s' ∧
    ∀ count hand, (∀ i, hand = Some i → is_Some (issued !! i)) → count (command_id c) = 0 → delivery_ok count hand s → delivery_ok count hand s') as Hkeep.
  { intros t r' Ht Hdt (? & ? & ?) [= <- <-]. split_and!; try done. exists issued. split_and!; [done|by left|done|]. intros count hand _ _. apply Hdt. }
  destruct (other_boot (session_boot_id s) (fc_boot_id c)); [by apply Hkeep|]. destruct (check_snapshot c (bundle s)) as [[]|] eqn:Hcs; [|by apply Hkeep].
  destruct (check_snapshot_Ok _ _ _ Hok Hbu Hcs) as [He _]. destruct (superseded _ _ _ _); [by apply Hkeep|]. fold (switch_boot (fc_boot_id c) s). set (s1 := switch_boot _ s).
  assert (flows_ok g e issued s1) as Hok1 by (by apply switch_boot_flows). assert (∀ count hand, delivery_ok count hand s → delivery_ok count hand s1) as Hdl1 by (intros; by apply switch_boot_delivery).
  assert (bundle s1 = bundle s ∧ session s1 = session s ∧ session_boot_id s1 = session_boot_id s) as Hfr1 by (subst s1; unfold switch_boot; by destruct (other_boot _ _)).
  assert (flow_boot_id s1 = Some (fc_boot_id c)) as Hb1 by done. clearbody s1.
  set (fresh := match flow_states s1 !! command_key c with Some _ => _ | None => _ end). destruct fresh; [by apply Hkeep|]. destruct (_ && _)%bool eqn:Hfull; [by apply Hkeep|].
  destruct (issue_after_command (flow_states s1 !! command_key c) c) as (c' & -> & Hid & Hk & Hg' & Hb' & He' & _). rewrite <- Hk. intros [= <- <-].
  assert (flow_states s1 !! command_key c' = None → Z.of_nat (size (flow_states s1)) < FLOW_COMMAND_STATE_CAPACITY) as Hsz.
  { rewrite Hk. intros Hn. rewrite Hn in Hfull. cbn in Hfull. lia. }
  rewrite <- Hid in Hnew. assert (bundle s1 ≠ None) as Hbu1 by (destruct Hfr1 as [-> _]; done).
  pose proof (replace_decision_flows issued now s1 c' Hok1 Hnew ltac:(congruence) ltac:(congruence) ltac:(congruence) Hbu1 Hsz) as Hok2.
  destruct (replace_decision_frame now (command_key c') (FlowCommand c') s1) as (-> & -> & ->).
  destruct Hfr1 as (? & ? & ?). split_and!; try done. exists (<[command_id c' := c']> issued). split_and!; [by apply insert_subseteq| |done|].
  - intros i [<-|[_ Hi]]%lookup_insert_is_Some; [right; congruence|by left].
  - intros count hand Hh Hz Hdl. apply (replace_decision_delivery count issued); try done; try congruence. by apply Hdl1.
Qed.

(** ** Boots and contexts *)

Lemma notify_frame s : bundle (notify_if_queued s) = bundle s ∧ session (notify_if_queued s) = session s ∧ session_boot_id (notify_if_queued s) = session_boot_id s.
Proof. unfold notify_if_queued. by destruct (no_selector _). Qed.

Lemma requeue_frame now s : bundle (requeue_flow_states now s) = bundle s ∧ session (requeue_flow_states now s) = session s ∧
  session_boot_id (requeue_flow_states now s) = session_boot_id s.
Proof.
  unfold requeue_flow_states. cbn zeta. match goal with |- context [notify_if_queued ?t] => destruct (notify_frame t) as (-> & -> & ->) end.
  match goal with |- context [fill_flow_queue now ?t] => by destruct (fill_frame now t) as (-> & -> & ->) end.
Qed.

(** Fields that the invariants do not mention. *)
Lemma set_session_boot_flows issued b s : flows_ok g e issued s → flows_ok g e issued (set_session_boot b s).
Proof. by intros []. Qed.
Lemma set_session_boot_delivery count hand b s : delivery_ok count hand s → delivery_ok count hand (set_session_boot b s).
Proof. intros [[pl []] [] ?]. split; [by exists pl|done|done]. Qed.
Lemma set_capabilities_flows issued x s : flows_ok g e issued s → flows_ok g e issued (set_capabilities x s).
Proof. by intros []. Qed.
Lemma set_capabilities_delivery count hand x s : delivery_ok count hand s → delivery_ok count hand (set_capabilities x s).
Proof. intros [[pl []] [] ?]. split; [by exists pl|done|done]. Qed.
Lemma set_contexts_delivery count hand x s : delivery_ok count hand s → delivery_ok count hand (set_contexts x s).
Proof. intros [[pl []] [] ?]. split; [by exists pl|done|done]. Qed.
Lemma set_notify_flows issued x s : flows_ok g e issued s → flows_ok g e issued (set_notify x s).
Proof. by intros []. Qed.
Lemma set_notify_delivery count hand x s : delivery_ok count hand s → delivery_ok count hand (set_notify x s).
Proof. intros [[pl []] [] ?]. split; [by exists pl|done|done]. Qed.
Lemma set_session_flows issued x s : flows_ok g e issued s → flows_ok g e issued (set_session x s).
Proof. by intros []. Qed.

Lemma latch_boot_ok count issued now b s : both_ok count issued s → (session_boot_id s = None → ∀ i, count i = 0) →
  both_ok count issued (latch_boot now b s) ∧ bundle (latch_boot now b s) = bundle s ∧ session (latch_boot now b s) = session s ∧ session_boot_id (latch_boot now b s) = Some b.
Proof.
  intros [Hok Hdl] Hz. unfold latch_boot. cbn zeta. destruct (bool_decide_reflect (flow_boot_id s = Some b)) as [Hfb|Hfb]; cbn [negb].
  - rewrite andb_true_r. set (s1 := set_flow_boot (Some b) (set_session_boot (Some b) s)).
    assert (flows_ok g e issued s1) as Hok1 by (apply set_flow_boot_flows; [cbn; rewrite Hfb; cbn; by rewrite String.eqb_refl|by apply set_session_boot_flows]).
    case_bool_decide as Hn.
    + destruct (requeue_frame now s1) as (-> & -> & ->). split; [|done]. split; [by apply requeue_flows|]. by apply (requeue_delivery count issued); [|apply Hz].
    + split; [|done]. split; [done|]. by apply set_flow_boot_delivery, set_session_boot_delivery.
  - rewrite andb_false_r. split; [|done]. split.
    + apply (set_session_boot_flows _ (Some b) (set_capabilities None (set_flow_boot (Some b) (clear_flow_commands s)))).
      by apply set_capabilities_flows, clear_commands_flows.
    + apply (set_session_boot_delivery _ _ (Some b) (set_capabilities None (set_flow_boot (Some b) (clear_flow_commands s)))).
      apply set_capabilities_delivery, clear_commands_ok.
Qed.

Lemma live_contexts_flows issued now s : flows_ok g e issued s → flows_ok g e issued (live_contexts now s).
Proof.
  intros []. split; cbn; try done; [intros k x [Hx _]%map_lookup_filter_Some; by eapply fo_contexts0|].
  pose proof (map_subseteq_size _ _ (map_filter_subseteq (λ p, (now <? ctx_expires_at_ms p.2) = true) (flow_evaluation_contexts s))). lia.
Qed.

Lemma remember_context_ok issued now n b flow proto req s s' r : flows_ok g e issued s → req_gateway_id req = g → remember_context now n b flow proto req s = (s', r) →
  flows_ok g e issued s' ∧ bundle s' = bundle s ∧ session s' = session s ∧ (session_boot_id s ≠ None → session_boot_id s' ≠ None) ∧
  ∀ count hand, delivery_ok count hand s → delivery_ok count hand s'.
Proof.
  intros Hok Hreq. unfold remember_context. cbn zeta. destruct (other_boot (session_boot_id s) b); [intros [= <- <-]; by split_and!|].
  fold (switch_boot b s). set (s1 := set_session_boot (Some b) (switch_boot b s)).
  assert (flows_ok g e issued s1) as Hok1 by (by apply set_session_boot_flows, switch_boot_flows).
  assert (∀ count hand, delivery_ok count hand s → delivery_ok count hand s1) as Hdl1 by (intros; by apply set_session_boot_delivery, switch_boot_delivery).
  assert (bundle s1 = bundle s ∧ session s1 = session s ∧ session_boot_id s1 = Some b) as (Hb1 & Hs1 & Hsb1) by (subst s1; unfold switch_boot; by destruct (other_boot _ _)).
  clearbody s1. set (s2 := if (_ && _)%bool then live_contexts now s1 else s1).
  assert (flows_ok g e issued s2 ∧ (∀ count hand, delivery_ok count hand s → delivery_ok count hand s2) ∧ bundle s2 = bundle s1 ∧ session s2 = session s1 ∧ session_boot_id s2 = session_boot_id s1)
    as (Hok2 & Hdl2 & Hb2 & Hs2 & Hsb2).
  { subst s2. destruct (_ && _)%bool; [|done]. split_and!; try done; [by apply live_contexts_flows|]. intros. by apply set_contexts_delivery, Hdl1. }
  clearbody s2. destruct (_ && _)%bool eqn:Hfull; intros [= <- <-].
  - split_and!; try done; congruence.
  - split_and!; try (cbn; congruence).
    + destruct Hok2. split; cbn; try done; [intros k x [[_ <-]|[_ Hx]]%lookup_insert_Some; [done|by eapply fo_contexts0]|].
      destruct (flow_evaluation_contexts s2 !! flow_command_key b flow) as [x|] eqn:Hx; [by rewrite map_size_insert_Some by eauto|].
      rewrite map_size_insert_None by done. cbn in Hfull. lia.
    + intros. by apply set_contexts_delivery, Hdl2.
Qed.

(** ** Publishing *)

Context `{!UuidsLaw}.

(** The identifiers in use have been drawn. *)
Definition drawn_below (n : Z) issued : Prop := 0 ≤ n ∧ ∀ i, is_Some (issued !! i) → ∃ m, 0 ≤ m < n ∧ i = uuid m.

Lemma fresh_uuid n m issued : drawn_below n issued → n ≤ m → issued !! uuid m = None.
Proof.
  intros [_ Hd] Hm. destruct (issued !! uuid m) as [c|] eqn:Hc; [|done]. destruct (Hd (uuid m)) as (m' & Hm' & Heq%uuid_inj); [by rewrite Hc|]. lia.
Qed.

Lemma draw_one n issued c : drawn_below n issued → command_id c = uuid n → drawn_below (n + 1) (<[command_id c := c]> issued).
Proof.
  intros [Hn Hd] Hc. split; [lia|]. intros i [<-|[_ Hi]]%lookup_insert_is_Some; [exists n; split; [lia|done]|]. destruct (Hd i Hi) as (m & ? & ->). exists m. split; [lia|done].
Qed.

Lemma drawn_below_le n n' issued issued' : drawn_below n issued → n ≤ n' → (∀ i, is_Some (issued' !! i) → is_Some (issued !! i)) → drawn_below n' issued'.
Proof. intros [Hn Hd] Hle Hi. split; [lia|]. intros i (m & ? & ->)%Hi%Hd. exists m. split; [lia|done]. Qed.

Lemma revoke_loop_ok revision now l s n issued s' n' : flows_ok g e issued s → bundle s ≠ None → drawn_below n issued → NoDup (fst <$> l) →
  (∀ k f, (k, f) ∈ l → flow_states s !! k = Some f) → foldl (revoke_active e revision now) (s, n) l = (s', n') →
  bundle s' = bundle s ∧ session s' = session s ∧ session_boot_id s' = session_boot_id s ∧ updates s' = updates s ∧ n ≤ n' ∧
  ∃ issued', issued ⊆ issued' ∧ drawn_below n' issued' ∧ flows_ok g e issued' s' ∧
  ∀ count hand, (∀ i, hand = Some i → is_Some (issued !! i)) → (∀ m, n ≤ m → count (uuid m) = 0) → delivery_ok count hand s → delivery_ok count hand s'.
Proof.
  revert s n issued. induction l as [|[k f] l IH]; intros s n issued Hok Hbu Hdr Hnd Hl Hfold; cbn [foldl] in Hfold.
  { injection Hfold as <- <-. split_and!; try done. exists issued. split_and!; try done. }
  cbn in Hnd. apply NoDup_cons in Hnd as [Hk Hnd]. pose proof (Hl k f ltac:(left)) as Hf. destruct (fo_states _ _ _ _ Hok _ _ Hf) as (c & -> & -> & Hc & Hg & He & Hb).
  unfold revoke_active at 2 in Hfold. cbn [fst snd] in Hfold. destruct (operation c).
  - set (c' := mkFlowCommand POLICY_WIRE_VERSION (fc_gateway_id c) (fc_boot_id c) e revision (uuid n) (policy_flow_id c) Revoke None [] (i64_saturating_add now 30000) now).
    change (revoke_command (fc_gateway_id c) (fc_boot_id c) e revision (uuid n) (policy_flow_id c) now) with (FlowCommand c') in Hfold.
    change (set_pending _ _) with (put_decision c' s) in Hfold.
    assert (issued !! command_id c' = None) as Hnew by (by apply (fresh_uuid n)). pose proof (Hok) as Hok0.
    apply (put_decision_flows g e issued s c') in Hok0; [|done|done|done|done|done|by intros Hn; change (command_key c') with (command_key c) in Hn; rewrite Hf in Hn].
    destruct (IH (put_decision c' s) (n + 1) _ Hok0 Hbu (draw_one _ _ c' Hdr eq_refl) Hnd) as (? & ? & ? & ? & Hle & issued' & Hsub & Hdr' & Hok' & Hdl); [|done|].
    { intros k x Hx. cbn. rewrite lookup_insert_ne; [apply Hl; by right|]. intros <-. apply Hk, list_elem_of_fmap. by exists (command_key c', x). }
    split_and!; try done; [lia|]. exists issued'. split_and!; try done; [etrans; [|done]; by apply insert_subseteq|].
    intros count hand Hh Hz Hd. apply Hdl; [|intros; apply Hz; lia|].
    + intros i Hi. apply lookup_insert_is_Some. destruct (decide (command_id c' = i)); [by left|right; split; [done|by apply Hh]].
    + apply (put_decision_delivery g e count issued); try done. apply Hz. lia.
  - destruct (IH s n issued Hok Hbu Hdr Hnd) as (? & ? & ? & ? & ? & issued' & ? & ? & ? & ?); [intros k x Hx; apply Hl; by right|done|].
    split_and!; try done. by exists issued'.
Qed.

Lemma revoke_active_flow_states_ok revision now s n issued s' n' : flows_ok g e issued s → bundle s ≠ None → drawn_below n issued →
  revoke_active_flow_states e revision now n s = (s', n') →
  bundle s' = bundle s ∧ session s' = session s ∧ session_boot_id s' = session_boot_id s ∧ n ≤ n' ∧
  ∃ issued', issued ⊆ issued' ∧ drawn_below n' issued' ∧ flows_ok g e issued' s' ∧
  ∀ count hand, (∀ i, hand = Some i → is_Some (issued !! i)) → (∀ m, n ≤ m → count (uuid m) = 0) → delivery_ok count hand s → delivery_ok count hand s'.
Proof.
  intros Hok Hbu Hdr. unfold revoke_active_flow_states. destruct (foldl _ _ _) as [s1 n1] eqn:Hfold. intros [= <- <-].
  apply (revoke_loop_ok revision now _ s n issued) in Hfold as (Hb1 & Hs1 & Hsb1 & _ & Hle & issued' & Hsub & Hdr' & Hok1 & Hdl1);
    [|done|done|done|apply map_order_keys|intros k f; by rewrite map_order_elem].
  set (s2 := set_queue [] ∅ s1). destruct (notify_frame (fill_flow_queue now s2)) as (-> & -> & ->). destruct (fill_frame now s2) as (-> & -> & ->).
  assert (flows_ok g e issued' s2) as Hok2 by (destruct Hok1; split; cbn; try done; apply NoDup_nil_2).
  split_and!; try done. exists issued'. split_and!; try done; [by apply notify_flows, fill_flows_ok|].
  intros count hand Hh Hz Hd. apply notify_delivery, (fill_delivery_ok g e issued'); [done|]. by apply pop_queue_delivery, Hdl1.
Qed.

Lemma set_published_flows issued s n b f u : flows_ok g e issued s → bundle_of g e b f → snap_bundle_generation f = n → flows_ok g e issued (set_published n (Some b) (u, Some b) s).
Proof. intros [] Hb Hn. split; cbn; try done. by exists f. Qed.

Lemma set_published_delivery count hand n b u s : delivery_ok count hand s → delivery_ok count hand (set_published n b u s).
Proof. intros [[pl []] [] ?]. split; [by exists pl|done|done]. Qed.

(** ** What the operations leave alone *)

Definition same_frame (s s' : GatewayState) : Prop := bundle s' = bundle s ∧ session s' = session s ∧ session_boot_id s' = session_boot_id s.

Lemma same_frame_trans s s' s'' : same_frame s s' → same_frame s' s'' → same_frame s s''.
Proof. unfold same_frame. intros (-> & -> & ->) (-> & -> & ->). done. Qed.

Lemma settled_frame now s : same_frame s (notify_if_queued (fill_flow_queue now s)).
Proof. eapply same_frame_trans; [apply fill_frame|apply notify_frame]. Qed.

Lemma foldl_frame {A} (f : GatewayState → A → GatewayState) l s : (∀ s a, same_frame s (f s a)) → same_frame s (foldl f s l).
Proof. intros Hf. revert s. induction l as [|a l IH]; intros s; [done|]. eapply same_frame_trans; [apply Hf|apply IH]. Qed.

Lemma retry_commands_frame now at_ s : same_frame s (retry_commands now at_ s).
Proof.
  unfold retry_commands. cbn zeta. eapply same_frame_trans; [|apply settled_frame]. eapply same_frame_trans; [|by apply (foldl_frame drop_exhausted)].
  eapply same_frame_trans; [|apply (foldl_frame retry_in_flight)]; [apply (foldl_frame (retry_partial now))|].
  - intros t k. unfold retry_partial. destruct (flow_partial_retries t !! k); [|done]. cbn. destruct (flow_states t !! k); [|done]. by destruct (_ && _)%bool.
  - intros t i. unfold retry_in_flight. destruct (flow_in_flight t !! i); [|done]. cbn. by case_bool_decide.
Qed.

Lemma acknowledge_frame now at_ i k sent st reason s : same_frame s (acknowledge now at_ i k sent st reason s).
Proof.
  unfold acknowledge. cbn zeta. eapply same_frame_trans; [|apply settled_frame]. set (s1 := set_in_flight _ s). change (same_frame s1 (withdraw i k sent st (delay_or_forget now at_ i k sent st reason s1))).
  assert (∀ t, same_frame t (withdraw i k sent st t)) as Hw by (intros t; unfold withdraw; by destruct (_ && _)%bool).
  eapply same_frame_trans; [|apply Hw]. unfold delay_or_forget. cbn zeta. destruct (_ && _)%bool; [|done]. destruct (flow_partial_retries s1 !! k); [|done]. by destruct (negb _).
Qed.

Lemma take_queued_frame turns now revision boot s s' o : take_queued turns now revision boot s = (s', o) → same_frame s s'.
Proof.
  revert s. induction turns as [|n IH]; intros s; cbn [take_queued]; [by intros [= <- <-]|]. destruct (flow_queue s) as [|k rest]; [by intros [= <- <-]|]. cbn zeta.
  set (s1 := set_queue rest _ s). destruct (flow_pending s1 !! k) as [f|]; [|by intros Ht%IH].
  destruct (negb _); [by intros Ht%IH|]. destruct (negb _); [by intros Ht%IH|].
  intros [= <- <-]. eapply same_frame_trans; [|apply settled_frame]. done.
Qed.
End operations.
