(* ===== verification/Push.v ===== *)
(** The policy streams of the collector (run_socket and handle_agent_frame in
    src/crates/collector/src/policy/push.rs, the stream handler and the flow
    decisions of src/crates/collector/src/lib.rs) over the hub and the policy
    service, as a system of steps: each connected agent has a task that waits for
    one event at a time, sends, and handles what the agent reports, while policies
    are edited, snapshots are published and flows are decided in between. The frames
    put on each connection are recorded in its wire. *)

From stdpp Require Import pretty.
From S2P Require Import Prelude PolicyWire Compiler Evaluator Contexts Admission Database Sessions Hub.

(** ** State *)

(** Where the task of a connection is: before its start, sending a bundle or a
    command, re-evaluating the known flows, at the top of its loop, waiting for an
    event, or ending. *)
Inductive Phase :=
  | Opening
  | SendingBundle (b : PublishedBundle)
  | SendingCommand (f : PolicyWireFrame)
  | Evaluating (ev : Evaluation) (now : Z) (then_retry : bool)
  | Top
  | Waiting
  | Leaving
  | Closed.

Record Connection := mkConnection {
  c_session : AgentSession;
  c_seen : Z;
  c_last_sent : option PublishedBundle;
  c_boot : option string;
  c_phase : Phase;
  c_wire : list PolicyWireFrame;
}.

(** [reads] are the snapshots read from the service and not yet published,
    [upgrades] the gateways whose handshake is under way. *)
Record System := mkSystem {
  hub : PolicyHub;
  world : World;
  reads : list (string * (Z * list PolicySnapshotEntry));
  upgrades : list string;
  conns : gmap Z Connection;
}.

Definition set_hub (h : PolicyHub) (y : System) : System := mkSystem h (world y) (reads y) (upgrades y) (conns y).
Definition set_world (w : World) (y : System) : System := mkSystem (hub y) w (reads y) (upgrades y) (conns y).
Definition put_conn (i : Z) (c : Connection) (y : System) : System := mkSystem (hub y) (world y) (reads y) (upgrades y) (<[i := c]> (conns y)).

Definition set_phase (p : Phase) (c : Connection) : Connection :=
  mkConnection (c_session c) (c_seen c) (c_last_sent c) (c_boot c) p (c_wire c).
Definition set_boot (b : option string) (c : Connection) : Connection :=
  mkConnection (c_session c) (c_seen c) (c_last_sent c) b (c_phase c) (c_wire c).
Definition set_seen (n : Z) (c : Connection) : Connection :=
  mkConnection (c_session c) n (c_last_sent c) (c_boot c) (c_phase c) (c_wire c).
(** A frame that has been sent. *)
Definition on_wire (f : PolicyWireFrame) (c : Connection) : Connection :=
  mkConnection (c_session c) (c_seen c) (c_last_sent c) (c_boot c) (c_phase c) (c_wire c ++ [f]).
Definition set_last_sent (b : PublishedBundle) (c : Connection) : Connection :=
  mkConnection (c_session c) (c_seen c) (Some b) (c_boot c) (c_phase c) (c_wire c).

Definition identity (x : AgentSession) : SessionIdentity := mkSession (as_connection_epoch x) (as_id x).

Record FrameOutcome := mkOutcome { keep_open : bool; resend_snapshot : bool }.
Definition CONTINUE : FrameOutcome := mkOutcome true false.
Definition CLOSE : FrameOutcome := mkOutcome false false.
Definition RESEND : FrameOutcome := mkOutcome true true.
Definition stale (resend : bool) : FrameOutcome := mkOutcome true resend.

Section push.
Context `{MapOrder} `{Uuids} `{PolicyCodec} `{Calendar} `{ReportJson} `{SpecJson}.

(** ** Frames of the agent *)

Record Handled := mkHandled { h_hub : PolicyHub; h_world : World; h_boot : option string; h_outcome : FrameOutcome; h_evaluation : option Evaluation }.

(** The identity of a bundle as a report names it. *)
Definition names_bundle (b : option PublishedBundle) (gateway : string) (epoch : option string) (revision : Z) (generation : option Z) (checksum : option string) : bool :=
  match b ≫= λ b, snapshot_identity (frame b) with
  | Some (g, e, r, n, k) =>
    (String.eqb g gateway && (revision =? r) && bool_decide (epoch = Some e) && bool_decide (generation = Some n) && bool_decide (checksum = Some k))%bool
  | None => false
  end.

Definition handle_health (now : Z) (f : PolicyHealthFrame) (c : Connection) (h : PolicyHub) (w : World) : Handled :=
  let x := c_session c in
  let boot_switched := other_boot (c_boot c) (health_boot_id f) in
  let report := CHealth (as_gateway_id x) (identity x) (health_boot_id f) (controller_epoch h) (last_applied_revision f) (health_capabilities f)
                  (emergency_disabled f) (health_reported_at_ms f) in
  let w' := step w report in
  match snd (call report (service w)) with
  | RWrite (Ok WriteApplied) =>
    let h := latch_agent_boot now x (health_boot_id f) h in
    let boot := Some (health_boot_id f) in
    if boot_switched then mkHandled h w' boot RESEND None
    else if names_bundle (current_bundle (as_gateway_id x) h) (as_gateway_id x) (health_controller_epoch f) (last_applied_revision f)
              (health_bundle_generation f) (health_checksum f)
    then let '(h, ev) := record_capabilities now x (last_applied_revision f) (health_capabilities f) h in mkHandled h w' boot CONTINUE ev
    else mkHandled h w' boot CONTINUE None
  | RWrite (Ok Superseded) => mkHandled h w' (c_boot c) (stale false) None
  | _ => mkHandled h w' (c_boot c) CLOSE None
  end.

Definition handle_ack (now : Z) (f : PolicyAckFrame) (c : Connection) (h : PolicyHub) (w : World) : Handled :=
  let x := c_session c in
  if negb (bool_decide (c_boot c = Some (pack_boot_id f))) then mkHandled h w (c_boot c) RESEND None
  else match c_last_sent c with
  | None => mkHandled h w (c_boot c) RESEND None
  | Some b =>
    match snapshot_identity (frame b) with
    | None => mkHandled h w (c_boot c) CLOSE None
    | Some _ =>
      if negb (names_bundle (Some b) (pack_gateway_id f) (Some (pack_controller_epoch f)) (pack_config_revision f) (Some (pack_bundle_generation f)) (Some (pack_checksum f)))
      then mkHandled h w (c_boot c) RESEND None
      else
        let report := CAck (as_gateway_id x) (identity x)
          (mkAckReport (pack_boot_id f) (pack_controller_epoch f) (pack_config_revision f) (pack_bundle_generation f) (pack_checksum f) (pack_status f)
             (pack_capabilities f) (results f) (pack_reported_at_ms f)) in
        let w' := step w report in
        match snd (call report (service w)) with
        | RWrite (Ok WriteApplied) =>
          let '(h, ev) := record_capabilities now x (pack_config_revision f) (pack_capabilities f) h in mkHandled h w' (c_boot c) CONTINUE ev
        | RWrite (Ok Superseded) => mkHandled h w' (c_boot c) CONTINUE None
        | _ => mkHandled h w' (c_boot c) CLOSE None
        end
    end
  end.

Definition handle_metrics (now : Z) (f : PolicyMetricsFrame) (c : Connection) (h : PolicyHub) (w : World) : Handled :=
  if negb (bool_decide (c_boot c = Some (pm_boot_id f))) then mkHandled h w (c_boot c) (stale false) None
  else mkHandled h (step w (CMetrics (pm_gateway_id f) (identity (c_session c)) (pm_boot_id f) (sampled_at_ms f) (metrics f) now)) (c_boot c) CONTINUE None.

Definition handle_flow_ack (now at_ : Z) (f : FlowAckFrame) (c : Connection) (h : PolicyHub) (w : World) : Handled :=
  if negb (bool_decide (c_boot c = Some (fa_boot_id f))) then mkHandled h w (c_boot c) (stale false) None
  else mkHandled (fst (acknowledge_flow_command now at_ (c_session c) f h)) w (c_boot c) CONTINUE None.

Definition handle_agent_frame (now at_ : Z) (bytes : list Z) (c : Connection) (h : PolicyHub) (w : World) : Handled :=
  let close := mkHandled h w (c_boot c) CLOSE None in
  if ((POLICY_MAX_FRAME_BYTES <? zlen bytes) || negb (is_active (c_session c) h))%bool then close
  else match decode bytes with
  | Err _ => close
  | Ok f =>
    let mine (g : string) := String.eqb g (as_gateway_id (c_session c)) in
    match f with
    | PolicyHealth f => if mine (health_gateway_id f) then handle_health now f c h w else close
    | PolicyAck f => if mine (pack_gateway_id f) then handle_ack now f c h w else close
    | PolicyMetrics f => if mine (pm_gateway_id f) then handle_metrics now f c h w else close
    | FlowAck f => if mine (fa_gateway_id f) then handle_flow_ack now at_ f c h w else close
    | _ => close
    end
  end.

(** ** The task of a connection *)

(** [disconnect_session], first part: the session leaves the hub; the service is
    told only when it was the active one. *)
Definition disconnect (i : Z) (c : Connection) (y : System) : System :=
  let '(h, was_active) := unregister (c_session c) (hub y) in
  put_conn i (set_phase (if was_active then Leaving else Closed) c) (set_hub h y).

(** A bundle that the service is told about, while the session is the active one. *)
Definition record_bundle_delivery (now : Z) (x : AgentSession) (b : PublishedBundle) (h : PolicyHub) (w : World) : World :=
  if negb (is_active x h) then w
  else match snapshot_identity (frame b) with
  | Some (g, _, revision, _, _) => step w (CDeliver g (identity x) revision now)
  | None => w
  end.

(** The start of [run_socket]: the connection is recorded, and the bundle that is
    published now is sent first. *)
Definition start_socket (i : Z) (c : Connection) (y : System) : System :=
  let x := c_session c in
  let report := CConnect (as_gateway_id x) (controller_epoch (hub y)) (as_id x) in
  let y' := set_world (step (world y) report) y in
  match snd (call report (service (world y))) with
  | RWrite (Ok WriteApplied) =>
    let '(seen, b) := updates (gateway_state (hub y') (as_gateway_id x)) in
    match b with
    | Some b => put_conn i (set_seen seen (set_phase (SendingBundle b) c)) y'
    | None => put_conn i (set_seen seen (set_phase Top c)) (set_hub (notify_flow_commands x (hub y')) y')
    end
  | _ => put_conn i (set_phase Closed c) (set_hub (fst (unregister x (hub y'))) y')
  end.

(** A send that has completed. *)
Definition finish_send (now at_ : Z) (ok : bool) (i : Z) (c : Connection) (y : System) : System :=
  let x := c_session c in
  match c_phase c with
  | SendingBundle b =>
    if ok then
      put_conn i (set_last_sent b (on_wire (frame b) (set_phase Top c)))
        (set_hub (notify_flow_commands x (hub y)) (set_world (record_bundle_delivery now x b (hub y) (world y)) y))
    else disconnect i c y
  | SendingCommand f =>
    if ok then put_conn i (on_wire f (set_phase Top c)) (set_hub (mark_flow_command_sent at_ x f (hub y)) y)
    else disconnect i c (set_hub (requeue_unsent_flow_command now x f (hub y)) y)
  | _ => y
  end.

(** What the waiting task does with an event. *)
Inductive Event :=
  | ECancelled
  | EUpdated
  | ENotified
  | ERetry
  | EMessage (bytes : list Z)
  | EAlive
  | EGone.

(** The next command is taken and encoded; one that cannot be encoded is lost. *)
Definition on_notified (now : Z) (i : Z) (c : Connection) (y : System) : System :=
  let x := c_session c in
  let s := gateway_state (hub y) (as_gateway_id x) in
  if negb (flow_notify s) then y
  else
    let h := put_gateway (hub y) (as_gateway_id x) (set_notify false s) in
    let revision := default 0 (bundle_revision (c_last_sent c)) in
    let '(h, f) := take_flow_command now x revision (c_boot c) h in
    let phase := match f with Some f => if is_ok (encode f) then SendingCommand f else Top | None => Top end in
    put_conn i (set_phase phase c) (set_hub h y).

Definition on_message (now at_ : Z) (bytes : list Z) (i : Z) (c : Connection) (y : System) : System :=
  let r := handle_agent_frame now at_ bytes c (hub y) (world y) in
  let y := set_hub (h_hub r) (set_world (h_world r) y) in
  let c := set_boot (h_boot r) c in
  if negb (keep_open (h_outcome r)) then disconnect i c y
  else match h_evaluation r with
  | Some ev => put_conn i (set_phase (Evaluating ev now false) c) y
  | None =>
    if resend_snapshot (h_outcome r) then
      match current_bundle (as_gateway_id (c_session c)) (hub y) with
      | Some b => put_conn i (set_phase (SendingBundle b) c) y
      | None => put_conn i (set_phase Top c) y
      end
    else put_conn i (set_phase Top c) y
  end.

Definition on_event (now at_ : Z) (ev : Event) (i : Z) (c : Connection) (y : System) : System :=
  let x := c_session c in
  match ev with
  | ECancelled => if bool_decide (as_id x ∈ cancelled (hub y)) then disconnect i c y else y
  | EUpdated =>
    let '(n, b) := updates (gateway_state (hub y) (as_gateway_id x)) in
    if n =? c_seen c then y
    else put_conn i (set_seen n (set_phase (match b with Some b => SendingBundle b | None => Top end) c)) y
  | ENotified => on_notified now i c y
  | ERetry =>
    match active_contexts now x (hub y) with
    | (h, Some ev) => put_conn i (set_phase (Evaluating ev now true) c) (set_hub h y)
    | (h, None) => put_conn i (set_phase Top c) (set_hub (retry_flow_commands now at_ x h) y)
    end
  | EMessage bytes => on_message now at_ bytes i c y
  | EAlive => put_conn i (set_phase Top c) y
  | EGone => disconnect i c y
  end.

(** One turn of the loop over the known flows. *)
Definition evaluate_next (now at_ : Z) (i : Z) (c : Connection) (y : System) : System :=
  match c_phase c with
  | Evaluating ev t then_retry =>
    match ev_contexts ev with
    | x :: rest =>
      put_conn i (set_phase (Evaluating (mkEvaluation (ev_bundle ev) rest (ev_block ev) (ev_limit ev)) t then_retry) c)
        (set_hub (evaluate_context t (ev_bundle ev) (ev_block ev) (ev_limit ev) x (hub y)) y)
    | [] => put_conn i (set_phase Top c) (set_hub (if then_retry then retry_flow_commands now at_ (c_session c) (hub y) else hub y) y)
    end
  | _ => y
  end.

(** [outcome] is how a send ends and [ev] the event that wakes the task. *)
Definition conn_step (now at_ : Z) (outcome : bool) (ev : Event) (i : Z) (y : System) : System :=
  match conns y !! i with
  | None => y
  | Some c =>
    match c_phase c with
    | Opening => start_socket i c y
    | SendingBundle _ | SendingCommand _ => finish_send now at_ outcome i c y
    | Evaluating _ _ _ => evaluate_next now at_ i c y
    | Top => if is_active (c_session c) (hub y) then put_conn i (set_phase Waiting c) y else disconnect i c y
    | Waiting => on_event now at_ ev i c y
    | Leaving =>
      put_conn i (set_phase Closed c)
        (set_world (step (world y) (CDisconnect (as_gateway_id (c_session c)) (identity (c_session c)))) y)
    | Closed => y
    end
  end.

(** ** The other tasks *)

Definition with_command_id (i : string) (c : FlowCommandFrame) : FlowCommandFrame :=
  mkFlowCommand (fc_wire_version c) (fc_gateway_id c) (fc_boot_id c) (fc_controller_epoch c) (fc_config_revision c) i (policy_flow_id c) (operation c)
    (verdict c) (policy_ids c) (expires_at_ms c) (issued_at_ms c).

(** The steps of the system: an edit of the policies, reading a snapshot, publishing
    one that was read (for a new stream, whose handshake then goes on), the end of a
    handshake, what the flow decisions do to the hub, and a step of a connection. *)
Inductive Step :=
  | SService (c : Call)
  | SRead (g : string)
  | SPublish (now : Z) (force stream : bool) (n : nat)
  | SUpgrade (g : string)
  | SRemember (now : Z) (g boot_id flow : string) (protocol : Z) (request : PolicyPreviewRequest)
  | SForget (g boot_id flow : string)
  | SQueue (now : Z) (c : FlowCommandFrame) (expected : option Z)
  | SConn (now at_ : Z) (outcome : bool) (ev : Event) (i : Z).

Definition sys_step (y : System) (t : Step) : System :=
  match t with
  | SService c => if is_policy_call c then set_world (step (world y) c) y else y
  | SRead g =>
    let '(sv, r) := stored_snapshot g (service (world y)) in
    let y := set_world (mkWorld sv (owners (world y)) (acks (world y))) y in
    match r with Ok v => mkSystem (hub y) (world y) ((g, v) :: reads y) (upgrades y) (conns y) | Err _ => y end
  | SPublish now force stream n =>
    match reads y !! n with
    | Some (g, v) =>
      let '(h, r) := refresh_gateway now g (force && negb stream)%bool (Ok v) (hub y) in
      mkSystem h (world y) (reads y) (if (stream && is_ok r)%bool then g :: upgrades y else upgrades y) (conns y)
    | None => y
    end
  | SUpgrade g =>
    if bool_decide (g ∈ upgrades y) then
      let '(h, r) := register g (hub y) in
      match r with
      | Ok x => put_conn (as_id x) (mkConnection x 0 None None Opening []) (set_hub h y)
      | Err _ => set_hub h y
      end
    else y
  | SRemember now g boot flow protocol r =>
    let r := mkRequest g (req_client_mac r) (application_id r) (category_id r) (application_confidence r) (req_scope r) (at_ms r) in
    set_hub (fst (remember_flow_context now g boot flow protocol r (hub y))) y
  | SForget g boot flow => set_hub (forget_flow_context g boot flow (hub y)) y
  | SQueue now c expected =>
    match current_bundle (fc_gateway_id c) (hub y) with
    | None => y
    | Some _ => set_hub (fst (queue_flow_command_inner now (FlowCommand (with_command_id (uuid (drawn (hub y))) c)) expected (draw (hub y) 1))) y
    end
  | SConn now at_ outcome ev i => conn_step now at_ outcome ev i y
  end.

Definition sys_start (epoch : string) (os : list (option string)) : System := mkSystem (new_hub epoch) (start os) [] [] ∅.
Definition sys_run (ts : list Step) (y : System) : System := foldl sys_step y ts.

(** ** Flow decisions *)

Definition LIFECYCLE_ACTIVE : Z := 1.
Definition LIFECYCLE_IDLE : Z := 2.
Definition SCOPE_INTERNET : Z := 1.

(** The part of an attribution that a decision depends on. *)
Record FlowAttribution := mkAttribution { at_application_id : string; at_category_id : string; at_application_confidence : f64 }.

Definition canonical_mac (value : list Z) : option string :=
  if zlen value =? 6 then Some (join_colon ((λ b, to_ascii_uppercase (hex_byte b)) <$> value)) else None.

(** The command for a decision about a flow, when it has a verdict and a lifetime. *)
Definition decided_command (now : Z) (b : PublishedBundle) (f : PolicySnapshotFrame) (block limit : bool) (boot_id : string) (request : PolicyPreviewRequest)
    (d : FlowDelta) : option FlowCommandFrame :=
  let '(verdict, policy_ids) := flow_command_decision (evaluate_preview request (policies f) block limit) in
  verdict ← (if (negb (no_selector policy_ids) && (zlen policy_ids <=? 16))%bool then verdict else None);
  ttl ← flow_ttl_ms (d_protocol d);
  expires ← flow_verdict_expiry (frame b) policy_ids now ttl;
  Some (mkFlowCommand POLICY_WIRE_VERSION (req_gateway_id request) boot_id (snap_controller_epoch f) (snap_config_revision f) EmptyString (d_policy_flow_id d) Upsert
          (Some verdict) policy_ids expires now).

Definition decide_flow (now : Z) (b : PublishedBundle) (f : PolicySnapshotFrame) (caps : bool * bool) (g boot_id : string) (d : FlowDelta)
    (attribution : option FlowAttribution) (h : PolicyHub) : PolicyHub :=
  let flow := d_policy_flow_id d in
  let revoke (h : PolicyHub) := fst (revoke_flow_if_active g boot_id (snap_controller_epoch f) (snap_config_revision f) flow now h) in
  if str_is_empty flow then h
  else if (((d_lifecycle d =? LIFECYCLE_ACTIVE) || (d_lifecycle d =? LIFECYCLE_IDLE)) && (d_packets d =? 0) && (d_upload_bytes d =? 0) && (d_download_bytes d =? 0))%bool then h
  else
    let over := ((d_lifecycle d =? LIFECYCLE_ENDED) || negb (d_scope d =? SCOPE_INTERNET))%bool in
    match canonical_mac (d_client_mac d) with
    | None => let h := forget_flow_context g boot_id flow h in if over then revoke h else h
    | Some mac =>
      if over then revoke (forget_flow_context g boot_id flow h)
      else match attribution with
      | None => h
      | Some a =>
        let request := mkRequest g mac (at_application_id a) (at_category_id a) (at_application_confidence a) "internet" now in
        let '(h, n) := remember_flow_context now g boot_id flow (d_protocol d) request h in
        match decided_command now b f (fst caps) (snd caps) boot_id request d with
        | Some c =>
          match n with
          | Some n => fst (queue_flow_command_for_context now (FlowCommand (with_command_id (uuid (drawn h)) c)) n (draw h 1))
          | None => h
          end
        | None => revoke h
        end
      end
    end.

Fixpoint decide_flows (now : Z) (b : PublishedBundle) (f : PolicySnapshotFrame) (caps : bool * bool) (g boot_id : string) (ds : list FlowDelta)
    (attributions : list FlowAttribution) (h : PolicyHub) : PolicyHub :=
  match ds with
  | [] => h
  | d :: ds => decide_flows now b f caps g boot_id ds (tail attributions) (decide_flow now b f caps g boot_id d (head attributions) h)
  end.

Definition queue_policy_flow_decisions (now : Z) (batch : FlowBatch) (attributions : list FlowAttribution) (h : PolicyHub) : PolicyHub :=
  match current_bundle (b_gateway_id batch) h with
  | Some b =>
    match frame b with
    | PolicySnapshot f => decide_flows now b f (hub_flow_capabilities (b_gateway_id batch) h) (b_gateway_id batch) (b_boot_id batch) (flows batch) attributions h
    | _ => h
    end
  | None => h
  end.
End push.

(** * Invariants *)

(** The snapshots among the frames, and how often a command was sent. *)
Definition snapshot_of (f : PolicyWireFrame) : option PolicySnapshotFrame := match f with PolicySnapshot f => Some f | _ => None end.
Definition snapshots (w : list PolicyWireFrame) : list PolicySnapshotFrame := omap snapshot_of w.
Definition times (w : list PolicyWireFrame) (i : string) : Z := zlen (List.filter (λ f, bool_decide (flow_command_id f = Some i)) w).

(** [b] is not older than [a]. *)
Definition snap_le (a b : PolicySnapshotFrame) : Prop :=
  snap_bundle_generation a ≤ snap_bundle_generation b ∧ snap_config_revision a ≤ snap_config_revision b.

(** The frames of a stream in order: snapshots of this gateway and process that get
    newer, and each command after the snapshot of its revision. *)
Record wire_ok (g epoch : string) (w : list PolicyWireFrame) : Prop := {
  wo_snapshots f : f ∈ snapshots w → snap_gateway_id f = g ∧ snap_controller_epoch f = epoch;
  wo_sorted : StronglySorted snap_le (snapshots w);
  wo_commands pre c post : w = pre ++ FlowCommand c :: post → fc_gateway_id c = g ∧ fc_controller_epoch c = epoch ∧
    ∃ f, last (snapshots pre) = Some f ∧ snap_config_revision f = fc_config_revision c;
}.

Definition hand_of (c : Connection) : option string := match c_phase c with SendingCommand f => flow_command_id f | _ => None end.

Lemma snapshots_snoc w f : snapshots (w ++ [f]) = snapshots w ++ option_list (snapshot_of f).
Proof. unfold snapshots. rewrite omap_app. cbn. by destruct (snapshot_of f). Qed.

Lemma times_snoc w f i : times (w ++ [f]) i = times w i + (if bool_decide (flow_command_id f = Some i) then 1 else 0).
Proof. unfold times. rewrite List.filter_app. cbn. unfold zlen. rewrite length_app. case_bool_decide; cbn; lia. Qed.

Lemma times_snapshot w x i : times (w ++ [PolicySnapshot x]) i = times w i.
Proof. rewrite times_snoc. cbn. case_bool_decide; [done|lia]. Qed.

Lemma times_nonneg w i : 0 ≤ times w i.
Proof. apply zlen_nonneg. Qed.

Lemma wire_nil g e : wire_ok g e [].
Proof. split; [by intros f Hf%elem_of_nil|constructor|]. intros pre c post Hw. by destruct pre. Qed.

(** A frame more on the wire. *)
Lemma app_snoc_cons {A} (w pre post : list A) (x y : A) : w ++ [x] = pre ++ y :: post → (post = [] ∧ y = x ∧ pre = w) ∨ ∃ post', post = post' ++ [x] ∧ w = pre ++ y :: post'.
Proof.
  destruct post as [|z post _] using rev_ind; intros Hw.
  - left. apply app_inj_tail in Hw as [-> ->]. done.
  - right. exists post. rewrite app_comm_cons, app_assoc in Hw. apply app_inj_tail in Hw as [-> ->]. done.
Qed.

Lemma StronglySorted_snoc {A} (R : A → A → Prop) l x : StronglySorted R l → Forall (λ a, R a x) l → StronglySorted R (l ++ [x]).
Proof.
  induction 1 as [|a l Hs IH Ha]; intros Hx; [repeat constructor|]. apply Forall_cons in Hx as [Hax Hx]. cbn. constructor; [by apply IH|].
  apply Forall_app. split; [done|]. by constructor.
Qed.

Lemma snap_le_refl f : snap_le f f.
Proof. split; lia. Qed.
Lemma snap_le_trans a b c : snap_le a b → snap_le b c → snap_le a c.
Proof. unfold snap_le. lia. Qed.

Lemma sorted_below_last l (x y : PolicySnapshotFrame) : StronglySorted snap_le l → last l = Some x → snap_le x y → Forall (λ a, snap_le a y) l.
Proof.
  induction 1 as [|a l Hs IH Ha]; intros Hl Hxy; [done|]. destruct l as [|b l]; [cbn in Hl; injection Hl as <-; by constructor|].
  change (last (b :: l) = Some x) in Hl. specialize (IH Hl Hxy). constructor; [|done]. apply Forall_cons in Ha as [Hab _], IH as [Hby _]. by eapply snap_le_trans.
Qed.

Lemma wire_snapshot g e w f : wire_ok g e w → snap_gateway_id f = g → snap_controller_epoch f = e → (∀ x, last (snapshots w) = Some x → snap_le x f) →
  wire_ok g e (w ++ [PolicySnapshot f]).
Proof.
  intros [Hsn Hso Hco] Hg He Hle. split; rewrite ?snapshots_snoc; cbn [snapshot_of option_list].
  - intros x [Hx|Hx]%elem_of_app; [by apply Hsn|]. apply list_elem_of_singleton in Hx as ->. done.
  - apply StronglySorted_snoc; [done|]. destruct (last (snapshots w)) as [x|] eqn:Hl; [by eapply sorted_below_last; [| |apply Hle]|].
    apply last_None in Hl. by rewrite Hl.
  - intros pre c post [(_ & [=] & _)|(post' & -> & ->)]%app_snoc_cons. by apply (Hco pre c post').
Qed.

Lemma wire_command g e w c f : wire_ok g e w → fc_gateway_id c = g → fc_controller_epoch c = e → last (snapshots w) = Some f → snap_config_revision f = fc_config_revision c →
  wire_ok g e (w ++ [FlowCommand c]).
Proof.
  intros [Hsn Hso Hco] Hg He Hl Hr. split; rewrite ?snapshots_snoc; cbn [snapshot_of option_list]; rewrite ?app_nil_r; try done.
  intros pre x post [(_ & [= ->] & ->)|(post' & -> & ->)]%app_snoc_cons; [by split_and!; [| |exists f]|]. by apply (Hco pre x post').
Qed.

(** ** The system *)

Section system.
Context `{MapOrder} `{Uuids} `{PolicyCodec} `{Calendar} `{ReportJson} `{SpecJson} (epoch : string).

(** The snapshot that is published for [g]. *)
Definition published (g : string) (h : PolicyHub) (f : PolicySnapshotFrame) : Prop :=
  ∃ b, current_bundle g h = Some b ∧ bundle_of g epoch b f.

(** A connection: what it has sent and what it is about to send. *)
Record conn_ok (h : PolicyHub) (issued : gmap string FlowCommandFrame) (i : Z) (c : Connection) : Prop := {
  co_id : as_id (c_session c) = i ∧ as_connection_epoch (c_session c) = epoch ∧ 1 ≤ i < next_session_id h;
  co_published : ∃ f, published (as_gateway_id (c_session c)) h f ∧ (∀ x, last (snapshots (c_wire c)) = Some x → snap_le x f) ∧
    ∀ b, c_phase c = SendingBundle b → ∃ x, bundle_of (as_gateway_id (c_session c)) epoch b x ∧ snap_le x f;
  co_wire : wire_ok (as_gateway_id (c_session c)) epoch (c_wire c);
  co_last : (snapshot_of ∘ frame) <$> c_last_sent c = Some <$> last (snapshots (c_wire c));
  co_bundle b : c_phase c = SendingBundle b → ∃ x, bundle_of (as_gateway_id (c_session c)) epoch b x ∧ ∀ y, last (snapshots (c_wire c)) = Some y → snap_le y x;
  co_command f : c_phase c = SendingCommand f → c_boot c ≠ None ∧ ∃ m x, f = FlowCommand m ∧ issued !! command_id m = Some m ∧
    fc_gateway_id m = as_gateway_id (c_session c) ∧ fc_controller_epoch m = epoch ∧ last (snapshots (c_wire c)) = Some x ∧
    snap_config_revision x = fc_config_revision m ∧ times (c_wire c) (command_id m) < FLOW_COMMAND_MAX_ATTEMPTS;
  co_evaluating ev t r : c_phase c = Evaluating ev t r → Forall (λ x, req_gateway_id (ctx_request x) = as_gateway_id (c_session c)) (ev_contexts ev);
  co_times j : times (c_wire c) j ≤ FLOW_COMMAND_MAX_ATTEMPTS;
  co_issued j : issued !! j = None → times (c_wire c) j = 0;
  co_boot : c_boot c = None → ∀ j, times (c_wire c) j = 0;
  co_started : match c_phase c with
               | Opening => c_wire c = [] ∧ c_boot c = None
               | Top | Waiting | Evaluating _ _ _ | SendingCommand _ => c_last_sent c ≠ None
               | _ => True
               end;
}.

(** The active session of a gateway has a connection, whose sends it counts. *)
Definition session_ok (y : System) (g : string) (s : GatewayState) (i : Z) : Prop :=
  ∃ c, conns y !! i = Some c ∧ as_gateway_id (c_session c) = g ∧ delivery_ok (times (c_wire c)) (hand_of c) s ∧ (session_boot_id s = None → c_boot c = None).

Record sys_ok (issued : gmap string FlowCommandFrame) (y : System) : Prop := {
  so_epoch : controller_epoch (hub y) = epoch;
  so_next : 1 ≤ next_session_id (hub y);
  so_drawn : drawn_below (drawn (hub y)) issued;
  so_flows g s : gateways (hub y) !! g = Some s → flows_ok g epoch issued s;
  so_session g s i : gateways (hub y) !! g = Some s → session s = Some i → session_ok y g s i;
  so_conns i c : conns y !! i = Some c → conn_ok (hub y) issued i c;
  so_upgrades g : g ∈ upgrades y → current_bundle g (hub y) ≠ None;
}.

(** A hub that is not older: more sessions, newer snapshots. *)
Definition hub_le (h h' : PolicyHub) : Prop :=
  next_session_id h ≤ next_session_id h' ∧ ∀ g f, published g h f → ∃ f', published g h' f' ∧ snap_le f f'.

Lemma conn_ok_mono h h' issued issued' i c : hub_le h h' → issued ⊆ issued' → conn_ok h issued i c → conn_ok h' issued' i c.
Proof.
  intros [Hn Hp] Hi []. split; try done.
  - destruct co_id0 as (? & ? & ?). split_and!; try done; lia.
  - destruct co_published0 as (f & Hf & Hl & Hb). destruct (Hp _ _ Hf) as (f' & Hf' & Hle). exists f'. split_and!; [done| |].
    + intros x Hx. eapply snap_le_trans; [by apply Hl|done].
    + intros b Hphase. destruct (Hb b Hphase) as (x & Hx & Hxf). exists x. split; [done|]. by eapply snap_le_trans.
  - intros f Hf. destruct (co_command0 f Hf) as (Hb & m & x & -> & Hm & Hg & He & Hl & Hr & Ht). split; [done|]. exists m, x.
    assert (issued' !! command_id m = Some m) by (by eapply lookup_weaken). by split_and!.
  - intros j Hj. apply co_issued0. destruct (issued !! j) eqn:Hij; [|done]. by rewrite (lookup_weaken _ _ _ _ Hij Hi) in Hj.
Qed.

Lemma gateway_flows issued y g : sys_ok issued y → flows_ok g epoch issued (gateway_state (hub y) g).
Proof. intros Hok. unfold gateway_state. destruct (gateways (hub y) !! g) as [s|] eqn:Hg; [by apply (so_flows _ _ Hok)|apply new_gateway_ok]. Qed.

Lemma hand_issued h issued i c j : conn_ok h issued i c → hand_of c = Some j → is_Some (issued !! j).
Proof.
  intros Hc. unfold hand_of. destruct (c_phase c) eqn:Hp; try done. destruct (co_command _ _ _ _ Hc _ Hp) as (_ & m & x & -> & Hm & _). intros [= <-]. by rewrite Hm.
Qed.

(** A change of the state of one gateway that keeps its session; its snapshot does
    not get older. *)
Definition newer (g : string) (o o' : option PublishedBundle) : Prop :=
  ∀ b f, o = Some b → bundle_of g epoch b f → ∃ b' f', o' = Some b' ∧ bundle_of g epoch b' f' ∧ snap_le f f'.

Lemma newer_refl g o : newer g o o.
Proof. intros b f Hb Hf. exists b, f. split_and!; try done; apply snap_le_refl. Qed.

Lemma gateway_bundle h g : current_bundle g h = bundle (gateway_state h g).
Proof. unfold current_bundle, gateway_state. by destruct (gateways h !! g). Qed.

Lemma gateway_step_newer issued issued' y g s' n : sys_ok issued y → let s := gateway_state (hub y) g in
  issued ⊆ issued' → 0 ≤ n → drawn_below (drawn (hub y) + n) issued' → flows_ok g epoch issued' s' → newer g (bundle s) (bundle s') → session s' = session s →
  (session_boot_id s ≠ None → session_boot_id s' ≠ None) →
  (∀ count hand, (∀ i, hand = Some i → is_Some (issued !! i)) → (∀ i, issued !! i = None → count i = 0) → delivery_ok count hand s → delivery_ok count hand s') →
  sys_ok issued' (set_hub (draw (put_gateway (hub y) g s') n) y).
Proof.
  intros Hok s Hi Hn Hdr Hfl Hbu Hse Hsb Hdl. set (h' := draw (put_gateway (hub y) g s') n).
  assert (∀ g', current_bundle g' h' = if decide (g = g') then bundle s' else current_bundle g' (hub y)) as Hcur.
  { intros g'. unfold current_bundle. cbn. destruct (decide (g = g')) as [<-|]; [by rewrite lookup_insert_eq|by rewrite lookup_insert_ne]. }
  assert (hub_le (hub y) h') as Hle.
  { split; [cbn; lia|]. intros g' f (b & Hb & Hf). unfold published. setoid_rewrite Hcur. destruct (decide (g = g')) as [<-|].
    - rewrite gateway_bundle in Hb. destruct (Hbu b f Hb Hf) as (b' & f' & Hb' & Hf' & Hle). exists f'. split; [by exists b'|done].
    - exists f. split; [by exists b|apply snap_le_refl]. }
  split; cbn; try apply Hok; [done| | | |].
  - intros g' t [[<- <-]|[_ Ht]]%lookup_insert_Some; [done|]. eapply flows_ok_grow; [done|]. by apply (so_flows _ _ Hok).
  - intros g' t i [[<- <-]|[Hne Ht]]%lookup_insert_Some Hsi.
    + rewrite Hse in Hsi. unfold s, gateway_state in *. destruct (gateways (hub y) !! g) as [s0|] eqn:Hg; [|done]. cbn in *.
      destruct (so_session _ _ Hok g s0 i Hg Hsi) as (c & Hc & Hcg & Hdc & Hcb). exists c. split_and!; try done.
      * apply Hdl; [|apply (co_issued _ _ _ _ (so_conns _ _ Hok i c Hc))|done]. intros j Hj. by apply (hand_issued _ _ _ _ _ (so_conns _ _ Hok i c Hc)).
      * intros Hno. apply Hcb. destruct (session_boot_id s0) as [b|]; [|done]. by destruct (Hsb ltac:(done)).
    + destruct (so_session _ _ Hok g' t i Ht Hsi) as (c & Hc & ?). by exists c.
  - intros i c Hc. eapply conn_ok_mono; [done|done|]. by apply (so_conns _ _ Hok).
  - intros g' Hg'. fold h'. rewrite Hcur. pose proof (so_upgrades _ _ Hok g' Hg') as Hup. destruct (decide (g = g')) as [<-|]; [|done]. rewrite gateway_bundle in Hup.
    pose proof (fo_bundle _ _ _ _ (gateway_flows _ _ g Hok)) as Hfb. fold s in Hup, Hfb. destruct (bundle s) as [b|] eqn:Hb; [|done]. destruct Hfb as (f & Hf & _).
    by destruct (Hbu b f eq_refl Hf) as (b' & f' & -> & _).
Qed.

Lemma gateway_step issued issued' y g s' n : sys_ok issued y → let s := gateway_state (hub y) g in
  issued ⊆ issued' → 0 ≤ n → drawn_below (drawn (hub y) + n) issued' → flows_ok g epoch issued' s' → bundle s' = bundle s → session s' = session s →
  (session_boot_id s ≠ None → session_boot_id s' ≠ None) →
  (∀ count hand, (∀ i, hand = Some i → is_Some (issued !! i)) → (∀ i, issued !! i = None → count i = 0) → delivery_ok count hand s → delivery_ok count hand s') →
  sys_ok issued' (set_hub (draw (put_gateway (hub y) g s') n) y).
Proof. intros Hok s Hi Hn Hdr Hfl Hbu Hse Hsb Hdl. apply (gateway_step_newer issued); try done. rewrite Hbu. apply newer_refl. Qed.

Lemma put_gateway_le h g s s' : gateways h !! g = Some s → bundle s' = bundle s → hub_le h (put_gateway h g s').
Proof.
  intros Hg Hbu. split; [cbn; lia|]. intros g' f (b & Hb & Hf). exists f. split; [|apply snap_le_refl]. exists b. split; [|done]. unfold current_bundle in *. cbn.
  destruct (decide (g = g')) as [<-|]; [|by rewrite lookup_insert_ne]. rewrite lookup_insert_eq. rewrite Hg in Hb. cbn in *. congruence.
Qed.

Lemma conn_gateway h issued i c : conn_ok h issued i c → ∃ s, gateways h !! as_gateway_id (c_session c) = Some s ∧ gateway_state h (as_gateway_id (c_session c)) = s ∧ bundle s ≠ None.
Proof.
  intros Hc. destruct (co_published _ _ _ _ Hc) as (f & (b & Hb & _) & _). unfold current_bundle in Hb. apply bind_Some in Hb as (s & Hs & Hb).
  exists s. unfold gateway_state. rewrite Hs. split_and!; [done|done|]. by rewrite Hb.
Qed.

(** A step of a connection and of the state of its gateway. *)
Lemma conn_hub_step issued y i c c' s' : sys_ok issued y → conns y !! i = Some c → let g := as_gateway_id (c_session c) in let s := gateway_state (hub y) g in
  c_session c' = c_session c → flows_ok g epoch issued s' → bundle s' = bundle s →
  (session s = Some i → session s' = None ∨ (session s' = Some i ∧ delivery_ok (times (c_wire c')) (hand_of c') s' ∧ (session_boot_id s' = None → c_boot c' = None))) →
  (session s ≠ Some i → session s' = session s ∧ (session_boot_id s ≠ None → session_boot_id s' ≠ None) ∧ ∀ count hand, delivery_ok count hand s → delivery_ok count hand s') →
  conn_ok (hub y) issued i c' → sys_ok issued (put_conn i c' (set_hub (put_gateway (hub y) g s') y)).
Proof.
  intros Hok Hc g s Hcs Hfl Hbu Hact Hina Hc'. destruct (conn_gateway _ _ _ _ (so_conns _ _ Hok i c Hc)) as (s0 & Hs & Hs0 & _). fold g in Hs, Hs0. unfold s in *. rewrite Hs0 in *.
  clear s. pose proof (put_gateway_le (hub y) g s0 s' Hs Hbu) as Hle. split; cbn; try apply Hok.
  - intros g' t [[<- <-]|[_ Ht]]%lookup_insert_Some; [done|]. by apply (so_flows _ _ Hok).
  - intros g' t j [[<- <-]|[Hne Ht]]%lookup_insert_Some Hsi; unfold session_ok; cbn.
    + destruct (decide (session s0 = Some i)) as [Ha|Hna].
      * destruct (Hact Ha) as [Hn|(Hs' & Hd & Hb)]; [congruence|]. assert (j = i) as -> by congruence. exists c'. rewrite lookup_insert_eq, Hcs. by split_and!.
      * destruct (Hina Hna) as (Hs' & Hb & Hd). rewrite Hs' in Hsi. assert (j ≠ i) by congruence. destruct (so_session _ _ Hok g s0 j Hs Hsi) as (d & Hdj & Hdg & Hdd & Hdb).
        exists d. rewrite lookup_insert_ne by done. split_and!; try done; [by apply Hd|]. intros Hno. apply Hdb. destruct (session_boot_id s0); [|done]. by destruct (Hb ltac:(done)).
    + destruct (so_session _ _ Hok g' t j Ht Hsi) as (d & Hdj & Hdg & Hdd & Hdb). assert (j ≠ i) as Hji by (intros ->; rewrite Hc in Hdj; injection Hdj as <-; done).
      exists d. by rewrite lookup_insert_ne by done.
  - intros j d [[<- <-]|[_ Hd]]%lookup_insert_Some; (eapply conn_ok_mono; [done|done|]); [done|by apply (so_conns _ _ Hok)].
  - intros g' Hg' Hno. apply (so_upgrades _ _ Hok g' Hg'). unfold current_bundle in *. cbn in Hno. destruct (decide (g = g')) as [<-|]; [|by rewrite lookup_insert_ne in Hno].
    rewrite lookup_insert_eq in Hno. rewrite Hs. cbn in *. congruence.
Qed.

(** A step of a connection alone. *)
Lemma conn_step_alone issued y i c c' : sys_ok issued y → conns y !! i = Some c → let s := gateway_state (hub y) (as_gateway_id (c_session c)) in
  c_session c' = c_session c → (session s = Some i → delivery_ok (times (c_wire c')) (hand_of c') s ∧ (session_boot_id s = None → c_boot c' = None)) →
  conn_ok (hub y) issued i c' → sys_ok issued (put_conn i c' y).
Proof.
  intros Hok Hc s Hcs Hact Hc'. destruct (conn_gateway _ _ _ _ (so_conns _ _ Hok i c Hc)) as (s0 & Hs & Hs0 & _).
  replace (put_conn i c' y) with (put_conn i c' (set_hub (put_gateway (hub y) (as_gateway_id (c_session c)) s) y)).
  - apply conn_hub_step; try done; [by apply gateway_flows|]. intros Ha. right. split; [done|]. by apply Hact.
  - unfold s. rewrite Hs0. destruct y as [[] ? ? ? ?]. cbn in *. unfold put_conn, set_hub, put_gateway. cbn. by rewrite (insert_id _ _ _ Hs).
Qed.

Lemma active_state_Some issued y i c s : sys_ok issued y → conns y !! i = Some c → active_state (c_session c) (hub y) = Some s →
  s = gateway_state (hub y) (as_gateway_id (c_session c)) ∧ session s = Some i.
Proof.
  intros Hok Hc. destruct (conn_gateway _ _ _ _ (so_conns _ _ Hok i c Hc)) as (s0 & Hs & Hs0 & _). destruct (co_id _ _ _ _ (so_conns _ _ Hok i c Hc)) as (Hid & _).
  unfold active_state. rewrite Hs. cbn. unfold is_session. rewrite Hid. case_bool_decide; [|done]. intros [= <-]. done.
Qed.

Lemma active_state_None issued y i c : sys_ok issued y → conns y !! i = Some c → active_state (c_session c) (hub y) = None →
  session (gateway_state (hub y) (as_gateway_id (c_session c))) ≠ Some i.
Proof.
  intros Hok Hc. destruct (conn_gateway _ _ _ _ (so_conns _ _ Hok i c Hc)) as (s0 & Hs & Hs0 & _). destruct (co_id _ _ _ _ (so_conns _ _ Hok i c Hc)) as (Hid & _).
  unfold active_state. rewrite Hs, Hs0. cbn. unfold is_session. rewrite Hid. by case_bool_decide.
Qed.

(** What the active session has sent and holds. *)
Lemma active_delivery issued y i c : sys_ok issued y → conns y !! i = Some c → let s := gateway_state (hub y) (as_gateway_id (c_session c)) in
  session s = Some i → delivery_ok (times (c_wire c)) (hand_of c) s ∧ (session_boot_id s = None → c_boot c = None).
Proof.
  intros Hok Hc s Ha. destruct (conn_gateway _ _ _ _ (so_conns _ _ Hok i c Hc)) as (s0 & Hs & Hs0 & _). unfold s in *. rewrite Hs0 in *.
  destruct (so_session _ _ Hok _ s0 i Hs Ha) as (d & Hd & _ & Hdl & Hb). rewrite Hc in Hd. by injection Hd as <-.
Qed.

Lemma world_ok issued y w : sys_ok issued y → sys_ok issued (set_world w y).
Proof. by intros []. Qed.

(** The state of a gateway after a change that draws no identifiers. *)
Lemma gateway_step_same issued y g s' : sys_ok issued y → let s := gateway_state (hub y) g in
  flows_ok g epoch issued s' → bundle s' = bundle s → session s' = session s → (session_boot_id s ≠ None → session_boot_id s' ≠ None) →
  (∀ count hand, delivery_ok count hand s → delivery_ok count hand s') → sys_ok issued (set_hub (put_gateway (hub y) g s') y).
Proof.
  intros Hok s Hfl Hbu Hse Hsb Hdl. pose proof (gateway_step issued issued y g s' 0 Hok) as Hg. replace (put_gateway (hub y) g s') with (draw (put_gateway (hub y) g s') 0).
  - apply Hg; try done; [rewrite Z.add_0_r; apply (so_drawn _ _ Hok)|]. intros count hand _ _. apply Hdl.
  - unfold draw, put_gateway. cbn. by rewrite Z.add_0_r.
Qed.

(** ** Steps of a connection *)

Lemma set_phase_ok h issued i c p : conn_ok h issued i c →
  match p with
  | Opening | SendingBundle _ | SendingCommand _ => False
  | Leaving | Closed => True
  | Evaluating ev _ _ => c_last_sent c ≠ None ∧ Forall (λ x, req_gateway_id (ctx_request x) = as_gateway_id (c_session c)) (ev_contexts ev)
  | Top | Waiting => c_last_sent c ≠ None
  end → conn_ok h issued i (set_phase p c).
Proof.
  intros [] Hp. split; cbn; try done; try (by intros; subst p).
  - destruct co_published0 as (f & Hf & Hl & _). exists f. split_and!; try done. intros b ->. done.
  - intros ev t r ->. by destruct Hp.
  - destruct p; try done. by destruct Hp.
Qed.

Lemma set_boot_ok h issued i c b : conn_ok h issued i c → c_phase c ≠ Opening → (c_boot c ≠ None → b ≠ None) → conn_ok h issued i (set_boot b c).
Proof.
  intros [] Hp Hb. split; cbn; try done.
  - intros f Hf. destruct (co_command0 f Hf) as (Hc & Hm). split; [by apply Hb|done].
  - intros ->. apply co_boot0. destruct (c_boot c); [|done]. by destruct (Hb ltac:(done)).
  - by destruct (c_phase c).
Qed.

(** A task that ends takes its session with it. *)
Lemma leave_ok issued y i c0 c p : sys_ok issued y → conns y !! i = Some c0 → c_session c = c_session c0 → conn_ok (hub y) issued i c → p = Leaving ∨ p = Closed →
  sys_ok issued (put_conn i (set_phase p c) (set_hub (fst (unregister (c_session c) (hub y))) y)).
Proof.
  intros Hok Hc0 Hcs Hc Hp. assert (conn_ok (hub y) issued i (set_phase p c)) as Hc' by (apply set_phase_ok; [done|by destruct Hp as [->| ->]]).
  unfold unregister, in_session. cbn [fst]. rewrite Hcs. destruct (active_state (c_session c0) (hub y)) as [s|] eqn:Ha.
  - destruct (active_state_Some _ _ _ _ _ Hok Hc0 Ha) as [-> Hs]. apply conn_hub_step; try done.
    + by apply set_session_flows, gateway_flows.
    + by left.
  - apply (active_state_None _ _ _ _ Hok Hc0) in Ha. assert (set_hub (hub y) y = y) as -> by (by destruct y). by eapply conn_step_alone.
Qed.

Lemma disconnect_ok issued y i c0 c : sys_ok issued y → conns y !! i = Some c0 → c_session c = c_session c0 → conn_ok (hub y) issued i c → sys_ok issued (disconnect i c y).
Proof.
  intros Hok Hc0 Hcs Hc. unfold disconnect. pose proof (λ p, leave_ok issued y i c0 c p Hok Hc0 Hcs Hc) as Hl. destruct (unregister _ _) as [h b]. cbn [fst] in Hl.
  apply Hl. destruct b; [by left|by right].
Qed.

Lemma delivery_ok_ext count count' hand s : (∀ i, count i = count' i) → delivery_ok count hand s → delivery_ok count' hand s.
Proof.
  intros Heq [Hp [Hw Hf] Hwin]. split; [done| |done]. split; [intros c Hc Hwt; rewrite <- Heq; by apply Hw|intros p c Hp' Hc; rewrite <- Heq; by apply Hf].
Qed.

(** The bundle that is published is sent. *)
Lemma sending_bundle_ok issued y i c b : sys_ok issued y → conn_ok (hub y) issued i c → current_bundle (as_gateway_id (c_session c)) (hub y) = Some b →
  conn_ok (hub y) issued i (set_phase (SendingBundle b) c).
Proof.
  intros Hok Hc Hb. destruct (co_published _ _ _ _ Hc) as (f & (b' & Hb' & Hf) & Hl & _). assert (b' = b) as -> by congruence.
  destruct Hc. split; cbn; try done.
  - exists f. split_and!; [by exists b|done|]. intros ? [= <-]. exists f. split; [done|apply snap_le_refl].
  - intros ? [= <-]. by exists f.
Qed.

Lemma updates_bundle issued y g n o : sys_ok issued y → updates (gateway_state (hub y) g) = (n, o) → current_bundle g (hub y) = o.
Proof.
  intros Hok Hu. pose proof (fo_updates _ _ _ _ (gateway_flows _ _ g Hok)) as Hb. rewrite Hu in Hb. cbn in Hb. subst o. unfold current_bundle, gateway_state.
  by destruct (gateways (hub y) !! g).
Qed.

Lemma set_seen_ok h issued i c n : conn_ok h issued i c → conn_ok h issued i (set_seen n c).
Proof. by intros []. Qed.

Lemma start_socket_ok issued y i c : sys_ok issued y → conns y !! i = Some c → c_phase c = Opening → sys_ok issued (start_socket i c y).
Proof.
  intros Hok Hc Hp. pose proof (so_conns _ _ Hok i c Hc) as Hco. unfold start_socket. cbn zeta. set (w := step _ _).
  pose proof (world_ok issued y w Hok) as Hok1. set (y1 := set_world w y) in *. change (hub y1) with (hub y).
  assert (∀ p, p = Leaving ∨ p = Closed → sys_ok issued (put_conn i (set_phase p c) (set_hub (fst (unregister (c_session c) (hub y))) y1))) as Hleave
    by (intros p; by apply (leave_ok issued y1 i c)).
  destruct (snd (call _ _)) as [r|r|[[]|e]|r]; try (apply Hleave; by right).
  destruct (updates _) as [n o] eqn:Hu. pose proof (updates_bundle _ _ _ _ _ Hok Hu) as Hb. destruct o as [b|].
  - apply (conn_step_alone issued y1 i c); try done.
    + intros Ha. destruct (active_delivery _ _ _ _ Hok1 Hc Ha) as [Hd Hbo]. split; [|done]. unfold hand_of in *. by rewrite Hp in Hd.
    + by apply set_seen_ok, (sending_bundle_ok issued y).
  - destruct (conn_gateway _ _ _ _ Hco) as (s & Hs & _ & Hne). unfold current_bundle in Hb. rewrite Hs in Hb. cbn in Hb. done.
Qed.

Context `{!MapOrderLaw}.

Lemma conn_phase_hand c : (∀ f, c_phase c ≠ SendingCommand f) → hand_of c = None.
Proof. intros Hp. unfold hand_of. destruct (c_phase c); try done. by destruct (Hp f). Qed.

Lemma bundle_sent_ok h issued i c b : conn_ok h issued i c → c_phase c = SendingBundle b → conn_ok h issued i (set_last_sent b (on_wire (frame b) (set_phase Top c))).
Proof.
  intros Hc Hp. destruct (co_bundle _ _ _ _ Hc b Hp) as (x & (Hfr & Hg & He) & Hxl). destruct (co_published _ _ _ _ Hc) as (f & Hf & _ & Hb).
  destruct (Hb b Hp) as (x' & (Hfr' & _) & Hxf). assert (x' = x) as -> by congruence.
  assert (∀ j, times (c_wire c ++ [frame b]) j = times (c_wire c) j) as Ht by (intros j; rewrite Hfr; apply times_snapshot).
  destruct Hc. split; cbn; try done; try (intros; rewrite Ht; auto).
  - exists f. split_and!; [done| |done]. rewrite snapshots_snoc, Hfr. cbn. rewrite last_snoc. by intros y [= <-].
  - rewrite Hfr. by apply wire_snapshot.
  - rewrite snapshots_snoc, Hfr. cbn. by rewrite last_snoc.
Qed.

Lemma command_sent_ok h issued i c f : conn_ok h issued i c → c_phase c = SendingCommand f → conn_ok h issued i (on_wire f (set_phase Top c)).
Proof.
  intros Hc Hp. destruct (co_command _ _ _ _ Hc f Hp) as (Hbo & m & x & -> & Hm & Hg & He & Hl & Hr & Hlt). destruct (co_published _ _ _ _ Hc) as (fp & Hf & Hle & _).
  pose proof (co_started _ _ _ _ Hc) as Hst. rewrite Hp in Hst.
  destruct Hc. split; cbn; try done.
  - exists fp. split_and!; [done| |done]. by rewrite snapshots_snoc, app_nil_r.
  - by eapply wire_command.
  - by rewrite snapshots_snoc, app_nil_r.
  - intros j. rewrite times_snoc. cbn. case_bool_decide as Hj; [injection Hj as <-; unfold FLOW_COMMAND_MAX_ATTEMPTS in *; lia|]. specialize (co_times0 j). lia.
  - intros j Hj. rewrite times_snoc. cbn. case_bool_decide as Hi; [injection Hi as <-; congruence|]. rewrite co_issued0 by done. lia.
Qed.

Lemma notify_step issued y i c c' : sys_ok issued y → conns y !! i = Some c → c_session c' = c_session c → conn_ok (hub y) issued i c' →
  (∀ j, times (c_wire c') j = times (c_wire c) j) → hand_of c' = hand_of c → c_boot c' = c_boot c →
  sys_ok issued (put_conn i c' (set_hub (notify_flow_commands (c_session c) (hub y)) y)).
Proof.
  intros Hok Hc Hcs Hc' Ht Hh Hb. destruct (conn_gateway _ _ _ _ (so_conns _ _ Hok i c Hc)) as (s & Hs & Hs0 & _). unfold notify_flow_commands. rewrite Hs. rewrite <- Hs0.
  apply conn_hub_step; try done.
  - by apply set_notify_flows, gateway_flows.
  - intros Ha. right. destruct (active_delivery _ _ _ _ Hok Hc Ha) as [Hd Hbo]. split_and!; [done| |by rewrite Hb]. rewrite Hh. apply set_notify_delivery.
    eapply delivery_ok_ext; [|exact Hd]. intros j. by rewrite Ht.
  - intros _. split_and!; try done. intros. by apply set_notify_delivery.
Qed.

Lemma finish_send_ok issued now at_ ok i c y : sys_ok issued y → conns y !! i = Some c → sys_ok issued (finish_send now at_ ok i c y).
Proof.
  intros Hok Hc. pose proof (so_conns _ _ Hok i c Hc) as Hco. unfold finish_send. cbn zeta. destruct (c_phase c) as [|b|f| | | | |] eqn:Hp; try done; destruct ok.
  - set (w := record_bundle_delivery _ _ _ _ _). pose proof (world_ok issued y w Hok) as Hok1.
    apply (notify_step issued (set_world w y) i c); try done; [by apply bundle_sent_ok| |by unfold hand_of; rewrite Hp].
    intros j. cbn. destruct (co_bundle _ _ _ _ Hco b Hp) as (x & (-> & _) & _). apply times_snapshot.
  - by apply (disconnect_ok issued y i c c).
  - destruct (co_command _ _ _ _ Hco f Hp) as (_ & m & x & -> & Hm & _). unfold mark_flow_command_sent, in_session.
    destruct (active_state (c_session c) (hub y)) as [s|] eqn:Ha.
    + destruct (active_state_Some _ _ _ _ _ Hok Hc Ha) as [-> Hs]. destruct (active_delivery _ _ _ _ Hok Hc Hs) as [Hd Hbo]. unfold hand_of in Hd. rewrite Hp in Hd.
      apply conn_hub_step; try done; [by apply mark_sent_flows, Hm; apply gateway_flows| |by apply command_sent_ok]. intros _. right. split_and!; try done.
      eapply delivery_ok_ext; [|apply (mark_sent_delivery (as_gateway_id (c_session c)) epoch (times (c_wire c)) issued at_ _ m); [by apply gateway_flows|done|apply times_nonneg|done]].
      intros j. unfold bump. cbn. rewrite times_snoc. cbn. destruct (String.eqb_spec j (command_id m)) as [->|Hne]; case_bool_decide; try congruence; lia.
    + apply (active_state_None _ _ _ _ Hok Hc) in Ha. assert (set_hub (hub y) y = y) as -> by (by destruct y). eapply conn_step_alone; try done. by apply command_sent_ok.
  - destruct (co_command _ _ _ _ Hco f Hp) as (_ & m & x & -> & Hm & _). pose proof (co_started _ _ _ _ Hco) as Hst. rewrite Hp in Hst.
    assert (conn_ok (hub y) issued i (set_phase Top c)) as Htop by (by apply set_phase_ok).
    assert (sys_ok issued (put_conn i (set_phase Top c) (set_hub (requeue_unsent_flow_command now (c_session c) (FlowCommand m) (hub y)) y))) as Hok1.
    { unfold requeue_unsent_flow_command, in_session. destruct (active_state (c_session c) (hub y)) as [s|] eqn:Ha.
      - destruct (active_state_Some _ _ _ _ _ Hok Hc Ha) as [-> Hs]. destruct (active_delivery _ _ _ _ Hok Hc Hs) as [Hd Hbo]. unfold hand_of in Hd. rewrite Hp in Hd.
        assert (bundle (requeue_unsent now m (gateway_state (hub y) (as_gateway_id (c_session c)))) = bundle (gateway_state (hub y) (as_gateway_id (c_session c))) ∧
          session (requeue_unsent now m (gateway_state (hub y) (as_gateway_id (c_session c)))) = session (gateway_state (hub y) (as_gateway_id (c_session c))) ∧
          session_boot_id (requeue_unsent now m (gateway_state (hub y) (as_gateway_id (c_session c)))) = session_boot_id (gateway_state (hub y) (as_gateway_id (c_session c)))) as (Hb1 & Hs1 & Hsb1).
        { unfold requeue_unsent. cbn zeta. destruct (negb _); [done|]. match goal with |- context [fill_flow_queue now ?t] => destruct (fill_frame now t) as (Hb & Hs' & Hsb) end.
          cbn. by rewrite Hb, Hs', Hsb. }
        apply conn_hub_step; try done; [by apply requeue_unsent_flows; [apply gateway_flows|]|]. intros _. right. rewrite Hs1, Hsb1. split_and!; try done.
        by eapply requeue_unsent_delivery; [apply gateway_flows| |].
      - apply (active_state_None _ _ _ _ Hok Hc) in Ha. assert (set_hub (hub y) y = y) as -> by (by destruct y). by eapply conn_step_alone. }
    pose proof (disconnect_ok issued _ i (set_phase Top c) (set_phase Top c) Hok1) as Hd.
    assert (∀ h, disconnect i (set_phase Top c) (put_conn i (set_phase Top c) (set_hub h y)) = disconnect i c (set_hub h y)) as Heq.
    { intros h. unfold disconnect. change (c_session (set_phase Top c)) with (c_session c). cbn [hub put_conn set_hub]. destruct (unregister _ _) as [h' b].
      unfold put_conn, set_hub. cbn. by rewrite insert_insert_eq. }
    rewrite Heq in Hd. apply Hd; [apply lookup_insert_eq|done|]. apply (so_conns _ _ Hok1). apply lookup_insert_eq.
Qed.

(** An operation of the active session on the state of its gateway, with its hands
    free before and after. *)
Lemma in_session_step issued y i c p f : sys_ok issued y → conns y !! i = Some c → hand_of c = None → hand_of (set_phase p c) = None →
  conn_ok (hub y) issued i (set_phase p c) →
  (∀ count s, both_ok (as_gateway_id (c_session c)) epoch count issued s → both_ok (as_gateway_id (c_session c)) epoch count issued (f s)) → (∀ s, same_frame s (f s)) →
  sys_ok issued (put_conn i (set_phase p c) (set_hub (in_session (c_session c) f (hub y)) y)).
Proof.
  intros Hok Hc Hh Hh' Hc' Hf Hfr. unfold in_session. destruct (active_state (c_session c) (hub y)) as [s|] eqn:Ha.
  - destruct (active_state_Some _ _ _ _ _ Hok Hc Ha) as [-> Hs]. destruct (active_delivery _ _ _ _ Hok Hc Hs) as [Hd Hbo]. rewrite Hh in Hd.
    destruct (Hf (times (c_wire c)) _ (conj (gateway_flows _ _ _ Hok) Hd)) as [Hfl Hdl]. destruct (Hfr (gateway_state (hub y) (as_gateway_id (c_session c)))) as (Hb & Hs' & Hsb).
    apply conn_hub_step; try done. intros _. right. rewrite Hs', Hsb, Hh'. by split_and!.
  - apply (active_state_None _ _ _ _ Hok Hc) in Ha. assert (set_hub (hub y) y = y) as -> by (by destruct y). by eapply conn_step_alone.
Qed.

Lemma waiting_top h issued i c : conn_ok h issued i c → c_last_sent c ≠ None → conn_ok h issued i (set_phase Top c).
Proof. intros Hc Hl. by apply set_phase_ok. Qed.

Lemma retry_step_ok issued now at_ y i c : sys_ok issued y → conns y !! i = Some c → hand_of c = None → c_last_sent c ≠ None →
  sys_ok issued (put_conn i (set_phase Top c) (set_hub (retry_flow_commands now at_ (c_session c) (hub y)) y)).
Proof.
  intros Hok Hc Hh Hl. apply in_session_step; try done; [by apply waiting_top; [apply (so_conns _ _ Hok)|]| |apply retry_commands_frame].
  intros count s Hs. by apply retry_commands_ok.
Qed.

(** A connection whose phase changes and nothing else. *)
Lemma phase_step_ok issued y i c p : sys_ok issued y → conns y !! i = Some c → hand_of (set_phase p c) = hand_of c → conn_ok (hub y) issued i (set_phase p c) →
  sys_ok issued (put_conn i (set_phase p c) y).
Proof.
  intros Hok Hc Hh Hc'. eapply conn_step_alone; try done. intros Ha. rewrite Hh. by apply (active_delivery _ _ _ _ Hok Hc).
Qed.

Lemma last_sent_revision h issued i c : conn_ok h issued i c → c_last_sent c ≠ None →
  ∃ x, last (snapshots (c_wire c)) = Some x ∧ bundle_revision (c_last_sent c) = Some (snap_config_revision x).
Proof.
  intros Hc Hl. pose proof (co_last _ _ _ _ Hc) as Hco. destruct (c_last_sent c) as [b|]; [|done]. cbn in Hco. destruct (last (snapshots (c_wire c))) as [x|]; [|done].
  injection Hco as Hx. exists x. split; [done|]. unfold bundle_revision. cbn. destruct (frame b); try done. cbn in Hx. injection Hx as ->. done.
Qed.

Lemma on_notified_ok issued now i c y : sys_ok issued y → conns y !! i = Some c → c_phase c = Waiting → sys_ok issued (on_notified now i c y).
Proof.
  intros Hok Hc Hp. unfold on_notified. cbn zeta. destruct (negb _); [done|]. set (g := as_gateway_id (c_session c)). set (s0 := gateway_state (hub y) g).
  set (y1 := set_hub (put_gateway (hub y) g (set_notify false s0)) y).
  assert (sys_ok issued y1) as Hok1 by (apply gateway_step_same; try done; [by apply set_notify_flows, gateway_flows|]; intros; by apply set_notify_delivery).
  change (put_gateway (hub y) g (set_notify false s0)) with (hub y1). pose proof (so_conns _ _ Hok1 i c Hc) as Hco.
  pose proof (co_started _ _ _ _ Hco) as Hl. rewrite Hp in Hl. assert (hand_of c = None) as Hh by (unfold hand_of; by rewrite Hp).
  assert (∀ h f, set_hub h y = set_hub h y1) as Hset by done.
  assert (sys_ok issued (put_conn i (set_phase Top c) (set_hub (hub y1) y))) as Hnone by (apply (phase_step_ok issued y1); [done|done|done|by apply waiting_top]).
  unfold take_flow_command. destruct (c_boot c) as [boot|] eqn:Hb; [|done]. destruct (active_state (c_session c) (hub y1)) as [s|] eqn:Ha; [|done].
  destruct (Z.leb_spec FLOW_COMMAND_IN_FLIGHT_CAPACITY (Z.of_nat (size (flow_in_flight s)))) as [|Hsz]; [done|].
  destruct (active_state_Some _ _ _ _ _ Hok1 Hc Ha) as [Hs Hse]. rewrite Hs in Hse. destruct (active_delivery _ _ _ _ Hok1 Hc Hse) as [Hd Hbo]. rewrite <- Hs, Hh in *.
  pose proof (gateway_flows _ _ g Hok1) as Hfl. fold g in Hs. rewrite <- Hs in Hfl. pose proof (fill_flows_ok g epoch issued now s Hfl) as Hfl1.
  pose proof (fill_delivery_ok g epoch issued _ _ now s Hfl Hd) as Hd1. pose proof (fill_frame now s) as Hfr1. set (s1 := fill_flow_queue now s) in *.
  assert (Z.of_nat (size (flow_in_flight s1)) < FLOW_COMMAND_IN_FLIGHT_CAPACITY) as Hsz1 by (subst s1; by destruct (fill_spec now s) as (? & ? & ? & ? & ? & -> & _)).
  destruct (take_queued _ now _ boot s1) as [s2 o] eqn:Ht. pose proof (take_queued_frame _ _ _ _ _ _ _ Ht) as Hfr2.
  destruct (take_queued_spec g epoch _ _ _ _ _ issued _ _ _ Hfl1 Hd1 Hsz1 Ht) as (Hfl2 & Hd2 & Hspec).
  destruct (same_frame_trans _ _ _ Hfr1 Hfr2) as (Hb2 & Hs2 & Hsb2). change (put_gateway (hub y1) (as_gateway_id (c_session c)) s2) with (put_gateway (hub y1) g s2).
  assert (∀ p, hand_of (set_phase p c) = o ≫= flow_command_id ∨ hand_of (set_phase p c) = None → conn_ok (hub y1) issued i (set_phase p c) →
    sys_ok issued (put_conn i (set_phase p c) (set_hub (put_gateway (hub y1) g s2) y1))) as Hput.
  { intros p Hhp Hcp. rewrite Hs in *. apply conn_hub_step; try done. intros _. right. rewrite Hs2, Hsb2. split_and!; try done.
    destruct Hhp as [->| ->]; [done|by eapply drop_hand]. }
  destruct o as [f|]; [|apply Hput; [by right|by apply waiting_top]]. destruct (Hspec f eq_refl) as (m & -> & Hcur & Hpend & Hrev & Hboot).
  destruct (is_ok _); [|apply Hput; [by right|by apply waiting_top]]. apply Hput; [by left|].
  destruct (fo_states _ _ _ _ Hfl1 _ _ Hcur) as (m' & [= <-] & _ & Him & Hgm & Hem & _). destruct (last_sent_revision _ _ _ _ Hco Hl) as (x & Hx & Hxr).
  destruct (ct_waits _ _ _ (dl_counted _ _ _ Hd1) m Hcur) as [_ Hlt]; [by left|]. rewrite Hxr in Hrev. cbn in Hrev. destruct Hco. split; cbn; try done.
  - destruct co_published0 as (fp & Hfp & Hle & _). by exists fp.
  - intros f [= <-]. split; [congruence|]. exists m, x. by split_and!.
Qed.

Context `{!UuidsLaw}.

Lemma draw_ok issued y : sys_ok issued y → sys_ok issued (set_hub (draw (hub y) 1) y).
Proof.
  intros Hok. assert (hub_le (hub y) (draw (hub y) 1)) as Hle by (split; [cbn; lia|]; intros g f Hf; exists f; split; [done|apply snap_le_refl]).
  destruct Hok. split; cbn; try done.
  - apply (drawn_below_le (drawn (hub y)) _ issued); [done|lia|done].
  - intros i c Hc. eapply conn_ok_mono; [done|done|]. by apply so_conns0.
Qed.

(** A new command is queued. *)
Lemma queue_step_ok issued now c expected y : sys_ok issued y → command_id c = uuid (drawn (hub y)) → current_bundle (fc_gateway_id c) (hub y) ≠ None →
  ∃ issued', issued ⊆ issued' ∧ sys_ok issued' (set_hub (fst (queue_flow_command_inner now (FlowCommand c) expected (draw (hub y) 1))) y).
Proof.
  intros Hok Hid Hbu. unfold queue_flow_command_inner. destruct (validate _); [|exists issued; split; [done|by apply draw_ok]].
  change (gateway_state (draw (hub y) 1) (fc_gateway_id c)) with (gateway_state (hub y) (fc_gateway_id c)).
  destruct (queue_command now c expected _) as [s' r] eqn:Hq. cbn [fst]. change (put_gateway (draw (hub y) 1) (fc_gateway_id c) s') with (draw (put_gateway (hub y) (fc_gateway_id c) s') 1).
  assert (issued !! command_id c = None) as Hnew by (rewrite Hid; apply (fresh_uuid (drawn (hub y))); [apply (so_drawn _ _ Hok)|lia]).
  assert (bundle (gateway_state (hub y) (fc_gateway_id c)) ≠ None) as Hb by (unfold current_bundle, gateway_state in *; by destruct (gateways (hub y) !! fc_gateway_id c)).
  destruct (queue_command_ok (fc_gateway_id c) epoch issued now c expected _ _ _ (gateway_flows _ _ _ Hok) Hb eq_refl Hnew Hq) as (Hb' & Hs' & Hsb' & issued' & Hsub & Hnew' & Hfl & Hdl).
  exists issued'. split; [done|]. apply (gateway_step issued); try done.
  - destruct (so_drawn _ _ Hok) as [Hn Hd]. split; [lia|]. intros i [Hi| ->]%Hnew'; [destruct (Hd i Hi) as (m & ? & ->); exists m; split; [lia|done]|].
    exists (drawn (hub y)). split; [lia|done].
  - by rewrite Hsb'.
  - intros count hand Hh Hz. apply Hdl; [done|]. by apply Hz.
Qed.

Lemma evaluated_command b c block limit now i f : flow_command_for_context b c block limit now i = Some f →
  ∃ m, f = FlowCommand m ∧ command_id m = i ∧ fc_gateway_id m = req_gateway_id (ctx_request c).
Proof.
  unfold flow_command_for_context. destruct b; try done. destruct (_ <=? now); [done|]. cbn zeta. destruct (flow_command_decision _) as [v ids].
  destruct (if (_ && _)%bool then v else None); [|done]. cbn [mbind option_bind]. destruct (flow_ttl_ms _); [|done]. cbn [mbind option_bind].
  destruct (flow_verdict_expiry _ _ _ _); [|done]. cbn [mbind option_bind]. intros [= <-]. by eexists.
Qed.

Lemma evaluate_next_ok issued now at_ i c y : sys_ok issued y → conns y !! i = Some c → ∃ issued', issued ⊆ issued' ∧ sys_ok issued' (evaluate_next now at_ i c y).
Proof.
  intros Hok Hc. pose proof (so_conns _ _ Hok i c Hc) as Hco. unfold evaluate_next. destruct (c_phase c) as [| | |ev t r| | | |] eqn:Hp; try by exists issued.
  pose proof (co_started _ _ _ _ Hco) as Hl. rewrite Hp in Hl. pose proof (co_evaluating _ _ _ _ Hco ev t r Hp) as Hev.
  assert (hand_of c = None) as Hh by (unfold hand_of; by rewrite Hp). destruct (ev_contexts ev) as [|x rest] eqn:Hx.
  - exists issued. split; [done|]. destruct r; [by apply retry_step_ok|]. assert (set_hub (hub y) y = y) as -> by (by destruct y).
    apply phase_step_ok; [done|done|done|by apply waiting_top].
  - apply Forall_cons in Hev as [Hxg Hrest]. set (p := Evaluating _ t r).
    assert (∃ issued', issued ⊆ issued' ∧ sys_ok issued' (set_hub (evaluate_context t (ev_bundle ev) (ev_block ev) (ev_limit ev) x (hub y)) y)) as (issued' & Hsub & Hok').
    { unfold evaluate_context. destruct (flow_command_for_context _ _ _ _ _ _) as [f|] eqn:Hf.
      - destruct (evaluated_command _ _ _ _ _ _ _ Hf) as (m & -> & Hm & Hg). apply queue_step_ok; [done|done|]. rewrite Hg, Hxg.
        destruct (conn_gateway _ _ _ _ Hco) as (s & Hs & _ & Hb). unfold current_bundle. rewrite Hs. cbn. done.
      - exists issued. split; [done|]. by assert (set_hub (hub y) y = y) as -> by (by destruct y). }
    exists issued'. split; [done|]. apply (phase_step_ok issued' (set_hub _ y)); [done|done|done|]. apply set_phase_ok; [by apply (so_conns _ _ Hok')|done].
Qed.

(** The flows that a session re-evaluates are those of its gateway. *)
Lemma evaluated_contexts g issued s : flows_ok g epoch issued s → Forall (λ x, req_gateway_id (ctx_request x) = g) (snd <$> map_order (flow_evaluation_contexts s)).
Proof. intros Hok. apply Forall_forall. intros x ([k x'] & -> & Hx%map_order_elem)%list_elem_of_fmap. by apply (fo_contexts _ _ _ _ Hok k). Qed.

Lemma live_contexts_step issued now y g : sys_ok issued y → sys_ok issued (set_hub (put_gateway (hub y) g (live_contexts now (gateway_state (hub y) g))) y).
Proof. intros Hok. apply gateway_step_same; try done; [by apply live_contexts_flows, gateway_flows|]. intros. by apply set_contexts_delivery. Qed.

Lemma on_retry_ok issued now at_ i c y : sys_ok issued y → conns y !! i = Some c → c_phase c = Waiting → sys_ok issued (on_event now at_ ERetry i c y).
Proof.
  intros Hok Hc Hp. pose proof (so_conns _ _ Hok i c Hc) as Hco. pose proof (co_started _ _ _ _ Hco) as Hl. rewrite Hp in Hl.
  assert (hand_of c = None) as Hh by (unfold hand_of; by rewrite Hp). cbn [on_event]. unfold active_contexts.
  destruct (active_state (c_session c) (hub y)) as [s|] eqn:Ha; [|by apply retry_step_ok]. destruct (active_state_Some _ _ _ _ _ Hok Hc Ha) as [-> _].
  set (g := as_gateway_id (c_session c)). pose proof (live_contexts_step issued now y g Hok) as Hok1. set (y1 := set_hub _ y) in Hok1.
  set (s1 := live_contexts now _). change (put_gateway (hub y) g s1) with (hub y1). change (set_hub (hub y1) y) with y1.
  assert (∀ h, set_hub h y = set_hub h y1) as Hset by done. destruct (_ ≫= _) as [ev|] eqn:He.
  - apply bind_Some in He as (b & Hb & He). apply bind_Some in He as ([[rev bl] li] & Hcap & He). case_bool_decide; [|done]. injection He as <-.
    apply phase_step_ok; [done|done|done|]. apply set_phase_ok; [by apply (so_conns _ _ Hok1)|]. split; [done|]. apply (evaluated_contexts g issued s1). by apply live_contexts_flows, gateway_flows.
  - rewrite Hset. by apply (retry_step_ok issued now at_ y1).
Qed.

(** ** Frames of the agent *)

Lemma put_same y i c : conns y !! i = Some c → put_conn i c y = y.
Proof. intros Hc. destruct y. unfold put_conn. cbn in *. by rewrite insert_id. Qed.

Lemma put_put y i c c' : put_conn i c' (put_conn i c y) = put_conn i c' y.
Proof. unfold put_conn. cbn. by rewrite insert_insert_eq. Qed.

Lemma latch_step_ok issued now b y i c : sys_ok issued y → conns y !! i = Some c → c_phase c = Waiting →
  sys_ok issued (put_conn i (set_boot (Some b) c) (set_hub (latch_agent_boot now (c_session c) b (hub y)) y)).
Proof.
  intros Hok Hc Hp. pose proof (so_conns _ _ Hok i c Hc) as Hco. assert (conn_ok (hub y) issued i (set_boot (Some b) c)) as Hc' by (apply set_boot_ok; [done|by rewrite Hp|done]).
  unfold latch_agent_boot, in_session. destruct (active_state (c_session c) (hub y)) as [s|] eqn:Ha.
  - destruct (active_state_Some _ _ _ _ _ Hok Hc Ha) as [-> Hs]. destruct (active_delivery _ _ _ _ Hok Hc Hs) as [Hd Hbo].
    assert (hand_of c = None) as Hh by (unfold hand_of; by rewrite Hp). rewrite Hh in Hd.
    destruct (latch_boot_ok (as_gateway_id (c_session c)) epoch (times (c_wire c)) issued now b _ (conj (gateway_flows _ _ _ Hok) Hd)) as ([Hfl Hdl] & Hb & Hse & Hsb);
      [intros Hno; by apply (co_boot _ _ _ _ Hco), Hbo|].
    apply conn_hub_step; try done. intros _. right. rewrite Hse, Hsb. change (hand_of (set_boot (Some b) c)) with (hand_of c). rewrite Hh. by split_and!.
  - apply (active_state_None _ _ _ _ Hok Hc) in Ha. assert (set_hub (hub y) y = y) as -> by (by destruct y). by eapply conn_step_alone.
Qed.

Lemma record_step_ok issued now revision caps y i c : sys_ok issued y → conns y !! i = Some c →
  sys_ok issued (set_hub (fst (record_capabilities now (c_session c) revision caps (hub y))) y) ∧
  ∀ ev, snd (record_capabilities now (c_session c) revision caps (hub y)) = Some ev →
    Forall (λ x, req_gateway_id (ctx_request x) = as_gateway_id (c_session c)) (ev_contexts ev).
Proof.
  intros Hok Hc. assert (set_hub (hub y) y = y) as Hy by (by destruct y). unfold record_capabilities.
  destruct (active_state (c_session c) (hub y)) as [s|] eqn:Ha; [|cbn [fst snd]; by rewrite Hy]. destruct (active_state_Some _ _ _ _ _ Hok Hc Ha) as [-> _].
  set (g := as_gateway_id (c_session c)). pose proof (live_contexts_step issued now y g Hok) as Hok1. cbn zeta. destruct (bundle _) as [b|] eqn:Hb; [|done].
  case_bool_decide; [|done]. cbn [fst snd]. split.
  - apply gateway_step_same; try done; [by apply set_capabilities_flows, live_contexts_flows, gateway_flows|]. intros. by apply set_capabilities_delivery, set_contexts_delivery.
  - intros ev [= <-]. apply (evaluated_contexts g issued (live_contexts now (gateway_state (hub y) g))). by apply live_contexts_flows, gateway_flows.
Qed.

Lemma flow_ack_step_ok issued now at_ f y i c : sys_ok issued y → conns y !! i = Some c → c_phase c = Waiting →
  sys_ok issued (set_hub (fst (acknowledge_flow_command now at_ (c_session c) f (hub y))) y).
Proof.
  intros Hok Hc Hp. assert (set_hub (hub y) y = y) as Hy by (by destruct y). assert (hand_of c = None) as Hh by (unfold hand_of; by rewrite Hp). unfold acknowledge_flow_command.
  destruct (active_state (c_session c) (hub y)) as [s|] eqn:Ha; [|cbn [fst]; by rewrite Hy]. destruct (negb _); [cbn [fst]; by rewrite Hy|]. cbn zeta.
  destruct (flow_in_flight s !! fa_command_id f) as [sent|] eqn:Hf; [|cbn [fst]; by rewrite Hy]. destruct (acknowledges _ _ _ sent) eqn:Hack; [|cbn [fst]; by rewrite Hy]. cbn [fst].
  assert (fl_key sent = flow_command_key (fa_boot_id f) (fa_policy_flow_id f)) as Hkey by (apply andb_true_iff in Hack as [Hk _]; by apply String.eqb_eq).
  rewrite <- (put_same (set_hub _ y) i c Hc). rewrite <- Hkey. destruct (active_state_Some _ _ _ _ _ Hok Hc Ha) as [-> Hs]. destruct (active_delivery _ _ _ _ Hok Hc Hs) as [Hd Hbo].
  rewrite Hh in Hd. destruct (acknowledge_frame now at_ (fa_command_id f) (fl_key sent) sent (fa_status f) (fa_reason_code f) (gateway_state (hub y) (as_gateway_id (c_session c)))) as (Hb & Hse & Hsb).
  destruct (acknowledge_ok (as_gateway_id (c_session c)) epoch (times (c_wire c)) issued now at_ (fa_command_id f) _ sent (fa_status f) (fa_reason_code f) _
    (conj (gateway_flows _ _ _ Hok) Hd) Hf eq_refl) as [Hfl Hdl].
  apply conn_hub_step; try done; [|by apply (so_conns _ _ Hok)]. intros _. right. rewrite Hse, Hsb, Hh. by split_and!.
Qed.

(** What handling a frame leaves: the system is in order, and the flows to evaluate
    are those of the gateway. *)
Definition handled (issued : gmap string FlowCommandFrame) (y : System) (i : Z) (c : Connection) (r : Handled) : Prop :=
  sys_ok issued (put_conn i (set_boot (h_boot r) c) (set_hub (h_hub r) (set_world (h_world r) y))) ∧
  ∀ ev, h_evaluation r = Some ev → Forall (λ x, req_gateway_id (ctx_request x) = as_gateway_id (c_session c)) (ev_contexts ev).

Section handling.
Context (issued : gmap string FlowCommandFrame) (y : System) (i : Z) (c : Connection) (Hok : sys_ok issued y) (Hc : conns y !! i = Some c) (Hp : c_phase c = Waiting).

Lemma handled_alone w o : handled issued y i c (mkHandled (hub y) w (c_boot c) o None).
Proof.
  split; [|done]. cbn. assert (set_boot (c_boot c) c = c) as -> by (by destruct c). assert (set_hub (hub y) (set_world w y) = set_world w y) as -> by (by destruct y).
  rewrite put_same; [|done]. by apply world_ok.
Qed.

Lemma handle_health_ok now f : handled issued y i c (handle_health now f c (hub y) (world y)).
Proof.
  unfold handle_health. cbn zeta. set (w := step _ _). destruct (snd (call _ _)) as [r|r|[[]|e]|r]; try apply handled_alone.
  pose proof (latch_step_ok issued now (health_boot_id f) (set_world w y) i c (world_ok _ _ _ Hok) Hc Hp) as Hok1. cbn [hub set_world] in Hok1.
  set (h1 := latch_agent_boot _ _ _ _) in *. destruct (other_boot _ _); [done|]. destruct (names_bundle _ _ _ _ _ _); [|done].
  destruct (record_step_ok issued now (last_applied_revision f) (health_capabilities f) _ i _ Hok1 (lookup_insert_eq _ _ _)) as [Hok2 Hev].
  cbn in Hok2, Hev. destruct (record_capabilities _ _ _ _ _) as [h2 ev]. by split.
Qed.

Lemma handle_ack_ok now f : handled issued y i c (handle_ack now f c (hub y) (world y)).
Proof.
  unfold handle_ack. cbn zeta. destruct (negb _); [apply handled_alone|]. destruct (c_last_sent c) as [b|]; [|apply handled_alone].
  destruct (snapshot_identity _); [|apply handled_alone]. destruct (negb _); [apply handled_alone|]. set (w := step _ _).
  destruct (snd (call _ _)) as [r|r|[[]|e]|r]; try apply handled_alone.
  destruct (record_step_ok issued now (pack_config_revision f) (pack_capabilities f) (set_world w y) i c (world_ok _ _ _ Hok) Hc) as [Hok2 Hev]. cbn [hub set_world] in Hok2, Hev.
  destruct (record_capabilities _ _ _ _ _) as [h2 ev]. split; [|done]. cbn. assert (set_boot (c_boot c) c = c) as -> by (by destruct c). by rewrite put_same.
Qed.

Lemma handle_agent_frame_ok now at_ bs : handled issued y i c (handle_agent_frame now at_ bs c (hub y) (world y)).
Proof.
  unfold handle_agent_frame. cbn zeta. destruct (_ || _)%bool; [apply handled_alone|]. destruct (decode bs) as [f|e]; [|apply handled_alone].
  destruct f as [f|f|f|f|f|f]; try apply handled_alone; (destruct (String.eqb _ _); [|apply handled_alone]); [apply handle_ack_ok|apply handle_health_ok| |].
  - unfold handle_metrics. destruct (negb _); apply handled_alone.
  - unfold handle_flow_ack. destruct (negb _); [apply handled_alone|]. split; [|done]. cbn. assert (set_boot (c_boot c) c = c) as -> by (by destruct c).
    pose proof (flow_ack_step_ok issued now at_ f y i c Hok Hc Hp) as Hok1. rewrite put_same by done. exact (world_ok _ _ _ Hok1).
Qed.

Lemma on_message_ok now at_ bs : sys_ok issued (on_message now at_ bs i c y).
Proof.
  pose proof (handle_agent_frame_ok now at_ bs) as [Hok1 Hev]. unfold on_message. set (r := handle_agent_frame _ _ _ _ _ _) in *. cbn zeta.
  set (y1 := set_hub _ _) in *. set (c1 := set_boot _ c) in *. set (y2 := put_conn i c1 y1) in Hok1.
  assert (conns y2 !! i = Some c1) as Hc1 by apply lookup_insert_eq. pose proof (so_conns _ _ Hok1 i c1 Hc1) as Hco1. change (hub y2) with (hub y1) in Hco1.
  pose proof (co_started _ _ _ _ Hco1) as Hl. change (c_phase c1) with (c_phase c) in Hl. rewrite Hp in Hl.
  assert (hand_of c1 = None) as Hh by (unfold hand_of; change (c_phase c1) with (c_phase c); by rewrite Hp).
  assert (∀ p, hand_of (set_phase p c1) = None → conn_ok (hub y1) issued i (set_phase p c1) → sys_ok issued (put_conn i (set_phase p c1) y1)) as Hput.
  { intros p Hhp Hcp. rewrite <- (put_put y1 i c1). apply phase_step_ok; [done|done|by rewrite Hhp, Hh|done]. }
  destruct (negb _).
  - pose proof (disconnect_ok issued y2 i c1 c1 Hok1 Hc1 eq_refl Hco1) as Hd. unfold disconnect in *. change (hub y2) with (hub y1) in Hd.
    destruct (unregister _ _) as [h b]. by rewrite <- (put_put _ i c1).
  - destruct (h_evaluation r) as [ev|]; [apply Hput; [done|]; apply set_phase_ok; [done|by split; [|apply Hev]]|].
    destruct (resend_snapshot _); [|apply Hput; [done|by apply waiting_top]]. destruct (current_bundle _ _) as [b|] eqn:Hb; [|apply Hput; [done|by apply waiting_top]].
    apply Hput; [done|]. by apply (sending_bundle_ok issued y2).
Qed.
End handling.

Lemma on_event_ok issued now at_ ev i c y : sys_ok issued y → conns y !! i = Some c → c_phase c = Waiting → sys_ok issued (on_event now at_ ev i c y).
Proof.
  intros Hok Hc Hp. pose proof (so_conns _ _ Hok i c Hc) as Hco. pose proof (co_started _ _ _ _ Hco) as Hl. rewrite Hp in Hl.
  assert (hand_of c = None) as Hh by (unfold hand_of; by rewrite Hp). destruct ev; [| | | | | |]; cbn [on_event].
  - case_bool_decide; [|done]. by apply (disconnect_ok issued y i c c).
  - destruct (updates _) as [n o] eqn:Hu. destruct (n =? c_seen c); [done|]. pose proof (updates_bundle _ _ _ _ _ Hok Hu) as Hb.
    eapply conn_step_alone; [done|done|done| |].
    + intros Ha. destruct (active_delivery _ _ _ _ Hok Hc Ha) as [Hd Hbo]. split; [|done]. rewrite Hh in Hd. by destruct o.
    + apply set_seen_ok. destruct o as [b|]; [by apply (sending_bundle_ok issued y)|by apply waiting_top].
  - by apply on_notified_ok.
  - by apply on_retry_ok.
  - by apply on_message_ok.
  - apply phase_step_ok; [done|done|done|by apply waiting_top].
  - by apply (disconnect_ok issued y i c c).
Qed.

Lemma conn_step_ok issued now at_ o ev i y : sys_ok issued y → ∃ issued', issued ⊆ issued' ∧ sys_ok issued' (conn_step now at_ o ev i y).
Proof.
  intros Hok. unfold conn_step. destruct (conns y !! i) as [c|] eqn:Hc; [|by exists issued]. pose proof (so_conns _ _ Hok i c Hc) as Hco.
  pose proof (co_started _ _ _ _ Hco) as Hl. destruct (c_phase c) eqn:Hp; [| | |by apply evaluate_next_ok| | | |]; (exists issued; split; [done|]).
  - by apply start_socket_ok.
  - by apply finish_send_ok.
  - by apply finish_send_ok.
  - destruct (is_active _ _); [|by apply (disconnect_ok issued y i c c)]. apply phase_step_ok; [done|done|unfold hand_of; by rewrite Hp|by apply set_phase_ok].
  - by apply on_event_ok.
  - apply (phase_step_ok issued (set_world _ y)); [by apply world_ok|done|unfold hand_of; by rewrite Hp|by apply set_phase_ok].
  - done.
Qed.

(** ** Publishing *)

Lemma compiled_identity gw ep gen gat rev ps frame : compile_snapshot gw ep gen gat rev ps = Ok frame →
  ∃ f, frame = PolicySnapshot f ∧ snap_gateway_id f = gw ∧ snap_controller_epoch f = ep ∧ snap_config_revision f = rev ∧ snap_bundle_generation f = gen ∧
    policies f = canonical_policies ps.
Proof.
  unfold compile_snapshot. cbn zeta. intros [_ Hr]%check_seq. apply bind_Ok in Hr as (ss & _ & Hr). unfold snapshot in Hr. cbn zeta in Hr.
  apply bind_Ok in Hr as (k & _ & Hr). apply bind_Ok in Hr as (u & _ & Hr). apply bind_Ok in Hr as (bs & _ & Hr). apply bind_Ok in Hr as (u' & _ & [= <-]). by eexists.
Qed.

(** A new bundle is not older than the one it replaces. *)
Lemma kept_None now rev force s b f g : bundle s = Some b → bundle_of g epoch b f → kept_bundle now rev force s = None → snap_config_revision f ≤ rev.
Proof.
  intros Hb (Hf & _). unfold kept_bundle, bundle_revision. rewrite Hb. cbn. rewrite Hf. cbn. destruct (Z.ltb_spec rev (snap_config_revision f)); [done|]. intros _. lia.
Qed.

Lemma refresh_step_ok issued now g force v y : sys_ok issued y →
  ∃ issued', issued ⊆ issued' ∧ sys_ok issued' (set_hub (fst (refresh_gateway now g force (Ok v) (hub y))) y) ∧
    (is_ok (snd (refresh_gateway now g force (Ok v) (hub y))) = true → current_bundle g (fst (refresh_gateway now g force (Ok v) (hub y))) ≠ None).
Proof.
  intros Hok. pose proof (gateway_flows _ _ g Hok) as Hfl. destruct v as [rev ps]. unfold refresh_gateway. cbn zeta. set (s := gateway_state (hub y) g) in *.
  assert (sys_ok issued (set_hub (put_gateway (hub y) g s) y)) as Hsame by (by apply gateway_step_same).
  destruct (kept_bundle now rev force s) as [b|] eqn:Hk.
  { exists issued. split_and!; [done|done|]. intros _. cbn [fst]. rewrite gateway_bundle. unfold gateway_state, put_gateway. cbn. rewrite lookup_insert_eq. cbn.
    unfold kept_bundle in Hk. by destruct (bundle s). }
  destruct (generation s =? u64_max); [by exists issued|]. destruct (f ← compile_snapshot _ _ _ _ _ _; _) as [b|e] eqn:Hb; [|by exists issued].
  apply bind_Ok in Hb as (fr & Hc & Hb). apply bind_Ok in Hb as (bs & _ & [= <-]). apply compiled_identity in Hc as (f & -> & Hg & He & Hr & Hgen & _).
  cbn [controller_epoch put_gateway] in He. rewrite (so_epoch _ _ Hok) in He. cbn [frame snapshot_identity drawn put_gateway]. set (b := mkBundle _ bs).
  set (p := match bundle_revision _ with Some old => _ | None => _ end).
  assert (∃ issued', issued ⊆ issued' ∧ drawn (hub y) ≤ snd p ∧ drawn_below (snd p) issued' ∧ flows_ok g epoch issued' (fst p) ∧ same_frame s (fst p) ∧
    ∀ count hand, (∀ i, hand = Some i → is_Some (issued !! i)) → (∀ i, issued !! i = None → count i = 0) → delivery_ok count hand s → delivery_ok count hand (fst p))
    as (issued' & Hsub & Hle & Hdr & Hfp & (Hbp & Hsp & Hsbp) & Hdp).
  { pose proof (so_drawn _ _ Hok) as Hd0. assert (∃ issued', issued ⊆ issued' ∧ drawn (hub y) ≤ drawn (hub y) ∧ drawn_below (drawn (hub y)) issued' ∧ flows_ok g epoch issued' s ∧ same_frame s s ∧
      ∀ count hand, (∀ i, hand = Some i → is_Some (issued !! i)) → (∀ i, issued !! i = None → count i = 0) → delivery_ok count hand s → delivery_ok count hand s) as Hno
      by (exists issued; by split_and!).
    subst p. destruct (bundle_revision (bundle s)) as [old|] eqn:Hold; [|done]. destruct (negb _); [|done]. rewrite He.
    destruct (revoke_active_flow_states epoch _ now _ s) as [s1 n1] eqn:Hrv. assert (bundle s ≠ None) as Hbs by (by destruct (bundle s)).
    destruct (revoke_active_flow_states_ok g epoch _ now s _ issued s1 n1 Hfl Hbs Hd0 Hrv) as (Hb1 & Hs1 & Hsb1 & Hle & issued' & Hsub & Hdr & Hf1 & Hd1).
    exists issued'. cbn [fst snd]. split_and!; try done; [by apply set_capabilities_flows|]. intros count hand Hh Hz Hd. apply set_capabilities_delivery, Hd1; try done.
    intros m Hm. apply Hz. by apply (fresh_uuid (drawn (hub y))). }
  destruct p as [s1 n1]. cbn [fst snd] in *. exists issued'. split; [done|]. split.
  - cbn [fst]. assert (∀ t, put_gateway (put_gateway (hub y) g s) g t = put_gateway (hub y) g t) as -> by (intros t; unfold put_gateway; cbn; by rewrite insert_insert_eq).
    apply (gateway_step_newer issued); try done; [lia|by replace (drawn (hub y) + (n1 - drawn (hub y))) with n1 by lia|by apply (set_published_flows g epoch issued' s1 _ b f)| |cbn; by rewrite Hsbp|].
    + intros b0 f0 Hb0 Hf0. exists b, f. split_and!; [done|done|]. fold s in Hb0. pose proof (fo_bundle _ _ _ _ Hfl) as Hfb. rewrite Hb0 in Hfb. destruct Hfb as (f1 & Hf1 & Hg1).
      assert (f1 = f0) as -> by (destruct Hf0 as [Hf0 _], Hf1 as [Hf1 _]; congruence). split; [lia|]. rewrite Hr. by eapply kept_None.
    + intros count hand Hh Hz Hd. by apply set_published_delivery, Hdp.
  - intros _. unfold current_bundle. cbn. by rewrite lookup_insert_eq.
Qed.

(** ** Sessions and flow decisions *)

Lemma upgrade_step_ok issued g y : sys_ok issued y → next_session_id (hub y) < u64_max → sys_ok issued (sys_step y (SUpgrade g)).
Proof.
  intros Hok Hlt. cbn [sys_step]. case_bool_decide as Hg; [|done]. pose proof (so_next _ _ Hok) as Hn. unfold register. cbn zeta.
  destruct (Z.eqb_spec (next_session_id (hub y)) u64_max) as [|_]; [lia|]. cbn [next_session_id drawn controller_epoch gateways cancelled next_flow_context_generation].
  rewrite Z.mod_small by (unfold u64_max in *; lia). set (i := next_session_id (hub y)) in *. set (s := gateway_state (mkHub _ _ _ _ _ _) g).
  change s with (gateway_state (hub y) g). clear s. set (s := clear_flow_delivery _). set (h' := mkHub _ _ _ (<[g := s]> _) _ _).
  assert (flows_ok g epoch issued s) as Hfl by (by apply clear_delivery_flows, set_session_boot_flows, set_session_flows, gateway_flows).
  assert (∀ g', current_bundle g' h' = current_bundle g' (hub y)) as Hcur.
  { intros g'. rewrite (gateway_bundle (hub y)). unfold current_bundle, gateway_state. cbn. destruct (decide (g = g')) as [<-|]; [by rewrite lookup_insert_eq|]. rewrite lookup_insert_ne by done.
    by destruct (gateways (hub y) !! g'). }
  assert (hub_le (hub y) h') as Hle by (split; [cbn; lia|]; intros g' f Hf; exists f; unfold published in *; rewrite Hcur; split; [done|apply snap_le_refl]).
  pose proof (so_upgrades _ _ Hok g Hg) as Hup. split; cbn; try apply Hok; [lia| | | |].
  - intros g' t [[<- <-]|[_ Ht]]%lookup_insert_Some; [done|]. by apply (so_flows _ _ Hok).
  - intros g' t j [[<- <-]|[Hne Ht]]%lookup_insert_Some Hsi; unfold session_ok; cbn.
    + injection Hsi as <-. exists (mkConnection (mkAgentSession g i (controller_epoch (hub y))) 0 None None Opening []). rewrite lookup_insert_eq.
      split_and!; try done. apply clear_delivery_ok.
    + destruct (so_session _ _ Hok g' t j Ht Hsi) as (d & Hd & ?). exists d. destruct (co_id _ _ _ _ (so_conns _ _ Hok j d Hd)) as (_ & _ & ?). rewrite lookup_insert_ne by lia. done.
  - intros j d [[<- <-]|[_ Hd]]%lookup_insert_Some; [|eapply conn_ok_mono; [done|done|]; by apply (so_conns _ _ Hok)].
    rewrite gateway_bundle in Hup. pose proof (fo_bundle _ _ _ _ (gateway_flows _ _ g Hok)) as Hfb. destruct (bundle (gateway_state (hub y) g)) as [b|] eqn:Hb; [|done].
    destruct Hfb as (f & Hf & _). split; cbn; try done.
    + rewrite (so_epoch _ _ Hok). split_and!; [done|done|lia|lia].
    + exists f. split_and!; [|done|done]. exists b. by rewrite Hcur, gateway_bundle.
    + apply wire_nil.
  - intros g' Hg'. fold h'. rewrite Hcur. by apply (so_upgrades _ _ Hok).
Qed.

Lemma remember_step_ok issued now g b flow proto r y : sys_ok issued y → req_gateway_id r = g → sys_ok issued (set_hub (fst (remember_flow_context now g b flow proto r (hub y))) y).
Proof.
  intros Hok Hr. unfold remember_flow_context. cbn zeta. destruct (_ =? u64_max); [by destruct y, Hok|]. destruct (remember_context _ _ _ _ _ _ _) as [s' o] eqn:Hm. cbn [fst].
  destruct (remember_context_ok g epoch issued _ _ _ _ _ _ _ _ _ (gateway_flows issued y g Hok) Hr Hm) as (Hfl & Hb & Hs & Hsb & Hd).
  pose proof (gateway_step_same issued y g s' Hok Hfl Hb Hs Hsb Hd) as []. split; try done. intros i c Hc. by destruct (so_conns0 i c Hc).
Qed.

Lemma forget_step_ok issued g b flow y : sys_ok issued y → sys_ok issued (set_hub (forget_flow_context g b flow (hub y)) y).
Proof.
  intros Hok. pose proof (gateway_flows _ _ g Hok) as Hfl. unfold forget_flow_context, gateway_state in *. destruct (gateways (hub y) !! g) as [s|] eqn:Hg; [|by destruct y, Hok]. cbn in Hfl.
  apply gateway_step_same; unfold gateway_state; rewrite ?Hg; try done; [|intros; by apply set_contexts_delivery].
  split; cbn; try apply Hfl; [intros k x [_ Hx]%lookup_delete_Some; by apply (fo_contexts _ _ _ _ Hfl k)|]. pose proof (fo_size_contexts _ _ _ _ Hfl).
  pose proof (map_subseteq_size _ _ (delete_subseteq (flow_evaluation_contexts s) (flow_command_key b flow))). lia.
Qed.

Lemma sys_step_ok issued t y : sys_ok issued y → next_session_id (hub y) < u64_max → ∃ issued', issued ⊆ issued' ∧ sys_ok issued' (sys_step y t).
Proof.
  intros Hok Hn. destruct t as [c|g|now force stream n|g|now g b flow proto r|g b flow|now c expected|now at_ o ev i]; cbn [sys_step].
  - exists issued. split; [done|]. destruct (is_policy_call c); [by apply world_ok|done].
  - exists issued. split; [done|]. destruct (stored_snapshot g _) as [sv [v|e]]; by destruct Hok.
  - destruct (reads y !! n) as [[g v]|]; [|by exists issued]. destruct (refresh_step_ok issued now g (force && negb stream)%bool v y Hok) as (issued' & Hsub & Hok' & Hup).
    exists issued'. split; [done|]. destruct (refresh_gateway _ _ _ _ _) as [h r]. cbn [fst snd] in *. destruct Hok'. split; try done. intros g'. destruct (stream && is_ok r)%bool eqn:Hr; [|apply so_upgrades0].
    intros [->|Hg']%elem_of_cons; [|by apply so_upgrades0]. apply Hup. by destruct stream.
  - exists issued. split; [done|]. by apply upgrade_step_ok.
  - exists issued. split; [done|]. by apply remember_step_ok.
  - exists issued. split; [done|]. by apply forget_step_ok.
  - destruct (current_bundle _ _) as [b|] eqn:Hb; [|by exists issued]. apply queue_step_ok; [done|done|]. cbn. by rewrite Hb.
  - by apply conn_step_ok.
Qed.

(** ** What a connection leaves alone *)

(** Only a new connection takes an identifier, and only publishing changes a bundle. *)
Definition hub_frame (h h' : PolicyHub) : Prop := next_session_id h' = next_session_id h ∧ ∀ g, current_bundle g h' = current_bundle g h.

Lemma hub_frame_refl h : hub_frame h h.
Proof. done. Qed.
Lemma hub_frame_trans h h' h'' : hub_frame h h' → hub_frame h' h'' → hub_frame h h''.
Proof. intros [Hn Hb] [Hn' Hb']. split; [congruence|]. intros g. by rewrite Hb', Hb. Qed.

Lemma put_frame h g s : bundle s = bundle (gateway_state h g) → hub_frame h (put_gateway h g s).
Proof.
  intros Hs. split; [done|]. intros g'. rewrite !gateway_bundle. unfold gateway_state, put_gateway in *. cbn. destruct (decide (g = g')) as [<-|]; [by rewrite lookup_insert_eq|by rewrite lookup_insert_ne].
Qed.

Lemma active_state_gateway x h s : active_state x h = Some s → s = gateway_state h (as_gateway_id x).
Proof. unfold active_state, gateway_state. destruct (gateways h !! as_gateway_id x); [|done]. cbn. by destruct (is_session _ _); [intros [= <-]|]. Qed.

Lemma in_session_frame x f h : (∀ s, bundle (f s) = bundle s) → hub_frame h (in_session x f h).
Proof.
  intros Hf. unfold in_session. destruct (active_state x h) as [s|] eqn:Ha; [|done]. apply active_state_gateway in Ha as ->. apply put_frame, Hf.
Qed.

Lemma notify_hub_frame x h : hub_frame h (notify_flow_commands x h).
Proof.
  unfold notify_flow_commands. destruct (gateways h !! as_gateway_id x) as [s|] eqn:Hs; [|done]. apply put_frame. unfold gateway_state. by rewrite Hs.
Qed.

Lemma queue_hub_frame now f e h : hub_frame h (fst (queue_flow_command_inner now f e h)).
Proof.
  unfold queue_flow_command_inner. destruct (validate f); [|done]. destruct f as [| | | |c|]; try done. destruct (queue_command _ _ _ _) as [s r] eqn:Hq. apply put_frame.
  unfold queue_command in Hq. cbn zeta in Hq. destruct (other_boot (session_boot_id _) _); [by injection Hq as <- _|]. destruct (check_snapshot _ _); [|by injection Hq as <- _].
  destruct (superseded _ _ _ _); [by injection Hq as <- _|]. set (s0 := gateway_state h _) in *. fold (switch_boot (fc_boot_id c) s0) in Hq.
  assert (bundle (switch_boot (fc_boot_id c) s0) = bundle s0) as Hsw by (unfold switch_boot; by destruct (other_boot _ _)).
  set (s1 := switch_boot _ s0) in *. clearbody s1. destruct (match flow_states s1 !! _ with Some _ => _ | None => _ end); [by injection Hq as <- _|]. destruct (_ && _)%bool; [by injection Hq as <- _|].
  injection Hq as <- _. by destruct (replace_decision_frame now (flow_command_key (fc_boot_id c) (policy_flow_id c))
    (issue_after (flow_states s1 !! flow_command_key (fc_boot_id c) (policy_flow_id c)) (FlowCommand c)) s1) as (-> & _).
Qed.

Lemma record_hub_frame now x r k h : hub_frame h (fst (record_capabilities now x r k h)).
Proof.
  unfold record_capabilities. destruct (active_state x h) as [s|] eqn:Ha; [|done]. apply active_state_gateway in Ha as ->. cbn zeta.
  destruct (bundle _) as [b|]; [case_bool_decide|]; by apply put_frame.
Qed.

Lemma latch_hub_frame now x b h : hub_frame h (latch_agent_boot now x b h).
Proof.
  apply in_session_frame. intros s. unfold latch_boot. cbn zeta. set (s1 := set_flow_boot _ _). assert (bundle s1 = bundle s) as Hs by (subst s1; by case_bool_decide).
  clearbody s1. destruct (_ && _)%bool; [|done]. by destruct (requeue_frame now s1) as (-> & _).
Qed.

Lemma handled_frame now at_ bs c h w : hub_frame h (h_hub (handle_agent_frame now at_ bs c h w)).
Proof.
  unfold handle_agent_frame. cbn zeta. destruct (_ || _)%bool; [done|]. destruct (decode bs) as [f|]; [|done]. destruct f as [f|f|f|f|f|f]; try done; (destruct (String.eqb _ _); [|done]).
  - unfold handle_ack. cbn zeta. destruct (negb _); [done|]. destruct (c_last_sent c); [|done]. destruct (snapshot_identity _); [|done]. destruct (negb _); [done|].
    destruct (snd (call _ _)) as [r|r|[[]|e]|r]; try done. pose proof (record_hub_frame now (c_session c) (pack_config_revision f) (pack_capabilities f) h). by destruct (record_capabilities _ _ _ _ _).
  - unfold handle_health. cbn zeta. destruct (snd (call _ _)) as [r|r|[[]|e]|r]; try done. pose proof (latch_hub_frame now (c_session c) (health_boot_id f) h) as Hin.
    destruct (other_boot _ _); [done|]. destruct (names_bundle _ _ _ _ _ _); [|done]. set (h1 := latch_agent_boot _ _ _ _) in *.
    pose proof (record_hub_frame now (c_session c) (last_applied_revision f) (health_capabilities f) h1) as Hr. destruct (record_capabilities _ _ _ _ _). by eapply hub_frame_trans.
  - unfold handle_metrics. by destruct (negb _).
  - unfold handle_flow_ack. destruct (negb _); [done|]. unfold acknowledge_flow_command. cbn [h_hub]. destruct (active_state _ _) as [s|] eqn:Ha; [|done]. destruct (negb _); [done|]. cbn zeta.
    destruct (flow_in_flight s !! _) as [p|]; [|done]. destruct (acknowledges _ _ _ _); [|done]. apply active_state_gateway in Ha as ->. apply put_frame, acknowledge_frame.
Qed.

Lemma disconnect_frame i c y : hub_frame (hub y) (hub (disconnect i c y)).
Proof. unfold disconnect. destruct (unregister _ _) as [h b] eqn:Hu. cbn. injection Hu as <- _. by apply in_session_frame. Qed.

Lemma retry_hub_frame now at_ x h : hub_frame h (retry_flow_commands now at_ x h).
Proof. apply in_session_frame. intros s. apply retry_commands_frame. Qed.

Lemma on_event_frame now at_ ev i c y : hub_frame (hub y) (hub (on_event now at_ ev i c y)).
Proof.
  destruct ev as [| | | |bs| |]; cbn [on_event].
  - case_bool_decide; [apply disconnect_frame|done].
  - destruct (updates _). by destruct (_ =? _).
  - unfold on_notified. cbn zeta. destruct (negb _); [done|]. set (h := put_gateway _ _ _). assert (hub_frame (hub y) h) as Hh by (by apply put_frame). clearbody h.
    unfold take_flow_command. destruct (c_boot c) as [boot|]; [|done]. destruct (active_state _ _) as [s|] eqn:Ha; [|done]. destruct (_ <=? _); [done|]. apply active_state_gateway in Ha as ->.
    set (s := gateway_state h _). destruct (take_queued _ now _ _ _) as [s2 o] eqn:Ht. cbn. eapply hub_frame_trans; [done|]. apply put_frame.
    apply take_queued_frame in Ht as (-> & _). by destruct (fill_frame now s) as (-> & _).
  - unfold active_contexts. destruct (active_state _ _) as [s|] eqn:Ha; [|apply retry_hub_frame]. apply active_state_gateway in Ha as ->.
    set (h := put_gateway _ _ _). assert (hub_frame (hub y) h) as Hh by (by apply put_frame). clearbody h. destruct (_ ≫= _); [done|]. eapply hub_frame_trans; [done|]. apply retry_hub_frame.
  - pose proof (handled_frame now at_ bs c (hub y) (world y)) as Hn. unfold on_message. cbn zeta. set (r := handle_agent_frame _ _ _ _ _ _) in *. clearbody r.
    destruct (negb _); [eapply hub_frame_trans; [done|]; by apply (disconnect_frame _ _ (set_hub _ _))|]. destruct (h_evaluation r); [done|]. destruct (resend_snapshot _); [|done]. by destruct (current_bundle _ _).
  - done.
  - apply disconnect_frame.
Qed.

Lemma requeue_unsent_bundle now c s : bundle (requeue_unsent now c s) = bundle s.
Proof.
  unfold requeue_unsent. cbn zeta. destruct (negb _); [done|]. match goal with |- context [fill_flow_queue now ?t] => destruct (fill_frame now t) as (Hb & _) end. cbn. by rewrite Hb.
Qed.

Lemma conn_step_frame now at_ o ev i y : hub_frame (hub y) (hub (conn_step now at_ o ev i y)).
Proof.
  unfold conn_step. destruct (conns y !! i) as [c|]; [|done]. destruct (c_phase c) as [|b|f|e t r| | | |] eqn:Hp; [| | | | |apply on_event_frame|done|done].
  - unfold start_socket. cbn zeta. destruct (snd (call _ _)) as [r|r|[[]|e]|r]; try (by apply in_session_frame). destruct (updates _) as [n [b|]]; [done|]. apply notify_hub_frame.
  - unfold finish_send. rewrite Hp. destruct o; [apply notify_hub_frame|apply disconnect_frame].
  - unfold finish_send, mark_flow_command_sent, requeue_unsent_flow_command. rewrite Hp. destruct o; [destruct f; try done; by apply in_session_frame|].
    eapply hub_frame_trans; [|apply (disconnect_frame _ _ (set_hub _ _))]. destruct f; try done. apply in_session_frame, requeue_unsent_bundle.
  - unfold evaluate_next, evaluate_context. rewrite Hp. destruct (ev_contexts e); [destruct r; [apply retry_hub_frame|done]|].
    destruct (flow_command_for_context _ _ _ _ _ _); [|done]. exact (queue_hub_frame t _ _ (draw (hub y) 1)).
  - destruct (is_active _ _); [done|apply disconnect_frame].
Qed.

Lemma sys_step_next t y : next_session_id (hub (sys_step y t)) ≤ next_session_id (hub y) + 1 ∨ next_session_id (hub y) < 0.
Proof.
  destruct (decide (next_session_id (hub y) < 0)) as [|Hn]; [by right|left]. destruct t as [c|g|now force stream n|g|now g b flow proto r|g b flow|now c expected|now at_ o ev i]; cbn [sys_step].
  - destruct (is_policy_call c); cbn; lia.
  - destruct (stored_snapshot g _) as [sv [v|e]]; cbn; lia.
  - destruct (reads y !! n) as [[g v]|]; [|lia]. destruct (refresh_gateway _ _ _ _ _) as [h r] eqn:Hr. cbn. assert (next_session_id h = next_session_id (hub y)) as ->; [|lia].
    unfold refresh_gateway in Hr. destruct v as [rev ps]. cbn zeta in Hr. destruct (kept_bundle _ _ _ _); [by injection Hr as <- _|]. destruct (_ =? u64_max); [by injection Hr as <- _|].
    destruct (f ← compile_snapshot _ _ _ _ _ _; _) as [b|]; [|by injection Hr as <- _]. destruct (match snapshot_identity _ with Some _ => _ | None => _ end) as [s m]. by injection Hr as <- _.
  - case_bool_decide; [|lia]. unfold register. cbn zeta. assert ((next_session_id (hub y) + 1) mod 2 ^ 64 ≤ next_session_id (hub y) + 1) by (apply Z.mod_le; lia).
    destruct (_ =? u64_max); cbn; lia.
  - unfold remember_flow_context. cbn zeta. destruct (_ =? u64_max); [cbn; lia|]. destruct (remember_context _ _ _ _ _ _ _). cbn. lia.
  - unfold forget_flow_context. destruct (gateways _ !! _); cbn; lia.
  - destruct (current_bundle _ _); [|lia]. cbn. rewrite (proj1 (queue_hub_frame _ _ _ _)). cbn. lia.
  - rewrite (proj1 (conn_step_frame _ _ _ _ _ _)). lia.
Qed.

Lemma sys_start_ok os : sys_ok ∅ (sys_start epoch os).
Proof.
  split; cbn; try done.
  - split; [lia|]. intros i [c Hc]. done.
  - intros g Hg. by apply elem_of_nil in Hg.
Qed.

(** Up to [u64_max - 1] connections, the system stays in order. *)
Lemma sys_run_ok ts issued y : sys_ok issued y → next_session_id (hub y) + Z.of_nat (length ts) ≤ u64_max →
  ∃ issued', issued ⊆ issued' ∧ sys_ok issued' (sys_run ts y).
Proof.
  revert issued y. induction ts as [|t ts IH]; intros issued y Hok Hn; [by exists issued|]. cbn in Hn.
  destruct (sys_step_ok issued t y Hok ltac:(lia)) as (issued1 & Hs1 & Hok1). pose proof (so_next _ _ Hok). destruct (sys_step_next t y) as [Hstep|]; [|lia].
  destruct (IH issued1 _ Hok1 ltac:(lia)) as (issued2 & Hs2 & Hok2). exists issued2. split; [by etrans|done].
Qed.

(** ** The streams *)

(** C6: Whatever the order of edits, publications, connections, flow decisions and
    reports, the frames sent on a policy stream are consistent: the snapshots are of
    the stream's gateway and of this process and never get older, neither in
    generation nor in revision, and every flow command follows a snapshot and is of
    the revision of the snapshot sent last before it. *)
Theorem stream_ordered os ts i c : let y := sys_run ts (sys_start epoch os) in
  Z.of_nat (length ts) < u64_max → conns y !! i = Some c → let g := as_gateway_id (c_session c) in
  Forall (λ f, snap_gateway_id f = g ∧ snap_controller_epoch f = epoch) (snapshots (c_wire c)) ∧ StronglySorted snap_le (snapshots (c_wire c)) ∧
  ∀ pre m post, c_wire c = pre ++ FlowCommand m :: post → fc_gateway_id m = g ∧ fc_controller_epoch m = epoch ∧
    ∃ f, last (snapshots pre) = Some f ∧ snap_config_revision f = fc_config_revision m.
Proof.
  intros y Hn Hc g. destruct (sys_run_ok ts ∅ _ (sys_start_ok os)) as (issued & _ & Hok); [cbn; lia|]. destruct (co_wire _ _ _ _ (so_conns _ _ Hok i c Hc)) as [Hs Hso Hco].
  split_and!; [by apply Forall_forall|done|done].
Qed.

(** C17: What the hub keeps and sends per gateway is bounded: a flow command is sent at
    most three times on a stream; the queue has no duplicates and at most 64
    entries, at most 64 commands of the active session await an acknowledgement,
    and at most 16384 verdicts, flows to re-evaluate and delayed retries are kept. *)
Theorem delivery_bounded os ts : let y := sys_run ts (sys_start epoch os) in Z.of_nat (length ts) < u64_max →
  (∀ i c m, conns y !! i = Some c → times (c_wire c) m ≤ FLOW_COMMAND_MAX_ATTEMPTS) ∧
  ∀ g s, gateways (hub y) !! g = Some s → NoDup (flow_queue s) ∧ zlen (flow_queue s) ≤ FLOW_COMMAND_QUEUE_CAPACITY ∧
    (session s ≠ None → Z.of_nat (size (flow_in_flight s)) ≤ FLOW_COMMAND_IN_FLIGHT_CAPACITY) ∧
    Z.of_nat (size (flow_states s)) ≤ FLOW_COMMAND_STATE_CAPACITY ∧ Z.of_nat (size (flow_evaluation_contexts s)) ≤ FLOW_COMMAND_STATE_CAPACITY ∧
    Z.of_nat (size (flow_partial_retries s)) ≤ FLOW_COMMAND_STATE_CAPACITY.
Proof.
  intros y Hn. destruct (sys_run_ok ts ∅ _ (sys_start_ok os)) as (issued & _ & Hok); [cbn; lia|]. split; [intros i c m Hc; apply (co_times _ _ _ _ (so_conns _ _ Hok i c Hc))|].
  intros g s Hs. pose proof (so_flows _ _ Hok g s Hs) as Hfl. split_and!; try apply Hfl. intros Hse. destruct (session s) as [i|] eqn:Hi; [|done].
  destruct (so_session _ _ Hok g s i Hs Hi) as (c & _ & _ & Hd & _). pose proof (dl_window _ _ _ Hd) as Hw. unfold window in Hw. destruct (hand_of c); lia.
Qed.
End system.

Module Example.
Definition ordered : MapOrder := {| map_order A m := map_to_list m |}.
Definition uuids : Uuids := {| uuid n := pretty n |}.
Lemma ordered_law : @MapOrderLaw ordered.
Proof. split. done. Qed.
Lemma uuids_law : @UuidsLaw uuids.
Proof. split. intros m n. apply (inj pretty). Qed.

Definition health (reported : option PolicySnapshotFrame) : PolicyHealthFrame :=
  mkPolicyHealth 1 "gw" "boot" (default 0 (snap_config_revision <$> reported)) (snap_controller_epoch <$> reported) (snap_bundle_generation <$> reported) (snap_checksum <$> reported)
    capabilities_unsupported 1800000000000 false.
Definition checksum : string := String.append "sha256:" (hex_bytes (@sha256 PolicyWire.Example.codec (str_bytes "gw" ++ str_bytes "p1"))).
Definition ack : PolicyAckFrame :=
  mkPolicyAck 1 "gw" "boot" PolicyWire.Example.epoch 1 1 checksum PApplied capabilities_unsupported [mkResult "p1" Applied None None None] 1800000000000.

(** A codec that reads two frames of an agent. *)
Definition codec : PolicyCodec := {|
  to_json := @to_json PolicyWire.Example.codec;
  from_json := λ b, match b with [1] => Ok (PolicyHealth (health None)) | [2] => Ok (PolicyAck ack) | _ => Err "unknown" end;
  jcs := @jcs PolicyWire.Example.codec;
  sha256 := @sha256 PolicyWire.Example.codec;
|}.

Definition command : FlowCommandFrame :=
  mkFlowCommand 1 "gw" "boot" PolicyWire.Example.epoch 1 EmptyString "flow-1" Upsert (Some VBlock) ["p1"] 1800000060000 1800000000000.

Definition conn (ev : Event) : Step := SConn 1800000000000 1000 true ev 1.
Definition connect : list Step :=
  [SService (Sessions.Example.create_evening "p1" 0); SRead "gw"; SPublish 1800000000000 false true 0; SUpgrade "gw"; conn EAlive; conn EAlive; conn EAlive].
Definition deliver : list Step := connect ++ [conn (EMessage [1]); conn EAlive; SQueue 1800000000000 command None; conn ENotified; conn EAlive].
Definition run (ts : list Step) : System :=
  @sys_run ordered uuids codec Compiler.Example.utc Sessions.Example.one_result Sessions.Example.one_spec ts (sys_start PolicyWire.Example.epoch []).

(** The agent reconnects; [early] are the steps between the new snapshot and the
    first health report. *)
Definition conn2 (ev : Event) : Step := SConn 1800000000000 1000 true ev 2.
Definition reconnect (early : list Step) : list Step :=
  deliver ++ [conn EAlive; conn EGone; conn EAlive; SPublish 1800000000000 false true 0; SUpgrade "gw"; conn2 EAlive; conn2 EAlive; conn2 EAlive] ++ early ++ [conn2 (EMessage [1])].
Definition telemetry : Step :=
  SRemember 1800000000000 "gw" "boot" "flow-2" 6 (mkRequest "gw" "AA:BB:CC:DD:EE:FF" "tv" "video" f64_1_0 "internet" 1800000000000).
End Example.

Lemma stream_ordered_witness : ∃ c f m, conns (Example.run Example.deliver) !! 1 = Some c ∧ c_wire c = [PolicySnapshot f; FlowCommand m] ∧ snap_config_revision f = fc_config_revision m.
Proof.
  do 3 eexists. split; [vm_compute; reflexivity|]. split; [cbn [c_wire]; reflexivity|].
  destruct (@stream_ordered Example.ordered Example.uuids Example.codec Compiler.Example.utc Sessions.Example.one_result Sessions.Example.one_spec PolicyWire.Example.epoch
    Example.ordered_law Example.uuids_law [] Example.deliver 1 _ ltac:(done) ltac:(vm_compute; reflexivity)) as (_ & _ & Hco).
  destruct (Hco [_] _ [] ltac:(cbn [c_wire]; reflexivity)) as (_ & _ & x & [= <-] & Hr). exact Hr.
Defined.

Lemma delivery_bounded_witness : ∃ c s, conns (Example.run Example.deliver) !! 1 = Some c ∧ times (c_wire c) "0" = 1 ∧
  gateways (hub (Example.run Example.deliver)) !! "gw" = Some s ∧ size (flow_in_flight s) = 1%nat ∧ Z.of_nat (size (flow_in_flight s)) ≤ FLOW_COMMAND_IN_FLIGHT_CAPACITY.
Proof.
  do 2 eexists. split; [vm_compute; reflexivity|]. split; [vm_compute; reflexivity|]. split; [vm_compute; reflexivity|]. split; [vm_compute; reflexivity|].
  destruct (@delivery_bounded Example.ordered Example.uuids Example.codec Compiler.Example.utc Sessions.Example.one_result Sessions.Example.one_spec PolicyWire.Example.epoch
    Example.ordered_law Example.uuids_law [] Example.deliver ltac:(done)) as (_ & Hg).
  destruct (Hg "gw" _ ltac:(vm_compute; reflexivity)) as (_ & _ & Hs & _). apply Hs. done.
Defined.

(** An agent that reconnects gets its retained command again, unless telemetry of the
    flow decisions comes before its first health report. *)
Lemma early_telemetry_loses_commands :
  (λ s, (size (flow_states s), size (flow_pending s))) <$> gateways (hub (Example.run (Example.reconnect []))) !! "gw" = Some (1%nat, 1%nat) ∧
  (λ s, (size (flow_states s), size (flow_pending s), size (flow_in_flight s), size (flow_partial_retries s))) <$>
    gateways (hub (Example.run (Example.reconnect [Example.telemetry]))) !! "gw" = Some (1%nat, 0%nat, 0%nat, 0%nat).
Proof. split; vm_compute; reflexivity. Qed.
