(* ===== verification/Applied.v ===== *)
(** From the stored policies to the agent and back: the policy service, the hub and
    the streams together (policy/service.rs, policy/push.rs and the stream handler
    of lib.rs in src/crates/collector/src). What a snapshot says is what was stored
    at its revision, on every stream, and a policy that is shown as applied was
    acknowledged for a snapshot that holds the policies as they are stored. *)

From stdpp Require Import pretty.
From S2P Require Import Prelude PolicyWire Compiler Evaluator Contexts Admission Database Sessions Hub Push.

Section applied.
Context `{MapOrder} `{Uuids} `{PolicyCodec} `{Calendar} `{ReportJson} `{SpecJson} `{!SpecJsonLaws} (epoch : string).

(** ** Revisions and the policies they name *)

(** The database holds the policy [e] for [g]. *)
Definition is_stored (g : string) (d : Database) (e : PolicySnapshotEntry) : Prop :=
  ∃ r, traffic_policies d !! id e = Some r ∧ row_gateway_id r = g ∧ spec_from_json (spec_json r) = Ok (spec e).

(** [ps] are the policies of [g] at [revision]: that is, as long as the database is at
    that revision, the stored ones. *)
Definition reads_as (g : string) (revision : Z) (ps : list PolicySnapshotEntry) (d : Database) : Prop :=
  0 ≤ revision ≤ revision_of g d ∧ (revision = revision_of g d → ∀ e, e ∈ ps ↔ is_stored g d e).

Lemma stored_policies_same g d d' e : traffic_policies d' = traffic_policies d → is_stored g d' e ↔ is_stored g d e.
Proof. unfold is_stored. by intros ->. Qed.

(** The policies of a gateway change only with its revision. *)
Lemma call_stored c sv g e : database_ok (db sv) → revision_of g (db (fst (call c sv))) = revision_of g (db sv) → is_stored g (db (fst (call c sv))) e ↔ is_stored g (db sv) e.
Proof.
  intros Hok Hrev. revert Hrev. destruct (call_effect c sv Hok) as [g' i expected row act actor before now m Hch|m Hs _|g' actor now r _ Hd Hr|g' wh f r Hw|g' wh f d1 Hw _ [m Hm]|g' Hd|g' [m Hm]|g' w _ Hd|Hs|r Hs _];
    intros Hrev; try (by rewrite Hs).
  - rewrite (changed_revision _ _ _ _ _ _ _ _ _ _ g Hch) in Hrev by (rewrite <- (ch_revision _ _ _ _ _ _ _ _ _ _ Hch); apply revision_of_nonneg).
    destruct (decide (g = g')) as [->|Hne]; [pose proof (ch_revision _ _ _ _ _ _ _ _ _ _ Hch); lia|]. rewrite (ch_db _ _ _ _ _ _ _ _ _ _ Hch). unfold is_stored. cbn.
    destruct (decide (i = id e)) as [<-|Hid]; [|by rewrite lookup_partial_alter_ne]. rewrite lookup_partial_alter_eq. split; intros (r & Hr & Hg & _); exfalso; apply Hne; rewrite <- Hg.
    + by apply (ch_new _ _ _ _ _ _ _ _ _ _ Hch).
    + by apply (ch_old _ _ _ _ _ _ _ _ _ _ Hch).
  - rewrite Hd. by apply stored_policies_same.
  - apply stored_policies_same. by destruct (written_frame _ _ _ _ _ _ Hw) as (? & ? & _).
  - rewrite Hm. apply stored_policies_same. by destruct (written_frame _ _ _ _ _ _ Hw) as (? & ? & _).
  - rewrite Hd. by apply stored_policies_same.
  - rewrite Hm. by apply stored_policies_same.
  - rewrite Hd. by apply stored_policies_same.
Qed.

Lemma call_reads c sv g revision ps : database_ok (db sv) → reads_as g revision ps (db sv) → reads_as g revision ps (db (fst (call c sv))).
Proof.
  intros Hok [Hr Hps]. pose proof (call_revision c sv g Hok). split; [lia|]. intros Hrev e. rewrite (call_stored c sv g e Hok) by lia. apply Hps. lia.
Qed.

Lemma snapshot_reads g sv sv' v : database_ok (db sv) → stored_snapshot g sv = (sv', Ok v) → db sv' = db sv ∧ reads_as g (fst v) (snd v) (db sv).
Proof.
  intros Hok Hs. unfold stored_snapshot in Hs. apply stM_bind_Ok in Hs as (s1 & r & [-> Hd1]%read_revision_Ok & Hs). apply stM_bind_Ok in Hs as (s2 & ps & [Hq Hd2]%query_Ok & Hs).
  apply mret_Ok in Hs as [-> ->]. rewrite Hd1 in *. split; [done|]. cbn [fst snd]. split; [split; [apply revision_of_nonneg|lia]|]. intros _ e.
  apply mapR_Ok in Hq. split.
  - intros He. apply list_elem_of_lookup in He as [n Hn]. destruct (Forall2_lookup_r _ _ _ _ _ Hq Hn) as ([j r] & Hl & Hjr). cbn in Hjr.
    apply bind_Ok in Hjr as (s & Hsp & [= <-]). apply list_elem_of_lookup_2, elem_of_gateway_policies in Hl as [Hr Hg]. by exists r.
  - intros (r & Hr & Hg & Hsp). assert ((id e, r) ∈ gateway_policies g (db sv)) as [n Hn]%list_elem_of_lookup by (by apply elem_of_gateway_policies).
    destruct (Forall2_lookup_l _ _ _ _ _ Hq Hn) as (x & Hx & Hjr). cbn in Hjr. rewrite Hsp in Hjr. injection Hjr as <-. apply list_elem_of_lookup_2 in Hx. by destruct e.
Qed.

Lemma reads_canonical g revision ps d : reads_as g revision ps d → reads_as g revision (canonical_policies ps) d.
Proof.
  intros [Hr Hps]. split; [done|]. intros Heq e. rewrite <- (Hps Heq). unfold canonical_policies. by rewrite sort_by_perm.
Qed.

(** ** What is said on the streams *)

(** The snapshot [f] says what was stored for [g] at its revision. *)
Definition truthful (g : string) (d : Database) (f : PolicySnapshotFrame) : Prop := reads_as g (snap_config_revision f) (policies f) d.
Definition truthful_bundle (g : string) (d : Database) (b : PublishedBundle) : Prop := ∃ f, frame b = PolicySnapshot f ∧ truthful g d f.

(** The acknowledgement names the snapshot [f]. *)
Definition names (a : AckReport) (f : PolicySnapshotFrame) : Prop :=
  a_controller_epoch a = snap_controller_epoch f ∧ a_config_revision a = snap_config_revision f ∧ a_bundle_generation a = snap_bundle_generation f ∧
  a_checksum a = snap_checksum f.

(** The snapshot that [a] names was sent to [g]. *)
Definition sent_to (y : System) (g : string) (a : AckReport) (f : PolicySnapshotFrame) : Prop :=
  ∃ i c, conns y !! i = Some c ∧ as_gateway_id (c_session c) = g ∧ PolicySnapshot f ∈ c_wire c ∧ names a f.

Record conn_true (d : Database) (c : Connection) : Prop := {
  ct_phase b : c_phase c = SendingBundle b → truthful_bundle (as_gateway_id (c_session c)) d b;
  ct_wire f : PolicySnapshot f ∈ c_wire c → truthful (as_gateway_id (c_session c)) d f;
  ct_last b : c_last_sent c = Some b → frame b ∈ c_wire c;
}.

Record data_ok (y : System) : Prop := {
  da_db : database_ok (db (service (world y)));
  da_rows : rows_inv (world y);
  da_reads g v : (g, v) ∈ reads y → reads_as g (fst v) (snd v) (db (service (world y)));
  da_bundles g b : current_bundle g (hub y) = Some b → truthful_bundle g (db (service (world y))) b;
  da_conns i c : conns y !! i = Some c → conn_true (db (service (world y))) c;
  da_acks g a : acks (world y) !! g = Some a → ∃ f, sent_to y g a f;
}.

Lemma data_hub y h : data_ok y → (∀ g, current_bundle g h = current_bundle g (hub y)) → data_ok (set_hub h y).
Proof. intros [] Hh. split; try done. intros g b. cbn. rewrite Hh. apply da_bundles0. Qed.

Lemma truthful_bundle_mono g d d' b : (∀ r ps, reads_as g r ps d → reads_as g r ps d') → truthful_bundle g d b → truthful_bundle g d' b.
Proof. intros Hr (f & Hf & Ht). exists f. split; [done|]. by apply Hr. Qed.

(** A call of the service; an acknowledgement must be of a snapshot that was sent. *)
Lemma data_call y c : data_ok y → (∀ g x a, c = CAck g x a → ∃ f, sent_to y g a f) → data_ok (set_world (step (world y) c) y).
Proof.
  intros [Hdb Hrows Hre Hbu Hco Hac] Hack. pose proof (step_rows (world y) c Hdb Hrows) as Hrows'. pose proof (call_ok c (service (world y)) Hdb) as Hdb'.
  pose proof (call_reads c (service (world y))) as Hread.
  assert (service (step (world y) c) = fst (call c (service (world y)))) as Hsv by (unfold step; by destruct (call c (service (world y)))).
  assert (∀ g, ∀ r ps, reads_as g r ps (db (service (world y))) → reads_as g r ps (db (service (step (world y) c)))) as Hmono by (intros g r ps; rewrite Hsv; by apply Hread).
  split; cbn; try done.
  - by rewrite Hsv.
  - intros g v Hv. by apply Hmono, Hre.
  - intros g b Hb. eapply truthful_bundle_mono; [apply Hmono|by apply Hbu].
  - intros i k Hk. destruct (Hco i k Hk) as [Hp Hw Hl]. split; [|intros f Hf; by apply Hmono, Hw|done]. intros b Hb. eapply truthful_bundle_mono; [apply Hmono|by apply Hp].
  - intros g a Ha. assert (acks (world y) !! g = Some a ∨ ∃ x, c = CAck g x a) as [Hold|[x ->]]; [|by apply Hac|by eapply Hack].
    unfold step in Ha. destruct (call c (service (world y))) as [sv r]. cbn in Ha. destruct c; try by left. destruct r as [|[]|[[]|]|]; try by left.
    apply lookup_insert_Some in Ha as [[-> ->]|[_ Ha]]; [right; by eexists|by left].
Qed.

(** A step of a connection: what it sends was in its hands, and what it takes to send
    is published. *)
Definition follows (d : Database) (c c' : Connection) : Prop :=
  c_session c' = c_session c ∧ (∀ b, c_phase c' = SendingBundle b → truthful_bundle (as_gateway_id (c_session c)) d b) ∧
  ((c_wire c' = c_wire c ∧ c_last_sent c' = c_last_sent c) ∨
   (∃ b, c_phase c = SendingBundle b ∧ c_wire c' = c_wire c ++ [frame b] ∧ c_last_sent c' = Some b) ∨
   ∃ m, c_wire c' = c_wire c ++ [FlowCommand m] ∧ c_last_sent c' = c_last_sent c).

Lemma follows_true d c c' : conn_true d c → follows d c c' → conn_true d c' ∧ c_wire c `prefix_of` c_wire c'.
Proof.
  intros [Hp Hw Hl] (Hs & Hp' & Hw'). destruct Hw' as [[Hw' Hl']|[(b & Hb & Hw' & Hl')|(m & Hw' & Hl')]]; (split; [split; rewrite ?Hs, ?Hw', ?Hl'; try done|rewrite Hw']).
  - done.
  - intros f [Hf|Hf%list_elem_of_singleton]%elem_of_app; [by apply Hw|]. destruct (Hp b Hb) as (f' & Hf' & Ht). assert (f' = f) as -> by congruence. done.
  - intros ? [= <-]. apply elem_of_app. right. by apply list_elem_of_singleton.
  - by eexists.
  - intros f [Hf|Hf%list_elem_of_singleton]%elem_of_app; [by apply Hw|done].
  - intros b Hb. apply elem_of_app. left. by apply Hl.
  - by eexists.
Qed.

Lemma data_conn y i c c' : data_ok y → conns y !! i = Some c → follows (db (service (world y))) c c' → data_ok (put_conn i c' y).
Proof.
  intros [Hdb Hrows Hre Hbu Hco Hac] Hc Hf. destruct (follows_true _ _ _ (Hco i c Hc) Hf) as [Hc' Hpre]. destruct Hf as (Hs & _). split; cbn; try done.
  - intros j k [[<- <-]|[_ Hk]]%lookup_insert_Some; [done|by eapply Hco].
  - intros g a Ha. destruct (Hac g a Ha) as (f & j & k & Hk & Hg & Hin & Hna). exists f. destruct (decide (i = j)) as [<-|Hne].
    + assert (k = c) as -> by congruence. exists i, c'. cbn. rewrite lookup_insert_eq, Hs. split_and!; try done. by eapply elem_of_prefix.
    + exists j, k. cbn. rewrite lookup_insert_ne by done. done.
Qed.

Lemma follows_phase d c c' : c_session c' = c_session c → c_wire c' = c_wire c → c_last_sent c' = c_last_sent c →
  (∀ b, c_phase c' = SendingBundle b → truthful_bundle (as_gateway_id (c_session c)) d b) → follows d c c'.
Proof. intros Hs Hw Hl Hp. split_and!; [done|done|by left]. Qed.

(** ** The steps of a connection *)

Context `{!MapOrderLaw} `{!UuidsLaw}.

Lemma disconnect_data y i c0 c : data_ok y → conns y !! i = Some c0 → c_session c = c_session c0 → c_wire c = c_wire c0 → c_last_sent c = c_last_sent c0 → data_ok (disconnect i c y).
Proof.
  intros Hd Hc Hs Hw Hl. unfold disconnect. destruct (unregister _ _) as [h b] eqn:Hu. injection Hu as <- _.
  apply (data_conn (set_hub _ y) i c0); [|done|apply follows_phase; try done; by destruct b]. apply data_hub; [done|]. by apply in_session_frame.
Qed.

Lemma data_same y : data_ok y → data_ok (set_world (world y) y).
Proof. by destruct y. Qed.

Lemma start_socket_data issued y i c : sys_ok epoch issued y → data_ok y → conns y !! i = Some c → data_ok (start_socket i c y).
Proof.
  intros Hok Hd Hc. unfold start_socket. cbn zeta. set (call := CConnect _ _ _). assert (data_ok (set_world (step (world y) call) y)) as Hd1 by (by apply data_call).
  set (y1 := set_world _ y) in *. assert (data_ok (put_conn i (set_phase Closed c) (set_hub (fst (unregister (c_session c) (hub y1))) y1))) as Hclose.
  { apply (data_conn (set_hub _ y1) i c); [|done|by apply follows_phase]. apply data_hub; [done|]. by apply in_session_frame. }
  destruct (snd _) as [r|r|[[]|e]|r]; try done. destruct (updates _) as [n o] eqn:Hu. pose proof (updates_bundle epoch issued y _ n o Hok Hu) as Hb. destruct o as [b|].
  - apply (data_conn y1 i c); [done|done|]. apply follows_phase; try done. intros b' [= <-]. by apply (da_bundles _ Hd1).
  - apply (data_conn (set_hub _ y1) i c); [|done|by apply follows_phase]. apply data_hub; [done|]. apply notify_hub_frame.
Qed.

Lemma finish_send_data issued now at_ ok y i c : sys_ok epoch issued y → data_ok y → conns y !! i = Some c → data_ok (finish_send now at_ ok i c y).
Proof.
  intros Hok Hd Hc. pose proof (so_conns _ _ _ Hok i c Hc) as Hco. unfold finish_send. cbn zeta. destruct (c_phase c) as [|b|f| | | | |] eqn:Hp; try done; destruct ok.
  - set (w := record_bundle_delivery _ _ _ _ _). assert (data_ok (set_world w y)) as Hd1.
    { subst w. unfold record_bundle_delivery. destruct (negb _); [by apply data_same|]. destruct (snapshot_identity _) as [[[[[g e] r] n] k]|]; [|by apply data_same]. by apply data_call. }
    apply (data_conn (set_hub _ _) i c); [|done|]; [apply data_hub; [done|apply notify_hub_frame]|]. split_and!; [done|done|]. right. left. by exists b.
  - by apply (disconnect_data y i c).
  - destruct (co_command _ _ _ _ _ Hco f Hp) as (_ & m & x & -> & _). apply (data_conn (set_hub _ _) i c); [|done|].
    + apply data_hub; [done|]. by apply in_session_frame.
    + split_and!; [done|done|]. right. right. by exists m.
  - apply (disconnect_data (set_hub _ y) i c); try done. apply data_hub; [done|]. destruct f; try done. apply in_session_frame, requeue_unsent_bundle.
Qed.

(** What the agent reports goes to the service; an acknowledgement of what was sent. *)
Lemma handled_world now at_ bs y i c : data_ok y → conns y !! i = Some c → let w := h_world (handle_agent_frame now at_ bs c (hub y) (world y)) in
  w = world y ∨ ∃ k, w = step (world y) k ∧ ∀ g x a, k = CAck g x a → ∃ f, sent_to y g a f.
Proof.
  intros Hd Hc w. subst w. unfold handle_agent_frame. cbn zeta. destruct (_ || _)%bool; [by left|]. destruct (decode bs) as [f|]; [|by left].
  destruct f as [f|f|f|f|f|f]; try (by left); (destruct (String.eqb _ _); [|by left]).
  - unfold handle_ack. cbn zeta. destruct (negb _); [by left|]. destruct (c_last_sent c) as [b|] eqn:Hl; [|by left]. destruct (snapshot_identity (frame b)) as [[[[[g e] r] n] k]|] eqn:Hid; [|by left].
    destruct (negb _) eqn:Hn; [by left|]. apply negb_false_iff in Hn. unfold names_bundle in Hn. cbn in Hn. rewrite Hid in Hn. split_bools. set (kc := CAck _ _ _). right. exists kc. split.
    + destruct (snd _) as [?|?|[[]|?]|?]; try done. by destruct (record_capabilities _ _ _ _ _).
    + intros g' x a [= <- _ <-]. pose proof (ct_last _ _ (da_conns _ Hd i c Hc) b Hl) as Hin. destruct (frame b) as [fb| | | | |]; try done. injection Hid as <- <- <- <- <-.
      exists fb, i, c. split_and!; try done. unfold names. cbn. repeat case_bool_decide; simplify_eq. split_and!; try done; lia.
  - unfold handle_health. cbn zeta. set (kc := CHealth _ _ _ _ _ _ _ _). right. exists kc. split; [|done]. destruct (snd _) as [?|?|[[]|?]|?]; try done.
    destruct (other_boot _ _); [done|]. destruct (names_bundle _ _ _ _ _ _); [|done]. by destruct (record_capabilities _ _ _ _ _).
  - unfold handle_metrics. destruct (negb _); [by left|]. right. eexists. split; [done|]. done.
  - unfold handle_flow_ack. destruct (negb _); by left.
Qed.

Lemma on_message_data now at_ bs y i c : data_ok y → conns y !! i = Some c → data_ok (on_message now at_ bs i c y).
Proof.
  intros Hd Hc. pose proof (handled_frame now at_ bs c (hub y) (world y)) as [_ Hfr]. pose proof (handled_world now at_ bs y i c Hd Hc) as Hw. cbn zeta in Hw. unfold on_message.
  set (r := handle_agent_frame _ _ _ _ _ _) in *. cbn zeta. set (y1 := set_hub _ _).
  assert (data_ok y1) as Hd1.
  { apply data_hub; [|done]. destruct Hw as [->|(k & -> & Hk)]; [by apply data_same|]. by apply data_call. }
  assert (∀ p, (∀ b, p = SendingBundle b → current_bundle (as_gateway_id (c_session c)) (hub y1) = Some b) → data_ok (put_conn i (set_phase p (set_boot (h_boot r) c)) y1)) as Hput.
  { intros p Hp. apply (data_conn y1 i c); [done|done|]. apply follows_phase; try done. intros b Hb. by apply (da_bundles _ Hd1), Hp. }
  destruct (negb _); [by apply (disconnect_data y1 i c)|]. destruct (h_evaluation r); [by apply Hput|]. destruct (resend_snapshot _); [|by apply Hput].
  destruct (current_bundle _ _) as [b|] eqn:Hb; [|by apply Hput]. apply Hput. by intros b' [= <-].
Qed.

Lemma on_event_data issued now at_ ev y i c : sys_ok epoch issued y → data_ok y → conns y !! i = Some c → data_ok (on_event now at_ ev i c y).
Proof.
  intros Hok Hd Hc. pose proof (on_event_frame now at_ ev i c y) as [_ Hfr].
  assert (∀ p h, (∀ g, current_bundle g h = current_bundle g (hub y)) → (∀ b, p ≠ SendingBundle b) → data_ok (put_conn i (set_phase p c) (set_hub h y))) as Hput.
  { intros p h Hh Hp. apply (data_conn (set_hub h y) i c); [by apply data_hub|done|]. apply follows_phase; try done. intros b Hb. by destruct (Hp b). }
  destruct ev as [| | | |bs| |]; cbn [on_event] in *.
  - case_bool_decide; [by apply (disconnect_data y i c)|done].
  - destruct (updates _) as [n o] eqn:Hu. destruct (n =? c_seen c); [done|]. pose proof (updates_bundle epoch issued y _ n o Hok Hu) as Hb.
    apply (data_conn y i c); [done|done|]. apply follows_phase; try done. cbn. destruct o as [b|]; [|done]. intros b' [= <-]. by apply (da_bundles _ Hd).
  - unfold on_notified in *. cbn zeta in *. destruct (negb _); [done|]. destruct (take_flow_command _ _ _ _ _) as [h [f|]]; [destruct (is_ok _)|]; by apply Hput.
  - destruct (active_contexts _ _ _) as [h [ev|]]; by apply Hput.
  - by apply on_message_data.
  - apply (data_conn y i c); [done|done|by apply follows_phase].
  - by apply (disconnect_data y i c).
Qed.

Lemma conn_step_data issued now at_ o ev y i : sys_ok epoch issued y → data_ok y → data_ok (conn_step now at_ o ev i y).
Proof.
  intros Hok Hd. pose proof (conn_step_frame now at_ o ev i y) as [_ Hfr]. unfold conn_step in *. destruct (conns y !! i) as [c|] eqn:Hc; [|done].
  destruct (c_phase c) as [|b|f|e t r| | | |] eqn:Hp; [by eapply start_socket_data|by eapply finish_send_data|by eapply finish_send_data| | |by eapply on_event_data| |done].
  - unfold evaluate_next in *. rewrite Hp in *. destruct (ev_contexts e); (apply (data_conn (set_hub _ y) i c); [by apply data_hub|done|by apply follows_phase]).
  - destruct (is_active _ _); [|by apply (disconnect_data y i c)]. apply (data_conn y i c); [done|done|by apply follows_phase].
  - apply (data_conn (set_world _ y) i c); [by apply data_call|done|by apply follows_phase].
Qed.

(** ** The system *)

Lemma refresh_data now g force v y : data_ok y → reads_as g (fst v) (snd v) (db (service (world y))) → data_ok (set_hub (fst (refresh_gateway now g force (Ok v) (hub y))) y).
Proof.
  intros Hd Hv. assert (data_ok (set_hub (put_gateway (hub y) g (gateway_state (hub y) g)) y)) as Hsame by (apply data_hub; [done|by apply put_frame]).
  destruct v as [rev ps]. unfold refresh_gateway. cbn zeta. destruct (kept_bundle _ _ _ _); [done|]. destruct (_ =? u64_max); [done|].
  destruct (f ← compile_snapshot _ _ _ _ _ _; _) as [b|] eqn:Hb; [|done]. apply bind_Ok in Hb as (fr & Hc & Hb). apply bind_Ok in Hb as (bs & _ & [= <-]).
  apply compiled_identity in Hc as (f & -> & Hg & He & Hr & _ & Hp). destruct (match snapshot_identity _ with Some _ => _ | None => _ end) as [s n]. cbn [fst].
  destruct Hd. split; try done. intros g' b. rewrite gateway_bundle. unfold gateway_state. cbn. destruct (decide (g = g')) as [<-|Hne].
  - rewrite lookup_insert_eq. cbn. intros [= <-]. exists f. split; [done|]. unfold truthful. rewrite Hr, Hp. by apply reads_canonical.
  - rewrite !lookup_insert_ne by done. intros Hb. apply da_bundles0. by rewrite gateway_bundle.
Qed.

Lemma query_db {A} (f : Database → result string A) sv : db (fst (query f sv)) = db sv.
Proof. unfold query. destruct (statement _ sv) as [sv' [a|e]] eqn:Hs; [by apply query_Ok in Hs as [_ Hd]|by apply statement_Err in Hs]. Qed.

Lemma snapshot_db g sv : db (fst (stored_snapshot g sv)) = db sv.
Proof.
  assert (∀ {A B} (f : Database → result string A) (k : A → Tx B) t, (∀ a t, db (fst (k a t)) = db t) → db (fst ((query f ≫= k) t)) = db t) as Hbind.
  { intros A B f k t Hk. unfold mbind, stM_bind. pose proof (query_db f t) as Hq. destruct (query f t) as [t1 [a|e]]; cbn [fst] in *; [|done]. by rewrite Hk. }
  apply Hbind. intros revision t. apply Hbind. done.
Qed.

(** The service without a change of the database. *)
Lemma data_service y sv : data_ok y → db sv = db (service (world y)) → data_ok (set_world (mkWorld sv (owners (world y)) (acks (world y))) y).
Proof. intros [] Hdb. split; unfold rows_inv; cbn; rewrite ?Hdb; try done. Qed.

Lemma register_data issued g y : sys_ok epoch issued y → data_ok y → data_ok (sys_step y (SUpgrade g)).
Proof.
  intros Hok Hd. cbn [sys_step]. case_bool_decide as Hg; [|done]. unfold register. cbn zeta. destruct (_ =? u64_max); [by apply data_hub|].
  set (i := next_session_id (hub y)). set (s := clear_flow_delivery _). set (h := mkHub _ _ _ (<[g := s]> _) _ _).
  assert (∀ g', current_bundle g' h = current_bundle g' (hub y)) as Hcur.
  { intros g'. rewrite (gateway_bundle (hub y)). unfold current_bundle, gateway_state. cbn. destruct (decide (g = g')) as [<-|]; [by rewrite lookup_insert_eq|]. rewrite lookup_insert_ne by done.
    by destruct (gateways (hub y) !! g'). }
  pose proof (data_hub y h Hd Hcur) as [Hdb Hrows Hre Hbu Hco Hac]. split; cbn; try done.
  - intros j c [[<- <-]|[_ Hc]]%lookup_insert_Some; [|by apply (Hco j)]. split; cbn; try done. by intros f Hf%elem_of_nil.
  - intros g' a Ha. destruct (Hac g' a Ha) as (f & j & c & Hc & Hrest). exists f, j, c. split; [|done]. cbn in Hc |- *. destruct (co_id _ _ _ _ _ (so_conns _ _ _ Hok j c Hc)) as (_ & _ & ?).
    rewrite lookup_insert_ne; [done|]. subst i. lia.
Qed.

Lemma sys_step_data issued y t : sys_ok epoch issued y → data_ok y → data_ok (sys_step y t).
Proof.
  intros Hok Hd. destruct t as [c|g|now force stream n|g|now g b flow proto r|g b flow|now c expected|now at_ o ev i]; cbn [sys_step].
  - destruct (is_policy_call c) eqn:Hp; [|done]. apply data_call; [done|]. by intros g x a ->.
  - pose proof (snapshot_db g (service (world y))) as Hdb. destruct (stored_snapshot g (service (world y))) as [sv r] eqn:Hs. cbn [fst] in Hdb.
    pose proof (data_service y sv Hd Hdb) as Hd'. destruct r as [v|e]; [|done]. destruct (snapshot_reads _ _ _ _ (da_db _ Hd) Hs) as [_ Hv]. destruct Hd'. split; try done.
    intros g' v'. cbn. rewrite Hdb. intros [[= -> ->]|Hin]%elem_of_cons; [done|]. by apply (da_reads _ Hd).
  - destruct (reads y !! n) as [[g v]|] eqn:Hn; [|done]. apply list_elem_of_lookup_2 in Hn. pose proof (refresh_data now g (force && negb stream)%bool v y Hd (da_reads _ Hd g v Hn)) as Hd'.
    destruct (refresh_gateway _ _ _ _ _) as [h r]. by destruct Hd'.
  - by eapply register_data.
  - apply data_hub; [done|]. unfold remember_flow_context. cbn zeta. destruct (_ =? u64_max); [done|]. destruct (remember_context _ _ _ _ _ _ _) as [s' o] eqn:Hm. cbn [fst].
    eapply (remember_context_ok g epoch issued) in Hm as (_ & Hb & _); [|by apply (gateway_flows epoch issued y g)|done]. exact (proj2 (put_frame (hub y) g s' Hb)).
  - apply data_hub; [done|]. unfold forget_flow_context. intros g'. destruct (gateways (hub y) !! g) as [s|] eqn:Hs; [|done]. apply put_frame. unfold gateway_state. by rewrite Hs.
  - destruct (current_bundle _ _); [|done]. apply data_hub; [done|]. exact (proj2 (queue_hub_frame now _ expected (draw (hub y) 1))).
  - by eapply conn_step_data.
Qed.

Lemma sys_run_data ts issued y : sys_ok epoch issued y → data_ok y → next_session_id (hub y) + Z.of_nat (length ts) ≤ u64_max → data_ok (sys_run ts y).
Proof.
  revert issued y. induction ts as [|t ts IH]; intros issued y Hok Hd Hn; [done|]. cbn in Hn.
  destruct (sys_step_ok epoch issued t y Hok ltac:(lia)) as (issued1 & _ & Hok1). pose proof (so_next _ _ _ Hok). destruct (sys_step_next t y) as [Hstep|]; [|lia].
  apply (IH issued1); [done|by eapply sys_step_data|lia].
Qed.

Lemma sys_start_data os : data_ok (sys_start epoch os).
Proof.
  split; cbn; try done.
  - apply empty_database_ok.
  - apply (start_rows os).
  - by intros g v Hv%elem_of_nil.
Qed.

Lemma run_data os ts : Z.of_nat (length ts) < u64_max → data_ok (sys_run ts (sys_start epoch os)).
Proof. intros Hn. apply (sys_run_data ts ∅); [apply sys_start_ok|apply sys_start_data|cbn; lia]. Qed.

(** C16: What the gateways are told is what is stored: at any time, a snapshot that has
    been sent on a stream, or is published, has at most the gateway's current
    revision, and if it has that revision the snapshot holds exactly the policies
    that are stored for the gateway. *)
Theorem snapshots_truthful os ts : let y := sys_run ts (sys_start epoch os) in let d := db (service (world y)) in Z.of_nat (length ts) < u64_max →
  ∀ g f, (∃ i c, conns y !! i = Some c ∧ as_gateway_id (c_session c) = g ∧ PolicySnapshot f ∈ c_wire c) ∨ (∃ b, current_bundle g (hub y) = Some b ∧ frame b = PolicySnapshot f) →
  snap_config_revision f ≤ revision_of g d ∧ (snap_config_revision f = revision_of g d → ∀ e, e ∈ policies f ↔ is_stored g d e).
Proof.
  intros y d Hn g f Hf. pose proof (run_data os ts Hn) as Hd. assert (truthful g d f) as [Hr Hp]; [|split; [lia|done]].
  destruct Hf as [(i & c & Hc & <- & Hin)|(b & Hb & Hf)]; [by apply (ct_wire _ _ (da_conns _ Hd i c Hc))|]. destruct (da_bundles _ Hd g b Hb) as (f' & Hf' & Ht). by assert (f' = f) as -> by congruence.
Qed.

Context `{!ReportJsonLaws}.

(** C2: A policy that is shown as applied is applied, from the database to the gateway
    and back: the agent of its gateway is recorded as connected, a snapshot was
    sent to that gateway that has the gateway's current revision and exactly its
    stored policies, and the acknowledgement that the service accepted last
    from the gateway names that snapshot and reports the policy as applied,
    after any interleaving of the steps of one collector process that starts
    with an empty database.  The record of the connection is the stored flag: a
    disconnect whose write fails leaves it set. *)
Theorem shown_end_to_end os ts i p sv' : let y := sys_run ts (sys_start epoch os) in let d := db (service (world y)) in Z.of_nat (length ts) < u64_max →
  detail i (service (world y)) = (sv', Ok p) → execution_status (detail_policy p) = "applied" →
  ∃ r f a x, traffic_policies d !! i = Some r ∧ let g := row_gateway_id r in dep_agent_connected (row_of g d) = true ∧
    (∃ j c, conns y !! j = Some c ∧ as_gateway_id (c_session c) = g ∧ PolicySnapshot f ∈ c_wire c) ∧
    snap_config_revision f = revision_of g d ∧ (∀ e, e ∈ policies f ↔ is_stored g d e) ∧
    acks (world y) !! g = Some a ∧ names a f ∧ x ∈ a_results a ∧ result_policy_id x = i ∧ status x = Applied.
Proof.
  intros y d Hn Hs Happ. pose proof (run_data os ts Hn) as Hd. destruct (shown_applied _ _ _ _ (da_db _ Hd) (da_rows _ Hd) Hs Happ) as (r & a & x & Hr & Hcon & Ha & Hrev & Hx & Hi & Hst).
  destruct (da_acks _ Hd _ a Ha) as (f & j & c & Hc & Hg & Hin & Hna). pose proof (ct_wire _ _ (da_conns _ Hd j c Hc) f Hin) as [Hle Heq]. rewrite Hg in Hle, Heq.
  assert (snap_config_revision f = revision_of (row_gateway_id r) d) as Hcur.
  { destruct Hna as (_ & Hra & _). rewrite Hra in Hrev. fold y d in Hle, Hrev. unfold to_i64 in Hrev. lia. }
  exists r, f, a, x. split; [done|]. cbn zeta. split_and!; try done; [by exists j, c|by apply Heq].
Qed.
End applied.

(** ** Flow decisions *)

(** Deciding the flows of a batch is a sequence of steps of the system, between which
    the other tasks may run. *)
Section decisions.
Context `{MapOrder} `{!MapOrderLaw} `{Uuids} `{PolicyCodec} `{Calendar} `{ReportJson} `{SpecJson}.

Definition is_flow_step (t : Step) : bool := match t with SRemember _ _ _ _ _ _ | SForget _ _ _ | SQueue _ _ _ => true | _ => false end.

(** From [y], flow steps lead to the hub [h], in which [g] still has a snapshot. *)
Definition decides (g : string) (y : System) (h : PolicyHub) : Prop :=
  ∃ ts, forallb is_flow_step ts = true ∧ set_hub h y = sys_run ts y ∧ current_bundle g h ≠ None.

Lemma decides_refl g y : current_bundle g (hub y) ≠ None → decides g y (hub y).
Proof. intros Hb. exists []. by destruct y. Qed.

Lemma decides_step g y h t h' : decides g y h → is_flow_step t = true → sys_step (set_hub h y) t = set_hub h' y → current_bundle g h' = current_bundle g h → decides g y h'.
Proof.
  intros (ts & Hts & Hrun & Hb) Ht Hstep Hb'. exists (ts ++ [t]). split_and!; [by rewrite forallb_app, Hts; cbn; rewrite Ht| |by rewrite Hb'].
  unfold sys_run. rewrite foldl_app. cbn. fold (sys_run ts y). by rewrite <- Hrun.
Qed.

Lemma decides_forget g y h boot flow : decides g y h → decides g y (forget_flow_context g boot flow h).
Proof.
  intros Hd. apply (decides_step g y h (SForget g boot flow)); try done. unfold forget_flow_context. destruct (gateways h !! g) as [s|] eqn:Hs; [|done].
  apply put_frame. unfold gateway_state. by rewrite Hs.
Qed.

Lemma decides_revoke g y h boot epoch revision flow now : decides g y h → decides g y (fst (revoke_flow_if_active g boot epoch revision flow now h)).
Proof.
  intros Hd. unfold revoke_flow_if_active. cbn zeta. destruct (negb _); [done|]. set (m := mkFlowCommand POLICY_WIRE_VERSION g boot epoch revision EmptyString flow Revoke None [] (i64_saturating_add now 30000) now).
  assert (revoke_command g boot epoch revision (uuid (drawn h)) flow now = FlowCommand (with_command_id (uuid (drawn h)) m)) as -> by done. unfold queue_flow_command.
  pose proof (queue_hub_frame now (FlowCommand (with_command_id (uuid (drawn h)) m)) None (draw h 1)) as [_ Hb].
  destruct (queue_flow_command_inner _ _ _ _) as [h' r] eqn:Hq. cbn [fst] in *. apply (decides_step g y h (SQueue now m None)); [done|done| |by rewrite Hb].
  destruct Hd as (ts & _ & _ & Hc). cbn [sys_step hub set_hub]. change (fc_gateway_id m) with g. destruct (current_bundle g h); [|done]. by rewrite Hq.
Qed.

Lemma remember_bundle now n boot flow proto r s : bundle (fst (remember_context now n boot flow proto r s)) = bundle s.
Proof.
  unfold remember_context. cbn zeta. destruct (other_boot (session_boot_id s) boot); [done|]. fold (switch_boot boot s). set (s1 := set_session_boot _ _).
  assert (bundle s1 = bundle s) as <- by (subst s1; unfold switch_boot; by destruct (other_boot _ _)). clearbody s1. repeat (destruct (_ && _)%bool); done.
Qed.

Lemma decides_remember g y h now boot flow proto r : decides g y h → req_gateway_id r = g → decides g y (fst (remember_flow_context now g boot flow proto r h)).
Proof.
  intros Hd Hr. apply (decides_step g y h (SRemember now g boot flow proto r)); [done|done|by destruct r; cbn in Hr; subst|].
  unfold remember_flow_context. cbn zeta. destruct (_ =? u64_max); [done|]. change (gateway_state (mkHub _ _ _ (gateways h) _ _) g) with (gateway_state h g).
  pose proof (remember_bundle now (next_flow_context_generation h) boot flow proto r (gateway_state h g)) as Hb. destruct (remember_context _ _ _ _ _ _ _) as [s o]. cbn [fst] in *.
  exact (proj2 (put_frame h g s Hb) g).
Qed.

Lemma decides_queue g y h now c n : decides g y h → fc_gateway_id c = g → decides g y (fst (queue_flow_command_for_context now (FlowCommand (with_command_id (uuid (drawn h)) c)) n (draw h 1))).
Proof.
  intros Hd Hc. unfold queue_flow_command_for_context. pose proof (queue_hub_frame now (FlowCommand (with_command_id (uuid (drawn h)) c)) (Some n) (draw h 1)) as [_ Hb].
  destruct (queue_flow_command_inner _ _ _ _) as [h' r] eqn:Hq. cbn [fst] in *. apply (decides_step g y h (SQueue now c (Some n))); [done|done| |by rewrite Hb].
  destruct Hd as (ts & _ & _ & Hcur). cbn [sys_step hub set_hub]. rewrite Hc. destruct (current_bundle g h); [|done]. by rewrite Hq.
Qed.

Lemma decided_gateway now b f block limit boot r d c : decided_command now b f block limit boot r d = Some c → fc_gateway_id c = req_gateway_id r.
Proof.
  unfold decided_command. destruct (flow_command_decision _) as [v ids]. destruct (if (_ && _)%bool then v else None); [|done]. cbn [mbind option_bind]. destruct (flow_ttl_ms _); [|done]. cbn [mbind option_bind].
  destruct (flow_verdict_expiry _ _ _ _); [|done]. cbn [mbind option_bind]. by intros [= <-].
Qed.

Lemma decide_flow_steps now b f caps g boot d att y h : decides g y h → decides g y (decide_flow now b f caps g boot d att h).
Proof.
  intros Hd. unfold decide_flow. cbn zeta. destruct (str_is_empty _); [done|]. destruct (_ && _)%bool; [done|].
  destruct (canonical_mac _) as [mac|]; [|destruct (_ || _)%bool; [by apply decides_revoke, decides_forget|by apply decides_forget]].
  destruct (_ || _)%bool; [by apply decides_revoke, decides_forget|]. destruct att as [a|]; [|done]. set (r := mkRequest g mac _ _ _ _ now).
  pose proof (decides_remember g y h now boot (d_policy_flow_id d) (d_protocol d) r Hd eq_refl) as Hm. destruct (remember_flow_context _ _ _ _ _ _ _) as [h1 o]. cbn [fst] in Hm.
  destruct (decided_command _ _ _ _ _ _ _ _) as [c|] eqn:Hc; [|by apply decides_revoke]. apply decided_gateway in Hc. destruct o as [n|]; [|done]. by apply decides_queue.
Qed.

Lemma flow_decisions_are_steps now batch atts y : current_bundle (b_gateway_id batch) (hub y) ≠ None →
  decides (b_gateway_id batch) y (queue_policy_flow_decisions now batch atts (hub y)).
Proof.
  intros Hb. pose proof (decides_refl _ _ Hb) as Hd. unfold queue_policy_flow_decisions. destruct (current_bundle _ _) as [b|]; [|done]. destruct (frame b); try done.
  set (caps := hub_flow_capabilities _ _). clearbody caps. revert atts Hd. generalize (hub y). induction (flows batch) as [|d ds IH]; intros h atts Hd; [done|]. cbn [decide_flows].
  apply IH. by apply decide_flow_steps.
Qed.
End decisions.

Module Example.
Definition shown : list Step := Push.Example.connect ++ [Push.Example.conn (EMessage [1]); Push.Example.conn EAlive; Push.Example.conn (EMessage [2])].
End Example.

Lemma snapshots_truthful_witness : ∃ c f, conns (Push.Example.run Push.Example.connect) !! 1 = Some c ∧ c_wire c = [PolicySnapshot f] ∧
  snap_config_revision f = 1 ∧ ∀ e, e ∈ policies f ↔ @is_stored Sessions.Example.one_spec "gw" (db (service (world (Push.Example.run Push.Example.connect)))) e.
Proof.
  do 2 eexists. split; [vm_compute; reflexivity|]. split; [cbn [c_wire]; reflexivity|]. split; [reflexivity|].
  eapply (@snapshots_truthful Push.Example.ordered Push.Example.uuids Push.Example.codec Compiler.Example.utc Sessions.Example.one_result Sessions.Example.one_spec
    Sessions.Example.one_spec_laws PolicyWire.Example.epoch Push.Example.ordered_law Push.Example.uuids_law [] Push.Example.connect ltac:(done)).
  - left. exists 1. eexists. split; [vm_compute; reflexivity|]. split; [reflexivity|]. apply list_elem_of_singleton. reflexivity.
  - vm_compute. reflexivity.
Defined.

Lemma shown_end_to_end_witness : let y := Push.Example.run Example.shown in ∃ sv p r f a,
  @detail Sessions.Example.one_result Sessions.Example.one_spec "p1" (service (world y)) = (sv, Ok p) ∧ execution_status (detail_policy p) = "applied" ∧
  traffic_policies (db (service (world y))) !! "p1" = Some r ∧ acks (world y) !! row_gateway_id r = Some a ∧ names a f.
Proof.
  edestruct (@shown_end_to_end Push.Example.ordered Push.Example.uuids Push.Example.codec Compiler.Example.utc Sessions.Example.one_result Sessions.Example.one_spec
    Sessions.Example.one_spec_laws PolicyWire.Example.epoch Push.Example.ordered_law Push.Example.uuids_law Sessions.Example.one_result_laws [] Example.shown "p1")
    as (r & f & a & x & Hr & _ & _ & _ & _ & Ha & Hna & _); [done|vm_compute; reflexivity|vm_compute; reflexivity|].
  do 2 eexists. exists r, f, a. split; [vm_compute; reflexivity|]. split; [vm_compute; reflexivity|]. exact (conj Hr (conj Ha Hna)).
Defined.
