(* ===== verification/Names.v ===== *)
(** What the agent learns about names and addresses from the network: captured DNS
    responses (src/crates/agent/src/dns_event.rs, dns_parser.rs, dns_observation.rs),
    DHCP packets (dhcp_event.rs, dhcp.rs) and the lease file of the DHCP server. The
    DNS message format is that of a library and a parameter; DHCP packets are bytes
    off the network, whose every index is checked here. *)

From S2P Require Import Prelude Topology Net Identity ClassIds Flow Sni.

#[export] Instance MacAddress_countable : Countable MacAddress := inj_countable' octets mkMac (λ m, match m with mkMac _ => eq_refl end).

(** * DNS *)

(** ** Capture events *)

Definition DNS_MAX_PAYLOAD_LENGTH : Z := 512.
Definition DNS_EVENT_SIZE : nat := 552.

Record DnsEvent := mkDnsEvent {
  dns_timestamp_ns : Z;
  dns_ifindex : Z;
  dns_packet_length : Z;
  client_address : IpAddr;
  truncated : bool;
  dns_payload : list Z;
}.

Inductive DnsEventDecodeError := DnsEventSize (size : Z) | DnsPayloadLength (length : Z) | DnsIpVersion (version : Z).

Definition dns_event_try_from (big_endian : bool) (bytes : list Z) : result DnsEventDecodeError DnsEvent :=
  if negb (length bytes =? DNS_EVENT_SIZE)%nat then Err (DnsEventSize (zlen bytes))
  else
    let payload_length := from_ne_bytes big_endian (slice 16 18 bytes) in
    if DNS_MAX_PAYLOAD_LENGTH <? payload_length then Err (DnsPayloadLength payload_length)
    else
      let version := nth 18 bytes 0 in
      address ← (if version =? 4 then Ok (V4 (from_be_bytes (slice 20 24 bytes)))
                 else if version =? 6 then Ok (V6 (from_be_bytes (slice 20 36 bytes)))
                 else Err (DnsIpVersion version));
      Ok (mkDnsEvent (from_ne_bytes big_endian (slice 0 8 bytes)) (from_ne_bytes big_endian (slice 8 12 bytes))
            (from_ne_bytes big_endian (slice 12 16 bytes)) address (negb (nth 19 bytes 0 =? 0))
            (slice 36 (36 + Z.to_nat payload_length) bytes)).

(** ** Responses *)

Inductive DnsResponseCode := NoError | NxDomain | OtherCode (code : Z).
Inductive DnsAnswerData := DnsA (address : Z) | DnsAaaa (address : Z) | DnsCname (target : string).
Record DnsAnswer := mkAnswer { answer_name : string; answer_ttl : Z; data : DnsAnswerData }.
Record DnsResponse := mkResponse { qname : string; rcode : DnsResponseCode; answers : list DnsAnswer }.
Inductive DnsParseError := InvalidMessage (detail : string) | MissingQuestion.

(** The parts of a decoded message that are read; names as [Name::to_utf8] gives
    them, the response code as its number. *)
Inductive RData := RA (address : Z) | RAAAA (address : Z) | RCNAME (name : string) | ROther.
Record Message := mkMessage { queries : list string; response_code_value : Z; records : list (string * Z * RData) }.
Class DnsCodec := { message_from_vec : list Z → result string Message }.

Definition response_code (code : Z) : DnsResponseCode := if code =? 0 then NoError else if code =? 3 then NxDomain else OtherCode code.

(** [name.to_utf8().trim_end_matches('.').to_ascii_lowercase()]. *)
Definition display_name (name : string) : string := to_ascii_lowercase (bytes_str (trim_end_dots (str_bytes name))).

Definition answer_of (r : string * Z * RData) : option DnsAnswer :=
  let '(name, ttl, rdata) := r in
  d ← match rdata with
      | RA a => Some (DnsA a)
      | RAAAA a => Some (DnsAaaa a)
      | RCNAME n => Some (DnsCname (display_name n))
      | ROther => None
      end;
  Some (mkAnswer (display_name name) ttl d).

Definition parse_response `{DnsCodec} (payload : list Z) : result DnsParseError DnsResponse :=
  message ← map_err InvalidMessage (message_from_vec payload);
  q ← ok_or (display_name <$> head (queries message)) MissingQuestion;
  Ok (mkResponse q (response_code (response_code_value message)) (omap answer_of (records message))).

(** ** Observations *)

Inductive DnsRecordType := RecordA | RecordAaaa.
Record DnsObservation := mkDnsObservation {
  obs_client_addr : IpAddr;
  domain : string;
  answer_ip : IpAddr;
  record_type : DnsRecordType;
  obs_ttl : Z;
  observed_at : Z;
}.

(** The first CNAME answer for [name]. *)
Definition cname_of (r : DnsResponse) (name : string) : option (string * Z) :=
  head (omap (λ a, if String.eqb (answer_name a) name then match data a with DnsCname t => Some (t, answer_ttl a) | _ => None end else None) (answers r)).

Fixpoint follow (turns : nat) (r : DnsResponse) (path : list (string * Z)) : list (string * Z) :=
  match turns with
  | O => path
  | S turns =>
    match last path ≫= λ '(name, ttl), '(target, t) ← cname_of r name; Some (target, Z.min ttl t) with
    | Some (target, ttl) => if existsb (λ p, String.eqb (fst p) target) path then path else follow turns r (path ++ [(target, ttl)])
    | None => path
    end
  end.
Definition cname_path (r : DnsResponse) : list (string * Z) := follow (length (answers r)) r [(qname r, u32_max)].

(** The address of an answer. *)
Definition address_of (a : DnsAnswer) : option (IpAddr * DnsRecordType) :=
  match data a with DnsA v => Some (V4 v, RecordA) | DnsAaaa v => Some (V6 v, RecordAaaa) | DnsCname _ => None end.

Definition observe (client : IpAddr) (r : DnsResponse) (path : list (string * Z)) (at_ : Z) (a : DnsAnswer) : option DnsObservation :=
  cname_ttl ← snd <$> List.find (λ p, String.eqb (fst p) (answer_name a)) path;
  '(ip, ty) ← address_of a;
  Some (mkDnsObservation client (qname r) ip ty (Z.min (answer_ttl a) cname_ttl) at_).

Definition observations (client : IpAddr) (r : DnsResponse) (at_ : Z) : list DnsObservation :=
  match rcode r with NoError => omap (observe client r (cname_path r) at_) (answers r) | _ => [] end.

(** * DHCP *)

Definition DHCP_MAX_PAYLOAD_LENGTH : Z := 576.
Definition DHCP_EVENT_SIZE : nat := 600.

Record DhcpEvent := mkDhcpEvent { dhcp_packet_length : Z; dhcp_payload : list Z }.
Inductive DhcpEventDecodeError := DhcpEventSize (size : Z) | DhcpPayloadLength (length : Z).

Definition dhcp_event_try_from (big_endian : bool) (bytes : list Z) : result DhcpEventDecodeError DhcpEvent :=
  if negb (length bytes =? DHCP_EVENT_SIZE)%nat then Err (DhcpEventSize (zlen bytes))
  else
    let payload_length := from_ne_bytes big_endian (slice 16 18 bytes) in
    if DHCP_MAX_PAYLOAD_LENGTH <? payload_length then Err (DhcpPayloadLength payload_length)
    else Ok (mkDhcpEvent (from_ne_bytes big_endian (slice 12 16 bytes)) (slice 20 (20 + Z.to_nat payload_length) bytes)).

(** ** Packets *)

Record DhcpMetadata := mkMetadata { parameter_request_list : list Z; vendor_class : option string; client_identifier : list Z }.
Record DhcpObservation := mkDhcpObservation { dhcp_mac : MacAddress; dhcp_ip : option IpAddr; hostname : option string; metadata : DhcpMetadata }.

Inductive DhcpPacketParseError :=
  | PacketTruncated
  | UnsupportedHardwareLength (n : Z)
  | MissingMagicCookie
  | InvalidMac (e : MacAddressParseError).

(** Why a packet gives no observation: it is refused, or the code would stop at an
    index out of bounds, or would not end. *)
Inductive Fault := RefusedPacket (e : DhcpPacketParseError) | PacketOutOfBounds | PacketUnfinished.

Definition byte_at (bs : list Z) (i : nat) : result Fault Z := ok_or (bs !! i) PacketOutOfBounds.
Definition bytes_at (bs : list Z) (a b : nat) : result Fault (list Z) :=
  if ((a <=? b)%nat && (b <=? length bs)%nat)%bool then Ok (slice a b bs) else Err PacketOutOfBounds.

Definition ipv4_at (payload : list Z) (offset : nat) : option IpAddr :=
  if (offset + 4 <=? length payload)%nat then
    let b := slice offset (offset + 4) payload in
    if bool_decide (b = [0; 0; 0; 0]) then None else Some (V4 (from_be_bytes b))
  else None.

Definition ascii_option (value : list Z) : option string :=
  s ← str_trim <$> from_utf8 value; if str_is_empty s then None else Some s.

Record DhcpOptions := mkOptions {
  o_hostname : option string;
  o_requested_ip : option IpAddr;
  o_parameter_request_list : list Z;
  o_vendor_class : option string;
  o_client_identifier : list Z;
}.
Definition no_options : DhcpOptions := mkOptions None None [] None [].

(** The arms of the match on the option. *)
Definition take_option (option : Z) (value : list Z) (o : DhcpOptions) : DhcpOptions :=
  let '(mkOptions h r p v c) := o in
  if option =? 12 then mkOptions (ascii_option value) r p v c
  else if ((option =? 50) && (zlen value =? 4))%bool then mkOptions h (Some (V4 (from_be_bytes value))) p v c
  else if option =? 55 then mkOptions h r value v c
  else if option =? 60 then mkOptions h r p (ascii_option value) c
  else if option =? 61 then mkOptions h r p v value
  else o.

Fixpoint read_options (fuel : nat) (payload : list Z) (index : nat) (o : DhcpOptions) : result Fault DhcpOptions :=
  match fuel with
  | O => Err PacketUnfinished
  | S fuel =>
    if (index <? length payload)%nat then
      option ← byte_at payload index;
      let index := S index in
      if option =? 0 then read_options fuel payload index o
      else if option =? 255 then Ok o
      else if (length payload <=? index)%nat then Ok o
      else
        l ← byte_at payload index;
        let l := Z.to_nat l in
        let index := S index in
        if (length payload <? index + l)%nat then Ok o
        else
          value ← bytes_at payload index (index + l);
          read_options fuel payload (index + l) (take_option option value o)
    else Ok o
  end.

Definition MAGIC_COOKIE : list Z := [99; 130; 83; 99].

Definition parse_packet (payload : list Z) : result Fault DhcpObservation :=
  if zlen payload <? 240 then Err (RefusedPacket PacketTruncated)
  else
    hlen ← byte_at payload 2;
    if negb (hlen =? 6) then Err (RefusedPacket (UnsupportedHardwareLength hlen))
    else
      address ← bytes_at payload 28 34;
      mac ← map_err (RefusedPacket ∘ InvalidMac) (from_bytes address);
      cookie ← bytes_at payload 236 240;
      if negb (bool_decide (cookie = MAGIC_COOKIE)) then Err (RefusedPacket MissingMagicCookie)
      else
        o ← read_options (S (length payload)) payload 240 no_options;
        let ip := match ipv4_at payload 16 with
                  | Some a => Some a
                  | None => match ipv4_at payload 12 with Some a => Some a | None => o_requested_ip o end
                  end in
        Ok (mkDhcpObservation mac ip (o_hostname o) (mkMetadata (o_parameter_request_list o) (o_vendor_class o) (o_client_identifier o))).

(** ** The lease file *)

Record DhcpLease := mkDhcpLease {
  expiry_unix_seconds : Z;
  lease_mac : MacAddress;
  lease_ip : IpAddr;
  lease_hostname : option string;
  lease_client_identifier : option (list Z);
}.

Inductive DhcpLeaseParseError :=
  | FieldCount (line count : Z)
  | Expiry (line : Z) (value : string)
  | LeaseMac (line : Z) (source : MacAddressParseError)
  | LeaseIp (line : Z) (value : string).

(** [split_inclusive('\n')], and [str::lines] of that. *)
Fixpoint inclusive_lines (bs : list Z) : list (list Z) :=
  match bs with
  | [] => []
  | b :: bs => if b =? 10 then [b] :: inclusive_lines bs else match inclusive_lines bs with l :: ls => (b :: l) :: ls | [] => [[b]] end
  end.
Definition strip_last (c : Z) (bs : list Z) : option (list Z) := match reverse bs with b :: r => if b =? c then Some (reverse r) else None | [] => None end.
Definition line_text (l : list Z) : list Z := match strip_last 10 l with Some l => default l (strip_last 13 l) | None => l end.
Definition str_lines (s : string) : list string := bytes_str ∘ line_text <$> inclusive_lines (str_bytes s).

(** [split_whitespace]: the longest runs of other characters. *)
Fixpoint words (cs : list (Z * list Z)) : list (list (Z * list Z)) :=
  match cs with
  | [] => []
  | c :: rest =>
    if is_whitespace (fst c) then words rest
    else
      let ws := words rest in
      match rest, ws with
      | d :: _, w :: ws' => if is_whitespace (fst d) then [c] :: ws else (c :: w) :: ws'
      | _, _ => [c] :: ws
      end
  end.
Definition split_whitespace (s : string) : list string := (λ w, bytes_str (concat (snd <$> w))) <$> words (utf8_split (str_bytes s)).

Definition parse_client_identifier (value : string) : list Z :=
  if existsb (λ b, b =? 58) (str_bytes value)
  then default (str_bytes value) (mapM u8_from_hex (str_split 58 value)) else str_bytes value.

Definition parse_lease (line : string) (line_number : Z) : result DhcpLeaseParseError DhcpLease :=
  match split_whitespace line with
  | expiry :: mac :: ip :: name :: rest =>
    e ← ok_or (from_dec u64_max expiry) (Expiry line_number expiry);
    m ← map_err (LeaseMac line_number) (mac_from_str mac);
    a ← ok_or (parse_ip ip) (LeaseIp line_number ip);
    Ok (mkDhcpLease e m a (if String.eqb name "*" then None else Some name)
          (v ← head rest; if String.eqb v "*" then None else Some (parse_client_identifier v)))
  | fields => Err (FieldCount line_number (zlen fields))
  end.

Definition parse_leases (contents : string) : result DhcpLeaseParseError (list DhcpLease) :=
  mapR (λ p, parse_lease (snd p) (fst p)) (List.filter (λ p, negb (is_blank (snd p))) (imap (λ i l, (Z.of_nat i + 1, l)) (str_lines contents))).

(** * The names of an address *)

(** [name] is an alias that the response gives for the queried name, with a time to
    live of at most [ttl]. *)
Inductive aliased (r : DnsResponse) : string → Z → Prop :=
  | aliased_query : aliased r (qname r) u32_max
  | aliased_step name ttl target t : aliased r name ttl → cname_of r name = Some (target, t) → aliased r target (Z.min ttl t).

Section path.
Context (r : DnsResponse).

Record path_ok (path : list (string * Z)) : Prop := {
  po_head : path !! 0%nat = Some (qname r, u32_max);
  po_nodup : NoDup (fst <$> path);
  po_link i n t n' t' : path !! i = Some (n, t) → path !! S i = Some (n', t') → ∃ c, cname_of r n = Some (n', c) ∧ t' = Z.min t c;
}.

(** The last alias has none that is new. *)
Definition closed (path : list (string * Z)) : Prop := ∀ n t target c, last path = Some (n, t) → cname_of r n = Some (target, c) → target ∈ fst <$> path.

Lemma cname_of_name n c : cname_of r n = Some c → n ∈ answer_name <$> answers r.
Proof.
  unfold cname_of. intros Hh%head_Some_elem_of. apply list_elem_of_omap in Hh as (a & Ha & Hc). destruct (String.eqb_spec (answer_name a) n) as [<-|]; [|done].
  apply list_elem_of_fmap. by exists a.
Qed.

Lemma path_snoc path n t target c : path_ok path → last path = Some (n, t) → cname_of r n = Some (target, c) → target ∉ fst <$> path →
  path_ok (path ++ [(target, Z.min t c)]).
Proof.
  intros [Hh Hn Hl] Hlast Hc Hnew. assert (length path ≠ 0%nat) as Hlen by (by destruct path). split.
  - rewrite lookup_app_l by lia. done.
  - rewrite fmap_app. apply NoDup_app. split_and!; [done|intros x Hx ->%list_elem_of_singleton; done|apply NoDup_singleton].
  - intros i m u n' t' Hi Hi'. rewrite lookup_app_Some in Hi'. destruct Hi' as [Hi'|[Hge Hi']].
    + rewrite lookup_app_l in Hi by (apply lookup_lt_Some in Hi'; lia). by eapply Hl.
    + apply list_lookup_singleton_Some in Hi' as [Hz [= <- <-]]. rewrite lookup_app_l in Hi by lia. rewrite last_lookup in Hlast.
      replace (Init.Nat.pred (length path)) with i in Hlast by lia. rewrite Hi in Hlast. injection Hlast as -> ->. by exists c.
Qed.

Lemma follow_spec turns path : path_ok path → path_ok (follow turns r path) ∧ (closed (follow turns r path) ∨ length (follow turns r path) = (length path + turns)%nat).
Proof.
  revert path. induction turns as [|k IH]; intros path Hok; cbn [follow]; [split; [done|right; lia]|].
  destruct (last path) as [[n t]|] eqn:Hlast; cbn [mbind option_bind]; [|split; [done|left; intros ? ? ? ?; by rewrite Hlast]].
  destruct (cname_of r n) as [[target c]|] eqn:Hc; cbn [mbind option_bind]; [|split; [done|left; intros n' t' ? ?; rewrite Hlast; intros [= <- <-]; by rewrite Hc]].
  destruct (existsb _ path) eqn:He.
  - split; [done|]. left. intros n' t' target' c'. rewrite Hlast. intros [= <- <-]. rewrite Hc. intros [= <- <-]. apply existsb_exists in He as (p & Hp%list_elem_of_In & Heq%String.eqb_eq).
    apply list_elem_of_fmap. by exists p.
  - assert (target ∉ fst <$> path) as Hnew.
    { intros (p & -> & Hp)%list_elem_of_fmap. apply not_true_iff_false in He. apply He, existsb_exists. exists p. split; [by apply list_elem_of_In|apply String.eqb_refl]. }
    destruct (IH _ (path_snoc path n t target c Hok Hlast Hc Hnew)) as [Hok' Hcl]. split; [done|]. destruct Hcl as [?|Hlen]; [by left|right]. rewrite Hlen, length_app. cbn. lia.
Qed.

(** As many turns as there are answers are enough. *)
Lemma cname_path_ok : path_ok (cname_path r) ∧ closed (cname_path r).
Proof.
  unfold cname_path. assert (path_ok [(qname r, u32_max)]) as Hstart by (split; [done|apply NoDup_singleton|intros i n t n' t' Hi Hi'; by destruct i]).
  destruct (follow_spec (length (answers r)) _ Hstart) as [Hok Hcl]. set (path := follow _ _ _) in *. split; [done|]. destruct Hcl as [?|Hlen]; [done|]. cbn in Hlen.
  intros n t target c Hlast Hc. exfalso. assert (∀ x, x ∈ fst <$> path → x ∈ answer_name <$> answers r) as Hsub.
  { intros x ([m u] & -> & Hm)%list_elem_of_fmap. apply list_elem_of_lookup in Hm as [i Hi]. destruct (path !! S i) as [[n' t']|] eqn:Hi'.
    - destruct (po_link _ Hok _ _ _ _ _ Hi Hi') as (c' & Hc' & _). by eapply cname_of_name.
    - apply lookup_ge_None in Hi'. apply lookup_lt_Some in Hi as Hlt. rewrite last_lookup in Hlast. replace (Init.Nat.pred (length path)) with i in Hlast by lia.
      rewrite Hi in Hlast. injection Hlast as -> ->. by eapply cname_of_name. }
  pose proof (submseteq_length _ _ (NoDup_submseteq _ _ (po_nodup _ Hok) Hsub)) as Hle. rewrite !length_fmap in Hle. lia.
Qed.

Lemma path_decreasing path i j n t n' t' : path_ok path → (i ≤ j)%nat → path !! i = Some (n, t) → path !! j = Some (n', t') → t' ≤ t.
Proof.
  intros Hok Hij Hi. revert n' t'. induction Hij as [|j Hij IH]; intros n' t' Hj; [rewrite Hi in Hj; injection Hj as <- <-; lia|].
  destruct (lookup_lt_is_Some_2 path j) as [[m u] Hm]; [apply lookup_lt_Some in Hj; lia|]. specialize (IH m u Hm). destruct (po_link _ Hok _ _ _ _ _ Hm Hj) as (c & _ & ->). lia.
Qed.

Lemma path_sound path i n t : path_ok path → path !! i = Some (n, t) → aliased r n t.
Proof.
  intros Hok. revert n t. induction i as [|i IH]; intros n t Hi; [rewrite (po_head _ Hok) in Hi; injection Hi as <- <-; constructor|].
  destruct (lookup_lt_is_Some_2 path i) as [[m u] Hm]; [apply lookup_lt_Some in Hi; lia|]. destruct (po_link _ Hok _ _ _ _ _ Hm Hi) as (c & Hc & ->). by eapply aliased_step; [apply IH|].
Qed.

Lemma path_complete path n t : path_ok path → closed path → aliased r n t → ∃ i t0, path !! i = Some (n, t0) ∧ t ≤ t0.
Proof.
  intros Hok Hcl. induction 1 as [|n t target c _ (i & t0 & Hi & Hle) Hc]; [exists 0%nat, u32_max; split; [apply (po_head _ Hok)|lia]|].
  destruct (path !! S i) as [[n' t']|] eqn:Hi'.
  - destruct (po_link _ Hok _ _ _ _ _ Hi Hi') as (c' & Hc' & ->). rewrite Hc in Hc'. injection Hc' as <- <-. exists (S i), (Z.min t0 c). split; [done|lia].
  - apply lookup_ge_None in Hi'. apply lookup_lt_Some in Hi as Hlt. assert (last path = Some (n, t0)) as Hlast by (rewrite last_lookup; by replace (Init.Nat.pred (length path)) with i by lia).
    pose proof (Hcl _ _ _ _ Hlast Hc) as ([x t1] & -> & Hx)%list_elem_of_fmap. apply list_elem_of_lookup in Hx as [j Hj]. exists j, t1. split; [done|].
    assert (t0 ≤ t1) by (apply (path_decreasing path j i x t1 n t0 Hok); [apply lookup_lt_Some in Hj; lia|done|done]). lia.
Qed.

Lemma find_path (path : list (string * Z)) n t : NoDup (fst <$> path) → (n, t) ∈ path → List.find (λ p, String.eqb (fst p) n) path = Some (n, t).
Proof.
  induction path as [|[m u] path IH]; [by intros _ ?%elem_of_nil|]. cbn. intros [Hm Hnd]%NoDup_cons. destruct (String.eqb_spec m n) as [->|Hne].
  - intros [[= ->]|Hin]%elem_of_cons; [done|]. destruct Hm. apply list_elem_of_fmap. by exists (n, t).
  - intros [[= <- <-]|Hin]%elem_of_cons; [done|]. by apply IH.
Qed.

(** What is found of an answer. *)
Lemma find_cname n t : snd <$> List.find (λ p, String.eqb (fst p) n) (cname_path r) = Some t ↔ aliased r n t ∧ ∀ t', aliased r n t' → t' ≤ t.
Proof.
  destruct cname_path_ok as [Hok Hcl]. split.
  - intros ([n' t'] & Hf & ->)%fmap_Some. apply List.find_some in Hf as [Hin%list_elem_of_In Heq%String.eqb_eq]. cbn in Heq. subst n'. apply list_elem_of_lookup in Hin as [i Hi].
    split; [by eapply path_sound|]. intros u Hu. destruct (path_complete _ _ _ Hok Hcl Hu) as (j & t0 & Hj & Hle). cbn.
    assert ((n, t0) = (n, t')) as [= ->]; [|done]. apply list_elem_of_lookup_2 in Hi, Hj. apply (find_path _ _ _ (po_nodup _ Hok)) in Hi, Hj. congruence.
  - intros [Ha Hmax]. destruct (path_complete _ _ _ Hok Hcl Ha) as (i & t0 & Hi & Hle). apply path_sound in Hi as Ha0; [|done]. specialize (Hmax t0 Ha0).
    apply list_elem_of_lookup_2 in Hi. rewrite (find_path _ _ _ (po_nodup _ Hok) Hi). cbn. f_equal. lia.
Qed.
End path.

(** C38: The observations of a DNS response are exactly its addresses: each address
    answer whose name is the queried name or an alias of it, however long the chain
    of aliases and even if it runs in a circle, is recorded for the queried name
    with the least time to live along the chain, and nothing else is; a response
    with an error code gives none. *)
Theorem observations_exact client r at_ : (rcode r ≠ NoError → observations client r at_ = []) ∧
  (rcode r = NoError → ∀ o, o ∈ observations client r at_ ↔
    ∃ a ip ty t, a ∈ answers r ∧ address_of a = Some (ip, ty) ∧ (aliased r (answer_name a) t ∧ ∀ t', aliased r (answer_name a) t' → t' ≤ t) ∧
      o = mkDnsObservation client (qname r) ip ty (Z.min (answer_ttl a) t) at_).
Proof.
  unfold observations. split; [by destruct (rcode r)|]. intros -> o. rewrite list_elem_of_omap. unfold observe. split.
  - intros (a & Ha & Ho). apply bind_Some in Ho as (t & Ht%find_cname & Ho). apply bind_Some in Ho as ([ip ty] & Hip & [= <-]). by exists a, ip, ty, t.
  - intros (a & ip & ty & t & Ha & Hip & Ht%find_cname & ->). exists a. split; [done|]. by rewrite Ht; cbn; rewrite Hip.
Qed.

(** * DHCP packets *)

(** The options of a packet and their encoding. *)
Inductive Tlv := Pad | Opt (code : Z) (value : list Z).
Definition encode_tlv (t : Tlv) : list Z := match t with Pad => [0] | Opt c v => c :: zlen v :: v end.
Definition tlv_ok (t : Tlv) : Prop := match t with Pad => True | Opt c v => 1 ≤ c ≤ 254 ∧ zlen v ≤ 255 end.
Definition values (code : Z) (ts : list Tlv) : list (list Z) := omap (λ t, match t with Opt c v => if c =? code then Some v else None | Pad => None end) ts.
Definition take_tlv (o : DhcpOptions) (t : Tlv) : DhcpOptions := match t with Pad => o | Opt c v => take_option c v o end.

(** The options that were read: the last one of each kind counts. *)
Lemma taken_options ts : foldl take_tlv no_options ts =
  mkOptions (last (values 12 ts) ≫= ascii_option) (V4 ∘ from_be_bytes <$> last (filter (λ v, zlen v = 4) (values 50 ts))) (default [] (last (values 55 ts)))
    (last (values 60 ts) ≫= ascii_option) (default [] (last (values 61 ts))).
Proof.
  assert (∀ c t ts, values c (ts ++ [t]) = values c ts ++ values c [t]) as Hv by (intros; apply omap_app).
  induction ts as [|t ts IH] using rev_ind; [done|]. rewrite foldl_app. cbn [foldl]. rewrite IH, !Hv. destruct t as [|c v]; [cbn; by rewrite !app_nil_r|].
  cbn [take_tlv values omap list_omap]. unfold take_option. destruct (Z.eqb_spec c 12) as [->|]; [cbn; by rewrite !app_nil_r, last_snoc|].
  destruct (Z.eqb_spec c 50) as [->|].
  - cbn [andb]. change (50 =? 55) with false. change (50 =? 60) with false. change (50 =? 61) with false. cbn iota. rewrite !app_nil_r, filter_app.
    destruct (Z.eqb_spec (zlen v) 4) as [H4|H4].
    + rewrite filter_cons_True by done. rewrite filter_nil, last_snoc. done.
    + rewrite filter_cons_False by done. by rewrite filter_nil, app_nil_r.
  - cbn [andb]. destruct (Z.eqb_spec c 55) as [->|]; [cbn; by rewrite !app_nil_r, last_snoc|]. destruct (Z.eqb_spec c 60) as [->|]; [cbn; by rewrite !app_nil_r, last_snoc|].
    destruct (Z.eqb_spec c 61) as [->|]; [cbn; by rewrite !app_nil_r, last_snoc|]. by rewrite !app_nil_r.
Qed.

Lemma byte_at_mid pre b rest : byte_at (pre ++ b :: rest) (length pre) = Ok b.
Proof. unfold byte_at. by rewrite list_lookup_middle. Qed.

Lemma read_options_spec ts tail : Forall tlv_ok ts → tail = [] ∨ (∃ rest, tail = 255 :: rest) →
  ∀ fuel pre o, (length (concat (encode_tlv <$> ts)) + 1 < fuel)%nat →
  read_options fuel (pre ++ concat (encode_tlv <$> ts) ++ tail) (length pre) o = Ok (foldl take_tlv o ts).
Proof.
  intros Hts Htail. induction Hts as [|t ts Ht _ IH]; intros fuel pre o Hf; (destruct fuel as [|fuel]; [lia|]); cbn [fmap list_fmap concat foldl].
  - cbn [app read_options]. destruct Htail as [->|[rest ->]].
    + rewrite app_nil_r. by rewrite (proj2 (Nat.ltb_ge _ _)) by lia.
    + rewrite (proj2 (Nat.ltb_lt _ _)) by (rewrite length_app; cbn; lia). by rewrite byte_at_mid.
  - cbn [fmap list_fmap concat] in Hf. rewrite length_app in Hf. cbn [read_options]. destruct t as [|c v]; cbn [encode_tlv app length] in *.
    + rewrite (proj2 (Nat.ltb_lt _ _)) by (rewrite length_app; cbn; lia). rewrite byte_at_mid. cbn [mbind result_bind Z.eqb].
      specialize (IH fuel (pre ++ [0]) o ltac:(lia)). rewrite length_app in IH. cbn [length] in IH. rewrite <- app_assoc in IH. cbn [app] in IH. rewrite Nat.add_1_r in IH. exact IH.
    + destruct Ht as [Hc Hv]. rewrite <- (app_assoc v). set (rest := concat (encode_tlv <$> ts) ++ tail). pose proof (zlen_nonneg v).
      rewrite (proj2 (Nat.ltb_lt _ _)) by (rewrite length_app; cbn; lia). rewrite byte_at_mid. cbn [mbind result_bind]. rewrite (proj2 (Z.eqb_neq c 0)), (proj2 (Z.eqb_neq c 255)) by lia.
      assert (pre ++ c :: zlen v :: v ++ rest = (pre ++ [c]) ++ zlen v :: v ++ rest) as Hp by (by rewrite <- app_assoc). rewrite Hp.
      rewrite (proj2 (Nat.leb_gt _ _)) by (rewrite !length_app; cbn; lia). replace (S (length pre)) with (length (pre ++ [c])) by (rewrite length_app; cbn; lia).
      rewrite byte_at_mid. cbn [mbind result_bind]. replace (Z.to_nat (zlen v)) with (length v) by (unfold zlen; lia).
      assert ((pre ++ [c]) ++ zlen v :: v ++ rest = (pre ++ [c; zlen v]) ++ v ++ rest) as Hp' by (by rewrite <- !app_assoc). rewrite Hp'.
      replace (S (length (pre ++ [c]))) with (length (pre ++ [c; zlen v])) by (rewrite !length_app; cbn; lia).
      rewrite (proj2 (Nat.ltb_ge _ _)) by (rewrite !length_app; lia). unfold bytes_at. rewrite (proj2 (Nat.leb_le _ _)), (proj2 (Nat.leb_le _ _)) by (rewrite ?length_app; lia). cbn [andb mbind result_bind].
      rewrite slice_mid. specialize (IH fuel ((pre ++ [c; zlen v]) ++ v) (take_option c v o)). rewrite <- (app_assoc (pre ++ [c; zlen v])) in IH. fold rest in IH.
      rewrite (length_app (pre ++ [c; zlen v]) v) in IH. apply IH. lia.
Qed.

(** Reading the options of any packet ends within the packet. *)
Lemma read_options_total fuel payload i o : (length payload - i < fuel)%nat → ∃ o', read_options fuel payload i o = Ok o'.
Proof.
  revert i o. induction fuel as [|fuel IH]; intros i o Hf; [lia|]. cbn [read_options]. destruct (Nat.ltb_spec i (length payload)) as [Hi|]; [|by eexists].
  assert (∀ j, (j < length payload)%nat → ∃ b, byte_at payload j = Ok b) as Hb by (intros j [b Hj]%lookup_lt_is_Some; exists b; unfold byte_at; by rewrite Hj).
  destruct (Hb i Hi) as [b ->]. cbn [mbind result_bind]. destruct (b =? 0); [apply IH; lia|]. destruct (b =? 255); [by eexists|].
  destruct (Nat.leb_spec (length payload) (S i)) as [|Hl]; [by eexists|]. destruct (Hb (S i) Hl) as [l ->]. cbn [mbind result_bind].
  destruct (Nat.ltb_spec (length payload) (S (S i) + Z.to_nat l)) as [|Hr]; [by eexists|]. unfold bytes_at. rewrite (proj2 (Nat.leb_le _ _)), (proj2 (Nat.leb_le _ _)) by lia. cbn [andb mbind result_bind].
  apply IH. lia.
Qed.

Lemma bytes_at_Ok bs a b : (a ≤ b ≤ length bs)%nat → bytes_at bs a b = Ok (slice a b bs).
Proof. intros Hb. unfold bytes_at. by rewrite (proj2 (Nat.leb_le _ _)), (proj2 (Nat.leb_le _ _)) by lia. Qed.

Lemma byte_at_Ok bs i : (i < length bs)%nat → byte_at bs i = Ok (nth i bs 0).
Proof. intros Hi. unfold byte_at. destruct (lookup_lt_is_Some_2 bs i Hi) as [b Hb]. rewrite Hb. cbn. f_equal. symmetry. by apply nth_lookup_Some. Qed.

Lemma parse_packet_ends payload : (∃ o, parse_packet payload = Ok o) ∨ ∃ e, parse_packet payload = Err (RefusedPacket e).
Proof.
  unfold parse_packet. destruct (Z.ltb_spec (zlen payload) 240) as [|Hl]; [right; by eexists|]. unfold zlen in Hl. rewrite byte_at_Ok by lia. cbn [mbind result_bind].
  destruct (negb _); [right; by eexists|]. rewrite !bytes_at_Ok by lia. cbn [mbind result_bind]. unfold from_bytes.
  destruct (_ =? 6); cbn [map_err mbind result_bind]; [|right; by eexists]. destruct (negb _); [right; by eexists|].
  destruct (read_options_total (S (length payload)) payload 240 no_options) as [o ->]; [lia|]. left. by eexists.
Qed.

Lemma slice_app_l a b x y : (b ≤ length x)%nat → slice a b (x ++ y) = slice a b x.
Proof.
  intros Hb. unfold slice. destruct (decide (a ≤ b)%nat); [|by replace (b - a)%nat with 0%nat by lia]. rewrite drop_app_le by lia. rewrite take_app_le; [done|]. rewrite length_drop. lia.
Qed.

Lemma ipv4_at_header header rest i : (i + 4 ≤ length header)%nat → ipv4_at (header ++ rest) i = ipv4_at header i.
Proof.
  intros Hi. unfold ipv4_at. rewrite slice_app_l by done. rewrite (proj2 (Nat.leb_le _ (length header))) by done. by rewrite (proj2 (Nat.leb_le _ _)) by (rewrite length_app; lia).
Qed.

(** Reading a DHCP packet ends on any input without an index out of bounds, with an
    observation or a reason, and reads what was written: from a packet with the
    magic cookie, an Ethernet address and any options, paddings and bytes after the
    end marker, the client's address, the first IP address that is set of the
    assigned, current and requested one, and the last option of each kind. *)
Lemma dhcp_packet_read : (∀ payload, (∃ o, parse_packet payload = Ok o) ∨ ∃ e, parse_packet payload = Err (RefusedPacket e)) ∧
  ∀ header ts tail, length header = 240%nat → nth 2 header 0 = 6 → slice 236 240 header = MAGIC_COOKIE → Forall tlv_ok ts → tail = [] ∨ (∃ rest, tail = 255 :: rest) →
  let requested := V4 ∘ from_be_bytes <$> last (filter (λ v, zlen v = 4) (values 50 ts)) in
  parse_packet (header ++ concat (encode_tlv <$> ts) ++ tail) =
    Ok (mkDhcpObservation (mkMac (slice 28 34 header))
          (match ipv4_at header 16, ipv4_at header 12 with Some a, _ => Some a | None, Some a => Some a | None, None => requested end)
          (last (values 12 ts) ≫= ascii_option)
          (mkMetadata (default [] (last (values 55 ts))) (last (values 60 ts) ≫= ascii_option) (default [] (last (values 61 ts))))).
Proof.
  split; [apply parse_packet_ends|]. intros header ts tail Hlen H6 Hcookie Hts Htail requested. unfold parse_packet. set (opts := concat (encode_tlv <$> ts)).
  assert (240 ≤ zlen (header ++ opts ++ tail)) as Hz by (unfold zlen; rewrite length_app; lia). rewrite (proj2 (Z.ltb_ge _ _)) by done. unfold zlen in Hz.
  rewrite byte_at_Ok by lia. rewrite app_nth1 by lia. rewrite H6. cbn [mbind result_bind]. change (negb (6 =? 6)) with false. cbn iota. rewrite !bytes_at_Ok by lia. rewrite !slice_app_l by lia.
  cbn [mbind result_bind]. unfold from_bytes. assert (zlen (slice 28 34 header) = 6) as -> by (unfold zlen; rewrite length_slice by lia; done). cbn [Z.eqb Pos.eqb map_err mbind result_bind].
  rewrite Hcookie, bool_decide_true by done. cbn [negb]. rewrite <- Hlen. rewrite (read_options_spec ts tail Hts Htail) by (rewrite !length_app; fold opts; lia). cbn [mbind result_bind].
  rewrite taken_options, !ipv4_at_header by lia. cbn. by destruct (ipv4_at header 16), (ipv4_at header 12).
Qed.

Module Example.
(** A response whose aliases run in a circle. *)
Definition circle : DnsResponse :=
  mkResponse "www.example.test" NoError
    [mkAnswer "www.example.test" 30 (DnsCname "cdn.example.test"); mkAnswer "cdn.example.test" 20 (DnsCname "www.example.test");
     mkAnswer "cdn.example.test" 60 (DnsA 3405803786); mkAnswer "other.example.test" 60 (DnsA 3405803787)].

Definition header : list Z := [1; 1; 6; 0] ++ replicate 12 0 ++ [192; 0; 2; 7] ++ replicate 8 0 ++ [2; 0; 0; 0; 0; 9] ++ replicate 202 0 ++ MAGIC_COOKIE.
Definition options : list Tlv := [Opt 12 [97]; Pad; Opt 55 [1; 3; 6]; Opt 12 [112; 99]].
End Example.

Lemma observations_exact_witness : observations (V4 7) Example.circle 5 = [mkDnsObservation (V4 7) "www.example.test" (V4 3405803786) RecordA 30 5] ∧
  aliased Example.circle "cdn.example.test" 30.
Proof.
  assert (observations (V4 7) Example.circle 5 = [mkDnsObservation (V4 7) "www.example.test" (V4 3405803786) RecordA 30 5]) as Hobs by (vm_compute; reflexivity).
  split; [exact Hobs|]. destruct (observations_exact (V4 7) Example.circle 5) as [_ Hex].
  destruct (proj1 (Hex eq_refl (mkDnsObservation (V4 7) "www.example.test" (V4 3405803786) RecordA 30 5))) as (a & ip & ty & t & Ha & Hip & [Ht Hmax] & Ho).
  - rewrite Hobs. constructor.
  - change 30 with (Z.min u32_max 30). apply (aliased_step _ "www.example.test"); [constructor|]. vm_compute. reflexivity.
Defined.

Lemma dhcp_packet_read_witness : parse_packet (Example.header ++ concat (encode_tlv <$> Example.options) ++ [255; 12; 1]) =
  Ok (mkDhcpObservation (mkMac [2; 0; 0; 0; 0; 9]) (Some (V4 3221225991)) (Some "pc") (mkMetadata [1; 3; 6] None [])).
Proof.
  destruct dhcp_packet_read as [_ Hread]. rewrite (Hread Example.header Example.options [255; 12; 1]).
  - vm_compute. reflexivity.
  - reflexivity.
  - reflexivity.
  - reflexivity.
  - assert (∀ c v, 1 ≤ c ≤ 254 → zlen v ≤ 255 → tlv_ok (Opt c v)) as Hopt by (intros; by split).
    apply Forall_cons_2; [apply Hopt; [lia|by vm_compute]|]. apply Forall_cons_2; [exact I|]. apply Forall_cons_2; [apply Hopt; [lia|by vm_compute]|].
    apply Forall_cons_2; [apply Hopt; [lia|by vm_compute]|constructor].
  - right. exists [12; 1]. reflexivity.
Defined.

Lemma lease_file_read : parse_leases (bytes_str (str_bytes "1700000000 02:00:00:00:00:09 192.0.2.7 laptop 01:02:00:00:00:00:09" ++ [13; 10; 10] ++ str_bytes "0 02:00:00:00:00:0a 2001:db8::1 * *")) =
    Ok [mkDhcpLease 1700000000 (mkMac [2; 0; 0; 0; 0; 9]) (V4 3221225991) (Some "laptop") (Some [1; 2; 0; 0; 0; 0; 9]);
        mkDhcpLease 0 (mkMac [2; 0; 0; 0; 0; 10]) (V6 42540766411282592856903984951653826561) None None] ∧
  parse_leases (bytes_str ([10] ++ str_bytes "soon 02:00:00:00:00:09 192.0.2.7 *")) = Err (Expiry 2 "soon").
Proof. split; vm_compute; reflexivity. Qed.
