(* ===== verification/Devices.v ===== *)
(** The devices the agent knows (src/crates/agent/src/device.rs) and what feeds them in
    src/crates/agent/src/linux.rs: neighbours, the lease file and captured DHCP
    packets. Times are nanoseconds since the Unix epoch. The order in which a
    [HashMap] is visited is the class [DeviceOrder]. *)

From S2P Require Import Prelude Topology Net Identity Names.

(** * The cache *)

Record DeviceObservation := mkDeviceObservation {
  do_mac : MacAddress;
  do_ip : IpAddr;
  do_hostname : option string;
  do_dhcp : option DhcpMetadata;
  do_last_seen : Z;
}.

Record DeviceState := mkDevice { dev_hostname : option string; dev_dhcp : option DhcpMetadata; addresses : gmap IpAddr Z }.
Definition new_device : DeviceState := mkDevice None None ∅.

Record DeviceObservationCache := mkDevices {
  devices : gmap MacAddress DeviceState;
  ip_owners : gmap IpAddr MacAddress;
  snapshot_dirty : bool;
  snapshot_cache : list DeviceObservation;
  telemetry_dirty : bool;
  resolver_dirty : bool;
  resolver_cache : gmap IpAddr MacAddress;
}.
Definition no_devices : DeviceObservationCache := mkDevices ∅ ∅ false [] false false ∅.

Class DeviceOrder := { device_order : gmap MacAddress DeviceState → list (MacAddress * DeviceState); address_order : gmap IpAddr Z → list (IpAddr * Z) }.
Class DeviceOrderLaw `{DeviceOrder} : Prop := { device_order_perm m : device_order m ≡ₚ map_to_list m; address_order_perm m : address_order m ≡ₚ map_to_list m }.

(** The address leaves the device that had it. *)
Definition move_address (ip : IpAddr) (mac : MacAddress) (c : DeviceObservationCache) : gmap MacAddress DeviceState :=
  match ip_owners c !! ip with
  | Some previous =>
    if bool_decide (previous = mac) then devices c
    else alter (λ d, mkDevice (dev_hostname d) (dev_dhcp d) (delete ip (addresses d))) previous (devices c)
  | None => devices c
  end.

Definition useful_name (hostname : option string) : option string := h ← hostname; if str_is_empty h then None else Some h.
Definition useful_dhcp (dhcp : option DhcpMetadata) : option DhcpMetadata :=
  d ← dhcp;
  if (negb (bool_decide (parameter_request_list d = [])) || bool_decide (is_Some (vendor_class d)) || negb (bool_decide (client_identifier d = [])))%bool
  then Some d else None.

Definition observe (mac : MacAddress) (ip : option IpAddr) (hostname : option string) (dhcp : option DhcpMetadata) (last_seen : Z) (c : DeviceObservationCache)
    : DeviceObservationCache :=
  let devs := match ip with Some ip => move_address ip mac c | None => devices c end in
  let owners := match ip with Some ip => <[ip := mac]> (ip_owners c) | None => ip_owners c end in
  let d := default new_device (devs !! mac) in
  let seen := match ip with
              | Some ip => <[ip := match addresses d !! ip with Some seen => Z.max seen last_seen | None => last_seen end]> (addresses d)
              | None => addresses d
              end in
  let d := mkDevice (match useful_name hostname with Some h => Some h | None => dev_hostname d end)
             (match useful_dhcp dhcp with Some m => Some m | None => dev_dhcp d end) seen in
  mkDevices (<[mac := d]> devs) owners true (snapshot_cache c) true true (resolver_cache c).

Definition observe_dhcp (o : DhcpObservation) (at_ : Z) (c : DeviceObservationCache) : DeviceObservationCache :=
  observe (dhcp_mac o) (dhcp_ip o) (hostname o) (Some (metadata o)) at_ c.

(** A lease that has ended is passed over; an end of 0 means never. *)
Definition lease_ended (at_ : Z) (l : DhcpLease) : bool :=
  let now := Z.max 0 at_ / 1000000000 in
  (negb (expiry_unix_seconds l =? 0) && (expiry_unix_seconds l <=? now))%bool.
Definition observe_lease (at_ : Z) (c : DeviceObservationCache) (l : DhcpLease) : DeviceObservationCache :=
  if lease_ended at_ l then c
  else observe (lease_mac l) (Some (lease_ip l)) (lease_hostname l) ((λ i, mkMetadata [] None i) <$> lease_client_identifier l) at_ c.
Definition observe_leases (ls : list DhcpLease) (at_ : Z) (c : DeviceObservationCache) : DeviceObservationCache := foldl (observe_lease at_) c ls.

Definition resolve (ip : IpAddr) (c : DeviceObservationCache) : option MacAddress := ip_owners c !! ip.

Definition resolver_snapshot (c : DeviceObservationCache) : DeviceObservationCache * gmap IpAddr MacAddress :=
  let cache := if resolver_dirty c then ip_owners c else resolver_cache c in
  (mkDevices (devices c) (ip_owners c) (snapshot_dirty c) (snapshot_cache c) (telemetry_dirty c) false cache, cache).

Section orders.
Context `{DeviceOrder}.

Definition rows (p : MacAddress * DeviceState) : list DeviceObservation :=
  (λ a, mkDeviceObservation (fst p) (fst a) (dev_hostname (snd p)) (dev_dhcp (snd p)) (snd a)) <$> address_order (addresses (snd p)).
Definition all_rows (ds : gmap MacAddress DeviceState) : list DeviceObservation := device_order ds ≫= rows.

Definition snapshot (c : DeviceObservationCache) : DeviceObservationCache * list DeviceObservation :=
  let cache := if snapshot_dirty c then all_rows (devices c) else snapshot_cache c in
  (mkDevices (devices c) (ip_owners c) false cache (telemetry_dirty c) (resolver_dirty c) (resolver_cache c), cache).

Definition take_telemetry_snapshot (c : DeviceObservationCache) : DeviceObservationCache * list DeviceObservation :=
  if telemetry_dirty c
  then snapshot (mkDevices (devices c) (ip_owners c) (snapshot_dirty c) (snapshot_cache c) false (resolver_dirty c) (resolver_cache c))
  else (c, []).
End orders.

(** * What feeds it *)

(** [neighbor::discover]: [None] for an error. *)
Definition refresh_neighbors (entries : option (list (MacAddress * IpAddr))) (at_ : Z) (c : DeviceObservationCache) : DeviceObservationCache :=
  match entries with
  | Some es => foldl (λ c e, observe (fst e) (Some (snd e)) None None at_ c) c es
  | None => c
  end.

(** Reading the lease file: [None] for an error of the operating system. *)
Inductive DhcpLeaseReadError := LeaseIo | LeaseParse (e : DhcpLeaseParseError).
Definition read_leases (contents : option string) : result DhcpLeaseReadError (list DhcpLease) :=
  s ← ok_or contents LeaseIo;
  map_err LeaseParse (parse_leases s).
Definition refresh_dhcp_leases (contents : option string) (at_ : Z) (c : DeviceObservationCache) : DeviceObservationCache :=
  match read_leases contents with Ok ls => observe_leases ls at_ c | Err _ => c end.

(** A captured DHCP packet; [None] where the code would stop. *)
Definition on_dhcp_event (big_endian : bool) (bytes : list Z) (at_ : Z) (c : DeviceObservationCache) : option DeviceObservationCache :=
  match dhcp_event_try_from big_endian bytes with
  | Err _ => Some c
  | Ok e =>
    match parse_packet (dhcp_payload e) with
    | Ok o => Some (observe_dhcp o at_ c)
    | Err (RefusedPacket _) => Some c
    | Err _ => None
    end
  end.

(** * The reference: everything that was observed, newest first *)

Record Sighting := mkSighting { s_mac : MacAddress; s_ip : option IpAddr; s_name : option string; s_dhcp : option DhcpMetadata; s_at : Z }.

(** The last device that was seen with the address, the times it was seen with it
    since it has the address, and the latest of them. *)
Fixpoint owner_of (h : list Sighting) (ip : IpAddr) : option MacAddress :=
  match h with
  | [] => None
  | s :: h => if bool_decide (s_ip s = Some ip) then Some (s_mac s) else owner_of h ip
  end.
Fixpoint stay (h : list Sighting) (ip : IpAddr) : list Z :=
  match h with
  | [] => []
  | s :: h =>
    if bool_decide (s_ip s = Some ip) then s_at s :: (if bool_decide (owner_of h ip = Some (s_mac s)) then stay h ip else [])
    else stay h ip
  end.
Definition latest (ts : list Z) : option Z := match ts with [] => None | t :: ts => Some (foldr Z.max t ts) end.

(** The last name and the last DHCP data that say something about the device. *)
Definition name_of (h : list Sighting) (m : MacAddress) : option string :=
  head (omap (λ s, if bool_decide (s_mac s = m) then useful_name (s_name s) else None) h).
Definition dhcp_of (h : list Sighting) (m : MacAddress) : option DhcpMetadata :=
  head (omap (λ s, if bool_decide (s_mac s = m) then useful_dhcp (s_dhcp s) else None) h).

Lemma latest_cons t ts : latest (t :: ts) = Some (match latest ts with Some u => Z.max u t | None => t end).
Proof.
  cbn. f_equal. destruct ts as [|u ts]; [done|]. cbn. revert t u. induction ts as [|v ts IH]; intros t u; cbn; [lia|].
  specialize (IH t u). lia.
Qed.

Lemma owner_stays h ip m : owner_of h ip = Some m → is_Some (latest (stay h ip)).
Proof. induction h as [|s h IH]; cbn [owner_of stay]; [done|]. case_bool_decide; [by eexists|done]. Qed.

Lemma head_omap_cons {A B} (f : A → option B) a l : head (omap f (a :: l)) = match f a with Some b => Some b | None => head (omap f l) end.
Proof. cbn. by destruct (f a). Qed.

Record knows (h : list Sighting) (c : DeviceObservationCache) : Prop := {
  kn_owner ip : ip_owners c !! ip = owner_of h ip;
  kn_name m : dev_hostname (default new_device (devices c !! m)) = name_of h m;
  kn_dhcp m : dev_dhcp (default new_device (devices c !! m)) = dhcp_of h m;
  kn_address m ip t : addresses (default new_device (devices c !! m)) !! ip = Some t ↔ owner_of h ip = Some m ∧ latest (stay h ip) = Some t;
}.

Lemma move_address_at ip mac m c : let d := default new_device (devices c !! m) in
  default new_device (move_address ip mac c !! m) =
    mkDevice (dev_hostname d) (dev_dhcp d) (if bool_decide (ip_owners c !! ip = Some m ∧ m ≠ mac) then delete ip (addresses d) else addresses d).
Proof.
  assert (∀ d, d = mkDevice (dev_hostname d) (dev_dhcp d) (addresses d)) as He by (by intros []). cbv zeta.
  unfold move_address. destruct (ip_owners c !! ip) as [p|] eqn:Ho; [|rewrite bool_decide_eq_false_2 by naive_solver; apply He].
  destruct (bool_decide_reflect (p = mac)) as [->|Hp]; [rewrite bool_decide_eq_false_2 by naive_solver; apply He|].
  destruct (decide (p = m)) as [->|Hm].
  - rewrite bool_decide_eq_true_2 by done. rewrite lookup_alter_eq. destruct (devices c !! m); cbn; [done|]. by rewrite delete_empty.
  - rewrite bool_decide_eq_false_2 by naive_solver. rewrite lookup_alter_ne by done. apply He.
Qed.

Lemma knows_same h c c' : knows h c → devices c' = devices c → ip_owners c' = ip_owners c → knows h c'.
Proof. intros [? ? ? ?] Hd Ho. split; intros *; rewrite ?Hd, ?Ho; auto. Qed.

(** The devices once the address has left the one that had it. *)
Definition moved (mac : MacAddress) (ip : option IpAddr) (c : DeviceObservationCache) : gmap MacAddress DeviceState :=
  match ip with Some ip => move_address ip mac c | None => devices c end.

Lemma moved_names mac ip h c m : knows h c → dev_hostname (default new_device (moved mac ip c !! m)) = name_of h m ∧ dev_dhcp (default new_device (moved mac ip c !! m)) = dhcp_of h m.
Proof. intros [_ Hn Hd _]. destruct ip; cbn [moved]; [rewrite move_address_at; cbn [dev_hostname dev_dhcp]|]; by rewrite Hn, Hd. Qed.

Lemma moved_addresses mac ip h c m i : knows h c →
  addresses (default new_device (moved mac ip c !! m)) !! i = if bool_decide (ip = Some i ∧ m ≠ mac) then None else addresses (default new_device (devices c !! m)) !! i.
Proof.
  intros [Ho _ _ Ha]. destruct ip as [j|]; cbn [moved]; [|by rewrite bool_decide_eq_false_2 by naive_solver]. rewrite move_address_at. cbn [addresses].
  destruct (decide (j = i)) as [->|Hj].
  - destruct (decide (m = mac)) as [->|Hm]; [by rewrite !bool_decide_eq_false_2 by naive_solver|]. rewrite (bool_decide_eq_true_2 (Some i = Some i ∧ _)) by done.
    case_bool_decide as Hw; [apply lookup_delete_eq|]. apply eq_None_not_Some. intros [u Hu]. apply Ha in Hu as [Hu _]. rewrite Ho in Hw. tauto.
  - rewrite (bool_decide_eq_false_2 (Some j = Some i ∧ _)) by naive_solver. case_bool_decide; [by rewrite lookup_delete_ne|done].
Qed.

Lemma observe_knows mac ip name dhcp t h c : knows h c → knows (mkSighting mac ip name dhcp t :: h) (observe mac ip name dhcp t c).
Proof.
  intros Hk. pose proof (λ m, moved_names mac ip h c m Hk) as Hkept. pose proof (λ m i, moved_addresses mac ip h c m i Hk) as Haddr. destruct Hk as [Ho _ _ Ha].
  unfold observe. fold (moved mac ip c). set (devs := moved mac ip c) in *. split; cbn [ip_owners devices].
  - intros i. cbn [owner_of s_ip s_mac]. rewrite <- Ho. destruct ip as [j|]; [|by rewrite bool_decide_eq_false_2]. destruct (decide (j = i)) as [->|Hj].
    + by rewrite lookup_insert_eq, bool_decide_eq_true_2.
    + by rewrite lookup_insert_ne, bool_decide_eq_false_2 by congruence.
  - intros m. unfold name_of. rewrite head_omap_cons. cbn [s_mac s_name]. destruct (decide (mac = m)) as [->|Hm].
    + rewrite lookup_insert_eq, bool_decide_eq_true_2 by done. cbn [default from_option id dev_hostname]. by rewrite (proj1 (Hkept m)).
    + rewrite lookup_insert_ne, bool_decide_eq_false_2 by done. apply Hkept.
  - intros m. unfold dhcp_of. rewrite head_omap_cons. cbn [s_mac s_dhcp]. destruct (decide (mac = m)) as [->|Hm].
    + rewrite lookup_insert_eq, bool_decide_eq_true_2 by done. cbn [default from_option id dev_dhcp]. by rewrite (proj2 (Hkept m)).
    + rewrite lookup_insert_ne, bool_decide_eq_false_2 by done. apply Hkept.
  - intros m i u. cbn [owner_of stay s_ip s_mac s_at]. destruct (decide (ip = Some i)) as [->|Hi].
    + rewrite !(bool_decide_eq_true_2 (Some i = Some i)) by done. destruct (decide (mac = m)) as [->|Hm].
      * rewrite lookup_insert_eq. cbn [default from_option id addresses]. rewrite lookup_insert_eq, latest_cons, Haddr. rewrite (bool_decide_eq_false_2 (_ ∧ _)) by naive_solver.
        destruct (addresses (default new_device (devices c !! m)) !! i) as [v|] eqn:Hv.
        -- apply Ha in Hv as [Hv1 Hv2]. rewrite bool_decide_eq_true_2 by done. rewrite Hv2. naive_solver.
        -- rewrite bool_decide_eq_false_2; [cbn; naive_solver|]. intros Hw. destruct (owner_stays _ _ _ Hw) as [v Hs]. by rewrite (proj2 (Ha m i v) (conj Hw Hs)) in Hv.
      * rewrite lookup_insert_ne by done. rewrite Haddr, bool_decide_eq_true_2 by naive_solver. naive_solver.
    + rewrite !(bool_decide_eq_false_2 (ip = Some i)) by done. rewrite <- Ha. destruct (decide (mac = m)) as [->|Hm].
      * rewrite lookup_insert_eq. cbn [default from_option id addresses].
        assert (∀ f : Z, match ip with Some j => <[j := f]> (addresses (default new_device (devs !! m))) | None => addresses (default new_device (devs !! m)) end !! i = addresses (default new_device (devices c !! m)) !! i) as Hf.
        { intros f. destruct ip as [j|]; [rewrite lookup_insert_ne by congruence|]; rewrite Haddr; by rewrite bool_decide_eq_false_2 by naive_solver. }
        destruct ip as [j|]; [by rewrite (Hf _)|by rewrite (Hf 0)].
      * rewrite lookup_insert_ne by done. rewrite Haddr, bool_decide_eq_false_2 by naive_solver. done.
Qed.

(** * Runs *)

Inductive Op :=
  | NeighborsRefreshed (entries : option (list (MacAddress * IpAddr))) (at_ : Z)
  | LeasesRefreshed (contents : option string) (at_ : Z)
  | DhcpCaptured (bytes : list Z) (at_ : Z)
  | ResolverRead
  | DevicesRead
  | TelemetryTaken.

(** What an operation observes, in its order. *)
Definition lease_sighting (at_ : Z) (l : DhcpLease) : Sighting :=
  mkSighting (lease_mac l) (Some (lease_ip l)) (lease_hostname l) ((λ i, mkMetadata [] None i) <$> lease_client_identifier l) at_.
Definition dhcp_sighting (at_ : Z) (o : DhcpObservation) : Sighting := mkSighting (dhcp_mac o) (dhcp_ip o) (hostname o) (Some (metadata o)) at_.
Definition sightings (big_endian : bool) (op : Op) : list Sighting :=
  match op with
  | NeighborsRefreshed es at_ => (λ e, mkSighting (fst e) (Some (snd e)) None None at_) <$> default [] es
  | LeasesRefreshed contents at_ => lease_sighting at_ <$> filter (λ l, lease_ended at_ l = false) (default [] (ok (read_leases contents)))
  | DhcpCaptured bytes at_ => dhcp_sighting at_ <$> option_list (e ← ok (dhcp_event_try_from big_endian bytes); ok (parse_packet (dhcp_payload e)))
  | _ => []
  end.

Section runs.
Context `{DeviceOrder} (big_endian : bool).

Definition step (op : Op) (c : DeviceObservationCache) : option DeviceObservationCache :=
  match op with
  | NeighborsRefreshed es at_ => Some (refresh_neighbors es at_ c)
  | LeasesRefreshed contents at_ => Some (refresh_dhcp_leases contents at_ c)
  | DhcpCaptured bytes at_ => on_dhcp_event big_endian bytes at_ c
  | ResolverRead => Some (fst (resolver_snapshot c))
  | DevicesRead => Some (fst (snapshot c))
  | TelemetryTaken => Some (fst (take_telemetry_snapshot c))
  end.
Definition run (ops : list Op) : option DeviceObservationCache := foldl (λ c op, c ← c; step op c) (Some no_devices) ops.

Definition history (ops : list Op) : list Sighting := reverse (ops ≫= sightings big_endian).

(** Something was observed after the devices were last reported. *)
Fixpoint unreported (newest_first : list Op) : bool :=
  match newest_first with
  | [] => false
  | TelemetryTaken :: _ => false
  | op :: ops => (negb (bool_decide (sightings big_endian op = [])) || unreported ops)%bool
  end.

Record kept (h : list Sighting) (u : bool) (c : DeviceObservationCache) : Prop := {
  kp_knows : knows h c;
  kp_rows : snapshot_dirty c = false → snapshot_cache c = all_rows (devices c);
  kp_resolver : resolver_dirty c = false → resolver_cache c = ip_owners c;
  kp_telemetry : telemetry_dirty c = u;
}.

Definition observe_sighting (c : DeviceObservationCache) (s : Sighting) : DeviceObservationCache := observe (s_mac s) (s_ip s) (s_name s) (s_dhcp s) (s_at s) c.

Lemma observe_all h u c l : kept h u c → kept (reverse l ++ h) (negb (bool_decide (l = [])) || u) (foldl observe_sighting c l).
Proof.
  revert h u c. induction l as [|s l IH]; intros h u c Hk; [done|]. cbn [foldl]. rewrite reverse_cons, <- app_assoc. rewrite bool_decide_eq_false_2 by done. cbn [negb orb].
  assert (kept (s :: h) true (observe_sighting c s)) as Hs by (split; [destruct s; apply observe_knows, Hk|done|done|done]).
  specialize (IH _ _ _ Hs). rewrite orb_true_r in IH. exact IH.
Qed.

Lemma observe_leases_all ls at_ c : observe_leases ls at_ c = foldl observe_sighting c (lease_sighting at_ <$> filter (λ l, lease_ended at_ l = false) ls).
Proof.
  unfold observe_leases. revert c. induction ls as [|l ls IH]; intros c; [done|]. cbn [foldl]. rewrite IH. unfold observe_lease. destruct (lease_ended at_ l) eqn:E.
  - rewrite filter_cons_False by (rewrite E; done). done.
  - rewrite filter_cons_True by done. done.
Qed.

Lemma step_observes op c : match op with ResolverRead | DevicesRead | TelemetryTaken => True | _ => step op c = Some (foldl observe_sighting c (sightings big_endian op)) end.
Proof.
  destruct op as [es at_|contents at_|bytes at_| | |]; cbn [step sightings]; try done.
  - destruct es as [es|]; [|done]. cbn. f_equal. revert c. induction es as [|e es IH]; intros c; [done|]. cbn. by rewrite IH.
  - unfold refresh_dhcp_leases. destruct (read_leases contents) as [ls|e]; [|done]. cbn [ok default from_option id]. by rewrite observe_leases_all.
  - unfold on_dhcp_event. destruct (dhcp_event_try_from big_endian bytes) as [e|err]; [|done]. cbn [ok mbind option_bind].
    destruct (parse_packet_ends (dhcp_payload e)) as [[o ->]|[err ->]]; done.
Qed.

Lemma step_kept op ops h c : kept h (unreported ops) c → ∃ c', step op c = Some c' ∧ kept (reverse (sightings big_endian op) ++ h) (unreported (op :: ops)) c'.
Proof.
  intros Hk. pose proof (step_observes op c) as Ho. destruct op; try (eexists; split; [exact Ho|]; exact (observe_all _ _ _ _ Hk)); (eexists; split; [done|]); destruct Hk as [Hkn Hr Hs Ht].
  - split; [by apply (knows_same h c)|exact Hr| |exact Ht]. cbn. destruct (resolver_dirty c); [done|auto].
  - split; [by apply (knows_same h c)| |exact Hs|exact Ht]. cbn. destruct (snapshot_dirty c); [done|auto].
  - cbn [step]. unfold take_telemetry_snapshot. destruct (telemetry_dirty c) eqn:Htd; [|split; [exact Hkn|exact Hr|exact Hs|exact Htd]].
    split; [by apply (knows_same h c)| |exact Hs|done]. cbn. destruct (snapshot_dirty c); [done|auto].
Qed.

Context `{!DeviceOrderLaw}.

Lemma no_devices_kept : kept [] false no_devices.
Proof.
  split; [|intros _|done|done].
  - split; cbn; intros; rewrite ?lookup_empty; try done. split; [done|]. by intros [].
  - cbn. unfold all_rows. pose proof (device_order_perm (∅ : gmap MacAddress DeviceState)) as Hp. rewrite map_to_list_empty in Hp. apply Permutation_nil_r in Hp. by rewrite Hp.
Qed.

Lemma run_kept ops : ∃ c, run ops = Some c ∧ kept (history ops) (unreported (reverse ops)) c.
Proof.
  induction ops as [|op ops IH] using rev_ind; [exists no_devices; split; [done|apply no_devices_kept]|]. destruct IH as (c & Hr & Hk). destruct (step_kept op _ _ _ Hk) as (c' & Hs & Hk').
  exists c'. unfold run, history in *. rewrite foldl_snoc, Hr. cbn [mbind option_bind]. split; [done|]. rewrite bind_app, reverse_app, reverse_snoc.
  replace ([op] ≫= sightings big_endian) with (sightings big_endian op) by (cbn; by rewrite app_nil_r). done.
Qed.

Lemma rows_elem ds o : o ∈ all_rows ds ↔ ∃ d, ds !! do_mac o = Some d ∧ addresses d !! do_ip o = Some (do_last_seen o) ∧ do_hostname o = dev_hostname d ∧ do_dhcp o = dev_dhcp d.
Proof.
  unfold all_rows. rewrite list_elem_of_bind. split.
  - intros ([m d] & Ho & Hm). rewrite device_order_perm, elem_of_map_to_list in Hm. unfold rows in Ho. apply list_elem_of_fmap in Ho as ([ip t] & -> & Ha).
    rewrite address_order_perm, elem_of_map_to_list in Ha. by exists d.
  - intros (d & Hd & Ha & Hn & Hm). exists (do_mac o, d). rewrite device_order_perm, elem_of_map_to_list. split; [|done]. unfold rows. apply list_elem_of_fmap.
    exists (do_ip o, do_last_seen o). rewrite address_order_perm, elem_of_map_to_list. split; [|done]. destruct o. cbn in *. by rewrite Hn, Hm.
Qed.

Lemma rows_nodup ds : NoDup (all_rows ds).
Proof.
  apply NoDup_bind.
  - intros [m1 d1] [m2 d2] o H1 H2 Ho1 Ho2. rewrite device_order_perm, elem_of_map_to_list in H1, H2. unfold rows in Ho1, Ho2.
    apply list_elem_of_fmap in Ho1 as (? & -> & _), Ho2 as (? & Heq & _). injection Heq as -> _ _ _ _. congruence.
  - intros [m d] _. apply NoDup_fmap_2; [by intros [? ?] [? ?] [= -> ->]|]. rewrite address_order_perm. apply NoDup_map_to_list.
  - rewrite device_order_perm. apply NoDup_map_to_list.
Qed.

(** C39: What the agent knows about the devices is what it observed, whatever neighbour
    tables, lease files, DHCP captures and reads came in which order, malformed ones
    included: an address belongs to the last device seen with it, both for a direct
    lookup and in the shared copy; the list of devices has exactly one row for each
    such address, with the latest time since the device has it and the last useful
    name and DHCP data of the device; and a report is that list if anything was
    observed since the previous report, and empty otherwise. *)
Theorem device_cache_exact ops : ∃ c, run ops = Some c ∧
  (∀ ip, resolve ip c = owner_of (history ops) ip ∧ snd (resolver_snapshot c) !! ip = owner_of (history ops) ip) ∧
  NoDup (snd (snapshot c)) ∧
  (∀ o, o ∈ snd (snapshot c) ↔ owner_of (history ops) (do_ip o) = Some (do_mac o) ∧ latest (stay (history ops) (do_ip o)) = Some (do_last_seen o) ∧
    do_hostname o = name_of (history ops) (do_mac o) ∧ do_dhcp o = dhcp_of (history ops) (do_mac o)) ∧
  snd (take_telemetry_snapshot c) = if unreported (reverse ops) then snd (snapshot c) else [].
Proof.
  destruct (run_kept ops) as (c & Hrun & [[Ho Hn Hd Ha] Hr Hs Ht]). exists c.
  assert (snd (snapshot c) = all_rows (devices c)) as Hrows by (cbn; destruct (snapshot_dirty c); auto).
  split; [done|]. split; [|split; [|split]].
  - intros ip. split; [apply Ho|]. cbn. destruct (resolver_dirty c); [apply Ho|]. by rewrite Hs.
  - rewrite Hrows. apply rows_nodup.
  - intros o. rewrite Hrows, rows_elem. specialize (Ha (do_mac o) (do_ip o) (do_last_seen o)). specialize (Hn (do_mac o)). specialize (Hd (do_mac o)). split.
    + intros (d & Hm & Hi & -> & ->). rewrite Hm in *. cbn [default from_option id] in *. apply Ha in Hi. naive_solver.
    + intros (H1 & H2 & -> & ->). pose proof (proj2 Ha (conj H1 H2)) as Hi. destruct (devices c !! do_mac o) as [d|]; cbn [default from_option id] in *; [by exists d|done].
  - unfold take_telemetry_snapshot. rewrite Ht. by destruct (unreported _).
Qed.
End runs.

(** A laptop whose address a camera takes over, read from a lease file and from a
    neighbour table. *)
#[local] Instance sorted_devices : DeviceOrder := { device_order := map_to_list; address_order := map_to_list }.
#[local] Instance sorted_devices_law : DeviceOrderLaw.
Proof. by split. Qed.
Definition laptop : MacAddress := mkMac [2; 0; 0; 0; 0; 9].
Definition camera : MacAddress := mkMac [2; 0; 0; 0; 0; 10].
Definition example_ops : list Op :=
  [LeasesRefreshed (Some "0 02:00:00:00:00:09 192.0.2.7 laptop *"%string) 1000000000;
   TelemetryTaken;
   NeighborsRefreshed (Some [(camera, V4 3221225991); (laptop, V4 3221225992)]) 2000000000;
   DhcpCaptured [] 3000000000].

Lemma device_cache_exact_witness : owner_of (history false example_ops) (V4 3221225991) = Some camera ∧ ∃ c, run false example_ops = Some c ∧
  (∀ ip, resolve ip c = owner_of (history false example_ops) ip ∧ snd (resolver_snapshot c) !! ip = owner_of (history false example_ops) ip) ∧
  NoDup (snd (snapshot c)) ∧
  (∀ o, o ∈ snd (snapshot c) ↔ owner_of (history false example_ops) (do_ip o) = Some (do_mac o) ∧ latest (stay (history false example_ops) (do_ip o)) = Some (do_last_seen o) ∧
    do_hostname o = name_of (history false example_ops) (do_mac o) ∧ do_dhcp o = dhcp_of (history false example_ops) (do_mac o)) ∧
  snd (take_telemetry_snapshot c) = if unreported false (reverse example_ops) then snd (snapshot c) else [].
Proof. split; [vm_compute; reflexivity|]. apply (device_cache_exact false example_ops). Defined.

Example example_rows : snd ∘ snapshot <$> run false example_ops =
  Some [mkDeviceObservation camera (V4 3221225991) None None 2000000000; mkDeviceObservation laptop (V4 3221225992) (Some "laptop"%string) None 2000000000].
Proof. vm_compute. reflexivity. Qed.
