(* ===== verification/Discovery.v ===== *)
(** How the agent recognizes devices by what they announce
    (src/crates/agent/src/discovery_event.rs, discovery.rs): captured mDNS, SSDP,
    DHCPv6 and HTTP datagrams are decoded, repeated ones dropped, and the rest
    parsed. Datagrams are bytes off the network: an index out of bounds, an
    [unwrap] of nothing and a loop without end are outcomes of their own. Instants
    are nanoseconds of a clock that does not go back. *)

From S2P Require Import Prelude Topology Net Identity ClassIds Flow Sni Names.

(** * Capture events *)

Definition DISCOVERY_MAX_PAYLOAD_LENGTH : Z := 2048.
Definition DISCOVERY_EVENT_SIZE : nat := 2096.

Record DiscoveryEvent := mkDiscoveryEvent {
  source_ip : IpAddr;
  source_mac : MacAddress;
  ev_source_port : Z;
  ev_destination_port : Z;
  captured_payload_length : Z;
  original_payload_length : Z;
  ev_truncated : bool;
  ev_payload : list Z;
}.

Inductive DiscoveryEventDecodeError := EventSize (n : Z) | PayloadLength (n : Z) | IpVersion (v : Z) | TruncationFlag (v : Z) | Mac.

Definition discovery_event_try_from (big_endian : bool) (bytes : list Z) : result DiscoveryEventDecodeError DiscoveryEvent :=
  if negb (length bytes =? DISCOVERY_EVENT_SIZE)%nat then Err (EventSize (zlen bytes))
  else
    let payload_length := from_ne_bytes big_endian (slice 16 18 bytes) in
    if DISCOVERY_MAX_PAYLOAD_LENGTH <? payload_length then Err (PayloadLength payload_length)
    else
      let version := nth 18 bytes 0 in
      ip ← (if version =? 4 then Ok (V4 (from_be_bytes (slice 20 24 bytes)))
            else if version =? 6 then Ok (V6 (from_be_bytes (slice 20 36 bytes)))
            else Err (IpVersion version));
      mac ← map_err (λ _, Mac) (from_bytes (slice 36 42 bytes));
      let original := from_ne_bytes big_endian (slice 46 48 bytes) in
      let flag := nth 19 bytes 0 in
      if original <? payload_length then Err (PayloadLength payload_length)
      else if ((1 <? flag) || negb (Bool.eqb (negb (flag =? 0)) (payload_length <? original)))%bool then Err (TruncationFlag flag)
      else Ok (mkDiscoveryEvent ip mac (from_be_bytes (slice 42 44 bytes)) (from_be_bytes (slice 44 46 bytes)) payload_length original (negb (flag =? 0))
                 (slice 48 (48 + Z.to_nat payload_length) bytes)).

(** * Parsing *)

Record DeviceDiscoveryObservation := mkDiscovery {
  d_mac : list Z;
  d_ip : list Z;
  d_protocol : string;
  d_service : string;
  d_instance : string;
  d_hostname : string;
  d_port : Z;
  d_attributes : gmap string string;
  d_observed_at : Z;
}.

Inductive Stop := Failed (e : string) | IndexPanic | Endless.
Abbreviation parsed := (result Stop).

Definition at_index (bs : list Z) (i : nat) : parsed Z := ok_or (bs !! i) IndexPanic.
Definition at_range (oob : Stop) (bs : list Z) (a b : nat) : parsed (list Z) :=
  if ((a <=? b)%nat && (b <=? length bs)%nat)%bool then Ok (slice a b bs) else Err oob.

(** The message format of the DNS library, with the name of each record as
    [Name::to_utf8] gives it; the texts of its errors and of UTF-8 errors; and the
    hash function. *)
Inductive MdnsData := MPtr (name : string) | MSrv (target : string) (port : Z) | MTxt (values : list (list Z)) | MOther.
Record MdnsMessage := mkMdns { m_truncated : bool; m_answers : list (string * MdnsData); m_name_servers : list (string * MdnsData); m_additionals : list (string * MdnsData) }.
Class DiscoveryCodec := {
  mdns_from_vec : list Z → result string MdnsMessage;
  utf8_error_text : list Z → string;
  hash_bytes : list Z → Z;
  hash_text : string → Z;
}.

Definition bool_text (b : bool) : string := if b then "true" else "false".

Definition base (e : DiscoveryEvent) (at_ : Z) : DeviceDiscoveryObservation :=
  mkDiscovery (octets (source_mac e)) (match source_ip e with V4 a => be_bytes 4 a | V6 a => be_bytes 16 a end) "" "" "" "" 0
    (<["captured_payload_length" := dec_text (captured_payload_length e)]> (<["original_payload_length" := dec_text (original_payload_length e)]>
      {["truncated" := bool_text (ev_truncated e)]})) at_.

Definition set_protocol (p : string) (d : DeviceDiscoveryObservation) : DeviceDiscoveryObservation :=
  mkDiscovery (d_mac d) (d_ip d) p (d_service d) (d_instance d) (d_hostname d) (d_port d) (d_attributes d) (d_observed_at d).
Definition set_service (s i : string) (d : DeviceDiscoveryObservation) : DeviceDiscoveryObservation :=
  mkDiscovery (d_mac d) (d_ip d) (d_protocol d) s i (d_hostname d) (d_port d) (d_attributes d) (d_observed_at d).
Definition set_host (h : string) (p : Z) (d : DeviceDiscoveryObservation) : DeviceDiscoveryObservation :=
  mkDiscovery (d_mac d) (d_ip d) (d_protocol d) (d_service d) (d_instance d) h p (d_attributes d) (d_observed_at d).
Definition set_attributes (a : gmap string string) (d : DeviceDiscoveryObservation) : DeviceDiscoveryObservation :=
  mkDiscovery (d_mac d) (d_ip d) (d_protocol d) (d_service d) (d_instance d) (d_hostname d) (d_port d) a (d_observed_at d).

(** [split_once(sep)] on the bytes of a text, and [join]. *)
Fixpoint split_once (sep : Z) (bs : list Z) : option (list Z * list Z) :=
  match bs with
  | [] => None
  | b :: bs => if b =? sep then Some ([], bs) else (λ p, (b :: fst p, snd p)) <$> split_once sep bs
  end.
Fixpoint join (sep : string) (l : list string) : string :=
  match l with
  | [] => EmptyString
  | [s] => s
  | s :: l => String.append s (String.append sep (join sep l))
  end.
Definition starts_with (p s : string) : bool := String.prefix p s.

Section parse.
Context `{DiscoveryCodec}.

Definition utf8 (bs : list Z) : parsed string := ok_or (from_utf8 bs) (Failed (utf8_error_text bs)).

(** ** mDNS *)

Definition service_from_instance (i : string) : string := join "." (drop_while (λ l, negb (starts_with "_" l)) (str_split 46 i)).

Definition txt_attribute (a : gmap string string) (value : list Z) : gmap string string :=
  match from_utf8 value with
  | None => a
  | Some _ =>
    let '(k, v) := default (value, []) (split_once 61 value) in
    if bool_decide (k = []) then a else <[to_ascii_lowercase (bytes_str k) := bytes_str v]> a
  end.

Definition mdns_record (e : DiscoveryEvent) (at_ : Z) (m : gmap string DeviceDiscoveryObservation) (r : string * MdnsData) : gmap string DeviceDiscoveryObservation :=
  let owner := display_name (fst r) in
  let entry (i : string) := default (base e at_) (m !! i) in
  let named (d : DeviceDiscoveryObservation) := set_service (if str_is_empty (d_service d) then service_from_instance owner else d_service d) owner d in
  match snd r with
  | MPtr p => let i := display_name p in <[i := set_service owner i (entry i)]> m
  | MSrv target port => <[owner := set_host (display_name target) port (named (entry owner))]> m
  | MTxt values => let d := named (entry owner) in <[owner := set_attributes (foldl txt_attribute (d_attributes d) values) d]> m
  | MOther => m
  end.

Definition parse_mdns (e : DiscoveryEvent) (at_ : Z) : parsed (list DeviceDiscoveryObservation) :=
  message ← map_err Failed (mdns_from_vec (ev_payload e));
  if m_truncated message then Err (Failed "DNS TC flag set: incomplete mDNS message")
  else
    let m := foldl (mdns_record e at_) ∅ (m_answers message ++ m_name_servers message ++ m_additionals message) in
    Ok ((λ d, set_protocol (if starts_with "_matter" (d_service d) then "matter" else "mdns") d) <$>
          List.filter (λ d, negb (str_is_empty (d_service d))) (snd <$> btree_entries str_leb m)).

(** ** SSDP *)

(** [split] at line ends of two characters. *)
Fixpoint split_crlf (bs : list Z) : list (list Z) :=
  match bs with
  | [] => [[]]
  | b :: rest =>
    match rest with
    | c :: rest' => if ((b =? 13) && (c =? 10))%bool then [] :: split_crlf rest' else match split_crlf rest with l :: ls => (b :: l) :: ls | [] => [[b]] end
    | [] => [[b]]
    end
  end.

Definition ssdp_header (h : gmap string string) (line : list Z) : gmap string string :=
  match split_once 58 line with
  | None => h
  | Some (n, v) =>
    let name := to_ascii_lowercase (str_trim (bytes_str n)) in
    if existsb (String.eqb name) ["server"; "user-agent"; "st"; "nt"; "usn"; "location"] then <[name := str_trim (bytes_str v)]> h else h
  end.

Definition parse_ssdp (e : DiscoveryEvent) (at_ : Z) : parsed (list DeviceDiscoveryObservation) :=
  _ ← utf8 (ev_payload e);
  let lines := split_crlf (ev_payload e) in
  let first_line := str_trim (bytes_str (default [] (head lines))) in
  if negb (starts_with "NOTIFY " first_line || starts_with "M-SEARCH " first_line || starts_with "HTTP/1.1 200" first_line)%bool
  then Err (Failed "invalid SSDP start line")
  else
    let headers := foldl ssdp_header ∅ (tail lines) in
    let headers := <["message_kind" := default "" (head (split_whitespace first_line))]> headers in
    let service := default "" (match headers !! "st" with Some s => Some s | None => headers !! "nt" end) in
    let d := set_service service "" (set_protocol "ssdp" (base e at_)) in
    Ok [set_attributes (headers ∪ d_attributes d) d].

(** ** HTTP *)

Definition HTTP_METHODS : list string := ["GET"; "POST"; "HEAD"; "PUT"; "PATCH"; "DELETE"; "OPTIONS"; "CONNECT"].

Definition position (c : Z) (bs : list Z) : option nat := fst <$> list_find (λ b, b = c) bs.
Definition strip_cr (bs : list Z) : list Z := default bs (strip_last 13 bs).

Definition valid_request_line (s : string) : bool :=
  match str_split 32 s with
  | method :: _ :: version :: _ => (existsb (String.eqb method) HTTP_METHODS && starts_with "HTTP/1." version)%bool
  | _ => false
  end.

Fixpoint http_headers (fuel : nat) (e : DiscoveryEvent) (at_ : Z) (payload : list Z) (offset : nat) : parsed (list DeviceDiscoveryObservation) :=
  match fuel with
  | O => Err Endless
  | S fuel =>
    let missing := Err (Failed "User-Agent header not found") in
    if (offset <? length payload)%nat then
      rest ← at_range IndexPanic payload offset (length payload);
      match position 10 rest with
      | None => missing
      | Some n =>
        let line_end := (offset + n)%nat in
        line ← at_range IndexPanic payload offset line_end;
        let line := strip_cr line in
        if bool_decide (line = []) then missing
        else match split_once 58 line with
        | None => http_headers fuel e at_ payload (S line_end)
        | Some (name, value) =>
          if eq_ignore_ascii_case (bytes_str name) "User-Agent" then
            text ← utf8 value;
            let user_agent := str_trim text in
            if str_is_empty user_agent then Err (Failed "empty User-Agent header")
            else let d := set_protocol "http" (base e at_) in Ok [set_attributes (<["user-agent" := user_agent]> (d_attributes d)) d]
          else http_headers fuel e at_ payload (S line_end)
        end
      end
    else missing
  end.

Definition parse_http (e : DiscoveryEvent) (at_ : Z) : parsed (list DeviceDiscoveryObservation) :=
  payload ← at_range IndexPanic (ev_payload e) 0 (Z.to_nat (captured_payload_length e));
  n ← ok_or (position 10 payload) (Failed "http request line missing newline");
  line ← at_range IndexPanic payload 0 n;
  request_line ← utf8 (strip_cr line);
  if negb (valid_request_line request_line) then Err (Failed "invalid HTTP request line")
  else http_headers (S (length payload)) e at_ payload (S n).

(** ** DHCPv6 *)

Definition be16_at (bs : list Z) (i : nat) : parsed nat :=
  a ← at_index bs i;
  b ← at_index bs (S i);
  Ok (be16 a b).

(** [chunks_exact(2)] as numbers. *)
Fixpoint chunks2 (bs : list Z) : list string :=
  match bs with a :: b :: rest => dec_text (a * 256 + b) :: chunks2 rest | _ => [] end.

Fixpoint vendor_classes (fuel : nat) (value : list Z) (cursor : nat) (classes : list string) : parsed (list string) :=
  match fuel with
  | O => Err Endless
  | S fuel =>
    if (cursor <? length value)%nat then
      l ← at_range (Failed "truncated DHCPv6 vendor class length") value cursor (cursor + 2);
      let n := be16 (nth 0 l 0) (nth 1 l 0) in
      let cursor := (cursor + 2)%nat in
      data ← at_range (Failed "truncated DHCPv6 vendor class data") value cursor (cursor + n);
      let classes := match from_utf8 data with Some t => if has_control t then classes else classes ++ [t] | None => classes end in
      vendor_classes fuel value (cursor + n) classes
    else Ok classes
  end.

Fixpoint wire_labels (fuel : nat) (value : list Z) (i : nat) (labels : list string) : parsed (option (list string)) :=
  match fuel with
  | O => Err Endless
  | S fuel =>
    if (i <? length value)%nat then
      l ← at_index value i;
      let l := Z.to_nat l in
      let i := S i in
      if (l =? 0)%nat then Ok (Some labels)
      else if (length value <? i + l)%nat then Ok None
      else
        bytes ← at_range IndexPanic value i (i + l);
        wire_labels fuel value (i + l) (match from_utf8 bytes with Some t => labels ++ [t] | None => labels end)
    else Ok (Some labels)
  end.
Definition dns_wire_name (value : list Z) : parsed string :=
  labels ← wire_labels (S (length value)) value 0 [];
  Ok (match labels with Some ls => to_ascii_lowercase (join "." ls) | None => EmptyString end).

Definition dhcp6_option (code : nat) (value : list Z) (a : gmap string string) : parsed (gmap string string) :=
  if (code =? 1)%nat then Ok (<["duid" := hex_bytes value]> a)
  else if (code =? 6)%nat then Ok (<["oro" := join "," (chunks2 value)]> a)
  else if (code =? 16)%nat then
    if (length value <? 4)%nat then Err (Failed "short DHCPv6 vendor class enterprise number")
    else
      enterprise ← at_range IndexPanic value 0 4;
      let a := <["vendor_enterprise" := dec_text (from_be_bytes enterprise)]> a in
      classes ← vendor_classes (S (length value)) value 4 [];
      Ok (<["vendor_class" := join ";" classes]> a)
  else if (code =? 17)%nat then Ok (<["vendor_specific" := hex_bytes value]> a)
  else if ((code =? 39)%nat && (1 <? length value)%nat)%bool then
    rest ← at_range IndexPanic value 1 (length value);
    name ← dns_wire_name rest;
    Ok (<["client_fqdn" := name]> a)
  else Ok a.

Fixpoint dhcp6_options (fuel : nat) (payload : list Z) (i : nat) (a : gmap string string) : parsed (nat * gmap string string) :=
  match fuel with
  | O => Err Endless
  | S fuel =>
    if (i + 4 <=? length payload)%nat then
      code ← be16_at payload i;
      l ← be16_at payload (i + 2);
      let i := (i + 4)%nat in
      if (length payload <? i + l)%nat then Err (Failed "truncated DHCPv6 option")
      else
        value ← at_range IndexPanic payload i (i + l);
        a ← dhcp6_option code value a;
        dhcp6_options fuel payload (i + l) a
    else Ok (i, a)
  end.

Definition parse_dhcp6 (e : DiscoveryEvent) (at_ : Z) : parsed (list DeviceDiscoveryObservation) :=
  let payload := ev_payload e in
  if (length payload <? 4)%nat then Err (Failed "DHCPv6 payload is shorter than its header")
  else
    t ← at_index payload 0;
    '(i, a) ← dhcp6_options (S (length payload)) payload 4 {["message_type" := dec_text t]};
    if negb (i =? length payload)%nat then Err (Failed "truncated DHCPv6 option header")
    else
      let d := set_protocol "dhcp6" (base e at_) in
      let d := set_host (default "" (a !! "client_fqdn")) 0 d in
      Ok [set_attributes (a ∪ d_attributes d) d].

(** ** Dispatch *)

Definition HTTP_PORT : Z := 80.

Inductive Kind := KMdns | KSsdp | KDhcp6 | KHttp | KNone.

Definition kind_of (e : DiscoveryEvent) : Kind :=
  let s := ev_source_port e in
  let d := ev_destination_port e in
  if ((s =? 5353) || (d =? 5353))%bool then KMdns
  else if ((s =? 1900) || (d =? 1900))%bool then KSsdp
  else if ((s =? 546) && (d =? 547))%bool then KDhcp6
  else if ((s =? HTTP_PORT) || (d =? HTTP_PORT))%bool then KHttp
  else KNone.

Definition truncation_text (e : DiscoveryEvent) : string :=
  String.append "truncated discovery datagram: captured_payload_length=" (String.append (dec_text (captured_payload_length e))
    (String.append " original_payload_length=" (String.append (dec_text (original_payload_length e)) " truncated=true"))).

Definition parse (e : DiscoveryEvent) (at_ : Z) : parsed (list DeviceDiscoveryObservation) :=
  if ev_truncated e then Err (Failed (truncation_text e))
  else match kind_of e with
  | KMdns => parse_mdns e at_
  | KSsdp => parse_ssdp e at_
  | KDhcp6 => parse_dhcp6 e at_
  | KHttp => parse_http e at_
  | KNone => Ok []
  end.
End parse.

(** * Dropping repeated datagrams *)

(** What was seen lately, as a map and as a queue in the order of the times. *)
Record Window (K : Type) `{Countable K} := mkWindow { recent : gmap K Z; expiry : list (Z * K) }.
Arguments mkWindow {K _ _}.
Arguments recent {K _ _}.
Arguments expiry {K _ _}.

Section window.
Context {K : Type} `{Countable K} (ttl : Z) (capacity : Z).

Definition no_window : Window K := mkWindow ∅ [].

(** [now.duration_since(seen)]. *)
Definition since (now seen : Z) : Z := Z.max 0 (now - seen).

Fixpoint drop_expired (now : Z) (m : gmap K Z) (q : list (Z * K)) : Window K :=
  match q with
  | [] => mkWindow m []
  | (seen, k) :: rest => if ttl <=? since now seen then drop_expired now (delete k m) rest else mkWindow m q
  end.
Definition expire (now : Z) (w : Window K) : Window K := drop_expired now (recent w) (expiry w).

(** The oldest entry makes room; [None] when there is none. *)
Definition make_room (w : Window K) : option (Window K) :=
  if capacity <=? Z.of_nat (size (recent w)) then
    match expiry w with
    | (_, oldest) :: rest => Some (mkWindow (delete oldest (recent w)) rest)
    | [] => None
    end
  else Some w.

(** A datagram at [now]: whether it repeats one of the window, into which it goes
    otherwise. *)
Definition note (now : Z) (k : K) (w : Window K) : option (Window K * bool) :=
  let w := expire now w in
  if bool_decide (is_Some (recent w !! k)) then Some (w, true)
  else w ← make_room w; Some (mkWindow (<[k := now]> (recent w)) (expiry w ++ [(now, k)]), false).
End window.

(** * The processor *)

Definition DEDUP_TTL : Z := 1000000000.
Definition DEDUP_CAPACITY : Z := 16384.
Definition HTTP_USER_AGENT_DEDUP_TTL : Z := 60000000000.
Definition HTTP_USER_AGENT_DEDUP_CAPACITY : Z := 4096.

Record DiscoveryCounters := mkDiscoveryCounters {
  discovery_packets : Z;
  discovery_truncated : Z;
  discovery_duplicate : Z;
  discovery_parse_failed : Z;
  discovery_decode_failed : Z;
  mdns_parse_success : Z;
  mdns_parse_failed : Z;
  ssdp_parse_success : Z;
  dhcp6_parse_success : Z;
  http_parse_success : Z;
  http_duplicate : Z;
}.
Definition no_counters : DiscoveryCounters := mkDiscoveryCounters 0 0 0 0 0 0 0 0 0 0 0.

(** Increments of 64 bit counters, each in its place. *)
Definition count (p t d f e ms mf s d6 h hd : Z) (c : DiscoveryCounters) : DiscoveryCounters :=
  let add (a b : Z) := (a + b) mod 2 ^ 64 in
  mkDiscoveryCounters (add (discovery_packets c) p) (add (discovery_truncated c) t) (add (discovery_duplicate c) d) (add (discovery_parse_failed c) f)
    (add (discovery_decode_failed c) e) (add (mdns_parse_success c) ms) (add (mdns_parse_failed c) mf) (add (ssdp_parse_success c) s)
    (add (dhcp6_parse_success c) d6) (add (http_parse_success c) h) (add (http_duplicate c) hd).
Definition count_packet := count 1 0 0 0 0 0 0 0 0 0 0.
Definition count_truncated := count 0 1 0 0 0 0 0 0 0 0 0.
Definition count_duplicate := count 0 0 1 0 0 0 0 0 0 0 0.
Definition count_parse_failed (mdns : bool) := count 0 0 0 1 0 0 (if mdns then 1 else 0) 0 0 0 0.
Definition count_decode_failed := count 0 0 0 0 1 0 0 0 0 0 0.
Definition count_http_duplicate := count 0 0 0 0 0 0 0 0 0 0 1.
Definition count_parsed (k : Kind) : DiscoveryCounters → DiscoveryCounters :=
  match k with
  | KMdns => count 0 0 0 0 0 1 0 0 0 0 0
  | KSsdp => count 0 0 0 0 0 0 0 1 0 0 0
  | KDhcp6 => count 0 0 0 0 0 0 0 0 1 0 0
  | KHttp => count 0 0 0 0 0 0 0 0 0 1 0
  | KNone => λ c, c
  end.

(** Address and ports of the sender, and the hash of the payload. *)
Abbreviation DiscoveryKey := (MacAddress * IpAddr * Z * Z * Z)%type.
Abbreviation UserAgentKey := (MacAddress * Z)%type.

Record DiscoveryProcessor := mkProcessor {
  counters : DiscoveryCounters;
  failures_since_report : Z;
  datagrams : Window DiscoveryKey;
  user_agents : Window UserAgentKey;
}.
Definition new_processor : DiscoveryProcessor := mkProcessor no_counters 0 no_window no_window.

Definition set_counters (f : DiscoveryCounters → DiscoveryCounters) (p : DiscoveryProcessor) : DiscoveryProcessor :=
  mkProcessor (f (counters p)) (failures_since_report p) (datagrams p) (user_agents p).
Definition count_failure (f : DiscoveryCounters → DiscoveryCounters) (p : DiscoveryProcessor) : DiscoveryProcessor :=
  mkProcessor (f (counters p)) ((failures_since_report p + 1) mod 2 ^ 64) (datagrams p) (user_agents p).
Definition set_datagrams (w : Window DiscoveryKey) (p : DiscoveryProcessor) : DiscoveryProcessor := mkProcessor (counters p) (failures_since_report p) w (user_agents p).
Definition set_user_agents (w : Window UserAgentKey) (p : DiscoveryProcessor) : DiscoveryProcessor := mkProcessor (counters p) (failures_since_report p) (datagrams p) w.

Definition dedup_entries (p : DiscoveryProcessor) : nat * nat := (size (recent (datagrams p)), size (recent (user_agents p))).

(** [{:?}] of the error. *)
Definition decode_error_text (e : DiscoveryEventDecodeError) : string :=
  let call (n : string) (v : Z) := String.append n (String.append "(" (String.append (dec_text v) ")")) in
  String.append "invalid discovery event: "
    match e with
    | EventSize n => call "EventSize" n
    | PayloadLength n => call "PayloadLength" n
    | IpVersion v => call "IpVersion" v
    | TruncationFlag v => call "TruncationFlag" v
    | Mac => "Mac"
    end.

Section processor.
Context `{DiscoveryCodec} (big_endian : bool).

Definition key_of (e : DiscoveryEvent) : DiscoveryKey := (source_mac e, source_ip e, ev_source_port e, ev_destination_port e, hash_bytes (ev_payload e)).

Definition is_http (d : DeviceDiscoveryObservation) : bool := String.eqb (d_protocol d) "http".

Definition user_agent_of (ds : list DeviceDiscoveryObservation) : option string :=
  d ← List.find is_http ds; u ← d_attributes d !! "user-agent"; if str_is_empty u then None else Some u.

Definition dedup_user_agent (e : DiscoveryEvent) (ds : list DeviceDiscoveryObservation) (now : Z) (p : DiscoveryProcessor)
    : option (DiscoveryProcessor * list DeviceDiscoveryObservation) :=
  match user_agent_of ds with
  | None => Some (p, ds)
  | Some u =>
    '(w, duplicate) ← note HTTP_USER_AGENT_DEDUP_TTL HTTP_USER_AGENT_DEDUP_CAPACITY now (source_mac e, hash_text u) (user_agents p);
    let p := set_user_agents w p in
    Some (if (duplicate : bool) then (set_counters count_http_duplicate p, List.filter (λ d, negb (is_http d)) ds) else (p, ds))
  end.

(** [None] where the code would panic. *)
Definition process_event (e : DiscoveryEvent) (observed_at now : Z) (p : DiscoveryProcessor)
    : option (DiscoveryProcessor * result string (list DeviceDiscoveryObservation)) :=
  if ev_truncated e then Some (set_counters count_truncated p, Ok [])
  else
    '(w, duplicate) ← note DEDUP_TTL DEDUP_CAPACITY now (key_of e) (datagrams p);
    let p := set_datagrams w p in
    if (duplicate : bool) then Some (set_counters count_duplicate p, Ok [])
    else match parse e observed_at with
    | Ok ds =>
      let p := set_counters (count_parsed (kind_of e)) p in
      match kind_of e with
      | KHttp => '(p, ds) ← dedup_user_agent e ds now p; Some (p, Ok ds)
      | _ => Some (p, Ok ds)
      end
    | Err (Failed m) => Some (count_failure (count_parse_failed (match kind_of e with KMdns => true | _ => false end)) p, Err m)
    | Err _ => None
    end.

Definition process (bytes : list Z) (observed_at now : Z) (p : DiscoveryProcessor)
    : option (DiscoveryProcessor * result string (list DeviceDiscoveryObservation)) :=
  let p := set_counters count_packet p in
  match discovery_event_try_from big_endian bytes with
  | Ok e => process_event e observed_at now p
  | Err e => Some (count_failure count_decode_failed p, Err (decode_error_text e))
  end.
End processor.

(** * No datagram stops the agent *)

(** A result that is neither an index out of bounds nor a loop without end. *)
Definition ends {A} (r : parsed A) : Prop := match r with Err IndexPanic | Err Endless => False | _ => True end.

Lemma ends_bind {A B} (r : parsed A) (f : A → parsed B) : ends r → (∀ a, r = Ok a → ends (f a)) → ends (r ≫= f).
Proof. destruct r as [a|e]; cbn; [intros _ Hf; by apply Hf|done]. Qed.

Lemma ends_range oob bs a b : (a ≤ b ≤ length bs)%nat → at_range oob bs a b = Ok (slice a b bs).
Proof. intros Hb. unfold at_range. by rewrite (proj2 (Nat.leb_le _ _)), (proj2 (Nat.leb_le _ _)) by lia. Qed.

Lemma ends_index bs i : (i < length bs)%nat → ∃ b, at_index bs i = Ok b.
Proof. intros [b Hb]%lookup_lt_is_Some. exists b. unfold at_index. by rewrite Hb. Qed.

Lemma position_lt c bs n : position c bs = Some n → (n < length bs)%nat.
Proof. unfold position. intros ([i b] & Hf & ->)%fmap_Some. apply list_find_Some in Hf as (Hb & _). by apply lookup_lt_Some in Hb. Qed.

Section total.
Context `{DiscoveryCodec}.

Lemma ends_utf8 bs : ends (utf8 bs).
Proof. unfold utf8. by destruct (from_utf8 bs). Qed.

Lemma http_headers_ends fuel e at_ payload offset : (length payload - offset < fuel)%nat → ends (http_headers fuel e at_ payload offset).
Proof.
  revert offset. induction fuel as [|fuel IH]; intros offset Hf; [lia|]. cbn [http_headers]. destruct (Nat.ltb_spec offset (length payload)) as [Ho|]; [|done].
  rewrite ends_range by lia. cbn [mbind result_bind]. destruct (position 10 _) as [n|] eqn:Hn; [|done]. apply position_lt in Hn. rewrite length_slice in Hn by lia.
  rewrite ends_range by lia. cbn [mbind result_bind]. case_bool_decide; [done|]. destruct (split_once _ _) as [[name value]|]; [|apply IH; lia].
  destruct (eq_ignore_ascii_case _ _); [|apply IH; lia]. apply ends_bind; [apply ends_utf8|]. intros t _. by destruct (str_is_empty _).
Qed.

Lemma parse_http_ends e at_ : captured_payload_length e = zlen (ev_payload e) → ends (parse_http e at_).
Proof.
  intros Hc. unfold parse_http. rewrite Hc. unfold zlen. rewrite Nat2Z.id, ends_range by lia. cbn [mbind result_bind]. set (payload := slice _ _ _).
  destruct (position 10 payload) as [n|] eqn:Hn; [|done]. apply position_lt in Hn. cbn [ok_or mbind result_bind]. rewrite ends_range by lia. cbn [mbind result_bind].
  apply ends_bind; [apply ends_utf8|]. intros line _. destruct (negb _); [done|]. apply http_headers_ends. lia.
Qed.

Lemma vendor_classes_ends fuel value cursor classes : (length value - cursor < fuel)%nat → ends (vendor_classes fuel value cursor classes).
Proof.
  revert cursor classes. induction fuel as [|fuel IH]; intros cursor classes Hf; [lia|]. cbn [vendor_classes]. destruct (Nat.ltb_spec cursor (length value)); [|done].
  apply ends_bind; [unfold at_range; by destruct (_ && _)%bool|]. intros l Hl. apply ends_bind; [unfold at_range; by destruct (_ && _)%bool|]. intros d _. apply IH. lia.
Qed.

Lemma wire_labels_ends fuel value i labels : (length value - i < fuel)%nat → ends (wire_labels fuel value i labels).
Proof.
  revert i labels. induction fuel as [|fuel IH]; intros i labels Hf; [lia|]. cbn [wire_labels]. destruct (Nat.ltb_spec i (length value)) as [Hi|]; [|done].
  destruct (ends_index value i Hi) as [l ->]. cbn [mbind result_bind]. destruct (_ =? 0)%nat; [done|]. destruct (Nat.ltb_spec (length value) (S i + Z.to_nat l)); [done|].
  rewrite ends_range by lia. cbn [mbind result_bind]. apply IH. lia.
Qed.

Lemma dhcp6_option_ends code value a : ends (dhcp6_option code value a).
Proof.
  unfold dhcp6_option. destruct (code =? 1)%nat; [done|]. destruct (code =? 6)%nat; [done|]. destruct (code =? 16)%nat.
  - destruct (Nat.ltb_spec (length value) 4); [done|]. rewrite ends_range by lia. cbn [mbind result_bind]. apply ends_bind; [apply vendor_classes_ends; lia|done].
  - destruct (code =? 17)%nat; [done|]. destruct (code =? 39)%nat; [|done]. cbn [andb]. destruct (Nat.ltb_spec 1 (length value)); [|done]. rewrite ends_range by lia. cbn [mbind result_bind].
    apply ends_bind; [|done]. unfold dns_wire_name. apply ends_bind; [apply wire_labels_ends; lia|done].
Qed.

Lemma be16_at_Ok bs i : (S i < length bs)%nat → ∃ n, be16_at bs i = Ok n.
Proof. intros Hi. unfold be16_at. destruct (ends_index bs i) as [a ->]; [lia|]. cbn [mbind result_bind]. destruct (ends_index bs (S i) Hi) as [b ->]. cbn. by eexists. Qed.

Lemma dhcp6_options_ends fuel payload i a : (length payload - i < fuel)%nat → ends (dhcp6_options fuel payload i a).
Proof.
  revert i a. induction fuel as [|fuel IH]; intros i a Hf; [lia|]. cbn [dhcp6_options]. destruct (Nat.leb_spec (i + 4) (length payload)); [|done].
  destruct (be16_at_Ok payload i) as [code ->]; [lia|]. cbn [mbind result_bind]. destruct (be16_at_Ok payload (i + 2)) as [l ->]; [lia|]. cbn [mbind result_bind].
  destruct (Nat.ltb_spec (length payload) (i + 4 + l)); [done|]. rewrite ends_range by lia. cbn [mbind result_bind]. apply ends_bind; [apply dhcp6_option_ends|]. intros a' _. apply IH. lia.
Qed.

Lemma parse_ends e at_ : captured_payload_length e = zlen (ev_payload e) → ends (parse e at_).
Proof.
  intros Hc. unfold parse. destruct (ev_truncated e); [done|]. destruct (kind_of e); [| | |by apply parse_http_ends|done].
  - unfold parse_mdns. destruct (mdns_from_vec _); [|done]. cbn. by destruct (m_truncated _).
  - unfold parse_ssdp. apply ends_bind; [apply ends_utf8|]. intros _ _. by destruct (negb _).
  - unfold parse_dhcp6. destruct (Nat.ltb_spec (length (ev_payload e)) 4); [done|]. destruct (ends_index (ev_payload e) 0) as [t ->]; [lia|]. cbn [mbind result_bind].
    apply ends_bind; [apply dhcp6_options_ends; lia|]. intros [i a] _. by destruct (negb _).
Qed.

Lemma decoded_length big_endian bytes e : discovery_event_try_from big_endian bytes = Ok e → Forall is_u8 bytes → captured_payload_length e = zlen (ev_payload e).
Proof.
  unfold discovery_event_try_from. destruct (Nat.eqb_spec (length bytes) DISCOVERY_EVENT_SIZE) as [Hl|]; [|done]. cbn [negb]. cbn zeta. unfold DISCOVERY_EVENT_SIZE in Hl.
  set (n := from_ne_bytes big_endian (slice 16 18 bytes)). destruct (Z.ltb_spec DISCOVERY_MAX_PAYLOAD_LENGTH n) as [|Hn]; [done|]. intros He Hb. unfold DISCOVERY_MAX_PAYLOAD_LENGTH in Hn.
  assert (0 ≤ n) as H0.
  { assert (is_u16 n) as [? _]; [|done]. apply (from_slice_width (from_ne_bytes big_endian) 16 18); [apply from_ne_bytes_width|lia|done]. }
  apply bind_Ok in He as (ip & _ & He). apply bind_Ok in He as (mac & _ & He). destruct (_ <? n); [done|]. destruct (_ || _)%bool; [done|]. injection He as <-. cbn [captured_payload_length ev_payload].
  unfold zlen. rewrite length_slice by lia. lia.
Qed.
End total.

(** * What counts as repeated *)

Section reference.
Context {K : Type} `{Countable K} (ttl capacity : Z).

(** Of all datagrams that were processed, with their times: those among the last
    [capacity] that are younger than [ttl]. *)
Definition remembered (now : Z) (log : list (Z * K)) : list (Z * K) :=
  filter (λ p, since now (fst p) < ttl) (drop (length log - Z.to_nat capacity) log).

Definition repeated (now : Z) (k : K) (log : list (Z * K)) : bool := bool_decide (k ∈ snd <$> remembered now log).

(** The window represents the log at time [now]. *)
Record represents (now : Z) (log : list (Z * K)) (w : Window K) : Prop := {
  rp_queue : expiry w = remembered now log;
  rp_nodup : NoDup (snd <$> expiry w);
  rp_map k t : recent w !! k = Some t ↔ (t, k) ∈ expiry w;
}.

Definition in_order (now : Z) (log : list (Z * K)) : Prop := StronglySorted (λ a b, fst a ≤ fst b) log ∧ Forall (λ p, fst p ≤ now) log.

Lemma in_order_later now now' log : now ≤ now' → in_order now log → in_order now' log.
Proof. intros Hn [Hs Hf]. split; [done|]. eapply Forall_impl; [done|]. cbn. lia. Qed.

Lemma in_order_snoc now k log : in_order now log → in_order now (log ++ [(now, k)]).
Proof.
  intros [Hs Hf]. split; [|apply Forall_app; split; [done|by constructor; cbn; [lia|constructor]]]. clear -Hs Hf. induction Hs as [|a l Hs IH Ha]; cbn; [repeat constructor|].
  apply Forall_cons in Hf as [Hfa Hf]. constructor; [by apply IH|]. apply Forall_app. split; [done|]. by constructor.
Qed.

Lemma drop_expired_spec now (m : gmap K Z) q : StronglySorted (λ a b, fst a ≤ fst b) q → NoDup (snd <$> q) → (∀ k t, m !! k = Some t ↔ (t, k) ∈ q) →
  let w := drop_expired ttl now m q in expiry w = filter (λ p, since now (fst p) < ttl) q ∧ ∀ k t, recent w !! k = Some t ↔ (t, k) ∈ expiry w.
Proof.
  intros Hs. revert m. induction Hs as [|[seen k] q Hs IH Ha]; intros m Hnd Hm; cbn [drop_expired]; [done|]. cbn in Hnd. apply NoDup_cons in Hnd as [Hk Hnd].
  destruct (Z.leb_spec ttl (since now seen)) as [Hexp|Hlive].
  - rewrite filter_cons_False by (cbn; lia). apply IH; [done|]. intros k' t'. rewrite lookup_delete_Some, Hm, elem_of_cons. split.
    + intros (Hne & [[= -> ->]|Hin]); [done|done].
    + intros Hin. split; [|by right]. intros ->. destruct Hk. apply list_elem_of_fmap. by exists (t', k').
  - cbn [expiry recent]. split; [|done]. rewrite filter_cons_True by done. f_equal. symmetry. clear -Ha Hlive. induction Ha as [|[t k'] q Ht _ IHq]; [done|].
    rewrite filter_cons_True; [by rewrite IHq|]. cbn in *. unfold since in *. lia.
Qed.

Lemma remembered_later now now' log : now ≤ now' → filter (λ p, since now' (fst p) < ttl) (remembered now log) = remembered now' log.
Proof.
  intros Hn. unfold remembered. rewrite list_filter_filter. apply list_filter_iff. intros [t k]. unfold since. cbn. lia.
Qed.

Lemma sorted_drop n (l : list (Z * K)) : StronglySorted (λ a b, fst a ≤ fst b) l → StronglySorted (λ a b, fst a ≤ fst b) (drop n l).
Proof. revert n. induction l as [|a l IH]; intros n; destruct n as [|n]; cbn; try done. intros Hs. apply IH. by apply StronglySorted_inv in Hs as [Hs _]. Qed.

Lemma sorted_filter P `{∀ x, Decision (P x)} (l : list (Z * K)) : StronglySorted (λ a b, fst a ≤ fst b) l → StronglySorted (λ a b, fst a ≤ fst b) (filter P l).
Proof.
  induction 1 as [|a l Hs IH Ha]; [constructor|]. destruct (decide (P a)); [rewrite filter_cons_True by done|by rewrite filter_cons_False by done].
  constructor; [done|]. apply Forall_forall. intros x [_ Hx]%list_elem_of_filter. by eapply (proj1 (Forall_forall _ _)) in Ha.
Qed.

(** The oldest of a full window makes room for a new entry, as it leaves the last
    [capacity] of the log. *)
Lemma remembered_snoc now k log : 0 < capacity → 0 < ttl → in_order now log →
  remembered now (log ++ [(now, k)]) = (if capacity <=? zlen (remembered now log) then tail (remembered now log) else remembered now log) ++ [(now, k)].
Proof.
  intros Hcap Httl [Hs Hf]. unfold remembered. rewrite length_app. cbn [length]. set (live := λ p : Z * K, since now (fst p) < ttl). set (c := Z.to_nat capacity).
  assert (filter live [(now, k)] = [(now, k)]) as Hnew by (rewrite filter_cons_True; [by rewrite filter_nil|unfold live, since; cbn; lia]).
  destruct (decide (length log < c)%nat) as [Hlt|Hge].
  - replace (length log + 1 - c)%nat with 0%nat by lia. replace (length log - c)%nat with 0%nat by lia. rewrite !drop_0, filter_app, Hnew.
    rewrite (proj2 (Z.leb_gt _ _)); [done|]. pose proof (length_filter live log). unfold zlen. lia.
  - rewrite drop_app_le by lia. rewrite filter_app, Hnew. f_equal. replace (length log + 1 - c)%nat with (S (length log - c)) by lia.
    destruct (lookup_lt_is_Some_2 log (length log - c)) as [[t k'] Hy]; [lia|]. rewrite (drop_S _ _ _ Hy). set (rest := drop (S (length log - c)) log).
    assert (S (length rest) = c) as Hlen by (subst rest; rewrite length_drop; lia).
    assert (Forall (λ p, t ≤ fst p) rest) as Hafter.
    { pose proof (sorted_drop (length log - c) log Hs) as Hsd. rewrite (drop_S _ _ _ Hy) in Hsd. apply StronglySorted_inv in Hsd as [_ Hsd]. done. }
    destruct (decide (live (t, k'))) as [Hl|Hl].
    + rewrite filter_cons_True by done. assert (filter live rest = rest) as ->.
      { clear -Hafter Hl. induction Hafter as [|[t2 k2] rest Ht _ IH]; [done|]. rewrite filter_cons_True; [by rewrite IH|]. unfold live, since in *. cbn in *. lia. }
      rewrite (proj2 (Z.leb_le _ _)); [done|]. unfold zlen. cbn. lia.
    + rewrite filter_cons_False by done. rewrite (proj2 (Z.leb_gt _ _)); [done|]. pose proof (length_filter live rest). unfold zlen. lia.
Qed.

Lemma represents_size now log w : represents now log w → size (recent w) = length (expiry w).
Proof.
  intros [_ Hnd Hm]. assert (recent w = list_to_map (prod_swap <$> expiry w)) as ->.
  { apply map_eq. intros k. apply option_eq. intros t. rewrite Hm, <- elem_of_list_to_map.
    - rewrite list_elem_of_fmap. split; [intros Hin; by exists (t, k)|by intros ([t' k'] & [= -> ->] & Hin)].
    - by rewrite <- list_fmap_compose. }
  rewrite map_size_list_to_map; [by rewrite length_fmap|]. by rewrite <- list_fmap_compose.
Qed.

(** The window answers as the log does, and its queue is never found empty. *)
Lemma note_spec now now' k log w : 0 < capacity → 0 < ttl → now ≤ now' → in_order now log → represents now log w →
  ∃ w', note ttl capacity now' k w = Some (w', repeated now' k log) ∧
    let log' := if repeated now' k log then log else log ++ [(now', k)] in in_order now' log' ∧ represents now' log' w'.
Proof.
  intros Hcap Httl Hn Hord [Hq Hnd Hm]. pose proof (in_order_later _ _ _ Hn Hord) as Hord'. destruct Hord as [Hs _]. unfold note, expire.
  destruct (drop_expired_spec now' (recent w) (expiry w)) as [Hq1 Hm1]; [rewrite Hq; by apply sorted_filter, sorted_drop|done|done|]. set (w1 := drop_expired _ _ _ _) in *.
  rewrite Hq, (remembered_later now now' log Hn) in Hq1.
  assert (represents now' log w1) as Hr1.
  { split; [done| |done]. rewrite Hq1, <- (remembered_later now now' log Hn), <- Hq. eapply sublist_NoDup; [exact Hnd|]. apply fmap_sublist, sublist_filter. }
  assert (bool_decide (is_Some (recent w1 !! k)) = repeated now' k log) as Hrep.
  { unfold repeated. apply bool_decide_ext. rewrite <- Hq1, list_elem_of_fmap. split; [intros [t Ht%Hm1]; by exists (t, k)|intros ([t k'] & -> & Ht%Hm1); by exists t]. }
  rewrite Hrep. destruct (repeated now' k log) eqn:Hrp; [by exists w1|]. pose proof (represents_size _ _ _ Hr1) as Hsz. unfold make_room. rewrite Hsz.
  pose proof (remembered_snoc now' k log Hcap Httl Hord') as Hsn. rewrite <- Hq1 in Hsn. unfold zlen in Hsn. destruct Hr1 as [_ Hnd1 _].
  assert (k ∉ snd <$> expiry w1) as Hk by (intros Hk; rewrite Hq1 in Hk; apply bool_decide_eq_false in Hrp; done).
  assert (∀ m q, (∀ k' t, m !! k' = Some t ↔ (t, k') ∈ q) → NoDup (snd <$> q) → k ∉ snd <$> q → q ++ [(now', k)] = remembered now' (log ++ [(now', k)]) →
    represents now' (log ++ [(now', k)]) (mkWindow (<[k := now']> m) (q ++ [(now', k)]))) as Hput.
  { intros m q Hm' Hnd' Hkq Hq'. split; cbn [expiry recent]; [done| |].
    - rewrite fmap_app. apply NoDup_app. split_and!; [done|intros x Hx ->%list_elem_of_singleton; done|apply NoDup_singleton].
    - intros k' t. rewrite lookup_insert_Some, Hm', elem_of_app, list_elem_of_singleton. split; [intros [[-> ->]|[_ Hin]]; auto|].
      intros [Hin|[= -> ->]]; [right|by left]. split; [|done]. intros ->. destruct Hkq. apply list_elem_of_fmap. by exists (t, k'). }
  destruct (Z.leb_spec capacity (Z.of_nat (length (expiry w1)))) as [Hfull|Hroom].
  - destruct (expiry w1) as [|[t0 k0] rest] eqn:He; [cbn in Hfull; lia|]. cbn [mbind option_bind]. eexists. split; [done|]. split; [by apply in_order_snoc|].
    cbn [expiry recent]. cbn in Hnd1. apply NoDup_cons in Hnd1 as [Hk0 Hnd1]. cbn in Hk. apply not_elem_of_cons in Hk as [_ Hk]. apply Hput; try done.
    intros k' t. rewrite lookup_delete_Some, Hm1, elem_of_cons. split; [intros (Hne & [[= -> ->]|Hin]); done|]. intros Hin. split; [|by right]. intros ->. destruct Hk0. apply list_elem_of_fmap. by exists (t, k').
  - cbn [mbind option_bind]. eexists. split; [done|]. split; [by apply in_order_snoc|]. by apply Hput.
Qed.

Lemma represents_bounded now log w : 0 ≤ capacity → represents now log w → Z.of_nat (size (recent w)) ≤ capacity.
Proof.
  intros Hc Hr. rewrite (represents_size _ _ _ Hr), (rp_queue _ _ _ Hr). unfold remembered. pose proof (length_filter (λ p, since now (fst p) < ttl) (drop (length log - Z.to_nat capacity) log)) as Hl.
  rewrite length_drop in Hl. lia.
Qed.

Lemma no_window_represents now : represents now [] no_window.
Proof.
  split; cbn; [done|apply NoDup_nil_2|]. intros k t. rewrite lookup_empty. split; [done|]. by intros ?%elem_of_nil.
Qed.
End reference.

(** * Runs of the processor *)

Section runs.
Context `{DiscoveryCodec} (big_endian : bool).

(** The bytes of a capture, the time to report and the instant it is handled. *)
Record Capture := mkCapture { cap_bytes : list Z; cap_observed_at : Z; cap_now : Z }.

Definition handle (p : DiscoveryProcessor) (c : Capture) : option (DiscoveryProcessor * result string (list DeviceDiscoveryObservation)) :=
  process big_endian (cap_bytes c) (cap_observed_at c) (cap_now c) p.
Definition run_captures (cs : list Capture) : option DiscoveryProcessor := foldl (λ p c, p ← p; fst <$> handle p c) (Some new_processor) cs.

(** A reference that forgets nothing: the datagrams that were parsed and the user
    agents that were reported, with their times. *)
Record Log := mkLog { log_datagrams : list (Z * DiscoveryKey); log_user_agents : list (Z * UserAgentKey) }.

Definition answer (l : Log) (c : Capture) : Log * result string (list DeviceDiscoveryObservation) :=
  let now := cap_now c in
  match discovery_event_try_from big_endian (cap_bytes c) with
  | Err err => (l, Err (decode_error_text err))
  | Ok e =>
    if (ev_truncated e || repeated DEDUP_TTL DEDUP_CAPACITY now (key_of e) (log_datagrams l))%bool then (l, Ok [])
    else
      let ds_log := log_datagrams l ++ [(now, key_of e)] in
      let l' := mkLog ds_log (log_user_agents l) in
      match parse e (cap_observed_at c) with
      | Err (Failed m) => (l', Err m)
      | Err _ => (l', Ok [])
      | Ok ds =>
        match kind_of e, user_agent_of ds with
        | KHttp, Some u =>
          let k := (source_mac e, hash_text u) in
          if repeated HTTP_USER_AGENT_DEDUP_TTL HTTP_USER_AGENT_DEDUP_CAPACITY now k (log_user_agents l) then (l', Ok (List.filter (λ d, negb (is_http d)) ds))
          else (mkLog ds_log (log_user_agents l ++ [(now, k)]), Ok ds)
        | _, _ => (l', Ok ds)
        end
      end
  end.
Definition logged (cs : list Capture) : Log := foldl (λ l c, fst (answer l c)) (mkLog [] []) cs.

(** Both windows as they were when they were last used. *)
Definition stands {K} `{Countable K} (ttl capacity now : Z) (log : list (Z * K)) (w : Window K) : Prop :=
  ∃ t, t ≤ now ∧ in_order t log ∧ represents ttl capacity t log w.

Record proc_ok (now : Z) (l : Log) (p : DiscoveryProcessor) : Prop := {
  pr_datagrams : stands DEDUP_TTL DEDUP_CAPACITY now (log_datagrams l) (datagrams p);
  pr_user_agents : stands HTTP_USER_AGENT_DEDUP_TTL HTTP_USER_AGENT_DEDUP_CAPACITY now (log_user_agents l) (user_agents p);
}.

Lemma stands_later {K} `{Countable K} ttl capacity now now' (log : list (Z * K)) w : now ≤ now' → stands ttl capacity now log w → stands ttl capacity now' log w.
Proof. intros Hn (t & Ht & Hs). exists t. split; [lia|done]. Qed.

Lemma note_stands {K} `{Countable K} ttl capacity now k (log : list (Z * K)) w : 0 < capacity → 0 < ttl → stands ttl capacity now log w →
  ∃ w', note ttl capacity now k w = Some (w', repeated ttl capacity now k log) ∧ stands ttl capacity now (if repeated ttl capacity now k log then log else log ++ [(now, k)]) w'.
Proof.
  intros Hc Ht (t & Htn & Ho & Hr). destruct (note_spec ttl capacity t now k log w Hc Ht Htn Ho Hr) as (w' & Hw & Ho' & Hr'). exists w'. split; [done|]. exists now. by split_and!.
Qed.

Lemma dedup_user_agent_ok now e ds p ulog : stands HTTP_USER_AGENT_DEDUP_TTL HTTP_USER_AGENT_DEDUP_CAPACITY now ulog (user_agents p) →
  let '(ulog', ds') := match user_agent_of ds with
    | Some u =>
      let k := (source_mac e, hash_text u) in
      if repeated HTTP_USER_AGENT_DEDUP_TTL HTTP_USER_AGENT_DEDUP_CAPACITY now k ulog then (ulog, List.filter (λ d, negb (is_http d)) ds) else (ulog ++ [(now, k)], ds)
    | None => (ulog, ds)
    end in
  ∃ p', dedup_user_agent e ds now p = Some (p', ds') ∧ datagrams p' = datagrams p ∧ stands HTTP_USER_AGENT_DEDUP_TTL HTTP_USER_AGENT_DEDUP_CAPACITY now ulog' (user_agents p').
Proof.
  intros Hu. unfold dedup_user_agent. destruct (user_agent_of ds) as [u|]; [|by exists p].
  destruct (note_stands HTTP_USER_AGENT_DEDUP_TTL HTTP_USER_AGENT_DEDUP_CAPACITY now (source_mac e, hash_text u) ulog (user_agents p)) as (w' & -> & Hw'); [done|done|done|].
  cbn [mbind option_bind]. destruct (repeated _ _ _ _ _); (eexists; split; [done|]); by split.
Qed.

Lemma handle_ok now l p c : proc_ok now l p → now ≤ cap_now c → Forall is_u8 (cap_bytes c) →
  ∃ p', handle p c = Some (p', snd (answer l c)) ∧ proc_ok (cap_now c) (fst (answer l c)) p'.
Proof.
  intros [Hd Hu] Hn Hb. apply (stands_later _ _ _ _ _ _ Hn) in Hd, Hu. unfold handle, process, answer.
  destruct (discovery_event_try_from big_endian (cap_bytes c)) as [e|err] eqn:He; [|by eexists; split; [done|split]].
  unfold process_event. destruct (ev_truncated e); cbn [orb]; [by eexists; split; [done|split]|].
  destruct (note_stands DEDUP_TTL DEDUP_CAPACITY (cap_now c) (key_of e) (log_datagrams l) (datagrams p)) as (w' & Hw & Hw'); [done|done|done|].
  change (datagrams (set_counters count_packet p)) with (datagrams p). rewrite Hw. cbn [mbind option_bind]. destruct (repeated DEDUP_TTL _ _ _ _); [by eexists; split; [done|split]|].
  pose proof (parse_ends e (cap_observed_at c) (decoded_length _ _ _ He Hb)) as Hends. destruct (parse e (cap_observed_at c)) as [ds|[m| |]]; try done; [|by eexists; split; [done|split]].
  set (p1 := set_counters (count_parsed (kind_of e)) _). destruct (kind_of e) eqn:Hk; try (by eexists; split; [done|split]).
  pose proof (dedup_user_agent_ok (cap_now c) e ds p1 (log_user_agents l) Hu) as Hua.
  destruct (user_agent_of ds) as [u|]; cbv zeta in Hua |- *; [destruct (repeated HTTP_USER_AGENT_DEDUP_TTL _ _ _ _)|]; destruct Hua as (p' & -> & Hdg & Hst);
    (exists p'; split; [done|]; split; [by rewrite Hdg|done]).
Qed.

Definition captured (cs : list Capture) : Prop := StronglySorted (λ a b, cap_now a ≤ cap_now b) cs ∧ Forall (λ c, Forall is_u8 (cap_bytes c)) cs.

Lemma captures_ok cs now l p : captured cs → Forall (λ c, now ≤ cap_now c) cs → proc_ok now l p →
  ∃ p' now', foldl (λ p c, p ← p; fst <$> handle p c) (Some p) cs = Some p' ∧ proc_ok now' (foldl (λ l c, fst (answer l c)) l cs) p' ∧ (now' = now ∨ ∃ c, c ∈ cs ∧ now' = cap_now c).
Proof.
  intros [Hs Hb]. revert now l p. induction Hs as [|c cs Hs IH Hc]; intros now l p Hn Hok; [exists p, now; split_and!; auto|]. apply Forall_cons in Hb as [Hcb Hb], Hn as [Hcn _].
  destruct (handle_ok now l p c Hok Hcn Hcb) as (p1 & Hh & Hok1). destruct (IH Hb (cap_now c) _ p1 Hc Hok1) as (p' & now' & Hf & Hok' & Hnow).
  exists p', now'. cbn [foldl mbind option_bind]. rewrite Hh. split_and!; [done|done|]. right. destruct Hnow as [->|(d & Hd & ->)]; [exists c|exists d]; (split; [|done]); [by left|by right].
Qed.

Lemma stands_bounded {K} `{Countable K} ttl capacity now (log : list (Z * K)) w : 0 ≤ capacity → stands ttl capacity now log w → Z.of_nat (size (recent w)) ≤ capacity.
Proof. intros Hc (t & _ & _ & Hr). by eapply represents_bounded. Qed.

(** C40: The discovery of devices withstands whatever is captured: over any sequence of
    captures in the order of time the processor never stops at an index, an empty
    queue or a loop without end, and keeps at most 16384 datagrams and 4096 user
    agents; and it answers as a reference that forgets nothing: a datagram is
    dropped exactly when it is truncated or repeats one of the last 16384 that were
    parsed, less than a second ago, a user agent exactly when it repeats one of the
    last 4096 reported of that device, less than a minute ago, and any other is
    answered by what parsing it says. *)
Theorem discovery_processor_exact cs c : captured (cs ++ [c]) → ∃ p p', run_captures cs = Some p ∧ handle p c = Some (p', snd (answer (logged cs) c)) ∧
  Z.of_nat (fst (dedup_entries p)) ≤ DEDUP_CAPACITY ∧ Z.of_nat (snd (dedup_entries p)) ≤ HTTP_USER_AGENT_DEDUP_CAPACITY.
Proof.
  intros [Hs Hb]. set (first := match cs ++ [c] with d :: _ => cap_now d | [] => 0 end). assert (Forall (λ d, first ≤ cap_now d) (cs ++ [c])) as Hfirst.
  { subst first. destruct (cs ++ [c]) as [|d ds]; [constructor|]. apply StronglySorted_inv in Hs as [_ Hs]. constructor; [lia|done]. }
  apply Forall_app in Hb as [Hbs Hbc]. rewrite Forall_singleton in Hbc. pose proof Hs as Hs0.
  assert (StronglySorted (λ a b, cap_now a ≤ cap_now b) cs ∧ Forall (λ d, cap_now d ≤ cap_now c) cs) as [Hscs Hlast].
  { clear -Hs. induction cs as [|d cs IH]; [split; constructor|]. cbn in Hs. apply StronglySorted_inv in Hs as [Hs Hd]. destruct (IH Hs) as [IH1 IH2]. apply Forall_app in Hd as [Hd1 Hd2].
    rewrite Forall_singleton in Hd2. split; [constructor; [exact IH1|exact Hd1]|constructor; [exact Hd2|exact IH2]]. }
  apply Forall_app in Hfirst as [Hfcs Hfc]. rewrite Forall_singleton in Hfc.
  assert (proc_ok first (mkLog [] []) new_processor) as Hnew.
  { assert (∀ K `{Countable K} ttl cap, stands ttl cap first [] (no_window (K := K))) as Hno by (intros; exists first; split; [lia|]; split; [split; constructor|apply no_window_represents]).
    split; apply Hno. }
  destruct (captures_ok cs first _ new_processor (conj Hscs Hbs) Hfcs Hnew) as (p & now & Hrun & Hok & Hnow).
  assert (now ≤ cap_now c) as Hle by (destruct Hnow as [->|(d & Hd & ->)]; [done|by apply (proj1 (Forall_forall _ _) Hlast)]).
  destruct (handle_ok now _ p c Hok Hle Hbc) as (p' & Hh & _). exists p, p'. destruct Hok as [Hd Hu].
  split_and!; [done|done| |]; by eapply stands_bounded; [|done].
Qed.
End runs.

(** A request for a page from 10.0.0.2, captured twice within a second. *)
#[local] Instance sum_codec : DiscoveryCodec := {
  mdns_from_vec _ := Err "not a message";
  utf8_error_text _ := "invalid utf-8";
  hash_bytes bs := foldr Z.add 0 bs;
  hash_text s := foldr Z.add 0 (str_bytes s);
}.
Definition http_request : list Z :=
  str_bytes "GET / HTTP/1.1" ++ [13; 10] ++ str_bytes "User-Agent: camera/2" ++ [13; 10; 13; 10].
Definition request_event : list Z :=
  let n := zlen http_request in
  replicate 16 0 ++ [n; 0; 4; 0; 10; 0; 0; 2] ++ replicate 12 0 ++ [2; 0; 0; 0; 0; 1; 156; 64; 0; 80; n; 0] ++ http_request ++ replicate (2048 - length http_request) 0.

Example first_request_read : match p ← run_captures false []; handle false p (mkCapture request_event 1000 0) with
  | Some (_, Ok [d]) => d_protocol d = "http"%string ∧ d_ip d = [10; 0; 0; 2] ∧ d_attributes d !! "user-agent" = Some "camera/2"%string
  | _ => False
  end.
Proof. vm_compute. by split_and!. Qed.

Lemma discovery_processor_exact_witness : ∃ p p', run_captures false [mkCapture request_event 1000 0] = Some p ∧ handle false p (mkCapture request_event 1500 500000000) = Some (p', Ok []) ∧
  Z.of_nat (fst (dedup_entries p)) ≤ DEDUP_CAPACITY ∧ Z.of_nat (snd (dedup_entries p)) ≤ HTTP_USER_AGENT_DEDUP_CAPACITY.
Proof.
  change (Ok []) with (snd (answer false (logged false [mkCapture request_event 1000 0]) (mkCapture request_event 1500 500000000))).
  apply (discovery_processor_exact false [mkCapture request_event 1000 0] (mkCapture request_event 1500 500000000)). split.
  - repeat constructor; cbn; lia.
  - assert (Forall is_u8 request_event) as Hb by (apply (bool_decide_unpack _); vm_compute; exact I). constructor; [exact Hb|]. constructor; [exact Hb|constructor].
Defined.
